(* ===== verification/_CoqProject ===== *)
-Q . S2P
Prelude.v
Bitset.v
Crc.v
Uuid.v
DmString.v
DmList.v
Hash.v
Metadata.v
PvManip.v
PvSegs.v
PvProps.v
LvManip.v
LvSegs.v
LvReduce.v
LvProps.v
CheckLv.v
Device.v
DevIo.v
FormatText.v
FormatTextProps.v
MdaProps.v
TextLayout.v
Config.v
ConfigProps.v
Flags.v
ConfigText.v
TextExport.v
ExportProps.v
ExportMain.v
ExportThms.v
TextImport.v
ImportProps.v
ImportPvs.v
ImportLvs.v
Quiet.v
Place.v
ImportSegs.v
ImportErrors.v
ImportLvSegs.v
ImportVg.v
ImportMain.v
ExportSource.v
RoundTrip.v
Regex.v
RegexLang.v
RegexOpt.v
RegexParse.v
Ttree.v
Matcher.v
MatcherTables.v
MatcherProps.v
RegexThms.v
Filter.v
FilterProps.v
FilterDevs.v
FilterTypes.v
FilterThms.v
FilterCache.v
Label.v
LabelProps.v
FileLock.v
FileLockProps.v
LockOrder.v
PvMap.v
