(* ===== verification/Prelude.v ===== *)
(** * A verification library for LVM2

    LVM2 maps logical volumes (LVs) onto the extents of physical volumes (PVs)
    grouped in volume groups (VGs), and keeps the map as text in metadata areas on
    the PVs.  This development models parts of the C code under [src/] as Rocq
    functions and proves what they do.

    ** How code is modelled

    - Machine integers are [Z] with the wrap-around of their width written out
      ([wrap32], [wrap64], [swrap]); strings are lists of byte values without the NUL.
    - [None] stands for an access outside an object, a NULL or wild pointer, a
      division by zero, or fuel that ran out.  A theorem that gives [Some] thus also
      says that nothing of this happens.
    - Structures that point at each other live in a store with one table for each
      struct, addresses being keys (Metadata.v: [store], monad [M]); list heads of
      the C code are lists of addresses, except in DmList.v, which verifies the list
      code itself on a heap of links.
    - Allocation takes its outcome from a list in the store, system calls take theirs
      from a list of results, so theorems quantify over failures.
    - Code outside [src/] and handlers that are not modelled are arguments:
      ioctls ([discard_env]), the format's setup and thin pools' detach ([lv_env]),
      floating point ([Config.v]).

    ** Files

    - Prelude: machine integers, array accesses, strings and numbers, tactics
      ([reflect_bool], [case_if]), hint databases [cint] and [lists], sums.
    - Bitset (libdm/datastruct/bitset.c and the macros of libdevmapper.h): a bitset
      is a set of numbers; iteration visits the members in order.
    - Crc (lib/misc/crc.c): the word-wise checksum is the bit-serial CRC-32.
    - Uuid (lib/uuid/uuid.c): identifiers, their text form, LV numbers.
    - DmString (libdm/libdm-string.c, lib/misc/lvm-string.c): device-mapper names,
      quoting, validity of names.
    - DmList (libdm/datastruct/list.c): rings of links stand for lists; reads and writes
      need a list at the address.
    - Hash (libdm/datastruct/hash.c): a hash table stands for a finite map.
    - Metadata (lib/metadata/*.h): the structs, the store and its monad.
    - PvManip, PvSegs, PvProps (lib/metadata/pv_manip.c): PV segments tile a PV; a
      PV's segments stand for the function from extents to owners that assigning,
      releasing and resizing change.  PvManip has the code, PvSegs the invariant
      [vg_ok] and a specification per operation, PvProps the main theorems.
    - LvManip, LvSegs, LvReduce, LvProps (lib/metadata/lv_manip.c, merge.c,
      lib/striped, lib/error, lib/zero): segments of LVs and their areas.  Splitting,
      merging, reducing and removing are specified by what each physical extent
      holds ([lv_extent]) and proved against the specifications of PvSegs.  The array of
      areas of a segment has less than 2^32 bytes ([seg_ok]), as its size is computed in
      32 bits.
    - Device (the device the metadata code sees) and DevIo (lib/device/dev-io.c):
      Device states what a read and a write may do; DevIo proves that block-wise I/O
      with any results of the system calls does no more.
    - FormatText, FormatTextProps, MdaProps (lib/format_text/format-text.c): metadata
      areas with header, location slots and circular text buffer; the two-phase
      update.  The theorems are proved against Device.  Texts are aligned to 512 bytes;
      on devices with larger blocks a text can share a block with the header, so there the
      theorems are about writes that leave the rest of their blocks alone, and
      [large_blocks_lose_header] shows what another one does.
    - TextLayout (format-text.c, metadata.c): where label, metadata areas and extents
      lie on a PV, alignment, resizing.
    - Config, ConfigProps (libdm/libdm-config.c): the configuration parser, writer and
      lookups.
    - Flags (lib/format_text/flags.c, tags.c, lib/display/display.c): status flags,
      tags and allocation policies, printed and read.
    - CheckLv (merge.c, check_lv_segments): the consistency check of an LV, with the
      count of errors as state; it decides a declarative property of LVs on PVs.
    - ConfigText (libdm-config.c): what texts the parser reads as a given tree,
      as a relation [denotes] that is closed under layout and comments.
    - TextExport, ExportProps, ExportMain, ExportThms (lib/format_text/export.c): a
      VG written as text.  A formatter is a class ([LineFormatter]) with the file and
      an unbounded buffer as instances; the growing buffer of metadata areas
      simulates the latter.  The text denotes the tree [vg_tree].
    - TextImport (lib/format_text/import_vsn1.c, import.c): a VG built from its text.
      ImportProps reads the fields of VG and PVs, ImportPvs the PVs, ImportLvs the
      names of the LVs, ImportSegs one segment, ImportLvSegs the segments of an LV,
      ImportVg the second pass over the LVs, ImportMain the whole section
      ([import_tree], [read_vg_spec]).  A [slot] is the range of extents an area
      takes; what the PVs hold is a function of the slots read so far.  Quiet is a
      class of programs that leave all fields but the segments alone, Place assigns
      free extents.  ImportErrors has malformed input.
    - ExportSource, RoundTrip: the tree of an exported VG is a tree the import reads,
      and the VG that is read back is the one that was written ([restored]).
    - Regex (libdm/regex/parse_rx.c), Ttree (ttree.c), Matcher (matcher.c): regular
      expressions.  RegexLang has languages as predicates on words with setoid
      equality, and the position functions; RegexOpt the optimiser, RegexParse the
      parser on the texts of patterns, MatcherTables the tables and MatcherProps the
      states ([regex_ok]) made on demand.  RegexThms has what a matcher answers.
    - Filter (lib/filters/filter-regex.c, filter-composite.c, filter-persistent.c, the
      walk of lib/device/dev-cache.c), FilterDevs (filter-sysfs.c, filter.c,
      filter-md.c, filter-mpath.c, and _init_filter_components of
      lib/commands/toolcontext.c), FilterCache (the file of filter-persistent.c): device
      filters.  The class [Filter] of FilterProps is what a filter promises, a decision
      that does not depend on which name of a device is preferred; composition and the
      persistent filter are proved against it, FilterTypes and FilterProps discharge it.
      FilterThms has the filters for md and multipath components, of which the latter
      keeps the promise only for disks whose names lead to the same holders
      ([holders_agree]), and the chain of a configuration under walks and wipes.
      Directories, files, md signatures and the answers of the kernel are arguments.
    - Label (lib/label/label.c, lib/format_text/text_label.c, and the tests of
      lib/format1/lvm1-label.c and lib/format_pool/pool_label.c): labels of PVs, as bytes
      of a sector.  A labeller is a record of its operations; the readers of the old
      formats are arguments.  LabelProps has the label as it is on the device
      ([label_bytes]), its round trip through the scan, and its removal.
    - FileLock (lib/locking/file_locking.c): locks of VGs as lock files.  A function is a
      program of system calls, the kernel has names, inodes, open descriptions and their
      locks, and the calls of processes are interleaved by a step relation in which
      every call may fail and every process may end.  FileLockProps has what a process
      knows of its descriptions ([view]), a predicate on programs ([wp]) that says they
      keep to it, the exclusion of locks in all reachable states, runs of one process
      alone, and what a fork with locks does.  LockOrder (lib/locking/locking.c, the lock names of lib/cache/lvmcache.c)
      has the order in which VGs are locked, and systems of processes that wait for locks
      and for the auxiliary locks that give writers priority.
    - PvMap (lib/metadata/pv_map.c): the free areas of PVs that an allocation starts
      from, made from the segments of PvManip.  Their extents are compared with the
      owners of extents of PvSegs and with the count of pv_manip.c.
    ** What the theorems show

    - Refinement of abstract objects: bitsets are sets, rings are lists, hash tables
      are maps, PV and LV segments are functions from extents to owners, block-wise
      I/O is an array of bytes.
    - Round trips: identifiers, device-mapper names, escaped strings, metadata area
      headers, configuration trees.
    - Two-phase update: readers see the old metadata until the commit and the new
      after it, and with blocks of 512 bytes a failed or interrupted write keeps the
      committed text.
    - Invariants: the layout of a PV, consistency of counts, segments and owners.
    - Error paths: failed allocations, failed and short I/O, refused arguments.
    - Where the code does not do what it means to, a theorem or lemma shows the input
      (an overlong text in a metadata area, a resize below the start of the extents, a
      hint for a hash table above 2^31, lookups below a leaf of the configuration).

    ** Fuel

    Loops over lists and arrays are structural.  Fuel is used for the retry loop of
    reads and writes (at most the number of results the kernel is given), for
    the parser (linear in the text, [config_parse_terminates] shows that it suffices),
    for the doubling loop of a hash table (33 steps decide) and its iterator (any fuel from
    the number of entries on), for the walk along a ring, and for LVs that are layers of
    other LVs ([lv_reduce_]: the depth of the layering; LVs on PVs need 1).

    ** Not modelled

    - Everything that only talks to the kernel, to daemons or to people: activation,
      ioctls, udev, cluster locking, walking /dev, the cache of VG summaries, reports, the tools.
    - The allocator of new extents, mirror, RAID, thin and snapshot operations, which
      interleave metadata updates with activation.
    - The formats of LVM1 and GFS pools, archives and backups.
    - Floating point in configuration files (an argument of the model), locales, and
      memory pools: memory that is allocated but never used again is not tracked. *)

From Stdlib Require Export ZArith Lia.
From Stdlib Require Import Ascii String.
From stdpp Require Export prelude.

#[global] Open Scope Z_scope.

(** ** Machine integers *)

(** The residue a [w]-bit unsigned register holds. *)
Definition wrap (w z : Z) : Z := z mod 2 ^ w.

Definition wrap8 : Z -> Z := wrap 8.
Definition wrap32 : Z -> Z := wrap 32.
Definition wrap64 : Z -> Z := wrap 64.

(** A [w]-bit two's-complement reading of [z]. *)
Definition swrap (w z : Z) : Z := (z + 2 ^ (w - 1)) mod 2 ^ w - 2 ^ (w - 1).

Definition is_u8 (z : Z) : Prop := 0 <= z < 256.
Definition is_u32 (z : Z) : Prop := 0 <= z < 4294967296.
Definition is_u64 (z : Z) : Prop := 0 <= z < 18446744073709551616.

Declare Scope cint_scope.
Delimit Scope cint_scope with cint.
Notation "a +u b" := (wrap32 (a + b)) (at level 50, left associativity) : cint_scope.
Notation "a -u b" := (wrap32 (a - b)) (at level 50, left associativity) : cint_scope.
Notation "a *u b" := (wrap32 (a * b)) (at level 40, left associativity) : cint_scope.

Lemma wrap_range w z : 0 <= w -> 0 <= wrap w z < 2 ^ w.
Proof. intros. apply Z.mod_pos_bound. lia. Qed.

Lemma wrap_small w z : 0 <= z < 2 ^ w -> wrap w z = z.
Proof. apply Z.mod_small. Qed.

Lemma wrap32_range z : is_u32 (wrap32 z).
Proof. apply (wrap_range 32 z). lia. Qed.

Lemma wrap32_small z : 0 <= z < 4294967296 -> wrap32 z = z.
Proof. apply (wrap_small 32). Qed.

Lemma wrap64_small z : 0 <= z < 18446744073709551616 -> wrap64 z = z.
Proof. apply (wrap_small 64). Qed.

Lemma wrap32_idem z : wrap32 (wrap32 z) = wrap32 z.
Proof. apply wrap32_small, wrap32_range. Qed.

(** Additions and subtractions may be wrapped early or late. *)
Lemma wrap32_add_l a b : wrap32 (wrap32 a + b) = wrap32 (a + b).
Proof. unfold wrap32, wrap. apply Zplus_mod_idemp_l. Qed.

Lemma wrap32_add_r a b : wrap32 (a + wrap32 b) = wrap32 (a + b).
Proof. unfold wrap32, wrap. apply Zplus_mod_idemp_r. Qed.

Lemma wrap32_sub_l a b : wrap32 (wrap32 a - b) = wrap32 (a - b).
Proof. unfold wrap32, wrap. apply Zminus_mod_idemp_l. Qed.

Lemma wrap32_sub_r a b : wrap32 (a - wrap32 b) = wrap32 (a - b).
Proof. unfold wrap32, wrap. apply Zminus_mod_idemp_r. Qed.

(** ** Tactics *)

(** [lia] knows division and remainder by constants. *)
Ltac Zify.zify_post_hook ::= Z.div_mod_to_equations.

(** Reflect every boolean integer comparison of the context and the goal. *)
Ltac reflect_bool :=
  repeat match goal with
  | H : _ && _ = true |- _ => apply andb_true_iff in H as [? ?]
  | H : _ || _ = false |- _ => apply orb_false_iff in H as [? ?]
  | H : negb _ = true |- _ => apply negb_true_iff in H
  | H : negb _ = false |- _ => apply negb_false_iff in H
  | H : (_ <? _) = true |- _ => apply Z.ltb_lt in H
  | H : (_ <? _) = false |- _ => apply Z.ltb_ge in H
  | H : (_ <=? _) = true |- _ => apply Z.leb_le in H
  | H : (_ <=? _) = false |- _ => apply Z.leb_gt in H
  | H : (_ =? _) = true |- _ => apply Z.eqb_eq in H
  | H : (_ =? _) = false |- _ => apply Z.eqb_neq in H
  end.

(** Case analysis on the outermost [if] or [match] scrutinee of the goal. *)
Ltac case_if :=
  match goal with
  | |- context [if ?b then _ else _] => let E := fresh "E" in destruct b eqn:E
  end.

(** Case analysis on the scrutinee of an [if] of hypothesis [H]. *)
Ltac case_if_in H :=
  match type of H with
  | context [if ?b then _ else _] => let E := fresh "E" in destruct b eqn:E
  end.

(** Remove a wrap whose argument is in range. *)
Ltac unwrap32 := rewrite ?wrap32_small by (unfold is_u32 in *; lia).

Create HintDb cint discriminated.
Create Rewrite HintDb cint.
#[export] Hint Resolve wrap32_range : cint.
#[export] Hint Rewrite wrap32_idem wrap32_add_l wrap32_add_r wrap32_sub_l
  wrap32_sub_r : cint.

(** ** Bounds-checked arrays

    The guard comes first, so that evaluating an access with a huge index does
    not build the index in unary. *)

Definition zlookup {A} (l : list A) (i : Z) : option A :=
  if (0 <=? i) && (i <? Z.of_nat (length l)) then l !! Z.to_nat i else None.

Definition zupdate {A} (l : list A) (i : Z) (x : A) : option (list A) :=
  if (0 <=? i) && (i <? Z.of_nat (length l)) then Some (<[Z.to_nat i := x]> l) else None.

Lemma zlookup_nat {A} (l : list A) (n : nat) : zlookup l (Z.of_nat n) = l !! n.
Proof.
  unfold zlookup. rewrite Nat2Z.id. case_if; [done|].
  symmetry. apply lookup_ge_None_2. apply andb_false_iff in E as [?|?]; reflect_bool; lia.
Qed.

Lemma zlookup_Some {A} (l : list A) i x :
  zlookup l i = Some x -> 0 <= i < Z.of_nat (length l) /\ l !! Z.to_nat i = Some x.
Proof. unfold zlookup. case_if; [|done]. reflect_bool. done. Qed.

Lemma zlookup_is_Some {A} (l : list A) i :
  0 <= i < Z.of_nat (length l) -> exists x, zlookup l i = Some x.
Proof.
  intros H. rewrite <- (Z2Nat.id i) by lia. rewrite zlookup_nat.
  apply lookup_lt_is_Some_2. lia.
Qed.

Lemma zlookup_lookup {A} (l : list A) i :
  0 <= i -> zlookup l i = l !! Z.to_nat i.
Proof. intros H. rewrite <- (Z2Nat.id i) at 1 by lia. apply zlookup_nat. Qed.

Lemma zlookup_None {A} (l : list A) i :
  i < 0 \/ Z.of_nat (length l) <= i -> zlookup l i = None.
Proof.
  intros H. unfold zlookup. case_if; [|done]. reflect_bool. lia.
Qed.

Lemma zupdate_Some {A} (l : list A) i x :
  0 <= i < Z.of_nat (length l) -> zupdate l i x = Some (<[Z.to_nat i := x]> l).
Proof.
  intros H. unfold zupdate. case_if; [done|].
  apply andb_false_iff in E as [?|?]; reflect_bool; lia.
Qed.

(** ** Bits of 32-bit values *)

Lemma testbit_u32_high w k : is_u32 w -> 32 <= k -> Z.testbit w k = false.
Proof.
  intros Hw Hk. destruct (Z.eq_dec w 0) as [->|]; [apply Z.bits_0|].
  apply Z.bits_above_log2; unfold is_u32 in *; [lia|].
  apply Z.log2_lt_pow2; [lia|]. apply Z.lt_le_trans with (2 ^ 32); [lia|].
  apply Z.pow_le_mono_r; lia.
Qed.

(** A word is a 32-bit value when no bit from 32 on is set. *)
Lemma is_u32_testbit w :
  0 <= w -> (forall k, 32 <= k -> Z.testbit w k = false) -> is_u32 w.
Proof.
  intros H0 Hb. split; [done|]. apply Z.nle_gt. intros Hge.
  specialize (Hb (Z.log2 w)).
  rewrite Z.bit_log2 in Hb by lia.
  assert (32 <= Z.log2 w) by (change 32 with (Z.log2 4294967296); by apply Z.log2_le_mono).
  by specialize (Hb H).
Qed.

Lemma is_u32_lor a b : is_u32 a -> is_u32 b -> is_u32 (Z.lor a b).
Proof.
  intros Ha Hb. apply is_u32_testbit; [apply Z.lor_nonneg; unfold is_u32 in *; lia|].
  intros k Hk. by rewrite Z.lor_spec, !testbit_u32_high.
Qed.

Lemma is_u32_land a b : is_u32 a -> is_u32 b -> is_u32 (Z.land a b).
Proof.
  intros Ha Hb. apply is_u32_testbit; [apply Z.land_nonneg; unfold is_u32 in *; lia|].
  intros k Hk. by rewrite Z.land_spec, !testbit_u32_high.
Qed.

Lemma is_u32_lxor a b : is_u32 a -> is_u32 b -> is_u32 (Z.lxor a b).
Proof.
  intros Ha Hb. apply is_u32_testbit; [apply Z.lxor_nonneg; unfold is_u32 in *; lia|].
  intros k Hk. by rewrite Z.lxor_spec, !testbit_u32_high.
Qed.

(** Disk sectors. *)
Definition SECTOR_SHIFT : Z := 9.
Definition SECTOR_SIZE : Z := 512.

(** ** Characters and numbers of the C library *)

Definition isspace (c : Z) : bool := ((9 <=? c) && (c <=? 13)) || (c =? 32).
Definition isdigit (c : Z) : bool := (48 <=? c) && (c <=? 57).
Definition tolower (c : Z) : Z := if (65 <=? c) && (c <=? 90) then c + 32 else c.

(** The decimal digits of a number below 10^20, in front of [acc]. *)
Fixpoint dec_digits (fuel : nat) (n : Z) (acc : list Z) : list Z :=
  match fuel with
  | O => acc
  | S fuel => let acc := 48 + n mod 10 :: acc in if n <? 10 then acc else dec_digits fuel (n / 10) acc
  end.

(** The printf conversion of a 64-bit integer. *)
Definition print_int (n : Z) : list Z := if n <? 0 then 45 :: dec_digits 20 (- n) [] else dec_digits 20 n [].

Definition digit_value (c : Z) : option Z :=
  if isdigit c then Some (c - 48)
  else if (97 <=? tolower c) && (tolower c <=? 122) then Some (tolower c - 87) else None.

(** The digits in base [base] at the front of [s] added to [acc]; [None] when the
    end of the text is reached. *)
Fixpoint read_digits (base : Z) (s : list Z) (acc : Z) : option Z :=
  match s with
  | [] => None
  | c :: s =>
      match digit_value c with
      | Some d => if d <? base then read_digits base s (acc * base + d) else Some acc
      | None => Some acc
      end
  end.

Definition LLONG_MAX : Z := 2 ^ 63 - 1.
Definition LLONG_MIN : Z := - 2 ^ 63.

(** The number at the front of [s], in the base that its prefix says. *)
Definition prefixed_number (s : list Z) : option Z :=
  match s with
  | 48 :: x :: d :: s' =>
      if tolower x =? 120 then
        match digit_value d with
        | Some v => if v <? 16 then read_digits 16 (d :: s') 0 else Some 0
        | None => Some 0
        end
      else read_digits 8 s 0
  | [48; x] => if tolower x =? 120 then None else read_digits 8 s 0
  | 48 :: _ => read_digits 8 s 0
  | _ => read_digits 10 s 0
  end.

(** strtoll with base 0 on a text without leading white space: the text runs to
    the end of the memory that may be read; [None] when it is read past. *)
Definition strtoll (s : list Z) : option Z :=
  let '(neg, s) := match s with
                   | 45 :: s => (true, s)
                   | 43 :: s => (false, s)
                   | _ => (false, s)
                   end in
  (fun v => if neg : bool then Z.max LLONG_MIN (- v) else Z.min LLONG_MAX v) <$> prefixed_number s.

(** ** Strings as byte lists *)

(** The byte values of a Rocq string literal; the terminating NUL of the C
    string is not part of the list. *)
Fixpoint bytes (s : string) : list Z :=
  match s with
  | EmptyString => []
  | String c s => Z.of_N (N_of_ascii c) :: bytes s
  end.
Arguments bytes s%_string_scope.
Export String.StringSyntax.

(** Reading a C string at an offset: the byte, or the NUL just past the end. *)
Definition cstr_at (s : list Z) (i : nat) : Z := default 0 (s !! i).

(** No byte of the list is NUL, and all are byte values. *)
Definition is_cstr (s : list Z) : Prop := Forall (fun b => 0 < b < 256) s.

(** ** Shared list lemmas *)

Lemma Forall_lookup_Z {A} (P : A -> Prop) (l : list A) i x :
  Forall P l -> l !! i = Some x -> P x.
Proof. rewrite Forall_lookup. eauto. Qed.

Lemma suffix_tail {A} (l : list A) : tail l `suffix_of` l.
Proof. destruct l as [|x l]; [done|]. by exists [x]. Qed.

Lemma rev_fmap {A B} (f : A -> B) (l : list A) : rev (f <$> l) = f <$> rev l.
Proof. symmetry. apply map_rev. Qed.

(** Sum of a list of integers. *)
Definition zsum (l : list Z) : Z := foldr Z.add 0 l.

Lemma zsum_cons x l : zsum (x :: l) = x + zsum l.
Proof. reflexivity. Qed.

Lemma zsum_app l k : zsum (l ++ k) = zsum l + zsum k.
Proof. induction l; simpl; lia. Qed.

Lemma zsum_nonneg l : Forall (fun z => 0 <= z) l -> 0 <= zsum l.
Proof. induction 1; simpl; lia. Qed.

Lemma zsum_update {A} `{EqDecision A} (f f' : A -> Z) (l : list A) p :
  NoDup l -> p ∈ l -> (forall q, q ∈ l -> q <> p -> f' q = f q) ->
  zsum (map f' l) = zsum (map f l) + (f' p - f p).
Proof.
  intros Hnd Hp Hf. apply list_elem_of_split in Hp as (l1 & l2 & ->).
  apply NoDup_app in Hnd as (_ & Hd & H2). apply NoDup_cons in H2 as [H2 _].
  rewrite !map_app, !zsum_app. cbn [map]. rewrite !zsum_cons.
  assert (map f' l1 = map f l1) as ->.
  { apply map_ext_in. intros q Hq%list_elem_of_In. apply Hf; [set_solver|]. intros ->. apply (Hd p Hq). constructor. }
  assert (map f' l2 = map f l2) as ->.
  { apply map_ext_in. intros q Hq%list_elem_of_In. apply Hf; [set_solver|]. by intros ->. }
  lia.
Qed.

Lemma zsum_elem {A} (f : A -> Z) (l : list A) p :
  p ∈ l -> (forall q, q ∈ l -> 0 <= f q) -> f p <= zsum (map f l).
Proof.
  intros Hp Hf. apply list_elem_of_split in Hp as (l1 & l2 & ->).
  rewrite map_app, zsum_app. cbn [map]. rewrite zsum_cons.
  assert (0 <= zsum (map f l1)).
  { apply zsum_nonneg, Forall_forall. intros z (q & -> & Hq)%list_elem_of_fmap. apply Hf. set_solver. }
  assert (0 <= zsum (map f l2)).
  { apply zsum_nonneg, Forall_forall. intros z (q & -> & Hq)%list_elem_of_fmap. apply Hf. set_solver. }
  lia.
Qed.

Lemma zsum_add {A} (f g : A -> Z) l : zsum (map (fun a => f a + g a) l) = zsum (map f l) + zsum (map g l).
Proof. induction l as [|a l IH]; [done|]. cbn [map]. rewrite !zsum_cons. lia. Qed.

Create Rewrite HintDb lists.
#[export] Hint Rewrite @zsum_cons @zsum_app @length_app @length_insert @length_replicate
  @length_map @length_fmap @length_take @length_drop : lists.
