(* ===== verification/Bitset.v ===== *)
(** * Bitsets: libdm/datastruct/bitset.c and the [dm_bit*] macros of
    libdm/libdevmapper.h

    A [dm_bitset_t] points to an array of 32-bit words whose word 0 is the
    number of bits.  The model keeps that array as a list of words; an access
    outside the array is [None].  The theorems relate every operation to the
    set of bit numbers the array stands for. *)

From S2P Require Import Prelude.

(** ** The code *)

Definition DM_BITS_PER_INT : Z := 32.
Definition INT_SHIFT : Z := 5.

Definition dm_bitset_create (num_bits : Z) : list Z :=
  let n := num_bits / DM_BITS_PER_INT + 2 in
  num_bits :: replicate (Z.to_nat (n - 1)) 0.

(** The word that holds bit [i]; [i] is converted to [size_t] by the division. *)
Definition bit_word (i : Z) : Z := wrap64 i / DM_BITS_PER_INT + 1.
Definition bit_mask (i : Z) : Z := Z.shiftl 1 (Z.land i (DM_BITS_PER_INT - 1)).

Definition dm_bit (bs : list Z) (i : Z) : option bool :=
  w ← zlookup bs (bit_word i); Some (negb (Z.land w (bit_mask i) =? 0)).

Definition dm_bit_set (bs : list Z) (i : Z) : option (list Z) :=
  w ← zlookup bs (bit_word i); zupdate bs (bit_word i) (Z.lor w (bit_mask i)).

Definition dm_bit_clear (bs : list Z) (i : Z) : option (list Z) :=
  w ← zlookup bs (bit_word i);
  zupdate bs (bit_word i) (Z.land w (wrap32 (Z.lnot (bit_mask i)))).

(** [memset] and [memcpy] of the [n/32 + 1] words after word 0. *)
Definition nwords (n : Z) : nat := Z.to_nat (n / DM_BITS_PER_INT + 1).

Definition bs_fill (v : Z) (bs : list Z) : option (list Z) :=
  match bs with
  | [] => None
  | n :: ws => if (nwords n <=? length ws)%nat
               then Some (n :: replicate (nwords n) v ++ drop (nwords n) ws) else None
  end.

Definition dm_bit_set_all : list Z -> option (list Z) := bs_fill (2 ^ 32 - 1).
Definition dm_bit_clear_all : list Z -> option (list Z) := bs_fill 0.

Definition dm_bit_copy (bs1 bs2 : list Z) : option (list Z) :=
  match bs1, bs2 with
  | n :: ws, _ :: us =>
      if ((nwords n <=? length ws) && (nwords n <=? length us))%nat
      then Some (n :: take (nwords n) us ++ drop (nwords n) ws) else None
  | _, _ => None
  end.

(** [for (i = in1[0]/32 + 1; i; i--)], comparing or combining words downwards. *)
Fixpoint equal_loop (i : nat) (in1 in2 : list Z) : option bool :=
  match i with
  | O => Some true
  | S j => w1 ← in1 !! i; w2 ← in2 !! i;
           if w1 =? w2 then equal_loop j in1 in2 else Some false
  end.

Definition dm_bitset_equal (in1 in2 : list Z) : option bool :=
  n ← in1 !! 0%nat; equal_loop (nwords n) in1 in2.

Fixpoint combine_loop (f : Z -> Z -> Z) (i : nat) (out in1 in2 : list Z) : option (list Z) :=
  match i with
  | O => Some out
  | S j => w1 ← in1 !! i; w2 ← in2 !! i;
           out' ← zupdate out (Z.of_nat i) (f w1 w2);
           combine_loop f j out' in1 in2
  end.

Definition dm_bit_and (out in1 in2 : list Z) : option (list Z) :=
  n ← in1 !! 0%nat; combine_loop Z.land (nwords n) out in1 in2.

Definition dm_bit_union (out in1 in2 : list Z) : option (list Z) :=
  n ← in1 !! 0%nat; combine_loop Z.lor (nwords n) out in1 in2.

(** [ffs]: one plus the index of the least significant set bit, 0 for 0. *)
Fixpoint pos_ffs (p : positive) : Z :=
  match p with
  | xO q => pos_ffs q + 1
  | _ => 1
  end.

Definition ffs (z : Z) : Z := match z with Z.pos p => pos_ffs p | _ => 0 end.

Definition test_word (test bit : Z) : Z :=
  let tb := Z.shiftr test bit in
  if tb =? 0 then -1 else ffs tb + bit - 1.

(** The scan loop; the fuel counts the words left to look at. *)
Fixpoint get_next_loop (fuel : nat) (bs : list Z) (last_bit : Z) : option Z :=
  match fuel with
  | O => None
  | S fuel =>
      n ← bs !! 0%nat;
      if last_bit <? swrap 32 n then
        let word := Z.shiftr last_bit INT_SHIFT in
        test ← zlookup bs (word + 1);
        let bit := test_word test (Z.land last_bit (DM_BITS_PER_INT - 1)) in
        if 0 <=? bit then Some (word * DM_BITS_PER_INT + bit)
        else get_next_loop fuel bs
               (last_bit - Z.land last_bit (DM_BITS_PER_INT - 1) + DM_BITS_PER_INT)
      else Some (-1)
  end.

Definition dm_bit_get_next (bs : list Z) (last_bit : Z) : option Z :=
  get_next_loop (S (length bs)) bs (last_bit + 1).

Definition dm_bit_get_first (bs : list Z) : option Z := dm_bit_get_next bs (-1).

(** ** Well-formed bitsets and their meaning *)

(** An array as [dm_bitset_create] lays it out: [n] bits in [n/32 + 1] words. *)
Definition bs_wf (n : Z) (bs : list Z) : Prop :=
  0 <= n < 2 ^ 31 /\ exists ws, bs = n :: ws /\ length ws = nwords n /\ Forall is_u32 ws.

(** Bit [i] of the array. *)
Definition bs_mem (bs : list Z) (i : Z) : bool :=
  Z.testbit (default 0 (bs !! Z.to_nat (i / 32 + 1))) (i mod 32).

(** The numbers that have a bit in an [n]-bit array (the last word is whole). *)
Definition bs_cap (n : Z) : Z := 32 * (n / 32 + 1).

(** ** Word-level facts *)

Lemma testbit_mask i k :
  0 <= k -> Z.testbit (bit_mask i) k = (k =? i mod 32).
Proof.
  intros Hk. unfold bit_mask, DM_BITS_PER_INT.
  change (32 - 1) with (Z.ones 5). rewrite Z.land_ones by lia.
  change (2 ^ 5) with 32. pose proof (Z.mod_pos_bound i 32 eq_refl).
  rewrite Z.shiftl_spec by lia.
  destruct (Z.eqb_spec k (i mod 32)) as [->|Hne].
  - by rewrite Z.sub_diag.
  - destruct (Z.ltb_spec k (i mod 32)).
    + by rewrite Z.testbit_neg_r by lia.
    + apply Z.bits_above_log2; simpl; lia.
Qed.

Lemma land_mask_eqb w i : negb (Z.land w (bit_mask i) =? 0) = Z.testbit w (i mod 32).
Proof.
  pose proof (Z.mod_pos_bound i 32 eq_refl) as Hm.
  destruct (Z.testbit w (i mod 32)) eqn:Hb; apply Bool.eq_true_iff_eq;
    rewrite negb_true_iff, Z.eqb_neq; split; try done.
  - intros _ H0. assert (Z.testbit (Z.land w (bit_mask i)) (i mod 32) = false) as Hf
      by (by rewrite H0, Z.bits_0).
    rewrite Z.land_spec, testbit_mask, Hb, Z.eqb_refl in Hf by lia. done.
  - intros H0. destruct H0. apply Z.bits_inj'. intros k Hk.
    rewrite Z.bits_0, Z.land_spec, testbit_mask by done.
    destruct (Z.eqb_spec k (i mod 32)) as [->|]; [by rewrite Hb|apply andb_false_r].
Qed.

Lemma testbit_clear_mask i k :
  0 <= k < 32 -> Z.testbit (wrap32 (Z.lnot (bit_mask i))) k = negb (k =? i mod 32).
Proof.
  intros Hk. unfold wrap32, wrap. rewrite Z.mod_pow2_bits_low by lia.
  rewrite Z.lnot_spec, testbit_mask by lia. done.
Qed.

Lemma is_u32_mask i : is_u32 (bit_mask i).
Proof.
  apply is_u32_testbit.
  - unfold bit_mask. apply Z.shiftl_nonneg. lia.
  - intros k Hk. rewrite testbit_mask by lia. apply Z.eqb_neq.
    pose proof (Z.mod_pos_bound i 32 eq_refl). lia.
Qed.

#[export] Hint Resolve is_u32_lor is_u32_land is_u32_mask : cint.
#[export] Hint Extern 1 (is_u32 0) => unfold is_u32; lia : cint.

(** ** The layout of a well-formed array *)

Lemma bs_wf_lookup n bs k :
  bs_wf n bs -> 1 <= k <= n / 32 + 1 ->
  exists w, zlookup bs k = Some w /\ bs !! Z.to_nat k = Some w /\ is_u32 w.
Proof.
  intros (Hn & ws & -> & Hlen & Hws) Hk. unfold nwords, DM_BITS_PER_INT in Hlen.
  destruct (zlookup_is_Some (n :: ws) k) as [w Hw]; [simpl; lia|].
  exists w. split; [done|]. apply zlookup_Some in Hw as [_ Hw]. split; [done|].
  replace (Z.to_nat k) with (S (Z.to_nat (k - 1))) in Hw by lia.
  exact (Forall_lookup_Z _ _ _ _ Hws Hw).
Qed.

Lemma bs_wf_length n bs : bs_wf n bs -> Z.of_nat (length bs) = n / 32 + 2.
Proof. intros (Hn & ws & -> & Hlen & _). unfold nwords, DM_BITS_PER_INT in *. cbn [length]. lia. Qed.

Lemma bs_wf_nwords n bs : bs_wf n bs -> length bs = S (nwords n).
Proof. intros (Hn & ws & -> & Hlen & _). simpl. lia. Qed.

Lemma bs_wf_head n bs : bs_wf n bs -> bs !! 0%nat = Some n.
Proof. by intros (_ & ws & -> & _). Qed.

Lemma bit_word_small n i :
  0 <= n < 2 ^ 31 -> 0 <= i < bs_cap n -> bit_word i = i / 32 + 1 /\ 1 <= i / 32 + 1 <= n / 32 + 1.
Proof. unfold bit_word, DM_BITS_PER_INT, bs_cap. intros. rewrite wrap64_small; lia. Qed.

(** Replacing one word of the array. *)
Lemma bs_wf_update n bs k w :
  bs_wf n bs -> 1 <= k <= n / 32 + 1 -> is_u32 w -> bs_wf n (<[Z.to_nat k := w]> bs).
Proof.
  intros (Hn & ws & -> & Hlen & Hws) Hk Hw. split; [done|].
  replace (Z.to_nat k) with (S (Z.to_nat (k - 1))) by lia. simpl.
  eexists; split; [done|]. rewrite length_insert. split; [done|].
  apply Forall_insert; done.
Qed.

Lemma bs_mem_update n bs k w j :
  bs_wf n bs -> 1 <= k <= n / 32 + 1 -> 0 <= j ->
  bs_mem (<[Z.to_nat k := w]> bs) j =
  if j / 32 + 1 =? k then Z.testbit w (j mod 32) else bs_mem bs j.
Proof.
  intros Hwf Hk Hj. pose proof (bs_wf_length _ _ Hwf). unfold bs_mem.
  destruct (Z.eqb_spec (j / 32 + 1) k) as [<-|Hne].
  - rewrite list_lookup_insert_eq by lia. done.
  - rewrite list_lookup_insert_ne by lia. done.
Qed.

Lemma div_mod_eqb i j : (i / 32 =? j / 32) && (i mod 32 =? j mod 32) = (i =? j).
Proof. apply Bool.eq_true_iff_eq. rewrite andb_true_iff, !Z.eqb_eq. lia. Qed.

(** ** Operations as set operations *)

Lemma bs_create_wf n : 0 <= n < 2 ^ 31 -> bs_wf n (dm_bitset_create n).
Proof.
  intros Hn. split; [done|]. unfold dm_bitset_create, nwords, DM_BITS_PER_INT.
  eexists; split; [done|]. rewrite length_replicate. split; [lia|].
  apply Forall_replicate. unfold is_u32. lia.
Qed.

Lemma bs_mem_create n i : 0 <= i -> bs_mem (dm_bitset_create n) i = false.
Proof.
  intros Hi. unfold bs_mem, dm_bitset_create.
  replace (Z.to_nat (i / 32 + 1)) with (S (Z.to_nat (i / 32))) by lia. simpl.
  destruct (replicate _ _ !! _) as [w|] eqn:E; [|apply Z.bits_0].
  apply lookup_replicate in E as [-> _]. apply Z.bits_0.
Qed.

Lemma dm_bit_spec n bs i :
  bs_wf n bs -> 0 <= i < bs_cap n -> dm_bit bs i = Some (bs_mem bs i).
Proof.
  intros Hwf Hi. unfold dm_bit, bs_mem.
  destruct (bit_word_small n i (proj1 Hwf) Hi) as [-> Hr].
  destruct (bs_wf_lookup n bs (i / 32 + 1) Hwf Hr) as (w & -> & -> & _). simpl.
  by rewrite land_mask_eqb.
Qed.

Lemma dm_bit_set_spec n bs i :
  bs_wf n bs -> 0 <= i < bs_cap n ->
  exists bs', dm_bit_set bs i = Some bs' /\ bs_wf n bs' /\
    forall j, 0 <= j -> bs_mem bs' j = (j =? i) || bs_mem bs j.
Proof.
  intros Hwf Hi. unfold dm_bit_set. pose proof (bs_wf_length _ _ Hwf).
  destruct (bit_word_small n i (proj1 Hwf) Hi) as [-> Hr].
  destruct (bs_wf_lookup n bs (i / 32 + 1) Hwf Hr) as (w & -> & Hlk & Hw). simpl.
  rewrite zupdate_Some by lia. eexists; split; [done|].
  split; [apply bs_wf_update; auto with cint|]. intros j Hj.
  rewrite (bs_mem_update n) by done. rewrite <- (div_mod_eqb j i).
  destruct (Z.eqb_spec (j / 32 + 1) (i / 32 + 1)) as [He|Hne].
  - unfold bs_mem. rewrite He, Hlk. simpl. rewrite Z.lor_spec, testbit_mask by lia.
    rewrite (proj2 (Z.eqb_eq (j / 32) (i / 32))) by lia. simpl. apply orb_comm.
  - rewrite (proj2 (Z.eqb_neq (j / 32) (i / 32))) by lia. done.
Qed.

Lemma dm_bit_clear_spec n bs i :
  bs_wf n bs -> 0 <= i < bs_cap n ->
  exists bs', dm_bit_clear bs i = Some bs' /\ bs_wf n bs' /\
    forall j, 0 <= j -> bs_mem bs' j = negb (j =? i) && bs_mem bs j.
Proof.
  intros Hwf Hi. unfold dm_bit_clear. pose proof (bs_wf_length _ _ Hwf).
  destruct (bit_word_small n i (proj1 Hwf) Hi) as [-> Hr].
  destruct (bs_wf_lookup n bs (i / 32 + 1) Hwf Hr) as (w & -> & Hlk & Hw). simpl.
  rewrite zupdate_Some by lia. eexists; split; [done|].
  split; [apply bs_wf_update; auto with cint|]. intros j Hj.
  rewrite (bs_mem_update n) by done. rewrite <- (div_mod_eqb j i).
  destruct (Z.eqb_spec (j / 32 + 1) (i / 32 + 1)) as [He|Hne].
  - unfold bs_mem. rewrite He, Hlk. simpl. rewrite Z.land_spec, testbit_clear_mask by lia.
    rewrite (proj2 (Z.eqb_eq (j / 32) (i / 32))) by lia. simpl. apply andb_comm.
  - rewrite (proj2 (Z.eqb_neq (j / 32) (i / 32))) by lia. done.
Qed.

(** An index outside the array (a negative [char] among them) is a wild access. *)
Lemma dm_bit_set_oob n bs i :
  bs_wf n bs -> -(2 ^ 31) <= i < 0 -> dm_bit_set bs i = None.
Proof.
  intros Hwf Hi. unfold dm_bit_set, bit_word, DM_BITS_PER_INT.
  assert (wrap64 i = i + 2 ^ 64) as -> by (unfold wrap64, wrap; lia).
  pose proof (bs_wf_length _ _ Hwf). destruct Hwf as [Hn _].
  rewrite zlookup_None; [done|]. right. lia.
Qed.

Lemma bs_fill_spec n bs v :
  bs_wf n bs -> is_u32 v -> exists bs', bs_fill v bs = Some bs' /\ bs_wf n bs' /\
    forall j, 0 <= j < bs_cap n -> bs_mem bs' j = Z.testbit v (j mod 32).
Proof.
  intros (Hn & ws & -> & Hlen & Hws) Hv. unfold bs_fill.
  rewrite (proj2 (Nat.leb_le _ _)) by lia. eexists; split; [done|].
  rewrite drop_ge, app_nil_r by lia. split.
  - split; [done|]. eexists; split; [done|]. rewrite length_replicate. split; [done|].
    by apply Forall_replicate.
  - intros j Hj. unfold bs_mem, bs_cap in *.
    replace (Z.to_nat (j / 32 + 1)) with (S (Z.to_nat (j / 32))) by lia. simpl.
    rewrite lookup_replicate_2; [done|]. unfold nwords, DM_BITS_PER_INT. lia.
Qed.

Lemma dm_bit_set_all_spec n bs :
  bs_wf n bs -> exists bs', dm_bit_set_all bs = Some bs' /\ bs_wf n bs' /\
    forall j, 0 <= j < bs_cap n -> bs_mem bs' j = true.
Proof.
  intros Hwf. destruct (bs_fill_spec n bs (2 ^ 32 - 1) Hwf) as (bs' & ? & ? & Hm);
    [unfold is_u32; lia|]. exists bs'. do 2 (split; [done|]). intros j Hj. rewrite Hm by done.
  apply (Z.ones_spec_low 32). pose proof (Z.mod_pos_bound j 32). lia.
Qed.

Lemma dm_bit_clear_all_spec n bs :
  bs_wf n bs -> exists bs', dm_bit_clear_all bs = Some bs' /\ bs_wf n bs' /\
    forall j, 0 <= j < bs_cap n -> bs_mem bs' j = false.
Proof.
  intros Hwf. destruct (bs_fill_spec n bs 0 Hwf) as (bs' & ? & ? & Hm);
    [auto with cint|]. exists bs'. do 2 (split; [done|]). intros j Hj. rewrite Hm by done.
  apply Z.bits_0.
Qed.

(** Two well-formed arrays of one size copy exactly. *)
Lemma dm_bit_copy_spec n bs1 bs2 :
  bs_wf n bs1 -> bs_wf n bs2 -> dm_bit_copy bs1 bs2 = Some bs2.
Proof.
  intros (Hn & ws & -> & Hlen & Hws) (_ & us & -> & Hlen2 & Hus). unfold dm_bit_copy.
  rewrite !(proj2 (Nat.leb_le _ _)) by lia. simpl.
  by rewrite take_ge, drop_ge, app_nil_r by lia.
Qed.

Lemma equal_loop_spec k in1 in2 :
  (k < length in1)%nat -> (k < length in2)%nat ->
  exists b, equal_loop k in1 in2 = Some b /\
    (b = true <-> forall i, (1 <= i <= k)%nat -> in1 !! i = in2 !! i).
Proof.
  induction k as [|k IH]; intros H1 H2; simpl.
  - exists true. split; [done|]. split; [lia|done].
  - destruct (lookup_lt_is_Some_2 _ _ H1) as [w1 Hw1], (lookup_lt_is_Some_2 _ _ H2) as [w2 Hw2].
    rewrite Hw1, Hw2. simpl. destruct (Z.eqb_spec w1 w2) as [->|Hne].
    + destruct IH as (b & -> & Hb); [lia..|]. exists b. split; [done|]. rewrite Hb.
      split; intros H i Hi; [|apply H; lia].
      destruct (decide (i = S k)) as [->|]; [congruence|apply H; lia].
    + exists false. split; [done|]. split; [done|]. intros H.
      specialize (H (S k)). rewrite Hw1, Hw2 in H. destruct Hne. by injection H; [|lia].
Qed.

Lemma bs_wf_ext n bs1 bs2 :
  bs_wf n bs1 -> bs_wf n bs2 ->
  (forall i, 0 <= i < bs_cap n -> bs_mem bs1 i = bs_mem bs2 i) -> bs1 = bs2.
Proof.
  intros H1 H2 Hm. pose proof (bs_wf_length _ _ H1). pose proof (bs_wf_length _ _ H2).
  apply list_eq_same_length with (length bs1); [lia|done|].
  intros i w1 w2 Hi Hw1 Hw2. destruct (decide (i = 0%nat)) as [->|].
  { rewrite (bs_wf_head n) in Hw1, Hw2 by done. congruence. }
  destruct (bs_wf_lookup n bs1 (Z.of_nat i) H1) as (? & _ & Hl1 & Hu1); [lia|].
  destruct (bs_wf_lookup n bs2 (Z.of_nat i) H2) as (? & _ & Hl2 & Hu2); [lia|].
  rewrite Nat2Z.id in Hl1, Hl2. simplify_eq. apply Z.bits_inj'. intros k Hk.
  destruct (Z.le_gt_cases 32 k); [by rewrite !testbit_u32_high|].
  specialize (Hm (32 * (Z.of_nat i - 1) + k)). unfold bs_mem, bs_cap in Hm.
  replace ((32 * (Z.of_nat i - 1) + k) / 32 + 1) with (Z.of_nat i) in Hm by lia.
  replace ((32 * (Z.of_nat i - 1) + k) mod 32) with k in Hm by lia.
  rewrite Nat2Z.id, Hw1, Hw2 in Hm. apply Hm. lia.
Qed.

(** Equality of arrays is equality of the sets they stand for. *)
Lemma dm_bitset_equal_spec n in1 in2 :
  bs_wf n in1 -> bs_wf n in2 -> dm_bitset_equal in1 in2 = Some (bool_decide (in1 = in2)).
Proof.
  intros H1 H2. unfold dm_bitset_equal. rewrite (bs_wf_head n) by done. simpl.
  pose proof (bs_wf_nwords _ _ H1). pose proof (bs_wf_nwords _ _ H2).
  destruct (equal_loop_spec (nwords n) in1 in2) as (b & -> & Hb); [lia..|].
  f_equal. apply Bool.eq_true_iff_eq. rewrite Hb, bool_decide_eq_true. split; [|by intros ->].
  intros Hl. apply list_eq. intros i. destruct (decide (i = 0%nat)) as [->|].
  - by rewrite !(bs_wf_head n).
  - destruct (decide (i < length in1)%nat); [apply Hl; lia|].
    rewrite !lookup_ge_None_2 by lia. done.
Qed.

Lemma combine_loop_spec f n k out in1 in2 :
  bs_wf n out -> bs_wf n in1 -> bs_wf n in2 -> (k <= nwords n)%nat ->
  (forall a b, is_u32 a -> is_u32 b -> is_u32 (f a b)) ->
  exists out', combine_loop f k out in1 in2 = Some out' /\ bs_wf n out' /\
    forall i, out' !! i = if decide (1 <= i <= k)%nat
                          then (a ← in1 !! i; b ← in2 !! i; Some (f a b)) else out !! i.
Proof.
  intros Hout H1 H2 Hk Hf. revert out Hout. induction k as [|k IH]; intros out Hout; simpl.
  { exists out. split; [done|]. split; [done|]. intros i. by case_decide; [lia|]. }
  unfold nwords, DM_BITS_PER_INT in Hk. pose proof (bs_wf_length _ _ Hout).
  destruct (bs_wf_lookup n in1 (Z.of_nat (S k)) H1) as (w1 & _ & Hw1 & Hu1); [lia|].
  destruct (bs_wf_lookup n in2 (Z.of_nat (S k)) H2) as (w2 & _ & Hw2 & Hu2); [lia|].
  rewrite Nat2Z.id in Hw1, Hw2. rewrite Hw1, Hw2. cbn [mbind option_bind].
  rewrite zupdate_Some by lia. cbn [mbind option_bind].
  destruct (IH ltac:(unfold nwords, DM_BITS_PER_INT; lia)
              (<[Z.to_nat (Z.of_nat (S k)) := f w1 w2]> out)) as (out' & He & Hwf & Hl).
  { apply bs_wf_update; [done|lia|auto]. }
  exists out'. split; [done|]. split; [done|]. intros i. rewrite Hl, Nat2Z.id.
  destruct (decide (i = S k)) as [->|].
  - rewrite !decide_False by lia. rewrite decide_True by lia.
    rewrite list_lookup_insert_eq by lia. by rewrite Hw1, Hw2.
  - rewrite list_lookup_insert_ne by done. repeat case_decide; done || lia.
Qed.

(** Pointwise combination of two sets by a boolean operation [g]. *)
Lemma combine_spec (f : Z -> Z -> Z) (g : bool -> bool -> bool) n out in1 in2 :
  bs_wf n out -> bs_wf n in1 -> bs_wf n in2 ->
  (forall a b, is_u32 a -> is_u32 b -> is_u32 (f a b)) ->
  (forall a b k, Z.testbit (f a b) k = g (Z.testbit a k) (Z.testbit b k)) ->
  exists out', combine_loop f (nwords n) out in1 in2 = Some out' /\ bs_wf n out' /\
    forall j, 0 <= j < bs_cap n -> bs_mem out' j = g (bs_mem in1 j) (bs_mem in2 j).
Proof.
  intros Hout H1 H2 Hf Hg.
  destruct (combine_loop_spec f n (nwords n) out in1 in2) as (out' & He & Hwf & Hl); auto.
  exists out'. split; [done|]. split; [done|]. intros j Hj. unfold bs_mem, bs_cap in *.
  unfold nwords, DM_BITS_PER_INT in Hl.
  destruct (bs_wf_lookup n in1 (j / 32 + 1) H1) as (w1 & _ & Hw1 & _); [lia|].
  destruct (bs_wf_lookup n in2 (j / 32 + 1) H2) as (w2 & _ & Hw2 & _); [lia|].
  rewrite Hl, decide_True by lia. rewrite Hw1, Hw2. simpl. apply Hg.
Qed.

Lemma dm_bit_and_spec n out in1 in2 :
  bs_wf n out -> bs_wf n in1 -> bs_wf n in2 ->
  exists out', dm_bit_and out in1 in2 = Some out' /\ bs_wf n out' /\
    forall j, 0 <= j < bs_cap n -> bs_mem out' j = bs_mem in1 j && bs_mem in2 j.
Proof.
  intros ? H1 ?. unfold dm_bit_and. rewrite (bs_wf_head n) by done. simpl.
  apply combine_spec; auto with cint. intros. apply Z.land_spec.
Qed.

Lemma dm_bit_union_spec n out in1 in2 :
  bs_wf n out -> bs_wf n in1 -> bs_wf n in2 ->
  exists out', dm_bit_union out in1 in2 = Some out' /\ bs_wf n out' /\
    forall j, 0 <= j < bs_cap n -> bs_mem out' j = bs_mem in1 j || bs_mem in2 j.
Proof.
  intros ? H1 ?. unfold dm_bit_union. rewrite (bs_wf_head n) by done. simpl.
  apply combine_spec; auto with cint. intros. apply Z.lor_spec.
Qed.

(** ** Scanning for the next member *)

Lemma pos_ffs_spec p :
  1 <= pos_ffs p /\ Z.testbit (Z.pos p) (pos_ffs p - 1) = true /\
  forall k, 0 <= k < pos_ffs p - 1 -> Z.testbit (Z.pos p) k = false.
Proof.
  induction p as [p IH|p (H1 & H2 & H3)|]; cbn [pos_ffs];
    [split; [lia|split; [done|lia]]| |split; [lia|split; [done|lia]]].
  split; [lia|]. change (Z.pos p~0) with (2 * Z.pos p). split.
  - replace (pos_ffs p + 1 - 1) with (Z.succ (pos_ffs p - 1)) by lia.
    rewrite Z.testbit_even_succ by lia. done.
  - intros k Hk. destruct (Z.eq_dec k 0) as [->|]; [apply Z.testbit_even_0|].
    replace k with (Z.succ (k - 1)) by lia. rewrite Z.testbit_even_succ by lia.
    apply H3. lia.
Qed.

Lemma test_word_spec t b :
  is_u32 t -> 0 <= b < 32 ->
  (test_word t b = -1 /\ forall k, b <= k -> Z.testbit t k = false) \/
  (b <= test_word t b < 32 /\ Z.testbit t (test_word t b) = true /\
   forall k, b <= k < test_word t b -> Z.testbit t k = false).
Proof.
  intros Ht Hb. unfold test_word.
  assert (0 <= Z.shiftr t b) as Hs by (apply Z.shiftr_nonneg; unfold is_u32 in Ht; lia).
  destruct (Z.eqb_spec (Z.shiftr t b) 0) as [E|E].
  - left. split; [done|]. intros k Hk. replace k with ((k - b) + b) by lia.
    rewrite <- Z.shiftr_spec, E by lia. apply Z.bits_0.
  - right. destruct (Z.shiftr t b) as [|p|p] eqn:Ep; [done| |lia].
    cbn [ffs]. destruct (pos_ffs_spec p) as (H1 & H2 & H3).
    rewrite <- Ep, Z.shiftr_spec in H2 by lia.
    replace (pos_ffs p - 1 + b) with (pos_ffs p + b - 1) in H2 by lia.
    split; [|split; [done|]].
    + split; [lia|]. apply Z.nle_gt. intros Hge. by rewrite testbit_u32_high in H2.
    + intros k Hk. replace k with ((k - b) + b) by lia.
      rewrite <- Z.shiftr_spec, Ep by lia. apply H3. lia.
Qed.

(** What a scan from [lo] returns: the least member from [lo] on, or [-1] when
    the set has no member in [lo .. n-1]. *)
Definition is_next (n : Z) (bs : list Z) (lo r : Z) : Prop :=
  (r = -1 /\ forall i, lo <= i < n -> bs_mem bs i = false) \/
  (lo <= r < bs_cap n /\ bs_mem bs r = true /\ forall i, lo <= i < r -> bs_mem bs i = false).

Lemma get_next_loop_spec n bs fuel lo :
  bs_wf n bs -> 0 <= lo -> (1 <= fuel)%nat -> n / 32 - lo / 32 + 2 <= Z.of_nat fuel ->
  exists r, get_next_loop fuel bs lo = Some r /\ is_next n bs lo r.
Proof.
  intros Hwf. revert lo. induction fuel as [|fuel IH]; intros lo Hlo Hf1 Hf; [lia|].
  cbn [get_next_loop]. rewrite (bs_wf_head n) by done. cbn [mbind option_bind].
  assert (swrap 32 n = n) as ->.
  { destruct Hwf as [Hn _]. unfold swrap. rewrite Z.mod_small; lia. }
  unfold INT_SHIFT, DM_BITS_PER_INT. rewrite Z.shiftr_div_pow2 by lia.
  change (32 - 1) with (Z.ones 5). rewrite Z.land_ones by lia. change (2 ^ 5) with 32.
  destruct (Z.ltb_spec lo n) as [Hlt|Hge]; [|exists (-1); split; [done|left; split; [done|lia]]].
  destruct (bs_wf_lookup n bs (lo / 32 + 1) Hwf) as (w & -> & Hw & Hu); [lia|].
  cbn [mbind option_bind].
  assert (forall i, lo / 32 * 32 <= i < lo / 32 * 32 + 32 ->
            bs_mem bs i = Z.testbit w (i - lo / 32 * 32)) as Hmem.
  { intros i Hi. unfold bs_mem. replace (i / 32) with (lo / 32) by lia. rewrite Hw. simpl.
    f_equal. lia. }
  destruct (test_word_spec w (lo mod 32)) as [[-> Hno]|(Hb & Hb1 & Hb2)]; [done|lia|..].
  - rewrite (proj2 (Z.leb_gt 0 (-1))) by lia.
    destruct (IH (lo - lo mod 32 + 32)) as (r & -> & Hr); [lia..|].
    exists r. split; [done|].
    assert (forall i, lo <= i < lo - lo mod 32 + 32 -> bs_mem bs i = false) as Hskip.
    { intros i Hi. rewrite Hmem by lia. apply Hno. lia. }
    destruct Hr as [[-> Hr]|(Hr1 & Hr2 & Hr3)]; [left|right].
    + split; [done|]. intros i Hi. destruct (Z.lt_ge_cases i (lo - lo mod 32 + 32));
      [apply Hskip; lia|apply Hr; lia].
    + split; [lia|]. split; [done|]. intros i Hi.
      destruct (Z.lt_ge_cases i (lo - lo mod 32 + 32)); [apply Hskip; lia|apply Hr3; lia].
  - rewrite (proj2 (Z.leb_le 0 _)) by lia.
    eexists; split; [done|]. right. unfold bs_cap. split; [lia|].
    rewrite Hmem by lia. split.
    + rewrite <- Hb1. f_equal. lia.
    + intros i Hi. rewrite Hmem by lia. apply Hb2. lia.
Qed.

Lemma dm_bit_get_next_spec n bs last :
  bs_wf n bs -> -1 <= last ->
  exists r, dm_bit_get_next bs last = Some r /\ is_next n bs (last + 1) r.
Proof.
  intros Hwf Hl. apply get_next_loop_spec; [done|lia..|].
  pose proof (bs_wf_length _ _ Hwf). lia.
Qed.

Lemma dm_bit_get_first_spec n bs :
  bs_wf n bs -> exists r, dm_bit_get_first bs = Some r /\ is_next n bs 0 r.
Proof. intros Hwf. by apply (dm_bit_get_next_spec n bs (-1)). Qed.

(** ** A bitset is a set of small numbers *)

(** The operations that change one bitset, and their meaning on sets. *)
Inductive bit_op :=
  | OpSet (i : Z)
  | OpClear (i : Z)
  | OpSetAll
  | OpClearAll.

Definition run_bit_op (bs : list Z) (o : bit_op) : option (list Z) :=
  match o with
  | OpSet i => dm_bit_set bs i
  | OpClear i => dm_bit_clear bs i
  | OpSetAll => dm_bit_set_all bs
  | OpClearAll => dm_bit_clear_all bs
  end.

Definition run_bit_ops (bs : list Z) (os : list bit_op) : option (list Z) :=
  foldl (fun acc o => bs ← acc; run_bit_op bs o) (Some bs) os.

Definition set_bit_op (m : Z -> bool) (o : bit_op) : Z -> bool :=
  match o with
  | OpSet i => fun j => (j =? i) || m j
  | OpClear i => fun j => negb (j =? i) && m j
  | OpSetAll => fun _ => true
  | OpClearAll => fun _ => false
  end.

Definition bit_op_ok (n : Z) (o : bit_op) : Prop :=
  match o with OpSet i | OpClear i => 0 <= i < bs_cap n | _ => True end.

Lemma run_bit_op_spec n bs o m :
  bs_wf n bs -> bit_op_ok n o -> (forall j, 0 <= j < bs_cap n -> bs_mem bs j = m j) ->
  exists bs', run_bit_op bs o = Some bs' /\ bs_wf n bs' /\
    forall j, 0 <= j < bs_cap n -> bs_mem bs' j = set_bit_op m o j.
Proof.
  intros Hwf Ho Hm. destruct o as [i|i| |]; cbn [run_bit_op set_bit_op bit_op_ok] in *.
  - destruct (dm_bit_set_spec n bs i Hwf Ho) as (bs' & ? & ? & Hj). exists bs'.
    do 2 (split; [done|]). intros j Hj'. by rewrite Hj, Hm by lia.
  - destruct (dm_bit_clear_spec n bs i Hwf Ho) as (bs' & ? & ? & Hj). exists bs'.
    do 2 (split; [done|]). intros j Hj'. by rewrite Hj, Hm by lia.
  - by apply dm_bit_set_all_spec.
  - by apply dm_bit_clear_all_spec.
Qed.

Lemma run_bit_ops_spec n os bs m :
  bs_wf n bs -> Forall (bit_op_ok n) os -> (forall j, 0 <= j < bs_cap n -> bs_mem bs j = m j) ->
  exists bs', run_bit_ops bs os = Some bs' /\ bs_wf n bs' /\
    forall j, 0 <= j < bs_cap n -> bs_mem bs' j = foldl set_bit_op m os j.
Proof.
  intros Hwf Hos. revert bs m Hwf. induction Hos as [|o os Ho Hos IH]; intros bs m Hwf Hm.
  { by exists bs. }
  destruct (run_bit_op_spec n bs o m Hwf Ho Hm) as (bs1 & He & Hwf1 & Hm1).
  destruct (IH bs1 _ Hwf1 Hm1) as (bs2 & He2 & ?). exists bs2.
  split; [|done]. unfold run_bit_ops in *. cbn [foldl mbind option_bind]. by rewrite He.
Qed.

(** Starting from [dm_bitset_create], any sequence of set, clear, set-all and
    clear-all operations on bits the array has never accesses memory outside it,
    and [dm_bit] then answers for every bit of the array exactly as the same
    sequence of operations on a mathematical set does. *)
Theorem bitset_implements_set n os :
  0 <= n < 2 ^ 31 -> Forall (bit_op_ok n) os ->
  exists bs, run_bit_ops (dm_bitset_create n) os = Some bs /\
    forall j, 0 <= j < bs_cap n -> dm_bit bs j = Some (foldl set_bit_op (fun _ => false) os j).
Proof.
  intros Hn Hos.
  destruct (run_bit_ops_spec n os (dm_bitset_create n) (fun _ => false)) as (bs & He & Hwf & Hm);
    [by apply bs_create_wf|done|intros; apply bs_mem_create; lia|].
  exists bs. split; [done|]. intros j Hj. rewrite (dm_bit_spec n) by done. by rewrite Hm.
Qed.

Lemma bitset_implements_set_witness :
  exists bs, run_bit_ops (dm_bitset_create 40) [OpSet 3; OpSet 39; OpClear 3] = Some bs /\
    forall j, 0 <= j < bs_cap 40 ->
      dm_bit bs j = Some (foldl set_bit_op (fun _ => false) [OpSet 3; OpSet 39; OpClear 3] j).
Proof.
  apply (bitset_implements_set 40 [OpSet 3; OpSet 39; OpClear 3]); [lia|].
  repeat constructor; cbn; unfold bs_cap; lia.
Defined.

(** Intersection, union, copy and comparison of bitsets of one size are the
    operations on the sets they stand for; [dm_bitset_equal] is 1 exactly when
    the two sets have the same members. *)
Theorem bitset_algebra n out in1 in2 :
  bs_wf n out -> bs_wf n in1 -> bs_wf n in2 ->
  (exists r, dm_bit_and out in1 in2 = Some r /\ bs_wf n r /\
     forall j, 0 <= j < bs_cap n -> bs_mem r j = bs_mem in1 j && bs_mem in2 j) /\
  (exists r, dm_bit_union out in1 in2 = Some r /\ bs_wf n r /\
     forall j, 0 <= j < bs_cap n -> bs_mem r j = bs_mem in1 j || bs_mem in2 j) /\
  dm_bit_copy out in1 = Some in1 /\
  exists b, dm_bitset_equal in1 in2 = Some b /\
    (b = true <-> forall j, 0 <= j < bs_cap n -> bs_mem in1 j = bs_mem in2 j).
Proof.
  intros Hout H1 H2. split; [by apply dm_bit_and_spec|]. split; [by apply dm_bit_union_spec|].
  split; [by apply (dm_bit_copy_spec n)|].
  rewrite (dm_bitset_equal_spec n) by done. eexists; split; [done|]. rewrite bool_decide_eq_true.
  split; [by intros ->|by apply bs_wf_ext].
Qed.

Lemma bitset_algebra_witness :
  (exists r, dm_bit_and [5; 0] [5; 6] [5; 3] = Some r /\ bs_wf 5 r /\
     forall j, 0 <= j < bs_cap 5 -> bs_mem r j = bs_mem [5; 6] j && bs_mem [5; 3] j) /\
  (exists r, dm_bit_union [5; 0] [5; 6] [5; 3] = Some r /\ bs_wf 5 r /\
     forall j, 0 <= j < bs_cap 5 -> bs_mem r j = bs_mem [5; 6] j || bs_mem [5; 3] j) /\
  dm_bit_copy [5; 0] [5; 6] = Some [5; 6] /\
  exists b, dm_bitset_equal [5; 6] [5; 3] = Some b /\
    (b = true <-> forall j, 0 <= j < bs_cap 5 -> bs_mem [5; 6] j = bs_mem [5; 3] j).
Proof.
  apply (bitset_algebra 5 [5; 0] [5; 6] [5; 3]);
    (split; [lia|]; eexists; split; [reflexivity|]; split; [reflexivity|]; repeat constructor; lia).
Defined.

(** The loop [for (i = dm_bit_get_first(bs); i >= 0; i = dm_bit_get_next(bs, i))]
    of the matcher: the bits visited. *)
Fixpoint bit_iterate_from (fuel : nat) (bs : list Z) (i : Z) : option (list Z) :=
  match fuel with
  | O => None
  | S fuel => if 0 <=? i then
                i' ← dm_bit_get_next bs i; l ← bit_iterate_from fuel bs i'; Some (i :: l)
              else Some []
  end.

Definition bit_iterate (fuel : nat) (bs : list Z) : option (list Z) :=
  i ← dm_bit_get_first bs; bit_iterate_from fuel bs i.

(** No bit of the last word is set past the size. *)
Definition bs_tight (n : Z) (bs : list Z) : Prop := forall i, n <= i < bs_cap n -> bs_mem bs i = false.

(** The members of the set from [lo] up, in increasing order. *)
Definition members_from (n : Z) (bs : list Z) (lo : Z) : list Z :=
  filter (fun i => bs_mem bs i = true) (seqZ lo (n - lo)).

Lemma members_from_skip n bs lo r :
  lo <= r -> (forall i, lo <= i < r -> bs_mem bs i = false) ->
  members_from n bs lo = members_from n bs r.
Proof.
  intros Hr. unfold members_from. revert lo Hr.
  cut (forall k lo, r = lo + Z.of_nat k -> (forall i, lo <= i < r -> bs_mem bs i = false) ->
    filter (fun i => bs_mem bs i = true) (seqZ lo (n - lo)) =
    filter (fun i => bs_mem bs i = true) (seqZ r (n - r))).
  { intros Hk lo Hr Hf. apply (Hk (Z.to_nat (r - lo))); [lia|done]. }
  induction k as [|k IH]; intros lo -> Hf; [by rewrite Z.add_0_r|].
  rewrite <- IH with (lo := lo + 1); [|lia|intros; apply Hf; lia].
  destruct (Z.le_gt_cases n lo).
  - by rewrite !seqZ_nil by lia.
  - rewrite (seqZ_cons lo) by lia. rewrite filter_cons_False by (rewrite Hf; [done|lia]).
    unfold Z.succ. do 2 f_equal. lia.
Qed.

Lemma members_from_hit n bs r :
  r < n -> bs_mem bs r = true -> members_from n bs r = r :: members_from n bs (r + 1).
Proof.
  intros Hr Hm. unfold members_from. rewrite (seqZ_cons r) by lia.
  rewrite filter_cons_True by done. unfold Z.succ. do 3 f_equal. lia.
Qed.

Lemma bit_iterate_from_spec n bs fuel lo r :
  bs_wf n bs -> bs_tight n bs -> 0 <= lo -> is_next n bs lo r ->
  (length (members_from n bs lo) < fuel)%nat ->
  bit_iterate_from fuel bs r = Some (members_from n bs lo).
Proof.
  intros Hwf Ht. revert lo r. induction fuel as [|fuel IH]; intros lo r Hlo Hn Hf; [lia|].
  cbn [bit_iterate_from]. destruct Hn as [[-> Hno]|(Hr & Hm & Hno)].
  - cbn. f_equal. destruct (Z.le_gt_cases lo n).
    + rewrite (members_from_skip n bs lo n) by done. unfold members_from. by rewrite Z.sub_diag.
    + unfold members_from. by rewrite seqZ_nil by lia.
  - rewrite (proj2 (Z.leb_le 0 r)) by lia.
    assert (r < n) by (apply Z.nle_gt; intros ?; rewrite Ht in Hm; [done|lia]).
    rewrite (members_from_skip n bs lo r), members_from_hit in Hf |- * by (done || lia).
    destruct (dm_bit_get_next_spec n bs r Hwf) as (r' & -> & Hn'); [lia|]. cbn [mbind option_bind].
    rewrite (IH (r + 1) r'); [done|lia|done|cbn in Hf; lia].
Qed.

(** The iteration [dm_bit_get_first] / [dm_bit_get_next] over a bitset none
    of whose padding bits are set terminates after at most one step more than the
    set has members, and visits exactly the members, each once, in increasing
    order. *)
Theorem bit_iterate_members n bs fuel :
  bs_wf n bs -> bs_tight n bs -> (length (members_from n bs 0) < fuel)%nat ->
  bit_iterate fuel bs = Some (members_from n bs 0).
Proof.
  intros Hwf Ht Hf. unfold bit_iterate.
  destruct (dm_bit_get_first_spec n bs Hwf) as (r & -> & Hr). cbn [mbind option_bind].
  by apply (bit_iterate_from_spec n).
Qed.

Lemma bit_iterate_members_witness :
  bit_iterate 4 [40; 2 ^ 31 + 8; 1] = Some (members_from 40 [40; 2 ^ 31 + 8; 1] 0) /\
  members_from 40 [40; 2 ^ 31 + 8; 1] 0 = [3; 31; 32].
Proof.
  split; [|vm_compute; reflexivity].
  apply (bit_iterate_members 40 [40; 2 ^ 31 + 8; 1] 4).
  - split; [lia|]. eexists; split; [reflexivity|]. split; [reflexivity|]. repeat constructor; lia.
  - intros i Hi. change (bs_cap 40) with 64 in Hi. unfold bs_mem.
    replace (i / 32) with 1 by lia. change (Z.testbit (2 ^ 0) (i mod 32) = false). apply Z.pow2_bits_false. lia.
  - vm_compute. lia.
Defined.
