(* ===== verification/Crc.v ===== *)
(** * CRC-32 of on-disk structures: lib/misc/crc.c

    [calc_crc] is the four-bytes-per-iteration routine; [calc_crc_old] is the
    nibble-table routine it replaced (compiled in with DEBUG_CRC32, which
    compares the two at run time).  Both are proved equal to the bit-serial
    division by the reflected polynomial 0xedb88320. *)

From S2P Require Import Prelude.

(** ** The code *)

Definition crctab : list Z := [
    0x00000000; 0x77073096; 0xee0e612c; 0x990951ba; 0x076dc419; 0x706af48f; 0xe963a535; 0x9e6495a3;
    0x0edb8832; 0x79dcb8a4; 0xe0d5e91e; 0x97d2d988; 0x09b64c2b; 0x7eb17cbd; 0xe7b82d07; 0x90bf1d91;
    0x1db71064; 0x6ab020f2; 0xf3b97148; 0x84be41de; 0x1adad47d; 0x6ddde4eb; 0xf4d4b551; 0x83d385c7;
    0x136c9856; 0x646ba8c0; 0xfd62f97a; 0x8a65c9ec; 0x14015c4f; 0x63066cd9; 0xfa0f3d63; 0x8d080df5;
    0x3b6e20c8; 0x4c69105e; 0xd56041e4; 0xa2677172; 0x3c03e4d1; 0x4b04d447; 0xd20d85fd; 0xa50ab56b;
    0x35b5a8fa; 0x42b2986c; 0xdbbbc9d6; 0xacbcf940; 0x32d86ce3; 0x45df5c75; 0xdcd60dcf; 0xabd13d59;
    0x26d930ac; 0x51de003a; 0xc8d75180; 0xbfd06116; 0x21b4f4b5; 0x56b3c423; 0xcfba9599; 0xb8bda50f;
    0x2802b89e; 0x5f058808; 0xc60cd9b2; 0xb10be924; 0x2f6f7c87; 0x58684c11; 0xc1611dab; 0xb6662d3d;
    0x76dc4190; 0x01db7106; 0x98d220bc; 0xefd5102a; 0x71b18589; 0x06b6b51f; 0x9fbfe4a5; 0xe8b8d433;
    0x7807c9a2; 0x0f00f934; 0x9609a88e; 0xe10e9818; 0x7f6a0dbb; 0x086d3d2d; 0x91646c97; 0xe6635c01;
    0x6b6b51f4; 0x1c6c6162; 0x856530d8; 0xf262004e; 0x6c0695ed; 0x1b01a57b; 0x8208f4c1; 0xf50fc457;
    0x65b0d9c6; 0x12b7e950; 0x8bbeb8ea; 0xfcb9887c; 0x62dd1ddf; 0x15da2d49; 0x8cd37cf3; 0xfbd44c65;
    0x4db26158; 0x3ab551ce; 0xa3bc0074; 0xd4bb30e2; 0x4adfa541; 0x3dd895d7; 0xa4d1c46d; 0xd3d6f4fb;
    0x4369e96a; 0x346ed9fc; 0xad678846; 0xda60b8d0; 0x44042d73; 0x33031de5; 0xaa0a4c5f; 0xdd0d7cc9;
    0x5005713c; 0x270241aa; 0xbe0b1010; 0xc90c2086; 0x5768b525; 0x206f85b3; 0xb966d409; 0xce61e49f;
    0x5edef90e; 0x29d9c998; 0xb0d09822; 0xc7d7a8b4; 0x59b33d17; 0x2eb40d81; 0xb7bd5c3b; 0xc0ba6cad;
    0xedb88320; 0x9abfb3b6; 0x03b6e20c; 0x74b1d29a; 0xead54739; 0x9dd277af; 0x04db2615; 0x73dc1683;
    0xe3630b12; 0x94643b84; 0x0d6d6a3e; 0x7a6a5aa8; 0xe40ecf0b; 0x9309ff9d; 0x0a00ae27; 0x7d079eb1;
    0xf00f9344; 0x8708a3d2; 0x1e01f268; 0x6906c2fe; 0xf762575d; 0x806567cb; 0x196c3671; 0x6e6b06e7;
    0xfed41b76; 0x89d32be0; 0x10da7a5a; 0x67dd4acc; 0xf9b9df6f; 0x8ebeeff9; 0x17b7be43; 0x60b08ed5;
    0xd6d6a3e8; 0xa1d1937e; 0x38d8c2c4; 0x4fdff252; 0xd1bb67f1; 0xa6bc5767; 0x3fb506dd; 0x48b2364b;
    0xd80d2bda; 0xaf0a1b4c; 0x36034af6; 0x41047a60; 0xdf60efc3; 0xa867df55; 0x316e8eef; 0x4669be79;
    0xcb61b38c; 0xbc66831a; 0x256fd2a0; 0x5268e236; 0xcc0c7795; 0xbb0b4703; 0x220216b9; 0x5505262f;
    0xc5ba3bbe; 0xb2bd0b28; 0x2bb45a92; 0x5cb36a04; 0xc2d7ffa7; 0xb5d0cf31; 0x2cd99e8b; 0x5bdeae1d;
    0x9b64c2b0; 0xec63f226; 0x756aa39c; 0x026d930a; 0x9c0906a9; 0xeb0e363f; 0x72076785; 0x05005713;
    0x95bf4a82; 0xe2b87a14; 0x7bb12bae; 0x0cb61b38; 0x92d28e9b; 0xe5d5be0d; 0x7cdcefb7; 0x0bdbdf21;
    0x86d3d2d4; 0xf1d4e242; 0x68ddb3f8; 0x1fda836e; 0x81be16cd; 0xf6b9265b; 0x6fb077e1; 0x18b74777;
    0x88085ae6; 0xff0f6a70; 0x66063bca; 0x11010b5c; 0x8f659eff; 0xf862ae69; 0x616bffd3; 0x166ccf45;
    0xa00ae278; 0xd70dd2ee; 0x4e048354; 0x3903b3c2; 0xa7672661; 0xd06016f7; 0x4969474d; 0x3e6e77db;
    0xaed16a4a; 0xd9d65adc; 0x40df0b66; 0x37d83bf0; 0xa9bcae53; 0xdebb9ec5; 0x47b2cf7f; 0x30b5ffe9;
    0xbdbdf21c; 0xcabac28a; 0x53b39330; 0x24b4a3a6; 0xbad03605; 0xcdd70693; 0x54de5729; 0x23d967bf;
    0xb3667a2e; 0xc4614ab8; 0x5d681b02; 0x2a6f2b94; 0xb40bbe37; 0xc30c8ea1; 0x5a05df1b; 0x2d02ef8d
].

(** [crctab[crc & 0xff] ^ crc >> 8] *)
Definition crc_step (crc : Z) : Z :=
  Z.lxor (default 0 (crctab !! Z.to_nat (Z.land crc 0xff))) (Z.shiftr crc 8).

(** The argument of [xlate32]: four bytes, least significant first. *)
Definition le32 (b0 b1 b2 b3 : Z) : Z :=
  Z.lor b0 (Z.lor (Z.shiftl b1 8) (Z.lor (Z.shiftl b2 16) (Z.shiftl b3 24))).

(** The main loop: [n] iterations of four bytes; running off the buffer is [None]. *)
Fixpoint crc_words (n : nat) (crc : Z) (buf : list Z) : option (Z * list Z) :=
  match n with
  | O => Some (crc, buf)
  | S n =>
      match buf with
      | b0 :: b1 :: b2 :: b3 :: buf =>
          let crc := Z.lxor crc (le32 b0 b1 b2 b3) in
          let crc := crc_step crc in
          let crc := crc_step crc in
          let crc := crc_step crc in
          let crc := crc_step crc in
          crc_words n crc buf
      | _ => None
      end
  end.

(** The bytes left over. *)
Fixpoint crc_rest (size : nat) (crc : Z) (buf : list Z) : option Z :=
  match size with
  | O => Some crc
  | S size =>
      match buf with
      | b :: buf => crc_rest size (crc_step (Z.lxor crc b)) buf
      | [] => None
      end
  end.

Definition calc_crc (initial : Z) (buf : list Z) (size : Z) : option Z :=
  '(crc, buf) ← crc_words (Z.to_nat (Z.land size 0xfffffffc / 4)) initial buf;
  crc_rest (Z.to_nat (Z.land size 0x3)) crc buf.

Definition crctab_old : list Z := [
  0x00000000; 0x1db71064; 0x3b6e20c8; 0x26d930ac;
  0x76dc4190; 0x6b6b51f4; 0x4db26158; 0x5005713c;
  0xedb88320; 0xf00f9344; 0xd6d6a3e8; 0xcb61b38c;
  0x9b64c2b0; 0x86d3d2d4; 0xa00ae278; 0xbdbdf21c ].

Definition crc_step_old (crc : Z) : Z :=
  Z.lxor (Z.shiftr crc 4) (default 0 (crctab_old !! Z.to_nat (Z.land crc 0xf))).

Fixpoint calc_crc_old_loop (size : nat) (crc : Z) (buf : list Z) : option Z :=
  match size with
  | O => Some crc
  | S size =>
      match buf with
      | b :: buf => calc_crc_old_loop size (crc_step_old (crc_step_old (Z.lxor crc b))) buf
      | [] => None
      end
  end.

Definition calc_crc_old (initial : Z) (buf : list Z) (size : Z) : option Z :=
  calc_crc_old_loop (Z.to_nat size) initial buf.

(** ** The reference: bit-serial division *)

Definition poly : Z := 0xedb88320.

Definition bit_step (c : Z) : Z :=
  Z.lxor (Z.shiftr c 1) (if Z.testbit c 0 then poly else 0).

Definition byte_step (crc b : Z) : Z := Nat.iter 8 bit_step (Z.lxor crc b).

(** The CRC of a byte sequence. *)
Definition crc_ref (initial : Z) (buf : list Z) : Z := foldl byte_step initial buf.

(** ** The step functions are linear *)

Lemma lxor_swap4 a b c d : Z.lxor (Z.lxor a b) (Z.lxor c d) = Z.lxor (Z.lxor a c) (Z.lxor b d).
Proof. rewrite !Z.lxor_assoc. f_equal. rewrite <- !Z.lxor_assoc. by rewrite (Z.lxor_comm b c). Qed.

Lemma bit_step_lxor a b : bit_step (Z.lxor a b) = Z.lxor (bit_step a) (bit_step b).
Proof.
  unfold bit_step. rewrite lxor_swap4, <- Z.shiftr_lxor. f_equal.
  rewrite Z.lxor_spec. destruct (Z.testbit a 0), (Z.testbit b 0); simpl;
    rewrite ?Z.lxor_nilpotent, ?Z.lxor_0_r; done.
Qed.

Lemma bit_steps_lxor n a b :
  Nat.iter n bit_step (Z.lxor a b) = Z.lxor (Nat.iter n bit_step a) (Nat.iter n bit_step b).
Proof. induction n as [|n IH]; [done|]. simpl. by rewrite IH, bit_step_lxor. Qed.

Lemma bit_steps_shiftl n z : Nat.iter n bit_step (Z.shiftl z (Z.of_nat n)) = z.
Proof.
  revert z. induction n as [|n IH]; intros z; [apply Z.shiftl_0_r|].
  rewrite Nat.iter_succ_r. replace (bit_step (Z.shiftl z (Z.of_nat (S n)))) with
    (Z.shiftl z (Z.of_nat n)); [apply IH|].
  unfold bit_step. rewrite Z.shiftl_spec_low by lia. rewrite Z.lxor_0_r.
  rewrite Z.shiftr_shiftl_l by lia. f_equal. lia.
Qed.

Lemma split_low k c : 0 <= k ->
  c = Z.lxor (Z.land c (Z.ones k)) (Z.shiftl (Z.shiftr c k) k).
Proof.
  intros Hk. apply Z.bits_inj'. intros i Hi. rewrite Z.lxor_spec, Z.land_spec.
  destruct (Z.lt_ge_cases i k).
  - rewrite Z.ones_spec_low, Z.shiftl_spec_low, andb_true_r, xorb_false_r by lia. done.
  - rewrite Z.ones_spec_high, Z.shiftl_spec, Z.shiftr_spec, andb_false_r by lia.
    rewrite xorb_false_l. f_equal. lia.
Qed.

(** Whatever the register holds, [k] bit steps are one lookup by its low [k]
    bits and a shift by [k]. *)
Lemma bit_steps_table k c :
  Nat.iter k bit_step c =
  Z.lxor (Nat.iter k bit_step (Z.land c (Z.ones (Z.of_nat k)))) (Z.shiftr c (Z.of_nat k)).
Proof.
  rewrite (split_low (Z.of_nat k) c) at 1 by lia.
  by rewrite bit_steps_lxor, bit_steps_shiftl.
Qed.

(** ** The tables *)

Lemma crctab_bits : crctab = (fun i => Nat.iter 8 bit_step (Z.of_nat i)) <$> seq 0 256.
Proof. vm_compute. reflexivity. Qed.

Lemma crctab_old_bits : crctab_old = (fun i => Nat.iter 4 bit_step (Z.of_nat i)) <$> seq 0 16.
Proof. vm_compute. reflexivity. Qed.

Lemma table_lookup (f : nat -> Z) (n : nat) (i : Z) :
  0 <= i < Z.of_nat n -> default 0 ((f <$> seq 0 n) !! Z.to_nat i) = f (Z.to_nat i).
Proof. intros Hi. rewrite list_lookup_fmap, lookup_seq_lt by lia. done. Qed.

Lemma land_ones_range c k : 0 <= k -> 0 <= Z.land c (Z.ones k) < 2 ^ k.
Proof. intros. rewrite Z.land_ones by lia. apply Z.mod_pos_bound. lia. Qed.

Lemma crc_step_bits c : crc_step c = Nat.iter 8 bit_step c.
Proof.
  unfold crc_step. rewrite crctab_bits. change 0xff with (Z.ones (Z.of_nat 8)).
  pose proof (land_ones_range c (Z.of_nat 8)). rewrite table_lookup by lia.
  rewrite Z2Nat.id by lia. symmetry. apply (bit_steps_table 8).
Qed.

Lemma crc_step_old_bits c : crc_step_old c = Nat.iter 4 bit_step c.
Proof.
  unfold crc_step_old. rewrite crctab_old_bits. change 0xf with (Z.ones (Z.of_nat 4)).
  pose proof (land_ones_range c (Z.of_nat 4)). rewrite table_lookup by lia.
  rewrite Z2Nat.id, Z.lxor_comm by lia. symmetry. apply (bit_steps_table 4).
Qed.

Lemma crc_step_byte c b : crc_step (Z.lxor c b) = byte_step c b.
Proof. apply crc_step_bits. Qed.

Lemma crc_step_old_byte c b : crc_step_old (crc_step_old (Z.lxor c b)) = byte_step c b.
Proof.
  rewrite !crc_step_old_bits. unfold byte_step. change 8%nat with (4 + 4)%nat.
  by rewrite Nat.iter_add.
Qed.

(** Checksums are 32-bit values. *)
Lemma bit_step_u32 c : is_u32 c -> is_u32 (bit_step c).
Proof.
  intros Hc. unfold bit_step. apply is_u32_lxor.
  - rewrite Z.shiftr_div_pow2 by lia. unfold is_u32 in *. lia.
  - destruct (Z.testbit c 0); unfold is_u32, poly; lia.
Qed.

Lemma bit_steps_u32 n c : is_u32 c -> is_u32 (Nat.iter n bit_step c).
Proof. intros Hc. induction n as [|n IH]; [done|]. apply bit_step_u32, IH. Qed.

Lemma crc_ref_u32 initial buf : is_u32 initial -> Forall is_u8 buf -> is_u32 (crc_ref initial buf).
Proof.
  intros Hi Hb. revert initial Hi. induction Hb as [|b buf Hb _ IH]; intros initial Hi; [done|].
  apply IH. apply bit_steps_u32, is_u32_lxor; [done|]. unfold is_u8, is_u32 in *. lia.
Qed.

#[local] Opaque crc_step crc_step_old byte_step.

(** ** The loops *)

Lemma crc_rest_ref size crc buf :
  (size <= length buf)%nat -> crc_rest size crc buf = Some (crc_ref crc (take size buf)).
Proof.
  revert crc buf. induction size as [|size IH]; intros crc [|b buf] Hl; simpl in *;
    [done..|lia|]. rewrite IH, crc_step_byte by lia. done.
Qed.

Lemma crc_step_shl c r : 0 <= r -> crc_step (Z.lxor c (Z.shiftl r 8)) = Z.lxor (crc_step c) r.
Proof.
  intros Hr. rewrite !crc_step_bits, bit_steps_lxor. f_equal. apply (bit_steps_shiftl 8).
Qed.

Lemma lor_shl_lxor b r : is_u8 b -> 0 <= r -> Z.lor b (Z.shiftl r 8) = Z.lxor b (Z.shiftl r 8).
Proof.
  intros Hb Hr. apply Z.bits_inj'. intros i Hi. rewrite Z.lor_spec, Z.lxor_spec.
  destruct (Z.lt_ge_cases i 8).
  - rewrite Z.shiftl_spec_low by lia. by destruct (Z.testbit b i).
  - replace (Z.testbit b i) with false; [by destruct (Z.testbit _ i)|].
    symmetry. destruct (Z.eq_dec b 0) as [->|]; [apply Z.bits_0|].
    apply Z.bits_above_log2; unfold is_u8 in Hb; [lia|].
    apply Z.log2_lt_pow2; [lia|]. apply Z.lt_le_trans with (2 ^ 8); [lia|].
    apply Z.pow_le_mono_r; lia.
Qed.

(** Four register steps on a whole word are four byte steps. *)
Lemma crc_word_bytes c b0 b1 b2 b3 :
  is_u8 b0 -> is_u8 b1 -> is_u8 b2 -> is_u8 b3 ->
  crc_step (crc_step (crc_step (crc_step (Z.lxor c (le32 b0 b1 b2 b3))))) =
  crc_ref c [b0; b1; b2; b3].
Proof.
  intros H0 H1 H2 H3. unfold le32.
  assert (forall z, is_u8 z -> 0 <= z) as Hpos by (unfold is_u8; lia).
  replace (Z.lor (Z.shiftl b1 8) (Z.lor (Z.shiftl b2 16) (Z.shiftl b3 24)))
    with (Z.shiftl (Z.lor b1 (Z.shiftl (Z.lor b2 (Z.shiftl b3 8)) 8)) 8).
  2: { rewrite !Z.shiftl_lor, !Z.shiftl_shiftl by lia. done. }
  assert (0 <= Z.lor b2 (Z.shiftl b3 8)) as Hp23.
  { apply Z.lor_nonneg. split; [auto|]. apply Z.shiftl_nonneg. auto. }
  assert (0 <= Z.lor b1 (Z.shiftl (Z.lor b2 (Z.shiftl b3 8)) 8)) as Hp13.
  { apply Z.lor_nonneg. split; [auto|]. by apply Z.shiftl_nonneg. }
  rewrite lor_shl_lxor, <- Z.lxor_assoc, crc_step_shl by auto.
  rewrite lor_shl_lxor, <- Z.lxor_assoc, crc_step_shl by auto.
  rewrite lor_shl_lxor, <- Z.lxor_assoc, crc_step_shl by auto.
  by rewrite !crc_step_byte.
Qed.

Lemma crc_words_ref n crc buf :
  Forall is_u8 buf -> (4 * n <= length buf)%nat ->
  crc_words n crc buf = Some (crc_ref crc (take (4 * n) buf), drop (4 * n) buf).
Proof.
  revert crc buf. induction n as [|n IH]; intros crc buf Hb Hl; [by destruct buf|].
  destruct buf as [|b0 [|b1 [|b2 [|b3 buf]]]]; simpl in Hl; [lia..|].
  do 4 (apply Forall_cons_1 in Hb as [? Hb]).
  cbn [crc_words]. rewrite crc_word_bytes, IH by (done || lia).
  by replace (4 * S n)%nat with (S (S (S (S (4 * n)))))%nat by lia.
Qed.

Lemma crc_ref_app init a b : crc_ref init (a ++ b) = crc_ref (crc_ref init a) b.
Proof. apply foldl_app. Qed.

Lemma crc_words_count size :
  is_u32 size -> size = 4 * (Z.land size 0xfffffffc / 4) + Z.land size 0x3.
Proof.
  intros Hs. change 0x3 with (Z.ones 2). rewrite Z.land_ones by lia.
  replace (Z.land size 0xfffffffc) with (Z.shiftl (Z.shiftr size 2) 2).
  - rewrite Z.shiftl_mul_pow2, Z.shiftr_div_pow2 by lia. lia.
  - rewrite <- Z.ldiff_ones_r by lia. apply Z.bits_inj'. intros i Hi.
    rewrite Z.land_spec, Z.ldiff_spec.
    change 0xfffffffc with (Z.shiftl (Z.ones 30) 2).
    destruct (Z.lt_ge_cases i 2) as [Hlt|Hge].
    + rewrite Z.ones_spec_low, Z.shiftl_spec_low by lia. done.
    + rewrite Z.shiftl_spec, (Z.ones_spec_high 2) by lia.
      destruct (Z.lt_ge_cases i 32) as [Hlt|Hge'].
      * rewrite Z.ones_spec_low by lia. done.
      * rewrite Z.ones_spec_high by lia. rewrite andb_false_r, andb_true_r.
        destruct (Z.eq_dec size 0) as [->|]; [apply Z.bits_0|].
        apply Z.bits_above_log2; unfold is_u32 in Hs; [lia|].
        apply Z.log2_lt_pow2; [lia|]. apply Z.lt_le_trans with (2 ^ 32); [lia|].
        apply Z.pow_le_mono_r; lia.
Qed.

Lemma calc_crc_spec initial buf size :
  Forall is_u8 buf -> is_u32 size -> size <= Z.of_nat (length buf) ->
  calc_crc initial buf size = Some (crc_ref initial (take (Z.to_nat size) buf)).
Proof.
  intros Hb Hs Hl. unfold calc_crc.
  pose proof (crc_words_count size Hs) as Hc.
  assert (0 <= Z.land size 0xfffffffc) by (apply Z.land_nonneg; unfold is_u32 in *; lia).
  assert (0 <= Z.land size 0x3) by (apply Z.land_nonneg; unfold is_u32 in *; lia).
  rewrite crc_words_ref by (done || lia). cbn [mbind option_bind].
  rewrite crc_rest_ref by (rewrite length_drop; lia).
  rewrite <- crc_ref_app, take_take_drop. do 3 f_equal. lia.
Qed.

Lemma calc_crc_old_spec initial buf size :
  size <= Z.of_nat (length buf) ->
  calc_crc_old initial buf size = Some (crc_ref initial (take (Z.to_nat size) buf)).
Proof.
  intros Hl. unfold calc_crc_old.
  assert (Z.to_nat size <= length buf)%nat as Hn by lia. clear Hl.
  revert initial buf Hn. generalize (Z.to_nat size) as n.
  induction n as [|n IH]; intros crc [|b buf] Hn; simpl in *; [done..|lia|].
  rewrite IH, crc_step_old_byte by lia. done.
Qed.

(** ** Properties *)

(** C36: The word-at-a-time, table-driven [calc_crc] reads only the buffer and
    computes the bit-serial CRC-32 (reflected polynomial 0xedb88320) of its first
    [size] bytes, for every alignment of [size]; the older nibble-table routine
    kept beside it computes the same value. *)
Theorem calc_crc_bit_serial initial buf size :
  Forall is_u8 buf -> is_u32 size -> size <= Z.of_nat (length buf) ->
  calc_crc initial buf size = Some (crc_ref initial (take (Z.to_nat size) buf)) /\
  calc_crc initial buf size = calc_crc_old initial buf size.
Proof.
  intros Hb Hs Hl. rewrite calc_crc_old_spec by done. by rewrite calc_crc_spec by done.
Qed.

Lemma calc_crc_bit_serial_witness :
  calc_crc 0xf597a6cf [1; 2; 3; 4; 5; 6; 7] 7 =
    Some (crc_ref 0xf597a6cf (take (Z.to_nat 7) [1; 2; 3; 4; 5; 6; 7])) /\
  calc_crc 0xf597a6cf [1; 2; 3; 4; 5; 6; 7] 7 = calc_crc_old 0xf597a6cf [1; 2; 3; 4; 5; 6; 7] 7.
Proof.
  apply (calc_crc_bit_serial 0xf597a6cf [1; 2; 3; 4; 5; 6; 7] 7);
    [repeat constructor; lia|unfold is_u32; lia|cbn; lia].
Defined.

(** The checksum of text that wraps round the end of a metadata area can be
    computed in two calls: the value of the first part is the initial value for
    the second, whatever the lengths of the parts modulo four. *)
Theorem calc_crc_chains initial a b :
  Forall is_u8 a -> Forall is_u8 b -> Z.of_nat (length a + length b) < 2 ^ 32 ->
  (c ← calc_crc initial a (Z.of_nat (length a)); calc_crc c b (Z.of_nat (length b))) =
  calc_crc initial (a ++ b) (Z.of_nat (length (a ++ b))).
Proof.
  intros Ha Hb Hl. rewrite length_app.
  rewrite !calc_crc_spec by
    ((by apply Forall_app) || done || (rewrite ?length_app; unfold is_u32; lia)).
  cbn [mbind option_bind].
  rewrite !calc_crc_spec by (done || (unfold is_u32; lia)).
  rewrite !Nat2Z.id, <- crc_ref_app. rewrite !firstn_all, <- length_app, firstn_all. done.
Qed.

Lemma calc_crc_chains_witness :
  (c ← calc_crc 7 [1; 2; 3; 4; 5] 5; calc_crc c [6; 7] 2) = calc_crc 7 [1; 2; 3; 4; 5; 6; 7] 7.
Proof.
  apply (calc_crc_chains 7 [1; 2; 3; 4; 5] [6; 7]); [repeat constructor; lia..|cbn; lia].
Defined.
