(* ===== verification/Uuid.v ===== *)
(** * Identifiers of volume groups, physical and logical volumes: lib/uuid/uuid.c

    A [struct id] is 32 [int8_t] characters of a 64-letter alphabet, printed in
    dash-separated groups.  The module also holds the numbers-as-identifiers
    encoding used by the old LVM1 metadata format. *)

From S2P Require Import Prelude.

(** ** The code *)

Definition ID_LEN : nat := 32.

(** [_c], without its terminating NUL. *)
Definition c_tab : list Z :=
  bytes "0123456789abcdefghijklmnopqrstuvwxyzABCDEFGHIJKLMNOPQRSTUVWXYZ!#".

(** [sizeof(_c) - 1] *)
Definition c_len : Z := 64.

Definition c_at (i : Z) : Z := default 0 (zlookup c_tab i).

(** [for (i = ID_LEN; i; i--) uuid[i - 1] = _c[num % 64], num /= 64]: the
    characters come out last first. *)
Fixpoint num_chars (i : nat) (num : Z) (acc : list Z) : list Z :=
  match i with
  | O => acc
  | S i => num_chars i (num / c_len) (c_at (num mod c_len) :: acc)
  end.

Definition uuid_from_num (num : Z) : list Z := num_chars ID_LEN num [].

(** A [union lvid]: the VG id and the LV id ([s]'s last byte is set to NUL). *)
Record lvid := Lvid { lvid_vg : list Z; lvid_lv : list Z }.

Definition lvid_from_lvnum (vgid : list Z) (lv_num : Z) : lvid :=
  Lvid vgid (num_chars ID_LEN lv_num []).

(** [strchr(_c, x)] as an index; the terminating NUL is found too. *)
Fixpoint strchr_from (l : list Z) (x i : Z) : option Z :=
  match l with
  | [] => if x =? 0 then Some i else None
  | y :: l => if y =? x then Some i else strchr_from l x (i + 1)
  end.

Definition lvnum_step (lv_num x : Z) : Z :=
  let lv_num := swrap 32 (wrap64 (wrap64 lv_num * c_len)) in
  let lv_num := match strchr_from c_tab (wrap8 x) 0 with
                | Some i => swrap 32 (lv_num + i)
                | None => lv_num
                end in
  if lv_num <? 0 then 0 else lv_num.

Definition lvnum_from_lvid (l : lvid) : Z := foldl lvnum_step 0 (lvid_lv l).

Definition isdigit (c : Z) : bool := (48 <=? c) && (c <=? 57).

Definition lvid_in_restricted_range (l : lvid) : bool :=
  forallb (fun c => c =? 48) (take (ID_LEN - 3) (lvid_lv l)) &&
  forallb isdigit (drop (ID_LEN - 3) (lvid_lv l)).

(** [id_create], given what [read_urandom] delivered ([None]: it failed); the
    remainder is taken after conversion to [size_t]. *)
Definition id_create (urandom : option (list Z)) : option (list Z) :=
  buf ← urandom;
  Some (map (fun b => c_at (wrap64 b mod (c_len - 2))) buf).

Definition lvid_create (vgid : list Z) (urandom : option (list Z)) : option lvid :=
  id ← id_create urandom; Some (Lvid vgid id).

(** The file's static data: [_built_inverse] and [_inverse_c]. *)
Record inverse := Inverse { built_inverse : bool; inverse_c : list Z }.

Definition inverse_init : inverse := Inverse false (replicate 256 0).

Definition build_inverse (st : inverse) : inverse :=
  if built_inverse st then st
  else Inverse true (foldl (fun tab c => <[Z.to_nat c := 1]> tab) (replicate 256 0) c_tab).

(** [_inverse_c[id->uuid[i]]] is indexed by the signed character; a negative one
    is a wild read ([None]). *)
Fixpoint id_valid_loop (tab : list Z) (uuid : list Z) : option bool :=
  match uuid with
  | [] => Some true
  | c :: uuid =>
      x ← zlookup tab c;
      if x =? 0 then Some false else id_valid_loop tab uuid
  end.

Definition id_valid (st : inverse) (uuid : list Z) : option bool * inverse :=
  let st := build_inverse st in (id_valid_loop (inverse_c st) uuid, st).

Definition id_equal (lhs rhs : list Z) : bool := bool_decide (lhs = rhs).

Definition group_size : list nat := [6; 4; 4; 4; 4; 4; 6]%nat.

(** The bytes the loop stores: each group followed by a dash. *)
Fixpoint write_groups (uuid : list Z) (groups : list nat) : list Z :=
  match groups with
  | [] => []
  | g :: groups => take g uuid ++ 45 :: write_groups (drop g uuid) groups
  end.

(** The string left in the buffer (the last dash becomes the NUL); [None] is the
    error return for a short buffer. *)
Definition id_write_format (uuid : list Z) (size : Z) : option (list Z) :=
  if size <? 32 + 6 + 1 then None
  else Some (removelast (write_groups uuid group_size)).

(** The reading loop; [out] is how many characters have been stored.  The result
    is the [int] flag and the identifier as far as it has been filled. *)
Fixpoint id_read_loop (uuid : list Z) (out : nat) (buffer : list Z) : bool * nat * list Z :=
  match buffer with
  | [] => (true, out, uuid)
  | c :: buffer =>
      if c =? 45 then id_read_loop uuid out buffer
      else if (ID_LEN <=? out)%nat then (false, out, uuid)
      else id_read_loop (<[out := swrap 8 c]> uuid) (S out) buffer
  end.

Definition id_read_format (st : inverse) (uuid buffer : list Z) :
    option (bool * list Z) * inverse :=
  let '(ok, out, uuid) := id_read_loop uuid 0 buffer in
  if negb ok then (Some (false, uuid), st)
  else if negb (out =? ID_LEN)%nat then (Some (false, uuid), st)
  else let '(r, st) := id_valid st uuid in
       ((fun b => (b, uuid)) <$> r, st).

Definition id_format_and_copy (uuid : list Z) : option (list Z) := id_write_format uuid 40.

(** ** The alphabet *)

(** The static data is in one of its two states. *)
Definition inverse_ok (st : inverse) : Prop :=
  st = inverse_init \/ st = build_inverse inverse_init.

Lemma build_inverse_ok st : inverse_ok st -> build_inverse st = build_inverse inverse_init.
Proof. by intros [->| ->]. Qed.

Lemma c_tab_range : Forall (fun c => 0 < c < 128 /\ c <> 45) c_tab.
Proof. by apply (bool_decide_unpack _); vm_compute. Qed.

Lemma inverse_table_all :
  forallb (fun i => Bool.eqb (negb (default 0 (inverse_c (build_inverse inverse_init) !! i) =? 0))
                     (bool_decide (Z.of_nat i ∈ c_tab))) (seq 0 256) = true.
Proof. vm_compute. reflexivity. Qed.

(** The table marks exactly the letters of the alphabet. *)
Lemma inverse_table c :
  0 <= c < 256 -> exists x, zlookup (inverse_c (build_inverse inverse_init)) c = Some x /\
    (x <> 0 <-> c ∈ c_tab).
Proof.
  intros Hc. destruct (zlookup_is_Some (inverse_c (build_inverse inverse_init)) c) as [x Hx].
  { by vm_compute. }
  exists x. split; [done|]. pose proof inverse_table_all as Hall.
  rewrite forallb_forall in Hall. specialize (Hall (Z.to_nat c)).
  rewrite in_seq in Hall. specialize (Hall ltac:(lia)).
  apply zlookup_Some in Hx as [_ Hx]. rewrite Hx in Hall. cbn [default from_option id] in Hall.
  rewrite Z2Nat.id in Hall by lia. apply Bool.eqb_prop in Hall.
  destruct (Z.eqb_spec x 0); simpl in Hall; symmetry in Hall.
  - apply bool_decide_eq_false in Hall. by split.
  - apply bool_decide_eq_true in Hall. by split.
Qed.

Lemma c_tab_u8 c : c ∈ c_tab -> 0 < c < 128 /\ c <> 45.
Proof. intros H. exact (proj1 (Forall_forall _ _) c_tab_range c H). Qed.

Lemma c_at_elem i : 0 <= i < 64 -> c_at i ∈ c_tab.
Proof.
  intros Hi. unfold c_at. destruct (zlookup_is_Some c_tab i) as [x Hx]; [by vm_compute in Hi |- *|].
  rewrite Hx. apply zlookup_Some in Hx as [_ Hx]. by apply list_elem_of_lookup_2 in Hx.
Qed.

(** ** Validity *)

Lemma id_valid_loop_true uuid :
  Forall (fun c => c ∈ c_tab) uuid ->
  id_valid_loop (inverse_c (build_inverse inverse_init)) uuid = Some true.
Proof.
  induction 1 as [|c uuid Hc _ IH]; [done|]. cbn [id_valid_loop].
  destruct (inverse_table c) as (x & -> & Hx); [apply c_tab_u8 in Hc; lia|].
  cbn [mbind option_bind]. destruct (Z.eqb_spec x 0); [|done]. by apply Hx in Hc.
Qed.

Lemma id_valid_loop_false uuid :
  Forall (fun c => 0 <= c < 256) uuid -> ~ Forall (fun c => c ∈ c_tab) uuid ->
  id_valid_loop (inverse_c (build_inverse inverse_init)) uuid = Some false.
Proof.
  induction 1 as [|c uuid Hc Hu IH]; intros Hn; [by destruct Hn|]. cbn [id_valid_loop].
  destruct (inverse_table c) as (x & -> & Hx); [done|].
  cbn [mbind option_bind]. destruct (Z.eqb_spec x 0); [done|].
  apply IH. intros Hall. apply Hn. constructor; [by apply Hx|done].
Qed.

Lemma id_valid_spec st uuid :
  inverse_ok st -> Forall (fun c => 0 <= c < 128) uuid ->
  id_valid st uuid =
    (Some (bool_decide (Forall (fun c => c ∈ c_tab) uuid)), build_inverse inverse_init).
Proof.
  intros Hst Hu. unfold id_valid. rewrite build_inverse_ok by done. f_equal.
  case_bool_decide as Hall; [by apply id_valid_loop_true|].
  apply id_valid_loop_false; [|done]. eapply Forall_impl; [done|]. simpl. lia.
Qed.

(** ** Printing and reading *)

(** The characters of a printed identifier that are not separators. *)
Definition nodash (s : list Z) : list Z := filter (fun c => c <> 45) s.

Lemma nodash_app a b : nodash (a ++ b) = nodash a ++ nodash b.
Proof. apply filter_app. Qed.

Lemma nodash_dash s : nodash (45 :: s) = nodash s.
Proof. unfold nodash. by rewrite filter_cons_False by (intros H; by apply H). Qed.

Lemma nodash_char c s : c <> 45 -> nodash (c :: s) = c :: nodash s.
Proof. intros Hc. unfold nodash. by rewrite filter_cons_True. Qed.

Lemma nodash_Forall P s : Forall P s -> Forall P (nodash s).
Proof. rewrite !Forall_forall. intros H x [_ Hx]%list_elem_of_filter. auto. Qed.

Lemma nodash_id s : Forall (fun c => c <> 45) s -> nodash s = s.
Proof.
  induction 1 as [|c s Hc _ IH]; [done|].
  by rewrite nodash_char, IH.
Qed.

Lemma write_groups_snoc uuid groups :
  groups <> [] -> exists s, write_groups uuid groups = s ++ [45].
Proof.
  revert uuid. induction groups as [|g groups IH]; intros uuid Hne; [done|]. cbn [write_groups].
  destruct groups as [|g' groups]; [by exists (take g uuid)|].
  destruct (IH (drop g uuid)) as [s ->]; [done|].
  exists (take g uuid ++ 45 :: s). by rewrite <- app_assoc.
Qed.

Lemma write_groups_nodash uuid groups :
  Forall (fun c => c <> 45) uuid -> nodash (write_groups uuid groups) = take (sum_list groups) uuid.
Proof.
  revert uuid. induction groups as [|g groups IH]; intros uuid Hu; [done|].
  cbn [write_groups sum_list foldr]. rewrite nodash_app, (nodash_id (take g uuid)) by by apply Forall_take.
  rewrite nodash_dash, IH by by apply Forall_drop. apply take_take_drop.
Qed.

Lemma id_write_format_nodash uuid size s :
  Forall (fun c => c <> 45) uuid -> length uuid = ID_LEN ->
  id_write_format uuid size = Some s -> nodash s = uuid.
Proof.
  intros Hu Hl. unfold id_write_format. case_if; [done|].
  intros Hsome. apply (inj Some) in Hsome. subst s.
  pose proof (write_groups_nodash uuid group_size Hu) as Hn.
  destruct (write_groups_snoc uuid group_size) as [s Hs]; [done|].
  rewrite Hs in *. rewrite removelast_last. rewrite nodash_app in Hn.
  change (nodash [45]) with (@nil Z) in Hn. rewrite app_nil_r in Hn. rewrite Hn.
  apply take_ge. rewrite Hl. by vm_compute.
Qed.

Lemma id_read_loop_fits uuid out buffer :
  length uuid = ID_LEN -> (out + length (nodash buffer) <= ID_LEN)%nat ->
  id_read_loop uuid out buffer =
    (true, out + length (nodash buffer),
     take out uuid ++ map (swrap 8) (nodash buffer) ++ drop (out + length (nodash buffer)) uuid)%nat.
Proof.
  revert uuid out. induction buffer as [|c buffer IH]; intros uuid out Hl Hf.
  { cbn. by rewrite Nat.add_0_r, take_drop. }
  cbn [id_read_loop]. destruct (Z.eqb_spec c 45) as [->|Hne].
  - rewrite nodash_dash in *. by apply IH.
  - rewrite nodash_char in * by done. cbn [length map] in *. rewrite Nat.add_succ_r in *.
    rewrite (proj2 (Nat.leb_gt _ _)) by lia.
    rewrite IH by (rewrite ?length_insert; lia || done).
    f_equal. rewrite drop_insert_lt by lia.
    rewrite (take_S_r _ _ (swrap 8 c)) by (apply list_lookup_insert_eq; lia).
    rewrite take_insert_ge by lia. by rewrite <- app_assoc.
Qed.

Lemma id_read_loop_overflow uuid out buffer :
  length uuid = ID_LEN -> (out <= ID_LEN)%nat -> (ID_LEN < out + length (nodash buffer))%nat ->
  exists uuid', id_read_loop uuid out buffer = (false, ID_LEN, uuid').
Proof.
  revert uuid out. induction buffer as [|c buffer IH]; intros uuid out Hl Ho Hf; [cbn in *; lia|].
  cbn [id_read_loop]. destruct (Z.eqb_spec c 45) as [->|Hne].
  - rewrite nodash_dash in Hf. by apply IH.
  - rewrite nodash_char in Hf by done. cbn [length] in *.
    destruct (Nat.leb_spec ID_LEN out); [replace out with ID_LEN by lia; eauto|].
    apply IH; rewrite ?length_insert; lia || done.
Qed.

Lemma map_swrap8_ascii s : Forall (fun c => 0 <= c < 128) s -> map (swrap 8) s = s.
Proof.
  induction 1 as [|c s Hc _ IH]; [done|]. simpl. rewrite IH. f_equal. unfold swrap.
  rewrite Z.mod_small; lia.
Qed.

(** Reading any buffer of ASCII characters: success exactly when the characters
    that are not dashes are 32 letters of the alphabet, and then they are the
    identifier. *)
Lemma id_read_format_spec st uuid0 buffer :
  inverse_ok st -> length uuid0 = ID_LEN -> Forall (fun c => 0 <= c < 128) buffer ->
  exists uuid st', inverse_ok st' /\
    id_read_format st uuid0 buffer =
      (Some (bool_decide (length (nodash buffer) = ID_LEN /\ Forall (fun c => c ∈ c_tab) (nodash buffer)),
             uuid), st') /\
    (length (nodash buffer) = ID_LEN -> uuid = nodash buffer).
Proof.
  intros Hst Hl Hb. unfold id_read_format.
  assert (Forall (fun c => 0 <= c < 128) (nodash buffer)) as Hnb by by apply nodash_Forall.
  destruct (decide (length (nodash buffer) <= ID_LEN)%nat) as [Hle|Hgt].
  - rewrite id_read_loop_fits by (done || lia). cbn [negb]. rewrite Nat.add_0_l.
    destruct (Nat.eqb_spec (length (nodash buffer)) ID_LEN) as [He|Hne]; cbn [negb].
    + rewrite map_swrap8_ascii by done. rewrite take_0, app_nil_l.
      rewrite drop_ge, app_nil_r by lia. rewrite id_valid_spec by done.
      eexists _, _. split; [by right|]. split; [|done]. cbn [fmap option_fmap option_map].
      do 3 f_equal. apply bool_decide_ext. tauto.
    + eexists _, st. split; [done|].
      rewrite bool_decide_eq_false_2 by tauto. split; [reflexivity|done].
  - destruct (id_read_loop_overflow uuid0 0 buffer) as [uuid' ->]; [done|lia|lia|].
    eexists uuid', st. split; [done|]. split; [|lia]. cbn [negb].
    by rewrite bool_decide_eq_false_2 by lia.
Qed.

(** ** Numbers as identifiers *)

Lemma strchr_c_at_all :
  forallb (fun d => bool_decide (strchr_from c_tab (wrap8 (c_at (Z.of_nat d))) 0 = Some (Z.of_nat d)))
    (seq 0 64) = true.
Proof. vm_compute. reflexivity. Qed.

Lemma strchr_c_at d : 0 <= d < 64 -> strchr_from c_tab (wrap8 (c_at d)) 0 = Some d.
Proof.
  intros Hd. pose proof strchr_c_at_all as Hall. rewrite forallb_forall in Hall.
  specialize (Hall (Z.to_nat d)). rewrite in_seq in Hall. specialize (Hall ltac:(lia)).
  apply bool_decide_eq_true in Hall. by rewrite Z2Nat.id in Hall by lia.
Qed.

Lemma lvnum_step_digit v d :
  0 <= v -> 0 <= d < 64 -> v * 64 + d < 2 ^ 31 -> lvnum_step v (c_at d) = v * 64 + d.
Proof.
  intros Hv Hd Hlt. unfold lvnum_step, c_len. rewrite strchr_c_at by done.
  rewrite (wrap64_small v), wrap64_small by lia.
  unfold swrap. rewrite !Z.mod_small by lia.
  destruct (Z.ltb_spec (v * 64 + 2 ^ (32 - 1) - 2 ^ (32 - 1) + d + 2 ^ (32 - 1) - 2 ^ (32 - 1)) 0); lia.
Qed.

Lemma num_chars_app i num acc : num_chars i num acc = num_chars i num [] ++ acc.
Proof.
  revert num acc. induction i as [|i IH]; intros num acc; [done|]. cbn [num_chars].
  rewrite IH, (IH _ [_]). by rewrite <- app_assoc.
Qed.

Lemma lvnum_fold i v num :
  0 <= v -> 0 <= num -> v * 64 ^ Z.of_nat i + num < 2 ^ 31 -> num < 64 ^ Z.of_nat i ->
  foldl lvnum_step v (num_chars i num []) = v * 64 ^ Z.of_nat i + num.
Proof.
  revert v num. induction i as [|i IH]; intros v num Hv Hn Hb Hlt.
  { cbn in *. lia. }
  rewrite Nat2Z.inj_succ, Z.pow_succ_r in * by lia.
  cbn [num_chars]. rewrite num_chars_app, foldl_app. unfold c_len.
  assert (0 < 64 ^ Z.of_nat i) as Hp by (apply Z.pow_pos_nonneg; lia).
  assert (0 <= num / 64 < 64 ^ Z.of_nat i) as Hq.
  { split; [apply Z.div_pos; lia|]. apply Z.div_lt_upper_bound; lia. }
  assert (num = 64 * (num / 64) + num mod 64) as Hdm by (apply Z.div_mod; lia).
  pose proof (Z.mod_pos_bound num 64 eq_refl) as Hm.
  assert (0 <= v * 64 ^ Z.of_nat i) by (apply Z.mul_nonneg_nonneg; lia).
  rewrite IH by lia. cbn [foldl]. rewrite lvnum_step_digit; lia.
Qed.

Lemma num_chars_length i num : length (num_chars i num []) = i.
Proof.
  revert num. induction i as [|i IH]; intros num; [done|]. cbn [num_chars].
  rewrite num_chars_app, length_app, IH. simpl. lia.
Qed.

Lemma num_chars_elem i num : 0 <= num -> Forall (fun c => c ∈ c_tab) (num_chars i num []).
Proof.
  revert num. induction i as [|i IH]; intros num Hn; [constructor|]. cbn [num_chars].
  rewrite num_chars_app. apply Forall_app. unfold c_len.
  split; [apply IH; lia|]. constructor; [|constructor]. apply c_at_elem. lia.
Qed.

Lemma removelast_Forall {A} (P : A -> Prop) l : Forall P l -> Forall P (removelast l).
Proof.
  intros H. destruct l as [|x l _] using rev_ind; [done|]. rewrite removelast_last.
  by apply Forall_app in H as [? _].
Qed.

Lemma write_groups_Forall (P : Z -> Prop) uuid groups :
  P 45 -> Forall P uuid -> Forall P (write_groups uuid groups).
Proof.
  intros H45. revert uuid. induction groups as [|g groups IH]; intros uuid Hu; [constructor|].
  cbn [write_groups]. apply Forall_app. split; [by apply Forall_take|].
  constructor; [done|]. apply IH. by apply Forall_drop.
Qed.

Lemma write_groups_length uuid groups :
  (sum_list groups <= length uuid)%nat ->
  length (write_groups uuid groups) = (sum_list groups + length groups)%nat.
Proof.
  revert uuid. induction groups as [|g groups IH]; intros uuid Hl; [done|].
  change (sum_list (g :: groups)) with (g + sum_list groups)%nat in *.
  cbn [write_groups length] in *. rewrite length_app, length_take. cbn [length].
  rewrite IH by (rewrite length_drop; lia). lia.
Qed.

Lemma id_write_format_some uuid size :
  length uuid = ID_LEN -> 39 <= size ->
  exists s, id_write_format uuid size = Some s /\ length s = 38%nat /\
    forall P : Z -> Prop, P 45 -> Forall P uuid -> Forall P s.
Proof.
  intros Hl Hs. unfold id_write_format. case_if; [lia|].
  eexists. split; [reflexivity|]. split.
  - destruct (write_groups_snoc uuid group_size) as [s Es]; [done|].
    pose proof (write_groups_length uuid group_size) as Hw. rewrite Hl in Hw.
    specialize (Hw ltac:(by apply Nat.leb_le)). rewrite Es in *.
    rewrite removelast_last. rewrite length_app in Hw. cbn in Hw |- *. lia.
  - intros P H45 Hu. apply removelast_Forall. by apply write_groups_Forall.
Qed.

(** ** Properties *)

(** A printed identifier reads back: [id_write_format] into a buffer of 40
    bytes stores 38 characters, and [id_read_format] of them succeeds and returns
    the identifier, for every identifier made of letters of the alphabet. *)
Theorem uuid_print_read st uuid0 uuid :
  inverse_ok st -> length uuid0 = ID_LEN -> length uuid = ID_LEN ->
  Forall (fun c => c ∈ c_tab) uuid ->
  exists s st', id_format_and_copy uuid = Some s /\ length s = 38%nat /\
    id_read_format st uuid0 s = (Some (true, uuid), st').
Proof.
  intros Hst Hl0 Hl Hu. unfold id_format_and_copy.
  destruct (id_write_format_some uuid 40 Hl) as (s & Hw & Hsl & HP); [lia|].
  assert (nodash s = uuid) as Hn.
  { eapply id_write_format_nodash; [|exact Hl|exact Hw]. eapply Forall_impl; [exact Hu|].
    intros c Hc. cbn in *. apply c_tab_u8 in Hc; lia. }
  destruct (id_read_format_spec st uuid0 s Hst Hl0) as (u & st' & _ & Hr & Hlen).
  { apply HP; [done|]. eapply Forall_impl; [exact Hu|]. cbn. intros c Hc. apply c_tab_u8 in Hc. lia. }
  exists s, st'. split; [done|]. split; [done|]. rewrite Hr, Hn.
  rewrite bool_decide_eq_true_2 by done. rewrite Hlen by by rewrite Hn. by rewrite Hn.
Qed.

Lemma uuid_print_read_witness :
  exists s st', id_format_and_copy (uuid_from_num 77) = Some s /\ length s = 38%nat /\
    id_read_format inverse_init (replicate 32 0) s = (Some (true, uuid_from_num 77), st').
Proof.
  apply (uuid_print_read inverse_init (replicate 32 0) (uuid_from_num 77));
    [by left|reflexivity|reflexivity|].
  apply (bool_decide_unpack _). vm_compute. exact I.
Defined.

(** [id_read_format] accepts exactly the ASCII texts whose characters other
    than dashes are 32 letters of the alphabet, wherever the dashes are, and
    returns those letters. *)
Theorem uuid_read_accepts st uuid0 buffer :
  inverse_ok st -> length uuid0 = ID_LEN -> Forall (fun c => 0 <= c < 128) buffer ->
  exists ok uuid st', id_read_format st uuid0 buffer = (Some (ok, uuid), st') /\ inverse_ok st' /\
    (ok = true <-> length (nodash buffer) = ID_LEN /\ Forall (fun c => c ∈ c_tab) (nodash buffer)) /\
    (ok = true -> uuid = nodash buffer).
Proof.
  intros Hst Hl Hb. destruct (id_read_format_spec st uuid0 buffer Hst Hl Hb) as (u & st' & ? & Hr & Hu).
  eexists _, u, st'. split; [exact Hr|]. split; [done|]. rewrite bool_decide_eq_true.
  split; [done|]. intros [? _]. auto.
Qed.

Lemma uuid_read_accepts_witness :
  exists ok uuid st', id_read_format inverse_init (replicate 32 0) (bytes "ab-c") =
      (Some (ok, uuid), st') /\ inverse_ok st' /\
    (ok = true <-> length (nodash (bytes "ab-c")) = ID_LEN /\
                   Forall (fun c => c ∈ c_tab) (nodash (bytes "ab-c"))) /\
    (ok = true -> uuid = nodash (bytes "ab-c")).
Proof.
  apply (uuid_read_accepts inverse_init (replicate 32 0) (bytes "ab-c"));
    [by left|reflexivity|repeat constructor; cbn; lia].
Defined.

(** An LV number survives being encoded in an LV identifier and decoded
    again, for every non-negative [int]; the identifier holds the VG's id and is
    a valid one. *)
Theorem lvnum_roundtrip vgid n :
  0 <= n < 2 ^ 31 ->
  lvnum_from_lvid (lvid_from_lvnum vgid n) = n /\
  lvid_vg (lvid_from_lvnum vgid n) = vgid /\
  Forall (fun c => c ∈ c_tab) (lvid_lv (lvid_from_lvnum vgid n)) /\
  length (lvid_lv (lvid_from_lvnum vgid n)) = ID_LEN.
Proof.
  intros Hn. split; [|split; [done|split]].
  - unfold lvnum_from_lvid, lvid_from_lvnum. cbn [lvid_lv].
    rewrite lvnum_fold; [lia..|]. change (64 ^ Z.of_nat ID_LEN) with (2 ^ 192).
    apply Z.lt_trans with (2 ^ 31); [lia|]. apply Z.pow_lt_mono_r; lia.
  - apply num_chars_elem. lia.
  - apply num_chars_length.
Qed.

Lemma lvnum_roundtrip_witness :
  lvnum_from_lvid (lvid_from_lvnum [65; 66] 123456789) = 123456789 /\
  lvid_vg (lvid_from_lvnum [65; 66] 123456789) = [65; 66] /\
  Forall (fun c => c ∈ c_tab) (lvid_lv (lvid_from_lvnum [65; 66] 123456789)) /\
  length (lvid_lv (lvid_from_lvnum [65; 66] 123456789)) = ID_LEN.
Proof. apply (lvnum_roundtrip [65; 66] 123456789). lia. Defined.

(** A byte above 0x7f in an identifier of 32 bytes makes [id_valid] index its
    table with a negative [char]: reading such a buffer is a wild access, not the
    "invalid character" error. *)
Theorem uuid_read_high_byte c rest st uuid0 :
  128 <= c < 256 -> length rest = 31%nat -> Forall (fun c => c <> 45) rest ->
  inverse_ok st -> length uuid0 = ID_LEN -> (id_read_format st uuid0 (c :: rest)).1 = None.
Proof.
  intros Hc Hl Hd Hst Hl0. unfold id_read_format.
  assert (nodash (c :: rest) = c :: rest) as Hn.
  { apply nodash_id. constructor; [lia|done]. }
  rewrite id_read_loop_fits; [|done|rewrite Hn; cbn; rewrite Hl; unfold ID_LEN; lia].
  rewrite Hn. cbn [length negb]. rewrite Hl. cbn [Nat.add Nat.eqb negb ID_LEN].
  unfold id_valid. rewrite build_inverse_ok by done.
  rewrite take_0. cbn [app map id_valid_loop]. rewrite zlookup_None; [done|].
  left. unfold swrap. lia.
Qed.

Lemma uuid_read_high_byte_witness :
  (id_read_format inverse_init (replicate 32 0) (200 :: replicate 31 65)).1 = None.
Proof.
  apply (uuid_read_high_byte 200 (replicate 31 65) inverse_init (replicate 32 0));
    [lia|reflexivity|repeat constructor; done|by left|reflexivity].
Defined.
