(* ===== verification/DmString.v ===== *)
(** * Names and quoting: libdm/libdm-string.c and lib/misc/lvm-string.c

    Device-mapper device names are built from a VG name, an LV name and an
    optional layer, with hyphens doubled inside the components; configuration
    strings escape double quotes and backslashes.  A C string is the list of its
    bytes without the terminating NUL.  The routines that work in situ never
    write ahead of the character they read, so they are functions from the old
    contents of the buffer to the new. *)

From S2P Require Import Prelude.

Definition HYPHEN : Z := 45.
Definition DQUOTE : Z := 34.
Definition BACKSLASH : Z := 92.
Definition UNDERSCORE : Z := 95.

(** ** Quoting and escaping: the code *)

(** [_unquote]: the component, and the start of the next one. *)
Fixpoint unquote (s : list Z) : list Z * list Z :=
  match s with
  | [] => ([], [])
  | c :: t =>
      match t with
      | [] => ([c], [])
      | d :: t' =>
          if c =? HYPHEN then
            if d =? HYPHEN then let '(o, r) := unquote t' in (HYPHEN :: o, r)
            else ([], t)
          else let '(o, r) := unquote t in (c :: o, r)
      end
  end.

(** [dm_split_lvm_name]: VG name, LV name and layer. *)
Definition dm_split_lvm_name (dmname : list Z) : list Z * list Z * list Z :=
  let '(vgname, rest) := unquote dmname in
  let '(lvname, rest) := unquote rest in
  let '(layer, _) := unquote rest in
  (vgname, lvname, layer).

(** [_count_chars]: the new [len] and [count]. *)
Fixpoint count_chars (str : list Z) (len count c1 c2 : Z) : Z * Z :=
  match str with
  | [] => (len, count)
  | c :: str => count_chars str (len + 1) (if (c =? c1) || (c =? c2) then count + 1 else count) c1 c2
  end.

Definition dm_escaped_len (str : list Z) : Z :=
  let '(len, count) := count_chars str 1 0 DQUOTE BACKSLASH in count + len.

Fixpoint quote_characters (src : list Z) (orig_char quote_char : Z) (quote_quote_char : bool) : list Z :=
  match src with
  | [] => []
  | c :: src =>
      (if (c =? orig_char) || ((c =? quote_char) && quote_quote_char) then [quote_char] else [])
      ++ c :: quote_characters src orig_char quote_char quote_quote_char
  end.

(** The inner loop of [_unquote_one_character], entered at the first quoted
    character. *)
Fixpoint unquote_one_loop (src : list Z) (orig_char quote_char : Z) : list Z :=
  match src with
  | [] => []
  | s :: src =>
      match src with
      | n :: src' =>
          if (s =? quote_char) && ((n =? orig_char) || (n =? quote_char))
          then n :: unquote_one_loop src' orig_char quote_char
          else s :: unquote_one_loop src orig_char quote_char
      | [] => [s]
      end
  end.

(** [_unquote_one_character]: the outer loop leaves the buffer alone up to the
    first quoted character. *)
Fixpoint unquote_one_character (src : list Z) (orig_char quote_char : Z) : list Z :=
  match src with
  | [] => []
  | s :: src' =>
      match src' with
      | n :: src'' =>
          if (s =? quote_char) && ((n =? orig_char) || (n =? quote_char))
          then n :: unquote_one_loop src'' orig_char quote_char
          else s :: unquote_one_character src' orig_char quote_char
      | [] => src
      end
  end.

Definition quote_hyphens (src : list Z) : list Z := quote_characters src HYPHEN HYPHEN false.

(** [dm_build_dm_name]: the size allocated and the string stored in it. *)
Definition dm_build_dm_name (vgname lvname : list Z) (layer : option (list Z)) : Z * list Z :=
  let '(len, hyphens) := count_chars vgname 1 1 HYPHEN 0 in
  let '(len, hyphens) := count_chars lvname len hyphens HYPHEN 0 in
  let '(len, hyphens) :=
    match layer with
    | Some (c :: l) => let '(len, hyphens) := count_chars (c :: l) len hyphens HYPHEN 0 in (len, hyphens + 1)
    | _ => (len, hyphens)
    end in
  let len := len + hyphens in
  let r := quote_hyphens vgname ++ [HYPHEN] ++ quote_hyphens lvname in
  let r := match layer with
           | Some (c :: l) => r ++ (if c =? UNDERSCORE then [] else [HYPHEN]) ++ quote_hyphens (c :: l)
           | _ => r
           end in
  (len, r).

(** [dm_build_dm_uuid]: the size allocated and the string. *)
Definition dm_build_dm_uuid (uuid_prefix lvid : list Z) (layer : option (list Z)) : Z * list Z :=
  let layer := default [] layer in
  (Z.of_nat (length uuid_prefix + length lvid + length layer + 2),
   uuid_prefix ++ lvid ++ (if layer is [] then [] else [HYPHEN]) ++ layer).

Definition dm_escape_double_quotes (src : list Z) : list Z :=
  quote_characters src DQUOTE BACKSLASH true.

Definition dm_unescape_double_quotes (src : list Z) : list Z :=
  unquote_one_character src DQUOTE BACKSLASH.

(** [dm_strncpy]: the return value and the first [n] bytes of [dest]. *)
Definition dm_strncpy (dest src : list Z) (n : nat) : bool * list Z :=
  if (length src <? n)%nat
  then (true, src ++ 0 :: drop (S (length src)) dest)
  else let dest := take n src ++ drop n dest in
       (false, if (0 <? n)%nat then <[(n - 1)%nat := 0]> dest else dest).

(** ** Name validation: the code *)

Definition isalnum (c : Z) : bool :=
  ((48 <=? c) && (c <=? 57)) || ((65 <=? c) && (c <=? 90)) || ((97 <=? c) && (c <=? 122)).

Definition NAME_LEN : Z := 128.

Definition one_of (l : list Z) (c : Z) : bool := existsb (fun x => c =? x) l.

(** [NULL] is [None]. *)
Definition validate_tag (n : option (list Z)) : bool :=
  match n with
  | None | Some [] => false
  | Some s => forallb (fun c => isalnum c || one_of (bytes "._-+/=!:&#") c) s
  end.

Definition validate_name (n : option (list Z)) : bool :=
  match n with
  | None | Some [] => false
  | Some ((c0 :: _) as s) =>
      if c0 =? HYPHEN then false
      else if bool_decide (s = bytes ".") || bool_decide (s = bytes "..") then false
      else if forallb (fun c => isalnum c || one_of (bytes "._-+") c) s
           then negb (NAME_LEN <? Z.of_nat (length s) + 1)
           else false
  end.

(** [strncmp(name, s, strlen(s)) == 0] and [strstr(name, s) != NULL]. *)
Fixpoint is_prefix (s name : list Z) : bool :=
  match s, name with
  | [], _ => true
  | x :: s, y :: name => (x =? y) && is_prefix s name
  | _, [] => false
  end.

Fixpoint strstr (name s : list Z) : bool :=
  is_prefix s name || match name with [] => false | _ :: name => strstr name s end.

Definition reserved_prefixes : list (list Z) := [bytes "snapshot"; bytes "pvmove"].

Definition reserved_strings : list (list Z) :=
  [bytes "_mlog"; bytes "_mimage"; bytes "_rimage"; bytes "_rmeta"; bytes "_vorigin";
   bytes "_tdata"; bytes "_tmeta"].

Definition apply_lvname_restrictions (name : list Z) : bool :=
  if existsb (fun s => is_prefix s name) reserved_prefixes then false
  else if existsb (fun s => strstr name s) reserved_strings then false
  else true.

Definition is_reserved_lvname (name : list Z) : bool := negb (apply_lvname_restrictions name).

(** ** Counting and lengths *)

Fixpoint countb (f : Z -> bool) (s : list Z) : Z :=
  match s with
  | [] => 0
  | c :: s => (if f c then 1 else 0) + countb f s
  end.

Lemma countb_ext f g s : (forall c, c ∈ s -> f c = g c) -> countb f s = countb g s.
Proof.
  induction s as [|c s IH]; intros H; [done|]. simpl.
  rewrite H, IH; [done|intros; apply H|]; by constructor.
Qed.

Lemma count_chars_spec s len count c1 c2 :
  count_chars s len count c1 c2 =
    (len + Z.of_nat (length s), count + countb (fun c => (c =? c1) || (c =? c2)) s).
Proof.
  revert len count. induction s as [|c s IH]; intros len count; cbn [count_chars countb length].
  { f_equal; lia. }
  rewrite IH. f_equal; [|destruct (_ || _)]; lia.
Qed.

Lemma quote_characters_length s o q qq :
  Z.of_nat (length (quote_characters s o q qq)) =
    Z.of_nat (length s) + countb (fun c => (c =? o) || ((c =? q) && qq)) s.
Proof.
  induction s as [|c s IH]; [done|]. cbn [quote_characters countb length].
  rewrite length_app. cbn [length]. destruct (_ || _); cbn [length]; lia.
Qed.

(** ** Quoting is undone by unquoting *)

Lemma quote_hyphens_cons c s :
  quote_hyphens (c :: s) = (if c =? HYPHEN then [HYPHEN; HYPHEN] else [c]) ++ quote_hyphens s.
Proof.
  unfold quote_hyphens. cbn [quote_characters]. rewrite andb_false_r, orb_false_r.
  by destruct (Z.eqb_spec c HYPHEN) as [->|].
Qed.

Lemma quote_hyphens_app a b : quote_hyphens (a ++ b) = quote_hyphens a ++ quote_hyphens b.
Proof.
  induction a as [|c a IH]; [done|]. cbn [app]. rewrite !quote_hyphens_cons, IH.
  by rewrite app_assoc.
Qed.

(** A string that can follow a separator: not empty and not starting with a
    hyphen. *)
Definition starts_component (b : list Z) : Prop :=
  match b with [] => False | c :: _ => c <> HYPHEN end.

Lemma unquote_char c t :
  c <> HYPHEN -> t <> [] -> unquote (c :: t) = let '(o, r) := unquote t in (c :: o, r).
Proof.
  intros Hc Ht. destruct t as [|d t]; [done|].
  change (unquote (c :: d :: t)) with
    (if c =? HYPHEN then
       if d =? HYPHEN then let '(o, r) := unquote t in (HYPHEN :: o, r) else ([], d :: t)
     else let '(o, r) := unquote (d :: t) in (c :: o, r)).
  by destruct (Z.eqb_spec c HYPHEN).
Qed.

Lemma unquote_quoted a b : starts_component b -> unquote (quote_hyphens a ++ HYPHEN :: b) = (a, b).
Proof.
  intros Hb. induction a as [|c a IH].
  - destruct b as [|c b]; [done|]. cbn. by destruct (Z.eqb_spec c HYPHEN).
  - rewrite quote_hyphens_cons. destruct (Z.eqb_spec c HYPHEN) as [->|Hne].
    + cbn -[quote_hyphens]. by rewrite IH.
    + cbn [app]. rewrite unquote_char by (done || by destruct (quote_hyphens a)). by rewrite IH.
Qed.

Lemma unquote_last a : unquote (quote_hyphens a) = (a, []).
Proof.
  induction a as [|c a IH]; [done|]. rewrite quote_hyphens_cons.
  destruct (Z.eqb_spec c HYPHEN) as [->|Hne].
  - cbn -[quote_hyphens]. by rewrite IH.
  - cbn [app]. destruct a as [|d a]; [done|].
    rewrite unquote_char, IH; [done..|]. rewrite quote_hyphens_cons. by destruct (d =? HYPHEN).
Qed.

Lemma starts_component_quote c a rest :
  c <> HYPHEN -> starts_component (quote_hyphens (c :: a) ++ rest).
Proof. intros Hc. rewrite quote_hyphens_cons. by destruct (Z.eqb_spec c HYPHEN). Qed.

(** Components that [validate_name] accepts do not start with a hyphen. *)
Lemma validate_name_start s : validate_name (Some s) = true -> exists c t, s = c :: t /\ c <> HYPHEN.
Proof.
  destruct s as [|c t]; [done|]. cbn [validate_name].
  destruct (Z.eqb_spec c HYPHEN); [done|]. intros _. eauto.
Qed.

Lemma escape_cons c s :
  dm_escape_double_quotes (c :: s) =
    (if (c =? DQUOTE) || (c =? BACKSLASH) then [BACKSLASH; c] else [c]) ++ dm_escape_double_quotes s.
Proof.
  unfold dm_escape_double_quotes. cbn [quote_characters]. rewrite andb_true_r.
  by destruct (_ || _).
Qed.

Lemma unquote_one_loop_eq s o q : unquote_one_character s o q = unquote_one_loop s o q.
Proof.
  induction s as [|c [|d s] IH]; [done..|]. cbn [unquote_one_character unquote_one_loop].
  case_if; [done|]. f_equal. exact IH.
Qed.

Lemma unescape_escape s : dm_unescape_double_quotes (dm_escape_double_quotes s) = s.
Proof.
  unfold dm_unescape_double_quotes. rewrite unquote_one_loop_eq.
  induction s as [|c s IH]; [done|]. rewrite escape_cons.
  destruct ((c =? DQUOTE) || (c =? BACKSLASH)) eqn:E.
  - cbn -[dm_escape_double_quotes]. unfold DQUOTE, BACKSLASH in *. rewrite E. by rewrite IH.
  - apply orb_false_iff in E as [E1 E2]. cbn [app].
    destruct (dm_escape_double_quotes s) as [|d t] eqn:Es.
    + destruct s as [|d s]; [done|]. rewrite escape_cons in Es. by destruct (_ || _).
    + change (unquote_one_loop (c :: d :: t) DQUOTE BACKSLASH) with
        (if (c =? BACKSLASH) && ((d =? DQUOTE) || (d =? BACKSLASH))
         then d :: unquote_one_loop t DQUOTE BACKSLASH
         else c :: unquote_one_loop (d :: t) DQUOTE BACKSLASH).
      rewrite E2. cbn [andb]. by rewrite IH.
Qed.

(** ** Properties *)

(** What [dm_split_lvm_name] makes of the layer appended by [dm_build_dm_name]: a
    layer that starts with an underscore is glued to the LV name. *)
Definition split_result (vg lv : list Z) (layer : option (list Z)) : list Z * list Z * list Z :=
  match layer with
  | Some (c :: l) => if c =? UNDERSCORE then (vg, lv ++ c :: l, []) else (vg, lv, c :: l)
  | _ => (vg, lv, [])
  end.

(** Splitting a device-mapper name gives back what it was built from: for
    valid VG and LV names, hyphens included, and any layer that does not start
    with a hyphen, [dm_split_lvm_name] of [dm_build_dm_name] is the VG name, the
    LV name and the layer (the LV name with the layer appended when the layer
    starts with an underscore). *)
Theorem split_build_dm_name vg lv layer :
  validate_name (Some vg) = true -> validate_name (Some lv) = true ->
  (match layer with Some (c :: _) => c <> HYPHEN | _ => True end) ->
  dm_split_lvm_name (dm_build_dm_name vg lv layer).2 = split_result vg lv layer.
Proof.
  intros Hvg Hlv Hlay. apply validate_name_start in Hlv as (c & t & -> & Hc).
  unfold dm_build_dm_name. rewrite !count_chars_spec. unfold dm_split_lvm_name, split_result.
  assert (forall a rest, c <> HYPHEN -> unquote (quote_hyphens vg ++ HYPHEN ::
            quote_hyphens (c :: a) ++ rest) = (vg, quote_hyphens (c :: a) ++ rest)) as Hfirst.
  { intros a rest Ha. apply unquote_quoted. by apply starts_component_quote. }
  destruct layer as [[|d l]|]; cbn [snd].
  - cbn [app]. rewrite <- (app_nil_r (quote_hyphens (c :: t))), Hfirst by done.
    by rewrite app_nil_r, unquote_last.
  - rewrite count_chars_spec. cbn [snd]. rewrite <- !app_assoc. cbn [app].
    destruct (Z.eqb_spec d UNDERSCORE) as [->|Hd]; cbn [app].
    + rewrite Hfirst by done. by rewrite <- quote_hyphens_app, unquote_last.
    + rewrite Hfirst by done. rewrite unquote_quoted, unquote_last; [done|].
      rewrite <- (app_nil_r (quote_hyphens (d :: l))). by apply starts_component_quote.
  - cbn [app]. rewrite <- (app_nil_r (quote_hyphens (c :: t))), Hfirst by done.
    by rewrite app_nil_r, unquote_last.
Qed.

Lemma split_build_dm_name_witness :
  dm_split_lvm_name (dm_build_dm_name (bytes "my-vg") (bytes "lv-0") (Some (bytes "cow"))).2 =
    (bytes "my-vg", bytes "lv-0", bytes "cow").
Proof.
  apply (split_build_dm_name (bytes "my-vg") (bytes "lv-0") (Some (bytes "cow")));
    [vm_compute; reflexivity..|vm_compute; discriminate].
Defined.

(** The buffer [dm_build_dm_name] allocates holds the name it stores and the
    terminating NUL, for any VG name, LV name and layer without a NUL inside (and
    [dm_build_dm_uuid]'s does too). *)
Theorem build_dm_name_fits vg lv layer :
  0 ∉ vg -> 0 ∉ lv -> 0 ∉ default [] layer ->
  Z.of_nat (length (dm_build_dm_name vg lv layer).2) + 1 <= (dm_build_dm_name vg lv layer).1 /\
  Z.of_nat (length (dm_build_dm_uuid vg lv layer).2) + 1 <= (dm_build_dm_uuid vg lv layer).1.
Proof.
  intros Hvg Hlv Hlay. split.
  2:{ unfold dm_build_dm_uuid. cbn [fst snd]. rewrite !length_app.
      destruct (default [] layer); cbn [length]; lia. }
  assert (forall s, 0 ∉ s -> countb (fun c => (c =? HYPHEN) || (c =? 0)) s =
            countb (fun c => (c =? HYPHEN) || ((c =? HYPHEN) && false)) s) as Hcount.
  { intros s Hs. apply countb_ext. intros c Hc. rewrite andb_false_r.
    destruct (Z.eqb_spec c 0) as [->|]; [done|reflexivity]. }
  assert (forall s, 0 ∉ s -> Z.of_nat (length (quote_hyphens s)) = Z.of_nat (length s) +
            countb (fun c => (c =? HYPHEN) || (c =? 0)) s) as Hq.
  { intros s Hs. rewrite Hcount by done. apply quote_characters_length. }
  unfold dm_build_dm_name. rewrite !count_chars_spec.
  destruct layer as [[|d l]|]; cbn [fst snd default from_option id] in *;
    rewrite ?count_chars_spec; cbn [fst snd]; rewrite !length_app;
    rewrite ?Nat2Z.inj_add, !Hq by done; cbn [length]; [lia| |lia].
  destruct (d =? UNDERSCORE); cbn [length]; lia.
Qed.

Lemma build_dm_name_fits_witness :
  Z.of_nat (length (dm_build_dm_name (bytes "a-b") (bytes "-") (Some (bytes "_x"))).2) + 1 <=
    (dm_build_dm_name (bytes "a-b") (bytes "-") (Some (bytes "_x"))).1 /\
  Z.of_nat (length (dm_build_dm_uuid (bytes "a-b") (bytes "-") (Some (bytes "_x"))).2) + 1 <=
    (dm_build_dm_uuid (bytes "a-b") (bytes "-") (Some (bytes "_x"))).1.
Proof.
  apply (build_dm_name_fits (bytes "a-b") (bytes "-") (Some (bytes "_x")));
    apply (bool_decide_unpack _); vm_compute; exact I.
Defined.

(** Escaping of configuration strings is undone by unescaping, and
    [dm_escaped_len] is exactly the size of the escaped string with its NUL. *)
Theorem escape_roundtrip s :
  dm_unescape_double_quotes (dm_escape_double_quotes s) = s /\
  dm_escaped_len s = Z.of_nat (length (dm_escape_double_quotes s)) + 1.
Proof.
  split; [apply unescape_escape|]. unfold dm_escaped_len, dm_escape_double_quotes.
  rewrite count_chars_spec, quote_characters_length.
  rewrite (countb_ext (fun c => (c =? DQUOTE) || ((c =? BACKSLASH) && true))
             (fun c => (c =? DQUOTE) || (c =? BACKSLASH))); [lia|].
  intros c _. by rewrite andb_true_r.
Qed.

(** [dm_strncpy] into a buffer of [n] bytes keeps the buffer's length and
    leaves a NUL-terminated string in it: the whole source, and 1, when it fits
    with its NUL; otherwise 0 and the first [n-1] bytes. *)
Theorem strncpy_terminates dest src n :
  length dest = n -> (0 < n)%nat ->
  exists ok d, dm_strncpy dest src n = (ok, d) /\ length d = n /\
    (ok = true <-> (length src < n)%nat) /\
    take (Nat.min (length src) (n - 1)) d = take (n - 1) src /\
    d !! Nat.min (length src) (n - 1) = Some 0.
Proof.
  intros Hl Hn. unfold dm_strncpy. destruct (Nat.ltb_spec (length src) n) as [Hlt|Hge].
  - eexists _, _. split; [reflexivity|]. autorewrite with lists. cbn [length].
    rewrite length_drop. split; [lia|]. split; [done|].
    rewrite Nat.min_l by lia. rewrite take_app_le by lia. split; [by rewrite !take_ge by lia|].
    rewrite lookup_app_r by lia. by rewrite Nat.sub_diag.
  - rewrite (proj2 (Nat.ltb_lt 0 n)) by lia. eexists _, _. split; [reflexivity|].
    assert (length (take n src ++ drop n dest) = n) as Hlen.
    { rewrite length_app, length_take, length_drop. lia. }
    rewrite length_insert. split; [done|]. split; [split; [done|lia]|].
    rewrite Nat.min_r by lia. split.
    + rewrite take_insert_ge by lia. rewrite take_app_le by (rewrite length_take; lia).
      rewrite take_take. f_equal. lia.
    + apply list_lookup_insert_eq. lia.
Qed.

Lemma strncpy_terminates_witness :
  exists ok d, dm_strncpy (replicate 4 7) (bytes "abcdef") 4 = (ok, d) /\ length d = 4%nat /\
    (ok = true <-> (length (bytes "abcdef") < 4)%nat) /\
    take (Nat.min (length (bytes "abcdef")) (4 - 1)) d = take (4 - 1) (bytes "abcdef") /\
    d !! Nat.min (length (bytes "abcdef")) (4 - 1) = Some 0.
Proof. apply (strncpy_terminates (replicate 4 7) (bytes "abcdef") 4); [reflexivity|lia]. Defined.
