(* ===== verification/DmList.v ===== *)
(** * Circular doubly linked lists: libdm/datastruct/list.c

    The list nodes live in a heap with one map per field of [struct dm_list];
    the operations perform the pointer stores of the code in their order, and a
    dereference of an address that holds no node is [None].  [ring] is the
    abstraction: the nodes reached from a head.  The other files use this to
    keep intrusive lists as Rocq lists. *)

From stdpp Require Import gmap.
From S2P Require Import Prelude.

(** ** The code *)

(** Fields [n] and [p] of every [struct dm_list] in memory. *)
Record heap := Heap { hn : gmap nat nat; hp : gmap nat nat }.

(** Stores to the fields, which need a list at the address. *)
Definition set_n (h : heap) (x v : nat) : option heap := _ ← hn h !! x; Some (Heap (<[x := v]> (hn h)) (hp h)).
Definition set_p (h : heap) (x v : nat) : option heap := _ ← hp h !! x; Some (Heap (hn h) (<[x := v]> (hp h))).

Definition NULL : nat := 0.

(** [assert(head->n)]; [None] is also the end of the program. *)
Definition assert_n (h : heap) (head : nat) : option () := n ← hn h !! head; if decide (n = NULL) then None else Some ().

Definition dm_list_init (h : heap) (head : nat) : option heap := h ← set_p h head head; set_n h head head.

Definition dm_list_add (h : heap) (head elem : nat) : option heap :=
  assert_n h head;;
  h ← set_n h elem head;
  hd_p ← hp h !! head; h ← set_p h elem hd_p;
  hd_p ← hp h !! head; h ← set_n h hd_p elem;
  set_p h head elem.

Definition dm_list_add_h (h : heap) (head elem : nat) : option heap :=
  assert_n h head;;
  hd_n ← hn h !! head; h ← set_n h elem hd_n;
  h ← set_p h elem head;
  hd_n ← hn h !! head; h ← set_p h hd_n elem;
  set_n h head elem.

Definition dm_list_del (h : heap) (elem : nat) : option heap :=
  e_n ← hn h !! elem; e_p ← hp h !! elem; h ← set_p h e_n e_p;
  e_p ← hp h !! elem; e_n ← hn h !! elem; set_n h e_p e_n.

Definition dm_list_move (h : heap) (head elem : nat) : option heap :=
  h ← dm_list_del h elem; dm_list_add h head elem.

Definition dm_list_empty (h : heap) (head : nat) : option bool :=
  n ← hn h !! head; Some (bool_decide (n = head)).

Definition dm_list_start (h : heap) (head elem : nat) : option bool :=
  p ← hp h !! elem; Some (bool_decide (p = head)).

Definition dm_list_end (h : heap) (head elem : nat) : option bool :=
  n ← hn h !! elem; Some (bool_decide (n = head)).

(** [NULL] is the inner [None]. *)
Definition dm_list_first (h : heap) (head : nat) : option (option nat) :=
  e ← dm_list_empty h head; if (e : bool) then Some None else Some <$> hn h !! head.

Definition dm_list_last (h : heap) (head : nat) : option (option nat) :=
  e ← dm_list_empty h head; if (e : bool) then Some None else Some <$> hp h !! head.

Definition dm_list_prev (h : heap) (head elem : nat) : option (option nat) :=
  s ← dm_list_start h head elem; if (s : bool) then Some None else Some <$> hp h !! elem.

Definition dm_list_next (h : heap) (head elem : nat) : option (option nat) :=
  e ← dm_list_end h head elem; if (e : bool) then Some None else Some <$> hn h !! elem.

(** [dm_list_iterate]: [for (v = head->n; v != head; v = v->n) s++], with 32
    bits for [s]; the fuel bounds the number of nodes visited. *)
Fixpoint size_loop (fuel : nat) (h : heap) (head v : nat) (s : Z) : option Z :=
  match fuel with
  | O => None
  | S fuel => if decide (v = head) then Some s
              else v ← hn h !! v; size_loop fuel h head v (wrap32 (s + 1))
  end.

Definition dm_list_size (fuel : nat) (h : heap) (head : nat) : option Z :=
  v ← hn h !! head; size_loop fuel h head v 0.

Definition dm_list_splice (h : heap) (head head1 : nat) : option heap :=
  assert_n h head;; assert_n h head1;;
  e ← dm_list_empty h head1;
  if (e : bool) then Some h
  else
    h1_p ← hp h !! head1; h ← set_n h h1_p head;
    h1_n ← hn h !! head1; hd_p ← hp h !! head; h ← set_p h h1_n hd_p;
    hd_p ← hp h !! head; h1_n ← hn h !! head1; h ← set_n h hd_p h1_n;
    h1_p ← hp h !! head1; h ← set_p h head h1_p;
    dm_list_init h head1.

(** ** Rings *)

(** Consecutive nodes of [l] are linked both ways. *)
Fixpoint path (h : heap) (l : list nat) : Prop :=
  match l with
  | x :: ((y :: _) as t) => hn h !! x = Some y /\ hp h !! y = Some x /\ path h t
  | _ => True
  end.

(** The list with header [head] holds the nodes [l], in this order; nothing is at
    address 0. *)
Definition ring (h : heap) (head : nat) (l : list nat) : Prop :=
  NoDup (head :: l) /\ path h (head :: l ++ [head]) /\ hn h !! NULL = None.

(** There is a [struct dm_list] at the address. *)
Definition alive (h : heap) (x : nat) : Prop := is_Some (hn h !! x) /\ is_Some (hp h !! x).

Lemma set_n_alive h x y v : hn h !! x = Some y -> set_n h x v = Some (Heap (<[x := v]> (hn h)) (hp h)).
Proof. unfold set_n. by intros ->. Qed.

Lemma set_p_alive h x y v : hp h !! x = Some y -> set_p h x v = Some (Heap (hn h) (<[x := v]> (hp h))).
Proof. unfold set_p. by intros ->. Qed.

Lemma path_cons h x y l : path h (x :: y :: l) <-> hn h !! x = Some y /\ hp h !! y = Some x /\ path h (y :: l).
Proof. reflexivity. Qed.

Lemma path_app h l1 x l2 : path h (l1 ++ x :: l2) <-> path h (l1 ++ [x]) /\ path h (x :: l2).
Proof.
  induction l1 as [|y [|z l1] IH]; cbn [app] in *.
  - simpl. tauto.
  - rewrite path_cons. simpl. tauto.
  - rewrite !path_cons, IH. tauto.
Qed.

(** The links of a path only depend on the [n] fields of its nodes but the last
    and on the [p] fields of its nodes but the first. *)
Lemma path_frame h h' l :
  path h l ->
  (forall x, x ∈ removelast l -> hn h' !! x = hn h !! x) ->
  (forall x, x ∈ tail l -> hp h' !! x = hp h !! x) ->
  path h' l.
Proof.
  induction l as [|x [|y l] IH]; [done..|]. rewrite !path_cons. intros (Hn & Hp & Hl) Fn Fp.
  split; [rewrite Fn; [done|by constructor]|].
  split; [rewrite Fp; [done|by constructor]|].
  apply IH; [done|..]; intros z Hz; [apply Fn|apply Fp]; by constructor.
Qed.

Lemma removelast_elem {A} (l : list A) t z :
  NoDup l -> last l = Some t -> z ∈ removelast l -> z ∈ l /\ z <> t.
Proof.
  intros Hnd Ht Hz. destruct l as [|y l _] using rev_ind; [done|].
  rewrite last_snoc in Ht. injection Ht as ->. rewrite removelast_last in Hz.
  apply NoDup_app in Hnd as (_ & Hnd & _). split; [set_solver|].
  intros ->. apply (Hnd t); [done|constructor].
Qed.

(** A path survives stores to the [n] field of its last node, to the [p] field of
    its first one, and outside it. *)
Lemma path_inner h h' x l t :
  path h (x :: l) -> NoDup (x :: l) -> last (x :: l) = Some t ->
  (forall z, z ∈ x :: l -> z <> t -> hn h' !! z = hn h !! z) ->
  (forall z, z ∈ x :: l -> z <> x -> hp h' !! z = hp h !! z) ->
  path h' (x :: l).
Proof.
  intros Hp Hnd Ht Fn Fp. eapply path_frame; [exact Hp|..]; intros z Hz.
  - by apply Fn; eapply removelast_elem.
  - apply NoDup_cons in Hnd as [Hn _]. apply Fp; [by constructor|]. intros ->. done.
Qed.

Lemma removelast_snoc {A} (l : list A) x : removelast (l ++ [x]) = l.
Proof. apply removelast_last. Qed.

(** Any node can serve as the header. *)
Lemma ring_rotate h head l1 y l2 :
  ring h head (l1 ++ y :: l2) -> ring h y (l2 ++ head :: l1).
Proof.
  intros (Hnd & Hp & H0). split; [|split; [|done]].
  - eapply NoDup_Permutation_proper; [|exact Hnd].
    rewrite app_comm_cons, (Permutation_app_comm (y :: l2)).
    simpl. by constructor.
  - rewrite <- app_assoc in Hp. cbn [app] in Hp. rewrite app_comm_cons in Hp.
    apply path_app in Hp as [H1 H2].
    rewrite <- app_assoc. cbn [app]. rewrite app_comm_cons. by apply path_app.
Qed.

Lemma ring_init h head : hn h !! NULL = None -> alive h head -> exists h', dm_list_init h head = Some h' /\ ring h' head [].
Proof.
  intros H0 [[n Hn] [p Hp]]. unfold dm_list_init. rewrite (set_p_alive _ _ _ _ Hp). cbn [mbind option_bind].
  erewrite set_n_alive by exact Hn. eexists. split; [done|]. split; [apply NoDup_singleton|]. cbn. rewrite !lookup_insert_eq.
  split; [done|]. rewrite lookup_insert_ne; [done|]. intros ->. by rewrite H0 in Hn.
Qed.

(** The node before the header. *)
Lemma ring_prev h head l :
  ring h head l -> exists l1 t, head :: l = l1 ++ [t] /\ hn h !! t = Some head /\ hp h !! head = Some t /\
    path h (head :: l).
Proof.
  intros (Hnd & Hp & _).
  destruct (@exists_last _ (head :: l)) as (l1 & t & E); [done|].
  exists l1, t. split; [done|]. rewrite app_comm_cons, E, <- app_assoc in Hp. cbn [app] in Hp.
  apply path_app in Hp as [H1 H2]. rewrite E. destruct H2 as (? & ? & _). done.
Qed.

Lemma ring_next h head l :
  ring h head l -> hn h !! head = Some (hd head l) /\ hp h !! (hd head l) = Some head.
Proof. intros (_ & Hp & _). destruct l as [|y l]; cbn in *; naive_solver. Qed.

(** The nodes are in memory. *)
Lemma ring_alive h head l x : ring h head l -> x ∈ head :: l -> alive h x.
Proof.
  assert (forall l, ring h x l -> alive h x) as Hself.
  { intros l' Hr. destruct (ring_next _ _ _ Hr) as [Hn _]. destruct (ring_prev _ _ _ Hr) as (? & t & _ & _ & Hp & _). split; by eexists. }
  intros Hr [-> |Hx]%elem_of_cons; [by apply (Hself l)|]. apply list_elem_of_split in Hx as (l1 & l2 & ->). by eapply Hself, ring_rotate.
Qed.

Lemma ring_assert h head l : ring h head l -> assert_n h head = Some ().
Proof.
  intros Hr. unfold assert_n. destruct (ring_next _ _ _ Hr) as [-> _]. cbn [mbind option_bind]. rewrite decide_False; [done|]. intros E.
  destruct (ring_alive h head l NULL Hr) as [[n Hn] _]; [rewrite <- E; destruct l; set_solver|]. destruct Hr as (_ & _ & H0). by rewrite H0 in Hn.
Qed.

Lemma tail_elem {A} (x y : A) l : x ∈ tail (y :: l) <-> x ∈ l.
Proof. reflexivity. Qed.

(** Everything but the nodes of a ring and [elem] is left alone. *)
Definition frame (ns : list nat) (h h' : heap) : Prop :=
  forall x, x ∉ ns -> hn h' !! x = hn h !! x /\ hp h' !! x = hp h !! x.

Lemma dm_list_add_spec h head l elem :
  ring h head l -> alive h elem -> elem ∉ head :: l ->
  exists h', dm_list_add h head elem = Some h' /\ ring h' head (l ++ [elem]) /\
    frame (elem :: head :: l) h h'.
Proof.
  intros Hr [[en Hen] [ep Hep]] He. destruct (ring_prev _ _ _ Hr) as (l1 & t & E & Hn & Hp & Hpath).
  unfold dm_list_add. rewrite (ring_assert _ _ _ Hr). cbn [mbind option_bind]. destruct Hr as (Hnd & _ & H0).
  assert (elem <> head) as Heh by (intros ->; apply He; by constructor).
  assert (elem <> t) as Het by (intros ->; apply He; rewrite E; apply elem_of_app; right; by constructor).
  rewrite (set_n_alive _ _ _ _ Hen). cbn [mbind option_bind hn hp]. rewrite Hp. cbn [mbind option_bind].
  erewrite set_p_alive by exact Hep. cbn [mbind option_bind hn hp]. rewrite lookup_insert_ne, Hp by done. cbn [mbind option_bind].
  erewrite set_n_alive by (cbn [hn]; by rewrite lookup_insert_ne). cbn [mbind option_bind hn hp].
  erewrite set_p_alive by (cbn [hp]; by rewrite lookup_insert_ne).
  eexists; split; [reflexivity|]. cbn [hn hp].
  split; [split; [|split]|].
  - rewrite app_comm_cons. apply NoDup_app. split; [done|]. split; [|apply NoDup_singleton].
    intros x Hx ->%list_elem_of_singleton. done.
  - rewrite <- app_assoc. cbn [app]. rewrite app_comm_cons, E, <- app_assoc. cbn [app].
    apply path_app. split.
    + rewrite <- E. apply (path_inner h _ _ _ t); [done..|by rewrite E, last_snoc| |]; intros x Hx Hne; cbn;
        assert (x <> elem) by (intros ->; done); by rewrite !lookup_insert_ne.
    + cbn. rewrite lookup_insert_eq, (lookup_insert_ne _ t elem), lookup_insert_eq by done.
      rewrite (lookup_insert_ne _ head elem), !lookup_insert_eq by done. done.
  - cbn [hn]. rewrite !lookup_insert_ne; [done|..]; intros ->; congruence.
  - intros x Hx. cbn.
    assert (x <> elem /\ x <> head) as [Hx1 Hx2] by (split; intros ->; apply Hx; repeat constructor).
    assert (x <> t).
    { intros ->. apply Hx. constructor. rewrite E. apply elem_of_app; right; by constructor. }
    by rewrite !lookup_insert_ne.
Qed.

(** Inserting after a header is inserting before the header's first node. *)
Lemma dm_list_add_h_eq h head y elem :
  assert_n h head = Some () -> assert_n h y = Some () -> alive h elem ->
  hn h !! head = Some y -> hp h !! y = Some head -> elem <> head -> elem <> y ->
  dm_list_add_h h head elem = dm_list_add h y elem.
Proof.
  intros A1 A2 [[en Hen] [ep Hep]] Hn Hp He Hy. unfold dm_list_add, dm_list_add_h. rewrite A1, A2. cbn [mbind option_bind].
  rewrite Hn. cbn [mbind option_bind]. rewrite !(set_n_alive _ _ _ _ Hen). cbn [mbind option_bind hn hp]. rewrite Hp. cbn [mbind option_bind].
  erewrite !set_p_alive by exact Hep. cbn [mbind option_bind hn hp].
  rewrite lookup_insert_ne, Hn by done. rewrite lookup_insert_ne, Hp by done. cbn [mbind option_bind].
  erewrite set_p_alive by (cbn [hp]; by rewrite lookup_insert_ne).
  erewrite (set_n_alive _ head) by (cbn [hn]; by rewrite lookup_insert_ne). cbn [mbind option_bind hn hp].
  erewrite set_n_alive by (cbn [hn]; by rewrite lookup_insert_ne). cbn [mbind option_bind hn hp].
  by erewrite set_p_alive by (cbn [hp]; by rewrite lookup_insert_ne).
Qed.

Lemma frame_permute ns ns' h h' : ns ≡ₚ ns' -> frame ns h h' -> frame ns' h h'.
Proof. intros Hp Hf x Hx. apply Hf. by rewrite Hp. Qed.

Lemma dm_list_add_h_spec h head l elem :
  ring h head l -> alive h elem -> elem ∉ head :: l ->
  exists h', dm_list_add_h h head elem = Some h' /\ ring h' head (elem :: l) /\
    frame (elem :: head :: l) h h'.
Proof.
  intros Hr Ha He. destruct (ring_next _ _ _ Hr) as [Hn Hp].
  assert (assert_n h (hd head l) = Some ()) as Hy.
  { destruct l as [|y l]; [by apply (ring_assert _ _ _ Hr)|]. by eapply ring_assert, (ring_rotate _ _ []). }
  rewrite (dm_list_add_h_eq h head (hd head l)); [|by apply (ring_assert _ _ _ Hr)|done..| |]; cycle 1.
  { intros ->. apply He. constructor. }
  { intros ->. apply He. destruct l; repeat constructor. }
  destruct l as [|y l]; cbn [hd].
  - destruct (dm_list_add_spec h head [] elem) as (h' & ? & ? & ?); [done..|]. eauto.
  - pose proof (ring_rotate h head [] y l Hr) as Hr'.
    destruct (dm_list_add_spec h y (l ++ [head]) elem) as (h' & He' & Hr2 & Hf); [done|done|..].
    { intros Hin. apply He. revert Hin. rewrite !elem_of_cons, elem_of_app, list_elem_of_singleton. tauto. }
    exists h'. split; [done|]. split.
    + rewrite <- app_assoc in Hr2. cbn [app] in Hr2.
      by apply (ring_rotate h' y l head [elem]) in Hr2.
    + eapply frame_permute; [|done]. rewrite (Permutation_app_comm l). cbn. by rewrite (perm_swap y head).
Qed.

(** Unlinking the header leaves the ring of the others. *)
Lemma dm_list_del_head h elem x m :
  ring h elem (x :: m) ->
  exists h', dm_list_del h elem = Some h' /\ ring h' x m /\ frame (x :: m) h h'.
Proof.
  intros Hr. destruct (ring_prev _ _ _ Hr) as (l1 & t & E & Hnt & Hpe & Hpath).
  destruct (ring_next _ _ _ Hr) as [Hne Hpx]. cbn [hd] in *. destruct Hr as (Hnd & _ & H0).
  apply NoDup_cons in Hnd as [Hen Hnd].
  assert (elem <> x) by (intros ->; apply Hen; constructor).
  destruct l1 as [|e l1]; [done|]. injection E as <- E.
  unfold dm_list_del. rewrite Hne, Hpe. cbn [mbind option_bind].
  rewrite (set_p_alive _ _ _ _ Hpx). cbn [mbind option_bind hn hp].
  rewrite lookup_insert_ne, Hpe, Hne by done. cbn [mbind option_bind].
  erewrite set_n_alive by exact Hnt.
  eexists; split; [reflexivity|]. cbn [hn hp]. split; [split; [done|split]|].
  - rewrite app_comm_cons, E, <- app_assoc. cbn [app]. apply path_app. split.
    + rewrite <- E. rewrite path_cons in Hpath.
      apply (path_inner h _ _ _ t); [apply Hpath|done|by rewrite E, last_snoc| |];
        intros z Hz Hne'; cbn; by rewrite lookup_insert_ne.
    + cbn. by rewrite !lookup_insert_eq.
  - cbn [hn]. rewrite lookup_insert_ne; [done|]. intros ->. congruence.
  - intros z Hz. cbn. assert (z <> x) by (intros ->; apply Hz; constructor).
    assert (z <> t) by (intros ->; apply Hz; rewrite E; apply elem_of_app; right; constructor).
    by rewrite !lookup_insert_ne.
Qed.

Lemma dm_list_del_spec h head l1 elem l2 :
  ring h head (l1 ++ elem :: l2) ->
  exists h', dm_list_del h elem = Some h' /\ ring h' head (l1 ++ l2) /\ frame (head :: l1 ++ l2) h h'.
Proof.
  intros Hr. apply ring_rotate in Hr. destruct l2 as [|x l2]; cbn [app] in *.
  - destruct (dm_list_del_head _ _ _ _ Hr) as (h' & ? & ? & ?).
    exists h'. by rewrite app_nil_r.
  - destruct (dm_list_del_head _ _ _ _ Hr) as (h' & ? & Hr' & ?).
    exists h'. split; [done|]. split; [by apply ring_rotate in Hr'|].
    eapply frame_permute; [|done]. by rewrite app_comm_cons, Permutation_app_comm.
Qed.

Lemma dm_list_move_spec h head l1 elem l2 :
  ring h head (l1 ++ elem :: l2) ->
  exists h', dm_list_move h head elem = Some h' /\ ring h' head (l1 ++ l2 ++ [elem]).
Proof.
  intros Hr. destruct (dm_list_del_spec _ _ _ _ _ Hr) as (h1 & Hd & Hr1 & Hf).
  assert (elem ∉ head :: l1 ++ l2) as He.
  { destruct Hr as [Hnd _]. assert (NoDup (elem :: head :: l1 ++ l2)) as Hnd'.
    { eapply NoDup_Permutation_proper; [|exact Hnd].
      rewrite <- Permutation_middle. apply perm_swap. }
    by apply NoDup_cons in Hnd' as [? _]. }
  assert (alive h1 elem) as Ha.
  { destruct (Hf elem He) as [E1 E2]. unfold alive. rewrite E1, E2. apply (ring_alive _ _ _ _ Hr). set_solver. }
  unfold dm_list_move. rewrite Hd. cbn [mbind option_bind].
  destruct (dm_list_add_spec h1 head (l1 ++ l2) elem Hr1 Ha He) as (h2 & ? & Hr2 & _).
  exists h2. split; [done|]. by rewrite app_assoc.
Qed.

Lemma size_loop_spec h head l v s fuel :
  path h (v :: l ++ [head]) -> head ∉ v :: l -> (length l + 2 <= fuel)%nat ->
  size_loop fuel h head v s = Some (wrap32 (s + Z.of_nat (length l) + 1)).
Proof.
  revert v s fuel. induction l as [|y l IH]; intros v s fuel Hp Hh Hf.
  - destruct fuel as [|[|fuel]]; [cbn in Hf; lia..|]. cbn [size_loop].
    destruct Hp as (Hn & _). cbn [app] in Hn. rewrite decide_False, Hn by set_solver.
    cbn [mbind option_bind]. rewrite decide_True by done. do 2 f_equal. cbn [length]. lia.
  - destruct fuel as [|fuel]; [lia|]. cbn [size_loop]. cbn [app] in Hp.
    rewrite path_cons in Hp. destruct Hp as (Hn & _ & Hp).
    rewrite decide_False, Hn by set_solver. cbn [mbind option_bind].
    rewrite IH; [|done|set_solver|cbn in Hf; lia]. rewrite <- !Z.add_assoc, wrap32_add_l. do 2 f_equal. cbn [length]. lia.
Qed.

Lemma dm_list_size_spec h head l fuel :
  ring h head l -> (length l < fuel)%nat -> dm_list_size fuel h head = Some (wrap32 (Z.of_nat (length l))).
Proof.
  intros Hr Hf. unfold dm_list_size. destruct (ring_next _ _ _ Hr) as [-> _]. cbn [mbind option_bind].
  destruct Hr as (Hnd & Hp & _). apply NoDup_cons in Hnd as [Hh _]. destruct l as [|y l]; cbn [hd].
  - destruct fuel; [lia|]. cbn [size_loop]. by rewrite decide_True.
  - cbn [app] in Hp. rewrite path_cons in Hp.
    rewrite (size_loop_spec h head l); [do 2 f_equal; cbn [length]; lia|apply Hp|done|cbn in Hf; lia].
Qed.

Lemma dm_list_empty_spec h head l :
  ring h head l -> dm_list_empty h head = Some (bool_decide (l = [])).
Proof.
  intros Hr. unfold dm_list_empty. destruct (ring_next _ _ _ Hr) as [-> _]. cbn. f_equal.
  apply bool_decide_ext. destruct Hr as [Hnd _]. destruct l as [|y l]; [done|]. cbn.
  split; [|done]. intros ->. apply NoDup_cons in Hnd as [Hn _]. destruct Hn. constructor.
Qed.

Lemma dm_list_first_spec h hd l : ring h hd l -> dm_list_first h hd = Some (head l).
Proof.
  intros Hr. unfold dm_list_first. rewrite (dm_list_empty_spec h hd l Hr). cbn.
  destruct (ring_next _ _ _ Hr) as [-> _]. by destruct l.
Qed.

Lemma dm_list_last_spec h hd l : ring h hd l -> dm_list_last h hd = Some (last l).
Proof.
  intros Hr. unfold dm_list_last. rewrite (dm_list_empty_spec h hd l Hr). cbn.
  destruct (ring_prev _ _ _ Hr) as (l1 & t & E & _ & -> & _).
  destruct l as [|y l]; [done|]. cbn [fmap option_fmap option_map].
  rewrite bool_decide_eq_false_2 by done. do 2 f_equal.
  assert (last (hd :: y :: l) = Some t) as Hl by (by rewrite E, last_snoc). by rewrite <- Hl.
Qed.

(** Walking forwards and backwards from a node of the list. *)
Lemma dm_list_next_spec h hd l1 x l2 :
  ring h hd (l1 ++ x :: l2) -> dm_list_next h hd x = Some (head l2).
Proof.
  intros Hr. unfold dm_list_next, dm_list_end.
  destruct (ring_next _ _ _ (ring_rotate _ _ _ _ _ Hr)) as [-> _].
  destruct Hr as [Hnd _]. destruct l2 as [|y l2]; cbn.
  - by rewrite bool_decide_eq_true_2.
  - rewrite bool_decide_eq_false_2; [done|]. intros ->.
    apply NoDup_cons in Hnd as [Hn _]. apply Hn. set_solver.
Qed.

Lemma dm_list_prev_spec h hd l1 x l2 :
  ring h hd (l1 ++ x :: l2) -> dm_list_prev h hd x = Some (last l1).
Proof.
  intros Hr. unfold dm_list_prev, dm_list_start.
  destruct (ring_prev _ _ _ (ring_rotate _ _ _ _ _ Hr)) as (m & t & E & _ & -> & _).
  destruct Hr as [Hnd _]. apply NoDup_cons in Hnd as [Hn _].
  assert (last (x :: l2 ++ hd :: l1) = Some t) as Ht by (by rewrite E, last_snoc).
  rewrite app_comm_cons, last_app_cons in Ht. cbn.
  destruct l1 as [|y l1] using rev_ind; cbn in Ht |- *.
  - injection Ht as ->. by rewrite bool_decide_eq_true_2.
  - rewrite last_snoc. rewrite app_comm_cons, last_snoc in Ht. injection Ht as ->.
    rewrite bool_decide_eq_false_2; [done|]. intros ->. apply Hn. set_solver.
Qed.

(** Joining two disjoint lists. *)
Lemma dm_list_splice_spec h head l head1 l1 :
  ring h head l -> ring h head1 l1 -> head :: l ## head1 :: l1 ->
  exists h', dm_list_splice h head head1 = Some h' /\ ring h' head (l ++ l1) /\ ring h' head1 [].
Proof.
  intros Hr Hr1 Hd. unfold dm_list_splice. rewrite (ring_assert _ _ _ Hr), (ring_assert _ _ _ Hr1). cbn [mbind option_bind].
  rewrite (dm_list_empty_spec _ _ _ Hr1).
  destruct l1 as [|x l1].
  { rewrite bool_decide_eq_true_2 by done. exists h. by rewrite app_nil_r. }
  rewrite bool_decide_eq_false_2 by done. cbn [mbind option_bind].
  destruct (ring_prev _ _ _ Hr) as (la & t & E & Hnt & Hph & Hpath).
  destruct (ring_prev _ _ _ Hr1) as (lb & t1 & E1 & Hnt1 & Hph1 & Hpath1).
  destruct (ring_next _ _ _ Hr1) as [Hn1 Hpx]. cbn [hd] in *.
  destruct Hr as (Hnd & _ & H0), Hr1 as [Hnd1 _].
  destruct lb as [|b lb]; [done|]. injection E1 as <- E1.
  apply NoDup_cons in Hnd1 as [Hh1 Hnd1].
  assert (t ∈ head :: l) as Hin by (rewrite E; apply elem_of_app; right; constructor).
  assert (t1 ∈ x :: l1) as Hin1 by (rewrite E1; apply elem_of_app; right; constructor).
  assert (forall a b, a ∈ head :: l -> b ∈ x :: l1 -> a <> b) as Hne by (clear -Hd; set_solver).
  assert (forall a, a ∈ head :: l -> a <> head1) as Hne1 by (clear -Hd; set_solver).
  assert (forall b, b ∈ x :: l1 -> b <> head1) as Hne2 by (intros b Hb ->; done).
  assert (head ∈ head :: l /\ x ∈ x :: l1) as [Hhd Hx] by (split; constructor).
  assert (x <> head /\ t <> t1 /\ t <> head1 /\ t1 <> head1 /\ x <> head1 /\ head <> head1)
    as (? & ? & ? & ? & ? & ?) by (repeat split; first [by apply not_eq_sym, Hne|by apply Hne|by apply Hne1|by apply Hne2]).
  rewrite Hph1. cbn [mbind option_bind]. rewrite (set_n_alive _ _ _ _ Hnt1). cbn [mbind option_bind hn hp].
  rewrite (lookup_insert_ne _ t1 head1), Hn1 by done. cbn [mbind option_bind].
  rewrite Hph. cbn [mbind option_bind]. erewrite set_p_alive by exact Hpx. cbn [mbind option_bind hn hp].
  rewrite (lookup_insert_ne _ x head), Hph by done. cbn [mbind option_bind].
  rewrite (lookup_insert_ne _ t1 head1), Hn1 by done. cbn [mbind option_bind].
  erewrite set_n_alive by (cbn [hn]; by rewrite lookup_insert_ne). cbn [mbind option_bind hn hp].
  rewrite (lookup_insert_ne _ x head1), Hph1 by done. cbn [mbind option_bind].
  erewrite set_p_alive by (cbn [hp]; by rewrite lookup_insert_ne). cbn [mbind option_bind hn hp].
  unfold dm_list_init. erewrite set_p_alive by (cbn [hp]; by rewrite !lookup_insert_ne). cbn [mbind option_bind hn hp].
  erewrite set_n_alive by (cbn [hn]; by rewrite !lookup_insert_ne). cbn [hn hp].
  eexists; split; [reflexivity|]. split; [split; [|split]|split; [apply NoDup_singleton|split; [cbn; by rewrite !lookup_insert_eq|]]].
  3, 4: cbn [hn]; rewrite !lookup_insert_ne; [done|..]; intros ->; congruence.
  - rewrite app_comm_cons. apply NoDup_app. repeat split; [done| |done].
    intros z Hz Hz'. by apply (Hne z z).
  - rewrite <- app_assoc, app_comm_cons, E, <- app_assoc. cbn [app].
    apply (path_app _ la t). split; [|apply (path_app _ [t] x); split].
    + rewrite <- E. apply (path_inner h _ _ _ t); [done..|by rewrite E, last_snoc| |];
        intros z Hz Hzt; cbn; pose proof (Hne1 z Hz); pose proof (Hne z t1 Hz Hin1);
        pose proof (Hne z x Hz Hx); by rewrite !lookup_insert_ne.
    + cbn. rewrite lookup_insert_ne, lookup_insert_eq by done.
      by rewrite lookup_insert_ne, lookup_insert_ne, lookup_insert_eq by done.
    + rewrite app_comm_cons, E1, <- app_assoc. cbn [app]. apply path_app. split.
      * rewrite path_cons in Hpath1. rewrite <- E1.
        apply (path_inner h _ _ _ t1); [apply Hpath1|done|by rewrite E1, last_snoc| |];
          intros z Hz Hzt; cbn; pose proof (Hne2 z Hz); pose proof (Hne t z Hin Hz);
          pose proof (Hne head z Hhd Hz); by rewrite !lookup_insert_ne.
      * cbn. rewrite lookup_insert_ne, lookup_insert_ne, lookup_insert_eq by done.
        by rewrite lookup_insert_ne, lookup_insert_eq by done.
Qed.

(** ** The pointer structure implements lists *)

(** The operations that change one list. *)
Inductive list_op :=
  | OpAdd (e : nat)
  | OpAddH (e : nat)
  | OpDel (e : nat)
  | OpMove (e : nat).

Definition run_list_op (head : nat) (h : heap) (o : list_op) : option heap :=
  match o with
  | OpAdd e => dm_list_add h head e
  | OpAddH e => dm_list_add_h h head e
  | OpDel e => dm_list_del h e
  | OpMove e => dm_list_move h head e
  end.

(** Their meaning on Rocq lists; [None] when the caller breaks the contract: an
    element added must be one of the lists [mem] in memory and not a member, one deleted
    or moved must be a member. *)
Definition abs_list_op (mem : list nat) (head : nat) (l : list nat) (o : list_op) : option (list nat) :=
  match o with
  | OpAdd e => if decide (e ∈ mem /\ e ∉ head :: l) then Some (l ++ [e]) else None
  | OpAddH e => if decide (e ∈ mem /\ e ∉ head :: l) then Some (e :: l) else None
  | OpDel e => if decide (e ∈ l) then Some (filter (fun x => x <> e) l) else None
  | OpMove e => if decide (e ∈ l) then Some (filter (fun x => x <> e) l ++ [e]) else None
  end.

Lemma filter_ne_id (e : nat) (l : list nat) : e ∉ l -> filter (fun x => x <> e) l = l.
Proof.
  induction l as [|x l IH]; intros He; [done|]. rewrite not_elem_of_cons in He.
  rewrite filter_cons_True by naive_solver. f_equal. apply IH. naive_solver.
Qed.

Lemma filter_ne_middle (e : nat) l1 l2 :
  NoDup (l1 ++ e :: l2) -> filter (fun x => x <> e) (l1 ++ e :: l2) = l1 ++ l2.
Proof.
  intros Hnd. apply NoDup_app in Hnd as (_ & H1 & H2). apply NoDup_cons in H2 as [H2 _].
  rewrite filter_app, filter_cons_False by naive_solver.
  rewrite !filter_ne_id; [done|done|]. intros He. apply (H1 e He). constructor.
Qed.

(** The operations neither allocate nor free: stores keep the addresses of lists. *)
Definition same_nodes (h h' : heap) : Prop := dom (hn h') = dom (hn h) /\ dom (hp h') = dom (hp h).

Lemma set_n_nodes h x v h' : set_n h x v = Some h' -> same_nodes h h'.
Proof. unfold set_n. destruct (hn h !! x) eqn:E; [|done]. intros [= <-]. split; [|done]. cbn. apply dom_insert_lookup_L. by eexists. Qed.

Lemma set_p_nodes h x v h' : set_p h x v = Some h' -> same_nodes h h'.
Proof. unfold set_p. destruct (hp h !! x) eqn:E; [|done]. intros [= <-]. split; [done|]. cbn. apply dom_insert_lookup_L. by eexists. Qed.

#[global] Instance same_nodes_trans : Transitive same_nodes.
Proof. intros a b c [H1 H2] [G1 G2]. split; congruence. Qed.

Ltac nodes_step :=
  repeat match goal with
  | H : mbind _ ?m = Some _ |- _ => destruct m eqn:?; cbn [mbind option_bind] in H; [|discriminate H]
  | H : set_n _ _ _ = Some _ |- _ => apply set_n_nodes in H
  | H : set_p _ _ _ = Some _ |- _ => apply set_p_nodes in H
  end; repeat (first [eassumption|etransitivity; [eassumption|]]).

Lemma dm_list_del_nodes h elem h' : dm_list_del h elem = Some h' -> same_nodes h h'.
Proof. unfold dm_list_del. intros H. nodes_step. Qed.

Lemma dm_list_add_nodes h head elem h' : dm_list_add h head elem = Some h' -> same_nodes h h'.
Proof. unfold dm_list_add. intros H. nodes_step. Qed.

Lemma run_list_op_nodes head h o h' : run_list_op head h o = Some h' -> same_nodes h h'.
Proof.
  destruct o as [e|e|e|e]; cbn [run_list_op].
  - apply dm_list_add_nodes.
  - unfold dm_list_add_h. intros H. nodes_step.
  - apply dm_list_del_nodes.
  - unfold dm_list_move. destruct (dm_list_del h e) as [h1|] eqn:E; [|done]. intros H%dm_list_add_nodes. etransitivity; [by eapply dm_list_del_nodes|done].
Qed.

Lemma same_nodes_alive h h' x : same_nodes h h' -> alive h x -> alive h' x.
Proof. intros [H1 H2] [A1 A2]. split; apply elem_of_dom; [rewrite H1|rewrite H2]; by apply elem_of_dom. Qed.

Lemma run_list_op_spec mem head h l o l' :
  Forall (alive h) mem -> ring h head l -> abs_list_op mem head l o = Some l' ->
  exists h', run_list_op head h o = Some h' /\ ring h' head l'.
Proof.
  intros Hm Hr Ho. rewrite Forall_forall in Hm. destruct o as [e|e|e|e]; cbn [abs_list_op run_list_op] in *; case_decide as He;
    try done; apply (inj Some) in Ho; subst l'.
  - destruct He as [Ha%Hm He]. destruct (dm_list_add_spec h head l e Hr Ha He) as (h' & ? & ? & _). eauto.
  - destruct He as [Ha%Hm He]. destruct (dm_list_add_h_spec h head l e Hr Ha He) as (h' & ? & ? & _). eauto.
  - apply list_elem_of_split in He as (l1 & l2 & ->).
    rewrite filter_ne_middle by by destruct Hr as [[_ ?]%NoDup_cons _].
    destruct (dm_list_del_spec h head l1 e l2 Hr) as (h' & ? & ? & _). eauto.
  - apply list_elem_of_split in He as (l1 & l2 & ->).
    rewrite filter_ne_middle by by destruct Hr as [[_ ?]%NoDup_cons _].
    destruct (dm_list_move_spec h head l1 e l2 Hr) as (h' & ? & ?). rewrite <- app_assoc. eauto.
Qed.

(** C35: From [dm_list_init], every sequence of add, add-at-head, delete and move
    operations that respects the contract (elements added are lists in memory and not
    members, elements deleted or moved are members) passes the assertions, reads and
    writes only lists in memory and leaves a well-linked ring whose elements, in order,
    are those the same operations give on a mathematical list. *)
Theorem dm_list_implements_list h head mem os l :
  hn h !! NULL = None -> Forall (alive h) (head :: mem) ->
  foldl (fun acc o => l ← acc; abs_list_op mem head l o) (Some []) os = Some l ->
  exists h', foldl (fun acc o => h ← acc; run_list_op head h o) (dm_list_init h head) os = Some h' /\ ring h' head l.
Proof.
  intros H0 [Hh Hm]%Forall_cons Hl. destruct (ring_init h head H0 Hh) as (h1 & Ei & Hi). rewrite Ei.
  enough (exists h', foldl (fun acc o => h ← acc; run_list_op head h o) (Some h1) os = Some h' /\ ring h' head l /\ same_nodes h1 h') as (h' & ? & ? & _) by eauto.
  assert (Forall (alive h1) mem) as Hm1.
  { eapply Forall_impl; [exact Hm|]. intros x. apply same_nodes_alive. unfold dm_list_init in Ei. nodes_step. }
  clear H0 Hh Hm Ei. revert l Hl. induction os as [|o os IH] using rev_ind; intros l Hl.
  { apply (inj Some) in Hl. subst l. by exists h1. }
  rewrite foldl_app in Hl. rewrite foldl_app. cbn [foldl] in *.
  destruct (foldl _ (Some []) os) as [l0|] eqn:E; [|done].
  destruct (IH l0 eq_refl) as (h0 & -> & Hr & Hs). cbn [mbind option_bind] in *.
  destruct (run_list_op_spec mem head h0 l0 o l) as (h' & E' & Hr'); [|done|done|].
  { eapply Forall_impl; [exact Hm1|]. intros x. by apply same_nodes_alive. }
  exists h'. split; [done|]. split; [done|]. etransitivity; [done|]. by eapply run_list_op_nodes.
Qed.

(** Memory with lists at the addresses [1..10]. *)
Definition ten_lists : heap := let m := list_to_map ((fun x => (x, x)) <$> seq 1 10) in Heap m m.

Lemma dm_list_implements_list_witness :
  exists h', foldl (fun acc o => h ← acc; run_list_op 1 h o) (dm_list_init ten_lists 1)
      [OpAdd 5; OpAddH 7; OpAdd 9; OpMove 7; OpDel 5] = Some h' /\ ring h' 1 [9; 7]%nat.
Proof.
  apply (dm_list_implements_list ten_lists 1 (seq 2 9) [OpAdd 5; OpAddH 7; OpAdd 9; OpMove 7; OpDel 5]%nat).
  - reflexivity.
  - repeat constructor; by vm_compute; eexists.
  - vm_compute. reflexivity.
Defined.

(** On a well-linked ring the queries agree with the list it stands for:
    size (in 32 bits), emptiness, first and last element, and the neighbours of an element,
    with [NULL] at the ends. *)
Theorem dm_list_queries h hd l1 x l2 :
  ring h hd (l1 ++ x :: l2) ->
  dm_list_size (S (length (l1 ++ x :: l2))) h hd = Some (wrap32 (Z.of_nat (length (l1 ++ x :: l2)))) /\
  dm_list_empty h hd = Some false /\
  dm_list_first h hd = Some (head (l1 ++ x :: l2)) /\
  dm_list_last h hd = Some (last (l1 ++ x :: l2)) /\
  dm_list_next h hd x = Some (head l2) /\
  dm_list_prev h hd x = Some (last l1).
Proof.
  intros Hr. split; [apply dm_list_size_spec; [done|lia]|].
  split; [rewrite (dm_list_empty_spec h hd _ Hr); by destruct l1|].
  split; [by apply dm_list_first_spec|]. split; [by apply dm_list_last_spec|].
  split; [by apply (dm_list_next_spec h hd l1)|by apply (dm_list_prev_spec h hd l1 x l2)].
Qed.

(** The ring 1 -> 2 -> 3 -> 1. *)
Definition ring123 : heap :=
  Heap (list_to_map [(1, 2); (2, 3); (3, 1); (9, 9)]%nat) (list_to_map [(2, 1); (3, 2); (1, 3); (9, 9)]%nat).

Lemma ring123_ok : ring ring123 1 [2; 3]%nat.
Proof. split; [apply (bool_decide_unpack _); vm_compute; exact I|]. split; [|done]. cbn [path app]. repeat split; vm_compute; reflexivity. Qed.

Lemma dm_list_queries_witness :
  dm_list_size 3 ring123 1 = Some 2 /\ dm_list_empty ring123 1 = Some false /\
  dm_list_first ring123 1 = Some (Some 2%nat) /\ dm_list_last ring123 1 = Some (Some 3%nat) /\
  dm_list_next ring123 1 3 = Some None /\ dm_list_prev ring123 1 3 = Some (Some 2%nat).
Proof. apply (dm_list_queries ring123 1 [2]%nat 3 []). apply ring123_ok. Defined.

(** [dm_list_splice] moves the elements of one list to the end of another
    disjoint one, keeping their order, and leaves the first empty. *)
Theorem dm_list_splice_appends h head l head1 l1 :
  ring h head l -> ring h head1 l1 -> head :: l ## head1 :: l1 ->
  exists h', dm_list_splice h head head1 = Some h' /\ ring h' head (l ++ l1) /\ ring h' head1 [].
Proof. apply dm_list_splice_spec. Qed.

Lemma dm_list_splice_appends_witness :
  exists h', dm_list_splice ring123 9 1 = Some h' /\ ring h' 9 [2; 3]%nat /\ ring h' 1 [].
Proof.
  apply (dm_list_splice_appends ring123 9 [] 1 [2; 3]%nat).
  - split; [apply NoDup_singleton|done].
  - apply ring123_ok.
  - set_solver.
Defined.
