(* ===== verification/Hash.v ===== *)
(** * Hash tables: libdm/datastruct/hash.c

    A table is an array of chains of nodes; keys are byte strings with a length
    (the string entry points include the terminating NUL in the key).  The main
    result is that the table implements a finite map from keys to data. *)

From stdpp Require Import gmap.
From S2P Require Import Prelude.

(** ** The code *)

(** Permutation of the Integers 0 through 255 *)
Definition nums : list Z := [
  1; 14; 110; 25; 97; 174; 132; 119; 138; 170; 125; 118; 27; 233; 140; 51;
  87; 197; 177; 107; 234; 169; 56; 68; 30; 7; 173; 73; 188; 40; 36; 65;
  49; 213; 104; 190; 57; 211; 148; 223; 48; 115; 15; 2; 67; 186; 210; 28;
  12; 181; 103; 70; 22; 58; 75; 78; 183; 167; 238; 157; 124; 147; 172;
  144;
  176; 161; 141; 86; 60; 66; 128; 83; 156; 241; 79; 46; 168; 198; 41; 254;
  178; 85; 253; 237; 250; 154; 133; 88; 35; 206; 95; 116; 252; 192; 54;
  221;
  102; 218; 255; 240; 82; 106; 158; 201; 61; 3; 89; 9; 42; 155; 159; 93;
  166; 80; 50; 34; 175; 195; 100; 99; 26; 150; 16; 145; 4; 33; 8; 189;
  121; 64; 77; 72; 208; 245; 130; 122; 143; 55; 105; 134; 29; 164; 185;
  194;
  193; 239; 101; 242; 5; 171; 126; 11; 74; 59; 137; 228; 108; 191; 232;
  139;
  6; 24; 81; 20; 127; 17; 91; 92; 251; 151; 225; 207; 21; 98; 113; 112;
  84; 226; 18; 214; 199; 187; 13; 32; 94; 220; 224; 212; 247; 204; 196;
  43;
  249; 236; 45; 244; 111; 182; 153; 136; 129; 90; 217; 202; 19; 165; 231;
  71;
  230; 142; 96; 227; 62; 179; 246; 114; 162; 53; 160; 215; 205; 180; 47;
  109;
  44; 38; 31; 149; 135; 0; 216; 52; 63; 23; 37; 69; 39; 117; 146; 184;
  163; 200; 222; 235; 248; 243; 219; 10; 152; 131; 123; 229; 203; 76; 120;
  209
].

Section code.
Context {V : Type}.

(** [struct dm_hash_node]: key (its length is [keylen]) and data; [next] is the
    rest of the chain. *)
Definition node : Type := list Z * V.

Record table := Table { num_nodes : Z; num_slots : Z; slots : list (list node) }.

(** One character of [_hash]; [h] is an [unsigned long]. *)
Definition hash_step (h c : Z) : Z :=
  let h := wrap64 (Z.shiftl h 4) in
  let h := wrap64 (h + default 0 (nums !! Z.to_nat c)) in
  let g := Z.land h (Z.shiftl 0xf 16) in
  if negb (g =? 0) then Z.lxor (Z.lxor h (Z.shiftr g 16)) (Z.shiftr g 5) else h.

Definition hash (key : list Z) : Z := foldl hash_step 0 key.

(** The loop that rounds the size hint up; [unsigned] arithmetic. *)
Fixpoint round_up (fuel : nat) (new_size size_hint : Z) : option Z :=
  match fuel with
  | O => None
  | S fuel => if new_size <? size_hint then round_up fuel (wrap32 (Z.shiftl new_size 1)) size_hint
              else Some new_size
  end.

(** [hc_ok] and [slots_ok]: the allocations of the table and of its slots succeed; the inner
    [None] is the NULL result.  The loop ends within 28 tests for hints up to 2^31 (see
    below), the outer [None] is one that does not. *)
Definition dm_hash_create (hc_ok slots_ok : bool) (size_hint : Z) : option (option table) :=
  if negb hc_ok then Some None else
  new_size ← round_up 29 16 size_hint;
  if negb slots_ok then Some None else
  Some (Some (Table 0 new_size (replicate (Z.to_nat new_size) []))).

(** [_hash(key, len) & (t->num_slots - 1)] *)
Definition slot_of (t : table) (key : list Z) : Z :=
  Z.land (hash key) (wrap32 (num_slots t - 1)).

(** The walk of [_find] along a chain: the nodes before the match, the match,
    the nodes after it. *)
Fixpoint find_chain (key : list Z) (c : list node) : list node * option node * list node :=
  match c with
  | [] => ([], None, [])
  | n :: c => if bool_decide (n.1 = key) then ([], Some n, c)
              else let '(l, m, r) := find_chain key c in (n :: l, m, r)
  end.

Definition find (t : table) (key : list Z) : option (list node * option node * list node) :=
  c ← zlookup (slots t) (slot_of t key); Some (find_chain key c).

(** The outer [None] is a wild access, the inner one is the [NULL] result. *)
Definition dm_hash_lookup_binary (t : table) (key : list Z) : option (option V) :=
  '(_, m, _) ← find t key; Some (option_map snd m).

(** [alloc_ok]: the node allocation succeeds. *)
Definition dm_hash_insert_binary (alloc_ok : bool) (t : table) (key : list Z) (data : V) :
    option (bool * table) :=
  '(l, m, r) ← find t key;
  match m with
  | Some n =>
      ss ← zupdate (slots t) (slot_of t key) (l ++ (n.1, data) :: r);
      Some (true, Table (num_nodes t) (num_slots t) ss)
  | None =>
      if alloc_ok then
        ss ← zupdate (slots t) (slot_of t key) (l ++ [(key, data)]);
        Some (true, Table (wrap32 (num_nodes t + 1)) (num_slots t) ss)
      else Some (false, t)
  end.

Definition dm_hash_remove_binary (t : table) (key : list Z) : option table :=
  '(l, m, r) ← find t key;
  match m with
  | Some _ =>
      ss ← zupdate (slots t) (slot_of t key) (l ++ r);
      Some (Table (wrap32 (num_nodes t - 1)) (num_slots t) ss)
  | None => Some t
  end.

Definition dm_hash_lookup (t : table) (key : list Z) : option (option V) :=
  dm_hash_lookup_binary t (key ++ [0]).

Definition dm_hash_insert (alloc_ok : bool) (t : table) (key : list Z) (data : V) : option (bool * table) :=
  dm_hash_insert_binary alloc_ok t (key ++ [0]) data.

Definition dm_hash_remove (t : table) (key : list Z) : option table :=
  dm_hash_remove_binary t (key ++ [0]).

Definition dm_hash_get_num_entries (t : table) : Z := num_nodes t.

(** [dm_hash_iter]: the data handed to the callback, in order. *)
Definition dm_hash_iter (t : table) : list V := map snd (concat (slots t)).

Definition dm_hash_wipe (t : table) : table :=
  Table 0 (num_slots t) (replicate (Z.to_nat (num_slots t)) []).

(** A node as a position: its slot and its place in the chain. *)
Fixpoint next_slot_from (ss : list (list node)) : option (list node) :=
  match ss with
  | [] => None
  | [] :: ss => next_slot_from ss
  | c :: _ => Some c
  end.

(** The chain that starts at the node found. *)
Definition next_slot (t : table) (s : nat) : option (list node) := next_slot_from (drop s (slots t)).

Definition dm_hash_get_first (t : table) : option (list node) := next_slot t 0.

(** A cursor is the chain from the current node on. *)
Definition dm_hash_get_next (t : table) (n : node) (next : list node) : option (list node) :=
  match next with
  | _ :: _ => Some next
  | [] => next_slot t (Z.to_nat (slot_of t n.1) + 1)
  end.

(** [dm_hash_iterate]: the nodes visited by [for (v = get_first; v; v = get_next)]; [None]
    when the loop has not ended after [fuel] of them. *)
Fixpoint iterate_loop (fuel : nat) (t : table) (v : option (list node)) : option (list node) :=
  match v, fuel with
  | Some (n :: next), S fuel => nodes ← iterate_loop fuel t (dm_hash_get_next t n next); Some (n :: nodes)
  | Some (_ :: _), O => None
  | _, _ => Some []
  end.

Definition dm_hash_iterate (fuel : nat) (t : table) : option (list node) :=
  iterate_loop fuel t (dm_hash_get_first t).

End code.
Arguments table V : clear implicits.
Arguments node V : clear implicits.

(** ** Keys stay in their slot *)

Section proofs.
Context {V : Type}.
Implicit Types (t : table V) (k : list Z) (v : V) (c : list (node V)).

(** Chain [i] holds keys of slot [i], each once. *)
Definition chain_ok t (i : nat) c : Prop :=
  NoDup c.*1 /\ Forall (fun k => slot_of t k = Z.of_nat i) c.*1.

Record inv t : Prop := {
  inv_len : Z.of_nat (length (slots t)) = num_slots t;
  inv_pow2 : exists e, 0 <= e <= 31 /\ num_slots t = 2 ^ e;
  inv_chain : forall i c, slots t !! i = Some c -> chain_ok t i c;
  inv_count : num_nodes t = wrap32 (Z.of_nat (length (concat (slots t)))) }.

(** The finite map the table stands for. *)
Definition map_of t : gmap (list Z) V := list_to_map (concat (slots t)).

Lemma slot_of_range t k : inv t -> 0 <= slot_of t k < Z.of_nat (length (slots t)).
Proof.
  intros Hi. rewrite (inv_len _ Hi). destruct (inv_pow2 _ Hi) as (e & He & Hs).
  unfold slot_of. rewrite Hs. assert (0 < 2 ^ e <= 2 ^ 31).
  { split; [apply Z.pow_pos_nonneg; lia|apply Z.pow_le_mono_r; lia]. }
  rewrite wrap32_small by lia.
  replace (2 ^ e - 1) with (Z.ones e) by (rewrite Z.ones_equiv; lia).
  rewrite Z.land_ones by lia. apply Z.mod_pos_bound. lia.
Qed.

Lemma find_chain_spec k c l m r :
  find_chain k c = (l, m, r) ->
  match m with
  | Some n => c = l ++ n :: r /\ n.1 = k /\ k ∉ l.*1
  | None => c = l /\ r = [] /\ k ∉ l.*1
  end.
Proof.
  revert l. induction c as [|n c IH]; intros l E; cbn in E.
  { injection E as <- <- <-. repeat split. apply not_elem_of_nil. }
  case_bool_decide as Hk.
  - injection E as <- <- <-. repeat split; [done|apply not_elem_of_nil].
  - destruct (find_chain k c) as [[l' m'] r'] eqn:E'. injection E as <- <- <-.
    specialize (IH l' eq_refl). destruct m' as [n'|]; cbn.
    + destruct IH as (-> & Hn & Hl). repeat split; [done|].
      intros [->|?]%elem_of_cons; [done|done].
    + destruct IH as (-> & -> & Hl). repeat split.
      intros [->|?]%elem_of_cons; [done|done].
Qed.

(** The nodes of the table, by slot. *)
Lemma elem_of_slots t (n : node V) :
  n ∈ concat (slots t) <-> exists i c, slots t !! i = Some c /\ n ∈ c.
Proof.
  rewrite list_elem_of_In, in_concat. split.
  - intros (c & Hc & Hn). apply list_elem_of_In in Hc, Hn.
    apply list_elem_of_lookup in Hc as [i Hi]. eauto.
  - intros (i & c & Hi & Hn). exists c. rewrite <- !list_elem_of_In. split; [|done].
    by eapply list_elem_of_lookup_2.
Qed.

Lemma NoDup_concat_keys (f : list Z -> nat) (ss : list (list (node V))) (b : nat) :
  (forall i c, ss !! i = Some c -> NoDup c.*1 /\ Forall (fun k => f k = (b + i)%nat) c.*1) ->
  NoDup (concat ss).*1.
Proof.
  revert b. induction ss as [|c ss IH]; intros b H; cbn; [constructor|].
  rewrite fmap_app. apply NoDup_app. split; [apply (H 0%nat c); done|]. split.
  - intros k Hk Hk'. destruct (H 0%nat c eq_refl) as [_ Hf].
    rewrite Forall_forall in Hf. specialize (Hf k Hk).
    apply list_elem_of_fmap in Hk' as (n & -> & Hn).
    rewrite list_elem_of_In, in_concat in Hn. destruct Hn as (c' & Hc' & Hn).
    apply list_elem_of_In in Hc'. apply list_elem_of_lookup in Hc' as [i Hi].
    destruct (H (S i) c' Hi) as [_ Hf']. rewrite Forall_forall in Hf'.
    specialize (Hf' n.1). rewrite <- list_elem_of_In in Hn.
    rewrite Hf' in Hf by (apply list_elem_of_fmap; eauto). lia.
  - apply (IH (S b)). intros i c' Hc'. destruct (H (S i) c' Hc') as [? Hf]. split; [done|].
    eapply Forall_impl; [exact Hf|]. cbn. lia.
Qed.

Lemma inv_NoDup t : inv t -> NoDup (concat (slots t)).*1.
Proof.
  intros Hi. apply (NoDup_concat_keys (fun k => Z.to_nat (slot_of t k)) _ 0).
  intros i c Hc. destruct (inv_chain _ Hi i c Hc) as [? Hf]. split; [done|].
  eapply Forall_impl; [exact Hf|]. cbn. lia.
Qed.

Lemma map_of_Some t k v : inv t -> map_of t !! k = Some v <-> (k, v) ∈ concat (slots t).
Proof. intros Hi. symmetry. apply elem_of_list_to_map. by apply inv_NoDup. Qed.

(** The chain of a key, split by the search. *)
Lemma find_inv t k :
  inv t -> exists c l m r, slots t !! Z.to_nat (slot_of t k) = Some c /\
    find t k = Some (l, m, r) /\ find_chain k c = (l, m, r) /\ option_map snd m = map_of t !! k.
Proof.
  intros Hi. pose proof (slot_of_range t k Hi) as Hr. unfold find.
  destruct (zlookup_is_Some _ _ Hr) as [c Hc]. rewrite Hc. cbn.
  apply zlookup_Some in Hc as [_ Hc].
  destruct (find_chain k c) as [[l m] r] eqn:E. exists c, l, m, r. repeat split; try done.
  pose proof (find_chain_spec k c l m r E) as Hs. symmetry. destruct m as [[k' v]|]; cbn in Hs |- *.
  - destruct Hs as (-> & -> & Hl). apply map_of_Some; [done|]. apply elem_of_slots.
    eexists _, _. split; [done|]. apply elem_of_app. right. constructor.
  - destruct Hs as (-> & -> & Hl). apply eq_None_not_Some. intros [v Hv].
    apply map_of_Some, elem_of_slots in Hv as (i & c' & Hc' & Hin); [|done].
    destruct (inv_chain _ Hi i c' Hc') as [_ Hf]. rewrite Forall_forall in Hf.
    specialize (Hf k). rewrite list_elem_of_fmap in Hf. specialize (Hf ltac:(by exists (k, v))).
    rewrite Hf, Nat2Z.id in Hc. rewrite Hc in Hc'. injection Hc' as ->.
    apply Hl. apply list_elem_of_fmap. by exists (k, v).
Qed.

(** Replacing the chain of one slot. *)
Lemma length_concat_insert (ss : list (list (node V))) i c c' :
  ss !! i = Some c ->
  (length (concat (<[i := c']> ss)) + length c = length (concat ss) + length c')%nat.
Proof.
  intros Hi. rewrite <- (take_drop_middle ss i c Hi) at 2.
  rewrite (insert_take_drop ss i c') by (by eapply lookup_lt_Some).
  rewrite !concat_app. cbn. rewrite !length_app. lia.
Qed.

Definition with_chain t (i : nat) c (cnt : Z) : table V :=
  Table cnt (num_slots t) (<[i := c]> (slots t)).

Lemma slot_of_with_chain t i c cnt k : slot_of (with_chain t i c cnt) k = slot_of t k.
Proof. done. Qed.

Lemma inv_with_chain t i c c' cnt :
  inv t -> slots t !! i = Some c -> chain_ok t i c' ->
  cnt = wrap32 (Z.of_nat (length (concat (slots t)) + length c') - Z.of_nat (length c)) ->
  inv (with_chain t i c' cnt).
Proof.
  intros Hi Hc Hok ->. split; cbn.
  - rewrite length_insert. apply Hi.
  - apply Hi.
  - intros j d Hd. destruct (decide (j = i)) as [->|].
    + rewrite list_lookup_insert_eq in Hd by (by eapply lookup_lt_Some). by injection Hd as <-.
    + rewrite list_lookup_insert_ne in Hd by done. apply (inv_chain _ Hi j d Hd).
  - f_equal. pose proof (length_concat_insert _ _ _ c' Hc). lia.
Qed.

Lemma elem_of_with_chain t i c' cnt (n : node V) :
  (i < length (slots t))%nat ->
  n ∈ concat (slots (with_chain t i c' cnt)) <->
  n ∈ c' \/ exists j c, j <> i /\ slots t !! j = Some c /\ n ∈ c.
Proof.
  intros Hlt. rewrite elem_of_slots. cbn. split.
  - intros (j & c & Hc & Hn). destruct (decide (j = i)) as [->|].
    + rewrite list_lookup_insert_eq in Hc by done. left. by injection Hc as ->.
    + rewrite list_lookup_insert_ne in Hc by done. right. eauto.
  - intros [Hn|(j & c & Hj & Hc & Hn)].
    + exists i, c'. by rewrite list_lookup_insert_eq.
    + exists j, c. by rewrite list_lookup_insert_ne.
Qed.

(** The map after replacing a chain, seen from the chain's slot and from outside. *)
Lemma map_of_with_chain t i c c' cnt k :
  inv t -> slots t !! i = Some c -> inv (with_chain t i c' cnt) ->
  map_of (with_chain t i c' cnt) !! k =
    if decide (slot_of t k = Z.of_nat i) then (list_to_map c' : gmap _ _) !! k else map_of t !! k.
Proof.
  intros Hi Hc Hi'. pose proof (lookup_lt_Some _ _ _ Hc) as Hlt.
  destruct (inv_chain _ Hi' i c') as [Hnd Hf]; [cbn; by rewrite list_lookup_insert_eq|].
  rewrite Forall_forall in Hf.
  apply option_eq. intros v. rewrite map_of_Some, elem_of_with_chain by done.
  case_decide as Hs.
  - rewrite <- elem_of_list_to_map by done. split; [|by left]. intros [?|(j & d & Hj & Hd & Hn)]; [done|].
    destruct (inv_chain _ Hi j d Hd) as [_ Hg]. rewrite Forall_forall in Hg.
    rewrite Hg in Hs by (apply list_elem_of_fmap; by exists (k, v)). lia.
  - rewrite map_of_Some, elem_of_slots by done. split.
    + intros [Hn|(j & d & Hj & Hd & Hn)]; [|eauto]. destruct Hs. apply Hf.
      apply list_elem_of_fmap. by exists (k, v).
    + intros (j & d & Hd & Hn). right. exists j, d. split; [|done]. intros ->. apply Hs.
      destruct (inv_chain _ Hi i d Hd) as [_ Hg]. rewrite Forall_forall in Hg.
      apply Hg, list_elem_of_fmap. by exists (k, v).
Qed.

Lemma map_of_chain t i c k :
  inv t -> slots t !! i = Some c -> slot_of t k = Z.of_nat i ->
  map_of t !! k = (list_to_map c : gmap _ _) !! k.
Proof.
  intros Hi Hc Hs. destruct (inv_chain _ Hi i c Hc) as [Hnd _].
  apply option_eq. intros v. rewrite map_of_Some, <- elem_of_list_to_map, elem_of_slots by done.
  split; [|eauto]. intros (j & d & Hd & Hn).
  destruct (inv_chain _ Hi j d Hd) as [_ Hg]. rewrite Forall_forall in Hg.
  rewrite Hg in Hs by (apply list_elem_of_fmap; by exists (k, v)).
  assert (j = i) as -> by lia. rewrite Hd in Hc. by injection Hc as <-.
Qed.

(** Splitting a key's entry out of a chain. *)
Lemma list_to_map_middle (l r : list (node V)) (k : list Z) v k' :
  k ∉ l.*1 -> (list_to_map (l ++ (k, v) :: r) : gmap _ V) !! k' =
    if decide (k' = k) then Some v else (list_to_map (l ++ r) : gmap _ V) !! k'.
Proof.
  unfold node in *. intros Hl. rewrite !list_to_map_app. cbn. case_decide as Hk.
  - subst k'. rewrite lookup_union_r; [apply lookup_insert_eq|]. by apply not_elem_of_list_to_map.
  - rewrite !lookup_union. by rewrite lookup_insert_ne.
Qed.

Lemma nat_of_slot t k : inv t -> Z.of_nat (Z.to_nat (slot_of t k)) = slot_of t k.
Proof. intros Hi. pose proof (slot_of_range t k Hi). lia. Qed.

(** ** The table implements a finite map *)

Lemma lookup_spec t k : inv t -> dm_hash_lookup_binary t k = Some (map_of t !! k).
Proof.
  intros Hi. destruct (find_inv t k Hi) as (c & l & m & r & _ & Hf & _ & Hm).
  unfold dm_hash_lookup_binary. rewrite Hf. cbn. by rewrite Hm.
Qed.

Lemma insert_spec t k v :
  inv t ->
  exists t', dm_hash_insert_binary true t k v = Some (true, t') /\ inv t' /\
    map_of t' = <[k := v]> (map_of t).
Proof.
  intros Hi. destruct (find_inv t k Hi) as (c & l & m & r & Hc & Hf & Hfc & Hm).
  pose proof (slot_of_range t k Hi) as Hr. pose proof (find_chain_spec _ _ _ _ _ Hfc) as Hs.
  destruct (inv_chain _ Hi _ _ Hc) as [Hnd Hall].
  unfold dm_hash_insert_binary. rewrite Hf. cbn [mbind option_bind].
  assert (forall c' cnt, inv (with_chain t (Z.to_nat (slot_of t k)) c' cnt) ->
    (forall k', slot_of t k' = slot_of t k -> (list_to_map c' : gmap _ V) !! k' =
       if decide (k' = k) then Some v else (list_to_map c : gmap _ V) !! k') ->
    map_of (with_chain t (Z.to_nat (slot_of t k)) c' cnt) = <[k := v]> (map_of t)) as Hmap.
  { intros c' cnt Hi' Hc'. apply map_eq. intros k'. rewrite (map_of_with_chain _ _ c) by done.
    rewrite nat_of_slot by done. case_decide as He.
    - rewrite Hc' by done. case_decide as Hk; [subst; by rewrite lookup_insert_eq|].
      rewrite lookup_insert_ne by done. symmetry. apply map_of_chain with (Z.to_nat (slot_of t k)); [done..|].
      by rewrite nat_of_slot.
    - rewrite lookup_insert_ne; [done|]. by intros ->. }
  destruct m as [[k0 v0]|]; rewrite zupdate_Some by done; cbn [mbind option_bind].
  - destruct Hs as (-> & Hk & Hl). cbn in Hk. subst k0.
    eexists; split; [reflexivity|].
    assert (inv (with_chain t (Z.to_nat (slot_of t k)) (l ++ (k, v) :: r) (num_nodes t))) as Hi'.
    { eapply inv_with_chain; [done..| |].
      - unfold chain_ok. rewrite fmap_app in *. done.
      - rewrite (inv_count _ Hi). f_equal. rewrite !length_app. cbn. lia. }
    split; [done|]. apply Hmap; [done|]. intros k' _.
    rewrite !list_to_map_middle by done. by repeat case_decide.
  - destruct Hs as (-> & -> & Hl). eexists; split; [reflexivity|].
    assert (inv (with_chain t (Z.to_nat (slot_of t k)) (l ++ [(k, v)]) (wrap32 (num_nodes t + 1)))) as Hi'.
    { eapply inv_with_chain; [done..| |].
      - unfold chain_ok. rewrite fmap_app. cbn. split.
        + apply NoDup_app. repeat split; [done| |apply NoDup_singleton].
          intros x Hx ->%list_elem_of_singleton. done.
        + apply Forall_app. split; [done|]. constructor; [by rewrite nat_of_slot|constructor].
      - rewrite (inv_count _ Hi), wrap32_add_l. f_equal. rewrite length_app. cbn. lia. }
    split; [done|]. apply Hmap; [done|]. intros k' _.
    rewrite list_to_map_middle by done. by rewrite app_nil_r.
Qed.

(** Without memory for a node the table is unchanged, and an existing key is
    still updated. *)
Lemma insert_nomem_spec t k v :
  inv t -> map_of t !! k = None -> dm_hash_insert_binary false t k v = Some (false, t).
Proof.
  intros Hi Hn. destruct (find_inv t k Hi) as (c & l & m & r & _ & Hf & _ & Hm).
  unfold dm_hash_insert_binary. rewrite Hf. cbn. rewrite Hn in Hm. by destruct m.
Qed.

Lemma remove_spec t k :
  inv t -> exists t', dm_hash_remove_binary t k = Some t' /\ inv t' /\ map_of t' = delete k (map_of t).
Proof.
  intros Hi. destruct (find_inv t k Hi) as (c & l & m & r & Hc & Hf & Hfc & Hm).
  pose proof (slot_of_range t k Hi) as Hr. pose proof (find_chain_spec _ _ _ _ _ Hfc) as Hs.
  destruct (inv_chain _ Hi _ _ Hc) as [Hnd Hall].
  unfold dm_hash_remove_binary. rewrite Hf. cbn [mbind option_bind].
  destruct m as [[k0 v0]|].
  - destruct Hs as (-> & Hk & Hl). cbn in Hk. subst k0. rewrite zupdate_Some by done.
    cbn [mbind option_bind].
    exists (with_chain t (Z.to_nat (slot_of t k)) (l ++ r) (wrap32 (num_nodes t - 1))).
    split; [done|]. rewrite fmap_app, fmap_cons in *. cbn in Hnd, Hall.
    assert (k ∉ r.*1) as Hkr.
    { apply NoDup_app in Hnd as (_ & _ & Hnd). by apply NoDup_cons in Hnd as [? _]. }
    assert (inv (with_chain t (Z.to_nat (slot_of t k)) (l ++ r) (wrap32 (num_nodes t - 1)))) as Hi'.
    { eapply inv_with_chain; [done..| |].
      - unfold chain_ok. rewrite fmap_app. split.
        + apply NoDup_app in Hnd as (Hl1 & Hd & Hr1). apply NoDup_cons in Hr1 as [_ Hr1].
          apply NoDup_app. repeat split; [done| |done]. intros x Hx Hx'. apply (Hd x Hx). by constructor.
        + apply Forall_app in Hall as [? Hall]. apply Forall_cons in Hall as [_ ?].
          by apply Forall_app.
      - rewrite (inv_count _ Hi), wrap32_sub_l. f_equal. rewrite !length_app. cbn. lia. }
    split; [done|]. apply map_eq. intros k'. rewrite (map_of_with_chain _ _ (l ++ (k, v0) :: r)) by done.
    rewrite nat_of_slot by done. destruct (decide (k' = k)) as [->|Hne].
    + rewrite decide_True, lookup_delete_eq by done. apply not_elem_of_list_to_map.
      rewrite fmap_app. intros [?|?]%elem_of_app; done.
    + rewrite lookup_delete_ne by done. case_decide as He; [|done].
      rewrite (map_of_chain t _ _ k' Hi Hc) by by rewrite nat_of_slot.
      by rewrite list_to_map_middle, decide_False by done.
  - exists t. split; [done|]. split; [done|]. symmetry. apply delete_id. by rewrite <- Hm.
Qed.
Lemma wipe_spec t : inv t -> inv (dm_hash_wipe t) /\ map_of (dm_hash_wipe t) = ∅.
Proof.
  intros Hi. assert (forall n, concat (replicate n (@nil (node V))) = []) as Hc by (by induction n).
  split; [split|unfold map_of; cbn; by rewrite Hc]; cbn.
  - rewrite length_replicate. destruct (inv_pow2 _ Hi) as (e & He & ->).
    assert (0 < 2 ^ e) by (apply Z.pow_pos_nonneg; lia). lia.
  - apply Hi.
  - intros i c [-> _]%lookup_replicate. split; constructor.
  - by rewrite Hc.
Qed.

(** The allocation only matters for a new key. *)
Lemma insert_present t k v ok :
  inv t -> is_Some (map_of t !! k) ->
  dm_hash_insert_binary ok t k v = dm_hash_insert_binary true t k v.
Proof.
  intros Hi [x Hx]. destruct (find_inv t k Hi) as (c & l & m & r & _ & Hf & _ & Hm).
  unfold dm_hash_insert_binary. rewrite Hf. cbn. rewrite Hx in Hm. by destruct m.
Qed.

Lemma map_of_size t : inv t -> size (map_of t) = length (concat (slots t)).
Proof.
  intros Hi. unfold map_of. by rewrite <- length_map_to_list, map_to_list_to_map by by apply inv_NoDup.
Qed.

Lemma num_entries_spec t :
  inv t -> Z.of_nat (size (map_of t)) < 2 ^ 32 ->
  dm_hash_get_num_entries t = Z.of_nat (size (map_of t)).
Proof.
  intros Hi Hs. unfold dm_hash_get_num_entries. rewrite (inv_count _ Hi).
  rewrite map_of_size in Hs |- * by done. apply wrap32_small. lia.
Qed.

(** ** Iteration visits every node once *)

Lemma next_slot_spec t s :
  match next_slot t s with
  | None => concat (drop s (slots t)) = []
  | Some c => exists i, (s <= i)%nat /\ slots t !! i = Some c /\ c <> [] /\
                concat (drop s (slots t)) = c ++ concat (drop (S i) (slots t))
  end.
Proof.
  unfold next_slot. remember (drop s (slots t)) as ss eqn:E. revert s E.
  induction ss as [|c ss IH]; intros s E; [done|].
  assert (slots t !! s = Some c) as Hs.
  { rewrite <- (Nat.add_0_r s), <- lookup_drop, <- E. done. }
  assert (ss = drop (S s) (slots t)) as E'.
  { rewrite (drop_S _ c s Hs) in E. by injection E. }
  destruct c as [|n c]; cbn.
  - specialize (IH (S s) E'). destruct (next_slot_from ss); [|done].
    destruct IH as (i & ? & ? & ? & ?). exists i. repeat split; try done. lia.
  - exists s. repeat split; [lia|done|done|]. by rewrite E'.
Qed.

Lemma iterate_loop_spec t fuel i n next pre :
  inv t -> slots t !! i = Some (pre ++ n :: next) ->
  (length (n :: next) + length (concat (drop (S i) (slots t))) <= fuel)%nat ->
  iterate_loop fuel t (Some (n :: next)) = Some (n :: next ++ concat (drop (S i) (slots t))).
Proof.
  intros Hi. revert i n next pre. induction fuel as [|fuel IH]; intros i n next pre Hc Hf.
  { cbn in Hf. lia. }
  cbn [iterate_loop]. enough (iterate_loop fuel t (dm_hash_get_next t n next) = Some (next ++ concat (drop (S i) (slots t)))) as -> by done.
  destruct next as [|n' next]; cbn [dm_hash_get_next].
  - assert (slot_of t n.1 = Z.of_nat i) as ->.
    { destruct (inv_chain _ Hi i _ Hc) as [_ Hall]. rewrite Forall_forall in Hall. apply Hall.
      apply list_elem_of_fmap. exists n. split; [done|]. apply elem_of_app. right. constructor. }
    rewrite Nat2Z.id. replace (i + 1)%nat with (S i) by lia.
    pose proof (next_slot_spec t (S i)) as Hn. destruct (next_slot t (S i)) as [[|m c]|].
    + by destruct Hn as (? & ? & ? & ? & ?).
    + destruct Hn as (j & Hj & Hc' & _ & Hcc). rewrite Hcc. cbn [app].
      rewrite Hcc, length_app in Hf. cbn in Hf.
      apply (IH j m c []); [done|]. cbn. lia.
    + rewrite Hn. by destruct fuel.
  - rewrite (IH i n' next (pre ++ [n])); [done| |cbn in *; lia].
    by rewrite <- app_assoc.
Qed.

Lemma iterate_spec t fuel :
  inv t -> (length (concat (slots t)) <= fuel)%nat -> dm_hash_iterate fuel t = Some (concat (slots t)).
Proof.
  intros Hi Hf. unfold dm_hash_iterate, dm_hash_get_first.
  pose proof (next_slot_spec t 0) as Hn. rewrite drop_0 in Hn.
  destruct (next_slot t 0) as [[|n c]|].
  - by destruct Hn as (? & ? & ? & ? & ?).
  - destruct Hn as (i & _ & Hc & _ & Hcc). rewrite Hcc. cbn [app].
    apply (iterate_loop_spec t fuel i n c []); [done..|]. rewrite Hcc, length_app in Hf. cbn in *. lia.
  - rewrite Hn. by destruct fuel.
Qed.

End proofs.

(** ** Creation *)

Lemma round_up_spec e fuel hint :
  0 <= hint <= 2 ^ 31 -> 4 <= e <= 31 -> 32 - e <= Z.of_nat fuel ->
  exists e', e <= e' <= 31 /\ round_up fuel (2 ^ e) hint = Some (2 ^ e') /\ hint <= 2 ^ e'.
Proof.
  intros Hh. revert e. induction fuel as [|fuel IH]; intros e He Hf; [lia|]. cbn [round_up].
  destruct (Z.ltb_spec (2 ^ e) hint) as [Hlt|Hge]; [|exists e; repeat split; lia || done].
  assert (e < 31).
  { apply Z.nle_gt. intros Hle. replace e with 31 in Hlt by lia. lia. }
  assert (wrap32 (Z.shiftl (2 ^ e) 1) = 2 ^ (e + 1)) as ->.
  { rewrite Z.shiftl_mul_pow2 by lia. rewrite <- Z.pow_add_r by lia. apply wrap32_small.
    split; [apply Z.pow_nonneg; lia|]. change 4294967296 with (2 ^ 32). apply Z.pow_lt_mono_r; lia. }
  destruct (IH (e + 1)) as (e' & ? & ? & ?); [lia..|]. exists e'. repeat split; lia || done.
Qed.

(** A hint above 2^31 doubles the size to 0, and 0 stays below the hint. *)
Lemma round_up_zero fuel hint : 0 < hint -> round_up fuel 0 hint = None.
Proof.
  intros Hh. induction fuel as [|fuel IH]; [done|]. cbn [round_up].
  rewrite (proj2 (Z.ltb_lt 0 hint)) by done. exact IH.
Qed.

Lemma round_up_diverges e fuel hint :
  2 ^ 31 < hint < 2 ^ 32 -> 4 <= e <= 31 -> round_up fuel (2 ^ e) hint = None.
Proof.
  intros Hh. revert e. induction fuel as [|fuel IH]; intros e He; [done|]. cbn [round_up].
  assert (2 ^ e <= 2 ^ 31) by (apply Z.pow_le_mono_r; lia).
  rewrite (proj2 (Z.ltb_lt _ _)) by lia. destruct (Z.eq_dec e 31) as [->|].
  - apply round_up_zero. lia.
  - replace (wrap32 (Z.shiftl (2 ^ e) 1)) with (2 ^ (e + 1)); [apply IH; lia|].
    rewrite Z.shiftl_mul_pow2, <- Z.pow_add_r by lia. symmetry. apply wrap32_small.
    split; [apply Z.pow_nonneg; lia|]. change 4294967296 with (2 ^ 32). apply Z.pow_lt_mono_r; lia.
Qed.

Lemma create_spec {V} hint :
  0 <= hint <= 2 ^ 31 ->
  exists t : table V, dm_hash_create true true hint = Some (Some t) /\ inv t /\ map_of t = ∅ /\ hint <= num_slots t.
Proof.
  intros Hh. unfold dm_hash_create. cbn [negb].
  destruct (round_up_spec 4 29 hint Hh) as (e & He & Hr & Hle); [lia..|].
  change (2 ^ 4) with 16 in Hr. rewrite Hr. cbn [mbind option_bind].
  eexists; split; [reflexivity|].
  assert (forall n, concat (replicate n (@nil (node V))) = []) as Hc by (by induction n).
  split; [split|split; [|done]]; cbn.
  - rewrite length_replicate. assert (0 < 2 ^ e) by (apply Z.pow_pos_nonneg; lia). lia.
  - exists e. split; [lia|done].
  - intros i c [-> _]%lookup_replicate. split; constructor.
  - by rewrite Hc.
  - unfold map_of. cbn. by rewrite Hc.
Qed.

(** ** The table implements a finite map *)

Section refinement.
Context {V : Type}.

(** The operations on a table; the string entry points are the binary ones on
    the key with its NUL. *)
Inductive hash_op :=
  | OpInsert (alloc_ok : bool) (key : list Z) (data : V)
  | OpRemove (key : list Z)
  | OpWipe.

Definition run_hash_op (t : table V) (o : hash_op) : option (table V) :=
  match o with
  | OpInsert ok k v => snd <$> dm_hash_insert ok t k v
  | OpRemove k => dm_hash_remove t k
  | OpWipe => Some (dm_hash_wipe t)
  end.

Definition abs_hash_op (m : gmap (list Z) V) (o : hash_op) : gmap (list Z) V :=
  match o with
  | OpInsert ok k v => if ok || bool_decide (is_Some (m !! (k ++ [0]))) then <[k ++ [0] := v]> m else m
  | OpRemove k => delete (k ++ [0]) m
  | OpWipe => ∅
  end.

Lemma run_hash_op_spec t o :
  inv t -> exists t', run_hash_op t o = Some t' /\ inv t' /\ map_of t' = abs_hash_op (map_of t) o.
Proof.
  intros Hi. destruct o as [ok k v|k|]; cbn [run_hash_op abs_hash_op]; unfold dm_hash_insert.
  - destruct (insert_spec t (k ++ [0]) v Hi) as (t' & He & ? & ?). case_bool_decide as Hk.
    + rewrite orb_true_r, insert_present by done. exists t'. by rewrite He.
    + destruct ok; cbn [orb]; [exists t'; by rewrite He|]. exists t.
      rewrite insert_nomem_spec; [done|done|]. by apply eq_None_not_Some.
  - by apply remove_spec.
  - eexists. split; [reflexivity|]. by apply wipe_spec.
Qed.

Lemma run_hash_ops_spec t os :
  inv t -> exists t', foldl (fun acc o => t ← acc; run_hash_op t o) (Some t) os = Some t' /\ inv t' /\
    map_of t' = foldl abs_hash_op (map_of t) os.
Proof.
  revert t. induction os as [|o os IH]; intros t Hi; [by exists t|]. cbn [foldl mbind option_bind].
  destruct (run_hash_op_spec t o Hi) as (t1 & -> & Hi1 & <-). by apply IH.
Qed.

(** C34: A table created for any size hint up to 2^31 implements a finite map from
    strings to data: after every sequence of insertions, removals and wipes (where an
    insertion without memory for a new key does nothing), lookups answer as the map the
    same operations build, and the loop of the iterator ends when it has visited every
    entry of that map exactly once. A table without memory is not made. *)
Theorem hash_implements_map hint os :
  0 <= hint <= 2 ^ 31 ->
  (forall slots_ok, dm_hash_create (V := V) false slots_ok hint = Some None /\ dm_hash_create (V := V) true false hint = Some None) /\
  exists t0 t : table V, dm_hash_create true true hint = Some (Some t0) /\
    foldl (fun acc o => t ← acc; run_hash_op t o) (Some t0) os = Some t /\
    (forall k, dm_hash_lookup t k = Some (foldl abs_hash_op ∅ os !! (k ++ [0]))) /\
    exists nodes, nodes ≡ₚ map_to_list (foldl abs_hash_op ∅ os) /\
      forall fuel, (size (foldl abs_hash_op ∅ os) <= fuel)%nat -> dm_hash_iterate fuel t = Some nodes.
Proof.
  intros Hh. destruct (create_spec (V := V) hint Hh) as (t0 & Hc & Hi0 & Hm0 & _). split.
  { intros ok. split; [done|]. unfold dm_hash_create in *. cbn [negb] in *. destruct (round_up 29 16 hint); done. }
  destruct (run_hash_ops_spec t0 os Hi0) as (t & He & Hi & Hm). rewrite Hm0 in Hm.
  exists t0, t. do 2 (split; [done|]). rewrite <- Hm. split.
  - intros k. by apply lookup_spec.
  - exists (concat (slots t)). split; [symmetry; by apply map_to_list_to_map, inv_NoDup|].
    intros fuel Hf. apply iterate_spec; [done|]. by rewrite <- map_of_size.
Qed.

End refinement.
Arguments hash_op V : clear implicits.

Lemma hash_implements_map_witness :
  let os := [OpInsert true [97] 1; OpInsert true [98] 2; OpRemove [97]; OpInsert false [98] 3; OpInsert false [99] 4] in
  exists t0 t : table Z, dm_hash_create true true 20 = Some (Some t0) /\
    foldl (fun acc o => t ← acc; run_hash_op t o) (Some t0) os = Some t /\
    dm_hash_lookup t [98] = Some (Some 3) /\ dm_hash_lookup t [99] = Some None /\
    exists nodes, dm_hash_iterate 7 t = Some nodes /\ nodes ≡ₚ [([98; 0], 3)].
Proof.
  intros os. destruct (hash_implements_map 20 os) as (_ & t0 & t & E0 & E & Hl & nodes & Hn & Hit); [lia|].
  exists t0, t. split; [exact E0|]. split; [exact E|]. split; [rewrite Hl; reflexivity|]. split; [rewrite Hl; reflexivity|].
  exists nodes. split; [apply Hit; vm_compute; lia|]. etransitivity; [exact Hn|]. vm_compute. reflexivity.
Defined.

(** When the node cannot be allocated, inserting a key the table does not
    have fails and leaves the table as it was, while replacing the data of a key
    it has still succeeds; the number of entries is the size of the map. *)
Theorem hash_insert_nomem {V} (t : table V) k v :
  inv t -> Z.of_nat (size (map_of t)) < 2 ^ 32 ->
  (map_of t !! k = None -> dm_hash_insert_binary false t k v = Some (false, t)) /\
  (is_Some (map_of t !! k) ->
     exists t', dm_hash_insert_binary false t k v = Some (true, t') /\ inv t' /\
       map_of t' = <[k := v]> (map_of t)) /\
  dm_hash_get_num_entries t = Z.of_nat (size (map_of t)).
Proof.
  intros Hi Hs. split; [by apply insert_nomem_spec|]. split; [|by apply num_entries_spec].
  intros Hk. rewrite insert_present by done. by apply insert_spec.
Qed.

Lemma hash_insert_nomem_witness :
  let t := Table 0 2 [[]; []] : table Z in
  (map_of t !! [97] = None -> dm_hash_insert_binary false t [97] 1 = Some (false, t)) /\
  (is_Some (map_of t !! [97]) ->
     exists t', dm_hash_insert_binary false t [97] 1 = Some (true, t') /\ inv t' /\
       map_of t' = <[[97] := 1]> (map_of t)) /\
  dm_hash_get_num_entries t = Z.of_nat (size (map_of t)).
Proof.
  intros t. apply (hash_insert_nomem t [97] 1); [|vm_compute; reflexivity].
  split; [reflexivity|exists 1; split; [lia|reflexivity]| |reflexivity].
  intros [|[|i]] c [= <-]; split; constructor.
Defined.

(** For a size hint above 2^31 the rounding loop of [dm_hash_create] never
    stops: the 32-bit [new_size] wraps to zero. *)
Theorem hash_create_diverges hint fuel :
  2 ^ 31 < hint < 2 ^ 32 -> round_up fuel 16 hint = None.
Proof. intros Hh. change 16 with (2 ^ 4). apply round_up_diverges; lia. Qed.

Lemma hash_create_diverges_witness : round_up 1000 16 (2 ^ 31 + 1) = None.
Proof. apply (hash_create_diverges (2 ^ 31 + 1) 1000). lia. Defined.
