(* ===== verification/Metadata.v ===== *)
(** * The metadata store: lib/metadata structures

    The structures of lib/metadata (volume groups, physical and logical volumes,
    the segments of both) point at each other, so they live in a store with one
    table per structure and pointers are keys.  The intrusive lists the
    structures are kept in ([pv->segments], [lv->segments], [vg->pvs], ...) are
    lists of keys; DmList.v shows that the circular lists of the code implement
    them.  Operations are state transformers; [None] is the dereference of a
    pointer to nothing.  Pool allocations succeed or fail as the oracle
    [st_alloc] of the store says (when it has run out they succeed). *)

From stdpp Require Export gmap.
From S2P Require Import Prelude.

#[global] Open Scope Z_scope.

(** ** The structures *)

(** [struct pv_segment] *)
Record pv_segment := PvSegment {
  peg_pv : option nat;
  peg_pe : Z;
  peg_len : Z;
  peg_lvseg : option nat;
  peg_lv_area : Z }.

(** The fields of [struct physical_volume] that only describe it; the device is
    its name. *)
Record pv_attrs := PvAttrs {
  pa_id : list Z;
  pa_dev : option (list Z);
  pa_vg_name : list Z;
  pa_vgid : list Z;
  pa_is_labelled : bool;
  pa_label_sector : Z;
  pa_tags : list (list Z) }.

Definition no_pv_attrs : pv_attrs := PvAttrs [] None [] [] false 0 [].

(** [struct physical_volume] *)
Record physical_volume := PhysicalVolume {
  pv_vg : option nat;
  pv_status : Z;
  pv_size : Z;
  pv_pe_size : Z;
  pv_pe_start : Z;
  pv_pe_count : Z;
  pv_pe_alloc_count : Z;
  pv_segments : list nat;
  pv_attrs_of : pv_attrs }.

(** [area_type_t] *)
Inductive area_type_t := AREA_UNASSIGNED | AREA_PV | AREA_LV.

#[export] Instance area_type_t_eq_dec : EqDecision area_type_t.
Proof. solve_decision. Defined.

(** The union [u] of [struct lv_segment_area]: a zeroed area, a PV segment or an
    LV and an extent.  Reading the other member than the one stored is not
    defined. *)
Inductive area_u :=
  | U_zero
  | U_pv (pvseg : option nat)
  | U_lv (lv : option nat) (le : Z).

(** [struct lv_segment_area] *)
Record lv_segment_area := Area { area_type : area_type_t; area_u_of : area_u }.

(** [struct segment_type]: the flags, and the name that stands for the address
    (a segment type is registered once). *)
Record segment_type := SegmentType { segtype_name : list Z; segtype_flags : Z }.

#[export] Instance segment_type_eq_dec : EqDecision segment_type.
Proof. solve_decision. Defined.

(** The fields of [struct lv_segment] for particular segment types. *)
Record seg_attrs := SegAttrs {
  sa_chunk_size : Z;
  sa_origin : option nat;
  sa_cow : option nat;
  sa_region_size : Z;
  sa_extents_copied : Z;
  sa_pvmove_source_seg : option nat;
  sa_meta_areas : list lv_segment_area;
  sa_metadata_lv : option nat;
  sa_transaction_id : Z;
  sa_pool_lv : option nat;
  sa_device_id : Z }.

Definition no_attrs : seg_attrs := SegAttrs 0 None None 0 0 None [] None 0 None 0.

(** [struct lv_segment] *)
Record lv_segment := LvSegment {
  seg_lv : nat;
  seg_segtype : segment_type;
  seg_le : Z;
  seg_len : Z;
  seg_status : Z;
  seg_stripe_size : Z;
  seg_area_count : Z;
  seg_area_len : Z;
  seg_log_lv : option nat;
  seg_tags : list (list Z);
  seg_areas : list lv_segment_area;
  seg_attrs_of : seg_attrs }.

(** [alloc_policy_t] *)
Inductive alloc_policy_t :=
  ALLOC_INVALID | ALLOC_CONTIGUOUS | ALLOC_CLING | ALLOC_CLING_BY_TAGS | ALLOC_NORMAL | ALLOC_ANYWHERE | ALLOC_INHERIT.

#[export] Instance alloc_policy_t_eq_dec : EqDecision alloc_policy_t.
Proof. solve_decision. Defined.

(** The fields of [struct logical_volume] that only describe it; [la_vgid] and
    [la_id] are the two halves of [lvid]. *)
Record lv_attrs := LvAttrs {
  la_vgid : list Z;
  la_id : list Z;
  la_alloc : alloc_policy_t;
  la_read_ahead : Z;
  la_major : Z;
  la_minor : Z;
  la_tags : list (list Z);
  la_timestamp : Z;
  la_hostname : list Z;
  la_origin_count : Z;
  la_snapshot : option nat }.

Definition no_lv_attrs : lv_attrs := LvAttrs [] [] ALLOC_INVALID 0 0 0 [] 0 [] 0 None.

(** [struct logical_volume]; [lv_users] is [segs_using_this_lv], the segments
    with their reference counts. *)
Record logical_volume := LogicalVolume {
  lv_name : list Z;
  lv_vg : nat;
  lv_status : Z;
  lv_size : Z;
  lv_le_count : Z;
  lv_segments : list nat;
  lv_users : list (nat * Z);
  lv_attrs_of : lv_attrs }.

(** The fields of [struct volume_group] that only describe it; [va_format] is the
    name of the format of its instance, when it has one. *)
Record vg_attrs := VgAttrs {
  va_id : list Z;
  va_seqno : Z;
  va_alloc : alloc_policy_t;
  va_system_id : list Z;
  va_tags : list (list Z);
  va_mda_copies : Z;
  va_format : option (list Z) }.

Definition no_vg_attrs : vg_attrs := VgAttrs [] 0 ALLOC_INVALID [] [] 0 None.

(** [struct volume_group] *)
Record volume_group := VolumeGroup {
  vg_name : list Z;
  vg_status : Z;
  vg_extent_size : Z;
  vg_extent_count : Z;
  vg_free_count : Z;
  vg_pv_count : Z;
  vg_max_pv : Z;
  vg_max_lv : Z;
  vg_pvs : list nat;
  vg_lvs : list nat;
  vg_attrs_of : vg_attrs }.

(** Status bits (metadata-exported.h). *)
Definition ALLOCATABLE_PV : Z := 0x8.
Definition VISIBLE_LV : Z := 0x40.
Definition SNAPSHOT : Z := 0x1000.
Definition PVMOVE : Z := 0x2000.
Definition LOCKED : Z := 0x4000.
Definition MIRROR_LOG : Z := 0x20000.
Definition MIRROR_IMAGE : Z := 0x40000.
Definition MISSING_PV : Z := 0x800000.

(** Segment type flags (segtype.h). *)
Definition SEG_AREAS_STRIPED : Z := 0x2.
Definition SEG_AREAS_MIRRORED : Z := 0x4.

(** [status & FLAG] as a condition. *)
Definition flag (status f : Z) : bool := negb (Z.land status f =? 0).

Definition seg_is_striped (seg : lv_segment) : bool :=
  flag (segtype_flags (seg_segtype seg)) SEG_AREAS_STRIPED.

Definition seg_is_mirrored (seg : lv_segment) : bool :=
  flag (segtype_flags (seg_segtype seg)) SEG_AREAS_MIRRORED.

Definition is_missing_pv (pv : physical_volume) : bool := flag (pv_status pv) MISSING_PV.

(** ** The store *)

Record store := Store {
  st_pegs : gmap nat pv_segment;
  st_pvs : gmap nat physical_volume;
  st_segs : gmap nat lv_segment;
  st_lvs : gmap nat logical_volume;
  st_vgs : gmap nat volume_group;
  st_next : nat;
  st_alloc : list bool;
  st_discards : list (nat * Z * Z) }.

(** A table of the store. *)
Class Table (T : Type) := {
  tbl : store -> gmap nat T;
  set_tbl : gmap nat T -> store -> store }.

#[export] Instance pegs_table : Table pv_segment := {|
  tbl := st_pegs;
  set_tbl m s := Store m (st_pvs s) (st_segs s) (st_lvs s) (st_vgs s) (st_next s) (st_alloc s) (st_discards s) |}.
#[export] Instance pvs_table : Table physical_volume := {|
  tbl := st_pvs;
  set_tbl m s := Store (st_pegs s) m (st_segs s) (st_lvs s) (st_vgs s) (st_next s) (st_alloc s) (st_discards s) |}.
#[export] Instance segs_table : Table lv_segment := {|
  tbl := st_segs;
  set_tbl m s := Store (st_pegs s) (st_pvs s) m (st_lvs s) (st_vgs s) (st_next s) (st_alloc s) (st_discards s) |}.
#[export] Instance lvs_table : Table logical_volume := {|
  tbl := st_lvs;
  set_tbl m s := Store (st_pegs s) (st_pvs s) (st_segs s) m (st_vgs s) (st_next s) (st_alloc s) (st_discards s) |}.
#[export] Instance vgs_table : Table volume_group := {|
  tbl := st_vgs;
  set_tbl m s := Store (st_pegs s) (st_pvs s) (st_segs s) (st_lvs s) m (st_next s) (st_alloc s) (st_discards s) |}.

(** ** State transformers *)

Definition M (A : Type) : Type := store -> option (A * store).

#[export] Instance M_ret : MRet M := fun A a s => Some (a, s).
#[export] Instance M_bind : MBind M := fun A B f m s =>
  match m s with Some (a, s') => f a s' | None => None end.

(** A wild access. *)
Definition wild {A} : M A := fun _ => None.

Definition deref {A} (p : option A) : M A :=
  match p with Some x => mret x | None => wild end.

Definition get {T} `{Table T} (p : nat) : M T := fun s =>
  match tbl s !! p with Some x => Some (x, s) | None => None end.

(** [p->field = ...]: the record with the field replaced. *)
Definition modify {T} `{Table T} (p : nat) (f : T -> T) : M unit := fun s =>
  match tbl s !! p with Some x => Some (tt, set_tbl (<[p := f x]> (tbl s)) s) | None => None end.

(** A zeroed allocation from a pool: the address of the new structure or [NULL]. *)
Definition alloc {T} `{Table T} (x : T) : M (option nat) := fun s =>
  let s' := Store (st_pegs s) (st_pvs s) (st_segs s) (st_lvs s) (st_vgs s) (st_next s)
              (tail (st_alloc s)) (st_discards s) in
  match st_alloc s with
  | false :: _ => Some (None, s')
  | _ => let s' := set_tbl (<[st_next s := x]> (tbl s')) s' in
         Some (Some (st_next s),
               Store (st_pegs s') (st_pvs s') (st_segs s') (st_lvs s') (st_vgs s') (S (st_next s))
                 (st_alloc s') (st_discards s'))
  end.

(** ** Field updates *)

Definition set_peg_len (v : Z) (x : pv_segment) : pv_segment :=
  PvSegment (peg_pv x) (peg_pe x) v (peg_lvseg x) (peg_lv_area x).
Definition set_peg_owner (seg : option nat) (area : Z) (x : pv_segment) : pv_segment :=
  PvSegment (peg_pv x) (peg_pe x) (peg_len x) seg area.

Definition set_pv_size (v : Z) (x : physical_volume) : physical_volume :=
  PhysicalVolume (pv_vg x) (pv_status x) v (pv_pe_size x) (pv_pe_start x) (pv_pe_count x)
    (pv_pe_alloc_count x) (pv_segments x) (pv_attrs_of x).
Definition set_pv_pe_count (v : Z) (x : physical_volume) : physical_volume :=
  PhysicalVolume (pv_vg x) (pv_status x) (pv_size x) (pv_pe_size x) (pv_pe_start x) v
    (pv_pe_alloc_count x) (pv_segments x) (pv_attrs_of x).
Definition set_pv_pe_alloc_count (v : Z) (x : physical_volume) : physical_volume :=
  PhysicalVolume (pv_vg x) (pv_status x) (pv_size x) (pv_pe_size x) (pv_pe_start x) (pv_pe_count x)
    v (pv_segments x) (pv_attrs_of x).
Definition set_pv_segments (v : list nat) (x : physical_volume) : physical_volume :=
  PhysicalVolume (pv_vg x) (pv_status x) (pv_size x) (pv_pe_size x) (pv_pe_start x) (pv_pe_count x)
    (pv_pe_alloc_count x) v (pv_attrs_of x).

Definition set_vg_free_count (v : Z) (x : volume_group) : volume_group :=
  VolumeGroup (vg_name x) (vg_status x) (vg_extent_size x) (vg_extent_count x) v (vg_pv_count x)
    (vg_max_pv x) (vg_max_lv x) (vg_pvs x) (vg_lvs x) (vg_attrs_of x).
Definition set_vg_extent_count (v : Z) (x : volume_group) : volume_group :=
  VolumeGroup (vg_name x) (vg_status x) (vg_extent_size x) v (vg_free_count x) (vg_pv_count x)
    (vg_max_pv x) (vg_max_lv x) (vg_pvs x) (vg_lvs x) (vg_attrs_of x).

Definition set_seg_len (v : Z) (x : lv_segment) : lv_segment :=
  LvSegment (seg_lv x) (seg_segtype x) (seg_le x) v (seg_status x) (seg_stripe_size x)
    (seg_area_count x) (seg_area_len x) (seg_log_lv x) (seg_tags x) (seg_areas x) (seg_attrs_of x).
Definition set_seg_area_len (v : Z) (x : lv_segment) : lv_segment :=
  LvSegment (seg_lv x) (seg_segtype x) (seg_le x) (seg_len x) (seg_status x) (seg_stripe_size x)
    (seg_area_count x) v (seg_log_lv x) (seg_tags x) (seg_areas x) (seg_attrs_of x).
Definition set_seg_areas (v : list lv_segment_area) (x : lv_segment) : lv_segment :=
  LvSegment (seg_lv x) (seg_segtype x) (seg_le x) (seg_len x) (seg_status x) (seg_stripe_size x)
    (seg_area_count x) (seg_area_len x) (seg_log_lv x) (seg_tags x) v (seg_attrs_of x).

(** The volume group an LV segment belongs to: [seg->lv->vg]. *)
Definition seg_vg (seg : nat) : M nat :=
  g ← get (T := lv_segment) seg; lv ← get (T := logical_volume) (seg_lv g); mret (lv_vg lv).

(** ** Executing state transformers *)

Lemma bind_exec {A B} (m : M A) (f : A -> M B) s a s' : m s = Some (a, s') -> (m ≫= f) s = f a s'.
Proof. intros E. unfold mbind, M_bind. by rewrite E. Qed.

Section exec.
Context {T A B : Type} `{Table T}.
Implicit Types (s : store) (p : nat).

Lemma bind_get p (f : T -> M B) s x : tbl s !! p = Some x -> (get p ≫= f) s = f x s.
Proof. intros E. apply bind_exec. unfold get. by rewrite E. Qed.

Lemma bind_modify p (g : T -> T) (f : unit -> M B) s x :
  tbl s !! p = Some x -> (modify p g ≫= f) s = f tt (set_tbl (<[p := g x]> (tbl s)) s).
Proof. intros E. apply bind_exec. unfold modify. by rewrite E. Qed.

Lemma exec_modify p (g : T -> T) s x :
  tbl s !! p = Some x -> modify p g s = Some (tt, set_tbl (<[p := g x]> (tbl s)) s).
Proof. intros E. unfold modify. by rewrite E. Qed.

Lemma bind_ret (a : A) (f : A -> M B) s : (mret a ≫= f) s = f a s.
Proof. reflexivity. Qed.

Lemma bind_assoc {C} (m : M A) (f : A -> M B) (g : B -> M C) s :
  ((m ≫= f) ≫= g) s = (m ≫= (fun a => f a ≫= g)) s.
Proof. unfold mbind, M_bind. by destruct (m s) as [[a s']|]. Qed.

End exec.

(** The allocation of a structure: the outcome the oracle dictates, and the
    store with the oracle advanced. *)
Definition alloc_ok (s : store) : bool := if st_alloc s is false :: _ then false else true.

Definition alloc_tick (s : store) : store :=
  Store (st_pegs s) (st_pvs s) (st_segs s) (st_lvs s) (st_vgs s) (st_next s) (tail (st_alloc s))
    (st_discards s).

Definition alloc_peg (x : pv_segment) (s : store) : store :=
  Store (<[st_next s := x]> (st_pegs s)) (st_pvs s) (st_segs s) (st_lvs s) (st_vgs s)
    (S (st_next s)) (tail (st_alloc s)) (st_discards s).

Lemma exec_alloc_peg (x : pv_segment) s :
  alloc x s = if alloc_ok s then Some (Some (st_next s), alloc_peg x s) else Some (None, alloc_tick s).
Proof.
  unfold alloc, alloc_ok, alloc_peg, alloc_tick. destruct (st_alloc s) as [|[] ?] eqn:E; reflexivity.
Qed.

(** [lk] solves lookups in an updated store; [mstep] executes the next access. *)
Ltac lk :=
  cbn [tbl set_tbl pegs_table pvs_table segs_table lvs_table vgs_table st_pegs st_pvs st_segs st_lvs
       st_vgs alloc_peg alloc_tick];
  repeat first [rewrite lookup_insert_eq | rewrite lookup_insert_ne by (done || lia || congruence)];
  first [reflexivity | eassumption].

Ltac mstep :=
  first [ erewrite bind_get by lk
        | erewrite bind_modify by lk
        | erewrite exec_modify by lk
        | rewrite bind_ret
        | rewrite bind_assoc ];
  cbn beta.

Lemma bind_alloc_peg {B} x (f : option nat -> M B) s :
  alloc_ok s = true -> (alloc (T := pv_segment) x ≫= f) s = f (Some (st_next s)) (alloc_peg x s).
Proof. intros E. apply bind_exec. by rewrite exec_alloc_peg, E. Qed.

Lemma bind_alloc_peg_fail {B} x (f : option nat -> M B) s :
  alloc_ok s = false -> (alloc (T := pv_segment) x ≫= f) s = f None (alloc_tick s).
Proof. intros E. apply bind_exec. by rewrite exec_alloc_peg, E. Qed.
