(* ===== verification/PvManip.v ===== *)
(** * Physical extents and their owners: lib/metadata/pv_manip.c

    Every PV keeps an ordered list of PV segments that covers its extents; a
    segment is free or belongs to an area of an LV segment.  This file models
    the operations that split, assign, release and merge PV segments and resize
    a PV, and the consistency check of a whole VG. *)

From S2P Require Import Prelude Metadata.

(** ** The code *)

(** What the code asks of the configuration and of devices when it discards. *)
Record discard_env := DiscardEnv {
  discards_enabled : nat -> bool;
  dev_discard_blocks : nat -> Z -> Z -> bool }.

(** The static [null_pv_segment] has address 0. *)
Definition null_pv_segment : nat := 0.

Definition alloc_pv_segment (pv : option nat) (pe len : Z) (lvseg : option nat) (lv_area : Z) :
    M (option nat) :=
  alloc (PvSegment pv pe len lvseg lv_area).

Definition alloc_pv_segment_whole_pv (pv : nat) : M bool :=
  v ← get (T := physical_volume) pv;
  if pv_pe_count v =? 0 then mret true else
  peg ← alloc_pv_segment (Some pv) 0 (pv_pe_count v) None 0;
  match peg with
  | None => mret false
  | Some peg => modify pv (fun v => set_pv_segments (pv_segments v ++ [peg]) v);; mret true
  end.

(** [peg_dup]: success and the new list. *)
Fixpoint peg_dup_loop (peg_old : list nat) (peg_new : list nat) : M (bool * list nat) :=
  match peg_old with
  | [] => mret (true, peg_new)
  | pego :: peg_old =>
      o ← get (T := pv_segment) pego;
      peg ← alloc_pv_segment (peg_pv o) (peg_pe o) (peg_len o) (peg_lvseg o) (peg_lv_area o);
      match peg with
      | None => mret (false, peg_new)
      | Some peg => peg_dup_loop peg_old (peg_new ++ [peg])
      end
  end.

Definition peg_dup (peg_old : list nat) : M (bool * list nat) := peg_dup_loop peg_old [].

(** The extents of a segment as the code computes them. *)
Definition peg_has (g : pv_segment) (pe : Z) : bool :=
  (peg_pe g <=? pe) && (pe <? wrap32 (peg_pe g + peg_len g)).

Fixpoint find_peg_loop (back : list nat) (pe : Z) : M (option nat) :=
  match back with
  | [] => mret None
  | q :: back => g ← get (T := pv_segment) q;
                 if peg_has g pe then mret (Some q) else find_peg_loop back pe
  end.

Definition find_peg_by_pe (pv : nat) (pe : Z) : M (option nat) :=
  v ← get (T := physical_volume) pv; find_peg_loop (rev (pv_segments v)) pe.

(** [dm_list_add_h(&peg->list, &peg_new->list)]: the new node comes right after. *)
Fixpoint insert_after (q n : nat) (l : list nat) : list nat :=
  match l with
  | [] => []
  | x :: l => if decide (x = q) then x :: n :: l else x :: insert_after q n l
  end.

Definition pv_split_segment_at (pv peg : nat) (pe : Z) : M (option nat) :=
  g ← get (T := pv_segment) peg;
  peg_new ← alloc_pv_segment (peg_pv g) pe (wrap32 (peg_len g + peg_pe g - pe)) None 0;
  match peg_new with
  | None => mret None
  | Some peg_new =>
      n ← get (T := pv_segment) peg_new;
      modify peg (fun g => set_peg_len (wrap32 (peg_len g - peg_len n)) g);;
      modify pv (fun v => set_pv_segments (insert_after peg peg_new (pv_segments v)) v);;
      match peg_lvseg g with
      | Some lvseg =>
          p ← deref (peg_pv g);
          modify p (fun v => set_pv_pe_alloc_count (wrap32 (pv_pe_alloc_count v - peg_len n)) v);;
          vg ← seg_vg lvseg;
          modify vg (fun x => set_vg_free_count (wrap32 (vg_free_count x + peg_len n)) x)
      | None => mret tt
      end;;
      mret (Some peg_new)
  end.

(** [pv_split_segment]: the return value and what is stored in
    [pvseg_allocated]. *)
Definition pv_split_segment (pv : nat) (pe : Z) : M (bool * option nat) :=
  v ← get (T := physical_volume) pv;
  if pe =? pv_pe_count v then mret (true, None) else
  pvseg ← find_peg_by_pe pv pe;
  match pvseg with
  | None => mret (false, None)
  | Some pvseg =>
      g ← get (T := pv_segment) pvseg;
      if pe =? peg_pe g then mret (true, Some pvseg) else
      pvseg_new ← pv_split_segment_at pv pvseg pe;
      match pvseg_new with
      | None => mret (false, None)
      | Some n => mret (true, Some n)
      end
  end.

Definition assign_peg_to_lvseg (pv : option nat) (pe area_len : Z) (seg : nat) (area_num : Z) :
    M (option nat) :=
  match pv with
  | None => mret (Some null_pv_segment)
  | Some pv =>
      _ ← seg_vg seg;
      r1 ← pv_split_segment pv pe;
      if negb r1.1 then mret None else
      r2 ← pv_split_segment pv (wrap32 (pe + area_len));
      if negb r2.1 then mret None else
      match r1.2 with
      | None => mret None
      | Some peg =>
          modify peg (set_peg_owner (Some seg) area_num);;
          g ← get (T := pv_segment) peg;
          p ← deref (peg_pv g);
          modify p (fun v => set_pv_pe_alloc_count (wrap32 (pv_pe_alloc_count v + area_len)) v);;
          vg ← seg_vg seg;
          modify vg (fun x => set_vg_free_count (wrap32 (vg_free_count x - area_len)) x);;
          mret (Some peg)
      end
  end.

(** The trace of discards issued. *)
Definition log_discard (p : nat) (off len : Z) : M unit := fun s =>
  Some (tt, Store (st_pegs s) (st_pvs s) (st_segs s) (st_lvs s) (st_vgs s) (st_next s)
              (st_alloc s) (st_discards s ++ [(p, off, len)])).

(** The discard before a release: [false] when [dev_discard_blocks] fails. *)
Definition release_discard (env : discard_env) (p : nat) (g : pv_segment) (area_len area_reduction : Z) :
    M bool :=
  v ← get (T := physical_volume) p;
  if negb (discards_enabled env p) then mret true else
  vgp ← deref (pv_vg v);
  vg ← get (T := volume_group) vgp;
  let off := wrap64 (wrap32 (peg_pe g + area_len - area_reduction) * vg_extent_size vg + pv_pe_start v) in
  let '(off, red) := if off =? 0 then (vg_extent_size vg, wrap64 (area_reduction - 1))
                     else (off, area_reduction) in
  if red =? 0 then mret true else
  let bytes_off := wrap64 (Z.shiftl off SECTOR_SHIFT) in
  let bytes_len := wrap64 (red * vg_extent_size vg * SECTOR_SIZE) in
  log_discard p bytes_off bytes_len;;
  mret (dev_discard_blocks env p bytes_off bytes_len).

Definition release_pv_segment (env : discard_env) (peg : nat) (area_reduction : Z) : M bool :=
  g ← get (T := pv_segment) peg;
  p ← deref (peg_pv g);
  _ ← get (T := physical_volume) p;
  match peg_lvseg g with
  | None => mret false
  | Some lvseg =>
      sg ← get (T := lv_segment) lvseg;
      ok ← release_discard env p g (seg_area_len sg) area_reduction;
      if negb ok then mret false else
      if seg_area_len sg =? area_reduction then
        modify p (fun v => set_pv_pe_alloc_count (wrap32 (pv_pe_alloc_count v - area_reduction)) v);;
        vg ← seg_vg lvseg;
        modify vg (fun x => set_vg_free_count (wrap32 (vg_free_count x + area_reduction)) x);;
        modify peg (set_peg_owner None 0);;
        mret true
      else
        r ← pv_split_segment p (wrap32 (peg_pe g + seg_area_len sg - area_reduction));
        mret r.1
  end.

Definition merge_pv_segments (peg1 peg2 : nat) : M unit :=
  g2 ← get (T := pv_segment) peg2;
  modify peg1 (fun g => set_peg_len (wrap32 (peg_len g + peg_len g2)) g);;
  p ← deref (peg_pv g2);
  modify p (fun v => set_pv_segments (filter (fun q => q <> peg2) (pv_segments v)) v).

(** [struct pe_range] *)
Record pe_range := PeRange { per_start : Z; per_count : Z }.

Definition overlap_pe (g : pv_segment) (per : pe_range) : Z :=
  let start := Z.max (peg_pe g) (per_start per) in
  let e := Z.min (wrap32 (peg_pe g + peg_len g)) (wrap32 (per_start per + per_count per)) in
  if e <? start then 0 else wrap32 (e - start).

Fixpoint free_segs_loop (segs : list nat) (per : pe_range) (extents : Z) : M Z :=
  match segs with
  | [] => mret extents
  | q :: segs =>
      g ← get (T := pv_segment) q;
      free_segs_loop segs per
        (if peg_lvseg g is None then wrap32 (extents + overlap_pe g per) else extents)
  end.

Fixpoint free_ranges_loop (pv : nat) (pers : list pe_range) (extents : Z) : M Z :=
  match pers with
  | [] => mret extents
  | per :: pers =>
      v ← get (T := physical_volume) pv;
      extents ← free_segs_loop (pv_segments v) per extents;
      free_ranges_loop pv pers extents
  end.

(** [pv_list_extents_free]: a [struct pv_list] is the PV and its ranges. *)
Fixpoint free_pvs_loop (pvh : list (nat * list pe_range)) (extents : Z) : M Z :=
  match pvh with
  | [] => mret extents
  | (pv, pers) :: pvh => extents ← free_ranges_loop pv pers extents; free_pvs_loop pvh extents
  end.

Definition pv_list_extents_free (pvh : list (nat * list pe_range)) : M Z := free_pvs_loop pvh 0.

(** The member [u.pv.pvseg] of an area; [u.lv.lv] is not the address of a PV
    segment. *)
Definition area_pvseg (a : lv_segment_area) : option nat :=
  match area_u_of a with U_pv p => p | _ => None end.

(** The checks on one segment in [check_pv_segments]; [false] sets [ret = 0]. *)
Definition check_peg (peg : nat) (start_pe : Z) : M (bool * pv_segment) :=
  g ← get (T := pv_segment) peg;
  ok ← match peg_lvseg g with
       | None => mret true
       | Some lvseg =>
           sg ← get (T := lv_segment) lvseg;
           _ ← get (T := logical_volume) (seg_lv sg);
           a ← deref (zlookup (seg_areas sg) (peg_lv_area g));
           mret (bool_decide (area_type a = AREA_PV) && bool_decide (area_pvseg a = Some peg)
                 && (seg_area_len sg =? peg_len g))
       end;
  mret ((start_pe =? peg_pe g) && ok, g).

Fixpoint check_pegs_loop (segs : list nat) (start_pe alloced : Z) (ret : bool) : M (Z * Z * bool) :=
  match segs with
  | [] => mret (start_pe, alloced, ret)
  | peg :: segs =>
      '(ok, g) ← check_peg peg start_pe;
      check_pegs_loop segs (wrap32 (start_pe + peg_len g))
        (if peg_lvseg g is Some _ then wrap32 (alloced + peg_len g) else alloced) (ret && ok)
  end.

Record check_counts := CheckCounts { cc_pv : Z; cc_free : Z; cc_extent : Z; cc_ret : bool }.

Fixpoint check_pvs_loop (pvs : list nat) (c : check_counts) : M check_counts :=
  match pvs with
  | [] => mret c
  | pv :: pvs =>
      v ← get (T := physical_volume) pv;
      '(start_pe, alloced, ret) ← check_pegs_loop (pv_segments v) 0 0 (cc_ret c);
      check_pvs_loop pvs
        (CheckCounts (wrap32 (cc_pv c + 1)) (wrap32 (cc_free c + wrap32 (start_pe - alloced)))
           (wrap32 (cc_extent c + start_pe))
           (ret && (start_pe =? pv_pe_count v) && (alloced =? pv_pe_alloc_count v)))
  end.

Definition check_pv_segments (vg : nat) : M bool :=
  x ← get (T := volume_group) vg;
  c ← check_pvs_loop (vg_pvs x) (CheckCounts 0 0 0 true);
  mret (cc_ret c && (cc_pv c =? vg_pv_count x) && (cc_free c =? vg_free_count x)
        && (cc_extent c =? vg_extent_count x)).

(** ** Resizing a PV *)

(** No allocated segment ends after [new_pe_count]. *)
Fixpoint reduce_check_loop (segs : list nat) (new_pe_count : Z) : M bool :=
  match segs with
  | [] => mret true
  | q :: segs =>
      g ← get (T := pv_segment) q;
      if wrap32 (peg_pe g + peg_len g) <=? new_pe_count then reduce_check_loop segs new_pe_count
      else if peg_lvseg g is Some _ then mret false else reduce_check_loop segs new_pe_count
  end.

(** The segments left in the list. *)
Fixpoint reduce_del_loop (segs : list nat) (new_pe_count : Z) : M (list nat) :=
  match segs with
  | [] => mret []
  | q :: segs =>
      g ← get (T := pv_segment) q;
      rest ← reduce_del_loop segs new_pe_count;
      mret (if new_pe_count <? wrap32 (peg_pe g + peg_len g) then rest else q :: rest)
  end.

Definition reduce_pv (pv vg : nat) (old_pe_count new_pe_count : Z) : M bool :=
  v ← get (T := physical_volume) pv;
  if new_pe_count <? pv_pe_alloc_count v then mret false else
  ok ← reduce_check_loop (pv_segments v) new_pe_count;
  if negb ok then mret false else
  r ← pv_split_segment pv new_pe_count;
  if negb r.1 then mret false else
  v ← get (T := physical_volume) pv;
  segs ← reduce_del_loop (pv_segments v) new_pe_count;
  modify pv (set_pv_segments segs);;
  modify pv (set_pv_pe_count new_pe_count);;
  modify vg (fun x => set_vg_extent_count
    (wrap32 (vg_extent_count x - wrap32 (old_pe_count - new_pe_count))) x);;
  modify vg (fun x => set_vg_free_count
    (wrap32 (vg_free_count x - wrap32 (old_pe_count - new_pe_count))) x);;
  mret true.

Definition extend_pv (pv vg : nat) (old_pe_count new_pe_count : Z) : M bool :=
  v ← get (T := physical_volume) pv;
  if pv_size v <? wrap64 (new_pe_count * pv_pe_size v) then mret false else
  peg ← alloc_pv_segment (Some pv) old_pe_count (wrap32 (new_pe_count - old_pe_count)) None 0;
  match peg with
  | None => mret false
  | Some peg =>
      modify pv (fun v => set_pv_segments (pv_segments v ++ [peg]) v);;
      modify pv (set_pv_pe_count new_pe_count);;
      modify vg (fun x => set_vg_extent_count
        (wrap32 (vg_extent_count x + wrap32 (new_pe_count - old_pe_count))) x);;
      modify vg (fun x => set_vg_free_count
        (wrap32 (vg_free_count x + wrap32 (new_pe_count - old_pe_count))) x);;
      mret true
  end.

(** [pv_resize]: [fmt_pv_resize] is the [pv_resize] method of the PV's format and
    [pv_min_size] the configured minimum.  The division by [vg->extent_size]
    traps when it is zero. *)
Definition pv_resize (fmt_pv_resize : nat -> option nat -> Z -> M bool) (pv_min_size : Z)
    (pv : nat) (vg : option nat) (size : Z) : M bool :=
  if size <? pv_min_size then mret false else
  v ← get (T := physical_volume) pv;
  let old_pe_count := pv_pe_count v in
  ok ← fmt_pv_resize pv vg size;
  if negb ok then mret false else
  match vg with
  | None => mret true
  | Some vg =>
      v ← get (T := physical_volume) pv;
      x ← get (T := volume_group) vg;
      if vg_extent_size x =? 0 then wild else
      let new_pe_count := wrap32 (pv_size v / vg_extent_size x) in
      if new_pe_count =? 0 then mret false else
      if new_pe_count =? old_pe_count then
        modify pv (set_pv_pe_count old_pe_count);; mret true
      else if old_pe_count <? new_pe_count then extend_pv pv vg old_pe_count new_pe_count
      else reduce_pv pv vg old_pe_count new_pe_count
  end.
