(* ===== verification/PvSegs.v ===== *)
(** * Properties of PV segments

    The invariant of a volume group ([vg_ok]: the segments of every PV cover it,
    the counts of allocated and free extents are exact), the ownership of extents
    ([owner]) as the abstract view of a PV, and what the operations of PvManip.v
    do to both. *)

From S2P Require Import Prelude Metadata PvManip.

(** ** Segment lists that cover a PV *)

(** The segments [l] are adjacent, non-empty and cover the extents from [lo] up
    to [hi]. *)
Fixpoint covers (lo : Z) (l : list pv_segment) (hi : Z) : Prop :=
  match l with
  | [] => lo = hi
  | g :: l => peg_pe g = lo /\ 0 < peg_len g /\ covers (lo + peg_len g) l hi
  end.

(** Extents in allocated segments. *)
Definition alloc_len (g : pv_segment) : Z := if peg_lvseg g is Some _ then peg_len g else 0.
Definition alloced (l : list pv_segment) : Z := zsum (map alloc_len l).

(** Who owns extent [e]: LV segment, area, and the place inside the area. *)
Fixpoint owner (l : list pv_segment) (e : Z) : option (nat * Z * Z) :=
  match l with
  | [] => None
  | g :: l => if (peg_pe g <=? e) && (e <? peg_pe g + peg_len g)
              then match peg_lvseg g with Some s => Some (s, peg_lv_area g, e - peg_pe g) | None => None end
              else owner l e
  end.

Lemma covers_le lo l hi : covers lo l hi -> lo <= hi.
Proof.
  revert lo. induction l as [|g l IH]; intros lo; cbn; [lia|]. intros (_ & ? & H). apply IH in H. lia.
Qed.

Lemma covers_app lo l1 l2 hi :
  covers lo (l1 ++ l2) hi <-> exists mid, covers lo l1 mid /\ covers mid l2 hi.
Proof.
  revert lo. induction l1 as [|g l1 IH]; intros lo; cbn.
  - split; [eauto|]. by intros (? & <- & ?).
  - rewrite IH. naive_solver.
Qed.

Lemma covers_middle lo l1 g l2 hi :
  covers lo (l1 ++ g :: l2) hi <->
  covers lo l1 (peg_pe g) /\ 0 < peg_len g /\ covers (peg_pe g + peg_len g) l2 hi.
Proof.
  rewrite covers_app. cbn. split.
  - by intros (? & ? & <- & ? & ?).
  - intros (? & ? & ?). by exists (peg_pe g).
Qed.

(** Segments of a covering list are inside it, and later ones are further on. *)
Lemma covers_elem lo l hi g : covers lo l hi -> g ∈ l -> lo <= peg_pe g /\ peg_pe g + peg_len g <= hi /\ 0 < peg_len g.
Proof.
  intros Hc Hg. apply list_elem_of_split in Hg as (l1 & l2 & ->).
  apply covers_middle in Hc as (H1 & ? & H2). apply covers_le in H1, H2. lia.
Qed.

(** The segment that has an extent. *)
Lemma covers_find lo l hi e :
  covers lo l hi -> lo <= e < hi ->
  exists l1 g l2, l = l1 ++ g :: l2 /\ peg_pe g <= e < peg_pe g + peg_len g.
Proof.
  revert lo. induction l as [|g l IH]; intros lo Hc He; cbn in Hc; [lia|].
  destruct Hc as (? & ? & Hc). destruct (Z.lt_ge_cases e (lo + peg_len g)).
  - exists [], g, l. split; [done|lia].
  - destruct (IH _ Hc) as (l1 & g' & l2 & -> & ?); [lia|]. by exists (g :: l1), g', l2.
Qed.

Lemma owner_app l1 l2 e :
  Forall (fun g => peg_pe g <= e < peg_pe g + peg_len g -> False) l1 -> owner (l1 ++ l2) e = owner l2 e.
Proof.
  induction 1 as [|g l1 Hg _ IH]; [done|]. cbn.
  destruct (Z.leb_spec (peg_pe g) e), (Z.ltb_spec e (peg_pe g + peg_len g)); cbn; [lia|done..].
Qed.

Lemma owner_out lo l hi e : covers lo l hi -> ~ lo <= e < hi -> owner l e = None.
Proof.
  intros Hc He. rewrite <- (app_nil_r l). rewrite owner_app; [done|].
  apply Forall_forall. intros g Hg ?. pose proof (covers_elem _ _ _ _ Hc Hg). lia.
Qed.

(** The owner of an extent in a covering list, by where it falls. *)
Lemma owner_middle lo l1 g l2 hi e :
  covers lo (l1 ++ g :: l2) hi ->
  owner (l1 ++ g :: l2) e =
    if decide (e < peg_pe g) then owner l1 e
    else if decide (e < peg_pe g + peg_len g) then owner [g] e else owner l2 e.
Proof.
  intros Hc. pose proof Hc as (H1 & Hl & H2)%covers_middle. repeat case_decide.
  - clear Hc H1. induction l1 as [|g1 l1 IH]; cbn.
    + destruct (Z.leb_spec (peg_pe g) e); cbn; [lia|]. apply (owner_out _ _ _ _ H2). lia.
    + by rewrite IH.
  - rewrite owner_app.
    + cbn. destruct (Z.leb_spec (peg_pe g) e), (Z.ltb_spec e (peg_pe g + peg_len g)); cbn; lia || done.
    + apply Forall_forall. intros g' Hg ?. pose proof (covers_elem _ _ _ _ H1 Hg). lia.
  - rewrite owner_app.
    + cbn. destruct (Z.leb_spec (peg_pe g) e), (Z.ltb_spec e (peg_pe g + peg_len g)); cbn; lia || done.
    + apply Forall_forall. intros g' Hg ?. pose proof (covers_elem _ _ _ _ H1 Hg). lia.
Qed.

Lemma alloc_len_range g : 0 < peg_len g -> 0 <= alloc_len g <= peg_len g.
Proof. unfold alloc_len. destruct (peg_lvseg g); lia. Qed.

Lemma alloced_app l1 l2 : alloced (l1 ++ l2) = alloced l1 + alloced l2.
Proof. unfold alloced. by rewrite map_app, zsum_app. Qed.

Lemma alloced_cons g l : alloced (g :: l) = alloc_len g + alloced l.
Proof. reflexivity. Qed.

Lemma alloced_range lo l hi : covers lo l hi -> 0 <= alloced l <= hi - lo.
Proof.
  revert lo. induction l as [|g l IH]; intros lo; cbn [covers]; [cbn; lia|].
  intros (_ & Hl & Hc). apply IH in Hc. rewrite alloced_cons.
  pose proof (alloc_len_range g Hl). lia.
Qed.

(** ** The invariant of a volume group *)

(** PV [p] is [v] and its segment list is [l] (addresses and contents). *)
Definition view (s : store) (p : nat) (v : physical_volume) (l : list (nat * pv_segment)) : Prop :=
  st_pvs s !! p = Some v /\ pv_segments v = l.*1 /\ Forall (fun x => st_pegs s !! x.1 = Some x.2) l.

(** The segments of a PV cover its [n] extents and know their PV; the number of
    allocated extents is up to date. *)
Record segs_ok (p : nat) (n : Z) (v : physical_volume) (l : list (nat * pv_segment)) : Prop := {
  so_nodup : NoDup l.*1;
  so_pv : Forall (fun g => peg_pv g = Some p) l.*2;
  so_covers : covers 0 l.*2 n;
  so_range : n < 2 ^ 32;
  so_alloced : pv_pe_alloc_count v = alloced l.*2 }.

(** An allocated segment belongs to an LV of this VG. *)
Definition owned_by (s : store) (vg : nat) (g : pv_segment) : Prop :=
  forall sg, peg_lvseg g = Some sg ->
    exists x lv, st_segs s !! sg = Some x /\ st_lvs s !! seg_lv x = Some lv /\ lv_vg lv = vg.

Definition pv_ok (s : store) (vg p : nat) (v : physical_volume) (l : list (nat * pv_segment)) : Prop :=
  view s p v l /\ segs_ok p (pv_pe_count v) v l /\ Forall (owned_by s vg) l.*2.

(** A number of the PV at address [p]. *)
Definition pv_num (f : physical_volume -> Z) (s : store) (p : nat) : Z :=
  default 0 (f <$> st_pvs s !! p).

Definition pv_free (v : physical_volume) : Z := pv_pe_count v - pv_pe_alloc_count v.

(** No PV segment has an address not yet handed out. *)
Definition fresh_ok (s : store) : Prop := forall i, (st_next s <= i)%nat -> st_pegs s !! i = None.

Record vg_ok (s : store) (vg : nat) (x : volume_group) : Prop := {
  vo_vg : st_vgs s !! vg = Some x;
  vo_nodup : NoDup (vg_pvs x);
  vo_pvs : forall p, p ∈ vg_pvs x -> exists v l, pv_ok s vg p v l;
  vo_count : vg_pv_count x = Z.of_nat (length (vg_pvs x));
  vo_extents : vg_extent_count x = zsum (map (pv_num pv_pe_count s) (vg_pvs x));
  vo_free : vg_free_count x = zsum (map (pv_num pv_free s) (vg_pvs x));
  vo_range : vg_extent_count x < 2 ^ 32;
  vo_fresh : fresh_ok s }.

(** The store [s'] is [s] with PV [p] and its segments changed to [v'] and [l'],
    and the counts of the VG [x] changed to those of [x']. *)
Record pv_change (s s' : store) (vg : nat) (x' : volume_group) (p : nat) (v' : physical_volume)
    (l' : list (nat * pv_segment)) : Prop := {
  pc_pvs : st_pvs s' = <[p := v']> (st_pvs s);
  pc_vgs : st_vgs s' = <[vg := x']> (st_vgs s);
  pc_segs : st_segs s' = st_segs s;
  pc_lvs : st_lvs s' = st_lvs s;
  pc_pegs : forall i g, st_pegs s !! i = Some g -> peg_pv g <> Some p -> st_pegs s' !! i = Some g;
  pc_view : view s' p v' l';
  pc_fresh : fresh_ok s';
  pc_alloc : st_alloc s' `suffix_of` st_alloc s;
  pc_discards : st_discards s' = st_discards s }.

(** [x'] differs from [x] in its counts only. *)
Definition with_counts (x : volume_group) (extents free : Z) : volume_group :=
  set_vg_extent_count extents (set_vg_free_count free x).

Lemma pv_num_view f s p v l : view s p v l -> pv_num f s p = f v.
Proof. intros [E _]. unfold pv_num. by rewrite E. Qed.

Lemma segs_ok_alloc p n v l : segs_ok p n v l -> 0 <= pv_pe_alloc_count v <= n.
Proof.
  intros H. rewrite (so_alloced _ _ _ _ H).
  pose proof (alloced_range _ _ _ (so_covers _ _ _ _ H)). lia.
Qed.

(** A VG has at least the free and the allocated extents of each of its PVs. *)
Lemma vg_ok_bounds s vg x p v l :
  vg_ok s vg x -> p ∈ vg_pvs x -> pv_ok s vg p v l ->
  0 <= pv_free v <= vg_free_count x /\ 0 <= pv_pe_count v <= vg_extent_count x /\
  vg_free_count x + pv_pe_alloc_count v <= vg_extent_count x /\ 0 <= pv_pe_alloc_count v <= pv_pe_count v.
Proof.
  intros Hvg Hp (Hv & Hs & _).
  assert (forall q, q ∈ vg_pvs x -> 0 <= pv_num pv_pe_alloc_count s q <= pv_num pv_pe_count s q) as Hall.
  { intros q Hq. destruct (vo_pvs _ _ _ Hvg q Hq) as (v' & l' & Hv' & Hs' & _).
    rewrite !(pv_num_view _ _ _ _ _ Hv'). by apply segs_ok_alloc in Hs'. }
  assert (forall q, pv_num pv_pe_count s q = pv_num pv_pe_alloc_count s q + pv_num pv_free s q) as Hsum.
  { intros q. unfold pv_num, pv_free. destruct (st_pvs s !! q); cbn; lia. }
  pose proof (Hall p Hp) as Hap. pose proof (Hsum p) as Hsp.
  rewrite !(pv_num_view _ _ _ _ _ Hv) in Hap. rewrite !(pv_num_view _ _ _ _ _ Hv) in Hsp.
  assert (vg_extent_count x = zsum (map (pv_num pv_pe_alloc_count s) (vg_pvs x)) + vg_free_count x) as He.
  { rewrite (vo_extents _ _ _ Hvg), (vo_free _ _ _ Hvg), <- zsum_add. f_equal. by apply map_ext. }
  pose proof (zsum_elem (pv_num pv_pe_alloc_count s) (vg_pvs x) p Hp) as H1.
  pose proof (zsum_elem (pv_num pv_free s) (vg_pvs x) p Hp) as H2.
  rewrite <- (vo_free _ _ _ Hvg) in H2. rewrite (pv_num_view _ _ _ _ _ Hv) in H1.
  rewrite (pv_num_view _ _ _ _ _ Hv) in H2.
  specialize (H1 ltac:(intros q Hq; apply Hall in Hq; lia)).
  specialize (H2 ltac:(intros q Hq; apply Hall in Hq; specialize (Hsum q); lia)). lia.
Qed.

(** Views of the other PVs survive a change. *)
Lemma pv_change_view s s' vg x' p v' l' q v l :
  pv_change s s' vg x' p v' l' -> q <> p -> pv_ok s vg q v l -> pv_ok s' vg q v l.
Proof.
  intros Hc Hq ((Hv & Hl & Hg) & Hs & Ho). split; [|split; [done|]].
  - split; [by rewrite (pc_pvs _ _ _ _ _ _ _ Hc), lookup_insert_ne|]. split; [done|].
    pose proof (so_pv _ _ _ _ Hs) as Hpv. rewrite Forall_forall in Hg. rewrite Forall_forall in Hpv.
    rewrite Forall_forall.
    intros [i g] Hi. apply (pc_pegs _ _ _ _ _ _ _ Hc); [by apply (Hg (i, g))|].
    rewrite Hpv; [congruence|]. apply list_elem_of_fmap. by exists (i, g).
  - eapply Forall_impl; [exact Ho|]. intros g Hw sg Hsg. destruct (Hw sg Hsg) as (y & lv & ? & ? & ?).
    exists y, lv. by rewrite (pc_segs _ _ _ _ _ _ _ Hc), (pc_lvs _ _ _ _ _ _ _ Hc).
Qed.

(** A change of one PV of a VG keeps the invariant when the new segment list is
    in order and the counts of the VG follow. *)
Lemma vg_ok_change s s' vg x p v l v' l' extents free :
  vg_ok s vg x -> p ∈ vg_pvs x -> view s p v l ->
  pv_change s s' vg (with_counts x extents free) p v' l' ->
  segs_ok p (pv_pe_count v') v' l' -> Forall (owned_by s vg) l'.*2 ->
  extents = vg_extent_count x + (pv_pe_count v' - pv_pe_count v) ->
  free = vg_free_count x + (pv_free v' - pv_free v) ->
  extents < 2 ^ 32 ->
  vg_ok s' vg (with_counts x extents free).
Proof.
  intros Hvg Hp Hv Hc Hs' Ho' He Hf Hr.
  assert (forall f q, q <> p -> pv_num f s' q = pv_num f s q) as Hne.
  { intros f q Hq. unfold pv_num. by rewrite (pc_pvs _ _ _ _ _ _ _ Hc), lookup_insert_ne. }
  pose proof (pc_view _ _ _ _ _ _ _ Hc) as Hv'.
  split; cbn [vg_pvs vg_pv_count vg_extent_count vg_free_count with_counts set_vg_extent_count set_vg_free_count].
  - by rewrite (pc_vgs _ _ _ _ _ _ _ Hc), lookup_insert_eq.
  - apply Hvg.
  - intros q Hq. destruct (decide (q = p)) as [->|Hqp].
    + exists v', l'. split; [done|]. split; [done|].
      eapply Forall_impl; [exact Ho'|]. intros g Hw sg Hsg. destruct (Hw sg Hsg) as (y & lv & ? & ? & ?).
      exists y, lv. by rewrite (pc_segs _ _ _ _ _ _ _ Hc), (pc_lvs _ _ _ _ _ _ _ Hc).
    + destruct (vo_pvs _ _ _ Hvg q Hq) as (w & k & Hw). exists w, k. by eapply pv_change_view.
  - apply Hvg.
  - rewrite (zsum_update (pv_num pv_pe_count s) _ _ p), <- (vo_extents _ _ _ Hvg);
      [|apply Hvg|done|by intros; apply Hne].
    by rewrite (pv_num_view _ _ _ _ _ Hv), (pv_num_view _ _ _ _ _ Hv').
  - rewrite (zsum_update (pv_num pv_free s) _ _ p), <- (vo_free _ _ _ Hvg);
      [|apply Hvg|done|by intros; apply Hne].
    by rewrite (pv_num_view _ _ _ _ _ Hv), (pv_num_view _ _ _ _ _ Hv').
  - done.
  - apply Hc.
Qed.

(** ** Finding and splitting *)

Lemma find_peg_loop_skip s (l : list (nat * pv_segment)) rest pe :
  Forall (fun y => st_pegs s !! y.1 = Some y.2 /\ peg_has y.2 pe = false) l ->
  find_peg_loop (l.*1 ++ rest) pe s = find_peg_loop rest pe s.
Proof.
  induction 1 as [|[i g] l [Hg Hh] _ IH]; [done|]. cbn in Hg, Hh. cbn [fmap list_fmap app find_peg_loop fst].
  mstep. by rewrite Hh.
Qed.

Lemma peg_has_spec g pe :
  0 <= peg_pe g -> 0 < peg_len g -> peg_pe g + peg_len g < 2 ^ 32 ->
  peg_has g pe = bool_decide (peg_pe g <= pe < peg_pe g + peg_len g).
Proof.
  intros. unfold peg_has. rewrite wrap32_small by lia.
  destruct (Z.leb_spec (peg_pe g) pe), (Z.ltb_spec pe (peg_pe g + peg_len g)); cbn;
    case_bool_decide; lia || done.
Qed.

Lemma find_peg_by_pe_spec s p n v l pe :
  view s p v l -> segs_ok p n v l -> 0 <= pe < n ->
  exists l1 i g l2, l = l1 ++ (i, g) :: l2 /\ peg_pe g <= pe < peg_pe g + peg_len g /\
    find_peg_by_pe p pe s = Some (Some i, s).
Proof.
  intros (Hv & Hl & Hg) Hs Hpe. pose proof (so_covers _ _ _ _ Hs) as Hc. pose proof (so_range _ _ _ _ Hs).
  destruct (covers_find _ _ _ pe Hc Hpe) as (k1 & g & k2 & E & Hin).
  apply fmap_app_inv in E as (l1 & [|[i g'] l2] & -> & E2 & ->); [done|]. cbn in E2. injection E2 as Eg Ek. subst g k2.
  exists l1, i, g', l2. cbn in Hin. split; [done|]. split; [done|].
  unfold find_peg_by_pe. mstep. rewrite Hl, fmap_app, fmap_cons, rev_app_distr. cbn [rev fst].
  rewrite <- app_assoc, rev_fmap. apply Forall_app in Hg as [_ Hg]. apply Forall_cons in Hg as [Hg Hg2].
  rewrite fmap_app, fmap_cons in Hc. apply covers_middle in Hc as (Hc1 & Hlen & Hc2). cbn [snd] in *.
  pose proof (covers_le _ _ _ Hc1). pose proof (covers_le _ _ _ Hc2).
  rewrite find_peg_loop_skip.
  - cbn [app find_peg_loop]. mstep. rewrite peg_has_spec, bool_decide_eq_true_2 by lia. done.
  - apply Forall_rev, Forall_forall. intros [j h] Hj. rewrite Forall_forall in Hg2. split; [by apply (Hg2 (j, h))|].
    assert (h ∈ l2.*2) as Hh by (apply list_elem_of_fmap; by exists (j, h)).
    destruct (covers_elem _ _ _ _ Hc2 Hh) as (? & ? & ?). cbn.
    rewrite peg_has_spec, bool_decide_eq_false_2 by lia. done.
Qed.

(** The two halves of a segment cut at [pe]; the second is free. *)
Definition cut_left (g : pv_segment) (pe : Z) : pv_segment := set_peg_len (pe - peg_pe g) g.
Definition cut_right (p : nat) (g : pv_segment) (pe : Z) : pv_segment :=
  PvSegment (Some p) pe (peg_pe g + peg_len g - pe) None 0.

(** Extents a cut frees. *)
Definition cut_freed (g : pv_segment) (pe : Z) : Z :=
  if peg_lvseg g is Some _ then peg_pe g + peg_len g - pe else 0.

Definition with_segs (v : physical_volume) (alloc : Z) (ids : list nat) : physical_volume :=
  set_pv_pe_alloc_count alloc (set_pv_segments ids v).

Lemma insert_after_middle (i j : nat) l1 l2 :
  i ∉ l1 -> insert_after i j (l1 ++ i :: l2) = l1 ++ i :: j :: l2.
Proof.
  induction l1 as [|k l1 IH]; intros Hi; cbn.
  - by rewrite decide_True.
  - rewrite not_elem_of_cons in Hi. rewrite decide_False by naive_solver. f_equal. apply IH. naive_solver.
Qed.

(** Cutting a segment of a covering list. *)
Lemma segs_ok_cut p n v l1 i g l2 j pe ids :
  segs_ok p n v (l1 ++ (i, g) :: l2) -> peg_pe g < pe < peg_pe g + peg_len g ->
  j ∉ (l1 ++ (i, g) :: l2).*1 ->
  segs_ok p n (with_segs v (pv_pe_alloc_count v - cut_freed g pe) ids)
    (l1 ++ (i, cut_left g pe) :: (j, cut_right p g pe) :: l2).
Proof.
  intros [Hnd Hpv Hc Hr Ha] Hpe Hj. rewrite !fmap_app, !fmap_cons in *. cbn [fst snd] in *.
  split.
  - rewrite fmap_app, !fmap_cons. cbn [fst].
    assert (l1.*1 ++ i :: j :: l2.*1 ≡ₚ j :: l1.*1 ++ i :: l2.*1) as -> by solve_Permutation.
    by constructor.
  - rewrite fmap_app, !fmap_cons. cbn [snd].
    apply Forall_app in Hpv as [? [? ?]%Forall_cons]. apply Forall_app. split; [done|].
    by repeat constructor.
  - rewrite fmap_app, !fmap_cons. cbn [snd]. apply covers_middle in Hc as (H1 & Hl & H2).
    apply covers_middle. cbn [cut_left set_peg_len peg_pe peg_len]. split; [done|]. split; [lia|].
    cbn [covers cut_right peg_pe peg_len]. split; [lia|]. split; [lia|].
    replace (peg_pe g + (pe - peg_pe g) + (peg_pe g + peg_len g - pe)) with (peg_pe g + peg_len g) by lia.
    done.
  - done.
  - rewrite fmap_app, !fmap_cons. cbn [snd]. cbn [with_segs set_pv_pe_alloc_count pv_pe_alloc_count].
    rewrite Ha. rewrite !alloced_app, !alloced_cons. unfold alloc_len, cut_freed.
    cbn [cut_left cut_right set_peg_len peg_lvseg peg_len]. destruct (peg_lvseg g); lia.
Qed.

(** A cut frees the extents behind it in the segment and no others. *)
Lemma owner_cut lo hi l1 g l2 p pe e :
  covers lo (l1 ++ g :: l2) hi -> peg_pe g < pe < peg_pe g + peg_len g ->
  owner (l1 ++ cut_left g pe :: cut_right p g pe :: l2) e =
    if decide (pe <= e < peg_pe g + peg_len g) then None else owner (l1 ++ g :: l2) e.
Proof.
  intros Hc Hpe. rewrite (owner_middle _ _ _ _ _ e Hc). pose proof Hc as (H1 & Hl & H2)%covers_middle.
  assert (covers lo (l1 ++ cut_left g pe :: cut_right p g pe :: l2) hi) as Hc'.
  { apply covers_middle. cbn [cut_left set_peg_len peg_pe peg_len covers cut_right].
    split; [done|]. split; [lia|]. split; [lia|]. split; [lia|].
    by replace (peg_pe g + (pe - peg_pe g) + (peg_pe g + peg_len g - pe)) with (peg_pe g + peg_len g) by lia. }
  rewrite (owner_middle _ _ _ _ _ e Hc'). cbn [cut_left set_peg_len peg_pe peg_len peg_lvseg peg_lv_area owner].
  cbn [cut_right peg_pe peg_len peg_lvseg].
  repeat case_decide; try lia; try done;
    repeat match goal with
    | |- context [?a <=? ?b] => destruct (Z.leb_spec a b); try lia
    | |- context [?a <? ?b] => destruct (Z.ltb_spec a b); try lia
    end; done.
Qed.

Lemma with_counts_same x : with_counts x (vg_extent_count x) (vg_free_count x) = x.
Proof. by destruct x. Qed.

Lemma seg_vg_exec s vg g sg :
  owned_by s vg g -> peg_lvseg g = Some sg -> seg_vg sg s = Some (vg, s).
Proof.
  intros Ho Hg. destruct (Ho sg Hg) as (y & lv & Hy & Hlv & <-). unfold seg_vg. by do 2 mstep.
Qed.

(** The views after a cut. *)
Lemma view_cut s p v l1 i g l2 pe pegs' v' :
  view s p v (l1 ++ (i, g) :: l2) -> NoDup (l1 ++ (i, g) :: l2).*1 -> fresh_ok s ->
  pegs' = <[i := cut_left g pe]> (<[st_next s := cut_right p g pe]> (st_pegs s)) ->
  pv_segments v' = (l1 ++ (i, cut_left g pe) :: (st_next s, cut_right p g pe) :: l2).*1 ->
  forall s', st_pvs s' = <[p := v']> (st_pvs s) -> st_pegs s' = pegs' ->
  view s' p v' (l1 ++ (i, cut_left g pe) :: (st_next s, cut_right p g pe) :: l2).
Proof.
  intros (Hv & Hl & Hg) Hnd Hf -> Hl' s' Hpvs Hpegs.
  split; [by rewrite Hpvs, lookup_insert_eq|]. split; [done|]. rewrite Hpegs.
  assert (forall j h, (j, h) ∈ l1 ++ (i, g) :: l2 -> j <> st_next s) as Hold.
  { intros j h Hj ->. rewrite Forall_forall in Hg. specialize (Hg _ Hj). cbn in Hg. by rewrite Hf in Hg. }
  rewrite fmap_app, fmap_cons in Hnd. apply NoDup_app in Hnd as (_ & Hd & [Hi _]%NoDup_cons). cbn in Hd, Hi.
  apply Forall_app in Hg as [Hg1 Hg2]. apply Forall_cons in Hg2 as [Hgi Hg2].
  assert (forall k, k ⊆ l1 ++ (i, g) :: l2 -> i ∉ k.*1 ->
    Forall (fun x : nat * pv_segment => st_pegs s !! x.1 = Some x.2) k ->
    Forall (fun x => <[i := cut_left g pe]> (<[st_next s := cut_right p g pe]> (st_pegs s)) !! x.1 = Some x.2) k)
    as Hkeep.
  { intros k Hk Hik Hfk. rewrite Forall_forall in Hfk |- *. intros [j h] Hj. cbn.
    rewrite !lookup_insert_ne; [by apply (Hfk (j, h))|..].
    - intros <-. by apply (Hold (st_next s) h (Hk _ Hj)).
    - intros <-. apply Hik, list_elem_of_fmap. by exists (i, h). }
  apply Forall_app. split; [|apply Forall_cons; split; [|apply Forall_cons; split]].
  - apply Hkeep; [set_solver| |done]. intros Hi1. apply (Hd i Hi1). constructor.
  - cbn. by rewrite lookup_insert_eq.
  - cbn. rewrite lookup_insert_ne, lookup_insert_eq; [done|]. apply (Hold i g). set_solver.
  - apply Hkeep; [set_solver|done|done].
Qed.

Lemma pv_change_cut s s' vg x' p v v' l1 i g l2 pe :
  view s p v (l1 ++ (i, g) :: l2) -> NoDup (l1 ++ (i, g) :: l2).*1 -> peg_pv g = Some p -> fresh_ok s ->
  let l' := l1 ++ (i, cut_left g pe) :: (st_next s, cut_right p g pe) :: l2 in
  pv_segments v' = l'.*1 ->
  st_pegs s' = <[i := cut_left g pe]> (<[st_next s := cut_right p g pe]> (st_pegs s)) ->
  st_pvs s' = <[p := v']> (st_pvs s) -> st_vgs s' = <[vg := x']> (st_vgs s) ->
  st_segs s' = st_segs s -> st_lvs s' = st_lvs s -> st_next s' = S (st_next s) ->
  st_alloc s' = tail (st_alloc s) -> st_discards s' = st_discards s ->
  pv_change s s' vg x' p v' l'.
Proof.
  intros Hview Hnd Hgp Hf l' Hl' Hpegs Hpvs Hvgs Hsegs Hlvs Hnext Halloc Hdisc.
  assert (st_pegs s !! i = Some g) as Hi.
  { destruct Hview as (_ & _ & Hg). rewrite Forall_forall in Hg. apply (Hg (i, g)). set_solver. }
  assert (i <> st_next s) as Hin by (intros ->; by rewrite Hf in Hi).
  split; [done..| | | | |done].
  - intros j h Hj Hh. rewrite Hpegs, !lookup_insert_ne; [done| |].
    + intros <-. by rewrite Hf in Hj.
    + intros <-. congruence.
  - by eapply view_cut.
  - intros j Hj. rewrite Hnext in Hj. rewrite Hpegs, !lookup_insert_ne; [apply Hf|..]; try lia.
    intros <-. rewrite Hf in Hi; [done|lia].
  - rewrite Halloc. apply suffix_tail.
Qed.

Lemma split_at_spec s vg x p n v l1 i g l2 pe :
  view s p v (l1 ++ (i, g) :: l2) -> segs_ok p n v (l1 ++ (i, g) :: l2) -> fresh_ok s ->
  st_vgs s !! vg = Some x -> owned_by s vg g -> peg_pe g < pe < peg_pe g + peg_len g ->
  0 <= vg_free_count x -> vg_free_count x + cut_freed g pe < 2 ^ 32 ->
  let l' := l1 ++ (i, cut_left g pe) :: (st_next s, cut_right p g pe) :: l2 in
  let v' := with_segs v (pv_pe_alloc_count v - cut_freed g pe) l'.*1 in
  if alloc_ok s
  then exists s', pv_split_segment_at p i pe s = Some (Some (st_next s), s') /\
         pv_change s s' vg (with_counts x (vg_extent_count x) (vg_free_count x + cut_freed g pe)) p v' l'
  else pv_split_segment_at p i pe s = Some (None, alloc_tick s).
Proof.
  intros Hview Hs Hf Hvg Ho Hpe Hx0 Hx l' v'.
  pose proof Hview as (Hv & Hl & Hg). pose proof (so_covers _ _ _ _ Hs) as Hc.
  rewrite fmap_app, fmap_cons in Hc. apply covers_middle in Hc as (Hc1 & Hlen & Hc2). cbn [snd] in *.
  pose proof (covers_le _ _ _ Hc1). pose proof (covers_le _ _ _ Hc2). pose proof (so_range _ _ _ _ Hs).
  assert (st_pegs s !! i = Some g) as Hi.
  { rewrite Forall_forall in Hg. apply (Hg (i, g)). set_solver. }
  assert (peg_pv g = Some p) as Hgp.
  { pose proof (so_pv _ _ _ _ Hs) as Hpv. rewrite Forall_forall in Hpv. apply Hpv, list_elem_of_fmap.
    exists (i, g). set_solver. }
  assert (i <> st_next s) as Hin by (intros ->; by rewrite Hf in Hi).
  assert (wrap32 (peg_len g + peg_pe g - pe) = peg_pe g + peg_len g - pe) as Hw
    by (rewrite wrap32_small; lia).
  unfold pv_split_segment_at. mstep. rewrite Hw, Hgp. unfold alloc_pv_segment.
  destruct (alloc_ok s) eqn:Ea; [|by rewrite bind_alloc_peg_fail].
  rewrite bind_alloc_peg by done. do 3 mstep. rewrite Hl.
  assert (insert_after i (st_next s) (l1 ++ (i, g) :: l2).*1 = l'.*1) as ->.
  { subst l'. rewrite !fmap_app, !fmap_cons. apply insert_after_middle.
    pose proof (so_nodup _ _ _ _ Hs) as Hnd. rewrite fmap_app, fmap_cons in Hnd.
    apply NoDup_app in Hnd as (_ & Hd & _). intros Hi1. apply (Hd i Hi1). constructor. }
  cbn [peg_len]. pose proof (segs_ok_alloc _ _ _ _ Hs) as Hal.
  assert (cut_freed g pe <= pv_pe_alloc_count v) as Hcf.
  { rewrite (so_alloced _ _ _ _ Hs), fmap_app, fmap_cons, alloced_app, alloced_cons. cbn [snd].
    pose proof (alloced_range _ _ _ Hc1). pose proof (alloced_range _ _ _ Hc2).
    unfold cut_freed, alloc_len. destruct (peg_lvseg g); lia. }
  destruct (peg_lvseg g) as [sg|] eqn:Esg.
  - assert (cut_freed g pe = peg_pe g + peg_len g - pe) as Ecf by (unfold cut_freed; by rewrite Esg).
    cbn [deref]. do 4 mstep. rewrite ?bind_assoc. erewrite bind_exec by (eapply seg_vg_exec; [exact Ho|done]).
    mstep. eexists. split; [reflexivity|].
    assert (wrap32 (pv_pe_alloc_count v - (peg_pe g + peg_len g - pe)) =
            pv_pe_alloc_count v - cut_freed g pe) as Hwa by (rewrite wrap32_small; lia).
    assert (wrap32 (vg_free_count x + (peg_pe g + peg_len g - pe)) = vg_free_count x + cut_freed g pe) as Hwf
      by (rewrite wrap32_small; lia).
    assert (wrap32 (peg_len g - (peg_pe g + peg_len g - pe)) = pe - peg_pe g) as Hwl
      by (rewrite wrap32_small; lia).
    eapply (pv_change_cut s _ vg _ p v _ l1 i g l2 pe); [done|apply Hs|done|done|reflexivity|..];
      cbn; rewrite ?Hwl, ?Hwa, ?Hwf; try reflexivity.
    by rewrite insert_insert_eq.
  - assert (cut_freed g pe = 0) as Ecf by (unfold cut_freed; by rewrite Esg).
    mstep. eexists. split; [reflexivity|].
    assert (wrap32 (peg_len g - (peg_pe g + peg_len g - pe)) = pe - peg_pe g) as Hwl
      by (rewrite wrap32_small; lia).
    eapply (pv_change_cut s _ vg _ p v _ l1 i g l2 pe); [done|apply Hs|done|done|reflexivity|..];
      cbn; rewrite ?Hwl; try reflexivity.
    + subst v'. rewrite Ecf, Z.sub_0_r. by destruct v.
    + rewrite Ecf, Z.add_0_r, with_counts_same. by rewrite insert_id.
Qed.

(** What a successful split does to the list: nothing when there is a boundary
    already, else one segment is cut. *)
Inductive split_list (p : nat) (pe : Z) (fresh : nat) :
    list (nat * pv_segment) -> list (nat * pv_segment) -> nat -> Z -> Prop :=
  | SplitBoundary l1 i g l2 :
      peg_pe g = pe ->
      split_list p pe fresh (l1 ++ (i, g) :: l2) (l1 ++ (i, g) :: l2) i 0
  | SplitCut l1 i g l2 :
      peg_pe g < pe < peg_pe g + peg_len g ->
      split_list p pe fresh (l1 ++ (i, g) :: l2)
        (l1 ++ (i, cut_left g pe) :: (fresh, cut_right p g pe) :: l2) fresh (cut_freed g pe).

Lemma cut_freed_range v p n l1 i g l2 pe :
  segs_ok p n v (l1 ++ (i, g) :: l2) -> peg_pe g < pe < peg_pe g + peg_len g ->
  0 <= cut_freed g pe <= pv_pe_alloc_count v.
Proof.
  intros Hs Hpe. rewrite (so_alloced _ _ _ _ Hs), fmap_app, fmap_cons, alloced_app, alloced_cons.
  pose proof (so_covers _ _ _ _ Hs) as Hc. rewrite fmap_app, fmap_cons in Hc.
  apply covers_middle in Hc as (Hc1 & Hl & Hc2). cbn [snd] in *.
  pose proof (alloced_range _ _ _ Hc1). pose proof (alloced_range _ _ _ Hc2).
  unfold cut_freed, alloc_len. destruct (peg_lvseg g); lia.
Qed.

Lemma view_alloc_tick s p v l : view s p v l -> view (alloc_tick s) p v l.
Proof. done. Qed.

Lemma view_elem s p v l i g : view s p v l -> (i, g) ∈ l -> st_pegs s !! i = Some g.
Proof. intros (_ & _ & Hg) Hi. rewrite Forall_forall in Hg. by apply (Hg (i, g)). Qed.

(** Facts every use of a split needs about the state before it. *)
Record split_pre (s : store) (vg : nat) (x : volume_group) (p : nat) (n : Z) (v : physical_volume)
    (l : list (nat * pv_segment)) : Prop := {
  sp_view : view s p v l;
  sp_segs : segs_ok p n v l;
  sp_fresh : fresh_ok s;
  sp_vg : st_vgs s !! vg = Some x;
  sp_owned : Forall (owned_by s vg) l.*2;
  sp_free : 0 <= vg_free_count x /\ vg_free_count x + pv_pe_alloc_count v < 2 ^ 32 }.

Lemma vg_ok_split_pre s vg x p :
  vg_ok s vg x -> p ∈ vg_pvs x -> exists v l, pv_ok s vg p v l /\ split_pre s vg x p (pv_pe_count v) v l.
Proof.
  intros Hvg Hp. destruct (vo_pvs _ _ _ Hvg p Hp) as (v & l & Hok). exists v, l. split; [done|].
  pose proof (vg_ok_bounds _ _ _ _ _ _ Hvg Hp Hok) as Hb. pose proof (vo_range _ _ _ Hvg).
  destruct Hok as (Hv & Hs & Ho). split; [done|done|apply Hvg|apply Hvg|done|lia].
Qed.

Lemma split_list_nodup p n v l l' j pe f fr ids :
  segs_ok p n v l -> split_list p pe f l l' j fr -> f ∉ l.*1 ->
  segs_ok p n (with_segs v (pv_pe_alloc_count v - fr) ids) l'.
Proof.
  intros Hs Hsp Hf. destruct Hsp as [l1 i g l2 Hpe|l1 i g l2 Hpe].
  - rewrite Z.sub_0_r. destruct Hs as [? ? ? ? ?]. by split.
  - by apply segs_ok_cut.
Qed.

Lemma split_pre_fresh s vg x p n v l : split_pre s vg x p n v l -> st_next s ∉ l.*1.
Proof.
  intros Hp ([i g] & E & Hi)%list_elem_of_fmap. cbn in E. subst i.
  pose proof (view_elem _ _ _ _ _ _ (sp_view _ _ _ _ _ _ _ Hp) Hi) as Hl.
  by rewrite (sp_fresh _ _ _ _ _ _ _ Hp) in Hl.
Qed.

Lemma with_segs_same v : with_segs v (pv_pe_alloc_count v) (pv_segments v) = v.
Proof. by destruct v. Qed.

Lemma pv_change_refl s vg x p v l :
  view s p v l -> st_vgs s !! vg = Some x -> fresh_ok s -> pv_change s s vg x p v l.
Proof.
  intros Hv Hx Hf. split; try done.
  - symmetry. apply insert_id, Hv.
  - symmetry. by apply insert_id.
Qed.

(** [pv_split_segment] inside the PV. *)
Lemma pv_split_segment_spec s vg x p n v l pe :
  split_pre s vg x p n v l -> 0 <= pe < n -> pe <> pv_pe_count v ->
  (exists s' l' j fr, pv_split_segment p pe s = Some ((true, Some j), s') /\
     split_list p pe (st_next s) l l' j fr /\ 0 <= fr <= pv_pe_alloc_count v /\
     pv_change s s' vg (with_counts x (vg_extent_count x) (vg_free_count x + fr)) p
       (with_segs v (pv_pe_alloc_count v - fr) l'.*1) l') \/
  (pv_split_segment p pe s = Some ((false, None), alloc_tick s) /\ alloc_ok s = false).
Proof.
  intros Hp Hpe Hne. pose proof Hp as [Hview Hs Hf Hvg Ho Hfree]. pose proof (segs_ok_alloc _ _ _ _ Hs).
  destruct (find_peg_by_pe_spec s p n v l pe Hview Hs Hpe) as (l1 & i & g & l2 & -> & Hin & Hfind).
  pose proof (view_elem _ _ _ _ i g Hview ltac:(set_solver)) as Hi.
  unfold pv_split_segment. pose proof (proj1 Hview) as Hv. mstep.
  rewrite (proj2 (Z.eqb_neq _ _)) by done. erewrite bind_exec by exact Hfind. cbn beta iota. mstep.
  destruct (Z.eqb_spec pe (peg_pe g)) as [->|Hb].
  - left. exists s, (l1 ++ (i, g) :: l2), i, 0. split; [done|]. split; [by apply SplitBoundary|]. split; [lia|].
    rewrite Z.sub_0_r, Z.add_0_r, with_counts_same, <- (proj1 (proj2 Hview)), with_segs_same.
    by apply pv_change_refl.
  - assert (peg_pe g < pe < peg_pe g + peg_len g) as Hin' by lia.
    pose proof (cut_freed_range _ _ _ _ _ _ _ _ Hs Hin') as Hcf.
    assert (owned_by s vg g) as Hog.
    { rewrite Forall_forall in Ho. apply Ho, list_elem_of_fmap. exists (i, g). set_solver. }
    pose proof (split_at_spec s vg x p n v l1 i g l2 pe Hview Hs Hf Hvg Hog Hin' ltac:(lia) ltac:(lia)) as Hsp.
    cbn zeta in Hsp. destruct (alloc_ok s) eqn:Ea.
    + destruct Hsp as (s' & Hsp & Hc). erewrite bind_exec by exact Hsp. left.
      eexists s', _, _, _. split; [reflexivity|]. split; [by apply SplitCut|]. split; [done|exact Hc].
    + erewrite bind_exec by exact Hsp. by right.
Qed.

(** Two segments of a covering list are the same one or do not overlap. *)
Lemma covers_disjoint lo (l : list (nat * pv_segment)) hi a i g b a' i' g' b' :
  covers lo l.*2 hi -> l = a ++ (i, g) :: b -> l = a' ++ (i', g') :: b' ->
  (a = a' /\ i = i' /\ g = g' /\ b = b') \/
  peg_pe g + peg_len g <= peg_pe g' \/ peg_pe g' + peg_len g' <= peg_pe g.
Proof.
  revert lo l a'. induction a as [|[k h] a IH]; intros lo l a' Hc -> E'.
  - destruct a' as [|[k' h'] a']; [left; naive_solver|]. right. left.
    injection E' as <- <- ->. cbn in Hc. destruct Hc as (<- & _ & Hc).
    rewrite fmap_app, fmap_cons in Hc. apply covers_middle in Hc as (Hc & _).
    apply covers_le in Hc. done.
  - destruct a' as [|[k' h'] a'].
    + right. right. injection E' as <- <- <-. cbn in Hc. destruct Hc as (<- & _ & Hc).
      rewrite fmap_app, fmap_cons in Hc. apply covers_middle in Hc as (Hc & _).
      apply covers_le in Hc. done.
    + injection E' as <- <- E'. cbn in Hc. destruct Hc as (_ & _ & Hc).
      destruct (IH _ _ a' Hc eq_refl E') as [(-> & ?)|?]; [left; naive_solver|by right].
Qed.

Lemma with_segs_twice v a1 ids1 a2 ids2 : with_segs (with_segs v a1 ids1) a2 ids2 = with_segs v a2 ids2.
Proof. done. Qed.

Lemma with_counts_twice x e1 f1 e2 f2 : with_counts (with_counts x e1 f1) e2 f2 = with_counts x e2 f2.
Proof. done. Qed.

Lemma pv_change_trans s s1 s2 vg x1 x2 p v1 v2 l1 l2 :
  pv_change s s1 vg x1 p v1 l1 -> pv_change s1 s2 vg x2 p v2 l2 -> pv_change s s2 vg x2 p v2 l2.
Proof.
  intros [E1 E2 E3 E4 E5 _ _ E8 E9] [F1 F2 F3 F4 F5 F6 F7 F8 F9].
  split; [| |congruence|congruence|auto|done|done|by etrans|congruence].
  - by rewrite F1, E1, insert_insert_eq.
  - by rewrite F2, E2, insert_insert_eq.
Qed.

(** [e] is the end of a free segment. *)
Definition free_end (l : list pv_segment) (e : Z) : Prop :=
  exists h, h ∈ l /\ peg_lvseg h = None /\ peg_pe h + peg_len h = e.

(** What is in use stays as it is. *)
Definition keeps_used (l l' : list (nat * pv_segment)) : Prop := forall q, q ∈ l -> peg_lvseg q.2 <> None -> q ∈ l'.

Lemma keeps_used_refl l : keeps_used l l.
Proof. by intros q. Qed.

Lemma free_end_mono l l' e : (forall h, h ∈ l -> h ∈ l') -> free_end l e -> free_end l' e.
Proof. intros Hl (h & Hh & H). exists h. split; [by apply Hl|done]. Qed.

(** Splitting inside a free segment moves no extent and makes the rest of the
    segment a free segment that starts at the split. *)
Lemma split_list_free p n v l l' j f fr pe l1 i g l2 :
  segs_ok p n v l -> split_list p pe f l l' j fr -> l = l1 ++ (i, g) :: l2 ->
  peg_pe g <= pe < peg_pe g + peg_len g -> peg_lvseg g = None ->
  fr = 0 /\ (forall e, owner l'.*2 e = owner l.*2 e) /\
  (exists k1 h k2, l' = k1 ++ (j, h) :: k2 /\ peg_pe h = pe /\ peg_lvseg h = None /\
    peg_pe h + peg_len h = peg_pe g + peg_len g) /\
  (forall e, free_end l'.*2 e -> e = pe \/ free_end l.*2 e) /\ keeps_used l l'.
Proof.
  intros Hs Hsp E Hpe Hfree. pose proof (so_covers _ _ _ _ Hs) as Hc.
  assert (forall a i' g' b, l = a ++ (i', g') :: b -> 0 < peg_len g') as Hlen.
  { intros a i' g' b ->. rewrite fmap_app, fmap_cons in Hc. by apply covers_middle in Hc as (_ & ? & _). }
  destruct Hsp as [a i' g' b Hb|a i' g' b Hb].
  - pose proof (Hlen _ _ _ _ eq_refl).
    destruct (covers_disjoint _ _ _ _ _ _ _ _ _ _ _ Hc E eq_refl) as [(-> & -> & -> & ->)|?]; [|lia].
    split; [done|]. split; [done|]. split; [by exists a, g', b|]. split; [by right|apply keeps_used_refl].
  - destruct (covers_disjoint _ _ _ _ _ _ _ _ _ _ _ Hc E eq_refl) as [(-> & -> & -> & ->)|?]; [|lia].
    split; [unfold cut_freed; by rewrite Hfree|]. split; [|split; [|split]].
    + intros e. rewrite !fmap_app, !fmap_cons. cbn [snd]. rewrite fmap_app, fmap_cons in Hc. cbn [snd] in Hc.
      rewrite (owner_cut _ _ _ _ _ _ _ _ Hc Hb). case_decide as He; [|done].
      rewrite (owner_middle _ _ _ _ _ e Hc), decide_False, decide_True by lia. cbn.
      rewrite Hfree. by destruct (_ && _).
    + exists (a ++ [(i', cut_left g' pe)]), (cut_right p g' pe), b.
      split; [by rewrite <- app_assoc|]. repeat split. cbn. lia.
    + intros e (h & Hh & Hn & <-). rewrite !fmap_app, !fmap_cons in Hh |- *. cbn [snd] in *.
      apply elem_of_app in Hh as [Hh|[->|[->|Hh]%elem_of_cons]%elem_of_cons].
      * right. exists h. set_solver.
      * left. cbn. lia.
      * right. exists g'. split; [set_solver|]. split; [done|]. cbn. lia.
      * right. exists h. set_solver.
    + intros q Hq Hu. apply elem_of_app in Hq as [?|[->|?]%elem_of_cons]; [set_solver|by cbn in Hu|set_solver].
Qed.

(** The second split of [assign_peg_to_lvseg], at the end of the area, leaves the
    segment with the extents of the area and no others. *)
Lemma split_list_end p n v l l' j f fr len k1 i h k2 :
  segs_ok p n v l -> split_list p (peg_pe h + len) f l l' j fr -> l = k1 ++ (i, h) :: k2 ->
  0 < len <= peg_len h -> peg_lvseg h = None ->
  fr = 0 /\ (forall e, owner l'.*2 e = owner l.*2 e) /\
  exists h' k2', l' = k1 ++ (i, h') :: k2' /\ peg_pe h' = peg_pe h /\ peg_lvseg h' = None /\ peg_len h' = len /\
    (forall e, free_end (k1 ++ k2').*2 e -> free_end l.*2 e) /\ keeps_used l l'.
Proof.
  intros Hs Hsp E Hlen Hfree. pose proof (so_covers _ _ _ _ Hs) as Hc.
  remember (peg_pe h + len) as q eqn:Eq. destruct Hsp as [a i' g' b Hb|a i' g' b Hb].
  - split; [done|]. split; [done|]. exists h, k2. split; [done|]. split; [done|]. split; [done|]. split.
    + destruct (covers_disjoint _ _ _ _ _ _ _ _ _ _ _ Hc E eq_refl) as [(-> & -> & -> & ->)|?]; [lia|].
      rewrite fmap_app, fmap_cons in Hc. apply covers_middle in Hc as (_ & ? & _). cbn in *. lia.
    + split; [|apply keeps_used_refl]. intros e. rewrite E. apply free_end_mono. rewrite !fmap_app, fmap_cons. set_solver.
  - destruct (covers_disjoint _ _ _ _ _ _ _ _ _ _ _ Hc E eq_refl) as [(-> & -> & -> & ->)|?]; [|lia].
    split; [unfold cut_freed; by rewrite Hfree|]. split.
    + intros e. rewrite !fmap_app, !fmap_cons. cbn [snd]. rewrite fmap_app, fmap_cons in Hc. cbn [snd] in Hc.
      rewrite (owner_cut _ _ _ _ _ _ _ _ Hc Hb). case_decide as He; [|done].
      rewrite (owner_middle _ _ _ _ _ e Hc), decide_False, decide_True by lia. cbn.
      rewrite Hfree. by destruct (_ && _).
    + eexists _, _. split; [reflexivity|]. split; [done|]. split; [done|]. split; [cbn; lia|]. split.
      * intros e (h & Hh & Hn & <-). rewrite !fmap_app, !fmap_cons in Hh |- *. cbn [snd] in *.
        apply elem_of_app in Hh as [Hh|[->|Hh]%elem_of_cons]; [exists h; set_solver| |exists h; set_solver].
        exists g'. split; [set_solver|]. split; [done|]. cbn. lia.
      * intros q0 Hq Hu. apply elem_of_app in Hq as [?|[->|?]%elem_of_cons]; [set_solver|by cbn in Hu|set_solver].
Qed.

(** A split strictly inside a segment cuts this segment. *)
Lemma split_list_inside p n v l l' j f fr pe l1 i g l2 :
  segs_ok p n v l -> split_list p pe f l l' j fr -> l = l1 ++ (i, g) :: l2 ->
  peg_pe g < pe < peg_pe g + peg_len g ->
  l' = l1 ++ (i, cut_left g pe) :: (f, cut_right p g pe) :: l2 /\ fr = cut_freed g pe.
Proof.
  intros Hs Hsp E Hpe. pose proof (so_covers _ _ _ _ Hs) as Hc. destruct Hsp as [a i' g' b Hb|a i' g' b Hb].
  - destruct (covers_disjoint _ _ _ _ _ _ _ _ _ _ _ Hc E eq_refl) as [(-> & -> & -> & ->)|?]; [lia|].
    rewrite fmap_app, fmap_cons in Hc. apply covers_middle in Hc as (_ & ? & _). cbn in *. lia.
  - by destruct (covers_disjoint _ _ _ _ _ _ _ _ _ _ _ Hc E eq_refl) as [(-> & -> & -> & ->)|?]; [|lia].
Qed.

Lemma owned_by_change s s' vg w x' p v' l' g :
  pv_change s s' vg x' p v' l' -> owned_by s w g -> owned_by s' w g.
Proof.
  intros Hc Ho sg Hsg. destruct (Ho sg Hsg) as (y & lv & ? & ? & ?). exists y, lv.
  by rewrite (pc_segs _ _ _ _ _ _ _ Hc), (pc_lvs _ _ _ _ _ _ _ Hc).
Qed.

Lemma split_list_owned s vg p pe f l l' j fr :
  split_list p pe f l l' j fr -> Forall (owned_by s vg) l.*2 -> Forall (owned_by s vg) l'.*2.
Proof.
  intros [l1 i g l2 _|l1 i g l2 _]; [done|]. rewrite !fmap_app, !fmap_cons. cbn [snd].
  intros [H1 [Hg H2]%Forall_cons]%Forall_app. apply Forall_app. split; [done|].
  constructor; [exact Hg|]. constructor; [by intros ?|done].
Qed.

Lemma split_pre_split s s' vg x p n v l pe l' j fr :
  split_pre s vg x p n v l -> split_list p pe (st_next s) l l' j fr -> 0 <= fr <= pv_pe_alloc_count v ->
  pv_change s s' vg (with_counts x (vg_extent_count x) (vg_free_count x + fr)) p
    (with_segs v (pv_pe_alloc_count v - fr) l'.*1) l' ->
  split_pre s' vg (with_counts x (vg_extent_count x) (vg_free_count x + fr)) p n
    (with_segs v (pv_pe_alloc_count v - fr) l'.*1) l'.
Proof.
  intros Hp Hsp Hfr Hc. pose proof Hp as [Hview Hs Hf Hvg Ho Hfree]. split.
  - apply Hc.
  - eapply split_list_nodup; [done..|]. by eapply split_pre_fresh.
  - apply Hc.
  - by rewrite (pc_vgs _ _ _ _ _ _ _ Hc), lookup_insert_eq.
  - eapply Forall_impl; [by eapply split_list_owned|]. intros g. by eapply owned_by_change.
  - cbn. lia.
Qed.

(** A segment handed to an LV segment. *)
Lemma view_set_owner s p v k1 j h k2 h' v' s' :
  view s p v (k1 ++ (j, h) :: k2) -> NoDup (k1 ++ (j, h) :: k2).*1 ->
  pv_segments v' = pv_segments v ->
  st_pvs s' = <[p := v']> (st_pvs s) -> st_pegs s' = <[j := h']> (st_pegs s) ->
  view s' p v' (k1 ++ (j, h') :: k2).
Proof.
  intros (Hv & Hl & Hg) Hnd Hv' Hpvs Hpegs. split; [by rewrite Hpvs, lookup_insert_eq|].
  split; [rewrite Hv', Hl, !fmap_app, !fmap_cons; done|]. rewrite Hpegs.
  rewrite fmap_app, fmap_cons in Hnd. apply NoDup_app in Hnd as (_ & Hd & [Hi _]%NoDup_cons). cbn in Hd, Hi.
  apply Forall_app in Hg as [Hg1 [Hgi Hg2]%Forall_cons].
  apply Forall_app. split; [|apply Forall_cons; split].
  - rewrite Forall_forall in Hg1 |- *. intros [m y] Hm. cbn. rewrite lookup_insert_ne; [by apply (Hg1 (m, y))|].
    intros <-. apply (Hd j); [|constructor]. apply list_elem_of_fmap. by exists (j, y).
  - cbn. by rewrite lookup_insert_eq.
  - rewrite Forall_forall in Hg2 |- *. intros [m y] Hm. cbn. rewrite lookup_insert_ne; [by apply (Hg2 (m, y))|].
    intros <-. apply Hi, list_elem_of_fmap. by exists (j, y).
Qed.

Lemma fresh_ok_update s j h s' :
  fresh_ok s -> st_pegs s !! j = Some h -> forall h', st_pegs s' = <[j := h']> (st_pegs s) ->
  st_next s' = st_next s -> fresh_ok s'.
Proof.
  intros Hf Hj h' Hp Hn m Hm. rewrite Hn in Hm. rewrite Hp, lookup_insert_ne; [by apply Hf|].
  intros <-. by rewrite Hf in Hj.
Qed.

(** Changing the owner of one segment, with the counts that go with it. *)
Lemma pv_change_owner s s' vg x' p v v' k1 j h k2 h' :
  view s p v (k1 ++ (j, h) :: k2) -> NoDup (k1 ++ (j, h) :: k2).*1 -> peg_pv h = Some p -> fresh_ok s ->
  pv_segments v' = pv_segments v ->
  st_pegs s' = <[j := h']> (st_pegs s) -> st_pvs s' = <[p := v']> (st_pvs s) ->
  st_vgs s' = <[vg := x']> (st_vgs s) -> st_segs s' = st_segs s -> st_lvs s' = st_lvs s ->
  st_next s' = st_next s -> st_alloc s' = st_alloc s -> st_discards s' = st_discards s ->
  pv_change s s' vg x' p v' (k1 ++ (j, h') :: k2).
Proof.
  intros Hview Hnd Hhp Hf Hv' Hpegs Hpvs Hvgs Hsegs Hlvs Hnext Halloc Hdisc.
  pose proof (view_elem _ _ _ _ j h Hview ltac:(set_solver)) as Hj.
  split; [done..| | | |by rewrite Halloc|done].
  - intros m y Hm Hy. rewrite Hpegs, lookup_insert_ne; [done|]. intros <-. congruence.
  - by eapply view_set_owner.
  - by eapply fresh_ok_update.
Qed.

Lemma segs_ok_owner p n v v' k1 j h k2 o a d :
  segs_ok p n v (k1 ++ (j, h) :: k2) ->
  d = alloc_len (set_peg_owner o a h) - alloc_len h -> pv_pe_alloc_count v' = pv_pe_alloc_count v + d ->
  segs_ok p n v' (k1 ++ (j, set_peg_owner o a h) :: k2).
Proof.
  intros [Hnd Hpv Hc Hr Ha] Hd Hv'. rewrite !fmap_app, !fmap_cons in *. cbn [fst snd] in *.
  split; rewrite ?fmap_app, ?fmap_cons; cbn [fst snd]; [done| | |done|].
  - apply Forall_app in Hpv as [? [? ?]%Forall_cons]. apply Forall_app. split; [done|]. by constructor.
  - apply covers_middle in Hc. by apply covers_middle.
  - rewrite Hv', Ha, !alloced_app, !alloced_cons. lia.
Qed.

(** An oracle that grants every allocation. *)
Definition no_oom (s : store) : Prop := false ∉ st_alloc s.

Lemma no_oom_ok s : no_oom s -> alloc_ok s = true.
Proof. unfold no_oom, alloc_ok. destruct (st_alloc s) as [|[] ?]; [done..|]. set_solver. Qed.

Lemma no_oom_suffix s s' : no_oom s -> st_alloc s' `suffix_of` st_alloc s -> no_oom s'.
Proof. unfold no_oom. intros H [k E]. rewrite E in H. set_solver. Qed.

(** A split of a free segment, as the change it makes. *)
Lemma split_free_spec s vg x p v l pe l1 i g l2 :
  split_pre s vg x p (pv_pe_count v) v l -> l = l1 ++ (i, g) :: l2 -> peg_lvseg g = None ->
  peg_pe g <= pe < peg_pe g + peg_len g ->
  (exists s' j k1 h k2, pv_split_segment p pe s = Some ((true, Some j), s') /\
     let l' := k1 ++ (j, h) :: k2 in
     let v' := with_segs v (pv_pe_alloc_count v) l'.*1 in
     pv_change s s' vg x p v' l' /\ split_pre s' vg x p (pv_pe_count v) v' l' /\
     (forall e, owner l'.*2 e = owner l.*2 e) /\
     peg_pe h = pe /\ peg_lvseg h = None /\ peg_pe h + peg_len h = peg_pe g + peg_len g /\
     (forall e, free_end l'.*2 e -> e = pe \/ free_end l.*2 e) /\ keeps_used l l') \/
  (pv_split_segment p pe s = Some ((false, None), alloc_tick s) /\ alloc_ok s = false).
Proof.
  intros Hp E Hfree Hpe. pose proof (so_covers _ _ _ _ (sp_segs _ _ _ _ _ _ _ Hp)) as Hc.
  rewrite E, fmap_app, fmap_cons in Hc. apply covers_middle in Hc as (Hc1 & _ & Hc2). cbn [snd] in *.
  apply covers_le in Hc1, Hc2.
  destruct (pv_split_segment_spec s vg x p _ v l pe Hp) as [(s' & l' & j & fr & He & Hsp & Hfr & Hc)|?];
    [lia..| |by right].
  left. pose proof (split_pre_split _ _ _ _ _ _ _ _ _ _ _ _ Hp Hsp Hfr Hc) as Hp'.
  destruct (split_list_free _ _ _ _ _ _ _ _ _ _ _ _ _ (sp_segs _ _ _ _ _ _ _ Hp) Hsp E Hpe Hfree)
    as (-> & Ho & (k1 & h & k2 & -> & Hh1 & Hh2 & Hh3) & Hfe & Hku).
  rewrite Z.sub_0_r, Z.add_0_r, with_counts_same in *.
  exists s', j, k1, h, k2. done.
Qed.

(** The second split of an assignment. *)
Lemma split_end_spec s vg x p v k1 j h k2 len :
  split_pre s vg x p (pv_pe_count v) v (k1 ++ (j, h) :: k2) -> peg_lvseg h = None -> 0 < len <= peg_len h ->
  (exists s' r h' k2', pv_split_segment p (peg_pe h + len) s = Some ((true, r), s') /\
     let l' := k1 ++ (j, h') :: k2' in
     let v' := with_segs v (pv_pe_alloc_count v) l'.*1 in
     pv_change s s' vg x p v' l' /\ split_pre s' vg x p (pv_pe_count v) v' l' /\
     (forall e, owner l'.*2 e = owner (k1 ++ (j, h) :: k2).*2 e) /\
     peg_pe h' = peg_pe h /\ peg_lvseg h' = None /\ peg_len h' = len /\
     (forall e, free_end (k1 ++ k2').*2 e -> free_end (k1 ++ (j, h) :: k2).*2 e) /\
     keeps_used (k1 ++ (j, h) :: k2) l') \/
  (pv_split_segment p (peg_pe h + len) s = Some ((false, None), alloc_tick s) /\ alloc_ok s = false).
Proof.
  intros Hp Hfree Hlen. pose proof (sp_segs _ _ _ _ _ _ _ Hp) as Hs.
  pose proof (so_covers _ _ _ _ Hs) as Hc.
  rewrite fmap_app, fmap_cons in Hc. apply covers_middle in Hc as (Hc1 & Hl & Hc2). cbn [snd] in *.
  apply covers_le in Hc1, Hc2.
  destruct (Z.eq_dec (peg_pe h + len) (pv_pe_count v)) as [He|Hne].
  - left. exists s, None, h, k2. split.
    + unfold pv_split_segment. pose proof (proj1 (sp_view _ _ _ _ _ _ _ Hp)). mstep.
      by rewrite (proj2 (Z.eqb_eq _ _)).
    + cbn zeta. destruct (sp_view _ _ _ _ _ _ _ Hp) as (Hv & Hseg & _).
      rewrite <- Hseg, with_segs_same. split; [apply pv_change_refl; apply Hp|]. split; [done|].
      split; [done|]. split; [done|]. split; [done|]. split; [lia|].
      split; [|apply keeps_used_refl]. intros e. apply free_end_mono. rewrite !fmap_app, fmap_cons. set_solver.
  - destruct (pv_split_segment_spec s vg x p _ v _ (peg_pe h + len) Hp)
      as [(s' & l' & r & fr & He & Hsp & Hfr & Hc)|?]; [lia..| |by right].
    left. pose proof (split_pre_split _ _ _ _ _ _ _ _ _ _ _ _ Hp Hsp Hfr Hc) as Hp'.
    destruct (split_list_end _ _ _ _ _ _ _ _ _ _ _ _ _ Hs Hsp eq_refl Hlen Hfree)
      as (-> & Ho & h' & k2' & -> & Hh1 & Hh2 & Hh3 & Hfe & Hku).
    rewrite Z.sub_0_r, Z.add_0_r, with_counts_same in *.
    by exists s', (Some r), h', k2'.
Qed.

Lemma split_pre_peg_pv s vg x p n v k1 j h k2 :
  split_pre s vg x p n v (k1 ++ (j, h) :: k2) -> peg_pv h = Some p.
Proof.
  intros Hp. pose proof (so_pv _ _ _ _ (sp_segs _ _ _ _ _ _ _ Hp)) as H. rewrite Forall_forall in H.
  apply H, list_elem_of_fmap. exists (j, h). set_solver.
Qed.

Lemma pv_change_tick s vg x p v l :
  view s p v l -> st_vgs s !! vg = Some x -> fresh_ok s -> pv_change s (alloc_tick s) vg x p v l.
Proof.
  intros Hv Hx Hf. destruct (pv_change_refl s vg x p v l Hv Hx Hf). split; try done. apply suffix_tail.
Qed.

Lemma owner_set_owner lo hi k1 h k2 o a e :
  covers lo (k1 ++ h :: k2) hi ->
  owner (k1 ++ set_peg_owner o a h :: k2) e =
    if decide (peg_pe h <= e < peg_pe h + peg_len h)
    then match o with Some sg => Some (sg, a, e - peg_pe h) | None => None end
    else owner (k1 ++ h :: k2) e.
Proof.
  intros Hc. rewrite (owner_middle _ _ _ _ _ e Hc).
  assert (covers lo (k1 ++ set_peg_owner o a h :: k2) hi) as Hc'.
  { apply covers_middle in Hc. by apply covers_middle. }
  rewrite (owner_middle _ _ _ _ _ e Hc'). cbn.
  repeat case_decide; try lia; try done;
    destruct (Z.leb_spec (peg_pe h) e), (Z.ltb_spec e (peg_pe h + peg_len h)); try lia; done.
Qed.

(** The last part of [assign_peg_to_lvseg]: the carved segment is handed over. *)
Lemma assign_handover s vg x p v k1 j h k2 seg area y lv :
  split_pre s vg x p (pv_pe_count v) v (k1 ++ (j, h) :: k2) -> peg_lvseg h = None ->
  peg_len h <= vg_free_count x -> pv_pe_alloc_count v + peg_len h < 2 ^ 32 ->
  st_segs s !! seg = Some y -> st_lvs s !! seg_lv y = Some lv -> lv_vg lv = vg ->
  let h' := set_peg_owner (Some seg) area h in
  let v' := set_pv_pe_alloc_count (pv_pe_alloc_count v + peg_len h) v in
  let x' := with_counts x (vg_extent_count x) (vg_free_count x - peg_len h) in
  exists s',
    (modify j (set_peg_owner (Some seg) area);;
     g ← get (T := pv_segment) j;
     p ← deref (peg_pv g);
     modify p (fun v => set_pv_pe_alloc_count (wrap32 (pv_pe_alloc_count v + peg_len h)) v);;
     vg ← seg_vg seg;
     modify vg (fun x => set_vg_free_count (wrap32 (vg_free_count x - peg_len h)) x);;
     mret (Some j)) s = Some (Some j, s') /\
    pv_change s s' vg x' p v' (k1 ++ (j, h') :: k2) /\
    segs_ok p (pv_pe_count v) v' (k1 ++ (j, h') :: k2).
Proof.
  intros Hp Hfree Hx Ha Hy Hlv Hvg h' v' x'. pose proof Hp as [Hview Hs Hf Hx0 _ Hfr].
  pose proof (split_pre_peg_pv _ _ _ _ _ _ _ _ _ _ Hp) as Hhp.
  pose proof (view_elem _ _ _ _ j h Hview ltac:(set_solver)) as Hj. pose proof (proj1 Hview) as Hv.
  pose proof (segs_ok_alloc _ _ _ _ Hs) as Hal.
  pose proof (so_covers _ _ _ _ Hs) as Hc. rewrite fmap_app, fmap_cons in Hc.
  apply covers_middle in Hc as (_ & Hlen & _). cbn [snd] in *.
  do 2 mstep. cbn [set_peg_owner peg_pv]. rewrite Hhp. cbn [deref]. do 2 mstep.
  unfold seg_vg. repeat mstep. rewrite Hvg. repeat mstep.
  rewrite !wrap32_small by lia.
  eexists. split; [reflexivity|]. split.
  - eapply (pv_change_owner s _ vg _ p v _ k1 j h k2 h'); try done. apply Hs.
  - eapply segs_ok_owner; [exact Hs|reflexivity|]. cbn. unfold alloc_len. cbn. rewrite Hfree. lia.
Qed.

(** A change that keeps the counts, seen from the VG. *)
Lemma vg_ok_quiet s s' vg x p v l v' l' :
  vg_ok s vg x -> p ∈ vg_pvs x -> view s p v l -> pv_change s s' vg x p v' l' ->
  segs_ok p (pv_pe_count v') v' l' -> Forall (owned_by s vg) l'.*2 ->
  pv_pe_count v' = pv_pe_count v -> pv_pe_alloc_count v' = pv_pe_alloc_count v ->
  vg_ok s' vg x /\ pv_ok s' vg p v' l'.
Proof.
  intros Hvg Hp Hv Hc Hs Ho Hn Ha. split.
  - rewrite <- (with_counts_same x) in Hc |- *. eapply vg_ok_change; try done; unfold pv_free; try lia.
    apply Hvg.
  - split; [apply Hc|]. split; [done|]. eapply Forall_impl; [exact Ho|]. intros g. by eapply owned_by_change.
Qed.

Lemma pv_ok_change s s' vg x' p v' l' :
  pv_change s s' vg x' p v' l' -> segs_ok p (pv_pe_count v') v' l' -> Forall (owned_by s vg) l'.*2 ->
  pv_ok s' vg p v' l'.
Proof.
  intros Hc Hs Ho. split; [apply Hc|]. split; [done|].
  eapply Forall_impl; [exact Ho|]. intros g. by eapply owned_by_change.
Qed.

Lemma owned_by_back s s' vg w x' p v' l' g :
  pv_change s s' vg x' p v' l' -> owned_by s' w g -> owned_by s w g.
Proof.
  intros Hc Ho sg Hsg. destruct (Ho sg Hsg) as (y & lv & ? & ? & ?). exists y, lv.
  by rewrite <- (pc_segs _ _ _ _ _ _ _ Hc), <- (pc_lvs _ _ _ _ _ _ _ Hc).
Qed.

Lemma Forall_owned_by_back s s' vg w x' p v' l' k :
  pv_change s s' vg x' p v' l' -> Forall (owned_by s' w) k -> Forall (owned_by s w) k.
Proof. intros Hc Hk. eapply Forall_impl; [exact Hk|]. intros g. by eapply owned_by_back. Qed.

Lemma segs_ok_room p n v k1 j h k2 :
  segs_ok p n v (k1 ++ (j, h) :: k2) -> peg_lvseg h = None -> pv_pe_alloc_count v + peg_len h <= n.
Proof.
  intros Hs Hh. rewrite (so_alloced _ _ _ _ Hs), fmap_app, fmap_cons, alloced_app, alloced_cons.
  pose proof (so_covers _ _ _ _ Hs) as Hc. rewrite fmap_app, fmap_cons in Hc.
  apply covers_middle in Hc as (Hc1 & _ & Hc2). cbn [snd] in *.
  apply alloced_range in Hc1, Hc2. unfold alloc_len. rewrite Hh. lia.
Qed.

Lemma assign_spec s vg x p v l l1 i g l2 pe len seg area y lv :
  vg_ok s vg x -> p ∈ vg_pvs x -> pv_ok s vg p v l -> l = l1 ++ (i, g) :: l2 ->
  peg_lvseg g = None -> peg_pe g <= pe -> 0 < len -> pe + len <= peg_pe g + peg_len g ->
  st_segs s !! seg = Some y -> st_lvs s !! seg_lv y = Some lv -> lv_vg lv = vg ->
  (exists s' j v' l', assign_peg_to_lvseg (Some p) pe len seg area s = Some (Some j, s') /\
     let x' := with_counts x (vg_extent_count x) (vg_free_count x - len) in
     pv_change s s' vg x' p v' l' /\ vg_ok s' vg x' /\ pv_ok s' vg p v' l' /\
     (j, PvSegment (Some p) pe len (Some seg) area) ∈ l' /\ pv_pe_count v' = pv_pe_count v /\
     (forall e, owner l'.*2 e =
       if decide (pe <= e < pe + len) then Some (seg, area, e - pe) else owner l.*2 e) /\
     (forall e, free_end l'.*2 e -> e = pe \/ free_end l.*2 e) /\ keeps_used l l') \/
  (exists s' v' l', assign_peg_to_lvseg (Some p) pe len seg area s = Some (None, s') /\ ~ no_oom s /\
     pv_change s s' vg x p v' l' /\ vg_ok s' vg x /\ pv_ok s' vg p v' l' /\
     forall e, owner l'.*2 e = owner l.*2 e).
Proof.
  intros Hvg Hp Hok E Hfree Hge Hlen Hle Hy Hlv Hlvg. pose proof Hok as (Hview & Hs & Ho).
  pose proof (vg_ok_bounds _ _ _ _ _ _ Hvg Hp Hok) as Hb. pose proof (vo_range _ _ _ Hvg) as Hr.
  assert (split_pre s vg x p (pv_pe_count v) v l) as Hpre.
  { split; [done|done|apply Hvg|apply Hvg|done|lia]. }
  unfold assign_peg_to_lvseg.
  assert (seg_vg seg s = Some (vg, s)) as Hsv by (unfold seg_vg; repeat mstep; by rewrite Hlvg).
  erewrite bind_exec by exact Hsv. cbn beta.
  destruct (split_free_spec s vg x p v l pe l1 i g l2 Hpre E Hfree ltac:(lia))
    as [(s1 & j & k1 & h & k2 & He1 & Hc1 & Hp1 & Ho1 & Hh1 & Hh2 & Hh3 & Hfe1 & Hku1)|[He1 Ha1]]; cycle 1.
  { right. exists (alloc_tick s), v, l. erewrite bind_exec by exact He1. split; [done|].
    split; [intros Hno; by rewrite no_oom_ok in Ha1|].
    assert (pv_change s (alloc_tick s) vg x p v l) as Hc by (apply pv_change_tick; apply Hpre).
    split; [done|]. destruct (vg_ok_quiet _ _ _ _ _ _ _ _ _ Hvg Hp Hview Hc); done. }
  erewrite bind_exec by exact He1. cbn [negb fst snd].
  pose proof (so_covers _ _ _ _ Hs) as Hcov. rewrite E, fmap_app, fmap_cons in Hcov.
  apply covers_middle in Hcov as (Hcl & _ & Hcr). cbn [snd] in *. apply covers_le in Hcl, Hcr.
  rewrite wrap32_small by (pose proof (so_range _ _ _ _ Hs); lia). rewrite <- Hh1.
  destruct (split_end_spec s1 vg x p (with_segs v (pv_pe_alloc_count v) (k1 ++ (j, h) :: k2).*1) k1 j h k2 len Hp1 Hh2 ltac:(lia))
    as [(s2 & r & h' & k2' & He2 & Hc2 & Hp2 & Ho2 & Hh1' & Hh2' & Hh3' & Hfe2 & Hku2)|[He2 Ha2]]; cycle 1.
  { right. eexists (alloc_tick s1), _, _. erewrite bind_exec by exact He2. split; [done|].
    split; [intros Hno; eapply no_oom_suffix in Hno; [|apply Hc1]; by rewrite no_oom_ok in Ha2|].
    assert (pv_change s (alloc_tick s1) vg x p
      (with_segs v (pv_pe_alloc_count v) (k1 ++ (j, h) :: k2).*1) (k1 ++ (j, h) :: k2)) as Hc.
    { eapply pv_change_trans; [exact Hc1|]. apply pv_change_tick; apply Hp1. }
    split; [exact Hc|].
    destruct (vg_ok_quiet _ _ _ _ _ _ _ _ _ Hvg Hp Hview Hc) as [Hvg' Hok'];
      [apply Hp1|eapply Forall_owned_by_back; [exact Hc1|apply Hp1]|done|done|].
    split; [done|]. split; [done|]. exact Ho1. }
  erewrite bind_exec by exact He2. cbn [negb fst snd].
  pose proof (pv_change_trans _ _ _ _ _ _ _ _ _ _ _ Hc1 Hc2) as Hc12.
  rewrite with_segs_twice in *. set (v2 := with_segs v (pv_pe_alloc_count v) (k1 ++ (j, h') :: k2').*1) in *.
  assert (pv_pe_alloc_count v + peg_len h' <= pv_pe_count v) as Hroom
    by exact (segs_ok_room _ _ _ _ _ _ _ (sp_segs _ _ _ _ _ _ _ Hp2) Hh2').
  unfold pv_free in Hb.
  destruct (assign_handover s2 vg x p v2 k1 j h' k2' seg area y lv Hp2 Hh2') as (s3 & He3 & Hc3 & Hs3);
    [cbn; lia|cbn; lia|by rewrite (pc_segs _ _ _ _ _ _ _ Hc12)|by rewrite (pc_lvs _ _ _ _ _ _ _ Hc12)|done|].
  rewrite Hh3' in He3, Hc3, Hs3. pose proof (pv_change_trans _ _ _ _ _ _ _ _ _ _ _ Hc12 Hc3) as Hc13.
  left. eexists s3, j, _, _. split; [exact He3|]. split; [exact Hc13|].
  assert (Forall (owned_by s vg) (k1 ++ (j, set_peg_owner (Some seg) area h') :: k2').*2) as Ho3.
  { pose proof (Forall_owned_by_back _ _ _ _ _ _ _ _ _ Hc12 (sp_owned _ _ _ _ _ _ _ Hp2)) as Ho2'.
    rewrite fmap_app, fmap_cons in Ho2' |- *. apply Forall_app in Ho2' as [? [? ?]%Forall_cons].
    apply Forall_app. split; [done|]. constructor; [|done]. intros sg [= <-]. eauto. }
  split; [eapply vg_ok_change; [exact Hvg|done|exact Hview|exact Hc13|exact Hs3|done|..]; cbn; unfold pv_free; cbn; lia|].
  split; [by eapply pv_ok_change|]. split.
  { replace (PvSegment _ _ _ _ _) with (set_peg_owner (Some seg) area h'); [apply elem_of_app; right; left|].
    pose proof (split_pre_peg_pv _ _ _ _ _ _ _ _ _ _ Hp2) as Hpp. unfold set_peg_owner. congruence. }
  split; [done|]. split; [intros e|split; [intros e|intros q Hq Hu]].
  - pose proof (so_covers _ _ _ _ (sp_segs _ _ _ _ _ _ _ Hp2)) as Hcv. rewrite fmap_app, fmap_cons in Hcv |- *.
    cbn [snd] in *. rewrite (owner_set_owner _ _ _ _ _ _ _ e Hcv), Hh1', Hh1, Hh3'.
    rewrite <- Ho1, <- Ho2, fmap_app, fmap_cons. done.
  - intros (h0 & Hh0 & Hn & <-). rewrite fmap_app, fmap_cons in Hh0. rewrite Hh1. apply Hfe1, Hfe2. exists h0.
    split; [|done]. rewrite fmap_app. apply elem_of_app in Hh0 as [?|[->|?]%elem_of_cons]; [set_solver|done|set_solver].
  - pose proof (Hku2 _ (Hku1 _ Hq Hu) Hu) as Hq2. apply elem_of_app in Hq2 as [?|[->|?]%elem_of_cons]; [set_solver|by cbn in Hu|set_solver].
Qed.

(** ** Releasing *)

(** The store with more discards on the trace. *)
Definition with_discards (d : list (nat * Z * Z)) (s : store) : store :=
  Store (st_pegs s) (st_pvs s) (st_segs s) (st_lvs s) (st_vgs s) (st_next s) (st_alloc s)
    (st_discards s ++ d).

Lemma with_discards_nil s : with_discards [] s = s.
Proof. destruct s. unfold with_discards. cbn. by rewrite app_nil_r. Qed.

Lemma vg_ok_discards d s vg x : vg_ok s vg x -> vg_ok (with_discards d s) vg x.
Proof. intros []. by split. Qed.

Lemma pv_ok_discards d s vg p v l : pv_ok s vg p v l -> pv_ok (with_discards d s) vg p v l.
Proof. done. Qed.

(** The sectors of an extent range on a PV. *)
Definition extents_sectors (v : physical_volume) (x : volume_group) (pe : Z) : Z :=
  pv_pe_start v + pe * vg_extent_size x.

(** The discard asked for when [red] extents from extent [pe] on are given back;
    the first extent is spared when the data area starts at sector 0. *)
Definition discard_of (p : nat) (v : physical_volume) (x : volume_group) (pe red : Z) : list (nat * Z * Z) :=
  let off := extents_sectors v x pe in
  if off =? 0
  then if red =? 1 then [] else [(p, vg_extent_size x * 512, (red - 1) * vg_extent_size x * 512)]
  else [(p, off * 512, red * vg_extent_size x * 512)].

(** No sector of the PV is beyond the reach of 64-bit byte offsets. *)
Definition sectors_ok (v : physical_volume) (x : volume_group) (n : Z) : Prop :=
  0 <= pv_pe_start v /\ 0 < vg_extent_size x /\ pv_pe_start v + n * vg_extent_size x < 2 ^ 55.

Lemma release_discard_spec env s p v g len red vg x n :
  st_pvs s !! p = Some v -> st_vgs s !! vg = Some x -> pv_vg v = Some vg -> sectors_ok v x n ->
  0 <= peg_pe g -> peg_pe g + len <= n -> n < 2 ^ 32 -> 0 < red <= len ->
  exists ok s', release_discard env p g len red s = Some (ok, s') /\
    let d := if discards_enabled env p then discard_of p v x (peg_pe g + len - red) red else [] in
    s' = with_discards d s /\
    (ok = false -> exists q o b, d = [(q, o, b)] /\ dev_discard_blocks env q o b = false).
Proof.
  intros Hv Hx Hvg (Hs0 & He & Hmax) Hpe Hn Hn32 Hred. unfold release_discard. mstep.
  destruct (discards_enabled env p) eqn:En; cbn [negb].
  2:{ exists true, s. split; [done|]. by rewrite with_discards_nil. }
  rewrite Hvg. cbn [deref]. do 2 mstep. rewrite (wrap32_small (_ + _ - _)) by lia.
  set (pe := peg_pe g + len - red).
  assert (0 <= pe * vg_extent_size x) by (apply Z.mul_nonneg_nonneg; lia).
  assert ((pe + red) * vg_extent_size x <= n * vg_extent_size x) by (apply Z.mul_le_mono_nonneg_r; lia).
  assert (0 <= red * vg_extent_size x) by (apply Z.mul_nonneg_nonneg; lia).
  assert (vg_extent_size x <= red * vg_extent_size x)
    by (rewrite <- (Z.mul_1_l (vg_extent_size x)) at 1; apply Z.mul_le_mono_nonneg_r; lia).
  rewrite (wrap64_small (_ * _ + _)) by lia. unfold discard_of, extents_sectors.
  rewrite (Z.add_comm (pv_pe_start v)). unfold SECTOR_SHIFT, SECTOR_SIZE.
  destruct (Z.eqb_spec (pe * vg_extent_size x + pv_pe_start v) 0) as [Hz|Hnz].
  - rewrite (wrap64_small (red - 1)) by lia.
    destruct (Z.eqb_spec (red - 1) 0), (Z.eqb_spec red 1); try lia.
    { exists true, s. split; [done|]. by rewrite with_discards_nil. }
    rewrite Z.shiftl_mul_pow2 by lia. change (2 ^ 9) with 512. rewrite !wrap64_small by lia.
    eexists _, _. split; [reflexivity|]. split; [reflexivity|]. intros Hf. eauto.
  - destruct (Z.eqb_spec red 0); [lia|].
    rewrite Z.shiftl_mul_pow2 by lia. change (2 ^ 9) with 512. rewrite !wrap64_small by lia.
    eexists _, _. split; [reflexivity|]. split; [reflexivity|]. intros Hf. eauto.
Qed.

(** What a release leaves alone: the PV but for its counts and segments, the other
    segments, and the front of the segment when only its tail is released. *)
Record released (v v' : physical_volume) (k1 : list (nat * pv_segment)) (j : nat) (h : pv_segment)
    (k2 : list (nat * pv_segment)) (red : Z) (l' : list (nat * pv_segment)) : Prop := {
  re_count : pv_pe_count v' = pv_pe_count v;
  re_start : pv_pe_start v' = pv_pe_start v;
  re_vg : pv_vg v' = pv_vg v;
  re_keep : forall i g, (i, g) ∈ k1 ++ k2 -> (i, g) ∈ l';
  re_front : red < peg_len h -> (j, set_peg_len (peg_len h - red) h) ∈ l' }.

(** The part of [release_pv_segment] after the discard. *)
Lemma release_body_spec s vg x p v k1 j h k2 sg y red :
  vg_ok s vg x -> p ∈ vg_pvs x -> pv_ok s vg p v (k1 ++ (j, h) :: k2) ->
  peg_lvseg h = Some sg -> st_segs s !! sg = Some y -> seg_area_len y = peg_len h ->
  0 < red <= peg_len h ->
  let m := if seg_area_len y =? red then
        modify p (fun v => set_pv_pe_alloc_count (wrap32 (pv_pe_alloc_count v - red)) v);;
        vg ← seg_vg sg;
        modify vg (fun x => set_vg_free_count (wrap32 (vg_free_count x + red)) x);;
        modify j (set_peg_owner None 0);;
        mret true
      else
        r ← pv_split_segment p (wrap32 (peg_pe h + seg_area_len y - red));
        mret r.1 in
  (exists s' v' l', m s = Some (true, s') /\
     let x' := with_counts x (vg_extent_count x) (vg_free_count x + red) in
     pv_change s s' vg x' p v' l' /\ vg_ok s' vg x' /\ pv_ok s' vg p v' l' /\
     released v v' k1 j h k2 red l' /\
     forall e, owner l'.*2 e =
       if decide (peg_pe h + peg_len h - red <= e < peg_pe h + peg_len h) then None
       else owner (k1 ++ (j, h) :: k2).*2 e) \/
  (m s = Some (false, alloc_tick s) /\ ~ no_oom s /\ red < peg_len h).
Proof.
  intros Hvg Hp Hok Hsg Hy Hlen Hred m. pose proof Hok as (Hview & Hs & Ho).
  pose proof (vg_ok_bounds _ _ _ _ _ _ Hvg Hp Hok) as Hb. pose proof (vo_range _ _ _ Hvg) as Hr.
  assert (split_pre s vg x p (pv_pe_count v) v (k1 ++ (j, h) :: k2)) as Hpre.
  { split; [done|done|apply Hvg|apply Hvg|done|lia]. }
  pose proof (view_elem _ _ _ _ j h Hview ltac:(set_solver)) as Hj. pose proof (proj1 Hview) as Hv.
  pose proof (split_pre_peg_pv _ _ _ _ _ _ _ _ _ _ Hpre) as Hhp.
  assert (owned_by s vg h) as Hoh.
  { rewrite Forall_forall in Ho. apply Ho, list_elem_of_fmap. exists (j, h). set_solver. }
  pose proof (so_covers _ _ _ _ Hs) as Hcov. rewrite fmap_app, fmap_cons in Hcov. cbn [snd] in Hcov.
  pose proof Hcov as (Hcl & _ & Hcr)%covers_middle. apply covers_le in Hcl, Hcr.
  assert (peg_len h <= pv_pe_alloc_count v) as Hal.
  { rewrite (so_alloced _ _ _ _ Hs), fmap_app, fmap_cons, alloced_app, alloced_cons. cbn [snd].
    pose proof Hcov as (H1 & _ & H2)%covers_middle. apply alloced_range in H1, H2.
    unfold alloc_len. rewrite Hsg. lia. }
  subst m. rewrite Hlen. destruct (Z.eqb_spec (peg_len h) red) as [<-|Hne].
  - left. mstep. erewrite bind_exec by (eapply seg_vg_exec; [exact Hoh|done]). cbn beta.
    pose proof (vo_vg _ _ _ Hvg) as Hx. do 2 mstep. rewrite !wrap32_small by lia.
    set (v' := set_pv_pe_alloc_count (pv_pe_alloc_count v - peg_len h) v).
    set (h' := set_peg_owner None 0 h).
    set (x' := with_counts x (vg_extent_count x) (vg_free_count x + peg_len h)).
    assert (segs_ok p (pv_pe_count v) v' (k1 ++ (j, h') :: k2)) as Hs'.
    { eapply segs_ok_owner; [exact Hs|reflexivity|]. cbn. unfold alloc_len. cbn. rewrite Hsg. lia. }
    assert (Forall (owned_by s vg) (k1 ++ (j, h') :: k2).*2) as Ho'.
    { rewrite fmap_app, fmap_cons in Ho |- *. apply Forall_app in Ho as [? [? ?]%Forall_cons].
      apply Forall_app. split; [done|]. constructor; [by intros ?|done]. }
    eexists _, v', (k1 ++ (j, h') :: k2). split; [reflexivity|].
    match goal with |- let _ := _ in pv_change s ?s1 _ _ _ _ _ /\ _ =>
      assert (pv_change s s1 vg x' p v' (k1 ++ (j, h') :: k2)) as Hc end.
    { eapply (pv_change_owner s _ vg _ p v _ k1 j h k2 h'); try done; [apply Hs|apply Hvg]. }
    cbn zeta. split; [exact Hc|].
    split; [eapply vg_ok_change; [exact Hvg|done|exact Hview|exact Hc|exact Hs'|done|..]; cbn; unfold pv_free; cbn; lia|].
    split; [by eapply pv_ok_change|]. split.
    { split; [done|done|done| |lia]. intros m g Hm. clear -Hm. set_solver. }
    intros e. rewrite !fmap_app, !fmap_cons. cbn [snd]. unfold h'. rewrite (owner_set_owner _ _ _ _ _ _ _ e Hcov).
    repeat case_decide; done || lia.
  - rewrite wrap32_small by (pose proof (so_range _ _ _ _ Hs); lia).
    destruct (pv_split_segment_spec s vg x p _ v _ (peg_pe h + peg_len h - red) Hpre)
      as [(s' & l' & r & fr & He & Hsp & Hfr & Hc)|[He Ha]]; [lia..| |]; cycle 1.
    { right. erewrite bind_exec by exact He. split; [done|]. split; [|lia].
      intros Hno. by rewrite no_oom_ok in Ha. }
    left. erewrite bind_exec by exact He.
    pose proof (split_pre_split _ _ _ _ _ _ _ _ _ _ _ _ Hpre Hsp Hfr Hc) as Hp'.
    destruct (split_list_inside _ _ _ _ _ _ _ _ _ _ _ _ _ Hs Hsp eq_refl) as [-> ->]; [lia|].
    assert (cut_freed h (peg_pe h + peg_len h - red) = red) as Hcf by (unfold cut_freed; rewrite Hsg; lia).
    rewrite Hcf in *. eexists s', _, _. split; [reflexivity|]. cbn zeta.
    split; [exact Hc|]. split; [|split; [|split]].
    + eapply vg_ok_change; [exact Hvg|done|exact Hview|exact Hc|apply Hp'|..]; cbn; unfold pv_free; cbn; try lia.
      eapply Forall_owned_by_back; [exact Hc|apply Hp'].
    + eapply pv_ok_change; [exact Hc|apply Hp'|]. eapply Forall_owned_by_back; [exact Hc|apply Hp'].
    + split; [done|done|done|intros m g Hm; clear -Hm; set_solver|]. intros _. apply elem_of_app. right. apply elem_of_cons. left.
      unfold cut_left. do 2 f_equal. lia.
    + intros e. rewrite !fmap_app, !fmap_cons. cbn [snd].
      rewrite (owner_cut _ _ _ _ _ _ _ _ Hcov) by lia. done.
Qed.

Lemma release_spec env s vg x p v k1 j h k2 sg y red :
  vg_ok s vg x -> p ∈ vg_pvs x -> pv_ok s vg p v (k1 ++ (j, h) :: k2) -> pv_vg v = Some vg ->
  sectors_ok v x (pv_pe_count v) ->
  peg_lvseg h = Some sg -> st_segs s !! sg = Some y -> seg_area_len y = peg_len h ->
  0 < red <= peg_len h ->
  let d := if discards_enabled env p
           then discard_of p v x (peg_pe h + peg_len h - red) red else [] in
  (exists s' v' l', release_pv_segment env j red s = Some (true, s') /\
     let x' := with_counts x (vg_extent_count x) (vg_free_count x + red) in
     pv_change (with_discards d s) s' vg x' p v' l' /\ vg_ok s' vg x' /\ pv_ok s' vg p v' l' /\
     released v v' k1 j h k2 red l' /\
     forall e, owner l'.*2 e =
       if decide (peg_pe h + peg_len h - red <= e < peg_pe h + peg_len h) then None
       else owner (k1 ++ (j, h) :: k2).*2 e) \/
  (exists s', release_pv_segment env j red s = Some (false, s') /\
     ((s' = with_discards d s /\ exists q o b, d = [(q, o, b)] /\ dev_discard_blocks env q o b = false) \/
      (s' = alloc_tick (with_discards d s) /\ ~ no_oom s /\ red < peg_len h))).
Proof.
  intros Hvg Hp Hok Hpvg Hsec Hsg Hy Hlen Hred d. pose proof Hok as (Hview & Hs & Ho).
  pose proof (view_elem _ _ _ _ j h Hview ltac:(set_solver)) as Hj. pose proof (proj1 Hview) as Hv.
  pose proof (so_pv _ _ _ _ Hs) as Hpv. rewrite Forall_forall in Hpv.
  assert (peg_pv h = Some p) as Hhp by (apply Hpv, list_elem_of_fmap; exists (j, h); set_solver).
  pose proof (so_covers _ _ _ _ Hs) as Hcov. rewrite fmap_app, fmap_cons in Hcov. cbn [snd] in Hcov.
  apply covers_middle in Hcov as (Hcl & _ & Hcr). apply covers_le in Hcl, Hcr.
  unfold release_pv_segment. mstep. rewrite Hhp. cbn [deref]. do 2 mstep. rewrite Hsg. mstep.
  destruct (release_discard_spec env s p v h (peg_len h) red vg x (pv_pe_count v))
    as (ok & s1 & He & Hs1 & Hfail); try done; [apply Hvg|apply Hs|].
  rewrite <- Hlen in He. erewrite bind_exec by exact He. fold d in Hs1, Hfail. subst s1.
  destruct ok; cbn [negb]; cycle 1.
  { right. eexists. split; [reflexivity|]. left. split; [done|]. by apply Hfail. }
  destruct (release_body_spec (with_discards d s) vg x p v k1 j h k2 sg y red)
    as [(s' & v' & l' & Hm & Hrest)|(Hm & Hno & Hlt)]; try done; [by apply vg_ok_discards|..].
  - left. exists s', v', l'. split; [exact Hm|exact Hrest].
  - right. eexists. split; [exact Hm|]. by right.
Qed.

(** ** The consistency check *)

(** The area of the LV segment that owns the segment points back at it. *)
Definition link_ok (s : store) (q : nat * pv_segment) : Prop :=
  forall sg, peg_lvseg q.2 = Some sg -> exists y a, st_segs s !! sg = Some y /\
    zlookup (seg_areas y) (peg_lv_area q.2) = Some a /\
    area_type a = AREA_PV /\ area_pvseg a = Some q.1 /\ seg_area_len y = peg_len q.2.

(** The pointers the check follows from a segment are valid. *)
Definition link_safe (s : store) (q : nat * pv_segment) : Prop :=
  forall sg, peg_lvseg q.2 = Some sg -> exists y lv a, st_segs s !! sg = Some y /\
    st_lvs s !! seg_lv y = Some lv /\ zlookup (seg_areas y) (peg_lv_area q.2) = Some a.

Definition total_len (l : list (nat * pv_segment)) : Z := zsum (map (fun q => peg_len q.2) l).

Lemma total_len_nonneg l : Forall (fun q : nat * pv_segment => 0 < peg_len q.2) l -> 0 <= total_len l.
Proof.
  intros H. apply zsum_nonneg. apply Forall_map. eapply Forall_impl; [exact H|]. cbn. lia.
Qed.

Lemma check_peg_spec s j g lo :
  st_pegs s !! j = Some g -> link_safe s (j, g) ->
  exists b, check_peg j lo s = Some ((b, g), s) /\ (b = true <-> lo = peg_pe g /\ link_ok s (j, g)).
Proof.
  intros Hj Hl. unfold check_peg. mstep. unfold link_ok. cbn [fst snd].
  destruct (peg_lvseg g) as [sg|] eqn:E.
  - destruct (Hl sg E) as (y & lv & a & Hy & Hlv & Ha). cbn [snd] in Ha. repeat mstep. rewrite Ha. cbn [deref].
    repeat mstep. eexists. split; [reflexivity|].
    rewrite !andb_true_iff, !bool_decide_eq_true, !Z.eqb_eq. split.
    + intros (-> & (Ht & Hp) & Hlen). split; [done|]. intros sg' [= <-]. by exists y, a.
    + intros (-> & Hk). destruct (Hk sg eq_refl) as (y' & a' & Hy' & Ha' & ? & ? & ?).
      rewrite Hy in Hy'. injection Hy' as <-. rewrite Ha in Ha'. by injection Ha' as <-.
  - mstep. eexists. split; [reflexivity|]. rewrite andb_true_r, Z.eqb_eq. naive_solver.
Qed.

Lemma check_pegs_loop_spec s l lo al ret :
  Forall (fun q => st_pegs s !! q.1 = Some q.2 /\ link_safe s q /\ 0 < peg_len q.2) l ->
  0 <= lo -> 0 <= al -> lo + total_len l < 2 ^ 32 -> al + total_len l < 2 ^ 32 ->
  exists b, check_pegs_loop l.*1 lo al ret s = Some ((lo + total_len l, al + alloced l.*2, b), s) /\
    (b = true <-> ret = true /\ covers lo l.*2 (lo + total_len l) /\ Forall (link_ok s) l).
Proof.
  intros Hl. revert lo al ret. induction Hl as [|[j g] l (Hj & Hsafe & Hlen) Hl IH]; intros lo al ret Hlo Hal Ht1 Ht2.
  - exists ret. unfold total_len, alloced. cbn. rewrite !Z.add_0_r. split; [done|]. 
    split; [intros ->; by repeat constructor|tauto].
  - cbn [fst snd] in *. cbn [fmap list_fmap check_pegs_loop fst].
    destruct (check_peg_spec s j g lo Hj Hsafe) as (b1 & Hb1 & Hiff1). erewrite bind_exec by exact Hb1. cbn beta iota.
    assert (total_len ((j, g) :: l) = peg_len g + total_len l) as Et by reflexivity.
    assert (0 <= total_len l) by (apply total_len_nonneg; eapply Forall_impl; [exact Hl|]; cbn; tauto).
    rewrite Et in Ht1, Ht2.
    rewrite (wrap32_small (lo + peg_len g)) by lia.
    assert ((if peg_lvseg g is Some _ then wrap32 (al + peg_len g) else al) = al + alloc_len g) as ->.
    { unfold alloc_len. destruct (peg_lvseg g); [apply wrap32_small|]; lia. }
    pose proof (alloc_len_range g Hlen).
    destruct (IH (lo + peg_len g) (al + alloc_len g) (ret && b1)) as (b & -> & Hb); [lia..|].
    exists b. split.
    { rewrite Et. change (((j, g) :: l).*2) with (g :: l.*2). rewrite alloced_cons.
      by rewrite !Z.add_assoc. }
    change (((j, g) :: l).*2) with (g :: l.*2).
    rewrite Hb, Et, andb_true_iff, Hiff1, Forall_cons. cbn [covers].
    rewrite Z.add_assoc. cbn [snd]. naive_solver.
Qed.

(** The PVs of a VG as the check sees them: address, structure, segments. *)
Abbreviation pv_rec := (nat * physical_volume * list (nat * pv_segment))%type.

(** What the check follows in memory is valid; lengths are positive. *)
Definition pv_safe (s : store) (r : pv_rec) : Prop :=
  view s r.1.1 r.1.2 r.2 /\ Forall (fun q => link_safe s q /\ 0 < peg_len q.2) r.2.

(** The segments of a PV are consistent. *)
Definition pv_consistent (s : store) (r : pv_rec) : Prop :=
  covers 0 r.2.*2 (pv_pe_count r.1.2) /\ pv_pe_alloc_count r.1.2 = alloced r.2.*2 /\ Forall (link_ok s) r.2.

Lemma covers_total lo l hi : covers lo l.*2 hi -> hi = lo + total_len l.
Proof.
  unfold total_len. revert lo. induction l as [|[j g] l IH]; intros lo; [cbn; lia|].
  change (((j, g) :: l).*2) with (g :: l.*2). cbn [covers map]. rewrite zsum_cons. cbn [snd].
  intros (_ & _ & H). apply IH in H. lia.
Qed.

Lemma alloced_total l : Forall (fun q : nat * pv_segment => 0 < peg_len q.2) l -> 0 <= alloced l.*2 <= total_len l.
Proof.
  unfold total_len, alloced. induction 1 as [|[j g] l Hg _ IH]; [cbn; lia|].
  change (((j, g) :: l).*2) with (g :: l.*2). cbn [map]. rewrite !zsum_cons. cbn [snd] in *.
  pose proof (alloc_len_range g Hg). lia.
Qed.

Lemma check_pvs_loop_spec s rs c :
  Forall (pv_safe s) rs -> 0 <= cc_pv c -> 0 <= cc_free c -> 0 <= cc_extent c ->
  cc_pv c + Z.of_nat (length rs) < 2 ^ 32 ->
  cc_extent c + zsum (map (fun r => total_len r.2) rs) < 2 ^ 32 -> cc_free c <= cc_extent c ->
  exists b, check_pvs_loop (map (fun r => r.1.1) rs) c s =
      Some (CheckCounts (cc_pv c + Z.of_nat (length rs))
              (cc_free c + zsum (map (fun r => total_len r.2 - alloced r.2.*2) rs))
              (cc_extent c + zsum (map (fun r => total_len r.2) rs)) b, s) /\
    (b = true <-> cc_ret c = true /\ Forall (pv_consistent s) rs).
Proof.
  intros Hrs. revert c. induction Hrs as [|[[p v] l] rs [Hview Hl] Hrs IH]; intros c Hpv Hfree Hext Hr1 Hr2 Hfe.
  - exists (cc_ret c). cbn. rewrite !Z.add_0_r. split; [by destruct c|].
    split; [intros ->; by repeat constructor|tauto].
  - cbn [fst snd] in *. cbn [map check_pvs_loop fst]. destruct Hview as (Hv & Hseg & Hg). mstep. rewrite Hseg.
    assert (Forall (fun q : nat * pv_segment => 0 < peg_len q.2) l) as Hpos
      by (eapply Forall_impl; [exact Hl|]; cbn; tauto).
    pose proof (total_len_nonneg l Hpos) as Ht0. pose proof (alloced_total l Hpos) as Hal.
    assert (0 <= zsum (map (fun r : pv_rec => total_len r.2) rs)) as Hrest.
    { apply zsum_nonneg, Forall_map. eapply Forall_impl; [exact Hrs|]. intros r [_ Hr].
      apply total_len_nonneg. eapply Forall_impl; [exact Hr|]. cbn. tauto. }
    cbn [map length] in *. rewrite zsum_cons in Hr2. rewrite !zsum_cons. cbn [snd] in *.
    destruct (check_pegs_loop_spec s l 0 0 (cc_ret c)) as (b1 & Hb1 & Hiff1); [|lia..|].
    { rewrite Forall_forall in Hg, Hl |- *. intros q Hq. specialize (Hg q Hq). specialize (Hl q Hq). tauto. }
    erewrite bind_exec by exact Hb1. cbn beta iota. rewrite !Z.add_0_l in *.
    rewrite !wrap32_small by (try rewrite !wrap32_small; lia).
    match goal with |- context [check_pvs_loop _ ?c' _] => destruct (IH c') as (b & -> & Hb) end;
      cbn [cc_pv cc_free cc_extent cc_ret]; [lia..|].
    exists b. split.
    { do 2 f_equal. f_equal; lia. }
    rewrite Hb. cbn [cc_ret]. rewrite !andb_true_iff, Hiff1, !Z.eqb_eq, Forall_cons.
    unfold pv_consistent at 2. cbn [fst snd]. split.
    + intros ((((-> & Hcov & Hlk) & <-) & <-) & Hall). split; [done|]. split; [done|]. done.
    + intros (-> & (Hcov & Ha & Hlk) & Hall). pose proof (covers_total _ _ _ Hcov) as E.
      rewrite Z.add_0_l in E. rewrite E in Hcov. done.
Qed.

Lemma check_pv_segments_spec s vg x rs :
  st_vgs s !! vg = Some x -> vg_pvs x = map (fun r => r.1.1) rs -> Forall (pv_safe s) rs ->
  Z.of_nat (length rs) < 2 ^ 32 -> zsum (map (fun r => total_len r.2) rs) < 2 ^ 32 ->
  exists b, check_pv_segments vg s = Some (b, s) /\
    (b = true <-> Forall (pv_consistent s) rs /\ vg_pv_count x = Z.of_nat (length rs) /\
       vg_free_count x = zsum (map (fun r => pv_free r.1.2) rs) /\
       vg_extent_count x = zsum (map (fun r => pv_pe_count r.1.2) rs)).
Proof.
  intros Hx Hpvs Hsafe Hn Hext. unfold check_pv_segments. mstep. rewrite Hpvs.
  destruct (check_pvs_loop_spec s rs (CheckCounts 0 0 0 true)) as (b & Hb & Hiff);
    [done|cbn; lia..|]. erewrite bind_exec by exact Hb. cbn [cc_pv cc_free cc_extent cc_ret] in *.
  rewrite !Z.add_0_l. eexists. split; [reflexivity|]. rewrite !andb_true_iff, Hiff, !Z.eqb_eq.
  assert (Forall (pv_consistent s) rs ->
    zsum (map (fun r => total_len r.2 - alloced r.2.*2) rs) = zsum (map (fun r : pv_rec => pv_free r.1.2) rs) /\
    zsum (map (fun r => total_len r.2) rs) = zsum (map (fun r : pv_rec => pv_pe_count r.1.2) rs)) as Hsum.
  { intros Hc. split; f_equal; apply map_ext_Forall; (eapply Forall_impl; [exact Hc|]);
      intros [[p v] l] (Hcov & Ha & _); cbn [fst snd] in *; apply covers_total in Hcov; unfold pv_free; lia. }
  split.
  - intros ((((_ & Hc) & H1) & H2) & H3). destruct (Hsum Hc). repeat split; [done|lia..].
  - intros (Hc & H1 & H2 & H3). destruct (Hsum Hc). repeat split; [done|lia..].
Qed.

(** ** Resizing *)

(** The segments that end after extent [n] are free. *)
Definition tail_free (n : Z) (l : list pv_segment) : Prop :=
  Forall (fun g => n < peg_pe g + peg_len g -> peg_lvseg g = None) l.

Lemma reduce_check_spec s (l : list (nat * pv_segment)) lo hi n :
  Forall (fun q => st_pegs s !! q.1 = Some q.2) l -> covers lo l.*2 hi -> 0 <= lo -> hi < 2 ^ 32 ->
  exists b, reduce_check_loop l.*1 n s = Some (b, s) /\ (b = true <-> tail_free n l.*2).
Proof.
  intros Hl. revert lo. unfold tail_free. induction Hl as [|[j g] l Hj Hl IH]; intros lo Hc Hlo Hhi.
  { exists true. by split. }
  change (((j, g) :: l).*2) with (g :: l.*2) in *. cbn [covers] in Hc. destruct Hc as (Hpe & Hlen & Hc).
  pose proof (covers_le _ _ _ Hc). destruct (IH _ Hc) as (b & Hb & Hiff); [lia..|].
  cbn [fmap list_fmap fst reduce_check_loop]. cbn [fst snd] in Hj. mstep. rewrite wrap32_small by lia.
  destruct (Z.leb_spec (peg_pe g + peg_len g) n).
  - exists b. split; [exact Hb|]. rewrite Forall_cons, Hiff. split; [intros ?; split; [lia|done]|tauto].
  - destruct (peg_lvseg g) eqn:E.
    + exists false. split; [done|]. rewrite Forall_cons. split; [done|]. intros [Hg _].
      rewrite E in Hg. by specialize (Hg ltac:(lia)).
    + exists b. split; [exact Hb|]. rewrite Forall_cons, Hiff. split; [intros ?; split; done|tauto].
Qed.

Lemma tail_free_alloced lo l hi n : covers lo l hi -> lo <= n -> tail_free n l -> alloced l <= n - lo.
Proof.
  intros Hc Hlo Ht. revert lo Hc Hlo. induction Ht as [|g l Hg Ht IH]; intros lo Hc Hlo; [cbn; lia|].
  cbn [covers] in Hc. destruct Hc as (Hpe & Hlen & Hc). rewrite alloced_cons.
  destruct (Z.lt_ge_cases n (peg_pe g + peg_len g)) as [Hlt|Hge].
  - assert (alloced l = 0) as ->.
    { clear IH. assert (n < lo + peg_len g) as Hn by lia. clear Hg Hlt Hpe Hlen. revert Hn Hc.
      generalize (lo + peg_len g) as a. induction Ht as [|h l Hh Ht IH]; intros a Ha Hc; [done|].
      cbn [covers] in Hc. destruct Hc as (? & ? & Hc). rewrite alloced_cons. unfold alloc_len.
      rewrite Hh by lia. rewrite (IH (a + peg_len h)); [lia|lia|done]. }
    unfold alloc_len. rewrite Hg by done. lia.
  - specialize (IH _ Hc). pose proof (alloc_len_range g Hlen). lia.
Qed.

Lemma reduce_del_beyond s (l : list (nat * pv_segment)) r lo hi n :
  Forall (fun q => st_pegs s !! q.1 = Some q.2) l -> covers lo l.*2 hi ->
  reduce_del_loop l.*1 n s = Some (r, s) -> 0 <= n <= lo -> hi < 2 ^ 32 -> r = [].
Proof.
  intros Hl. revert lo r. induction Hl as [|[j g] l Hj Hl IH]; intros lo r Hc Hr Hn Hhi.
  { by injection Hr as <-. }
  change (((j, g) :: l).*2) with (g :: l.*2) in *. cbn [covers] in Hc. destruct Hc as (Hpe & Hlen & Hc).
  pose proof (covers_le _ _ _ Hc). cbn [fmap list_fmap fst reduce_del_loop] in Hr. cbn [fst snd] in Hj.
  erewrite bind_get in Hr by lk. destruct (reduce_del_loop l.*1 n s) as [[r' s']|] eqn:E; cycle 1.
  { unfold mbind, M_bind in Hr. by rewrite E in Hr. }
  erewrite bind_exec in Hr by exact E. rewrite wrap32_small, (proj2 (Z.ltb_lt _ _)) in Hr by lia.
  apply (inj Some) in Hr. injection Hr as -> ->. apply (IH (lo + peg_len g) r Hc); [done|lia..].
Qed.

Lemma reduce_del_spec s (l : list (nat * pv_segment)) lo hi n :
  Forall (fun q => st_pegs s !! q.1 = Some q.2) l -> covers lo l.*2 hi -> 0 <= lo -> hi < 2 ^ 32 ->
  exists r, reduce_del_loop l.*1 n s = Some (r, s) /\
    forall l1 l2, l = l1 ++ l2 -> covers lo l1.*2 n -> r = l1.*1.
Proof.
  intros Hl. revert lo. induction Hl as [|[j g] l Hj Hl IH]; intros lo Hc Hlo Hhi.
  { exists []. split; [done|]. by intros [|] [|]. }
  change (((j, g) :: l).*2) with (g :: l.*2) in *. cbn [covers] in Hc. destruct Hc as (Hpe & Hlen & Hc).
  pose proof (covers_le _ _ _ Hc). destruct (IH _ Hc) as (r & Hr & Hspec); [lia..|].
  cbn [fmap list_fmap fst reduce_del_loop]. cbn [fst snd] in Hj. mstep. erewrite bind_exec by exact Hr.
  rewrite wrap32_small by lia. eexists. split; [reflexivity|]. intros [|q l1] l2 E Hc1.
  - cbn in Hc1. cbn in E. subst n. rewrite (proj2 (Z.ltb_lt _ _)) by lia.
    rewrite (reduce_del_beyond s l r _ _ lo Hl Hc Hr); [done|lia..].
  - injection E as <- ->. change (((j, g) :: l1).*2) with (g :: l1.*2) in Hc1. cbn [covers] in Hc1.
    destruct Hc1 as (_ & _ & Hc1). pose proof (covers_le _ _ _ Hc1).
    rewrite (proj2 (Z.ltb_ge _ _)) by lia. cbn. f_equal. by apply (Hspec l1 l2).
Qed.

(** Dropping the segments behind a boundary. *)
Lemma segs_ok_drop p n v k1 j h k2 v' :
  segs_ok p n v (k1 ++ (j, h) :: k2) -> tail_free (peg_pe h) (k1 ++ (j, h) :: k2).*2 ->
  pv_pe_alloc_count v' = pv_pe_alloc_count v -> segs_ok p (peg_pe h) v' k1.
Proof.
  intros [Hnd Hpv Hc Hr Ha] Ht Hv'. rewrite !fmap_app, !fmap_cons in *. cbn [fst snd] in *.
  pose proof Hc as (H1 & Hl & H2)%covers_middle. apply covers_le in H2. split.
  - by apply NoDup_app in Hnd as (? & _).
  - by apply Forall_app in Hpv as [? _].
  - done.
  - lia.
  - rewrite Hv', Ha, alloced_app. unfold tail_free in Ht. apply Forall_app in Ht as [_ Ht].
    assert (alloced (h :: k2.*2) = 0) as ->; [|lia].
    apply covers_app in Hc as (mid & Hc1 & Hc2). cbn [covers] in Hc2. destruct Hc2 as (<- & Hc2).
    assert (covers (peg_pe h) (h :: k2.*2) n) as Hc3 by (by cbn).
    pose proof (tail_free_alloced _ _ _ (peg_pe h) Hc3 ltac:(lia) Ht).
    pose proof (alloced_range _ _ _ Hc3). lia.
Qed.

Lemma view_drop s p v k1 k2 v' s' :
  view s p v (k1 ++ k2) -> st_pvs s' = <[p := v']> (st_pvs s) -> st_pegs s' = st_pegs s ->
  pv_segments v' = k1.*1 -> view s' p v' k1.
Proof.
  intros (Hv & Hl & Hg) Hp Hq Hv'. split; [by rewrite Hp, lookup_insert_eq|]. split; [done|].
  rewrite Hq. by apply Forall_app in Hg as [? _].
Qed.

Lemma split_list_tail_free p pe f l l' j fr :
  split_list p pe f l l' j fr -> tail_free pe l.*2 -> tail_free pe l'.*2.
Proof.
  intros [l1 i g l2 _|l1 i g l2 Hpe]; [done|]. unfold tail_free. rewrite !fmap_app, !fmap_cons. cbn [snd].
  intros [H1 [Hg H2]%Forall_cons]%Forall_app. apply Forall_app. split; [done|].
  constructor; [cbn; lia|]. by constructor.
Qed.

Lemma reduce_spec s vg x p n v l new :
  split_pre s vg x p n v l -> pv_pe_count v = 0 -> 0 < new < n ->
  n - new <= vg_extent_count x < 2 ^ 32 -> n - pv_pe_alloc_count v <= vg_free_count x ->
  (~ tail_free new l.*2 /\ reduce_pv p vg n new s = Some (false, s)) \/
  (tail_free new l.*2 /\ exists s' k1, reduce_pv p vg n new s = Some (true, s') /\
     let v' := set_pv_pe_count new (with_segs v (pv_pe_alloc_count v) k1.*1) in
     let x' := with_counts x (vg_extent_count x - (n - new)) (vg_free_count x - (n - new)) in
     pv_change s s' vg x' p v' k1 /\ segs_ok p new v' k1 /\ Forall (owned_by s vg) k1.*2 /\
     forall e, owner k1.*2 e = if decide (e < new) then owner l.*2 e else None) \/
  (tail_free new l.*2 /\ ~ no_oom s /\ reduce_pv p vg n new s = Some (false, alloc_tick s)).
Proof.
  intros Hpre Hcnt Hnew Hext Hfr. pose proof Hpre as [Hview Hs Hf Hvg Ho Hfree]. pose proof Hview as (Hv & Hseg & Hg).
  pose proof (so_covers _ _ _ _ Hs) as Hc. pose proof (so_range _ _ _ _ Hs) as Hn.
  unfold reduce_pv. mstep.
  destruct (reduce_check_spec s l 0 n new Hg Hc ltac:(lia) Hn) as (b & Hb & Hiff).
  destruct (Z.ltb_spec new (pv_pe_alloc_count v)) as [Hlt|Hge].
  { left. split; [|done]. intros Ht. apply (tail_free_alloced 0 _ n) in Ht; [|done|lia].
    rewrite (so_alloced _ _ _ _ Hs) in Hlt. lia. }
  rewrite Hseg. erewrite bind_exec by exact Hb. destruct b; cbn [negb]; cycle 1.
  { left. split; [|done]. intros Ht. by apply Hiff in Ht. }
  assert (tail_free new l.*2) as Ht by by apply Hiff. clear Hiff Hb. right.
  destruct (find_peg_by_pe_spec s p n v l new Hview Hs ltac:(lia)) as (l1 & i & g & l2 & E & Hin & _).
  assert (peg_lvseg g = None) as Hgf.
  { unfold tail_free in Ht. rewrite Forall_forall in Ht. apply Ht; [|lia]. rewrite E.
    apply list_elem_of_fmap. exists (i, g). set_solver. }
  destruct (pv_split_segment_spec s vg x p n v l new Hpre) as [(s1 & l' & j & fr & He & Hsp & Hfr' & Hch)|[He Ha]];
    [lia..| |]; cycle 1.
  { right. split; [done|]. split; [intros Hno; by rewrite no_oom_ok in Ha|]. by erewrite bind_exec by exact He. }
  left. split; [done|]. erewrite bind_exec by exact He. cbn [negb fst].
  pose proof (split_pre_split _ _ _ _ _ _ _ _ _ _ _ _ Hpre Hsp Hfr' Hch) as Hp1.
  destruct (split_list_free _ _ _ _ _ _ _ _ _ _ _ _ _ Hs Hsp E Hin Hgf) as (-> & Hown & (k1 & h & k2 & El & Hh & Hh2 & _) & _ & _).
  rewrite Z.sub_0_r, Z.add_0_r, with_counts_same in *.
  pose proof (split_list_tail_free _ _ _ _ _ _ _ Hsp Ht) as Ht'. rewrite El in Hp1, Hch, Ht', Hown.
  pose proof Hp1 as [Hview1 Hs1 _ Hvg1 Ho1 _]. destruct Hview1 as (Hv1 & Hseg1 & Hg1).
  pose proof (so_covers _ _ _ _ Hs1) as Hc1.
  destruct (reduce_del_spec s1 (k1 ++ (j, h) :: k2) 0 n new Hg1 Hc1 ltac:(lia) Hn) as (r & Hr & Hrspec).
  rewrite fmap_app, fmap_cons in Hc1. cbn [snd] in Hc1. pose proof Hc1 as (Hck1 & _)%covers_middle.
  rewrite Hh in Hck1. specialize (Hrspec k1 ((j, h) :: k2) eq_refl Hck1). subst r.
  mstep. cbn [with_segs set_pv_pe_alloc_count set_pv_segments pv_segments]. erewrite bind_exec by exact Hr.
  do 4 mstep. rewrite !(wrap32_small (n - new)) by lia.
  pose proof (tail_free_alloced 0 _ n new Hc ltac:(lia) Ht) as Hal.
  rewrite <- (so_alloced _ _ _ _ Hs) in Hal. cbn [vg_free_count set_vg_extent_count].
  rewrite !wrap32_small by lia. eexists _, k1. split; [reflexivity|]. cbn zeta.
  assert (segs_ok p new (set_pv_pe_count new (with_segs v (pv_pe_alloc_count v) k1.*1)) k1) as Hs'.
  { rewrite <- Hh in Ht' |- *. by eapply segs_ok_drop. }
  assert (Forall (owned_by s vg) k1.*2) as Hok1.
  { eapply Forall_owned_by_back in Ho1; [|exact Hch]. rewrite fmap_app in Ho1. by apply Forall_app in Ho1 as [? _]. }
  split; [|split; [done|split; [done|]]].
  - eapply pv_change_trans; [exact Hch|]. split; try done.
    + cbn. by rewrite !insert_insert_eq.
    + cbn. by rewrite !insert_insert_eq.
    + eapply (view_drop s1 p _ k1 ((j, h) :: k2)); [by split|cbn; rewrite !insert_insert_eq; reflexivity|done|done].
    + apply Hp1.
  - intros e. rewrite <- Hown, fmap_app, fmap_cons. cbn [snd].
    rewrite (owner_middle _ _ _ _ _ e Hc1). rewrite Hh. case_decide; [done|].
    apply (owner_out _ _ _ _ Hck1). lia.
Qed.

Lemma extend_spec s vg x p n v l new :
  split_pre s vg x p n v l -> 0 <= n < new -> new < 2 ^ 32 -> 0 <= pv_pe_size v < 2 ^ 32 ->
  new * pv_pe_size v <= pv_size v ->
  0 <= vg_extent_count x -> vg_extent_count x + (new - n) < 2 ^ 32 -> vg_free_count x <= vg_extent_count x ->
  (exists s' l', extend_pv p vg n new s = Some (true, s') /\
     let v' := set_pv_pe_count new (with_segs v (pv_pe_alloc_count v) l'.*1) in
     let x' := with_counts x (vg_extent_count x + (new - n)) (vg_free_count x + (new - n)) in
     pv_change s s' vg x' p v' l' /\ segs_ok p new v' l' /\ Forall (owned_by s vg) l'.*2 /\
     forall e, owner l'.*2 e = owner l.*2 e) \/
  (~ no_oom s /\ extend_pv p vg n new s = Some (false, alloc_tick s)).
Proof.
  intros Hpre Hn Hnew Hps Hsize He0 He Hfe. pose proof Hpre as [Hview Hs Hf Hvg Ho Hfree].
  pose proof Hview as (Hv & Hseg & Hg). unfold extend_pv. mstep.
  assert (new * pv_pe_size v < 2 ^ 32 * 2 ^ 32) by (apply Z.mul_lt_mono_nonneg; lia).
  assert (0 <= new * pv_pe_size v) by (apply Z.mul_nonneg_nonneg; lia).
  rewrite wrap64_small, (proj2 (Z.ltb_ge _ _)) by lia. unfold alloc_pv_segment.
  destruct (alloc_ok s) eqn:Ea; cycle 1.
  { right. split; [intros Hno; by rewrite no_oom_ok in Ea|]. by rewrite bind_alloc_peg_fail. }
  left. rewrite bind_alloc_peg by done. cbn beta iota. do 4 mstep. rewrite !(wrap32_small (new - n)) by lia.
  cbn [vg_free_count set_vg_extent_count]. rewrite !wrap32_small by lia. rewrite Hseg.
  set (g := PvSegment (Some p) n (new - n) None 0).
  exists (Store (<[st_next s := g]> (st_pegs s))
    (<[p := set_pv_pe_count new (with_segs v (pv_pe_alloc_count v) (l ++ [(st_next s, g)]).*1)]> (st_pvs s))
    (st_segs s) (st_lvs s)
    (<[vg := with_counts x (vg_extent_count x + (new - n)) (vg_free_count x + (new - n))]> (st_vgs s))
    (S (st_next s)) (tail (st_alloc s)) (st_discards s)), (l ++ [(st_next s, g)]).
  split.
  { cbn. rewrite !insert_insert_eq, fmap_app. by destruct v. }
  pose proof (split_pre_fresh _ _ _ _ _ _ _ Hpre) as Hfresh. destruct Hs as [Hnd Hpv Hc Hr Hal].
  split; [|split; [|split]].
  - split; try done; cbn.
    + intros i h Hi _. rewrite lookup_insert_ne; [done|]. intros <-. by rewrite Hf in Hi.
    + split; [cbn; by rewrite lookup_insert_eq|]. split; [done|]. apply Forall_app. cbn. split.
      * rewrite Forall_forall in Hg |- *. intros [i h] Hi. cbn. rewrite lookup_insert_ne; [by apply (Hg (i, h))|].
        intros <-. apply Hfresh, list_elem_of_fmap. by exists (st_next s, h).
      * constructor; [|done]. cbn. by rewrite lookup_insert_eq.
    + intros i Hi. cbn in Hi |- *. rewrite lookup_insert_ne by lia. apply Hf. lia.
    + apply suffix_tail.
  - split; rewrite ?fmap_app; cbn [fmap list_fmap fst snd].
    + apply NoDup_app. split; [done|]. split; [|apply NoDup_singleton].
      intros i Hi ->%list_elem_of_singleton. done.
    + apply Forall_app. split; [done|]. by constructor.
    + apply covers_app. exists n. split; [done|]. cbn. lia.
    + lia.
    + cbn. rewrite Hal, alloced_app. unfold alloced. cbn. lia.
  - rewrite fmap_app. apply Forall_app. split; [done|]. constructor; [by intros ?|done].
  - intros e. rewrite fmap_app. cbn.
    assert (covers 0 (l.*2 ++ g :: []) new) as Hc' by (apply covers_app; exists n; cbn; split; [done|lia]).
    rewrite (owner_middle _ _ _ _ _ e Hc'). cbn. repeat case_decide; [done|..].
    + rewrite (owner_out _ _ _ _ Hc) by lia. by destruct (_ && _).
    + by rewrite (owner_out _ _ _ _ Hc) by lia.
Qed.

(** What the format's [pv_resize] does to the PV: its size is set and the number
    of extents is to be worked out again. *)
Definition reset_pv (p : nat) (sz : Z) (s : store) : store :=
  match st_pvs s !! p with
  | Some v => set_tbl (<[p := set_pv_pe_count 0 (set_pv_size sz v)]> (st_pvs s)) s
  | None => s
  end.

Lemma reset_pv_change s vg x p v l sz :
  view s p v l -> st_vgs s !! vg = Some x -> fresh_ok s ->
  pv_change s (reset_pv p sz s) vg x p (set_pv_pe_count 0 (set_pv_size sz v)) l.
Proof.
  intros (Hv & Hl & Hg) Hx Hf. unfold reset_pv. rewrite Hv. split; try done.
  - cbn. symmetry. by apply insert_id.
  - split; [cbn; by rewrite lookup_insert_eq|]. by split.
Qed.

Section resize.
Context (s : store) (vg : nat) (x : volume_group) (p : nat) (v : physical_volume)
        (l : list (nat * pv_segment)) (sz new : Z).
Hypothesis Hvg : vg_ok s vg x.
Hypothesis Hp : p ∈ vg_pvs x.
Hypothesis Hok : pv_ok s vg p v l.
Hypothesis Hext : 0 < vg_extent_size x.
Hypothesis Hpes : pv_pe_size v = vg_extent_size x.
Hypothesis Hpes32 : vg_extent_size x < 2 ^ 32.
Hypothesis Hnew : new = sz / vg_extent_size x.
Hypothesis Hnew32 : 0 < new < 2 ^ 32.
Hypothesis Hroom : vg_extent_count x + (new - pv_pe_count v) < 2 ^ 32.

(** The outcome of a resize that succeeds. *)
Definition resized (s' : store) : Prop :=
  exists x' v' l', vg_ok s' vg x' /\ pv_ok s' vg p v' l' /\ pv_pe_count v' = new /\
    vg_extent_count x' = vg_extent_count x + (new - pv_pe_count v) /\
    vg_free_count x' = vg_free_count x + (new - pv_pe_count v) /\
    forall e, owner l'.*2 e = if decide (e < new) then owner l.*2 e else None.

Lemma resized_change s' v' l' :
  pv_change s s' vg (with_counts x (vg_extent_count x + (new - pv_pe_count v))
                      (vg_free_count x + (new - pv_pe_count v))) p v' l' ->
  segs_ok p new v' l' -> Forall (owned_by s vg) l'.*2 -> pv_pe_count v' = new ->
  pv_pe_alloc_count v' = pv_pe_alloc_count v ->
  (forall e, owner l'.*2 e = if decide (e < new) then owner l.*2 e else None) -> resized s'.
Proof.
  intros Hc Hs Ho Hcnt Ha Hown. eexists _, v', l'. split; [|split; [|split; [done|]]].
  - eapply vg_ok_change; [exact Hvg|exact Hp|apply Hok|exact Hc|by rewrite Hcnt|done|lia| |lia].
    unfold pv_free. lia.
  - eapply pv_ok_change; [exact Hc|by rewrite Hcnt|done].
  - split; [done|]. split; [done|]. exact Hown.
Qed.

Let s1 := reset_pv p sz s.
Let v1 := set_pv_pe_count 0 (set_pv_size sz v).

Lemma resize_reset : pv_change s s1 vg x p v1 l /\ split_pre s1 vg x p (pv_pe_count v) v1 l.
Proof.
  pose proof Hok as (Hview & Hs & Ho). pose proof (vg_ok_bounds _ _ _ _ _ _ Hvg Hp Hok).
  pose proof (vo_range _ _ _ Hvg).
  assert (pv_change s s1 vg x p v1 l) as Hc by (apply reset_pv_change; [done|apply Hvg..]).
  split; [exact Hc|]. split.
  - apply Hc.
  - destruct Hs. by split.
  - apply Hc.
  - by rewrite (pc_vgs _ _ _ _ _ _ _ Hc), lookup_insert_eq.
  - eapply Forall_impl; [exact Ho|]. intros g. by eapply owned_by_change.
  - cbn. lia.
Qed.

Lemma resize_grow : pv_pe_count v < new ->
  (exists s', extend_pv p vg (pv_pe_count v) new s1 = Some (true, s') /\ resized s') \/
  (~ no_oom s /\ extend_pv p vg (pv_pe_count v) new s1 = Some (false, alloc_tick s1)).
Proof.
  intros Hlt. destruct resize_reset as [Hc Hpre]. pose proof (vg_ok_bounds _ _ _ _ _ _ Hvg Hp Hok) as Hb.
  unfold pv_free in Hb.
  destruct (extend_spec s1 vg x p (pv_pe_count v) v1 l new Hpre)
    as [(s' & l' & He & Hc' & Hs' & Ho' & Hown)|[Hno He]]; cbn [pv_pe_size pv_size v1 set_pv_pe_count set_pv_size];
    [lia|lia|lia| |lia|lia|lia| |].
  - rewrite Hpes, Hnew, Z.mul_comm. apply Z.mul_div_le. lia.
  - left. exists s'. split; [done|]. eapply resized_change; [|exact Hs'| |done|done|].
    + eapply pv_change_trans; [exact Hc|exact Hc'].
    + eapply Forall_owned_by_back; [exact Hc|done].
    + intros e. rewrite Hown. case_decide; [done|]. destruct Hok as (_ & Hs & _).
      apply (owner_out _ _ _ _ (so_covers _ _ _ _ Hs)). lia.
  - right. split; [|done]. intros H. apply Hno. eapply no_oom_suffix; [exact H|apply Hc].
Qed.

Lemma resize_shrink : new < pv_pe_count v ->
  (tail_free new l.*2 /\ exists s', reduce_pv p vg (pv_pe_count v) new s1 = Some (true, s') /\ resized s') \/
  (~ (tail_free new l.*2 /\ no_oom s) /\ exists s', reduce_pv p vg (pv_pe_count v) new s1 = Some (false, s')).
Proof.
  intros Hlt. destruct resize_reset as [Hc Hpre]. pose proof (vg_ok_bounds _ _ _ _ _ _ Hvg Hp Hok) as Hb.
  pose proof (vo_range _ _ _ Hvg). unfold pv_free in Hb.
  destruct (reduce_spec s1 vg x p (pv_pe_count v) v1 l new Hpre)
    as [[Ht He]|[(Ht & s' & k1 & He & Hc' & Hs' & Ho' & Hown)|(Ht & Hno & He)]];
    [done|lia|lia|cbn; lia|..].
  - right. split; [tauto|eauto].
  - left. split; [done|]. exists s'. split; [done|]. eapply resized_change; [|exact Hs'| |done|done|exact Hown].
    + eapply pv_change_trans; [exact Hc|].
      replace (vg_extent_count x + (new - pv_pe_count v)) with (vg_extent_count x - (pv_pe_count v - new)) by lia.
      replace (vg_free_count x + (new - pv_pe_count v)) with (vg_free_count x - (pv_pe_count v - new)) by lia.
      exact Hc'.
    + eapply Forall_owned_by_back; [exact Hc|done].
  - right. split; [|eauto]. intros [_ H']. apply Hno. eapply no_oom_suffix; [exact H'|apply Hc].
Qed.

Lemma resize_same : new = pv_pe_count v ->
  exists s', (modify p (set_pv_pe_count (pv_pe_count v));; mret true) s1 = Some (true, s') /\ resized s'.
Proof.
  intros E. destruct resize_reset as [Hc Hpre]. pose proof Hpre as [Hv1 Hs1 Hf1 Hx1 Ho1 _].
  pose proof (proj1 Hv1) as Hl1. mstep. eexists. split; [reflexivity|].
  destruct Hok as (Hview & Hs & Ho). set (v' := set_pv_pe_count (pv_pe_count v) v1).
  eapply (resized_change _ v' l); [|rewrite E; destruct Hs; by split|done|by rewrite E|done|].
  - eapply pv_change_trans; [exact Hc|]. rewrite E, Z.sub_diag, !Z.add_0_r, with_counts_same.
    destruct (pv_change_refl s1 vg x p v1 l) as [H1 H2 H3 H4 H5 H6 H7 H8 H9]; [done..|].
    split; try done; cbn. destruct Hv1 as (? & ? & ?). split; [cbn; by rewrite lookup_insert_eq|]. by split.
  - intros e. rewrite E. case_decide; [done|]. apply (owner_out _ _ _ _ (so_covers _ _ _ _ Hs)). lia.
Qed.

End resize.

(** ** Counting free extents *)

(** The number of extents from [lo] up to [hi] that nobody owns. *)
Definition free_between (l : list pv_segment) (lo hi : Z) : Z :=
  zsum (map (fun e => if owner l e is None then 1 else 0) (seqZ lo (hi - lo))).

Lemma free_between_split l lo mid hi :
  lo <= mid <= hi -> free_between l lo hi = free_between l lo mid + free_between l mid hi.
Proof.
  intros H. unfold free_between. replace (hi - lo) with ((mid - lo) + (hi - mid)) by lia.
  rewrite seqZ_app by lia. rewrite map_app, zsum_app. do 4 f_equal. lia.
Qed.

Lemma free_between_ext l l' lo hi :
  (forall e, lo <= e < hi -> owner l e = owner l' e) -> free_between l lo hi = free_between l' lo hi.
Proof.
  intros H. unfold free_between. f_equal. apply map_ext_in. intros e He%list_elem_of_In%elem_of_seqZ.
  rewrite H by lia. done.
Qed.

Lemma free_between_empty l lo hi : hi <= lo -> free_between l lo hi = 0.
Proof. intros H. unfold free_between. by rewrite seqZ_nil by lia. Qed.

Lemma zsum_const {A} (f : A -> Z) (l : list A) c :
  (forall a, a ∈ l -> f a = c) -> zsum (map f l) = c * Z.of_nat (length l).
Proof.
  induction l as [|a l IH]; intros H; [cbn; lia|]. cbn [map length]. rewrite zsum_cons, IH.
  - rewrite (H a) by constructor. lia.
  - intros b Hb. apply H. by constructor.
Qed.

Lemma free_between_seg g lo hi :
  peg_pe g <= lo -> hi <= peg_pe g + peg_len g -> lo <= hi ->
  free_between [g] lo hi = if peg_lvseg g is None then hi - lo else 0.
Proof.
  intros H1 H2 H3. unfold free_between.
  rewrite (zsum_const _ _ (if peg_lvseg g is None then 1 else 0)).
  - rewrite length_seqZ. destruct (peg_lvseg g); lia.
  - intros e He%elem_of_seqZ. cbn. rewrite (proj2 (Z.leb_le _ _)), (proj2 (Z.ltb_lt _ _)) by lia.
    cbn. by destruct (peg_lvseg g).
Qed.

(** The overlap of the free segments with a range. *)
Definition free_overlap (per : pe_range) (g : pv_segment) : Z :=
  if peg_lvseg g is None then overlap_pe g per else 0.

Lemma overlap_pe_spec g per :
  0 <= peg_pe g -> 0 < peg_len g -> peg_pe g + peg_len g < 2 ^ 32 ->
  0 <= per_start per -> 0 <= per_count per -> per_start per + per_count per < 2 ^ 32 ->
  overlap_pe g per =
    Z.max 0 (Z.min (peg_pe g + peg_len g) (per_start per + per_count per) - Z.max (peg_pe g) (per_start per)).
Proof.
  intros. unfold overlap_pe. rewrite !(wrap32_small (_ + _)) by lia.
  destruct (Z.ltb_spec (Z.min (peg_pe g + peg_len g) (per_start per + per_count per))
              (Z.max (peg_pe g) (per_start per))); [lia|]. rewrite wrap32_small by lia. lia.
Qed.

Lemma free_overlap_sum lo l hi per :
  covers lo l hi -> 0 <= lo -> hi < 2 ^ 32 ->
  0 <= per_start per -> 0 <= per_count per -> per_start per + per_count per < 2 ^ 32 ->
  zsum (map (free_overlap per) l) =
    free_between l (Z.max lo (per_start per)) (Z.min hi (per_start per + per_count per)).
Proof.
  intros Hc Hlo Hhi H1 H2 H3. revert lo Hc Hlo. induction l as [|g l IH]; intros lo Hc Hlo.
  { cbn in Hc. subst hi. rewrite free_between_empty by lia. done. }
  pose proof Hc as Hc0. cbn [covers] in Hc. destruct Hc as (Hpe & Hlen & Hc).
  pose proof (covers_le _ _ _ Hc). cbn [map]. rewrite zsum_cons, (IH _ Hc) by lia.
  set (a := Z.max lo (per_start per)). set (b := Z.min hi (per_start per + per_count per)).
  assert (forall e, owner (g :: l) e = if decide (e < peg_pe g) then None
    else if decide (e < peg_pe g + peg_len g) then owner [g] e else owner l e) as Hown.
  { intros e. exact (owner_middle lo [] g l hi e Hc0). }
  unfold free_overlap. rewrite overlap_pe_spec by lia.
  destruct (Z.le_gt_cases b a) as [Hba|Hba].
  { rewrite (free_between_empty _ a b) by lia. rewrite free_between_empty by lia.
    destruct (peg_lvseg g); lia. }
  destruct (Z.le_gt_cases (lo + peg_len g) a) as [Hga|Hga].
  { replace (Z.max (lo + peg_len g) (per_start per)) with a by lia. fold b.
    rewrite (free_between_ext (g :: l) l a b) by (intros e He; rewrite Hown, !decide_False by lia; done).
    destruct (peg_lvseg g); lia. }
  set (m := Z.min b (lo + peg_len g)).
  rewrite (free_between_split _ a m b) by lia.
  rewrite (free_between_ext (g :: l) [g] a m), free_between_seg by
    (lia || (intros e He; rewrite Hown, decide_False, decide_True by lia; done)).
  f_equal.
  - destruct (peg_lvseg g); lia.
  - destruct (Z.le_gt_cases b (lo + peg_len g)).
    + rewrite !free_between_empty by lia. done.
    + replace m with (Z.max (lo + peg_len g) (per_start per)) by lia. symmetry.
      apply free_between_ext. intros e He. rewrite Hown, !decide_False by lia. done.
Qed.

Definition range_ok (per : pe_range) : Prop :=
  0 <= per_start per /\ 0 <= per_count per /\ per_start per + per_count per < 2 ^ 32.

(** Free extents of a PV with [n] extents in a list of ranges. *)
Definition free_in_ranges (l : list (nat * pv_segment)) (n : Z) (pers : list pe_range) : Z :=
  zsum (map (fun per => free_between l.*2 (per_start per) (Z.min n (per_start per + per_count per))) pers).

Lemma free_segs_loop_spec s (l : list (nat * pv_segment)) lo hi per acc :
  Forall (fun q => st_pegs s !! q.1 = Some q.2) l -> covers lo l.*2 hi -> 0 <= lo -> hi < 2 ^ 32 ->
  range_ok per -> 0 <= acc -> acc + zsum (map (free_overlap per) l.*2) < 2 ^ 32 ->
  free_segs_loop l.*1 per acc s = Some (acc + zsum (map (free_overlap per) l.*2), s).
Proof.
  intros Hl. revert lo acc. induction Hl as [|[j g] l Hj Hl IH]; intros lo acc Hc Hlo Hhi Hper Hacc Hsum.
  { cbn. by rewrite Z.add_0_r. }
  change (((j, g) :: l).*2) with (g :: l.*2) in *. cbn [covers] in Hc. destruct Hc as (Hpe & Hlen & Hc).
  pose proof (covers_le _ _ _ Hc). destruct Hper as (? & ? & ?).
  cbn [fmap list_fmap fst free_segs_loop]. cbn [fst snd] in Hj. mstep. cbn [map] in *. rewrite zsum_cons in *.
  assert (forall g, g ∈ l.*2 -> 0 <= free_overlap per g) as Hnn.
  { intros h Hh. destruct (covers_elem _ _ _ _ Hc Hh) as (? & ? & ?). unfold free_overlap.
    destruct (peg_lvseg h); [lia|]. rewrite overlap_pe_spec by lia. lia. }
  assert (0 <= zsum (map (free_overlap per) l.*2)) as Hrest.
  { apply zsum_nonneg, Forall_map, Forall_forall. exact Hnn. }
  assert (0 <= free_overlap per g) as Hg.
  { unfold free_overlap. destruct (peg_lvseg g); [lia|]. rewrite overlap_pe_spec by lia. lia. }
  assert ((if peg_lvseg g is None then wrap32 (acc + overlap_pe g per) else acc) = acc + free_overlap per g) as ->.
  { unfold free_overlap in *. destruct (peg_lvseg g); [lia|]. apply wrap32_small. lia. }
  rewrite (IH (lo + peg_len g)) by (done || lia). do 2 f_equal. lia.
Qed.

Lemma free_between_nonneg l lo hi : 0 <= free_between l lo hi.
Proof.
  unfold free_between. apply zsum_nonneg, Forall_map, Forall_forall. intros e _. destruct (owner l e); lia.
Qed.

Lemma free_in_ranges_nonneg l n pers : 0 <= free_in_ranges l n pers.
Proof. apply zsum_nonneg, Forall_map, Forall_forall. intros per _. apply free_between_nonneg. Qed.

Lemma free_ranges_loop_spec s p v l n pers acc :
  view s p v l -> covers 0 l.*2 n -> n < 2 ^ 32 -> Forall range_ok pers ->
  0 <= acc -> acc + free_in_ranges l n pers < 2 ^ 32 ->
  free_ranges_loop p pers acc s = Some (acc + free_in_ranges l n pers, s).
Proof.
  intros (Hv & Hl & Hg) Hc Hn Hpers. revert acc. induction Hpers as [|per pers Hper Hpers IH]; intros acc Hacc Hsum.
  { cbn. by rewrite Z.add_0_r. }
  cbn [free_ranges_loop]. mstep. rewrite Hl. unfold free_in_ranges in *. cbn [map] in *. rewrite zsum_cons in *.
  fold (free_in_ranges l n pers) in *. pose proof (free_in_ranges_nonneg l n pers).
  pose proof Hper as (? & ? & ?).
  assert (zsum (map (free_overlap per) l.*2) =
    free_between l.*2 (per_start per) (Z.min n (per_start per + per_count per))) as E.
  { rewrite (free_overlap_sum 0 _ n) by (done || lia). f_equal. lia. }
  pose proof (free_between_nonneg l.*2 (per_start per) (Z.min n (per_start per + per_count per))).
  erewrite bind_exec by (apply (free_segs_loop_spec s l 0 n); [done|done|lia|done|done|done|lia]).
  rewrite IH by lia. do 2 f_equal. lia.
Qed.

(** A PV with its structure, its segments, and the ranges asked about. *)
Lemma free_pvs_loop_spec s (rs : list (pv_rec * list pe_range)) acc :
  Forall (fun r => view s r.1.1.1 r.1.1.2 r.1.2 /\ covers 0 r.1.2.*2 (pv_pe_count r.1.1.2) /\
                   pv_pe_count r.1.1.2 < 2 ^ 32 /\ Forall range_ok r.2) rs ->
  0 <= acc ->
  acc + zsum (map (fun r => free_in_ranges r.1.2 (pv_pe_count r.1.1.2) r.2) rs) < 2 ^ 32 ->
  free_pvs_loop (map (fun r => (r.1.1.1, r.2)) rs) acc s =
    Some (acc + zsum (map (fun r => free_in_ranges r.1.2 (pv_pe_count r.1.1.2) r.2) rs), s).
Proof.
  intros Hrs. revert acc. induction Hrs as [|[[[p v] l] pers] rs (Hv & Hc & Hn & Hper) Hrs IH]; intros acc Hacc Hsum.
  { cbn. by rewrite Z.add_0_r. }
  cbn [fst snd] in *. cbn [map free_pvs_loop] in *. rewrite zsum_cons in *. cbn [fst snd] in *.
  assert (0 <= zsum (map (fun r : pv_rec * list pe_range => free_in_ranges r.1.2 (pv_pe_count r.1.1.2) r.2) rs)).
  { apply zsum_nonneg, Forall_map, Forall_forall. intros r _. apply free_in_ranges_nonneg. }
  pose proof (free_in_ranges_nonneg l (pv_pe_count v) pers).
  erewrite bind_exec by (eapply free_ranges_loop_spec; [done..|lia]).
  rewrite IH by lia. do 2 f_equal. lia.
Qed.
