(* ===== verification/PvProps.v ===== *)
(** * Main theorems on PV segments

    The operations of lib/metadata/pv_manip.c keep the invariant of the volume
    group and change the ownership of extents exactly as they should; the VG
    check decides that invariant. *)

From S2P Require Import Prelude Metadata PvManip PvSegs.

(** ** A small volume group *)

(** VG 1 has PV 1 with ten extents: the first four belong to area 0 of segment 1
    of LV 1, the rest is free. *)
Definition demo_segtype : segment_type := SegmentType (bytes "striped") SEG_AREAS_STRIPED.

Definition demo_seg : lv_segment :=
  LvSegment 1 demo_segtype 0 4 0 0 1 4 None [] [Area AREA_PV (U_pv (Some 1%nat))] no_attrs.

Definition demo_peg1 : pv_segment := PvSegment (Some 1%nat) 0 4 (Some 1%nat) 0.
Definition demo_peg2 : pv_segment := PvSegment (Some 1%nat) 4 6 None 0.
Definition demo_pv : physical_volume := PhysicalVolume (Some 1%nat) ALLOCATABLE_PV 100 8 2 10 4 [1; 2]%nat no_pv_attrs.
Definition demo_vg : volume_group := VolumeGroup (bytes "vg") 0 8 10 6 1 0 0 [1%nat] [1%nat] no_vg_attrs.
Definition demo_lv : logical_volume := LogicalVolume (bytes "lv") 1 0 32 4 [1%nat] [] no_lv_attrs.

Definition demo : store :=
  Store {[1%nat := demo_peg1; 2%nat := demo_peg2]} {[1%nat := demo_pv]} {[1%nat := demo_seg]}
    {[1%nat := demo_lv]} {[1%nat := demo_vg]} 3 [] [].

Definition demo_l : list (nat * pv_segment) := [(1%nat, demo_peg1); (2%nat, demo_peg2)].

Lemma demo_pv_ok : pv_ok demo 1 1 demo_pv demo_l.
Proof.
  split; [split; [reflexivity|split; [reflexivity|repeat constructor]]|]. split.
  - split; [repeat constructor; set_solver|repeat constructor|repeat constructor; cbn; lia|cbn; lia|reflexivity].
  - repeat constructor; intros sg Hsg; [|done]. injection Hsg as <-. by exists demo_seg, demo_lv.
Qed.

Lemma demo_vg_ok : vg_ok demo 1 demo_vg.
Proof.
  split; try reflexivity.
  - apply NoDup_singleton.
  - intros p ->%list_elem_of_singleton. eexists _, _. apply demo_pv_ok.
  - intros i Hi. cbn in Hi.
    change (st_pegs demo) with (<[1%nat := demo_peg1]> {[2%nat := demo_peg2]} : gmap nat pv_segment).
    rewrite lookup_insert_ne by lia. apply lookup_singleton_ne. lia.
Qed.

(** ** Assignment *)

(** C29: Assigning a range of extents that lies inside one free segment to an area
    of an LV segment, when memory lasts, gives exactly those extents to the area
    in order and leaves the owner of every other extent of the PV as it was; the
    PV's segments still cover it and the allocated and free counts of PV and VG
    are exact.  When memory runs out the result is NULL and no extent changed
    hands. *)
Theorem assign_peg_correct s vg x p v l l1 i g l2 pe len seg area y lv :
  vg_ok s vg x -> p ∈ vg_pvs x -> pv_ok s vg p v l -> l = l1 ++ (i, g) :: l2 ->
  peg_lvseg g = None -> peg_pe g <= pe -> 0 < len -> pe + len <= peg_pe g + peg_len g ->
  st_segs s !! seg = Some y -> st_lvs s !! seg_lv y = Some lv -> lv_vg lv = vg ->
  exists r s' x' v' l', assign_peg_to_lvseg (Some p) pe len seg area s = Some (r, s') /\
    vg_ok s' vg x' /\ pv_ok s' vg p v' l' /\ (no_oom s -> r <> None) /\
    match r with
    | Some j => st_pegs s' !! j = Some (PvSegment (Some p) pe len (Some seg) area) /\
                vg_free_count x' = vg_free_count x - len /\
                forall e, owner l'.*2 e =
                  if decide (pe <= e < pe + len) then Some (seg, area, e - pe) else owner l.*2 e
    | None => x' = x /\ forall e, owner l'.*2 e = owner l.*2 e
    end.
Proof.
  intros Hvg Hp Hok E Hg H1 H2 H3 Hy Hlv Hl.
  destruct (assign_spec s vg x p v l l1 i g l2 pe len seg area y lv) as
    [(s' & j & v' & l' & He & _ & Hvg' & Hok' & Hj & _ & Hown & _)|(s' & v' & l' & He & Hno & _ & Hvg' & Hok' & Hown)];
    try done.
  - eexists (Some j), s', _, v', l'. do 4 (split; [done|]). split; [|done].
    destruct Hok' as (Hv & _). by apply (view_elem _ _ _ _ _ _ Hv).
  - exists None, s', x, v', l'. by do 4 (split; [done|]).
Qed.

Lemma assign_peg_correct_witness :
  exists r s' x' v' l', assign_peg_to_lvseg (Some 1%nat) 5 3 1 7 demo = Some (r, s') /\
    vg_ok s' 1 x' /\ pv_ok s' 1 1 v' l' /\ (no_oom demo -> r <> None) /\
    match r with
    | Some j => st_pegs s' !! j = Some (PvSegment (Some 1%nat) 5 3 (Some 1%nat) 7) /\
                vg_free_count x' = vg_free_count demo_vg - 3 /\
                forall e, owner l'.*2 e =
                  if decide (5 <= e < 5 + 3) then Some (1%nat, 7, e - 5) else owner demo_l.*2 e
    | None => x' = demo_vg /\ forall e, owner l'.*2 e = owner demo_l.*2 e
    end.
Proof.
  apply (assign_peg_correct demo 1 demo_vg 1 demo_pv demo_l [(1%nat, demo_peg1)] 2 demo_peg2 [] 5 3 1 7 demo_seg
           demo_lv); try reflexivity; try (cbn; lia).
  - apply demo_vg_ok.
  - constructor.
  - apply demo_pv_ok.
Defined.

(** ** Release *)

(** The sectors a discard touches, in bytes: [b] bytes from byte [o] on. *)
Definition discard_within (v : physical_volume) (x : volume_group) (lo hi : Z) (d : nat * Z * Z) : Prop :=
  512 * extents_sectors v x lo <= d.1.2 /\ d.1.2 + d.2 <= 512 * extents_sectors v x hi /\ 0 < d.1.2.

Lemma discard_of_within p v x pe red n :
  sectors_ok v x n -> 0 <= pe -> 0 < red ->
  Forall (discard_within v x pe (pe + red)) (discard_of p v x pe red).
Proof.
  intros (Hs & He & _) Hpe Hred. unfold discard_of, discard_within, extents_sectors.
  assert (0 <= pe * vg_extent_size x) by (apply Z.mul_nonneg_nonneg; lia).
  rewrite Z.mul_add_distr_r.
  destruct (Z.eqb_spec (pv_pe_start v + pe * vg_extent_size x) 0) as [E|E].
  - destruct (Z.eqb_spec red 1); [constructor|]. repeat constructor; cbn [fst snd]; lia.
  - repeat constructor; cbn [fst snd]; lia.
Qed.

(** C30: Releasing the last [red] extents of an allocated segment whose length is
    that of its LV segment's areas: on success exactly these extents become free,
    every other extent keeps its owner, and all counts stay exact.  Any discard
    issued stays inside the sectors of the released extents and never touches the
    sector 0 of the PV.  It fails only when the discard is refused or memory runs
    out, and then nothing changes hands. *)
Theorem release_peg_correct env s vg x p v k1 j h k2 sg y red :
  vg_ok s vg x -> p ∈ vg_pvs x -> pv_ok s vg p v (k1 ++ (j, h) :: k2) -> pv_vg v = Some vg ->
  sectors_ok v x (pv_pe_count v) -> peg_lvseg h = Some sg -> st_segs s !! sg = Some y ->
  seg_area_len y = peg_len h -> 0 < red <= peg_len h ->
  let lo := peg_pe h + peg_len h - red in
  exists ok s' x' v' l' d, release_pv_segment env j red s = Some (ok, s') /\
    vg_ok s' vg x' /\ pv_ok s' vg p v' l' /\
    st_discards s' = st_discards s ++ d /\ Forall (discard_within v x lo (lo + red)) d /\
    (no_oom s -> (forall q o b, dev_discard_blocks env q o b = true) -> ok = true) /\
    vg_free_count x' = vg_free_count x + (if ok then red else 0) /\
    forall e, owner l'.*2 e =
      if decide (ok = true /\ lo <= e < lo + red) then None else owner (k1 ++ (j, h) :: k2).*2 e.
Proof.
  intros Hvg Hp Hok Hpvg Hsec Hsg Hy Hlen Hred lo.
  pose proof Hok as (_ & Hs & _). pose proof (so_covers _ _ _ _ Hs) as Hcov.
  rewrite fmap_app, fmap_cons in Hcov. cbn [snd] in Hcov. apply covers_middle in Hcov as (Hcl & _ & _).
  apply covers_le in Hcl.
  pose proof (release_spec env s vg x p v k1 j h k2 sg y red Hvg Hp Hok Hpvg Hsec Hsg Hy Hlen Hred) as Hrel.
  cbn zeta in Hrel. set (d := if discards_enabled env p then _ else _) in Hrel.
  assert (Forall (discard_within v x lo (lo + red)) d) as Hd.
  { unfold d. destruct (discards_enabled env p); [|constructor].
    eapply discard_of_within; [exact Hsec|lia..]. }
  destruct Hrel as [(s' & v' & l' & He & Hc & Hvg' & Hok' & _ & Hown)|(s' & He & Hcase)].
  - eexists true, s', _, v', l', d. split; [done|]. split; [exact Hvg'|]. split; [exact Hok'|].
    split; [exact (pc_discards _ _ _ _ _ _ _ Hc)|]. split; [done|]. split; [done|]. split; [done|].
    intros e. rewrite Hown. unfold lo. repeat case_decide; try done; lia.
  - exists false, s', x, v, (k1 ++ (j, h) :: k2), d. split; [done|].
    assert (st_discards s' = st_discards s ++ d /\ vg_ok s' vg x /\ pv_ok s' vg p v (k1 ++ (j, h) :: k2) /\
      (no_oom s -> (forall q o b, dev_discard_blocks env q o b = true) -> false = true)) as (? & ? & ? & ?).
    { destruct Hcase as [(-> & q & o & b & _ & Hf)|(-> & Hno & _)].
      - split; [done|]. split; [by apply vg_ok_discards|]. split; [done|]. intros _ Hall. by rewrite Hall in Hf.
      - split; [done|]. split; [by destruct Hvg; split|]. by split. }
    split; [done|]. split; [done|]. split; [done|]. split; [done|]. split; [done|].
    split; [lia|]. intros e. by rewrite decide_False by (intros [? _]; done).
Qed.

Definition demo_env : discard_env := DiscardEnv (fun _ => true) (fun _ _ _ => true).

Lemma release_peg_correct_witness :
  let lo := 0 + 4 - 3 in
  exists ok s' x' v' l' d, release_pv_segment demo_env 1 3 demo = Some (ok, s') /\
    vg_ok s' 1 x' /\ pv_ok s' 1 1 v' l' /\
    st_discards s' = st_discards demo ++ d /\ Forall (discard_within demo_pv demo_vg lo (lo + 3)) d /\
    (no_oom demo -> (forall q o b, dev_discard_blocks demo_env q o b = true) -> ok = true) /\
    vg_free_count x' = vg_free_count demo_vg + (if ok then 3 else 0) /\
    forall e, owner l'.*2 e =
      if decide (ok = true /\ lo <= e < lo + 3) then None else owner demo_l.*2 e.
Proof.
  apply (release_peg_correct demo_env demo 1 demo_vg 1 demo_pv [] 1 demo_peg1 [(2%nat, demo_peg2)] 1 demo_seg 3);
    try reflexivity; try (cbn; lia).
  - apply demo_vg_ok.
  - constructor.
  - apply demo_pv_ok.
  - repeat split; cbn; lia.
Defined.

(** ** The consistency check *)

(** C33: [check_pv_segments] decides consistency: on a VG whose pointers are valid
    and whose segments are not empty it returns 1 exactly when, on every PV, the
    segments are contiguous from extent 0 to [pe_count], the allocated count is
    the number of extents in allocated segments and every allocated segment is
    the one its LV segment's area points back to with the area's length, and the
    PV, free and extent counts of the VG are the sums over its PVs. *)
Theorem check_pv_segments_decides s vg x rs :
  st_vgs s !! vg = Some x -> vg_pvs x = map (fun r => r.1.1) rs -> Forall (pv_safe s) rs ->
  Z.of_nat (length rs) < 2 ^ 32 -> zsum (map (fun r => total_len r.2) rs) < 2 ^ 32 ->
  exists b, check_pv_segments vg s = Some (b, s) /\
    (b = true <-> Forall (pv_consistent s) rs /\ vg_pv_count x = Z.of_nat (length rs) /\
       vg_free_count x = zsum (map (fun r => pv_free r.1.2) rs) /\
       vg_extent_count x = zsum (map (fun r => pv_pe_count r.1.2) rs)).
Proof. apply check_pv_segments_spec. Qed.

Lemma check_pv_segments_decides_witness :
  exists b, check_pv_segments 1 demo = Some (b, demo) /\
    (b = true <-> Forall (pv_consistent demo) [(1%nat, demo_pv, demo_l)] /\ 1 = 1 /\ 6 = 6 /\ 10 = 10).
Proof.
  apply (check_pv_segments_decides demo 1 demo_vg [(1%nat, demo_pv, demo_l)]); try reflexivity.
  constructor; [|constructor]. split; [apply demo_pv_ok|].
  repeat constructor; intros sg Hsg; [|done]. injection Hsg as <-.
  by exists demo_seg, demo_lv, (Area AREA_PV (U_pv (Some 1%nat))).
Defined.

(** ** Free extents *)

(** [pv_list_extents_free] is the number of extents that nobody owns in the
    ranges given for each PV. *)
Theorem extents_free_counts s (rs : list (pv_rec * list pe_range)) :
  Forall (fun r => view s r.1.1.1 r.1.1.2 r.1.2 /\ covers 0 r.1.2.*2 (pv_pe_count r.1.1.2) /\
                   pv_pe_count r.1.1.2 < 2 ^ 32 /\ Forall range_ok r.2) rs ->
  zsum (map (fun r => free_in_ranges r.1.2 (pv_pe_count r.1.1.2) r.2) rs) < 2 ^ 32 ->
  pv_list_extents_free (map (fun r => (r.1.1.1, r.2)) rs) s =
    Some (zsum (map (fun r => free_in_ranges r.1.2 (pv_pe_count r.1.1.2) r.2) rs), s).
Proof. intros H1 H2. by apply (free_pvs_loop_spec s rs 0). Qed.

Lemma extents_free_counts_witness :
  pv_list_extents_free [(1%nat, [PeRange 2 4; PeRange 8 100])] demo =
    Some (zsum [free_in_ranges demo_l 10 [PeRange 2 4; PeRange 8 100]], demo) /\
  free_in_ranges demo_l 10 [PeRange 2 4; PeRange 8 100] = 4.
Proof.
  split; [|vm_compute; reflexivity].
  apply (extents_free_counts demo [((1%nat, demo_pv, demo_l), [PeRange 2 4; PeRange 8 100])]).
  - constructor; [|constructor]. split; [apply demo_pv_ok|]. split; [cbn; lia|]. split; [cbn; lia|].
    repeat constructor; cbn; lia.
  - vm_compute. reflexivity.
Defined.

(** ** Resizing *)

(** C31: Resizing a PV of a VG to [size] sectors, of which the format leaves [sz]
    to data: the new number of extents is [sz] divided by the extent size, and
    when memory lasts the resize succeeds exactly when no extent beyond it is
    allocated.  After a success the segments cover the new size, the VG's counts
    follow, and every remaining extent keeps its owner; new extents are free. *)
Theorem pv_resize_correct fmt_pv_resize pv_min_size s vg x p v l size sz :
  vg_ok s vg x -> p ∈ vg_pvs x -> pv_ok s vg p v l ->
  0 < vg_extent_size x < 2 ^ 32 -> pv_pe_size v = vg_extent_size x ->
  pv_min_size <= size ->
  fmt_pv_resize p (Some vg) size s = Some (true, reset_pv p sz s) ->
  0 < sz / vg_extent_size x < 2 ^ 32 ->
  vg_extent_count x + (sz / vg_extent_size x - pv_pe_count v) < 2 ^ 32 ->
  exists ok s', pv_resize fmt_pv_resize pv_min_size p (Some vg) size s = Some (ok, s') /\
    (no_oom s -> (ok = true <-> tail_free (sz / vg_extent_size x) l.*2)) /\
    (ok = true -> resized vg x p v l (sz / vg_extent_size x) s').
Proof.
  intros Hvg Hp Hok Hext Hpes Hmin Hfmt Hnew Hroom. pose proof Hok as (Hview & Hs & _).
  destruct Hext as [Hext Hext32]. unfold pv_resize.
  rewrite (proj2 (Z.ltb_ge _ _)) by done. pose proof (proj1 Hview) as Hv. mstep.
  erewrite bind_exec by exact Hfmt. cbn [negb].
  assert (st_pvs (reset_pv p sz s) !! p = Some (set_pv_pe_count 0 (set_pv_size sz v))) as Hv1.
  { unfold reset_pv. rewrite Hv. cbn. by rewrite lookup_insert_eq. }
  assert (st_vgs (reset_pv p sz s) !! vg = Some x) as Hx1.
  { unfold reset_pv. rewrite Hv. apply Hvg. }
  do 2 mstep. cbn [pv_size set_pv_pe_count set_pv_size].
  rewrite (proj2 (Z.eqb_neq (vg_extent_size x) 0)), (wrap32_small (_ / _)) by lia.
  set (new := sz / vg_extent_size x) in *. rewrite (proj2 (Z.eqb_neq new 0)) by lia.
  assert (pv_pe_count v <= new -> tail_free new l.*2) as Hbig.
  { intros Hle. apply Forall_forall. intros g Hg Hlt.
    destruct (covers_elem _ _ _ _ (so_covers _ _ _ _ Hs) Hg). lia. }
  destruct (Z.eqb_spec new (pv_pe_count v)) as [E|Hne]; [|destruct (Z.ltb_spec (pv_pe_count v) new)].
  - destruct (resize_same s vg x p v l sz new Hvg Hp Hok) as (s' & He & Hr); try done.
    exists true, s'. split; [exact He|]. split; [|done]. intros _. split; [|done]. intros _. apply Hbig. lia.
  - destruct (resize_grow s vg x p v l sz new Hvg Hp Hok) as [(s' & He & Hr)|[Hno He]]; try done.
    + exists true, s'. split; [exact He|]. split; [|done]. intros _. split; [|done]. intros _. apply Hbig. lia.
    + eexists false, _. split; [exact He|]. by split.
  - destruct (resize_shrink s vg x p v l sz new Hvg Hp Hok) as [(Ht & s' & He & Hr)|[Hno (s' & He)]]; try done; [lia|..].
    + exists true, s'. split; [exact He|]. by split.
    + exists false, s'. split; [exact He|]. split; [|done]. intros Hm. split; [done|]. intros Ht. destruct Hno. by split.
Qed.

Lemma pv_resize_correct_witness :
  let fmt (p : nat) (vg : option nat) (size : Z) (s : store) := Some (true, reset_pv p (size - 8) s) in
  exists ok s', pv_resize fmt 1024 1 (Some 1%nat) 2048 demo = Some (ok, s') /\
    (no_oom demo -> (ok = true <-> tail_free 255 demo_l.*2)) /\
    (ok = true -> resized 1 demo_vg 1 demo_pv demo_l 255 s').
Proof.
  apply (pv_resize_correct _ 1024 demo 1 demo_vg 1 demo_pv demo_l 2048 2040 demo_vg_ok).
  - apply list_elem_of_singleton. reflexivity.
  - apply demo_pv_ok.
  - cbn. lia.
  - reflexivity.
  - lia.
  - reflexivity.
  - cbn. lia.
  - cbn. lia.
Defined.
