(* ===== verification/LvManip.v ===== *)
(** * Logical volumes and their segments: lib/metadata/lv_manip.c, merge.c

    An LV is a list of segments; a segment has areas, each a piece of a PV (a PV
    segment, PvManip.v) or of another LV.  This file models the creation, release,
    reduction, splitting and merging of segments, the reference counts of the
    segments that use an LV, and the consistency check of an LV.  What belongs to
    thin pools' messages, replicators and the format handlers is an argument. *)

From S2P Require Import Prelude Metadata PvManip.

(** ** Status bits and field updates *)

Definition CONVERTING : Z := 0x400000.
Definition RAID : Z := 0x100000000.
Definition RAID_META : Z := 0x200000000.
Definition RAID_IMAGE : Z := 0x400000000.
Definition THIN_VOLUME : Z := 0x1000000000.
Definition THIN_POOL : Z := 0x2000000000.
Definition THIN_POOL_DATA : Z := 0x4000000000.
Definition THIN_POOL_METADATA : Z := 0x8000000000.

Definition SEG_CAN_SPLIT : Z := 0x1.
Definition SEG_SNAPSHOT : Z := 0x8.
Definition SEG_REPLICATOR : Z := 0x100.
Definition SEG_REPLICATOR_DEV : Z := 0x200.
Definition SEG_RAID : Z := 0x400.
Definition SEG_THIN_POOL : Z := 0x800.
Definition SEG_THIN_VOLUME : Z := 0x1000.

Definition seg_flag (f : Z) (g : lv_segment) : bool := flag (segtype_flags (seg_segtype g)) f.
Definition lv_flag (f : Z) (v : logical_volume) : bool := flag (lv_status v) f.

Definition set_seg_le (v : Z) (x : lv_segment) : lv_segment :=
  LvSegment (seg_lv x) (seg_segtype x) v (seg_len x) (seg_status x) (seg_stripe_size x)
    (seg_area_count x) (seg_area_len x) (seg_log_lv x) (seg_tags x) (seg_areas x) (seg_attrs_of x).
Definition set_seg_tags (v : list (list Z)) (x : lv_segment) : lv_segment :=
  LvSegment (seg_lv x) (seg_segtype x) (seg_le x) (seg_len x) (seg_status x) (seg_stripe_size x)
    (seg_area_count x) (seg_area_len x) (seg_log_lv x) v (seg_areas x) (seg_attrs_of x).
Definition set_seg_log_lv (v : option nat) (x : lv_segment) : lv_segment :=
  LvSegment (seg_lv x) (seg_segtype x) (seg_le x) (seg_len x) (seg_status x) (seg_stripe_size x)
    (seg_area_count x) (seg_area_len x) v (seg_tags x) (seg_areas x) (seg_attrs_of x).
Definition set_seg_area_count (v : Z) (x : lv_segment) : lv_segment :=
  LvSegment (seg_lv x) (seg_segtype x) (seg_le x) (seg_len x) (seg_status x) (seg_stripe_size x)
    v (seg_area_len x) (seg_log_lv x) (seg_tags x) (seg_areas x) (seg_attrs_of x).
Definition set_seg_attrs (f : seg_attrs -> seg_attrs) (x : lv_segment) : lv_segment :=
  LvSegment (seg_lv x) (seg_segtype x) (seg_le x) (seg_len x) (seg_status x) (seg_stripe_size x)
    (seg_area_count x) (seg_area_len x) (seg_log_lv x) (seg_tags x) (seg_areas x) (f (seg_attrs_of x)).

Definition set_sa_meta_areas (v : list lv_segment_area) (a : seg_attrs) : seg_attrs :=
  SegAttrs (sa_chunk_size a) (sa_origin a) (sa_cow a) (sa_region_size a) (sa_extents_copied a)
    (sa_pvmove_source_seg a) v (sa_metadata_lv a) (sa_transaction_id a) (sa_pool_lv a) (sa_device_id a).
Definition set_sa_transaction_id (v : Z) (a : seg_attrs) : seg_attrs :=
  SegAttrs (sa_chunk_size a) (sa_origin a) (sa_cow a) (sa_region_size a) (sa_extents_copied a)
    (sa_pvmove_source_seg a) (sa_meta_areas a) (sa_metadata_lv a) v (sa_pool_lv a) (sa_device_id a).
Definition set_sa_pool (pool origin : option nat) (a : seg_attrs) : seg_attrs :=
  SegAttrs (sa_chunk_size a) origin (sa_cow a) (sa_region_size a) (sa_extents_copied a)
    (sa_pvmove_source_seg a) (sa_meta_areas a) (sa_metadata_lv a) (sa_transaction_id a) pool (sa_device_id a).

Definition set_lv_status (v : Z) (x : logical_volume) : logical_volume :=
  LogicalVolume (lv_name x) (lv_vg x) v (lv_size x) (lv_le_count x) (lv_segments x) (lv_users x) (lv_attrs_of x).
Definition set_lv_size (v : Z) (x : logical_volume) : logical_volume :=
  LogicalVolume (lv_name x) (lv_vg x) (lv_status x) v (lv_le_count x) (lv_segments x) (lv_users x) (lv_attrs_of x).
Definition set_lv_le_count (v : Z) (x : logical_volume) : logical_volume :=
  LogicalVolume (lv_name x) (lv_vg x) (lv_status x) (lv_size x) v (lv_segments x) (lv_users x) (lv_attrs_of x).
Definition set_lv_segments (v : list nat) (x : logical_volume) : logical_volume :=
  LogicalVolume (lv_name x) (lv_vg x) (lv_status x) (lv_size x) (lv_le_count x) v (lv_users x) (lv_attrs_of x).
Definition set_lv_users (v : list (nat * Z)) (x : logical_volume) : logical_volume :=
  LogicalVolume (lv_name x) (lv_vg x) (lv_status x) (lv_size x) (lv_le_count x) (lv_segments x) v (lv_attrs_of x).
Definition set_vg_lvs (v : list nat) (x : volume_group) : volume_group :=
  VolumeGroup (vg_name x) (vg_status x) (vg_extent_size x) (vg_extent_count x) (vg_free_count x) (vg_pv_count x)
    (vg_max_pv x) (vg_max_lv x) (vg_pvs x) v (vg_attrs_of x).

(** A pool allocation whose contents are kept inside another structure. *)
Definition pool_alloc : M bool := fun s => Some (alloc_ok s, alloc_tick s).

(** [dm_pool_free] of a segment. *)
Definition free_seg (seg : nat) : M unit := fun s =>
  Some (tt, set_tbl (T := lv_segment) (delete seg (st_segs s)) s).

(** [&seg->areas[s]] *)
Definition area_at (seg : nat) (s : Z) : M lv_segment_area :=
  g ← get (T := lv_segment) seg; deref (if s <? 0 then None else seg_areas g !! Z.to_nat s).

Definition set_area (seg : nat) (s : Z) (a : lv_segment_area) : M unit :=
  _ ← area_at seg s;
  modify seg (fun g => set_seg_areas (<[Z.to_nat s := a]> (seg_areas g)) g).

(** [seg_pvseg(seg, s)], [seg_lv(seg, s)] and [seg_le(seg, s)]: the member of the
    union that the area has; a zeroed area has NULL and 0. *)
Definition area_pvseg (a : lv_segment_area) : M (option nat) :=
  match area_u_of a with U_pv j => mret j | U_zero => mret None | U_lv _ _ => wild end.
Definition area_lv (a : lv_segment_area) : M (option nat * Z) :=
  match area_u_of a with U_lv lv le => mret (lv, le) | U_zero => mret (None, 0) | U_pv _ => wild end.

(** ** The segments that use an LV *)

Fixpoint users_add (seg : nat) (l : list (nat * Z)) : option (list (nat * Z)) :=
  match l with
  | [] => None
  | (q, n) :: l =>
      if decide (q = seg) then Some ((q, wrap32 (n + 1)) :: l)
      else match users_add seg l with Some l => Some ((q, n) :: l) | None => None end
  end.

Definition add_seg_to_segs_using_this_lv (lv seg : nat) : M bool :=
  v ← get (T := logical_volume) lv;
  match users_add seg (lv_users v) with
  | Some l => modify lv (set_lv_users l);; mret true
  | None =>
      ok ← pool_alloc;
      if negb ok then mret false else
      modify lv (fun v => set_lv_users (lv_users v ++ [(seg, 1)]) v);; mret true
  end.

Fixpoint users_remove (seg : nat) (l : list (nat * Z)) : option (list (nat * Z)) :=
  match l with
  | [] => None
  | (q, n) :: l =>
      if decide (q = seg) then Some (if 1 <? n then (q, n - 1) :: l else l)
      else match users_remove seg l with Some l => Some ((q, n) :: l) | None => None end
  end.

Definition remove_seg_from_segs_using_this_lv (lv seg : nat) : M bool :=
  v ← get (T := logical_volume) lv;
  match users_remove seg (lv_users v) with
  | Some l => modify lv (set_lv_users l);; mret true
  | None => mret false
  end.

Definition get_only_segment_using_this_lv (lv : nat) : M (option nat) :=
  v ← get (T := logical_volume) lv;
  mret (match lv_users v with [(seg, 1)] => Some seg | _ => None end).

Definition lv_set_hidden (lv : nat) : M unit :=
  modify lv (fun v => if lv_flag VISIBLE_LV v then set_lv_status (Z.ldiff (lv_status v) VISIBLE_LV) v else v).

Definition set_status_bits (lv : nat) (bits : Z) : M unit :=
  modify lv (fun v => set_lv_status (Z.lor (lv_status v) bits) v).

(** ** Creating segments *)

(** [attach_mirror_log] of mirror.c *)
Definition attach_mirror_log (seg log_lv : nat) : M bool :=
  modify seg (set_seg_log_lv (Some log_lv));;
  set_status_bits log_lv MIRROR_LOG;;
  lv_set_hidden log_lv;;
  add_seg_to_segs_using_this_lv log_lv seg.

(** [attach_pool_lv] of thin_manip.c *)
Definition attach_pool_lv (seg pool_lv : nat) (origin : option nat) : M bool :=
  modify seg (set_seg_attrs (set_sa_pool (Some pool_lv) origin));;
  g ← get (T := lv_segment) seg;
  set_status_bits (seg_lv g) THIN_VOLUME;;
  ok ← (if origin is Some o then add_seg_to_segs_using_this_lv o seg else mret true);
  if negb ok then mret false else add_seg_to_segs_using_this_lv pool_lv seg.

Definition first_seg (lv : nat) : M (option nat) :=
  v ← get (T := logical_volume) lv; mret (head (lv_segments v)).

Definition zero_area : lv_segment_area := Area AREA_UNASSIGNED U_zero.

(** The attachment of [thin_pool_lv] and [log_lv] at the end of
    [alloc_lv_segment]. *)
Definition attach_pool (seg thin_pool_lv : nat) : M bool :=
  v ← get (T := logical_volume) thin_pool_lv;
  f ← first_seg thin_pool_lv; f ← deref f; g ← get (T := lv_segment) f;
  if lv_flag THIN_VOLUME v then
    pool ← deref (sa_pool_lv (seg_attrs_of g));
    pf ← first_seg pool; pf ← deref pf; pg ← get (T := lv_segment) pf;
    modify seg (set_seg_attrs (set_sa_transaction_id (sa_transaction_id (seg_attrs_of pg))));;
    attach_pool_lv seg pool (Some thin_pool_lv)
  else
    modify seg (set_seg_attrs (set_sa_transaction_id (sa_transaction_id (seg_attrs_of g))));;
    attach_pool_lv seg thin_pool_lv None.

(** [sizeof(struct lv_segment_area)] with pointers of 8 bytes. *)
Definition AREA_SIZE : Z := 24.

(** The array of areas has as many as fit [areas_sz], which has 32 bits. *)
Definition alloc_lv_segment (segtype : option segment_type) (lv : nat) (le len status stripe_size : Z)
    (log_lv thin_pool_lv : option nat) (area_count area_len chunk_size region_size extents_copied : Z)
    (pvmove_source_seg : option nat) : M (option nat) :=
  match segtype with
  | None => mret None
  | Some t =>
      let raid := flag (segtype_flags t) SEG_RAID in
      let areas_sz := wrap32 (area_count * AREA_SIZE) in
      let areas := replicate (Z.to_nat (areas_sz / AREA_SIZE)) zero_area in
      r ← alloc (LvSegment lv t le len status stripe_size area_count area_len None [] areas
                   (SegAttrs chunk_size None None region_size extents_copied pvmove_source_seg
                      (if raid then areas else []) None 0 None 0));
      match r with
      | None => mret None
      | Some seg =>
          ok ← pool_alloc;
          if negb ok then free_seg seg;; mret None else
          ok ← (if raid then pool_alloc else mret true);
          if negb ok then free_seg seg;; mret None else
          ok ← (if thin_pool_lv is Some pool then attach_pool seg pool else mret true);
          if negb ok then mret None else
          ok ← (if log_lv is Some log then attach_mirror_log seg log else mret true);
          if negb ok then mret None else mret (Some seg)
      end
  end.

Definition set_lv_segment_area_pv (seg : nat) (area_num : Z) (pv : option nat) (pe : Z) : M bool :=
  a ← area_at seg area_num;
  set_area seg area_num (Area AREA_PV (area_u_of a));;
  g ← get (T := lv_segment) seg;
  peg ← assign_peg_to_lvseg pv pe (seg_area_len g) seg area_num;
  set_area seg area_num (Area AREA_PV (U_pv peg));;
  mret (if peg is Some _ then true else false).

Definition set_lv_segment_area_lv (seg : nat) (area_num : Z) (lv : nat) (le status : Z) : M bool :=
  ok ← (if flag status RAID_META then
          modify seg (set_seg_attrs (fun a => set_sa_meta_areas
            (<[Z.to_nat area_num := Area AREA_LV (U_lv (Some lv) 0)]> (sa_meta_areas a)) a));;
          mret (le =? 0)
        else set_area seg area_num (Area AREA_LV (U_lv (Some lv) le));; mret true);
  if negb ok then mret false else
  set_status_bits lv status;;
  add_seg_to_segs_using_this_lv lv seg.

Definition lv_segment_add_areas (seg : nat) (new_area_count : Z) : M bool :=
  ok ← pool_alloc;
  if negb ok then mret false else
  modify seg (fun g => set_seg_area_count new_area_count
    (set_seg_areas (seg_areas g ++ replicate (Z.to_nat (new_area_count - seg_area_count g)) zero_area) g));;
  mret true.

(** ** Releasing and reducing *)

(** [dm_list_del] of the entry with a value. *)
Fixpoint remove_first (q : nat) (l : list nat) : list nat :=
  match l with [] => [] | x :: l => if decide (x = q) then l else x :: remove_first q l end.

(** [find_lv_in_vg]: the first LV of the VG with the last component of the name. *)
Fixpoint last_component (name : list Z) (cur : list Z) : list Z :=
  match name with [] => cur | c :: name => last_component name (if c =? 47 then name else cur) end.

Fixpoint find_lv_loop (lvs : list nat) (name : list Z) : M (option nat) :=
  match lvs with
  | [] => mret None
  | q :: lvs =>
      v ← get (T := logical_volume) q;
      if decide (lv_name v = name) then mret (Some q) else find_lv_loop lvs name
  end.

Definition find_lv_in_vg (vg : nat) (lv_name : list Z) : M (option nat) :=
  x ← get (T := volume_group) vg; find_lv_loop (vg_lvs x) (last_component lv_name lv_name).

Definition unlink_lv_from_vg (lv : nat) : M bool :=
  v ← get (T := logical_volume) lv;
  r ← find_lv_in_vg (lv_vg v) (lv_name v);
  match r with
  | None => mret false
  | Some q => modify (lv_vg v) (fun x => set_vg_lvs (remove_first q (vg_lvs x)) x);; mret true
  end.

(** The handlers that the reduction calls and that are not modelled here: thin
    pools' [detach_pool_lv] and the format's [lv_setup]. *)
Record lv_env := LvEnv {
  le_discard : discard_env;
  detach_pool_lv : nat -> M bool;
  lv_setup : option (nat -> nat -> M bool) }.

Section reduce.
Context (env : lv_env).

(** [_lv_segment_reduce], given how an area is released. *)
Fixpoint release_areas (release : nat -> Z -> Z -> M unit) (seg : nat) (s : Z) (n : nat) (red : Z) : M unit :=
  match n with
  | O => mret tt
  | S n => release seg s red;; release_areas release seg (s + 1) n red
  end.

Definition lv_segment_reduce (release : nat -> Z -> Z -> M unit) (seg : nat) (reduction : Z) : M bool :=
  g ← get (T := lv_segment) seg;
  r ← (if seg_is_striped g then
         if seg_area_count g =? 0 then wild
         else mret (if reduction mod seg_area_count g =? 0 then Some (reduction / seg_area_count g) else None)
       else mret (Some reduction));
  match r with
  | None => mret false
  | Some area_reduction =>
      release_areas release seg 0 (Z.to_nat (seg_area_count g)) area_reduction;;
      modify seg (fun g => set_seg_len (wrap32 (seg_len g - reduction)) g);;
      modify seg (fun g => set_seg_area_len (wrap32 (seg_area_len g - area_reduction)) g);;
      mret true
  end.

(** The loop of [_lv_reduce] over the segments from the last one on: success and
    the extents still to be removed. *)
Fixpoint reduce_loop (remove : nat -> M bool) (release : nat -> Z -> Z -> M unit) (lv : nat)
    (segs : list nat) (count : Z) : M (bool * Z) :=
  match segs with
  | [] => mret (true, count)
  | seg :: segs =>
      if count =? 0 then mret (true, count) else
      g ← get (T := lv_segment) seg;
      r ← (if seg_len g <=? count then
             ok ← (if seg_log_lv g is Some l then remove l else mret true);
             if negb ok then mret None else
             ok ← (if sa_metadata_lv (seg_attrs_of g) is Some l then remove l else mret true);
             if negb ok then mret None else
             ok ← (if sa_pool_lv (seg_attrs_of g) is Some _ then detach_pool_lv env seg else mret true);
             if negb ok then mret None else
             modify lv (fun v => set_lv_segments (remove_first seg (lv_segments v)) v);;
             g ← get (T := lv_segment) seg; mret (Some (seg_len g))
           else mret (Some count));
      match r with
      | None => mret (false, count)
      | Some reduction =>
          ok ← lv_segment_reduce release seg reduction;
          if negb ok then mret (false, count)
          else reduce_loop remove release lv segs (wrap32 (count - reduction))
      end
  end.

(** [_lv_reduce] behind its loop. *)
Definition reduce_finish (lv : nat) (extents : Z) (del : bool) : M bool :=
  v ← get (T := logical_volume) lv;
  x ← get (T := volume_group) (lv_vg v);
  let n := wrap32 (lv_le_count v - extents) in
  modify lv (set_lv_le_count n);;
  modify lv (set_lv_size (wrap64 (n * vg_extent_size x)));;
  if negb del then mret true else
  ok ← (if n =? 0 then unlink_lv_from_vg lv else mret true);
  if negb ok then mret false else
  if lv_setup env is Some f then f (lv_vg v) lv else mret true.

(** [release_lv_segment_area], given how an LV is reduced: an area that is an
    image of a mirror, of a RAID or of a thin pool is an LV that is reduced too. *)
Definition release_area (reduce : nat -> Z -> M bool) (seg : nat) (s area_reduction : Z) : M unit :=
  a ← area_at seg s;
  g ← get (T := lv_segment) seg;
  match area_type a with
  | AREA_UNASSIGNED => mret tt
  | AREA_PV =>
      j ← area_pvseg a; j ← deref j;
      ok ← release_pv_segment (le_discard env) j area_reduction;
      if ok && (seg_area_len g =? area_reduction)
      then set_area seg s (Area AREA_UNASSIGNED (area_u_of a)) else mret tt
  | AREA_LV =>
      l ← area_lv a; lv ← deref l.1; v ← get (T := logical_volume) lv;
      if lv_flag MIRROR_IMAGE v || lv_flag THIN_POOL_DATA v then
        _ ← reduce lv area_reduction; mret tt
      else if lv_flag RAID_IMAGE v then
        if negb (area_reduction =? seg_area_len g) then mret tt else
        ok ← reduce lv (lv_le_count v);
        if negb ok then mret tt else
        m ← deref (sa_meta_areas (seg_attrs_of g) !! Z.to_nat s);
        l ← area_lv m; meta ← deref l.1; w ← get (T := logical_volume) meta;
        _ ← reduce meta (lv_le_count w); mret tt
      else if area_reduction =? seg_area_len g then
        _ ← remove_seg_from_segs_using_this_lv lv seg;
        set_area seg s (Area AREA_UNASSIGNED (U_lv None 0))
      else mret tt
  end.

(** [_lv_reduce] calls itself for log LVs and through [release_lv_segment_area];
    the fuel bounds the depth of the stack of LVs. *)
Fixpoint lv_reduce_ (fuel : nat) (lv : nat) (extents : Z) (del : bool) : M bool :=
  match fuel with
  | O => wild
  | S fuel =>
      v ← get (T := logical_volume) lv;
      r ← reduce_loop (fun l => v ← get (T := logical_volume) l; lv_reduce_ fuel l (lv_le_count v) true)
            (release_area (fun l n => lv_reduce_ fuel l n true)) lv (rev (lv_segments v)) extents;
      if negb r.1 then mret false else reduce_finish lv extents del
  end.

Definition release_lv_segment_area (fuel : nat) : nat -> Z -> Z -> M unit :=
  release_area (fun l n => lv_reduce_ fuel l n true).

Definition lv_reduce (fuel : nat) (lv : nat) (extents : Z) : M bool := lv_reduce_ fuel lv extents true.

Definition lv_remove (fuel : nat) (lv : nat) : M bool :=
  v ← get (T := logical_volume) lv; lv_reduce fuel lv (lv_le_count v).

Definition lv_empty (fuel : nat) (lv : nat) : M bool :=
  v ← get (T := logical_volume) lv; lv_reduce_ fuel lv (lv_le_count v) false.

Definition move_lv_segment_area (fuel : nat) (seg_to : nat) (area_to : Z) (seg_from : nat) (area_from : Z) : M bool :=
  a ← area_at seg_from area_from;
  match area_type a with
  | AREA_PV =>
      j ← area_pvseg a; j ← deref j; h ← get (T := pv_segment) j;
      gf ← get (T := lv_segment) seg_from;
      release_lv_segment_area fuel seg_from area_from (seg_area_len gf);;
      gt ← get (T := lv_segment) seg_to;
      release_lv_segment_area fuel seg_to area_to (seg_area_len gt);;
      set_lv_segment_area_pv seg_to area_to (peg_pv h) (peg_pe h)
  | AREA_LV =>
      l ← area_lv a;
      gf ← get (T := lv_segment) seg_from;
      release_lv_segment_area fuel seg_from area_from (seg_area_len gf);;
      gt ← get (T := lv_segment) seg_to;
      release_lv_segment_area fuel seg_to area_to (seg_area_len gt);;
      lv ← deref l.1; set_lv_segment_area_lv seg_to area_to lv l.2 0
  | AREA_UNASSIGNED =>
      gt ← get (T := lv_segment) seg_to;
      release_lv_segment_area fuel seg_to area_to (seg_area_len gt);; mret true
  end.

End reduce.

(** ** Splitting and merging *)

(** [find_seg_by_le] *)
Fixpoint find_seg_loop (segs : list nat) (le : Z) : M (option nat) :=
  match segs with
  | [] => mret None
  | q :: segs =>
      g ← get (T := lv_segment) q;
      if (seg_le g <=? le) && (le <? wrap32 (seg_le g + seg_len g)) then mret (Some q) else find_seg_loop segs le
  end.

Definition find_seg_by_le (lv : nat) (le : Z) : M (option nat) :=
  v ← get (T := logical_volume) lv; find_seg_loop (lv_segments v) le.

(** One area of a segment that is split off. *)
Definition split_area (seg split_seg : nat) (s : Z) : M bool :=
  a ← area_at seg s;
  b ← area_at split_seg s;
  set_area split_seg s (Area (area_type a) (area_u_of b));;
  g ← get (T := lv_segment) seg;
  match area_type a with
  | AREA_LV =>
      l ← area_lv a; lv ← deref l.1;
      set_lv_segment_area_lv split_seg s lv (wrap32 (l.2 + seg_area_len g)) 0
  | AREA_PV =>
      j ← area_pvseg a; j ← deref j; h ← get (T := pv_segment) j;
      peg ← assign_peg_to_lvseg (peg_pv h) (wrap32 (peg_pe h + seg_area_len g))
              (wrap32 (peg_len h - seg_area_len g)) split_seg s;
      set_area split_seg s (Area (area_type a) (U_pv peg));;
      mret (if peg is Some _ then true else false)
  | AREA_UNASSIGNED => mret false
  end.

(** The loop of [_lv_split_segment] over the areas. *)
Fixpoint split_areas (seg split_seg : nat) (s : Z) (n : nat) : M bool :=
  match n with
  | O => mret true
  | S n => ok ← split_area seg split_seg s; if negb ok then mret false else split_areas seg split_seg (s + 1) n
  end.

(** [str_list_dup]: each string is copied and gets an entry. *)
Fixpoint str_list_dup (l acc : list (list Z)) : M (option (list (list Z))) :=
  match l with
  | [] => mret (Some acc)
  | x :: l =>
      ok ← pool_alloc;
      if negb ok then mret None else
      if decide (x ∈ acc) then str_list_dup l acc else
      ok ← pool_alloc;
      if negb ok then mret None else str_list_dup l (acc ++ [x])
  end.

Definition lv_split_segment_at (lv seg : nat) (le : Z) : M bool :=
  g ← get (T := lv_segment) seg;
  let offset := wrap32 (le - seg_le g) in
  if negb (seg_flag SEG_CAN_SPLIT g) then mret false else
  let sa := seg_attrs_of g in
  r ← alloc_lv_segment (Some (seg_segtype g)) (seg_lv g) (seg_le g) (seg_len g) (seg_status g)
        (seg_stripe_size g) (seg_log_lv g) (sa_pool_lv sa) (seg_area_count g) (seg_area_len g)
        (sa_chunk_size sa) (sa_region_size sa) (sa_extents_copied sa) (sa_pvmove_source_seg sa);
  match r with
  | None => mret false
  | Some split_seg =>
      tags ← str_list_dup (seg_tags g) [];
      match tags with
      | None => mret false
      | Some tags =>
          modify split_seg (set_seg_tags tags);;
          area_offset ← (if seg_is_striped g then
                           if seg_area_count g =? 0 then wild else mret (offset / seg_area_count g)
                         else mret offset);
          modify split_seg (fun x => set_seg_area_len (wrap32 (seg_area_len x - area_offset)) x);;
          modify seg (set_seg_area_len area_offset);;
          modify split_seg (fun x => set_seg_len (wrap32 (seg_len x - offset)) x);;
          modify seg (set_seg_len offset);;
          modify split_seg (set_seg_le (wrap32 (seg_le g + offset)));;
          ok ← split_areas seg split_seg 0 (Z.to_nat (seg_area_count g));
          if negb ok then mret false else
          modify lv (fun v => set_lv_segments (insert_after seg split_seg (lv_segments v)) v);;
          mret true
      end
  end.

(** [lv_split_segment]; [vg_validate] is the check of the whole VG. *)
Definition lv_split_segment (vg_validate : nat -> M bool) (lv : nat) (le : Z) : M bool :=
  r ← find_seg_by_le lv le;
  match r with
  | None => mret false
  | Some seg =>
      g ← get (T := lv_segment) seg;
      if le =? seg_le g then mret true else
      ok ← lv_split_segment_at lv seg le;
      if negb ok then mret false else
      v ← get (T := logical_volume) lv; vg_validate (lv_vg v)
  end.

(** [str_list_lists_equal] *)
Definition str_list_lists_equal (a b : list (list Z)) : bool :=
  (length a =? length b)%nat && forallb (fun x => bool_decide (x ∈ b)) a.

(** The loop of [_striped_segments_compatible]. *)
Fixpoint areas_adjacent (first second : nat) (s : Z) (n : nat) : M bool :=
  match n with
  | O => mret true
  | S n =>
      a ← area_at first s; b ← area_at second s;
      if negb (bool_decide (area_type a = AREA_PV)) || negb (bool_decide (area_type b = AREA_PV)) then mret false else
      g ← get (T := lv_segment) first;
      i ← area_pvseg a; i ← deref i; x ← get (T := pv_segment) i;
      j ← area_pvseg b; j ← deref j; y ← get (T := pv_segment) j;
      if negb (bool_decide (peg_pv x = peg_pv y)) || negb (wrap32 (peg_pe x + seg_area_len g) =? peg_pe y)
      then mret false else areas_adjacent first second (s + 1) n
  end.

Definition striped_segments_compatible (first second : nat) : M bool :=
  g ← get (T := lv_segment) first; h ← get (T := lv_segment) second;
  if negb (seg_area_count g =? seg_area_count h) || negb (seg_stripe_size g =? seg_stripe_size h) then mret false else
  ok ← areas_adjacent first second 0 (Z.to_nat (seg_area_count g));
  if negb ok then mret false else mret (str_list_lists_equal (seg_tags g) (seg_tags h)).

(** The lengths are added up. *)
Definition add_lengths (seg1 seg2 : nat) : M unit :=
  h ← get (T := lv_segment) seg2;
  modify seg1 (fun g => set_seg_len (wrap32 (seg_len g + seg_len h)) g);;
  modify seg1 (fun g => set_seg_area_len (wrap32 (seg_area_len g + seg_area_len h)) g).

Fixpoint merge_areas (seg1 seg2 : nat) (s : Z) (n : nat) : M unit :=
  match n with
  | O => mret tt
  | S n =>
      a ← area_at seg1 s; b ← area_at seg2 s;
      (if bool_decide (area_type a = AREA_PV) then
         i ← area_pvseg a; i ← deref i; j ← area_pvseg b; j ← deref j; merge_pv_segments i j
       else mret tt);;
      merge_areas seg1 seg2 (s + 1) n
  end.

Definition striped_merge_segments (seg1 seg2 : nat) : M bool :=
  ok ← striped_segments_compatible seg1 seg2;
  if negb ok then mret false else
  add_lengths seg1 seg2;;
  g ← get (T := lv_segment) seg1;
  merge_areas seg1 seg2 0 (Z.to_nat (seg_area_count g));;
  mret true.

(** The [merge_segments] operations: striped segments, those of the error and
    zero targets, and none for the other types. *)
Definition errseg_merge_segments (seg1 seg2 : nat) : M bool := add_lengths seg1 seg2;; mret true.
Definition zero_merge_segments (seg1 seg2 : nat) : M bool := add_lengths seg1 seg2;; mret true.

Definition merge_segments (t : segment_type) : option (nat -> nat -> M bool) :=
  if decide (segtype_name t = bytes "striped") then Some striped_merge_segments
  else if decide (segtype_name t = bytes "error") then Some errseg_merge_segments
  else if decide (segtype_name t = bytes "zero") then Some zero_merge_segments
  else None.

Definition merge (first : option nat) (second : nat) : M bool :=
  match first with
  | None => mret false
  | Some first =>
      g ← get (T := lv_segment) first; h ← get (T := lv_segment) second;
      if negb (bool_decide (seg_segtype g = seg_segtype h)) then mret false else
      if merge_segments (seg_segtype g) is Some f then f first second else mret false
  end.

(** The loop of [lv_merge_segments]. *)
Fixpoint merge_loop (lv : nat) (prev : option nat) (segs : list nat) : M unit :=
  match segs with
  | [] => mret tt
  | current :: segs =>
      ok ← merge prev current;
      if (ok : bool) then
        modify lv (fun v => set_lv_segments (remove_first current (lv_segments v)) v);;
        merge_loop lv prev segs
      else merge_loop lv (Some current) segs
  end.

Definition lv_merge_segments (lv : nat) : M bool :=
  v ← get (T := logical_volume) lv;
  if lv_flag LOCKED v || lv_flag PVMOVE v then mret true else
  merge_loop lv None (lv_segments v);; mret true.
