(* ===== verification/LvSegs.v ===== *)
(** * Properties of LV segments

    Splitting and merging the segments of an LV moves no data: every physical
    extent keeps holding the same extent of the same LV.  Reducing an LV frees
    exactly the extents behind its new end. *)

From S2P Require Import Prelude Metadata PvManip PvSegs LvManip.

(** ** Who owns an extent, read off the store *)

Definition pegs_of (s : store) (v : physical_volume) : list pv_segment :=
  omap (fun i => st_pegs s !! i) (pv_segments v).

Definition owner_at (s : store) (p : nat) (e : Z) : option (nat * Z * Z) :=
  v ← st_pvs s !! p; owner (pegs_of s v) e.

Lemma pegs_of_view s p v l : view s p v l -> pegs_of s v = l.*2.
Proof.
  unfold pegs_of. intros (_ & E & Hl). rewrite E. clear E. induction Hl as [|[i g] l Hg _ IH]; [done|].
  rewrite !fmap_cons. cbn. cbn in Hg. rewrite Hg. by f_equal.
Qed.

Lemma owner_at_view s p v l e : view s p v l -> owner_at s p e = owner l.*2 e.
Proof. intros Hv. unfold owner_at. rewrite (proj1 Hv). cbn. by rewrite (pegs_of_view _ _ _ _ Hv). Qed.

Lemma owner_elem l e sg a k : owner l e = Some (sg, a, k) -> exists h, h ∈ l /\ peg_lvseg h = Some sg.
Proof.
  induction l as [|h l IH]; [done|]. cbn. destruct (_ && _).
  - destruct (peg_lvseg h) eqn:E; [|done]. intros [= <- <- <-]. exists h. split; [left|done].
  - intros H. destruct (IH H) as (h' & Hh & E). exists h'. split; [by right|done].
Qed.

(** Free segments extend as far as they can: behind one is the end of the PV or an
    extent in use. *)
Definition free_max (s : store) (x : volume_group) : Prop :=
  forall p v j h, p ∈ vg_pvs x -> st_pvs s !! p = Some v -> j ∈ pv_segments v -> st_pegs s !! j = Some h ->
    peg_lvseg h = None -> peg_pe h + peg_len h = pv_pe_count v \/ owner_at s p (peg_pe h + peg_len h) <> None.

(** LV extents per row of a segment: a row of a striped segment has one extent
    in each stripe. *)
Definition mult (g : lv_segment) : Z := if seg_is_striped g then seg_area_count g else 1.

(** The LV, the stripe and the logical extent (at the start of its row) that a
    physical extent holds. *)
Definition lv_extent (s : store) (p : nat) (e : Z) : option (nat * Z * Z) :=
  match owner_at s p e with
  | Some (sg, a, k) => match st_segs s !! sg with
                       | Some g => Some (seg_lv g, a, seg_le g + k * mult g)
                       | None => None
                       end
  | None => None
  end.

(** ** Stores that agree on the PVs *)

Lemma owned_by_ext s s' vg g :
  (forall sg y, st_segs s !! sg = Some y -> exists y', st_segs s' !! sg = Some y' /\ seg_lv y' = seg_lv y) ->
  (forall lv w, st_lvs s !! lv = Some w -> exists w', st_lvs s' !! lv = Some w' /\ lv_vg w' = lv_vg w) ->
  owned_by s vg g -> owned_by s' vg g.
Proof.
  intros Hs Hl Ho sg Hsg. destruct (Ho sg Hsg) as (y & lv & Hy & Hlv & Hv).
  destruct (Hs sg y Hy) as (y' & Hy' & Ey). destruct (Hl _ _ Hlv) as (w & Hw & Ew).
  exists y', w. by rewrite Ey, Ew.
Qed.

(** The same PVs and PV segments; LV segments and LVs may be added and changed,
    but stay where they belong. *)
Record same_pvs (s s' : store) : Prop := {
  sm_pegs : st_pegs s' = st_pegs s;
  sm_pvs : st_pvs s' = st_pvs s;
  sm_vgs : st_vgs s' = st_vgs s;
  sm_next : (st_next s <= st_next s')%nat;
  sm_segs : forall sg y, st_segs s !! sg = Some y -> exists y', st_segs s' !! sg = Some y' /\ seg_lv y' = seg_lv y;
  sm_lvs : forall lv w, st_lvs s !! lv = Some w -> exists w', st_lvs s' !! lv = Some w' /\ lv_vg w' = lv_vg w;
  sm_alloc : st_alloc s' `suffix_of` st_alloc s }.

Lemma same_pvs_trans s1 s2 s3 : same_pvs s1 s2 -> same_pvs s2 s3 -> same_pvs s1 s3.
Proof.
  intros [A1 A2 A3 A4 A5 A6 A7] [B1 B2 B3 B4 B5 B6 B7]. split; try congruence; [lia| | |by etrans].
  - intros sg y Hy. destruct (A5 _ _ Hy) as (y1 & H1 & E1). destruct (B5 _ _ H1) as (y2 & H2 & E2).
    exists y2. split; [done|congruence].
  - intros lv w Hw. destruct (A6 _ _ Hw) as (w1 & H1 & E1). destruct (B6 _ _ H1) as (w2 & H2 & E2).
    exists w2. split; [done|congruence].
Qed.

Lemma pv_ok_same s s' vg p v l : same_pvs s s' -> pv_ok s vg p v l -> pv_ok s' vg p v l.
Proof.
  intros Hm ((Hv & Hl & Hg) & Hs & Ho). split; [|split; [done|]].
  - split; [by rewrite (sm_pvs _ _ Hm)|]. split; [done|]. by rewrite (sm_pegs _ _ Hm).
  - eapply Forall_impl; [exact Ho|]. intros g. apply owned_by_ext; apply Hm.
Qed.

Lemma vg_ok_same s s' vg x : same_pvs s s' -> vg_ok s vg x -> vg_ok s' vg x.
Proof.
  intros Hm [H1 H2 H3 H4 H5 H6 H7 H8].
  assert (forall f, map (pv_num f s') (vg_pvs x) = map (pv_num f s) (vg_pvs x)) as Hn.
  { intros f. apply map_ext. intros p. unfold pv_num. by rewrite (sm_pvs _ _ Hm). }
  split; [by rewrite (sm_vgs _ _ Hm)|done| |done|by rewrite Hn|by rewrite Hn|done|].
  - intros p Hp. destruct (H3 p Hp) as (v & l & Hok). exists v, l. by eapply pv_ok_same.
  - intros i Hi. rewrite (sm_pegs _ _ Hm). apply H8. pose proof (sm_next _ _ Hm). lia.
Qed.

Lemma owner_at_same s s' p e : same_pvs s s' -> owner_at s' p e = owner_at s p e.
Proof. intros Hm. unfold owner_at, pegs_of. by rewrite (sm_pvs _ _ Hm), (sm_pegs _ _ Hm). Qed.

(** ** Assigning the tail of an allocated segment *)

(** There is a boundary at the end of a segment. *)
Lemma split_boundary_spec s vg x p v l j h :
  split_pre s vg x p (pv_pe_count v) v l -> (j, h) ∈ l ->
  exists r, pv_split_segment p (peg_pe h + peg_len h) s = Some ((true, r), s).
Proof.
  intros Hp Hj. pose proof Hp as [Hview Hs _ _ _ _]. pose proof (so_covers _ _ _ _ Hs) as Hc.
  apply list_elem_of_split in Hj as (k1 & k2 & ->).
  pose proof Hc as Hc'. rewrite fmap_app, fmap_cons in Hc'. apply covers_middle in Hc' as (H1 & Hlen & H2). cbn [snd] in *.
  pose proof (covers_le _ _ _ H1). pose proof (covers_le _ _ _ H2).
  unfold pv_split_segment. pose proof (proj1 Hview). mstep.
  destruct (Z.eqb_spec (peg_pe h + peg_len h) (pv_pe_count v)) as [|Hne]; [by eexists|].
  destruct (find_peg_by_pe_spec s p _ v _ (peg_pe h + peg_len h) Hview Hs ltac:(lia)) as (l1 & i & g & l2 & E & Hin & Hfind).
  erewrite bind_exec by exact Hfind. cbn beta iota.
  pose proof (view_elem _ _ _ _ i g Hview ltac:(rewrite E; set_solver)) as Hi. mstep.
  destruct (covers_disjoint _ _ _ _ _ _ _ _ _ _ _ Hc eq_refl E) as [(_ & _ & -> & _)|Hd]; [lia|].
  assert (peg_pe g = peg_pe h + peg_len h) as ->; [|rewrite Z.eqb_refl; by eexists].
  rewrite E, fmap_app, fmap_cons in Hc. apply covers_middle in Hc as (_ & ? & _). cbn [snd] in *. lia.
Qed.

Section assign_owned.
Context (s : store) (vg : nat) (x : volume_group) (p : nat) (v : physical_volume).
Context (k1 k2 : list (nat * pv_segment)) (j : nat) (h : pv_segment) (off : Z).
Hypothesis Hvg : vg_ok s vg x.
Hypothesis Hp : p ∈ vg_pvs x.
Hypothesis Hok : pv_ok s vg p v (k1 ++ (j, h) :: k2).
Hypothesis Hoff : 0 < off < peg_len h.
Context (sg : nat) (Hsg : peg_lvseg h = Some sg).
Context (seg : nat) (area : Z) (y : lv_segment) (lv : logical_volume).
Hypothesis Hy : st_segs s !! seg = Some y.
Hypothesis Hlv : st_lvs s !! seg_lv y = Some lv.
Hypothesis Hlvg : lv_vg lv = vg.

Let f := st_next s.
Let pe := peg_pe h + off.
Let tail_peg := PvSegment (Some p) pe (peg_len h - off) (Some seg) area.
Let l' := k1 ++ (j, cut_left h pe) :: (f, tail_peg) :: k2.

Lemma assign_owned_spec :
  (exists s' v', assign_peg_to_lvseg (Some p) pe (peg_len h - off) seg area s = Some (Some f, s') /\
     pv_change s s' vg x p v' l' /\ vg_ok s' vg x /\ pv_ok s' vg p v' l' /\
     forall e, owner l'.*2 e =
       if decide (pe <= e < peg_pe h + peg_len h) then Some (seg, area, e - pe)
       else owner (k1 ++ (j, h) :: k2).*2 e) \/
  (assign_peg_to_lvseg (Some p) pe (peg_len h - off) seg area s = Some (None, alloc_tick s) /\ alloc_ok s = false).
Proof.
  pose proof Hok as (Hview & Hs & Ho). pose proof (vg_ok_bounds _ _ _ _ _ _ Hvg Hp Hok) as Hb.
  pose proof (vo_range _ _ _ Hvg) as Hr. unfold pv_free in Hb.
  assert (split_pre s vg x p (pv_pe_count v) v (k1 ++ (j, h) :: k2)) as Hpre.
  { split; [done|done|apply Hvg|apply Hvg|done|lia]. }
  pose proof (so_covers _ _ _ _ Hs) as Hcov. pose proof Hcov as Hcov0. rewrite fmap_app, fmap_cons in Hcov.
  apply covers_middle in Hcov as (Hcl & _ & Hcr). cbn [snd] in *. apply covers_le in Hcl, Hcr.
  pose proof (so_range _ _ _ _ Hs) as Hn.
  unfold assign_peg_to_lvseg.
  assert (seg_vg seg s = Some (vg, s)) as Hsv by (unfold seg_vg; repeat mstep; by rewrite Hlvg).
  erewrite bind_exec by exact Hsv. cbn beta.
  destruct (pv_split_segment_spec s vg x p _ v _ pe Hpre) as [(s1 & l1 & i1 & fr & He1 & Hsp & Hfr & Hc1)|[He1 Ha1]];
    [unfold pe; lia..| |right; by erewrite bind_exec by exact He1].
  left. erewrite bind_exec by exact He1. cbn [negb fst snd].
  pose proof (split_pre_split _ _ _ _ _ _ _ _ _ _ _ _ Hpre Hsp Hfr Hc1) as Hp1.
  destruct (split_list_inside _ _ _ _ _ _ _ _ _ _ _ _ _ Hs Hsp eq_refl) as [-> ->]; [unfold pe; lia|].
  assert (i1 = f) as ->.
  { inversion Hsp as [a i' g' b Hb1 E1 E2|]; [|done]. exfalso.
    destruct (covers_disjoint _ _ _ _ _ _ _ _ _ _ _ Hcov0 eq_refl (eq_sym E1)) as [(_ & _ & <- & _)|Hd]; [unfold pe in *; lia|].
    rewrite <- E1, fmap_app, fmap_cons in Hcov0. apply covers_middle in Hcov0 as (_ & ? & _). cbn [snd] in *. unfold pe in *. lia. }
  unfold cut_freed in *. rewrite Hsg in *. set (x1 := with_counts x _ _) in *. set (v1 := with_segs v _ _) in *.
  fold f in Hc1, Hp1, Hsp. set (right := cut_right p h pe) in *.
  rewrite wrap32_small by (unfold pe; lia).
  destruct (split_boundary_spec s1 vg x1 p v1 _ f right Hp1 ltac:(set_solver)) as (r & He2).
  replace (pe + (peg_len h - off)) with (peg_pe right + peg_len right) by (cbn; unfold pe; lia).
  erewrite bind_exec by exact He2. cbn [negb fst snd].
  assert (peg_len h - off = peg_len right) as Hlen by (cbn; unfold pe; lia).
  assert (k1 ++ (j, cut_left h pe) :: (f, right) :: k2 = (k1 ++ [(j, cut_left h pe)]) ++ (f, right) :: k2) as El
    by (by rewrite <- app_assoc).
  rewrite El in Hp1, Hc1. rewrite Hlen.
  pose proof (segs_ok_room _ _ _ _ _ _ _ (sp_segs _ _ _ _ _ _ _ Hp1) eq_refl) as Hroom.
  destruct (assign_handover s1 vg x1 p v1 _ f right k2 seg area y lv Hp1 eq_refl) as (s2 & He3 & Hc2 & Hs2);
    [cbn in *; unfold pe in *; lia|cbn in *; unfold pe in *; lia|by rewrite (pc_segs _ _ _ _ _ _ _ Hc1)|
     by rewrite (pc_lvs _ _ _ _ _ _ _ Hc1)|done|].
  pose proof (pv_change_trans _ _ _ _ _ _ _ _ _ _ _ Hc1 Hc2) as Hc12.
  assert (set_peg_owner (Some seg) area right = tail_peg) as Et.
  { unfold set_peg_owner, right, cut_right, tail_peg. cbn. f_equal. unfold pe. lia. }
  assert ((k1 ++ [(j, cut_left h pe)]) ++ (f, tail_peg) :: k2 = l') as El' by (unfold l'; by rewrite <- app_assoc).
  rewrite Et, El' in Hc12, Hs2. unfold x1 in Hc12. rewrite with_counts_twice in Hc12. cbn [vg_extent_count vg_free_count with_counts set_vg_extent_count set_vg_free_count] in Hc12.
  replace (vg_free_count x + _ - _) with (vg_free_count x) in Hc12 by (cbn; unfold pe; lia).
  rewrite with_counts_same in Hc12.
  eexists s2, _. split; [exact He3|]. split; [exact Hc12|].
  assert (Forall (owned_by s vg) l'.*2) as Ho'.
  { unfold l'. rewrite fmap_app, !fmap_cons in *. apply Forall_app in Ho as [Ho1 [Hoh Ho2]%Forall_cons].
    apply Forall_app. split; [done|]. apply Forall_cons. split; [exact Hoh|]. apply Forall_cons. split; [|done].
    intros q [= <-]. eauto. }
  destruct (vg_ok_quiet _ _ _ _ _ _ _ _ _ Hvg Hp Hview Hc12 Hs2 Ho') as [Hvg2 Hok2]; [done|cbn; unfold pe; lia|].
  split; [done|]. split; [done|]. intros e. unfold l'. rewrite !fmap_app, !fmap_cons. cbn [snd].
  rewrite fmap_app, fmap_cons in Hcov0. cbn [snd] in Hcov0.
  assert (peg_pe h < pe < peg_pe h + peg_len h) as Hpe by (unfold pe; lia).
  pose proof (so_covers _ _ _ _ (sp_segs _ _ _ _ _ _ _ Hp1)) as Hcv.
  rewrite !fmap_app, !fmap_cons in Hcv. cbn [snd] in Hcv. change ([].*2) with (@nil pv_segment) in Hcv.
  pose proof (owner_set_owner _ _ _ _ _ (Some seg) area e Hcv) as Hown. rewrite Et in Hown.
  rewrite <- app_assoc in Hown. cbn [app] in Hown. rewrite Hown, <- app_assoc. cbn [app].
  unfold right. rewrite (owner_cut _ _ _ _ _ _ _ _ Hcov0 Hpe). cbn [peg_pe peg_len cut_right].
  repeat case_decide; try lia; done.
Qed.
End assign_owned.

(** ** Areas and their PV segments *)

(** Area [a] of LV segment [sg] is a PV segment of [len] extents of a PV of the
    VG, which points back. *)
Definition linked (s : store) (x : volume_group) (sg : nat) (a len : Z) (ar : lv_segment_area) : Prop :=
  exists j p v pe, ar = Area AREA_PV (U_pv (Some j)) /\
    st_pegs s !! j = Some (PvSegment (Some p) pe len (Some sg) a) /\
    p ∈ vg_pvs x /\ st_pvs s !! p = Some v /\ j ∈ pv_segments v.

Lemma linked_same s s' x sg a len ar : same_pvs s s' -> linked s x sg a len ar -> linked s' x sg a len ar.
Proof.
  intros Hm (j & p & v & pe & -> & H1 & H2 & H3 & H4). exists j, p, v, pe.
  by rewrite (sm_pegs _ _ Hm), (sm_pvs _ _ Hm).
Qed.

Lemma linked_in s x vg sg a len j :
  vg_ok s vg x -> linked s x sg a len (Area AREA_PV (U_pv (Some j))) ->
  exists p v pe k1 k2, p ∈ vg_pvs x /\
    pv_ok s vg p v (k1 ++ (j, PvSegment (Some p) pe len (Some sg) a) :: k2).
Proof.
  intros Hvg (j' & p & v & pe & [= <-] & H1 & H2 & H3 & H4). exists p, v, pe.
  destruct (vo_pvs _ _ _ Hvg p H2) as (v' & l & Hok). pose proof Hok as ((Hv & Hl & Hg) & _).
  assert (v' = v) as -> by congruence. rewrite Hl in H4. apply list_elem_of_fmap in H4 as ([j' h] & [=<-] & Hj).
  pose proof (view_elem _ _ _ _ _ _ (proj1 Hok) Hj) as Hh. assert (h = PvSegment (Some p) pe len (Some sg) a) as -> by congruence.
  apply list_elem_of_split in Hj as (k1 & k2 & ->). by exists k1, k2.
Qed.

(** What a change of one PV keeps: the links of the PV segments that are still
    in its list. *)
Lemma linked_change s s' vg x x' p v' l' sg a len j :
  pv_change s s' vg x' p v' l' -> linked s x sg a len (Area AREA_PV (U_pv (Some j))) ->
  (forall pe, st_pegs s !! j = Some (PvSegment (Some p) pe len (Some sg) a) ->
     (j, PvSegment (Some p) pe len (Some sg) a) ∈ l') ->
  linked s' x sg a len (Area AREA_PV (U_pv (Some j))).
Proof.
  intros Hc (j' & q & w & pe & [= <-] & H1 & H2 & H3 & H4) Hin. destruct (decide (q = p)) as [->|Hne].
  - specialize (Hin pe H1). pose proof (pc_view _ _ _ _ _ _ _ Hc) as Hv.
    exists j, p, v', pe. split; [done|]. split; [by eapply view_elem|]. split; [done|]. split; [apply Hv|].
    destruct Hv as (_ & -> & _). apply list_elem_of_fmap. eexists. split; [|exact Hin]. done.
  - exists j, q, w, pe. split; [done|]. split; [apply (pc_pegs _ _ _ _ _ _ _ Hc); cbn; congruence|].
    split; [done|]. split; [|done]. by rewrite (pc_pvs _ _ _ _ _ _ _ Hc), lookup_insert_ne.
Qed.

(** A PV segment in the list of a view, found by address. *)
Lemma view_lookup s p v l i g w :
  view s p v l -> st_pvs s !! p = Some w -> i ∈ pv_segments w -> st_pegs s !! i = Some g -> (i, g) ∈ l.
Proof.
  intros Hv Hw Hi Hg. assert (w = v) as -> by (destruct Hv; congruence). pose proof Hv as (_ & Hl & _).
  rewrite Hl in Hi. apply list_elem_of_fmap in Hi as ([j h] & [=->] & Hj).
  pose proof (view_elem _ _ _ _ _ _ Hv Hj). congruence.
Qed.

(** ** Accesses to areas *)

Definition with_seg (q : nat) (g : lv_segment) (s : store) : store :=
  set_tbl (T := lv_segment) (<[q := g]> (st_segs s)) s.

Lemma area_at_exec s q g i a :
  st_segs s !! q = Some g -> 0 <= i -> seg_areas g !! Z.to_nat i = Some a -> area_at q i s = Some (a, s).
Proof. intros Hg Hi Ha. unfold area_at. mstep. rewrite (proj2 (Z.ltb_ge _ _)) by done. by rewrite Ha. Qed.

Lemma set_area_exec s q g i a b :
  st_segs s !! q = Some g -> 0 <= i -> seg_areas g !! Z.to_nat i = Some a ->
  set_area q i b s = Some (tt, with_seg q (set_seg_areas (<[Z.to_nat i := b]> (seg_areas g)) g) s).
Proof. intros Hg Hi Ha. unfold set_area. erewrite bind_exec by by eapply area_at_exec. by mstep. Qed.

Lemma same_pvs_with_seg s q g g' : st_segs s !! q = Some g -> seg_lv g' = seg_lv g -> same_pvs s (with_seg q g' s).
Proof.
  intros Hq Hl. split; try done.
  - intros sg y Hy. cbn. destruct (decide (sg = q)) as [->|Hne].
    + exists g'. rewrite lookup_insert_eq. split; [done|]. congruence.
    + exists y. by rewrite lookup_insert_ne.
  - intros lv w Hw. by exists w.
Qed.

(** ** Splitting *)

(** The owner of an extent may only move from segment [seg], at least [off]
    extents into an area, to the same area of [sp]. *)
Definition moved (seg sp : nat) (off : Z) (o o' : option (nat * Z * Z)) : Prop :=
  o' = o \/ exists a k, o = Some (seg, a, k) /\ off <= k /\ o' = Some (sp, a, k - off).

Lemma moved_trans seg sp off o1 o2 o3 :
  seg <> sp -> moved seg sp off o1 o2 -> moved seg sp off o2 o3 -> moved seg sp off o1 o3.
Proof.
  intros Hne [->|(a & k & -> & Hk & ->)] H; [done|]. right.
  destruct H as [->|(a' & k' & [= E] & _)]; [|done]. by exists a, k.
Qed.

Section split_loop.
Context (vg : nat) (x : volume_group) (seg sp : nat) (g : lv_segment) (L off : Z).
Hypothesis Hne : seg <> sp.
Hypothesis Hoff : seg_area_len g = off.
Hypothesis HL : 0 < off < L.

(** What the loop of [_lv_split_segment] has done to areas [i], ..., [hi - 1]. *)
Record split_done (s s' : store) (g2 : lv_segment) (i hi : Z) (areas' : list lv_segment_area) : Prop := {
  sd_vg : vg_ok s' vg x;
  sd_alloc : st_alloc s' `suffix_of` st_alloc s;
  sd_lvs : st_lvs s' = st_lvs s;
  sd_segs : st_segs s' = <[sp := set_seg_areas areas' g2]> (st_segs s);
  sd_length : length areas' = length (seg_areas g2);
  sd_areas : forall a, i <= a < hi -> exists ar ar', seg_areas g !! Z.to_nat a = Some ar /\ linked s' x seg a off ar /\
    areas' !! Z.to_nat a = Some ar' /\ linked s' x sp a (L - off) ar';
  sd_keep : forall a, 0 <= a < i -> areas' !! Z.to_nat a = seg_areas g2 !! Z.to_nat a;
  sd_frame : forall sg a len ar, linked s x sg a len ar -> ~ (sg = seg /\ i <= a < hi) -> linked s' x sg a len ar;
  sd_owner : forall p e, p ∈ vg_pvs x -> moved seg sp off (owner_at s p e) (owner_at s' p e) }.

(** One area. *)
Lemma split_area_step s g2 i a b :
  vg_ok s vg x -> st_segs s !! seg = Some g -> st_segs s !! sp = Some g2 ->
  (exists lv, st_lvs s !! seg_lv g2 = Some lv /\ lv_vg lv = vg) -> 0 <= i ->
  seg_areas g !! Z.to_nat i = Some a -> linked s x seg i L a -> seg_areas g2 !! Z.to_nat i = Some b ->
  exists ok s', split_area seg sp i s = Some (ok, s') /\ (no_oom s -> ok = true) /\
    (ok = true -> exists ar', split_done s s' g2 i (i + 1) (<[Z.to_nat i := ar']> (seg_areas g2))).
Proof.
  intros Hvg Hg Hg2 (lv & Hlv & Hlvg) Hi Ha Hlink Hb. pose proof Hlink as (j & p & v & pe & -> & Hj & Hp & Hpv & Hin).
  set (h := PvSegment (Some p) pe L (Some seg) i) in *. unfold split_area.
  do 2 erewrite bind_exec by by eapply area_at_exec. cbn beta.
  erewrite bind_exec by by eapply set_area_exec. cbn [area_type area_u_of area_pvseg deref].
  set (g2a := set_seg_areas (<[Z.to_nat i := Area AREA_PV (area_u_of b)]> (seg_areas g2)) g2).
  set (s1 := with_seg sp g2a s).
  assert (same_pvs s s1) as Hm1 by by eapply same_pvs_with_seg.
  pose proof (vg_ok_same _ _ _ _ Hm1 Hvg) as Hvg1.
  destruct (linked_in s1 x vg seg i L j Hvg1 (linked_same _ _ _ _ _ _ _ Hm1 Hlink)) as (p' & v' & pe' & k1 & k2 & Hp' & Hok1).
  assert (st_pegs s1 !! j = Some (PvSegment (Some p') pe' L (Some seg) i)) as Hj1
    by (eapply view_elem; [apply Hok1|set_solver]).
  change (st_pegs s1) with (st_pegs s) in Hj1. assert (p' = p /\ pe' = pe) as [-> ->] by (unfold h in Hj; split; congruence). fold h in Hok1.
  assert (st_segs s1 !! seg = Some g) as Hg1 by (cbn; by rewrite lookup_insert_ne).
  assert (st_segs s1 !! sp = Some g2a) as Hg2a by (cbn; by rewrite lookup_insert_eq).
  mstep. mstep. cbn [deref]. mstep. change (st_pegs s) with (st_pegs s1) in Hj. mstep. cbn [h peg_pv peg_pe peg_len]. rewrite Hoff.
  pose proof Hok1 as (Hview1 & Hs1 & _). pose proof (so_covers _ _ _ _ Hs1) as Hc. pose proof (so_range _ _ _ _ Hs1) as Hr.
  rewrite fmap_app, fmap_cons in Hc. apply covers_middle in Hc as (Hc1 & _ & Hc2). cbn [snd] in *.
  apply covers_le in Hc1, Hc2. cbn [h peg_pe peg_len] in *. rewrite !wrap32_small by lia.
  destruct (assign_owned_spec s1 vg x p v' k1 k2 j h off Hvg1 Hp Hok1 HL seg eq_refl sp i g2a lv Hg2a Hlv Hlvg)
    as [(s2 & v2 & He & Hc12 & Hvg2 & Hok2 & Hown)|[He Ha1]]; cbn [h peg_pe peg_len] in He.
  - erewrite bind_exec by exact He. cbn beta.
    assert (st_segs s2 !! sp = Some g2a) as Hg2b by by rewrite (pc_segs _ _ _ _ _ _ _ Hc12).
    assert (seg_areas g2a !! Z.to_nat i = Some (Area AREA_PV (area_u_of b))) as Hbi.
    { cbn. apply list_lookup_insert_eq. by eapply lookup_lt_Some. }
    erewrite bind_exec by by eapply set_area_exec.
    set (ar' := Area AREA_PV (U_pv (Some (st_next s1)))).
    eexists true, _. split; [done|]. split; [done|]. intros _. exists ar'.
    set (s3 := with_seg sp _ s2). assert (same_pvs s2 s3) as Hm3 by by eapply same_pvs_with_seg.
    pose proof (pc_view _ _ _ _ _ _ _ Hc12) as Hv2.
    assert (forall q hq, (q, hq) ∈ k1 ++ (j, cut_left h (peg_pe h + off)) :: (st_next s1, PvSegment (Some p) (peg_pe h + off) (peg_len h - off) (Some sp) i) :: k2 ->
      st_pvs s2 !! p = Some v2 /\ st_pegs s2 !! q = Some hq /\ q ∈ pv_segments v2) as Hl2.
    { intros q hq Hq. split; [apply Hv2|]. split; [by eapply view_elem|]. destruct Hv2 as (_ & -> & _).
      apply list_elem_of_fmap. eexists. split; [|exact Hq]. done. }
    split.
    + by eapply vg_ok_same.
    + cbn. apply (pc_alloc _ _ _ _ _ _ _ Hc12).
    + cbn. apply (pc_lvs _ _ _ _ _ _ _ Hc12).
    + cbn. rewrite (pc_segs _ _ _ _ _ _ _ Hc12). cbn. rewrite insert_insert_eq. f_equal. unfold set_seg_areas. cbn.
      by rewrite list_insert_insert_eq.
    + by rewrite length_insert.
    + intros a' Ha'. assert (a' = i) as -> by lia. exists (Area AREA_PV (U_pv (Some j))), ar'. split; [done|]. split.
      { eapply linked_same; [exact Hm3|]. destruct (Hl2 j (cut_left h (peg_pe h + off)) ltac:(set_solver)) as (E1 & E2 & E3).
        exists j, p, v2, pe. split; [done|]. split; [|done]. rewrite E2. unfold cut_left, set_peg_len. cbn. do 2 f_equal. lia. }
      split; [apply list_lookup_insert_eq; by eapply lookup_lt_Some|].
      eapply linked_same; [exact Hm3|]. destruct (Hl2 (st_next s1) (PvSegment (Some p) (peg_pe h + off) (peg_len h - off) (Some sp) i) ltac:(set_solver)) as (E1 & E2 & E3).
      exists (st_next s1), p, v2, (pe + off). split; [done|]. split; [exact E2|]. done.
    + intros a' Ha'. apply list_lookup_insert_ne. lia.
    + intros sg a' len ar Hl Hnot. eapply linked_same; [exact Hm3|].
      pose proof Hl as (j' & q & w & pe' & -> & Hj' & _). eapply linked_change; [exact Hc12|by eapply linked_same|].
      intros pe2 Hpe2. change (st_pegs s1) with (st_pegs s) in Hpe2. rewrite Hpe2 in Hj'. injection Hj' as Ep Epe.
      assert ((j', PvSegment (Some p) pe2 len (Some sg) a') ∈ k1 ++ (j, h) :: k2) as Hin'.
      { destruct Hl as (j2 & q2 & w2 & pe3 & [= <-] & F1 & F2 & F3 & F4). subst.
        assert (q2 = q) as -> by congruence. eapply (view_lookup s1); [exact Hview1|exact F3|done|done]. }
      assert (j' <> j) as Hjj by (intros ->; apply Hnot; change (st_pegs s1) with (st_pegs s) in Hj; rewrite Hj in Hpe2; injection Hpe2; intros; subst; lia).
      clear -Hin' Hjj. set_solver.
    + intros q e Hq. rewrite (owner_at_same _ _ _ _ Hm3), <- (owner_at_same _ _ q e Hm1).
      destruct (decide (q = p)) as [->|Hqp].
      * rewrite (owner_at_view _ _ _ _ e Hv2), Hown, (owner_at_view _ _ _ _ e Hview1). case_decide as He'; [|by left].
        right. exists i, (e - pe). cbn [h peg_pe] in *. split; [|split; [lia|do 2 f_equal; lia]].
        pose proof (so_covers _ _ _ _ Hs1) as Hcc. rewrite fmap_app, fmap_cons in Hcc |- *.
        rewrite (owner_middle _ _ _ _ _ e Hcc). cbn [snd h peg_pe peg_len] in *.
        rewrite decide_False, decide_True by lia. cbn.
        by rewrite (proj2 (Z.leb_le _ _)), (proj2 (Z.ltb_lt _ _)) by lia.
      * left. destruct (vo_pvs _ _ _ Hvg1 q Hq) as (w & lq & Hokq).
        rewrite (owner_at_view _ _ _ _ e (proj1 Hokq)).
        by rewrite (owner_at_view _ _ _ _ e (proj1 (pv_change_view _ _ _ _ _ _ _ _ _ _ Hc12 Hqp Hokq))).
  - erewrite bind_exec by exact He. cbn beta.
    assert (seg_areas g2a !! Z.to_nat i = Some (Area AREA_PV (area_u_of b))) as Hbi.
    { cbn. apply list_lookup_insert_eq. by eapply lookup_lt_Some. }
    erewrite bind_exec by (eapply set_area_exec; [exact Hg2a|done|done]).
    eexists false, _. split; [done|]. split; [|done].
    intros Hno. change (alloc_ok s1) with (alloc_ok s) in Ha1. by rewrite no_oom_ok in Ha1.
Qed.

Lemma split_done_nil s g2 i :
  vg_ok s vg x -> st_segs s !! sp = Some g2 -> split_done s s g2 i i (seg_areas g2).
Proof.
  intros Hvg Hg2. split; try done; [|intros; lia|by left].
  rewrite insert_id; [done|]. by destruct g2.
Qed.

Lemma split_done_cons s s1 s2 g2 i hi areas1 areas2 :
  0 <= i < hi -> split_done s s1 g2 i (i + 1) areas1 -> split_done s1 s2 (set_seg_areas areas1 g2) (i + 1) hi areas2 ->
  split_done s s2 g2 i hi areas2.
Proof.
  intros Hi H1 H2. split.
  - apply H2.
  - etrans; [apply H2|apply H1].
  - rewrite (sd_lvs _ _ _ _ _ _ H2). apply H1.
  - rewrite (sd_segs _ _ _ _ _ _ H2), (sd_segs _ _ _ _ _ _ H1), insert_insert_eq. done.
  - rewrite (sd_length _ _ _ _ _ _ H2). apply H1.
  - intros a Ha. destruct (decide (a = i)) as [->|].
    + destruct (sd_areas _ _ _ _ _ _ H1 i ltac:(lia)) as (ar & ar' & E1 & L1 & E2 & L2).
      exists ar, ar'. split; [done|]. split; [apply (sd_frame _ _ _ _ _ _ H2); [done|lia]|].
      split; [by rewrite (sd_keep _ _ _ _ _ _ H2) by lia|]. apply (sd_frame _ _ _ _ _ _ H2); [done|lia].
    + apply (sd_areas _ _ _ _ _ _ H2). lia.
  - intros a Ha. rewrite (sd_keep _ _ _ _ _ _ H2) by lia. cbn. apply H1. lia.
  - intros sg a len ar Hl Hnot. apply (sd_frame _ _ _ _ _ _ H2); [|lia]. apply (sd_frame _ _ _ _ _ _ H1); [done|lia].
  - intros p e Hp. eapply moved_trans; [done|by apply H1|by apply H2].
Qed.

Lemma split_areas_spec n i s g2 :
  vg_ok s vg x -> st_segs s !! seg = Some g -> st_segs s !! sp = Some g2 ->
  (exists lv, st_lvs s !! seg_lv g2 = Some lv /\ lv_vg lv = vg) -> 0 <= i ->
  (Z.to_nat i + n <= length (seg_areas g2))%nat ->
  (forall a, i <= a < i + Z.of_nat n -> exists ar, seg_areas g !! Z.to_nat a = Some ar /\ linked s x seg a L ar) ->
  exists ok s', split_areas seg sp i n s = Some (ok, s') /\ (no_oom s -> ok = true) /\
    (ok = true -> exists areas', split_done s s' g2 i (i + Z.of_nat n) areas').
Proof.
  revert i s g2. induction n as [|n IH]; intros i s g2 Hvg Hg Hg2 Hlv Hi Hlen Hareas.
  { exists true, s. split; [done|]. split; [done|]. intros _. rewrite Z.add_0_r. eexists. by apply split_done_nil. }
  destruct (Hareas i ltac:(lia)) as (a & Ha & Hlink).
  destruct (lookup_lt_is_Some_2 (seg_areas g2) (Z.to_nat i) ltac:(lia)) as (b & Hb).
  destruct (split_area_step s g2 i a b Hvg Hg Hg2 Hlv Hi Ha Hlink Hb) as (ok & s1 & He & Hok & Hdone).
  cbn [split_areas]. erewrite bind_exec by exact He. destruct ok; cbn [negb]; [|by exists false, s1].
  destruct (Hdone eq_refl) as (ar' & H1).
  destruct (IH (i + 1) s1 (set_seg_areas (<[Z.to_nat i := ar']> (seg_areas g2)) g2)) as (ok & s2 & He2 & Hok2 & Hdone2).
  - apply H1.
  - rewrite (sd_segs _ _ _ _ _ _ H1). by rewrite lookup_insert_ne.
  - by rewrite (sd_segs _ _ _ _ _ _ H1), lookup_insert_eq.
  - by rewrite (sd_lvs _ _ _ _ _ _ H1).
  - lia.
  - cbn. rewrite length_insert. lia.
  - intros a' Ha'. destruct (Hareas a' ltac:(lia)) as (ar & E & Hl). exists ar. split; [done|].
    apply (sd_frame _ _ _ _ _ _ H1); [done|lia].
  - exists ok, s2. split; [done|]. split.
    + intros Hno. apply Hok2. eapply no_oom_suffix; [done|apply H1].
    + intros E. destruct (Hdone2 E) as (areas2 & H2). exists areas2.
      replace (i + Z.of_nat (S n)) with (i + 1 + Z.of_nat n) by lia. eapply split_done_cons; [lia|done|done].
Qed.
End split_loop.

(** *** The whole split *)

Definition alloc_seg (g : lv_segment) (s : store) : store :=
  Store (st_pegs s) (st_pvs s) (<[st_next s := g]> (st_segs s)) (st_lvs s) (st_vgs s)
    (S (st_next s)) (tail (st_alloc s)) (st_discards s).

Lemma exec_alloc_seg (g : lv_segment) s :
  alloc g s = if alloc_ok s then Some (Some (st_next s), alloc_seg g s) else Some (None, alloc_tick s).
Proof. unfold alloc, alloc_ok, alloc_seg, alloc_tick. destruct (st_alloc s) as [|[] ?] eqn:E; reflexivity. Qed.

(** A segment of an LV of the VG whose areas are pieces of PVs; the size of their array
    has 32 bits. *)
Record seg_ok (s : store) (vg : nat) (x : volume_group) (q : nat) (g : lv_segment) : Prop := {
  sk_seg : st_segs s !! q = Some g;
  sk_lv : exists v, st_lvs s !! seg_lv g = Some v /\ lv_vg v = vg;
  sk_areas : length (seg_areas g) = Z.to_nat (seg_area_count g);
  sk_count : 0 < seg_area_count g;
  sk_size : seg_area_count g * AREA_SIZE < 2 ^ 32;
  sk_len : seg_len g = seg_area_len g * mult g;
  sk_area_len : 0 < seg_area_len g;
  sk_range : 0 <= seg_le g /\ seg_le g + seg_len g < 2 ^ 32;
  sk_linked : forall a, 0 <= a < seg_area_count g ->
    exists ar, seg_areas g !! Z.to_nat a = Some ar /\ linked s x q a (seg_area_len g) ar }.

(** A segment without log, pool and RAID metadata, that may be split. *)
Definition plain_seg (g : lv_segment) : Prop :=
  seg_flag SEG_CAN_SPLIT g = true /\ seg_flag SEG_RAID g = false /\ seg_log_lv g = None /\
  sa_pool_lv (seg_attrs_of g) = None /\ NoDup (seg_tags g).

Definition segs_fresh (s : store) : Prop := forall i, (st_next s <= i)%nat -> st_segs s !! i = None.

Definition ticks (s s' : store) : Prop :=
  st_pegs s' = st_pegs s /\ st_pvs s' = st_pvs s /\ st_segs s' = st_segs s /\ st_lvs s' = st_lvs s /\
  st_vgs s' = st_vgs s /\ st_next s' = st_next s /\ st_alloc s' `suffix_of` st_alloc s.

Lemma ticks_tick s : ticks s (alloc_tick s).
Proof. repeat split. apply suffix_tail. Qed.

Lemma ticks_trans s1 s2 s3 : ticks s1 s2 -> ticks s2 s3 -> ticks s1 s3.
Proof.
  intros (A1 & A2 & A3 & A4 & A5 & A6 & A7) (B1 & B2 & B3 & B4 & B5 & B6 & B7).
  repeat split; try congruence. by etrans.
Qed.

Lemma ticks_same s s' : ticks s s' -> same_pvs s s'.
Proof.
  intros (A1 & A2 & A3 & A4 & A5 & A6 & A7). split; try done; [lia| |].
  - intros sg y. rewrite A3. eauto.
  - intros lv w. rewrite A4. eauto.
Qed.

Lemma bind_pool_alloc {B} (f : bool -> M B) s : (pool_alloc ≫= f) s = f (alloc_ok s) (alloc_tick s).
Proof. reflexivity. Qed.

Lemma str_list_dup_spec l acc s :
  NoDup (acc ++ l) ->
  exists r s', str_list_dup l acc s = Some (r, s') /\ ticks s s' /\
    (r = None \/ r = Some (acc ++ l)) /\ (no_oom s -> r = Some (acc ++ l)).
Proof.
  revert acc s. induction l as [|t l IH]; intros acc s Hnd.
  { exists (Some acc), s. rewrite app_nil_r. split; [done|]. split; [by repeat split|]. auto. }
  assert (t ∉ acc) as Ht. { apply NoDup_app in Hnd as (_ & Hd & _). intros Hin. apply (Hd t Hin). left. }
  pose proof (ticks_tick s) as H1. pose proof (ticks_trans _ _ _ H1 (ticks_tick _)) as H2.
  cbn [str_list_dup]. rewrite bind_pool_alloc. destruct (alloc_ok s) eqn:E1; cbn [negb].
  2:{ exists None, (alloc_tick s). split; [done|]. split; [done|]. split; [by left|]. intros Hno. by rewrite no_oom_ok in E1. }
  rewrite decide_False, bind_pool_alloc by done. destruct (alloc_ok (alloc_tick s)) eqn:E2; cbn [negb].
  - destruct (IH (acc ++ [t]) (alloc_tick (alloc_tick s))) as (r & s' & He & Ht' & Hr & Hno); [by rewrite <- app_assoc|].
    rewrite <- app_assoc in Hr, Hno. exists r, s'. split; [exact He|]. split; [by eapply ticks_trans|].
    split; [done|]. intros Hn. apply Hno. eapply no_oom_suffix; [exact Hn|apply H2].
  - exists None, (alloc_tick (alloc_tick s)). split; [done|]. split; [done|]. split; [by left|]. intros Hno.
    assert (no_oom (alloc_tick s)) as Hn by (eapply no_oom_suffix; [exact Hno|apply H1]). by rewrite no_oom_ok in E2.
Qed.

Lemma bind_modify_seg {B} s q g f (k : unit -> M B) :
  st_segs s !! q = Some g -> (modify q f ≫= k) s = k tt (with_seg q (f g) s).
Proof. intros Hq. by erewrite bind_modify by exact Hq. Qed.

Lemma with_seg_eq q g s : st_segs (with_seg q g s) !! q = Some g.
Proof. apply lookup_insert_eq. Qed.

Lemma with_seg_ne q q' g s : q <> q' -> st_segs (with_seg q g s) !! q' = st_segs s !! q'.
Proof. intros H. by apply lookup_insert_ne. Qed.

(** A new segment without log and pool. *)
Lemma alloc_lv_segment_spec s t lv le len status stripe_size n area_len chunk region copied src :
  flag (segtype_flags t) SEG_RAID = false -> 0 <= n -> n * AREA_SIZE < 2 ^ 32 ->
  exists r s', alloc_lv_segment (Some t) lv le len status stripe_size None None n area_len chunk region copied src s
      = Some (r, s') /\ (no_oom s -> r <> None) /\
    (r <> None -> r = Some (st_next s) /\
       s' = alloc_tick (alloc_seg (LvSegment lv t le len status stripe_size n area_len None [] (replicate (Z.to_nat n) zero_area)
              (SegAttrs chunk None None region copied src [] None 0 None 0)) s)).
Proof.
  intros Hr Hn0 Hn1. unfold alloc_lv_segment. rewrite Hr.
  rewrite wrap32_small, Z.div_mul by (unfold AREA_SIZE in *; lia). set (g := LvSegment _ _ _ _ _ _ _ _ _ _ _ _).
  destruct (alloc_ok s) eqn:E1.
  2:{ exists None, (alloc_tick s). split; [by erewrite bind_exec by (rewrite exec_alloc_seg, E1; reflexivity)|].
      split; [|done]. intros Hno. by rewrite no_oom_ok in E1. }
  erewrite bind_exec by (rewrite exec_alloc_seg, E1; reflexivity). cbn beta iota. rewrite bind_pool_alloc.
  assert (no_oom s -> no_oom (alloc_seg g s)) as Hn by (intros H; eapply no_oom_suffix; [exact H|apply suffix_tail]).
  destruct (alloc_ok (alloc_seg g s)) eqn:E2; cbn [negb].
  - eexists _, _. split; [reflexivity|]. split; [done|]. by split.
  - eexists _, _. split; [reflexivity|]. split; [|done]. intros Hno. by rewrite no_oom_ok in E2; [|apply Hn].
Qed.

Section split_segment.
Context (s : store) (vg : nat) (x : volume_group) (lv : nat) (w : logical_volume) (seg : nat) (g : lv_segment) (le : Z).
Hypothesis Hvg : vg_ok s vg x.
Hypothesis Hfresh : segs_fresh s.
Hypothesis Hseg : seg_ok s vg x seg g.
Hypothesis Hplain : plain_seg g.
Hypothesis Hlv : seg_lv g = lv.
Hypothesis Hw : st_lvs s !! lv = Some w.
Hypothesis Hle : seg_le g < le < seg_le g + seg_len g.
Hypothesis Hdiv : (le - seg_le g) mod mult g = 0.

Let sp := st_next s.
Let offset := le - seg_le g.
Let off := offset / mult g.
Let L := seg_area_len g.
Let g1 := set_seg_len offset (set_seg_area_len off g).
Let sa := seg_attrs_of g.
Let g2 := LvSegment lv (seg_segtype g) le (seg_len g - offset) (seg_status g) (seg_stripe_size g) (seg_area_count g)
  (L - off) None (seg_tags g) (replicate (Z.to_nat (seg_area_count g)) zero_area)
  (SegAttrs (sa_chunk_size sa) None None (sa_region_size sa) (sa_extents_copied sa) (sa_pvmove_source_seg sa) [] None 0 None 0).

Lemma split_offsets : 0 < mult g /\ offset = off * mult g /\ 0 < off < L /\ 0 < offset < 2 ^ 32 /\ seg_len g < 2 ^ 32.
Proof.
  pose proof (sk_len _ _ _ _ _ Hseg) as Hl. pose proof (sk_area_len _ _ _ _ _ Hseg). pose proof (sk_range _ _ _ _ _ Hseg).
  assert (0 < mult g) as Hm. { unfold mult. destruct (seg_is_striped g); [apply (sk_count _ _ _ _ _ Hseg)|lia]. }
  split; [done|]. assert (offset = off * mult g) as Eo.
  { unfold off. fold offset in Hdiv. pose proof (Z.div_mod offset (mult g)). lia. }
  split; [done|]. split; [|unfold offset; lia]. unfold L. clear Hdiv. unfold offset in *. split; nia.
Qed.

(** The store when the loop over the areas starts. *)
Lemma split_prepare :
  exists (ok : bool) s', lv_split_segment_at lv seg le s =
    (if (ok : bool) then ok ← split_areas seg sp 0 (Z.to_nat (seg_area_count g));
                if negb ok then mret false else
                modify lv (fun v => set_lv_segments (insert_after seg sp (lv_segments v)) v);; mret true
     else mret false) s' /\ (no_oom s -> ok = true) /\
    (ok = true -> same_pvs s s' /\ st_lvs s' = st_lvs s /\ st_segs s' = <[seg := g1]> (<[sp := g2]> (st_segs s))).
Proof.
  destruct Hplain as (Hsplit & Hraid & Hlog & Hpool & Htags). destruct split_offsets as (Hm & Eo & Hoff & Ho & Hlen).
  pose proof (sk_seg _ _ _ _ _ Hseg) as Hg. pose proof (sk_range _ _ _ _ _ Hseg) as Hrange.
  unfold lv_split_segment_at. mstep. rewrite Hsplit, Hlog, Hpool. cbn [negb].
  destruct (alloc_lv_segment_spec s (seg_segtype g) (seg_lv g) (seg_le g) (seg_len g) (seg_status g) (seg_stripe_size g)
    (seg_area_count g) (seg_area_len g) (sa_chunk_size (seg_attrs_of g)) (sa_region_size (seg_attrs_of g))
    (sa_extents_copied (seg_attrs_of g)) (sa_pvmove_source_seg (seg_attrs_of g)) Hraid
    (Z.lt_le_incl _ _ (sk_count _ _ _ _ _ Hseg)) (sk_size _ _ _ _ _ Hseg)) as (r & s1 & He1 & Hno1 & Hr).
  erewrite bind_exec by exact He1. cbn beta. destruct r as [q|]; cbn beta iota.
  2:{ exists false, s1. split; [done|]. split; [|done]. intros Hno. by destruct (Hno1 Hno). }
  destruct (Hr ltac:(done)) as [[= ->] Es1]. set (g0 := LvSegment _ _ _ _ _ _ _ _ _ _ _ _) in Es1.
  destruct (str_list_dup_spec (seg_tags g) [] s1 Htags) as (r & s2 & He2 & Ht & Hr2 & Hno2).
  assert (no_oom s -> no_oom s1) as Hn1.
  { intros H. eapply no_oom_suffix; [exact H|]. rewrite Es1. cbn. etrans; apply suffix_tail. }
  erewrite bind_exec by exact He2. cbn beta. cbn [app] in *.
  destruct Hr2 as [->| ->]; [exists false, s2; split; [done|]; split; [|done]; intros Hno; by specialize (Hno2 (Hn1 Hno))|].
  assert (st_segs s2 = <[sp := g0]> (st_segs s)) as Es2.
  { destruct Ht as (_ & _ & -> & _). by rewrite Es1. }
  assert (same_pvs s s2) as Hm2.
  { eapply same_pvs_trans; [|by apply ticks_same]. rewrite Es1. split; try done; cbn; [lia| |eauto|etrans; apply suffix_tail].
    intros sg y Hy. exists y. split; [|done]. rewrite lookup_insert_ne; [done|]. intros <-. by rewrite Hfresh in Hy. }
  assert (seg <> sp) as Hne. { intros E. pose proof (Hfresh sp ltac:(done)) as Hx. rewrite <- E in Hx. congruence. }
  fold sp. erewrite bind_modify_seg by (rewrite Es2; apply lookup_insert_eq).
  assert (wrap32 (le - seg_le g) = offset) as -> by (apply wrap32_small; unfold offset in *; lia).
  assert (forall k, ((if seg_is_striped g then if seg_area_count g =? 0 then wild else mret (offset / seg_area_count g) else mret offset) : M Z)
    k = Some (off, k)) as Hao.
  { intros k. unfold off, mult. pose proof (sk_count _ _ _ _ _ Hseg). destruct (seg_is_striped g); [|by rewrite Z.div_1_r].
    by rewrite (proj2 (Z.eqb_neq _ _)) by lia. }
  erewrite bind_exec by apply Hao. cbn beta.
  erewrite bind_modify_seg by apply with_seg_eq.
  erewrite bind_modify_seg by (rewrite !with_seg_ne by done; rewrite Es2; by rewrite lookup_insert_ne).
  erewrite bind_modify_seg by (rewrite with_seg_ne by done; apply with_seg_eq).
  erewrite bind_modify_seg by (rewrite with_seg_ne by done; apply with_seg_eq).
  erewrite bind_modify_seg by (rewrite with_seg_ne by done; apply with_seg_eq).
  eexists true, _. split; [reflexivity|]. split; [done|]. intros _. split; [|split].
  - do 6 (eapply same_pvs_trans; [|eapply same_pvs_with_seg;
      [first [apply with_seg_eq|rewrite with_seg_ne by done; apply with_seg_eq|
              rewrite !with_seg_ne by done; rewrite Es2; (apply lookup_insert_eq || by rewrite lookup_insert_ne)|
              rewrite Es2; apply lookup_insert_eq]|reflexivity]]). done.
  - change (st_lvs s2 = st_lvs s). destruct Ht as (_ & _ & _ & -> & _). by rewrite Es1.
  - apply map_eq. intros q. unfold with_seg. cbn [st_segs set_tbl segs_table]. rewrite Es2.
    destruct (decide (q = seg)) as [->|H1]; [|destruct (decide (q = sp)) as [->|H2]].
    + rewrite lookup_insert_ne by done. by rewrite !lookup_insert_eq.
    + rewrite lookup_insert_eq, lookup_insert_ne, lookup_insert_eq by done. f_equal. unfold g0, g2.
      unfold set_seg_le, set_seg_len, set_seg_area_len, set_seg_tags. cbn. rewrite Hlv.
      assert (seg_area_len g < 2 ^ 32) by (pose proof (sk_len _ _ _ _ _ Hseg); nia).
      f_equal; first [by apply wrap32_small; unfold L in *; lia|etransitivity; [apply wrap32_small; lia|unfold offset; lia]].
    + by rewrite !lookup_insert_ne.
Qed.
Lemma split_extents s1 s2 g2' :
  same_pvs s s1 -> st_segs s2 = <[sp := g2']> (<[seg := g1]> (<[sp := g2]> (st_segs s))) ->
  seg_lv g2' = lv -> seg_le g2' = le -> mult g2' = mult g ->
  (forall p e, p ∈ vg_pvs x -> moved seg sp off (owner_at s1 p e) (owner_at s2 p e)) ->
  forall p e, p ∈ vg_pvs x -> lv_extent s2 p e = lv_extent s p e.
Proof.
  intros Hm Es El Ele Emult Hown p e Hp. destruct split_offsets as (Hmul & Eo & Hoff & _). specialize (Hown p e Hp).
  rewrite (owner_at_same _ _ _ _ Hm) in Hown. unfold lv_extent. rewrite Es.
  assert (seg <> sp) as Hne.
  { intros E. pose proof (Hfresh sp ltac:(done)) as Hx. rewrite <- E, (sk_seg _ _ _ _ _ Hseg) in Hx. done. }
  destruct Hown as [->|(a & k & -> & Hk & ->)].
  - destruct (owner_at s p e) as [[[q a] k]|] eqn:E; [|done].
    assert (q <> sp) as Hq.
    { intros ->. destruct (vo_pvs _ _ _ Hvg p Hp) as (v & l & Hv & _ & Ho). rewrite (owner_at_view _ _ _ _ _ Hv) in E.
      apply owner_elem in E as (h & Hh & Hsg). rewrite Forall_forall in Ho. destruct (Ho h Hh _ Hsg) as (y & _ & Hy & _).
      by rewrite Hfresh in Hy. }
    rewrite lookup_insert_ne by done. destruct (decide (q = seg)) as [->|Hqs].
    + rewrite lookup_insert_eq, (sk_seg _ _ _ _ _ Hseg). done.
    + by rewrite !lookup_insert_ne.
  - rewrite lookup_insert_eq, (sk_seg _ _ _ _ _ Hseg), El, Ele, Emult, Hlv. do 2 f_equal. unfold offset in Eo. lia.
Qed.

(** [_lv_split_segment] of a plain segment on PVs, at a boundary between rows. *)
Lemma split_segment_spec :
  exists ok s', lv_split_segment_at lv seg le s = Some (ok, s') /\ (no_oom s -> ok = true) /\
    (ok = true -> vg_ok s' vg x /\
       st_lvs s' = <[lv := set_lv_segments (insert_after seg sp (lv_segments w)) w]> (st_lvs s) /\
       (exists g2', seg_ok s' vg x seg g1 /\ seg_ok s' vg x sp g2' /\ seg_lv g2' = lv /\ seg_le g2' = le /\
          seg_len g2' = seg_len g - offset /\ seg_tags g2' = seg_tags g) /\
       (forall q, q <> seg -> q <> sp -> st_segs s' !! q = st_segs s !! q) /\
       (forall q a len ar, q <> seg -> linked s x q a len ar -> linked s' x q a len ar) /\
       forall p e, p ∈ vg_pvs x -> lv_extent s' p e = lv_extent s p e).
Proof.
  destruct split_prepare as (ok & s1 & He & Hno & H1). rewrite He.
  destruct ok; [|exists false, s1; split; [done|]; by split].
  destruct (H1 eq_refl) as (Hm & Hlvs & Hsegs). destruct split_offsets as (Hmul & Eo & Hoff & Ho & Hlen).
  assert (seg <> sp) as Hne.
  { intros E. pose proof (Hfresh sp ltac:(done)) as Hx. rewrite <- E, (sk_seg _ _ _ _ _ Hseg) in Hx. done. }
  pose proof (sk_lv _ _ _ _ _ Hseg) as (w' & Hw' & Hwvg). assert (w' = w) as -> by congruence.
  assert (mult g1 = mult g) as Em1 by done. assert (mult g2 = mult g) as Em2 by done.
  destruct (split_areas_spec vg x seg sp g1 L off Hne eq_refl Hoff (Z.to_nat (seg_area_count g)) 0 s1 g2)
    as (ok & s2 & He2 & Hno2 & Hd).
  - by eapply vg_ok_same.
  - by rewrite Hsegs, lookup_insert_eq.
  - by rewrite Hsegs, lookup_insert_ne, lookup_insert_eq.
  - rewrite Hlvs. cbn. eauto.
  - lia.
  - cbn. rewrite length_replicate. lia.
  - intros a Ha. destruct (sk_linked _ _ _ _ _ Hseg a ltac:(lia)) as (ar & E & Hl). exists ar. split; [done|].
    by eapply linked_same.
  - erewrite bind_exec by exact He2. cbn beta. destruct ok; cbn [negb].
    2:{ exists false, s2. split; [done|]. split; [|done]. intros Hn. apply Hno2. eapply no_oom_suffix; [exact Hn|apply Hm]. }
    destruct (Hd eq_refl) as (areas' & Hdone). rewrite Z.add_0_l, Z2Nat.id in Hdone by (pose proof (sk_count _ _ _ _ _ Hseg); lia).
    assert (st_lvs s2 !! lv = Some w) as Hw2 by by rewrite (sd_lvs _ _ _ _ _ _ _ _ _ _ _ _ _ Hdone), Hlvs.
    eexists true, _. split; [mstep; reflexivity|]. split; [done|]. intros _.
    set (s3 := set_tbl _ _).
    assert (same_pvs s2 s3) as Hm3.
    { split; try done; [eauto|]. intros q y Hy. cbn. destruct (decide (q = lv)) as [->|].
      - eexists. split; [apply lookup_insert_eq|]. cbn. congruence.
      - exists y. by rewrite lookup_insert_ne. }
    set (g2' := set_seg_areas areas' g2).
    assert (st_segs s3 = <[sp := g2']> (<[seg := g1]> (<[sp := g2]> (st_segs s)))) as Es3.
    { change (st_segs s3) with (st_segs s2). by rewrite (sd_segs _ _ _ _ _ _ _ _ _ _ _ _ _ Hdone), Hsegs. }
    assert (exists v, st_lvs s3 !! lv = Some v /\ lv_vg v = vg) as Hlv3.
    { eexists. split; [apply lookup_insert_eq|done]. }
    pose proof (sk_range _ _ _ _ _ Hseg). pose proof (sk_len _ _ _ _ _ Hseg) as Hl.
    split; [eapply vg_ok_same; [exact Hm3|apply Hdone]|]. split.
    { cbn. by rewrite (sd_lvs _ _ _ _ _ _ _ _ _ _ _ _ _ Hdone), Hlvs. }
    split; [exists g2'; split; [|split; [|done]]|split; [|split]].
    + split; try done; [by rewrite Es3, lookup_insert_ne, lookup_insert_eq|by rewrite <- Hlv in Hlv3|apply Hseg|apply Hseg|apply Hseg|
        cbn; lia|cbn; unfold offset in *; lia|].
      intros a Ha. destruct (sd_areas _ _ _ _ _ _ _ _ _ _ _ _ _ Hdone a Ha) as (ar & ar' & E1 & L1 & E2 & L2).
      exists ar. split; [done|]. by eapply linked_same.
    + split; try done; [by rewrite Es3, lookup_insert_eq| |apply Hseg|apply Hseg|change (seg_len g - offset = (L - off) * mult g); rewrite Z.mul_sub_distr_r; unfold L; lia|cbn; lia|
        cbn; unfold offset in *; lia|].
      { cbn. rewrite (sd_length _ _ _ _ _ _ _ _ _ _ _ _ _ Hdone). cbn. apply length_replicate. }
      intros a Ha. destruct (sd_areas _ _ _ _ _ _ _ _ _ _ _ _ _ Hdone a Ha) as (ar & ar' & E1 & L1 & E2 & L2).
      exists ar'. split; [done|]. by eapply linked_same.
    + intros q H2 H3. rewrite Es3. by rewrite !lookup_insert_ne.
    + intros q a len ar Hq Hlk. eapply linked_same; [exact Hm3|]. apply (sd_frame _ _ _ _ _ _ _ _ _ _ _ _ _ Hdone); [|naive_solver].
      by eapply linked_same.
    + eapply split_extents; [exact Hm|exact Es3|done|done|done|]. intros p e Hp. rewrite (owner_at_same _ _ _ _ Hm3).
      by apply Hdone.
Qed.
End split_segment.

(** ** Merging *)

(** [linked] with the PV segment, the PV and the first extent named. *)
Definition linked_at (s : store) (x : volume_group) (sg : nat) (a len : Z) (j p : nat) (pe : Z) : Prop :=
  st_pegs s !! j = Some (PvSegment (Some p) pe len (Some sg) a) /\
  p ∈ vg_pvs x /\ exists v, st_pvs s !! p = Some v /\ j ∈ pv_segments v.

Lemma linked_at_linked s x sg a len j p pe :
  linked_at s x sg a len j p pe -> linked s x sg a len (Area AREA_PV (U_pv (Some j))).
Proof. intros (H1 & H2 & v & H3 & H4). by exists j, p, v, pe. Qed.

Lemma linked_linked_at s x sg a len ar :
  linked s x sg a len ar -> exists j p pe, ar = Area AREA_PV (U_pv (Some j)) /\ linked_at s x sg a len j p pe.
Proof. intros (j & p & v & pe & -> & H1 & H2 & H3 & H4). exists j, p, pe. split; [done|]. by repeat split; [..|exists v]. Qed.

(** Two adjacent PV segments of a PV are neighbours in its list. *)
Lemma neighbours s vg p v l i h j h' :
  pv_ok s vg p v l -> (i, h) ∈ l -> (j, h') ∈ l -> peg_pe h' = peg_pe h + peg_len h ->
  exists k1 k2, l = k1 ++ (i, h) :: (j, h') :: k2.
Proof.
  intros (_ & Hs & _) Hi Hj Hadj. pose proof (so_covers _ _ _ _ Hs) as Hc. pose proof (so_nodup _ _ _ _ Hs) as Hnd.
  apply list_elem_of_split in Hi as (k1 & k2 & ->). pose proof Hc as Hc'.
  rewrite fmap_app, fmap_cons in Hc'. apply covers_middle in Hc' as (Hc1 & Hlen & Hc2). cbn [snd] in *.
  apply elem_of_app in Hj as [Hj|Hj].
  { assert (h' ∈ k1.*2) as Hh by (apply list_elem_of_fmap; by exists (j, h')).
    destruct (covers_elem _ _ _ _ Hc1 Hh). lia. }
  apply elem_of_cons in Hj as [[= -> ->]|Hj]; [lia|]. exists k1.
  destruct k2 as [|[m g] k2]; [by apply elem_of_nil in Hj|]. exists k2. do 2 f_equal.
  apply elem_of_cons in Hj as [<-|Hj]; [done|]. exfalso.
  rewrite fmap_cons in Hc2. cbn in Hc2. destruct Hc2 as (Hg & Hgl & Hc2).
  assert (h' ∈ k2.*2) as Hh by (apply list_elem_of_fmap; by exists (j, h')).
  destruct (covers_elem _ _ _ _ Hc2 Hh). lia.
Qed.

Lemma filter_keep {A} (P : A -> Prop) `{forall a, Decision (P a)} (l : list A) : Forall P l -> filter P l = l.
Proof. induction 1 as [|a l Ha _ IH]; [done|]. by rewrite filter_cons_True, IH. Qed.

Section merge_pegs.
Context (s : store) (vg : nat) (x : volume_group) (p : nat) (v : physical_volume).
Context (k1 k2 : list (nat * pv_segment)) (i j : nat) (h h' : pv_segment) (sg1 sg2 : nat).
Hypothesis Hvg : vg_ok s vg x.
Hypothesis Hp : p ∈ vg_pvs x.
Hypothesis Hok : pv_ok s vg p v (k1 ++ (i, h) :: (j, h') :: k2).
Hypothesis Hh : peg_lvseg h = Some sg1.
Hypothesis Hh' : peg_lvseg h' = Some sg2.

Let joined := set_peg_len (peg_len h + peg_len h') h.
Let l' := k1 ++ (i, joined) :: k2.

Lemma merge_pegs_spec :
  exists s' v', merge_pv_segments i j s = Some (tt, s') /\ pv_change s s' vg x p v' l' /\ vg_ok s' vg x /\
    pv_ok s' vg p v' l' /\ st_alloc s' = st_alloc s /\ st_next s' = st_next s /\ pv_pe_count v' = pv_pe_count v /\
    forall e, owner l'.*2 e =
      if decide (peg_pe h' <= e < peg_pe h' + peg_len h') then Some (sg1, peg_lv_area h, e - peg_pe h)
      else owner (k1 ++ (i, h) :: (j, h') :: k2).*2 e.
Proof.
  pose proof Hok as (Hview & Hs & Ho). pose proof Hs as [Hnd Hpv Hc Hr Ha].
  rewrite !fmap_app, !fmap_cons in Hnd. rewrite !fmap_app, !fmap_cons in Hpv. rewrite !fmap_app, !fmap_cons in Hc.
  rewrite !fmap_app, !fmap_cons in Ha. rewrite !fmap_app, !fmap_cons in Ho. cbn [fst snd] in *.
  pose proof Hc as (Hc1 & Hl1 & (Ej & Hl2 & Hc2))%covers_middle.
  pose proof (view_elem _ _ _ _ i h Hview ltac:(set_solver)) as Hi.
  pose proof (view_elem _ _ _ _ j h' Hview ltac:(set_solver)) as Hj.
  apply Forall_app in Hpv as [Hp1 [Hph [Hph' Hp2]%Forall_cons]%Forall_cons].
  apply NoDup_app in Hnd as (Hn1 & Hd & [Hij [Hjk Hn2]%NoDup_cons]%NoDup_cons).
  assert (i <> j) as Hne by (intros ->; apply Hij; left).
  pose proof (proj1 Hview) as Hv. pose proof (covers_le _ _ _ Hc1). pose proof (covers_le _ _ _ Hc2).
  unfold merge_pv_segments. do 2 mstep. rewrite Hph'. cbn [deref]. mstep. rewrite wrap32_small by lia.
  set (v' := set_pv_segments l'.*1 v).
  assert (filter (fun q => q <> j) (pv_segments v) = l'.*1) as Ef.
  { destruct Hview as (_ & -> & _). unfold l'. rewrite !fmap_app, !fmap_cons. cbn [fst].
    rewrite filter_app, !filter_cons_True, filter_cons_False by naive_solver.
    rewrite !filter_keep; [done|..].
    - apply Forall_forall. intros q Hq ->. done.
    - apply Forall_forall. intros q Hq ->. apply (Hd j Hq). by right; left. }
  mstep. rewrite Ef. set (s' := set_tbl _ _). exists s', v'. split; [done|].
  assert (pv_change s s' vg x p v' l') as Hch.
  { split; try done.
    - symmetry. apply insert_id, Hvg.
    - intros m y Hm Hy. cbn. rewrite lookup_insert_ne; [done|]. intros <-. congruence.
    - split; [cbn; by rewrite lookup_insert_eq|]. split; [done|]. unfold l'. destruct Hview as (_ & _ & Hg).
      apply Forall_app in Hg as [Hg1 [_ [_ Hg2]%Forall_cons]%Forall_cons]. cbn. apply Forall_app. split; [|apply Forall_cons; split].
      + rewrite Forall_forall in Hg1 |- *. intros [m y] Hm. cbn. rewrite lookup_insert_ne; [by apply (Hg1 (m, y))|].
        intros <-. apply (Hd i); [|left]. apply list_elem_of_fmap. by exists (i, y).
      + cbn. by rewrite lookup_insert_eq.
      + rewrite Forall_forall in Hg2 |- *. intros [m y] Hm. cbn. rewrite lookup_insert_ne; [by apply (Hg2 (m, y))|].
        intros <-. apply Hij. right. apply list_elem_of_fmap. by exists (i, y).
    - intros m Hm. cbn. rewrite lookup_insert_ne; [by apply Hvg|]. intros <-. by rewrite (vo_fresh _ _ _ Hvg) in Hi. }
  assert (segs_ok p (pv_pe_count v') v' l') as Hs'.
  { unfold l'. split; rewrite ?fmap_app, ?fmap_cons; cbn [fst snd].
    - apply NoDup_app. split; [done|]. split; [|apply NoDup_cons; split; [set_solver|done]]. set_solver.
    - apply Forall_app. split; [done|]. by constructor.
    - apply covers_middle. cbn. split; [done|]. split; [lia|]. by rewrite Z.add_assoc.
    - done.
    - cbn. rewrite Ha, !alloced_app, !alloced_cons. unfold alloc_len, joined. cbn. rewrite Hh, Hh'. lia. }
  assert (Forall (owned_by s vg) l'.*2) as Ho'.
  { unfold l'. rewrite fmap_app, fmap_cons. apply Forall_app in Ho as [Ho1 [Hoh [_ Ho2]%Forall_cons]%Forall_cons].
    apply Forall_app. split; [done|]. by apply Forall_cons. }
  split; [done|]. destruct (vg_ok_quiet _ _ _ _ _ _ _ _ _ Hvg Hp Hview Hch Hs' Ho') as [H1 H2]; [done|done|].
  do 5 (split; [done|]). intros e. unfold l'. rewrite !fmap_app, !fmap_cons. cbn [snd].
  pose proof (so_covers _ _ _ _ Hs') as Hc'. unfold l' in Hc'. rewrite fmap_app, fmap_cons in Hc'. cbn [snd] in Hc'.
  rewrite (owner_middle _ _ _ _ _ e Hc'), (owner_middle _ _ _ _ _ e Hc). cbn [joined set_peg_len peg_pe peg_len owner peg_lvseg peg_lv_area].
  rewrite Hh, Hh'. repeat case_decide; try lia; try done;
    repeat (rewrite (proj2 (Z.leb_le _ _)) by lia); repeat (rewrite (proj2 (Z.ltb_lt _ _)) by lia);
    repeat (rewrite (proj2 (Z.leb_gt _ _)) by lia); repeat (rewrite (proj2 (Z.ltb_ge _ _)) by lia); done.
Qed.
End merge_pegs.

Section merge_segments_.
Context (vg : nat) (x : volume_group) (seg1 seg2 : nat) (g1 g2 : lv_segment).
Hypothesis Hne : seg1 <> seg2.

Let L1 := seg_area_len g1.
Let L2 := seg_area_len g2.

(** Area [a] of the second segment follows that of the first on the same PV. *)
Definition follows (s : store) (a : Z) : Prop :=
  exists i j p pe, seg_areas g1 !! Z.to_nat a = Some (Area AREA_PV (U_pv (Some i))) /\
    seg_areas g2 !! Z.to_nat a = Some (Area AREA_PV (U_pv (Some j))) /\
    linked_at s x seg1 a L1 i p pe /\ linked_at s x seg2 a L2 j p (pe + L1).

Lemma linked_at_bound s sg a len j p pe :
  vg_ok s vg x -> linked_at s x sg a len j p pe -> 0 <= pe /\ 0 < len /\ pe + len < 2 ^ 32.
Proof.
  intros Hvg Hl. destruct (linked_in s x vg sg a len j Hvg (linked_at_linked _ _ _ _ _ _ _ _ Hl)) as (q & v & pe' & k1 & k2 & Hq & Hok).
  pose proof Hok as (Hv & Hs & _). pose proof (view_elem _ _ _ _ j _ Hv ltac:(apply elem_of_app; right; left)) as Hj.
  destruct Hl as (Hj' & _). rewrite Hj in Hj'. injection Hj' as -> ->.
  pose proof (so_covers _ _ _ _ Hs) as Hc. pose proof (so_range _ _ _ _ Hs). rewrite fmap_app, fmap_cons in Hc.
  apply covers_middle in Hc as (Hc1 & Hlen & Hc2). cbn in *. apply covers_le in Hc1, Hc2. lia.
Qed.

Lemma areas_adjacent_spec n i s :
  vg_ok s vg x -> st_segs s !! seg1 = Some g1 -> st_segs s !! seg2 = Some g2 -> 0 <= i ->
  (forall a, i <= a < i + Z.of_nat n -> exists ar, seg_areas g1 !! Z.to_nat a = Some ar /\ linked s x seg1 a L1 ar) ->
  (forall a, i <= a < i + Z.of_nat n -> exists ar, seg_areas g2 !! Z.to_nat a = Some ar /\ linked s x seg2 a L2 ar) ->
  exists b, areas_adjacent seg1 seg2 i n s = Some (b, s) /\
    (b = true -> forall a, i <= a < i + Z.of_nat n -> follows s a).
Proof.
  intros Hvg Hg1 Hg2. revert i. induction n as [|n IH]; intros i Hi Ha1 Ha2; [exists true; split; [done|]; intros; lia|].
  destruct (Ha1 i ltac:(lia)) as (ar1 & E1 & Hl1). destruct (Ha2 i ltac:(lia)) as (ar2 & E2 & Hl2).
  destruct (linked_linked_at _ _ _ _ _ _ Hl1) as (j1 & p1 & pe1 & -> & Hk1).
  destruct (linked_linked_at _ _ _ _ _ _ Hl2) as (j2 & p2 & pe2 & -> & Hk2).
  destruct (linked_at_bound _ _ _ _ _ _ _ Hvg Hk1) as (? & ? & ?).
  cbn [areas_adjacent]. do 2 erewrite bind_exec by by eapply area_at_exec. cbn [area_type area_pvseg area_u_of].
  rewrite !bool_decide_eq_true_2 by done. cbn [negb orb]. mstep. mstep. cbn [deref]. mstep.
  pose proof (proj1 Hk1) as Hp1. pose proof (proj1 Hk2) as Hp2. mstep. mstep. cbn [deref]. mstep. mstep.
  cbn [peg_pv peg_pe]. fold L1. rewrite wrap32_small by lia.
  destruct (negb _ || negb _) eqn:E; [by exists false|]. apply orb_false_iff in E as [Ep%negb_false_iff%bool_decide_eq_true Epe%negb_false_iff%Z.eqb_eq].
  injection Ep as ->. destruct (IH (i + 1)) as (b & He & Hb); [lia|intros; apply Ha1; lia|intros; apply Ha2; lia|].
  exists b. split; [done|]. intros Hbt a Ha. destruct (decide (a = i)) as [->|]; [|apply Hb; [done|lia]].
  exists j1, j2, p2, pe1. rewrite Epe. done.
Qed.

(** What merging the areas [i], ..., [hi - 1] does. *)
Record merge_done (s s' : store) (i hi : Z) : Prop := {
  md_vg : vg_ok s' vg x;
  md_alloc : st_alloc s' = st_alloc s;
  md_next : st_next s' = st_next s;
  md_free : free_max s x -> free_max s' x;
  md_lvs : st_lvs s' = st_lvs s;
  md_segs : st_segs s' = st_segs s;
  md_areas : forall a, i <= a < hi -> exists j p pe, seg_areas g1 !! Z.to_nat a = Some (Area AREA_PV (U_pv (Some j))) /\
    linked_at s' x seg1 a (L1 + L2) j p pe;
  md_frame : forall q a len j p pe, linked_at s x q a len j p pe -> ~ ((q = seg1 \/ q = seg2) /\ i <= a < hi) ->
    linked_at s' x q a len j p pe;
  md_owner : forall p e, p ∈ vg_pvs x -> owner_at s' p e = owner_at s p e \/
    exists a k, owner_at s p e = Some (seg2, a, k) /\ owner_at s' p e = Some (seg1, a, k + L1) }.

Lemma merge_done_nil s i : vg_ok s vg x -> merge_done s s i i.
Proof. intros Hvg. split; try done; [intros; lia|by left]. Qed.

Lemma merge_done_cons s s1 s2 i hi :
  i < hi -> merge_done s s1 i (i + 1) -> merge_done s1 s2 (i + 1) hi -> merge_done s s2 i hi.
Proof.
  intros Hi H1 H2. split; [apply H2| | | | | | | |].
  - rewrite (md_alloc _ _ _ _ H2). apply H1.
  - rewrite (md_next _ _ _ _ H2). apply H1.
  - intros Hf. by apply H2, H1.
  - rewrite (md_lvs _ _ _ _ H2). apply H1.
  - rewrite (md_segs _ _ _ _ H2). apply H1.
  - intros a Ha. destruct (decide (a = i)) as [->|]; [|apply H2; lia].
    destruct (md_areas _ _ _ _ H1 i ltac:(lia)) as (j & p & pe & E & Hl). exists j, p, pe. split; [done|].
    apply (md_frame _ _ _ _ H2); [done|lia].
  - intros q a len j p pe Hl Hnot. apply (md_frame _ _ _ _ H2); [|naive_solver lia].
    apply (md_frame _ _ _ _ H1); [done|naive_solver lia].
  - intros p e Hp. destruct (md_owner _ _ _ _ H1 p e Hp) as [E1|(a & k & E1 & E2)].
    + rewrite <- E1. by apply H2.
    + right. exists a, k. split; [done|]. destruct (md_owner _ _ _ _ H2 p e Hp) as [->|(a' & k' & E3 & _)]; [done|].
      rewrite E2 in E3. by injection E3.
Qed.

Lemma merge_area_step s i p pe j1 j2 :
  vg_ok s vg x -> seg_areas g1 !! Z.to_nat i = Some (Area AREA_PV (U_pv (Some j1))) ->
  linked_at s x seg1 i L1 j1 p pe -> linked_at s x seg2 i L2 j2 p (pe + L1) ->
  exists s', merge_pv_segments j1 j2 s = Some (tt, s') /\ merge_done s s' i (i + 1).
Proof.
  intros Hvg E1 Hk1 Hk2. pose proof Hk1 as (Hj1 & Hp & v & Hv & Hin1). pose proof Hk2 as (Hj2 & _ & v2 & Hv2 & Hin2).
  destruct (vo_pvs _ _ _ Hvg p Hp) as (w & l & Hok). pose proof (proj1 Hok) as Hview.
  pose proof (view_lookup _ _ _ _ _ _ _ Hview Hv Hin1 Hj1) as Hl1.
  pose proof (view_lookup _ _ _ _ _ _ _ Hview Hv2 Hin2 Hj2) as Hl2.
  destruct (neighbours _ _ _ _ _ _ _ _ _ Hok Hl1 Hl2 eq_refl) as (k1 & k2 & ->).
  destruct (merge_pegs_spec s vg x p w k1 k2 j1 j2 _ _ seg1 seg2 Hvg Hp Hok eq_refl eq_refl)
    as (s' & w' & He & Hc & Hvg' & Hok' & Hal & Hnx & Hpc & Hown). cbn [peg_len peg_pe peg_lv_area] in *.
  set (joined := set_peg_len _ _) in *.
  exists s'. split; [done|]. pose proof (proj1 Hok') as Hview'.
  assert (forall q hq, (q, hq) ∈ k1 ++ (j1, joined) :: k2 -> st_pegs s' !! q = Some hq /\ q ∈ pv_segments w') as Hin'.
  { intros q hq Hq. split; [by eapply view_elem|]. destruct Hview' as (_ & -> & _). apply list_elem_of_fmap.
    eexists. split; [|exact Hq]. done. }
  split; [done|done|done| |apply Hc|apply Hc| | |].
  - intros Hfm q u j hj Hq Hu Hj Hhj Hfree. destruct (decide (q = p)) as [->|Hqp].
    + pose proof (view_lookup _ _ _ _ _ _ _ Hview' Hu Hj Hhj) as Hin.
      assert (u = w') as -> by (destruct Hview'; congruence). rewrite Hpc, (owner_at_view _ _ _ _ _ Hview'), Hown.
      assert ((j, hj) ∈ k1 ++ k2) as Hin12.
      { apply elem_of_app in Hin as [?|[[= -> ->]|?]%elem_of_cons]; [set_solver|done|set_solver]. }
      assert ((j, hj) ∈ k1 ++ (j1, PvSegment (Some p) pe L1 (Some seg1) i) :: (j2, PvSegment (Some p) (pe + L1) L2 (Some seg2) i) :: k2) as Hin3
        by set_solver.
      destruct (Hfm p w j hj Hp (proj1 Hview)) as [?|Ho]; [|by eapply view_elem|done|by left|].
      { destruct Hview as (_ & -> & _). apply list_elem_of_fmap. by exists (j, hj). }
      right. case_decide; [done|]. by rewrite (owner_at_view _ _ _ _ _ Hview) in Ho.
    + rewrite (pc_pvs _ _ _ _ _ _ _ Hc), lookup_insert_ne in Hu by done.
      destruct (vo_pvs _ _ _ Hvg q Hq) as (wq & lq & Hokq). assert (u = wq) as -> by (destruct Hokq as ((? & _) & _); congruence).
      pose proof (pv_change_view _ _ _ _ _ _ _ _ _ _ Hc Hqp Hokq) as Hokq'.
      pose proof (view_lookup _ _ _ _ _ _ _ (proj1 Hokq') (proj1 (proj1 Hokq')) Hj Hhj) as Hin.
      rewrite (owner_at_view _ _ _ _ _ (proj1 Hokq')), <- (owner_at_view _ _ _ _ _ (proj1 Hokq)).
      apply (Hfm q wq j hj Hq (proj1 (proj1 Hokq))); [|by eapply view_elem; [apply Hokq|]|done].
      destruct Hokq as ((_ & -> & _) & _). apply list_elem_of_fmap. by exists (j, hj).
  - intros a Ha. assert (a = i) as -> by lia. exists j1, p, pe. split; [done|].
    destruct (Hin' j1 joined ltac:(set_solver)) as [F1 F2]. split; [exact F1|]. split; [done|]. exists w'. split; [apply Hview'|done].
  - intros q a len j pp pe' Hl Hnot. destruct Hl as (Hj & Hpp & u & Hu & Hinj). destruct (decide (pp = p)) as [->|Hpne].
    + pose proof (view_lookup _ _ _ _ _ _ _ Hview Hu Hinj Hj) as Hlj.
      assert (j <> j1 /\ j <> j2) as [Hn1 Hn2].
      { split; intros ->; apply Hnot; [rewrite Hj1 in Hj|rewrite Hj2 in Hj]; injection Hj; intros; subst; split; [by left|lia|by right|lia]. }
      destruct (Hin' j (PvSegment (Some p) pe' len (Some q) a) ltac:(clear -Hlj Hn1 Hn2; set_solver)) as [F1 F2].
      split; [exact F1|]. split; [done|]. exists w'. split; [apply Hview'|done].
    + split; [apply (pc_pegs _ _ _ _ _ _ _ Hc); cbn; [done|congruence]|]. split; [done|]. exists u. split; [|done].
      by rewrite (pc_pvs _ _ _ _ _ _ _ Hc), lookup_insert_ne.
  - intros q e Hq. destruct (decide (q = p)) as [->|Hqp].
    + rewrite (owner_at_view _ _ _ _ e Hview'), Hown, (owner_at_view _ _ _ _ e Hview). case_decide as Hin; [|by left].
      right. exists i, (e - (pe + L1)). split; [|do 2 f_equal; lia].
      destruct Hok as (_ & Hs & _). pose proof (so_covers _ _ _ _ Hs) as Hcc.
      rewrite !fmap_app, !fmap_cons in Hcc |- *. cbn [snd] in *.
      rewrite (owner_middle _ _ _ _ _ e Hcc). cbn [peg_pe peg_len owner peg_lvseg peg_lv_area].
      apply covers_middle in Hcc as (_ & ? & _). cbn in *. rewrite decide_False, decide_False by lia.
      by rewrite (proj2 (Z.leb_le _ _)), (proj2 (Z.ltb_lt _ _)) by lia.
    + left. destruct (vo_pvs _ _ _ Hvg q Hq) as (wq & lq & Hokq). rewrite (owner_at_view _ _ _ _ e (proj1 Hokq)).
      by rewrite (owner_at_view _ _ _ _ e (proj1 (pv_change_view _ _ _ _ _ _ _ _ _ _ Hc Hqp Hokq))).
Qed.

Lemma merge_areas_spec n i s g1' :
  vg_ok s vg x -> st_segs s !! seg1 = Some g1' -> seg_areas g1' = seg_areas g1 -> st_segs s !! seg2 = Some g2 -> 0 <= i ->
  (forall a, i <= a < i + Z.of_nat n -> follows s a) ->
  exists s', merge_areas seg1 seg2 i n s = Some (tt, s') /\ merge_done s s' i (i + Z.of_nat n).
Proof.
  revert i s. induction n as [|n IH]; intros i s Hvg Hg1 Ea Hg2 Hi Hf.
  { exists s. split; [done|]. rewrite Z.add_0_r. by apply merge_done_nil. }
  destruct (Hf i ltac:(lia)) as (j1 & j2 & p & pe & E1 & E2 & Hk1 & Hk2).
  destruct (merge_area_step s i p pe j1 j2 Hvg E1 Hk1 Hk2) as (s1 & He & Hd1).
  destruct (IH (i + 1) s1) as (s2 & He2 & Hd2).
  - apply Hd1.
  - by rewrite (md_segs _ _ _ _ Hd1).
  - done.
  - by rewrite (md_segs _ _ _ _ Hd1).
  - lia.
  - intros a Ha. destruct (Hf a ltac:(lia)) as (i1 & i2 & q & pe' & F1 & F2 & F3 & F4). exists i1, i2, q, pe'.
    split; [done|]. split; [done|]. split; (apply (md_frame _ _ _ _ Hd1); [done|lia]).
  - exists s2. split.
    + cbn [merge_areas]. rewrite <- Ea in E1. do 2 erewrite bind_exec by by eapply area_at_exec.
      cbn [area_type area_pvseg area_u_of]. rewrite bool_decide_eq_true_2 by done.
      erewrite bind_exec; [exact He2|]. mstep. cbn [deref]. mstep. mstep. cbn [deref]. mstep. exact He.
    + replace (i + Z.of_nat (S n)) with (i + 1 + Z.of_nat n) by lia. eapply merge_done_cons; [lia|done|done].
Qed.

(** *** A pair of segments *)

Definition merged_seg : lv_segment :=
  set_seg_area_len (L1 + L2) (set_seg_len (seg_len g1 + seg_len g2) g1).

Lemma striped_merge_spec s :
  vg_ok s vg x -> seg_ok s vg x seg1 g1 -> seg_ok s vg x seg2 g2 -> seg_segtype g1 = seg_segtype g2 ->
  seg_le g2 = seg_le g1 + seg_len g1 ->
  exists b s', striped_merge_segments seg1 seg2 s = Some (b, s') /\ (b = false -> s' = s) /\
    (b = true -> seg_area_count g1 = seg_area_count g2 /\
       merge_done (with_seg seg1 merged_seg s) s' 0 (seg_area_count g1)).
Proof.
  intros Hvg H1 H2 Ht Hle. pose proof (sk_seg _ _ _ _ _ H1) as Hg1. pose proof (sk_seg _ _ _ _ _ H2) as Hg2.
  pose proof (sk_count _ _ _ _ _ H1) as Hn.
  unfold striped_merge_segments, striped_segments_compatible. rewrite bind_assoc. mstep. rewrite bind_assoc. mstep.
  destruct (Z.eqb_spec (seg_area_count g1) (seg_area_count g2)) as [Ec|]; [|by exists false, s].
  destruct (seg_stripe_size g1 =? seg_stripe_size g2); [|by exists false, s]. cbn [negb orb].
  destruct (areas_adjacent_spec (Z.to_nat (seg_area_count g1)) 0 s Hvg Hg1 Hg2) as (b & He & Hf).
  { lia. }
  { intros a Ha. apply (sk_linked _ _ _ _ _ H1). lia. }
  { intros a Ha. apply (sk_linked _ _ _ _ _ H2). lia. }
  rewrite bind_assoc. erewrite bind_exec by exact He. cbn beta. destruct b; cbn [negb]; [|by exists false, s].
  rewrite bind_ret. destruct (str_list_lists_equal _ _); [|by exists false, s]. cbn [negb].
  unfold add_lengths. rewrite bind_assoc. mstep. rewrite bind_assoc.
  erewrite bind_modify_seg by exact Hg1. erewrite bind_modify_seg by apply with_seg_eq.
  pose proof (sk_range _ _ _ _ _ H1). pose proof (sk_range _ _ _ _ _ H2).
  pose proof (sk_area_len _ _ _ _ _ H1). pose proof (sk_area_len _ _ _ _ _ H2).
  assert (0 < mult g1 /\ 0 < mult g2) as [Hm1 Hm2].
  { unfold mult. destruct (seg_is_striped g1), (seg_is_striped g2); lia. }
  pose proof (sk_len _ _ _ _ _ H1). pose proof (sk_len _ _ _ _ _ H2).
  assert (with_seg seg1 (set_seg_area_len (wrap32 (seg_area_len (set_seg_len (wrap32 (seg_len g1 + seg_len g2)) g1) + seg_area_len g2))
    (set_seg_len (wrap32 (seg_len g1 + seg_len g2)) g1)) (with_seg seg1 (set_seg_len (wrap32 (seg_len g1 + seg_len g2)) g1) s)
    = with_seg seg1 merged_seg s) as ->.
  { unfold with_seg, set_tbl, segs_table. cbn. rewrite insert_insert_eq. do 2 f_equal. unfold merged_seg, L1, L2.
    rewrite !wrap32_small by nia. done. }
  set (s1 := with_seg seg1 merged_seg s).
  assert (st_segs s1 !! seg1 = Some merged_seg) as Hs1 by apply with_seg_eq. mstep.
  assert (same_pvs s s1) as Hm by by eapply same_pvs_with_seg.
  destruct (merge_areas_spec (Z.to_nat (seg_area_count g1)) 0 s1 merged_seg) as (s2 & He2 & Hd).
  - by eapply vg_ok_same.
  - done.
  - done.
  - unfold s1. by rewrite with_seg_ne.
  - lia.
  - exact (Hf eq_refl).
  - cbn [merged_seg set_seg_area_len set_seg_len seg_area_count]. erewrite bind_exec by exact He2.
    exists true, s2. split; [done|]. split; [done|]. intros _. split; [done|].
    by rewrite Z.add_0_l, Z2Nat.id in Hd by lia.
Qed.

(** Merging keeps what the extents hold, and the two segments become one. *)
Lemma merged_spec s s' :
  vg_ok s vg x -> seg_ok s vg x seg1 g1 -> seg_ok s vg x seg2 g2 -> seg_segtype g1 = seg_segtype g2 ->
  seg_lv g1 = seg_lv g2 -> seg_le g2 = seg_le g1 + seg_len g1 -> seg_area_count g1 = seg_area_count g2 ->
  merge_done (with_seg seg1 merged_seg s) s' 0 (seg_area_count g1) ->
  seg_ok s' vg x seg1 merged_seg /\ forall p e, p ∈ vg_pvs x -> lv_extent s' p e = lv_extent s p e.
Proof.
  intros Hvg H1 H2 Ht Hlv Hle Ec Hd. pose proof (sk_seg _ _ _ _ _ H1) as Hg1. pose proof (sk_seg _ _ _ _ _ H2) as Hg2.
  assert (mult g2 = mult g1) as Em. { unfold mult, seg_is_striped. by rewrite Ht, Ec. }
  assert (st_segs s' = <[seg1 := merged_seg]> (st_segs s)) as Es by apply Hd.
  pose proof (sk_len _ _ _ _ _ H1). pose proof (sk_len _ _ _ _ _ H2) as Hl2. rewrite Em in Hl2.
  pose proof (sk_range _ _ _ _ _ H1). pose proof (sk_range _ _ _ _ _ H2).
  pose proof (sk_area_len _ _ _ _ _ H1). pose proof (sk_area_len _ _ _ _ _ H2). split.
  - split.
    + by rewrite Es, lookup_insert_eq.
    + rewrite (md_lvs _ _ _ _ Hd). apply H1.
    + apply H1.
    + apply H1.
    + apply H1.
    + change (mult merged_seg) with (mult g1). cbn. unfold L1, L2. lia.
    + cbn. unfold L1, L2. lia.
    + cbn. lia.
    + intros a Ha. destruct (md_areas _ _ _ _ Hd a Ha) as (j & p & pe & E & Hl). eexists. split; [exact E|].
      by eapply linked_at_linked.
  - intros p e Hp. unfold lv_extent. rewrite Es.
    assert (owner_at (with_seg seg1 merged_seg s) p e = owner_at s p e) as Eo by done.
    destruct (md_owner _ _ _ _ Hd p e Hp) as [E|(a & k & E1 & E2)]; rewrite Eo in *.
    + rewrite E. destruct (owner_at s p e) as [[[q a] k]|]; [|done]. destruct (decide (q = seg1)) as [->|].
      * rewrite lookup_insert_eq, Hg1. done.
      * by rewrite lookup_insert_ne.
    + rewrite E2, E1, lookup_insert_eq, Hg2, Em. cbn [merged_seg set_seg_area_len set_seg_len seg_lv seg_le].
      change (mult merged_seg) with (mult g1). rewrite Hlv, Hle. do 2 f_equal. unfold L1. lia.
Qed.
End merge_segments_.

(** *** A whole LV *)

Lemma seg_ok_frame s s' vg x q g :
  seg_ok s vg x q g -> st_segs s' !! q = st_segs s !! q ->
  (forall lv v, st_lvs s !! lv = Some v -> exists v', st_lvs s' !! lv = Some v' /\ lv_vg v' = lv_vg v) ->
  (forall a len ar, linked s x q a len ar -> linked s' x q a len ar) -> seg_ok s' vg x q g.
Proof.
  intros [H1 (v & Hv & Hvg) H3 H4 H4' H5 H6 H7 H8] Es Hl Hk. split; try done; [by rewrite Es| |].
  - destruct (Hl _ _ Hv) as (v' & Hv' & E). exists v'. split; [done|congruence].
  - intros a Ha. destruct (H8 a Ha) as (ar & E & Hlk). exists ar. eauto.
Qed.

(** A segment type whose segments on PVs are merged as striped ones, or not at
    all. *)
Definition merges_striped (t : segment_type) : Prop :=
  segtype_name t <> bytes "error" /\ segtype_name t <> bytes "zero".

(** The segments of an LV: in order, from extent [lo] up to [hi]. *)
Fixpoint chain (s : store) (vg : nat) (x : volume_group) (lv : nat) (lo : Z) (segs : list nat) (hi : Z) : Prop :=
  match segs with
  | [] => lo = hi
  | q :: segs => exists g, seg_ok s vg x q g /\ seg_lv g = lv /\ seg_le g = lo /\ merges_striped (seg_segtype g) /\
                   chain s vg x lv (lo + seg_len g) segs hi
  end.

Lemma chain_frame s s' vg x lv lo segs hi :
  (forall q g, q ∈ segs -> seg_ok s vg x q g -> seg_ok s' vg x q g) ->
  chain s vg x lv lo segs hi -> chain s' vg x lv lo segs hi.
Proof.
  revert lo. induction segs as [|q segs IH]; intros lo Hf; [done|]. cbn. intros (g & H1 & H2 & H3 & H4 & H5).
  exists g. split; [apply Hf; [left|done]|]. split; [done|]. split; [done|]. split; [done|]. apply IH; [|done].
  intros q' g' Hq. apply Hf. by right.
Qed.

Lemma chain_app s vg x lv lo l1 l2 hi :
  chain s vg x lv lo (l1 ++ l2) hi <-> exists mid, chain s vg x lv lo l1 mid /\ chain s vg x lv mid l2 hi.
Proof.
  revert lo. induction l1 as [|q l1 IH]; intros lo; cbn [app chain].
  - split; [eauto|]. by intros (? & <- & ?).
  - setoid_rewrite IH. split.
    + intros (g & ? & ? & ? & ? & mid & ? & ?). exists mid. split; [|done]. by exists g.
    + intros (mid & (g & ? & ? & ? & ? & ?) & ?). exists g. do 4 (split; [done|]). by exists mid.
Qed.

(** Two stores whose extents hold the same. *)
Definition same_extents (x : volume_group) (s s' : store) : Prop :=
  forall p e, p ∈ vg_pvs x -> lv_extent s' p e = lv_extent s p e.

Lemma merge_spec s vg x seg1 seg2 g1 g2 :
  vg_ok s vg x -> seg1 <> seg2 -> seg_ok s vg x seg1 g1 -> seg_ok s vg x seg2 g2 ->
  seg_lv g1 = seg_lv g2 -> seg_le g2 = seg_le g1 + seg_len g1 -> merges_striped (seg_segtype g1) ->
  exists b s', merge (Some seg1) seg2 s = Some (b, s') /\ (b = false -> s' = s) /\
    (b = true -> vg_ok s' vg x /\ st_lvs s' = st_lvs s /\ seg_ok s' vg x seg1 (merged_seg g1 g2) /\
       (forall q g, q <> seg1 -> q <> seg2 -> seg_ok s vg x q g -> seg_ok s' vg x q g) /\ same_extents x s s' /\
       st_alloc s' = st_alloc s /\ st_next s' = st_next s /\ (free_max s x -> free_max s' x) /\
       st_segs s' = <[seg1 := merged_seg g1 g2]> (st_segs s)).
Proof.
  intros Hvg Hne H1 H2 Hlv Hle [He Hz]. pose proof (sk_seg _ _ _ _ _ H1) as Hg1. pose proof (sk_seg _ _ _ _ _ H2) as Hg2.
  unfold merge. do 2 mstep. case_bool_decide as Ht; cbn [negb]; [|by exists false, s].
  unfold merge_segments. case_decide; [|do 2 (case_decide; [done|]); by exists false, s].
  destruct (striped_merge_spec vg x seg1 seg2 g1 g2 Hne s Hvg H1 H2 Ht Hle) as (b & s' & Hex & Hf & Hb).
  exists b, s'. split; [done|]. split; [done|]. intros ->. destruct (Hb eq_refl) as [Ec Hd].
  destruct (merged_spec vg x seg1 seg2 g1 g2 Hne s s' Hvg H1 H2 Ht Hlv Hle Ec Hd) as [Hok Hext].
  split; [apply Hd|]. split; [apply Hd|]. split; [done|]. split; [|split; [done|split; [apply Hd|split; [apply Hd|split; [|apply Hd]]]]].
  2:{ intros Hfm. by apply Hd. }
  intros q g Hq1 Hq2 Hq. eapply seg_ok_frame; [exact Hq| | |].
  - rewrite (md_segs _ _ _ _ _ _ _ _ _ _ Hd). by apply with_seg_ne.
  - intros lv v Hv. rewrite (md_lvs _ _ _ _ _ _ _ _ _ _ Hd). eauto.
  - intros a len ar (j & p & pe & -> & Hl)%linked_linked_at. apply (linked_at_linked _ _ _ _ _ _ p pe).
    apply (md_frame _ _ _ _ _ _ _ _ _ _ Hd); [exact Hl|]. naive_solver.
Qed.

Lemma remove_first_middle (q : nat) l1 l2 : q ∉ l1 -> remove_first q (l1 ++ q :: l2) = l1 ++ l2.
Proof.
  induction l1 as [|y l1 IH]; cbn; intros Hq; [by rewrite decide_True|].
  rewrite not_elem_of_cons in Hq. rewrite decide_False by naive_solver. f_equal. apply IH. naive_solver.
Qed.

(** What merging the segments of an LV keeps: everything but the number of its
    segments. *)
Record lv_merged (vg : nat) (x : volume_group) (lv : nat) (w w' : logical_volume) (hi : Z) (s s' : store) : Prop := {
  mg_vg : vg_ok s' vg x;
  mg_lvs : st_lvs s' = <[lv := w']> (st_lvs s);
  mg_lv : w' = set_lv_segments (lv_segments w') w;
  mg_sub : lv_segments w' `sublist_of` lv_segments w;
  mg_chain : chain s' vg x lv 0 (lv_segments w') hi;
  mg_extents : same_extents x s s';
  mg_alloc : st_alloc s' = st_alloc s;
  mg_next : st_next s' = st_next s;
  mg_free : free_max s x -> free_max s' x;
  mg_segs : forall q, q ∉ lv_segments w -> st_segs s' !! q = st_segs s !! q;
  mg_others : forall q g, q ∉ lv_segments w -> seg_ok s vg x q g -> seg_ok s' vg x q g }.

Lemma lv_merged_refl vg x lv w hi s :
  vg_ok s vg x -> st_lvs s !! lv = Some w -> chain s vg x lv 0 (lv_segments w) hi -> lv_merged vg x lv w w hi s s.
Proof. intros Hvg Hw Hch. split; try done; [by rewrite insert_id|by destruct w]. Qed.

Lemma merge_loop_spec segs front q s vg x lv w hi :
  vg_ok s vg x -> st_lvs s !! lv = Some w -> lv_vg w = vg -> lv_segments w = front ++ q :: segs -> NoDup (lv_segments w) ->
  chain s vg x lv 0 (lv_segments w) hi ->
  exists s' w', merge_loop lv (Some q) segs s = Some (tt, s') /\ lv_merged vg x lv w w' hi s s'.
Proof.
  revert front q s w. induction segs as [|c segs IH]; intros front q s w Hvg Hw Hwvg El Hnd Hch.
  { exists s, w. split; [done|]. by apply lv_merged_refl. }
  pose proof Hch as Hch0. rewrite El in Hch. apply chain_app in Hch as (mid & Hfront & g1 & H1 & Hlv1 & Hle1 & Hm1 & g2 & H2 & Hlv2 & Hle2 & Hm2 & Hrest).
  assert (q <> c) as Hne. { rewrite El in Hnd. apply NoDup_app in Hnd as (_ & _ & [Hq _]%NoDup_cons). set_solver. }
  destruct (merge_spec s vg x q c g1 g2 Hvg Hne H1 H2) as (b & s1 & He & Hf & Ht); [congruence|lia|done|].
  cbn [merge_loop]. erewrite bind_exec by exact He. cbn beta. destruct b.
  - destruct (Ht eq_refl) as (Hvg1 & Hlvs & Hok & Hfr & Hext & Hal & Hnx & Hfm & Hsg). assert (st_lvs s1 !! lv = Some w) as Hw1 by by rewrite Hlvs.
    mstep. set (w1 := set_lv_segments _ w). set (s2 := set_tbl _ s1).
    assert (lv_segments w1 = front ++ q :: segs) as El1.
    { cbn. rewrite El. change (front ++ q :: c :: segs) with (front ++ [q] ++ c :: segs). rewrite app_assoc, remove_first_middle, <- app_assoc; [done|].
      rewrite El in Hnd. apply NoDup_app in Hnd as (_ & Hd & _). apply not_elem_of_app. split; [|set_solver].
      intros Hc. apply (Hd c Hc). by right; left. }
    assert (forall k v, st_lvs s1 !! k = Some v -> exists v', st_lvs s2 !! k = Some v' /\ lv_vg v' = lv_vg v) as Hlv2'.
    { intros k v Hk. cbn. destruct (decide (k = lv)) as [->|]; [|rewrite lookup_insert_ne by done; eauto].
      rewrite lookup_insert_eq. eexists. split; [done|]. cbn. congruence. }
    assert (same_pvs s1 s2) as Hm by (split; try done; eauto).
    assert (forall k g, seg_ok s1 vg x k g -> seg_ok s2 vg x k g) as Hs2.
    { intros k g Hk. eapply seg_ok_frame; [exact Hk|done|done|]. intros a len ar. by apply linked_same. }
    assert (lv_segments w1 `sublist_of` lv_segments w) as Hsub.
    { rewrite El1, El. apply sublist_app; [done|]. apply sublist_skip, sublist_cons. done. }
    destruct (IH front q s2 w1) as (s3 & w3 & He3 & Hm3); try done.
    + by eapply vg_ok_same.
    + apply lookup_insert_eq.
    + by eapply sublist_NoDup.
    + rewrite El1. apply chain_app. exists mid. rewrite El in Hnd.
      apply NoDup_app in Hnd as (_ & Hd & [Hq [Hc _]%NoDup_cons]%NoDup_cons). split.
      { eapply chain_frame; [|exact Hfront]. intros k g Hk Hg. apply Hs2, Hfr; [|..|done];
          intros ->; (apply (Hd _ Hk); set_solver). }
      exists (merged_seg g1 g2). split; [by apply Hs2|]. split; [done|]. split; [done|]. split; [done|].
      cbn. eapply chain_frame; [|replace (mid + (seg_len g1 + seg_len g2)) with (mid + seg_len g1 + seg_len g2) by lia; exact Hrest].
      intros k g Hk Hg. apply Hs2, Hfr; [|..|done]; intros ->; set_solver.
    + exists s3, w3. split; [done|]. pose proof Hm3 as [F1 F2 F3 F4 F5 F6 F7 F8 F9 F10 F11]. split; try done.
      * rewrite F2. cbn. by rewrite insert_insert_eq, Hlvs.
      * by etrans.
      * intros p e Hp. rewrite F6 by done. rewrite <- Hext by done. unfold lv_extent. by rewrite (owner_at_same _ _ _ _ Hm).
      * by rewrite F7.
      * by rewrite F8.
      * intros Hfr0. apply F9. exact (Hfm Hfr0).
      * intros k Hk. rewrite F10 by (rewrite El1; rewrite El in Hk; set_solver). cbn. rewrite Hsg, lookup_insert_ne; [done|].
        intros <-. apply Hk. rewrite El. set_solver.
      * intros k g Hk Hg. apply F11; [rewrite El1; rewrite El in Hk; set_solver|]. rewrite El in Hk.
        apply Hs2, Hfr; [set_solver..|done].
  - rewrite (Hf eq_refl) in *. apply (IH (front ++ [q])); try done. by rewrite <- app_assoc.
Qed.

(** [lv_merge_segments] of an LV on PVs. *)
Lemma lv_merge_spec s vg x lv w hi :
  vg_ok s vg x -> st_lvs s !! lv = Some w -> lv_vg w = vg -> NoDup (lv_segments w) -> chain s vg x lv 0 (lv_segments w) hi ->
  exists s' w', lv_merge_segments lv s = Some (true, s') /\ lv_merged vg x lv w w' hi s s'.
Proof.
  intros Hvg Hw Hwvg Hnd Hch. unfold lv_merge_segments. mstep. pose proof (lv_merged_refl vg x lv w hi s Hvg Hw Hch) as Hid.
  destruct (_ || _); [exists s, w; by split|]. destruct (lv_segments w) as [|q segs] eqn:El; [exists s, w; by split|].
  cbn [merge_loop merge]. rewrite bind_assoc, bind_ret.
  destruct (merge_loop_spec segs [] q s vg x lv w hi) as (s' & w' & He & H); try done; [by rewrite El..|].
  exists s', w'. split; [|done]. by erewrite bind_exec by exact He.
Qed.
