(* ===== verification/LvReduce.v ===== *)
(** * Reducing an LV

    [_lv_reduce] of an LV on PVs gives back exactly the extents behind the new
    end of the LV. *)

From S2P Require Import Prelude Metadata PvManip PvSegs LvManip LvSegs.

(** Extents given back to the VG. *)
Definition more_free (x : volume_group) (n : Z) : volume_group :=
  with_counts x (vg_extent_count x) (vg_free_count x + n).

Lemma more_free_0 x : more_free x 0 = x.
Proof. unfold more_free. by rewrite Z.add_0_r, with_counts_same. Qed.

Lemma more_free_add x n m : more_free (more_free x n) m = more_free x (n + m).
Proof. unfold more_free. cbn. rewrite with_counts_twice. f_equal. lia. Qed.

(** The PVs belong to the VG, and byte offsets on them fit 64 bits. *)
Definition pvs_ready (s : store) (vg : nat) (x : volume_group) : Prop :=
  forall p, p ∈ vg_pvs x -> exists v, st_pvs s !! p = Some v /\ pv_vg v = Some vg /\ sectors_ok v x (pv_pe_count v).

Lemma pvs_ready_same s s' vg x : same_pvs s s' -> pvs_ready s vg x -> pvs_ready s' vg x.
Proof. intros Hm H p Hp. rewrite (sm_pvs _ _ Hm). by apply H. Qed.

Lemma with_seg_id q g s : st_segs s !! q = Some g -> with_seg q g s = s.
Proof. intros Hq. unfold with_seg. destruct s. cbn in *. by rewrite insert_id. Qed.

Lemma set_seg_areas_id g : set_seg_areas (seg_areas g) g = g.
Proof. by destruct g. Qed.

Section reduce_segment.
Context (env : lv_env) (vg seg : nat) (L red : Z).
Hypothesis Hred : 0 < red <= L.
Hypothesis Hdiscard : forall q o b, dev_discard_blocks (le_discard env) q o b = true.

(** What releasing [red] extents of each of the areas [i], ..., [hi - 1] of the
    segment does; the VG was [x] and the segment [g]. *)
Record red_done (s s' : store) (x : volume_group) (g : lv_segment) (i hi : Z) (areas' : list lv_segment_area) : Prop := {
  rn_vg : vg_ok s' vg (more_free x ((hi - i) * red));
  rn_ready : pvs_ready s' vg x;
  rn_alloc : st_alloc s' `suffix_of` st_alloc s;
  rn_lvs : st_lvs s' = st_lvs s;
  rn_segs : st_segs s' = <[seg := set_seg_areas areas' g]> (st_segs s);
  rn_length : length areas' = length (seg_areas g);
  rn_keep : forall a, 0 <= a -> ~ i <= a < hi -> areas' !! Z.to_nat a = seg_areas g !! Z.to_nat a;
  rn_left : red < L -> forall a, i <= a < hi -> exists ar, areas' !! Z.to_nat a = Some ar /\ linked s' x seg a (L - red) ar;
  rn_frame : forall q a len ar, linked s x q a len ar -> ~ (q = seg /\ i <= a < hi) -> linked s' x q a len ar;
  rn_owner : forall p e, p ∈ vg_pvs x -> owner_at s' p e = owner_at s p e \/
    exists a k, owner_at s p e = Some (seg, a, k) /\ L - red <= k /\ owner_at s' p e = None }.

Lemma red_done_nil s x g i :
  vg_ok s vg x -> pvs_ready s vg x -> st_segs s !! seg = Some g -> red_done s s x g i i (seg_areas g).
Proof.
  intros Hvg Hr Hg. split; try done; [by rewrite Z.sub_diag, Z.mul_0_l, more_free_0| |intros; lia|by left].
  rewrite insert_id; [done|]. by destruct g.
Qed.

Lemma red_done_cons s s1 s2 x g i hi areas1 areas2 :
  0 <= i < hi -> red_done s s1 x g i (i + 1) areas1 ->
  red_done s1 s2 (more_free x red) (set_seg_areas areas1 g) (i + 1) hi areas2 ->
  red_done s s2 x g i hi areas2.
Proof.
  intros Hi H1 H2. split.
  - pose proof (rn_vg _ _ _ _ _ _ _ H2) as H. rewrite more_free_add in H.
    replace ((hi - i) * red) with (red + (hi - (i + 1)) * red) by lia. done.
  - exact (rn_ready _ _ _ _ _ _ _ H2).
  - etrans; [apply H2|apply H1].
  - rewrite (rn_lvs _ _ _ _ _ _ _ H2). apply H1.
  - by rewrite (rn_segs _ _ _ _ _ _ _ H2), (rn_segs _ _ _ _ _ _ _ H1), insert_insert_eq.
  - rewrite (rn_length _ _ _ _ _ _ _ H2). apply H1.
  - intros a Ha Hnot. rewrite (rn_keep _ _ _ _ _ _ _ H2) by lia. cbn. apply H1; lia.
  - intros Hlt a Ha. destruct (decide (a = i)) as [->|]; [|apply H2; [done|lia]].
    destruct (rn_left _ _ _ _ _ _ _ H1 Hlt i ltac:(lia)) as (ar & E & Hl). exists ar. split.
    + rewrite (rn_keep _ _ _ _ _ _ _ H2) by lia. done.
    + apply (rn_frame _ _ _ _ _ _ _ H2); [exact Hl|lia].
  - intros q a len ar Hl Hnot. apply (rn_frame _ _ _ _ _ _ _ H2); [|lia]. apply (rn_frame _ _ _ _ _ _ _ H1); [done|lia].
  - intros p e Hp. destruct (rn_owner _ _ _ _ _ _ _ H1 p e Hp) as [E1|(a & k & E1 & Hk & E2)].
    + rewrite <- E1. by apply (rn_owner _ _ _ _ _ _ _ H2).
    + right. exists a, k. split; [done|]. split; [done|].
      destruct (rn_owner _ _ _ _ _ _ _ H2 p e Hp) as [->|(a' & k' & E3 & _)]; [done|congruence].
Qed.

(** One area. *)
Lemma release_area_step reduce s x g i j p pe :
  vg_ok s vg x -> pvs_ready s vg x -> no_oom s -> st_segs s !! seg = Some g -> seg_area_len g = L -> 0 <= i ->
  seg_areas g !! Z.to_nat i = Some (Area AREA_PV (U_pv (Some j))) -> linked_at s x seg i L j p pe ->
  exists s' areas', release_area env reduce seg i red s = Some (tt, s') /\ red_done s s' x g i (i + 1) areas'.
Proof.
  intros Hvg Hready Hno Hg HL Hi Ha Hk. pose proof Hk as (Hj & Hp & v & Hv & Hin).
  destruct (vo_pvs _ _ _ Hvg p Hp) as (v' & l & Hok). pose proof (proj1 Hok) as Hview.
  assert (v' = v) as -> by (destruct Hview; congruence).
  pose proof (view_lookup _ _ _ _ _ _ _ Hview Hv Hin Hj) as Hl. apply list_elem_of_split in Hl as (k1 & k2 & ->).
  destruct (Hready p Hp) as (v' & Hv' & Hpvg & Hsec). assert (v' = v) as -> by congruence.
  unfold release_area. erewrite bind_exec by by eapply area_at_exec. cbn beta. mstep.
  cbn [area_type area_pvseg area_u_of]. mstep. cbn [deref]. mstep.
  set (h := PvSegment (Some p) pe L (Some seg) i) in *.
  destruct (release_spec (le_discard env) s vg x p v k1 j h k2 seg g red Hvg Hp Hok Hpvg Hsec eq_refl Hg HL Hred)
    as [(s1 & v1 & l1 & He & Hc & Hvg1 & Hok1 & Hrel & Hown)|(s1 & _ & [(_ & q & o & b & _ & Hd)|(_ & Hn & _)])];
    [|by rewrite Hdiscard in Hd|by destruct Hn].
  erewrite bind_exec by exact He. cbn [andb]. rewrite HL.
  set (areas' := if L =? red then <[Z.to_nat i := Area AREA_UNASSIGNED (U_pv (Some j))]> (seg_areas g) else seg_areas g).
  assert (st_segs s1 = st_segs s) as Es1 by apply Hc.
  set (s2 := with_seg seg (set_seg_areas areas' g) s1).
  exists s2, areas'. split.
  { unfold areas' in s2. destruct (L =? red).
    - erewrite set_area_exec; [reflexivity|by rewrite Es1|done|done].
    - unfold s2. rewrite set_seg_areas_id, with_seg_id; [done|by rewrite Es1]. }
  assert (same_pvs s1 s2) as Hm by (eapply same_pvs_with_seg; [by rewrite Es1|done]).
  assert (pv_ok s2 vg p v1 l1) as Hok2 by by eapply pv_ok_same. pose proof (proj1 Hok2) as Hview2.
  split.
  - replace ((i + 1 - i) * red) with red by lia. by eapply vg_ok_same.
  - intros q Hq. change (st_pvs s2) with (st_pvs s1). rewrite (pc_pvs _ _ _ _ _ _ _ Hc). cbn.
    destruct (decide (q = p)) as [->|]; [rewrite lookup_insert_eq|rewrite lookup_insert_ne by done; by apply Hready].
    exists v1. split; [done|]. rewrite (re_vg _ _ _ _ _ _ _ _ Hrel). split; [done|]. unfold sectors_ok.
    by rewrite (re_start _ _ _ _ _ _ _ _ Hrel), (re_count _ _ _ _ _ _ _ _ Hrel).
  - apply (pc_alloc _ _ _ _ _ _ _ Hc).
  - apply (pc_lvs _ _ _ _ _ _ _ Hc).
  - cbn. by rewrite Es1.
  - unfold areas'. destruct (L =? red); [apply length_insert|done].
  - intros a Ha0 Hnot. unfold areas'. destruct (L =? red); [|done]. apply list_lookup_insert_ne. lia.
  - intros Hlt a Ha'. assert (a = i) as -> by lia. unfold areas'. rewrite (proj2 (Z.eqb_neq _ _)) by lia.
    eexists. split; [exact Ha|]. pose proof (re_front _ _ _ _ _ _ _ _ Hrel Hlt) as Hf.
    exists j, p, v1, pe. split; [done|]. split; [by eapply (view_elem s2)|]. split; [done|]. split; [apply Hview2|].
    destruct Hview2 as (_ & -> & _). apply list_elem_of_fmap. eexists. split; [|exact Hf]. done.
  - intros q a len ar Hl Hnot. eapply linked_same; [exact Hm|].
    apply linked_linked_at in Hl as (j' & p' & pe' & -> & Hl). pose proof Hl as (Hj' & _ & u & Hu & Hinu).
    eapply (linked_change (with_discards _ s)); [exact Hc|exact (linked_at_linked _ _ _ _ _ _ _ _ Hl)|].
    intros pe2 Hpe2. change (st_pegs (with_discards _ s)) with (st_pegs s) in Hpe2. rewrite Hpe2 in Hj'. injection Hj' as Ep Epe. subst p' pe'.
    apply (re_keep _ _ _ _ _ _ _ _ Hrel). pose proof (view_lookup _ _ _ _ _ _ _ Hview Hu Hinu Hpe2) as Hlk.
    assert (j' <> j) as Hjj by (intros ->; apply Hnot; rewrite Hj in Hpe2; injection Hpe2; intros; subst; lia).
    clear -Hlk Hjj. set_solver.
  - intros q e Hq. rewrite (owner_at_same _ _ _ _ Hm). destruct (decide (q = p)) as [->|Hqp].
    + rewrite (owner_at_view _ _ _ _ e (proj1 Hok1)), Hown, (owner_at_view _ _ _ _ e Hview). case_decide as Hin'; [|by left].
      right. exists i, (e - pe). cbn [h peg_pe peg_len] in *. split; [|split; [lia|done]].
      destruct Hok as (_ & Hs & _). pose proof (so_covers _ _ _ _ Hs) as Hcc.
      rewrite fmap_app, fmap_cons in Hcc |- *. cbn [snd] in *. rewrite (owner_middle _ _ _ _ _ e Hcc).
      cbn [h peg_pe peg_len owner peg_lvseg peg_lv_area]. rewrite decide_False, decide_True by lia.
      by rewrite (proj2 (Z.leb_le _ _)), (proj2 (Z.ltb_lt _ _)) by lia.
    + left. destruct (vo_pvs _ _ _ Hvg q Hq) as (wq & lq & Hokq). rewrite (owner_at_view _ _ _ _ e (proj1 Hokq)).
      by rewrite (owner_at_view _ _ _ _ e (proj1 (pv_change_view _ _ _ _ _ _ _ _ _ _ Hc Hqp Hokq))).
Qed.

Lemma release_areas_spec reduce n i s x g :
  vg_ok s vg x -> pvs_ready s vg x -> no_oom s -> st_segs s !! seg = Some g -> seg_area_len g = L -> 0 <= i ->
  (forall a, i <= a < i + Z.of_nat n -> exists ar, seg_areas g !! Z.to_nat a = Some ar /\ linked s x seg a L ar) ->
  exists s' areas', release_areas (release_area env reduce) seg i n red s = Some (tt, s') /\
    red_done s s' x g i (i + Z.of_nat n) areas'.
Proof.
  revert i s x g. induction n as [|n IH]; intros i s x g Hvg Hr Hno Hg HL Hi Ha.
  { exists s, (seg_areas g). split; [done|]. rewrite Z.add_0_r. by apply red_done_nil. }
  destruct (Ha i ltac:(lia)) as (ar & E & (j & p & pe & -> & Hk)%linked_linked_at).
  destruct (release_area_step reduce s x g i j p pe Hvg Hr Hno Hg HL Hi E Hk) as (s1 & areas1 & He & Hd1).
  destruct (IH (i + 1) s1 (more_free x red) (set_seg_areas areas1 g)) as (s2 & areas2 & He2 & Hd2).
  - pose proof (rn_vg _ _ _ _ _ _ _ Hd1) as H. by replace ((i + 1 - i) * red) with red in H by lia.
  - exact (rn_ready _ _ _ _ _ _ _ Hd1).
  - eapply no_oom_suffix; [exact Hno|apply Hd1].
  - by rewrite (rn_segs _ _ _ _ _ _ _ Hd1), lookup_insert_eq.
  - done.
  - lia.
  - intros a Ha'. destruct (Ha a ltac:(lia)) as (ar & Ea & Hl). exists ar. cbn.
    rewrite (rn_keep _ _ _ _ _ _ _ Hd1) by lia. split; [done|]. apply (rn_frame _ _ _ _ _ _ _ Hd1); [done|lia].
  - exists s2, areas2. cbn [release_areas]. erewrite bind_exec by exact He. split; [done|].
    replace (i + Z.of_nat (S n)) with (i + 1 + Z.of_nat n) by lia. eapply red_done_cons; [lia|done|done].
Qed.
End reduce_segment.

(** Extents may only become free, and only those of LV [lv] from its extent
    [new] on. *)
Definition trimmed (x : volume_group) (lv : nat) (new : Z) (s s' : store) : Prop :=
  forall p e, p ∈ vg_pvs x -> lv_extent s' p e = lv_extent s p e \/
    exists a r, lv_extent s p e = Some (lv, a, r) /\ new <= r /\ lv_extent s' p e = None.

(** A segment as linear and striped LVs have it: every extent of the segment is
    one extent of a PV. *)
Definition simple_seg (g : lv_segment) : Prop :=
  seg_area_count g = mult g /\ seg_log_lv g = None /\ sa_metadata_lv (seg_attrs_of g) = None /\
  sa_pool_lv (seg_attrs_of g) = None.

(** [_lv_segment_reduce] by [red] rows. *)
Lemma segment_reduce_spec env reduce vg x seg g red s :
  (forall q o b, dev_discard_blocks (le_discard env) q o b = true) ->
  vg_ok s vg x -> pvs_ready s vg x -> no_oom s -> seg_ok s vg x seg g -> simple_seg g -> 0 < red <= seg_area_len g ->
  exists s' g', lv_segment_reduce (release_area env reduce) seg (red * mult g) s = Some (true, s') /\
    vg_ok s' vg (more_free x (red * mult g)) /\ pvs_ready s' vg x /\ st_alloc s' `suffix_of` st_alloc s /\
    st_lvs s' = st_lvs s /\ st_segs s' = <[seg := g']> (st_segs s) /\ seg_lv g' = seg_lv g /\ seg_le g' = seg_le g /\
    seg_len g' = seg_len g - red * mult g /\ seg_segtype g' = seg_segtype g /\
    (red < seg_area_len g -> seg_ok s' vg x seg g') /\
    (forall q h, q <> seg -> seg_ok s vg x q h -> seg_ok s' vg x q h) /\
    trimmed x (seg_lv g) (seg_le g + (seg_area_len g - red) * mult g) s s'.
Proof.
  intros Hdis Hvg Hr Hno Hok (Hmul & _) Hred. pose proof (sk_seg _ _ _ _ _ Hok) as Hg. pose proof (sk_count _ _ _ _ _ Hok) as Hn.
  pose proof (sk_len _ _ _ _ _ Hok) as Hlen. pose proof (sk_range _ _ _ _ _ Hok) as Hrange.
  destruct (release_areas_spec env vg seg (seg_area_len g) red Hred Hdis reduce (Z.to_nat (seg_area_count g)) 0 s x g)
    as (s1 & areas' & He & Hd); [done|done|done|done|done|lia|intros a Ha; apply (sk_linked _ _ _ _ _ Hok); lia|].
  rewrite Z.add_0_l, Z2Nat.id in Hd by lia.
  unfold lv_segment_reduce. mstep.
  assert (forall k, ((if seg_is_striped g then if seg_area_count g =? 0 then wild
       else mret (if (red * mult g) mod seg_area_count g =? 0 then Some (red * mult g / seg_area_count g) else None)
       else mret (Some (red * mult g))) : M (option Z)) k = Some (Some red, k)) as Har.
  { intros k. unfold mult in *. destruct (seg_is_striped g); [|by rewrite Z.mul_1_r].
    by rewrite (proj2 (Z.eqb_neq _ _)), Z.mod_mul, Z.div_mul by lia. }
  erewrite bind_exec by apply Har. cbn beta iota. erewrite bind_exec by exact He. cbn beta.
  assert (st_segs s1 !! seg = Some (set_seg_areas areas' g)) as Hg1 by by rewrite (rn_segs _ _ _ _ _ _ _ _ _ _ _ Hd), lookup_insert_eq.
  erewrite bind_modify_seg by exact Hg1. erewrite bind_modify_seg by apply with_seg_eq.
  assert (0 <= red * mult g <= seg_len g) by (rewrite Hlen; split; [nia|apply Z.mul_le_mono_nonneg_r; lia]).
  assert (seg_area_len g <= seg_len g) by (rewrite Hlen; nia).
  set (g' := set_seg_area_len _ _). set (s2 := with_seg _ g' _).
  assert (g' = set_seg_area_len (seg_area_len g - red) (set_seg_len (seg_len g - red * mult g) (set_seg_areas areas' g))) as Eg'.
  { unfold g'. cbn [set_seg_len set_seg_areas seg_len seg_area_len]. by rewrite !wrap32_small by lia. }
  assert (st_segs s2 = <[seg := g']> (st_segs s)) as Es2.
  { cbn. by rewrite (rn_segs _ _ _ _ _ _ _ _ _ _ _ Hd), !insert_insert_eq. }
  assert (same_pvs s1 s2) as Hm.
  { eapply same_pvs_trans; [eapply same_pvs_with_seg; [exact Hg1|]|eapply same_pvs_with_seg; [apply with_seg_eq|]]; done. }
  assert (seg_lv g' = seg_lv g /\ seg_le g' = seg_le g /\ mult g' = mult g) as (E1 & E2 & E3) by (rewrite Eg'; done).
  exists s2, g'. split; [done|]. split.
  { eapply vg_ok_same; [exact Hm|]. pose proof (rn_vg _ _ _ _ _ _ _ _ _ _ _ Hd) as H'.
    by replace ((seg_area_count g - 0) * red) with (red * mult g) in H' by lia. }
  split; [eapply pvs_ready_same; [exact Hm|apply Hd]|]. split; [apply Hd|]. split; [apply Hd|].
  do 3 (split; [done|]). split; [by rewrite Eg'|]. split; [by rewrite Eg'|]. split; [|split].
  - intros Hlt. rewrite Eg'. split.
    + by rewrite Es2, lookup_insert_eq, Eg'.
    + change (st_lvs s2) with (st_lvs s1). rewrite (rn_lvs _ _ _ _ _ _ _ _ _ _ _ Hd). apply Hok.
    + cbn. rewrite (rn_length _ _ _ _ _ _ _ _ _ _ _ Hd). apply Hok.
    + apply Hok.
    + apply Hok.
    + change (seg_len g - red * mult g = (seg_area_len g - red) * mult g). lia.
    + cbn. lia.
    + cbn. lia.
    + intros a Ha. destruct (rn_left _ _ _ _ _ _ _ _ _ _ _ Hd Hlt a Ha) as (ar & Ear & Hl). exists ar.
      split; [done|]. by eapply linked_same.
  - intros q h Hq Hh. eapply seg_ok_frame; [exact Hh| | |].
    + rewrite Es2. by apply lookup_insert_ne.
    + intros lv v. change (st_lvs s2) with (st_lvs s1). rewrite (rn_lvs _ _ _ _ _ _ _ _ _ _ _ Hd). eauto.
    + intros a len ar Hl. eapply linked_same; [exact Hm|]. apply (rn_frame _ _ _ _ _ _ _ _ _ _ _ Hd); [done|naive_solver].
  - intros p e Hp. unfold lv_extent. rewrite (owner_at_same _ _ _ _ Hm), Es2.
    destruct (rn_owner _ _ _ _ _ _ _ _ _ _ _ Hd p e Hp) as [->|(a & k & -> & Hk & ->)].
    + left. destruct (owner_at s p e) as [[[q a] k]|]; [|done]. destruct (decide (q = seg)) as [->|].
      * by rewrite lookup_insert_eq, Hg, E1, E2, E3.
      * by rewrite lookup_insert_ne.
    + right. exists a, (seg_le g + k * mult g). rewrite Hg. split; [done|]. split; [|done]. nia.
Qed.

(** ** The segments from the last one on *)

Lemma trimmed_refl x lv new s : trimmed x lv new s s.
Proof. by left. Qed.

Lemma trimmed_trans x lv new mid s1 s2 s3 :
  new <= mid -> trimmed x lv mid s1 s2 -> trimmed x lv new s2 s3 -> trimmed x lv new s1 s3.
Proof.
  intros Hle H1 H2 p e Hp. destruct (H1 p e Hp) as [E1|(a & r & E1 & Hr & E2)].
  - rewrite <- E1. by apply H2.
  - right. exists a, r. split; [done|]. split; [lia|]. destruct (H2 p e Hp) as [->|(? & ? & ? & _)]; [done|congruence].
Qed.

Lemma reduce_loop_zero env remove release lv rs s : reduce_loop env remove release lv rs 0 s = Some ((true, 0), s).
Proof. by destruct rs. Qed.

Lemma chain_snoc s vg x lv lo l q hi :
  chain s vg x lv lo (l ++ [q]) hi <->
  exists g, chain s vg x lv lo l (seg_le g) /\ seg_ok s vg x q g /\ seg_lv g = lv /\ merges_striped (seg_segtype g) /\
    hi = seg_le g + seg_len g.
Proof.
  rewrite chain_app. split.
  - intros (mid & H1 & g & H2 & H3 & <- & H4 & H5). exists g. do 4 (split; [done|]). by symmetry.
  - intros (g & H1 & H2 & H3 & H4 & ->). exists (seg_le g). split; [done|]. exists g. by do 4 (split; [done|]).
Qed.

Lemma chain_le s vg x lv lo l hi : chain s vg x lv lo l hi -> lo <= hi.
Proof.
  revert lo. induction l as [|q l IH]; intros lo; cbn; [lia|]. intros (g & Hok & _ & _ & _ & H). apply IH in H.
  pose proof (sk_len _ _ _ _ _ Hok). pose proof (sk_area_len _ _ _ _ _ Hok). pose proof (sk_count _ _ _ _ _ Hok).
  assert (0 < mult g) by (unfold mult; destruct (seg_is_striped g); lia). nia.
Qed.

Lemma chain_pos s vg x lv lo q l hi : chain s vg x lv lo (q :: l) hi -> lo < hi.
Proof.
  cbn. intros (g & Hok & _ & _ & _ & H). apply chain_le in H.
  pose proof (sk_len _ _ _ _ _ Hok). pose proof (sk_area_len _ _ _ _ _ Hok). pose proof (sk_count _ _ _ _ _ Hok).
  assert (0 < mult g) by (unfold mult; destruct (seg_is_striped g); lia). nia.
Qed.

Lemma chain_nil s vg x lv lo l : chain s vg x lv lo l lo -> l = [].
Proof. destruct l as [|q l]; [done|]. intros H%chain_pos. lia. Qed.

Lemma chain_elem s vg x lv lo l hi q g :
  chain s vg x lv lo l hi -> q ∈ l -> st_segs s !! q = Some g -> lo <= seg_le g.
Proof.
  revert lo. induction l as [|k l IH]; intros lo Hch Hq Hg; [by apply elem_of_nil in Hq|].
  pose proof Hch as (h & Hok & _ & <- & _ & H). apply elem_of_cons in Hq as [->|Hq].
  - rewrite (sk_seg _ _ _ _ _ Hok) in Hg. injection Hg as <-. lia.
  - specialize (IH _ H Hq Hg). pose proof (sk_len _ _ _ _ _ Hok). pose proof (sk_area_len _ _ _ _ _ Hok).
    assert (0 < mult h) by (pose proof (sk_count _ _ _ _ _ Hok); unfold mult; destruct (seg_is_striped h); lia). nia.
Qed.

(** LVs stay in their VG. *)
Lemma same_pvs_lv s lv w w' :
  st_lvs s !! lv = Some w -> lv_vg w' = lv_vg w -> same_pvs s (set_tbl (T := logical_volume) (<[lv := w']> (st_lvs s)) s).
Proof.
  intros Hw Hv. split; try done; [eauto|]. intros k v Hk. cbn. destruct (decide (k = lv)) as [->|].
  - rewrite lookup_insert_eq. eexists. split; [done|]. congruence.
  - rewrite lookup_insert_ne by done. eauto.
Qed.

Lemma seg_ok_same s s' vg x q g : same_pvs s s' -> st_segs s' = st_segs s -> seg_ok s vg x q g -> seg_ok s' vg x q g.
Proof.
  intros Hm Es Hq. eapply seg_ok_frame; [exact Hq|by rewrite Es|apply Hm|]. intros a len ar. by apply linked_same.
Qed.

Lemma elem_of_rev {A} (a : A) l : a ∈ rev l <-> a ∈ l.
Proof. rewrite !list_elem_of_In. symmetry. apply in_rev. Qed.

(** The counts of the VG do not matter to its segments. *)
Lemma nodup_rev (l : list nat) : NoDup l -> NoDup (rev l).
Proof. intros H. by rewrite <- Permutation_rev. Qed.

Lemma seg_ok_free s vg x n q g : seg_ok s vg (more_free x n) q g <-> seg_ok s vg x q g.
Proof. split; intros [H1 H2 H3 H4 H5 H6 H7 H8 H9]; by split. Qed.

Lemma chain_free s vg x n lv lo l hi : chain s vg (more_free x n) lv lo l hi <-> chain s vg x lv lo l hi.
Proof.
  revert lo. induction l as [|q l IH]; intros lo; [done|]. cbn. setoid_rewrite IH. by setoid_rewrite seg_ok_free.
Qed.

Section reduce_lv.
Context (env : lv_env) (remove : nat -> M bool) (reduce : nat -> Z -> M bool) (vg lv : nat).
Hypothesis Hdis : forall q o b, dev_discard_blocks (le_discard env) q o b = true.

Lemma reduce_loop_spec rs s x w hi count :
  vg_ok s vg x -> pvs_ready s vg x -> no_oom s -> st_lvs s !! lv = Some w -> lv_vg w = vg ->
  lv_segments w = rev rs -> NoDup rs -> chain s vg x lv 0 (rev rs) hi -> hi < 2 ^ 32 -> 0 <= count <= hi ->
  (forall q g, q ∈ rs -> st_segs s !! q = Some g -> simple_seg g /\
     (seg_le g < hi - count < seg_le g + seg_len g -> (hi - count - seg_le g) mod mult g = 0)) ->
  exists s' l', reduce_loop env remove (release_area env reduce) lv rs count s = Some ((true, 0), s') /\
    vg_ok s' vg (more_free x count) /\ st_lvs s' = <[lv := set_lv_segments l' w]> (st_lvs s) /\
    NoDup l' /\ chain s' vg x lv 0 l' (hi - count) /\ trimmed x lv (hi - count) s s'.
Proof.
  revert s x w hi count. induction rs as [|q rs IH]; intros s x w hi count Hvg Hr Hno Hw Hwvg Hseg Hnd Hch Hhi Hcount Hsim.
  { cbn in Hch. assert (count = 0) as -> by lia. exists s, []. split; [done|]. rewrite more_free_0. split; [done|].
    split; [rewrite insert_id; [done|]; rewrite Hw; destruct w; cbn in *; by subst|].
    split; [constructor|]. split; [cbn; lia|]. by left. }
  destruct (Z.eq_dec count 0) as [->|Hc0].
  { exists s, (rev (q :: rs)). rewrite reduce_loop_zero, more_free_0, Z.sub_0_r. split; [done|]. split; [done|].
    split; [rewrite insert_id; [done|]; rewrite Hw, <- Hseg; by destruct w|]. split; [by apply nodup_rev|]. split; [done|]. by left. }
  cbn [rev] in Hch. apply chain_snoc in Hch as (g & Hch & Hok & Hlv & Hms & Ehi).
  pose proof (sk_seg _ _ _ _ _ Hok) as Hg. destruct (Hsim q g ltac:(left) Hg) as [Hsg Hdiv].
  pose proof Hsg as (Hmul & Hlog & Hmeta & Hpool). pose proof (sk_len _ _ _ _ _ Hok) as Hlen.
  pose proof (sk_area_len _ _ _ _ _ Hok) as Hal. pose proof (sk_range _ _ _ _ _ Hok) as Hrange.
  pose proof (sk_count _ _ _ _ _ Hok) as Hn. apply NoDup_cons in Hnd as [Hq Hnd].
  cbn [reduce_loop]. rewrite (proj2 (Z.eqb_neq _ _)) by done. mstep. destruct (Z.leb_spec (seg_len g) count) as [Hle|Hgt].
  - rewrite Hlog, Hmeta, Hpool. cbn beta. do 3 (rewrite bind_assoc, bind_ret; cbn [negb]).
    rewrite bind_assoc. mstep. set (w1 := set_lv_segments _ w). set (s1 := set_tbl _ s).
    assert (same_pvs s s1) as Hm1 by by eapply same_pvs_lv.
    assert (seg_ok s1 vg x q g) as Hok1 by by eapply seg_ok_same.
    rewrite bind_assoc. pose proof (sk_seg _ _ _ _ _ Hok1) as Hg1. mstep. rewrite bind_ret. cbn beta iota.
    destruct (segment_reduce_spec env reduce vg x q g (seg_area_len g) s1 Hdis) as
      (s2 & g' & He & Hvg2 & Hr2 & Hal2 & Hlvs2 & Hsegs2 & _ & _ & _ & _ & _ & Hfr & Htr); try done.
    all: try first [by eapply vg_ok_same|by eapply pvs_ready_same|lia].
    rewrite <- Hlen in He, Hvg2. erewrite bind_exec by exact He. cbn [negb]. rewrite wrap32_small by lia.
    assert (w1 = set_lv_segments (rev rs) w) as Ew1.
    { unfold w1. rewrite Hseg. cbn [rev]. rewrite remove_first_middle, app_nil_r; [done|]. by rewrite elem_of_rev. }
    destruct (IH s2 (more_free x (seg_len g)) w1 (seg_le g) (count - seg_len g)) as (s3 & l' & He3 & Hvg3 & Hlvs3 & Hnd3 & Hch3 & Htr3);
      try done.
    + eapply no_oom_suffix; [exact Hno|]. exact Hal2.
    + rewrite Hlvs2. apply lookup_insert_eq.
    + by rewrite Ew1.
    + apply chain_free. eapply chain_frame; [|exact Hch]. intros k h Hk Hh. apply (Hfr k h); [intros ->; by rewrite elem_of_rev in Hk|].
      by eapply seg_ok_same.
    + lia.
    + lia.
    + intros k h Hk Hh. rewrite Hsegs2, lookup_insert_ne in Hh by (intros ->; done).
      replace (seg_le g - (count - seg_len g)) with (hi - count) by lia. apply (Hsim k h); [by right|done].
    + exists s3, l'. split; [done|]. rewrite more_free_add in Hvg3. replace (seg_len g + (count - seg_len g)) with count in Hvg3 by lia.
      replace (seg_le g - (count - seg_len g)) with (hi - count) in * by lia.
      split; [done|]. split; [rewrite Hlvs3, Hlvs2; cbn; by rewrite insert_insert_eq, Ew1|]. split; [done|]. split; [by apply chain_free in Hch3|].
      rewrite Hlv in Htr. eapply trimmed_trans; [|exact Htr|exact Htr3]. nia.
  - rewrite bind_ret. cbn beta iota.
    assert (0 < mult g) as Hmg by (unfold mult; destruct (seg_is_striped g); lia).
    assert (exists red, count = red * mult g /\ 0 < red < seg_area_len g) as (red & Ered & Hred).
    { specialize (Hdiv ltac:(lia)). apply Z.mod_divide in Hdiv as [k Hk]; [|lia]. exists (seg_area_len g - k).
      split; [rewrite Z.mul_sub_distr_r; lia|]. clear -Hk Hlen Hgt Hc0 Hcount Hmg Ehi. split; nia. }
    destruct (segment_reduce_spec env reduce vg x q g red s Hdis) as
      (s2 & g' & He & Hvg2 & Hr2 & Hal2 & Hlvs2 & Hsegs2 & El & Ele & Elen & Et & Hpart & Hfr & Htr); try done; [lia|].
    rewrite <- Ered in He, Hvg2, Elen. erewrite bind_exec by exact He. cbn [negb].
    rewrite Z.sub_diag. change (wrap32 0) with 0. rewrite reduce_loop_zero.
    exists s2, (rev (q :: rs)). split; [done|]. split; [done|]. split.
    { rewrite Hlvs2, insert_id; [done|]. rewrite Hw, <- Hseg. by destruct w. }
    split; [by apply nodup_rev, NoDup_cons|]. split.
    + cbn [rev]. apply chain_snoc. exists g'. split; [|split; [apply Hpart; lia|split; [congruence|split; [by rewrite Et|lia]]]].
      rewrite Ele. eapply chain_frame; [|exact Hch]. intros k h Hk. apply Hfr. intros ->. by rewrite elem_of_rev in Hk.
    + rewrite Hlv in Htr. by replace (hi - count) with (seg_le g + (seg_area_len g - red) * mult g) by lia.
Qed.
End reduce_lv.
