(* ===== verification/LvProps.v ===== *)
(** * Main theorems on LV segments

    Splitting, merging and reducing the segments of an LV that lies on PVs, as
    changes of what each physical extent holds. *)

From S2P Require Import Prelude Metadata PvManip PvSegs LvManip LvSegs LvReduce.

(** An LV on PVs: its segments are consecutive from extent 0 to its size, and
    each area points at a PV segment that points back. *)
Record lv_ok (s : store) (vg : nat) (x : volume_group) (lv : nat) (w : logical_volume) : Prop := {
  lo_lv : st_lvs s !! lv = Some w;
  lo_vg : lv_vg w = vg;
  lo_nodup : NoDup (lv_segments w);
  lo_chain : chain s vg x lv 0 (lv_segments w) (lv_le_count w);
  lo_range : lv_le_count w < 2 ^ 32 }.

(** ** A striped LV in two segments *)

(** VG 1 has PVs 1 and 2 with ten extents each.  LV 1 has two stripes: segment 1
    on extents 0 to 3 and segment 2 on extents 4 and 5 of both PVs. *)
Definition ex_type : segment_type := SegmentType (bytes "striped") (Z.lor SEG_CAN_SPLIT SEG_AREAS_STRIPED).
Definition ex_area (j : nat) : lv_segment_area := Area AREA_PV (U_pv (Some j)).
Definition ex_seg1 : lv_segment := LvSegment 1 ex_type 0 8 0 16 2 4 None [] [ex_area 11; ex_area 21] no_attrs.
Definition ex_seg2 : lv_segment := LvSegment 1 ex_type 8 4 0 16 2 2 None [] [ex_area 12; ex_area 22] no_attrs.

Definition ex_pegs (p base : nat) : list (nat * pv_segment) :=
  [(base + 1, PvSegment (Some p) 0 4 (Some 1) (Z.of_nat p - 1)); (base + 2, PvSegment (Some p) 4 2 (Some 2) (Z.of_nat p - 1));
   (base + 3, PvSegment (Some p) 6 4 None 0)]%nat.
Definition ex_pv (base : nat) : physical_volume :=
  PhysicalVolume (Some 1%nat) ALLOCATABLE_PV 100 8 2 10 6 [base + 1; base + 2; base + 3]%nat no_pv_attrs.
Definition ex_vg : volume_group := VolumeGroup (bytes "vg") 0 8 20 8 2 0 0 [1; 2]%nat [1%nat] no_vg_attrs.
Definition ex_lv : logical_volume := LogicalVolume (bytes "lv") 1 0 96 12 [1; 2]%nat [] no_lv_attrs.

Definition ex : store :=
  Store (list_to_map (ex_pegs 1 10 ++ ex_pegs 2 20)) {[1%nat := ex_pv 10; 2%nat := ex_pv 20]}
    {[1%nat := ex_seg1; 2%nat := ex_seg2]} {[1%nat := ex_lv]} {[1%nat := ex_vg]} 30 [] [].

Lemma ex_pv_ok p base : (p = 1 /\ base = 10 \/ p = 2 /\ base = 20)%nat -> pv_ok ex 1 p (ex_pv base) (ex_pegs p base).
Proof.
  intros H. split; [|split].
  - destruct H as [[-> ->]|[-> ->]]; (split; [reflexivity|split; [reflexivity|repeat constructor]]).
  - destruct H as [[-> ->]|[-> ->]];
      (split; [repeat constructor; set_solver|repeat constructor|repeat constructor; cbn; lia|cbn; lia|reflexivity]).
  - destruct H as [[-> ->]|[-> ->]]; (repeat constructor; intros sg Hsg; [..|done]); injection Hsg as <-;
      first [by exists ex_seg1, ex_lv|by exists ex_seg2, ex_lv].
Qed.

Lemma ex_vg_ok : vg_ok ex 1 ex_vg.
Proof.
  split; try reflexivity.
  - repeat constructor; set_solver.
  - intros p Hp. cbn in Hp. apply elem_of_cons in Hp as [->| ->%list_elem_of_singleton];
      (eexists _, _; apply ex_pv_ok; auto).
  - intros i Hi. cbn in Hi. apply not_elem_of_list_to_map_1. cbn. set_solver by lia.
Qed.

Lemma ex_linked sg p base k len :
  (p = 1 /\ base = 10 \/ p = 2 /\ base = 20)%nat -> (sg = 1 /\ k = 1 /\ len = 4 \/ sg = 2 /\ k = 2 /\ len = 2)%nat ->
  linked ex ex_vg sg (Z.of_nat p - 1) (Z.of_nat len) (ex_area (base + k)).
Proof.
  intros Hp Hs. exists (base + k)%nat, p, (ex_pv base), (if decide (sg = 1)%nat then 0 else 4).
  split; [done|]. destruct Hp as [[-> ->]|[-> ->]], Hs as [(-> & -> & ->)|(-> & -> & ->)];
    (split; [reflexivity|split; [set_solver|split; [reflexivity|set_solver]]]).
Qed.

Lemma ex_seg_ok q g : q = 1%nat /\ g = ex_seg1 \/ q = 2%nat /\ g = ex_seg2 -> seg_ok ex 1 ex_vg q g.
Proof.
  intros H. assert (forall a, 0 <= a < 2 -> a = 0 \/ a = 1) as Ha by lia.
  destruct H as [[-> ->]|[-> ->]]; split; try reflexivity; try (by exists ex_lv); try (cbn; lia).
  - intros a [->| ->]%Ha; (eexists; split; [reflexivity|]); [apply (ex_linked 1 1 10 1 4)|apply (ex_linked 1 2 20 1 4)]; auto.
  - intros a [->| ->]%Ha; (eexists; split; [reflexivity|]); [apply (ex_linked 2 1 10 2 2)|apply (ex_linked 2 2 20 2 2)]; auto.
Qed.

Lemma ex_lv_ok : lv_ok ex 1 ex_vg 1 ex_lv.
Proof.
  split; try reflexivity; [repeat constructor; set_solver|].
  exists ex_seg1. split; [apply ex_seg_ok; auto|]. do 3 (split; [done|]).
  exists ex_seg2. split; [apply ex_seg_ok; auto|]. do 3 (split; [done|]). reflexivity.
Qed.

(** ** Splitting *)

(** C24: Splitting a segment of an LV at an extent between two rows of stripes
    moves no data: when memory lasts the split succeeds; then the VG is still
    consistent with the same counts, the segment ends at the split and a new one
    behind it in the list takes the rest with the same tags, both with areas that
    point at PV segments of their length that point back, the areas of all other
    segments are as they were, and every physical extent of the VG holds the same
    extent of the same LV as before. *)
Theorem lv_split_keeps_extents s vg x lv w seg g le :
  vg_ok s vg x -> segs_fresh s -> seg_ok s vg x seg g -> plain_seg g -> seg_lv g = lv -> st_lvs s !! lv = Some w ->
  seg_le g < le < seg_le g + seg_len g -> (le - seg_le g) mod mult g = 0 ->
  exists ok s', lv_split_segment_at lv seg le s = Some (ok, s') /\ (no_oom s -> ok = true) /\
    (ok = true -> exists sp g1 g2, vg_ok s' vg x /\ same_extents x s s' /\
       st_lvs s' = <[lv := set_lv_segments (insert_after seg sp (lv_segments w)) w]> (st_lvs s) /\
       seg_ok s' vg x seg g1 /\ seg_lv g1 = lv /\ seg_le g1 = seg_le g /\ seg_le g1 + seg_len g1 = le /\
       seg_ok s' vg x sp g2 /\ seg_lv g2 = lv /\ seg_le g2 = le /\ seg_le g2 + seg_len g2 = seg_le g + seg_len g /\
       seg_tags g2 = seg_tags g /\
       forall q h, q <> seg -> q <> sp -> seg_ok s vg x q h -> seg_ok s' vg x q h).
Proof.
  intros Hvg Hf Hseg Hp Hlv Hw Hle Hdiv.
  destruct (split_segment_spec s vg x lv w seg g le Hvg Hf Hseg Hp Hlv Hw Hle Hdiv) as (ok & s' & He & Hno & H).
  exists ok, s'. split; [done|]. split; [done|]. intros E.
  destruct (H E) as (Hvg' & Hlvs & (g2 & H1 & H2 & E1 & E2 & E3 & E4) & Hsegs & Hfr & Hext).
  eexists _, _, g2. split; [exact Hvg'|]. split; [exact Hext|]. split; [exact Hlvs|]. split; [exact H1|].
  split; [done|]. split; [done|]. split; [cbn; lia|]. split; [done|]. split; [done|]. split; [done|].
  split; [lia|]. split; [done|]. intros q h Hq Hq' Hh. eapply seg_ok_frame; [exact Hh|by apply Hsegs| |].
  - intros k v Hk. rewrite Hlvs. destruct (decide (k = lv)) as [->|]; [|rewrite lookup_insert_ne by done; eauto].
    rewrite lookup_insert_eq. eexists. split; [done|]. cbn. congruence.
  - intros a len ar. by apply Hfr.
Qed.

Lemma lv_split_keeps_extents_witness :
  exists ok s', lv_split_segment_at 1 1 6 ex = Some (ok, s') /\ (no_oom ex -> ok = true) /\
    (ok = true -> exists sp g1 g2, vg_ok s' 1 ex_vg /\ same_extents ex_vg ex s' /\
       st_lvs s' = <[1%nat := set_lv_segments (insert_after 1 sp (lv_segments ex_lv)) ex_lv]> (st_lvs ex) /\
       seg_ok s' 1 ex_vg 1 g1 /\ seg_lv g1 = 1%nat /\ seg_le g1 = 0 /\ seg_le g1 + seg_len g1 = 6 /\
       seg_ok s' 1 ex_vg sp g2 /\ seg_lv g2 = 1%nat /\ seg_le g2 = 6 /\ seg_le g2 + seg_len g2 = 0 + 8 /\
       seg_tags g2 = [] /\
       forall q h, q <> 1%nat -> q <> sp -> seg_ok ex 1 ex_vg q h -> seg_ok s' 1 ex_vg q h).
Proof.
  apply (lv_split_keeps_extents ex 1 ex_vg 1 ex_lv 1 ex_seg1 6).
  - apply ex_vg_ok.
  - intros i Hi. cbn in Hi. change (st_segs ex) with (<[1%nat := ex_seg1]> {[2%nat := ex_seg2]} : gmap nat lv_segment).
    rewrite lookup_insert_ne by lia. apply lookup_singleton_ne. lia.
  - apply ex_seg_ok. auto.
  - repeat split; try reflexivity. constructor.
  - reflexivity.
  - reflexivity.
  - cbn. lia.
  - reflexivity.
Defined.

(** ** Merging *)

(** C25: Merging the segments of an LV moves no data: [lv_merge_segments] returns 1
    without a wild access, keeps the VG consistent with the same counts, leaves
    the LV with a sublist of its segments that is again consecutive over all its
    extents and linked with the PV segments both ways, and every physical extent
    holds the same extent of the same LV as before. *)
Theorem lv_merge_keeps_extents s vg x lv w :
  vg_ok s vg x -> lv_ok s vg x lv w ->
  exists s' w', lv_merge_segments lv s = Some (true, s') /\ vg_ok s' vg x /\ st_lvs s' !! lv = Some w' /\
    lv_segments w' `sublist_of` lv_segments w /\
    chain s' vg x lv 0 (lv_segments w') (lv_le_count w) /\ same_extents x s s'.
Proof.
  intros Hvg [Hw Hv Hnd Hch _].
  destruct (lv_merge_spec s vg x lv w _ Hvg Hw Hv Hnd Hch) as (s' & w' & He & [H1 H2 H3 H4 H5 H6 _ _ _ _]).
  exists s', w'. split; [done|]. split; [done|]. split; [by rewrite H2, lookup_insert_eq|done].
Qed.

Lemma lv_merge_keeps_extents_witness :
  exists s' w', lv_merge_segments 1 ex = Some (true, s') /\ vg_ok s' 1 ex_vg /\ st_lvs s' !! 1%nat = Some w' /\
    lv_segments w' `sublist_of` [1; 2]%nat /\
    chain s' 1 ex_vg 1 0 (lv_segments w') 12 /\ same_extents ex_vg ex s'.
Proof. exact (lv_merge_keeps_extents ex 1 ex_vg 1 ex_lv ex_vg_ok ex_lv_ok). Defined.

(** The two segments of the example become one. *)
Lemma ex_merged : (lv_segments <$> (r ← lv_merge_segments 1 ex; st_lvs r.2 !! 1%nat)) = Some [1%nat].
Proof. vm_compute. reflexivity. Qed.

(** ** Reducing *)

(** The extent [new] is not inside a row of stripes. *)
Definition row_boundary (s : store) (w : logical_volume) (new : Z) : Prop :=
  forall q g, q ∈ lv_segments w -> st_segs s !! q = Some g -> simple_seg g /\
    (seg_le g < new < seg_le g + seg_len g -> (new - seg_le g) mod mult g = 0).

(** A format that needs no setup of an LV, or one that succeeds. *)
Definition setup_ok (env : lv_env) : Prop :=
  forall f, lv_setup env = Some f -> forall a b s, f a b s = Some (true, s).

(** What holds behind the loop of [_lv_reduce] and the update of the sizes. *)
Record reduced (vg : nat) (x : volume_group) (lv : nat) (w : logical_volume) (n : Z) (s s' : store) (w' : logical_volume) : Prop := {
  rd_vg : vg_ok s' vg (more_free x n);
  rd_lv : lv_ok s' vg (more_free x n) lv w';
  rd_lvs : st_lvs s' = <[lv := w']> (st_lvs s);
  rd_name : lv_name w' = lv_name w;
  rd_count : lv_le_count w' = lv_le_count w - n;
  rd_size : lv_size w' = (lv_le_count w - n) * vg_extent_size x;
  rd_extents : trimmed x lv (lv_le_count w - n) s s' }.

Lemma more_free_size x n : vg_extent_size (more_free x n) = vg_extent_size x.
Proof. done. Qed.

Section reduce.
Context (env : lv_env) (fuel : nat) (s : store) (vg : nat) (x : volume_group) (lv : nat) (w : logical_volume) (n : Z).
Hypothesis Hvg : vg_ok s vg x.
Hypothesis Hlv : lv_ok s vg x lv w.
Hypothesis Hready : pvs_ready s vg x.
Hypothesis Hmem : no_oom s.
Hypothesis Hdis : forall q o b, dev_discard_blocks (le_discard env) q o b = true.
Hypothesis Hn : 0 <= n <= lv_le_count w.
Hypothesis Hrow : row_boundary s w (lv_le_count w - n).
Hypothesis Hext : 0 < vg_extent_size x < 2 ^ 32.

Lemma lv_reduce_spec del : exists s' w', reduced vg x lv w n s s' w' /\
  lv_reduce_ env (S fuel) lv n del s =
    (if negb del then mret true else
     ok ← (if lv_le_count w' =? 0 then unlink_lv_from_vg lv else mret true);
     if negb (ok : bool) then mret false else if lv_setup env is Some f then f vg lv else mret true) s'.
Proof.
  destruct Hlv as [Hw Hv Hnd Hch Hrange]. cbn [lv_reduce_]. mstep.
  destruct (reduce_loop_spec env (fun l => v ← get (T := logical_volume) l; lv_reduce_ env fuel l (lv_le_count v) true)
    (fun l n => lv_reduce_ env fuel l n true) vg lv Hdis (rev (lv_segments w)) s x w (lv_le_count w) n)
    as (s1 & l' & He & Hvg1 & Hlvs & Hnd1 & Hch1 & Htr); try done.
  { by rewrite rev_involutive. } { by apply nodup_rev. } { by rewrite rev_involutive. }
  { intros q g Hq. rewrite elem_of_rev in Hq. by apply Hrow. }
  erewrite bind_exec by exact He. cbn [fst negb].
  assert (st_lvs s1 !! lv = Some (set_lv_segments l' w)) as Hw1 by by rewrite Hlvs, lookup_insert_eq.
  pose proof (vo_vg _ _ _ Hvg1) as Hx1. unfold reduce_finish. mstep. cbn [lv_vg set_lv_segments]. rewrite Hv. mstep.
  cbn [lv_le_count set_lv_segments]. rewrite more_free_size, wrap32_small by lia. do 2 mstep.
  assert (0 <= (lv_le_count w - n) * vg_extent_size x < 2 ^ 64) as Hsz.
  { split; [apply Z.mul_nonneg_nonneg; lia|]. apply (Z.le_lt_trans _ (2 ^ 32 * 2 ^ 32 - 1)); [nia|lia]. }
  rewrite wrap64_small by done. set (s2 := set_tbl _ _). set (w2 := set_lv_size _ _) in s2.
  assert (st_lvs s2 = <[lv := w2]> (st_lvs s)) as Es2 by (cbn; by rewrite Hlvs, !insert_insert_eq).
  assert (same_pvs s1 s2) as Hm.
  { eapply same_pvs_trans; eapply same_pvs_lv; [exact Hw1|done|apply lookup_insert_eq|done]. }
  exists s2, w2. split; [|done]. split; try done.
  - by eapply vg_ok_same.
  - split; try done; [by rewrite Es2, lookup_insert_eq| |cbn; lia].
    apply chain_free. eapply chain_frame; [|exact Hch1]. intros q g _. by apply seg_ok_same.
Qed.
End reduce.

(** C22: Reducing a linear or striped LV by [n] extents, to an end between two rows
    of stripes, when discards and memory last: it succeeds; exactly [n] extents
    more are free in the VG, which stays consistent; only extents that held this
    LV from its new end on became free and every other physical extent holds what
    it held; the LV's segments are consecutive up to the new size, linked both
    ways, and its size is the new number of extents times the extent size. *)
Theorem lv_reduce_frees_tail env fuel s vg x lv w n del :
  vg_ok s vg x -> lv_ok s vg x lv w -> pvs_ready s vg x -> no_oom s ->
  (forall q o b, dev_discard_blocks (le_discard env) q o b = true) -> setup_ok env ->
  0 <= n <= lv_le_count w -> (del = true -> n < lv_le_count w) ->
  row_boundary s w (lv_le_count w - n) -> 0 < vg_extent_size x < 2 ^ 32 ->
  exists s' w', lv_reduce_ env (S fuel) lv n del s = Some (true, s') /\
    vg_ok s' vg (more_free x n) /\ lv_ok s' vg (more_free x n) lv w' /\
    lv_le_count w' = lv_le_count w - n /\ lv_size w' = (lv_le_count w - n) * vg_extent_size x /\
    trimmed x lv (lv_le_count w - n) s s'.
Proof.
  intros Hvg Hlv Hr Hno Hdis Hset Hn Hdel Hrow Hext.
  destruct (lv_reduce_spec env fuel s vg x lv w n Hvg Hlv Hr Hno Hdis Hn Hrow Hext del) as (s' & w' & [H1 H2 _ _ H3 H4 H5] & ->).
  exists s', w'. split; [|done]. destruct del; [|done]. cbn [negb]. specialize (Hdel eq_refl).
  rewrite (proj2 (Z.eqb_neq _ _)), bind_ret by lia. cbn [negb].
  destruct (lv_setup env) as [f|] eqn:Ef; [by apply Hset|done].
Qed.

(** Every discard succeeds and the format has no setup. *)
Definition ex_env : lv_env := LvEnv (DiscardEnv (fun _ => true) (fun _ _ _ => true)) (fun _ => mret true) None.

Lemma ex_ready : pvs_ready ex 1 ex_vg.
Proof.
  intros p Hp. cbn in Hp. apply elem_of_cons in Hp as [->| ->%list_elem_of_singleton];
    (eexists; split; [reflexivity|]; split; [reflexivity|]; repeat split; cbn; lia).
Qed.

Lemma ex_rows new : 0 <= new -> new mod 2 = 0 -> row_boundary ex ex_lv new.
Proof.
  intros Hn Hm q g Hq Hg. cbn in Hq. assert (g = ex_seg1 \/ g = ex_seg2) as Hg'.
  { apply elem_of_cons in Hq as [->| ->%list_elem_of_singleton]; [left|right]; by injection Hg. }
  destruct Hg' as [-> | ->]; (split; [repeat split|]; intros _; change (mult _) with 2; unfold ex_seg1, ex_seg2;
    cbn [seg_le]; Z.div_mod_to_equations; lia).
Qed.

Lemma lv_reduce_frees_tail_witness :
  exists s' w', lv_reduce_ ex_env 1 1 6 true ex = Some (true, s') /\
    vg_ok s' 1 (more_free ex_vg 6) /\ lv_ok s' 1 (more_free ex_vg 6) 1 w' /\
    lv_le_count w' = 12 - 6 /\ lv_size w' = (12 - 6) * 8 /\ trimmed ex_vg 1 (12 - 6) ex s'.
Proof.
  apply (lv_reduce_frees_tail ex_env 0 ex 1 ex_vg 1 ex_lv 6 true ex_vg_ok ex_lv_ok ex_ready).
  - apply not_elem_of_nil.
  - reflexivity.
  - by intros f Hf.
  - cbn. lia.
  - cbn. lia.
  - apply ex_rows; [cbn; lia|reflexivity].
  - cbn. lia.
Defined.

(** ** Removing *)

Lemma last_component_plain name cur : 47 ∉ name -> last_component name cur = cur.
Proof.
  revert cur. induction name as [|c name IH]; intros cur Hc; [done|]. cbn.
  apply not_elem_of_cons in Hc as [Hc Hn]. rewrite (proj2 (Z.eqb_neq _ _)) by congruence. by apply IH.
Qed.

(** [lv] is the only LV of the VG with its name, which is not a path. *)
Definition own_name (s : store) (x : volume_group) (lv : nat) (w : logical_volume) : Prop :=
  lv ∈ vg_lvs x /\ (47 ∉ lv_name w) /\
  forall q, q ∈ vg_lvs x -> exists v, st_lvs s !! q = Some v /\ (lv_name v = lv_name w -> q = lv).

Lemma find_lv_loop_spec s lv w lvs :
  st_lvs s !! lv = Some w -> lv ∈ lvs ->
  (forall q, q ∈ lvs -> exists v, st_lvs s !! q = Some v /\ (lv_name v = lv_name w -> q = lv)) ->
  find_lv_loop lvs (lv_name w) s = Some (Some lv, s).
Proof.
  intros Hw. induction lvs as [|q lvs IH]; intros Hin Hall; [by apply elem_of_nil in Hin|]. cbn.
  destruct (Hall q ltac:(left)) as (v & Hv & Hname). mstep. destruct (decide (lv_name v = lv_name w)) as [E|E].
  - by rewrite (Hname E).
  - apply IH; [|intros; apply Hall; by right]. apply elem_of_cons in Hin as [->|]; [congruence|done].
Qed.

Lemma vg_ok_lvs s vg x l :
  vg_ok s vg x -> vg_ok (set_tbl (T := volume_group) (<[vg := set_vg_lvs l x]> (st_vgs s)) s) vg (set_vg_lvs l x).
Proof. intros [H1 H2 H3 H4 H5 H6 H7 H8]. split; try done. apply lookup_insert_eq. Qed.

(** C23: Removing a linear or striped LV of the VG, when discards and memory last:
    it succeeds, all extents of the LV, and no extent of another LV, are free
    again, the VG stays consistent with as many more free extents, and the LV
    leaves the VG's list of LVs, which keeps all others in order. *)
Theorem lv_remove_frees_all env fuel s vg x lv w :
  vg_ok s vg x -> lv_ok s vg x lv w -> own_name s x lv w -> pvs_ready s vg x -> no_oom s ->
  (forall q o b, dev_discard_blocks (le_discard env) q o b = true) -> setup_ok env ->
  (forall q g, q ∈ lv_segments w -> st_segs s !! q = Some g -> simple_seg g) -> 0 < vg_extent_size x < 2 ^ 32 ->
  exists s' w', lv_remove env (S fuel) lv s = Some (true, s') /\ st_lvs s' = <[lv := w']> (st_lvs s) /\
    lv_le_count w' = 0 /\ lv_size w' = 0 /\ lv_segments w' = [] /\ trimmed x lv 0 s s' /\
    vg_ok s' vg (set_vg_lvs (remove_first lv (vg_lvs x)) (more_free x (lv_le_count w))).
Proof.
  intros Hvg Hlv (Hin & Hslash & Hnames) Hr Hno Hdis Hset Hsim Hext. pose proof Hlv as [Hw Hv _ Hch _].
  pose proof (chain_le _ _ _ _ _ _ _ Hch) as Hpos.
  destruct (lv_reduce_spec env fuel s vg x lv w (lv_le_count w) Hvg Hlv Hr Hno Hdis ltac:(lia)) with (del := true)
    as (s1 & w' & [H1 [Hw' Hv' _ Hch' _] H3 H4 H5 H6 H7] & He); try done.
  { intros q g Hq Hg. split; [by eapply Hsim|]. rewrite Z.sub_diag. intros Hle.
    pose proof (chain_elem _ _ _ _ _ _ _ _ _ Hch Hq Hg). lia. }
  unfold lv_remove, lv_reduce. mstep. rewrite He. cbn [negb]. rewrite Z.sub_diag in *. rewrite H5. cbn [Z.eqb].
  unfold unlink_lv_from_vg, find_lv_in_vg. rewrite bind_assoc. mstep. rewrite Hv'.
  pose proof (vo_vg _ _ _ H1) as Hx. rewrite !bind_assoc. mstep.
  rewrite last_component_plain by by rewrite H4.
  erewrite bind_exec.
  2: { apply find_lv_loop_spec; [exact Hw'|exact Hin|]. intros q Hq. destruct (Hnames q Hq) as (v & Hqv & Hqn).
       rewrite H3. destruct (decide (q = lv)) as [->|]; [rewrite lookup_insert_eq; eauto|].
       rewrite lookup_insert_ne by done. exists v. split; [done|]. by rewrite H4. }
  cbn beta iota. do 3 mstep. cbn [negb].
  eexists _, w'. split; [destruct (lv_setup env) as [f|] eqn:Ef; [by apply Hset|done]|].
  split; [done|]. split; [done|]. split; [done|]. split; [|split; [done|by apply vg_ok_lvs]].
  rewrite H5 in Hch'. by apply chain_nil in Hch'.
Qed.

Lemma lv_remove_frees_all_witness :
  exists s' w', lv_remove ex_env 1 1 ex = Some (true, s') /\ st_lvs s' = <[1%nat := w']> (st_lvs ex) /\
    lv_le_count w' = 0 /\ lv_size w' = 0 /\ lv_segments w' = [] /\ trimmed ex_vg 1 0 ex s' /\
    vg_ok s' 1 (set_vg_lvs [] (more_free ex_vg 12)).
Proof.
  apply (lv_remove_frees_all ex_env 0 ex 1 ex_vg 1 ex_lv ex_vg_ok ex_lv_ok).
  - split; [cbn; left|]. split; [cbn; set_solver|]. intros q Hq. cbn in Hq. apply list_elem_of_singleton in Hq as ->. by exists ex_lv.
  - exact ex_ready.
  - apply not_elem_of_nil.
  - reflexivity.
  - by intros f Hf.
  - intros q g Hq Hg. by apply (ex_rows 0 ltac:(lia) eq_refl q g Hq Hg).
  - cbn. lia.
Defined.
