(* ===== verification/CheckLv.v ===== *)
(** * The consistency check of an LV: check_lv_segments of lib/metadata/merge.c

    The check counts the inconsistencies it finds and stops after about a hundred.
    It runs on an LV while its VG is still being read ([complete_vg] 0) and on the
    LVs of a VG that is complete. *)

From S2P Require Import Prelude Metadata LvManip LvSegs LvProps.

(** ** The code *)

Definition ERROR_MAX : Z := 100.
Definition DM_THIN_MIN_DATA_BLOCK_SIZE : Z := 128.
Definition DM_THIN_MAX_DATA_BLOCK_SIZE : Z := 2097152.
Definition DM_THIN_MAX_DEVICE_ID : Z := 2 ^ 24 - 1.

(** A check takes the number of errors so far; [None] is the jump to [out], which
    is taken only behind an error. *)
Definition chk : Type := Z -> M (option Z).

Definition pass : chk := fun n => mret (Some n).
Definition seq (a b : chk) : chk := fun n => r ← a n; match r with Some n => b n | None => mret None end.
Notation "a ;> b" := (seq a b) (at level 100, right associativity).

(** [inc_error_count] *)
Definition inc_error_count : chk := fun n => if ERROR_MAX <? n then mret None else mret (Some (n + 1)).

(** [if (bad) inc_error_count;] *)
Definition err_if (bad : M bool) : chk := fun n => b ← bad; if b : bool then inc_error_count n else mret (Some n).
Definition when_ (b : bool) (c : chk) : chk := if b then c else pass.

(** [a || b] and [a && b] *)
Definition orM (a b : M bool) : M bool := x ← a; if x : bool then mret true else b.
Definition andM (a b : M bool) : M bool := x ← a; if x : bool then b else mret false.

(** The only user of the LV of a segment, when it is of a type with the flag:
    [find_pool_seg] and [find_mirror_seg]. *)
Definition find_user_seg (f : Z) (seg : nat) : M (option nat) :=
  g ← get (T := lv_segment) seg;
  r ← get_only_segment_using_this_lv (seg_lv g);
  match r with
  | None => mret None
  | Some q => h ← get (T := lv_segment) q; mret (if seg_flag f h then Some q else None)
  end.
Definition find_pool_seg : nat -> M (option nat) := find_user_seg SEG_THIN_POOL.
Definition find_mirror_seg : nat -> M (option nat) := find_user_seg SEG_AREAS_MIRRORED.

(** The first segment of [lv] does not exist or its pool (mirror) segment is not [seg]. *)
Definition first_not_back (find : nat -> M (option nat)) (lv seg : nat) : M bool :=
  r ← first_seg lv;
  match r with
  | None => mret true
  | Some q => p ← find q; mret (negb (bool_decide (p = Some seg)))
  end.

(** What is known of replicators, which are not modelled: their own check, how
    often a replicator-dev segment refers to an LV, and the log of a replicator. *)
Record check_env := CheckEnv {
  check_replicator_segment : nat -> M bool;
  replicator_links : nat -> nat -> M Z;
  rlog_lv : nat -> M (option nat) }.

Section check.
Context (env : check_env) (lv : nat) (complete_vg : bool).

(** The first segment does not have the flag. *)
Definition first_without (f : Z) : M bool :=
  r ← first_seg lv;
  match r with None => mret true | Some q => g ← get (T := lv_segment) q; mret (negb (seg_flag f g)) end.

(** The flags of a thin LV against its first segment. *)
Definition check_thin_flags (v : logical_volume) : chk :=
  when_ (lv_flag THIN_VOLUME v) (err_if (first_without SEG_THIN_VOLUME)) ;>
  when_ (lv_flag THIN_POOL v) (err_if (first_without SEG_THIN_POOL)) ;>
  when_ (lv_flag THIN_POOL_DATA v) (err_if (
    r ← first_seg lv;
    match r with
    | None => mret true
    | Some q =>
        p ← find_pool_seg q;
        match p with
        | None => mret true
        | Some p =>
            h ← get (T := lv_segment) p;
            if negb (seg_area_count h =? 1) then mret true else
            a ← area_at p 0;
            if negb (bool_decide (area_type a = AREA_LV)) then mret true else
            l ← area_lv a; mret (negb (bool_decide (l.1 = Some lv)))
        end
    end)) ;>
  when_ (lv_flag THIN_POOL_METADATA v) (err_if (
    r ← first_seg lv;
    match r with
    | None => mret true
    | Some q =>
        p ← find_pool_seg q;
        match p with
        | None => mret true
        | Some p => h ← get (T := lv_segment) p; mret (negb (bool_decide (sa_metadata_lv (seg_attrs_of h) = Some lv)))
        end
    end)).

(** The checks of logs and mirror images of a complete VG. *)
Definition check_mirror (seg : nat) (g : lv_segment) : chk :=
  match seg_log_lv g with
  | None => pass
  | Some log =>
      when_ (negb (seg_is_mirrored g) && negb (flag (seg_status g) RAID_IMAGE)) inc_error_count ;>
      when_ (seg_is_mirrored g)
        (err_if (w ← get (T := logical_volume) log; mret (negb (lv_flag MIRROR_LOG w))) ;>
         err_if (first_not_back find_mirror_seg log seg))
  end ;>
  when_ (flag (seg_status g) MIRROR_IMAGE)
    (err_if (p ← find_mirror_seg seg;
             match p with
             | None => mret true
             | Some _ =>
                 p ← find_mirror_seg seg; p ← deref p; h ← get (T := lv_segment) p; mret (negb (seg_is_mirrored h))
             end)).

(** The checks of thin pools and thin volumes of a complete VG. *)
Definition check_thin_pool (seg : nat) (g : lv_segment) (v : logical_volume) : chk :=
  let sa := seg_attrs_of g in
  when_ (negb (lv_flag THIN_POOL v)) inc_error_count ;>
  when_ (lv_flag THIN_VOLUME v) inc_error_count ;>
  err_if (
    if negb (seg_area_count g =? 1) then mret true else
    a ← area_at seg 0;
    if negb (bool_decide (area_type a = AREA_LV)) then mret true else
    l ← area_lv a; l ← deref l.1; first_not_back find_pool_seg l seg) ;>
  err_if (match sa_metadata_lv sa with None => mret true | Some m => first_not_back find_pool_seg m seg end) ;>
  when_ ((sa_chunk_size sa <? DM_THIN_MIN_DATA_BLOCK_SIZE) || (DM_THIN_MAX_DATA_BLOCK_SIZE <? sa_chunk_size sa)) inc_error_count.

Definition check_thin_volume (g : lv_segment) (v : logical_volume) : chk :=
  let sa := seg_attrs_of g in
  when_ (negb (lv_flag THIN_VOLUME v)) inc_error_count ;>
  when_ (lv_flag THIN_POOL v) inc_error_count ;>
  err_if (match sa_pool_lv sa with
          | None => mret true
          | Some p => w ← get (T := logical_volume) p; mret (negb (lv_flag THIN_POOL w))
          end) ;>
  when_ (DM_THIN_MAX_DEVICE_ID <? sa_device_id sa) inc_error_count.

Definition check_thin (seg : nat) (g : lv_segment) (v : logical_volume) : chk :=
  (if seg_flag SEG_THIN_POOL g then check_thin_pool seg g v
   else when_ (if sa_metadata_lv (seg_attrs_of g) is Some _ then true else false) inc_error_count) ;>
  (if seg_flag SEG_THIN_VOLUME g then check_thin_volume g v
   else when_ (if sa_pool_lv (seg_attrs_of g) is Some _ then true else false) inc_error_count).

(** How often [seg] is in the list of users. *)
Definition times_used (seg : nat) (users : list (nat * Z)) : nat := length (filter (fun u => u.1 = seg) users).

(** One area of a segment. *)
Definition check_area (seg : nat) (g : lv_segment) (v : logical_volume) (s : Z) : chk := fun n =>
  a ← area_at seg s;
  (match area_type a with
   | AREA_UNASSIGNED => inc_error_count
   | AREA_PV =>
       err_if (
         j ← area_pvseg a;
         match j with
         | None => mret true
         | Some j =>
             h ← get (T := pv_segment) j;
             mret (negb (bool_decide (peg_lvseg h = Some seg)) || negb (peg_lv_area h =? s))
         end)
   | AREA_LV =>
       err_if (
         l ← area_lv a;
         match l.1 with
         | None => mret true
         | Some l =>
             w ← get (T := logical_volume) l;
             mret (negb (bool_decide (lv_vg w = lv_vg v)) || bool_decide (l = lv))
         end) ;>
       when_ complete_vg (err_if (
         l ← area_lv a;
         match l.1 with
         | None => mret false
         | Some m =>
             w ← get (T := logical_volume) m;
             if negb (lv_flag MIRROR_IMAGE w) then mret false else
             r ← find_seg_by_le m l.2;
             match r with
             | None => mret true
             | Some q => p ← find_mirror_seg q; mret (negb (bool_decide (p = Some seg)))
             end
         end)) ;>
       err_if (l ← area_lv a; l ← deref l.1; w ← get (T := logical_volume) l;
               mret (negb (times_used seg (lv_users w) =? 1)%nat))
   end ;>
   when_ (complete_vg && seg_is_mirrored g && negb (seg_flag SEG_RAID g) && bool_decide (area_type a = AREA_LV))
     (err_if (l ← area_lv a; l ← deref l.1; w ← get (T := logical_volume) l;
              mret (negb (lv_le_count w =? seg_area_len g))))) n.

Fixpoint check_areas (seg : nat) (g : lv_segment) (v : logical_volume) (s : Z) (n : nat) : chk :=
  match n with O => pass | S n => check_area seg g v s ;> check_areas seg g v (s + 1) n end.

(** One segment, which should begin at [le]. *)
Definition check_segment (v : logical_volume) (le : Z) (seg : nat) (g : lv_segment) : chk :=
  when_ (negb (seg_le g =? le)) inc_error_count ;>
  when_ (negb (wrap32 (seg_area_len g * (if seg_is_striped g then seg_area_count g else 1)) =? seg_len g)) inc_error_count ;>
  when_ complete_vg (check_mirror seg g) ;>
  when_ complete_vg (check_thin seg g v) ;>
  when_ (seg_flag SEG_SNAPSHOT g &&
         match sa_cow (seg_attrs_of g) with
         | Some c => bool_decide (sa_origin (seg_attrs_of g) = Some c)
         | None => false
         end) inc_error_count ;>
  when_ (seg_flag SEG_REPLICATOR g) (err_if (ok ← check_replicator_segment env seg; mret (negb ok))) ;>
  check_areas seg g v 0 (Z.to_nat (seg_area_count g)).

(** The loop over the segments; [k] continues with the number of extents. *)
Fixpoint check_segs (v : logical_volume) (le : Z) (segs : list nat) (k : Z -> chk) : chk :=
  match segs with
  | [] => k le
  | q :: segs => fun n =>
      g ← get (T := lv_segment) q;
      (check_segment v le q g ;> check_segs v (wrap32 (le + seg_len g)) segs k) n
  end.

(** How many areas of a segment refer to the LV. *)
Fixpoint count_areas (seg : nat) (g : lv_segment) (s : Z) (n : nat) : M Z :=
  match n with
  | O => mret 0
  | S n =>
      a ← area_at seg s;
      here ← (if negb (bool_decide (area_type a = AREA_LV)) then mret 0 else
              l ← area_lv a;
              m ← (if seg_flag SEG_RAID g then
                     b ← deref (sa_meta_areas (seg_attrs_of g) !! Z.to_nat s);
                     l ← area_lv b; mret (if bool_decide (l.1 = Some lv) then 1 else 0)
                   else mret 0);
              mret ((if bool_decide (l.1 = Some lv) then 1 else 0) + m));
      rest ← count_areas seg g (s + 1) n;
      mret (here + rest)
  end.

(** One segment that uses the LV. *)
Definition check_user (u : nat * Z) : chk := fun n =>
  g ← get (T := lv_segment) u.1;
  let sa := seg_attrs_of g in
  let hit (b : option nat) : Z := if bool_decide (b = Some lv) then 1 else 0 in
  areas ← count_areas u.1 g 0 (Z.to_nat (seg_area_count g));
  reps ← (if seg_flag SEG_REPLICATOR_DEV g then replicator_links env lv u.1 else mret 0);
  rlog ← (if seg_flag SEG_REPLICATOR g then r ← rlog_lv env u.1; mret (hit r) else mret 0);
  let found := areas + reps + rlog + hit (seg_log_lv g) +
    (if bool_decide (sa_metadata_lv sa = Some lv \/ sa_pool_lv sa = Some lv) then 1 else 0) +
    (if seg_flag SEG_THIN_VOLUME g then hit (sa_origin sa) else 0) in
  (when_ ((found =? 0) || negb (found =? u.2)) inc_error_count ;>
   err_if (w ← get (T := logical_volume) (seg_lv g); mret (negb (bool_decide (u.1 ∈ lv_segments w))))) n.

Fixpoint check_users (users : list (nat * Z)) : chk :=
  match users with [] => pass | u :: users => check_user u ;> check_users users end.

Definition check_lv_segments : M bool :=
  v ← get (T := logical_volume) lv;
  r ← (when_ complete_vg (check_thin_flags v) ;>
       check_segs v 0 (lv_segments v) (fun le =>
       check_users (lv_users v) ;>
       when_ (negb (le =? lv_le_count v)) inc_error_count)) 0;
  mret (if r is Some n then n =? 0 else false).

End check.

(** ** What the check decides *)

(** The check [c] always ends, leaves the store alone and adds to the number of
    errors unless [good] holds; it jumps out only when it does not hold. *)
Definition decides (c : chk) (s : store) (good : Prop) : Prop :=
  forall n, exists r, c n s = Some (r, s) /\
    match r with Some n' => n <= n' /\ (n' = n <-> good) | None => ~ good end.

Lemma decides_pass s : decides pass s True.
Proof. intros n. exists (Some n). split; [done|]. split; [lia|done]. Qed.

Lemma decides_error s : decides inc_error_count s False.
Proof.
  intros n. unfold inc_error_count. destruct (ERROR_MAX <? n).
  - exists None. split; [done|tauto].
  - exists (Some (n + 1)). split; [done|]. split; [lia|]. split; [lia|done].
Qed.

Lemma decides_seq a b s A B : decides a s A -> decides b s B -> decides (a ;> b) s (A /\ B).
Proof.
  intros Ha Hb n. destruct (Ha n) as (r & Er & Hr). unfold seq. rewrite (bind_exec _ _ _ _ _ Er).
  destruct r as [n1|]; [|exists None; split; [done|tauto]].
  destruct (Hb n1) as (r2 & E2 & H2). exists r2. split; [done|]. destruct r2 as [n2|]; [|tauto].
  destruct Hr as [? Hr], H2 as [? H2]. split; [lia|]. rewrite <- Hr, <- H2. lia.
Qed.

Lemma decides_iff c s A B : (A <-> B) -> decides c s A -> decides c s B.
Proof.
  intros E Hc n. destruct (Hc n) as (r & Er & Hr). exists r. split; [done|].
  destruct r; rewrite <- E; done.
Qed.

Lemma decides_when b s : decides (when_ b inc_error_count) s (b = false).
Proof.
  destruct b; cbn [when_]; [eapply decides_iff; [|apply decides_error]; done|].
  eapply decides_iff; [|apply decides_pass]. done.
Qed.

Lemma decides_err_if m b s : m s = Some (b, s) -> decides (err_if m) s (b = false).
Proof.
  intros Hm n. unfold err_if. rewrite (bind_exec _ _ _ _ _ Hm). pose proof (decides_when b s n). by destruct b.
Qed.

Lemma decides_ext c c' s A : (forall n, c' n s = c n s) -> decides c s A -> decides c' s A.
Proof. intros E Hc n. rewrite E. apply Hc. Qed.

(** ** LVs on PVs *)

(** Area [a] of segment [q] is a piece of a PV that points back. *)
Definition area_back (s : store) (q : nat) (a : Z) (ar : lv_segment_area) : Prop :=
  exists j h, ar = Area AREA_PV (U_pv (Some j)) /\ st_pegs s !! j = Some h /\
    peg_lvseg h = Some q /\ peg_lv_area h = a.

(** Segment [q] begins at [le], its areas have the length of the segment between
    them, and they are pieces of PVs that point back. *)
Definition segment_fits (s : store) (le : Z) (q : nat) (g : lv_segment) : Prop :=
  seg_le g = le /\ wrap32 (seg_area_len g * (if seg_is_striped g then seg_area_count g else 1)) = seg_len g /\
  forall i ar, seg_areas g !! i = Some ar -> area_back s q (Z.of_nat i) ar.

(** The segments follow each other from [le] on and end at [hi]. *)
Fixpoint segs_fit (s : store) (le : Z) (segs : list nat) (hi : Z) : Prop :=
  match segs with
  | [] => le = hi
  | q :: segs => exists g, st_segs s !! q = Some g /\ segment_fits s le q g /\
                   segs_fit s (wrap32 (le + seg_len g)) segs hi
  end.

(** A segment of a linear or striped LV: its areas are not LVs (they may be
    unassigned or missing their PV segment), and it has no log, pool or mirror. *)
Record on_pvs (s : store) (q : nat) : Prop := {
  op_seg : exists g, st_segs s !! q = Some g /\ 0 <= seg_area_count g /\
    length (seg_areas g) = Z.to_nat (seg_area_count g) /\
    seg_log_lv g = None /\ flag (seg_status g) MIRROR_IMAGE = false /\
    sa_metadata_lv (seg_attrs_of g) = None /\ sa_pool_lv (seg_attrs_of g) = None /\
    seg_flag SEG_THIN_POOL g = false /\ seg_flag SEG_THIN_VOLUME g = false /\
    seg_flag SEG_SNAPSHOT g = false /\ seg_flag SEG_REPLICATOR g = false /\
    Forall (fun ar => area_type ar = AREA_UNASSIGNED \/
                      area_type ar = AREA_PV /\ (area_u_of ar = U_zero \/ exists j, area_u_of ar = U_pv j /\
                        forall i, j = Some i -> is_Some (st_pegs s !! i))) (seg_areas g) }.

(** An LV that no other LV uses and, in a complete VG, that is no part of a thin
    pool. *)
Definition plain_lv (c : bool) (s : store) (v : logical_volume) : Prop :=
  lv_users v = [] /\
  (c = true -> lv_flag THIN_VOLUME v = false /\ lv_flag THIN_POOL v = false /\
    lv_flag THIN_POOL_DATA v = false /\ lv_flag THIN_POOL_METADATA v = false) /\
  Forall (on_pvs s) (lv_segments v).

Section decide.
Context (env : check_env) (lv : nat) (c : bool) (s : store).

Lemma area_decides q g v a ar :
  st_segs s !! q = Some g -> 0 <= a -> seg_areas g !! Z.to_nat a = Some ar ->
  (area_type ar = AREA_UNASSIGNED \/
   area_type ar = AREA_PV /\ (area_u_of ar = U_zero \/ exists j, area_u_of ar = U_pv j /\
     forall i, j = Some i -> is_Some (st_pegs s !! i))) ->
  decides (check_area lv c q g v a) s (area_back s q a ar).
Proof.
  intros Hg Ha Har Ht. unfold check_area. eapply decides_ext.
  { intros n. rewrite (bind_exec _ _ _ _ _ (area_at_exec s q g a ar Hg Ha Har)). reflexivity. }
  destruct ar as [t u]. cbn [area_type area_u_of] in *.
  assert (forall b, decides (when_ (b && bool_decide (t = AREA_LV)) (err_if (l ← area_lv (Area t u); l ← deref l.1;
            w ← get (T := logical_volume) l; mret (negb (lv_le_count w =? seg_area_len g))))) s True) as Hlast.
  { intros b. rewrite bool_decide_eq_false_2, andb_false_r by (destruct Ht as [->|[-> _]]; done). apply decides_pass. }
  eapply decides_iff; [|apply decides_seq; [|apply Hlast]]; [apply right_id, _|].
  destruct Ht as [->|[-> Hu]].
  - eapply decides_iff; [|apply decides_error]. split; [done|]. by intros (j & h & [=] & _).
  - destruct Hu as [->|([i|] & -> & Hi)].
    + eapply decides_iff; [|apply decides_err_if; reflexivity]. split; [done|]. by intros (j & h & [=] & _).
    + destruct (Hi i eq_refl) as [h Hh]. eapply decides_iff; [|apply decides_err_if; unfold area_pvseg; cbn [area_u_of]; do 2 mstep; reflexivity].
      rewrite orb_false_iff, !negb_false_iff, bool_decide_eq_true, Z.eqb_eq. split.
      * intros [H1 H2]. by exists i, h.
      * intros (j & h' & [=<-] & H1 & H2 & H3). by simplify_eq.
    + eapply decides_iff; [|apply decides_err_if; reflexivity]. split; [done|]. by intros (j & h & [=] & _).
Qed.

Lemma areas_decide q g v n a :
  st_segs s !! q = Some g -> 0 <= a -> (length (seg_areas g) = Z.to_nat a + n)%nat ->
  Forall (fun ar => area_type ar = AREA_UNASSIGNED \/
                      area_type ar = AREA_PV /\ (area_u_of ar = U_zero \/ exists j, area_u_of ar = U_pv j /\
                        forall i, j = Some i -> is_Some (st_pegs s !! i))) (seg_areas g) ->
  decides (check_areas lv c q g v a n) s
    (forall i ar, (Z.to_nat a <= i)%nat -> seg_areas g !! i = Some ar -> area_back s q (Z.of_nat i) ar).
Proof.
  intros Hg Ha Hlen HF. revert a Ha Hlen. induction n as [|n IH]; intros a Ha Hlen; cbn [check_areas].
  - eapply decides_iff; [|apply decides_pass]. split; [|done]. intros _ i ar Hi Hl.
    apply lookup_lt_Some in Hl. lia.
  - destruct (lookup_lt_is_Some_2 (seg_areas g) (Z.to_nat a)) as [ar Har]; [lia|].
    eapply decides_iff; [|apply decides_seq; [apply (area_decides q g v a ar)|apply (IH (a + 1)); lia]]; try done.
    2: exact (proj1 (Forall_lookup _ _) HF _ _ Har).
    split.
    + intros [H1 H2] i ar' Hi Hl. destruct (decide (i = Z.to_nat a)) as [->|]; [|apply H2; [lia|done]].
      rewrite Z2Nat.id by lia. by simplify_eq.
    + intros H. split; [rewrite <- (Z2Nat.id a) at 1 by lia; apply H; [lia|done]|]. intros. apply H; [lia|done].
Qed.

Lemma segment_decides v le q g :
  on_pvs s q -> st_segs s !! q = Some g -> decides (check_segment env lv c v le q g) s (segment_fits s le q g).
Proof.
  intros [(g' & Hg & Hc & Hlen & Hlog & Hmi & Hmd & Hp & Htp & Htv & Hsn & Hrep & HF)] Hq.
  assert (g' = g) as -> by congruence.
  assert (decides (when_ c (check_mirror q g)) s True) as H1.
  { destruct c; [|apply decides_pass]. cbn [when_]. unfold check_mirror. rewrite Hlog, Hmi. cbn [when_].
    eapply decides_iff; [|apply decides_seq; apply decides_pass]. done. }
  assert (decides (when_ c (check_thin q g v)) s True) as H2.
  { destruct c; [|apply decides_pass]. cbn [when_]. unfold check_thin. rewrite Htp, Htv, Hmd, Hp. cbn [when_].
    eapply decides_iff; [|apply decides_seq; apply decides_pass]. done. }
  unfold check_segment. rewrite Hsn, Hrep. cbn [andb]. unfold when_ at 5 6.
  eapply decides_iff; [|apply decides_seq; [apply decides_when|apply decides_seq; [apply decides_when|
    apply decides_seq; [exact H1|apply decides_seq; [exact H2|apply decides_seq; [apply decides_pass|
    apply decides_seq; [apply decides_pass|apply areas_decide; [exact Hq|lia|exact Hlen|exact HF]]]]]]]].
  rewrite !negb_false_iff, !Z.eqb_eq. unfold segment_fits. split.
  - intros (? & ? & _ & _ & _ & _ & H). split; [done|]. split; [done|]. intros. apply H; [lia|done].
  - intros (? & ? & H). do 6 (split; [done|]). intros. by apply H.
Qed.

Lemma segs_decide v k hi segs le :
  Forall (on_pvs s) segs -> (forall le, decides (k le) s (le = hi)) ->
  decides (check_segs env lv c v le segs k) s (segs_fit s le segs hi).
Proof.
  intros HF Hk. revert le. induction HF as [|q segs Hq HF IH]; intros le; cbn [check_segs segs_fit]; [apply Hk|].
  pose proof Hq as [(g & Hg & _)]. eapply decides_ext; [intros n; by mstep|].
  eapply decides_iff; [|apply decides_seq; [by apply (segment_decides v le q g)|apply IH]]. split.
  - intros [H1 H2]. by exists g.
  - intros (g' & ? & ? & ?). by simplify_eq.
Qed.

(** The whole check. *)
Lemma check_lv_spec v :
  st_lvs s !! lv = Some v -> plain_lv c s v ->
  exists b, check_lv_segments env lv c s = Some (b, s) /\
    (b = true <-> segs_fit s 0 (lv_segments v) (lv_le_count v)).
Proof.
  intros Hv (Hu & Hflags & HF). unfold check_lv_segments. mstep.
  assert (decides (when_ c (check_thin_flags lv v)) s True) as Hthin.
  { destruct c; [|apply decides_pass]. destruct (Hflags eq_refl) as (H1 & H2 & H3 & H4). cbn [when_].
    unfold check_thin_flags. rewrite H1, H2, H3, H4. cbn [when_].
    eapply decides_iff; [|apply decides_seq; [|apply decides_seq; [|apply decides_seq]]; apply decides_pass]. done. }
  destruct (decides_seq _ _ _ _ _ Hthin (segs_decide v (fun le => check_users env lv (lv_users v) ;>
    when_ (negb (le =? lv_le_count v)) inc_error_count) (lv_le_count v) (lv_segments v) 0 HF ltac:(
      intros le; rewrite Hu; cbn [check_users]; eapply decides_iff; [|apply decides_seq; [apply decides_pass|apply decides_when]];
      rewrite negb_false_iff, Z.eqb_eq; tauto)) 0) as (r & Er & Hr).
  rewrite (bind_exec _ _ _ _ _ Er). destruct r as [n|]; eexists; (split; [reflexivity|]).
  - rewrite Z.eqb_eq. tauto.
  - split; [done|tauto].
Qed.

End decide.

(** C28: The consistency check of a linear or striped LV decides what it is meant
    to decide, in a complete VG and in one that is being read: it always returns
    without changing anything, and it returns 1 exactly when the segments begin
    where the one before ends, the last ends at the LV's number of extents, the
    length of each segment is that of its areas together, and each area is a
    PV segment that points back at the segment and the area. *)
Theorem check_lv_segments_decides env lv c s v :
  st_lvs s !! lv = Some v -> plain_lv c s v ->
  exists b, check_lv_segments env lv c s = Some (b, s) /\
    (b = true <-> segs_fit s 0 (lv_segments v) (lv_le_count v)).
Proof. intros Hv Hp. by apply check_lv_spec. Qed.

Definition no_replicators : check_env := CheckEnv (fun _ => mret true) (fun _ _ => mret 0) (fun _ => mret None).

Lemma ex_on_pvs : Forall (on_pvs ex) [1; 2]%nat.
Proof.
  repeat apply Forall_cons_2; try apply Forall_nil_2; split; eexists;
    (split; [reflexivity|]); (split; [done|]); do 9 (split; [reflexivity|]);
    repeat (apply Forall_cons_2; [right; split; [reflexivity|]; right; eexists; split; [reflexivity|]; intros ? [= <-]; by eexists|]);
    apply Forall_nil_2.
Qed.

Lemma check_lv_segments_decides_witness :
  exists b, check_lv_segments no_replicators 1 true ex = Some (b, ex) /\ (b = true <-> segs_fit ex 0 [1; 2]%nat 12).
Proof.
  apply (check_lv_segments_decides no_replicators 1 true ex ex_lv eq_refl).
  split; [reflexivity|]. split; [by intros _|exact ex_on_pvs].
Defined.

(** The LV of the example passes; with one extent too many, or a PV segment that
    points elsewhere, it does not. *)
Lemma check_lv_segments_example :
  let run s := fst <$> check_lv_segments no_replicators 1 true s in
  run ex = Some true /\
  (fst <$> (_ ← modify 1%nat (set_lv_le_count 13); check_lv_segments no_replicators 1 true) ex) = Some false /\
  (fst <$> (_ ← modify 11%nat (set_peg_owner (Some 2%nat) 0); check_lv_segments no_replicators 1 true) ex) = Some false.
Proof. vm_compute. auto. Qed.
