(* ===== verification/Device.v ===== *)
(** * Devices as arrays of bytes

    What the metadata code relies on when it calls dev_read, dev_write and
    dev_read_circular of lib/device/dev-io.c: the contents of the device and the
    ways a write can end.  A write goes through whole blocks, so one that fails
    may leave anything in the blocks it touches, and one that succeeds may still
    have overwritten the rest of them. *)

From S2P Require Export Prelude.

(** A device: its size in bytes, its block size and its contents. *)
Record device := Device { dev_size : Z; dev_block : Z; dev_data : Z -> Z }.

(** How a write ends: it succeeds; it succeeds and the rest of its blocks now
    holds [junk]; it fails and its blocks hold [junk]. *)
Inductive io := IoOk | IoPad (junk : Z -> Z) | IoFail (junk : Z -> Z).

Definition io_ok (o : io) : bool := if o is IoFail _ then false else true.

Definition put (f : Z -> Z) (off : Z) (bs : list Z) : Z -> Z := fun i =>
  if (off <=? i) && (i <? off + Z.of_nat (length bs)) then default 0 (bs !! Z.to_nat (i - off)) else f i.

Definition block_down (b x : Z) : Z := x / b * b.
Definition block_up (b x : Z) : Z := (x + b - 1) / b * b.

(** The contents after the blocks of [len] bytes at [off] were filled with junk. *)
Definition spoil (d : device) (off len : Z) (junk : Z -> Z) : Z -> Z := fun i =>
  if (block_down (dev_block d) off <=? i) && (i <? block_up (dev_block d) (off + len)) then junk i else dev_data d i.

Definition set_data (d : device) (f : Z -> Z) : device := Device (dev_size d) (dev_block d) f.

Definition dev_in_range (d : device) (off len : Z) : bool := (0 <=? off) && (off + len <=? dev_size d).

Definition dev_read (d : device) (off len : Z) : option (list Z) :=
  if dev_in_range d off len then Some (map (dev_data d) (seqZ off len)) else None.

Definition dev_write (d : device) (off : Z) (bs : list Z) (o : io) : bool * device :=
  let len := Z.of_nat (length bs) in
  let f := match o with IoOk => dev_data d | IoPad junk | IoFail junk => spoil d off len junk end in
  if dev_in_range d off len && io_ok o then (true, set_data d (put f off bs)) else (false, set_data d f).

(** [dev_read_circular] *)
Definition dev_read_circular (d : device) (offset len offset2 len2 : Z) : option (list Z) :=
  match dev_read d offset len with
  | None => None
  | Some a => if len2 =? 0 then Some a
              else match dev_read d offset2 len2 with None => None | Some b => Some (a ++ b) end
  end.

(** ** Lemmas *)

Lemma put_in f off bs i :
  off <= i < off + Z.of_nat (length bs) -> put f off bs i = default 0 (bs !! Z.to_nat (i - off)).
Proof.
  intros H. unfold put. by rewrite (proj2 (Z.leb_le _ _)), (proj2 (Z.ltb_lt _ _)) by lia.
Qed.

Lemma put_out f off bs i : ~ off <= i < off + Z.of_nat (length bs) -> put f off bs i = f i.
Proof.
  intros H. unfold put. destruct (Z.leb_spec off i), (Z.ltb_spec i (off + Z.of_nat (length bs))); done || lia.
Qed.

(** Two devices agree on the bytes from [off] on. *)
Definition agree (d d' : device) (off len : Z) : Prop :=
  dev_size d = dev_size d' /\ dev_block d = dev_block d' /\ forall i, off <= i < off + len -> dev_data d i = dev_data d' i.

Lemma dev_read_agree d d' off len : agree d d' off len -> dev_read d off len = dev_read d' off len.
Proof.
  intros (Hs & _ & Hd). unfold dev_read, dev_in_range. rewrite Hs. case_if; [|done]. f_equal.
  apply map_ext_in. intros i Hi%list_elem_of_In%elem_of_seqZ. apply Hd. lia.
Qed.

Lemma agree_refl d off len : agree d d off len.
Proof. done. Qed.

Lemma agree_trans d1 d2 d3 off len : agree d1 d2 off len -> agree d2 d3 off len -> agree d1 d3 off len.
Proof. intros (H1 & H2 & H3) (H4 & H5 & H6). split; [congruence|]. split; [congruence|]. intros i Hi. rewrite H3, H6; done. Qed.

Lemma agree_sub d d' off len off' len' :
  agree d d' off len -> off <= off' -> off' + len' <= off + len -> agree d d' off' len'.
Proof. intros (H1 & H2 & H3) H4 H5. split; [done|]. split; [done|]. intros i Hi. apply H3. lia. Qed.

Lemma block_down_le b x : 0 < b -> block_down b x <= x < block_down b x + b.
Proof. intros Hb. unfold block_down. pose proof (Z.div_mod x b ltac:(lia)). pose proof (Z.mod_pos_bound x b Hb). lia. Qed.

Lemma block_up_ge b x : 0 < b -> x <= block_up b x < x + b.
Proof.
  intros Hb. unfold block_up. pose proof (Z.div_mod (x + b - 1) b ltac:(lia)).
  pose proof (Z.mod_pos_bound (x + b - 1) b Hb). lia.
Qed.

(** A write, however it ends, changes its own blocks only. *)
Lemma dev_write_frame d off bs o off' len' :
  0 < dev_block d ->
  off' + len' <= block_down (dev_block d) off \/ block_up (dev_block d) (off + Z.of_nat (length bs)) <= off' ->
  agree d (dev_write d off bs o).2 off' len'.
Proof.
  intros Hb H. set (b := dev_block d) in *. set (e := off + Z.of_nat (length bs)) in *.
  pose proof (block_down_le b off Hb). pose proof (block_up_ge b e Hb).
  assert (forall junk i, off' <= i < off' + len' -> spoil d off (Z.of_nat (length bs)) junk i = dev_data d i) as Hs.
  { intros junk i Hi. unfold spoil. fold b e.
    destruct (Z.leb_spec (block_down b off) i), (Z.ltb_spec i (block_up b e)); done || lia. }
  assert (forall f i, off' <= i < off' + len' -> put f off bs i = f i) as Hp by (intros f i Hi; apply put_out; lia).
  unfold dev_write. destruct (_ && _); (split; [done|]); (split; [done|]); intros i Hi; cbn [snd set_data dev_data];
    rewrite ?Hp by done; destruct o; rewrite ?Hs by done; done.
Qed.

(** A write that stays in its sectors: the blocks of the device are sectors, or the write
    succeeds and the rest of its blocks is as before. *)
Definition confined (d : device) (o : io) : Prop := dev_block d = 512 \/ o = IoOk.

Lemma dev_write_sectors d off bs o off' len' :
  confined d o -> off' + len' <= block_down 512 off \/ block_up 512 (off + Z.of_nat (length bs)) <= off' ->
  agree d (dev_write d off bs o).2 off' len'.
Proof.
  intros [Hb| ->] H; [apply dev_write_frame; rewrite Hb; [lia|done]|].
  pose proof (block_down_le 512 off ltac:(lia)). pose proof (block_up_ge 512 (off + Z.of_nat (length bs)) ltac:(lia)).
  unfold dev_write. destruct (_ && _); [|done]. split; [done|]. split; [done|]. intros i Hi. cbn [snd set_data dev_data].
  by rewrite put_out by lia.
Qed.

Lemma confined_block d d' o : dev_block d = dev_block d' -> confined d o -> confined d' o.
Proof. unfold confined. by intros ->. Qed.

Lemma dev_write_size d off bs o : dev_size (dev_write d off bs o).2 = dev_size d.
Proof. unfold dev_write. by destruct (_ && _). Qed.

Lemma dev_write_block d off bs o : dev_block (dev_write d off bs o).2 = dev_block d.
Proof. unfold dev_write. by destruct (_ && _). Qed.

(** A write that is reported as successful put its bytes in place. *)
Lemma dev_write_in_place d off bs o k x :
  0 <= off -> off + Z.of_nat (length bs) <= dev_size d -> io_ok o = true -> bs !! k = Some x ->
  (dev_write d off bs o).1 = true /\ dev_data (dev_write d off bs o).2 (off + Z.of_nat k) = x.
Proof.
  intros H1 H2 Ho Hk. unfold dev_write, dev_in_range. pose proof (lookup_lt_Some _ _ _ Hk).
  rewrite (proj2 (Z.leb_le _ _)), (proj2 (Z.leb_le (off + _) _)), Ho by lia. split; [done|].
  cbn [andb snd set_data dev_data]. rewrite put_in by lia.
  replace (Z.to_nat (off + Z.of_nat k - off)) with k by lia. by rewrite Hk.
Qed.

Lemma dev_write_done d off bs o :
  0 <= off -> off + Z.of_nat (length bs) <= dev_size d -> io_ok o = true ->
  exists f, dev_write d off bs o = (true, set_data d (put f off bs)).
Proof.
  intros H1 H2 Ho. unfold dev_write, dev_in_range. rewrite (proj2 (Z.leb_le _ _)), (proj2 (Z.leb_le (off + _) _)), Ho by lia.
  by eexists.
Qed.

Lemma dev_write_ok d off bs :
  0 <= off -> off + Z.of_nat (length bs) <= dev_size d ->
  dev_write d off bs IoOk = (true, set_data d (put (dev_data d) off bs)).
Proof.
  intros H1 H2. unfold dev_write, dev_in_range.
  by rewrite (proj2 (Z.leb_le _ _)), (proj2 (Z.leb_le (off + _) _)) by lia.
Qed.

Lemma seqZ_lookups {A} (f : Z -> A) off (bs : list A) :
  (forall k, (k < length bs)%nat -> bs !! k = Some (f (off + Z.of_nat k))) ->
  map f (seqZ off (Z.of_nat (length bs))) = bs.
Proof.
  revert off. induction bs as [|b bs IH]; intros off H; [by rewrite seqZ_nil by (cbn; lia)|].
  cbn [length]. rewrite seqZ_cons by lia. cbn [map]. f_equal.
  - specialize (H 0%nat ltac:(cbn; lia)). rewrite Z.add_0_r in H. by injection H.
  - replace (Z.pred (Z.of_nat (S (length bs)))) with (Z.of_nat (length bs)) by lia. apply IH. intros k Hk.
    specialize (H (S k) ltac:(cbn; lia)). change ((b :: bs) !! S k) with (bs !! k) in H. rewrite H. do 2 f_equal. lia.
Qed.

Lemma dev_read_put sz b f off bs :
  0 <= off -> off + Z.of_nat (length bs) <= sz ->
  dev_read (Device sz b (put f off bs)) off (Z.of_nat (length bs)) = Some bs.
Proof.
  intros H1 H2. unfold dev_read, dev_in_range. cbn [dev_size dev_data].
  rewrite (proj2 (Z.leb_le _ _)), (proj2 (Z.leb_le (off + _) _)) by lia. cbn. f_equal.
  apply seqZ_lookups. intros k Hk. rewrite put_in by lia.
  replace (Z.to_nat (off + Z.of_nat k - off)) with k by lia.
  destruct (lookup_lt_is_Some_2 bs k Hk) as [x Hx]. by rewrite Hx.
Qed.

Lemma dev_read_length d off len bs : 0 <= len -> dev_read d off len = Some bs -> Z.of_nat (length bs) = len.
Proof.
  unfold dev_read. intros Hl. destruct (dev_in_range _ _ _); [|done]. intros [= <-].
  rewrite length_map, length_seqZ. lia.
Qed.

Lemma lookup_map {A B} (f : A -> B) (l : list A) (k : nat) : map f l !! k = f <$> l !! k.
Proof. exact (list_lookup_fmap f l k). Qed.

