(* ===== verification/DevIo.v ===== *)
(** * Device I/O: lib/device/dev-io.c

    Reads and writes of byte ranges through whole blocks.  The system calls are
    an argument: the list of what each read or write of the loop of [_io]
    returns.  The device answers short at its end.  The properties show that
    [dev_read] and [dev_write] keep what Device.v promises to the metadata
    code. *)

From S2P Require Import Prelude Device.

(** ** The code *)

(** What a read or write returns: EINTR or EAGAIN; another error, which may
    leave anything in the range of a write; or up to [n] bytes. *)
Inductive sysret := Retry | SysErr (junk : Z -> Z) | Moved (n : Z).

(** [struct device], with the contents of the device it stands for. *)
Record sdev := SDev {
  sd_dev : device;
  sd_fd : Z;
  sd_open_count : Z;
  sd_error_count : Z;
  sd_max_error_count : Z;
  sd_block_size : Z;
  sd_regular : bool;
  sd_accessed_w : bool;
  sd_end : Z }.

Definition set_dev (d : device) (s : sdev) : sdev :=
  SDev d (sd_fd s) (sd_open_count s) (sd_error_count s) (sd_max_error_count s) (sd_block_size s)
    (sd_regular s) (sd_accessed_w s) (sd_end s).

Definition set_error_count (n : Z) (s : sdev) : sdev :=
  SDev (sd_dev s) (sd_fd s) (sd_open_count s) n (sd_max_error_count s) (sd_block_size s)
    (sd_regular s) (sd_accessed_w s) (sd_end s).

Definition set_block_size (n : Z) (s : sdev) : sdev :=
  SDev (sd_dev s) (sd_fd s) (sd_open_count s) (sd_error_count s) (sd_max_error_count s) n
    (sd_regular s) (sd_accessed_w s) (sd_end s).

Definition set_accessed_w (s : sdev) : sdev :=
  SDev (sd_dev s) (sd_fd s) (sd_open_count s) (sd_error_count s) (sd_max_error_count s) (sd_block_size s)
    (sd_regular s) true (sd_end s).

Definition set_end (n : Z) (s : sdev) : sdev :=
  SDev (sd_dev s) (sd_fd s) (sd_open_count s) (sd_error_count s) (sd_max_error_count s) (sd_block_size s)
    (sd_regular s) (sd_accessed_w s) n.

(** The rest of the world: test mode, whether lseek and malloc succeed, what the
    BLKBSZGET ioctl says, the page size, and whether the caller's buffer is
    aligned to a block. *)
Record io_env := IoEnv {
  ie_test_mode : bool;
  ie_lseek_ok : bool;
  ie_malloc_ok : bool;
  ie_bszget : option Z;
  ie_page_size : Z;
  ie_aligned : bool }.

Definition SSIZE_MAX : Z := 2 ^ 63 - 1.

(** The loop of [_io]: [rem] is the rest of the buffer and [done] the part that
    was transferred.  [None]: the list of results was too short. *)
Fixpoint io_loop (should_write : bool) (rs : list sysret) (d : device) (pos : Z) (done rem : list Z) :
    option (list Z * list Z * device * list sysret) :=
  if bool_decide (rem = []) then Some (done, rem, d, rs) else
  match rs with
  | [] => None
  | Retry :: rs => io_loop should_write rs d pos done rem
  | SysErr junk :: rs =>
      let d := if should_write
               then set_data d (fun i => if (pos <=? i) && (i <? pos + Z.of_nat (length rem)) then junk i else dev_data d i)
               else d in
      Some (done, rem, d, rs)
  | Moved n :: rs =>
      let c := Z.min n (Z.min (Z.of_nat (length rem)) (dev_size d - pos)) in
      if c <=? 0 then Some (done, rem, d, rs) else
      let chunk := if should_write then take (Z.to_nat c) rem else map (dev_data d) (seqZ pos c) in
      let d := if should_write then set_data d (put (dev_data d) pos chunk) else d in
      io_loop should_write rs d (pos + c) (done ++ chunk) (drop (Z.to_nat c) rem)
  end.

(** The result, the buffer, the device and the remaining system results. *)
Abbreviation io_result := (option (bool * list Z * sdev * list sysret)).

Definition io (e : io_env) (s : sdev) (start : Z) (buffer : list Z) (should_write : bool) (rs : list sysret) : io_result :=
  if sd_fd s <? 0 then Some (false, buffer, s, rs) else
  if should_write && ie_test_mode e then Some (true, buffer, s, rs) else
  if SSIZE_MAX <? Z.of_nat (length buffer) then Some (false, buffer, s, rs) else
  if negb (ie_lseek_ok e) then Some (false, buffer, s, rs) else
  '(done, rem, d, rs) ← io_loop should_write rs (sd_dev s) start [] buffer;
  Some (bool_decide (rem = []), done ++ rem, set_dev d s, rs).

Definition get_block_size (e : io_env) (s : sdev) : option (Z * sdev) :=
  if sd_block_size s =? -1 then
    match ie_bszget e with Some b => Some (wrap32 b, set_block_size b s) | None => None end
  else Some (wrap32 (sd_block_size s), s).

Definition widen_region (block_size start size : Z) : Z * Z :=
  let mask := wrap32 (block_size - 1) in
  let delta := Z.land start mask in
  let '(start, size) := if delta =? 0 then (start, size) else (wrap64 (start - delta), wrap64 (size + delta)) in
  let delta := Z.land (wrap64 (start + size)) mask in
  (start, if delta =? 0 then size else wrap64 (size + wrap64 (block_size - delta))).

(** The part of [_aligned_io] that goes through a bounce buffer. *)
Definition bounce_io (e : io_env) (s : sdev) (wstart wsize start : Z) (buffer : list Z) (should_write : bool)
    (rs : list sysret) : io_result :=
  if negb (ie_malloc_ok e) then Some (false, buffer, s, rs) else
  '(ok, bounce, s, rs) ← io e s wstart (replicate (Z.to_nat wsize) 0) false rs;
  if negb ok && negb should_write then Some (false, buffer, s, rs) else
  let bounce := if ok then bounce else replicate (Z.to_nat wsize) 10 in
  let delta := Z.to_nat (start - wstart) in
  if should_write then
    let bounce := take delta bounce ++ buffer ++ drop (delta + length buffer) bounce in
    '(r, _, s, rs) ← io e s wstart bounce true rs;
    Some (r, buffer, s, rs)
  else Some (true, take (length buffer) (drop delta bounce), s, rs).

Definition aligned_io (e : io_env) (s : sdev) (start : Z) (buffer : list Z) (should_write : bool) (rs : list sysret) :
    io_result :=
  match (if sd_regular s then Some (0, s) else get_block_size e s) with
  | None => Some (false, buffer, s, rs)
  | Some (block_size, s) =>
      let block_size := if block_size =? 0 then ie_page_size e else block_size in
      let size := Z.of_nat (length buffer) in
      let '(wstart, wsize) := widen_region block_size start size in
      if (wstart =? start) && (wsize =? size) && ie_aligned e then io e s start buffer should_write rs
      else bounce_io e s wstart wsize start buffer should_write rs
  end.

Definition NO_DEV_ERROR_COUNT_LIMIT : Z := 0.

Definition dev_is_valid (s : sdev) : bool :=
  (sd_max_error_count s =? NO_DEV_ERROR_COUNT_LIMIT) || (sd_error_count s <? sd_max_error_count s).

Definition dev_inc_error_count (s : sdev) : sdev := set_error_count (sd_error_count s + 1) s.

Definition dev_read (e : io_env) (s : sdev) (offset : Z) (buffer : list Z) (rs : list sysret) : io_result :=
  if sd_open_count s =? 0 then Some (false, buffer, s, rs) else
  if negb (dev_is_valid s) then Some (false, buffer, s, rs) else
  '(ret, buffer, s, rs) ← aligned_io e s offset buffer false rs;
  Some (ret, buffer, if (ret : bool) then s else dev_inc_error_count s, rs).

Definition dev_write (e : io_env) (s : sdev) (offset : Z) (buffer : list Z) (rs : list sysret) : io_result :=
  if sd_open_count s =? 0 then Some (false, buffer, s, rs) else
  if negb (dev_is_valid s) then Some (false, buffer, s, rs) else
  '(ret, buffer, s, rs) ← aligned_io e (set_accessed_w s) offset buffer true rs;
  Some (ret, buffer, if (ret : bool) then s else dev_inc_error_count s, rs).

Definition dev_append (e : io_env) (s : sdev) (buffer : list Z) (rs : list sysret) : io_result :=
  if sd_open_count s =? 0 then Some (false, buffer, s, rs) else
  '(r, buffer, s, rs) ← dev_write e s (sd_end s) buffer rs;
  Some (r, buffer, set_end (wrap64 (sd_end s + Z.of_nat (length buffer))) s, rs).

(** The loop of [dev_set], on chunks of 4096 bytes; the number of bytes left. *)
Fixpoint dev_set_loop (e : io_env) (s : sdev) (offset len value : Z) (rs : list sysret) (fuel : nat) :
    option (Z * sdev * list sysret) :=
  match fuel with
  | O => None
  | S fuel =>
      let n := if 4096 <? len then 4096 else len in
      '(ok, _, s, rs) ← dev_write e s offset (replicate (Z.to_nat n) value) rs;
      if negb ok then Some (len, s, rs) else
      let len := len - n in
      if len =? 0 then Some (len, s, rs) else dev_set_loop e s (wrap64 (offset + n)) len value rs fuel
  end.

(** [dev_set] of an open device. *)
Definition dev_set (e : io_env) (s : sdev) (offset len value : Z) (rs : list sysret) : option (bool * sdev * list sysret) :=
  '(rest, s, rs) ← dev_set_loop e s offset len value rs (S (Z.to_nat len));
  Some (rest =? 0, set_accessed_w s, rs).

(** ** The transfer loop *)

(** Devices with the same contents. *)
Definition dev_eq (d d' : device) : Prop :=
  dev_size d = dev_size d' /\ dev_block d = dev_block d' /\ forall i, dev_data d i = dev_data d' i.

#[export] Instance dev_eq_equivalence : Equivalence dev_eq.
Proof.
  split.
  - done.
  - intros d d' (H1 & H2 & H3). by split_and!.
  - intros d d' d'' (H1 & H2 & H3) (H4 & H5 & H6). split_and!; [congruence..|]. intros i. by rewrite H3.
Qed.

(** Only the bytes from [lo] to [hi] differ. *)
Definition within (d d' : device) (lo hi : Z) : Prop :=
  dev_size d' = dev_size d /\ dev_block d' = dev_block d /\
  forall i, ~ lo <= i < hi -> dev_data d' i = dev_data d i.

(** The number of system calls that do not have to be repeated, and those that
    move something. *)
Fixpoint answers (rs : list sysret) : nat :=
  match rs with [] => 0 | Retry :: rs => answers rs | _ :: rs => S (answers rs) end.

Definition good (r : sysret) : Prop := match r with Retry => True | SysErr _ => False | Moved n => 0 < n end.

Lemma answers_cons r rs : answers (r :: rs) = if r is Retry then answers rs else S (answers rs).
Proof. by destruct r. Qed.

(** Enough answers end the loop. *)
Lemma io_loop_ends wr rs d pos got rem :
  (length rem <= answers rs)%nat -> exists got' rem' d' rs',
    io_loop wr rs d pos got rem = Some (got', rem', d', rs') /\ (answers rs <= length rem + answers rs')%nat.
Proof.
  revert d pos got rem. induction rs as [|r rs IH]; intros d pos got rem Hlen.
  - destruct rem; [|cbn in Hlen; lia]. by eexists _, _, _, _.
  - cbn [io_loop]. case_bool_decide as He; [eexists _, _, _, _; split; [done|lia]|].
    assert (0 < length rem)%nat by (destruct rem; [done|cbn; lia]).
    rewrite answers_cons in *. destruct r as [|junk|n].
    + destruct (IH d pos got rem Hlen) as (a & b & c & e & E & Hl). by eexists _, _, _, _.
    + eexists _, _, _, _. split; [done|lia].
    + set (c := Z.min _ _). destruct (Z.leb_spec c 0); [eexists _, _, _, _; split; [done|lia]|].
      edestruct (IH) as (a & b & f & e & E & Hl); [|rewrite E; eexists _, _, _, _; split; [done|]];
        rewrite length_drop in *; lia.
Qed.

(** When all of them move something and the range is on the device, it ends well. *)
Lemma io_loop_good wr rs d pos got rem :
  Forall good rs -> (length rem <= answers rs)%nat -> pos + Z.of_nat (length rem) <= dev_size d ->
  exists got' d' rs', io_loop wr rs d pos got rem = Some (got', [], d', rs') /\ Forall good rs' /\
    (answers rs <= length rem + answers rs')%nat.
Proof.
  intros Hg. revert d pos got rem. induction Hg as [|r rs Hr Hg IH]; intros d pos got rem Hlen Hfit.
  - destruct rem; [|cbn in Hlen; lia]. by eexists _, _, _.
  - cbn [io_loop]. case_bool_decide as He; [subst rem; eexists _, _, _; split; [done|]; split; [by constructor|lia]|].
    assert (0 < length rem)%nat by (destruct rem; [done|cbn; lia]).
    rewrite answers_cons in *. destruct r as [|junk|n]; [|done|].
    + destruct (IH d pos got rem Hlen Hfit) as (a & c & e & E & Hl). by eexists _, _, _.
    + cbn in Hr. set (c := Z.min _ _). destruct (Z.leb_spec c 0); [lia|].
      edestruct (IH) as (a & f & e & E & Hgr & Hl); [| |rewrite E; eexists _, _, _; split; [done|split; [done|]]];
        rewrite ?length_drop in *; [lia| |lia]. destruct wr; cbn [set_data dev_size]; lia.
Qed.

(** What a read transfers. *)
Lemma io_loop_read rs d pos got rem got' rem' d' rs' :
  io_loop false rs d pos got rem = Some (got', rem', d', rs') ->
  d' = d /\ (rem' = [] -> got' = got ++ map (dev_data d) (seqZ pos (Z.of_nat (length rem))) /\
             (rem <> [] -> pos + Z.of_nat (length rem) <= dev_size d)).
Proof.
  revert pos got rem. induction rs as [|r rs IH]; intros pos got rem; cbn [io_loop];
    (case_bool_decide as He; [intros [= <- <- <- <-]; split; [done|]; intros _; subst rem;
       rewrite seqZ_nil by done; cbn; by rewrite app_nil_r|]); [done|].
  destruct r as [|junk|n]; [apply IH|intros [= <- <- <- <-]; done|].
  set (c := Z.min _ _). destruct (Z.leb_spec c 0); [intros [= <- <- <- <-]; done|].
  intros Hl. apply IH in Hl as [-> Hl]. split; [done|]. intros Hr. destruct (Hl Hr) as [-> Hd].
  rewrite length_drop in *. split.
  - rewrite <- app_assoc. f_equal. rewrite <- map_app. f_equal.
    replace (Z.of_nat (length rem)) with (c + Z.of_nat (length rem - Z.to_nat c)) by lia.
    by rewrite seqZ_app by lia.
  - intros _. destruct (decide (drop (Z.to_nat c) rem = [])) as [E|E]; [|specialize (Hd E); lia].
    apply (f_equal length) in E. rewrite length_drop in E. cbn in E. lia.
Qed.

(** What a write leaves. *)
Lemma io_loop_write rs d pos got rem got' rem' d' rs' :
  io_loop true rs d pos got rem = Some (got', rem', d', rs') ->
  within d d' pos (pos + Z.of_nat (length rem)) /\
  (rem' = [] -> (forall k x, rem !! k = Some x -> dev_data d' (pos + Z.of_nat k) = x) /\
                (rem <> [] -> pos + Z.of_nat (length rem) <= dev_size d)).
Proof.
  revert d pos got rem. induction rs as [|r rs IH]; intros d pos got rem; cbn [io_loop];
    (case_bool_decide as He; [intros [= <- <- <- <-]; subst rem; done|]); [done|].
  destruct r as [|junk|n]; [apply IH| |].
  - intros [= <- <- <- <-]. split; [|done]. split; [done|]. split; [done|]. intros i Hi. cbn [set_data dev_data].
    destruct (Z.leb_spec pos i), (Z.ltb_spec i (pos + Z.of_nat (length rem))); done || lia.
  - set (c := Z.min _ _). destruct (Z.leb_spec c 0); [intros [= <- <- <- <-]; done|].
    set (n1 := Z.to_nat c). assert (length (take n1 rem) = n1) as Ht by (rewrite length_take; lia).
    intros Hl. apply IH in Hl as [(Hs & Hb & Hw) Hl]. rewrite length_drop in *. cbn [set_data dev_size dev_block dev_data] in *.
    split.
    { split; [done|]. split; [done|]. intros i Hi. rewrite Hw by lia. apply put_out. lia. }
    intros Hr. destruct (Hl Hr) as [Hdata Hd]. split.
    + intros k x Hk. destruct (decide (k < n1)%nat).
      * rewrite Hw, put_in by lia. replace (Z.to_nat (pos + Z.of_nat k - pos)) with k by lia.
        by rewrite lookup_take_lt, Hk.
      * replace (pos + Z.of_nat k) with (pos + c + Z.of_nat (k - n1)) by lia. apply Hdata.
        rewrite lookup_drop. by replace (n1 + (k - n1))%nat with k by lia.
    + intros _. destruct (decide (drop n1 rem = [])) as [E|E]; [|specialize (Hd E); lia].
      apply (f_equal length) in E. rewrite length_drop in E. cbn in E. lia.
Qed.

(** ** One transfer *)

Lemma set_dev_same s : set_dev (sd_dev s) s = s.
Proof. by destruct s. Qed.

Lemma within_refl d lo hi : within d d lo hi.
Proof. done. Qed.

Lemma io_read_spec e s start buf rs r buf' s' rs' :
  io e s start buf false rs = Some (r, buf', s', rs') ->
  s' = s /\ (r = true -> buf' = map (dev_data (sd_dev s)) (seqZ start (Z.of_nat (length buf))) /\
                        (buf <> [] -> start + Z.of_nat (length buf) <= dev_size (sd_dev s))).
Proof.
  unfold io. cbn [andb]. destruct (_ <? _); [by intros [= <- <- <- <-]|]. destruct (_ <? _); [by intros [= <- <- <- <-]|].
  destruct (negb _); [by intros [= <- <- <- <-]|].
  destruct (io_loop _ _ _ _ _ _) as [[[[got rem] d] rs1]|] eqn:E; [|done]. apply io_loop_read in E as [-> Hd].
  cbn. intros [= <- <- <- <-]. split; [apply set_dev_same|]. intros Hr%bool_decide_eq_true_1. subst rem.
  destruct (Hd eq_refl) as [-> Hfit]. by rewrite app_nil_r.
Qed.

Lemma io_write_spec e s start buf rs r buf' s' rs' :
  ie_test_mode e = false -> io e s start buf true rs = Some (r, buf', s', rs') ->
  s' = set_dev (sd_dev s') s /\ within (sd_dev s) (sd_dev s') start (start + Z.of_nat (length buf)) /\
  (r = true -> (forall k x, buf !! k = Some x -> dev_data (sd_dev s') (start + Z.of_nat k) = x) /\
               (buf <> [] -> start + Z.of_nat (length buf) <= dev_size (sd_dev s))).
Proof.
  intros Ht. unfold io. rewrite Ht. cbn [andb].
  destruct (_ <? _); [intros [= <- <- <- <-]; by rewrite set_dev_same|].
  destruct (_ <? _); [intros [= <- <- <- <-]; by rewrite set_dev_same|].
  destruct (negb _); [intros [= <- <- <- <-]; by rewrite set_dev_same|].
  destruct (io_loop _ _ _ _ _ _) as [[[[got rem] d] rs1]|] eqn:E; [|done]. apply io_loop_write in E as [Hw Hd].
  cbn. intros [= <- <- <- <-]. split; [done|]. split; [done|]. intros Hr%bool_decide_eq_true_1. by apply Hd.
Qed.

Lemma io_returns e s start buf wr rs :
  (length buf <= answers rs)%nat -> exists r buf' s' rs',
    io e s start buf wr rs = Some (r, buf', s', rs') /\ (answers rs <= length buf + answers rs')%nat.
Proof.
  intros Hl. unfold io. destruct (_ <? _); [eexists _, _, _, _; split; [done|lia]|].
  destruct (wr && _); [eexists _, _, _, _; split; [done|lia]|]. destruct (_ <? _); [eexists _, _, _, _; split; [done|lia]|].
  destruct (negb _); [eexists _, _, _, _; split; [done|lia]|].
  destruct (io_loop_ends wr rs (sd_dev s) start [] buf Hl) as (a & b & c & rs' & -> & Ha). cbn. by eexists _, _, _, _.
Qed.

Lemma io_good e s start buf wr rs :
  0 <= sd_fd s -> ie_test_mode e = false -> ie_lseek_ok e = true -> Z.of_nat (length buf) <= SSIZE_MAX ->
  Forall good rs -> (length buf <= answers rs)%nat -> start + Z.of_nat (length buf) <= dev_size (sd_dev s) ->
  exists buf' s' rs', io e s start buf wr rs = Some (true, buf', s', rs') /\ Forall good rs' /\
    (answers rs <= length buf + answers rs')%nat.
Proof.
  intros Hf Ht Hs Hm Hg Hl Hfit. unfold io. rewrite (proj2 (Z.ltb_ge _ _)), Ht, andb_false_r, (proj2 (Z.ltb_ge _ _)), Hs by done.
  destruct (io_loop_good wr rs (sd_dev s) start [] buf Hg Hl Hfit) as (a & c & rs' & -> & Hg' & Ha).
  cbn. by eexists _, _, _.
Qed.

(** ** Blocks *)

Lemma widen_region_spec k start size :
  0 <= k < 32 -> 0 <= start -> 0 <= size -> start + size + 2 ^ k < 2 ^ 64 ->
  widen_region (2 ^ k) start size =
    (block_down (2 ^ k) start, block_up (2 ^ k) (start + size) - block_down (2 ^ k) start).
Proof.
  intros Hk Hs Hz Hlt. set (b := 2 ^ k) in *.
  assert (0 < b <= 2 ^ 31) as Hb by (unfold b; split; [lia|apply Z.pow_le_mono_r; lia]).
  assert (forall x, Z.land x (wrap32 (b - 1)) = x mod b) as Hland.
  { intros x. rewrite wrap32_small by lia. unfold b.
    replace (2 ^ k - 1) with (Z.ones k) by (rewrite Z.ones_equiv; lia). apply Z.land_ones. lia. }
  unfold widen_region. rewrite Hland. pose proof (Z.mod_pos_bound start b ltac:(lia)) as Hm.
  pose proof (Z.div_mod start b ltac:(lia)) as Hdm. pose proof (Z.mod_le start b Hs ltac:(lia)) as Hle.
  assert ((if start mod b =? 0 then (start, size) else (wrap64 (start - start mod b), wrap64 (size + start mod b))) =
    (block_down b start, size + start mod b)) as ->.
  { unfold block_down. destruct (Z.eqb_spec (start mod b) 0); [f_equal; lia|]. rewrite !wrap64_small by lia. f_equal. lia. }
  assert (block_down b start + (size + start mod b) = start + size) as Hsum by (unfold block_down; lia).
  rewrite Hsum, Hland, (wrap64_small (start + size)) by lia. f_equal.
  pose proof (Z.mod_pos_bound (start + size) b ltac:(lia)) as Hm2.
  pose proof (Z.div_mod (start + size) b ltac:(lia)) as Hdm2. unfold block_up.
  destruct (Z.eqb_spec ((start + size) mod b) 0) as [E|E].
  - replace ((start + size + b - 1) / b) with ((start + size) / b); [lia|].
    apply (Z.div_unique_pos _ _ _ (b - 1)); lia.
  - rewrite (wrap64_small (b - _)), wrap64_small by lia.
    replace ((start + size + b - 1) / b) with ((start + size) / b + 1); [lia|].
    apply (Z.div_unique_pos _ _ _ ((start + size) mod b - 1)); lia.
Qed.

(** The block size [_aligned_io] works with, and the device after it asked. *)
Definition block_of (e : io_env) (s : sdev) : option (Z * sdev) :=
  match (if sd_regular s then Some (0, s) else get_block_size e s) with
  | Some (b, s) => Some (if b =? 0 then ie_page_size e else b, s)
  | None => None
  end.

(** A device in blocks of 2^k bytes, which the block size found agrees with. *)
Record sane (e : io_env) (s : sdev) (k : Z) : Prop := {
  sn_k : 0 <= k < 32;
  sn_block : dev_block (sd_dev s) = 2 ^ k;
  sn_whole : dev_size (sd_dev s) mod 2 ^ k = 0;
  sn_size : 0 <= dev_size (sd_dev s) < 2 ^ 62;
  sn_found : forall b s', block_of e s = Some (b, s') -> b = 2 ^ k }.

Lemma block_of_dev e s b s' :
  block_of e s = Some (b, s') ->
  sd_dev s' = sd_dev s /\ sd_fd s' = sd_fd s.
Proof.
  unfold block_of, get_block_size. destruct (sd_regular s); [by intros [= <- <-]|].
  destruct (_ =? -1); [destruct (ie_bszget e); [|done]|]; by intros [= <- <-].
Qed.

(** The region and its blocks. *)
Lemma region_blocks k off len :
  0 <= k -> 0 <= off -> 0 <= len ->
  0 <= block_down (2 ^ k) off <= off /\ off + len <= block_up (2 ^ k) (off + len) < off + len + 2 ^ k.
Proof.
  intros Hk Ho Hl. assert (0 < 2 ^ k) as Hb by lia.
  pose proof (block_down_le (2 ^ k) off Hb). pose proof (block_up_ge (2 ^ k) (off + len) Hb).
  assert (0 <= block_down (2 ^ k) off) by (unfold block_down; apply Z.mul_nonneg_nonneg; [apply Z.div_pos; lia|lia]). lia.
Qed.

Lemma block_up_le b x y : 0 < b -> y mod b = 0 -> x <= y -> block_up b x <= y.
Proof.
  intros Hb Hy Hx. unfold block_up. pose proof (Z.div_mod y b ltac:(lia)) as E. rewrite Hy, Z.add_0_r in E.
  transitivity (y / b * b); [|lia]. apply Z.mul_le_mono_nonneg_r; [lia|].
  apply Z.lt_succ_r. apply Z.div_lt_upper_bound; lia.
Qed.

(** ** What the outcome of a write is in terms of Device.v *)

Lemma outcome_fail d d' off bs :
  within d d' (block_down (dev_block d) off) (block_up (dev_block d) (off + Z.of_nat (length bs))) ->
  exists o d'', Device.dev_write d off bs o = (false, d'') /\ dev_eq d' d''.
Proof.
  intros (H1 & H2 & H3). exists (IoFail (dev_data d')). eexists. unfold Device.dev_write. cbn [io_ok]. rewrite andb_false_r.
  split; [done|]. split; [done|]. split; [done|]. intros i. cbn [set_data dev_data]. unfold spoil.
  destruct (Z.leb_spec (block_down (dev_block d) off) i), (Z.ltb_spec i (block_up (dev_block d) (off + Z.of_nat (length bs))));
    cbn [andb]; try done; apply H3; lia.
Qed.

Lemma put_same f g off bs i :
  (forall k x, bs !! k = Some x -> g (off + Z.of_nat k) = x) ->
  (~ off <= i < off + Z.of_nat (length bs) -> g i = f i) -> g i = put f off bs i.
Proof.
  intros Hin Hout. destruct (decide (off <= i < off + Z.of_nat (length bs))) as [Hi|Hi].
  - rewrite put_in by done. destruct (lookup_lt_is_Some_2 bs (Z.to_nat (i - off))) as [x Hx]; [lia|].
    rewrite Hx. cbn. rewrite <- (Hin _ _ Hx). f_equal. lia.
  - rewrite put_out by done. by apply Hout.
Qed.

Lemma outcome_ok d d' off bs :
  0 < dev_block d -> 0 <= off -> off + Z.of_nat (length bs) <= dev_size d ->
  within d d' (block_down (dev_block d) off) (block_up (dev_block d) (off + Z.of_nat (length bs))) ->
  (forall k x, bs !! k = Some x -> dev_data d' (off + Z.of_nat k) = x) ->
  exists o d'', Device.dev_write d off bs o = (true, d'') /\ dev_eq d' d''.
Proof.
  intros Hb Ho Hfit (H1 & H2 & H3) Hin. exists (IoPad (dev_data d')). eexists. unfold Device.dev_write, dev_in_range.
  rewrite (proj2 (Z.leb_le _ _)), (proj2 (Z.leb_le (off + _) _)) by lia. split; [done|]. split; [done|]. split; [done|].
  intros i. cbn [set_data dev_data]. apply put_same; [done|]. intros Hi. unfold spoil.
  destruct (Z.leb_spec (block_down (dev_block d) off) i), (Z.ltb_spec i (block_up (dev_block d) (off + Z.of_nat (length bs))));
    cbn [andb]; try done; apply H3; lia.
Qed.

Lemma within_mono d d' lo hi lo' hi' : within d d' lo hi -> lo' <= lo -> hi <= hi' -> within d d' lo' hi'.
Proof. intros (H1 & H2 & H3) Hl Hh. split; [done|]. split; [done|]. intros i Hi. apply H3. lia. Qed.

(** ** Aligned transfers *)

Section aligned.
Context (e : io_env) (s : sdev) (k : Z) (start : Z) (buf : list Z).
Hypothesis Hsane : sane e s k.
Hypothesis Hstart : 0 <= start.
Hypothesis Hend : start + Z.of_nat (length buf) <= 2 ^ 62.
Hypothesis Hbuf : buf <> [].
Local Abbreviation len := (Z.of_nat (length buf)).
Local Abbreviation lo := (block_down (2 ^ k) start).
Local Abbreviation hi := (block_up (2 ^ k) (start + len)).

Lemma region_facts :
  0 < 2 ^ k <= 2 ^ 31 /\ 0 <= lo <= start /\ start + len <= hi < start + len + 2 ^ k /\ 0 < len /\
  (start + len <= dev_size (sd_dev s) -> hi <= dev_size (sd_dev s)).
Proof.
  pose proof (sn_k _ _ _ Hsane) as Hk. destruct (region_blocks k start len) as [H1 H2]; [lia..|].
  assert (0 < 2 ^ k <= 2 ^ 31) by (split; [lia|apply Z.pow_le_mono_r; lia]).
  split; [done|]. split; [done|]. split; [done|]. split; [destruct buf; [done|cbn; lia]|].
  intros Hfit. apply block_up_le; [lia|apply Hsane|done].
Qed.

Lemma aligned_io_eq wr rs :
  aligned_io e s start buf wr rs =
    match block_of e s with
    | None => Some (false, buf, s, rs)
    | Some (_, s1) => if (lo =? start) && (hi - lo =? len) && ie_aligned e then io e s1 start buf wr rs
                      else bounce_io e s1 lo (hi - lo) start buf wr rs
    end.
Proof.
  pose proof (sn_found _ _ _ Hsane) as Hf. pose proof region_facts as (? & ? & ? & ? & _). unfold aligned_io. revert Hf. unfold block_of.
  destruct (if sd_regular s then _ else _) as [[b s1]|]; [|done]. intros Hf. rewrite (Hf _ _ eq_refl).
  rewrite widen_region_spec by (apply Hsane || lia). done.
Qed.

(** The bounce buffer: the new bytes in the old blocks. *)
Lemma bounce_lookup bounce i :
  length bounce = Z.to_nat (hi - lo) ->
  let delta := Z.to_nat (start - lo) in
  let bounce' := take delta bounce ++ buf ++ drop (delta + length buf) bounce in
  length bounce' = length bounce /\
  bounce' !! i = if decide (delta <= i < delta + length buf)%nat then buf !! (i - delta)%nat else bounce !! i.
Proof.
  intros Hl delta bounce'. pose proof region_facts as (? & ? & ? & ? & _).
  assert (length (take delta bounce) = delta) as Ht by (rewrite length_take; lia). split.
  { unfold bounce'. rewrite !length_app, Ht, length_drop. lia. }
  unfold bounce'. destruct (decide (delta <= i < delta + length buf)%nat) as [Hi|Hi].
  - rewrite lookup_app_r, Ht, lookup_app_l by lia. done.
  - destruct (decide (i < delta)%nat).
    + rewrite lookup_app_l, lookup_take_lt by lia. done.
    + rewrite lookup_app_r, Ht, lookup_app_r, lookup_drop by lia. f_equal. lia.
Qed.

Lemma aligned_write rs r buf' s' rs' :
  ie_test_mode e = false -> aligned_io e s start buf true rs = Some (r, buf', s', rs') ->
  exists o d, Device.dev_write (sd_dev s) start buf o = (r, d) /\ dev_eq (sd_dev s') d.
Proof.
  intros Ht. rewrite aligned_io_eq. pose proof region_facts as (Hb & Hlo & Hhi & Hlen & Hin).
  assert (forall d', within (sd_dev s) d' lo hi -> exists o d, Device.dev_write (sd_dev s) start buf o = (false, d) /\ dev_eq d' d)
    as Hfail by (intros d' Hw; apply outcome_fail; by rewrite (sn_block _ _ _ Hsane)).
  destruct (block_of e s) as [[b s1]|] eqn:Eb; [|intros [= <- <- <- <-]; by apply Hfail].
  apply block_of_dev in Eb as [Ed _]. destruct (_ && _) eqn:Ea.
  - intros Eio. apply io_write_spec in Eio as (_ & Hw & Hok); [|done]. rewrite Ed in *.
    destruct r; [|apply Hfail; eapply within_mono; [done|lia..]].
    destruct (Hok eq_refl) as [Hdata Hfit]. specialize (Hfit Hbuf).
    apply outcome_ok; rewrite ?(sn_block _ _ _ Hsane); try done; [lia|]. eapply within_mono; [done|lia..].
  - unfold bounce_io. destruct (negb (ie_malloc_ok e)); [intros [= <- <- <- <-]; rewrite Ed; by apply Hfail|].
    destruct (io e s1 lo _ false rs) as [[[[ok bounce] s2] rs2]|] eqn:E1; [|done]. apply io_read_spec in E1 as [-> Hrd].
    cbn [mbind option_bind]. rewrite andb_false_r.
    set (bounce1 := if ok then bounce else _).
    assert (length bounce1 = Z.to_nat (hi - lo)) as Hbl.
    { unfold bounce1. destruct ok; [|by rewrite length_replicate]. destruct (Hrd eq_refl) as [-> _].
      rewrite length_map, length_seqZ, length_replicate. lia. }
    cbv zeta. set (bounce2 := take _ bounce1 ++ _).
    destruct (io e s1 lo bounce2 true rs2) as [[[[r2 b2] s3] rs3]|] eqn:E2; [|done]. cbn [mbind option_bind].
    intros [= <- <- <- <-]. apply io_write_spec in E2 as (_ & Hw & Hok); [|done]. rewrite Ed in *.
    assert (length bounce2 = length bounce1) as Hb2 by apply (bounce_lookup bounce1 0 Hbl).
    assert (lo + Z.of_nat (length bounce2) = hi) as Hend2 by lia. rewrite Hend2 in *.
    destruct r2; [|by apply Hfail]. destruct (Hok eq_refl) as [Hdata Hfit].
    assert (hi <= dev_size (sd_dev s)) by (apply Hfit; intros E; apply (f_equal length) in E; cbn in E; lia).
    apply outcome_ok; rewrite ?(sn_block _ _ _ Hsane); try done; [lia|lia|]. intros i x Hx.
    pose proof (lookup_lt_Some _ _ _ Hx). replace (start + Z.of_nat i) with (lo + Z.of_nat (Z.to_nat (start - lo) + i)) by lia.
    apply Hdata. destruct (bounce_lookup bounce1 (Z.to_nat (start - lo) + i) Hbl) as [_ El]. fold bounce2 in El. rewrite El.
    rewrite decide_True by lia. rewrite <- Hx. f_equal. lia.
Qed.

Lemma aligned_read rs r buf' s' rs' :
  aligned_io e s start buf false rs = Some (r, buf', s', rs') ->
  sd_dev s' = sd_dev s /\ (r = true -> Device.dev_read (sd_dev s) start len = Some buf').
Proof.
  rewrite aligned_io_eq. pose proof region_facts as (Hb & Hlo & Hhi & Hlen & _).
  destruct (block_of e s) as [[b s1]|] eqn:Eb; [|by intros [= <- <- <- <-]].
  apply block_of_dev in Eb as [Ed _].
  assert (forall x, start + len <= dev_size (sd_dev s) -> x = map (dev_data (sd_dev s)) (seqZ start len) ->
    Device.dev_read (sd_dev s) start len = Some x) as Hread.
  { intros x Hfit ->. unfold Device.dev_read, dev_in_range.
    by rewrite (proj2 (Z.leb_le _ _)), (proj2 (Z.leb_le (start + _) _)) by lia. }
  destruct (_ && _) eqn:Ea.
  - intros Eio. apply io_read_spec in Eio as (-> & Hok). rewrite Ed in *. split; [done|]. intros ->.
    destruct (Hok eq_refl) as [-> Hfit]. apply Hread; auto.
  - unfold bounce_io. destruct (negb (ie_malloc_ok e)); [intros [= <- <- <- <-]; by rewrite Ed|].
    destruct (io e s1 lo _ false rs) as [[[[ok bounce] s2] rs2]|] eqn:E1; [|done]. apply io_read_spec in E1 as [-> Hrd].
    cbn [mbind option_bind]. rewrite andb_true_r. destruct ok; cbn [negb]; [|intros [= <- <- <- <-]; by rewrite Ed].
    intros [= <- <- <- <-]. rewrite Ed in *. split; [done|]. intros _.
    destruct (Hrd eq_refl) as [-> Hfit]. rewrite length_replicate in *.
    assert (lo + Z.of_nat (Z.to_nat (hi - lo)) <= dev_size (sd_dev s)) as Hfit'.
    { apply Hfit. intros E. apply (f_equal length) in E. rewrite length_replicate in E. cbn in E. lia. }
    apply Hread; [lia|]. rewrite Z2Nat.id by lia.
    replace (hi - lo) with ((start - lo) + (len + (hi - start - len))) by lia. rewrite seqZ_app, map_app by lia.
    rewrite drop_app_length' by (rewrite length_map, length_seqZ; done).
    rewrite seqZ_app, map_app by lia. rewrite take_app_length' by (rewrite length_map, length_seqZ; lia).
    do 2 f_equal. lia.
Qed.

(** Enough answers end a transfer. *)
Lemma aligned_returns wr rs :
  (2 * Z.to_nat (hi - lo) <= answers rs)%nat -> is_Some (aligned_io e s start buf wr rs).
Proof.
  intros Hl. rewrite aligned_io_eq. pose proof region_facts as (Hb & Hlo & Hhi & Hlen & _).
  destruct (block_of e s) as [[b s1]|]; [|by eexists]. destruct (_ && _).
  { destruct (io_returns e s1 start buf wr rs) as (? & ? & ? & ? & -> & _); [lia|by eexists]. }
  unfold bounce_io. destruct (negb (ie_malloc_ok e)); [by eexists|].
  destruct (io_returns e s1 lo (replicate (Z.to_nat (hi - lo)) 0) false rs) as (ok & bounce & s2 & rs2 & E & Ha);
    [rewrite length_replicate; lia|]. rewrite E. rewrite length_replicate in Ha. apply io_read_spec in E as [-> Hrd].
  cbn [mbind option_bind]. destruct (_ && _); [by eexists|]. destruct wr; [|by eexists]. cbv zeta.
  set (bounce1 := if ok then bounce else _).
  assert (length bounce1 = Z.to_nat (hi - lo)) as Hbl.
  { unfold bounce1. destruct ok; [|by rewrite length_replicate]. destruct (Hrd eq_refl) as [-> _].
    rewrite length_map, length_seqZ, length_replicate. lia. }
  destruct (bounce_lookup bounce1 0 Hbl) as [Hb2 _].
  destruct (io_returns e s1 lo _ true rs2 (ltac:(rewrite Hb2; lia))) as (? & ? & ? & ? & -> & _). by eexists.
Qed.

Hypothesis Hfd : 0 <= sd_fd s.
Hypothesis Htest : ie_test_mode e = false.
Hypothesis Hseek : ie_lseek_ok e = true.
Hypothesis Hmalloc : ie_malloc_ok e = true.
Hypothesis Hknown : is_Some (block_of e s).
Hypothesis Hfit : start + len <= dev_size (sd_dev s).

Lemma aligned_good_read rs :
  Forall good rs -> (Z.to_nat (hi - lo) <= answers rs)%nat ->
  exists buf' s' rs', aligned_io e s start buf false rs = Some (true, buf', s', rs').
Proof.
  intros Hg Hl. rewrite aligned_io_eq. pose proof region_facts as (Hb & Hlo & Hhi & Hlen & Hin). specialize (Hin Hfit).
  destruct Hknown as [[b s1] Eb]. rewrite Eb. apply block_of_dev in Eb as [Ed Ef]. pose proof (sn_size _ _ _ Hsane).
  destruct (_ && _).
  { destruct (io_good e s1 start buf false rs) as (? & ? & ? & -> & _); rewrite ?Ed, ?Ef; try done; [unfold SSIZE_MAX; lia|lia|].
    by eexists _, _, _. }
  unfold bounce_io. rewrite Hmalloc. cbn [negb].
  destruct (io_good e s1 lo (replicate (Z.to_nat (hi - lo)) 0) false rs) as (? & ? & ? & -> & _);
    rewrite ?Ed, ?Ef, ?length_replicate; try done; [unfold SSIZE_MAX; lia|lia|]. by eexists _, _, _.
Qed.

Lemma aligned_good_write rs :
  Forall good rs -> (2 * Z.to_nat (hi - lo) <= answers rs)%nat ->
  exists buf' s' rs', aligned_io e s start buf true rs = Some (true, buf', s', rs') /\
    dev_eq (sd_dev s') (Device.dev_write (sd_dev s) start buf IoOk).2.
Proof.
  intros Hg Hl. rewrite aligned_io_eq. pose proof region_facts as (Hb & Hlo & Hhi & Hlen & Hin). specialize (Hin Hfit).
  destruct Hknown as [[b s1] Eb]. rewrite Eb. apply block_of_dev in Eb as [Ed Ef]. pose proof (sn_size _ _ _ Hsane).
  rewrite dev_write_ok by done. cbn [snd].
  destruct (_ && _).
  { destruct (io_good e s1 start buf true rs) as (buf' & s' & rs' & E & _); rewrite ?Ed, ?Ef; try done; [unfold SSIZE_MAX; lia|lia|].
    eexists _, _, _. split; [done|]. apply io_write_spec in E as (_ & (Hs & Hbk & Hw) & Hok); [|done]. rewrite Ed in *.
    destruct (Hok eq_refl) as [Hdata _]. split; [done|]. split; [done|]. intros i. apply put_same; [done|]. apply Hw. }
  unfold bounce_io. rewrite Hmalloc. cbn [negb].
  destruct (io_good e s1 lo (replicate (Z.to_nat (hi - lo)) 0) false rs) as (bounce & s2 & rs2 & E & Hg2 & Ha2);
    rewrite ?Ed, ?Ef, ?length_replicate; try done; [unfold SSIZE_MAX; lia|lia|lia|]. rewrite length_replicate in Ha2.
  rewrite E. apply io_read_spec in E as [-> Hrd]. destruct (Hrd eq_refl) as [Hbounce _]. rewrite length_replicate in *.
  cbn [mbind option_bind negb andb]. cbv zeta.
  assert (length bounce = Z.to_nat (hi - lo)) as Hbl by (rewrite Hbounce, length_map, length_seqZ; lia).
  pose proof (fun i => bounce_lookup bounce i Hbl) as Hbk. cbv zeta in Hbk.
  set (bounce2 := take _ bounce ++ _) in *. destruct (Hbk 0%nat) as [Hb2 _].
  destruct (io_good e s1 lo bounce2 true rs2) as (b3 & s3 & rs3 & E3 & _);
    rewrite ?Ed, ?Ef, ?Hb2; try done; [unfold SSIZE_MAX; lia|lia|lia|]. rewrite E3. cbn [mbind option_bind].
  eexists _, _, _. split; [done|]. apply io_write_spec in E3 as (_ & (Hs & Hbl2 & Hw) & Hok); [|done]. rewrite Ed in *.
  destruct (Hok eq_refl) as [Hdata _]. split; [done|]. split; [done|]. intros i. cbn [set_data dev_data].
  destruct (decide (lo <= i < hi)) as [Hi|Hi]; cycle 1.
  { rewrite Hw by lia. symmetry. apply put_out. lia. }
  assert (exists x, bounce2 !! Z.to_nat (i - lo) = Some x) as [x Hx] by (apply lookup_lt_is_Some_2; lia).
  pose proof (Hdata _ _ Hx) as Hdx. rewrite Z2Nat.id in Hdx by lia. replace (lo + (i - lo)) with i in Hdx by lia.
  rewrite Hdx. destruct (Hbk (Z.to_nat (i - lo))) as [_ Hbk2]. rewrite Hx in Hbk2. case_decide as Hd.
  - rewrite put_in by lia. replace (Z.to_nat (i - start)) with (Z.to_nat (i - lo) - Z.to_nat (start - lo))%nat by lia.
    by rewrite <- Hbk2.
  - rewrite put_out by lia. rewrite Hbounce, lookup_map, lookup_seqZ_lt in Hbk2 by lia. cbn in Hbk2.
    injection Hbk2 as ->. f_equal. lia.
Qed.

End aligned.

(** ** Properties *)

(** A device that can be used. *)
Record usable (e : io_env) (s : sdev) : Prop := {
  us_open : sd_open_count s <> 0;
  us_valid : dev_is_valid s = true;
  us_fd : 0 <= sd_fd s;
  us_seek : ie_lseek_ok e = true;
  us_malloc : ie_malloc_ok e = true;
  us_block : is_Some (block_of e s) }.

(** The system calls a transfer may need: two for each byte of its blocks. *)
Definition enough (k off : Z) (buf : list Z) (rs : list sysret) : Prop :=
  (2 * Z.to_nat (block_up (2 ^ k) (off + Z.of_nat (length buf)) - block_down (2 ^ k) off) <= answers rs)%nat.

Lemma sane_accessed e s k : sane e s k -> sane e (set_accessed_w s) k.
Proof.
  intros [H1 H2 H3 H4 H5]. split; try done. intros b s'. unfold block_of, get_block_size in *. cbn [set_accessed_w sd_regular sd_block_size].
  destruct (sd_regular s); [intros [= <- _]; by eapply H5|].
  destruct (sd_block_size s =? -1); [destruct (ie_bszget e); [|done]|]; intros [= <- _]; by eapply H5.
Qed.

Lemma known_accessed e s : is_Some (block_of e s) -> is_Some (block_of e (set_accessed_w s)).
Proof.
  unfold block_of, get_block_size. cbn [set_accessed_w sd_regular sd_block_size].
  destruct (sd_regular s); [done|]. destruct (sd_block_size s =? -1); [destruct (ie_bszget e)|]; intros [p Hp];
    [by eexists|done|by eexists].
Qed.

Lemma dev_write_cases e s off buf rs r buf' s' rs' :
  dev_write e s off buf rs = Some (r, buf', s', rs') ->
  (r = false /\ s' = s) \/
  exists s1, aligned_io e (set_accessed_w s) off buf true rs = Some (r, buf', s1, rs') /\ sd_dev s' = sd_dev s1.
Proof.
  unfold dev_write. destruct (_ =? 0); [intros [= <- <- <- <-]; by left|]. destruct (negb _); [intros [= <- <- <- <-]; by left|].
  destruct (aligned_io _ _ _ _ _ _) as [[[[r1 b1] s1] rs1]|]; [|done]. cbn. intros [= <- <- <- <-]. right. exists s1. by destruct r1.
Qed.

(** C12: [dev_write] of dev-io.c keeps the promise of the device model the
    metadata code is verified against.  On a device in blocks of 2^k bytes, for
    any results of the system calls: what it reports and leaves on the device is
    one of the outcomes of the model's write (a failure changes the touched
    blocks only; a reported success puts every byte in place); it returns after
    at most two results per byte of the blocks; and on a usable device whose
    system calls make progress it succeeds, the bytes outside the range are those
    before it. *)
Theorem dev_write_refines e s k off buf rs :
  sane e s k -> ie_test_mode e = false -> 0 <= off -> off + Z.of_nat (length buf) <= 2 ^ 62 -> buf <> [] ->
  (forall r buf' s' rs', dev_write e s off buf rs = Some (r, buf', s', rs') ->
     exists o d, Device.dev_write (sd_dev s) off buf o = (r, d) /\ dev_eq (sd_dev s') d) /\
  (enough k off buf rs -> is_Some (dev_write e s off buf rs)) /\
  (usable e s -> off + Z.of_nat (length buf) <= dev_size (sd_dev s) -> Forall good rs -> enough k off buf rs ->
     exists buf' s' rs', dev_write e s off buf rs = Some (true, buf', s', rs') /\
       dev_eq (sd_dev s') (Device.dev_write (sd_dev s) off buf IoOk).2).
Proof.
  intros Hs Ht Ho He Hb. pose proof (sane_accessed e s k Hs) as Hs'. split_and!.
  - intros r buf' s' rs' [[-> ->]|(s1 & E & ->)]%dev_write_cases.
    + apply outcome_fail. apply within_refl.
    + by apply (aligned_write e (set_accessed_w s) k off buf Hs' Ho He Hb rs r buf' s1 rs').
  - intros Hn. unfold dev_write. destruct (_ =? 0); [by eexists|]. destruct (negb _); [by eexists|].
    destruct (aligned_returns e (set_accessed_w s) k off buf Hs' Ho He Hb true rs Hn) as [[[[r b] s1] rs1] ->]. by eexists.
  - intros [U1 U2 U3 U4 U5 U6] Hfit Hg Hn. unfold dev_write. rewrite (proj2 (Z.eqb_neq _ _)), U2 by done. cbn [negb].
    destruct (aligned_good_write e (set_accessed_w s) k off buf Hs' Ho He Hb U3 Ht U4 U5 (known_accessed _ _ U6) Hfit rs Hg Hn)
      as (b & s1 & rs1 & -> & Heq). by eexists _, _, _.
Qed.

(** C13: [dev_read] of dev-io.c reads what is on the device: for any results of
    the system calls it leaves the device alone and, when it reports success, the
    buffer holds the bytes of the range, which lies on the device; it returns
    after at most two results per byte of the blocks, and on a usable device
    whose system calls make progress it succeeds for every range on the device. *)
Theorem dev_read_refines e s k off buf rs :
  sane e s k -> 0 <= off -> off + Z.of_nat (length buf) <= 2 ^ 62 -> buf <> [] ->
  (forall r buf' s' rs', dev_read e s off buf rs = Some (r, buf', s', rs') ->
     sd_dev s' = sd_dev s /\ (r = true -> Device.dev_read (sd_dev s) off (Z.of_nat (length buf)) = Some buf')) /\
  (enough k off buf rs -> is_Some (dev_read e s off buf rs)) /\
  (usable e s -> ie_test_mode e = false -> off + Z.of_nat (length buf) <= dev_size (sd_dev s) -> Forall good rs ->
     enough k off buf rs -> exists buf' s' rs', dev_read e s off buf rs = Some (true, buf', s', rs')).
Proof.
  intros Hs Ho He Hb. split_and!.
  - intros r buf' s' rs'. unfold dev_read. destruct (_ =? 0); [by intros [= <- <- <- <-]|].
    destruct (negb _); [by intros [= <- <- <- <-]|].
    destruct (aligned_io _ _ _ _ _ _) as [[[[r1 b1] s1] rs1]|] eqn:E; [|done]. cbn. intros [= <- <- <- <-].
    apply (aligned_read e s k off buf Hs Ho He Hb) in E. by destruct r1.
  - intros Hn. unfold dev_read. destruct (_ =? 0); [by eexists|]. destruct (negb _); [by eexists|].
    destruct (aligned_returns e s k off buf Hs Ho He Hb false rs Hn) as [[[[r b] s1] rs1] ->]. by eexists.
  - intros [U1 U2 U3 U4 U5 U6] Ht Hfit Hg Hn. unfold dev_read. rewrite (proj2 (Z.eqb_neq _ _)), U2 by done. cbn [negb].
    destruct (aligned_good_read e s k off buf Hs Ho He Hb U3 Ht U4 U5 U6 Hfit rs Hg) as (b & s1 & rs1 & ->);
      [unfold enough in Hn; lia|]. by eexists _, _, _.
Qed.

(** An example: a block device of 8192 bytes in blocks of 512, and an unaligned
    buffer. *)
Definition demo_dev : device := Device 8192 512 (fun i => i mod 256).
Definition demo_sdev : sdev := SDev demo_dev 3 1 0 0 (-1) false false 0.
Definition demo_env : io_env := IoEnv false true true (Some 512) 4096 false.

Lemma demo_sane : sane demo_env demo_sdev 9.
Proof.
  split; [lia|reflexivity|reflexivity|cbn; lia|]. intros b s'. cbn. by intros [= <- <-].
Qed.

Lemma demo_usable : usable demo_env demo_sdev.
Proof. split; [done|done|cbn; lia|done|done|by eexists]. Qed.

Lemma demo_good n : Forall good (replicate n (Moved 100)).
Proof. apply Forall_replicate. cbn. lia. Qed.

Lemma dev_write_refines_witness :
  exists buf' s' rs', dev_write demo_env demo_sdev 700 [1; 2; 3] (replicate 1024 (Moved 100)) = Some (true, buf', s', rs') /\
    dev_eq (sd_dev s') (Device.dev_write demo_dev 700 [1; 2; 3] IoOk).2.
Proof.
  destruct (dev_write_refines demo_env demo_sdev 9 700 [1; 2; 3] (replicate 1024 (Moved 100)) demo_sane eq_refl)
    as (_ & _ & H); [lia|cbn; lia|done|].
  apply H; [apply demo_usable|cbn; lia|apply demo_good|]. unfold enough. vm_compute. lia.
Defined.

Lemma dev_read_refines_witness :
  exists buf' s' rs', dev_read demo_env demo_sdev 700 [0; 0; 0] (replicate 1024 (Moved 100)) = Some (true, buf', s', rs') /\
    Device.dev_read demo_dev 700 3 = Some buf'.
Proof.
  destruct (dev_read_refines demo_env demo_sdev 9 700 [0; 0; 0] (replicate 1024 (Moved 100)) demo_sane)
    as (H1 & _ & H2); [lia|cbn; lia|done|].
  destruct H2 as (b & s' & rs' & E);
    [apply demo_usable|done|cbn; lia|apply demo_good|unfold enough; vm_compute; lia|].
  exists b, s', rs'. split; [exact E|]. destruct (H1 _ _ _ _ E) as [_ H]. exact (H eq_refl).
Defined.

(** ** Wiping *)

Lemma io_state e s start buf wr rs r buf' s' rs' :
  io e s start buf wr rs = Some (r, buf', s', rs') -> exists d, s' = set_dev d s.
Proof.
  unfold io. destruct (_ <? _); [intros [= <- <- <- <-]; exists (sd_dev s); by rewrite set_dev_same|].
  destruct (_ && _); [intros [= <- <- <- <-]; exists (sd_dev s); by rewrite set_dev_same|].
  destruct (_ <? _); [intros [= <- <- <- <-]; exists (sd_dev s); by rewrite set_dev_same|].
  destruct (negb _); [intros [= <- <- <- <-]; exists (sd_dev s); by rewrite set_dev_same|].
  destruct (io_loop _ _ _ _ _ _) as [[[[got rem] d] rs1]|]; [|done]. cbn. intros [= <- <- <- <-]. by exists d.
Qed.

(** The block size found does not change with the contents and the error count. *)
Definition same_setup (s s' : sdev) : Prop := sd_regular s' = sd_regular s /\ sd_block_size s' = sd_block_size s.

Lemma block_of_setup e s s' : same_setup s s' -> fst <$> block_of e s' = fst <$> block_of e s.
Proof.
  intros [H1 H2]. unfold block_of, get_block_size. rewrite H1, H2. destruct (sd_regular s); [done|].
  destruct (_ =? -1); [|done]. by destruct (ie_bszget e).
Qed.

Lemma block_of_again e s b s1 : block_of e s = Some (b, s1) -> fst <$> block_of e s1 = Some b.
Proof.
  unfold block_of, get_block_size. destruct (sd_regular s) eqn:Er; [intros [= <- <-]; by rewrite Er|].
  destruct (sd_block_size s =? -1) eqn:Eb.
  - destruct (ie_bszget e) as [x|] eqn:Ex; [|done]. intros [= <- <-]. cbn. rewrite Er. by destruct (x =? -1).
  - intros [= <- <-]. by rewrite Er, Eb.
Qed.

Lemma dev_write_setup e s off buf rs r buf' s' rs' :
  dev_write e s off buf rs = Some (r, buf', s', rs') ->
  forall b, fst <$> block_of e s' = Some b -> fst <$> block_of e s = Some b.
Proof.
  unfold dev_write, aligned_io. intros E b Hb.
  assert (forall x, same_setup s x -> fst <$> block_of e x = Some b -> fst <$> block_of e s = Some b) as Hsame
    by (intros x Hx; by rewrite (block_of_setup e s x Hx)).
  destruct (_ =? 0); [by injection E as <- <- <- <-|]. destruct (negb (dev_is_valid s)); [by injection E as <- <- <- <-|].
  destruct (if sd_regular (set_accessed_w s) then _ else _) as [[b1 s1]|] eqn:E1; cbn in E; cycle 1.
  { injection E as <- <- <- <-. by apply (Hsame (dev_inc_error_count (set_accessed_w s))). }
  assert (exists b2, block_of e (set_accessed_w s) = Some (b2, s1)) as [b2 E2].
  { unfold block_of. rewrite E1. by eexists. }
  assert (forall x, same_setup s1 x -> fst <$> block_of e x = fst <$> block_of e s) as Hs1.
  { intros x Hx. rewrite (block_of_setup e s1 x Hx), (block_of_again _ _ _ _ E2).
    rewrite <- (block_of_setup e s (set_accessed_w s)) by done. by rewrite E2. }
  assert (forall (y : bool) x d, x = set_dev d s1 -> same_setup s1 (if y then x else dev_inc_error_count x)) as Hss
    by (intros y x d ->; by destruct y).
  destruct (widen_region _ _ _) as [ws wz]. destruct (_ && _).
  { destruct (io _ _ _ _ _ _) as [[[[r2 b3] s2] rs2]|] eqn:Eio; [|done]. cbn in E. injection E as <- <- <- <-.
    apply io_state in Eio as [d Hd]. rewrite <- Hb. symmetry. apply Hs1. by eapply Hss. }
  unfold bounce_io in E. destruct (negb (ie_malloc_ok e)).
  { cbn in E. injection E as <- <- <- <-. rewrite <- Hb. symmetry. by apply Hs1. }
  destruct (io e s1 ws _ false rs) as [[[[r2 b3] s2] rs2]|] eqn:Eio; [|done]. cbn in E. apply io_read_spec in Eio as [-> _].
  rewrite andb_false_r in E.
  destruct (io e s1 ws _ true rs2) as [[[[r4 b4] s4] rs4]|] eqn:Eio2; [|done]. cbn in E. injection E as <- <- <- <-.
  apply io_state in Eio2 as [d Hd]. rewrite <- Hb. symmetry. apply Hs1. by eapply Hss.
Qed.

Lemma dev_write_sane e s k off buf rs r buf' s' rs' :
  sane e s k -> ie_test_mode e = false -> 0 <= off -> off + Z.of_nat (length buf) <= 2 ^ 62 -> buf <> [] ->
  dev_write e s off buf rs = Some (r, buf', s', rs') -> sane e s' k.
Proof.
  intros Hs Ht Ho He Hb E.
  assert (dev_size (sd_dev s') = dev_size (sd_dev s) /\ dev_block (sd_dev s') = dev_block (sd_dev s)) as [H1 H2].
  { destruct (dev_write_cases _ _ _ _ _ _ _ _ _ E) as [[-> ->]|(s1 & E1 & ->)]; [done|].
    destruct (aligned_write e (set_accessed_w s) k off buf (sane_accessed _ _ _ Hs) Ho He Hb rs r buf' s1 rs' Ht E1)
      as (o & d & Ed & (H1 & H2 & _)). rewrite H1, H2.
    replace d with (Device.dev_write (sd_dev (set_accessed_w s)) off buf o).2 by (by rewrite Ed).
    by rewrite dev_write_size, dev_write_block. }
  destruct Hs as [K1 K2 K3 K4 K5]. split; rewrite ?H1, ?H2; try done. intros b s2 E2.
  pose proof (dev_write_setup _ _ _ _ _ _ _ _ _ E b ltac:(by rewrite E2)) as E3.
  destruct (block_of e s) as [[b0 s0]|] eqn:E0; [|done]. cbn in E3. injection E3 as ->. by eapply K5.
Qed.

(** What a write of whole blocks from their start leaves. *)
Lemma dev_write_filled e s k off n value rs buf' s' rs' :
  sane e s k -> ie_test_mode e = false -> 0 <= off -> off mod 2 ^ k = 0 -> 0 < n -> off + n <= 2 ^ 62 ->
  dev_write e s off (replicate (Z.to_nat n) value) rs = Some (true, buf', s', rs') ->
  (forall i, off <= i < off + n -> dev_data (sd_dev s') i = value) /\
  (forall i, i < off \/ block_up (2 ^ k) (off + n) <= i -> dev_data (sd_dev s') i = dev_data (sd_dev s) i).
Proof.
  intros Hs Ht Ho Hm Hn Hmax E. set (buf := replicate (Z.to_nat n) value) in *.
  assert (Z.of_nat (length buf) = n) as Hl by (unfold buf; rewrite length_replicate; lia).
  assert (buf <> []) as Hb by (intros E0; rewrite E0 in Hl; cbn in Hl; lia).
  pose proof (sn_k _ _ _ Hs) as Hk. assert (0 < 2 ^ k) as Hpos by lia.
  assert (block_down (2 ^ k) off = off) as Hbd.
  { unfold block_down. pose proof (Z.div_mod off (2 ^ k) ltac:(lia)). lia. }
  destruct (dev_write_cases _ _ _ _ _ _ _ _ _ E) as [[[=] _]|(s1 & E1 & ->)].
  destruct (aligned_write e (set_accessed_w s) k off buf (sane_accessed _ _ _ Hs) Ho ltac:(lia) Hb rs true buf' s1 rs' Ht E1)
    as (o & d & Ed & (_ & _ & Hd)). cbn [sd_dev set_accessed_w] in Ed.
  assert (dev_in_range (sd_dev s) off (Z.of_nat (length buf)) = true /\ io_ok o = true) as [Hr Hio].
  { unfold Device.dev_write in Ed. by destruct (dev_in_range _ _ _), o. }
  unfold dev_in_range in Hr. apply andb_prop in Hr as [_ Hr%Z.leb_le].
  replace d with (Device.dev_write (sd_dev s) off buf o).2 in Hd by (by rewrite Ed).
  split; intros i Hi; rewrite Hd.
  - destruct (lookup_lt_is_Some_2 buf (Z.to_nat (i - off))) as [x Hx]; [lia|].
    replace i with (off + Z.of_nat (Z.to_nat (i - off))) by lia.
    rewrite (proj2 (dev_write_in_place (sd_dev s) off buf o (Z.to_nat (i - off)) x Ho Hr Hio Hx)).
    unfold buf in Hx. by apply lookup_replicate in Hx as [-> _].
  - assert (agree (sd_dev s) (Device.dev_write (sd_dev s) off buf o).2 i 1) as (_ & _ & F).
    { apply dev_write_frame; rewrite (sn_block _ _ _ Hs); [lia|]. rewrite Hbd, Hl. lia. }
    symmetry. apply F. lia.
Qed.

(** A [dev_set] that reports success has filled its range; before it nothing
    changed, nor behind its last block. *)
Lemma dev_set_loop_fills e k value fuel s off len rs s' rs' :
  sane e s k -> k <= 12 -> ie_test_mode e = false -> 0 <= off -> off mod 2 ^ k = 0 -> 0 < len -> off + len <= 2 ^ 62 ->
  dev_set_loop e s off len value rs fuel = Some (0, s', rs') ->
  (forall i, off <= i < off + len -> dev_data (sd_dev s') i = value) /\
  (forall i, i < off \/ block_up (2 ^ k) (off + len) <= i -> dev_data (sd_dev s') i = dev_data (sd_dev s) i).
Proof.
  intros Hs Hk Ht. revert s off len rs Hs. induction fuel as [|fuel IH]; intros s off len rs Hs Ho Hm Hlen Hmax; [done|].
  cbn [dev_set_loop]. set (n := if 4096 <? len then 4096 else len).
  assert (0 < n <= len /\ (n = len \/ n = 4096 /\ 4096 < len)) as [Hn Hn'].
  { unfold n. destruct (Z.ltb_spec 4096 len); lia. }
  destruct (dev_write _ _ _ _ _) as [[[[r b1] s1] rs1]|] eqn:E; [|done]. cbn [mbind option_bind].
  destruct r; cbn [negb]; [|intros [= -> _ _]; lia].
  destruct (dev_write_filled e s k off n value rs b1 s1 rs1 Hs Ht Ho Hm ltac:(lia) ltac:(lia) E) as [Hin Hout].
  cbv zeta. destruct (Z.eqb_spec (len - n) 0) as [E0|E0].
  - intros [= _ <- <-]. assert (n = len) as En by lia. by rewrite En in *.
  - assert (n = 4096) as En by lia. rewrite wrap64_small by lia. intros Eloop. pose proof (sn_k _ _ _ Hs) as Hk0.
    assert ((off + n) mod 2 ^ k = 0) as Hm'.
    { rewrite En. replace 4096 with (2 ^ (12 - k) * 2 ^ k) by (rewrite <- Z.pow_add_r by lia; by replace (12 - k + k) with 12 by lia).
      rewrite Z.mod_add by lia. done. }
    assert (sane e s1 k) as Hs1.
    { eapply dev_write_sane; [done|done| | | |exact E]; rewrite ?length_replicate; [lia|lia|].
      intros E2. apply (f_equal length) in E2. rewrite length_replicate in E2. cbn in E2. lia. }
    destruct (IH s1 (off + n) (len - n) rs1 Hs1 ltac:(lia) Hm' ltac:(lia) ltac:(lia) Eloop) as [Hin2 Hout2].
    replace (off + n + (len - n)) with (off + len) in * by lia.
    assert (0 < 2 ^ k) as Hpos by lia. pose proof (block_up_ge (2 ^ k) (off + len) Hpos).
    pose proof (block_up_le (2 ^ k) (off + n) (off + n) Hpos Hm' ltac:(lia)).
    split; intros i Hi.
    + destruct (Z.lt_ge_cases i (off + n)); [rewrite Hout2 by lia; apply Hin; lia|apply Hin2; lia].
    + rewrite Hout2, Hout; [done|lia|lia].
Qed.
