(* ===== verification/FormatText.v ===== *)
(** * The text metadata area: lib/format_text/format-text.c, layout.h

    The metadata of a VG is kept on its PVs as text in a circular buffer behind a
    one-sector header.  Slot 0 of the header locates the committed text, slot 1
    the pre-committed one.  This file models the header as bytes on a device, the
    search for a VG's slot, reading, writing, pre-committing, committing,
    reverting and removing, with device errors.  (config_file_read_fd of
    lib/config/config.c is on the reading path; what is read is the text handed
    to the parser.) *)

From S2P Require Import Prelude Crc DmString Device.

(** ** The header *)

Definition MDA_HEADER_SIZE : Z := 512.
Definition INITIAL_CRC : Z := 0xf597a6cf.
Definition FMTT_VERSION : Z := 1.
Definition FMTT_MAGIC : list Z := [32; 76; 86; 77; 50; 32; 120; 91; 53; 65; 37; 114; 48; 78; 42; 62].
Definition RAW_LOCN_IGNORED : Z := 1.

(** [struct raw_locn] *)
Record raw_locn := RawLocn { rl_offset : Z; rl_size : Z; rl_checksum : Z; rl_flags : Z }.

(** [struct mda_header] as it lies in its sector: the sector has room for 19
    locations and 16 more bytes. *)
Record mda_header := MdaHeader {
  mh_magic : list Z;
  mh_version : Z;
  mh_start : Z;
  mh_size : Z;
  mh_locns : list raw_locn;
  mh_rest : list Z }.

Definition rlocn_is_ignored (rlocn : raw_locn) : bool := negb (Z.land (rl_flags rlocn) RAW_LOCN_IGNORED =? 0).

Definition rlocn_set_ignored (rlocn : raw_locn) (mda_ignored : bool) : raw_locn :=
  RawLocn (rl_offset rlocn) (rl_size rlocn) (rl_checksum rlocn)
    (if mda_ignored then Z.lor (rl_flags rlocn) RAW_LOCN_IGNORED
     else Z.land (rl_flags rlocn) (2 ^ 32 - 1 - RAW_LOCN_IGNORED)).

(** Little-endian fields. *)
Fixpoint le_bytes (n : nat) (v : Z) : list Z :=
  match n with O => [] | S n => v mod 256 :: le_bytes n (v / 256) end.

Fixpoint le_value (bs : list Z) : Z :=
  match bs with [] => 0 | b :: bs => b + 256 * le_value bs end.

(** A slot on disk.  [_xlate_mdah] stops at the first slot with offset 0 and leaves the
    flags alone; on a little-endian machine, which is the one modelled, it changes
    nothing. *)
Definition locn_bytes (r : raw_locn) : list Z :=
  le_bytes 8 (rl_offset r) ++ le_bytes 8 (rl_size r) ++ le_bytes 4 (rl_checksum r) ++ le_bytes 4 (rl_flags r).

Definition locn_of_bytes (bs : list Z) : raw_locn :=
  RawLocn (le_value (take 8 bs)) (le_value (take 8 (drop 8 bs))) (le_value (take 4 (drop 16 bs)))
    (le_value (take 4 (drop 20 bs))).

(** The header without its checksum: what the checksum is taken of. *)
Definition header_body (h : mda_header) : list Z :=
  mh_magic h ++ le_bytes 4 (mh_version h) ++ le_bytes 8 (mh_start h) ++ le_bytes 8 (mh_size h) ++
  concat (map locn_bytes (mh_locns h)) ++ mh_rest h.

Fixpoint locns_of_bytes (n : nat) (bs : list Z) : list raw_locn :=
  match n with O => [] | S n => locn_of_bytes (take 24 bs) :: locns_of_bytes n (drop 24 bs) end.

Definition header_of_body (bs : list Z) : mda_header :=
  MdaHeader (take 16 bs) (le_value (take 4 (drop 16 bs))) (le_value (take 8 (drop 20 bs)))
    (le_value (take 8 (drop 28 bs))) (locns_of_bytes 19 (drop 36 bs)) (drop 492 bs).

Record device_area := DeviceArea { area_start : Z; area_size : Z }.

Definition raw_read_mda_header (d : device) (a : device_area) : option mda_header :=
  match dev_read d (area_start a) MDA_HEADER_SIZE with
  | None => None
  | Some bs =>
      match calc_crc INITIAL_CRC (drop 4 bs) (MDA_HEADER_SIZE - 4) with
      | None => None
      | Some crc =>
          if negb (le_value (take 4 bs) =? crc) then None else
          let h := header_of_body (drop 4 bs) in
          if negb (bool_decide (mh_magic h = FMTT_MAGIC)) then None
          else if negb (mh_version h =? FMTT_VERSION) then None
          else if negb (mh_start h =? area_start a) then None
          else Some h
      end
  end.

Definition raw_write_mda_header (d : device) (start_byte : Z) (h : mda_header) (o : io) : bool * device :=
  let h := MdaHeader FMTT_MAGIC FMTT_VERSION start_byte (mh_size h) (mh_locns h) (mh_rest h) in
  match calc_crc INITIAL_CRC (header_body h) (MDA_HEADER_SIZE - 4) with
  | None => (false, d)
  | Some crc => dev_write d start_byte (le_bytes 4 crc ++ header_body h) o
  end.

Definition locn0 : raw_locn := RawLocn 0 0 0 0.

(** [mdah->raw_locns[i]] and its update. *)
Definition locn_at (h : mda_header) (i : nat) : raw_locn := default locn0 (mh_locns h !! i).

Definition set_locn (h : mda_header) (i : nat) (r : raw_locn) : mda_header :=
  MdaHeader (mh_magic h) (mh_version h) (mh_start h) (mh_size h) (<[i := r]> (mh_locns h)) (mh_rest h).

(** ** Finding the VG *)

(** [_find_vg_rlocn]: the slot found and the new value of [*precommitted]. *)
Definition find_vg_rlocn (d : device) (a : device_area) (h : mda_header) (vgname : list Z)
    (precommitted : bool) : option nat * bool :=
  let r0 := locn_at h 0 in
  let r1 := locn_at h 1 in
  let use1 := precommitted && negb (rl_size r1 =? 0) && negb (rl_offset r1 =? rl_offset r0) in
  let i := if use1 then 1%nat else 0%nat in
  let r := if use1 then r1 else r0 in
  if (rl_offset r =? 0) && (rl_size r =? 0) then (None, use1)
  else if bool_decide (vgname = []) then (Some i, use1)
  else match dev_read d (wrap64 (area_start a + rl_offset r)) (NAME_LEN + 2) with
       | None => (None, use1)
       | Some buf =>
           let len := length vgname in
           let c := default 0 (buf !! len) in
           if bool_decide (take len buf = vgname) && (isspace c || (c =? 123))
           then (Some i, use1) else (None, use1)
       end.

(** [_next_rlocn_offset]; [None] is a division by zero. *)
Definition next_rlocn_offset (rlocn : option raw_locn) (h : mda_header) : option Z :=
  match rlocn with
  | None => Some MDA_HEADER_SIZE
  | Some r =>
      let m := wrap64 (mh_size h - MDA_HEADER_SIZE) in
      if m =? 0 then None
      else Some (wrap64 (wrap64 (rl_offset r + rl_size r + (SECTOR_SIZE - rl_size r mod SECTOR_SIZE)
                                 - MDA_HEADER_SIZE) mod m + MDA_HEADER_SIZE))
  end.

Definition raw_holds_vgname (d : device) (a : device_area) (vgname : list Z) : bool :=
  match raw_read_mda_header d a with
  | None => false
  | Some h => if (find_vg_rlocn d a h vgname false).1 is Some _ then true else false
  end.

(** ** Reading *)

(** [_vg_read_raw_area] up to the parser: the text with its checksum verified,
    and whether it is pre-committed metadata. *)
Definition vg_read_raw_area (d : device) (a : device_area) (vgname : list Z) (precommitted : bool) :
    option (list Z * bool) :=
  match raw_read_mda_header d a with
  | None => None
  | Some h =>
      match find_vg_rlocn d a h vgname precommitted with
      | (None, _) => None
      | (Some i, precommitted) =>
          let r := locn_at h i in
          let e := wrap64 (rl_offset r + rl_size r) in
          let wrapped := if mh_size h <? e then wrap32 (e - mh_size h) else 0 in
          if rl_offset r <? wrapped then None else
          let size := wrap32 (rl_size r - wrapped) in
          match dev_read_circular d (wrap64 (area_start a + rl_offset r)) size
                  (wrap64 (area_start a + MDA_HEADER_SIZE)) wrapped with
          | None => None
          | Some buf =>
              match calc_crc INITIAL_CRC buf size with
              | None => None
              | Some c =>
                  match calc_crc c (drop (Z.to_nat size) buf) wrapped with
                  | None => None
                  | Some c => if c =? rl_checksum r then Some (buf, precommitted) else None
                  end
              end
          end
      end
  end.

(** ** Writing and committing *)

(** The device, [mdac->rlocn] and [fidtc->raw_metadata_buf]. *)
Record mda_state := MdaState { ms_dev : device; ms_rlocn : raw_locn; ms_buf : option (list Z) }.

Definition failed_write (d : device) (r : raw_locn) : option (bool * mda_state) :=
  Some (false, MdaState d r None).

(** The test for a buffer too small, from the header size, the live location and
    the new one. *)
Definition too_large (size : Z) (live : option raw_locn) (off len : Z) : bool :=
  let new_wrap := if size <? wrap64 (off + len) then wrap64 (wrap64 (off + len) - size) else 0 in
  let old_wrap := match live with
                  | Some r => if size <? wrap64 (rl_offset r + rl_size r)
                              then wrap64 (wrap64 (rl_offset r + rl_size r) - size) else 0
                  | None => 0
                  end in
  let new_end := if negb (new_wrap =? 0) then wrap64 (new_wrap + MDA_HEADER_SIZE) else wrap64 (off + len) in
  (negb (new_wrap =? 0) && negb (old_wrap =? 0))
  || (match live with
      | Some r => (negb (new_wrap =? 0) || negb (old_wrap =? 0)) && (rl_offset r <? new_end)
      | None => false
      end)
  || (size <=? len).

(** [_vg_write_raw]: [found] says whether the area is on a PV of the VG,
    [open_ok] whether the device opens, [export] is the text of the VG ([None]
    when the export fails); [io1] and [io2] are the outcomes of the two writes.
    [None] is a division by zero. *)
Definition vg_write_raw (found open_ok : bool) (a : device_area) (vgname : list Z)
    (export : option (list Z)) (io1 io2 : io) (st : mda_state) : option (bool * mda_state) :=
  let d := ms_dev st in
  if negb found then Some (true, st) else
  if negb open_ok then Some (false, st) else
  match raw_read_mda_header d a with
  | None => failed_write d (ms_rlocn st)
  | Some h =>
      let live := option_map (locn_at h) (find_vg_rlocn d a h vgname false).1 in
      match next_rlocn_offset live h with
      | None => None
      | Some off =>
          let r := RawLocn off (rl_size (ms_rlocn st)) (rl_checksum (ms_rlocn st)) (rl_flags (ms_rlocn st)) in
          match (if ms_buf st is Some b then Some b else if export is Some (b :: bs) then Some (b :: bs) else None) with
          | None => failed_write d r
          | Some buf =>
              let len := Z.of_nat (length buf) in
              let r := RawLocn off len (rl_checksum r) (rl_flags r) in
              if too_large (mh_size h) live off len then failed_write d r else
              let new_wrap := if mh_size h <? wrap64 (off + len)
                              then wrap64 (wrap64 (off + len) - mh_size h) else 0 in
              let n1 := Z.to_nat (len - new_wrap) in
              let '(ok, d) := dev_write d (wrap64 (area_start a + off)) (take n1 buf) io1 in
              if negb ok then failed_write d r else
              let '(ok, d) := if new_wrap =? 0 then (true, d)
                              else dev_write d (wrap64 (area_start a + MDA_HEADER_SIZE)) (drop n1 buf) io2 in
              if negb ok then failed_write d r else
              match calc_crc INITIAL_CRC buf (wrap32 (len - new_wrap)) with
              | None => None
              | Some c =>
                  match (if new_wrap =? 0 then Some c else calc_crc c (drop n1 buf) (wrap32 new_wrap)) with
                  | None => None
                  | Some c => Some (true, MdaState d (RawLocn off len c (rl_flags r)) (Some buf))
                  end
              end
          end
      end
  end.

(** A location with its offset, size and checksum cleared. *)
Definition wipe_locn (r : raw_locn) : raw_locn := RawLocn 0 0 0 (rl_flags r).

Definition wipe_slot (i : nat) (h : mda_header) : mda_header := set_locn h i (wipe_locn (locn_at h i)).

(** The header [_vg_commit_raw_rlocn] writes. *)
Definition commit_header (h : mda_header) (slot : option nat) (precommit mda_ignored : bool)
    (new : raw_locn) : mda_header :=
  let h := if slot is Some _ then h else wipe_slot 2 (wipe_slot 1 (wipe_slot 0 h)) in
  let i := default 0%nat slot in
  let '(i, h) := if precommit then (S i, h) else (i, wipe_slot 1 h) in
  let h := if rl_size new =? 0 then h
           else set_locn h i (RawLocn (rl_offset new) (rl_size new) (rl_checksum new) (rl_flags (locn_at h i))) in
  set_locn h 0 (rlocn_set_ignored (locn_at h 0) mda_ignored).

Definition vg_commit_raw_rlocn (found : bool) (a : device_area) (vgname : list Z) (mda_ignored : bool)
    (precommit : bool) (o : io) (st : mda_state) : bool * mda_state :=
  if negb found then (true, st) else
  let buf := if precommit then ms_buf st else None in
  match raw_read_mda_header (ms_dev st) a with
  | None => (false, MdaState (ms_dev st) (ms_rlocn st) buf)
  | Some h =>
      let slot := (find_vg_rlocn (ms_dev st) a h vgname false).1 in
      let '(ok, d) := raw_write_mda_header (ms_dev st) (area_start a)
                        (commit_header h slot precommit mda_ignored (ms_rlocn st)) o in
      (ok, MdaState d (ms_rlocn st) buf)
  end.

Definition vg_commit_raw (found : bool) (a : device_area) (vgname : list Z) (mda_ignored : bool) :=
  vg_commit_raw_rlocn found a vgname mda_ignored false.

Definition vg_precommit_raw (found : bool) (a : device_area) (vgname : list Z) (mda_ignored : bool) :=
  vg_commit_raw_rlocn found a vgname mda_ignored true.

Definition vg_revert_raw (found : bool) (a : device_area) (vgname : list Z) (mda_ignored : bool) (o : io)
    (st : mda_state) : bool * mda_state :=
  if negb found then (true, st) else
  let r := ms_rlocn st in
  vg_commit_raw_rlocn found a vgname mda_ignored false o
    (MdaState (ms_dev st) (RawLocn (rl_offset r) 0 (rl_checksum r) (rl_flags r)) (ms_buf st)).

Definition vg_remove_raw (open_ok : bool) (a : device_area) (vgname : list Z) (mda_ignored : bool) (o : io)
    (st : mda_state) : bool * mda_state :=
  if negb open_ok then (false, st) else
  match raw_read_mda_header (ms_dev st) a with
  | None => (false, st)
  | Some h =>
      let slot := (find_vg_rlocn (ms_dev st) a h vgname false).1 in
      let h := if slot is Some _ then h
               else set_locn h 1 (RawLocn 0 (rl_size (locn_at h 1)) (rl_checksum (locn_at h 1)) (rl_flags (locn_at h 1))) in
      let i := default 0%nat slot in
      let h := set_locn h i (wipe_locn (locn_at h i)) in
      let h := set_locn h 0 (rlocn_set_ignored (locn_at h 0) mda_ignored) in
      let '(ok, d) := raw_write_mda_header (ms_dev st) (area_start a) h o in
      (ok, MdaState d (ms_rlocn st) (ms_buf st))
  end.
