(* ===== verification/FormatTextProps.v ===== *)
(** * Properties of the text metadata area

    The header and the location records survive a write and a read; a write of
    new metadata leaves the committed metadata readable whatever becomes of it,
    pre-commit and commit switch to the new metadata, and revert goes back. *)

From S2P Require Import Prelude Crc DmString Device FormatText.

(** ** Fields and headers as bytes *)

Lemma le_bytes_length n v : length (le_bytes n v) = n.
Proof. revert v. induction n as [|n IH]; intros v; [done|]. cbn. by rewrite IH. Qed.

Lemma le_value_bytes n v : 0 <= v < 256 ^ Z.of_nat n -> le_value (le_bytes n v) = v.
Proof.
  revert v. induction n as [|n IH]; intros v Hv; [cbn in *; lia|].
  rewrite Nat2Z.inj_succ, Z.pow_succ_r in Hv by lia. cbn [le_bytes le_value].
  rewrite IH; [|split; [apply Z.div_pos; lia|apply Z.div_lt_upper_bound; lia]].
  pose proof (Z.div_mod v 256). lia.
Qed.

Lemma le_bytes_u8 n v : Forall is_u8 (le_bytes n v).
Proof.
  revert v. induction n as [|n IH]; intros v; constructor; [|apply IH]. unfold is_u8.
  pose proof (Z.mod_pos_bound v 256). lia.
Qed.

Definition locn_wf (r : raw_locn) : Prop :=
  is_u64 (rl_offset r) /\ is_u64 (rl_size r) /\ is_u32 (rl_checksum r) /\ is_u32 (rl_flags r).

Record header_wf (h : mda_header) : Prop := {
  hw_magic : length (mh_magic h) = 16%nat /\ Forall is_u8 (mh_magic h);
  hw_version : is_u32 (mh_version h);
  hw_start : is_u64 (mh_start h);
  hw_size : is_u64 (mh_size h);
  hw_locns : length (mh_locns h) = 19%nat /\ Forall locn_wf (mh_locns h);
  hw_rest : length (mh_rest h) = 16%nat /\ Forall is_u8 (mh_rest h) }.

Lemma take_app_len {A} n (l k : list A) : length l = n -> take n (l ++ k) = l.
Proof. intros <-. by rewrite take_app_length. Qed.

Lemma drop_app_len {A} n (l k : list A) : length l = n -> drop n (l ++ k) = k.
Proof. intros <-. by rewrite drop_app_length. Qed.

Lemma drop_add_app_len {A} n m (l k : list A) : length l = n -> drop (n + m) (l ++ k) = drop m k.
Proof. intros <-. by rewrite drop_app_add. Qed.

Lemma locn_bytes_length r : length (locn_bytes r) = 24%nat.
Proof. unfold locn_bytes. by rewrite !length_app, !le_bytes_length. Qed.

Lemma locn_roundtrip r : locn_wf r -> locn_of_bytes (locn_bytes r) = r.
Proof.
  intros (H1 & H2 & H3 & H4). unfold is_u64, is_u32 in *. unfold locn_of_bytes, locn_bytes.
  rewrite (take_app_len 8) by apply le_bytes_length.
  rewrite (drop_app_len 8) by apply le_bytes_length.
  rewrite (take_app_len 8) by apply le_bytes_length.
  change (@drop Z 16) with (@drop Z (8 + 8)). rewrite (drop_add_app_len 8 8) by apply le_bytes_length.
  rewrite (drop_app_len 8) by apply le_bytes_length. rewrite (take_app_len 4) by apply le_bytes_length.
  change (@drop Z 20) with (@drop Z (8 + (8 + 4))). rewrite (drop_add_app_len 8) by apply le_bytes_length.
  rewrite (drop_add_app_len 8) by apply le_bytes_length. rewrite (drop_app_len 4) by apply le_bytes_length.
  rewrite (take_ge (le_bytes 4 (rl_flags r))) by (rewrite le_bytes_length; lia).
  rewrite !le_value_bytes by (cbn; lia). by destruct r.
Qed.

Lemma locns_roundtrip n ls rest :
  length ls = n -> Forall locn_wf ls -> locns_of_bytes n (concat (map locn_bytes ls) ++ rest) = ls.
Proof.
  revert ls. induction n as [|n IH]; intros [|r ls] Hn Hls; try done. cbn in Hn.
  apply Forall_cons in Hls as [Hr Hls]. cbn [map concat locns_of_bytes]. rewrite <- app_assoc.
  rewrite (take_app_len 24) by apply locn_bytes_length. rewrite (drop_app_len 24) by apply locn_bytes_length.
  rewrite locn_roundtrip, IH by (done || lia). done.
Qed.

Lemma concat_locns_length ls : length (concat (map locn_bytes ls)) = (24 * length ls)%nat.
Proof.
  induction ls as [|r ls IH]; [done|]. cbn [map concat length]. rewrite length_app, IH, locn_bytes_length. lia.
Qed.

Lemma header_body_length h : header_wf h -> length (header_body h) = 508%nat.
Proof.
  intros [[Hm _] _ _ _ [Hl _] [Hr _]]. unfold header_body.
  rewrite !length_app, !le_bytes_length, concat_locns_length, Hm, Hl, Hr. done.
Qed.

Lemma header_body_u8 h : header_wf h -> Forall is_u8 (header_body h).
Proof.
  intros [[_ Hm] _ _ _ _ [_ Hr]]. unfold header_body.
  repeat (apply Forall_app; split); try apply le_bytes_u8; try done.
  apply Forall_concat, Forall_map, Forall_forall. intros r _. unfold locn_bytes.
  repeat (apply Forall_app; split); apply le_bytes_u8.
Qed.

Lemma header_of_body_roundtrip h : header_wf h -> header_of_body (header_body h) = h.
Proof.
  intros [[Hm _] Hv Hst Hsz [Hl Hls] [Hr _]]. unfold is_u32, is_u64 in *. unfold header_of_body, header_body.
  rewrite (take_app_len 16) by done. rewrite (drop_app_len 16) by done.
  rewrite (take_app_len 4) by apply le_bytes_length.
  change (@drop Z 20) with (@drop Z (16 + 4)). rewrite (drop_add_app_len 16) by done.
  rewrite (drop_app_len 4) by apply le_bytes_length. rewrite (take_app_len 8) by apply le_bytes_length.
  change (@drop Z 28) with (@drop Z (16 + (4 + 8))). rewrite (drop_add_app_len 16) by done.
  rewrite (drop_add_app_len 4) by apply le_bytes_length. rewrite (drop_app_len 8) by apply le_bytes_length.
  rewrite (take_app_len 8) by apply le_bytes_length.
  change (@drop Z 36) with (@drop Z (16 + (4 + (8 + 8)))). rewrite (drop_add_app_len 16) by done.
  rewrite (drop_add_app_len 4) by apply le_bytes_length. rewrite (drop_add_app_len 8) by apply le_bytes_length.
  rewrite (drop_app_len 8) by apply le_bytes_length. rewrite locns_roundtrip by done.
  change (@drop Z 492) with (@drop Z (16 + (4 + (8 + (8 + 456))))). rewrite (drop_add_app_len 16) by done.
  rewrite (drop_add_app_len 4) by apply le_bytes_length. rewrite !(drop_add_app_len 8) by apply le_bytes_length.
  rewrite (drop_app_len 456) by (rewrite concat_locns_length, Hl; done).
  rewrite !le_value_bytes by (cbn; lia). by destruct h.
Qed.

(** The header [_raw_write_mda_header] puts on disk. *)
Definition stamp (start : Z) (h : mda_header) : mda_header :=
  MdaHeader FMTT_MAGIC FMTT_VERSION start (mh_size h) (mh_locns h) (mh_rest h).

Lemma stamp_wf start h : is_u64 start -> header_wf h -> header_wf (stamp start h).
Proof.
  intros Hs []. split; try done. split; [done|]. repeat constructor; unfold is_u8; lia.
Qed.

Definition header_sector (start : Z) (h : mda_header) : list Z :=
  le_bytes 4 (crc_ref INITIAL_CRC (header_body (stamp start h))) ++ header_body (stamp start h).

Lemma header_sector_length start h : is_u64 start -> header_wf h -> length (header_sector start h) = 512%nat.
Proof.
  intros Hs Hw. unfold header_sector. rewrite length_app, le_bytes_length, header_body_length; [done|].
  by apply stamp_wf.
Qed.

Lemma header_crc h :
  header_wf h -> calc_crc INITIAL_CRC (header_body h) (MDA_HEADER_SIZE - 4) = Some (crc_ref INITIAL_CRC (header_body h)).
Proof.
  intros Hw. pose proof (header_body_length h Hw) as Hl.
  rewrite calc_crc_spec; [|by apply header_body_u8|unfold is_u32, MDA_HEADER_SIZE; lia|rewrite Hl; done].
  rewrite take_ge by (rewrite Hl; done). done.
Qed.

Lemma raw_write_eq d start h o :
  is_u64 start -> header_wf h -> raw_write_mda_header d start h o = dev_write d start (header_sector start h) o.
Proof.
  intros Hs Hw. unfold raw_write_mda_header. fold (stamp start h).
  by rewrite header_crc by by apply stamp_wf.
Qed.

(** A device whose header sector is that of [h] reads as [h]. *)
Lemma raw_read_sector d a h :
  is_u64 (area_start a) -> header_wf h ->
  dev_read d (area_start a) MDA_HEADER_SIZE = Some (header_sector (area_start a) h) ->
  raw_read_mda_header d a = Some (stamp (area_start a) h).
Proof.
  intros Hs Hw Hr. unfold raw_read_mda_header. rewrite Hr.
  pose proof (stamp_wf _ _ Hs Hw) as Hsw. unfold header_sector.
  rewrite (drop_app_len 4) by apply le_bytes_length. rewrite (take_app_len 4) by apply le_bytes_length.
  rewrite header_crc by done. rewrite le_value_bytes; [|apply crc_ref_u32; [unfold is_u32, INITIAL_CRC; lia|by apply header_body_u8]].
  rewrite Z.eqb_refl. cbn [negb]. rewrite header_of_body_roundtrip by done. cbn [mh_magic mh_version mh_start stamp].
  rewrite bool_decide_eq_true_2 by done. cbn. by rewrite Z.eqb_refl.
Qed.

Lemma raw_read_agree d d' a :
  agree d d' (area_start a) MDA_HEADER_SIZE -> raw_read_mda_header d a = raw_read_mda_header d' a.
Proof. intros H. unfold raw_read_mda_header. by rewrite (dev_read_agree d d'). Qed.

(** ** Texts in the circular buffer *)

(** The device address of byte [k] of a text at offset [off] in an area of size
    [size]: the buffer goes round from its end to just behind the header. *)
Definition circ (a : device_area) (size off k : Z) : Z :=
  area_start a + (if off + k <? size then off + k else off + k - size + MDA_HEADER_SIZE).

(** A usable area: it lies on the device and its header reads as [h]. *)
Record area_ok (d : device) (a : device_area) (h : mda_header) : Prop := {
  ao_start : 0 <= area_start a;
  ao_fits : area_start a + mh_size h <= dev_size d;
  ao_dev : dev_size d < 2 ^ 63;
  ao_aligned : area_start a mod 512 = 0;
  ao_sectors : mh_size h mod 512 = 0 /\ 1024 <= mh_size h < 2 ^ 32;
  ao_wf : header_wf h;
  ao_stamp : stamp (area_start a) h = h;
  ao_read : dev_read d (area_start a) MDA_HEADER_SIZE = Some (header_sector (area_start a) h) }.

(** A place for a text in the buffer. *)
Definition locn_ok (size off len : Z) : Prop :=
  512 <= off < size /\ off mod 512 = 0 /\ 0 < len <= size - 512.

(** The text [t] is stored at [r], with its checksum. *)
Record text_on (d : device) (a : device_area) (size : Z) (r : raw_locn) (t : list Z) : Prop := {
  to_locn : locn_ok size (rl_offset r) (rl_size r);
  to_len : rl_size r = Z.of_nat (length t);
  to_crc : rl_checksum r = crc_ref INITIAL_CRC t;
  to_u8 : Forall is_u8 t;
  to_data : forall k x, t !! k = Some x -> dev_data d (circ a size (rl_offset r) (Z.of_nat k)) = x }.

(** A text that belongs to the VG: it starts with the name and a delimiter. *)
Definition named (name t : list Z) : Prop :=
  name <> [] /\ (length name <= 128)%nat /\
  exists c rest, t = name ++ c :: rest /\ (isspace c || (c =? 123)) = true.

(** The bytes of a text stay in place when the device changes elsewhere. *)
Lemma text_on_agree d d' a size r t :
  text_on d a size r t ->
  (forall k, 0 <= k < rl_size r -> dev_data d' (circ a size (rl_offset r) k) = dev_data d (circ a size (rl_offset r) k)) ->
  text_on d' a size r t.
Proof.
  intros [H1 H2 H3 H4 H5] Hd. split; try done. intros k x Hk. rewrite Hd; [by apply H5|].
  apply lookup_lt_Some in Hk. lia.
Qed.

(** A contiguous part of a text. *)
Lemma text_read d a size r t (k n : nat) :
  text_on d a size r t -> (k + n <= length t)%nat -> (0 < n)%nat ->
  (rl_offset r + Z.of_nat k + Z.of_nat n <= size \/ size <= rl_offset r + Z.of_nat k) ->
  area_start a + size <= dev_size d -> 0 <= area_start a ->
  dev_read d (circ a size (rl_offset r) (Z.of_nat k)) (Z.of_nat n) = Some (take n (drop k t)).
Proof.
  intros Ht Hk Hn Hside Hfit Hst. destruct (to_locn _ _ _ _ _ Ht) as (Ho & Hm & Hl).
  pose proof (to_len _ _ _ _ _ Ht) as Hlen. unfold dev_read, dev_in_range.
  assert (0 <= circ a size (rl_offset r) (Z.of_nat k) /\
    circ a size (rl_offset r) (Z.of_nat k) + Z.of_nat n <= dev_size d) as [Hr1 Hr2].
  { unfold circ, MDA_HEADER_SIZE. destruct (Z.ltb_spec (rl_offset r + Z.of_nat k) size); lia. }
  rewrite (proj2 (Z.leb_le _ _)), (proj2 (Z.leb_le (circ _ _ _ _ + _) _)) by lia. cbn [andb]. f_equal.
  assert (length (take n (drop k t)) = n) as Hlt by (rewrite length_take, length_drop; lia).
  rewrite <- Hlt at 1. apply seqZ_lookups. rewrite Hlt. intros j Hj.
  rewrite lookup_take_lt, lookup_drop by done.
  destruct (lookup_lt_is_Some_2 t (k + j)) as [x Hx]; [lia|]. rewrite Hx. f_equal. symmetry.
  rewrite <- (to_data _ _ _ _ _ Ht _ _ Hx). f_equal. unfold circ, MDA_HEADER_SIZE.
  destruct (Z.ltb_spec (rl_offset r + Z.of_nat k) size), (Z.ltb_spec (rl_offset r + Z.of_nat (k + j)) size); lia.
Qed.

(** The name is found at the start of a text of the VG. *)
Lemma find_named d a h name t i (precommitted : bool) :
  area_ok d a h -> text_on d a (mh_size h) (locn_at h i) t -> named name t ->
  (if precommitted then i = 1%nat /\ rl_offset (locn_at h 1) <> rl_offset (locn_at h 0) else i = 0%nat) ->
  find_vg_rlocn d a h name precommitted = (Some i, precommitted).
Proof.
  intros Ha Ht (Hne & Hnl & c & rest & -> & Hc) Hi. destruct (to_locn _ _ _ _ _ Ht) as (Ho & Hm & Hl).
  pose proof (ao_sectors _ _ _ Ha) as [Hs1 Hs2]. pose proof (ao_fits _ _ _ Ha). pose proof (ao_dev _ _ _ Ha).
  pose proof (ao_start _ _ _ Ha).
  unfold find_vg_rlocn.
  set (use1 := precommitted && negb (rl_size (locn_at h 1) =? 0) && negb (rl_offset (locn_at h 1) =? rl_offset (locn_at h 0))).
  assert (use1 = precommitted) as ->.
  { unfold use1. destruct precommitted; [|done]. destruct Hi as [-> Hne'].
    rewrite (proj2 (Z.eqb_neq _ _)), (proj2 (Z.eqb_neq (rl_offset _) _)) by (done || lia). done. }
  assert ((if precommitted then locn_at h 1 else locn_at h 0) = locn_at h i) as ->
    by (destruct precommitted; [destruct Hi as [-> _]|subst i]; done).
  assert ((if precommitted then 1%nat else 0%nat) = i) as -> by (destruct precommitted; [destruct Hi as [-> _]|subst i]; done).
  rewrite (proj2 (Z.eqb_neq (rl_offset (locn_at h i)) 0)) by lia. cbn [andb].
  rewrite bool_decide_eq_false_2 by done.
  set (r := locn_at h i) in *. rewrite wrap64_small by lia.
  destruct (dev_read d (area_start a + rl_offset r) (NAME_LEN + 2)) as [buf|] eqn:E; cycle 1.
  { unfold dev_read, dev_in_range, NAME_LEN in E.
    rewrite (proj2 (Z.leb_le _ _)), (proj2 (Z.leb_le (_ + _) _)) in E by lia. done. }
  assert (forall k, (k <= length name)%nat -> buf !! k = (name ++ c :: rest) !! k) as Hbuf.
  { intros k Hk. unfold dev_read in E. destruct (dev_in_range _ _ _); [|done]. apply (inj Some) in E. subst buf.
    assert (length (name ++ c :: rest) = S (length name + length rest)) as Hlen by (rewrite length_app; cbn; lia).
    destruct (lookup_lt_is_Some_2 (name ++ c :: rest) k) as [x Hx]; [lia|].
    rewrite Hx. rewrite lookup_map, lookup_seqZ_lt by (unfold NAME_LEN; lia). cbn. f_equal.
    rewrite <- (to_data _ _ _ _ _ Ht _ _ Hx). unfold circ.
    destruct (Z.ltb_spec (rl_offset r + Z.of_nat k) (mh_size h)); [f_equal; lia|lia]. }
  assert (take (length name) buf = name) as ->.
  { apply list_eq. intros k. destruct (decide (k < length name)%nat).
    - rewrite lookup_take_lt, Hbuf, lookup_app_l by lia. done.
    - rewrite lookup_take_ge, lookup_ge_None_2 by lia. done. }
  rewrite bool_decide_eq_true_2, Hbuf, lookup_app_r, Nat.sub_diag by (done || lia).
  cbn [lookup list_lookup default from_option id andb]. by rewrite Hc.
Qed.

Lemma area_ok_read d a h : area_ok d a h -> raw_read_mda_header d a = Some h.
Proof.
  intros Ha. rewrite <- (ao_stamp _ _ _ Ha). apply raw_read_sector; [|apply Ha..].
  pose proof (ao_start _ _ _ Ha). pose proof (ao_fits _ _ _ Ha). pose proof (ao_dev _ _ _ Ha).
  pose proof (ao_sectors _ _ _ Ha). unfold is_u64. lia.
Qed.

(** The circular read of a text. *)
Lemma text_read_circular d a h r t :
  area_ok d a h -> text_on d a (mh_size h) r t ->
  let w := if mh_size h <? rl_offset r + rl_size r then rl_offset r + rl_size r - mh_size h else 0 in
  0 <= w < rl_size r /\ w < rl_offset r /\
  dev_read_circular d (area_start a + rl_offset r) (rl_size r - w) (area_start a + MDA_HEADER_SIZE) w = Some t.
Proof.
  intros Ha Ht w. destruct (to_locn _ _ _ _ _ Ht) as (Ho & Hm & Hl). pose proof (to_len _ _ _ _ _ Ht) as Hlen.
  pose proof (ao_sectors _ _ _ Ha) as [Hs1 Hs2]. pose proof (ao_fits _ _ _ Ha). pose proof (ao_start _ _ _ Ha).
  assert (0 <= w < rl_size r /\ w < rl_offset r /\ (w = 0 \/ rl_offset r + (rl_size r - w) = mh_size h) /\
    rl_offset r + (rl_size r - w) <= mh_size h) as (Hw1 & Hw2 & Hw3 & Hw4).
  { unfold w. destruct (Z.ltb_spec (mh_size h) (rl_offset r + rl_size r)); lia. }
  split; [done|]. split; [done|]. unfold dev_read_circular.
  assert (area_start a + rl_offset r = circ a (mh_size h) (rl_offset r) (Z.of_nat 0)) as ->.
  { unfold circ. rewrite (proj2 (Z.ltb_lt _ _)) by lia. lia. }
  replace (rl_size r - w) with (Z.of_nat (Z.to_nat (rl_size r - w))) by lia.
  rewrite (text_read d a (mh_size h) r t 0) by (done || lia). rewrite drop_0.
  destruct (Z.eqb_spec w 0) as [E|Hwne].
  { f_equal. apply take_ge. lia. }
  assert (area_start a + MDA_HEADER_SIZE =
    circ a (mh_size h) (rl_offset r) (Z.of_nat (Z.to_nat (rl_size r - w)))) as ->.
  { unfold circ, MDA_HEADER_SIZE. rewrite (proj2 (Z.ltb_ge _ _)) by lia. lia. }
  replace w with (Z.of_nat (Z.to_nat w)) at 2 by lia.
  rewrite (text_read d a (mh_size h) r t) by (done || lia). f_equal.
  rewrite (take_ge (drop _ t)) by (rewrite length_drop; lia). apply take_drop.
Qed.

Lemma read_slot d a h name t i (precommitted : bool) :
  area_ok d a h -> text_on d a (mh_size h) (locn_at h i) t -> named name t ->
  (if precommitted then i = 1%nat /\ rl_offset (locn_at h 1) <> rl_offset (locn_at h 0) else i = 0%nat) ->
  vg_read_raw_area d a name precommitted = Some (t, precommitted).
Proof.
  intros Ha Ht Hn Hi. unfold vg_read_raw_area. rewrite (area_ok_read d a h Ha).
  rewrite (find_named d a h name t i) by done.
  set (r := locn_at h i) in *.
  destruct (text_read_circular d a h r t Ha Ht) as (Hw1 & Hw2 & Hread). revert Hw1 Hw2 Hread.
  destruct (to_locn _ _ _ _ _ Ht) as (Ho & Hm & Hl). pose proof (to_len _ _ _ _ _ Ht) as Hlen.
  pose proof (ao_sectors _ _ _ Ha) as [Hs1 Hs2]. pose proof (ao_fits _ _ _ Ha). pose proof (ao_start _ _ _ Ha).
  pose proof (ao_dev _ _ _ Ha). rewrite (wrap64_small (rl_offset r + rl_size r)) by lia.
  set (w := if mh_size h <? rl_offset r + rl_size r then rl_offset r + rl_size r - mh_size h else 0).
  intros Hw1 Hw2 Hread.
  assert ((if mh_size h <? rl_offset r + rl_size r then wrap32 (rl_offset r + rl_size r - mh_size h) else 0) = w) as ->.
  { unfold w in *. destruct (Z.ltb_spec (mh_size h) (rl_offset r + rl_size r)); [apply wrap32_small; lia|done]. }
  rewrite (proj2 (Z.ltb_ge _ _)), wrap32_small, !wrap64_small by (unfold MDA_HEADER_SIZE; lia).
  rewrite Hread. pose proof (to_u8 _ _ _ _ _ Ht) as Hu.
  rewrite calc_crc_spec by (done || unfold is_u32; lia).
  rewrite calc_crc_spec; [|by apply Forall_drop|unfold is_u32; lia|rewrite length_drop; lia].
  rewrite <- crc_ref_app, (take_ge (drop _ t)) by (rewrite length_drop; lia).
  rewrite take_drop, (to_crc _ _ _ _ _ Ht), Z.eqb_refl. done.
Qed.

(** ** The next place *)

(** The space a text takes up to the start of the next one. *)
Definition padded (len : Z) : Z := len + (512 - len mod 512).

(** Where the next text goes. *)
Definition next_off (size off len : Z) : Z :=
  if off + padded len <? size then off + padded len else off + padded len - size + 512.

Section place.
Context (size : Z) (Hsize : size mod 512 = 0 /\ 1024 <= size < 2 ^ 32).
Context (off len : Z) (Hold : locn_ok size off len).
Context (newlen : Z) (Hnew : 0 < newlen) (Hfit : padded len + newlen <= size - 512).

Lemma padded_range : len < padded len <= len + 512 /\ padded len mod 512 = 0.
Proof. unfold padded. destruct Hold as (? & ? & ?). lia. Qed.

Lemma next_off_ok : locn_ok size (next_off size off len) newlen.
Proof.
  pose proof padded_range. destruct Hold as (? & ? & ?). unfold locn_ok, next_off.
  destruct (Z.ltb_spec (off + padded len) size); lia.
Qed.

Lemma next_rlocn_offset_spec r h :
  mh_size h = size -> rl_offset r = off -> rl_size r = len ->
  next_rlocn_offset (Some r) h = Some (next_off size off len).
Proof.
  intros Hs Ho Hl. pose proof padded_range as [Hp _]. unfold padded in *. destruct Hold as (H1 & H2 & H3).
  unfold next_rlocn_offset, SECTOR_SIZE, MDA_HEADER_SIZE. rewrite Hs, Ho, Hl.
  rewrite (wrap64_small (size - 512)) by lia. rewrite (proj2 (Z.eqb_neq _ _)) by lia.
  rewrite (wrap64_small (off + len + (512 - len mod 512) - 512)) by lia. f_equal. unfold next_off, padded.
  destruct (Z.ltb_spec (off + (len + (512 - len mod 512))) size).
  - rewrite Z.mod_small by lia. rewrite wrap64_small; lia.
  - replace ((off + len + (512 - len mod 512) - 512) mod (size - 512))
      with (off + len + (512 - len mod 512) - size); [rewrite wrap64_small; lia|].
    apply (Z.mod_unique_pos _ _ 1); lia.
Qed.

(** The new text does not touch the old one. *)
Lemma circ_disjoint a k j :
  0 <= k < len -> 0 <= j < newlen -> circ a size off k <> circ a size (next_off size off len) j.
Proof.
  intros Hk Hj. pose proof padded_range as [Hp _]. destruct Hold as (H1 & H2 & H3).
  unfold circ, next_off, MDA_HEADER_SIZE.
  destruct (Z.ltb_spec (off + padded len) size), (Z.ltb_spec (off + k) size);
    repeat match goal with |- context [?x <? ?y] => destruct (Z.ltb_spec x y) end; lia.
Qed.

Lemma too_large_fits r :
  rl_offset r = off -> rl_size r = len ->
  too_large size (Some r) (next_off size off len) newlen = false.
Proof.
  intros Ho Hl. pose proof padded_range as [Hp _]. pose proof next_off_ok as (N1 & N2 & N3).
  destruct Hold as (H1 & H2 & H3). unfold too_large, MDA_HEADER_SIZE. rewrite Ho, Hl.
  set (n := next_off size off len) in *.
  assert (n = off + padded len \/ n = off + padded len - size + 512 /\ size <= off + padded len) as Hn.
  { unfold n, next_off. destruct (Z.ltb_spec (off + padded len) size); lia. }
  rewrite !(wrap64_small (n + newlen)), !(wrap64_small (off + len)) by lia.
  destruct (Z.ltb_spec size (n + newlen)), (Z.ltb_spec size (off + len));
    rewrite ?wrap64_small by lia; repeat match goal with
      | |- context [?x =? ?y] => destruct (Z.eqb_spec x y); try lia
      end; cbn [negb andb orb]; rewrite ?wrap64_small by lia;
    repeat match goal with
      | |- context [?x <? ?y] => destruct (Z.ltb_spec x y); try lia
      | |- context [?x <=? ?y] => destruct (Z.leb_spec x y); try lia
      end; done.
Qed.

End place.

Lemma too_large_first size len :
  1024 <= size < 2 ^ 32 -> 0 < len <= size - 512 -> too_large size None MDA_HEADER_SIZE len = false.
Proof.
  intros Hs Hl. unfold too_large, MDA_HEADER_SIZE. rewrite !(wrap64_small (512 + len)) by lia.
  destruct (Z.ltb_spec size (512 + len)); [lia|]. cbn [negb andb orb Z.eqb].
  apply Z.leb_gt. lia.
Qed.

(** ** Writing a text *)

(** The device after the writes of [_vg_write_raw], and whether both succeeded. *)
Definition write_text (d : device) (a : device_area) (size off : Z) (buf : list Z) (io1 io2 : io) : bool * device :=
  let len := Z.of_nat (length buf) in
  let w := if size <? off + len then off + len - size else 0 in
  let n1 := Z.to_nat (len - w) in
  let '(ok, d) := dev_write d (area_start a + off) (take n1 buf) io1 in
  if negb ok then (false, d) else
  if w =? 0 then (true, d) else dev_write d (area_start a + MDA_HEADER_SIZE) (drop n1 buf) io2.

Lemma agree_byte d d' i : agree d d' i 1 -> dev_data d' i = dev_data d i.
Proof. intros (_ & _ & H). symmetry. apply H. lia. Qed.

(** How much of a text goes round. *)
Definition wrapped (size off len : Z) : Z := if size <? off + len then off + len - size else 0.

Lemma wrapped_spec size off len :
  locn_ok size off len -> size mod 512 = 0 ->
  let w := wrapped size off len in
  0 <= w < len /\ off + (len - w) <= size /\ (w = 0 \/ off + (len - w) = size) /\ 512 + block_up 512 w <= off.
Proof.
  intros (Ho & Hm & Hl) Hs. unfold wrapped, block_up. destruct (Z.ltb_spec size (off + len)); lia.
Qed.

Section write.
Context (d : device) (a : device_area) (size off : Z) (buf : list Z).
Hypothesis Halign : area_start a mod 512 = 0.
Hypothesis Hsize : size mod 512 = 0.
Hypothesis Hok : locn_ok size off (Z.of_nat (length buf)).
Local Abbreviation len := (Z.of_nat (length buf)).
Local Abbreviation n1 := (Z.to_nat (len - wrapped size off len)).

(** The two parts in blocks. *)
Lemma write_parts :
  length (take n1 buf) = n1 /\ length (drop n1 buf) = Z.to_nat (wrapped size off len) /\
  block_down 512 (area_start a + off) = area_start a + off /\
  block_down 512 (area_start a + MDA_HEADER_SIZE) = area_start a + MDA_HEADER_SIZE /\
  (forall x, block_up 512 (area_start a + off + x) = area_start a + off + block_up 512 x) /\
  (forall x, block_up 512 (area_start a + MDA_HEADER_SIZE + x) = area_start a + MDA_HEADER_SIZE + block_up 512 x).
Proof.
  pose proof (wrapped_spec _ _ _ Hok Hsize) as (? & ? & ? & ?). destruct Hok as (? & ? & ?).
  rewrite length_take, length_drop. unfold block_down, block_up, MDA_HEADER_SIZE.
  split; [lia|]. split; [lia|]. split; [lia|]. split; [lia|]. split; intros x; lia.
Qed.

(** Whatever happens, only the sectors of the new text change. *)
Lemma write_text_frame io1 io2 i : confined d io1 -> confined d io2 ->
  (forall j, 0 <= j < block_up 512 len -> i <> circ a size off j) ->
  dev_data (write_text d a size off buf io1 io2).2 i = dev_data d i.
Proof.
  intros Hc1 Hc2 Hi. unfold write_text. fold (wrapped size off len).
  pose proof (wrapped_spec _ _ _ Hok Hsize) as (Hw & Hw2 & Hw3 & Hw4).
  pose proof write_parts as (Ht & Hd & B1 & B2 & B3 & B4). destruct Hok as (Ho & Hom & Hl).
  set (w := wrapped size off len) in *. set (m := Z.to_nat (len - w)) in *.
  pose proof (block_up_ge 512 len ltac:(lia)) as Hul.
  assert (i < area_start a + off \/ area_start a + off + block_up 512 (len - w) <= i) as Hi1.
  { destruct (Z.lt_ge_cases i (area_start a + off)); [by left|]. right. apply Z.nlt_ge. intros Hlt.
    assert (block_up 512 (len - w) <= block_up 512 len /\ off + block_up 512 (len - w) <= size) by (unfold block_up in *; lia).
    apply (Hi (i - area_start a - off)); [lia|]. unfold circ. destruct (Z.ltb_spec (off + (i - area_start a - off)) size); lia. }
  assert (w = 0 \/ i < area_start a + 512 \/ area_start a + 512 + block_up 512 w <= i) as Hi2.
  { destruct (Z.eq_dec w 0); [by left|]. right. destruct (Z.lt_ge_cases i (area_start a + 512)); [by left|]. right.
    apply Z.nlt_ge. intros Hlt.
    assert (len - w + block_up 512 w <= block_up 512 len) by (unfold block_up in *; lia).
    apply (Hi (i - area_start a - 512 + (len - w))); [lia|].
    unfold circ, MDA_HEADER_SIZE. destruct (Z.ltb_spec (off + (i - area_start a - 512 + (len - w))) size); lia. }
  assert (agree d (dev_write d (area_start a + off) (take m buf) io1).2 i 1) as F1.
  { apply dev_write_sectors; [done|]. rewrite B1, Ht, B3. unfold m. rewrite Z2Nat.id by lia. lia. }
  destruct (dev_write d (area_start a + off) _ io1) as [ok d1]. cbn [snd] in F1.
  destruct ok; cbn [negb snd]; [|by rewrite (agree_byte _ _ _ F1)].
  destruct (Z.eqb_spec w 0); cbn [snd]; [by rewrite (agree_byte _ _ _ F1)|].
  assert (agree d1 (dev_write d1 (area_start a + MDA_HEADER_SIZE) (drop m buf) io2).2 i 1) as F2.
  { apply dev_write_sectors; [by apply (confined_block d); [apply F1|]|].
    rewrite B2, Hd, B4, Z2Nat.id by lia. unfold MDA_HEADER_SIZE. lia. }
  rewrite (agree_byte _ _ _ F2), (agree_byte _ _ _ F1). done.
Qed.

Lemma write_text_shape io1 io2 :
  dev_size (write_text d a size off buf io1 io2).2 = dev_size d /\
  dev_block (write_text d a size off buf io1 io2).2 = dev_block d.
Proof.
  unfold write_text. set (w := if _ <? _ then _ else _).
  pose proof (dev_write_size d (area_start a + off) (take (Z.to_nat (len - w)) buf) io1) as S1.
  pose proof (dev_write_block d (area_start a + off) (take (Z.to_nat (len - w)) buf) io1) as S2.
  destruct (dev_write d _ _ io1) as [[] d1]; cbn [negb snd] in *; [|done].
  destruct (w =? 0); [done|]. by rewrite dev_write_size, dev_write_block.
Qed.

(** When both writes succeed the text is there. *)
Lemma write_text_ok io1 io2 : confined d io2 ->
  0 <= area_start a -> area_start a + size <= dev_size d -> io_ok io1 = true -> io_ok io2 = true ->
  (write_text d a size off buf io1 io2).1 = true /\
  forall k x, buf !! k = Some x ->
    dev_data (write_text d a size off buf io1 io2).2 (circ a size off (Z.of_nat k)) = x.
Proof.
  intros Hc2 Hs Hfit Ho1 Ho2. unfold write_text. fold (wrapped size off len).
  pose proof (wrapped_spec _ _ _ Hok Hsize) as (Hw & Hw2 & Hw3 & Hw4).
  pose proof write_parts as (Ht & Hd & B1 & B2 & B3 & B4). destruct Hok as (Ho & Hom & Hl).
  set (w := wrapped size off len) in *. set (m := Z.to_nat (len - w)) in *.
  assert (forall k x, buf !! k = Some x -> (k < m)%nat ->
    dev_data (dev_write d (area_start a + off) (take m buf) io1).2 (circ a size off (Z.of_nat k)) = x) as P1.
  { intros k x Hk Hkn. unfold circ. rewrite (proj2 (Z.ltb_lt _ _)) by lia. rewrite Z.add_assoc.
    apply dev_write_in_place; [lia|lia|done|]. by rewrite lookup_take_lt. }
  assert ((dev_write d (area_start a + off) (take m buf) io1).1 = true) as E1.
  { destruct (lookup_lt_is_Some_2 (take m buf) 0%nat) as [x Hx]; [lia|].
    by apply (dev_write_in_place _ _ _ _ 0 x); [lia|lia|..]. }
  pose proof (dev_write_size d (area_start a + off) (take m buf) io1) as S1.
  pose proof (dev_write_block d (area_start a + off) (take m buf) io1) as S2.
  destruct (dev_write d (area_start a + off) _ io1) as [ok d1]. cbn [fst snd] in *. subst ok. cbn [negb].
  destruct (Z.eqb_spec w 0) as [E|Hne].
  - split; [done|]. intros k x Hk. apply P1; [done|]. apply lookup_lt_Some in Hk. lia.
  - split.
    { destruct (lookup_lt_is_Some_2 (drop m buf) 0%nat) as [x Hx]; [lia|].
      by apply (dev_write_in_place _ _ _ _ 0 x); unfold MDA_HEADER_SIZE; [lia|lia|..]. }
    intros k x Hk. pose proof (lookup_lt_Some _ _ _ Hk) as Hkl. destruct (decide (k < m)%nat) as [Hkn|Hkn].
    + rewrite (agree_byte d1); [by apply P1|]. apply dev_write_sectors; [by apply (confined_block d); [symmetry|]|].
      rewrite B2, Hd, B4, Z2Nat.id by lia. unfold circ, MDA_HEADER_SIZE. rewrite (proj2 (Z.ltb_lt _ _)) by lia. lia.
    + unfold circ. rewrite (proj2 (Z.ltb_ge _ _)) by lia.
      replace (area_start a + (off + Z.of_nat k - size + MDA_HEADER_SIZE))
        with (area_start a + MDA_HEADER_SIZE + Z.of_nat (k - m)) by lia.
      apply dev_write_in_place; [unfold MDA_HEADER_SIZE; lia|unfold MDA_HEADER_SIZE; lia|done|].
      rewrite lookup_drop. by replace (m + (k - m))%nat with k by lia.
Qed.

End write.

(** ** The committed text *)

(** What the area holds for the VG: no location, or a text with its name. *)
Definition committed (d : device) (a : device_area) (h : mda_header) (name : list Z) (o : option (list Z)) : Prop :=
  match o with
  | Some t => text_on d a (mh_size h) (locn_at h 0) t /\ named name t
  | None => rl_offset (locn_at h 0) = 0 /\ rl_size (locn_at h 0) = 0
  end.

(** The buffer has room for [n] bytes beside the committed text. *)
Definition room (size : Z) (o : option (list Z)) (n : Z) : Prop :=
  match o with Some t => padded (Z.of_nat (length t)) + n <= size - 512 | None => n <= size - 512 end.

(** Where they go. *)
Definition place_of (h : mda_header) (o : option (list Z)) : Z :=
  match o with
  | Some t => next_off (mh_size h) (rl_offset (locn_at h 0)) (Z.of_nat (length t))
  | None => MDA_HEADER_SIZE
  end.

Definition slot_for (o : option (list Z)) : option nat := if o is Some _ then Some 0%nat else None.

Lemma find_committed d a h name o :
  area_ok d a h -> committed d a h name o -> find_vg_rlocn d a h name false = (slot_for o, false).
Proof.
  intros Ha. destruct o as [t|]; [intros [Ht Hn]; by apply (find_named d a h name t 0)|].
  intros [H1 H2]. unfold find_vg_rlocn. cbn [andb]. by rewrite H1, H2.
Qed.

Lemma read_committed d a h name o :
  area_ok d a h -> committed d a h name o -> vg_read_raw_area d a name false = (fun t => (t, false)) <$> o.
Proof.
  intros Ha Hc. destruct o as [t|]; [destruct Hc; by eapply (read_slot d a h name t 0 false)|].
  unfold vg_read_raw_area. rewrite (area_ok_read d a h Ha). by rewrite (find_committed d a h name None Ha Hc).
Qed.

Lemma committed_place d a h name o n :
  area_ok d a h -> committed d a h name o -> 0 < n -> room (mh_size h) o n ->
  let live := option_map (locn_at h) (slot_for o) in
  next_rlocn_offset live h = Some (place_of h o) /\
  locn_ok (mh_size h) (place_of h o) n /\ too_large (mh_size h) live (place_of h o) n = false.
Proof.
  intros Ha Hc Hn Hroom. pose proof (ao_sectors _ _ _ Ha) as Hs. destruct o as [t|]; cbn [slot_for option_map].
  - destruct Hc as [Ht _]. cbn in Hroom. pose proof (to_len _ _ _ _ _ Ht) as Hlen.
    pose proof (to_locn _ _ _ _ _ Ht) as Hok. cbn [place_of]. rewrite <- Hlen in Hroom |- *.
    split; [by apply (next_rlocn_offset_spec _ Hs _ _ Hok n)|].
    split; [by apply next_off_ok|by apply (too_large_fits _ Hs _ _ Hok n)].
  - cbn in Hroom. split; [done|]. split; [|apply too_large_first; [lia|done]].
    unfold locn_ok, place_of, MDA_HEADER_SIZE. split; [lia|]. split; [done|lia].
Qed.

(** The committed text and the place of the next are apart. *)
Lemma committed_apart d a h name t n k j :
  area_ok d a h -> committed d a h name (Some t) -> 0 < n -> room (mh_size h) (Some t) n ->
  0 <= k < rl_size (locn_at h 0) -> 0 <= j < n ->
  circ a (mh_size h) (rl_offset (locn_at h 0)) k <> circ a (mh_size h) (place_of h (Some t)) j.
Proof.
  intros Ha [Ht _] Hn Hroom Hk Hj. pose proof (ao_sectors _ _ _ Ha) as Hs. cbn in Hroom.
  pose proof (to_len _ _ _ _ _ Ht) as Hlen. pose proof (to_locn _ _ _ _ _ Ht) as Hok. cbn [place_of].
  rewrite <- Hlen in Hroom |- *. by apply (circ_disjoint _ Hs _ _ Hok n).
Qed.

(** A change of the device that leaves the header sector and the committed text
    alone. *)
Lemma area_ok_agree d d' a h :
  area_ok d a h -> agree d d' (area_start a) MDA_HEADER_SIZE -> area_ok d' a h.
Proof.
  intros [] Hag. pose proof Hag as (Hsz & Hb & _). split; rewrite <- ?Hsz, <- ?Hb; try done.
  by rewrite <- (dev_read_agree d d').
Qed.

Lemma circ_behind a size off n j :
  locn_ok size off n -> 0 <= j < n ->
  area_start a + 512 <= circ a size off j < area_start a + size.
Proof.
  intros (H1 & H2 & H3) Hj. unfold circ, MDA_HEADER_SIZE. destruct (Z.ltb_spec (off + j) size); lia.
Qed.

Lemma room_up size o n : size mod 512 = 0 -> room size o n -> room size o (block_up 512 n).
Proof. intros Hs. destruct o; cbn [room]; unfold padded, block_up; lia. Qed.

Lemma write_text_keeps d a h name o u io1 io2 : confined d io1 -> confined d io2 ->
  area_ok d a h -> committed d a h name o -> u <> [] -> room (mh_size h) o (Z.of_nat (length u)) ->
  let d' := (write_text d a (mh_size h) (place_of h o) u io1 io2).2 in
  area_ok d' a h /\ committed d' a h name o.
Proof.
  intros Hc1 Hc2 Ha Hc Hu Hroom d'. assert (0 < Z.of_nat (length u)) as Hn by (destruct u; [done|cbn; lia]).
  pose proof (ao_sectors _ _ _ Ha) as [Hs _]. pose proof (block_up_ge 512 (Z.of_nat (length u)) ltac:(lia)) as Hup.
  pose proof (room_up _ _ _ Hs Hroom) as Hroom'.
  destruct (committed_place d a h name o _ Ha Hc Hn Hroom) as (_ & Hok & _).
  destruct (committed_place d a h name o (block_up 512 (Z.of_nat (length u))) Ha Hc ltac:(lia) Hroom') as (_ & Hok' & _).
  pose proof (write_text_frame d a (mh_size h) (place_of h o) u (ao_aligned _ _ _ Ha) Hs Hok io1 io2) as Hf. specialize (fun i => Hf i Hc1 Hc2).
  destruct (write_text_shape d a (mh_size h) (place_of h o) u io1 io2) as [Hz Hb]. fold d' in Hf, Hz, Hb.
  assert (agree d d' (area_start a) MDA_HEADER_SIZE) as Hag.
  { split; [done|]. split; [done|]. intros i Hi. symmetry. apply Hf. intros j Hj.
    pose proof (circ_behind a _ _ _ j Hok' Hj). unfold MDA_HEADER_SIZE in *. lia. }
  split; [by eapply area_ok_agree|]. destruct o as [t|]; [|done]. destruct Hc as [Ht Hnm]. split; [|done].
  eapply text_on_agree; [done|]. intros k Hk. apply Hf. intros j Hj.
  apply (committed_apart d a h name t (block_up 512 (Z.of_nat (length u)))); [done|by split|lia|done..].
Qed.

(** What [_vg_write_raw] does with a text it accepts. *)
Lemma vg_write_raw_accepts a h name o u io1 io2 st off :
  area_ok (ms_dev st) a h -> committed (ms_dev st) a h name o ->
  Forall is_u8 u -> u <> [] -> ms_buf st = None ->
  let live := option_map (locn_at h) (slot_for o) in
  let len := Z.of_nat (length u) in
  next_rlocn_offset live h = Some off -> 512 <= off < mh_size h -> len < mh_size h ->
  too_large (mh_size h) live off len = false ->
  let r c := RawLocn off len c (rl_flags (ms_rlocn st)) in
  let w := write_text (ms_dev st) a (mh_size h) off u io1 io2 in
  vg_write_raw true true a name (Some u) io1 io2 st =
    if w.1 then Some (true, MdaState w.2 (r (crc_ref INITIAL_CRC u)) (Some u))
    else failed_write w.2 (r (rl_checksum (ms_rlocn st))).
Proof.
  intros Ha Hc Hu8 Hu Hbuf live len Hnext Ho Hl Hlarge r w.
  assert (0 < len) as Hn by (unfold len; destruct u; [done|cbn; lia]).
  unfold vg_write_raw. cbn [negb]. rewrite (area_ok_read _ a h Ha), (find_committed _ a h name o Ha Hc).
  cbn [fst]. fold live. rewrite Hnext, Hbuf. cbn [rl_size rl_checksum rl_flags].
  assert ((if Some u is Some (b :: bs) then Some (b :: bs) else None) = Some u) as -> by (by destruct u).
  fold len. rewrite Hlarge.
  pose proof (ao_sectors _ _ _ Ha) as [_ Hs]. pose proof (ao_start _ _ _ Ha). pose proof (ao_fits _ _ _ Ha).
  pose proof (ao_dev _ _ _ Ha). rewrite !(wrap64_small (off + len)) by lia.
  unfold w, write_text. fold len.
  set (wr := if mh_size h <? off + len then off + len - mh_size h else 0).
  assert ((if mh_size h <? off + len then wrap64 (off + len - mh_size h) else 0) = wr) as ->.
  { unfold wr. destruct (Z.ltb_spec (mh_size h) (off + len)); [apply wrap64_small; lia|done]. }
  assert (0 <= wr < len) as Hwr by (unfold wr; destruct (Z.ltb_spec (mh_size h) (off + len)); lia).
  rewrite !wrap64_small by (unfold MDA_HEADER_SIZE; lia). rewrite !wrap32_small by lia.
  destruct (dev_write (ms_dev st) _ _ io1) as [[] d1]; cbn [negb fst snd]; [|done].
  rewrite calc_crc_spec by (done || unfold is_u32; lia).
  destruct (Z.eqb_spec wr 0) as [E|Hne]; cbn [negb fst snd].
  { rewrite take_ge by lia. done. }
  destruct (dev_write d1 _ _ io2) as [[] d2]; cbn [negb fst snd]; [|done].
  rewrite calc_crc_spec; [|by apply Forall_drop|unfold is_u32; lia|rewrite length_drop; lia].
  rewrite <- crc_ref_app, (take_ge (drop _ u)) by (rewrite length_drop; lia). by rewrite take_drop.
Qed.

(** A text that has room is accepted. *)
Lemma vg_write_raw_eq a h name o u io1 io2 st :
  area_ok (ms_dev st) a h -> committed (ms_dev st) a h name o ->
  Forall is_u8 u -> u <> [] -> room (mh_size h) o (Z.of_nat (length u)) -> ms_buf st = None ->
  let r c := RawLocn (place_of h o) (Z.of_nat (length u)) c (rl_flags (ms_rlocn st)) in
  let w := write_text (ms_dev st) a (mh_size h) (place_of h o) u io1 io2 in
  vg_write_raw true true a name (Some u) io1 io2 st =
    if w.1 then Some (true, MdaState w.2 (r (crc_ref INITIAL_CRC u)) (Some u))
    else failed_write w.2 (r (rl_checksum (ms_rlocn st))).
Proof.
  intros Ha Hc Hu8 Hu Hroom Hbuf r w.
  assert (0 < Z.of_nat (length u)) as Hn by (destruct u; [done|cbn; lia]).
  destruct (committed_place _ a h name o _ Ha Hc Hn Hroom) as (Hnext & (Ho & _ & Hl) & Hlarge).
  apply (vg_write_raw_accepts a h name o); try done. lia.
Qed.

(** ** Writing the header *)

Lemma locn_at_set h i j r :
  header_wf h -> (i < 19)%nat -> locn_at (set_locn h i r) j = if decide (i = j) then r else locn_at h j.
Proof.
  intros Hw Hi. unfold locn_at. cbn. destruct (decide (i = j)) as [<-|]; [|by rewrite list_lookup_insert_ne].
  rewrite list_lookup_insert_eq; [done|]. by rewrite (proj1 (hw_locns _ Hw)).
Qed.

Lemma set_locn_wf h i r : header_wf h -> locn_wf r -> header_wf (set_locn h i r).
Proof.
  intros [] Hr. split; try done. cbn. rewrite length_insert. destruct hw_locns0. split; [done|].
  by apply Forall_insert.
Qed.

Lemma locn_at_wf h i : header_wf h -> locn_wf (locn_at h i).
Proof.
  intros Hw. unfold locn_at. destruct (mh_locns h !! i) as [r|] eqn:E; cbn.
  - by eapply Forall_lookup_1; [apply (hw_locns _ Hw)|].
  - unfold locn_wf, is_u64, is_u32. cbn. lia.
Qed.

Lemma set_ignored_wf r b : locn_wf r -> locn_wf (rlocn_set_ignored r b).
Proof.
  intros (H1 & H2 & H3 & H4). unfold locn_wf. do 3 (split; [done|]). cbn.
  destruct b; [apply is_u32_lor|apply is_u32_land]; try done; unfold is_u32, RAW_LOCN_IGNORED; lia.
Qed.

Lemma wipe_wf r : locn_wf r -> locn_wf (wipe_locn r).
Proof. intros (H1 & H2 & H3 & H4). unfold locn_wf, is_u64, is_u32 in *. cbn. lia. Qed.

(** A header of the same area written in full. *)
Lemma header_written d a h h' o :
  confined d o -> area_ok d a h -> header_wf h' -> stamp (area_start a) h' = h' -> mh_size h' = mh_size h -> io_ok o = true ->
  exists d', raw_write_mda_header d (area_start a) h' o = (true, d') /\ area_ok d' a h' /\ dev_block d' = dev_block d /\
    forall i, area_start a + 512 <= i -> dev_data d' i = dev_data d i.
Proof.
  intros Hco Ha Hw Hst Hsz Ho. pose proof (ao_sectors _ _ _ Ha) as [_ Hs]. pose proof (ao_start _ _ _ Ha).
  pose proof (ao_fits _ _ _ Ha). pose proof (ao_dev _ _ _ Ha). pose proof (ao_aligned _ _ _ Ha) as Hal.
  assert (is_u64 (area_start a)) as Hu by (unfold is_u64; lia).
  pose proof (header_sector_length _ h' Hu Hw) as Hlen. rewrite raw_write_eq by done.
  assert (forall i, area_start a + 512 <= i ->
    dev_data (dev_write d (area_start a) (header_sector (area_start a) h') o).2 i = dev_data d i) as Hd.
  { intros i Hi. apply agree_byte. apply dev_write_sectors; [done|]. rewrite Hlen. unfold block_up. lia. }
  destruct (dev_write_done d (area_start a) (header_sector (area_start a) h') o) as [f E]; [lia|lia|done|].
  rewrite E in *. eexists. split; [done|]. split; [|split; [done|exact Hd]].
  destruct Ha. split; cbn [set_data dev_size dev_block dev_data]; rewrite ?Hsz; try done.
  change MDA_HEADER_SIZE with (Z.of_nat 512). rewrite <- Hlen. apply dev_read_put; lia.
Qed.

(** Texts do not lie in the header sector. *)
Lemma text_on_behind d d' a size r t :
  text_on d a size r t -> (forall i, area_start a + 512 <= i -> dev_data d' i = dev_data d i) -> text_on d' a size r t.
Proof.
  intros Ht Hd. eapply text_on_agree; [done|]. intros k Hk. apply Hd.
  pose proof (circ_behind a size (rl_offset r) (rl_size r) k (to_locn _ _ _ _ _ Ht) Hk). lia.
Qed.

(** ** Precommit, commit and revert *)

(** What a location says of its text. *)
Definition locn_key (r : raw_locn) : Z * Z * Z := (rl_offset r, rl_size r, rl_checksum r).

Lemma text_on_key d a size r r' t : locn_key r = locn_key r' -> text_on d a size r t -> text_on d a size r' t.
Proof. unfold locn_key. intros E [H1 H2 H3 H4 H5]. injection E as E1 E2 E3. split; rewrite <- ?E1, <- ?E2, <- ?E3; done. Qed.

(** The first two slots of the header [_vg_commit_raw_rlocn] writes. *)
Lemma commit_header_slots h o (pre ign : bool) r start :
  header_wf h -> locn_wf r -> stamp start h = h ->
  let h' := commit_header h (slot_for o) pre ign r in
  let kept i := if o is Some _ then locn_key (locn_at h i) else (0, 0, 0) in
  header_wf h' /\ stamp start h' = h' /\ mh_size h' = mh_size h /\
  locn_key (locn_at h' 0) = (if pre then kept 0%nat else if rl_size r =? 0 then kept 0%nat else locn_key r) /\
  locn_key (locn_at h' 1) = (if pre then if rl_size r =? 0 then kept 1%nat else locn_key r else (0, 0, 0)).
Proof.
  intros Hw Hr Hst h' kept.
  set (h0 := if slot_for o is Some _ then h else wipe_slot 2 (wipe_slot 1 (wipe_slot 0 h))).
  assert (forall g i, header_wf g -> header_wf (wipe_slot i g)) as Hwipe.
  { intros g i Hg. unfold wipe_slot. apply set_locn_wf; [done|]. by apply wipe_wf, locn_at_wf. }
  assert (header_wf h0) as Hw0 by (unfold h0; destruct o; cbn; auto).
  assert (mh_magic h0 = mh_magic h /\ mh_version h0 = mh_version h /\ mh_start h0 = mh_start h /\ mh_size h0 = mh_size h)
    as (M1 & M2 & M3 & M4) by (unfold h0; destruct o; done).
  assert (forall i, (i < 2)%nat -> locn_key (locn_at h0 i) = kept i) as Hk.
  { intros i Hi. unfold h0, kept. destruct o as [t|]; cbn; [done|]. unfold wipe_slot.
    rewrite !locn_at_set by (try lia; auto 12 using set_locn_wf, wipe_wf, locn_at_wf).
    destruct i as [|[|i]]; [done|done|lia]. }
  set (h1 := if pre then h0 else wipe_slot 1 h0). set (i := if pre then 1%nat else 0%nat).
  assert (header_wf h1) as Hw1 by (unfold h1; destruct pre; auto).
  set (h2 := if rl_size r =? 0 then h1
             else set_locn h1 i (RawLocn (rl_offset r) (rl_size r) (rl_checksum r) (rl_flags (locn_at h1 i)))).
  assert (locn_wf (RawLocn (rl_offset r) (rl_size r) (rl_checksum r) (rl_flags (locn_at h1 i)))) as Hrw.
  { destruct Hr as (R1 & R2 & R3 & _). destruct (locn_at_wf h1 i Hw1) as (_ & _ & _ & R4). done. }
  assert (header_wf h2) as Hw2 by (unfold h2; destruct (rl_size r =? 0); auto using set_locn_wf).
  assert (h' = set_locn h2 0 (rlocn_set_ignored (locn_at h2 0) ign)) as ->.
  { unfold h', commit_header. fold h0. unfold h2, h1, i. destruct o, pre; done. }
  split; [apply set_locn_wf; [done|]; by apply set_ignored_wf, locn_at_wf|].
  split.
  { assert (mh_magic h = FMTT_MAGIC /\ mh_version h = FMTT_VERSION /\ mh_start h = start) as (S1 & S2 & S3)
      by (rewrite <- Hst; done).
    unfold stamp, set_locn. cbn. f_equal; unfold h2, h1; destruct pre, (rl_size r =? 0); cbn; congruence. }
  split; [unfold h2, h1; destruct pre, (rl_size r =? 0); done|].
  rewrite !locn_at_set by (done || lia). cbn [decide]. unfold h2, h1, i. rewrite <- !Hk by lia.
  destruct pre, (rl_size r =? 0); unfold wipe_slot; cbn;
    rewrite ?locn_at_set by (try lia; auto 12 using set_locn_wf, wipe_wf, locn_at_wf); done.
Qed.

(** The text [u] lies at [r], away from the committed text. *)
Record staged (d : device) (a : device_area) (h : mda_header) (name : list Z) (o : option (list Z))
    (r : raw_locn) (u : list Z) : Prop := {
  st_area : area_ok d a h;
  st_old : committed d a h name o;
  st_text : text_on d a (mh_size h) r u;
  st_named : named name u;
  st_wf : locn_wf r;
  st_apart : rl_offset r <> rl_offset (locn_at h 0) }.

Lemma committed_key d d' a h h' name o :
  committed d a h name o -> mh_size h' = mh_size h ->
  (forall i, area_start a + 512 <= i -> dev_data d' i = dev_data d i) ->
  locn_key (locn_at h' 0) = (if o is Some _ then locn_key (locn_at h 0) else (0, 0, 0)) -> committed d' a h' name o.
Proof.
  intros Hc Hs Hd Hk. destruct o as [t|]; cbn.
  - destruct Hc as [Ht Hn]. split; [|done]. rewrite Hs. eapply text_on_key; [by symmetry|]. by eapply text_on_behind.
  - unfold locn_key in Hk. by injection Hk as -> -> _.
Qed.

(** One header update. *)
Lemma commit_raw_step a h name o (pre ign : bool) w st :
  io_ok w = true -> confined (ms_dev st) w -> area_ok (ms_dev st) a h -> committed (ms_dev st) a h name o -> locn_wf (ms_rlocn st) ->
  let h' := commit_header h (slot_for o) pre ign (ms_rlocn st) in
  exists d', vg_commit_raw_rlocn true a name ign pre w st =
      (true, MdaState d' (ms_rlocn st) (if pre then ms_buf st else None)) /\
    area_ok d' a h' /\ dev_block d' = dev_block (ms_dev st) /\ forall i, area_start a + 512 <= i -> dev_data d' i = dev_data (ms_dev st) i.
Proof.
  intros Hw Hco Ha Hc Hr h'.
  destruct (commit_header_slots h o pre ign _ _ (ao_wf _ _ _ Ha) Hr (ao_stamp _ _ _ Ha)) as (H1 & H2 & H3 & _).
  destruct (header_written _ a h h' w Hco Ha H1 H2 H3 Hw) as (d' & E & Ha' & Hbk & Hd).
  exists d'. split; [|done]. unfold vg_commit_raw_rlocn. cbn [negb].
  rewrite (area_ok_read _ a h Ha), (find_committed _ a h name o Ha Hc). cbn [fst]. fold h'. by rewrite E.
Qed.

Lemma precommit_step a h name o u ign w st :
  io_ok w = true -> confined (ms_dev st) w -> staged (ms_dev st) a h name o (ms_rlocn st) u ->
  exists d' h', vg_precommit_raw true a name ign w st = (true, MdaState d' (ms_rlocn st) (ms_buf st)) /\
    staged d' a h' name o (ms_rlocn st) u /\ dev_block d' = dev_block (ms_dev st) /\ locn_key (locn_at h' 1) = locn_key (ms_rlocn st).
Proof.
  intros Hw Hco [Ha Hc Ht Hn Hr Hap].
  destruct (commit_raw_step a h name o true ign w st Hw Hco Ha Hc Hr) as (d' & E & Ha' & Hbk & Hd).
  destruct (commit_header_slots h o true ign _ _ (ao_wf _ _ _ Ha) Hr (ao_stamp _ _ _ Ha)) as (_ & _ & H3 & H4 & H5).
  cbn match in H4, H5. rewrite (proj2 (Z.eqb_neq _ _)) in H5 by (destruct (to_locn _ _ _ _ _ Ht); lia).
  eexists _, _. split; [exact E|]. split; [|split; [exact Hbk|exact H5]]. split; try done.
  - by eapply committed_key.
  - rewrite H3. by eapply text_on_behind.
  - pose proof (f_equal (fun k => k.1.1) H4) as E0. unfold locn_key at 1 in E0. cbn [fst] in E0. rewrite E0.
    destruct o as [t|]; [done|]. cbn. destruct (to_locn _ _ _ _ _ Ht); lia.
Qed.

Lemma commit_done a h name o u ign w st :
  io_ok w = true -> confined (ms_dev st) w -> staged (ms_dev st) a h name o (ms_rlocn st) u ->
  exists d' h', vg_commit_raw true a name ign w st = (true, MdaState d' (ms_rlocn st) None) /\
    area_ok d' a h' /\ mh_size h' = mh_size h /\ committed d' a h' name (Some u) /\ rl_size (locn_at h' 1) = 0.
Proof.
  intros Hw Hco [Ha Hc Ht Hn Hr Hap].
  destruct (commit_raw_step a h name o false ign w st Hw Hco Ha Hc Hr) as (d' & E & Ha' & Hbk & Hd).
  destruct (commit_header_slots h o false ign _ _ (ao_wf _ _ _ Ha) Hr (ao_stamp _ _ _ Ha)) as (_ & _ & H3 & H4 & H5).
  cbn match in H4, H5. rewrite (proj2 (Z.eqb_neq _ _)) in H4 by (destruct (to_locn _ _ _ _ _ Ht); lia).
  eexists _, _. split; [exact E|]. split; [done|]. split; [done|]. split; [|by injection H5].
  split; [|done]. rewrite H3. eapply text_on_key; [by symmetry|]. by eapply text_on_behind.
Qed.

Lemma revert_done a h name o u ign w st :
  io_ok w = true -> confined (ms_dev st) w -> staged (ms_dev st) a h name o (ms_rlocn st) u ->
  exists st' h', vg_revert_raw true a name ign w st = (true, st') /\ ms_buf st' = None /\
    area_ok (ms_dev st') a h' /\ mh_size h' = mh_size h /\ committed (ms_dev st') a h' name o /\
    rl_size (locn_at h' 1) = 0.
Proof.
  intros Hw Hco [Ha Hc Ht Hn (R1 & R2 & R3 & R4) Hap]. unfold vg_revert_raw. cbn [negb].
  set (r := RawLocn _ 0 _ _). set (st0 := MdaState _ r _).
  assert (locn_wf r) as Hr by (unfold locn_wf, is_u64, is_u32 in *; cbn; lia).
  destruct (commit_raw_step a h name o false ign w st0 Hw Hco Ha Hc Hr) as (d' & E & Ha' & Hbk & Hd).
  destruct (commit_header_slots h o false ign _ _ (ao_wf _ _ _ Ha) Hr (ao_stamp _ _ _ Ha)) as (_ & _ & H3 & H4 & H5).
  cbn [r rl_size Z.eqb] in H4. cbn match in H5.
  eexists _, _. split; [exact E|]. split; [done|]. split; [done|]. split; [done|]. split; [|by injection H5].
  by eapply committed_key.
Qed.

Lemma read_fallback d a h name :
  area_ok d a h -> rl_size (locn_at h 1) = 0 -> vg_read_raw_area d a name true = vg_read_raw_area d a name false.
Proof.
  intros Ha H1. unfold vg_read_raw_area. rewrite (area_ok_read d a h Ha). unfold find_vg_rlocn. by rewrite H1.
Qed.

(** ** The metadata area *)

Lemma named_nonempty name u : named name u -> u <> [].
Proof. intros (_ & _ & c & rest & -> & _). by destruct name. Qed.

Lemma write_staged a h name o u io1 io2 st :
  io_ok io1 = true -> io_ok io2 = true -> confined (ms_dev st) io1 -> confined (ms_dev st) io2 -> area_ok (ms_dev st) a h -> committed (ms_dev st) a h name o -> locn_wf (ms_rlocn st) ->
  named name u -> Forall is_u8 u -> room (mh_size h) o (Z.of_nat (length u)) -> ms_buf st = None ->
  exists st', vg_write_raw true true a name (Some u) io1 io2 st = Some (true, st') /\
    staged (ms_dev st') a h name o (ms_rlocn st') u /\ dev_block (ms_dev st') = dev_block (ms_dev st).
Proof.
  intros Ho1 Ho2 Hc1 Hc2 Ha Hc Hr Hnm Hu8 Hroom Hbuf. pose proof (named_nonempty _ _ Hnm) as Hu.
  assert (0 < Z.of_nat (length u)) as Hn by (destruct u; [done|cbn; lia]).
  destruct (committed_place _ a h name o _ Ha Hc Hn Hroom) as (_ & Hok & _).
  pose proof (ao_sectors _ _ _ Ha) as [_ Hs].
  destruct (write_text_ok (ms_dev st) a _ _ u (ao_aligned _ _ _ Ha) (proj1 (ao_sectors _ _ _ Ha)) Hok io1 io2 Hc2 (ao_start _ _ _ Ha)
    (ao_fits _ _ _ Ha) Ho1 Ho2) as [E Hdata].
  destruct (write_text_keeps _ a h name o u io1 io2 Hc1 Hc2 Ha Hc Hu Hroom) as [Ha' Hc'].
  rewrite (vg_write_raw_eq a h name o u) by done. rewrite E. eexists. split; [done|]. cbn [ms_dev ms_rlocn].
  split; [|apply write_text_shape]. split; try done.
  - unfold locn_wf. cbn. destruct Hok as (? & ? & ?), Hr as (_ & _ & _ & R4). split; [unfold is_u64; lia|].
    split; [unfold is_u64; lia|]. split; [|done]. apply crc_ref_u32; [unfold is_u32, INITIAL_CRC; lia|done].
  - cbn. destruct o as [t|].
    + intros Heq. pose proof (to_locn _ _ _ _ _ (proj1 Hc)) as (_ & _ & ?).
      eapply (committed_apart _ a h name t _ 0 0 Ha Hc Hn Hroom); [lia..|]. by rewrite Heq.
    + destruct Hc as [-> _]. cbn. unfold MDA_HEADER_SIZE. lia.
Qed.
