(* ===== verification/MdaProps.v ===== *)
(** The contract of a text metadata area (lib/format_text/format-text.c): a
    header that round trips, a write that leaves the committed text readable
    whatever happens to it, the precommit/commit/revert protocol, and the two
    writes that the size test of [_vg_write_raw] lets through. *)

From stdpp Require Import prelude.
From S2P Require Import Prelude Crc DmString Device FormatText FormatTextProps.

(** ** An example area *)

(** One of four sectors at 4096, on a device of 8192 bytes in blocks of 512; [demo_text] is
    "vg0 {\n". *)
Definition demo_area : device_area := DeviceArea 4096 2048.
Definition demo_name : list Z := [118; 103; 48].
Definition demo_text : list Z := demo_name ++ [32; 123; 10].

Definition demo_header (r : raw_locn) : mda_header :=
  MdaHeader FMTT_MAGIC FMTT_VERSION 4096 2048 (r :: replicate 18 locn0) (replicate 16 0).

Definition demo_locn (off : Z) (t : list Z) : raw_locn :=
  RawLocn off (Z.of_nat (length t)) (crc_ref INITIAL_CRC t) 0.

(** The example with [t] committed at [off], and with nothing committed. *)
Definition demo_dev (off : Z) (t : list Z) : device :=
  Device 8192 512 (put (put (fun _ => 0) 4096 (header_sector 4096 (demo_header (demo_locn off t)))) (4096 + off) t).

Definition demo_empty : device := Device 8192 512 (put (fun _ => 0) 4096 (header_sector 4096 (demo_header locn0))).

Lemma demo_header_wf r : locn_wf r -> header_wf (demo_header r).
Proof.
  intros Hr. split; cbn [demo_header mh_magic mh_version mh_start mh_size mh_locns mh_rest].
  - split; [done|]. repeat constructor; unfold is_u8; lia.
  - unfold is_u32, FMTT_VERSION; lia.
  - unfold is_u64; lia.
  - unfold is_u64; lia.
  - split; [done|]. constructor; [done|]. apply Forall_replicate. unfold locn_wf, is_u64, is_u32. cbn. lia.
  - split; [done|]. apply Forall_replicate. unfold is_u8. lia.
Qed.

Lemma demo_locn_wf off t : Forall is_u8 t -> is_u64 off -> Z.of_nat (length t) < 2 ^ 64 -> locn_wf (demo_locn off t).
Proof.
  intros Ht Ho Hl. split; [done|]. split; [unfold is_u64; cbn; lia|]. split; [|unfold is_u32; cbn; lia].
  apply crc_ref_u32; [unfold is_u32, INITIAL_CRC; lia|done].
Qed.

Lemma demo_area_ok d r :
  locn_wf r -> dev_size d = 8192 -> dev_read d 4096 512 = Some (header_sector 4096 (demo_header r)) ->
  area_ok d demo_area (demo_header r).
Proof.
  intros Hr Hd Hread. pose proof (demo_header_wf r Hr).
  split; [cbn; lia|rewrite Hd; cbn; lia|rewrite Hd; lia|done|cbn [demo_header mh_size]; lia|done|done|exact Hread].
Qed.

Lemma demo_empty_ok : area_ok demo_empty demo_area (demo_header locn0).
Proof.
  assert (locn_wf locn0) as Hw by (unfold locn_wf, is_u64, is_u32; cbn; lia).
  apply demo_area_ok; [done..|]. unfold demo_empty. change 512 with (Z.of_nat 512).
  rewrite <- (header_sector_length 4096 (demo_header locn0)) at 1; [|unfold is_u64; lia|by apply demo_header_wf].
  apply dev_read_put; [lia|]. rewrite header_sector_length; [lia|unfold is_u64; lia|by apply demo_header_wf].
Qed.

Lemma demo_dev_ok off t :
  Forall is_u8 t -> named demo_name t -> 512 <= off < 2048 -> off mod 512 = 0 -> off + Z.of_nat (length t) <= 2048 ->
  area_ok (demo_dev off t) demo_area (demo_header (demo_locn off t)) /\
  committed (demo_dev off t) demo_area (demo_header (demo_locn off t)) demo_name (Some t).
Proof.
  intros Ht Hn Ho Hm Hl. set (r := demo_locn off t).
  assert (0 < Z.of_nat (length t)) as Hpos by (apply named_nonempty in Hn; destruct t; [done|cbn; lia]).
  assert (locn_wf r) as Hr by (apply demo_locn_wf; [done|unfold is_u64; lia|lia]).
  pose proof (header_sector_length 4096 (demo_header r) ltac:(unfold is_u64; lia) (demo_header_wf r Hr)) as Hlen.
  split.
  - apply demo_area_ok; [done..|].
    rewrite <- (dev_read_agree (Device 8192 512 (put (fun _ => 0) 4096 (header_sector 4096 (demo_header r))))).
    + change 512 with (Z.of_nat 512). rewrite <- Hlen at 1. apply dev_read_put; lia.
    + split; [done|]. split; [done|]. intros i Hi. cbn [demo_dev dev_data]. rewrite (put_out _ (4096 + off)) by lia. done.
  - split; [|done]. split; try done.
    + unfold locn_ok. cbn. lia.
    + intros k x Hk. pose proof (lookup_lt_Some _ _ _ Hk). unfold circ.
      change (locn_at (demo_header r) 0) with r. change (mh_size (demo_header _)) with 2048.
      change (rl_offset r) with off. change (area_start demo_area) with 4096. cbn [demo_dev dev_data].
      rewrite (proj2 (Z.ltb_lt _ _)) by lia. rewrite put_in by lia.
      replace (Z.to_nat (4096 + (off + Z.of_nat k) - (4096 + off))) with k by lia. by rewrite Hk.
Qed.

(** ** Texts that the size test lets through *)

(** A committed location whose first byte is not that of the name is not read. *)
Lemma read_mismatch d a h x name :
  area_ok d a h -> 512 <= rl_offset (locn_at h 0) < mh_size h ->
  dev_data d (area_start a + rl_offset (locn_at h 0)) <> x -> vg_read_raw_area d a (x :: name) false = None.
Proof.
  intros Ha Ho Hx. unfold vg_read_raw_area. rewrite (area_ok_read d a h Ha). unfold find_vg_rlocn. cbn [andb].
  rewrite (proj2 (Z.eqb_neq (rl_offset (locn_at h 0)) 0)) by lia. cbn [andb].
  rewrite bool_decide_eq_false_2 by done.
  pose proof (ao_sectors _ _ _ Ha). pose proof (ao_start _ _ _ Ha). pose proof (ao_fits _ _ _ Ha).
  pose proof (ao_dev _ _ _ Ha). rewrite wrap64_small by lia.
  destruct (dev_read d _ _) as [buf|] eqn:E; [|done]. unfold dev_read in E. destruct (dev_in_range _ _ _); [|done].
  apply (inj Some) in E. rewrite bool_decide_eq_false_2; [done|]. intros Heq. apply Hx.
  apply (f_equal (.!! 0%nat)) in Heq. rewrite lookup_take_lt in Heq by (cbn; lia).
  rewrite <- E, lookup_map, lookup_seqZ_lt in Heq by (unfold NAME_LEN; lia). cbn [lookup list_lookup] in Heq.
  apply (inj Some) in Heq. rewrite <- Heq. f_equal. lia.
Qed.

(** A text that does not go round is only refused when it has the size of the area. *)
Lemma too_large_straight size r off len :
  1024 <= size < 2 ^ 32 -> 0 <= off -> 0 <= len -> off + len <= size ->
  0 <= rl_offset r -> 0 <= rl_size r -> rl_offset r + rl_size r <= size -> len < size ->
  too_large size (Some r) off len = false.
Proof.
  intros. unfold too_large. rewrite !(wrap64_small (off + len)), !(wrap64_small (rl_offset r + rl_size r)) by lia.
  rewrite !(proj2 (Z.ltb_ge size _)) by lia. cbn [negb andb orb Z.eqb].
  apply Z.leb_gt. lia.
Qed.

Lemma write_text_header d a h off u io1 io2 :
  confined d io1 -> confined d io2 -> area_ok d a h -> 512 <= off -> off mod 512 = 0 ->
  area_ok (write_text d a (mh_size h) off u io1 io2).2 a h.
Proof.
  intros Hc1 Hc2 Ha Ho Hm. unfold write_text. set (w := if _ <? _ then _ else _). pose proof (ao_aligned _ _ _ Ha) as Hal.
  pose proof (dev_write_sectors d (area_start a + off) (take (Z.to_nat (Z.of_nat (length u) - w)) u) io1
    (area_start a) MDA_HEADER_SIZE Hc1 ltac:(left; unfold MDA_HEADER_SIZE, block_down; lia)) as F1.
  destruct (dev_write d _ _ io1) as [ok d1]. cbn [snd] in F1. pose proof (area_ok_agree _ _ _ _ Ha F1) as Ha1.
  destruct ok; cbn [negb snd]; [|done]. destruct (w =? 0); cbn [snd]; [done|].
  eapply area_ok_agree; [done|]. apply dev_write_sectors; [by apply (confined_block d); [apply F1|]|].
  left. unfold MDA_HEADER_SIZE, block_down. lia.
Qed.

(** A first text longer than the buffer is written over itself. *)
Lemma write_text_self d a size u :
  1024 <= size -> size - 512 < Z.of_nat (length u) < size -> 0 <= area_start a -> area_start a + size <= dev_size d ->
  (write_text d a size MDA_HEADER_SIZE u IoOk IoOk).1 = true /\
  u !! Z.to_nat (size - 512) = Some (dev_data (write_text d a size MDA_HEADER_SIZE u IoOk IoOk).2 (area_start a + 512)).
Proof.
  intros Hs Hl Ha Hd. unfold write_text, MDA_HEADER_SIZE. rewrite (proj2 (Z.ltb_lt _ _)) by lia.
  replace (Z.of_nat (length u) - (512 + Z.of_nat (length u) - size)) with (size - 512) by lia.
  rewrite dev_write_ok by (rewrite ?length_take; lia). cbn [negb]. rewrite (proj2 (Z.eqb_neq _ _)) by lia.
  rewrite dev_write_ok by (cbn [set_data dev_size]; rewrite ?length_drop; lia). split; [done|].
  cbn [snd set_data dev_data].
  destruct (lookup_lt_is_Some_2 u (Z.to_nat (size - 512))) as [y Hy]; [lia|].
  rewrite put_in by (rewrite length_drop; lia). rewrite Z.sub_diag, lookup_drop, Nat.add_0_r, Hy. done.
Qed.

(** A sector of zeros is no header. *)
Lemma zeros_no_header d a : dev_read d (area_start a) MDA_HEADER_SIZE = Some (replicate 512 0) -> raw_read_mda_header d a = None.
Proof.
  intros E. unfold raw_read_mda_header. rewrite E. destruct (calc_crc INITIAL_CRC (drop 4 (replicate 512 0)) (MDA_HEADER_SIZE - 4)) as [crc|]; [|done].
  destruct (negb _); [done|]. by rewrite bool_decide_eq_false_2 by by vm_compute.
Qed.

(** Where blocks are larger than sectors, a text and the header can share a block, and
    the header is lost with the committed text when the text is not written. *)
Theorem large_blocks_lose_header a h name o u io2 st :
  area_ok (ms_dev st) a h -> committed (ms_dev st) a h name o ->
  Forall is_u8 u -> u <> [] -> room (mh_size h) o (Z.of_nat (length u)) -> ms_buf st = None ->
  area_start a mod dev_block (ms_dev st) = 0 -> place_of h o < dev_block (ms_dev st) ->
  exists st', vg_write_raw true true a name (Some u) (IoFail (fun _ => 0)) io2 st = Some (false, st') /\
    raw_read_mda_header (ms_dev st') a = None /\ vg_read_raw_area (ms_dev st') a name false = None.
Proof.
  intros Ha Hc Hu8 Hu Hroom Hbuf Hal Hpl. rewrite (vg_write_raw_eq a h name o u) by done.
  assert (0 < Z.of_nat (length u)) as Hn by (destruct u; [done|cbn; lia]).
  destruct (committed_place _ a h name o _ Ha Hc Hn Hroom) as (_ & ((Hp1 & _) & _) & _).
  unfold write_text, dev_write. cbn [io_ok]. rewrite andb_false_r. cbn [negb fst snd].
  eexists. split; [reflexivity|]. set (b := dev_block (ms_dev st)) in *. set (d' := set_data _ _).
  assert (raw_read_mda_header d' a = None) as E; [|unfold vg_read_raw_area; cbn [ms_dev]; by rewrite E].
  apply zeros_no_header. pose proof (ao_start _ _ _ Ha). pose proof (ao_fits _ _ _ Ha). pose proof (ao_sectors _ _ _ Ha).
  unfold dev_read, dev_in_range, MDA_HEADER_SIZE. cbn [d' set_data dev_size dev_data].
  rewrite (proj2 (Z.leb_le _ _)), (proj2 (Z.leb_le (_ + _) _)) by lia. cbn [andb]. f_equal.
  change 512 with (Z.of_nat 512) at 1. rewrite <- (length_replicate 512 0) at 1. apply seqZ_lookups. rewrite length_replicate. intros k Hk.
  rewrite lookup_replicate_2 by done. f_equal. symmetry. unfold spoil. fold b.
  assert (block_down b (area_start a + place_of h o) = area_start a) as ->.
  { unfold block_down. pose proof (Z.div_mod (area_start a) b ltac:(lia)) as Hd.
    rewrite Hal, Z.add_0_r, Z.mul_comm in Hd. rewrite Hd at 1. rewrite Z.div_add_l, (Z.div_small (place_of h o)) by lia. lia. }
  pose proof (block_up_ge b (area_start a + place_of h o + Z.of_nat (length (take (Z.to_nat (Z.of_nat (length u) -
    (if mh_size h <? place_of h o + Z.of_nat (length u) then place_of h o + Z.of_nat (length u) - mh_size h else 0))) u))) ltac:(lia)).
  by rewrite (proj2 (Z.leb_le _ _)), (proj2 (Z.ltb_lt _ _)) by lia.
Qed.

(** The example in one block of 4096 bytes. *)
Definition demo_block : device := Device 8192 4096 (dev_data demo_empty).

Lemma large_blocks_lose_header_witness : exists st',
  vg_write_raw true true demo_area demo_name (Some demo_text) (IoFail (fun _ => 0)) IoOk (MdaState demo_block locn0 None) = Some (false, st') /\
  raw_read_mda_header demo_block demo_area = Some (demo_header locn0) /\ raw_read_mda_header (ms_dev st') demo_area = None.
Proof.
  assert (area_ok demo_block demo_area (demo_header locn0)) as Ha by (destruct demo_empty_ok; by split).
  destruct (large_blocks_lose_header demo_area (demo_header locn0) demo_name None demo_text IoOk (MdaState demo_block locn0 None)) as (st' & E & R & _).
  - exact Ha.
  - done.
  - repeat constructor; unfold is_u8; lia.
  - done.
  - unfold room. cbn. lia.
  - done.
  - done.
  - done.
  - exists st'. split; [exact E|]. split; [by rewrite (area_ok_read _ _ _ Ha)|exact R].
Defined.

(** ** Properties *)

(** A metadata area header that [_raw_write_mda_header] writes is read back
    by [_raw_read_mda_header]: checksum, magic, version and start are accepted
    and the size and the locations are those written. *)
Theorem mda_header_roundtrip d a h :
  header_wf h -> is_u64 (area_start a) -> area_start a + MDA_HEADER_SIZE <= dev_size d ->
  exists d', raw_write_mda_header d (area_start a) h IoOk = (true, d') /\
    raw_read_mda_header d' a =
      Some (MdaHeader FMTT_MAGIC FMTT_VERSION (area_start a) (mh_size h) (mh_locns h) (mh_rest h)).
Proof.
  intros Hw Hs Hd. pose proof (header_sector_length _ h Hs Hw) as Hlen. unfold MDA_HEADER_SIZE, is_u64 in *.
  rewrite raw_write_eq, dev_write_ok by (done || lia). eexists. split; [done|].
  apply raw_read_sector; [done..|]. change MDA_HEADER_SIZE with (Z.of_nat 512). rewrite <- Hlen.
  apply dev_read_put; lia.
Qed.

Lemma mda_header_roundtrip_witness : exists d',
  raw_write_mda_header (Device 8192 512 (fun _ => 0)) 4096 (demo_header (demo_locn 512 demo_text)) IoOk = (true, d') /\
  raw_read_mda_header d' demo_area = Some (demo_header (demo_locn 512 demo_text)).
Proof.
  apply (mda_header_roundtrip (Device 8192 512 (fun _ => 0)) demo_area (demo_header (demo_locn 512 demo_text))).
  - apply demo_header_wf, demo_locn_wf; [repeat constructor; unfold is_u8; lia|unfold is_u64; lia|cbn; lia].
  - unfold is_u64. cbn. lia.
  - unfold MDA_HEADER_SIZE. cbn. lia.
Defined.

(** C3: [_vg_write_raw] is safe against failure on a device with blocks of 512 bytes: when
    the new text has room beside the committed one, then whatever becomes of its two
    writes (success, success with the rest of the last block overwritten, or an error that
    leaves anything in the blocks they touch) it returns, the header is intact and the
    committed text (or its absence) is read back as before; it reports success when both
    writes succeed. On a device with larger blocks the same holds for writes that succeed
    and leave the rest of their blocks alone, and not for others
    ([large_blocks_lose_header]). *)
Theorem vg_write_raw_keeps a h name o u io1 io2 st :
  Forall (fun w => dev_block (ms_dev st) = 512 \/ w = IoOk) [io1; io2] ->
  area_ok (ms_dev st) a h -> committed (ms_dev st) a h name o ->
  Forall is_u8 u -> u <> [] -> room (mh_size h) o (Z.of_nat (length u)) -> ms_buf st = None ->
  exists b st', vg_write_raw true true a name (Some u) io1 io2 st = Some (b, st') /\
    raw_read_mda_header (ms_dev st') a = raw_read_mda_header (ms_dev st) a /\
    vg_read_raw_area (ms_dev st') a name false = vg_read_raw_area (ms_dev st) a name false /\
    vg_read_raw_area (ms_dev st') a name false = (fun t => (t, false)) <$> o /\
    area_ok (ms_dev st') a h /\ committed (ms_dev st') a h name o /\
    (io_ok io1 = true -> io_ok io2 = true -> b = true).
Proof.
  intros Hio Ha Hc Hu8 Hu Hroom Hbuf. rewrite !Forall_cons in Hio. destruct Hio as (Hc1 & Hc2 & _). rewrite (vg_write_raw_eq a h name o u) by done.
  destruct (write_text_keeps (ms_dev st) a h name o u io1 io2 Hc1 Hc2 Ha Hc Hu Hroom) as [Ha' Hc'].
  set (w := write_text _ _ _ _ _ _ _) in *.
  assert (io_ok io1 = true -> io_ok io2 = true -> w.1 = true) as Hok.
  { intros Ho1 Ho2. assert (0 < Z.of_nat (length u)) as Hn by (destruct u; [done|cbn; lia]).
    destruct (committed_place _ a h name o _ Ha Hc Hn Hroom) as (_ & Hlok & _).
    apply write_text_ok; try done; apply Ha. }
  exists w.1. destruct w as [b d']. cbn [fst snd] in *.
  exists (MdaState d' (RawLocn (place_of h o) (Z.of_nat (length u)) (if b then crc_ref INITIAL_CRC u else rl_checksum (ms_rlocn st))
    (rl_flags (ms_rlocn st))) (if b then Some u else None)).
  split; [by destruct b|]. cbn [ms_dev].
  rewrite !(area_ok_read _ a h), !(read_committed _ a h name o) by done. done.
Qed.

(** C2: The update protocol of a metadata area. Write, precommit, commit: the
    plain read gives the committed text until the commit and the new text from
    then on, the precommitted read gives the new text from the precommit on, and
    the area is ready for the next update. Write, precommit, revert: both reads
    give the committed text again, as if nothing had happened. The four writes
    succeed; on a device whose blocks are larger than 512 bytes they also leave the
    rest of their blocks alone. *)
Theorem mda_two_phase a h name o u ign io1 io2 io3 io4 st :
  Forall (fun w => io_ok w = true /\ (dev_block (ms_dev st) = 512 \/ w = IoOk)) [io1; io2; io3; io4] ->
  area_ok (ms_dev st) a h -> committed (ms_dev st) a h name o -> locn_wf (ms_rlocn st) ->
  named name u -> Forall is_u8 u -> room (mh_size h) o (Z.of_nat (length u)) -> ms_buf st = None ->
  let old := (fun t => (t, false)) <$> o in
  let read st := vg_read_raw_area (ms_dev st) a name in
  exists st1 st2 st3 st4 h3 h4,
    vg_write_raw true true a name (Some u) io1 io2 st = Some (true, st1) /\ read st1 false = old /\
    vg_precommit_raw true a name ign io3 st1 = (true, st2) /\ read st2 false = old /\ read st2 true = Some (u, true) /\
    vg_commit_raw true a name ign io4 st2 = (true, st3) /\ read st3 false = Some (u, false) /\
    read st3 true = Some (u, false) /\
    area_ok (ms_dev st3) a h3 /\ committed (ms_dev st3) a h3 name (Some u) /\ ms_buf st3 = None /\
    vg_revert_raw true a name ign io4 st2 = (true, st4) /\ read st4 false = old /\ read st4 true = old /\
    area_ok (ms_dev st4) a h4 /\ committed (ms_dev st4) a h4 name o /\ ms_buf st4 = None.
Proof.
  intros Hio Ha Hc Hr Hn Hu8 Hroom Hbuf old read.
  rewrite !Forall_cons in Hio. destruct Hio as ((Ho1 & Hc1) & (Ho2 & Hc2) & (Ho3 & Hc3) & (Ho4 & Hc4) & _).
  destruct (write_staged a h name o u io1 io2 st) as (st1 & W & S1 & B1); [done..|].
  destruct (precommit_step a h name o u ign io3 st1 Ho3 (confined_block _ _ _ (eq_sym B1) Hc3) S1) as (d2 & h2 & Pre & S2 & B2 & K2).
  set (st2 := MdaState d2 (ms_rlocn st1) (ms_buf st1)) in *.
  assert (confined (ms_dev st2) io4) as Hc4' by (apply (confined_block (ms_dev st)); [cbn; congruence|done]).
  destruct (commit_done a h2 name o u ign io4 st2 Ho4 Hc4' S2) as (d3 & h3 & Com & A3 & _ & C3 & Z3).
  destruct (revert_done a h2 name o u ign io4 st2 Ho4 Hc4' S2) as (st4 & h4 & Rev & B4 & A4 & _ & C4 & Z4).
  exists st1, st2, (MdaState d3 (ms_rlocn st2) None), st4, h3, h4. unfold read, old.
  rewrite (read_fallback (ms_dev st4) a h4), !(read_committed (ms_dev st4) a h4 name o) by done. cbn [ms_dev].
  rewrite (read_fallback d3 a h3), !(read_committed d3 a h3 name (Some u)) by done.
  rewrite (read_committed (ms_dev st1) a h name o) by apply S1.
  rewrite (read_committed (ms_dev st2) a h2 name o) by apply S2.
  repeat (split; [done|]). split; [|repeat (split; [done|]); done].
  eapply (read_slot _ a h2 name u 1 true); [apply S2| |apply S2|].
  - eapply text_on_key; [by symmetry|]. apply S2.
  - split; [done|]. pose proof (f_equal (fun k => k.1.1) K2) as E. cbn in E. rewrite E. apply S2.
Qed.

Lemma demo_text_named : named demo_name demo_text /\ Forall is_u8 demo_text.
Proof.
  split; [|repeat constructor; unfold is_u8; lia]. split; [done|]. split; [cbn; lia|]. by exists 32, [123; 10].
Qed.

Lemma vg_write_raw_keeps_witness : exists b st',
  vg_write_raw true true demo_area demo_name (Some (demo_text ++ [125])) (IoFail (fun _ => 1)) IoOk
    (MdaState (demo_dev 512 demo_text) locn0 None) = Some (b, st') /\
  vg_read_raw_area (ms_dev st') demo_area demo_name false = Some (demo_text, false).
Proof.
  destruct (demo_dev_ok 512 demo_text) as [Ha Hc];
    [apply demo_text_named|apply demo_text_named|lia|done|cbn; lia|].
  destruct (vg_write_raw_keeps demo_area (demo_header (demo_locn 512 demo_text)) demo_name (Some demo_text) (demo_text ++ [125]) (IoFail (fun _ => 1)) IoOk
    (MdaState (demo_dev 512 demo_text) locn0 None)) as (b & st' & E & _ & _ & R & _).
  - repeat constructor.
  - exact Ha.
  - exact Hc.
  - repeat constructor; unfold is_u8; lia.
  - done.
  - unfold room, padded. cbn. lia.
  - done.
  - exists b, st'. split; [exact E|exact R].
Defined.

Lemma mda_two_phase_witness : exists st1 st2 st3,
  vg_write_raw true true demo_area demo_name (Some demo_text) IoOk IoOk (MdaState demo_empty locn0 None) = Some (true, st1) /\
  vg_precommit_raw true demo_area demo_name false IoOk st1 = (true, st2) /\
  vg_commit_raw true demo_area demo_name false IoOk st2 = (true, st3) /\
  vg_read_raw_area (ms_dev st3) demo_area demo_name false = Some (demo_text, false).
Proof.
  destruct (mda_two_phase demo_area (demo_header locn0) demo_name None demo_text false
    IoOk IoOk IoOk IoOk (MdaState demo_empty locn0 None)) as (st1 & st2 & st3 & st4 & h3 & h4 & E1 & _ & E2 & _ & _ & E3 & E4 & _).
  - repeat constructor; by right.
  - apply demo_empty_ok.
  - done.
  - unfold locn_wf, is_u64, is_u32. cbn. lia.
  - apply demo_text_named.
  - apply demo_text_named.
  - unfold room. cbn. lia.
  - done.
  - exists st1, st2, st3. split; [exact E1|]. split; [exact E2|]. split; [exact E3|exact E4].
Defined.

(** C37: The size test of [_vg_write_raw] does not keep the texts apart. When
    the committed text fills the buffer up to its end, so that the next one
    starts behind the header, a new text that reaches back into the committed
    one without going round is accepted and written, success is reported, and
    the committed text is lost: before any commit, the area reads as empty. *)
Theorem vg_write_raw_clobbers a h x name t u st :
  area_ok (ms_dev st) a h -> committed (ms_dev st) a h (x :: name) (Some t) ->
  let off := rl_offset (locn_at h 0) in
  off + padded (Z.of_nat (length t)) = mh_size h ->
  off - 512 < Z.of_nat (length u) <= mh_size h - 512 -> Forall is_u8 u -> ms_buf st = None ->
  u !! Z.to_nat (off - 512) <> Some x ->
  vg_read_raw_area (ms_dev st) a (x :: name) false = Some (t, false) /\
  exists st', vg_write_raw true true a (x :: name) (Some u) IoOk IoOk st = Some (true, st') /\
    vg_read_raw_area (ms_dev st') a (x :: name) false = None.
Proof.
  intros Ha Hc off Hend Hlen Hu8 Hbuf Hx. split; [by rewrite (read_committed _ a h _ (Some t))|].
  destruct Hc as [Ht Hn]. pose proof (to_locn _ _ _ _ _ Ht) as (H1 & H2 & H3). pose proof (to_len _ _ _ _ _ Ht) as H4.
  fold off in H1, H2. pose proof (ao_sectors _ _ _ Ha) as [_ Hs].
  assert (rl_size (locn_at h 0) < padded (Z.of_nat (length t)) <= rl_size (locn_at h 0) + 512) as Hpad
    by (unfold padded; lia).
  assert (u <> []) as Hu by (intros ->; cbn in Hlen; lia).
  assert (locn_ok (mh_size h) MDA_HEADER_SIZE (Z.of_nat (length u))) as Hok
    by (unfold locn_ok, MDA_HEADER_SIZE; split; [lia|]; split; [done|lia]).
  assert (next_rlocn_offset (Some (locn_at h 0)) h = Some MDA_HEADER_SIZE) as Hnext.
  { unfold next_rlocn_offset, SECTOR_SIZE. fold off. unfold padded, MDA_HEADER_SIZE in *.
    rewrite (wrap64_small (mh_size h - 512)) by lia. rewrite (proj2 (Z.eqb_neq _ _)) by lia.
    rewrite H4 in *. replace (off + Z.of_nat (length t) + (512 - Z.of_nat (length t) mod 512) - 512) with (mh_size h - 512) by lia.
    rewrite (wrap64_small (mh_size h - 512)), Z.mod_same by lia. done. }
  rewrite (vg_write_raw_accepts a h (x :: name) (Some t) u IoOk IoOk st MDA_HEADER_SIZE); try done; cycle 1.
  { unfold MDA_HEADER_SIZE; lia. }
  { lia. }
  { apply too_large_straight; unfold MDA_HEADER_SIZE; fold off; lia. }
  destruct (write_text_ok (ms_dev st) a _ _ u (ao_aligned _ _ _ Ha) (proj1 (ao_sectors _ _ _ Ha)) Hok IoOk IoOk (or_intror eq_refl)
    (ao_start _ _ _ Ha) (ao_fits _ _ _ Ha) eq_refl eq_refl) as [-> Hdata].
  eexists. split; [done|]. cbn [ms_dev]. apply (read_mismatch _ a h); [|fold off; lia|].
  - apply write_text_header; try done; by right.
  - destruct (lookup_lt_is_Some_2 u (Z.to_nat (off - 512))) as [y Hy]; [lia|]. rewrite Hy in Hx.
    rewrite <- (Hdata _ _ Hy) in Hx. fold off. intros E. apply Hx. f_equal. rewrite <- E. f_equal.
    unfold circ, MDA_HEADER_SIZE. rewrite (proj2 (Z.ltb_lt _ _)) by lia. lia.
Qed.

Lemma vg_write_raw_clobbers_witness : exists st',
  vg_write_raw true true demo_area demo_name (Some (demo_text ++ replicate 1100 10)) IoOk IoOk
    (MdaState (demo_dev 1536 demo_text) locn0 None) = Some (true, st') /\
  vg_read_raw_area (ms_dev st') demo_area demo_name false = None.
Proof.
  destruct (demo_dev_ok 1536 demo_text) as [Ha Hc];
    [apply demo_text_named|apply demo_text_named|lia|done|cbn; lia|].
  destruct (vg_write_raw_clobbers demo_area _ 118 [103; 48] demo_text (demo_text ++ replicate 1100 10)
    (MdaState (demo_dev 1536 demo_text) locn0 None) Ha Hc) as (_ & st' & E & R).
  - vm_compute. reflexivity.
  - rewrite length_app, length_replicate.
    change (rl_offset (locn_at _ 0)) with 1536. change (mh_size _) with 2048. cbn [length demo_text app demo_name]. lia.
  - apply Forall_app. split; [apply demo_text_named|]. apply Forall_replicate. unfold is_u8. lia.
  - done.
  - vm_compute. congruence.
  - exists st'. split; [exact E|exact R].
Defined.

(** The size test compares the new text with the size of the area, not with
    the size of the buffer behind the header. The first text of an area that is
    longer than the buffer but shorter than the area is accepted, its end is
    written over its start, success is reported and the commit succeeds too; the
    committed metadata are then not read. *)
Theorem vg_write_raw_overwrites_itself a h x name u ign st :
  area_ok (ms_dev st) a h -> committed (ms_dev st) a h (x :: name) None -> locn_wf (ms_rlocn st) ->
  mh_size h - 512 < Z.of_nat (length u) < mh_size h -> Forall is_u8 u -> ms_buf st = None ->
  u !! Z.to_nat (mh_size h - 512) <> Some x ->
  exists st1 st2, vg_write_raw true true a (x :: name) (Some u) IoOk IoOk st = Some (true, st1) /\
    vg_commit_raw true a (x :: name) ign IoOk st1 = (true, st2) /\
    vg_read_raw_area (ms_dev st2) a (x :: name) false = None.
Proof.
  intros Ha Hc Hr Hlen Hu8 Hbuf Hx. pose proof (ao_sectors _ _ _ Ha) as [_ Hs].
  assert (u <> []) as Hu by (intros ->; cbn in Hlen; lia).
  rewrite (vg_write_raw_accepts a h (x :: name) None u IoOk IoOk st MDA_HEADER_SIZE);
    [|try done; unfold MDA_HEADER_SIZE; lia..|]; cycle 1.
  { unfold too_large, MDA_HEADER_SIZE. cbn [slot_for option_map]. rewrite andb_false_r. cbn [orb].
    apply Z.leb_gt. lia. }
  pose proof (write_text_header (ms_dev st) a h MDA_HEADER_SIZE u IoOk IoOk (or_intror eq_refl) (or_intror eq_refl) Ha ltac:(done) ltac:(done)) as Ha1.
  destruct (write_text_self (ms_dev st) a (mh_size h) u) as [E Hb]; [lia..|apply Ha|apply Ha|].
  rewrite E. eexists _. set (st1 := MdaState _ _ _).
  assert (locn_wf (ms_rlocn st1)) as Hr1.
  { unfold locn_wf. cbn. destruct Hr as (_ & _ & _ & R4). split; [unfold is_u64, MDA_HEADER_SIZE; lia|].
    split; [unfold is_u64; lia|]. split; [|done]. apply crc_ref_u32; [unfold is_u32, INITIAL_CRC; lia|done]. }
  destruct (commit_raw_step a h (x :: name) None false ign IoOk st1 eq_refl (or_intror eq_refl) Ha1 Hc Hr1) as (d' & Ec & Ha2 & _ & Hd).
  destruct (commit_header_slots h None false ign _ _ (ao_wf _ _ _ Ha) Hr1 (ao_stamp _ _ _ Ha)) as (_ & _ & H3 & H4 & _).
  cbn match in H4. rewrite (proj2 (Z.eqb_neq _ _)) in H4 by (cbn; lia).
  assert (rl_offset (locn_at (commit_header h (slot_for None) false ign (ms_rlocn st1)) 0) = 512) as Eo
    by exact (f_equal (fun k => k.1.1) H4).
  eexists. split; [done|]. split; [exact Ec|].
  apply (read_mismatch _ a _ x name Ha2); rewrite Eo; [rewrite H3; lia|].
  cbn [ms_dev]. rewrite Hd by lia. intros E2. apply Hx. rewrite <- E2. apply Hb.
Qed.

Lemma vg_write_raw_overwrites_itself_witness : exists st1 st2,
  vg_write_raw true true demo_area demo_name (Some (demo_text ++ replicate 1600 10)) IoOk IoOk
    (MdaState demo_empty locn0 None) = Some (true, st1) /\
  vg_commit_raw true demo_area demo_name false IoOk st1 = (true, st2) /\
  vg_read_raw_area (ms_dev st2) demo_area demo_name false = None.
Proof.
  apply (vg_write_raw_overwrites_itself demo_area (demo_header locn0) 118 [103; 48] (demo_text ++ replicate 1600 10)
    false (MdaState demo_empty locn0 None)).
  - apply demo_empty_ok.
  - done.
  - unfold locn_wf, is_u64, is_u32. cbn. lia.
  - rewrite length_app, length_replicate. change (mh_size _) with 2048. cbn [length demo_text app demo_name]. lia.
  - apply Forall_app. split; [apply demo_text_named|]. apply Forall_replicate. unfold is_u8. lia.
  - done.
  - vm_compute. congruence.
Defined.
