(* ===== verification/TextLayout.v ===== *)
(** * Where the metadata areas and the data of a PV lie

    The text format puts up to two metadata areas on a PV: one behind the label,
    one at the end of the device; the physical extents lie between them.  This
    file models the choice of the data alignment (set_pe_align of
    lib/metadata/metadata.c), the setup of a new PV, adding and removing metadata
    areas and resizing a PV (lib/format_text/format-text.c).  Positions of areas
    are in bytes, the fields of a PV in sectors; all arithmetic is that of C. *)

From S2P Require Import Prelude.

(** ** The state *)

Record mda_area := MdaArea { ma_start : Z; ma_size : Z; ma_ignored : bool }.

(** The fields of [struct physical_volume] that lay it out and the areas its
    format instance has for it. *)
Record layout := Layout {
  l_size : Z;
  l_pe_size : Z;
  l_pe_start : Z;
  l_pe_count : Z;
  l_pe_align : Z;
  l_pe_align_offset : Z;
  l_label_sector : Z;
  l_mda0 : option mda_area;
  l_mda1 : option mda_area }.

Definition set_l_size (v : Z) (l : layout) : layout :=
  Layout v (l_pe_size l) (l_pe_start l) (l_pe_count l) (l_pe_align l) (l_pe_align_offset l) (l_label_sector l) (l_mda0 l) (l_mda1 l).
Definition set_l_pe_size (v : Z) (l : layout) : layout :=
  Layout (l_size l) v (l_pe_start l) (l_pe_count l) (l_pe_align l) (l_pe_align_offset l) (l_label_sector l) (l_mda0 l) (l_mda1 l).
Definition set_l_pe_start (v : Z) (l : layout) : layout :=
  Layout (l_size l) (l_pe_size l) v (l_pe_count l) (l_pe_align l) (l_pe_align_offset l) (l_label_sector l) (l_mda0 l) (l_mda1 l).
Definition set_l_pe_count (v : Z) (l : layout) : layout :=
  Layout (l_size l) (l_pe_size l) (l_pe_start l) v (l_pe_align l) (l_pe_align_offset l) (l_label_sector l) (l_mda0 l) (l_mda1 l).
Definition set_l_pe_align (v : Z) (l : layout) : layout :=
  Layout (l_size l) (l_pe_size l) (l_pe_start l) (l_pe_count l) v (l_pe_align_offset l) (l_label_sector l) (l_mda0 l) (l_mda1 l).
Definition set_l_pe_align_offset (v : Z) (l : layout) : layout :=
  Layout (l_size l) (l_pe_size l) (l_pe_start l) (l_pe_count l) (l_pe_align l) v (l_label_sector l) (l_mda0 l) (l_mda1 l).
Definition set_l_label_sector (v : Z) (l : layout) : layout :=
  Layout (l_size l) (l_pe_size l) (l_pe_start l) (l_pe_count l) (l_pe_align l) (l_pe_align_offset l) v (l_mda0 l) (l_mda1 l).

(** [fid_get_mda_indexed] and its update, for the two areas a PV can have (of a PV
    whose identifier is not being changed). *)
Definition get_mda (l : layout) (index : Z) : option mda_area := if index =? 0 then l_mda0 l else l_mda1 l.
Definition set_mda (index : Z) (m : option mda_area) (l : layout) : layout :=
  Layout (l_size l) (l_pe_size l) (l_pe_start l) (l_pe_count l) (l_pe_align l) (l_pe_align_offset l) (l_label_sector l)
    (if index =? 0 then m else l_mda0 l) (if index =? 0 then l_mda1 l else m).

Definition FMT_TEXT_MAX_MDAS_PER_PV : Z := 2.
Definition LABEL_SCAN_SIZE : Z := 2048.
Definition DEFAULT_PE_ALIGN : Z := 2048.
Definition DEFAULT_PE_ALIGN_OLD : Z := 128.

(** ** Alignment *)

(** The configuration and what sysfs says of the device: [ae_dev] says whether
    the PV has a device at all. *)
Record align_env := AlignEnv {
  ae_page_size : Z;
  ae_data_alignment : Z;
  ae_default_data_alignment : Z;
  ae_dev : bool;
  ae_md_chunk_alignment : bool;
  ae_md_stripe_width : Z;
  ae_alignment_detection : bool;
  ae_minimum_io_size : Z;
  ae_optimal_io_size : Z;
  ae_offset_detection : bool;
  ae_alignment_offset : Z }.

Definition alignment_overrides_default (data_alignment default_pe_align : Z) : bool :=
  negb (data_alignment =? 0) && negb (default_pe_align mod data_alignment =? 0).

Definition override (align temp default_pe_align : Z) : Z :=
  if alignment_overrides_default temp default_pe_align then Z.max align temp else align.

Definition set_pe_align (e : align_env) (data_alignment : Z) (l : layout) : layout :=
  if negb (l_pe_align l =? 0) then l else
  if negb (data_alignment =? 0) then set_l_pe_align data_alignment l else
  let default_pe_align := wrap64 (ae_default_data_alignment e) in
  let default_pe_align := if negb (default_pe_align =? 0) then wrap64 (default_pe_align * DEFAULT_PE_ALIGN)
                          else DEFAULT_PE_ALIGN_OLD in
  let a := Z.max (wrap64 (default_pe_align * 512)) (ae_page_size e) / 512 in
  if negb (ae_dev e) then set_l_pe_align a l else
  let a := if ae_md_chunk_alignment e then override a (ae_md_stripe_width e) default_pe_align else a in
  let a := if ae_alignment_detection e
           then override (override a (ae_minimum_io_size e) default_pe_align) (ae_optimal_io_size e) default_pe_align
           else a in
  set_l_pe_align a l.

Definition set_pe_align_offset (e : align_env) (data_alignment_offset : Z) (l : layout) : layout :=
  if negb (l_pe_align_offset l =? 0) then l else
  if negb (data_alignment_offset =? 0) then set_l_pe_align_offset data_alignment_offset l else
  if negb (ae_dev e) then l else
  if ae_offset_detection e
  then set_l_pe_align_offset (Z.max (l_pe_align_offset l) (if ae_alignment_offset e <? 0 then 0 else ae_alignment_offset e)) l
  else l.

(** [_text_pv_initialise]; a [pe_start] of [None] is PV_PE_START_CALC, a
    [label_sector] of -1 leaves the field alone. *)
Definition text_pv_initialise (e : align_env) (label_sector : Z) (pe_start : option Z)
    (extent_count extent_size data_alignment data_alignment_offset : Z) (l : layout) : bool * layout :=
  let l := if pe_start is Some p then set_l_pe_start p l else l in
  let data_alignment := if data_alignment =? 0 then wrap64 (ae_data_alignment e * 2) else data_alignment in
  let l := set_pe_align e data_alignment l in
  if negb (l_pe_align l =? data_alignment) && negb (data_alignment =? 0) then (false, l) else
  let l := set_pe_align_offset e data_alignment_offset l in
  if negb (l_pe_align_offset l =? data_alignment_offset) && negb (data_alignment_offset =? 0) then (false, l) else
  if l_pe_align l <? l_pe_align_offset l then (false, l) else
  let l := if pe_start is None then if l_pe_start l <? l_pe_align l then set_l_pe_start (l_pe_align l) l else l else l in
  let l := if negb (extent_size =? 0) then set_l_pe_size extent_size l else l in
  let l := if negb (extent_count =? 0) then set_l_pe_count extent_count l else l in
  if wrap64 (l_size l * 512) <? wrap64 (l_pe_start l + wrap32 (l_pe_count l * l_pe_size l) - 1) then (false, l) else
  (true, if negb (label_sector =? -1) then set_l_label_sector label_sector l else l).

(** ** Placing a metadata area *)

(** MDA0, behind the label: its start and its size.  The outer [None] is a
    division by zero, the inner one that there is no space. *)
Definition mda0_start (page_size limit : Z) : Z :=
  let adjustment := LABEL_SCAN_SIZE mod page_size in
  if wrap32 (8 * page_size) <=? wrap64 (limit - LABEL_SCAN_SIZE)
  then if adjustment =? 0 then LABEL_SCAN_SIZE else wrap64 (LABEL_SCAN_SIZE + (page_size - adjustment))
  else LABEL_SCAN_SIZE.

Definition align_end (alignment limit mda_start mda_size : Z) : Z :=
  if alignment =? 0 then mda_size else
  let adjustment := wrap64 (mda_start + mda_size) mod alignment in
  if adjustment =? 0 then mda_size else
  let tmp := wrap64 (mda_size + alignment - adjustment) in
  if wrap64 (mda_start + tmp) <=? limit then tmp else mda_size.

Definition offset_end (alignment alignment_offset limit mda_start mda_size : Z) : option Z :=
  if alignment_offset =? 0 then Some mda_size else
  if alignment =? 0 then None else
  if negb (wrap64 (mda_start + mda_size) mod alignment =? 0) then Some mda_size else
  let tmp := wrap64 (mda_size + alignment_offset) in
  Some (if wrap64 (mda_start + tmp) <=? limit then tmp else mda_size).

Definition limit_end (pe_start_locked : bool) (alignment limit mda_start mda_size : Z) : option (option Z) :=
  if wrap64 (mda_start + mda_size) <=? limit then Some (Some mda_size) else
  if negb pe_start_locked && (wrap64 (alignment * 2) <? wrap64 (limit - mda_start)) then
    let mda_size := wrap64 (limit - mda_start - wrap64 (alignment * 2)) in
    if alignment =? 0 then None else
    let adjustment := wrap64 (mda_start + mda_size) mod alignment in
    let mda_size := if adjustment =? 0 then mda_size else wrap64 (mda_size + (alignment - adjustment)) in
    Some (if limit <? wrap64 (mda_start + mda_size) then None else Some mda_size)
  else Some (Some (wrap64 (limit - mda_start))).

Definition place_mda0 (page_size : Z) (pe_start_locked : bool) (alignment alignment_offset limit mda_size : Z) :
    option (option (Z * Z)) :=
  let mda_start := mda0_start page_size limit in
  let mda_size := align_end alignment limit mda_start mda_size in
  match offset_end alignment alignment_offset limit mda_start mda_size with
  | None => None
  | Some mda_size =>
      match limit_end pe_start_locked alignment limit mda_start mda_size with
      | None => None
      | Some None => Some None
      | Some (Some mda_size) => Some (Some (mda_start, mda_size))
      end
  end.

(** MDA1, at the end of the device. *)
Definition place_mda1 (alignment disk_size limit mda_size : Z) : Z * Z :=
  let mda_size := if disk_size <? mda_size then wrap64 (disk_size - limit) else mda_size in
  let mda_start := wrap64 (disk_size - mda_size) in
  if wrap64 (disk_size - mda_size) <? limit then
    let mda_size := wrap64 (disk_size - limit) in (wrap64 (disk_size - mda_size), mda_size)
  else if alignment =? 0 then (mda_start, mda_size) else
  let adjustment := mda_start mod alignment in
  if adjustment =? 0 then (mda_start, mda_size) else
  let tmp := wrap64 (mda_size + adjustment) in
  if (tmp <? disk_size) && (limit <=? wrap64 (disk_size - tmp)) then (wrap64 (disk_size - tmp), tmp)
  else (mda_start, mda_size).

(** [_text_pv_remove_metadata_area] *)
Definition text_pv_remove_metadata_area (index : Z) (l : layout) : bool * layout :=
  if FMT_TEXT_MAX_MDAS_PER_PV <=? index then (false, l) else (true, set_mda index None l).

(** [_add_metadata_area_to_pv]; [alloc_ok] says whether its allocations succeed. *)
Definition add_metadata_area_to_pv (alloc_ok : bool) (index mda_start mda_size : Z) (ignored : bool) (l : layout) :
    bool * layout :=
  if alloc_ok then (true, set_mda index (Some (MdaArea mda_start mda_size ignored)) l) else (false, l).

(** The rest of the world: the page size, whether wiping [len] bytes at [off]
    succeeds and whether memory lasts. *)
Record mda_env := MdaEnv { me_page_size : Z; me_wipe : Z -> Z -> bool; me_alloc_ok : bool }.

(** The upper limit of MDA0 and the lower limit of MDA1. *)
Definition mda0_limit (pe_start_locked : bool) (l : layout) : Z :=
  if pe_start_locked then wrap64 (l_pe_start l * 512)
  else if l_mda1 l is Some m then ma_start m else wrap64 (l_size l * 512).

Definition pe_end (l : layout) : Z :=
  if l_pe_count l =? 0 then 0
  else wrap64 (wrap64 (l_pe_start l + wrap32 (l_pe_count l * l_pe_size l) - 1) * 512).

Definition mda1_limit (pe_start_locked : bool) (l : layout) : Z :=
  if negb (wrap64 (l_pe_start l * 512) =? 0) || pe_start_locked then
    if negb (pe_end l =? 0) then pe_end l else wrap64 (l_pe_start l * 512)
  else if l_mda0 l is Some m then wrap64 (ma_start m + ma_size m) else LABEL_SCAN_SIZE.

(** Wipe the start of a new area and add it. *)
Definition add_wiped (env : mda_env) (index mda_start mda_size : Z) (ignored : bool) (l : layout) : bool * layout :=
  if mda_size =? 0 then (true, l) else
  if negb (me_wipe env mda_start (if 4096 <? mda_size then 4096 else mda_size)) then (false, l) else
  add_metadata_area_to_pv (me_alloc_ok env) index mda_start mda_size ignored l.

(** [_text_pv_add_metadata_area]; [None] is a division by zero. *)
Definition text_pv_add_metadata_area (env : mda_env) (pe_start_locked : bool) (index mda_size : Z) (ignored : bool)
    (l : layout) : option (bool * layout) :=
  if FMT_TEXT_MAX_MDAS_PER_PV <=? index then Some (false, l) else
  let alignment := wrap64 (l_pe_align l * 512) in
  let alignment_offset := wrap64 (l_pe_align_offset l * 512) in
  let disk_size := wrap64 (l_size l * 512) in
  let mda_size := wrap64 (mda_size * 512) in
  let l := if get_mda l index is Some _ then (text_pv_remove_metadata_area index l).2 else l in
  if index =? 0 then
    let limit := mda0_limit pe_start_locked l in
    if disk_size <? limit then Some (false, l) else
    match place_mda0 (me_page_size env) pe_start_locked alignment alignment_offset limit mda_size with
    | None => None
    | Some None => Some (false, l)
    | Some (Some (mda_start, mda_size)) =>
        let l := if pe_start_locked then l else set_l_pe_start (wrap64 (mda_start + mda_size) / 512) l in
        Some (add_wiped env index mda_start mda_size ignored l)
    end
  else
    let limit := mda1_limit pe_start_locked l in
    if disk_size <? limit then Some (false, l) else
    let '(mda_start, mda_size) := place_mda1 alignment disk_size limit mda_size in
    Some (add_wiped env index mda_start mda_size ignored l).

(** [_text_pv_resize]; [in_vg] says whether there is a VG. *)
Definition text_pv_resize (env : mda_env) (in_vg : bool) (size : Z) (l : layout) : option (bool * layout) :=
  let l := set_l_pe_count 0 (set_l_size size l) in
  let moved := match l_mda1 l with
               | None => Some (true, l)
               | Some m => text_pv_add_metadata_area env true 1 (ma_size m / 512) (ma_ignored m)
                             (text_pv_remove_metadata_area 1 l).2
               end in
  match moved with
  | None => None
  | Some (false, l) => Some (false, l)
  | Some (true, l) =>
      if negb in_vg then Some (true, l) else
      let size_reduction := l_pe_start l in
      let size_reduction := if l_mda1 l is Some m then wrap64 (size_reduction + ma_size m / 512) else size_reduction in
      Some (true, set_l_size (wrap64 (l_size l - size_reduction)) l)
  end.

(** The part of [_text_pv_setup] that computes the size and the extents of a PV
    that joins a VG with extents of [extent_size] sectors; [None] is a PV too
    large. *)
Definition text_pv_setup_extents (extent_size : Z) (l : layout) : option layout :=
  let size_reduction := if l_mda1 l is Some m then ma_size m / 512 else 0 in
  let l := if (l_size l =? 0) && negb (l_pe_count l =? 0)
           then set_l_size (wrap64 (wrap64 (l_pe_count l * extent_size) + l_pe_start l + size_reduction)) l else l in
  if (l_pe_count l =? 0) && negb (extent_size =? 0) then
    let pe_count := wrap64 (l_size l - l_pe_start l - size_reduction) / extent_size in
    if 2 ^ 32 - 1 <? pe_count then None else Some (set_l_pe_count pe_count l)
  else Some l.

(** ** Placement *)

Section place.
Context (page alignment offset limit size : Z) (locked : bool).
Hypothesis Hpage : 0 < page < 2 ^ 20 /\ page mod 512 = 0.
Hypothesis Halign : 0 < alignment < 2 ^ 61 /\ alignment mod 512 = 0.
Hypothesis Hoffset : 0 <= offset < 2 ^ 61 /\ offset mod 512 = 0.
Hypothesis Hlimit : LABEL_SCAN_SIZE <= limit < 2 ^ 61 /\ limit mod 512 = 0.
Hypothesis Hsize : 0 < size < 2 ^ 61 /\ size mod 512 = 0.

Lemma mda0_start_spec :
  let start := mda0_start page limit in
  LABEL_SCAN_SIZE <= start <= limit /\ start < LABEL_SCAN_SIZE + page /\ start mod 512 = 0.
Proof.
  unfold mda0_start, LABEL_SCAN_SIZE in *. rewrite (wrap32_small (8 * page)), (wrap64_small (limit - 2048)) by lia.
  pose proof (Z.mod_pos_bound 2048 page ltac:(lia)).
  assert ((2048 mod page) mod 512 = 0) as Hm.
  { destruct (Z.lt_ge_cases 2048 page); [by rewrite (Z.mod_small 2048 page) by lia|].
    pose proof (Z.div_mod 2048 page ltac:(lia)) as E. assert (page mod 512 = 0) by lia.
    replace (2048 mod page) with (2048 - page * (2048 / page)) by lia.
    rewrite Zminus_mod, Zmult_mod. rewrite (proj2 Hpage). done. }
  destruct (Z.leb_spec (8 * page) (limit - 2048)); [|lia].
  destruct (Z.eqb_spec (2048 mod page) 0); [lia|]. rewrite wrap64_small by lia. lia.
Qed.

(** The aligned end of an area from [start]. *)
Lemma aligned_sum start x :
  0 <= start -> 0 <= x -> start + x + alignment < 2 ^ 64 ->
  let adj := wrap64 (start + x) mod alignment in
  wrap64 (start + x) = start + x /\ 0 <= adj < alignment /\ (start + x - adj) mod alignment = 0 /\
  (adj <> 0 -> (start + (x + alignment - adj)) mod alignment = 0) /\
  (start mod 512 = 0 -> x mod 512 = 0 -> adj mod 512 = 0).
Proof.
  intros Hs Hx Hlt. cbv zeta. rewrite wrap64_small by lia. pose proof (Z.mod_pos_bound (start + x) alignment ltac:(lia)).
  split; [done|]. split; [done|].
  pose proof (Z.div_mod (start + x) alignment ltac:(lia)) as E. split; [|split].
  - replace (start + x - (start + x) mod alignment) with ((start + x) / alignment * alignment) by lia. apply Z.mod_mul. lia.
  - intros _. replace (start + (x + alignment - (start + x) mod alignment)) with (((start + x) / alignment + 1) * alignment) by lia.
    apply Z.mod_mul. lia.
  - intros H1 H2. replace ((start + x) mod alignment) with (start + x - alignment * ((start + x) / alignment)) by lia.
    rewrite Zminus_mod, Zmult_mod. rewrite (proj2 Halign). cbn [Z.mul]. rewrite Z.mod_0_l, Z.sub_0_r by lia. lia.
Qed.

(** MDA0 lies between the label and its limit; when there is room, the data
    behind it is aligned. *)
Lemma place_mda0_spec :
  exists start sz, place_mda0 page locked alignment offset limit size = Some (Some (start, sz)) /\
    LABEL_SCAN_SIZE <= start /\ 0 <= sz /\ start + sz <= limit /\ start mod 512 = 0 /\ sz mod 512 = 0 /\
    (LABEL_SCAN_SIZE + page + size + alignment + offset <= limit -> (start + sz) mod alignment = offset mod alignment).
Proof.
  unfold place_mda0. pose proof mda0_start_spec as (Hs1 & Hs2 & Hs3). set (start := mda0_start page limit) in *.
  unfold LABEL_SCAN_SIZE in *.
  (* the aligned end *)
  assert (exists x, align_end alignment limit start size = x /\ 0 < x < size + alignment /\ x mod 512 = 0 /\
    (2048 + page + size + alignment <= limit -> (start + x) mod alignment = 0 /\ start + x <= limit - (limit - 2048 - page - size - alignment)))
    as (x & -> & Hx & Hx5 & Hxa).
  { unfold align_end. rewrite (proj2 (Z.eqb_neq alignment 0)) by lia.
    destruct (aligned_sum start size) as (E & Ha & Hdn & Hup & H5); [lia..|]. cbv zeta in *. rewrite E in *.
    specialize (H5 Hs3 (proj2 Hsize)). set (adj := (start + size) mod alignment) in *.
    destruct (Z.eqb_spec adj 0) as [E0|E0].
    - eexists. split; [done|]. split; [lia|]. split; [lia|]. intros _. rewrite E0, Z.sub_0_r in Hdn. split; [done|lia].
    - rewrite (wrap64_small (size + alignment - adj)), wrap64_small by lia.
      destruct (Z.leb_spec (start + (size + alignment - adj)) limit); (eexists; split; [done|]; split; [lia|]; split; [lia|]).
      + intros _. split; [by apply Hup|lia].
      + intros. lia. }
  (* the offset *)
  assert (exists y, offset_end alignment offset limit start x = Some y /\ 0 < y <= x + offset /\ y mod 512 = 0 /\
    (2048 + page + size + alignment + offset <= limit -> (start + y) mod alignment = offset mod alignment /\ start + y <= limit))
    as (y & -> & Hy & Hy5 & Hya).
  { unfold offset_end. destruct (Z.eqb_spec offset 0) as [E0|E0].
    { eexists. split; [done|]. split; [lia|]. split; [done|]. intros Hr. destruct Hxa as [-> ?]; [lia|].
      rewrite E0, Z.mod_0_l by lia. lia. }
    rewrite (proj2 (Z.eqb_neq alignment 0)) by lia. rewrite (wrap64_small (start + x)), (wrap64_small (x + offset)), wrap64_small by lia.
    destruct (Z.eqb_spec ((start + x) mod alignment) 0) as [Em|Em]; cbn [negb].
    - destruct (Z.leb_spec (start + (x + offset)) limit); (eexists; split; [done|]; split; [lia|]; split; [lia|]).
      + intros Hr. split; [|lia]. rewrite Z.add_assoc, Zplus_mod, Em. by rewrite Z.add_0_l, Z.mod_mod by lia.
      + intros Hr. lia.
    - eexists. split; [done|]. split; [lia|]. split; [done|]. intros Hr. destruct Hxa; [lia|done]. }
  (* the limit *)
  unfold limit_end. rewrite (wrap64_small (start + y)) by lia. destruct (Z.leb_spec (start + y) limit).
  { eexists start, y. split; [done|]. split_and!; try lia; intros Hr; by apply Hya. }
  clear Hxa Hya. rewrite (wrap64_small (alignment * 2)), !(wrap64_small (limit - start)) by lia.
  destruct (negb locked && _) eqn:El.
  - apply andb_prop in El as [_ El%Z.ltb_lt]. rewrite (wrap64_small (limit - start - alignment * 2)) by lia.
    rewrite (proj2 (Z.eqb_neq alignment 0)) by lia.
    destruct (aligned_sum start (limit - start - alignment * 2)) as (E & Ha & Hdn & Hup & H5); [lia..|]. cbv zeta in *. rewrite E in *.
    specialize (H5 Hs3 ltac:(lia)). clear Hdn Hup E.
    set (adj := (start + (limit - start - alignment * 2)) mod alignment) in *. clearbody adj.
    destruct (Z.eqb_spec adj 0).
    + rewrite wrap64_small by lia. rewrite (proj2 (Z.ltb_ge _ _)) by lia. eexists _, _. split; [done|]. split_and!; lia.
    + rewrite (wrap64_small (_ + (alignment - adj))), wrap64_small by lia. rewrite (proj2 (Z.ltb_ge _ _)) by lia.
      eexists _, _. split; [done|]. split_and!; lia.
  - eexists _, _. split; [done|]. split_and!; lia.
Qed.

(** MDA1 ends at the end of the device and starts at or behind its limit. *)
Lemma place_mda1_spec disk :
  limit <= disk < 2 ^ 61 -> disk mod 512 = 0 ->
  exists start sz, place_mda1 alignment disk limit size = (start, sz) /\
    limit <= start /\ 0 <= sz /\ start + sz = disk /\ start mod 512 = 0 /\ sz mod 512 = 0 /\
    (size <= disk - limit -> size <= sz < size + alignment) /\ (disk - limit < size -> sz = disk - limit).
Proof.
  intros Hdisk Hd5. unfold place_mda1, LABEL_SCAN_SIZE in *. rewrite !(wrap64_small (disk - limit)) by lia.
  set (m := if disk <? size then _ else _).
  assert (0 <= m <= disk /\ m mod 512 = 0 /\ (m = size /\ size <= disk \/ m = disk - limit /\ disk < size)) as (Hm & Hm5 & Hms) by (unfold m; destruct (Z.ltb_spec disk size); lia). clearbody m.
  rewrite !(wrap64_small (disk - m)) by lia. destruct (Z.ltb_spec (disk - m) limit).
  { rewrite wrap64_small by lia. eexists _, _. split; [done|lia]. }
  rewrite (proj2 (Z.eqb_neq alignment 0)) by lia.
  destruct (aligned_sum (disk - m) 0) as (E & Ha & _ & _ & H5); [lia..|]. cbv zeta in *. rewrite Z.add_0_r in *. rewrite E in *.
  specialize (H5 ltac:(lia) eq_refl). pose proof (Z.mod_le (disk - m) alignment ltac:(lia) ltac:(lia)).
  set (adj := (disk - m) mod alignment) in *. clearbody adj. clear E.
  destruct (Z.eqb_spec adj 0); [eexists _, _; split; [done|lia]|].
  rewrite !(wrap64_small (m + adj)), !(wrap64_small (disk - (m + adj))) by lia.
  destruct (Z.ltb_spec (m + adj) disk), (Z.leb_spec limit (disk - (m + adj))); cbn [andb]; eexists _, _; (split; [done|]); lia.
Qed.

End place.

(** ** The layout of a PV *)

(** The first sector behind the extents. *)
Definition extents_end (l : layout) : Z := l_pe_start l + l_pe_count l * l_pe_size l.

(** Extents that lie on the device, in less than 2^32 sectors, and reach into the second
    area by one sector at most. *)
Definition extents_ok (l : layout) : Prop :=
  l_pe_count l = 0 \/
  (0 < l_pe_count l /\ 0 < l_pe_size l /\ l_pe_count l * l_pe_size l < 2 ^ 32 /\ 4 <= l_pe_start l /\ extents_end l <= l_size l /\
   forall m, l_mda1 l = Some m -> 512 * (extents_end l - 1) <= ma_start m).

(** The label, MDA0, the extents and MDA1 follow each other without overlap. *)
Record layout_ok (l : layout) : Prop := {
  lo_size : 4 <= l_size l < 2 ^ 51;
  lo_pe_start : 0 <= l_pe_start l <= l_size l /\ (l_pe_start l = 0 \/ 4 <= l_pe_start l);
  lo_mda0 : forall m, l_mda0 l = Some m ->
    LABEL_SCAN_SIZE <= ma_start m /\ 0 < ma_size m /\ ma_start m mod 512 = 0 /\ ma_size m mod 512 = 0 /\
    ma_start m + ma_size m <= 512 * (if l_pe_start l =? 0 then l_size l else l_pe_start l);
  lo_mda1 : forall m, l_mda1 l = Some m ->
    LABEL_SCAN_SIZE <= ma_start m /\ 0 < ma_size m /\ ma_start m mod 512 = 0 /\ ma_size m mod 512 = 0 /\
    512 * l_pe_start l <= ma_start m /\ ma_start m + ma_size m <= 512 * l_size l;
  lo_apart : forall m0 m1, l_mda0 l = Some m0 -> l_mda1 l = Some m1 -> ma_start m0 + ma_size m0 <= ma_start m1 }.

Definition env_ok (env : mda_env) : Prop := 0 < me_page_size env < 2 ^ 20 /\ me_page_size env mod 512 = 0.

Definition align_ok (l : layout) : Prop := 0 < l_pe_align l < 2 ^ 51 /\ 0 <= l_pe_align_offset l < 2 ^ 51.

Lemma remove_mda_ok index l : layout_ok l -> layout_ok (set_mda index None l).
Proof.
  intros [H1 H2 H3 H4 H5]. split; cbn [set_mda l_size l_pe_start l_mda0 l_mda1]; destruct (index =? 0); try done; intros; simplify_eq.
Qed.

(** A new MDA0 between the label and [limit], the extents behind it or where
    they were. *)
Lemma add_mda0_ok l start sz ignored locked :
  layout_ok l -> l_mda0 l = None -> LABEL_SCAN_SIZE <= start -> 0 <= sz -> start + sz <= mda0_limit locked l ->
  start mod 512 = 0 -> sz mod 512 = 0 -> (locked = true -> 4 <= l_pe_start l) ->
  let l1 := if locked then l else set_l_pe_start ((start + sz) / 512) l in
  layout_ok l1 /\ (0 < sz -> layout_ok (set_mda 0 (Some (MdaArea start sz ignored)) l1)).
Proof.
  intros [H1 H2 H3 H4 H5] Hn Hs Hz Hlim Hs5 Hz5 Hlk. unfold LABEL_SCAN_SIZE in *.
  assert (start + sz <= 512 * l_size l /\ (forall m, l_mda1 l = Some m -> start + sz <= ma_start m) /\
    (locked = true -> start + sz <= 512 * l_pe_start l)) as (B1 & B2 & B3).
  { unfold mda0_limit in Hlim. destruct locked.
    - specialize (Hlk eq_refl). rewrite wrap64_small in Hlim by lia. split; [lia|]. split; [|lia].
      intros m Hm. destruct (H4 m Hm). lia.
    - destruct (l_mda1 l) as [m1|] eqn:E; [destruct (H4 m1 eq_refl)|rewrite wrap64_small in Hlim by lia];
        (split; [lia|]); (split; [|done]); intros m Hm; [injection Hm as <-; lia|done]. }
  assert (layout_ok (if locked then l else set_l_pe_start ((start + sz) / 512) l)) as Hl1.
  { destruct locked; [by split|]. split; cbn [set_l_pe_start l_size l_pe_start l_mda0 l_mda1]; try done; [lia|by rewrite Hn|].
    intros m Hm. destruct (H4 m Hm) as (? & ? & ? & ? & ? & ?). specialize (B2 m Hm). unfold LABEL_SCAN_SIZE in *.
    split_and!; lia. }
  split; [done|]. intros Hpos. destruct Hl1 as [J1 J2 J3 J4 J5].
  split; cbn [set_mda l_size l_pe_start l_mda0 l_mda1 Z.eqb]; try done.
  - intros m [= <-]. cbn. split_and!; try done. destruct locked; cbn [set_l_pe_start l_pe_start l_size].
    + specialize (B3 eq_refl). rewrite (proj2 (Z.eqb_neq _ _)) by lia. lia.
    + rewrite (proj2 (Z.eqb_neq _ _)) by lia. lia.
  - intros m0 m1 [= <-] Hm1. cbn. apply B2. by destruct locked.
Qed.

(** The end of the extents as a limit: the start of their last sector. *)
Lemma pe_end_spec l : layout_ok l -> extents_ok l ->
  pe_end l = 0 /\ l_pe_count l = 0 \/ pe_end l = 512 * (extents_end l - 1) /\ 4 <= l_pe_start l < extents_end l /\ extents_end l <= l_size l.
Proof.
  intros [H1 H2 H3 H4 H5] [E|(Hc & Hs & Hp & H & He & _)]; unfold pe_end, extents_end in *.
  - left. by rewrite E.
  - right. rewrite (proj2 (Z.eqb_neq (l_pe_count l) 0)) by lia. assert (0 < l_pe_count l * l_pe_size l) by (by apply Z.mul_pos_pos).
    rewrite (wrap32_small (_ * _)), (wrap64_small (_ - 1)), wrap64_small by lia. lia.
Qed.

Lemma add_mda1_ok l start sz ignored locked :
  layout_ok l -> extents_ok l -> (locked = true -> 4 <= l_pe_start l) ->
  mda1_limit locked l <= start -> 0 < sz -> start + sz = 512 * l_size l -> start mod 512 = 0 -> sz mod 512 = 0 ->
  layout_ok (set_mda 1 (Some (MdaArea start sz ignored)) l) /\ extents_ok (set_mda 1 (Some (MdaArea start sz ignored)) l).
Proof.
  intros Hl He Hlk Hlim Hz Hend Hs5 Hz5. pose proof (pe_end_spec l Hl He) as Hpe. destruct Hl as [H1 H2 H3 H4 H5].
  assert (LABEL_SCAN_SIZE <= start /\ 512 * l_pe_start l <= start /\ (l_pe_count l = 0 \/ 512 * (extents_end l - 1) <= start) /\
    forall m, l_mda0 l = Some m -> ma_start m + ma_size m <= start) as (B1 & B2 & Bx & B3).
  { unfold mda1_limit, LABEL_SCAN_SIZE in *. rewrite !(wrap64_small (l_pe_start l * 512)) in Hlim by lia.
    destruct (Z.eqb_spec (l_pe_start l * 512) 0) as [E|E]; cbn [negb orb] in Hlim.
    - assert (l_pe_start l = 0) as E0 by lia. destruct locked; [specialize (Hlk eq_refl); lia|].
      destruct (l_mda0 l) as [m0|] eqn:Em.
      + destruct (H3 m0 eq_refl) as (? & ? & ? & ? & B). rewrite E0 in B. cbn [Z.eqb] in B.
        rewrite wrap64_small in Hlim by lia. split; [lia|]. split; [lia|]. split; [lia|]. intros m [= <-]. lia.
      + split; [lia|]. split; [lia|]. split; [lia|done].
    - assert (512 * l_pe_start l <= start /\ (l_pe_count l = 0 \/ 512 * (extents_end l - 1) <= start)) as [B2 Bx].
      { destruct Hpe as [[Ep Ec]|(Ep & ? & ?)]; rewrite Ep in Hlim; [cbn [Z.eqb negb] in Hlim; lia|]. rewrite (proj2 (Z.eqb_neq _ _)) in Hlim by lia. cbn [negb] in Hlim. lia. }
      split; [lia|]. split; [lia|]. split; [done|]. intros m Hm. destruct (H3 m Hm) as (? & ? & ? & ? & B).
      rewrite (proj2 (Z.eqb_neq (l_pe_start l) 0)) in B by lia. lia. }
  split; [|destruct He as [He|(X1 & X2 & X3 & X4 & X5 & _)]; [by left|]; right; do 5 (split; [done|]); intros m [= <-]; cbn [ma_start]; unfold extents_end in *; cbn [set_mda l_pe_start l_pe_count l_pe_size]; lia].
  split; cbn [set_mda l_size l_pe_start l_mda0 l_mda1 Z.eqb]; try done.
  - intros m [= <-]. cbn. split_and!; try done; lia.
  - intros m0 m1 Hm0 [= <-]. cbn. by apply B3.
Qed.

Lemma mda0_limit_ok locked l :
  layout_ok l -> (locked = true -> 4 <= l_pe_start l) ->
  LABEL_SCAN_SIZE <= mda0_limit locked l <= 512 * l_size l /\ mda0_limit locked l mod 512 = 0.
Proof.
  intros [H1 H2 H3 H4 H5] Hlk. unfold mda0_limit, LABEL_SCAN_SIZE in *. destruct locked.
  - specialize (Hlk eq_refl). rewrite wrap64_small by lia. lia.
  - destruct (l_mda1 l) as [m|]; [destruct (H4 m eq_refl) as (? & ? & ? & ? & ? & ?); lia|]. rewrite wrap64_small by lia. lia.
Qed.

Lemma mda1_limit_ok locked l :
  layout_ok l -> extents_ok l -> (locked = true -> 4 <= l_pe_start l) ->
  LABEL_SCAN_SIZE <= mda1_limit locked l <= 512 * l_size l /\ mda1_limit locked l mod 512 = 0.
Proof.
  intros Hl He Hlk. pose proof (pe_end_spec l Hl He) as Hpe. destruct Hl as [H1 H2 H3 H4 H5]. unfold mda1_limit, LABEL_SCAN_SIZE in *.
  rewrite !(wrap64_small (l_pe_start l * 512)) by lia.
  destruct (Z.eqb_spec (l_pe_start l * 512) 0); cbn [negb orb].
  2: { destruct Hpe as [[-> _]|(-> & ? & ?)]; [cbn [Z.eqb negb]; lia|]. rewrite (proj2 (Z.eqb_neq _ _)) by lia. cbn [negb]. lia. }
  destruct locked; [specialize (Hlk eq_refl); lia|].
  destruct (l_mda0 l) as [m|]; [|lia]. destruct (H3 m eq_refl) as (? & ? & ? & ? & B).
  assert (ma_start m + ma_size m <= 512 * l_size l) by (destruct (l_pe_start l =? 0); lia).
  rewrite wrap64_small by lia. lia.
Qed.

Lemma add_wiped_ok env index start sz ignored l (P : layout -> Prop) :
  P l -> (0 < sz -> P (set_mda index (Some (MdaArea start sz ignored)) l)) -> 0 <= sz ->
  exists ok l', add_wiped env index start sz ignored l = (ok, l') /\ P l' /\
    ((forall off len, me_wipe env off len = true) -> me_alloc_ok env = true -> ok = true) /\
    l_pe_start l' = l_pe_start l /\ l_size l' = l_size l.
Proof.
  intros H1 H2 Hsz. unfold add_wiped. destruct (Z.eqb_spec sz 0); [by eexists _, _|].
  destruct (me_wipe env _ _) eqn:Ew; cbn [negb].
  - unfold add_metadata_area_to_pv. destruct (me_alloc_ok env); eexists _, _; (split; [done|]); [|done].
    split; [apply H2; lia|done].
  - eexists _, _. split; [done|]. split; [done|]. split; [|done]. intros Hw. by rewrite Hw in Ew.
Qed.

(** An area that was added leaves the extents alone. *)
Lemma extents_mda0 m l : extents_ok l -> extents_ok (set_mda 0 m l).
Proof. done. Qed.

Lemma extents_remove index l : extents_ok l -> extents_ok (set_mda index None l).
Proof.
  intros [H|(H1 & H2 & H3 & H4 & H5 & H6)]; [by left|]. right. do 5 (split; [done|]). cbn. destruct (index =? 0); [done|]. intros m Hm. done.
Qed.

(** C14: Adding a metadata area keeps the layout of a PV: the label, the first
    area, the extents and the second area follow each other on the device, for areas
    of any requested size (which is cut down to what fits).  There is no overlap, except
    that a second area that is cut down, or moved down to be aligned, may take the last
    sector of extents that the PV already has, and only that one; a second area that fits
    with its alignment does not.  The extents have less than 2^32 sectors, and there are
    none yet when a first area is added that may move their start.  It fails only when
    wiping or memory does; and when there is room, the extents behind a first area start at
    the alignment plus its offset. *)
Theorem add_metadata_area_layout env locked index mda_size ignored l :
  layout_ok l -> extents_ok l -> env_ok env -> align_ok l -> index = 0 \/ index = 1 -> 0 < mda_size < 2 ^ 51 ->
  (locked = true -> 4 <= l_pe_start l) -> (index = 0 -> locked = false -> l_pe_count l = 0) ->
  exists ok l', text_pv_add_metadata_area env locked index mda_size ignored l = Some (ok, l') /\
    layout_ok l' /\ extents_ok l' /\ l_size l' = l_size l /\ l_pe_count l' = l_pe_count l /\ (locked = true \/ index = 1 -> l_pe_start l' = l_pe_start l) /\
    ((forall off len, me_wipe env off len = true) -> me_alloc_ok env = true -> ok = true) /\
    (index = 1 -> extents_end l + mda_size + l_pe_align l <= l_size l -> forall m, l_mda1 l' = Some m -> 512 * extents_end l <= ma_start m) /\
    (index = 0 -> locked = false -> LABEL_SCAN_SIZE + me_page_size env +
       512 * (mda_size + l_pe_align l + l_pe_align_offset l) <= mda0_limit false l ->
     (512 * l_pe_start l') mod (512 * l_pe_align l) = (512 * l_pe_align_offset l) mod (512 * l_pe_align l)).
Proof.
  intros Hl0 Hx0 He [Ha Hao] Hi Hm Hlk Hnew. unfold text_pv_add_metadata_area.
  rewrite (proj2 (Z.leb_gt _ _)) by (unfold FMT_TEXT_MAX_MDAS_PER_PV; lia). pose proof (lo_size _ Hl0) as Hsz.
  rewrite (wrap64_small (l_pe_align l * 512)), (wrap64_small (l_pe_align_offset l * 512)), (wrap64_small (l_size l * 512)),
    (wrap64_small (mda_size * 512)) by lia.
  set (l0 := if get_mda l index is Some _ then _ else l).
  assert (layout_ok l0 /\ extents_ok l0 /\ get_mda l0 index = None /\ l_pe_start l0 = l_pe_start l /\ l_size l0 = l_size l /\
    l_pe_count l0 = l_pe_count l /\ l_pe_size l0 = l_pe_size l /\ (index = 0 -> l_mda1 l0 = l_mda1 l)) as (Hl & Hx & Hg & Hp & Hz & Hc0 & Hps & Hm1).
  { unfold l0. destruct (get_mda l index) eqn:Eg; [|done]. unfold text_pv_remove_metadata_area.
    rewrite (proj2 (Z.leb_gt _ _)) by (unfold FMT_TEXT_MAX_MDAS_PER_PV; lia). cbn [snd].
    split; [by apply remove_mda_ok|]. split; [by apply extents_remove|]. unfold get_mda. cbn [set_mda l_mda0 l_mda1]. destruct (Z.eqb_spec index 0); done. }
  clearbody l0. rewrite <- Hp in Hlk.
  assert (0 < l_pe_align l * 512 < 2 ^ 61 /\ (l_pe_align l * 512) mod 512 = 0) as Hal by lia.
  assert (0 < mda_size * 512 < 2 ^ 61 /\ (mda_size * 512) mod 512 = 0) as Hms by lia.
  destruct Hi as [->| ->]; cbn [Z.eqb] in *.
  - destruct (mda0_limit_ok locked l0 Hl Hlk) as [Hb Hb5]. rewrite Hz in Hb. rewrite (proj2 (Z.ltb_ge _ _)) by lia.
    destruct (place_mda0_spec (me_page_size env) (l_pe_align l * 512) (l_pe_align_offset l * 512) (mda0_limit locked l0)
      (mda_size * 512) locked) as (start & sz & E & P1 & P2 & P3 & P4 & P5 & P6); [apply He|done|lia|lia|done|].
    rewrite E. unfold LABEL_SCAN_SIZE in *. rewrite (wrap64_small (start + sz)) by lia.
    destruct (add_mda0_ok l0 start sz ignored locked Hl Hg P1 P2 P3 P4 P5 Hlk) as [L1 L2].
    set (l1 := if locked then l0 else set_l_pe_start ((start + sz) / 512) l0) in *.
    assert (extents_ok l1) as X1 by (unfold l1; destruct locked; [done|left; cbn; rewrite Hc0; by apply Hnew]).
    edestruct (add_wiped_ok env 0 start sz ignored l1 (fun l' => layout_ok l' /\ extents_ok l' /\ l_pe_count l' = l_pe_count l1) ltac:(done)) as (ok & l' & Ew & (W1 & Wx & Wc) & W2 & W3 & W4);
      [intros Hpos; split; [by apply L2|]; split; [by apply extents_mda0|done]|done|].
    exists ok, l'. rewrite Ew. do 3 (split; [done|]). split; [rewrite W4; unfold l1; by destruct locked|]. split; [rewrite Wc; unfold l1; by destruct locked|].
    split; [rewrite W3; unfold l1; intros [->|]; [done|lia]|]. split; [done|]. split; [done|].
    intros _ -> Hroom. rewrite W3. cbn [l1 set_l_pe_start l_pe_start].
    replace (512 * ((start + sz) / 512)) with (start + sz) by lia. rewrite !(Z.mul_comm 512). apply P6.
    assert (mda0_limit false l0 = mda0_limit false l) as -> by (unfold mda0_limit; by rewrite Hz, Hm1). lia.
  - destruct (mda1_limit_ok locked l0 Hl Hx Hlk) as [Hb Hb5]. rewrite Hz in Hb. rewrite (proj2 (Z.ltb_ge _ _)) by lia.
    destruct (place_mda1_spec 0 (l_pe_align l * 512) 0 (mda1_limit locked l0) (mda_size * 512) Hal ltac:(unfold LABEL_SCAN_SIZE in *; lia)
      Hms (l_size l * 512)) as (start & sz & E & P1 & P2 & P3 & P4 & P5 & P6 & P7); [lia|lia|]. rewrite E.
    assert (extents_end l + mda_size + l_pe_align l <= l_size l -> 512 * extents_end l <= start) as Hfit.
    { intros Hroom. assert (sz < mda_size * 512 + l_pe_align l * 512); [|lia]. destruct (Z.lt_ge_cases (l_size l * 512 - mda1_limit locked l0) (mda_size * 512)); [rewrite P7 by lia|]; lia. }
    edestruct (add_wiped_ok env 1 start sz ignored l0 (fun l' => layout_ok l' /\ extents_ok l' /\ l_pe_count l' = l_pe_count l /\ forall m, l_mda1 l' = Some m -> ma_start m = start))
      as (ok & l' & Ew & (W1 & Wx & Wc & Wm) & W2 & W3 & W4).
    { do 3 (split; [done|]). intros m Hm'. unfold get_mda in Hg. cbn [Z.eqb] in Hg. congruence. }
    { intros Hpos. destruct (add_mda1_ok l0 start sz ignored locked) as [A1 A2]; [done..|lia|done|done|]. do 3 (split; [done|]). by intros m [= <-]. }
    { done. }
    exists ok, l'. rewrite Ew. do 3 (split; [done|]). split; [congruence|]. split; [done|]. split; [by rewrite W3|]. split; [done|]. split; [|done].
    intros _ Hroom m Hmm. rewrite (Wm m Hmm). by apply Hfit.
Qed.

Definition demo_menv : mda_env := MdaEnv 4096 (fun _ _ => true) true.
Definition demo_layout : layout := Layout 204800 0 0 0 2048 0 1 None None.

Lemma demo_layout_ok : layout_ok demo_layout.
Proof. by split; cbn; try lia. Qed.

(** A new PV, and one with 24 extents of 8192 sectors. *)
Lemma add_metadata_area_layout_witness :
  (exists ok l', text_pv_add_metadata_area demo_menv false 0 2040 false demo_layout = Some (ok, l') /\ layout_ok l' /\ (512 * l_pe_start l') mod (512 * 2048) = 0) /\
  exists ok l', text_pv_add_metadata_area demo_menv true 1 2040 false (Layout 204800 8192 2048 24 2048 0 1 None None) = Some (ok, l') /\ layout_ok l' /\
    forall m, l_mda1 l' = Some m -> 512 * (2048 + 24 * 8192) <= ma_start m.
Proof.
  split.
  - destruct (add_metadata_area_layout demo_menv false 0 2040 false demo_layout) as (ok & l' & E & Hl & _ & _ & _ & _ & _ & _ & Ha).
    + apply demo_layout_ok.
    + by left.
    + split; cbn; [lia|done].
    + split; cbn; lia.
    + by left.
    + lia.
    + done.
    + done.
    + exists ok, l'. split; [exact E|]. split; [exact Hl|]. apply Ha; [done|done|]. vm_compute. congruence.
  - destruct (add_metadata_area_layout demo_menv true 1 2040 false (Layout 204800 8192 2048 24 2048 0 1 None None)) as (ok & l' & E & Hl & _ & _ & _ & _ & _ & Hm & _).
    + split; cbn; [lia|lia|done|done|done].
    + right. unfold extents_end. cbn. split_and!; try lia. done.
    + split; cbn; [lia|done].
    + split; cbn; lia.
    + by right.
    + lia.
    + cbn. lia.
    + done.
    + exists ok, l'. split; [exact E|]. split; [exact Hl|]. apply Hm; [done|]. vm_compute. congruence.
Defined.

(** ** Resizing *)



(** Nothing stops a resize below the start of the extents: [pv_resize]
    reports an error for such a size but goes on, and the subtraction wraps
    round, leaving a PV of nearly 2^64 sectors. *)
Theorem text_pv_resize_wraps env size l :
  l_mda1 l = None -> 0 <= size < l_pe_start l -> l_pe_start l < 2 ^ 64 ->
  exists l', text_pv_resize env true size l = Some (true, l') /\ l_size l' = 2 ^ 64 - (l_pe_start l - size).
Proof.
  intros Hm Hs Hp. unfold text_pv_resize. cbn [set_l_pe_count set_l_size l_mda1]. rewrite Hm. cbn [negb l_mda1].
  eexists. split; [done|]. cbn [set_l_pe_count set_l_size l_mda1 l_size l_pe_start]. rewrite Hm. unfold wrap64, wrap.
  symmetry. apply (Z.mod_unique_pos _ _ (-1)); lia.
Qed.

Lemma text_pv_resize_wraps_witness : exists l',
  text_pv_resize demo_menv true 1024 (Layout 204800 0 2048 50 2048 0 1 None None) = Some (true, l') /\
  l_size l' = 18446744073709550592.
Proof. apply (text_pv_resize_wraps demo_menv 1024 (Layout 204800 0 2048 50 2048 0 1 None None)); cbn; lia || done. Defined.

(** ** Where the checks fall short *)

(** [_text_pv_initialise] compares the end of the extents in sectors with the
    size of the device in bytes: extents that end far behind the device pass. *)
Lemma initialise_accepts_beyond_end :
  let e := AlignEnv 4096 0 1 true true 0 true 0 0 true 0 in
  let l := Layout 204800 0 0 0 0 0 1 None None in
  let '(ok, l') := text_pv_initialise e 1 (Some 2048) 1000 8192 0 0 l in
  ok = true /\ l_size l' < l_pe_start l' + l_pe_count l' * l_pe_size l'.
Proof. vm_compute. done. Qed.

(** The limit of MDA1 is the start of the last sector of the extents, not its
    end: an area too large for the rest of the device overlaps that sector. *)
Lemma mda1_overlaps_last_sector :
  let l := Layout 204800 8192 2048 24 2048 0 1 None None in
  match text_pv_add_metadata_area demo_menv true 1 10000 false l with
  | Some (true, l') =>
      match l_mda1 l' with
      | Some m => ma_start m <? 512 * (l_pe_start l + l_pe_count l * l_pe_size l)
      | None => false
      end
  | _ => false
  end = true.
Proof. vm_compute. reflexivity. Qed.

(** The product of the number and the size of the extents is taken in 32 bits:
    MDA1 of a PV with 2^32 sectors of extents is put in the middle of them. *)
Lemma mda1_limit_overflows :
  let l := Layout (2 ^ 32 + 8192) 8192 2048 (2 ^ 19) 2048 0 1 None None in
  mda1_limit true l < 512 * 8192 /\ l_pe_count l * l_pe_size l = 2 ^ 32.
Proof. vm_compute. done. Qed.
