(* ===== verification/Config.v ===== *)
(** * Configuration trees: libdm/libdm-config.c

    The text format of the configuration file and of the metadata on disk: a
    tokeniser and a recursive-descent parser from bytes to a tree of nodes, a
    writer back to lines, and the lookups by path.  A chain of siblings and a
    chain of values are lists; a value chain that is NULL is the empty list.
    Allocations succeed; line numbers, which only appear in messages, are left
    out.  Floating-point numbers are a parameter, with the C library's strtod and
    printf for them. *)

From S2P Require Import Prelude DmString.

(** ** Trees *)

Section config.
Context {F : Type}.

(** [struct dm_config_value], without the chain. *)
Inductive cvalue := CfgInt (i : Z) | CfgFloat (f : F) | CfgString (s : list Z) | CfgEmptyArray.

(** [struct dm_config_node], without the chain of siblings. *)
Inductive cnode := Node (key : list Z) (v : list cvalue) (child : list cnode).

Definition node_key (n : cnode) : list Z := let '(Node k _ _) := n in k.
Definition node_v (n : cnode) : list cvalue := let '(Node _ v _) := n in v.
Definition node_child (n : cnode) : list cnode := let '(Node _ _ c) := n in c.

(** ** The tokeniser *)

Inductive token :=
  TOK_INT | TOK_FLOAT | TOK_STRING | TOK_STRING_ESCAPED | TOK_EQ | TOK_SECTION_B | TOK_SECTION_E
| TOK_ARRAY_B | TOK_ARRAY_E | TOK_IDENTIFIER | TOK_COMMA | TOK_EOF.

#[global] Instance token_eq_dec : EqDecision token.
Proof. solve_decision. Defined.

(** [struct parser]: the type and the bytes of the current token, and the bytes
    from [te] to the end of the text. *)
Record parser := Parser { p_t : token; p_tok : list Z; p_rest : list Z }.

(** [_eat_space]; [comment] is set behind a hash sign. *)
Fixpoint eat_space (comment : bool) (l : list Z) : list Z :=
  match l with
  | [] => []
  | c :: l' =>
      if comment && negb ((c =? 10) || (c =? 0)) then eat_space true l'
      else if c =? 35 then eat_space true l'
      else if isspace c then eat_space false l' else l
  end.

(** The longest prefix of bytes that satisfy [f], and the rest. *)
Fixpoint span (f : Z -> bool) (l : list Z) : list Z * list Z :=
  match l with
  | [] => ([], [])
  | c :: l' => if f c then let '(a, b) := span f l' in (c :: a, b) else ([], l)
  end.

(** The loop over a string in double quotes, from behind the opening one to
    behind the closing one. *)
Fixpoint scan_escaped (l : list Z) : list Z * list Z :=
  match l with
  | [] => ([], [])
  | c :: l' =>
      if c =? 0 then ([], l)
      else if c =? 34 then ([c], l')
      else match l' with
           | d :: l'' =>
               if (c =? 92) && negb (d =? 0) then let '(a, b) := scan_escaped l'' in (c :: d :: a, b)
               else let '(a, b) := scan_escaped l' in (c :: a, b)
           | [] => ([c], [])
           end
  end.

(** The loop over a string in single quotes. *)
Fixpoint scan_string (l : list Z) : list Z * list Z :=
  match l with
  | [] => ([], [])
  | c :: l' =>
      if c =? 0 then ([], l)
      else if c =? 39 then ([c], l')
      else let '(a, b) := scan_string l' in (c :: a, b)
  end.

(** The loop over a number, behind its first byte. *)
Fixpoint scan_number (float : bool) (l : list Z) : bool * list Z * list Z :=
  match l with
  | [] => (float, [], [])
  | c :: l' =>
      if isdigit c then let '(f, a, b) := scan_number float l' in (f, c :: a, b)
      else if (c =? 46) && negb float then let '(f, a, b) := scan_number true l' in (f, c :: a, b)
      else (float, [], l)
  end.

Definition ident_char (c : Z) : bool :=
  negb ((c =? 0) || isspace c || (c =? 35) || (c =? 61) || (c =? 123) || (c =? 125)).

Definition number_start (c : Z) : bool := isdigit c || (c =? 46) || (c =? 43) || (c =? 45).

Definition values_allowed (tok_prev : token) : bool :=
  match tok_prev with TOK_EQ | TOK_ARRAY_B | TOK_COMMA => true | _ => false end.

(** [_get_token], from the text behind the previous token. *)
Definition get_token (tok_prev : token) (text : list Z) : parser :=
  let l := eat_space false text in
  match l with
  | [] => Parser TOK_EOF [] []
  | c :: l' =>
      if c =? 0 then Parser TOK_EOF [] l
      else if c =? 123 then Parser TOK_SECTION_B [c] l'
      else if c =? 125 then Parser TOK_SECTION_E [c] l'
      else if c =? 91 then Parser TOK_ARRAY_B [c] l'
      else if c =? 93 then Parser TOK_ARRAY_E [c] l'
      else if c =? 44 then Parser TOK_COMMA [c] l'
      else if c =? 61 then Parser TOK_EQ [c] l'
      else if c =? 34 then let '(a, b) := scan_escaped l' in Parser TOK_STRING_ESCAPED (c :: a) b
      else if c =? 39 then let '(a, b) := scan_string l' in Parser TOK_STRING (c :: a) b
      else if number_start c && values_allowed tok_prev then
        let '(f, a, b) := scan_number (c =? 46) l' in Parser (if f then TOK_FLOAT else TOK_INT) (c :: a) b
      else let '(a, b) := span ident_char l in Parser TOK_IDENTIFIER a b
  end.

(** ** The parser *)

(** What parsing gives: a result and the parser behind it, a reported error, an
    access outside the text, or no more fuel. *)
Inductive presult (A : Type) := Parsed (a : A) (p : parser) | ParseError | Wild | OutOfFuel.
Arguments Parsed {A} a p.
Arguments ParseError {A}.
Arguments Wild {A}.
Arguments OutOfFuel {A}.

Definition pbind {A B} (r : presult A) (k : A -> parser -> presult B) : presult B :=
  match r with
  | Parsed a p => k a p
  | ParseError => ParseError
  | Wild => Wild
  | OutOfFuel => OutOfFuel
  end.

(** [match]: the parser behind a token of type [t]. *)
Definition pmatch (t : token) (p : parser) : presult unit :=
  if decide (p_t p = t) then Parsed tt (get_token t (p_rest p)) else ParseError.

(** The token without its quotes, as [_dup_tok] copies it; [None] when the length
    underflows. *)
Definition strip_quotes (tok : list Z) : option (list Z) :=
  if (length tok <? 2)%nat then None else Some (take (length tok - 2) (drop 1 tok)).

(** The C library's strtod and printf("%f"); what is behind the text: [[0]] when
    it is NUL terminated, nothing when it is a piece of memory. *)
Context (strtod : list Z -> option F) (print_float : F -> list Z) (behind : list Z).

(** [_type] *)
Definition type_ (p : parser) : presult cvalue :=
  match p_t p with
  | TOK_INT =>
      match strtoll (p_tok p ++ p_rest p ++ behind) with
      | Some i => pbind (pmatch TOK_INT p) (fun _ p => Parsed (CfgInt i) p)
      | None => Wild
      end
  | TOK_FLOAT =>
      match strtod (p_tok p ++ p_rest p ++ behind) with
      | Some f => pbind (pmatch TOK_FLOAT p) (fun _ p => Parsed (CfgFloat f) p)
      | None => Wild
      end
  | TOK_STRING =>
      match strip_quotes (p_tok p) with
      | Some s => pbind (pmatch TOK_STRING p) (fun _ p => Parsed (CfgString s) p)
      | None => Wild
      end
  | TOK_STRING_ESCAPED =>
      match strip_quotes (p_tok p) with
      | Some s => pbind (pmatch TOK_STRING_ESCAPED p) (fun _ p => Parsed (CfgString (dm_unescape_double_quotes s)) p)
      | None => Wild
      end
  | _ => ParseError
  end.

(** The loop of [_value] over the elements of an array. *)
Fixpoint array (fuel : nat) (p : parser) : presult (list cvalue) :=
  match fuel with
  | O => OutOfFuel
  | S fuel =>
      if decide (p_t p = TOK_ARRAY_E) then Parsed [] p else
      pbind (type_ p) (fun v p =>
      pbind (if decide (p_t p = TOK_COMMA) then pmatch TOK_COMMA p else Parsed tt p) (fun _ p =>
      pbind (array fuel p) (fun vs p => Parsed (v :: vs) p)))
  end.

(** [_value] *)
Definition value (fuel : nat) (p : parser) : presult (list cvalue) :=
  if decide (p_t p = TOK_ARRAY_B) then
    pbind (pmatch TOK_ARRAY_B p) (fun _ p =>
    pbind (array fuel p) (fun vs p =>
    pbind (pmatch TOK_ARRAY_E p) (fun _ p =>
    Parsed (if vs is [] then [CfgEmptyArray] else vs) p)))
  else pbind (type_ p) (fun v p => Parsed [v] p).

(** [_section], and its loop over the nodes of a section up to [stop]. *)
Fixpoint section (fuel : nat) (p : parser) : presult cnode :=
  match fuel with
  | O => OutOfFuel
  | S fuel =>
      let key := p_tok p in
      pbind (pmatch TOK_IDENTIFIER p) (fun _ p =>
      if decide (p_t p = TOK_SECTION_B) then
        pbind (pmatch TOK_SECTION_B p) (fun _ p =>
        pbind (sections fuel TOK_SECTION_E p) (fun child p =>
        pbind (pmatch TOK_SECTION_E p) (fun _ p => Parsed (Node key [] child) p)))
      else
        pbind (pmatch TOK_EQ p) (fun _ p =>
        pbind (value fuel p) (fun v p => Parsed (Node key v []) p)))
  end
with sections (fuel : nat) (stop : token) (p : parser) : presult (list cnode) :=
  match fuel with
  | O => OutOfFuel
  | S fuel =>
      if decide (p_t p = stop) then Parsed [] p else
      pbind (section fuel p) (fun n p =>
      pbind (sections fuel stop p) (fun ns p => Parsed (n :: ns) p))
  end.

(** [_file] *)
Definition file (fuel : nat) (p : parser) : presult (list cnode) := sections fuel TOK_EOF p.

(** [dm_config_parse]: the roots, or an error; a text without nodes is an error. *)
Definition dm_config_parse (text : list Z) : presult (list cnode) :=
  match file (2 * length text + 2) (get_token TOK_SECTION_E text) with
  | Parsed [] _ => ParseError
  | r => r
  end.

(** ** The writer *)

(** [struct output_line]: the lines given to putline so far, and the current one. *)
Record output := Output { o_lines : list (list Z); o_cur : list Z }.

Definition line_start (o : output) : output := Output (o_lines o) [].

(** [_line_append] of a formatted text: vsnprintf is given 4095 bytes, so it
    stores at most 4094 characters. *)
Definition line_append (s : list Z) (o : output) : bool * output :=
  if 4095 <? Z.of_nat (length s) then (false, o) else (true, Output (o_lines o) (o_cur o ++ take 4094 s)).

Definition line_end (o : output) : output := Output (o_lines o ++ [o_cur o]) [].

(** Actions that may fail, in order. *)
Definition andthen (r : bool * output) (k : output -> bool * output) : bool * output :=
  let '(ok, o) := r in if ok then k o else (false, o).

(** [_write_value] *)
Definition write_value (v : cvalue) (o : output) : bool * output :=
  match v with
  | CfgString s => line_append (34 :: dm_escape_double_quotes s ++ [34]) o
  | CfgFloat f => line_append (print_float f) o
  | CfgInt i => line_append (print_int i) o
  | CfgEmptyArray => line_append [91; 93] o
  end.

Definition is_empty_array (v : cvalue) : bool := if v is CfgEmptyArray then true else false.

(** The loop of [_write_config] over the values of an array. *)
Fixpoint write_values (vs : list cvalue) (o : output) : bool * output :=
  match vs with
  | [] => (true, o)
  | v :: vs =>
      if is_empty_array v then (true, o) else
      andthen (write_value v o) (fun o =>
      andthen (match vs with
               | w :: _ => if is_empty_array w then (true, o) else line_append [44; 32] o
               | [] => (true, o)
               end) (fun o => write_values vs o))
  end.

Definition MAX_INDENT : nat := 32.

(** The body of [_write_config] for one node.  What becomes of the nodes of a
    section is not looked at. *)
Fixpoint write_node (level : nat) (n : cnode) (o : output) : bool * output :=
  let '(Node key v child) := n in
  let space := replicate (Nat.min level MAX_INDENT) 9 in
  andthen (line_append (space ++ key) (line_start o)) (fun o =>
  andthen (match v with
           | [] =>
               andthen (line_append [32; 123] o) (fun o =>
               let o := line_end o in
               let o := ((fix go (l : list cnode) (o : output) : bool * output :=
                            match l with
                            | [] => (true, o)
                            | n :: l => andthen (write_node (S level) n o) (fun o => go l o)
                            end) child o).2 in
               line_append (space ++ [125]) (line_start o))
           | [v] => andthen (line_append [61] o) (fun o => write_value v o)
           | vs =>
               andthen (line_append [61] o) (fun o =>
               andthen (line_append [91] o) (fun o =>
               andthen (write_values vs o) (fun o => line_append [93] o)))
           end) (fun o => (true, line_end o))).

(** [_write_config] without only_one. *)
Fixpoint write_config (level : nat) (l : list cnode) (o : output) : bool * output :=
  match l with
  | [] => (true, o)
  | n :: l => andthen (write_node level n o) (fun o => write_config level l o)
  end.

(** [dm_config_write_node]: the result and the lines. *)
Definition dm_config_write_node (cn : list cnode) : bool * list (list Z) :=
  let '(ok, o) := write_config 0 cn (Output [] []) in (ok, o_lines o).

(** ** Lookups *)

Definition sep : Z := 47.

(** [_tok_match]: the key is the segment. *)
Fixpoint tok_match (str tok : list Z) : bool :=
  match str, tok with
  | [], [] => true
  | a :: str, b :: tok => if a =? b then tok_match str tok else false
  | _, _ => false
  end.

(** The first node of the chain with the key. *)
Fixpoint hunt (cn : list cnode) (seg : list Z) : option cnode :=
  match cn with
  | [] => None
  | n :: cn => if tok_match (node_key n) seg then Some n else hunt cn seg
  end.

Fixpoint trim (path : list Z) : list Z :=
  match path with c :: path' => if c =? sep then trim path' else path | [] => [] end.

(** The loop of [_find_config_node]; each round with a rest of the path makes the
    path shorter. *)
Fixpoint find_loop (fuel : nat) (cn : list cnode) (path : list Z) (cn_found : option cnode) : option cnode :=
  match fuel with
  | O => None
  | S fuel =>
      match cn with
      | [] => cn_found
      | _ =>
          let '(seg, e) := span (fun c => negb (c =? sep)) (trim path) in
          match hunt cn seg, e with
          | Some n, _ :: _ => find_loop fuel (node_child n) e (Some n)
          | found, _ => found
          end
      end
  end.

Definition find_config_node (cn : list cnode) (path : list Z) : option cnode :=
  find_loop (S (length path)) cn path None.

(** [struct dm_config_tree] as the list of the roots of a cascade. *)
Fixpoint find_first_config_node (trees : list (list cnode)) (path : list Z) : option cnode :=
  match trees with
  | [] => None
  | t :: trees => match find_config_node t path with Some n => Some n | None => find_first_config_node trees path end
  end.

(** [_find_config_str]; NULL is [None]. *)
Definition find_config_str (n : option cnode) (fail : option (list Z)) (allow_empty : bool) : option (list Z) :=
  match node_v <$> n with
  | Some (CfgString s :: _) => if allow_empty || negb (bool_decide (s = [])) then Some s else fail
  | _ => fail
  end.

Definition find_config_int64 (n : option cnode) (fail : Z) : Z :=
  match node_v <$> n with Some (CfgInt i :: _) => i | _ => fail end.

Definition find_config_float (n : option cnode) (fail : F) : F :=
  match node_v <$> n with Some (CfgFloat f :: _) => f | _ => fail end.

(** strcasecmp gives 0. *)
Definition str_in_array (str : list Z) (values : list (list Z)) : bool :=
  existsb (fun v => bool_decide (map tolower str = map tolower v)) values.

Definition str_to_bool (str : list Z) (fail : Z) : Z :=
  if str_in_array str [bytes "y"; bytes "yes"; bytes "on"; bytes "true"] then 1
  else if str_in_array str [bytes "n"; bytes "no"; bytes "off"; bytes "false"] then 0 else fail.

(** [_find_config_bool]; [None] follows the NULL pointer of a section's value. *)
Definition find_config_bool (n : option cnode) (fail : Z) : option Z :=
  match n with
  | None => Some fail
  | Some n =>
      match node_v n with
      | [] => None
      | CfgInt i :: _ => Some (if i =? 0 then 0 else 1)
      | CfgString s :: _ => Some (str_to_bool s fail)
      | _ => Some fail
      end
  end.

Definition dm_config_find_str (cn : list cnode) (path : list Z) (fail : option (list Z)) : option (list Z) :=
  find_config_str (find_config_node cn path) fail false.
Definition dm_config_find_str_allow_empty (cn : list cnode) (path : list Z) (fail : option (list Z)) : option (list Z) :=
  find_config_str (find_config_node cn path) fail true.
Definition dm_config_find_int64 (cn : list cnode) (path : list Z) (fail : Z) : Z :=
  find_config_int64 (find_config_node cn path) fail.
Definition dm_config_find_int (cn : list cnode) (path : list Z) (fail : Z) : Z :=
  swrap 32 (find_config_int64 (find_config_node cn path) fail).
Definition dm_config_find_float (cn : list cnode) (path : list Z) (fail : F) : F :=
  find_config_float (find_config_node cn path) fail.
Definition dm_config_find_bool (cn : list cnode) (path : list Z) (fail : Z) : option Z :=
  find_config_bool (find_config_node cn path) fail.

Definition dm_config_tree_find_str (t : list (list cnode)) (path : list Z) (fail : option (list Z)) : option (list Z) :=
  find_config_str (find_first_config_node t path) fail false.
Definition dm_config_tree_find_str_allow_empty (t : list (list cnode)) (path : list Z) (fail : option (list Z)) :
    option (list Z) :=
  find_config_str (find_first_config_node t path) fail true.
Definition dm_config_tree_find_int64 (t : list (list cnode)) (path : list Z) (fail : Z) : Z :=
  find_config_int64 (find_first_config_node t path) fail.
Definition dm_config_tree_find_int (t : list (list cnode)) (path : list Z) (fail : Z) : Z :=
  swrap 32 (find_config_int64 (find_first_config_node t path) fail).
Definition dm_config_tree_find_float (t : list (list cnode)) (path : list Z) (fail : F) : F :=
  find_config_float (find_first_config_node t path) fail.
Definition dm_config_tree_find_bool (t : list (list cnode)) (path : list Z) (fail : Z) : option Z :=
  find_config_bool (find_first_config_node t path) fail.

Definition dm_config_get_uint32 (cn : list cnode) (path : list Z) : option Z :=
  match node_v <$> find_config_node cn path with Some (CfgInt i :: _) => Some (wrap32 i) | _ => None end.
Definition dm_config_get_uint64 (cn : list cnode) (path : list Z) : option Z :=
  match node_v <$> find_config_node cn path with Some (CfgInt i :: _) => Some (wrap64 i) | _ => None end.
Definition dm_config_get_str (cn : list cnode) (path : list Z) : option (list Z) :=
  match node_v <$> find_config_node cn path with Some (CfgString s :: _) => Some s | _ => None end.
Definition dm_config_get_list (cn : list cnode) (path : list Z) : option (list cvalue) :=
  match node_v <$> find_config_node cn path with Some (v :: vs) => Some (v :: vs) | _ => None end.
Definition dm_config_get_section (cn : list cnode) (path : list Z) : option cnode :=
  match find_config_node cn path with
  | Some n => if node_v n is [] then Some n else None
  | None => None
  end.
Definition dm_config_has_node (cn : list cnode) (path : list Z) : bool :=
  if find_config_node cn path is Some _ then true else false.

(** [dm_config_maybe_section] of the first [len] bytes. *)
Definition dm_count_chars (str : list Z) (c : Z) : Z := Z.of_nat (length (filter (fun x => x = c) str)).
Definition dm_config_maybe_section (str : list Z) : bool :=
  let begin_count := dm_count_chars str 123 in
  let end_count := dm_count_chars str 125 in
  negb (begin_count =? 0) && negb (end_count =? 0) && (begin_count =? end_count).

(** [dm_config_clone_node_with_mem] of a chain: the first node, with its siblings
    on request. *)
Fixpoint clone_node (n : cnode) : cnode :=
  let '(Node key v child) := n in
  Node key (map (fun v => match v with CfgString s => CfgString s | v => v end) v) (map clone_node child).

Definition dm_config_clone_node (cn : list cnode) (siblings : bool) : option (list cnode) :=
  match cn with
  | [] => None
  | n :: cn => Some (clone_node n :: if siblings then map clone_node cn else [])
  end.

Definition dm_config_create_node (key : list Z) : cnode := Node key [CfgInt 0] [].

End config.

Arguments cvalue : clear implicits.
Arguments cnode : clear implicits.
Arguments Parsed {A} a p.
Arguments ParseError {A}.
Arguments Wild {A}.
Arguments OutOfFuel {A}.
