(* ===== verification/ConfigProps.v ===== *)
(** * Properties of configuration trees

    The parser terminates on every text; what the writer prints is parsed back
    to the same tree; lookups follow the path; and four places where the code
    goes wrong. *)

From S2P Require Import Prelude DmString Config.

(** Induction over trees. *)
Section cnode_induction.
Context {F : Type} (P : cnode F -> Prop).
Hypothesis Hnode : forall key v child, Forall P child -> P (Node key v child).

Fixpoint cnode_rect_list (n : cnode F) : P n :=
  match n with
  | Node key v child =>
      Hnode key v child ((fix go (l : list (cnode F)) : Forall P l :=
        match l with [] => Forall_nil_2 P | n :: l => Forall_cons_2 P n l (cnode_rect_list n) (go l) end) child)
  end.
End cnode_induction.

(** ** The tokeniser *)

Lemma eat_space_length b l : (length (eat_space b l) <= length l)%nat.
Proof.
  revert b. induction l as [|c l IH]; intros b; [done|]. cbn [eat_space].
  destruct (b && _); [|destruct (c =? 35); [|destruct (isspace c)]]; cbn [length];
    [specialize (IH true)|specialize (IH true)|specialize (IH false)|]; lia.
Qed.

(** What is left does not start with white space or a comment. *)
Lemma eat_space_head b l c l' : eat_space b l = c :: l' -> isspace c = false /\ c <> 35.
Proof.
  revert b. induction l as [|d l IH]; intros b; [done|]. cbn [eat_space].
  destruct (b && _); [apply IH|]. destruct (Z.eqb_spec d 35); [apply IH|]. destruct (isspace d) eqn:E; [apply IH|].
  by intros [= <- <-].
Qed.

Lemma span_app f l a b : span f l = (a, b) -> l = a ++ b.
Proof.
  revert a b. induction l as [|c l IH]; intros a b; cbn [span]; [by intros [= <- <-]|].
  destruct (f c); [|by intros [= <- <-]]. destruct (span f l) as [x y]. intros [= <- <-]. by rewrite (IH x y).
Qed.

Lemma scan_escaped_app l a b : scan_escaped l = (a, b) -> l = a ++ b.
Proof.
  revert a b. induction l as [l IH] using (induction_ltof1 _ (@length Z)). unfold ltof in IH. intros a b.
  destruct l as [|c l]; cbn [scan_escaped]; [by intros [= <- <-]|].
  destruct (c =? 0); [by intros [= <- <-]|]. destruct (c =? 34); [by intros [= <- <-]|].
  destruct l as [|d l]; [by intros [= <- <-]|]. destruct (_ && _).
  - destruct (scan_escaped l) as [x y] eqn:E. intros [= <- <-]. cbn. do 2 f_equal. apply IH; [cbn; lia|done].
  - destruct (scan_escaped (d :: l)) as [x y] eqn:E. intros [= <- <-]. cbn [app]. f_equal. apply IH; [cbn; lia|done].
Qed.

Lemma scan_string_app l a b : scan_string l = (a, b) -> l = a ++ b.
Proof.
  revert a b. induction l as [|c l IH]; intros a b; cbn [scan_string]; [by intros [= <- <-]|].
  destruct (c =? 0); [by intros [= <- <-]|]. destruct (c =? 39); [by intros [= <- <-]|].
  destruct (scan_string l) as [x y]. intros [= <- <-]. by rewrite (IH x y).
Qed.

Lemma scan_number_app f l g a b : scan_number f l = (g, a, b) -> l = a ++ b.
Proof.
  revert f g a b. induction l as [|c l IH]; intros f g a b; cbn [scan_number]; [by intros [= <- <- <-]|].
  destruct (isdigit c); [|destruct (_ && _); [|by intros [= <- <- <-]]].
  - destruct (scan_number f l) as [[h x] y] eqn:E. intros [= <- <- <-]. cbn. f_equal. by eapply IH.
  - destruct (scan_number true l) as [[h x] y] eqn:E. intros [= <- <- <-]. cbn. f_equal. by eapply IH.
Qed.

(** The token and the rest are the text without the white space, and only the
    last token is empty. *)
Lemma get_token_split t text :
  let p := get_token t text in
  p_tok p ++ p_rest p = eat_space false text /\ (p_t p <> TOK_EOF -> p_tok p <> []).
Proof.
  cbv zeta. unfold get_token. destruct (eat_space false text) as [|c l] eqn:E; [done|].
  destruct (eat_space_head _ _ _ _ E) as [Hs H35].
  destruct (Z.eqb_spec c 0) as [|H0]; [done|]. destruct (Z.eqb_spec c 123) as [|H1]; [done|].
  destruct (Z.eqb_spec c 125) as [|H2]; [done|]. do 3 (destruct (c =? _); [done|]).
  destruct (Z.eqb_spec c 61) as [|H3]; [done|].
  destruct (c =? 34); [destruct (scan_escaped l) as [a b] eqn:Es; apply scan_escaped_app in Es; by subst|].
  destruct (c =? 39); [destruct (scan_string l) as [a b] eqn:Es; apply scan_string_app in Es; by subst|].
  destruct (_ && _).
  { destruct (scan_number _ l) as [[f a] b] eqn:Es. apply scan_number_app in Es. by subst. }
  destruct (span ident_char (c :: l)) as [a b] eqn:Es. pose proof (span_app _ _ _ _ Es) as Ha. cbn [p_tok p_rest p_t].
  split; [done|]. intros _ ->. cbn [span] in Es.
  assert (ident_char c = true) as Hi.
  { unfold ident_char. rewrite Hs. rewrite !(proj2 (Z.eqb_neq _ _)) by done. done. }
  rewrite Hi in Es. by destruct (span ident_char l).
Qed.

(** ** Termination *)

(** The bytes from the current token on. *)
Definition todo (p : parser) : nat := length (p_tok p) + length (p_rest p).

Definition pwf (p : parser) : Prop := p_t p <> TOK_EOF -> p_tok p <> [].

Lemma get_token_wf t text : pwf (get_token t text) /\ (todo (get_token t text) <= length text)%nat.
Proof.
  destruct (get_token_split t text) as [H1 H2]. split; [done|]. unfold todo. rewrite <- length_app, H1. apply eat_space_length.
Qed.

(** A result that is not a lack of fuel and, when there is one, leaves a parser
    with at most [m] bytes. *)
Definition ends {A} (m : Z) (r : presult A) : Prop :=
  match r with
  | Parsed _ p => pwf p /\ Z.of_nat (todo p) <= m
  | OutOfFuel => False
  | _ => True
  end.

Lemma ends_bind {A B} m m' (r : presult A) (k : A -> parser -> presult B) :
  ends m r -> (forall a p, pwf p -> Z.of_nat (todo p) <= m -> ends m' (k a p)) -> ends m' (pbind r k).
Proof. destruct r; cbn; [|done..]. intros [H1 H2] Hk. by apply Hk. Qed.

Lemma ends_weaken {A} m m' (r : presult A) : ends m r -> m <= m' -> ends m' r.
Proof. destruct r; cbn; [|done..]. intros [H1 H2] Hm. split; [done|lia]. Qed.

Lemma pmatch_ends t p : pwf p -> t <> TOK_EOF -> ends (Z.of_nat (todo p) - 1) (pmatch t p).
Proof.
  intros Hw Ht. unfold pmatch. case_decide as E; [|done]. cbn. destruct (get_token_wf t (p_rest p)) as [H1 H2].
  split; [done|]. assert (p_tok p <> []) as Hn by (apply Hw; congruence). unfold todo in *.
  destruct (p_tok p); [done|cbn [length]; lia].
Qed.

Section parse_ends.
Context {F : Type} (strtod : list Z -> option F) (behind : list Z).

Lemma type_ends p : pwf p -> ends (Z.of_nat (todo p) - 1) (type_ strtod behind p).
Proof.
  intros Hw. unfold type_. destruct (p_t p); try done.
  - destruct (strtoll _); [|done]. eapply ends_bind; [by apply pmatch_ends|]. by intros.
  - destruct (strtod _); [|done]. eapply ends_bind; [by apply pmatch_ends|]. by intros.
  - destruct (strip_quotes _); [|done]. eapply ends_bind; [by apply pmatch_ends|]. by intros.
  - destruct (strip_quotes _); [|done]. eapply ends_bind; [by apply pmatch_ends|]. by intros.
Qed.

Lemma array_ends fuel p : pwf p -> (todo p < fuel)%nat -> ends (Z.of_nat (todo p)) (array strtod behind fuel p).
Proof.
  revert p. induction fuel as [|fuel IH]; intros p Hw Hf; [lia|]. cbn [array]. case_decide; [done|].
  eapply ends_bind; [by apply type_ends|]. intros v p1 Hw1 H1.
  eapply (ends_bind (Z.of_nat (todo p1))).
  { case_decide; [|done]. eapply ends_weaken; [by apply pmatch_ends|lia]. }
  intros _ p2 Hw2 H2. eapply ends_bind; [apply IH; [done|lia]|]. intros vs p3 Hw3 H3. cbn. split; [done|lia].
Qed.

Lemma value_ends fuel p : pwf p -> (todo p <= fuel)%nat -> ends (Z.of_nat (todo p) - 1) (value strtod behind fuel p).
Proof.
  intros Hw Hf. unfold value. case_decide as E.
  - eapply ends_bind; [by apply pmatch_ends|]. intros _ p1 Hw1 H1.
    eapply ends_bind; [apply array_ends; [done|lia]|]. intros vs p2 Hw2 H2.
    eapply ends_bind; [by apply pmatch_ends|]. intros _ p3 Hw3 H3. cbn. split; [done|lia].
  - eapply ends_bind; [by apply type_ends|]. intros v p1 Hw1 H1. done.
Qed.

Lemma sections_ends fuel :
  (forall p, pwf p -> (2 * todo p + 1 <= fuel)%nat -> ends (Z.of_nat (todo p) - 1) (section strtod behind fuel p)) /\
  (forall stop p, pwf p -> (2 * todo p + 2 <= fuel)%nat -> ends (Z.of_nat (todo p)) (sections strtod behind fuel stop p)).
Proof.
  induction fuel as [|fuel [IH1 IH2]]; [split; intros; lia|]. split.
  - intros p Hw Hf. cbn [section]. eapply ends_bind; [by apply pmatch_ends|]. intros _ p1 Hw1 H1. case_decide.
    + eapply ends_bind; [by apply pmatch_ends|]. intros _ p2 Hw2 H2.
      eapply ends_bind; [apply IH2; [done|lia]|]. intros child p3 Hw3 H3.
      eapply ends_bind; [by apply pmatch_ends|]. intros _ p4 Hw4 H4. cbn. split; [done|lia].
    + eapply ends_bind; [by apply pmatch_ends|]. intros _ p2 Hw2 H2.
      eapply ends_bind; [apply value_ends; [done|lia]|]. intros v p3 Hw3 H3. cbn. split; [done|lia].
  - intros stop p Hw Hf. cbn [sections]. case_decide; [done|].
    eapply ends_bind; [apply IH1; [done|lia]|]. intros n p1 Hw1 H1.
    eapply ends_bind; [apply IH2; [done|lia]|]. intros ns p2 Hw2 H2. cbn. split; [done|lia].
Qed.

End parse_ends.

(** ** Numbers *)

Lemma isdigit_value c : isdigit c = true -> digit_value c = Some (c - 48) /\ c - 48 < 10.
Proof. intros H. unfold digit_value. rewrite H. unfold isdigit in H. split; [done|lia]. Qed.

Lemma dec_digits_spec fuel n acc s :
  0 <= n < 10 ^ Z.of_nat fuel -> Forall (fun c => isdigit c = true) acc ->
  exists ds, dec_digits fuel n acc = ds /\ Forall (fun c => isdigit c = true) ds /\
    read_digits 10 (ds ++ s) 0 = read_digits 10 (acc ++ s) n /\
    (0 < n -> exists c ds', ds = c :: ds' /\ c <> 48).
Proof.
  revert n acc. induction fuel as [|fuel IH]; intros n acc Hn Hacc.
  - cbn in Hn. eexists. split; [done|]. split; [done|]. assert (n = 0) as -> by lia. split; [done|lia].
  - cbn [dec_digits]. rewrite Nat2Z.inj_succ, Z.pow_succ_r in Hn by lia.
    assert (isdigit (48 + n mod 10) = true) as Hd by (unfold isdigit; lia).
    destruct (Z.ltb_spec n 10).
    + eexists. split; [done|]. split; [by constructor|]. rewrite Z.mod_small in * by lia. split.
      * cbn [app read_digits]. destruct (isdigit_value _ Hd) as [-> _]. rewrite (proj2 (Z.ltb_lt _ _)) by lia. f_equal. lia.
      * intros Hpos. eexists _, _. split; [done|]. lia.
    + destruct (IH (n / 10) (48 + n mod 10 :: acc)) as (ds & -> & H1 & H2 & H3); [lia|by constructor|].
      eexists. split; [done|]. split; [done|]. split; [|intros _; apply H3; lia].
      rewrite H2. cbn [app read_digits]. destruct (isdigit_value _ Hd) as [-> _]. rewrite (proj2 (Z.ltb_lt _ _)) by lia.
      f_equal. lia.
Qed.

(** A byte that may follow a value. *)
Definition delimiter (d : Z) : Prop := d = 10 \/ d = 44 \/ d = 93 \/ d = 9 \/ d = 32.

Lemma read_digits_stop base acc d s : delimiter d -> read_digits base (d :: s) acc = Some acc.
Proof. by intros [->|[->|[->|[->| ->]]]]. Qed.

Lemma prefixed_decimal c s : isdigit c = true -> c <> 48 -> prefixed_number (c :: s) = read_digits 10 (c :: s) 0.
Proof.
  intros Hc Hne. unfold prefixed_number, isdigit in *. destruct c as [|c|c]; [done| |done].
  by repeat (destruct c as [c|c|]; try done).
Qed.

Lemma strtoll_unsigned c s : isdigit c = true -> strtoll (c :: s) = Z.min LLONG_MAX <$> prefixed_number (c :: s).
Proof.
  intros Hc. unfold strtoll, isdigit in *. destruct c as [|c|c]; [done| |done].
  by repeat (destruct c as [c|c|]; try done).
Qed.

(** A printed integer is read back, whatever follows the delimiter behind it. *)
Lemma strtoll_print i d s :
  LLONG_MIN <= i <= LLONG_MAX -> delimiter d -> strtoll (print_int i ++ d :: s) = Some i.
Proof.
  intros Hi Hd. unfold LLONG_MIN, LLONG_MAX in Hi. unfold print_int.
  assert (forall n, 0 < n <= 2 ^ 63 -> exists c ds, dec_digits 20 n [] = c :: ds /\ isdigit c = true /\
    prefixed_number (c :: ds ++ d :: s) = Some n) as Hdig.
  { intros n Hn. destruct (dec_digits_spec 20 n [] (d :: s)) as (ds & E & H1 & H2 & H3); [cbn; lia|done|].
    destruct H3 as (c & ds' & -> & Hc); [lia|]. exists c, ds'. split; [done|]. apply Forall_cons in H1 as [H1 _].
    split; [done|]. rewrite prefixed_decimal by done. etransitivity; [apply H2|]. cbn [app]. by rewrite read_digits_stop. }
  destruct (Z.ltb_spec i 0).
  - destruct (Hdig (- i)) as (c & ds & -> & Hc & Hr); [lia|]. unfold strtoll. cbn [app]. rewrite Hr. cbn.
    f_equal. unfold LLONG_MIN. lia.
  - destruct (Z.eq_dec i 0) as [->|Hz].
    + change (dec_digits 20 0 []) with [48]. destruct Hd as [->|[->|[->|[->| ->]]]]; by destruct s as [|x s].
    + destruct (Hdig i) as (c & ds & -> & Hc & Hr); [lia|]. cbn [app]. rewrite strtoll_unsigned, Hr by done. cbn.
      f_equal. unfold LLONG_MAX. lia.
Qed.

(** ** Tokens of what the writer prints *)

Lemma get_token_skip t c s : isspace c = true -> get_token t (c :: s) = get_token t s.
Proof.
  intros Hc. unfold get_token. cbn [eat_space andb]. rewrite Hc.
  destruct (Z.eqb_spec c 35) as [->|]; [done|]. done.
Qed.

Lemma get_token_tabs t k s : get_token t (replicate k 9 ++ s) = get_token t s.
Proof. induction k as [|k IH]; [done|]. cbn [replicate app]. by rewrite get_token_skip. Qed.

(** The previous token matters only for whether a number may follow. *)
Lemma get_token_prev t t' s : values_allowed t = values_allowed t' -> get_token t s = get_token t' s.
Proof. intros H. unfold get_token. by rewrite H. Qed.

(** A name of a node that stays one token, and one that fits a line. *)
Definition name_ok (key : list Z) : Prop :=
  Forall (fun c => ident_char c = true) key /\
  exists c key', key = c :: key' /\ c <> 34 /\ c <> 39 /\ c <> 44 /\ c <> 91 /\ c <> 93.

Definition key_ok (key : list Z) : Prop := name_ok key /\ (length key <= 4062)%nat.

Lemma span_stop f l d s : Forall (fun c => f c = true) l -> f d = false -> span f (l ++ d :: s) = (l, d :: s).
Proof.
  intros Hl Hd. induction Hl as [|c l Hc _ IH]; cbn [app span]; [by rewrite Hd|]. by rewrite Hc, IH.
Qed.

Lemma get_token_key t key d s :
  name_ok key -> values_allowed t = false -> d = 32 \/ d = 61 ->
  get_token t (key ++ d :: s) = Parser TOK_IDENTIFIER key (d :: s).
Proof.
  intros (Hf & c & key' & -> & ? & ? & ? & ? & ?) Ht Hd.
  assert (ident_char c = true) as Hc by by apply Forall_cons in Hf as [? _].
  pose proof (span_stop ident_char (c :: key') d s Hf) as Hs. cbn [app] in Hs |- *.
  unfold ident_char in Hc. apply negb_true_iff in Hc. repeat (apply orb_false_iff in Hc as [Hc ?]).
  assert (eat_space false (c :: key' ++ d :: s) = c :: key' ++ d :: s) as E.
  { cbn [eat_space andb]. by repeat match goal with H : _ = false |- _ => rewrite H; clear H end. }
  unfold get_token. rewrite E, Ht, andb_false_r.
  repeat match goal with H : _ = false |- _ => rewrite H; clear H end.
  rewrite !(proj2 (Z.eqb_neq c _)) by done. rewrite Hs; [done|]. by destruct Hd as [->| ->].
Qed.

Lemma scan_number_digits ds d s : Forall (fun c => isdigit c = true) ds -> delimiter d ->
  scan_number false (ds ++ d :: s) = (false, ds, d :: s).
Proof.
  intros Hds Hd. induction Hds as [|c ds Hc _ IH]; cbn [app scan_number]; [by destruct Hd as [->|[->|[->|[->| ->]]]]|].
  by rewrite Hc, IH.
Qed.

Lemma get_token_number t c r d s f :
  values_allowed t = true -> number_start c = true -> scan_number (c =? 46) (r ++ d :: s) = (f, r, d :: s) ->
  get_token t (c :: r ++ d :: s) = Parser (if f then TOK_FLOAT else TOK_INT) (c :: r) (d :: s).
Proof.
  intros Ht Hc Hs. unfold get_token.
  assert (eat_space false (c :: r ++ d :: s) = c :: r ++ d :: s) as ->.
  { unfold number_start, isdigit in Hc. cbn [eat_space andb]. unfold isspace. rewrite (proj2 (Z.eqb_neq c 35)) by lia.
    assert ((9 <=? c) && (c <=? 13) || (c =? 32) = false) as -> by lia. done. }
  rewrite Ht, Hc, Hs. unfold number_start, isdigit in Hc. cbn [andb]. by rewrite !(proj2 (Z.eqb_neq c _)) by lia.
Qed.

Lemma print_int_shape i : LLONG_MIN <= i <= LLONG_MAX ->
  exists c ds, print_int i = c :: ds /\ number_start c = true /\ (c =? 46) = false /\
    Forall (fun c => isdigit c = true) ds /\ (length ds <= 20)%nat.
Proof.
  intros Hi. unfold LLONG_MIN, LLONG_MAX in Hi. unfold print_int.
  assert (forall fuel n acc, (length (dec_digits fuel n acc) <= fuel + length acc)%nat) as Hlen.
  { induction fuel as [|fuel IH]; intros n acc; cbn [dec_digits]; [lia|]. destruct (n <? 10); [cbn; lia|].
    specialize (IH (n / 10) (48 + n mod 10 :: acc)). cbn [length] in IH. lia. }
  destruct (Z.ltb_spec i 0).
  - destruct (dec_digits_spec 20 (- i) [] []) as (ds & E & H1 & _); [cbn; lia|done|]. exists 45, ds.
    rewrite E. split_and!; try done. rewrite <- E. apply Hlen.
  - destruct (dec_digits_spec 20 i [] []) as (ds & E & H1 & _ & H3); [cbn; lia|done|]. rewrite E.
    assert (exists c ds', ds = c :: ds') as (c & ds' & ->).
    { destruct (Z.eq_dec i 0) as [->|]; [rewrite <- E; by eexists _, _|]. destruct H3 as (c & ds' & -> & _); [lia|]. by eexists _, _. }
    apply Forall_cons in H1 as [H1 H1']. exists c, ds'. unfold number_start. rewrite H1. unfold isdigit in H1.
    split; [done|]. split; [done|]. split; [lia|]. split; [done|].
    pose proof (Hlen 20%nat i []) as Hl. rewrite E in Hl. cbn [length] in Hl. lia.
Qed.

(** The scan of an escaped string ends at its closing quote. *)
Lemma scan_escaped_text s rest : Forall (fun c => c <> 0) s ->
  scan_escaped (dm_escape_double_quotes s ++ 34 :: rest) = (dm_escape_double_quotes s ++ [34], rest).
Proof.
  intros Hs. induction Hs as [|c s Hc Hs IH]; [done|]. rewrite escape_cons. unfold DQUOTE, BACKSLASH.
  destruct ((c =? 34) || (c =? 92)) eqn:E.
  - rewrite <- !app_assoc. cbn [app scan_escaped]. rewrite (proj2 (Z.eqb_neq c 0) Hc). cbn. by rewrite IH.
  - rewrite <- !app_assoc. cbn [app scan_escaped]. rewrite (proj2 (Z.eqb_neq c 0) Hc).
    apply orb_false_iff in E as [-> E].
    assert (exists x y, dm_escape_double_quotes s ++ 34 :: rest = x :: y) as (x & y & Exy).
    { destruct (dm_escape_double_quotes s); by eexists _, _. }
    rewrite Exy, E. cbn [andb]. by rewrite <- Exy, IH.
Qed.

Lemma strip_quotes_text q s : strip_quotes (q :: s ++ [q]) = Some s.
Proof.
  unfold strip_quotes. cbn [length drop]. rewrite length_app. cbn [length].
  destruct (Nat.ltb_spec (S (length s + 1)) 2); [lia|]. do 2 f_equal.
  replace (S (length s + 1) - 2)%nat with (length s) by lia. apply take_app_length.
Qed.

(** ** What is written is read back *)

Section roundtrip.
Context {F : Type} (strtod : list Z -> option F) (print_float : F -> list Z) (behind : list Z).

(** A number that "%f" prints without loss as digits with one point. *)
Definition float_ok (f : F) : Prop :=
  exists c r, print_float f = c :: r /\ number_start c = true /\ (length r <= 4093)%nat /\
    forall d s, delimiter d ->
      scan_number (c =? 46) (r ++ d :: s) = (true, r, d :: s) /\ strtod ((c :: r) ++ d :: s) = Some f.

(** A value whose text is read back, and one that fits a line. *)
Definition readable (v : cvalue F) : Prop :=
  match v with
  | CfgInt i => LLONG_MIN <= i <= LLONG_MAX
  | CfgFloat f => float_ok f
  | CfgString s => Forall (fun c => c <> 0) s
  | CfgEmptyArray => False
  end.

Definition value_ok (v : cvalue F) : Prop :=
  readable v /\ if v is CfgString s then (length (dm_escape_double_quotes s) <= 4092)%nat else True.

(** A tree with keys and values that fit a line, the values as the parser makes
    them: an empty array alone, and either values or a section. *)
Inductive node_ok : cnode F -> Prop :=
| section_ok key child : key_ok key -> Forall node_ok child -> node_ok (Node key [] child)
| empty_array_ok key : key_ok key -> node_ok (Node key [CfgEmptyArray] [])
| values_ok key v : key_ok key -> v <> [] -> Forall value_ok v -> node_ok (Node key v []).

Definition value_text (v : cvalue F) : list Z :=
  match v with
  | CfgString s => 34 :: dm_escape_double_quotes s ++ [34]
  | CfgFloat f => print_float f
  | CfgInt i => print_int i
  | CfgEmptyArray => [91; 93]
  end.

Fixpoint values_text (vs : list (cvalue F)) : list Z :=
  match vs with
  | [] => []
  | [v] => value_text v
  | v :: vs => value_text v ++ [44; 32] ++ values_text vs
  end.

Definition rhs_text (v : list (cvalue F)) : list Z :=
  match v with [v] => value_text v | vs => [91] ++ values_text vs ++ [93] end.

Definition indent (level : nat) : list Z := replicate (Nat.min level MAX_INDENT) 9.

Fixpoint node_lines (level : nat) (n : cnode F) : list (list Z) :=
  let '(Node key v child) := n in
  match v with
  | [] => (indent level ++ key ++ [32; 123]) :: concat (map (node_lines (S level)) child) ++ [indent level ++ [125]]
  | v => [indent level ++ key ++ [61] ++ rhs_text v]
  end.

(** Each line and a newline, as a file holds them. *)
Definition text_of (lines : list (list Z)) : list Z := concat (map (fun l => l ++ [10]) lines).

Lemma text_of_app a b : text_of (a ++ b) = text_of a ++ text_of b.
Proof. unfold text_of. by rewrite map_app, concat_app. Qed.

(** *** Writing *)

Lemma line_append_fits s ls cur : (length s <= 4094)%nat -> line_append s (Output ls cur) = (true, Output ls (cur ++ s)).
Proof. intros H. unfold line_append. destruct (Z.ltb_spec 4095 (Z.of_nat (length s))); [lia|]. cbn. by rewrite take_ge. Qed.

Lemma write_value_text v ls cur :
  value_ok v -> write_value print_float v (Output ls cur) = (true, Output ls (cur ++ value_text v)).
Proof.
  destruct v as [i|f|s|]; cbn [value_ok write_value value_text]; intros [Hv Hl]; [| | |done]; cbn in Hv.
  -  destruct (print_int_shape i Hv) as (c & ds & -> & _ & _ & _ & Hl'). apply line_append_fits. cbn. lia.
  - destruct Hv as (c & r & -> & _ & Hl' & _). apply line_append_fits. cbn. lia.
  - apply line_append_fits. cbn. rewrite length_app. cbn. lia.
Qed.

Lemma value_ok_plain v : value_ok v -> is_empty_array v = false.
Proof. destruct v; [done..|]. by intros [[] _]. Qed.

Lemma write_values_text vs ls cur :
  Forall value_ok vs -> write_values print_float vs (Output ls cur) = (true, Output ls (cur ++ values_text vs)).
Proof.
  intros Hvs. revert cur. induction Hvs as [|v vs Hv Hvs IH]; intros cur; cbn [write_values values_text].
  { by rewrite app_nil_r. }
  rewrite (value_ok_plain _ Hv), write_value_text by done. cbn [andthen]. destruct Hvs as [|w vs Hw Hvs].
  { done. }
  rewrite (value_ok_plain _ Hw), line_append_fits by (cbn; lia). cbn [andthen]. rewrite IH. by rewrite <- !app_assoc.
Qed.

Lemma indent_length level : (length (indent level) <= 32)%nat.
Proof. unfold indent. rewrite length_replicate. unfold MAX_INDENT. lia. Qed.

Definition writes (level : nat) (n : cnode F) : Prop :=
  forall o, write_node print_float level n o = (true, Output (o_lines o ++ node_lines level n) []).

Lemma write_children level child ls :
  Forall (writes level) child ->
  ((fix go (l : list (cnode F)) (o : output) : bool * output :=
      match l with
      | [] => (true, o)
      | n :: l => andthen (write_node print_float level n o) (fun o => go l o)
      end) child (Output ls [])).2 = Output (ls ++ concat (map (node_lines level) child)) [].
Proof.
  intros Hc. revert ls. induction Hc as [|n child Hn _ IH]; intros ls; cbn [map concat]; [by rewrite app_nil_r|].
  rewrite (Hn (Output ls [])). cbn [andthen o_lines]. by rewrite IH, <- app_assoc.
Qed.

Lemma write_node_lines n : node_ok n -> forall level, writes level n.
Proof.
  induction n as [key v child IH] using cnode_rect_list. intros Hn level o.
  assert (key_ok key) as Hk by by inversion Hn.
  pose proof (indent_length level) as Hi. pose proof (proj2 Hk) as Hkl.
  cbn [write_node node_lines]. change (replicate (Nat.min level MAX_INDENT) 9) with (indent level).
  unfold line_start at 1. rewrite line_append_fits by (rewrite length_app; lia). cbn [andthen app].
  inversion Hn as [? ? _ Hch|? _|? ? _ Hv Hvs]; subst.
  - rewrite line_append_fits by (cbn; lia). cbn [andthen]. unfold line_end. cbn [o_lines o_cur].
    rewrite write_children.
    2:{ rewrite Forall_forall in IH, Hch |- *. intros m Hm. apply IH; [done|]. by apply Hch. }
    unfold line_start. cbn [o_lines]. rewrite line_append_fits by (rewrite length_app; cbn; lia). cbn [andthen app].
    unfold line_end. cbn [o_lines o_cur]. by rewrite <- !app_assoc.
  - rewrite line_append_fits by (cbn; lia). cbn [andthen write_value]. rewrite line_append_fits by (cbn; lia).
    cbn [andthen]. unfold line_end. cbn [o_lines o_cur]. by rewrite <- !app_assoc.
  - destruct v as [|w [|w' v]]; [done| |].
    + rewrite line_append_fits by (cbn; lia). cbn [andthen]. apply Forall_cons in Hvs as [Hw _].
      rewrite write_value_text by done. cbn [andthen]. unfold line_end. cbn [o_lines o_cur]. by rewrite <- !app_assoc.
    + rewrite line_append_fits by (cbn; lia). cbn [andthen]. rewrite line_append_fits by (cbn; lia). cbn [andthen].
      rewrite write_values_text by done. cbn [andthen]. rewrite line_append_fits by (cbn; lia). cbn [andthen].
      unfold line_end. cbn [o_lines o_cur rhs_text]. by rewrite <- !app_assoc.
Qed.

Lemma write_config_lines level l o :
  Forall node_ok l -> o_cur o = [] ->
  write_config print_float level l o = (true, Output (o_lines o ++ concat (map (node_lines level) l)) []).
Proof.
  intros Hl. revert o. induction Hl as [|n l Hn _ IH]; intros [ls cur] Ho; cbn in Ho; subst; cbn [write_config map concat].
  { cbn. by rewrite app_nil_r. }
  rewrite write_node_lines by done. cbn [andthen]. rewrite IH by done. cbn [o_lines]. by rewrite <- app_assoc.
Qed.

(** *** Reading *)

Lemma get_token_string t s rest :
  Forall (fun c => c <> 0) s ->
  get_token t (34 :: dm_escape_double_quotes s ++ 34 :: rest)
  = Parser TOK_STRING_ESCAPED (34 :: dm_escape_double_quotes s ++ [34]) rest.
Proof. intros Hs. unfold get_token. cbn -[dm_escape_double_quotes]. by rewrite scan_escaped_text. Qed.

(** Behind a value, a name may follow and a number may not. *)
Abbreviation next s := (get_token TOK_SECTION_E s).

Lemma type_text t v d s :
  readable v -> values_allowed t = true -> delimiter d ->
  type_ strtod behind (get_token t (value_text v ++ d :: s)) = Parsed v (next (d :: s)) /\
  p_t (get_token t (value_text v ++ d :: s)) <> TOK_ARRAY_B /\
  p_t (get_token t (value_text v ++ d :: s)) <> TOK_ARRAY_E.
Proof.
  intros Hv Ht Hd. destruct v as [i|f|str|]; cbn [readable value_text] in *; [| | |done].
  - destruct (print_int_shape i Hv) as (c & ds & E & Hc & H46 & Hds & _).
    pose proof (strtoll_print i d (s ++ behind) Hv Hd) as Hi. rewrite E in *. cbn [app].
    rewrite (get_token_number t c ds d s false) by (try rewrite H46; auto using scan_number_digits).
    split; [|done]. unfold type_. cbn [p_t p_tok p_rest app]. cbn [app] in Hi. rewrite Hi. done.
  - destruct Hv as (c & r & E & Hc & _ & Hr). rewrite E in *. destruct (Hr d s Hd) as [Hs _].
    destruct (Hr d (s ++ behind) Hd) as [_ Hf]. cbn [app].
    rewrite (get_token_number t c r d s true) by done. split; [|done].
    unfold type_. cbn [p_t p_tok p_rest app]. cbn [app] in Hf. rewrite Hf. done.
  - cbn [app]. rewrite <- app_assoc. cbn [app]. rewrite get_token_string by done. split; [|done].
    unfold type_. cbn [p_t p_tok p_rest]. rewrite strip_quotes_text, unescape_escape. done.
Qed.

Lemma array_text vs t s fuel :
  Forall value_ok vs -> vs <> [] -> values_allowed t = true -> (length vs < fuel)%nat ->
  array strtod behind fuel (get_token t (values_text vs ++ 93 :: s)) = Parsed vs (next (93 :: s)).
Proof.
  intros Hvs. revert t fuel. induction Hvs as [|v vs Hv Hvs IH]; intros t fuel Hne Ht Hf; [done|]. clear Hne.
  destruct fuel as [|fuel]; [lia|]. cbn [length] in Hf. destruct Hvs as [|w vs Hw Hvs].
  - cbn [values_text]. destruct (type_text t v 93 s (proj1 Hv) Ht) as (H1 & _ & H2); [by right; right; left|]. cbn [array].
    rewrite decide_False by done. rewrite H1. cbn [pbind]. rewrite decide_False by done. cbn [pbind].
    destruct fuel as [|fuel]; [cbn in Hf; lia|]. done.
  - change (values_text (v :: w :: vs)) with (value_text v ++ [44; 32] ++ values_text (w :: vs)). rewrite <- !app_assoc.
    cbn [app]. set (tail := 32 :: values_text (w :: vs) ++ 93 :: s).
    destruct (type_text t v 44 tail (proj1 Hv) Ht) as (H1 & _ & H2); [by right; left|]. cbn [array].
    rewrite decide_False by done. rewrite H1. cbn [pbind].
    change (next (44 :: tail)) with (Parser TOK_COMMA [44] tail). cbn [p_t]. rewrite decide_True by done.
    unfold pmatch. cbn [p_t p_rest]. rewrite decide_True by done. cbn [pbind]. unfold tail.
    rewrite get_token_skip by done. rewrite IH; [done|done|done|lia].
Qed.

Lemma value_text_rhs v s fuel :
  v = [CfgEmptyArray] \/ (v <> [] /\ Forall value_ok v) -> (length v < fuel)%nat ->
  value strtod behind fuel (get_token TOK_EQ (rhs_text v ++ 10 :: s)) = Parsed v (next s).
Proof.
  intros [->|[Hne Hv]] Hf.
  { destruct fuel as [|fuel]; [lia|]. cbn [rhs_text value_text app]. unfold value.
    change (get_token TOK_EQ (91 :: 93 :: 10 :: s)) with (Parser TOK_ARRAY_B [91] (93 :: 10 :: s)).
    done. }
  destruct v as [|w [|w' v]]; [done| |].
  - cbn [rhs_text]. apply Forall_cons in Hv as [Hw _].
    destruct (type_text TOK_EQ w 10 s (proj1 Hw) eq_refl) as (H1 & H2 & _); [by left|].
    unfold value. rewrite decide_False by done. rewrite H1. cbn [pbind]. by rewrite get_token_skip.
  - change (rhs_text (w :: w' :: v)) with ([91] ++ values_text (w :: w' :: v) ++ [93]). rewrite <- !app_assoc.
    cbn [app]. set (tail := values_text (w :: w' :: v) ++ 93 :: 10 :: s).
    unfold value. change (get_token TOK_EQ (91 :: tail)) with (Parser TOK_ARRAY_B [91] tail). cbn [p_t].
    rewrite decide_True by done. unfold pmatch at 1. cbn [p_t p_rest]. rewrite decide_True by done. cbn [pbind].
    unfold tail. rewrite array_text by done. cbn [pbind].
    change (next (93 :: 10 :: s)) with (Parser TOK_ARRAY_E [93] (10 :: s)).
    unfold pmatch. cbn [p_t p_rest]. rewrite decide_True by done. cbn [pbind]. by rewrite get_token_skip.
Qed.

(** The fuel that a tree needs. *)
Fixpoint node_size (n : cnode F) : nat :=
  let '(Node key v child) := n in 2 + length v + list_sum (map node_size child).

Lemma node_size_pos n : (1 < node_size n)%nat.
Proof. destruct n. cbn. lia. Qed.

Definition nodes_text (level : nat) (l : list (cnode F)) : list Z := text_of (concat (map (node_lines level) l)).

Lemma nodes_text_cons level n l : nodes_text level (n :: l) = text_of (node_lines level n) ++ nodes_text level l.
Proof. unfold nodes_text. cbn [map concat]. by rewrite text_of_app. Qed.

Lemma section_text level key child :
  text_of (node_lines level (Node key [] child))
  = indent level ++ key ++ 32 :: 123 :: 10 :: nodes_text (S level) child ++ indent level ++ [125; 10].
Proof.
  cbn [node_lines]. change (?a :: ?b ++ ?c) with ([a] ++ b ++ c). rewrite !text_of_app. unfold nodes_text, text_of at 1 3.
  cbn [map concat]. rewrite <- !app_assoc. by rewrite !app_nil_r.
Qed.

Lemma leaf_text level key v child : v <> [] ->
  text_of (node_lines level (Node key v child)) = indent level ++ key ++ 61 :: rhs_text v ++ [10].
Proof.
  intros Hv. cbn [node_lines]. destruct v as [|w v]; [done|]. unfold text_of. cbn [map concat]. rewrite app_nil_r.
  by rewrite <- !app_assoc.
Qed.

Definition reads (n : cnode F) : Prop :=
  forall level s fuel, (node_size n <= fuel)%nat ->
    section strtod behind fuel (next (text_of (node_lines level n) ++ s)) = Parsed n (next s).

Lemma next_key level key d s :
  key_ok key -> d = 32 \/ d = 61 -> next (indent level ++ key ++ d :: s) = Parser TOK_IDENTIFIER key (d :: s).
Proof. intros Hk Hd. unfold indent. rewrite get_token_tabs. by apply get_token_key; [apply Hk|..]. Qed.

Lemma sections_text child level stop s fuel :
  Forall reads child -> p_t (next s) = stop -> stop <> TOK_IDENTIFIER -> Forall node_ok child ->
  (list_sum (map node_size child) < fuel)%nat ->
  sections strtod behind fuel stop (next (nodes_text level child ++ s)) = Parsed child (next s).
Proof.
  intros Hr Hs Hstop. revert fuel. induction Hr as [|n child Hn _ IH]; intros fuel Hok Hf;
    (destruct fuel as [|fuel]; [lia|]); cbn [sections].
  { change (nodes_text level [] ++ s) with s. by rewrite decide_True. }
  change (list_sum (map node_size (n :: child))) with (node_size n + list_sum (map node_size child))%nat in Hf.
  pose proof (node_size_pos n). apply Forall_cons in Hok as [Hok Hoks].
  rewrite decide_False.
  2:{ intros E. apply Hstop. rewrite <- E, nodes_text_cons, <- app_assoc. inversion Hok as [? ? Hk|? Hk|? ? Hk Hv]; subst.
      - rewrite section_text, <- !app_assoc. cbn [app]. by rewrite next_key by auto.
      - rewrite leaf_text, <- !app_assoc by done. cbn [app]. by rewrite next_key by auto.
      - rewrite leaf_text, <- !app_assoc by done. cbn [app]. by rewrite next_key by auto. }
  rewrite nodes_text_cons, <- app_assoc, Hn by lia. cbn [pbind]. by rewrite IH by (done || lia).
Qed.

Lemma node_reads n : node_ok n -> reads n.
Proof.
  induction n as [key v child IH] using cnode_rect_list. intros Hn level s fuel Hf.
  destruct fuel as [|fuel]; [cbn in Hf; lia|]. cbn [node_size] in Hf. cbn [section].
  assert (key_ok key) as Hk by by inversion Hn.
  assert (v <> [] -> v = [CfgEmptyArray] \/ v <> [] /\ Forall value_ok v) as Hval.
  { intros ?. inversion Hn; subst; auto; done. }
  destruct v as [|w v].
  - assert (Forall node_ok child) as Hch by by inversion Hn.
    rewrite section_text, <- !app_assoc. cbn [app]. rewrite <- !app_assoc. cbn [app].
    rewrite next_key by auto. unfold pmatch at 1. cbn [p_t p_tok p_rest]. rewrite decide_True by done. cbn [pbind].
    rewrite get_token_skip by done. set (body := nodes_text (S level) child ++ _).
    change (get_token TOK_IDENTIFIER (123 :: 10 :: body)) with (Parser TOK_SECTION_B [123] (10 :: body)).
    cbn [p_t]. rewrite decide_True by done. unfold pmatch at 1. cbn [p_t p_rest]. rewrite decide_True by done.
    cbn [pbind]. rewrite get_token_skip by done. rewrite (get_token_prev TOK_SECTION_B TOK_SECTION_E) by done.
    assert (next (indent level ++ 125 :: 10 :: s) = Parser TOK_SECTION_E [125] (10 :: s)) as Hend.
    { unfold indent. by rewrite get_token_tabs. }
    unfold body. rewrite sections_text; [|by rewrite Forall_forall in IH, Hch |- *; auto|by rewrite Hend|done|done|cbn in Hf; lia].
    cbn [pbind]. rewrite Hend. unfold pmatch. cbn [p_t p_rest]. rewrite decide_True by done. cbn [pbind].
    by rewrite get_token_skip.
  - assert (child = []) as -> by by inversion Hn.
    rewrite leaf_text, <- !app_assoc by done. cbn [app]. rewrite <- !app_assoc. cbn [app].
    rewrite next_key by auto. unfold pmatch at 1. cbn [p_t p_tok p_rest]. rewrite decide_True by done. cbn [pbind].
    set (tail := rhs_text (w :: v) ++ 10 :: s).
    change (get_token TOK_IDENTIFIER (61 :: tail)) with (Parser TOK_EQ [61] tail). cbn [p_t].
    rewrite decide_False by done. unfold pmatch at 1. cbn [p_t p_rest]. rewrite decide_True by done. cbn [pbind].
    unfold tail. rewrite value_text_rhs; [done|by apply Hval|]. lia.
Qed.

(** The text is at least as long as the tree is large. *)
Lemma value_text_length v : value_ok v -> (1 <= length (value_text v))%nat.
Proof.
  destruct v as [i|f|s|]; cbn [value_ok value_text]; intros [H _]; [| |cbn; lia|done]; cbn in H.
  - destruct (print_int_shape i H) as (c & ds & -> & _). cbn. lia.
  - destruct H as (c & r & -> & _). cbn. lia.
Qed.

Lemma values_text_length vs : Forall value_ok vs -> (length vs <= length (values_text vs))%nat.
Proof.
  induction 1 as [|v vs Hv Hvs IH]; [done|]. pose proof (value_text_length _ Hv).
  destruct vs as [|w vs]; [cbn [values_text length]; lia|].
  change (values_text (v :: w :: vs)) with (value_text v ++ [44; 32] ++ values_text (w :: vs)). rewrite !length_app. cbn [length] in *. lia.
Qed.

Lemma node_size_length n : node_ok n -> forall level, (node_size n <= length (text_of (node_lines level n)))%nat.
Proof.
  induction n as [key v child IH] using cnode_rect_list. intros Hn level. cbn [node_size].
  inversion Hn as [? ? Hk Hch|? Hk|? ? Hk Hv Hvs]; subst.
  - rewrite section_text, !length_app. cbn [length]. rewrite !length_app. cbn [length].
    assert (list_sum (map node_size child) <= length (nodes_text (S level) child))%nat; [|lia].
    clear Hn Hk. induction IH as [|m child Hm _ IHc]; [cbn; lia|]. apply Forall_cons in Hch as [Hok Hch].
    rewrite nodes_text_cons, length_app. cbn [map list_sum foldr]. specialize (Hm Hok (S level)). specialize (IHc Hch).
    unfold list_sum in IHc. lia.
  - rewrite leaf_text by done. rewrite !length_app. cbn. lia.
  - rewrite leaf_text by done. rewrite !length_app. cbn [length]. rewrite length_app. cbn [length map list_sum foldr].
    assert (length v <= length (rhs_text v))%nat; [|lia].
    destruct v as [|w [|w' v]]; [done| |].
    + apply Forall_cons in Hvs as [Hw _]. by apply value_text_length.
    + cbn [rhs_text]. pose proof (values_text_length _ Hvs). rewrite !length_app. lia.
Qed.

Lemma nodes_size_length l level :
  Forall node_ok l -> (list_sum (map node_size l) <= length (nodes_text level l))%nat.
Proof.
  induction 1 as [|n l Hn _ IH]; [cbn; lia|]. rewrite nodes_text_cons, length_app. cbn [map list_sum foldr].
  pose proof (node_size_length n Hn level). unfold list_sum in IH. lia.
Qed.

(** C16: Writing a configuration tree and parsing what was written gives the tree
    back: for every tree whose keys stay one token and fit a line, whose integers
    fit 64 bits, whose strings are free of NUL bytes and whose floating-point
    values "%f" prints without loss, [dm_config_write_node] succeeds and
    [dm_config_parse] of its lines returns exactly the same nodes, values and
    order, with the whole text consumed. *)
Theorem config_roundtrip l :
  l <> [] -> Forall node_ok l ->
  exists lines, dm_config_write_node print_float l = (true, lines) /\
    dm_config_parse strtod behind (text_of lines) = Parsed l (Parser TOK_EOF [] []).
Proof.
  intros Hne Hl. exists (concat (map (node_lines 0) l)). unfold dm_config_write_node. rewrite write_config_lines by done.
  split; [done|]. unfold dm_config_parse, file. change (text_of (concat (map (node_lines 0) l))) with (nodes_text 0 l).
  rewrite <- (app_nil_r (nodes_text 0 l)) at 2. rewrite sections_text; [by destruct l| |done|done|done|].
  - eapply Forall_impl; [done|]. apply node_reads.
  - pose proof (nodes_size_length l 0 Hl). lia.
Qed.

End roundtrip.

(** ** A concrete instance: numbers in millionths *)

Definition print_millionths (f : Z) : list Z :=
  let q := print_int (f mod 10 ^ 6) in
  print_int (f / 10 ^ 6) ++ [46] ++ replicate (6 - length q) 48 ++ q.

Definition strtod_millionths (l : list Z) : option Z :=
  let '(a, b) := span isdigit l in
  match b with
  | 46 :: b =>
      n ← read_digits 10 (a ++ [0]) 0; m ← read_digits 10 ((span isdigit b).1 ++ [0]) 0; Some (n * 10 ^ 6 + m)
  | _ => None
  end.

Definition example_tree : list (cnode Z) :=
  [Node (bytes "devices") []
     [Node (bytes "dir") [CfgString [47; 34; 92]] []; Node (bytes "types") [CfgEmptyArray] [];
      Node (bytes "sizes") [CfgInt 64; CfgInt (-1); CfgString []] []; Node (bytes "empty") [] []];
   Node (bytes "ratio") [CfgFloat 1500000] []].

Definition key_ok_b (key : list Z) : bool :=
  forallb ident_char key && (Z.of_nat (length key) <=? 4062) &&
    match key with c :: _ => negb (existsb (Z.eqb c) [34; 39; 44; 91; 93]) | [] => false end.

Lemma key_ok_dec key : key_ok_b key = true -> key_ok key.
Proof.
  intros [[H1 H2]%andb_true_iff H3]%andb_true_iff. split; [|lia]. split.
  { apply Forall_forall. intros c Hc. rewrite forallb_forall in H1. apply H1. by apply list_elem_of_In. }
  destruct key as [|c key]; [done|]. exists c, key. split; [done|]. cbn in H3. lia.
Qed.

Lemma example_tree_ok : Forall (node_ok strtod_millionths print_millionths) example_tree.
Proof.
  assert (forall key, key_ok_b key = true -> key_ok key) as Hkey by apply key_ok_dec.
  apply Forall_cons_2; [apply section_ok; [by apply Hkey|]|].
  - repeat apply Forall_cons_2; [apply values_ok|apply empty_array_ok|apply values_ok|apply section_ok|];
      first [by apply Hkey|by apply Forall_nil_2|done|idtac].
    + apply Forall_singleton. split; [by repeat (apply Forall_cons_2; [done|])|cbn; lia].
    + repeat apply Forall_cons_2; [by unfold value_ok, readable, LLONG_MIN, LLONG_MAX; lia..| |by apply Forall_nil_2].
      split; [by apply Forall_nil_2|cbn; lia].
  - apply Forall_singleton, values_ok; [by apply Hkey|done|]. apply Forall_singleton.
    split; [|done]. exists 49, (bytes ".500000"). split; [done|]. split; [done|]. split; [cbn; lia|]. intros d s [->|[->|[->|[->| ->]]]]; done.
Qed.

Lemma config_roundtrip_witness :
  exists lines, dm_config_write_node print_millionths example_tree = (true, lines) /\
    dm_config_parse strtod_millionths [] (text_of lines) = Parsed example_tree (Parser TOK_EOF [] []).
Proof. exact (config_roundtrip strtod_millionths print_millionths [] example_tree ltac:(done) example_tree_ok). Defined.

(** C17: The parser terminates on every text: with fuel linear in its length,
    [dm_config_parse] always comes to a tree, to a reported error, or to an access
    outside of the text, because every round of its loops consumes a token. *)
Theorem config_parse_terminates {F} (strtod : list Z -> option F) behind text :
  dm_config_parse strtod behind text <> OutOfFuel.
Proof.
  unfold dm_config_parse, file. destruct (get_token_wf TOK_SECTION_E text) as [Hw Hl].
  destruct (sections_ends strtod behind (2 * length text + 2)) as [_ H].
  specialize (H TOK_EOF _ Hw ltac:(lia)). by destruct (sections _ _ _ _ _) as [[|]| | |].
Qed.

(** ** Lookups *)

(** Looking a list of names up: the node, the node without children where the
    names go on, or nothing. *)
Inductive lookup_result (F : Type) := Found (n : cnode F) | Below (n : cnode F) | Missing.
Arguments Found {F} n.
Arguments Below {F} n.
Arguments Missing {F}.

Fixpoint descend {F} (cn : list (cnode F)) (segs : list (list Z)) : lookup_result F :=
  match segs with
  | [] => Missing
  | s :: segs =>
      match list_find (fun n => node_key n = s) cn with
      | None => Missing
      | Some (_, n) =>
          match segs with
          | [] => Found n
          | _ => match node_child n with [] => Below n | child => descend child segs end
          end
      end
  end.

Fixpoint join (segs : list (list Z)) : list Z :=
  match segs with [] => [] | [s] => s | s :: segs => s ++ sep :: join segs end.

Lemma tok_match_eq a b : tok_match a b = bool_decide (a = b).
Proof.
  revert b. induction a as [|x a IH]; intros [|y b]; cbn [tok_match]; [done..|]. destruct (Z.eqb_spec x y) as [->|].
  - rewrite IH. apply bool_decide_ext. split; [by intros ->|by intros [=]].
  - symmetry. apply bool_decide_eq_false. by intros [=].
Qed.

Lemma hunt_find {F} (cn : list (cnode F)) seg : hunt cn seg = snd <$> list_find (fun n => node_key n = seg) cn.
Proof.
  induction cn as [|n cn IH]; [done|]. cbn [hunt list_find]. rewrite tok_match_eq.
  case_decide as E; [by rewrite bool_decide_eq_true_2|]. rewrite bool_decide_eq_false_2, IH by done.
  by destruct (list_find _ cn) as [[]|].
Qed.

Definition segment (s : list Z) : Prop := s <> [] /\ Forall (fun c => c <> sep) s.

Lemma trim_segment s t : segment s -> trim (s ++ t) = s ++ t.
Proof.
  intros [Hn Hs]. destruct s as [|c s]; [done|]. cbn. apply Forall_cons in Hs as [Hc _].
  by rewrite (proj2 (Z.eqb_neq _ _) Hc).
Qed.

Lemma span_segment s : Forall (fun c => c <> sep) s -> Forall (fun c => negb (c =? sep) = true) s.
Proof. intros Hs. eapply Forall_impl; [done|]. intros c Hc. by apply negb_true_iff, Z.eqb_neq. Qed.

Lemma span_all f l : Forall (fun c => f c = true) l -> span f l = (l, []).
Proof. induction 1 as [|c l Hc _ IH]; [done|]. cbn. by rewrite Hc, IH. Qed.

Lemma find_loop_descends {F} segs (cn : list (cnode F)) slashes prev fuel :
  Forall segment segs -> segs <> [] -> cn <> [] -> (length segs <= fuel)%nat ->
  find_loop fuel cn (replicate slashes sep ++ join segs) prev =
    match descend cn segs with Found n | Below n => Some n | Missing => None end.
Proof.
  intros Hs. revert cn slashes prev fuel. induction Hs as [|s segs Hseg Hsegs IH]; intros cn k prev fuel Hne Hcn Hf; [done|].
  destruct fuel as [|fuel]; [cbn in Hf; lia|]. clear Hne. cbn [length] in Hf.
  assert (forall t, trim (replicate k sep ++ t) = trim t) as Htrim by (intros t; by induction k).
  cbn [find_loop descend]. destruct cn as [|c0 cn0] eqn:Ecn; [done|]. rewrite <- Ecn in *. clear Hcn.
  rewrite Htrim. destruct Hsegs as [|s' segs Hs' Hsegs].
  - cbn [join]. rewrite <- (app_nil_r s) at 1. rewrite trim_segment, app_nil_r by done.
    rewrite span_all by apply span_segment, Hseg. rewrite hunt_find. by destruct (list_find _ cn) as [[? n]|].
  - change (join (s :: s' :: segs)) with (s ++ sep :: join (s' :: segs)). rewrite trim_segment by done.
    rewrite span_stop by (done || apply span_segment, Hseg). rewrite hunt_find. destruct (list_find _ cn) as [[? n]|]; [|done].
    cbn [fmap option_fmap option_map snd].
    destruct (node_child n) as [|m child] eqn:Ec; [by destruct fuel; cbn in Hf; [lia|]|].
    apply (IH _ 1%nat); [done|done|cbn [length] in *; lia].
Qed.

(** C21: A lookup follows its path: [_find_config_node] of a path of names
    separated by slashes, with any number of slashes in front, gives the node that
    descending from the first node of each name reaches, and nothing when a name
    is not there.  When the path goes on below a node without children, the code
    returns that node, not NULL. *)
Theorem find_config_node_descends {F} (cn : list (cnode F)) segs slashes :
  Forall segment segs -> segs <> [] ->
  find_config_node cn (replicate slashes sep ++ join segs) =
    match descend cn segs with Found n | Below n => Some n | Missing => None end.
Proof.
  intros Hs Hne. unfold find_config_node. destruct cn as [|n cn].
  { destruct segs; [done|]. done. }
  apply find_loop_descends; [done|done|done|]. rewrite length_app. clear Hne.
  assert (length segs <= S (length (join segs)))%nat; [|lia].
  induction Hs as [|s segs Hs Hsegs IH]; [cbn; lia|]. destruct Hsegs; [cbn; lia|].
  change (join (s :: ?x :: ?l)) with (s ++ sep :: join (x :: l)). rewrite length_app. cbn [length] in *. lia.
Qed.

(** In the example, [ratio/unit] finds the node [ratio]. *)
Lemma find_config_node_descends_witness :
  find_config_node example_tree (bytes "//devices/sizes") = Some (Node (bytes "sizes") [CfgInt 64; CfgInt (-1); CfgString []] [])
  /\ node_key <$> find_config_node example_tree (bytes "ratio/unit") = Some (bytes "ratio").
Proof.
  split.
  - etransitivity; [apply (find_config_node_descends example_tree [bytes "devices"; bytes "sizes"] 2)|reflexivity];
      [repeat constructor; done|done].
  - pose proof (find_config_node_descends example_tree [bytes "ratio"; bytes "unit"] 0) as H.
    change (bytes "ratio/unit") with (replicate 0 sep ++ join [bytes "ratio"; bytes "unit"]).
    rewrite H by (first [done|repeat constructor; done]). reflexivity.
Defined.

(** ** Where the code goes wrong *)

(** [_find_config_bool] follows the NULL value of a section. *)
Lemma find_bool_of_section : dm_config_find_bool example_tree (bytes "devices") 0 = None.
Proof. reflexivity. Qed.

(** A lone quote at the end of the text gives a copy of length -1. *)
Lemma lone_quote_is_wild : dm_config_parse strtod_millionths [] (bytes "a=" ++ [34]) = Wild.
Proof. reflexivity. Qed.

(** An integer at the end of a text that is not NUL terminated is read past the
    end. *)
Lemma number_at_end_is_wild :
  dm_config_parse strtod_millionths [] (bytes "a=1") = Wild /\
  dm_config_parse strtod_millionths [0] (bytes "a=1") = Parsed [Node (bytes "a") [CfgInt 1] []] (Parser TOK_EOF [] []).
Proof. split; reflexivity. Qed.

(** A piece of 4095 characters is accepted and loses its last one. *)
Lemma line_append_drops o c :
  exists s, line_append (s ++ [c]) o = (true, Output (o_lines o) (o_cur o ++ s)).
Proof.
  exists (replicate 4094 97). unfold line_append. rewrite length_app, length_replicate.
  change (4095 <? Z.of_nat (4094 + length [c])) with false.
  by rewrite take_app_le, take_ge by (rewrite length_replicate; lia).
Qed.
