(* ===== verification/Flags.v ===== *)
(** * Status flags, tags and policies as text: lib/format_text/flags.c, tags.c

    The bits of a [status] field are written as an array of names and read back;
    so are the tags of a PV, an LV, a VG or a segment.  Allocation policies have
    names too (lib/display/display.c). *)

From S2P Require Import Prelude DmString Config ConfigProps Metadata LvManip.

(** ** The code *)

(** Status bits that only appear here (metadata-exported.h, metadata.h). *)
Definition PARTIAL_VG : Z := 0x1.
Definition EXPORTED_VG : Z := 0x2.
Definition RESIZEABLE_VG : Z := 0x4.
Definition FIXED_MINOR : Z := 0x80.
Definition LVM_READ : Z := 0x100.
Definition LVM_WRITE : Z := 0x200.
Definition CLUSTERED : Z := 0x400.
Definition SHARED : Z := 0x800.
Definition MIRRORED : Z := 0x8000.
Definition VIRTUAL : Z := 0x10000.
Definition LV_NOTSYNCED : Z := 0x80000.
Definition LV_REBUILD : Z := 0x100000.
Definition PRECOMMITTED : Z := 0x200000.
Definition PARTIAL_LV : Z := 0x1000000.
Definition POSTORDER_FLAG : Z := 0x2000000.
Definition VIRTUAL_ORIGIN : Z := 0x8000000.
Definition MERGING : Z := 0x10000000.
Definition REPLICATOR : Z := 0x20000000.
Definition REPLICATOR_LOG : Z := 0x40000000.
Definition UNLABELLED_PV : Z := 0x80000000.

(** Kinds and tables of flags (import-export.h). *)
Definition COMPATIBLE_FLAG : Z := 0.
Definition VG_FLAGS : Z := 1.
Definition PV_FLAGS : Z := 2.
Definition LV_FLAGS : Z := 3.
Definition STATUS_FLAG : Z := 8.

(** [struct flag]; the tables end with their last entry instead of a zero mask. *)
Record flag_entry := Flag { fl_mask : Z; fl_description : option (list Z); fl_kind : Z }.

Definition vg_flags : list flag_entry :=
  [Flag EXPORTED_VG (Some (bytes "EXPORTED")) STATUS_FLAG;
   Flag RESIZEABLE_VG (Some (bytes "RESIZEABLE")) STATUS_FLAG;
   Flag PVMOVE (Some (bytes "PVMOVE")) STATUS_FLAG;
   Flag LVM_READ (Some (bytes "READ")) STATUS_FLAG;
   Flag LVM_WRITE (Some (bytes "WRITE")) STATUS_FLAG;
   Flag CLUSTERED (Some (bytes "CLUSTERED")) STATUS_FLAG;
   Flag SHARED (Some (bytes "SHARED")) STATUS_FLAG;
   Flag PARTIAL_VG None 0;
   Flag PRECOMMITTED None 0].

Definition pv_flags : list flag_entry :=
  [Flag ALLOCATABLE_PV (Some (bytes "ALLOCATABLE")) STATUS_FLAG;
   Flag EXPORTED_VG (Some (bytes "EXPORTED")) STATUS_FLAG;
   Flag MISSING_PV (Some (bytes "MISSING")) COMPATIBLE_FLAG;
   Flag UNLABELLED_PV None 0].

Definition lv_flags : list flag_entry :=
  [Flag LVM_READ (Some (bytes "READ")) STATUS_FLAG;
   Flag LVM_WRITE (Some (bytes "WRITE")) STATUS_FLAG;
   Flag FIXED_MINOR (Some (bytes "FIXED_MINOR")) STATUS_FLAG;
   Flag VISIBLE_LV (Some (bytes "VISIBLE")) STATUS_FLAG;
   Flag PVMOVE (Some (bytes "PVMOVE")) STATUS_FLAG;
   Flag LOCKED (Some (bytes "LOCKED")) STATUS_FLAG;
   Flag LV_NOTSYNCED (Some (bytes "NOTSYNCED")) STATUS_FLAG;
   Flag LV_REBUILD (Some (bytes "REBUILD")) STATUS_FLAG;
   Flag RAID None 0; Flag RAID_META None 0; Flag RAID_IMAGE None 0; Flag MIRROR_IMAGE None 0;
   Flag MIRROR_LOG None 0; Flag MIRRORED None 0; Flag VIRTUAL None 0; Flag SNAPSHOT None 0;
   Flag MERGING None 0; Flag CONVERTING None 0; Flag PARTIAL_LV None 0; Flag POSTORDER_FLAG None 0;
   Flag VIRTUAL_ORIGIN None 0; Flag REPLICATOR None 0; Flag REPLICATOR_LOG None 0;
   Flag THIN_VOLUME None 0; Flag THIN_POOL None 0; Flag THIN_POOL_DATA None 0;
   Flag THIN_POOL_METADATA None 0].

(** [_get_flags] *)
Definition get_flags (type : Z) : option (list flag_entry) :=
  let t := Z.ldiff type STATUS_FLAG in
  if t =? VG_FLAGS then Some vg_flags
  else if t =? PV_FLAGS then Some pv_flags
  else if t =? LV_FLAGS then Some lv_flags else None.

(** [emit_to_buffer]: what is written so far and the room that is left. *)
Definition emit_to_buffer (s : list Z) (b : list Z * Z) : option (list Z * Z) :=
  let n := Z.of_nat (length s) in
  if b.2 <? n + 1 then None else Some (b.1 ++ s, b.2 - n).

(** The loop of [print_flags]. *)
Fixpoint print_flags_loop (flags : list flag_entry) (status kind : Z) (first : bool) (b : list Z * Z) :
    option (list Z * Z) :=
  match flags with
  | [] => Some b
  | f :: flags =>
      if Z.land status (fl_mask f) =? 0 then print_flags_loop flags status kind first b else
      let status := Z.ldiff status (fl_mask f) in
      if negb (kind =? fl_kind f) then print_flags_loop flags status kind first b else
      match fl_description f with
      | None => print_flags_loop flags status kind first b
      | Some d =>
          b ← (if first then Some b else emit_to_buffer [44; 32] b);
          b ← emit_to_buffer (34 :: d ++ [34]) b;
          print_flags_loop flags status kind false b
      end
  end.

(** [print_flags]: the text in the buffer of [size] bytes, [None] when it returns 0. *)
Definition print_flags (status type size : Z) : option (list Z) :=
  flags ← get_flags type;
  b ← emit_to_buffer [91] ([], size);
  b ← print_flags_loop flags status (Z.land type STATUS_FLAG) true b;
  b ← emit_to_buffer [93] b;
  Some b.1.

(** The search of [read_flags]; it ends at the first entry without a name. *)
Fixpoint find_flag (flags : list flag_entry) (name : list Z) : option Z :=
  match flags with
  | f :: flags =>
      match fl_description f with
      | Some d => if decide (d = name) then Some (fl_mask f) else find_flag flags name
      | None => None
      end
  | [] => None
  end.

Section config.
Context {F : Type}.

(** The loop of [read_flags] over the names, [None] for an error. *)
Fixpoint read_flags_loop (flags : list flag_entry) (type : Z) (s : Z) (cv : list (cvalue F)) : option Z :=
  match cv with
  | [] => Some s
  | CfgString name :: cv =>
      let found := find_flag flags name in
      let s := if found is Some m then Z.lor s m else s in
      if (type =? VG_FLAGS) && bool_decide (name = bytes "PARTIAL") then
        read_flags_loop flags type (Z.lor s PARTIAL_VG) cv
      else if (if found is Some _ then false else true) && negb (Z.land type STATUS_FLAG =? 0) then None
      else read_flags_loop flags type s cv
  | _ :: _ => None
  end.

(** [read_flags]: the new [*status], [None] when it returns 0; a NULL pointer is
    followed when there are no values. *)
Definition read_flags (status type : Z) (cv : list (cvalue F)) : option (option Z) :=
  match get_flags type with
  | None => Some None
  | Some flags =>
      match cv with
      | [] => None
      | CfgEmptyArray :: _ => Some (Some status)
      | _ => Some (Z.lor status <$> read_flags_loop flags type 0 cv)
      end
  end.

(** ** Tags *)

(** [alloc_printed_tags]: the loop, and the text; the allocation of the buffer is
    the caller's [ok]. *)
Fixpoint printed_tags_loop (tags : list (list Z)) (first : bool) (b : list Z * Z) : option (list Z * Z) :=
  match tags with
  | [] => Some b
  | t :: tags =>
      b ← (if first then Some b else emit_to_buffer [44; 32] b);
      b ← emit_to_buffer (34 :: t ++ [34]) b;
      printed_tags_loop tags false b
  end.

Definition tags_size (tags : list (list Z)) : Z :=
  foldr (fun t n => Z.of_nat (length t) + 4 + n) 3 tags.

Definition alloc_printed_tags (ok : bool) (tags : list (list Z)) : option (list Z) :=
  if negb ok then None else
  b ← emit_to_buffer [91] ([], tags_size tags);
  b ← printed_tags_loop tags true b;
  b ← emit_to_buffer [93] b;
  Some b.1.

(** [str_list_add] of a copy of the string. *)
Definition str_list_add (tags : list (list Z)) (str : list Z) : M (option (list (list Z))) :=
  ok ← pool_alloc;
  if negb ok then mret None else
  if decide (str ∈ tags) then mret (Some tags) else
  ok ← pool_alloc;
  if negb ok then mret None else mret (Some (tags ++ [str])).

(** [read_tags]: the tags of [cv] added to [tags], [None] when it returns 0. *)
Fixpoint read_tags_loop (tags : list (list Z)) (cv : list (cvalue F)) : M (option (list (list Z))) :=
  match cv with
  | [] => mret (Some tags)
  | CfgString t :: cv =>
      r ← str_list_add tags t;
      if r is Some tags then read_tags_loop tags cv else mret None
  | _ :: _ => mret None
  end.

Definition read_tags (tags : list (list Z)) (cv : list (cvalue F)) : M (option (list (list Z))) :=
  match cv with
  | [] => wild
  | CfgEmptyArray :: _ => mret (Some tags)
  | _ => read_tags_loop tags cv
  end.
End config.

(** ** Allocation policies *)

(** The table [_policies] of display.c. *)
Definition policies : list (alloc_policy_t * list Z) :=
  [(ALLOC_CONTIGUOUS, bytes "contiguous"); (ALLOC_CLING, bytes "cling");
   (ALLOC_CLING_BY_TAGS, bytes "cling_by_tags"); (ALLOC_NORMAL, bytes "normal");
   (ALLOC_ANYWHERE, bytes "anywhere"); (ALLOC_INHERIT, bytes "inherit")].

(** [get_alloc_string]; NULL is [None]. *)
Definition get_alloc_string (alloc : alloc_policy_t) : option (list Z) :=
  snd <$> List.find (fun p => bool_decide (p.1 = alloc)) policies.

Definition get_alloc_from_string (str : list Z) : alloc_policy_t :=
  if decide (str = bytes "cling_by_tags") then ALLOC_CLING else
  match List.find (fun p => bool_decide (p.2 = str)) policies with
  | Some p => p.1
  | None => if decide (str = bytes "next free") then ALLOC_NORMAL else ALLOC_INVALID
  end.

(** ** What is printed *)

(** A text in double quotes, and texts separated by commas. *)
Definition quoted (s : list Z) : list Z := 34 :: s ++ [34].
Definition more_text (l : list (list Z)) : list Z := concat (map (fun s => 44 :: 32 :: quoted s) l).
Definition join_text (l : list (list Z)) : list Z :=
  match l with [] => [] | s :: l => quoted s ++ more_text l end.

(** A text that escaping leaves alone and that fits a line. *)
Definition plain_text (s : list Z) : Prop := Forall (fun c => c <> 0 /\ c <> 34 /\ c <> 92) s.

Lemma escape_plain s : plain_text s -> dm_escape_double_quotes s = s.
Proof.
  induction 1 as [|c s (_ & H1 & H2) _ IH]; [done|]. rewrite escape_cons, IH. unfold DQUOTE, BACKSLASH.
  by rewrite (proj2 (Z.eqb_neq _ _) H1), (proj2 (Z.eqb_neq _ _) H2).
Qed.

Lemma values_text_strings {F} (pf : F -> list Z) l :
  Forall plain_text l -> values_text pf (map CfgString l) = join_text l.
Proof.
  induction 1 as [|s l Hs Hl IH]; [done|]. cbn [map]. destruct l as [|t l].
  - cbn. unfold quoted. by rewrite escape_plain, app_nil_r.
  - cbn [map values_text] in IH |- *. rewrite IH. cbn [value_text join_text]. rewrite escape_plain by done. done.
Qed.

Lemma emit_spec s w r : Z.of_nat (length s) < r -> emit_to_buffer s (w, r) = Some (w ++ s, r - Z.of_nat (length s)).
Proof. intros H. unfold emit_to_buffer. cbn. destruct (Z.ltb_spec r (Z.of_nat (length s) + 1)); [lia|done]. Qed.

Lemma printed_more_spec l w r :
  Z.of_nat (length (more_text l)) < r ->
  printed_tags_loop l false (w, r) = Some (w ++ more_text l, r - Z.of_nat (length (more_text l))).
Proof.
  revert w r. induction l as [|s l IH]; intros w r; cbn [printed_tags_loop].
  { intros _. cbn. by rewrite app_nil_r, Z.sub_0_r. }
  unfold more_text. cbn [map concat]. rewrite length_app. cbn [length]. intros H.
  rewrite emit_spec by (cbn; lia). cbn [mbind option_bind]. unfold quoted in *.
  rewrite emit_spec by (cbn [length] in *; lia). cbn [mbind option_bind].
  rewrite IH by (unfold more_text, quoted; cbn [length] in *; lia). unfold more_text, quoted. rewrite <- !app_assoc.
  do 2 f_equal. cbn [length]. lia.
Qed.

Lemma printed_tags_spec l w r :
  Z.of_nat (length (join_text l)) < r ->
  printed_tags_loop l true (w, r) = Some (w ++ join_text l, r - Z.of_nat (length (join_text l))).
Proof.
  destruct l as [|s l]; cbn [printed_tags_loop join_text]; [intros _; cbn; by rewrite app_nil_r, Z.sub_0_r|].
  rewrite length_app. unfold quoted. cbn [length mbind option_bind]. intros H. rewrite emit_spec by (cbn [length]; lia).
  cbn [mbind option_bind]. rewrite printed_more_spec by (cbn [length]; lia). rewrite <- app_assoc.
  do 2 f_equal. cbn [length]. lia.
Qed.

Lemma join_text_size l : Z.of_nat (length (join_text l)) + 3 <= tags_size l.
Proof.
  assert (forall k, Z.of_nat (length (more_text k)) + 3 <= tags_size k) as Hm.
  { induction k as [|t k IH]; [done|]. cbn [tags_size foldr]. unfold more_text, quoted in *. cbn [map concat].
    rewrite length_app. cbn [length]. rewrite length_app. cbn [length]. unfold tags_size in IH. lia. }
  destruct l as [|s l]; [done|]. specialize (Hm l). cbn [join_text tags_size foldr]. unfold quoted.
  rewrite length_app. cbn [length]. rewrite length_app. cbn [length]. unfold tags_size in Hm. lia.
Qed.

(** The text in brackets that both printing functions produce. *)
Definition array_text_of (l : list (list Z)) : list Z := 91 :: join_text l ++ [93].

Lemma printed_array l size : tags_size l <= size ->
  (b ← emit_to_buffer [91] ([], size); b ← printed_tags_loop l true b; b ← emit_to_buffer [93] b; Some b.1)
  = Some (array_text_of l).
Proof.
  intros H. pose proof (join_text_size l). rewrite emit_spec by (cbn; lia). cbn [mbind option_bind app].
  rewrite printed_tags_spec by (cbn [length]; lia). cbn [mbind option_bind].
  rewrite emit_spec by (cbn [length]; lia). done.
Qed.

Lemma alloc_printed_tags_spec tags : alloc_printed_tags true tags = Some (array_text_of tags).
Proof. unfold alloc_printed_tags. cbn [negb]. by apply printed_array. Qed.

(** ** Flags *)

(** The names printed for a status. *)
Definition flag_name (status kind : Z) (f : flag_entry) : option (list Z) :=
  if (Z.land status (fl_mask f) =? 0) || negb (kind =? fl_kind f) then None else fl_description f.

Definition flag_names (flags : list flag_entry) (status kind : Z) : list (list Z) :=
  omap (flag_name status kind) flags.

(** No bit is in two entries, every mask is one bit, and a name finds its mask. *)
Record table_ok (flags : list flag_entry) : Prop := {
  to_disjoint : ForallOrdPairs (fun f g => Z.land (fl_mask f) (fl_mask g) = 0) flags;
  to_bit : Forall (fun f => exists k, 0 <= k /\ fl_mask f = 2 ^ k) flags;
  to_find : Forall (fun f => forall d, fl_description f = Some d ->
    find_flag flags d = Some (fl_mask f) /\ d <> bytes "PARTIAL" /\ plain_text d) flags }.

Lemma print_flags_names flags status kind first b :
  ForallOrdPairs (fun f g => Z.land (fl_mask f) (fl_mask g) = 0) flags ->
  print_flags_loop flags status kind first b = printed_tags_loop (flag_names flags status kind) first b.
Proof.
  intros Hd. revert status first b. induction Hd as [|f flags Hf Hd IH]; intros status first b; [done|].
  cbn [print_flags_loop flag_names omap list_omap]. unfold flag_name at 1.
  destruct (Z.land status (fl_mask f) =? 0); [apply IH|]. cbn [orb].
  assert (flag_names flags (Z.ldiff status (fl_mask f)) kind = flag_names flags status kind) as E.
  { clear IH Hd. induction Hf as [|g flags Hg _ IH]; [done|]. unfold flag_names in *. cbn [omap list_omap]. rewrite IH.
    unfold flag_name. rewrite Z.ldiff_land, <- Z.land_assoc.
    assert (Z.land (Z.lnot (fl_mask f)) (fl_mask g) = fl_mask g) as ->; [|done].
    rewrite Z.land_comm, <- Z.ldiff_land. apply Z.bits_inj'. intros n Hn. rewrite Z.ldiff_spec.
    assert (Z.testbit (Z.land (fl_mask f) (fl_mask g)) n = false) as Hz by (rewrite Hg; apply Z.bits_0).
    rewrite Z.land_spec in Hz. destruct (Z.testbit (fl_mask g) n), (Z.testbit (fl_mask f) n); done. }
  unfold flag_names in *. destruct (kind =? fl_kind f); cbn [negb]; [|by rewrite IH, E].
  destruct (fl_description f) as [d|]; [|by rewrite IH, E]. cbn [printed_tags_loop].
  destruct (if first then Some b else _) as [b'|]; [|done]. cbn [mbind option_bind].
  destruct (emit_to_buffer _ b') as [b''|]; [|done]. cbn [mbind option_bind]. by rewrite IH, E.
Qed.

(** The described masks of a kind. *)
Definition exported (flags : list flag_entry) (kind : Z) : Z :=
  foldr (fun f m => if (kind =? fl_kind f) && (if fl_description f is Some _ then true else false)
                    then Z.lor (fl_mask f) m else m) 0 flags.

Lemma land_bit s k : 0 <= k -> Z.land s (2 ^ k) = if Z.land s (2 ^ k) =? 0 then 0 else 2 ^ k.
Proof.
  intros Hk. destruct (Z.eqb_spec (Z.land s (2 ^ k)) 0) as [->|Hne]; [done|].
  apply Z.bits_inj'. intros n Hn. rewrite Z.land_spec, Z.pow2_bits_eqb by done. destruct (Z.eqb_spec k n) as [->|]; [|by rewrite andb_false_r].
  rewrite andb_true_r. destruct (Z.testbit s n) eqn:E; [done|]. exfalso. apply Hne.
  apply Z.bits_inj'. intros m Hm. rewrite Z.land_spec, Z.pow2_bits_eqb, Z.bits_0 by done.
  destruct (Z.eqb_spec n m) as [->|]; [by rewrite E|by rewrite andb_false_r].
Qed.

Section flags_proofs.
Context {F : Type} (flags : list flag_entry) (Hok : table_ok flags).

Lemma read_names type s status kind :
  read_flags_loop (F := F) flags type s (map CfgString (flag_names flags status kind))
  = Some (Z.lor s (Z.land status (exported flags kind))).
Proof.
  destruct Hok as [_ Hbit Hfind].
  assert (forall fs, Forall (fun f => exists k, 0 <= k /\ fl_mask f = 2 ^ k) fs ->
    Forall (fun f => forall d, fl_description f = Some d ->
      find_flag flags d = Some (fl_mask f) /\ d <> bytes "PARTIAL" /\ plain_text d) fs ->
    forall s, read_flags_loop (F := F) flags type s (map CfgString (flag_names fs status kind))
      = Some (Z.lor s (Z.land status (exported fs kind)))) as H; [|by apply H].
  clear s Hbit Hfind. induction 1 as [|f fs (k & Hk & Hm) Hbit IH]; intros Hfind s.
  { cbn. by rewrite Z.land_0_r, Z.lor_0_r. }
  apply Forall_cons in Hfind as [Hf Hfind]. specialize (IH Hfind). unfold flag_names in *.
  cbn [omap list_omap exported foldr]. unfold flag_name at 1. pose proof (land_bit status k Hk) as Hb. rewrite <- Hm in Hb.
  change (foldr _ 0 fs) with (exported fs kind).
  destruct (Z.land status (fl_mask f) =? 0); cbn [orb].
  - rewrite IH. do 2 f_equal. destruct (_ && _); [|done]. by rewrite Z.land_lor_distr_r, Hb.
  - destruct (kind =? fl_kind f); cbn [negb andb]; [|apply IH]. destruct (fl_description f) as [d|]; [|apply IH].
    destruct (Hf d eq_refl) as (Hfd & Hp & _). cbn [map read_flags_loop]. rewrite Hfd, bool_decide_eq_false_2 by done.
    rewrite andb_false_r. cbn [andb]. rewrite IH, Z.land_lor_distr_r, Hb. by rewrite Z.lor_assoc.
Qed.

Lemma flag_names_plain status kind : Forall plain_text (flag_names flags status kind).
Proof.
  apply Forall_forall. intros d Hd. apply list_elem_of_omap in Hd as (f & Hf & Hd). unfold flag_name in Hd.
  destruct (_ || _); [done|]. destruct (proj1 (Forall_forall _ _) (to_find _ Hok) f Hf d Hd) as (_ & _ & ?). done.
Qed.
End flags_proofs.

Lemma plain_text_dec s : forallb (fun c => negb ((c =? 0) || (c =? 34) || (c =? 92))) s = true -> plain_text s.
Proof.
  intros H. apply Forall_forall. intros c Hc. rewrite forallb_forall in H.
  specialize (H c (proj1 (list_elem_of_In _ _) Hc)). lia.
Qed.

Fixpoint disjoint_b (flags : list flag_entry) : bool :=
  match flags with
  | [] => true
  | f :: flags => forallb (fun g => Z.land (fl_mask f) (fl_mask g) =? 0) flags && disjoint_b flags
  end.

Definition entry_ok_b (flags : list flag_entry) (f : flag_entry) : bool :=
  (0 <=? Z.log2 (fl_mask f)) && (fl_mask f =? 2 ^ Z.log2 (fl_mask f)) &&
  match fl_description f with
  | Some d => bool_decide (find_flag flags d = Some (fl_mask f)) && negb (bool_decide (d = bytes "PARTIAL")) &&
              forallb (fun c => negb ((c =? 0) || (c =? 34) || (c =? 92))) d
  | None => true
  end.

Lemma table_ok_dec flags : disjoint_b flags && forallb (entry_ok_b flags) flags = true -> table_ok flags.
Proof.
  intros [Hd He]%andb_true_iff. rewrite forallb_forall in He.
  assert (forall f, f ∈ flags -> entry_ok_b flags f = true) as He' by (intros f Hf; apply He; by apply list_elem_of_In).
  clear He. split.
  - clear He'. induction flags as [|f flags IH]; [constructor|]. cbn in Hd. apply andb_true_iff in Hd as [H1 H2].
    constructor; [|by apply IH]. rewrite forallb_forall in H1. apply Forall_forall. intros g Hg.
    apply Z.eqb_eq, H1. by apply list_elem_of_In.
  - apply Forall_forall. intros f Hf. specialize (He' f Hf). unfold entry_ok_b in He'.
    apply andb_true_iff in He' as [[H1 H2]%andb_true_iff _]. exists (Z.log2 (fl_mask f)). split; [lia|by apply Z.eqb_eq].
  - apply Forall_forall. intros f Hf d Hd'. specialize (He' f Hf). unfold entry_ok_b in He'. rewrite Hd' in He'.
    apply andb_true_iff in He' as [_ [[H1 H2]%andb_true_iff H3]%andb_true_iff].
    split; [by apply bool_decide_eq_true in H1|]. split; [|by apply plain_text_dec].
    by apply negb_true_iff, bool_decide_eq_false in H2.
Qed.

Lemma get_flags_ok type flags :
  get_flags type = Some flags -> table_ok flags /\ tags_size (omap fl_description flags) <= 4096.
Proof.
  unfold get_flags. intros H.
  assert (flags = vg_flags \/ flags = pv_flags \/ flags = lv_flags) as [->|[->| ->]]; [repeat case_match; naive_solver|..];
    (split; [apply table_ok_dec; vm_compute; reflexivity|vm_compute; discriminate]).
Qed.

Lemma tags_size_pos l : 3 <= tags_size l.
Proof. induction l as [|t l IH]; [done|]. cbn [tags_size foldr]. unfold tags_size in IH. lia. Qed.

Lemma tags_size_names flags status kind :
  tags_size (flag_names flags status kind) <= tags_size (omap fl_description flags).
Proof.
  induction flags as [|f flags IH]; [done|]. unfold flag_names, tags_size in *. cbn [omap list_omap].
  unfold flag_name at 1. destruct (_ || _); destruct (fl_description f) as [d|]; cbn [foldr]; lia.
Qed.

(** The text of the flags of a kind. *)
Lemma print_flags_spec status type flags :
  get_flags type = Some flags ->
  print_flags status type 4096 = Some (array_text_of (flag_names flags status (Z.land type STATUS_FLAG))).
Proof.
  intros Hf. destruct (get_flags_ok _ _ Hf) as [Hok Hsize]. unfold print_flags. rewrite Hf. cbn [mbind option_bind].
  erewrite <- printed_array by (etrans; [apply tags_size_names|exact Hsize]).
  destruct (emit_to_buffer [91] ([], 4096)) as [b|]; [|done]. cbn [mbind option_bind].
  by rewrite print_flags_names by apply Hok.
Qed.

(** The values an array of strings is read as. *)
Definition array_values {F} (l : list (list Z)) : list (cvalue F) :=
  match l with [] => [CfgEmptyArray] | l => map CfgString l end.

Lemma read_flags_spec {F} s status type flags kind :
  get_flags type = Some flags ->
  read_flags (F := F) s type (array_values (flag_names flags status kind))
  = Some (Some (Z.lor s (Z.land status (exported flags kind)))).
Proof.
  intros Hf. destruct (get_flags_ok _ _ Hf) as [Hok _]. unfold read_flags. rewrite Hf.
  pose proof (read_names (F := F) flags Hok type 0 status kind) as Hr.
  destruct (flag_names flags status kind) as [|d l]; cbn [array_values map] in *.
  - injection Hr as Hr. rewrite Z.lor_0_l in Hr. by rewrite <- Hr, Z.lor_0_r.
  - rewrite Hr. done.
Qed.

(** ** Tags and policies *)

(** Reading the tags back adds them one after the other, as a copy of the list does. *)
Lemma read_tags_dup {F} tags l s :
  l <> [] -> read_tags (F := F) tags (map CfgString l) s = str_list_dup l tags s.
Proof.
  intros Hl. assert (forall k acc s, read_tags_loop (F := F) acc (map CfgString k) s = str_list_dup k acc s) as H.
  { clear. induction k as [|t k IH]; intros acc s; [done|]. cbn [map read_tags_loop str_list_dup]. unfold str_list_add.
    rewrite bind_assoc. unfold mbind, M_bind, pool_alloc. destruct (alloc_ok s); cbn [negb]; [|done].
    destruct (decide (t ∈ acc)); [apply IH|]. destruct (alloc_ok (alloc_tick s)); cbn [negb]; [apply IH|done]. }
  destruct l as [|t l]; [done|]. exact (H (t :: l) tags s).
Qed.

Lemma policy_roundtrip p d :
  get_alloc_string p = Some d -> get_alloc_from_string d = (if decide (p = ALLOC_CLING_BY_TAGS) then ALLOC_CLING else p).
Proof. intros H. destruct p; vm_compute in H; try done; injection H as <-; vm_compute; reflexivity. Qed.
