(* ===== verification/ConfigText.v ===== *)
(** * Texts that denote configuration trees

    What a text means to the parser of libdm-config.c, piece by piece: [denotes]
    says that parsing the nodes of a section or file goes through a piece of text
    and gives its nodes.  Pieces are put together without regard to fuel; comments,
    indentation and blank lines denote nothing. *)

From S2P Require Import Prelude DmString Config ConfigProps.

Section denotes.
Context {F : Type} (strtod : list Z -> option F) (print_float : F -> list Z) (behind : list Z).

Abbreviation section := (section strtod behind).
Abbreviation sections := (sections strtod behind).
Abbreviation array := (array strtod behind).
Abbreviation value := (value strtod behind).
Abbreviation next s := (get_token TOK_SECTION_E s).

Lemma sections_S n stop p :
  sections (S n) stop p = if decide (p_t p = stop) then Parsed [] p else
    pbind (section n p) (fun a p => pbind (sections n stop p) (fun ns p => Parsed (a :: ns) p)).
Proof. reflexivity. Qed.

Lemma section_S n p :
  section (S n) p = pbind (pmatch TOK_IDENTIFIER p) (fun _ q =>
    if decide (p_t q = TOK_SECTION_B) then
      pbind (pmatch TOK_SECTION_B q) (fun _ q => pbind (sections n TOK_SECTION_E q) (fun child q =>
      pbind (pmatch TOK_SECTION_E q) (fun _ q => Parsed (Node (p_tok p) [] child) q)))
    else pbind (pmatch TOK_EQ q) (fun _ q => pbind (value n q) (fun v q => Parsed (Node (p_tok p) v []) q))).
Proof. reflexivity. Qed.

(** ** More fuel changes nothing *)

Lemma pbind_fuel {A B} (r : presult A) (k : A -> parser -> presult B) : pbind r k <> OutOfFuel -> r <> OutOfFuel.
Proof. by destruct r. Qed.

Lemma pbind_mono {A B} (r r' : presult A) (k k' : A -> parser -> presult B) :
  (r <> OutOfFuel -> r' = r) -> (forall a p, k a p <> OutOfFuel -> k' a p = k a p) ->
  pbind r k <> OutOfFuel -> pbind r' k' = pbind r k.
Proof. intros Hr Hk H. rewrite (Hr (pbind_fuel _ _ H)). destruct r; cbn in *; auto. Qed.

Lemma array_mono n m p : (n <= m)%nat -> array n p <> OutOfFuel -> array m p = array n p.
Proof.
  revert m p. induction n as [|n IH]; intros m p Hm; [done|]. destruct m as [|m]; [lia|]. cbn [array].
  case_decide; [done|]. apply pbind_mono; [done|]. intros v q. apply pbind_mono; [done|]. intros _ q'.
  apply pbind_mono; [|done]. apply IH. lia.
Qed.

Lemma value_mono n m p : (n <= m)%nat -> value n p <> OutOfFuel -> value m p = value n p.
Proof.
  intros Hm. unfold value. case_decide; [|done]. apply pbind_mono; [done|]. intros _ q.
  apply pbind_mono; [|done]. by apply array_mono.
Qed.

Lemma sections_mono n :
  (forall m p, (n <= m)%nat -> section n p <> OutOfFuel -> section m p = section n p) /\
  (forall m stop p, (n <= m)%nat -> sections n stop p <> OutOfFuel -> sections m stop p = sections n stop p).
Proof.
  induction n as [|n [IH1 IH2]]; [done|]. split.
  - intros m p Hm. destruct m as [|m]; [lia|]. cbn [section]. apply pbind_mono; [done|]. intros _ q. case_decide.
    + apply pbind_mono; [done|]. intros _ q'. apply pbind_mono; [|done]. apply IH2. lia.
    + apply pbind_mono; [done|]. intros _ q'. apply pbind_mono; [|done]. apply value_mono. lia.
  - intros m stop p Hm. destruct m as [|m]; [lia|]. cbn [sections]. case_decide; [done|].
    apply pbind_mono; [apply IH1; lia|]. intros a q. apply pbind_mono; [|done]. apply IH2. lia.
Qed.

(** What some fuel gives. *)
Definition gives {A} (f : nat -> presult A) (a : A) (p : parser) : Prop := exists n, f n = Parsed a p.

Lemma sections_gives stop p n ns q m :
  sections n stop p = Parsed ns q -> (n <= m)%nat -> sections m stop p = Parsed ns q.
Proof. intros H Hm. rewrite <- H. apply sections_mono; [done|]. by rewrite H. Qed.

(** ** White space *)

(** A text that a token skips. *)
Definition blank (t : list Z) : Prop := forall s, eat_space false (t ++ s) = eat_space false s.

Lemma blank_nil : blank [].
Proof. done. Qed.

Lemma blank_app a b : blank a -> blank b -> blank (a ++ b).
Proof. intros Ha Hb s. by rewrite <- app_assoc, Ha, Hb. Qed.

Lemma blank_space c : isspace c = true -> blank [c].
Proof.
  intros Hc s. cbn [app eat_space andb]. destruct (Z.eqb_spec c 35) as [->|]; [done|]. by rewrite Hc.
Qed.

Lemma blank_cons c t : isspace c = true -> blank t -> blank (c :: t).
Proof. intros Hc Ht. by apply (blank_app [c]); [apply blank_space|]. Qed.

Lemma blank_tabs k : blank (replicate k 9).
Proof. induction k as [|k IH]; [apply blank_nil|]. by apply blank_cons. Qed.

(** A comment up to the end of the line. *)
Lemma blank_comment c : Forall (fun x => x <> 10 /\ x <> 0) c -> blank (35 :: c ++ [10]).
Proof.
  intros Hc s. cbn [app eat_space andb]. rewrite <- app_assoc. induction Hc as [|x c [Hx Hz] Hc IH]; [done|].
  cbn [app eat_space andb]. rewrite (proj2 (Z.eqb_neq x 10)), (proj2 (Z.eqb_neq x 0)) by done. apply IH.
Qed.

Lemma get_token_blank t b s : blank b -> get_token t (b ++ s) = get_token t s.
Proof. intros Hb. unfold get_token. by rewrite Hb. Qed.

(** ** Values *)

(** The rest of a line behind a value: blank, and no part of the value. *)
Definition line_end (t : list Z) : Prop := blank t /\ exists d t', t = d :: t' /\ delimiter d.

(** A text that denotes the elements of an array, up to the closing bracket. *)
Definition elems (text : list Z) (vs : list (cvalue F)) : Prop :=
  forall s t, values_allowed t = true ->
    gives (fun n => array n (get_token t (text ++ 93 :: s))) vs (Parser TOK_ARRAY_E [93] s).

Lemma elems_nil b : blank b -> elems b [].
Proof. intros Hb s t Ht. exists 1%nat. rewrite get_token_blank by done. done. Qed.

Lemma elems_blank b text vs : blank b -> elems text vs -> elems (b ++ text) vs.
Proof. intros Hb H s t Ht. rewrite <- app_assoc. destruct (H s t Ht) as [n Hn]. exists n. by rewrite get_token_blank. Qed.

Lemma elems_last pre v post :
  blank pre -> readable strtod print_float v -> post = [] \/ line_end post ->
  elems (pre ++ value_text print_float v ++ post) [v].
Proof.
  intros Hpre Hv Hpost s t Ht. exists 2%nat. rewrite <- !app_assoc, get_token_blank by done.
  assert (exists d r, post ++ 93 :: s = d :: r /\ delimiter d) as (d & r & E & Hd).
  { destruct Hpost as [->|(_ & d & r & -> & Hd)]; [exists 93, s; split; [done|]; unfold delimiter; auto|]. by exists d, (r ++ 93 :: s). }
  destruct (type_text strtod print_float behind t v d r Hv Ht Hd) as (H1 & _ & H2). rewrite E.
  assert (next (d :: r) = Parser TOK_ARRAY_E [93] s) as Hn.
  { rewrite <- E. destruct Hpost as [->|[Hb _]]; [done|]. by rewrite get_token_blank. }
  cbn [array]. rewrite decide_False by done. rewrite H1, Hn. done.
Qed.

Lemma elems_cons pre v rest vs :
  blank pre -> readable strtod print_float v -> elems rest vs ->
  elems (pre ++ value_text print_float v ++ 44 :: rest) (v :: vs).
Proof.
  intros Hpre Hv Hrest s t Ht. destruct (Hrest s TOK_COMMA eq_refl) as [n Hn]. exists (S n).
  rewrite <- !app_assoc, get_token_blank by done. cbn [app].
  destruct (type_text strtod print_float behind t v 44 (rest ++ 93 :: s) Hv Ht) as (H1 & _ & H2); [by right; left|].
  cbn [array]. rewrite decide_False by done. rewrite H1. cbn [pbind].
  change (next (44 :: ?x)) with (Parser TOK_COMMA [44] x). cbn [p_t]. rewrite decide_True by done.
  unfold pmatch. cbn [p_t p_rest]. rewrite decide_True by done. cbn [pbind]. by rewrite Hn.
Qed.

(** The right-hand side of a node. *)
Inductive rhs : list Z -> list (cvalue F) -> Prop :=
| rhs_value v : readable strtod print_float v -> rhs (value_text print_float v) [v]
| rhs_array text vs : elems text vs -> rhs (91 :: text ++ [93]) (if vs is [] then [CfgEmptyArray] else vs).

Lemma value_rhs text v post s :
  rhs text v -> line_end post ->
  gives (fun n => value n (get_token TOK_EQ (32 :: text ++ post ++ s))) v (next s).
Proof.
  intros Hr (Hb & d & r & -> & Hd).
  assert (next (d :: r ++ s) = next s) as Hn by by apply (get_token_blank _ (d :: r)).
  destruct Hr as [w Hw|body vs Hvs].
  - exists O. rewrite get_token_skip by done. cbn [app]. destruct (type_text strtod print_float behind TOK_EQ w d (r ++ s) Hw eq_refl Hd) as (H1 & H2 & _).
    unfold Config.value. rewrite decide_False by done. rewrite H1. cbn [pbind]. by rewrite Hn.
  - cbn [app]. rewrite <- app_assoc. cbn [app].
    destruct (Hvs (d :: r ++ s) TOK_ARRAY_B eq_refl) as [n Hn']. exists n. rewrite get_token_skip by done. unfold Config.value.
    change (get_token TOK_EQ (91 :: ?x)) with (Parser TOK_ARRAY_B [91] x). cbn [p_t]. rewrite decide_True by done.
    unfold pmatch at 1. cbn [p_t p_rest]. rewrite decide_True by done. cbn [pbind]. rewrite Hn'. cbn [pbind].
    unfold pmatch. cbn [p_t p_rest]. rewrite decide_True by done. cbn [pbind].
    rewrite (get_token_prev TOK_ARRAY_E TOK_SECTION_E), Hn by done. by destruct vs.
Qed.

(** ** Nodes *)

Definition denotes (text : list Z) (l : list (cnode F)) : Prop :=
  forall s stop ns p, stop <> TOK_IDENTIFIER ->
    gives (fun n => sections n stop (next s)) ns p ->
    gives (fun n => sections n stop (next (text ++ s))) (l ++ ns) p.

Lemma denotes_blank t : blank t -> denotes t [].
Proof. intros Hb s stop ns p _ [n Hn]. exists n. by rewrite get_token_blank. Qed.

Lemma denotes_app t1 l1 t2 l2 : denotes t1 l1 -> denotes t2 l2 -> denotes (t1 ++ t2) (l1 ++ l2).
Proof. intros H1 H2 s stop ns p Hs H. rewrite <- !app_assoc. apply H1; [done|]. by apply H2. Qed.

(** One node in front of what follows. *)
Lemma denotes_node text node :
  (forall s, p_t (next (text ++ s)) = TOK_IDENTIFIER) ->
  (forall s, gives (fun n => section n (next (text ++ s))) node (next s)) -> denotes text [node].
Proof.
  intros Hid Hsec s stop ns p Hs [n Hn]. destruct (Hsec s) as [m Hm]. exists (S (m + n)). rewrite sections_S.
  rewrite decide_False by (rewrite Hid; congruence).
  assert (section (m + n) (next (text ++ s)) = Parsed node (next s)) as ->.
  { rewrite <- Hm. apply sections_mono; [lia|]. by rewrite Hm. }
  cbn [pbind]. rewrite (sections_gives _ _ n ns p) by (done || lia). done.
Qed.

(** A line [key = value]. *)
Lemma denotes_leaf pre key text v post :
  blank pre -> name_ok key -> rhs text v -> line_end post ->
  denotes (pre ++ (key ++ bytes " = " ++ text) ++ post) [Node key v []].
Proof.
  intros Hpre Hk Hr Hpost.
  assert (forall s, next ((pre ++ (key ++ bytes " = " ++ text) ++ post) ++ s)
            = Parser TOK_IDENTIFIER key (32 :: 61 :: 32 :: text ++ post ++ s)) as E.
  { intros s. rewrite <- !app_assoc, get_token_blank by done. cbn [app]. apply get_token_key; auto. }
  apply denotes_node; [intros s; by rewrite E|]. intros s. destruct (value_rhs text v post s Hr Hpost) as [n Hn].
  exists (S n). rewrite E, section_S. unfold pmatch at 1. cbn [p_t p_tok p_rest]. rewrite decide_True by done. cbn [pbind].
  rewrite get_token_skip by done.
  change (get_token TOK_IDENTIFIER (61 :: ?x)) with (Parser TOK_EQ [61] x). cbn [p_t].
  rewrite decide_False by done. unfold pmatch at 1. cbn [p_t p_rest]. rewrite decide_True by done. cbn [pbind].
  by rewrite Hn.
Qed.

(** The lines of a section. *)
Lemma denotes_section pre key post text l pre' post' :
  blank pre -> name_ok key -> blank post -> denotes text l -> blank pre' -> blank post' ->
  denotes (pre ++ (key ++ bytes " {") ++ post ++ text ++ pre' ++ bytes "}" ++ post') [Node key [] l].
Proof.
  intros Hpre Hk Hpost Htext Hpre' Hpost'.
  assert (forall s, next ((pre ++ (key ++ bytes " {") ++ post ++ text ++ pre' ++ bytes "}" ++ post') ++ s)
            = Parser TOK_IDENTIFIER key (32 :: 123 :: post ++ text ++ pre' ++ 125 :: post' ++ s)) as E.
  { intros s. rewrite <- !app_assoc, get_token_blank by done. cbn [app]. apply get_token_key; auto. }
  apply denotes_node; [intros s; by rewrite E|]. intros s.
  assert (next (pre' ++ 125 :: post' ++ s) = Parser TOK_SECTION_E [125] (post' ++ s)) as Hend.
  { by rewrite get_token_blank. }
  destruct (Htext (pre' ++ 125 :: post' ++ s) TOK_SECTION_E [] (Parser TOK_SECTION_E [125] (post' ++ s))) as [n Hn]; [done| |].
  { exists 1%nat. rewrite Hend. done. }
  rewrite app_nil_r in Hn.
  exists (S n). rewrite E, section_S. unfold pmatch at 1. cbn [p_t p_tok p_rest]. rewrite decide_True by done. cbn [pbind].
  rewrite get_token_skip by done.
  change (get_token TOK_IDENTIFIER (123 :: ?x)) with (Parser TOK_SECTION_B [123] x). cbn [p_t]. rewrite decide_True by done.
  unfold pmatch at 1. cbn [p_t p_rest]. rewrite decide_True by done. cbn [pbind]. rewrite get_token_blank by done.
  rewrite (get_token_prev TOK_SECTION_B TOK_SECTION_E), Hn by done. cbn [pbind]. unfold pmatch. cbn [p_t p_rest].
  rewrite decide_True by done. cbn [pbind]. by rewrite get_token_blank.
Qed.

(** A whole file, and a text in a buffer, which a NUL ends. *)
Lemma denotes_parse_end text rest l :
  l <> [] -> denotes text l -> next rest = Parser TOK_EOF [] rest ->
  dm_config_parse strtod behind (text ++ rest) = Parsed l (Parser TOK_EOF [] rest).
Proof.
  intros Hne Ht Hrest. destruct (Ht rest TOK_EOF [] (Parser TOK_EOF [] rest)) as [n Hn]; [done|exists 1%nat; by rewrite Hrest|].
  rewrite app_nil_r in Hn. set (t := text ++ rest) in *. unfold dm_config_parse, file.
  assert (sections (2 * length t + 2) TOK_EOF (next t) <> OutOfFuel) as Hfuel.
  { destruct (get_token_wf TOK_SECTION_E t) as [Hw Hl]. destruct (sections_ends strtod behind (2 * length t + 2)) as [_ H].
    specialize (H TOK_EOF _ Hw ltac:(lia)). intros E. by rewrite E in H. }
  assert (sections (2 * length t + 2) TOK_EOF (next t) = Parsed l (Parser TOK_EOF [] rest)) as ->; [|by destruct l].
  destruct (Nat.le_ge_cases n (2 * length t + 2)) as [Hm|Hm]; [by eapply sections_gives|].
  rewrite <- Hn. symmetry. by apply sections_mono.
Qed.

Lemma denotes_parse text l :
  l <> [] -> denotes text l -> dm_config_parse strtod behind text = Parsed l (Parser TOK_EOF [] []).
Proof. intros Hne Ht. rewrite <- (app_nil_r text). by apply denotes_parse_end. Qed.

Lemma denotes_parse_nul text l :
  l <> [] -> denotes text l -> dm_config_parse strtod behind (text ++ [0]) = Parsed l (Parser TOK_EOF [] [0]).
Proof. intros Hne Ht. by apply denotes_parse_end. Qed.
End denotes.
