(* ===== verification/TextExport.v ===== *)
(** * VG metadata as text: lib/format_text/export.c

    A volume group of the store is written as text, either into a growing buffer
    for the metadata areas or into a file with indentation and comments for
    archives and backups.  The two ways of writing a line are [formatter_ops]. *)

From S2P Require Import Prelude DmString Uuid Metadata LvManip Flags.

(** ** Formatters *)

(** [struct formatter]: the text so far, the size of the buffer (of a raw
    formatter), the indentation, the names of the PVs by uuid.  [f_alloc] says which
    allocations succeed, [f_ferror] what the checks for a write error of the file
    see; when a list has run out, all goes well. *)
Record formatter := Formatter {
  f_text : list Z;
  f_size : Z;
  f_indent : Z;
  f_pv_names : gmap (list Z) (list Z);
  f_alloc : list bool;
  f_ferror : list bool }.

(** Actions of a formatter; [None] is a wild access. *)
Definition X (A : Type) : Type := formatter -> option (A * formatter).

#[export] Instance X_ret : MRet X := fun A a f => Some (a, f).
#[export] Instance X_bind : MBind X := fun A B k m f =>
  match m f with Some (a, f') => k a f' | None => None end.

(** [if (!m) return 0;] *)
Definition then_ (m k : X bool) : X bool := ok ← m; if ok : bool then k else mret false.
Notation "m &&> k" := (then_ m k) (at level 100, right associativity).

Definition wild_x {A} : X A := fun _ => None.
Definition deref_x {A} (p : option A) : X A := match p with Some a => mret a | None => wild_x end.

Definition set_text (t : list Z) (f : formatter) : formatter :=
  Formatter t (f_size f) (f_indent f) (f_pv_names f) (f_alloc f) (f_ferror f).
Definition set_indent (n : Z) (f : formatter) : formatter :=
  Formatter (f_text f) (f_size f) n (f_pv_names f) (f_alloc f) (f_ferror f).
Definition set_size (n : Z) (f : formatter) : formatter :=
  Formatter (f_text f) n (f_indent f) (f_pv_names f) (f_alloc f) (f_ferror f).
Definition set_pv_names (m : gmap (list Z) (list Z)) (f : formatter) : formatter :=
  Formatter (f_text f) (f_size f) (f_indent f) m (f_alloc f) (f_ferror f).
Definition set_alloc (l : list bool) (f : formatter) : formatter :=
  Formatter (f_text f) (f_size f) (f_indent f) (f_pv_names f) l (f_ferror f).
Definition set_ferror (l : list bool) (f : formatter) : formatter :=
  Formatter (f_text f) (f_size f) (f_indent f) (f_pv_names f) (f_alloc f) l.

(** Whether the next allocation succeeds. *)
Definition x_alloc : X bool := fun f => Some (default true (head (f_alloc f)), set_alloc (tail (f_alloc f)) f).

(** [ferror]: an error stays. *)
Definition x_ferror : X bool := fun f =>
  match f_ferror f with
  | [] => Some (false, f)
  | true :: _ => Some (true, f)
  | false :: l => Some (false, set_ferror l f)
  end.

Definition upd (g : formatter -> formatter) : X unit := fun f => Some (tt, g f).
Definition asking {A} (k : formatter -> X A) : X A := fun f => k f f.

Definition emit (t : list Z) : X unit := upd (fun f => set_text (f_text f ++ t) f).

Definition MAX_INDENT : Z := 5.
Definition inc_indent : X unit := upd (fun f => set_indent (Z.min (f_indent f + 1) MAX_INDENT) f).
Definition dec_indent : X unit := upd (fun f => set_indent (if f_indent f =? 0 then 0 else f_indent f - 1) f).

(** How a formatter writes a line with an optional comment, and an empty line. *)
Record formatter_ops := FormatterOps {
  out_with_comment : option (list Z) -> list Z -> X bool;
  nl : X bool }.

(** *** Files *)

Definition nl_file : X bool := emit [10];; mret true.

Definition COMMENT_TAB : Z := 6.

(** The tabs before a comment, behind [i] characters of line. *)
Definition comment_tabs (indent i : Z) : list Z :=
  let i := (i + 8 * indent) / 8 + 1 in replicate (Z.to_nat (Z.max 1 (COMMENT_TAB - i))) 9.

(** [_out_with_comment_file]; the white space is an array of [MAX_INDENT + 1]. *)
Definition out_with_comment_file (comment : option (list Z)) (line : list Z) : X bool :=
  err ← x_ferror;
  if err : bool then mret false else
  asking (fun f =>
    (if MAX_INDENT <? f_indent f then wild_x else mret tt);;
    emit (replicate (Z.to_nat (f_indent f)) 9);;
    emit line;;
    (if comment is Some c then emit (comment_tabs (f_indent f) (Z.of_nat (length line)) ++ c) else mret tt);;
    emit [10];;
    mret true).

Definition file_ops : formatter_ops := FormatterOps out_with_comment_file nl_file.

(** *** Buffers *)

(** [_extend_buffer] *)
Definition extend_buffer : X bool :=
  ok ← x_alloc;
  if negb ok then mret false else upd (fun f => set_size (wrap32 (f_size f * 2)) f);; mret true.

(** Bytes and a NUL behind them are stored in the buffer. *)
Definition store_text (t : list Z) : X unit := fun f =>
  if f_size f <? Z.of_nat (length (f_text f)) + Z.of_nat (length t) + 1 then None
  else Some (tt, set_text (f_text f ++ t) f).

Definition nl_raw : X bool :=
  ok ← asking (fun f => if f_size f <? Z.of_nat (length (f_text f)) + 2 then extend_buffer else mret true);
  if negb ok then mret false else
  store_text [10];; mret true.

(** [_out_with_comment_raw], repeated as long as it asks for that; each time the
    buffer has doubled. *)
Fixpoint out_with_comment_raw (fuel : nat) (line : list Z) : X bool :=
  match fuel with
  | O => wild_x
  | S fuel =>
      asking (fun f =>
        if f_size f <? Z.of_nat (length line) + Z.of_nat (length (f_text f)) + 2 then
          ok ← extend_buffer; if negb ok then mret false else out_with_comment_raw fuel line
        else store_text line;; nl_raw)
  end.

(** The buffer starts with 2^16 bytes; doubled 16 times its size wraps to 0. *)
Definition raw_ops : formatter_ops := FormatterOps (fun _ line => out_with_comment_raw 17 line) nl_raw.

(** ** Exporting *)

(** What the header is made of: version, time as number and text, uname; the
    readable form of sizes and times in comments. *)
Record export_env := ExportEnv {
  xe_version : list Z;
  xe_time : Z;
  xe_ctime : list Z;
  xe_nodename : list Z;
  xe_uname : list Z;
  sectors_to_units : Z -> option (list Z);
  local_time : Z -> option (list Z) }.

Definition LINE (name : list Z) (v : list Z) : list Z := name ++ bytes " = " ++ v.

Section export.
Context (ops : formatter_ops) (env : export_env) (s : store).

Definition rd {T} `{Table T} (p : nat) : X T := fun f =>
  match tbl s !! p with Some x => Some (x, f) | None => None end.

Definition outf (line : list Z) : X bool := out_with_comment ops None line.
Definition outfc (comment line : list Z) : X bool := out_with_comment ops (Some comment) line.
Definition outhint (line : list Z) : X bool := out_with_comment ops (Some (bytes "# Hint only")) line.
Definition outsize (size : Z) (line : list Z) : X bool :=
  match sectors_to_units env size with
  | None => mret false
  | Some c => out_with_comment ops (Some c) line
  end.
Definition outnl : X bool := nl ops.

(** A block that is indented by one level, between an opening and a closing line. *)
Definition out_block (b : list Z) (body : X bool) (e : list Z) : X bool :=
  outf b &&> (inc_indent;; body) &&> (dec_indent;; outf e).
Definition out_section (name : list Z) (body : X bool) : X bool := out_block (name ++ bytes " {") body (bytes "}").

Definition print_header (desc : list Z) : X bool :=
  outf (bytes "# Generated by LVM2 version " ++ xe_version env ++ bytes ": " ++ xe_ctime env) &&>
  outf (LINE (bytes "contents") (quoted (bytes "Text Format Volume Group"))) &&>
  outf (LINE (bytes "version") (print_int 1)) &&>
  outnl &&>
  outf (LINE (bytes "description") (quoted (dm_escape_double_quotes desc))) &&>
  outnl &&>
  outf (LINE (bytes "creation_host") (quoted (xe_nodename env)) ++ [9; 35; 32] ++ xe_uname env) &&>
  outf (LINE (bytes "creation_time") (print_int (xe_time env)) ++ [9; 35; 32] ++ xe_ctime env) &&>
  mret true.

Definition print_flag_config (status type : Z) : X bool :=
  match print_flags status (Z.lor type STATUS_FLAG) 4096 with
  | None => mret false
  | Some b =>
      outf (LINE (bytes "status") b) &&>
      match print_flags status type 4096 with
      | None => mret false
      | Some b => outf (LINE (bytes "flags") b)
      end
  end.

Definition out_tags (tags : list (list Z)) : X bool :=
  match tags with
  | [] => mret true
  | _ =>
      ok ← x_alloc;
      match alloc_printed_tags ok tags with
      | None => mret false
      | Some b => outf (LINE (bytes "tags") b)
      end
  end.

(** An optional line. *)
Definition when (b : bool) (m : X bool) : X bool := if b then m else mret true.

Definition print_vg (vg : volume_group) : X bool :=
  let a := vg_attrs_of vg in
  match id_write_format (va_id a) 4096 with
  | None => mret false
  | Some buffer =>
      outf (LINE (bytes "id") (quoted buffer)) &&>
      outf (LINE (bytes "seqno") (print_int (va_seqno a))) &&>
      (if va_format a is Some name then outf (LINE (bytes "format") (quoted name) ++ bytes " # informational")
       else mret true) &&>
      print_flag_config (vg_status vg) VG_FLAGS &&>
      out_tags (va_tags a) &&>
      when (negb (bool_decide (va_system_id a = []))) (outf (LINE (bytes "system_id") (quoted (va_system_id a)))) &&>
      outsize (vg_extent_size vg) (LINE (bytes "extent_size") (print_int (vg_extent_size vg))) &&>
      outf (LINE (bytes "max_lv") (print_int (vg_max_lv vg))) &&>
      outf (LINE (bytes "max_pv") (print_int (vg_max_pv vg))) &&>
      (if decide (va_alloc a = ALLOC_NORMAL \/ va_alloc a = ALLOC_INHERIT) then mret true else
       outnl &&>
       (d ← deref_x (get_alloc_string (va_alloc a)); outf (LINE (bytes "allocation_policy") (quoted d)))) &&>
      outf (LINE (bytes "metadata_copies") (print_int (va_mda_copies a)))
  end.

Definition get_pv_name_from_uuid (uuid : list Z) : X (option (list Z)) := fun f => Some (f_pv_names f !! uuid, f).

Definition get_pv_name (pv : option nat) : X (option (list Z)) :=
  match pv with
  | None => mret None
  | Some p =>
      v ← rd (T := physical_volume) p;
      match id_write_format (pa_id (pv_attrs_of v)) 64 with
      | None => mret None
      | Some uuid => get_pv_name_from_uuid uuid
      end
  end.

Definition pv_dev_name (v : physical_volume) : list Z := default (bytes "unknown device") (pa_dev (pv_attrs_of v)).

(** One round of the loop of [_print_pvs]. *)
Definition print_pv (vg : volume_group) (p : nat) : X bool :=
  v ← rd (T := physical_volume) p;
  match id_write_format (pa_id (pv_attrs_of v)) 4096 with
  | None => mret false
  | Some buffer =>
      name ← get_pv_name_from_uuid buffer;
      match name with
      | None => mret false
      | Some name =>
          outnl &&>
          out_section name (
          outf (LINE (bytes "id") (quoted buffer)) &&>
          outhint (LINE (bytes "device") (quoted (dm_escape_double_quotes (pv_dev_name v)))) &&>
          outnl &&>
          print_flag_config (pv_status v) PV_FLAGS &&>
          out_tags (pa_tags (pv_attrs_of v)) &&>
          outsize (pv_size v) (LINE (bytes "dev_size") (print_int (pv_size v))) &&>
          outf (LINE (bytes "pe_start") (print_int (pv_pe_start v))) &&>
          outsize (wrap64 (vg_extent_size vg * pv_pe_count v)) (LINE (bytes "pe_count") (print_int (pv_pe_count v))))
      end
  end.

Fixpoint each (f : nat -> X bool) (l : list nat) : X bool :=
  match l with [] => mret true | p :: l => f p &&> each f l end.

Definition print_pvs (vg : volume_group) : X bool :=
  out_section (bytes "physical_volumes") (each (print_pv vg) (vg_pvs vg)).

(** *** LVs *)

(** The line of one area, without RAID. *)
Definition area_line (name : list Z) (offset : Z) (last : bool) : list Z :=
  quoted name ++ bytes ", " ++ print_int offset ++ (if last then [] else [44]).

Definition out_area (seg : lv_segment) (i : Z) : X bool :=
  let last := i =? wrap32 (seg_area_count seg - 1) in
  a ← deref_x (seg_areas seg !! Z.to_nat i);
  match area_type a with
  | AREA_PV =>
      j ← deref_x (if area_u_of a is U_pv (Some j) then Some j else None);
      h ← rd (T := pv_segment) j;
      name ← get_pv_name (peg_pv h);
      if name is Some name then outf (area_line name (peg_pe h) last) else mret false
  | AREA_LV =>
      l ← deref_x (if area_u_of a is U_lv (Some l) le then Some (l, le) else None);
      v ← rd (T := logical_volume) l.1;
      if negb (flag (seg_status seg) RAID) then outf (area_line (lv_name v) l.2 last) else
      if negb (lv_flag RAID_IMAGE v) then mret false else
      m ← deref_x (sa_meta_areas (seg_attrs_of seg) !! Z.to_nat i);
      k ← deref_x (if area_u_of m is U_lv (Some k) _ then Some k else None);
      w ← rd (T := logical_volume) k;
      if negb (lv_flag RAID_META w) then mret false else
      outf (quoted (lv_name w) ++ bytes ", " ++ quoted (lv_name v) ++ (if last then [] else [44]))
  | AREA_UNASSIGNED => mret false
  end.

Fixpoint out_areas_loop (seg : lv_segment) (i : Z) (n : nat) : X bool :=
  match n with O => mret true | S n => out_area seg i &&> out_areas_loop seg (i + 1) n end.

Definition out_areas (seg : lv_segment) (type : list Z) : X bool :=
  outnl &&>
  out_block (type ++ bytes "s = [") (out_areas_loop seg 0 (Z.to_nat (seg_area_count seg))) (bytes "]").

Definition striped_text_export (seg : lv_segment) : X bool :=
  outf (LINE (bytes "stripe_count") (print_int (seg_area_count seg)) ++
        (if seg_area_count seg =? 1 then 9 :: bytes "# linear" else [])) &&>
  when (1 <? seg_area_count seg)
    (outsize (seg_stripe_size seg) (LINE (bytes "stripe_size") (print_int (seg_stripe_size seg)))) &&>
  out_areas seg (bytes "stripe").

(** The [text_export] operations of segment types: striped has one, error and
    zero have none, the others are an argument. *)
Context (other_export : segment_type -> option (lv_segment -> X bool)).

Definition text_export (t : segment_type) : option (lv_segment -> X bool) :=
  if decide (segtype_name t = bytes "striped") then Some striped_text_export
  else if decide (segtype_name t = bytes "error" \/ segtype_name t = bytes "zero") then None
  else other_export t.

Definition print_segment (vg : volume_group) (count : Z) (seg : lv_segment) : X bool :=
  out_section (bytes "segment" ++ print_int count) (
  outf (LINE (bytes "start_extent") (print_int (seg_le seg))) &&>
  outsize (wrap64 (seg_len seg * vg_extent_size vg)) (LINE (bytes "extent_count") (print_int (seg_len seg))) &&>
  outnl &&>
  outf (LINE (bytes "type") (quoted (segtype_name (seg_segtype seg)))) &&>
  out_tags (seg_tags seg) &&>
  (if text_export (seg_segtype seg) is Some export then export seg else mret true)).

Definition DM_READ_AHEAD_AUTO : Z := 2 ^ 32 - 1.
Definition DM_READ_AHEAD_NONE : Z := 0.

Fixpoint print_segments (vg : volume_group) (count : Z) (segs : list nat) : X bool :=
  match segs with
  | [] => mret true
  | q :: segs => (g ← rd (T := lv_segment) q; print_segment vg count g) &&> print_segments vg (count + 1) segs
  end.

Definition print_lv (lv : nat) : X bool :=
  v ← rd (T := logical_volume) lv;
  let a := lv_attrs_of v in
  outnl &&>
  out_section (lv_name v) (
  match id_write_format (la_id a) 4096 with
  | None => mret false
  | Some buffer =>
      outf (LINE (bytes "id") (quoted buffer)) &&>
      print_flag_config (lv_status v) LV_FLAGS &&>
      out_tags (la_tags a) &&>
      when (negb (la_timestamp a =? 0))
        (outf (LINE (bytes "creation_host") (quoted (la_hostname a))) &&>
         outfc (if local_time env (la_timestamp a) is Some t then bytes "# " ++ t else [])
           (LINE (bytes "creation_time") (print_int (la_timestamp a)))) &&>
      (if decide (la_alloc a = ALLOC_INHERIT) then mret true else
       d ← deref_x (get_alloc_string (la_alloc a)); outf (LINE (bytes "allocation_policy") (quoted d))) &&>
      (if la_read_ahead a =? DM_READ_AHEAD_NONE then outfc (bytes "# None") (LINE (bytes "read_ahead") (bytes "-1"))
       else if la_read_ahead a =? DM_READ_AHEAD_AUTO then mret true
       else outf (LINE (bytes "read_ahead") (print_int (la_read_ahead a)))) &&>
      when (0 <=? la_major a) (outf (LINE (bytes "major") (print_int (la_major a)))) &&>
      when (0 <=? la_minor a) (outf (LINE (bytes "minor") (print_int (la_minor a)))) &&>
      outf (LINE (bytes "segment_count") (print_int (Z.of_nat (length (lv_segments v))))) &&>
      outnl &&>
      (x ← rd (T := volume_group) (lv_vg v); print_segments x 1 (lv_segments v))
  end).

(** [lv_is_visible]; a snapshot is as visible as its origin. *)
Fixpoint lv_is_visible (fuel : nat) (lv : nat) : X bool :=
  match fuel with
  | O => wild_x
  | S fuel =>
      v ← rd (T := logical_volume) lv;
      if lv_flag SNAPSHOT v then mret false else
      match la_snapshot (lv_attrs_of v) with
      | Some q =>
          if la_origin_count (lv_attrs_of v) =? 0 then
            g ← rd (T := lv_segment) q;
            o ← deref_x (sa_origin (seg_attrs_of g));
            w ← rd (T := logical_volume) o;
            if lv_flag VIRTUAL_ORIGIN w then mret true
            else if flag (seg_status g) MERGING then mret false
            else lv_is_visible fuel o
          else mret (lv_flag VISIBLE_LV v)
      | None => mret (lv_flag VISIBLE_LV v)
      end
  end.

(** A chain of origins is not longer than there are LVs. *)
Definition visible (lv : nat) : X bool := lv_is_visible (S (size (st_lvs s))) lv.

Definition print_lvs (vg : volume_group) : X bool :=
  if vg_lvs vg is [] then mret true else
  out_section (bytes "logical_volumes") (
  each (fun l => b ← visible l; if b : bool then print_lv l else mret true) (vg_lvs vg) &&>
  each (fun l => b ← visible l; if b : bool then mret true else print_lv l) (vg_lvs vg)).

(** The loop of [_build_pv_names]. *)
Fixpoint build_pv_names_loop (count : Z) (pvs : list nat) : X bool :=
  match pvs with
  | [] => mret true
  | p :: pvs =>
      v ← rd (T := physical_volume) p;
      x_alloc &&>
      x_alloc &&>
      match id_write_format (pa_id (pv_attrs_of v)) 64 with
      | None => mret false
      | Some uuid =>
          x_alloc &&>
          (upd (fun f => set_pv_names (<[uuid := bytes "pv" ++ print_int count]> (f_pv_names f)) f);;
           build_pv_names_loop (count + 1) pvs)
      end
  end.

Definition build_pv_names (vg : volume_group) : X bool :=
  x_alloc &&> x_alloc &&> build_pv_names_loop 0 (vg_pvs vg).

(** [_text_vg_export]; [header] puts the comments at the start. *)
Definition text_vg_export (header : bool) (vg : nat) (desc : list Z) : X bool :=
  x ← rd (T := volume_group) vg;
  build_pv_names x &&>
  when header (print_header desc) &&>
  out_section (vg_name x) (
  print_vg x &&>
  outnl &&>
  print_pvs x &&>
  outnl &&>
  print_lvs x) &&>
  when (negb header) (print_header desc).

End export.

(** [text_vg_export_file]: the result and what the file got. *)
Definition text_vg_export_file (env : export_env) (s : store)
    (other : segment_type -> option (lv_segment -> X bool)) (alloc ferror : list bool) (vg : nat) (desc : list Z) :
    option (bool * list Z) :=
  match (x_alloc &&> text_vg_export file_ops env s other true vg desc &&>
         (err ← x_ferror; mret (negb err))) (Formatter [] 0 0 ∅ alloc ferror) with
  | Some (ok, f) => Some (ok, f_text f)
  | None => None
  end.

(** [text_vg_export_raw]: the part of the buffer that is in use, which ends in a NUL
    (its length is the result); [None] inside is the result 0. *)
Definition text_vg_export_raw (env : export_env) (s : store)
    (other : segment_type -> option (lv_segment -> X bool)) (alloc : list bool) (vg : nat) (desc : list Z) :
    option (option (list Z)) :=
  match (x_alloc &&> x_alloc &&> text_vg_export raw_ops env s other false vg desc)
          (Formatter [] 65536 0 ∅ alloc []) with
  | Some (true, f) => Some (Some (f_text f ++ [0]))
  | Some (false, _) => Some None
  | None => None
  end.

(** [export_vg_to_buffer] *)
Definition export_vg_to_buffer (env : export_env) (s : store)
    (other : segment_type -> option (lv_segment -> X bool)) (alloc : list bool) (vg : nat) : option (option (list Z)) :=
  text_vg_export_raw env s other alloc vg [].
