(* ===== verification/ExportProps.v ===== *)
(** * Exported text denotes the VG's tree

    What the export of a VG writes is read by the configuration parser as a tree
    with the VG's fields; the same for the buffer of a metadata area and for a file
    with indentation and comments. *)

From S2P Require Import Prelude DmString Uuid Config ConfigProps ConfigText Metadata LvManip Flags TextExport.

(** ** Formatters *)

(** No allocation and no write to the file fails, and the indentation is in range. *)
Definition fine (f : formatter) : Prop :=
  (false ∉ f_alloc f) /\ (true ∉ f_ferror f) /\ 0 <= f_indent f.

(** A comment stays on its line. *)
Definition comment_ok (c : option (list Z)) : Prop :=
  match c with
  | None => True
  | Some c => c = [] \/ exists c', c = 35 :: c' /\ Forall (fun x => x <> 10 /\ x <> 0) c'
  end.

(** What the export relies on: a line is written between white space and the end
    of a line, possibly with a comment. *)
Class LineFormatter (ops : formatter_ops) : Prop := {
  out_line comment line f :
    fine f -> f_indent f <= MAX_INDENT -> comment_ok comment ->
    exists f' pre post, out_with_comment ops comment line f = Some (true, f') /\
      f_text f' = f_text f ++ pre ++ line ++ post /\ blank pre /\ line_end post /\ (comment = None -> post = [10]) /\
      fine f' /\ f_indent f' = f_indent f /\ f_pv_names f' = f_pv_names f;
  out_nl f :
    fine f -> exists f', nl ops f = Some (true, f') /\ f_text f' = f_text f ++ [10] /\
      fine f' /\ f_indent f' = f_indent f /\ f_pv_names f' = f_pv_names f }.

Lemma line_end_nl : line_end [10].
Proof. split; [by apply blank_space|]. exists 10, []. split; [done|]. by left. Qed.

Lemma line_end_comment k c : (0 < k)%nat -> comment_ok (Some c) -> line_end ((replicate k 9 ++ c) ++ [10]).
Proof.
  intros Hk Hc. split.
  - rewrite <- app_assoc. apply blank_app; [apply blank_tabs|]. destruct Hc as [->|(c' & -> & Hc)]; [by apply (blank_space 10)|].
    by apply blank_comment.
  - destruct k as [|k]; [lia|]. exists 9. eexists. split; [done|]. unfold delimiter. auto.
Qed.

Lemma x_ferror_fine f : fine f -> exists f', x_ferror f = Some (false, f') /\ fine f' /\
  f_text f' = f_text f /\ f_indent f' = f_indent f /\ f_pv_names f' = f_pv_names f.
Proof.
  intros Hf. pose proof Hf as (H1 & H2 & H3). unfold x_ferror. destruct (f_ferror f) as [|[] l] eqn:E; [by exists f| |].
  - destruct H2. left.
  - eexists. split; [done|]. split; [|done]. split; [done|]. split; [|done]. cbn. intros Hin. apply H2. by right.
Qed.

#[export] Instance file_formatter : LineFormatter file_ops.
Proof.
  split.
  - intros comment line f Hf Hi Hc. destruct (x_ferror_fine f Hf) as (f1 & E & Hf1 & Ht & Hi1 & Hn).
    cbn [out_with_comment file_ops]. unfold out_with_comment_file, mbind, X_bind at 1. rewrite E. unfold asking.
    rewrite Hi1. destruct (Z.ltb_spec MAX_INDENT (f_indent f)); [lia|].
    destruct comment as [c|]; eexists _, (replicate (Z.to_nat (f_indent f)) 9), _;
      (split; [reflexivity|]); cbn [f_text set_text]; rewrite Ht, <- !app_assoc.
    + split; [reflexivity|]. split; [apply blank_tabs|]. split; [|done].
      rewrite app_assoc. apply line_end_comment; [lia|done].
    + split; [done|]. split; [apply blank_tabs|]. split; [apply line_end_nl|done].
  - intros f Hf. eexists. split; [reflexivity|]. done.
Qed.

(** A formatter without a limit: the text a buffer gets when it is large enough. *)
Definition pure_ops : formatter_ops :=
  FormatterOps (fun _ line => emit (line ++ [10]);; mret true) (emit [10];; mret true).

#[export] Instance pure_formatter : LineFormatter pure_ops.
Proof.
  split.
  - intros comment line f Hf Hi Hc. eexists _, [], [10]. split; [reflexivity|]. split; [done|]. split; [done|].
    split; [apply line_end_nl|done].
  - intros f Hf. eexists. split; [reflexivity|]. done.
Qed.

Lemma mapM_app_Some {A B} (f : A -> option B) l k vs :
  mapM f (l ++ k) = Some vs -> exists v1 v2, mapM f l = Some v1 /\ mapM f k = Some v2 /\ vs = v1 ++ v2.
Proof.
  revert vs. induction l as [|a l IH]; intros vs H; cbn [app mapM] in *; [by exists [], vs|].
  destruct (f a) as [b|]; [|done]. cbn in *. destruct (mapM f (l ++ k)) as [ws|]; [|done]. cbn in H.
  destruct (IH ws eq_refl) as (v1 & v2 & -> & -> & ->). apply (inj Some) in H as <-. by exists (b :: v1), v2.
Qed.

(** Identifiers, and their text. *)
Definition id_ok (id : list Z) : Prop := length id = ID_LEN /\ Forall (fun c => c ∈ c_tab) id.
Definition id_text (id : list Z) : list Z := removelast (write_groups id group_size).

Lemma id_write_text id size : 39 <= size -> id_write_format id size = Some (id_text id).
Proof. intros H. unfold id_write_format. by destruct (Z.ltb_spec size (32 + 6 + 1)); [lia|]. Qed.

Lemma id_text_plain id : id_ok id -> plain_text (id_text id).
Proof.
  intros [_ H]. apply removelast_Forall, write_groups_Forall; [lia|]. eapply Forall_impl; [exact H|].
  intros c Hc. cbn in Hc. assert (Forall (fun c => c <> 0 /\ c <> 34 /\ c <> 92) c_tab) as Ht by (by repeat constructor).
  rewrite Forall_forall in Ht. by apply Ht.
Qed.

Lemma int_range i : 0 <= i < 2 ^ 63 -> LLONG_MIN <= i <= LLONG_MAX.
Proof. unfold LLONG_MIN, LLONG_MAX. lia. Qed.

(** ** What actions write *)

Section emits.
Context {F : Type} (strtod : list Z -> option F) (pf : F -> list Z) (behind : list Z).
Context (ops : formatter_ops) {Hops : LineFormatter ops} (env : export_env) (s : store).
Context (N : gmap (list Z) (list Z)).

Abbreviation denotes := (denotes strtod behind).
Abbreviation rhs := (rhs strtod pf behind).
Abbreviation elems := (elems strtod behind).

(** With the PV names [N] and an indentation of at most [d], the action succeeds
    and writes a text that satisfies [P], or a text for the nodes [l]. *)
Definition writes (d : Z) (m : X bool) (P : list Z -> Prop) : Prop :=
  forall f, fine f -> f_indent f <= d -> f_pv_names f = N ->
    exists f' t, m f = Some (true, f') /\ f_text f' = f_text f ++ t /\ P t /\
      fine f' /\ f_indent f' = f_indent f /\ f_pv_names f' = N.

Definition emits (d : Z) (m : X bool) (l : list (cnode F)) : Prop := writes d m (fun t => denotes t l).

Lemma emits_ret d : emits d (mret true) [].
Proof. intros f Hf Hi Hn. exists f, []. rewrite app_nil_r. split; [done|]. split; [done|]. split; [|done]. by apply denotes_blank. Qed.

Lemma writes_then d m1 m2 (P1 P2 P : list Z -> Prop) :
  writes d m1 P1 -> writes d m2 P2 -> (forall a b, P1 a -> P2 b -> P (a ++ b)) -> writes d (m1 &&> m2) P.
Proof.
  intros H1 H2 HP f Hf Hi Hn. destruct (H1 f Hf Hi Hn) as (f1 & t1 & E1 & T1 & D1 & Hf1 & Hi1 & Hn1).
  destruct (H2 f1 Hf1 ltac:(lia) Hn1) as (f2 & t2 & E2 & T2 & D2 & Hf2 & Hi2 & Hn2).
  exists f2, (t1 ++ t2). unfold then_, mbind, X_bind. rewrite E1, E2. split; [done|].
  split; [by rewrite T2, T1, app_assoc|]. split; [by apply HP|]. split; [done|]. split; [congruence|done].
Qed.

Lemma emits_then d m1 l1 m2 l2 : emits d m1 l1 -> emits d m2 l2 -> emits d (m1 &&> m2) (l1 ++ l2).
Proof. intros H1 H2. eapply writes_then; [exact H1|exact H2|]. intros a b. apply denotes_app. Qed.

Lemma emits_skip d m1 m2 l : emits d m1 [] -> emits d m2 l -> emits d (m1 &&> m2) l.
Proof. intros H1 H2. by apply (emits_then d m1 [] m2 l). Qed.

Lemma writes_rd {T} `{Table T} {P} d p x (k : T -> X bool) :
  tbl s !! p = Some x -> writes d (k x) P -> writes d (rd s p ≫= k) P.
Proof. intros Hp Hk f Hf Hi Hn. unfold mbind, X_bind, rd. rewrite Hp. by apply Hk. Qed.

Lemma writes_ask {A P} d (m : X A) a (k : A -> X bool) :
  (forall f, f_pv_names f = N -> m f = Some (a, f)) -> writes d (k a) P -> writes d (m ≫= k) P.
Proof. intros Hm Hk f Hf Hi Hn. unfold mbind, X_bind. rewrite Hm by done. by apply Hk. Qed.

Lemma writes_alloc {P} d (k : bool -> X bool) : writes d (k true) P -> writes d (x_alloc ≫= k) P.
Proof.
  intros Hk f (H1 & H2 & H3) Hi Hn. unfold mbind, X_bind, x_alloc.
  assert (default true (head (f_alloc f)) = true) as ->.
  { destruct (f_alloc f) as [|[] l]; [done..|]. destruct H1. left. }
  apply (Hk (set_alloc (tail (f_alloc f)) f)); [|done|done]. split; [|done]. cbn. intros Hin. apply H1. destruct (f_alloc f); [done|]. by right.
Qed.

(** A line. *)
Lemma writes_line d comment line (P : list Z -> Prop) :
  d <= MAX_INDENT -> comment_ok comment ->
  (forall pre post, blank pre -> line_end post -> (comment = None -> post = [10]) -> P (pre ++ line ++ post)) ->
  writes d (out_with_comment ops comment line) P.
Proof.
  intros Hd Hc H f Hf Hi Hn. destruct (out_line comment line f Hf ltac:(lia) Hc) as
    (f' & pre & post & E & T & Hpre & Hpost & Hnone & Hf' & Hi' & Hn').
  exists f', (pre ++ line ++ post). split; [done|]. split; [done|]. split; [by apply H|]. split; [done|]. split; congruence.
Qed.

Lemma emits_nl d : emits d (outnl ops) [].
Proof.
  intros f Hf Hi Hn. destruct (out_nl f Hf) as (f' & E & T & Hf' & Hi' & Hn'). exists f', [10]. split; [done|].
  split; [done|]. split; [by apply denotes_blank, (blank_space 10)|]. split; [done|]. split; congruence.
Qed.

Lemma emits_leaf d comment key text v :
  d <= MAX_INDENT -> comment_ok comment -> name_ok key -> rhs text v ->
  emits d (out_with_comment ops comment (LINE key text)) [Node key v []].
Proof.
  intros Hd Hc Hk Hr. apply writes_line; [done|done|]. intros pre post Hpre Hpost _. by apply (denotes_leaf strtod pf).
Qed.

(** A line with a comment of its own. *)
Lemma emits_leaf_trail d key text v trail :
  d <= MAX_INDENT -> name_ok key -> rhs text v -> line_end (trail ++ [10]) ->
  emits d (outf ops (LINE key text ++ trail)) [Node key v []].
Proof.
  intros Hd Hk Hr Ht. apply writes_line; [done|done|]. intros pre post Hpre _ Hpost. rewrite (Hpost eq_refl).
  rewrite <- (app_assoc (LINE key text)). by apply (denotes_leaf strtod pf).
Qed.

(** A line that is a comment. *)
Lemma emits_comment d line : d <= MAX_INDENT -> blank (line ++ [10]) -> emits d (outf ops line) [].
Proof.
  intros Hd Hl. apply writes_line; [done|done|]. intros pre post Hpre _ Hpost. rewrite (Hpost eq_refl).
  apply denotes_blank. by apply blank_app.
Qed.

(** A block: the text between two lines, indented. *)
Lemma writes_block d b body e (P Q : list Z -> Prop) :
  d < MAX_INDENT -> writes (d + 1) body P ->
  (forall pre t pre', blank pre -> P t -> blank pre' -> Q (pre ++ b ++ [10] ++ t ++ pre' ++ e ++ [10])) ->
  writes d (out_block ops b body e) Q.
Proof.
  intros Hd Hb HQ f Hf Hi Hn. unfold out_block, outf.
  destruct (out_line None b f Hf ltac:(lia) I) as (f1 & pre & post & E & T & Hpre & _ & Hnone & Hf1 & Hi1 & Hn1).
  rewrite (Hnone eq_refl) in T. unfold then_ at 1, mbind at 1, X_bind at 1. rewrite E.
  set (f2 := set_indent (f_indent f1 + 1) f1).
  assert (fine f2) as Hf2. { destruct Hf1 as (? & ? & ?). split; [done|]. split; [done|]. cbn. lia. }
  destruct (Hb f2) as (f3 & t & E3 & T3 & D3 & Hf3 & Hi3 & Hn3); [done|cbn; lia|cbn; congruence|].
  set (f4 := set_indent (f_indent f1) f3).
  assert (fine f4) as Hf4. { destruct Hf3 as (? & ? & ?). split; [done|]. split; [done|]. cbn. apply Hf1. }
  destruct (out_line None e f4 Hf4) as (f5 & pre' & post' & E5 & T5 & Hpre' & _ & Hnone' & Hf5 & Hi5 & Hn5); [cbn; lia|done|].
  rewrite (Hnone' eq_refl) in T5.
  exists f5, (pre ++ b ++ [10] ++ t ++ pre' ++ e ++ [10]). split.
  { unfold then_, mbind, X_bind, inc_indent, dec_indent, upd. rewrite Z.min_l by lia. fold f2. rewrite E3.
    cbn [f_indent set_indent] in Hi3. unfold f2 in Hi3. cbn in Hi3.
    rewrite (proj2 (Z.eqb_neq (f_indent f3) 0)) by (destruct Hf1 as (_ & _ & ?); lia).
    replace (f_indent f3 - 1) with (f_indent f1) by lia. done. }
  split; [|split; [by apply HQ|]; split; [done|]; split; [cbn in Hi5; congruence|cbn in Hn5; congruence]].
  rewrite T5. cbn [f_text set_indent f4]. rewrite T3. cbn [f_text set_indent f2]. rewrite T. by rewrite <- !app_assoc.
Qed.

Lemma emits_section d key body l :
  d < MAX_INDENT -> name_ok key -> emits (d + 1) body l -> emits d (out_section ops key body) [Node key [] l].
Proof.
  intros Hd Hk Hb. eapply writes_block; [done|exact Hb|]. intros pre t pre' Hpre Ht Hpre'.
  by apply denotes_section; [| |apply (blank_space 10)| | |apply (blank_space 10)].
Qed.

(** *** Right-hand sides *)

Lemma rhs_int i : LLONG_MIN <= i <= LLONG_MAX -> rhs (print_int i) [CfgInt i].
Proof. intros Hi. by apply (rhs_value _ _ _ (CfgInt i)). Qed.

Lemma rhs_escaped str : Forall (fun c => c <> 0) str -> rhs (quoted (dm_escape_double_quotes str)) [CfgString str].
Proof. intros H. by apply (rhs_value _ _ _ (CfgString str)). Qed.

Lemma rhs_string str : plain_text str -> rhs (quoted str) [CfgString str].
Proof.
  intros H. rewrite <- (escape_plain str) at 1 by done. apply rhs_escaped. eapply Forall_impl; [exact H|]. by intros c [? _].
Qed.

Lemma plain_readable str : plain_text str -> readable strtod pf (CfgString str).
Proof. intros H. cbn. eapply Forall_impl; [exact H|]. by intros c [? _]. Qed.

Lemma quoted_value str : plain_text str -> quoted str = value_text pf (CfgString str).
Proof. intros H. cbn. by rewrite escape_plain. Qed.

Lemma elems_join l : Forall plain_text l -> elems (join_text l) (map CfgString l).
Proof.
  intros Hl. destruct Hl as [|a l Ha Hl]; [by apply elems_nil|]. cbn [join_text map].
  assert (forall pre b, blank pre -> plain_text b -> elems (pre ++ quoted b ++ more_text l) (CfgString b :: map CfgString l)) as H.
  { clear a Ha. induction Hl as [|a l Ha Hl IH]; intros pre b Hpre Hb; rewrite quoted_value by done.
    - apply elems_last; [done|by apply plain_readable|by left].
    - cbn [more_text map concat]. change (concat _) with (more_text l). cbn [app].
      apply elems_cons; [done|by apply plain_readable|]. by apply (IH [32]); [apply (blank_space 32)|]. }
  by apply (H []).
Qed.

Lemma rhs_array_of l : Forall plain_text l -> rhs (array_text_of l) (array_values l).
Proof.
  intros Hl. pose proof (rhs_array strtod pf behind _ _ (elems_join l Hl)) as H.
  by destruct l as [|a l].
Qed.

(** ** Trees *)

Definition inode (key : list Z) (i : Z) : cnode F := Node key [CfgInt i] [].
Definition snode (key str : list Z) : cnode F := Node key [CfgString str] [].

Definition flag_nodes (status : Z) (flags : list flag_entry) : list (cnode F) :=
  [Node (bytes "status") (array_values (flag_names flags status STATUS_FLAG)) [];
   Node (bytes "flags") (array_values (flag_names flags status COMPATIBLE_FLAG)) []].

Definition tags_nodes (tags : list (list Z)) : list (cnode F) :=
  match tags with [] => [] | _ => [Node (bytes "tags") (array_values tags) []] end.

Definition opt_nodes (b : bool) (l : list (cnode F)) : list (cnode F) := if b then l else [].

Definition policy_node (p : alloc_policy_t) : cnode F :=
  snode (bytes "allocation_policy") (default [] (get_alloc_string p)).

Definition vg_nodes (x : volume_group) : list (cnode F) :=
  let a := vg_attrs_of x in
  [snode (bytes "id") (id_text (va_id a))] ++ [inode (bytes "seqno") (va_seqno a)] ++
  (if va_format a is Some name then [snode (bytes "format") name] else []) ++
  flag_nodes (vg_status x) vg_flags ++ tags_nodes (va_tags a) ++
  opt_nodes (negb (bool_decide (va_system_id a = []))) [snode (bytes "system_id") (va_system_id a)] ++
  [inode (bytes "extent_size") (vg_extent_size x)] ++ [inode (bytes "max_lv") (vg_max_lv x)] ++
  [inode (bytes "max_pv") (vg_max_pv x)] ++
  opt_nodes (negb (bool_decide (va_alloc a = ALLOC_NORMAL \/ va_alloc a = ALLOC_INHERIT))) [policy_node (va_alloc a)] ++
  [inode (bytes "metadata_copies") (va_mda_copies a)].

Definition pv_nodes (v : physical_volume) : list (cnode F) :=
  [snode (bytes "id") (id_text (pa_id (pv_attrs_of v)))] ++ [snode (bytes "device") (pv_dev_name v)] ++
  flag_nodes (pv_status v) pv_flags ++ tags_nodes (pa_tags (pv_attrs_of v)) ++
  [inode (bytes "dev_size") (pv_size v)] ++ [inode (bytes "pe_start") (pv_pe_start v)] ++
  [inode (bytes "pe_count") (pv_pe_count v)].

(** Segments: the values of an area, and the nodes for each type. *)
Definition area_values (a : lv_segment_area) : option (list (cvalue F)) :=
  match area_type a, area_u_of a with
  | AREA_PV, U_pv (Some j) =>
      h ← st_pegs s !! j; p ← peg_pv h; v ← st_pvs s !! p;
      name ← N !! id_text (pa_id (pv_attrs_of v)); Some [CfgString name; CfgInt (peg_pe h)]
  | AREA_LV, U_lv (Some l) le => v ← st_lvs s !! l; Some [CfgString (lv_name v); CfgInt le]
  | _, _ => None
  end.

Definition stripes_nodes (g : lv_segment) : option (list (cnode F)) :=
  vs ← mapM area_values (seg_areas g);
  Some ([inode (bytes "stripe_count") (seg_area_count g)] ++
        opt_nodes (1 <? seg_area_count g) [inode (bytes "stripe_size") (seg_stripe_size g)] ++
        [Node (bytes "stripes") (concat vs) []]).

Definition type_nodes (g : lv_segment) : option (list (cnode F)) :=
  if decide (segtype_name (seg_segtype g) = bytes "striped") then stripes_nodes g else Some [].

Definition seg_node (count : Z) (g : lv_segment) : option (cnode F) :=
  t ← type_nodes g;
  Some (Node (bytes "segment" ++ print_int count) []
    ([inode (bytes "start_extent") (seg_le g)] ++ [inode (bytes "extent_count") (seg_len g)] ++
     [snode (bytes "type") (segtype_name (seg_segtype g))] ++ tags_nodes (seg_tags g) ++ t)).

Fixpoint seg_nodes (count : Z) (segs : list nat) : option (list (cnode F)) :=
  match segs with
  | [] => Some []
  | q :: segs => g ← st_segs s !! q; n ← seg_node count g; ns ← seg_nodes (count + 1) segs; Some (n :: ns)
  end.

Definition lv_nodes (v : logical_volume) : option (list (cnode F)) :=
  let a := lv_attrs_of v in
  segs ← seg_nodes 1 (lv_segments v);
  Some ([snode (bytes "id") (id_text (la_id a))] ++ flag_nodes (lv_status v) lv_flags ++ tags_nodes (la_tags a) ++
    opt_nodes (negb (la_timestamp a =? 0))
      ([snode (bytes "creation_host") (la_hostname a)] ++ [inode (bytes "creation_time") (la_timestamp a)]) ++
    opt_nodes (negb (bool_decide (la_alloc a = ALLOC_INHERIT))) [policy_node (la_alloc a)] ++
    (if la_read_ahead a =? DM_READ_AHEAD_NONE then [inode (bytes "read_ahead") (-1)]
     else opt_nodes (negb (la_read_ahead a =? DM_READ_AHEAD_AUTO)) [inode (bytes "read_ahead") (la_read_ahead a)]) ++
    opt_nodes (0 <=? la_major a) [inode (bytes "major") (la_major a)] ++
    opt_nodes (0 <=? la_minor a) [inode (bytes "minor") (la_minor a)] ++
    [inode (bytes "segment_count") (Z.of_nat (length (lv_segments v)))] ++ segs).

Definition lv_node (v : logical_volume) : option (cnode F) :=
  l ← lv_nodes v; Some (Node (lv_name v) [] l).

(** ** The pieces of an export *)

Ltac key := lazymatch goal with |- name_ok ?k => exact (proj1 (key_ok_dec k eq_refl)) end.

Lemma emits_int d comment k i :
  d <= MAX_INDENT -> comment_ok comment -> key_ok_b k = true -> 0 <= i < 2 ^ 63 ->
  emits d (out_with_comment ops comment (LINE k (print_int i))) [inode k i].
Proof.
  intros Hd Hc Hk Hi. apply emits_leaf; [done|done| |by apply rhs_int, int_range]. apply (proj1 (key_ok_dec _ Hk)).
Qed.

Lemma emits_str d comment k str :
  d <= MAX_INDENT -> comment_ok comment -> key_ok_b k = true -> plain_text str ->
  emits d (out_with_comment ops comment (LINE k (quoted str))) [snode k str].
Proof. intros Hd Hc Hk Hs. apply emits_leaf; [done|done| |by apply rhs_string]. apply (proj1 (key_ok_dec _ Hk)). Qed.

Lemma emits_flags d status type flags :
  d <= MAX_INDENT -> get_flags type = Some flags -> get_flags (Z.lor type STATUS_FLAG) = Some flags ->
  Z.land type STATUS_FLAG = 0 -> emits d (print_flag_config ops status type) (flag_nodes status flags).
Proof.
  intros Hd H1 H2 H3. unfold print_flag_config. rewrite (print_flags_spec _ _ flags H2), (print_flags_spec _ _ flags H1).
  assert (Z.land (Z.lor type STATUS_FLAG) STATUS_FLAG = STATUS_FLAG) as ->.
  { rewrite Z.land_comm. apply Z.bits_inj'. intros n Hn. rewrite Z.land_spec, Z.lor_spec.
    destruct (Z.testbit STATUS_FLAG n); [by rewrite orb_true_r|done]. }
  rewrite H3. destruct (get_flags_ok _ _ H1) as [Hok _].
  eapply (emits_then _ _ [_] _ [_]); (apply emits_leaf; [done|done|key|]); by apply rhs_array_of, flag_names_plain.
Qed.

Lemma emits_tags d tags : d <= MAX_INDENT -> Forall plain_text tags -> emits d (out_tags ops tags) (tags_nodes tags).
Proof.
  intros Hd Ht. destruct tags as [|t tags]; [apply emits_ret|]. unfold out_tags, tags_nodes. apply writes_alloc.
  rewrite alloc_printed_tags_spec. apply emits_leaf; [done|done|key|]. by apply rhs_array_of.
Qed.

Lemma emits_when d b m l : (b = true -> emits d m l) -> emits d (when b m) (opt_nodes b l).
Proof. destruct b; [intros H; by apply H|intros _; apply emits_ret]. Qed.

(** The texts that the environment supplies stay on their lines. *)
Record env_ok : Prop := {
  eo_units : forall n, exists c, sectors_to_units env n = Some c /\ comment_ok (Some c);
  eo_local : forall t c, local_time env t = Some c -> Forall (fun x => x <> 10 /\ x <> 0) c;
  eo_version : Forall (fun x => x <> 10 /\ x <> 0) (xe_version env);
  eo_ctime : exists c, xe_ctime env = c ++ [10] /\ Forall (fun x => x <> 10 /\ x <> 0) c;
  eo_nodename : plain_text (xe_nodename env);
  eo_uname : Forall (fun x => x <> 10 /\ x <> 0) (xe_uname env);
  eo_time : 0 <= xe_time env < 2 ^ 63 }.
Hypothesis Henv : env_ok.

Lemma emits_size d size k i :
  d <= MAX_INDENT -> key_ok_b k = true -> 0 <= i < 2 ^ 63 ->
  emits d (outsize ops env size (LINE k (print_int i))) [inode k i].
Proof.
  intros Hd Hk Hi. unfold outsize. destruct (eo_units Henv size) as (c & -> & Hc). by apply emits_int.
Qed.

(** The fields of a VG that can be written and read back. *)
Record vg_fields_ok (x : volume_group) : Prop := {
  vf_name : name_ok (vg_name x);
  vf_id : id_ok (va_id (vg_attrs_of x));
  vf_seqno : 0 <= va_seqno (vg_attrs_of x) < 2 ^ 32;
  vf_format : forall name, va_format (vg_attrs_of x) = Some name -> plain_text name;
  vf_tags : Forall plain_text (va_tags (vg_attrs_of x)) /\ NoDup (va_tags (vg_attrs_of x));
  vf_system_id : plain_text (va_system_id (vg_attrs_of x));
  vf_extent_size : 0 < vg_extent_size x < 2 ^ 32;
  vf_max_lv : 0 <= vg_max_lv x < 2 ^ 32;
  vf_max_pv : 0 <= vg_max_pv x < 2 ^ 32;
  vf_alloc : va_alloc (vg_attrs_of x) <> ALLOC_INVALID;
  vf_copies : 0 <= va_mda_copies (vg_attrs_of x) < 2 ^ 32 }.

Lemma policy_text p : p <> ALLOC_INVALID -> exists d, get_alloc_string p = Some d /\ plain_text d.
Proof.
  intros Hp. destruct p; try done; (eexists; split; [reflexivity|]; apply plain_text_dec; vm_compute; reflexivity).
Qed.

Lemma emits_policy d p :
  d <= MAX_INDENT -> p <> ALLOC_INVALID ->
  emits d (d' ← deref_x (get_alloc_string p); outf ops (LINE (bytes "allocation_policy") (quoted d'))) [policy_node p].
Proof.
  intros Hd Hp. destruct (policy_text p Hp) as (t & E & Ht). unfold policy_node. rewrite E. cbn [default].
  apply (writes_ask d (deref_x (Some t)) t); [done|]. by apply emits_str.
Qed.

Lemma trail_ok c : Forall (fun x => x <> 10 /\ x <> 0) c -> line_end ((9 :: 35 :: c) ++ [10]).
Proof. intros Hc. apply (line_end_comment 1 (35 :: c)); [lia|]. right. by exists c. Qed.

Lemma emits_vg x d : d <= MAX_INDENT -> vg_fields_ok x -> emits d (print_vg ops env x) (vg_nodes x).
Proof.
  intros Hd [H1 H2 H3 H4 [H5 _] H6 H7 H8 H9 H10 H11]. unfold print_vg, vg_nodes. rewrite id_write_text by lia.
  apply emits_then; [apply emits_str; [done..|]; by apply id_text_plain|].
  apply emits_then; [apply emits_int; [done..|lia]|].
  apply emits_then.
  { destruct (va_format (vg_attrs_of x)) as [name|] eqn:E; [|apply emits_ret].
    apply emits_leaf_trail; [done|key|by apply rhs_string, H4|]. split; [|exists 32; eexists; split; [done|unfold delimiter; auto]].
    apply (blank_app [32] (35 :: bytes " informational" ++ [10])); [by apply blank_space|]. apply blank_comment. by repeat constructor. }
  apply emits_then; [by apply emits_flags|]. apply emits_then; [by apply emits_tags|].
  apply emits_then; [apply emits_when; intros _; by apply emits_str|].
  apply emits_then; [apply emits_size; [done..|lia]|].
  apply emits_then; [apply emits_int; [done..|lia]|].
  apply emits_then; [apply emits_int; [done..|lia]|].
  apply emits_then; [|apply emits_int; [done..|lia]].
  destruct (decide _) as [Hp|Hp]; [rewrite bool_decide_eq_true_2 by done; apply emits_ret|].
  rewrite bool_decide_eq_false_2 by done. cbn [negb opt_nodes]. apply emits_skip; [apply emits_nl|]. by apply emits_policy.
Qed.

(** The fields of a PV. *)
Record pv_fields_ok (v : physical_volume) : Prop := {
  pf_id : id_ok (pa_id (pv_attrs_of v));
  pf_dev : Forall (fun c => c <> 0) (pv_dev_name v);
  pf_tags : Forall plain_text (pa_tags (pv_attrs_of v)) /\ NoDup (pa_tags (pv_attrs_of v));
  pf_size : 0 <= pv_size v < 2 ^ 63;
  pf_start : 0 <= pv_pe_start v < 2 ^ 63;
  pf_count : 0 <= pv_pe_count v < 2 ^ 32 }.

Definition pv_node (v : physical_volume) : option (cnode F) :=
  name ← N !! id_text (pa_id (pv_attrs_of v)); Some (Node name [] (pv_nodes v)).

Lemma emits_pv x p v name d :
  d < MAX_INDENT -> st_pvs s !! p = Some v -> pv_fields_ok v -> N !! id_text (pa_id (pv_attrs_of v)) = Some name -> name_ok name ->
  emits d (print_pv ops env s x p) [Node name [] (pv_nodes v)].
Proof.
  intros Hd Hp [H1 H2 [H3 _] H4 H5 H6] HN Hname. unfold print_pv. eapply writes_rd; [exact Hp|]. rewrite id_write_text by lia.
  apply (writes_ask d _ (Some name)); [intros f Hf; unfold get_pv_name_from_uuid; by rewrite Hf, HN|].
  apply emits_skip; [apply emits_nl|]. apply emits_section; [done|done|]. unfold pv_nodes.
  assert (d + 1 <= MAX_INDENT) as Hd1 by lia.
  apply emits_then; [apply emits_str; [done..|]; by apply id_text_plain|].
  apply emits_then; [apply emits_leaf; [done| |key|by apply rhs_escaped]|].
  { right. eexists. split; [reflexivity|]. by repeat constructor. }
  apply emits_skip; [apply emits_nl|].
  apply emits_then; [by apply emits_flags|]. apply emits_then; [by apply emits_tags|].
  apply emits_then; [apply emits_size; [done..|lia]|].
  apply emits_then; [apply emits_int; [done..|lia]|apply emits_size; [done..|lia]].
Qed.

Lemma writes_ext {P} d (m m' : X bool) : (forall f, f_pv_names f = N -> m f = m' f) -> writes d m' P -> writes d m P.
Proof. intros E H f Hf Hi Hn. rewrite E by done. by apply H. Qed.

(** *** Segments *)

(** An area with a name and an offset that can be written. *)
Definition area_ok (a : lv_segment_area) : Prop :=
  exists name off, area_values a = Some [CfgString name; CfgInt off] /\ plain_text name /\ 0 <= off < 2 ^ 32.

Lemma out_area_line g i a name off f :
  seg_areas g !! Z.to_nat i = Some a -> area_values a = Some [CfgString name; CfgInt off] ->
  flag (seg_status g) RAID = false -> f_pv_names f = N ->
  out_area ops s g i f = outf ops (area_line name off (i =? wrap32 (seg_area_count g - 1))) f.
Proof.
  intros Ha Hv Hr Hn. unfold out_area, mbind, X_bind. rewrite Ha. cbn [deref_x mret X_ret].
  destruct a as [[] u]; cbn [area_type area_u_of]; unfold area_values in Hv; cbn [area_type area_u_of] in Hv; [done| |].
  - destruct u as [|[j|]|]; try done. unfold deref_x, mret, X_ret, rd. cbn [tbl pegs_table].
    destruct (st_pegs s !! j) as [h|] eqn:Hj; [|done]. cbn in Hv. unfold get_pv_name.
    destruct (peg_pv h) as [p|]; [|done]. cbn in Hv. unfold mbind, X_bind, rd. cbn [tbl pvs_table].
    destruct (st_pvs s !! p) as [v|]; [|done]. cbn in Hv. rewrite id_write_text by lia.
    unfold get_pv_name_from_uuid. rewrite Hn. destruct (N !! _) as [nm|]; [|done]. cbn in Hv. by injection Hv as -> ->.
  - destruct u as [| |[l|] le]; try done. unfold deref_x, mret, X_ret, rd. cbn [tbl lvs_table fst snd].
    destruct (st_lvs s !! l) as [v|]; [|done]. cbn in Hv. rewrite Hr. cbn [negb]. by injection Hv as -> ->.
Qed.

Lemma elems_area pre name off post :
  blank pre -> plain_text name -> 0 <= off < 2 ^ 32 -> line_end post ->
  elems (pre ++ area_line name off true ++ post) [CfgString name; CfgInt off].
Proof.
  intros Hpre Hn Ho Hpost. unfold area_line. rewrite quoted_value by done. rewrite app_nil_r, <- !app_assoc. cbn [app].
  apply elems_cons; [done|by apply plain_readable|].
  apply (elems_last strtod pf behind [32] (CfgInt off)); [by apply blank_space|apply int_range; lia|by right].
Qed.

Lemma elems_area_more pre name off b rest vs :
  blank pre -> plain_text name -> 0 <= off < 2 ^ 32 -> blank b -> elems rest vs ->
  elems (pre ++ area_line name off false ++ b ++ rest) ([CfgString name; CfgInt off] ++ vs).
Proof.
  intros Hpre Hn Ho Hb Hr. unfold area_line. rewrite quoted_value by done. rewrite <- !app_assoc. cbn [app].
  apply elems_cons; [done|by apply plain_readable|].
  apply (elems_cons strtod pf behind [32] (CfgInt off)); [by apply blank_space|apply int_range; lia|]. by apply elems_blank.
Qed.

Lemma areas_written g d k i :
  d <= MAX_INDENT -> flag (seg_status g) RAID = false -> seg_area_count g = Z.of_nat (length (seg_areas g)) ->
  seg_area_count g < 2 ^ 32 -> (i + k = length (seg_areas g))%nat -> Forall area_ok (seg_areas g) ->
  forall vs, mapM area_values (drop i (seg_areas g)) = Some vs ->
  writes d (out_areas_loop ops s g (Z.of_nat i) k) (fun t => forall b, blank b -> elems (t ++ b) (concat vs)).
Proof.
  intros Hd Hr Hc Hmax. revert i. induction k as [|k IH]; intros i Hk Hok vs Hvs.
  { rewrite drop_ge in Hvs by lia. injection Hvs as <-. intros f Hf Hi Hn. exists f, []. rewrite app_nil_r.
    split; [done|]. split; [done|]. split; [|done]. intros b Hb. by apply elems_nil. }
  destruct (lookup_lt_is_Some_2 (seg_areas g) i ltac:(lia)) as [a Ha].
  rewrite (drop_S _ a) in Hvs by done. cbn [mapM] in Hvs.
  destruct (proj1 (Forall_lookup _ _) Hok i a Ha) as (name & off & Hv & Hp & Ho). rewrite Hv in Hvs. cbn in Hvs.
  destruct (mapM area_values (drop (S i) (seg_areas g))) as [ws|] eqn:Ew; [|done]. cbn in Hvs. injection Hvs as <-.
  cbn [out_areas_loop]. replace (Z.of_nat i + 1) with (Z.of_nat (S i)) by lia. specialize (IH (S i) ltac:(lia) Hok ws Ew).
  assert (forall last, (Z.of_nat i =? wrap32 (seg_area_count g - 1)) = last ->
    writes d (out_area ops s g (Z.of_nat i)) (fun t => exists pre, t = pre ++ area_line name off last ++ [10] /\ blank pre)) as Hline.
  { intros last <-. eapply writes_ext; [intros f Hf; apply (out_area_line _ _ a); [by rewrite Nat2Z.id|done..]|].
    apply writes_line; [done|done|]. intros pre post Hpre _ Hpost. rewrite (Hpost eq_refl). by exists pre. }
  rewrite wrap32_small in Hline by lia. destruct k as [|k].
  - rewrite drop_ge in Ew by lia. injection Ew as <-.
    eapply (writes_then d _ _ _ (fun t => t = [])); [apply (Hline true); lia| |].
    + intros f Hf Hi Hn. exists f, []. by rewrite app_nil_r.
    + intros t1 t2 (pre & -> & Hpre) -> b Hb. rewrite app_nil_r, <- !app_assoc. apply elems_area; [done..|].
      split; [by apply blank_app; [apply (blank_space 10)|]|]. exists 10, b. split; [done|]. by left.
  - eapply writes_then; [apply (Hline false); lia|exact IH|]. intros t1 t2 (pre & -> & Hpre) Ht2 b Hb. cbn [concat].
    rewrite <- !app_assoc. apply elems_area_more; [done|done|done|by apply (blank_space 10)|by apply Ht2].
Qed.

Context (other : segment_type -> option (lv_segment -> X bool)).

(** The fields of a segment. *)
Record seg_fields_ok (g : lv_segment) : Prop := {
  sf_le : 0 <= seg_le g < 2 ^ 32;
  sf_len : 0 <= seg_len g < 2 ^ 32;
  sf_stripe_size : 0 <= seg_stripe_size g < 2 ^ 32;
  sf_count : seg_area_count g = Z.of_nat (length (seg_areas g)) /\ 0 <= seg_area_count g < 2 ^ 32;
  sf_raid : flag (seg_status g) RAID = false;
  sf_tags : Forall plain_text (seg_tags g) /\ NoDup (seg_tags g);
  sf_type : segtype_name (seg_segtype g) = bytes "striped" /\ Forall area_ok (seg_areas g) /\ 0 < seg_area_count g \/
            segtype_name (seg_segtype g) = bytes "error" \/ segtype_name (seg_segtype g) = bytes "zero" }.

Lemma mapM_areas l : Forall area_ok l -> exists vs, mapM area_values l = Some vs /\ (l <> [] -> concat vs <> []).
Proof.
  induction 1 as [|a l (name & off & Ha & _) _ (vs & Hvs & _)]; [by exists []|].
  exists ([CfgString name; CfgInt off] :: vs). cbn [mapM]. rewrite Ha, Hvs. done.
Qed.

Lemma emits_stripes g d l :
  d < MAX_INDENT -> seg_fields_ok g -> Forall area_ok (seg_areas g) -> 0 < seg_area_count g -> stripes_nodes g = Some l ->
  emits d (striped_text_export ops env s g) l.
Proof.
  intros Hd [H1 H2 H3 [H4 H4'] H5 _ _] Ha Hpos Hl. unfold stripes_nodes in Hl.
  destruct (mapM_areas _ Ha) as (vs & Hvs & Hne). rewrite Hvs in Hl. cbn [mbind option_bind] in Hl. apply (inj Some) in Hl as <-.
  unfold striped_text_export. apply (emits_then _ _ [inode (bytes "stripe_count") (seg_area_count g)]).
  { destruct (seg_area_count g =? 1); [|rewrite app_nil_r; apply emits_int; [lia|done|done|lia]].
    apply emits_leaf_trail; [lia|key|apply rhs_int, int_range; lia|]. apply (trail_ok (bytes " linear")). by repeat constructor. }
  apply emits_then; [apply emits_when; intros _; apply emits_size; [lia|done|lia]|].
  apply emits_skip; [apply emits_nl|].
  eapply writes_block; [lia|apply (areas_written g (d + 1) (Z.to_nat (seg_area_count g)) 0); [lia|done|done|lia|lia|done|exact Hvs]|].
  intros pre t pre' Hpre Ht Hpre'.
  replace (pre ++ (bytes "stripe" ++ bytes "s = [") ++ [10] ++ t ++ pre' ++ bytes "]" ++ [10])
    with (pre ++ (bytes "stripes" ++ bytes " = " ++ (91 :: ([10] ++ t ++ pre') ++ [93])) ++ [10])
    by (cbn [app bytes]; rewrite <- !app_assoc; done).
  eapply (denotes_leaf strtod pf); [done|key| |apply line_end_nl].
  assert (concat vs <> []) as Hne' by (apply Hne; intros E; rewrite E in H4; cbn in H4; lia).
  replace (concat vs) with (if concat vs is [] then [CfgEmptyArray] else concat vs) by by destruct (concat vs).
  apply rhs_array. apply elems_blank; [by apply (blank_space 10)|]. by apply Ht.
Qed.

Lemma name_number prefix count :
  key_ok_b prefix = true -> 0 <= count < 2 ^ 63 -> name_ok (prefix ++ print_int count).
Proof.
  intros Hp Hc. destruct (key_ok_dec _ Hp) as [(Hf & c & key & -> & Hne) _].
  destruct (print_int_shape count (int_range _ Hc)) as (d & ds & -> & Hd & _ & Hds & _).
  split; [|by exists c, (key ++ d :: ds)]. apply Forall_app. split; [done|]. apply Forall_cons_2.
  - unfold number_start, Prelude.isdigit in Hd. unfold ident_char, isspace. lia.
  - eapply Forall_impl; [exact Hds|]. intros e He. unfold Prelude.isdigit in He. unfold ident_char, isspace. lia.
Qed.

Lemma emits_segment x g count n d :
  d + 1 < MAX_INDENT -> 0 <= count < 2 ^ 63 -> seg_fields_ok g -> seg_node count g = Some n ->
  emits d (print_segment ops env s other x count g) [n].
Proof.
  intros Hd Hcount Hg Hn. pose proof Hg as [H1 H2 H3 H4 H5 [H6 _] H7]. unfold seg_node in Hn.
  destruct (type_nodes g) as [l|] eqn:El; [|done]. cbn [mbind option_bind] in Hn. apply (inj Some) in Hn as <-.
  unfold print_segment. apply emits_section; [lia|by apply name_number|]. assert (d + 1 <= MAX_INDENT) as Hd1 by lia.
  apply emits_then; [apply emits_int; [done..|lia]|]. apply emits_then; [apply emits_size; [done..|lia]|].
  apply emits_skip; [apply emits_nl|].
  assert (plain_text (segtype_name (seg_segtype g))) as Ht.
  { destruct H7 as [[-> _]|[->| ->]]; apply plain_text_dec; reflexivity. }
  apply emits_then; [by apply emits_str|]. apply emits_then; [by apply emits_tags|].
  unfold type_nodes in El. unfold text_export. destruct H7 as [(E & Ha & Hpos)|E].
  - rewrite decide_True in El by done. rewrite decide_True by done. by apply emits_stripes.
  - rewrite decide_False in El by (destruct E as [->| ->]; done). injection El as <-.
    rewrite decide_False by (destruct E as [->| ->]; done). rewrite decide_True by done. apply emits_ret.
Qed.

Lemma emits_segments x segs count l d :
  d + 1 < MAX_INDENT -> 0 <= count -> count + Z.of_nat (length segs) < 2 ^ 63 ->
  (forall q g, q ∈ segs -> st_segs s !! q = Some g -> seg_fields_ok g) -> seg_nodes count segs = Some l ->
  emits d (print_segments ops env s other x count segs) l.
Proof.
  intros Hd. revert count l. induction segs as [|q segs IH]; intros count l Hc0 Hc1 Hok Hl; cbn [seg_nodes length] in *.
  { injection Hl as <-. apply emits_ret. }
  destruct (st_segs s !! q) as [g|] eqn:Hq; [|done]. cbn [mbind option_bind] in Hl.
  destruct (seg_node count g) as [n|] eqn:Hn; [|done]. cbn [mbind option_bind] in Hl.
  destruct (seg_nodes (count + 1) segs) as [ns|] eqn:Hns; [|done]. cbn [mbind option_bind] in Hl. apply (inj Some) in Hl as <-.
  cbn [print_segments]. apply (emits_then _ _ [n]).
  - eapply writes_rd; [exact Hq|]. apply emits_segment; [done|lia| |done]. apply (Hok q g); [left|done].
  - apply IH; [lia|lia| |done]. intros k h Hk. apply Hok. by right.
Qed.

(** The fields of an LV. *)
Record lv_fields_ok (v : logical_volume) : Prop := {
  lf_name : name_ok (lv_name v);
  lf_id : id_ok (la_id (lv_attrs_of v));
  lf_tags : Forall plain_text (la_tags (lv_attrs_of v)) /\ NoDup (la_tags (lv_attrs_of v));
  lf_time : 0 <= la_timestamp (lv_attrs_of v) < 2 ^ 63;
  lf_host : plain_text (la_hostname (lv_attrs_of v));
  lf_alloc : la_alloc (lv_attrs_of v) <> ALLOC_INVALID;
  lf_read_ahead : 0 <= la_read_ahead (lv_attrs_of v) < 2 ^ 32;
  lf_major : la_major (lv_attrs_of v) < 2 ^ 31;
  lf_minor : la_minor (lv_attrs_of v) < 2 ^ 31;
  lf_count : Z.of_nat (length (lv_segments v)) < 2 ^ 31;
  lf_segs : forall q g, q ∈ lv_segments v -> st_segs s !! q = Some g -> seg_fields_ok g }.

Lemma emits_lv lv v x n d :
  d + 2 < MAX_INDENT -> st_lvs s !! lv = Some v -> st_vgs s !! lv_vg v = Some x -> lv_fields_ok v -> lv_node v = Some n ->
  emits d (print_lv ops env s other lv) [n].
Proof.
  intros Hd Hv Hx [H1 H2 [H3 _] H4 H5 H6 H7 H8 H9 H10 H11] Hn. unfold lv_node, lv_nodes in Hn.
  destruct (seg_nodes 1 (lv_segments v)) as [segs|] eqn:Es; [|done]. cbn [mbind option_bind] in Hn. apply (inj Some) in Hn as <-.
  unfold print_lv. eapply writes_rd; [exact Hv|]. apply emits_skip; [apply emits_nl|].
  apply emits_section; [lia|done|]. rewrite id_write_text by lia. assert (d + 1 <= MAX_INDENT) as Hd1 by lia.
  apply emits_then; [apply emits_str; [done..|]; by apply id_text_plain|].
  apply emits_then; [by apply emits_flags|]. apply emits_then; [by apply emits_tags|].
  apply emits_then.
  { apply emits_when. intros _. apply emits_then; [by apply emits_str|]. apply emits_int; [done| |done|lia].
    destruct (local_time env _) as [t|] eqn:Et; [|by left]. right. eexists. split; [reflexivity|].
    apply Forall_cons_2; [done|]. by apply (eo_local Henv) in Et. }
  apply emits_then.
  { destruct (decide _); [rewrite bool_decide_eq_true_2 by done; apply emits_ret|].
    rewrite bool_decide_eq_false_2 by done. by apply emits_policy. }
  apply emits_then.
  { destruct (la_read_ahead _ =? DM_READ_AHEAD_NONE).
    - apply emits_leaf; [done| |key|]; [right; eexists; split; [reflexivity|by repeat constructor]|].
      apply (rhs_int (-1)). unfold LLONG_MIN, LLONG_MAX. lia.
    - destruct (la_read_ahead _ =? DM_READ_AHEAD_AUTO); [apply emits_ret|]. apply emits_int; [done..|lia]. }
  apply emits_then; [apply emits_when; intros ?; apply emits_int; [done..|lia]|].
  apply emits_then; [apply emits_when; intros ?; apply emits_int; [done..|lia]|].
  apply emits_then; [apply emits_int; [done..|lia]|]. apply emits_skip; [apply emits_nl|].
  eapply writes_rd; [exact Hx|]. by apply emits_segments; [lia|lia|lia|..].
Qed.

(** *** Lists of PVs and LVs *)

Lemma emits_each d (f : nat -> X bool) (g : nat -> option (list (cnode F))) l ns :
  (forall p n, p ∈ l -> g p = Some n -> emits d (f p) n) -> mapM g l = Some ns -> emits d (each f l) (concat ns).
Proof.
  revert ns. induction l as [|p l IH]; intros ns Hf Hns; cbn [mapM] in Hns.
  { apply (inj Some) in Hns as <-. apply emits_ret. }
  destruct (g p) as [n|] eqn:Hp; [|done]. cbn in Hns. destruct (mapM g l) as [ns'|] eqn:Hl; [|done]. cbn in Hns.
  apply (inj Some) in Hns as <-. cbn [each concat]. apply emits_then.
  - apply Hf; [left|done].
  - apply IH; [|done]. intros k m Hk. apply Hf. by right.
Qed.

Definition pv_nodes_at (p : nat) : option (list (cnode F)) := v ← st_pvs s !! p; n ← pv_node v; Some [n].
Definition lv_nodes_at (l : nat) : option (list (cnode F)) := v ← st_lvs s !! l; n ← lv_node v; Some [n].

Lemma emits_pvs x d ns :
  d + 1 < MAX_INDENT ->
  (forall p v, p ∈ vg_pvs x -> st_pvs s !! p = Some v -> pv_fields_ok v) -> (forall k name, N !! k = Some name -> name_ok name) ->
  mapM pv_nodes_at (vg_pvs x) = Some ns ->
  emits d (print_pvs ops env s x) [Node (bytes "physical_volumes") [] (concat ns)].
Proof.
  intros Hd Hok HN Hns. unfold print_pvs. apply emits_section; [lia|key|]. eapply emits_each; [|exact Hns].
  intros p n Hp Hn. unfold pv_nodes_at in Hn. destruct (st_pvs s !! p) as [v|] eqn:Hv; [|done]. cbn in Hn.
  unfold pv_node in Hn. destruct (N !! _) as [name|] eqn:Ename; [|done]. cbn in Hn. apply (inj Some) in Hn as <-.
  apply emits_pv; [lia|done|by apply (Hok p v)|done|by apply (HN _ _ Ename)].
Qed.

(** Which LVs are visible. *)
Context (shown : nat -> bool).

(** The visible LVs come first. *)
Definition ordered (lvs : list nat) : list nat := filter (fun l => shown l = true) lvs ++ filter (fun l => shown l = false) lvs.

Definition shown_at (b : bool) (l : nat) : option (list (cnode F)) :=
  if Bool.eqb (shown l) b then lv_nodes_at l else Some [].

Lemma mapM_shown b lvs ns :
  mapM lv_nodes_at (filter (fun l => shown l = b) lvs) = Some ns ->
  exists ms, mapM (shown_at b) lvs = Some ms /\ concat ms = concat ns.
Proof.
  revert ns. induction lvs as [|l lvs IH]; intros ns; [intros [= <-]; by exists []|]. rewrite filter_cons. cbn [mapM].
  destruct (decide (shown l = b)) as [E|E].
  - assert (shown_at b l = lv_nodes_at l) as -> by (unfold shown_at; by rewrite E, eqb_reflx). cbn [mapM]. destruct (lv_nodes_at l) as [n|]; [|done]. cbn. intros Hns.
    destruct (mapM lv_nodes_at _) as [ns'|]; [|done]. cbn in Hns. injection Hns as <-.
    destruct (IH ns' eq_refl) as (ms & -> & Hms). exists (n :: ms). split; [done|]. cbn. by rewrite Hms.
  - assert (shown_at b l = Some []) as -> by (unfold shown_at; by rewrite (proj2 (eqb_false_iff _ _) E)). intros Hns. destruct (IH ns Hns) as (ms & -> & Hms).
    exists ([] :: ms). done.
Qed.

Lemma emits_lvs x d ns :
  d + 3 < MAX_INDENT -> (forall l f, l ∈ vg_lvs x -> visible s l f = Some (shown l, f)) ->
  (forall l v, l ∈ vg_lvs x -> st_lvs s !! l = Some v -> lv_fields_ok v /\ exists y, st_vgs s !! lv_vg v = Some y) ->
  mapM lv_nodes_at (ordered (vg_lvs x)) = Some ns ->
  emits d (print_lvs ops env s other x)
    (match vg_lvs x with [] => [] | _ => [Node (bytes "logical_volumes") [] (concat ns)] end).
Proof.
  intros Hd Hvis Hok Hns. unfold print_lvs. destruct (vg_lvs x) as [|l0 lvs0]; [apply emits_ret|].
  set (lvs := l0 :: lvs0) in *. apply emits_section; [lia|key|]. unfold ordered in Hns.
  apply mapM_app_Some in Hns as (n1 & n2 & H1 & H2 & ->). rewrite concat_app.
  destruct (mapM_shown _ _ _ H1) as (m1 & Hm1 & <-). destruct (mapM_shown _ _ _ H2) as (m2 & Hm2 & <-).
  assert (forall b p n, p ∈ lvs -> shown_at b p = Some n ->
    emits (d + 1) (if Bool.eqb (shown p) b then print_lv ops env s other p else mret true) n) as H.
  { intros b p n Hp Hn. unfold shown_at in Hn. destruct (Bool.eqb _ _); [|apply (inj Some) in Hn as <-; apply emits_ret].
    unfold lv_nodes_at in Hn. destruct (st_lvs s !! p) as [v|] eqn:Hv; [|done]. cbn in Hn.
    destruct (lv_node v) as [n'|] eqn:Hn'; [|done]. cbn in Hn. apply (inj Some) in Hn as <-.
    destruct (Hok p v Hp Hv) as [Hf [y Hy]]. by eapply emits_lv; [lia|..]. }
  apply emits_then.
  - eapply emits_each; [|exact Hm1]. intros p n Hp Hn. apply (writes_ask _ _ (shown p)); [intros f _; by apply Hvis|].
    specialize (H true p n Hp Hn). by destruct (shown p).
  - eapply emits_each; [|exact Hm2]. intros p n Hp Hn. apply (writes_ask _ _ (shown p)); [intros f _; by apply Hvis|].
    specialize (H false p n Hp Hn). by destruct (shown p).
Qed.

(** *** Header and file *)

Definition header_nodes (desc : list Z) : list (cnode F) :=
  [snode (bytes "contents") (bytes "Text Format Volume Group")] ++ [inode (bytes "version") 1] ++
  [snode (bytes "description") desc] ++ [snode (bytes "creation_host") (xe_nodename env)] ++
  [inode (bytes "creation_time") (xe_time env)].

Lemma emits_header desc d : d <= MAX_INDENT -> Forall (fun c => c <> 0) desc -> emits d (print_header ops env desc) (header_nodes desc).
Proof.
  intros Hd Hdesc. pose proof Henv as [_ _ H3 (c & H4 & H4') H5 H6 H7]. unfold print_header, header_nodes. rewrite H4.
  assert (forall b, Forall (fun x => x <> 10 /\ x <> 0) b -> blank ((35 :: b ++ [10]) ++ [10])) as Hb.
  { intros b Hb. apply blank_app; [by apply blank_comment|by apply (blank_space 10)]. }
  apply emits_skip.
  { apply emits_comment; [done|]. set (b := bytes " Generated by LVM2 version " ++ xe_version env ++ bytes ": " ++ c).
    assert ((bytes "# Generated by LVM2 version " ++ xe_version env ++ bytes ": " ++ c ++ [10]) ++ [10]
            = ([35] ++ b ++ [10]) ++ [10]) as ->.
    { unfold b. change (bytes "# Generated by LVM2 version ") with ([35] ++ bytes " Generated by LVM2 version ").
      by rewrite <- !app_assoc. }
    apply Hb. unfold b. repeat (apply Forall_app; split); try done; by repeat constructor. }
  apply emits_then; [apply emits_str; [done..|apply plain_text_dec; reflexivity]|].
  apply emits_then; [apply emits_int; [done..|lia]|]. apply emits_skip; [apply emits_nl|].
  apply emits_then; [apply emits_leaf; [done|done|key|by apply rhs_escaped]|]. apply emits_skip; [apply emits_nl|].
  apply emits_then.
  { apply emits_leaf_trail; [done|key|by apply rhs_string|]. apply (trail_ok (32 :: xe_uname env)). by apply Forall_cons_2. }
  replace ([inode (bytes "creation_time") (xe_time env)]) with ([inode (bytes "creation_time") (xe_time env)] ++ []) by done.
  apply emits_then; [|apply emits_ret].
  apply emits_leaf_trail; [done|key|by apply rhs_int, int_range|]. split.
  - apply (blank_app [9]); [by apply blank_space|]. change (([35; 32] ++ c ++ [10]) ++ [10]) with ((35 :: (32 :: c) ++ [10]) ++ [10]).
    apply (Hb (32 :: c)). by apply Forall_cons_2.
  - exists 9. eexists. split; [reflexivity|]. unfold delimiter. auto.
Qed.

(** The tree of a VG. *)
Definition vg_tree (x : volume_group) : option (cnode F) :=
  pvs ← mapM pv_nodes_at (vg_pvs x); lvs ← mapM lv_nodes_at (ordered (vg_lvs x));
  Some (Node (vg_name x) [] (vg_nodes x ++ [Node (bytes "physical_volumes") [] (concat pvs)] ++
    match vg_lvs x with [] => [] | _ => [Node (bytes "logical_volumes") [] (concat lvs)] end)).

(** A VG all of whose fields can be written and read back. *)
Record exportable (x : volume_group) : Prop := {
  ex_fields : vg_fields_ok x;
  ex_pvs : forall p v, p ∈ vg_pvs x -> st_pvs s !! p = Some v -> pv_fields_ok v;
  ex_lvs : forall l v, l ∈ vg_lvs x -> st_lvs s !! l = Some v -> lv_fields_ok v /\ exists y, st_vgs s !! lv_vg v = Some y;
  ex_shown : forall l f, l ∈ vg_lvs x -> visible s l f = Some (shown l, f);
  ex_names : forall k name, N !! k = Some name -> name_ok name }.

Lemma emits_body x n d :
  d + 4 < MAX_INDENT -> exportable x -> vg_tree x = Some n ->
  emits d (out_section ops (vg_name x) (print_vg ops env x &&> outnl ops &&> print_pvs ops env s x &&> outnl ops &&>
             print_lvs ops env s other x)) [n].
Proof.
  intros Hd [H1 H2 H3 H4 H5] Hn. unfold vg_tree in Hn. destruct (mapM pv_nodes_at _) as [pvs|] eqn:Ep; [|done].
  cbn [mbind option_bind] in Hn. destruct (mapM lv_nodes_at _) as [lvs|] eqn:El; [|done].
  cbn [mbind option_bind] in Hn. apply (inj Some) in Hn as <-. apply emits_section; [lia|apply H1|].
  apply emits_then; [apply emits_vg; [lia|done]|]. apply emits_skip; [apply emits_nl|].
  apply emits_then; [by apply emits_pvs; [lia|..]|]. apply emits_skip; [apply emits_nl|]. by apply emits_lvs; [lia|..].
Qed.
End emits.
