(* ===== verification/ExportMain.v ===== *)
(** * Exporting a VG to a file and to a buffer

    The names of the PVs, the export as a whole, and the buffer of a metadata area:
    when the text fits 2^31 bytes the growing buffer receives what a formatter
    without limit writes. *)

From S2P Require Import Prelude DmString Uuid Config ConfigProps ConfigText Metadata LvManip Flags TextExport ExportProps.

(** ** Names of PVs *)

(** The names that [_build_pv_names] gives: PVs are numbered in the order of the VG. *)
Fixpoint pv_names (s : store) (count : Z) (pvs : list nat) (m : gmap (list Z) (list Z)) : gmap (list Z) (list Z) :=
  match pvs with
  | [] => m
  | p :: pvs =>
      match st_pvs s !! p with
      | Some v => pv_names s (count + 1) pvs (<[id_text (pa_id (pv_attrs_of v)) := bytes "pv" ++ print_int count]> m)
      | None => m
      end
  end.

Definition vg_names (s : store) (x : volume_group) : gmap (list Z) (list Z) := pv_names s 0 (vg_pvs x) ∅.

Lemma x_alloc_fine f : fine f -> exists f', x_alloc f = Some (true, f') /\ fine f' /\
  f_text f' = f_text f /\ f_indent f' = f_indent f /\ f_pv_names f' = f_pv_names f /\ f_size f' = f_size f.
Proof.
  intros (H1 & H2 & H3). unfold x_alloc. eexists. split; [|split].
  - assert (default true (head (f_alloc f)) = true) as ->; [|reflexivity].
    destruct (f_alloc f) as [|[] l]; [done..|]. destruct H1. left.
  - split; [|done]. cbn. intros Hin. apply H1. destruct (f_alloc f); [done|]. by right.
  - done.
Qed.

Lemma then_exec m k f f' : m f = Some (true, f') -> (m &&> k) f = k f'.
Proof. intros E. unfold then_, mbind, X_bind. by rewrite E. Qed.

Lemma build_names_spec s pvs count f :
  (forall p, p ∈ pvs -> is_Some (st_pvs s !! p)) -> fine f ->
  exists f', build_pv_names_loop s count pvs f = Some (true, f') /\ fine f' /\ f_text f' = f_text f /\
    f_indent f' = f_indent f /\ f_size f' = f_size f /\ f_pv_names f' = pv_names s count pvs (f_pv_names f).
Proof.
  revert count f. induction pvs as [|p pvs IH]; intros count f Hp Hf; [by exists f|]. cbn [build_pv_names_loop pv_names].
  destruct (Hp p ltac:(left)) as [v Hv]. rewrite Hv. unfold mbind at 1, X_bind at 1, rd. cbn [tbl pvs_table]. rewrite Hv.
  destruct (x_alloc_fine f Hf) as (f1 & E1 & Hf1 & T1 & I1 & N1 & S1).
  destruct (x_alloc_fine f1 Hf1) as (f2 & E2 & Hf2 & T2 & I2 & N2 & S2).
  destruct (x_alloc_fine f2 Hf2) as (f3 & E3 & Hf3 & T3 & I3 & N3 & S3).
  rewrite (then_exec _ _ _ _ E1), (then_exec _ _ _ _ E2), (id_write_text _ 64) by done.
  rewrite (then_exec _ _ _ _ E3).
  unfold mbind at 1, X_bind at 1, upd. set (f4 := set_pv_names _ f3).
  destruct (IH (count + 1) f4) as (f5 & E5 & Hf5 & T5 & I5 & S5 & N5); [intros q Hq; apply Hp; by right|done|].
  exists f5. split; [done|]. split; [done|]. cbn in T5, I5, S5. split; [congruence|]. split; [congruence|]. split; [congruence|].
  rewrite N5. cbn. by rewrite N3, N2, N1.
Qed.

(** ** The whole text *)

Section export.
Context {F : Type} (strtod : list Z -> option F) (behind : list Z).
Context (env : export_env) (s : store) (other : segment_type -> option (lv_segment -> X bool)).
Context (shown : nat -> bool) (vg : nat) (x : volume_group) (n : cnode F).
Hypothesis Henv : env_ok env.
Hypothesis Hvg : st_vgs s !! vg = Some x.
Hypothesis Hpvs : forall p, p ∈ vg_pvs x -> is_Some (st_pvs s !! p).
Hypothesis Hex : exportable (F := F) s (vg_names s x) shown x.
Hypothesis Htree : vg_tree s (vg_names s x) shown x = Some n.

Lemma export_denotes ops {Hops : LineFormatter ops} (header : bool) desc f :
  Forall (fun c => c <> 0) desc -> fine f -> f_indent f = 0 -> f_pv_names f = ∅ ->
  exists f' t, text_vg_export ops env s other header vg desc f = Some (true, f') /\ f_text f' = f_text f ++ t /\
    fine f' /\ denotes strtod behind t (if header then header_nodes env desc ++ [n] else [n] ++ header_nodes env desc).
Proof.
  intros Hdesc Hf Hi Hn. unfold text_vg_export, mbind at 1, X_bind at 1, rd. cbn [tbl vgs_table]. rewrite Hvg.
  destruct (x_alloc_fine f Hf) as (f1 & E1 & Hf1 & T1 & I1 & N1 & _).
  destruct (x_alloc_fine f1 Hf1) as (f2 & E2 & Hf2 & T2 & I2 & N2 & _).
  destruct (build_names_spec s (vg_pvs x) 0 f2 Hpvs Hf2) as (f3 & E3 & Hf3 & T3 & I3 & _ & N3).
  assert (build_pv_names s x f = Some (true, f3)) as E.
  { unfold build_pv_names. by rewrite (then_exec _ _ _ _ E1), (then_exec _ _ _ _ E2). }
  rewrite (then_exec _ _ _ _ E). set (N := vg_names s x).
  assert (f_pv_names f3 = N) as HN by (rewrite N3, N2, N1, Hn; done).
  pose proof (emits_body (F := F) strtod (fun _ => []) behind ops env s N Henv other shown x n 0 ltac:(done) Hex Htree) as Hbody.
  pose proof (emits_header (F := F) strtod (fun _ => []) behind ops env N Henv desc 0 ltac:(done) Hdesc) as Hhead.
  assert (emits strtod behind N 0 (when header (print_header ops env desc) &&>
    out_section ops (vg_name x) (print_vg ops env x &&> outnl ops &&> print_pvs ops env s x &&> outnl ops &&> print_lvs ops env s other x) &&>
    when (negb header) (print_header ops env desc)) (if header then header_nodes env desc ++ [n] else [n] ++ header_nodes env desc)) as Hall.
  { destruct header; cbn [when negb].
    - apply emits_then; [done|]. apply (emits_then strtod behind N 0 _ [n] _ []); [done|apply emits_ret].
    - apply emits_skip; [apply emits_ret|]. apply emits_then; [done|exact Hhead]. }
  destruct (Hall f3 Hf3 ltac:(lia) HN) as (f4 & t & E4 & T4 & D4 & Hf4 & _). exists f4, t. split; [exact E4|].
  split; [rewrite T4; congruence|]. done.
Qed.
End export.

(** ** The buffer *)

(** The formatter [f] of a buffer and the formatter [g] without limit agree. *)
Record agree (f g : formatter) : Prop := {
  ag_text : f_text f = f_text g;
  ag_indent : f_indent f = f_indent g;
  ag_names : f_pv_names f = f_pv_names g;
  ag_f : fine f;
  ag_g : fine g;
  ag_size : exists k, 0 <= k <= 15 /\ f_size f = 65536 * 2 ^ k;
  ag_room : Z.of_nat (length (f_text f)) < f_size f }.

(** Whatever the second action does within 2^31 bytes, the first does. *)
Definition sim {A} (m1 m2 : X A) : Prop :=
  forall g a g', m2 g = Some (a, g') -> fine g ->
    (length (f_text g) <= length (f_text g'))%nat /\ fine g' /\
    (Z.of_nat (length (f_text g')) + 2 <= 2 ^ 31 -> forall f, agree f g -> exists f', m1 f = Some (a, f') /\ agree f' g').

Lemma sim_ret {A} (a : A) : sim (mret a) (mret a).
Proof. intros g b g' [= <- <-] Hg. split; [done|]. split; [done|]. intros _ f Hf. by exists f. Qed.

Lemma sim_bind {A B} (m1 m2 : X A) (k1 k2 : A -> X B) :
  sim m1 m2 -> (forall a, sim (k1 a) (k2 a)) -> sim (m1 ≫= k1) (m2 ≫= k2).
Proof.
  intros Hm Hk g b g2 E Hg. unfold mbind, X_bind in *. destruct (m2 g) as [[a g1]|] eqn:E1; [|done].
  destruct (Hm g a g1 E1 Hg) as (Hl1 & Hg1 & Hs1). destruct (Hk a g1 b g2 E Hg1) as (Hl2 & Hg2 & Hs2).
  split; [lia|]. split; [done|]. intros Hlen f Hf. destruct (Hs1 ltac:(lia) f Hf) as (f1 & -> & Hf1).
  by apply Hs2.
Qed.

Lemma sim_then (m1 m2 k1 k2 : X bool) : sim m1 m2 -> sim k1 k2 -> sim (m1 &&> k1) (m2 &&> k2).
Proof. intros Hm Hk. apply sim_bind; [done|]. intros []; [done|apply sim_ret]. Qed.

Lemma sim_read {A} (m : X A) :
  (forall f f', agree f f' -> (forall a, m f' = Some (a, f') -> m f = Some (a, f))) ->
  (forall g a g', m g = Some (a, g') -> g' = g) -> sim m m.
Proof.
  intros H1 H2 g a g' E Hg. pose proof (H2 _ _ _ E) as ->. split; [done|]. split; [done|]. intros _ f Hf. exists f.
  split; [by eapply H1|done].
Qed.

Lemma sim_wild {A} : sim (wild_x (A := A)) wild_x.
Proof. by intros g a g'. Qed.

Lemma sim_rd {T} `{Table T} s p : sim (rd (T := T) s p) (rd s p).
Proof.
  apply sim_read.
  - intros f f' _ a. unfold rd. destruct (tbl s !! p); [|done]. by intros [= ->].
  - intros g a g'. unfold rd. destruct (tbl s !! p); [|done]. by intros [= _ ->].
Qed.

Lemma sim_deref {A} (p : option A) : sim (deref_x p) (deref_x p).
Proof. destruct p; [apply sim_ret|apply sim_wild]. Qed.

Lemma sim_name uuid : sim (get_pv_name_from_uuid uuid) (get_pv_name_from_uuid uuid).
Proof.
  apply sim_read; unfold get_pv_name_from_uuid.
  - intros f f' Hf a [= <-]. by rewrite (ag_names _ _ Hf).
  - by intros g a g' [= _ ->].
Qed.

Lemma sim_upd (h : formatter -> formatter) :
  (forall g, fine g -> fine (h g) /\ f_text (h g) = f_text g) -> (forall f g, agree f g -> agree (h f) (h g)) -> sim (upd h) (upd h).
Proof.
  intros H1 H2 g a g' [= <- <-] Hg. destruct (H1 g Hg) as [Hf ->]. split; [done|]. split; [done|].
  intros _ f Hag. exists (h f). split; [done|]. by apply H2.
Qed.

Lemma sim_inc : sim inc_indent inc_indent.
Proof.
  apply sim_upd.
  - intros g (H1 & H2 & H3). split; [|done]. split; [done|]. split; [done|]. cbn. unfold MAX_INDENT. lia.
  - intros f g [H1 H2 H3 (H4 & H4' & H4'') (H5 & H5' & H5'') H6 H7]. split; cbn; try done; [congruence| |];
      (split; [done|]; split; [done|]; cbn; unfold MAX_INDENT; lia).
Qed.

Lemma sim_dec : sim dec_indent dec_indent.
Proof.
  apply sim_upd.
  - intros g (H1 & H2 & H3). split; [|done]. split; [done|]. split; [done|]. cbn. destruct (Z.eqb_spec (f_indent g) 0); lia.
  - intros f g [H1 H2 H3 (H4 & H4' & H4'') (H5 & H5' & H5'') H6 H7]. split; cbn; try done; [by rewrite H2| |];
      (split; [done|]; split; [done|]; cbn; case_match; lia).
Qed.

Lemma sim_names uuid name :
  sim (upd (fun f => set_pv_names (<[uuid := name]> (f_pv_names f)) f)) (upd (fun f => set_pv_names (<[uuid := name]> (f_pv_names f)) f)).
Proof.
  apply sim_upd; [done|]. intros f g [H1 H2 H3 H4 H5 H6 H7]. split; cbn; try done. by rewrite H3.
Qed.

Lemma sim_alloc : sim x_alloc x_alloc.
Proof.
  intros g a g' E Hg. destruct (x_alloc_fine g Hg) as (g1 & E1 & Hg1 & T1 & I1 & N1 & _). rewrite E1 in E. injection E as <- <-.
  split; [by rewrite T1|]. split; [done|]. intros _ f [H1 H2 H3 H4 H5 H6 H7].
  destruct (x_alloc_fine f H4) as (f1 & -> & Hf1 & T2 & I2 & N2 & S2). exists f1. split; [done|].
  split; rewrite ?S2, ?T2; first [done|congruence].
Qed.

(** A line in the buffer. *)
Lemma raw_line fuel line f k :
  fine f -> 0 <= k <= 15 -> f_size f = 65536 * 2 ^ k -> 16 - k < Z.of_nat fuel -> Z.of_nat (length (f_text f)) < f_size f ->
  Z.of_nat (length (f_text f)) + Z.of_nat (length line) + 2 <= 2 ^ 31 ->
  exists f' k', out_with_comment_raw fuel line f = Some (true, f') /\ f_text f' = f_text f ++ line ++ [10] /\ fine f' /\
    f_indent f' = f_indent f /\ f_pv_names f' = f_pv_names f /\ 0 <= k' <= 15 /\ f_size f' = 65536 * 2 ^ k' /\
    Z.of_nat (length (f_text f')) < f_size f'.
Proof.
  revert f k. induction fuel as [|fuel IH]; intros f k Hf Hk Hs Hfuel Hroom Hlen; [lia|]. cbn [out_with_comment_raw].
  unfold asking. destruct (Z.ltb_spec (f_size f) (Z.of_nat (length line) + Z.of_nat (length (f_text f)) + 2)) as [Hlt|Hge].
  - destruct (x_alloc_fine f Hf) as (f1 & E1 & Hf1 & T1 & I1 & N1 & S1).
    assert (k < 15) as Hk15. { destruct (Z.eq_dec k 15) as [->|]; [|lia]. rewrite Hs in Hlt. lia. }
    unfold extend_buffer, mbind, X_bind. rewrite E1. cbn [negb upd mret X_ret]. set (f2 := set_size _ f1).
    assert (f_size f2 = 65536 * 2 ^ (k + 1)) as Hs2.
    { cbn. rewrite S1, Hs, Z.pow_add_r by lia. pose proof (Z.pow_le_mono_r 2 k 14). rewrite wrap32_small by lia. lia. }
    assert (f_size f < f_size f2) as Hgrow. { rewrite Hs, Hs2, Z.pow_add_r by lia. pose proof (Z.pow_pos_nonneg 2 k). lia. }
    destruct (IH f2 (k + 1)) as (f3 & k3 & E3 & T3 & H3); [done|lia|done|lia|cbn [f_text set_size f2]; rewrite T1; cbn in Hgrow |- *; lia
      |cbn [f_text set_size f2]; rewrite T1; lia|]. cbn [f_text f_indent f_pv_names set_size f2] in *.
    exists f3, k3. rewrite T1 in T3. rewrite I1, N1 in H3. done.
  - unfold mbind, X_bind, store_text. destruct (Z.ltb_spec (f_size f) (Z.of_nat (length (f_text f)) + Z.of_nat (length line) + 1)); [lia|].
    unfold nl_raw, asking, mbind, X_bind. cbn [f_size f_text set_text]. rewrite length_app.
    destruct (Z.ltb_spec (f_size f) (Z.of_nat (length (f_text f) + length line) + 2)); [lia|]. cbn [mret X_ret negb].
    unfold store_text. cbn [f_size f_text set_text]. rewrite length_app.
    destruct (Z.ltb_spec (f_size f) (Z.of_nat (length (f_text f) + length line) + Z.of_nat (length [10]) + 1)); [cbn [length] in *; lia|].
    eexists _, k. split; [reflexivity|]. cbn [f_text set_text]. split; [by rewrite app_assoc|]. split; [done|]. split; [done|].
    split; [done|]. split; [done|]. split; [done|]. cbn [f_size set_text]. rewrite !length_app. cbn [length] in *. lia.
Qed.

Lemma sim_out comment line : sim (out_with_comment raw_ops comment line) (out_with_comment pure_ops comment line).
Proof.
  intros g a g' E Hg. cbn in E. injection E as <- <-. cbn [f_text set_text]. split; [rewrite length_app; lia|]. split; [done|].
  rewrite !length_app. intros Hlen f [H1 H2 H3 H4 H5 (k & Hk & Hs) H7].
  destruct (raw_line 17 line f k H4 Hk Hs ltac:(lia) H7) as (f' & k' & E & T & Hf' & I' & N' & Hk' & Hs' & R').
  { rewrite H1. cbn in Hlen. lia. }
  exists f'. split; [done|]. split; cbn; first [done|congruence|by exists k'|by rewrite T, H1, app_assoc].
Qed.

Lemma raw_nl f k :
  fine f -> 0 <= k <= 15 -> f_size f = 65536 * 2 ^ k -> Z.of_nat (length (f_text f)) < f_size f ->
  Z.of_nat (length (f_text f)) + 3 <= 2 ^ 31 ->
  exists f' k', nl_raw f = Some (true, f') /\ f_text f' = f_text f ++ [10] /\ fine f' /\
    f_indent f' = f_indent f /\ f_pv_names f' = f_pv_names f /\ 0 <= k' <= 15 /\ f_size f' = 65536 * 2 ^ k' /\
    Z.of_nat (length (f_text f')) < f_size f'.
Proof.
  intros Hf Hk Hs Hroom Hlen.
  assert (exists f1 k', (if f_size f <? Z.of_nat (length (f_text f)) + 2 then extend_buffer else mret true) f = Some (true, f1) /\
    fine f1 /\ f_text f1 = f_text f /\ f_indent f1 = f_indent f /\ f_pv_names f1 = f_pv_names f /\ 0 <= k' <= 15 /\
    f_size f1 = 65536 * 2 ^ k' /\ Z.of_nat (length (f_text f)) + 2 <= f_size f1) as (f1 & k1 & E1 & Hf1 & T1 & I1 & N1 & Hk1 & Hs1 & R1).
  { destruct (Z.ltb_spec (f_size f) (Z.of_nat (length (f_text f)) + 2)) as [Hlt|]; [|by exists f, k].
    destruct (x_alloc_fine f Hf) as (f1 & E1 & Hf1 & T1 & I1 & N1 & S1).
    assert (k < 15) as Hk15. { destruct (Z.eq_dec k 15) as [->|]; [|lia]. rewrite Hs in Hlt. lia. }
    pose proof (Z.pow_le_mono_r 2 k 14 ltac:(lia) ltac:(lia)). pose proof (Z.pow_pos_nonneg 2 k).
    unfold extend_buffer, mbind, X_bind. rewrite E1. eexists _, (k + 1). split; [reflexivity|]. cbn.
    rewrite S1, Hs, Z.pow_add_r, wrap32_small by lia.
    split; [exact Hf1|]. split; [done|]. split; [done|]. split; [done|]. split; [lia|]. split; [lia|]. rewrite Hs in Hlt. lia. }
  unfold nl_raw, asking, mbind, X_bind. rewrite E1. cbn [negb]. unfold store_text. rewrite T1.
  destruct (Z.ltb_spec (f_size f1) (Z.of_nat (length (f_text f)) + Z.of_nat (length [10]) + 1)); [cbn [length] in *; lia|].
  eexists _, k1. split; [reflexivity|]. cbn [f_text set_text]. split; [done|]. split; [done|]. split; [done|].
  split; [done|]. split; [done|]. split; [done|]. cbn [f_size set_text]. rewrite length_app. cbn [length]. lia.
Qed.

Lemma sim_nl : sim (nl raw_ops) (nl pure_ops).
Proof.
  intros g a g' E Hg. cbn in E. injection E as <- <-. cbn [f_text set_text]. split; [rewrite length_app; lia|]. split; [done|].
  rewrite !length_app. intros Hlen f [H1 H2 H3 H4 H5 (k & Hk & Hs) H7].
  destruct (raw_nl f k H4 Hk Hs H7) as (f' & k' & E & T & Hf' & I' & N' & Hk' & Hs' & R').
  { rewrite H1. cbn in Hlen. lia. }
  exists f'. split; [done|]. split; cbn; first [done|congruence|by exists k'].
Qed.

Ltac sim_step :=
  lazymatch goal with
  | |- sim (mret _) _ => apply sim_ret
  | |- sim (_ &&> _) _ => apply sim_then
  | |- sim (out_with_comment _ _ _) _ => apply sim_out
  | |- sim (nl _) _ => apply sim_nl
  | |- sim (rd _ _) _ => apply sim_rd
  | |- sim (deref_x _) _ => apply sim_deref
  | |- sim (get_pv_name_from_uuid _) _ => apply sim_name
  | |- sim x_alloc _ => apply sim_alloc
  | |- sim inc_indent _ => apply sim_inc
  | |- sim dec_indent _ => apply sim_dec
  | |- sim wild_x _ => apply sim_wild
  | |- sim (upd (fun f => set_pv_names _ f)) _ => apply sim_names
  | |- sim (_ ≫= _) _ => apply sim_bind; [|intros ?]
  | |- sim (match ?b with _ => _ end) _ => destruct b
  end.

Section sim.
Context (env : export_env) (s : store) (other : segment_type -> option (lv_segment -> X bool)).

(** The segment types that are modelled. *)
Definition known_type (g : lv_segment) : Prop :=
  segtype_name (seg_segtype g) ∈ [bytes "striped"; bytes "error"; bytes "zero"].

Lemma sim_size size line : sim (outsize raw_ops env size line) (outsize pure_ops env size line).
Proof. unfold outsize. repeat sim_step. Qed.

Lemma sim_outf line : sim (outf raw_ops line) (outf pure_ops line).
Proof. apply sim_out. Qed.

Lemma sim_outfc comment line : sim (outfc raw_ops comment line) (outfc pure_ops comment line).
Proof. apply sim_out. Qed.

Lemma sim_outhint line : sim (outhint raw_ops line) (outhint pure_ops line).
Proof. apply sim_out. Qed.

Lemma sim_flags status type : sim (print_flag_config raw_ops status type) (print_flag_config pure_ops status type).
Proof. unfold print_flag_config. repeat first [apply sim_outf|sim_step]. Qed.

Lemma sim_tags tags : sim (out_tags raw_ops tags) (out_tags pure_ops tags).
Proof. unfold out_tags. repeat first [apply sim_outf|sim_step]. Qed.

Lemma sim_block b e body body' : sim body body' -> sim (out_block raw_ops b body e) (out_block pure_ops b body' e).
Proof. intros H. unfold out_block. repeat first [exact H|apply sim_outf|sim_step]. Qed.

Ltac sim_all :=
  repeat lazymatch goal with
  | |- sim (outf _ _) _ => apply sim_outf
  | |- sim (outfc _ _ _) _ => apply sim_outfc
  | |- sim (outhint _ _) _ => apply sim_outhint
  | |- sim (outnl _) _ => apply sim_nl
  | |- sim (outsize _ _ _ _) _ => apply sim_size
  | |- sim (print_flag_config _ _ _) _ => apply sim_flags
  | |- sim (out_tags _ _) _ => apply sim_tags
  | |- sim (out_block _ _ _ _) _ => apply sim_block
  | |- sim (out_section _ _ _) _ => apply sim_block
  | |- sim (when ?b _) _ => unfold when
  | |- _ => sim_step
  end.

Lemma sim_header desc : sim (print_header raw_ops env desc) (print_header pure_ops env desc).
Proof. unfold print_header. sim_all. Qed.

Lemma sim_vg x : sim (print_vg raw_ops env x) (print_vg pure_ops env x).
Proof. unfold print_vg. sim_all. Qed.

Lemma sim_each (f f' : nat -> X bool) l : (forall p, p ∈ l -> sim (f p) (f' p)) -> sim (each f l) (each f' l).
Proof.
  induction l as [|p l IH]; intros H; cbn [each]; [apply sim_ret|]. apply sim_then; [apply H; left|].
  apply IH. intros q Hq. apply H. by right.
Qed.

Lemma sim_pvs x : sim (print_pvs raw_ops env s x) (print_pvs pure_ops env s x).
Proof. unfold print_pvs. apply sim_block, sim_each. intros p _. unfold print_pv. sim_all. Qed.

Lemma sim_areas g i n : sim (out_areas_loop raw_ops s g i n) (out_areas_loop pure_ops s g i n).
Proof.
  revert i. induction n as [|n IH]; intros i; cbn [out_areas_loop]; [apply sim_ret|].
  apply sim_then; [|apply IH]. unfold out_area, get_pv_name. sim_all.
Qed.

Lemma sim_stripes g : sim (striped_text_export raw_ops env s g) (striped_text_export pure_ops env s g).
Proof. unfold striped_text_export, out_areas. sim_all. apply sim_areas. Qed.

Lemma sim_segment x count g :
  known_type g -> sim (print_segment raw_ops env s other x count g) (print_segment pure_ops env s other x count g).
Proof.
  unfold known_type. rewrite !elem_of_cons, elem_of_nil. intros Hk. unfold print_segment, text_export.
  destruct (decide (segtype_name (seg_segtype g) = bytes "striped")); [sim_all; apply sim_stripes|].
  rewrite decide_True by naive_solver. sim_all.
Qed.

(** Reading an address that is known. *)
Lemma sim_rd_at {T A} `{Table T} p x (k1 k2 : T -> X A) :
  tbl s !! p = Some x -> sim (k1 x) (k2 x) -> sim (rd s p ≫= k1) (rd s p ≫= k2).
Proof. intros Hp Hk f a f' E. unfold mbind, X_bind, rd in *. rewrite Hp in *. by apply Hk. Qed.

Lemma sim_rd_none {T A} `{Table T} p (k1 k2 : T -> X A) : tbl s !! p = None -> sim (rd s p ≫= k1) (rd s p ≫= k2).
Proof. intros Hp f a f' E. unfold mbind, X_bind, rd in E. by rewrite Hp in E. Qed.

Lemma sim_segments x count segs :
  (forall q g, q ∈ segs -> st_segs s !! q = Some g -> known_type g) ->
  sim (print_segments raw_ops env s other x count segs) (print_segments pure_ops env s other x count segs).
Proof.
  revert count. induction segs as [|q segs IH]; intros count Hk; cbn [print_segments]; [apply sim_ret|].
  apply sim_then; [|apply IH; intros k g Hq; apply Hk; by right].
  destruct (st_segs s !! q) as [g|] eqn:Hq; [|by apply sim_rd_none].
  apply (sim_rd_at q g); [done|]. apply sim_segment, (Hk q g); [left|done].
Qed.

Lemma sim_visible fuel l : sim (lv_is_visible s fuel l) (lv_is_visible s fuel l).
Proof. revert l. induction fuel as [|fuel IH]; intros l; cbn [lv_is_visible]; [apply sim_wild|]. sim_all. apply IH. Qed.

(** The LVs have only segments of these types. *)
Definition known_lv (l : nat) : Prop :=
  forall v q g, st_lvs s !! l = Some v -> q ∈ lv_segments v -> st_segs s !! q = Some g -> known_type g.

Lemma sim_lv l : known_lv l -> sim (print_lv raw_ops env s other l) (print_lv pure_ops env s other l).
Proof.
  intros Hk. unfold print_lv. destruct (st_lvs s !! l) as [v|] eqn:Hv; [|by apply sim_rd_none].
  apply (sim_rd_at l v); [done|]. sim_all. apply sim_segments. intros q g. by apply Hk.
Qed.

Lemma sim_lvs x :
  (forall l, l ∈ vg_lvs x -> known_lv l) -> sim (print_lvs raw_ops env s other x) (print_lvs pure_ops env s other x).
Proof.
  intros Hk. unfold print_lvs. destruct (vg_lvs x) as [|l0 lvs0]; [apply sim_ret|]. apply sim_block.
  apply sim_then; apply sim_each; intros p Hp; (apply sim_bind; [apply sim_visible|]); intros []; try apply sim_ret; by apply sim_lv, Hk.
Qed.

Lemma sim_build count pvs : sim (build_pv_names_loop s count pvs) (build_pv_names_loop s count pvs).
Proof.
  revert count. induction pvs as [|p pvs IH]; intros count; cbn [build_pv_names_loop]; [apply sim_ret|]. sim_all. apply IH.
Qed.

Lemma sim_export header vg x desc :
  st_vgs s !! vg = Some x -> (forall l, l ∈ vg_lvs x -> known_lv l) ->
  sim (text_vg_export raw_ops env s other header vg desc) (text_vg_export pure_ops env s other header vg desc).
Proof.
  intros Hx Hk. unfold text_vg_export. apply (sim_rd_at vg x); [done|]. unfold build_pv_names.
  repeat lazymatch goal with
  | |- sim (build_pv_names_loop _ _ _) _ => apply sim_build
  | |- sim (print_header _ _ _) _ => apply sim_header
  | |- sim (print_vg _ _ _) _ => apply sim_vg
  | |- sim (print_pvs _ _ _ _) _ => apply sim_pvs
  | |- sim (print_lvs _ _ _ _ _) _ => by apply sim_lvs
  | |- _ => progress sim_all
  end.
Qed.
End sim.

(** ** Exported texts *)

Section texts.
Context {F : Type} (strtod : list Z -> option F) (behind : list Z).
Context (env : export_env) (s : store) (other : segment_type -> option (lv_segment -> X bool)).
Context (shown : nat -> bool) (vg : nat) (x : volume_group) (n : cnode F) (desc : list Z).
Hypothesis Henv : env_ok env.
Hypothesis Hvg : st_vgs s !! vg = Some x.
Hypothesis Hpvs : forall p, p ∈ vg_pvs x -> is_Some (st_pvs s !! p).
Hypothesis Hex : exportable (F := F) s (vg_names s x) shown x.
Hypothesis Htree : vg_tree s (vg_names s x) shown x = Some n.
Hypothesis Hdesc : Forall (fun c => c <> 0) desc.

(** The text a formatter without limit writes. *)
Definition pure_text : list Z :=
  match text_vg_export pure_ops env s other false vg desc (Formatter [] 65536 0 ∅ [] []) with
  | Some (_, g) => f_text g
  | None => []
  end.

Lemma known_lvs l : l ∈ vg_lvs x -> known_lv s l.
Proof.
  intros Hl v q g Hv Hq Hg. destruct (ex_lvs _ _ _ _ Hex l v Hl Hv) as [Hf _]. pose proof (sf_type _ _ _ (lf_segs _ _ _ Hf q g Hq Hg)) as Ht.
  unfold known_type. rewrite !elem_of_cons. naive_solver.
Qed.

(** Into a buffer: a text of less than 2^31 bytes is delivered and is read as the
    tree of the VG and of the header behind it. *)
Lemma export_raw_spec alloc :
  false ∉ alloc -> Z.of_nat (length pure_text) + 2 <= 2 ^ 31 ->
  text_vg_export_raw env s other alloc vg desc = Some (Some (pure_text ++ [0])) /\
  dm_config_parse strtod behind (pure_text ++ [0]) = Parsed ([n] ++ header_nodes env desc) (Parser TOK_EOF [] [0]).
Proof.
  intros Ha Hlen. set (g := Formatter [] 65536 0 ∅ [] []).
  assert (fine g) as Hg by (split; [apply not_elem_of_nil|split; [apply not_elem_of_nil|done]]).
  destruct (export_denotes strtod behind env s other shown vg x n Henv Hvg Hpvs Hex Htree pure_ops false desc g Hdesc Hg eq_refl eq_refl)
    as (g' & t & E & T & Hg' & D).
  assert (pure_text = t) as Et by (unfold pure_text; fold g; by rewrite E, T). rewrite Et in *. split; [|by apply denotes_parse_nul].
  destruct (sim_export env s other false vg x desc Hvg known_lvs g true g' E Hg) as (_ & _ & Hsim).
  unfold text_vg_export_raw. set (f0 := Formatter [] 65536 0 ∅ alloc []).
  assert (fine f0) as Hf0 by (split; [done|split; [apply not_elem_of_nil|done]]).
  destruct (x_alloc_fine f0 Hf0) as (f1 & E1 & Hf1 & T1 & I1 & N1 & S1).
  destruct (x_alloc_fine f1 Hf1) as (f2 & E2 & Hf2 & T2 & I2 & N2 & S2).
  rewrite (then_exec _ _ _ _ E1), (then_exec _ _ _ _ E2).
  destruct (Hsim ltac:(by rewrite T) f2) as (f3 & -> & Hag).
  { split; [by rewrite T2, T1|by rewrite I2, I1|by rewrite N2, N1|done|done|exists 0; split; [lia|]; by rewrite S2, S1|]. by rewrite T2, T1, S2, S1. }
  by rewrite (ag_text _ _ Hag), T.
Qed.

(** Into a file, with indentation and comments. *)
Lemma export_file_spec alloc :
  false ∉ alloc ->
  exists t, text_vg_export_file env s other alloc [] vg desc = Some (true, t) /\
    dm_config_parse strtod behind t = Parsed (header_nodes env desc ++ [n]) (Parser TOK_EOF [] []).
Proof.
  intros Ha. unfold text_vg_export_file. set (f0 := Formatter [] 0 0 ∅ alloc []).
  assert (fine f0) as Hf0 by (split; [done|split; [apply not_elem_of_nil|done]]).
  destruct (x_alloc_fine f0 Hf0) as (f1 & E1 & Hf1 & T1 & I1 & N1 & _).
  destruct (export_denotes strtod behind env s other shown vg x n Henv Hvg Hpvs Hex Htree file_ops true desc f1 Hdesc Hf1 I1 N1)
    as (f2 & t & E2 & T2 & Hf2 & D).
  rewrite (then_exec _ _ _ _ E1), (then_exec _ _ _ _ E2).
  destruct (x_ferror_fine f2 Hf2) as (f3 & E3 & _ & T3 & _). exists t. split; [|by apply denotes_parse].
  unfold mbind, X_bind. rewrite E3. cbn. by rewrite T3, T2, T1.
Qed.
End texts.
