(* ===== verification/ExportThms.v ===== *)
(** * What an exported VG reads as

    The text that is written for a VG, into a metadata area or into a file, is read
    by the parser of the configuration library as the tree of the VG. *)

From S2P Require Import Prelude DmString Uuid Config ConfigProps ConfigText Metadata LvManip LvProps Flags TextExport ExportProps ExportMain.

(** The names of the PVs are single tokens. *)
Lemma pv_names_ok s pvs count m k name :
  0 <= count -> count + Z.of_nat (length pvs) < 2 ^ 63 -> (forall k name, m !! k = Some name -> name_ok name) ->
  pv_names s count pvs m !! k = Some name -> name_ok name.
Proof.
  revert count m. induction pvs as [|p pvs IH]; intros count m Hc Hl Hm; cbn [pv_names length] in *; [apply Hm|].
  destruct (st_pvs s !! p) as [v|]; [|apply Hm]. apply IH; [lia|lia|]. intros k' name'.
  destruct (decide (k' = id_text (pa_id (pv_attrs_of v)))) as [->|].
  - rewrite lookup_insert_eq. intros E. apply (inj Some) in E as <-. apply (name_number (F := unit) (fun _ => None) (bytes "pv")); [reflexivity|lia].
  - rewrite lookup_insert_ne by done. apply Hm.
Qed.

Lemma vg_names_ok s x k name :
  Z.of_nat (length (vg_pvs x)) < 2 ^ 63 -> vg_names s x !! k = Some name -> name_ok name.
Proof. intros Hl. apply (pv_names_ok s (vg_pvs x) 0 ∅ k name); [lia|lia|]. intros ? ?. by rewrite lookup_empty. Qed.

(** ** An example *)

(** The VG of LvProps with the fields that describe it: the two PVs have the uuids
    AAA... and BBB..., the LV a creation time, a tag and an allocation policy. *)
Definition xp_id (c : Z) : list Z := replicate 32 c.
Definition xp_pv (base : nat) (c : Z) : physical_volume :=
  PhysicalVolume (Some 1%nat) ALLOCATABLE_PV 100 8 2 10 6 [base + 1; base + 2; base + 3]%nat
    (PvAttrs (xp_id c) (Some (bytes "/dev/sda")) (bytes "vg") (xp_id 67) true 1 []).
Definition xp_lv : logical_volume :=
  LogicalVolume (bytes "lv") 1 0x340 96 12 [1; 2]%nat []
    (LvAttrs (xp_id 67) (xp_id 68) ALLOC_CLING (2 ^ 32 - 1) (-1) (-1) [bytes "t1"] 1300000000 (bytes "host") 0 None).
Definition xp_vg : volume_group :=
  VolumeGroup (bytes "vg") 0x304 8 20 8 2 0 0 [1; 2]%nat [1%nat]
    (VgAttrs (xp_id 67) 7 ALLOC_NORMAL [] [] 0 (Some (bytes "lvm2"))).
Definition xp : store :=
  Store (st_pegs ex) {[1%nat := xp_pv 10 65; 2%nat := xp_pv 20 66]} (st_segs ex) {[1%nat := xp_lv]} {[1%nat := xp_vg]} 100 [] [].
Definition xp_env : export_env :=
  ExportEnv (bytes "2.02.98") 1400000000 (bytes "Tue May 13" ++ [10]) (bytes "node") (bytes "Linux node")
    (fun _ => Some (bytes "# 1 Megabytes")) (fun _ => None).
Definition xp_other : segment_type -> option (lv_segment -> X bool) := fun _ => None.

Lemma xp_env_ok : env_ok xp_env.
Proof.
  split; try done; try (by repeat constructor).
  - intros n. eexists. split; [reflexivity|]. right. eexists. split; [reflexivity|]. by repeat constructor.
  - eexists (bytes "Tue May 13"). split; [reflexivity|]. by repeat constructor.
Qed.

Lemma xp_id_ok c : c ∈ c_tab -> id_ok (xp_id c).
Proof. intros Hc. split; [done|]. by apply Forall_replicate. Qed.

Lemma xp_seg_ok q g : st_segs xp !! q = Some g -> seg_fields_ok (F := unit) xp (vg_names xp xp_vg) g.
Proof.
  intros Hg. assert (q = 1%nat /\ g = ex_seg1 \/ q = 2%nat /\ g = ex_seg2) as [[-> ->]|[-> ->]].
  { change (st_segs xp) with (<[1%nat := ex_seg1]> {[2%nat := ex_seg2]} : gmap nat lv_segment) in Hg.
    apply lookup_insert_Some in Hg as [[<- <-]|[_ Hg]]; [by left|]. apply lookup_singleton_Some in Hg as [<- <-]. by right. }
  all: split; try (cbn; lia); try done; try (split; [by repeat constructor|by constructor]).
  all: left; split; [done|]; split; [|done].
  all: repeat apply Forall_cons_2; try apply Forall_nil_2.
  all: eexists _, _; split; [reflexivity|]; split.
  all: try (apply plain_text_dec; vm_compute; reflexivity); try done.
Qed.

Lemma xp_exportable : exportable (F := unit) xp (vg_names xp xp_vg) (fun _ => true) xp_vg.
Proof.
  assert (forall c, c ∈ [65; 66; 67; 68] -> id_ok (xp_id c)) as Hid.
  { intros c Hc. apply xp_id_ok. repeat (apply elem_of_cons in Hc as [->|Hc]; [vm_compute; repeat constructor|]). by apply elem_of_nil in Hc. }
  split.
  - split; try (cbn; lia); try done; try (by repeat constructor).
    + by apply (key_ok_dec (bytes "vg")).
    + intros name. cbn [va_format xp_vg vg_attrs_of]. intros E. apply (inj Some) in E as <-. by apply plain_text_dec.
  - intros p v Hp Hv. assert (exists b c, v = xp_pv b c /\ (c = 65 \/ c = 66)) as (b & c & -> & Hc).
    { change (st_pvs xp) with (<[1%nat := xp_pv 10 65]> {[2%nat := xp_pv 20 66]} : gmap nat physical_volume) in Hv.
      apply lookup_insert_Some in Hv as [[<- <-]|[_ Hv]]; [by exists 10%nat, 65; auto|].
      apply lookup_singleton_Some in Hv as [<- <-]. exists 20%nat, 66. auto. }
    split; try (cbn; lia); try done; try (by repeat constructor). apply Hid. destruct Hc as [-> | ->]; set_solver.
  - intros l v _ Hv. change (st_lvs xp) with ({[1%nat := xp_lv]} : gmap nat logical_volume) in Hv. apply lookup_singleton_Some in Hv as [<- <-]. split; [|by exists xp_vg].
    split; try (cbn; lia); try done.
    + by apply (key_ok_dec (bytes "lv")).
    + apply Hid. set_solver.
    + split; [apply Forall_cons_2; [by apply plain_text_dec|apply Forall_nil_2]|apply NoDup_singleton].
    + by apply plain_text_dec.
    + intros q g _ Hg. by apply (xp_seg_ok q g).
  - intros l f Hl. apply list_elem_of_singleton in Hl as ->. reflexivity.
  - intros k name. by apply vg_names_ok.
Qed.

Definition xp_tree : cnode unit := default (Node [] [] []) (vg_tree xp (vg_names xp xp_vg) (fun _ => true) xp_vg).

Lemma xp_tree_ok : vg_tree xp (vg_names xp xp_vg) (fun _ => true) xp_vg = Some xp_tree.
Proof. vm_compute. reflexivity. Qed.

Lemma xp_pvs p : p ∈ vg_pvs xp_vg -> is_Some (st_pvs xp !! p).
Proof. intros Hp. repeat (apply elem_of_cons in Hp as [->|Hp]; [by eexists|]). by apply elem_of_nil in Hp. Qed.

(** ** The theorems *)

(** C27: What is written into the metadata areas for a VG is its tree.  When memory
    lasts and the text fits 2^31 bytes, the export of a VG whose fields can be
    written succeeds, although the buffer starts with 64 KiB and is doubled on the
    way, and the parser reads the text up to the NUL that ends it as exactly the VG's section (its fields, the
    PVs with the names pv0, pv1, ..., the visible LVs before the others, each with
    its numbered segments and their areas) and the header fields behind it. *)
Theorem export_raw_parses {F} (strtod : list Z -> option F) behind env s other shown vg x n desc alloc :
  env_ok env -> st_vgs s !! vg = Some x -> (forall p, p ∈ vg_pvs x -> is_Some (st_pvs s !! p)) ->
  exportable (F := F) s (vg_names s x) shown x -> vg_tree s (vg_names s x) shown x = Some n ->
  Forall (fun c => c <> 0) desc -> false ∉ alloc ->
  Z.of_nat (length (pure_text env s other vg desc)) + 2 <= 2 ^ 31 ->
  exists t, text_vg_export_raw env s other alloc vg desc = Some (Some (t ++ [0])) /\
    dm_config_parse strtod behind (t ++ [0]) = Parsed ([n] ++ header_nodes env desc) (Parser TOK_EOF [] [0]).
Proof. intros H1 H2 H3 H4 H5 H6 H7 H8. eexists. by apply (export_raw_spec strtod behind env s other shown vg x n). Qed.

Lemma export_raw_parses_witness :
  exists t, text_vg_export_raw xp_env xp xp_other [] 1 (bytes "test") = Some (Some (t ++ [0])) /\
    dm_config_parse (fun _ => None) [] (t ++ [0]) = Parsed ([xp_tree] ++ header_nodes xp_env (bytes "test")) (Parser TOK_EOF [] [0]).
Proof.
  apply (export_raw_parses (F := unit) (fun _ => None) [] xp_env xp xp_other (fun _ => true) 1 xp_vg xp_tree (bytes "test") []
    xp_env_ok eq_refl xp_pvs xp_exportable xp_tree_ok).
  - by repeat constructor.
  - apply not_elem_of_nil.
  - vm_compute. discriminate.
Defined.

(** The same holds of the file that archives and backups write, with its
    indentation and comments: when memory lasts and no write fails the export
    succeeds, and the parser reads the file as the header fields followed by the
    VG's section.  So both forms of the metadata denote the same VG. *)
Theorem export_file_parses {F} (strtod : list Z -> option F) behind env s other shown vg x n desc alloc :
  env_ok env -> st_vgs s !! vg = Some x -> (forall p, p ∈ vg_pvs x -> is_Some (st_pvs s !! p)) ->
  exportable (F := F) s (vg_names s x) shown x -> vg_tree s (vg_names s x) shown x = Some n ->
  Forall (fun c => c <> 0) desc -> false ∉ alloc ->
  exists t, text_vg_export_file env s other alloc [] vg desc = Some (true, t) /\
    dm_config_parse strtod behind t = Parsed (header_nodes env desc ++ [n]) (Parser TOK_EOF [] []).
Proof. intros H1 H2 H3 H4 H5 H6 H7. by apply (export_file_spec strtod behind env s other shown vg x n). Qed.

Lemma export_file_parses_witness :
  exists t, text_vg_export_file xp_env xp xp_other [] [] 1 (bytes "test") = Some (true, t) /\
    dm_config_parse (fun _ => None) [] t = Parsed (header_nodes xp_env (bytes "test") ++ [xp_tree]) (Parser TOK_EOF [] []).
Proof.
  apply (export_file_parses (F := unit) (fun _ => None) [] xp_env xp xp_other (fun _ => true) 1 xp_vg xp_tree (bytes "test") []
    xp_env_ok eq_refl xp_pvs xp_exportable xp_tree_ok).
  - by repeat constructor.
  - apply not_elem_of_nil.
Defined.
