(* ===== verification/TextImport.v ===== *)
(** * VG metadata from text: lib/format_text/import_vsn1.c

    A volume group is built in the store from a configuration tree: first the VG's
    fields and its PVs, each one free segment, then the LVs by name, then the
    segments of the LVs, whose areas take their extents from the PVs.  The VG of a
    failed import is released; what it left in the store is not looked at again.

    The hash tables of the import are finite maps, which Hash.v justifies.  The
    device cache, the kernel's device sizes, the settings, the table of letters of
    uuid.c and the handlers of layered segment types are arguments. *)

From S2P Require Import Prelude DmString Uuid Config Metadata PvManip LvManip CheckLv Flags TextExport.

Definition SEG_VIRTUAL : Z := 0x20.
Definition SEG_CANNOT_BE_ZEROED : Z := 0x40.
Definition SEG_UNKNOWN : Z := 0x80000000.
Definition DEFAULT_VGMETADATACOPIES : Z := 0.
Definition MIRROR_SYNC_LAYER : list Z := bytes "_mimagetmp".
Definition CONTENTS_FIELD : list Z := bytes "contents".
Definition CONTENTS_VALUE : list Z := bytes "Text Format Volume Group".
Definition FORMAT_VERSION_FIELD : list Z := bytes "version".
Definition FORMAT_VERSION_VALUE : Z := 1.

Definition set_lv_vg (v : nat) (x : logical_volume) : logical_volume :=
  LogicalVolume (lv_name x) v (lv_status x) (lv_size x) (lv_le_count x) (lv_segments x) (lv_users x) (lv_attrs_of x).
Definition set_lv_attrs (f : lv_attrs -> lv_attrs) (x : logical_volume) : logical_volume :=
  LogicalVolume (lv_name x) (lv_vg x) (lv_status x) (lv_size x) (lv_le_count x) (lv_segments x) (lv_users x) (f (lv_attrs_of x)).
Definition set_la_ids (vgid id : list Z) (a : lv_attrs) : lv_attrs :=
  LvAttrs vgid id (la_alloc a) (la_read_ahead a) (la_major a) (la_minor a) (la_tags a) (la_timestamp a) (la_hostname a)
    (la_origin_count a) (la_snapshot a).
Definition set_la_dev (major minor : Z) (a : lv_attrs) : lv_attrs :=
  LvAttrs (la_vgid a) (la_id a) (la_alloc a) (la_read_ahead a) major minor (la_tags a) (la_timestamp a) (la_hostname a)
    (la_origin_count a) (la_snapshot a).
Definition set_la_creation (host : list Z) (time : Z) (a : lv_attrs) : lv_attrs :=
  LvAttrs (la_vgid a) (la_id a) (la_alloc a) (la_read_ahead a) (la_major a) (la_minor a) (la_tags a) time host
    (la_origin_count a) (la_snapshot a).
Definition set_pv_vg (vg : option nat) (x : physical_volume) : physical_volume :=
  PhysicalVolume vg (pv_status x) (pv_size x) (pv_pe_size x) (pv_pe_start x) (pv_pe_count x) (pv_pe_alloc_count x)
    (pv_segments x) (pv_attrs_of x).
Definition set_vg_pvs (pvs : list nat) (count : Z) (x : volume_group) : volume_group :=
  VolumeGroup (vg_name x) (vg_status x) (vg_extent_size x) (vg_extent_count x) (vg_free_count x) count
    (vg_max_pv x) (vg_max_lv x) pvs (vg_lvs x) (vg_attrs_of x).
Definition set_vg_tags (tags : list (list Z)) (x : volume_group) : volume_group :=
  let a := vg_attrs_of x in
  VolumeGroup (vg_name x) (vg_status x) (vg_extent_size x) (vg_extent_count x) (vg_free_count x) (vg_pv_count x)
    (vg_max_pv x) (vg_max_lv x) (vg_pvs x) (vg_lvs x)
    (VgAttrs (va_id a) (va_seqno a) (va_alloc a) (va_system_id a) tags (va_mda_copies a) (va_format a)).

(** [dm_hash_insert]: a new key needs memory. *)
Definition hash_insert (m : gmap (list Z) nat) (key : list Z) (v : nat) : M (option (gmap (list Z) nat)) :=
  ok ← (if m !! key is Some _ then mret true else pool_alloc);
  mret (if ok : bool then Some (<[key := v]> m) else None).

(** [init_unknown_segtype] of lib/unknown/unknown.c *)
Definition init_unknown_segtype (name : list Z) : M (option segment_type) :=
  ok ← pool_alloc;
  mret (if ok : bool then Some (SegmentType name (Z.lor (Z.lor SEG_UNKNOWN SEG_VIRTUAL) SEG_CANNOT_BE_ZEROED)) else None).

(** [get_segtype_from_string] among the registered types. *)
Definition get_segtype_from_string (segtypes : list segment_type) (str : list Z) : M (option segment_type) :=
  match List.find (fun t => bool_decide (segtype_name t = str)) segtypes with
  | Some t => mret (Some t)
  | None => init_unknown_segtype str
  end.

(** ** Structures *)

(** [alloc_vg]: the pool, the structure, its name and the table of host names. *)
Definition alloc_vg (name : list Z) : M (option nat) :=
  ok ← pool_alloc;
  if negb ok then mret None else
  r ← alloc (VolumeGroup name 0 0 0 0 0 0 0 [] [] (VgAttrs [] 0 ALLOC_NORMAL [] [] 0 None));
  match r with
  | None => mret None
  | Some vg =>
      ok ← pool_alloc;
      if negb ok then mret None else
      ok ← pool_alloc;
      mret (if ok : bool then Some vg else None)
  end.

(** [alloc_lv]; the name and the fields that are read before it is linked to its VG
    are given at once. *)
Definition alloc_lv (name : list Z) : M (option nat) :=
  alloc (LogicalVolume name 0 0 0 0 [] [] no_lv_attrs).

Definition link_lv_to_vg (vg lv : nat) : M bool :=
  ok ← pool_alloc;
  if negb ok then mret false else
  modify lv (set_lv_vg vg);;
  modify vg (fun x => set_vg_lvs (vg_lvs x ++ [lv]) x);;
  mret true.

Definition add_pvl_to_vgs (vg pv : nat) : M unit :=
  modify vg (fun x => set_vg_pvs (vg_pvs x ++ [pv]) (wrap32 (vg_pv_count x + 1)) x);;
  modify pv (set_pv_vg (Some vg)).

Definition find_lv (vg : nat) (lv_name : list Z) : M (option nat) := find_lv_in_vg vg lv_name.

(** [lv_set_creation]: the host names known after it; [None] when it returns 0. *)
Definition lv_set_creation (nodename : list Z) (now : Z) (hostnames : list (list Z)) (lv : nat)
    (hostname : option (list Z)) (timestamp : Z) : M (option (list (list Z))) :=
  let hn := default nodename hostname in
  ok ← (if decide (hn ∈ hostnames) then mret true else
        ok ← pool_alloc; if negb ok then mret false else pool_alloc);
  if negb ok then mret None else
  modify lv (set_lv_attrs (set_la_creation hn (if timestamp =? 0 then now else timestamp)));;
  mret (Some (if decide (hn ∈ hostnames) then hostnames else hn :: hostnames)).

(** ** Reading *)

Section import.
Context {F : Type}.
Implicit Types (cn : list (cnode F)) (n : cnode F) (cv : list (cvalue F)) (h : gmap (list Z) nat).

Record import_env := ImportEnv {
  lvmetad_active : bool;
  device_from_pvid : list Z -> option (list Z * Z);
  dev_get_size : list Z -> option Z;
  default_read_ahead : Z;
  ie_segtypes : list segment_type;
  ie_inverse : inverse;
  ie_nodename : list Z;
  ie_now : Z;
  ie_check : check_env;
  other_area_count : segment_type -> option (list (cnode F) -> option Z);
  other_import : segment_type -> option (nat -> list (cnode F) -> gmap (list Z) nat -> M bool) }.
Context (env : import_env).

Definition vsn1_check_version (root : list (cnode F)) : bool :=
  if lvmetad_active env then true else
  match find_config_node root CONTENTS_FIELD with
  | None => false
  | Some n =>
      if negb (match node_v n with CfgString s :: _ => bool_decide (s = CONTENTS_VALUE) | _ => false end) then false else
      match find_config_node root FORMAT_VERSION_FIELD with
      | None => false
      | Some n => match node_v n with CfgInt i :: _ => i =? FORMAT_VERSION_VALUE | _ => false end
      end
  end.

Definition is_converting (lv : nat) : M bool :=
  v ← get (T := logical_volume) lv;
  if negb (lv_flag MIRRORED v) then mret false else
  r ← first_seg lv; q ← deref r;
  a ← area_at q 0;
  if negb (bool_decide (area_type a = AREA_LV)) then mret false else
  l ← area_lv a; l ← deref l.1; w ← get (T := logical_volume) l;
  mret (strstr (lv_name w) MIRROR_SYNC_LAYER).

(** [_read_id]; [None] when it returns 0. *)
Definition read_id cn (path : list Z) : M (option (list Z)) :=
  match dm_config_get_str cn path with
  | None => mret None
  | Some uuid =>
      r ← deref (id_read_format (ie_inverse env) (replicate ID_LEN 0) uuid).1;
      mret (if r.1 : bool then Some r.2 else None)
  end.

Definition read_flag_config cn (type : Z) : M (option Z) :=
  match dm_config_get_list cn (bytes "status") with
  | None => mret None
  | Some cv =>
      r ← deref (read_flags 0 (Z.lor type STATUS_FLAG) cv);
      match r with
      | None => mret None
      | Some status =>
          match dm_config_get_list cn (bytes "flags") with
          | None => mret (Some status)
          | Some cv => deref (read_flags status type cv)
          end
      end
  end.

(** Optional tags. *)
Definition read_opt_tags cn : M (option (list (list Z))) :=
  match dm_config_get_list cn (bytes "tags") with
  | None => mret (Some [])
  | Some cv => read_tags [] cv
  end.

(** *** PVs *)

(** The size of a PV from its section and its device, when it is missing or
    impossibly large. *)
Definition fix_pv_size (dev : option (list Z)) (size : Z) : option Z :=
  match dev with
  | Some d => if (size =? 0) || (2 ^ 62 <? size) then dev_get_size env d else Some size
  | None => Some size
  end.

(** The fields of a PV in the section [cn]. *)
Definition read_pv_fields (vg : nat) cn : M (option physical_volume) :=
  id ← read_id cn (bytes "id");
  match id with
  | None => mret None
  | Some id =>
      let dev := device_from_pvid env id in
      ok ← pool_alloc;
      if negb ok then mret None else
      x ← get (T := volume_group) vg;
      status ← read_flag_config cn PV_FLAGS;
      match status with
      | None => mret None
      | Some status =>
          let status := if (if dev is Some _ then true else false) || lvmetad_active env then status
                        else Z.lor status MISSING_PV in
          match (if dm_config_has_node cn (bytes "dev_size") then dm_config_get_uint64 cn (bytes "dev_size") else Some 0),
                dm_config_get_uint64 cn (bytes "pe_start"), dm_config_get_uint32 cn (bytes "pe_count") with
          | Some size, Some pe_start, Some pe_count =>
              tags ← read_opt_tags cn;
              match tags with
              | None => mret None
              | Some tags =>
                  match fix_pv_size (fst <$> dev) size with
                  | None => mret None
                  | Some size =>
                      mret (Some (PhysicalVolume None status size (vg_extent_size x) pe_start pe_count 0 []
                        (PvAttrs id (fst <$> dev) (vg_name x) (va_id (vg_attrs_of x)) true
                           (default 0 (snd <$> dev)) tags)))
                  end
              end
          | _, _, _ => mret None
          end
      end
  end.

Definition zero_pv : physical_volume := PhysicalVolume None 0 0 0 0 0 0 [] no_pv_attrs.

(** [_read_pv]: the new table of PVs; [None] when it returns 0. *)
Definition read_pv (vg : nat) n h : M (option (gmap (list Z) nat)) :=
  ok ← pool_alloc;
  if negb ok then mret None else
  r ← alloc zero_pv;
  match r with
  | None => mret None
  | Some pv =>
      r ← hash_insert h (node_key n) pv;
      match r with
      | None => mret None
      | Some h =>
          match node_child n with
          | [] => mret None
          | cn =>
              r ← read_pv_fields vg cn;
              match r with
              | None => mret None
              | Some v =>
                  modify pv (fun _ => v);;
                  ok ← alloc_pv_segment_whole_pv pv;
                  if negb ok then mret None else
                  modify vg (fun x => set_vg_extent_count (wrap32 (vg_extent_count x + pv_pe_count v)) x);;
                  modify vg (fun x => set_vg_free_count (wrap32 (vg_free_count x + pv_pe_count v)) x);;
                  add_pvl_to_vgs vg pv;;
                  mret (Some h)
              end
          end
      end
  end.

(** *** Segments *)

Fixpoint insert_segment_loop (segs : list nat) (seg : nat) (le : Z) : M (option (list nat)) :=
  match segs with
  | [] => mret None
  | comp :: segs =>
      g ← get (T := lv_segment) comp;
      if le <? seg_le g then mret (Some (seg :: comp :: segs)) else
      r ← insert_segment_loop segs seg le; mret (cons comp <$> r)
  end.

Definition insert_segment (lv seg : nat) : M unit :=
  v ← get (T := logical_volume) lv;
  g ← get (T := lv_segment) seg;
  r ← insert_segment_loop (lv_segments v) seg (seg_le g);
  match r with
  | Some l => modify lv (set_lv_segments l)
  | None =>
      modify lv (fun v => set_lv_le_count (wrap32 (lv_le_count v + seg_len g)) v);;
      modify lv (fun v => set_lv_segments (lv_segments v ++ [seg]) v)
  end.

(** The loop of [text_import_areas] and the check behind it: [n] areas are left. *)
Fixpoint import_areas_loop (seg : nat) h (status : Z) (s : Z) (n : nat) cv : M bool :=
  match n, cv with
  | O, _ => mret (if cv is [] then true else false)
  | S _, [] => mret false
  | S n, CfgString name :: CfgInt off :: cv =>
      ok ← match h !! name with
           | Some pv => set_lv_segment_area_pv seg s (Some pv) (wrap32 off)
           | None =>
               g ← get (T := lv_segment) seg; v ← get (T := logical_volume) (seg_lv g);
               r ← find_lv (lv_vg v) name;
               match r with
               | Some lv1 => set_lv_segment_area_lv seg s lv1 (wrap32 off) status
               | None => mret false
               end
           end;
      if negb ok then mret false else import_areas_loop seg h status (s + 1) n cv
  | S _, _ => mret false
  end.

Definition text_import_areas (seg : nat) cv h (status : Z) : M bool :=
  g ← get (T := lv_segment) seg;
  if seg_area_count g =? 0 then mret false else
  import_areas_loop seg h status 0 (Z.to_nat (seg_area_count g)) cv.

Definition striped_text_import_area_count cn : option Z := dm_config_get_uint32 cn (bytes "stripe_count").

Definition set_seg_stripe_size (v : Z) (x : lv_segment) : lv_segment :=
  LvSegment (seg_lv x) (seg_segtype x) (seg_le x) (seg_len x) (seg_status x) v
    (seg_area_count x) (seg_area_len x) (seg_log_lv x) (seg_tags x) (seg_areas x) (seg_attrs_of x).

(** The division traps when there are no areas. *)
Definition striped_text_import (seg : nat) cn h : M bool :=
  g ← get (T := lv_segment) seg;
  ok ← (if seg_area_count g =? 1 then mret true else
        match dm_config_get_uint32 cn (bytes "stripe_size") with
        | None => mret false
        | Some size => modify seg (set_seg_stripe_size size);; mret true
        end);
  if negb ok then mret false else
  match dm_config_get_list cn (bytes "stripes") with
  | None => mret false
  | Some cv =>
      (if seg_area_count g =? 0 then wild else
       modify seg (fun g => set_seg_area_len (seg_area_len g / seg_area_count g) g));;
      text_import_areas seg cv h 0
  end.

(** The [text_import_area_count] and [text_import] operations: those of striped
    segments, none for the error and zero targets. *)
Definition text_import_area_count (t : segment_type) : option (list (cnode F) -> option Z) :=
  if decide (segtype_name t = bytes "striped") then Some striped_text_import_area_count
  else if decide (segtype_name t = bytes "error" \/ segtype_name t = bytes "zero") then None
  else other_area_count env t.
Definition text_import (t : segment_type) : option (nat -> list (cnode F) -> gmap (list Z) nat -> M bool) :=
  if decide (segtype_name t = bytes "striped") then Some striped_text_import
  else if decide (segtype_name t = bytes "error" \/ segtype_name t = bytes "zero") then None
  else other_import env t.

(** The flags of an LV that follow from the type of a segment. *)
Definition segment_flags (lv seg : nat) : M unit :=
  g ← get (T := lv_segment) seg;
  (if seg_is_mirrored g then set_status_bits lv MIRRORED else mret tt);;
  (if seg_flag SEG_RAID g then set_status_bits lv RAID else mret tt);;
  (if seg_flag SEG_VIRTUAL g then set_status_bits lv VIRTUAL else mret tt);;
  c ← (if seg_flag SEG_RAID g then mret false else is_converting lv);
  if c : bool then set_status_bits lv CONVERTING else mret tt.

Definition read_segment (lv : nat) (sn : cnode F) h : M bool :=
  match node_child sn with
  | [] => mret false
  | cn =>
      match dm_config_get_uint32 cn (bytes "start_extent"), dm_config_get_uint32 cn (bytes "extent_count"),
            dm_config_get_str cn (bytes "type") with
      | Some start_extent, Some extent_count, Some segtype_str =>
          t ← get_segtype_from_string (ie_segtypes env) segtype_str;
          match t with
          | None => mret false
          | Some t =>
              match (if text_import_area_count t is Some f then f cn else Some 0) with
              | None => mret false
              | Some area_count =>
                  r ← alloc_lv_segment (Some t) lv start_extent extent_count 0 0 None None area_count extent_count 0 0 0 None;
                  match r with
                  | None => mret false
                  | Some seg =>
                      ok ← (if text_import t is Some f then f seg cn h else mret true);
                      if negb ok then mret false else
                      tags ← read_opt_tags cn;
                      match tags with
                      | None => mret false
                      | Some tags =>
                          modify seg (set_seg_tags tags);;
                          insert_segment lv seg;;
                          segment_flags lv seg;;
                          mret true
                      end
                  end
              end
          end
      | _, _, _ => mret false
      end
  end.

(** The loop of [_read_segments]; [None] when it returns 0. *)
Fixpoint read_segments_loop (lv : nat) cn h (count : Z) : M (option Z) :=
  match cn with
  | [] => mret (Some count)
  | sn :: cn =>
      r ← (if node_v sn is [] then
             ok ← read_segment lv sn h; mret (if ok : bool then Some (count + 1) else None)
           else mret (Some count));
      match r with
      | None => mret None
      | Some count =>
          v ← get (T := logical_volume) lv;
          if lv_flag SNAPSHOT v && (1 <? count) then mret None else read_segments_loop lv cn h count
      end
  end.

Definition read_segments (lv : nat) cn h : M bool :=
  r ← read_segments_loop lv cn h 0;
  match r, dm_config_get_uint32 cn (bytes "segment_count") with
  | Some count, Some seg_count =>
      if negb (swrap 32 seg_count =? count) then mret false else
      ok ← check_lv_segments (ie_check env) lv false;
      if negb ok then mret false else lv_merge_segments lv
  | _, _ => mret false
  end.

(** *** LVs *)

(** What is known while LVs are read: the LVs by name and the host names. *)
Definition lv_state : Type := gmap (list Z) nat * list (list Z).

(** The time and host of creation: 0 when there are none; [None] for an error. *)
Definition read_creation cn : option (Z * list Z) :=
  if dm_config_has_node cn (bytes "creation_time") then
    t ← dm_config_get_uint64 cn (bytes "creation_time");
    host ← dm_config_get_str cn (bytes "creation_host");
    Some (t, host)
  else if dm_config_has_node cn (bytes "creation_host") then None
  else Some (0, []).

Definition read_policy cn (dflt : alloc_policy_t) : alloc_policy_t :=
  match dm_config_get_str cn (bytes "allocation_policy") with
  | None => dflt
  | Some str => if decide (get_alloc_from_string str = ALLOC_INVALID) then dflt else get_alloc_from_string str
  end.

Definition read_read_ahead cn : Z :=
  match dm_config_get_uint32 cn (bytes "read_ahead") with
  | None => default_read_ahead env
  | Some r => if r =? 0 then DM_READ_AHEAD_AUTO else if r =? 2 ^ 32 - 1 then DM_READ_AHEAD_NONE else r
  end.

(** [_read_lvnames] *)
Definition read_lvnames (vg : nat) n (a : lv_state) : M (option lv_state) :=
  r ← alloc_lv (node_key n);
  match r with
  | None => mret None
  | Some lv =>
      ok ← pool_alloc;
      if negb ok then mret None else
      match node_child n with
      | [] => mret None
      | cn =>
          status ← read_flag_config cn LV_FLAGS;
          match status, read_creation cn with
          | Some status, Some (timestamp, host) =>
              tags ← read_opt_tags cn;
              match tags with
              | None => mret None
              | Some tags =>
                  modify lv (fun v => set_lv_status status (set_lv_attrs (fun _ =>
                    LvAttrs [] [] (read_policy cn ALLOC_INHERIT) (read_read_ahead cn) 0 0 tags 0 [] 0 None) v));;
                  r ← hash_insert a.1 (node_key n) lv;
                  match r with
                  | None => mret None
                  | Some h =>
                      ok ← link_lv_to_vg vg lv;
                      if negb ok then mret None else
                      if timestamp =? 0 then mret (Some (h, a.2)) else
                      r ← lv_set_creation (ie_nodename env) (ie_now env) a.2 lv (Some host) timestamp;
                      mret (match r with None => None | Some hosts => Some (h, hosts) end)
                  end
              end
          | _, _ => mret None
          end
      end
  end.

(** [_read_lvsegs]; a missing major number is not an error. *)
Definition read_lvsegs (pvs : gmap (list Z) nat) (vg : nat) n (a : lv_state) : M (option lv_state) :=
  match a.1 !! node_key n with
  | None => mret None
  | Some lv =>
      match node_child n with
      | [] => mret None
      | cn =>
          id ← read_id cn (bytes "id");
          match id with
          | None => mret None
          | Some id =>
              v ← get (T := logical_volume) lv; x ← get (T := volume_group) (lv_vg v);
              modify lv (set_lv_attrs (set_la_ids (va_id (vg_attrs_of x)) id));;
              ok ← read_segments lv cn pvs;
              if negb ok then mret None else
              x ← get (T := volume_group) vg;
              modify lv (fun v => set_lv_size (wrap64 (lv_le_count v * vg_extent_size x)) v);;
              v ← get (T := logical_volume) lv;
              if lv_flag FIXED_MINOR v then
                match dm_config_get_uint32 cn (bytes "minor") with
                | None => modify lv (set_lv_attrs (set_la_dev (la_major (lv_attrs_of v)) (-1)));; mret None
                | Some minor =>
                    modify lv (set_lv_attrs (set_la_dev
                      (if dm_config_get_uint32 cn (bytes "major") is Some major then swrap 32 major else -1)
                      (swrap 32 minor)));;
                    mret (Some a)
                end
              else modify lv (set_lv_attrs (set_la_dev (-1) (-1)));; mret (Some a)
          end
      end
  end.

(** *** VGs *)

(** The loop of [_read_sections] and the function. *)
Fixpoint each_node {A} (f : cnode F -> A -> M (option A)) (l : list (cnode F)) (a : A) : M (option A) :=
  match l with
  | [] => mret (Some a)
  | n :: l => r ← f n a; if r is Some a then each_node f l a else mret None
  end.

Definition read_sections {A} (section : list Z) (f : cnode F -> A -> M (option A)) cn (optional : bool) (a : A) :
    M (option A) :=
  match dm_config_get_section cn section with
  | None => mret (if optional then Some a else None)
  | Some n => each_node f (node_child n) a
  end.

(** [fixup_imported_mirrors] of mirror.c *)
Fixpoint fixup_segs (segs : list nat) : M bool :=
  match segs with
  | [] => mret true
  | q :: segs =>
      g ← get (T := lv_segment) q;
      t ← get_segtype_from_string (ie_segtypes env) (bytes "mirror");
      ok ← (if negb (bool_decide (Some (seg_segtype g) = t)) then mret true else
            if seg_log_lv g is Some l then add_seg_to_segs_using_this_lv l q else mret true);
      if negb ok then mret false else fixup_segs segs
  end.

Fixpoint fixup_lvs (lvs : list nat) : M bool :=
  match lvs with
  | [] => mret true
  | l :: lvs =>
      v ← get (T := logical_volume) l;
      ok ← fixup_segs (lv_segments v);
      if negb ok then mret false else fixup_lvs lvs
  end.

Definition fixup_imported_mirrors (vg : nat) : M bool :=
  x ← get (T := volume_group) vg; fixup_lvs (vg_lvs x).

(** The first section, behind any top-level values. *)
Fixpoint skip_values (root : list (cnode F)) : option (cnode F) :=
  match root with
  | [] => None
  | n :: root => if node_v n is [] then Some n else skip_values root
  end.

(** The fields of the VG in its section. *)
Definition read_vg_fields cn (x : volume_group) : M (option volume_group) :=
  let system_id := if dm_config_get_str cn (bytes "system_id") is Some str then take (Z.to_nat NAME_LEN) str else [] in
  id ← read_id cn (bytes "id");
  match id, dm_config_get_uint32 cn (bytes "seqno") with
  | Some id, Some seqno =>
      status ← read_flag_config cn VG_FLAGS;
      match status, dm_config_get_uint32 cn (bytes "extent_size"), dm_config_get_uint32 cn (bytes "max_lv"),
            dm_config_get_uint32 cn (bytes "max_pv") with
      | Some status, Some extent_size, Some max_lv, Some max_pv =>
          mret (Some (VolumeGroup (vg_name x) status extent_size 0 0 0 max_pv max_lv [] []
            (VgAttrs id seqno (read_policy cn ALLOC_NORMAL) system_id []
               (default DEFAULT_VGMETADATACOPIES (dm_config_get_uint32 cn (bytes "metadata_copies"))) None)))
      | _, _, _, _ => mret None
      end
  | _, _ => mret None
  end.

Definition read_vg (root : list (cnode F)) : M (option nat) :=
  match skip_values root with
  | None => mret None
  | Some vgn =>
      r ← alloc_vg (node_key vgn);
      match r with
      | None => mret None
      | Some vg =>
          ok ← pool_alloc; if negb ok then mret None else
          ok ← pool_alloc; if negb ok then mret None else
          ok ← pool_alloc; if negb ok then mret None else
          let cn := node_child vgn in
          x ← get (T := volume_group) vg;
          r ← read_vg_fields cn x;
          match r with
          | None => mret None
          | Some x =>
              modify vg (fun _ => x);;
              r ← read_sections (bytes "physical_volumes") (read_pv vg) cn false ∅;
              match r with
              | None => mret None
              | Some pvs =>
                  tags ← read_opt_tags cn;
                  match tags with
                  | None => mret None
                  | Some tags =>
                      modify vg (set_vg_tags tags);;
                      r ← read_sections (bytes "logical_volumes") (read_lvnames vg) cn true (∅, []);
                      match r with
                      | None => mret None
                      | Some a =>
                          r ← read_sections (bytes "logical_volumes") (read_lvsegs pvs vg) cn true a;
                          match r with
                          | None => mret None
                          | Some _ =>
                              ok ← fixup_imported_mirrors vg;
                              mret (if ok : bool then Some vg else None)
                          end
                      end
                  end
              end
          end
      end
  end.

(** [_read_desc]: description and time. *)
Definition read_desc (root : list (cnode F)) : list Z * Z :=
  (default [] (dm_config_find_str_allow_empty root (bytes "description") (Some [])),
   default 0 (dm_config_get_uint32 root (bytes "creation_time"))).

(** [_read_vgname]: name, id, status and creation host. *)
Definition read_vgname (root : list (cnode F)) : M (option (list Z * list Z * Z * list Z)) :=
  _ ← pool_alloc;
  let host := default [] (dm_config_find_str_allow_empty root (bytes "creation_host") (Some [])) in
  match skip_values root with
  | None => mret None
  | Some vgn =>
      ok ← pool_alloc;
      if negb ok then mret None else
      id ← read_id (node_child vgn) (bytes "id");
      match id with
      | None => mret None
      | Some id =>
          status ← read_flag_config (node_child vgn) VG_FLAGS;
          mret (match status with None => None | Some status => Some (node_key vgn, id, status, host) end)
      end
  end.

(** [text_vg_import_fd] of import.c from the text on: parsing, version, reading. *)
Definition text_vg_import (strtod : list Z -> option F) (behind text : list Z) : M (option (nat * list Z * Z)) :=
  match dm_config_parse strtod behind text with
  | Parsed root _ =>
      if negb (vsn1_check_version root) then mret None else
      r ← read_vg root;
      mret (match r with None => None | Some vg => Some (vg, (read_desc root).1, (read_desc root).2) end)
  | ParseError => mret None
  | Wild | OutOfFuel => wild
  end.
End import.
