(* ===== verification/ImportProps.v ===== *)
(** * Reading back what was written: fields and sections

    The lookups that the import makes in the trees of ExportProps, and what the
    readers of the fields of VGs, PVs and LVs give on them. *)

From S2P Require Import Prelude DmString Uuid Config ConfigProps Metadata PvManip PvSegs LvManip LvSegs CheckLv Flags TextExport ExportProps TextImport.

(** ** Lookups by key *)

Section lookups.
Context {F : Type}.
Implicit Types (cn l : list (cnode F)) (n : cnode F).

Definition segment_b (k : list Z) : bool :=
  match k with [] => false | _ => forallb (fun c => negb (c =? sep)) k end.

Lemma find_key cn k : segment_b k = true -> find_config_node cn k = hunt cn k.
Proof.
  intros Hk. assert (segment k) as Hs.
  { destruct k as [|c k]; [done|]. split; [done|]. unfold segment_b in Hk. rewrite forallb_forall in Hk.
    apply Forall_forall. intros d Hd%list_elem_of_In%Hk. by apply negb_true_iff, Z.eqb_neq in Hd. }
  destruct cn as [|c cn]; [done|]. unfold find_config_node.
  pose proof (find_loop_descends [k] (c :: cn) 0 None (S (length k)) ltac:(by constructor) ltac:(done) ltac:(done) ltac:(cbn; lia)) as H.
  cbn [replicate ConfigProps.join app] in H. rewrite H, hunt_find. cbn [descend].
  by destruct (list_find _ _) as [[]|].
Qed.

Lemma hunt_app l1 l2 k : hunt (l1 ++ l2) k = match hunt l1 k with Some n => Some n | None => hunt l2 k end.
Proof. induction l1 as [|n l1 IH]; [done|]. cbn. by destruct (tok_match _ _). Qed.

Lemma hunt_miss n l k : tok_match (node_key n) k = false -> hunt ([n] ++ l) k = hunt l k.
Proof. intros H. cbn. by rewrite H. Qed.

Lemma hunt_hit n l k : tok_match (node_key n) k = true -> hunt ([n] ++ l) k = Some n.
Proof. intros H. cbn. by rewrite H. Qed.

Lemma hunt_hit1 n k : tok_match (node_key n) k = true -> hunt [n] k = Some n.
Proof. intros H. cbn. by rewrite H. Qed.

Lemma hunt_miss1 n k : tok_match (node_key n) k = false -> hunt [n] k = None.
Proof. intros H. cbn. by rewrite H. Qed.

Lemma hunt_opt_miss b l l' k : hunt l k = None -> hunt (opt_nodes b l ++ l') k = hunt l' k.
Proof. intros H. rewrite hunt_app. destruct b; cbn [opt_nodes]; [by rewrite H|done]. Qed.

Lemma hunt_flags_miss status flags l k :
  tok_match (bytes "status") k = false -> tok_match (bytes "flags") k = false ->
  hunt (flag_nodes status flags ++ l) k = hunt l k.
Proof. intros H1 H2. unfold flag_nodes. rewrite hunt_app. cbn [hunt node_key]. by rewrite H1, H2. Qed.

Lemma hunt_status status flags l :
  hunt (flag_nodes status flags ++ l) (bytes "status") =
    Some (Node (bytes "status") (array_values (flag_names flags status STATUS_FLAG)) []).
Proof. reflexivity. Qed.

Lemma hunt_flags status flags l :
  hunt (flag_nodes status flags ++ l) (bytes "flags") =
    Some (Node (bytes "flags") (array_values (flag_names flags status COMPATIBLE_FLAG)) []).
Proof. reflexivity. Qed.

Lemma hunt_tags_miss tags l k : tok_match (bytes "tags") k = false -> hunt (tags_nodes tags ++ l) k = hunt l k.
Proof. intros H. destruct tags; [done|]. unfold tags_nodes. by apply hunt_miss. Qed.

Lemma hunt_tags tags l : hunt l (bytes "tags") = None ->
  hunt (tags_nodes tags ++ l) (bytes "tags") =
    match tags with [] => None | _ => Some (Node (bytes "tags") (array_values tags) []) end.
Proof. intros H. by destruct tags. Qed.

Lemma hunt_other l k : Forall (fun n => tok_match (node_key n) k = false) l -> hunt l k = None.
Proof. induction 1 as [|n l Hn _ IH]; [done|]. cbn. by rewrite Hn. Qed.
End lookups.

(** Walks to the node with the key. *)
Ltac hunting :=
  repeat first
    [ rewrite hunt_status | rewrite hunt_flags
    | rewrite hunt_flags_miss by reflexivity
    | rewrite hunt_tags_miss by reflexivity
    | rewrite hunt_opt_miss by reflexivity
    | rewrite hunt_hit by reflexivity
    | rewrite hunt_miss by reflexivity
    | rewrite hunt_hit1 by reflexivity
    | rewrite hunt_miss1 by reflexivity ].

(** ** Pieces *)

Section pieces.
Context {F : Type} (env : import_env (F := F)).
Implicit Types (cn l : list (cnode F)).
Hypothesis Hinv : inverse_ok (ie_inverse env).

Lemma id_text_reads id st : inverse_ok st -> id_ok id -> exists st', id_read_format st (replicate ID_LEN 0) (id_text id) = (Some (true, id), st').
Proof.
  intros Hst [Hl Hu].
  assert (nodash (id_text id) = id) as Hn.
  { eapply (id_write_format_nodash id 40); [|exact Hl|by apply id_write_text]. eapply Forall_impl; [exact Hu|].
    intros c Hc. cbn in *. apply c_tab_u8 in Hc; lia. }
  destruct (id_read_format_spec st (replicate ID_LEN 0) (id_text id) Hst ltac:(done)) as (u & st' & _ & Hr & Hlen).
  { apply removelast_Forall, write_groups_Forall; [lia|]. eapply Forall_impl; [exact Hu|]. cbn. intros c Hc. apply c_tab_u8 in Hc. lia. }
  exists st'. rewrite Hr, Hn. rewrite bool_decide_eq_true_2 by done. rewrite Hlen by by rewrite Hn. by rewrite Hn.
Qed.

Lemma read_id_spec cn k id s :
  segment_b k = true -> hunt cn k = Some (snode k (id_text id)) -> id_ok id -> read_id env cn k s = Some (Some id, s).
Proof.
  intros Hk Hh Hid. unfold read_id, dm_config_get_str. rewrite find_key, Hh by done. cbn [fmap option_fmap option_map node_v snode].
  destruct (id_text_reads id _ Hinv Hid) as (st & ->). reflexivity.
Qed.

Lemma get_uint32_spec cn k i :
  segment_b k = true -> hunt cn k = Some (inode k i) -> 0 <= i < 2 ^ 32 -> dm_config_get_uint32 cn k = Some i.
Proof.
  intros Hk Hh Hi. unfold dm_config_get_uint32. rewrite find_key, Hh by done. cbn. by rewrite wrap32_small.
Qed.

Lemma get_uint64_spec cn k i :
  segment_b k = true -> hunt cn k = Some (inode k i) -> 0 <= i < 2 ^ 64 -> dm_config_get_uint64 cn k = Some i.
Proof.
  intros Hk Hh Hi. unfold dm_config_get_uint64. rewrite find_key, Hh by done. cbn. by rewrite wrap64_small.
Qed.

Lemma get_none_spec cn k :
  segment_b k = true -> hunt cn k = None ->
  dm_config_get_uint32 cn k = None /\ dm_config_get_str cn k = None /\ dm_config_get_list cn k = None /\
  dm_config_has_node cn k = false /\ dm_config_get_section cn k = None.
Proof.
  intros Hk Hh. unfold dm_config_get_uint32, dm_config_get_str, dm_config_get_list, dm_config_has_node, dm_config_get_section.
  by rewrite find_key, Hh by done.
Qed.

Lemma get_str_spec cn k str :
  segment_b k = true -> hunt cn k = Some (snode k str) -> dm_config_get_str cn k = Some str.
Proof. intros Hk Hh. unfold dm_config_get_str. by rewrite find_key, Hh by done. Qed.

Lemma array_values_ne tags : exists v vs, array_values (F := F) tags = v :: vs.
Proof. destruct tags; eexists _, _; reflexivity. Qed.

Lemma get_list_spec cn k tags :
  segment_b k = true -> hunt cn k = Some (Node k (array_values tags) []) -> dm_config_get_list cn k = Some (array_values tags).
Proof.
  intros Hk Hh. unfold dm_config_get_list. rewrite find_key, Hh by done. cbn.
  by destruct (array_values_ne tags) as (v & vs & ->).
Qed.

(** The flags that are written and read again. *)
Definition kept (flags : list flag_entry) (status : Z) : Z :=
  Z.land status (Z.lor (exported flags STATUS_FLAG) (exported flags COMPATIBLE_FLAG)).

Lemma read_flag_config_spec cn type flags status s :
  get_flags type = Some flags -> get_flags (Z.lor type STATUS_FLAG) = Some flags ->
  hunt cn (bytes "status") = Some (Node (bytes "status") (array_values (flag_names flags status STATUS_FLAG)) []) ->
  hunt cn (bytes "flags") = Some (Node (bytes "flags") (array_values (flag_names flags status COMPATIBLE_FLAG)) []) ->
  read_flag_config cn type s = Some (Some (kept flags status), s).
Proof.
  intros H1 H2 Hs Hf. unfold read_flag_config. rewrite (get_list_spec cn (bytes "status") _ eq_refl Hs), (get_list_spec cn (bytes "flags") _ eq_refl Hf).
  rewrite (read_flags_spec 0 status _ flags STATUS_FLAG H2). cbn [deref]. mstep.
  rewrite (read_flags_spec _ status _ flags COMPATIBLE_FLAG H1). unfold kept. rewrite Z.lor_0_l, Z.land_lor_distr_r. reflexivity.
Qed.

Lemma read_opt_tags_spec cn tags s :
  NoDup tags -> no_oom s ->
  hunt cn (bytes "tags") = match tags with [] => None | _ => Some (Node (bytes "tags") (array_values tags) []) end ->
  exists s', read_opt_tags cn s = Some (Some tags, s') /\ ticks s s'.
Proof.
  intros Hnd Hno Hh. unfold read_opt_tags. destruct tags as [|t tags].
  - exists s. destruct (get_none_spec cn (bytes "tags") eq_refl Hh) as (_ & _ & -> & _). split; [done|]. by repeat split.
  - rewrite (get_list_spec cn (bytes "tags") _ eq_refl Hh). unfold array_values. rewrite read_tags_dup by done.
    destruct (str_list_dup_spec (t :: tags) [] s Hnd) as (r & s' & He & Ht & _ & Hr).
    exists s'. by rewrite He, (Hr Hno).
Qed.

Lemma read_policy_spec cn (dflt p : alloc_policy_t) :
  hunt cn (bytes "allocation_policy") = (if decide (p = dflt) then None else Some (policy_node p)) ->
  p <> ALLOC_INVALID -> p <> ALLOC_CLING_BY_TAGS -> read_policy cn dflt = p.
Proof.
  intros Hh H1 H2. unfold read_policy. case_decide as Hp.
  - destruct (get_none_spec cn (bytes "allocation_policy") eq_refl Hh) as (_ & -> & _). done.
  - rewrite (get_str_spec cn (bytes "allocation_policy") (default [] (get_alloc_string p)) eq_refl Hh).
    destruct (policy_text p H1) as (d & E & _). rewrite E. change (default [] (Some d)) with d. pose proof (policy_roundtrip p d E) as Hr.
    rewrite decide_False in Hr by done. by rewrite Hr, decide_False.
Qed.
End pieces.

(** ** Allocation *)

Lemma ticks_no_oom s s' : ticks s s' -> no_oom s -> no_oom s'.
Proof. intros H Hn. eapply no_oom_suffix; [exact Hn|apply H]. Qed.

Lemma bind_pool_ok {B} (f : bool -> M B) s : no_oom s -> (pool_alloc ≫= f) s = f true (alloc_tick s).
Proof. intros Hn. by rewrite bind_pool_alloc, no_oom_ok. Qed.

Lemma tick_no_oom s : no_oom s -> no_oom (alloc_tick s).
Proof. apply ticks_no_oom, ticks_tick. Qed.

Create HintDb oom.
#[export] Hint Resolve tick_no_oom ticks_tick ticks_trans ticks_no_oom : oom.

(** The next allocation, which succeeds. *)
Ltac palloc := rewrite bind_pool_ok by eauto with oom; cbn [negb].

(** ** The fields of a VG, a PV and an LV *)

Section fields.
Context {F : Type} (env : import_env (F := F)).
Implicit Types (cn l tail : list (cnode F)).
Hypothesis Hinv : inverse_ok (ie_inverse env).

Lemma hunt_if_miss {A} (o : option A) (f : A -> list (cnode F)) l k :
  (forall a, o = Some a -> hunt (f a) k = None) -> hunt ((if o is Some a then f a else []) ++ l) k = hunt l k.
Proof. intros H. rewrite hunt_app. destruct o as [a|]; [by rewrite H|done]. Qed.

(** The policy that is read: an inherited policy of a VG is not written. *)
Definition vg_policy (p : alloc_policy_t) : alloc_policy_t := if decide (p = ALLOC_INHERIT) then ALLOC_NORMAL else p.

Lemma vg_policy_ok p :
  p <> ALLOC_INVALID -> p <> ALLOC_CLING_BY_TAGS -> vg_policy p <> ALLOC_INVALID /\ vg_policy p <> ALLOC_CLING_BY_TAGS.
Proof. by destruct p. Qed.

Lemma hunt_vg_policy p l :
  hunt (opt_nodes (negb (bool_decide (p = ALLOC_NORMAL \/ p = ALLOC_INHERIT))) [policy_node p] ++ l) (bytes "allocation_policy")
  = if decide (vg_policy p = ALLOC_NORMAL) then hunt l (bytes "allocation_policy") else Some (policy_node (vg_policy p)).
Proof. destruct p; reflexivity. Qed.

Lemma hunt_system_id str l :
  hunt (opt_nodes (negb (bool_decide (str = []))) [snode (bytes "system_id") str] ++ l) (bytes "system_id")
  = match str with [] => hunt l (bytes "system_id") | _ => Some (snode (bytes "system_id") str) end.
Proof. destruct str; reflexivity. Qed.

Lemma read_vg_fields_spec x x0 tail s :
  vg_fields_ok x -> va_alloc (vg_attrs_of x) <> ALLOC_CLING_BY_TAGS -> (length (va_system_id (vg_attrs_of x)) <= 128)%nat ->
  hunt tail (bytes "system_id") = None -> hunt tail (bytes "allocation_policy") = None ->
  read_vg_fields env (vg_nodes x ++ tail) x0 s =
    Some (Some (VolumeGroup (vg_name x0) (kept vg_flags (vg_status x)) (vg_extent_size x) 0 0 0 (vg_max_pv x) (vg_max_lv x) [] []
      (VgAttrs (va_id (vg_attrs_of x)) (va_seqno (vg_attrs_of x)) (vg_policy (va_alloc (vg_attrs_of x)))
         (va_system_id (vg_attrs_of x)) [] (va_mda_copies (vg_attrs_of x)) None)), s).
Proof.
  intros [H1 H2 H3 H4 H5 H6 H7 H8 H9 H10 H11] Hcl Hsys Ht1 Ht2. unfold read_vg_fields, vg_nodes. rewrite <- !app_assoc.
  set (a := vg_attrs_of x) in *. set (cn := [snode (bytes "id") (id_text (va_id a))] ++ _).
  assert (forall k, tok_match (bytes "format") k = false -> forall l,
            hunt ((if va_format a is Some name then [snode (bytes "format") name] else []) ++ l) k = hunt l k) as Hfmt.
  { intros k Hk l. apply (hunt_if_miss (va_format a) (fun name => [snode (bytes "format") name])). intros name _. by apply hunt_miss1. }
  rewrite (bind_exec _ _ _ _ _ (read_id_spec env Hinv cn (bytes "id") (va_id a) s eq_refl ltac:(reflexivity) H2)).
  rewrite (get_uint32_spec cn (bytes "seqno") (va_seqno a) eq_refl ltac:(reflexivity) H3).
  assert (forall k, tok_match (bytes "id") k = false -> tok_match (bytes "seqno") k = false -> tok_match (bytes "format") k = false ->
    hunt cn k = hunt (flag_nodes (vg_status x) vg_flags ++ tags_nodes (va_tags a) ++
      opt_nodes (negb (bool_decide (va_system_id a = []))) [snode (bytes "system_id") (va_system_id a)] ++
      [inode (bytes "extent_size") (vg_extent_size x)] ++ [inode (bytes "max_lv") (vg_max_lv x)] ++ [inode (bytes "max_pv") (vg_max_pv x)] ++
      opt_nodes (negb (bool_decide (va_alloc a = ALLOC_NORMAL \/ va_alloc a = ALLOC_INHERIT))) [policy_node (va_alloc a)] ++
      [inode (bytes "metadata_copies") (va_mda_copies a)] ++ tail) k) as Hcn.
  { intros k E1 E2 E3. unfold cn. rewrite hunt_miss, hunt_miss by done. by rewrite Hfmt. }
  rewrite (bind_exec _ _ _ _ _ (read_flag_config_spec cn VG_FLAGS vg_flags (vg_status x) s eq_refl eq_refl
             ltac:(by rewrite Hcn) ltac:(by rewrite Hcn))).
  rewrite (get_uint32_spec cn (bytes "extent_size") (vg_extent_size x) eq_refl ltac:(rewrite Hcn by reflexivity; hunting; reflexivity) ltac:(lia)).
  rewrite (get_uint32_spec cn (bytes "max_lv") (vg_max_lv x) eq_refl ltac:(rewrite Hcn by reflexivity; hunting; reflexivity) H8).
  rewrite (get_uint32_spec cn (bytes "max_pv") (vg_max_pv x) eq_refl ltac:(rewrite Hcn by reflexivity; hunting; reflexivity) H9).
  rewrite (get_uint32_spec cn (bytes "metadata_copies") (va_mda_copies a) eq_refl ltac:(rewrite Hcn by reflexivity; hunting; reflexivity) H11).
  assert (read_policy cn ALLOC_NORMAL = vg_policy (va_alloc a)) as ->.
  { destruct (vg_policy_ok _ H10 Hcl) as [Hp1 Hp2]. apply read_policy_spec; [|exact Hp1|exact Hp2].
    rewrite Hcn by reflexivity. hunting. rewrite hunt_vg_policy. hunting. by rewrite Ht2. }
  assert ((if dm_config_get_str cn (bytes "system_id") is Some str then take (Z.to_nat NAME_LEN) str else []) = va_system_id a) as ->; [|done].
  pose proof (Hcn (bytes "system_id") eq_refl eq_refl eq_refl) as Hc. revert Hc. hunting. rewrite hunt_system_id.
  destruct (va_system_id a) as [|c sys] eqn:Es; hunting; intros Hc.
  - rewrite Ht1 in Hc. by destruct (get_none_spec cn (bytes "system_id") eq_refl Hc) as (_ & -> & _).
  - rewrite (get_str_spec cn (bytes "system_id") (c :: sys) eq_refl Hc). by rewrite take_ge.
Qed.

(** The PV that is read from the section of [v] in a VG [x]. *)
Definition imported_pv (x : volume_group) (v : physical_volume) (size : Z) : physical_volume :=
  let a := pv_attrs_of v in
  let dev := device_from_pvid env (pa_id a) in
  PhysicalVolume None
    (if (if dev is Some _ then true else false) || lvmetad_active env then kept pv_flags (pv_status v)
     else Z.lor (kept pv_flags (pv_status v)) MISSING_PV)
    size (vg_extent_size x) (pv_pe_start v) (pv_pe_count v) 0 []
    (PvAttrs (pa_id a) (fst <$> dev) (vg_name x) (va_id (vg_attrs_of x)) true (default 0 (snd <$> dev)) (pa_tags a)).

Lemma read_pv_fields_spec vg x v size s :
  st_vgs s !! vg = Some x -> pv_fields_ok v -> no_oom s ->
  fix_pv_size env (fst <$> device_from_pvid env (pa_id (pv_attrs_of v))) (pv_size v) = Some size ->
  exists s', read_pv_fields env vg (pv_nodes v) s = Some (Some (imported_pv x v size), s') /\ ticks s s'.
Proof.
  intros Hx [H1 H2 [_ H3] H4 H5 H6] Hno Hsize. unfold read_pv_fields. set (cn := pv_nodes v).
  rewrite (bind_exec _ _ _ _ _ (read_id_spec env Hinv cn (bytes "id") _ s eq_refl ltac:(reflexivity) H1)).
  palloc. change (st_vgs s) with (st_vgs (alloc_tick s)) in Hx. mstep.
  assert (forall k, tok_match (bytes "id") k = false -> tok_match (bytes "device") k = false ->
    hunt cn k = hunt (flag_nodes (pv_status v) pv_flags ++ tags_nodes (pa_tags (pv_attrs_of v)) ++
      [inode (bytes "dev_size") (pv_size v)] ++ [inode (bytes "pe_start") (pv_pe_start v)] ++
      [inode (bytes "pe_count") (pv_pe_count v)]) k) as Hcn.
  { intros k E1 E2. unfold cn, pv_nodes. by rewrite hunt_miss, hunt_miss by done. }
  rewrite (bind_exec _ _ _ _ _ (read_flag_config_spec cn PV_FLAGS pv_flags (pv_status v) _ eq_refl eq_refl
             ltac:(by rewrite Hcn) ltac:(by rewrite Hcn))).
  assert (hunt cn (bytes "dev_size") = Some (inode (bytes "dev_size") (pv_size v))) as Hds by (rewrite Hcn by reflexivity; hunting; reflexivity).
  assert (dm_config_has_node cn (bytes "dev_size") = true) as -> by (unfold dm_config_has_node; by rewrite find_key, Hds).
  rewrite (get_uint64_spec cn (bytes "dev_size") _ eq_refl Hds) by lia.
  rewrite (get_uint64_spec cn (bytes "pe_start") (pv_pe_start v) eq_refl ltac:(rewrite Hcn by reflexivity; hunting; reflexivity)) by lia.
  rewrite (get_uint32_spec cn (bytes "pe_count") (pv_pe_count v) eq_refl ltac:(rewrite Hcn by reflexivity; hunting; reflexivity)) by lia.
  destruct (read_opt_tags_spec cn (pa_tags (pv_attrs_of v)) (alloc_tick s) H3 ltac:(eauto with oom)) as (s' & He & Ht).
  { rewrite Hcn by reflexivity. hunting. apply hunt_tags. reflexivity. }
  rewrite (bind_exec _ _ _ _ _ He). rewrite Hsize. exists s'. split; [reflexivity|]. eauto with oom.
Qed.
End fields.
