(* ===== verification/ImportPvs.v ===== *)
(** * Reading the PVs of a VG

    Each section of a PV adds a PV to the VG that is one free segment; the VG stays
    consistent. *)

From S2P Require Import Prelude DmString Uuid Config ConfigProps Metadata PvManip PvSegs LvManip LvSegs CheckLv Flags TextExport ExportProps TextImport ImportProps.

(** ** Allocating structures *)

(** Nothing has an address that is not yet handed out. *)
Record all_fresh (s : store) : Prop := {
  af_pegs : forall i, (st_next s <= i)%nat -> st_pegs s !! i = None;
  af_pvs : forall i, (st_next s <= i)%nat -> st_pvs s !! i = None;
  af_segs : forall i, (st_next s <= i)%nat -> st_segs s !! i = None;
  af_lvs : forall i, (st_next s <= i)%nat -> st_lvs s !! i = None;
  af_vgs : forall i, (st_next s <= i)%nat -> st_vgs s !! i = None }.

Definition alloc_in {T} `{Table T} (y : T) (s : store) : store :=
  let s' := set_tbl (<[st_next s := y]> (tbl (alloc_tick s))) (alloc_tick s) in
  Store (st_pegs s') (st_pvs s') (st_segs s') (st_lvs s') (st_vgs s') (S (st_next s)) (st_alloc s') (st_discards s').

Lemma bind_alloc_ok {T B} `{Table T} (y : T) (f : option nat -> M B) s :
  no_oom s -> (alloc y ≫= f) s = f (Some (st_next s)) (alloc_in y s).
Proof.
  intros Hn. apply bind_exec. unfold alloc, alloc_in, alloc_tick. apply no_oom_ok in Hn. unfold alloc_ok in Hn.
  by destruct (st_alloc s) as [|[] ?].
Qed.

Lemma all_fresh_ticks s s' : ticks s s' -> all_fresh s -> all_fresh s'.
Proof. intros (E1 & E2 & E3 & E4 & E5 & E6 & _) [H1 H2 H3 H4 H5]. by split; rewrite ?E1, ?E2, ?E3, ?E4, ?E5, E6. Qed.

(** The address of the next structure is handed out. *)
Lemma insert_fresh {T} (m : gmap nat T) (n : nat) (y : T) :
  (forall i, (n <= i)%nat -> m !! i = None) -> forall i, (S n <= i)%nat -> <[n := y]> m !! i = None.
Proof. intros H i Hi. rewrite lookup_insert_ne by lia. apply H. lia. Qed.

(** ** A PV more *)

Lemma vg_ok_add_pv s s' vg x p v l :
  vg_ok s vg x -> p ∉ vg_pvs x -> st_pvs s' = <[p := v]> (st_pvs s) ->
  (forall i g, st_pegs s !! i = Some g -> st_pegs s' !! i = Some g) -> st_segs s' = st_segs s -> st_lvs s' = st_lvs s ->
  pv_ok s' vg p v l -> pv_pe_alloc_count v = 0 ->
  let x' := set_vg_pvs (vg_pvs x ++ [p]) (vg_pv_count x + 1)
              (with_counts x (vg_extent_count x + pv_pe_count v) (vg_free_count x + pv_pe_count v)) in
  st_vgs s' !! vg = Some x' -> vg_extent_count x + pv_pe_count v < 2 ^ 32 -> fresh_ok s' -> vg_ok s' vg x'.
Proof.
  intros [H1 H2 H3 H4 H5 H6 H7 H8] Hp Epv Epeg Eseg Elv Hok Ha x' Hx Hr Hf.
  assert (forall f, map (pv_num f s') (vg_pvs x) = map (pv_num f s) (vg_pvs x)) as Hn.
  { intros f. apply map_ext_in. intros q Hq. unfold pv_num. rewrite Epv, lookup_insert_ne; [done|]. intros <-. by apply Hp, list_elem_of_In. }
  assert (forall f, pv_num f s' p = f v) as Hnp by (intros f; unfold pv_num; by rewrite Epv, lookup_insert_eq).
  split; cbn [x' set_vg_pvs vg_pvs vg_pv_count vg_extent_count vg_free_count with_counts set_vg_extent_count set_vg_free_count].
  - done.
  - apply NoDup_app. split; [done|]. split; [|apply NoDup_singleton]. intros q Hq ->%list_elem_of_singleton. done.
  - intros q [Hq| ->%list_elem_of_singleton]%elem_of_app; [|by exists v, l].
    destruct (H3 q Hq) as (w & k & (Hw & Hk & Hg) & Hs & Ho). exists w, k. split; [|split; [done|]].
    + split; [rewrite Epv, lookup_insert_ne; [done|by intros <-]|]. split; [done|].
      eapply Forall_impl; [exact Hg|]. intros [i g] Hi. by apply Epeg.
    + eapply Forall_impl; [exact Ho|]. intros g Hw0 sg Hsg. destruct (Hw0 sg Hsg) as (y & lv & ? & ? & ?). exists y, lv.
      by rewrite Eseg, Elv.
  - rewrite length_app, H4. cbn. lia.
  - rewrite map_app, zsum_app, Hn, <- H5. cbn. rewrite Hnp. lia.
  - rewrite map_app, zsum_app, Hn, <- H6. cbn. rewrite Hnp. unfold pv_free. lia.
  - done.
  - done.
Qed.

(** A VG none of whose extents is in use. *)
Record empty_vg (s : store) (vg : nat) (x : volume_group) : Prop := {
  ev_vg : vg_ok s vg x;
  ev_owner : forall p e, p ∈ vg_pvs x -> owner_at s p e = None;
  ev_free : free_max s x;
  ev_oom : no_oom s;
  ev_fresh : all_fresh s }.

Lemma hash_insert_spec h k v s :
  no_oom s -> exists s', hash_insert h k v s = Some (Some (<[k := v]> h), s') /\ ticks s s'.
Proof.
  intros Hn. unfold hash_insert. destruct (h !! k); [exists s; split; [done|by repeat split]|].
  palloc. eexists. split; [reflexivity|]. apply ticks_tick.
Qed.

(** A new PV is one free segment, or none when it has no extents. *)
Lemma whole_pv_spec s p v :
  st_pvs s !! p = Some v -> pv_segments v = [] -> no_oom s -> fresh_ok s ->
  exists s' v' l, alloc_pv_segment_whole_pv p s = Some (true, s') /\ st_pvs s' = <[p := v']> (st_pvs s) /\
    v' = set_pv_segments l.*1 v /\ view s' p v' l /\ st_segs s' = st_segs s /\ st_lvs s' = st_lvs s /\ st_vgs s' = st_vgs s /\
    (forall i g, st_pegs s !! i = Some g -> st_pegs s' !! i = Some g) /\ st_alloc s' `suffix_of` st_alloc s /\
    ((pv_pe_count v = 0 /\ l = [] /\ st_next s' = st_next s /\ st_pegs s' = st_pegs s) \/
     (pv_pe_count v <> 0 /\ l = [(st_next s, PvSegment (Some p) 0 (pv_pe_count v) None 0)] /\
      st_next s' = S (st_next s) /\ st_pegs s' = <[st_next s := PvSegment (Some p) 0 (pv_pe_count v) None 0]> (st_pegs s))).
Proof.
  intros Hv Hseg Hn Hf. unfold alloc_pv_segment_whole_pv. mstep. destruct (Z.eqb_spec (pv_pe_count v) 0) as [E|E].
  - exists s, v, []. split; [done|]. split; [by rewrite insert_id|]. cbn. rewrite <- Hseg. split; [by destruct v|].
    split; [by split; [|split; [|constructor]]|]. repeat split; try done. by left.
  - unfold alloc_pv_segment. rewrite bind_alloc_ok by done. set (s1 := alloc_in _ s).
    assert (st_pvs s1 !! p = Some v) as Hv1 by done. mstep.
    set (l := [(st_next s, PvSegment (Some p) 0 (pv_pe_count v) None 0)]).
    eexists _, _, l. split; [reflexivity|]. split; [reflexivity|]. rewrite Hseg. split; [reflexivity|]. split.
    { split; [cbn; by rewrite lookup_insert_eq|]. split; [done|]. repeat constructor. cbn. by rewrite lookup_insert_eq. }
    do 3 (split; [done|]). split.
    { intros i g Hi. cbn. rewrite lookup_insert_ne; [done|]. intros <-. by rewrite (Hf (st_next s)) in Hi. }
    split; [cbn; apply suffix_tail|]. right. by repeat split.
Qed.

Lemma owner_none_free p s v k :
  view s p v k -> segs_ok p (pv_pe_count v) v k -> (forall e, owner_at s p e = None) -> pv_pe_alloc_count v = 0.
Proof.
  intros Hview Hs Hown. rewrite (so_alloced _ _ _ _ Hs). pose proof (so_covers _ _ _ _ Hs) as Hc.
  assert (Forall (fun g => peg_lvseg g = None) k.*2) as Hnone.
  { apply Forall_forall. intros g Hg. destruct (peg_lvseg g) as [sg|] eqn:Eg; [|done].
    apply list_elem_of_split in Hg as (k1 & k2 & Ek). pose proof (Hown (peg_pe g)) as Ho. rewrite (owner_at_view _ _ _ _ _ Hview) in Ho.
    rewrite Ek in Hc, Ho. pose proof Hc as (_ & Hl & _)%covers_middle.
    rewrite (owner_middle _ _ _ _ _ _ Hc), decide_False, decide_True in Ho by lia.
    cbn in Ho. rewrite Eg, (proj2 (Z.leb_le _ _)), (proj2 (Z.ltb_lt _ _)) in Ho by lia. done. }
  clear -Hnone. induction Hnone as [|g l Hg _ IH]; [done|]. rewrite alloced_cons, IH. unfold alloc_len. by rewrite Hg.
Qed.

Lemma empty_vg_counts s vg x : empty_vg s vg x -> vg_free_count x = vg_extent_count x /\ 0 <= vg_extent_count x.
Proof.
  intros [Hvg Hown _ _ _]. rewrite (vo_extents _ _ _ Hvg), (vo_free _ _ _ Hvg). split.
  - f_equal. apply map_ext_in. intros q Hq%list_elem_of_In.
    destruct (vo_pvs _ _ _ Hvg q Hq) as (w & k & Hok & Hs & _). rewrite !(pv_num_view _ _ _ _ _ Hok). unfold pv_free.
    rewrite (owner_none_free q s w k Hok Hs) by (intros; by apply Hown). lia.
  - apply zsum_nonneg, Forall_map, Forall_forall. intros q Hq.
    destruct (vo_pvs _ _ _ Hvg q Hq) as (w & k & Hw & Hs & _). rewrite (pv_num_view _ _ _ _ _ Hw).
    pose proof (segs_ok_alloc _ _ _ _ Hs). lia.
Qed.

Section read_pv.
Context {F : Type} (env : import_env (F := F)).
Hypothesis Hinv : inverse_ok (ie_inverse env).

(** The VG with one more PV, all free. *)
Definition vg_with_pv (x : volume_group) (p : nat) (n : Z) : volume_group :=
  set_vg_pvs (vg_pvs x ++ [p]) (vg_pv_count x + 1) (with_counts x (vg_extent_count x + n) (vg_free_count x + n)).

Lemma read_pv_spec s vg x name v size h :
  empty_vg s vg x -> pv_fields_ok v -> vg_extent_count x + pv_pe_count v < 2 ^ 32 -> vg_pv_count x + 1 < 2 ^ 32 ->
  fix_pv_size env (fst <$> device_from_pvid env (pa_id (pv_attrs_of v))) (pv_size v) = Some size ->
  exists s' p l, read_pv env vg (Node name [] (pv_nodes v)) h s = Some (Some (<[name := p]> h), s') /\
    empty_vg s' vg (vg_with_pv x p (pv_pe_count v)) /\ (p ∉ vg_pvs x) /\
    st_pvs s' = <[p := set_pv_vg (Some vg) (set_pv_segments l (imported_pv env x v size))]> (st_pvs s) /\
    st_segs s' = st_segs s /\ st_lvs s' = st_lvs s /\
    st_vgs s' = <[vg := vg_with_pv x p (pv_pe_count v)]> (st_vgs s).
Proof.
  intros [Hvg Hown Hfm Hno Hfr] Hv Hr Hr2 Hsize. pose proof (vo_vg _ _ _ Hvg) as Hx.
  unfold read_pv. palloc. rewrite bind_alloc_ok by eauto with oom. set (s1 := alloc_in zero_pv (alloc_tick s)).
  change (st_next (alloc_tick s)) with (st_next s). set (p := st_next s).
  assert (no_oom s1) as Hn1 by exact (tick_no_oom _ (tick_no_oom _ Hno)).
  destruct (hash_insert_spec h name p s1 Hn1) as (s2 & He2 & Ht2). cbn [node_key]. rewrite (bind_exec _ _ _ _ _ He2).
  pose proof Ht2 as (E1 & E2 & E3 & E4 & E5 & E6 & _). cbn [node_child].
  change (pv_nodes v) with ([snode (F := F) (bytes "id") (id_text (pa_id (pv_attrs_of v)))] ++ tail (pv_nodes v)) at 1. cbn [app].
  destruct (read_pv_fields_spec env Hinv vg x v size s2) as (s3 & He3 & Ht3); [by rewrite E5|done|eauto with oom|done|].
  rewrite (bind_exec _ _ _ _ _ He3). pose proof Ht3 as (G1 & G2 & G3 & G4 & G5 & G6 & _). set (v1 := imported_pv env x v size).
  assert (st_pvs s3 !! p = Some zero_pv) as Hp3 by (rewrite G2, E2; cbn; by rewrite lookup_insert_eq).
  mstep. set (s4 := set_tbl _ s3).
  assert (st_next s4 = S p) as Hnext by (cbn; by rewrite G6, E6).
  assert (st_pegs s4 = st_pegs s) as Hpegs by (cbn; by rewrite G1, E1).
  destruct (whole_pv_spec s4 p v1) as (s5 & v5 & l & He5 & P1 & -> & Hview & P3 & P4 & P5 & P6 & P7 & P8).
  { cbn. by rewrite lookup_insert_eq. }
  { done. }
  { change (no_oom s3). eauto with oom. }
  { intros i Hi. rewrite Hpegs. apply Hfr. unfold p in Hnext. lia. }
  rewrite (bind_exec _ _ _ _ _ He5). cbn [negb].
  assert (st_vgs s5 !! vg = Some x) as Hx5 by (rewrite P5; cbn; by rewrite G5, E5).
  assert (0 <= pv_pe_count v) as Hpos by (destruct Hv; lia).
  destruct (empty_vg_counts s vg x ltac:(by split)) as [Hfree Hpos2].
  do 2 mstep. unfold add_pvl_to_vgs. rewrite !bind_assoc. mstep. 
  assert (st_pvs s5 !! p = Some (set_pv_segments l.*1 v1)) as Hp5 by apply Hview.
  mstep. cbn [vg_extent_count vg_free_count set_vg_extent_count set_vg_free_count set_vg_pvs vg_pvs vg_pv_count pv_pe_count v1 imported_pv].
  pose proof (vo_count _ _ _ Hvg) as Hcount. rewrite !wrap32_small by lia. set (s6 := set_tbl _ _).
  set (v6 := set_pv_vg (Some vg) (set_pv_segments l.*1 v1)). set (x6 := vg_with_pv x p (pv_pe_count v)).
  assert (st_pvs s6 = <[p := v6]> (st_pvs s)) as Q1 by (cbn; rewrite P1; cbn; by rewrite !insert_insert_eq, G2, E2; cbn; rewrite insert_insert_eq).
  assert (st_vgs s6 = <[vg := x6]> (st_vgs s)) as Q2 by (cbn; rewrite P5; cbn; by rewrite !insert_insert_eq, G5, E5).
  assert (st_segs s6 = st_segs s) as Q3 by (cbn; rewrite P3; cbn; by rewrite G3, E3).
  assert (st_lvs s6 = st_lvs s) as Q4 by (cbn; rewrite P4; cbn; by rewrite G4, E4).
  assert (p ∉ vg_pvs x) as Hnew.
  { intros Hin. destruct (vo_pvs _ _ _ Hvg p Hin) as (w & k & (Hw & _) & _). by rewrite (af_pvs _ Hfr p) in Hw. }
  assert (forall i, (st_next s6 <= i)%nat -> st_pegs s6 !! i = None) as Hfr6.
  { intros i Hi. change (st_pegs s6) with (st_pegs s5). change (st_next s6) with (st_next s5) in Hi.
    destruct P8 as [(_ & _ & Hn & ->)|(_ & _ & Hn & ->)]; rewrite ?Hpegs; rewrite Hnext in Hn; [apply Hfr; unfold p in *; lia|].
    rewrite Hnext, lookup_insert_ne by lia. apply Hfr. unfold p in *. lia. }
  assert (S p <= st_next s6)%nat as Hn6 by (change (st_next s6) with (st_next s5); destruct P8 as [(_ & _ & Hn & _)|(_ & _ & Hn & _)]; lia).
  assert (pv_ok s6 vg p v6 l) as Hok6.
  { split; [split; [by rewrite Q1, lookup_insert_eq|apply Hview]|]. split.
    - destruct P8 as [(En & -> & _)|(En & -> & _)]; (split; cbn; [repeat constructor; set_solver|by repeat constructor| |lia|]).
      + cbn in En. by rewrite En.
      + done.
      + cbn in En. lia.
      + unfold alloced. cbn. lia.
    - destruct P8 as [(_ & -> & _)|(_ & -> & _)]; [constructor|]. repeat constructor. by intros sg. }
  exists s6, p, l.*1. split; [reflexivity|]. split; [|done].
  assert (forall i g, st_pegs s !! i = Some g -> st_pegs s6 !! i = Some g) as Hkeep by (intros i g Hi; apply P6; by rewrite Hpegs).
  assert (vg_ok s6 vg x6) as Hvg6.
  { apply (vg_ok_add_pv s s6 vg x p v6 l); try done. by rewrite Q2, lookup_insert_eq. }
  assert (forall q e, q ∈ vg_pvs x -> owner_at s6 q e = owner_at s q e) as Hold.
  { intros q e Hq. destruct (vo_pvs _ _ _ Hvg q Hq) as (w & k & Hokq). rewrite (owner_at_view _ _ _ _ e (proj1 Hokq)).
    destruct Hokq as ((Hw & Hk & Hg) & _). apply owner_at_view with (v := w). split; [rewrite Q1, lookup_insert_ne; [done|by intros <-]|].
    split; [done|]. eapply Forall_impl; [exact Hg|]. intros [i g] Hi. by apply Hkeep. }
  assert (forall e, owner_at s6 p e = None) as Hnone.
  { intros e. rewrite (owner_at_view _ _ _ _ e (proj1 Hok6)). destruct P8 as [(_ & -> & _)|(_ & -> & _)]; [done|]. cbn. by destruct (_ && _). }
  split; [done| | | |].
  - intros q e [Hq| ->%list_elem_of_singleton]%elem_of_app; [rewrite Hold by done; by apply Hown|apply Hnone].
  - intros q w j g Hq Hw Hj Hg Hf. apply elem_of_app in Hq as [Hq| ->%list_elem_of_singleton].
    + rewrite Q1, lookup_insert_ne in Hw by (by intros <-). rewrite Hold by done.
      destruct (vo_pvs _ _ _ Hvg q Hq) as (w' & k & Hokq). assert (w = w') as -> by (destruct Hokq as ((? & _) & _); congruence).
      apply (Hfm q w' j g Hq Hw Hj); [|done]. pose proof (proj1 Hokq) as (_ & Hk & Hgs). rewrite Hk in Hj.
      apply list_elem_of_fmap in Hj as ([j' g'] & -> & Hin). rewrite Forall_forall in Hgs. pose proof (Hgs _ Hin) as Hg'. cbn in *.
      rewrite Hg'. apply Hkeep in Hg'. congruence.
    + left. pose proof (view_lookup _ _ _ _ _ _ _ (proj1 Hok6) Hw Hj Hg) as Hin. rewrite Q1, lookup_insert_eq in Hw. injection Hw as <-.
      destruct P8 as [(_ & -> & _)|(_ & -> & _)]; [by apply elem_of_nil in Hin|]. by apply list_elem_of_singleton in Hin as [= _ ->].
  - eapply no_oom_suffix; [|exact P7]. change (no_oom s3). eauto with oom.
  - split; [done|..]; intros i Hi.
    + rewrite Q1, lookup_insert_ne by lia. apply Hfr. unfold p in *. lia.
    + rewrite Q3. apply Hfr. unfold p in *. lia.
    + rewrite Q4. apply Hfr. unfold p in *. lia.
    + rewrite Q2, lookup_insert_ne; [apply Hfr; unfold p in *; lia|]. intros ->. rewrite (af_vgs _ Hfr i) in Hx; [done|]. unfold p in *. lia.
Qed.

(** *** All PVs *)

Definition vg_with_pvs (x : volume_group) (ps : list nat) (n : Z) : volume_group :=
  set_vg_pvs (vg_pvs x ++ ps) (vg_pv_count x + Z.of_nat (length ps))
    (with_counts x (vg_extent_count x + n) (vg_free_count x + n)).

Lemma vg_with_pvs_nil x : vg_with_pvs x [] 0 = x.
Proof. destruct x. unfold vg_with_pvs, set_vg_pvs, with_counts. cbn. by rewrite app_nil_r, !Z.add_0_r. Qed.

Lemma vg_with_pvs_cons x p n ps m : vg_with_pvs (vg_with_pv x p n) ps m = vg_with_pvs x (p :: ps) (n + m).
Proof.
  unfold vg_with_pvs, vg_with_pv, set_vg_pvs, with_counts, set_vg_extent_count, set_vg_free_count.
  cbn [vg_name vg_status vg_extent_size vg_extent_count vg_free_count vg_pv_count vg_max_pv vg_max_lv vg_pvs vg_lvs vg_attrs_of].
  rewrite <- app_assoc. f_equal; cbn [length]; lia.
Qed.

(** PV [p] was read from the section of [v]. *)
Definition pv_read (s : store) (vg : nat) (x : volume_group) (p : nat) (v : physical_volume) : Prop :=
  exists size l, fix_pv_size env (fst <$> device_from_pvid env (pa_id (pv_attrs_of v))) (pv_size v) = Some size /\
    st_pvs s !! p = Some (set_pv_vg (Some vg) (set_pv_segments l (imported_pv env x v size))).

Definition pv_node_of (nv : list Z * physical_volume) : cnode F := Node nv.1 [] (pv_nodes nv.2).

Definition sizes_ok (v : physical_volume) : Prop :=
  exists size, fix_pv_size env (fst <$> device_from_pvid env (pa_id (pv_attrs_of v))) (pv_size v) = Some size.

Lemma read_pvs_spec l s vg x h :
  empty_vg s vg x -> Forall (fun nv => pv_fields_ok nv.2 /\ sizes_ok nv.2) l -> NoDup l.*1 ->
  vg_extent_count x + zsum (map (fun nv => pv_pe_count nv.2) l) < 2 ^ 32 -> vg_pv_count x + Z.of_nat (length l) < 2 ^ 32 ->
  exists s' ps h', each_node (read_pv env vg) (map pv_node_of l) h s = Some (Some h', s') /\
    empty_vg s' vg (vg_with_pvs x ps (zsum (map (fun nv => pv_pe_count nv.2) l))) /\
    Forall2 (fun p nv => pv_read s' vg x p nv.2 /\ h' !! nv.1 = Some p) ps l /\
    (forall k, k ∉ l.*1 -> h' !! k = h !! k) /\
    (forall p v, p ∉ ps -> st_pvs s !! p = Some v -> st_pvs s' !! p = Some v) /\
    st_segs s' = st_segs s /\ st_lvs s' = st_lvs s /\
    (forall k, k <> vg -> st_vgs s' !! k = st_vgs s !! k).
Proof.
  revert s x h. induction l as [|[name v] l IH]; intros s x h Hev HF Hnd Hr Hr2.
  { exists s, [], h. cbn [map zsum foldr]. rewrite vg_with_pvs_nil. split; [done|]. split; [done|]. split; [constructor|]. by repeat split. }
  apply Forall_cons in HF as [[Hv (size & Hsize)] HF]. rewrite fmap_cons in Hnd. apply NoDup_cons in Hnd as [Hname Hnd].
  cbn [map fst snd length] in *. rewrite zsum_cons in Hr.
  assert (0 <= zsum (map (fun nv : list Z * physical_volume => pv_pe_count nv.2) l)) as Hpos.
  { apply zsum_nonneg, Forall_map. eapply Forall_impl; [exact HF|]. intros nv [[] _]. lia. }
  destruct (read_pv_spec s vg x name v size h Hev Hv ltac:(lia) ltac:(lia) Hsize)
    as (s1 & p & lp & He & Hev1 & Hp & Q1 & Q2 & Q3 & Q4).
  destruct (IH s1 (vg_with_pv x p (pv_pe_count v)) (<[name := p]> h) Hev1 HF Hnd) as (s' & ps & h' & He' & Hev' & HF2 & Hh & Hkeep & S1 & S2 & S3).
  { cbn. lia. }
  { cbn. lia. }
  exists s', (p :: ps), h'. cbn [each_node]. change (pv_node_of (name, v)) with (Node name [] (pv_nodes v) : cnode F). rewrite (bind_exec _ _ _ _ _ He). cbn beta iota. rewrite He'.
  rewrite zsum_cons, <- vg_with_pvs_cons. split; [done|]. split; [done|].
  assert (p ∉ ps) as Hpps.
  { pose proof (vo_nodup _ _ _ (ev_vg _ _ _ Hev')) as Hnd'. cbn in Hnd'. rewrite <- app_assoc in Hnd'.
    apply NoDup_app in Hnd' as (_ & _ & [? _]%NoDup_cons). done. }
  split; [|split; [|split; [|split; [|split]]]].
  - constructor.
    + split; [|by rewrite Hh, lookup_insert_eq by done]. exists size, lp. split; [done|].
      apply Hkeep; [done|]. by rewrite Q1, lookup_insert_eq.
    + eapply Forall2_impl; [exact HF2|]. intros q nv [(sz & lq & A1 & A2) B]. split; [|done]. by exists sz, lq.
  - intros k Hk. rewrite fmap_cons in Hk. cbn in Hk. apply not_elem_of_cons in Hk as [? ?]. by rewrite Hh, lookup_insert_ne.
  - intros q w [Hq Hqs]%not_elem_of_cons Hw. apply Hkeep; [done|]. by rewrite Q1, lookup_insert_ne.
  - by rewrite S1.
  - by rewrite S2.
  - intros k Hk. by rewrite S3, Q4, lookup_insert_ne.
Qed.
End read_pv.
