(* ===== verification/ImportLvs.v ===== *)
(** * Reading the LVs of a VG by name *)

From S2P Require Import Prelude DmString Uuid Config ConfigProps Metadata PvManip PvSegs LvManip LvSegs CheckLv Flags TextExport ExportProps TextImport ImportProps ImportPvs.

Lemma lv_set_creation_spec nodename now hosts lv w host t s :
  st_lvs s !! lv = Some w -> no_oom s -> t <> 0 ->
  exists hosts' s', lv_set_creation nodename now hosts lv (Some host) t s = Some (Some hosts', s') /\
    st_lvs s' = <[lv := set_lv_attrs (set_la_creation host t) w]> (st_lvs s) /\ st_vgs s' = st_vgs s /\
    st_pegs s' = st_pegs s /\ st_pvs s' = st_pvs s /\ st_segs s' = st_segs s /\ st_next s' = st_next s /\ no_oom s'.
Proof.
  intros Hw Hno Ht. unfold lv_set_creation. cbn [from_option id]. rewrite (proj2 (Z.eqb_neq _ _) Ht). destruct (decide (host ∈ hosts)).
  - mstep. cbn [negb]. mstep. eexists _, _. split; [reflexivity|]. by repeat split.
  - rewrite bind_assoc. palloc. rewrite bind_pool_ok by eauto with oom. set (s1 := alloc_tick (alloc_tick s)).
    assert (st_lvs s1 !! lv = Some w) as Hw1 by done. cbn [negb]. mstep. eexists _, _. split; [reflexivity|]. repeat split; [done..|].
    by apply tick_no_oom, tick_no_oom.
Qed.

(** A VG when other things than its PVs change. *)
Lemma vg_ok_rest s s' vg x x' :
  vg_ok s vg x -> st_pegs s' = st_pegs s -> st_pvs s' = st_pvs s -> st_vgs s' !! vg = Some x' ->
  vg_pvs x' = vg_pvs x -> vg_pv_count x' = vg_pv_count x -> vg_extent_count x' = vg_extent_count x ->
  vg_free_count x' = vg_free_count x -> (forall g, owned_by s vg g -> owned_by s' vg g) -> (st_next s <= st_next s')%nat ->
  vg_ok s' vg x'.
Proof.
  intros [H1 H2 H3 H4 H5 H6 H7 H8] Ep Ev Hx Epvs E1 E2 E3 Ho Hn.
  assert (forall f, map (pv_num f s') (vg_pvs x') = map (pv_num f s) (vg_pvs x)) as Hmap.
  { intros f. rewrite Epvs. apply map_ext. intros q. unfold pv_num. by rewrite Ev. }
  split; rewrite ?Hmap, ?Epvs, ?E1, ?E2, ?E3; try done.
  - intros p Hp. destruct (H3 p Hp) as (v & l & (Hv & Hk & Hl) & Hs & Hw). exists v, l. split; [|split; [done|]].
    + split; [by rewrite Ev|]. split; [done|]. eapply Forall_impl; [exact Hl|]. intros [i g]. by rewrite Ep.
    + eapply Forall_impl; [exact Hw|]. done.
  - intros i Hi. rewrite Ep. apply H8. lia.
Qed.

Lemma owner_at_pvs s s' p e : st_pegs s' = st_pegs s -> st_pvs s' = st_pvs s -> owner_at s' p e = owner_at s p e.
Proof. intros Ep Ev. unfold owner_at, pegs_of. by rewrite Ev, Ep. Qed.

Section read_lv.
Context {F : Type} (env : import_env (F := F)).
Hypothesis Hinv : inverse_ok (ie_inverse env).

(** The nodes of an LV before its segments. *)
Definition lv_head (v : logical_volume) : list (cnode F) :=
  let a := lv_attrs_of v in
  [snode (bytes "id") (id_text (la_id a))] ++ flag_nodes (lv_status v) lv_flags ++ tags_nodes (la_tags a) ++
  opt_nodes (negb (la_timestamp a =? 0))
    ([snode (bytes "creation_host") (la_hostname a)] ++ [inode (bytes "creation_time") (la_timestamp a)]) ++
  opt_nodes (negb (bool_decide (la_alloc a = ALLOC_INHERIT))) [policy_node (la_alloc a)] ++
  (if la_read_ahead a =? DM_READ_AHEAD_NONE then [inode (bytes "read_ahead") (-1)]
   else opt_nodes (negb (la_read_ahead a =? DM_READ_AHEAD_AUTO)) [inode (bytes "read_ahead") (la_read_ahead a)]) ++
  opt_nodes (0 <=? la_major a) [inode (bytes "major") (la_major a)] ++
  opt_nodes (0 <=? la_minor a) [inode (bytes "minor") (la_minor a)] ++
  [inode (bytes "segment_count") (Z.of_nat (length (lv_segments v)))].

Lemma lv_nodes_split s N v l :
  lv_nodes s N v = Some l -> exists segs, seg_nodes s N 1 (lv_segments v) = Some segs /\ l = lv_head v ++ segs.
Proof.
  unfold lv_nodes, lv_head. destruct (seg_nodes s N 1 (lv_segments v)) as [segs|]; [|done]. cbn [mbind option_bind].
  intros H. apply (inj Some) in H as <-. exists segs. split; [done|]. by rewrite <- !app_assoc.
Qed.

(** The sections of segments. *)
Definition seg_keys (segs : list (cnode F)) : Prop := Forall (fun n => head (node_key n) = Some 115 /\ node_v n = []) segs.

Lemma hunt_seg_keys segs c k : seg_keys segs -> c <> 115 -> hunt segs (c :: k) = None.
Proof.
  intros Hs Hc. apply hunt_other. eapply Forall_impl; [exact Hs|]. intros n [Hn _]. destruct (node_key n) as [|d r]; [done|].
  injection Hn as ->. cbn [tok_match]. destruct (Z.eqb_spec 115 c); [congruence|done].
Qed.

(** The other optional fields. *)
Lemma hunt_read_ahead_miss r l k :
  tok_match (bytes "read_ahead") k = false ->
  hunt ((if r =? DM_READ_AHEAD_NONE then [inode (F := F) (bytes "read_ahead") (-1)]
         else opt_nodes (negb (r =? DM_READ_AHEAD_AUTO)) [inode (bytes "read_ahead") r]) ++ l) k = hunt l k.
Proof.
  intros Hk. destruct (r =? DM_READ_AHEAD_NONE); [by rewrite hunt_miss|]. apply hunt_opt_miss. by apply hunt_miss1.
Qed.

Lemma hunt_creation_miss t host l k :
  tok_match (bytes "creation_host") k = false -> tok_match (bytes "creation_time") k = false ->
  hunt (opt_nodes (negb (t =? 0)) ([snode (F := F) (bytes "creation_host") host] ++ [inode (bytes "creation_time") t]) ++ l) k = hunt l k.
Proof. intros H1 H2. apply hunt_opt_miss. rewrite hunt_miss by done. by apply hunt_miss1. Qed.

Lemma hunt_opt_hit b n l k :
  tok_match (node_key n) k = true ->
  hunt (opt_nodes b [n] ++ l) k = if b then Some n else hunt (F := F) l k.
Proof. intros H. destruct b; cbn [opt_nodes]; [by apply hunt_hit|done]. Qed.

Ltac lv_hunt := repeat first [progress hunting | rewrite hunt_creation_miss by reflexivity | rewrite hunt_read_ahead_miss by reflexivity].

(** What an LV's fields become. *)
Definition lv_read_ahead (r : Z) : Z := if r =? DM_READ_AHEAD_AUTO then default_read_ahead env else r.
Definition imported_lv (vg : nat) (v : logical_volume) : logical_volume :=
  let a := lv_attrs_of v in
  LogicalVolume (lv_name v) vg (kept lv_flags (lv_status v)) 0 0 [] []
    (LvAttrs [] [] (la_alloc a) (lv_read_ahead (la_read_ahead a)) 0 0 (la_tags a)
       (la_timestamp a) (if la_timestamp a =? 0 then [] else la_hostname a) 0 None).

Section one.
Context (s : store) (N : gmap (list Z) (list Z)) (v : logical_volume) (segs : list (cnode F)).
Hypothesis Hv : lv_fields_ok (F := F) s N v.
Hypothesis Hcl : la_alloc (lv_attrs_of v) <> ALLOC_CLING_BY_TAGS.
Hypothesis Hk : seg_keys segs.
Let cn := lv_head v ++ segs.
Let a := lv_attrs_of v.

Lemma lv_read_creation : read_creation cn = Some (la_timestamp a, if la_timestamp a =? 0 then [] else la_hostname a).
Proof.
  unfold read_creation, cn, lv_head. rewrite <- !app_assoc. fold a. set (c := [snode (bytes "id") _] ++ _).
  assert (hunt c (bytes "creation_time") = if la_timestamp a =? 0 then None else Some (inode (bytes "creation_time") (la_timestamp a))) as H1.
  { unfold c. hunting. rewrite hunt_app. destruct (la_timestamp a =? 0); cbn [negb opt_nodes]; [|reflexivity]. cbn [hunt].
    lv_hunt. by apply hunt_seg_keys. }
  assert (hunt c (bytes "creation_host") = if la_timestamp a =? 0 then None else Some (snode (bytes "creation_host") (la_hostname a))) as H2.
  { unfold c. hunting. rewrite hunt_app. destruct (la_timestamp a =? 0); cbn [negb opt_nodes]; [|reflexivity]. cbn [hunt].
    lv_hunt. by apply hunt_seg_keys. }
  destruct (Z.eqb_spec (la_timestamp a) 0) as [E|E].
  - destruct (get_none_spec c (bytes "creation_time") eq_refl H1) as (_ & _ & _ & -> & _).
    destruct (get_none_spec c (bytes "creation_host") eq_refl H2) as (_ & _ & _ & -> & _). by rewrite E.
  - assert (dm_config_has_node c (bytes "creation_time") = true) as -> by (unfold dm_config_has_node; by rewrite find_key, H1).
    rewrite (get_uint64_spec c (bytes "creation_time") _ eq_refl H1) by (destruct Hv; unfold a in *; lia).
    by rewrite (get_str_spec c (bytes "creation_host") _ eq_refl H2).
Qed.

Lemma lv_read_policy : read_policy cn ALLOC_INHERIT = la_alloc a.
Proof.
  apply read_policy_spec; [|by destruct Hv|done]. unfold cn, lv_head. rewrite <- !app_assoc. fold a. lv_hunt.
  rewrite hunt_opt_hit by reflexivity. destruct (decide (la_alloc a = ALLOC_INHERIT)) as [E|E].
  - rewrite bool_decide_eq_true_2 by done. cbn [negb]. lv_hunt. by apply hunt_seg_keys.
  - by rewrite bool_decide_eq_false_2.
Qed.

Lemma lv_read_read_ahead : read_read_ahead env cn = lv_read_ahead (la_read_ahead a).
Proof.
  unfold read_read_ahead, lv_read_ahead. set (r := la_read_ahead a).
  assert (hunt cn (bytes "read_ahead") = if r =? DM_READ_AHEAD_NONE then Some (inode (bytes "read_ahead") (-1))
    else if r =? DM_READ_AHEAD_AUTO then None else Some (inode (bytes "read_ahead") r)) as H.
  { unfold cn, lv_head. rewrite <- !app_assoc. fold a r. lv_hunt. rewrite hunt_app.
    destruct (r =? DM_READ_AHEAD_NONE); [reflexivity|]. destruct (r =? DM_READ_AHEAD_AUTO); cbn [negb opt_nodes]; [|reflexivity].
    cbn [hunt]. lv_hunt. by apply hunt_seg_keys. }
  assert (0 <= r < 2 ^ 32) as Hr by (destruct Hv; done).
  unfold DM_READ_AHEAD_NONE, DM_READ_AHEAD_AUTO in *. destruct (Z.eqb_spec r 0) as [Er|Hr0].
  - unfold dm_config_get_uint32. rewrite find_key, H, Er by done. reflexivity.
  - destruct (Z.eqb_spec r (2 ^ 32 - 1)) as [E|E].
    + destruct (get_none_spec cn (bytes "read_ahead") eq_refl H) as (-> & _). done.
    + rewrite (get_uint32_spec cn (bytes "read_ahead") r eq_refl H Hr). by rewrite !(proj2 (Z.eqb_neq _ _)).
Qed.

Lemma lv_hunt_tags : hunt cn (bytes "tags") = match la_tags a with [] => None | _ => Some (Node (bytes "tags") (array_values (la_tags a)) []) end.
Proof.
  unfold cn, lv_head. rewrite <- !app_assoc. fold a. lv_hunt. apply hunt_tags. lv_hunt. by apply hunt_seg_keys.
Qed.

Lemma lv_hunt_id : hunt cn (bytes "id") = Some (snode (bytes "id") (id_text (la_id a))).
Proof. unfold cn, lv_head. rewrite <- !app_assoc. by hunting. Qed.

Lemma lv_hunt_count : hunt cn (bytes "segment_count") = Some (inode (bytes "segment_count") (Z.of_nat (length (lv_segments v)))).
Proof. unfold cn, lv_head. rewrite <- !app_assoc. lv_hunt. reflexivity. Qed.

Lemma lv_hunt_minor : hunt cn (bytes "minor") = if 0 <=? la_minor a then Some (inode (bytes "minor") (la_minor a)) else None.
Proof.
  unfold cn, lv_head. rewrite <- !app_assoc. fold a. lv_hunt. rewrite hunt_opt_hit by reflexivity. destruct (0 <=? la_minor a); [done|].
  lv_hunt. by apply hunt_seg_keys.
Qed.

Lemma lv_hunt_major : hunt cn (bytes "major") = if 0 <=? la_major a then Some (inode (bytes "major") (la_major a)) else None.
Proof.
  unfold cn, lv_head. rewrite <- !app_assoc. fold a. lv_hunt. rewrite hunt_opt_hit by reflexivity. destruct (0 <=? la_major a); [done|].
  lv_hunt. by apply hunt_seg_keys.
Qed.

Lemma lv_head_values : Forall (fun n => node_v n <> []) (lv_head v).
Proof.
  assert (forall l, array_values (F := F) l <> []) as Harr by (by intros []).
  unfold lv_head, flag_nodes, tags_nodes. repeat apply Forall_app_2;
    repeat first [apply Forall_nil_2 | apply Forall_cons_2; [first [discriminate | apply Harr]|] | unfold opt_nodes; case_match].
Qed.

Lemma read_lvnames_spec t vg x (acc : lv_state) :
  st_vgs t !! vg = Some x -> no_oom t -> all_fresh t ->
  let lv := st_next t in
  exists t' hosts, read_lvnames env vg (Node (lv_name v) [] cn) acc t = Some (Some (<[lv_name v := lv]> acc.1, hosts), t') /\
    st_lvs t' = <[lv := imported_lv vg v]> (st_lvs t) /\ st_vgs t' = <[vg := set_vg_lvs (vg_lvs x ++ [lv]) x]> (st_vgs t) /\
    st_pegs t' = st_pegs t /\ st_pvs t' = st_pvs t /\ st_segs t' = st_segs t /\ st_next t' = S lv /\ no_oom t'.
Proof.
  intros Hx Hno Hfr lv. unfold read_lvnames, alloc_lv. rewrite bind_alloc_ok by done. cbn [node_key node_child]. fold lv.
  set (t0 := alloc_in _ t). assert (no_oom t0) as Hn0 by exact (tick_no_oom _ Hno). palloc.
  assert (exists c cn', cn = c :: cn') as (c & cn' & Ecn) by (unfold cn, lv_head; eexists _, _; reflexivity).
  rewrite Ecn. cbn beta iota. rewrite <- Ecn.
  assert (forall u, read_flag_config cn LV_FLAGS u = Some (Some (kept lv_flags (lv_status v)), u)) as Hfl.
  { intros u. apply read_flag_config_spec; [reflexivity..| |]; unfold cn, lv_head; rewrite <- !app_assoc; lv_hunt;
      reflexivity. }
  rewrite (bind_exec _ _ _ _ _ (Hfl _)), lv_read_creation. cbn beta iota.
  destruct (read_opt_tags_spec cn (la_tags a) (alloc_tick t0)) as (t1 & He1 & Ht1); [by destruct Hv as [_ _ [_ ?]]|eauto with oom|by apply lv_hunt_tags|].
  rewrite (bind_exec _ _ _ _ _ He1). cbn beta iota. pose proof Ht1 as (E1 & E2 & E3 & E4 & E5 & E6 & _).
  assert (st_lvs t1 !! lv = Some (LogicalVolume (lv_name v) 0 0 0 0 [] [] no_lv_attrs)) as Hl1 by (rewrite E4; cbn; by rewrite lookup_insert_eq).
  mstep. rewrite lv_read_policy, lv_read_read_ahead. set (t2 := set_tbl _ t1).
  assert (no_oom t2) as Hn2 by (change (no_oom t1); eauto with oom).
  destruct (hash_insert_spec acc.1 (lv_name v) lv t2 Hn2) as (t3 & He3 & Ht3). rewrite (bind_exec _ _ _ _ _ He3). cbn beta iota.
  pose proof Ht3 as (G1 & G2 & G3 & G4 & G5 & G6 & _). unfold link_lv_to_vg. rewrite bind_assoc. palloc. rewrite !bind_assoc.
  set (t4 := alloc_tick t3). assert (no_oom t4) as Hn4 by (unfold t4; eauto with oom).
  set (w2 := set_lv_status _ _) in t2.
  assert (st_lvs t4 = <[lv := w2]> (st_lvs t)) as Hl4.
  { change (st_lvs t4) with (st_lvs t3). rewrite G4. cbn. rewrite E4. cbn. by rewrite insert_insert_eq. }
  assert (st_vgs t4 = st_vgs t) as Hx4 by (change (st_vgs t4) with (st_vgs t3); rewrite G5; cbn; by rewrite E5).
  assert (st_lvs t4 !! lv = Some w2) as Hw4 by (by rewrite Hl4, lookup_insert_eq).
  mstep. rewrite ?bind_assoc.
  assert (st_vgs (set_tbl (<[lv := set_lv_vg vg w2]> (tbl t4)) t4) !! vg = Some x) as Hx5 by (change (st_vgs t4 !! vg = Some x); by rewrite Hx4).
  mstep. set (t5 := set_tbl _ (set_tbl _ _)).
  assert (st_lvs t5 = <[lv := set_lv_vg vg w2]> (st_lvs t)) as Hl5
    by (change (st_lvs t5) with (<[lv := set_lv_vg vg w2]> (st_lvs t4)); by rewrite Hl4, insert_insert_eq).
  assert (st_vgs t5 = <[vg := set_vg_lvs (vg_lvs x ++ [lv]) x]> (st_vgs t)) as Hx6
    by (change (st_vgs t5) with (<[vg := set_vg_lvs (vg_lvs x ++ [lv]) x]> (st_vgs t4)); by rewrite Hx4).
  assert (st_next t5 = S lv) as Hn5 by (change (st_next t5) with (st_next t3); rewrite G6; cbn; by rewrite E6).
  assert (st_pegs t5 = st_pegs t /\ st_pvs t5 = st_pvs t /\ st_segs t5 = st_segs t) as (Hp5 & Hp6 & Hp7).
  { change (st_pegs t5) with (st_pegs t3). change (st_pvs t5) with (st_pvs t3). change (st_segs t5) with (st_segs t3).
    rewrite G1, G2, G3. cbn. by rewrite E1, E2, E3. }
  mstep. cbn [negb]. destruct (Z.eqb_spec (la_timestamp a) 0) as [E|E].
  - exists t5, acc.2. split; [done|]. split; [|done]. rewrite Hl5. unfold imported_lv. fold a. by rewrite E.
  - destruct (lv_set_creation_spec (ie_nodename env) (ie_now env) acc.2 lv (set_lv_vg vg w2) (la_hostname a) (la_timestamp a) t5)
      as (hosts & t6 & He6 & P1 & P2 & P3 & P4 & P5 & P6 & P7); [by rewrite Hl5, lookup_insert_eq|done..|].
    rewrite (bind_exec _ _ _ _ _ He6). exists t6, hosts. split; [done|]. rewrite P1, P2, P3, P4, P5, P6, Hl5, insert_insert_eq.
    split; [|done]. unfold imported_lv. fold a. by rewrite (proj2 (Z.eqb_neq _ _) E).
Qed.
End one.

(** *** All LVs *)

(** An LV and the sections of its segments. *)
Definition lv_entry := (logical_volume * list (cnode F))%type.
Definition lv_node_of (e : lv_entry) : cnode F := Node (lv_name e.1) [] (lv_head e.1 ++ e.2).
Definition entry_ok (s : store) (N : gmap (list Z) (list Z)) (e : lv_entry) : Prop :=
  lv_fields_ok (F := F) s N e.1 /\ la_alloc (lv_attrs_of e.1) <> ALLOC_CLING_BY_TAGS /\ seg_keys e.2.

Lemma empty_vg_add_lv s s' vg x lv v :
  empty_vg s vg x -> st_lvs s' = <[lv := v]> (st_lvs s) -> lv = st_next s -> st_vgs s' = <[vg := set_vg_lvs (vg_lvs x ++ [lv]) x]> (st_vgs s) ->
  st_pegs s' = st_pegs s -> st_pvs s' = st_pvs s -> st_segs s' = st_segs s -> st_next s' = S lv -> no_oom s' ->
  empty_vg s' vg (set_vg_lvs (vg_lvs x ++ [lv]) x).
Proof.
  intros [H1 H2 H3 H4 H5] El -> Ex Ep Ev Es En Hno. pose proof (vo_vg _ _ _ H1) as Hx. split.
  - apply (vg_ok_rest s s' vg x); try done; [by rewrite Ex, lookup_insert_eq| |lia].
    intros g Hg sg Hsg. destruct (Hg sg Hsg) as (y & w & A & B & C). exists y, w. rewrite Es, El. split; [done|]. split; [|done].
    rewrite lookup_insert_ne; [done|]. intros E. rewrite <- E, (af_lvs _ H5) in B; [done|lia].
  - intros p e Hp. rewrite (owner_at_pvs s s') by done. by apply H2.
  - intros p w j h Hp. rewrite Ev, Ep, (owner_at_pvs s s') by done. by apply H3.
  - done.
  - destruct H5 as [F1 F2 F3 F4 F5]. split; rewrite ?Ep, ?Ev, ?Es, ?El, ?Ex, En; intros i Hi;
      [apply F1|apply F2|apply F3|rewrite lookup_insert_ne; [apply F4|]|rewrite lookup_insert_ne; [apply F5|]]; try lia.
    intros ->. rewrite (F5 i) in Hx; [done|lia].
Qed.

Lemma read_lvs_spec s N l t vg x acc :
  empty_vg t vg x -> Forall (entry_ok s N) l -> NoDup (map (fun e => lv_name e.1) l) ->
  exists t' ids h hosts, each_node (read_lvnames env vg) (map lv_node_of l) acc t = Some (Some (h, hosts), t') /\
    empty_vg t' vg (set_vg_lvs (vg_lvs x ++ ids) x) /\
    Forall2 (fun lv e => st_lvs t' !! lv = Some (imported_lv vg e.1) /\ h !! lv_name e.1 = Some lv) ids l /\
    NoDup ids /\ Forall (fun lv => st_next t <= lv)%nat ids /\
    (forall k, k ∉ map (fun e => lv_name e.1) l -> h !! k = acc.1 !! k) /\
    (forall i, (i < st_next t)%nat -> st_lvs t' !! i = st_lvs t !! i) /\
    st_pegs t' = st_pegs t /\ st_pvs t' = st_pvs t /\ st_segs t' = st_segs t /\
    (forall k, k <> vg -> st_vgs t' !! k = st_vgs t !! k) /\ (st_next t <= st_next t')%nat.
Proof.
  revert t x acc. induction l as [|[v segs] l IH]; intros t x acc Hev HF Hnd.
  { exists t, [], acc.1, acc.2. split; [by destruct acc|]. rewrite app_nil_r. split; [by destruct x|]. repeat split; try constructor; done. }
  apply Forall_cons in HF as [(Hv & Hcl & Hk) HF]. cbn [map fst snd] in Hnd |- *. apply NoDup_cons in Hnd as [Hname Hnd].
  destruct (read_lvnames_spec s N v segs Hv Hcl Hk t vg x acc (vo_vg _ _ _ (ev_vg _ _ _ Hev)) (ev_oom _ _ _ Hev) (ev_fresh _ _ _ Hev))
    as (t1 & hosts1 & He & P1 & P2 & P3 & P4 & P5 & P6 & P7).
  pose proof (empty_vg_add_lv _ _ _ _ _ _ Hev P1 eq_refl P2 P3 P4 P5 P6 P7) as Hev1. set (lv := st_next t) in *.
  destruct (IH t1 _ (<[lv_name v := lv]> acc.1, hosts1) Hev1 HF Hnd)
    as (t' & ids & h & hosts & He' & Hev' & HF2 & Hids & Hlow & Hh & Hold & Q1 & Q2 & Q3 & Q4 & Q5).
  exists t', (lv :: ids), h, hosts. cbn [each_node]. change (lv_node_of (v, segs)) with (Node (lv_name v) [] (lv_head v ++ segs)).
  rewrite (bind_exec _ _ _ _ _ He). cbn beta iota. rewrite He'. cbn [set_vg_lvs vg_lvs] in Hev'. rewrite <- app_assoc in Hev'.
  assert (lv ∉ ids) as Hnew.
  { intros Hin. rewrite Forall_forall in Hlow. specialize (Hlow _ Hin). cbn in Hlow. lia. }
  split; [done|]. split; [done|]. split; [|split; [by constructor|split; [|split; [|split; [|split; [|split; [|split; [|split]]]]]]]].
  - constructor; [|done]. split; [rewrite Hold, P1, lookup_insert_eq by lia; done|]. cbn [fst]. rewrite Hh by done. apply lookup_insert_eq.
  - constructor; [done|]. eapply Forall_impl; [exact Hlow|]. cbn. lia.
  - intros k [Hk1 Hk2]%not_elem_of_cons. cbn in Hk1. rewrite Hh by done. cbn. by rewrite lookup_insert_ne.
  - intros i Hi. rewrite Hold, P1, lookup_insert_ne by lia. done.
  - by rewrite Q1.
  - by rewrite Q2.
  - by rewrite Q3.
  - intros k Hk'. by rewrite Q4, P2, lookup_insert_ne.
  - lia.
Qed.
End read_lv.
