(* ===== verification/Quiet.v ===== *)
(** * What placing areas and merging segments leaves alone

    Assigning extents to an area and merging the segments of an LV change counts,
    lengths and lists of segments.  All other fields of the structures stay, and so
    do the addresses that are still free. *)

From S2P Require Import Prelude Metadata PvManip PvSegs LvManip LvSegs ImportProps ImportPvs.

(** The fields that stay. *)
Definition base_pv (v : physical_volume) : physical_volume := set_pv_pe_alloc_count 0 (set_pv_segments [] v).
Definition base_seg (g : lv_segment) : lv_segment := set_seg_areas [] (set_seg_area_len 0 (set_seg_len 0 g)).
Definition base_lv (v : logical_volume) : logical_volume := set_lv_segments [] v.
Definition base_vg (x : volume_group) : volume_group := set_vg_free_count 0 x.

Record keeps (s s' : store) : Prop := {
  kp_fresh : all_fresh s -> all_fresh s';
  kp_alloc : st_alloc s' `suffix_of` st_alloc s;
  kp_pvs : forall p, base_pv <$> st_pvs s' !! p = base_pv <$> st_pvs s !! p;
  kp_segs : forall q, base_seg <$> st_segs s' !! q = base_seg <$> st_segs s !! q;
  kp_lvs : forall l, base_lv <$> st_lvs s' !! l = base_lv <$> st_lvs s !! l;
  kp_vgs : forall x, base_vg <$> st_vgs s' !! x = base_vg <$> st_vgs s !! x }.

#[export] Instance keeps_preorder : PreOrder keeps.
Proof.
  split; [by split|]. intros s1 s2 s3 [A1 A2 A3 A4 A5 A6] [B1 B2 B3 B4 B5 B6].
  split; [auto|by etrans|intros; by rewrite B3|intros; by rewrite B4|intros; by rewrite B5|intros; by rewrite B6].
Qed.

Lemma keeps_oom s s' : keeps s s' -> no_oom s -> no_oom s'.
Proof. intros H Hn. eapply no_oom_suffix; [exact Hn|apply H]. Qed.

(** The programs that keep these fields. *)
Class Quiet {A} (m : M A) : Prop := quiet : forall s a s', m s = Some (a, s') -> keeps s s'.

#[export] Instance quiet_ret {A} (a : A) : Quiet (mret a).
Proof. by intros s b s' [= <- <-]. Qed.

#[export] Instance quiet_wild {A} : Quiet (wild (A := A)).
Proof. by intros s b s'. Qed.

#[export] Instance quiet_bind {A B} (m : M A) (f : A -> M B) : Quiet m -> (forall a, Quiet (f a)) -> Quiet (m ≫= f).
Proof.
  intros Hm Hf s b s' H. unfold mbind, M_bind in H. destruct (m s) as [[a s1]|] eqn:E; [|done].
  etrans; [by eapply Hm|by eapply Hf].
Qed.

#[export] Instance quiet_get {T} `{Table T} p : Quiet (get p).
Proof. intros s a s' E. unfold get in E. destruct (tbl s !! p); [|done]. by injection E as <- <-. Qed.

#[export] Instance quiet_deref {A} (p : option A) : Quiet (deref p).
Proof. destruct p; apply _. Qed.

#[export] Instance quiet_if {A} (b : bool) (m n : M A) : Quiet m -> Quiet n -> Quiet (if b then m else n).
Proof. by destruct b. Qed.

#[export] Instance quiet_option {A B} (o : option A) (f : A -> M B) (n : M B) :
  (forall a, Quiet (f a)) -> Quiet n -> Quiet (match o with Some a => f a | None => n end).
Proof. by destruct o. Qed.

(** Updates of one record. *)
Lemma base_insert {T U} (base : T -> U) (m : gmap nat T) p x y k :
  m !! p = Some x -> base y = base x -> base <$> <[p := y]> m !! k = base <$> m !! k.
Proof.
  intros Hx E. destruct (decide (k = p)) as [->|]; [|by rewrite lookup_insert_ne]. rewrite lookup_insert_eq, Hx. cbn. by rewrite E.
Qed.

Lemma fresh_insert {T} (m : gmap nat T) (n p : nat) (x y : T) :
  m !! p = Some x -> (forall i, (n <= i)%nat -> m !! i = None) -> forall i, (n <= i)%nat -> <[p := y]> m !! i = None.
Proof. intros Hx Hn i Hi. rewrite lookup_insert_ne; [by apply Hn|]. intros ->. by rewrite Hn in Hx. Qed.

Section modify.
Context (p : nat).

Ltac one_record x Ex E :=
  unfold modify in E; cbn in E; match type of E with context [?m !! p] => destruct (m !! p) as [x|] eqn:Ex; [|discriminate E] end;
  injection E as <-; (split; cbn; try done;
    [intros [F1 F2 F3 F4 F5]; split; cbn; try done; by eapply fresh_insert|intros k; by eapply base_insert ..]).

#[export] Instance quiet_modify_peg (f : pv_segment -> pv_segment) : Quiet (modify p f).
Proof.
  intros s [] s' E. unfold modify in E. cbn in E. destruct (st_pegs s !! p) as [x|] eqn:Ex; [|done]. injection E as <-.
  split; cbn; try done. intros [F1 F2 F3 F4 F5]. split; cbn; try done. by eapply fresh_insert.
Qed.

Lemma quiet_modify_pv (f : physical_volume -> physical_volume) : (forall v, base_pv (f v) = base_pv v) -> Quiet (modify p f).
Proof. intros Hf s [] s' E. one_record x Ex E. Qed.

Lemma quiet_modify_seg (f : lv_segment -> lv_segment) : (forall v, base_seg (f v) = base_seg v) -> Quiet (modify p f).
Proof. intros Hf s [] s' E. one_record x Ex E. Qed.

Lemma quiet_modify_lv (f : logical_volume -> logical_volume) : (forall v, base_lv (f v) = base_lv v) -> Quiet (modify p f).
Proof. intros Hf s [] s' E. one_record x Ex E. Qed.

Lemma quiet_modify_vg (f : volume_group -> volume_group) : (forall v, base_vg (f v) = base_vg v) -> Quiet (modify p f).
Proof. intros Hf s [] s' E. one_record x Ex E. Qed.
End modify.

#[export] Hint Extern 1 (Quiet (modify _ _)) =>
  first [apply quiet_modify_pv | apply quiet_modify_seg | apply quiet_modify_lv | apply quiet_modify_vg];
  intros []; reflexivity : typeclass_instances.

#[export] Instance quiet_alloc_pv_segment pv pe len lvseg area : Quiet (alloc_pv_segment pv pe len lvseg area).
Proof.
  intros s a s' E. unfold alloc_pv_segment, alloc in E.
  assert (tail (st_alloc s) `suffix_of` st_alloc s) as Hsuf by apply suffix_tail.
  assert (forall m n, (st_next s <= n)%nat -> (all_fresh s -> forall i, (n <= i)%nat -> m !! i = None) ->
    keeps s (Store m (st_pvs s) (st_segs s) (st_lvs s) (st_vgs s) n (tail (st_alloc s)) (st_discards s))) as H.
  { intros m n Hn Hm. split; cbn; try done. intros Hf. split; cbn; [by apply Hm|..]; intros i Hi; apply Hf; lia. }
  destruct (st_alloc s) as [|[] l]; injection E as _ <-; apply H; try lia;
    intros Hf i Hi; cbn; try apply Hf; try lia; apply insert_fresh; try done; apply Hf.
Qed.

(** ** The programs *)

#[export] Instance quiet_seg_vg seg : Quiet (seg_vg seg).
Proof. unfold seg_vg. apply _. Qed.

#[export] Instance quiet_find_peg_loop back pe : Quiet (find_peg_loop back pe).
Proof. induction back; cbn [find_peg_loop]; apply _. Qed.

#[export] Instance quiet_assign pv pe len seg area : Quiet (assign_peg_to_lvseg pv pe len seg area).
Proof. unfold assign_peg_to_lvseg, pv_split_segment, find_peg_by_pe, pv_split_segment_at. apply _. Qed.

#[export] Instance quiet_area_at seg a : Quiet (area_at seg a).
Proof. unfold area_at. apply _. Qed.

#[export] Instance quiet_set_area seg a ar : Quiet (set_area seg a ar).
Proof. unfold set_area. apply _. Qed.

#[export] Instance quiet_set_lv_segment_area_pv seg a pv pe : Quiet (set_lv_segment_area_pv seg a pv pe).
Proof. unfold set_lv_segment_area_pv. apply _. Qed.

#[export] Instance quiet_area_pvseg ar : Quiet (area_pvseg ar).
Proof. unfold area_pvseg. destruct ar as [t []]; apply _. Qed.

#[export] Instance quiet_areas_adjacent first second a n : Quiet (areas_adjacent first second a n).
Proof. revert a. induction n; intros a; cbn [areas_adjacent]; apply _. Qed.

#[export] Instance quiet_compatible first second : Quiet (striped_segments_compatible first second).
Proof. unfold striped_segments_compatible. apply _. Qed.

#[export] Instance quiet_add_lengths seg1 seg2 : Quiet (add_lengths seg1 seg2).
Proof. unfold add_lengths. apply _. Qed.

#[export] Instance quiet_merge_areas seg1 seg2 a n : Quiet (merge_areas seg1 seg2 a n).
Proof. revert a. induction n; intros a; cbn [merge_areas]; unfold merge_pv_segments; apply _. Qed.

#[export] Instance quiet_merge first second : Quiet (merge first second).
Proof.
  unfold merge, merge_segments, striped_merge_segments, errseg_merge_segments, zero_merge_segments.
  destruct first as [first|]; [|apply _]. apply quiet_bind; [apply _|intros g]. repeat destruct (decide _); apply _.
Qed.

#[export] Instance quiet_merge_loop lv prev segs : Quiet (merge_loop lv prev segs).
Proof. revert prev. induction segs; intros prev; cbn [merge_loop]; apply _. Qed.

#[export] Instance quiet_lv_merge_segments lv : Quiet (lv_merge_segments lv).
Proof. unfold lv_merge_segments. apply _. Qed.
