(* ===== verification/Place.v ===== *)
(** * Areas placed on free extents

    A range of free extents lies in one free PV segment when free segments are as
    long as they can be; giving it to an area of an LV segment changes the owners
    of the range only, and keeps the links of all other areas. *)

From S2P Require Import Prelude Metadata PvManip PvSegs LvManip LvSegs.

Lemma free_max_same s s' x : same_pvs s s' -> free_max s x -> free_max s' x.
Proof.
  intros Hm Hf p v j h Hp Hv Hj Hh Hn. rewrite (owner_at_same _ _ _ _ Hm).
  rewrite (sm_pvs _ _ Hm) in Hv. rewrite (sm_pegs _ _ Hm) in Hh. by apply (Hf p v j h).
Qed.

Section place.
Context (s : store) (vg : nat) (x : volume_group).
Hypothesis Hvg : vg_ok s vg x.
Hypothesis Hfm : free_max s x.
Hypothesis Hno : no_oom s.
Context (p : nat) (v : physical_volume) (pe len : Z).
Hypothesis Hp : p ∈ vg_pvs x.
Hypothesis Hv : st_pvs s !! p = Some v.
Hypothesis Hpe : 0 <= pe.
Hypothesis Hlen : 0 < len.
Hypothesis Hend : pe + len <= pv_pe_count v.
Hypothesis Hfree : forall e, pe <= e < pe + len -> owner_at s p e = None.

Lemma free_range l :
  pv_ok s vg p v l ->
  exists l1 i g l2, l = l1 ++ (i, g) :: l2 /\ peg_lvseg g = None /\ peg_pe g <= pe /\ pe + len <= peg_pe g + peg_len g.
Proof.
  intros Hok. pose proof Hok as (Hview & Hs & _). pose proof (so_covers _ _ _ _ Hs) as Hc.
  destruct (find_peg_by_pe_spec s p _ v l pe Hview Hs ltac:(lia)) as (l1 & i & g & l2 & E & Hin & _).
  exists l1, i, g, l2. split; [done|]. pose proof (Hfree pe ltac:(lia)) as Ho. rewrite (owner_at_view _ _ _ _ _ Hview) in Ho.
  rewrite E, fmap_app, fmap_cons in Hc, Ho. cbn [snd] in *.
  rewrite (owner_middle _ _ _ _ _ _ Hc), decide_False, decide_True in Ho by lia. cbn in Ho.
  rewrite (proj2 (Z.leb_le _ _)), (proj2 (Z.ltb_lt _ _)) in Ho by lia. cbn in Ho.
  assert (peg_lvseg g = None) as Hg by (by destruct (peg_lvseg g)). split; [done|]. split; [lia|].
  assert (i ∈ pv_segments v) as Hi by (rewrite (proj1 (proj2 Hview)), E, fmap_app, fmap_cons; set_solver).
  destruct (Hfm p v i g Hp Hv Hi) as [|Hused]; [eapply view_elem; [exact Hview|rewrite E; set_solver]|done|lia|].
  destruct (Z.lt_ge_cases (peg_pe g + peg_len g) (pe + len)); [|lia]. destruct Hused. apply Hfree. lia.
Qed.

Context (seg : nat) (area : Z) (y : lv_segment) (w : logical_volume).
Hypothesis Hy : st_segs s !! seg = Some y.
Hypothesis Hw : st_lvs s !! seg_lv y = Some w.
Hypothesis Hwvg : lv_vg w = vg.

Let x' := with_counts x (vg_extent_count x) (vg_free_count x - len).

Lemma assign_free :
  exists s' j, assign_peg_to_lvseg (Some p) pe len seg area s = Some (Some j, s') /\
    vg_ok s' vg x' /\ free_max s' x' /\ st_segs s' = st_segs s /\ st_lvs s' = st_lvs s /\ st_vgs s' = <[vg := x']> (st_vgs s) /\
    linked_at s' x seg area len j p pe /\ (forall sg a n ar, linked s x sg a n ar -> linked s' x sg a n ar) /\
    (forall q e, q ∈ vg_pvs x -> owner_at s' q e = if decide (q = p /\ pe <= e < pe + len) then Some (seg, area, e - pe) else owner_at s q e).
Proof.
  destruct (vo_pvs _ _ _ Hvg p Hp) as (v0 & l & Hok). assert (v0 = v) as -> by (destruct Hok as ((? & _) & _); congruence).
  destruct (free_range l Hok) as (l1 & i & g & l2 & E & Hg & Hge & Hle).
  destruct (assign_spec s vg x p v l l1 i g l2 pe len seg area y w Hvg Hp Hok E Hg Hge Hlen Hle Hy Hw Hwvg)
    as [(s' & j & v' & l' & He & Hc & Hvg' & Hok' & Hj & Hcnt & Hown & Hfe & Hku)|(s' & v' & l' & _ & Hoom & _)]; [|done].
  exists s', j. split; [done|]. pose proof (proj1 Hok') as Hview'.
  assert (forall q e, q ∈ vg_pvs x -> owner_at s' q e = if decide (q = p /\ pe <= e < pe + len) then Some (seg, area, e - pe) else owner_at s q e) as Hall.
  { intros q e Hq. destruct (decide (q = p)) as [->|Hqp].
    - rewrite (owner_at_view _ _ _ _ e Hview'), Hown, (owner_at_view _ _ _ _ e (proj1 Hok)).
      destruct (decide (pe <= e < pe + len)); [by rewrite decide_True|by rewrite decide_False by tauto].
    - rewrite decide_False by tauto. destruct (vo_pvs _ _ _ Hvg q Hq) as (wq & lq & Hokq).
      rewrite (owner_at_view _ _ _ _ e (proj1 Hokq)). by rewrite (owner_at_view _ _ _ _ e (proj1 (pv_change_view _ _ _ _ _ _ _ _ _ _ Hc Hqp Hokq))). }
  split; [done|]. split; [|split; [apply Hc|split; [apply Hc|split; [apply Hc|split; [|split; [|done]]]]]].
  - intros q u k h Hq Hu Hk Hh Hnone. change (q ∈ vg_pvs x) in Hq. destruct (decide (q = p)) as [->|Hqp].
    + pose proof (view_lookup _ _ _ _ _ _ _ Hview' Hu Hk Hh) as Hin. assert (u = v') as -> by (destruct Hview'; congruence).
      assert (free_end l'.*2 (peg_pe h + peg_len h)) as Hf.
      { exists h. split; [|done]. apply list_elem_of_fmap. by exists (k, h). }
      destruct (Hfe _ Hf) as [Epe|(h0 & Hh0 & Hn0 & E0)].
      { right. rewrite Epe, Hall, decide_True by first [done | split; [done|lia]]. done. }
      apply list_elem_of_fmap in Hh0 as ([k0 h0'] & [= ->] & Hin0). cbn [snd] in *.
      destruct (Hfm p v k0 h0' Hp Hv) as [Hend0|Hused0]; [|by eapply view_elem; [apply Hok|]|done| |].
      * rewrite (proj1 (proj2 (proj1 Hok))). apply list_elem_of_fmap. by exists (k0, h0').
      * left. lia.
      * right. rewrite Hall by done. case_decide; [done|]. by rewrite <- E0.
    + rewrite Hall, decide_False by first [done | tauto].
      rewrite (pc_pvs _ _ _ _ _ _ _ Hc), lookup_insert_ne in Hu by done. apply (Hfm q u k h Hq Hu Hk); [|done].
      destruct (vo_pvs _ _ _ Hvg q Hq) as (wq & lq & Hokq). pose proof (pv_change_view _ _ _ _ _ _ _ _ _ _ Hc Hqp Hokq) as Hokq'.
      assert (u = wq) as -> by (destruct Hokq as ((? & _) & _); congruence).
      pose proof (view_lookup _ _ _ _ _ _ wq (proj1 Hokq') ltac:(apply Hokq') Hk Hh) as Hin.
      by eapply view_elem; [apply Hokq|].
  - split; [by eapply view_elem|]. split; [done|]. exists v'. split; [apply Hview'|]. rewrite (proj1 (proj2 Hview')).
    apply list_elem_of_fmap. by eexists (_, _).
  - intros sg a n ar Hl. pose proof Hl as (k & q & u & pe' & -> & Hk & Hq & Hu & Hin). eapply linked_change; [exact Hc|done|].
    intros pe2 Hpe2. assert (q = p) as -> by congruence. apply Hku; [|done].
    by eapply view_lookup; [apply Hok|exact Hu|..].
Qed.
End place.

(** [set_lv_segment_area_pv] with the extents of the area free. *)
Lemma set_area_pv_free s vg x p v pe q g w i ar :
  vg_ok s vg x -> free_max s x -> no_oom s -> p ∈ vg_pvs x -> st_pvs s !! p = Some v ->
  0 <= pe -> 0 < seg_area_len g -> pe + seg_area_len g <= pv_pe_count v ->
  (forall e, pe <= e < pe + seg_area_len g -> owner_at s p e = None) ->
  st_segs s !! q = Some g -> st_lvs s !! seg_lv g = Some w -> lv_vg w = vg -> 0 <= i -> seg_areas g !! Z.to_nat i = Some ar ->
  let x' := with_counts x (vg_extent_count x) (vg_free_count x - seg_area_len g) in
  exists s' j, set_lv_segment_area_pv q i (Some p) pe s = Some (true, s') /\ vg_ok s' vg x' /\ free_max s' x' /\
    st_segs s' = <[q := set_seg_areas (<[Z.to_nat i := Area AREA_PV (U_pv (Some j))]> (seg_areas g)) g]> (st_segs s) /\
    st_lvs s' = st_lvs s /\ linked s' x q i (seg_area_len g) (Area AREA_PV (U_pv (Some j))) /\
    (forall sg a n ar', linked s x sg a n ar' -> linked s' x sg a n ar') /\
    (forall p' e, p' ∈ vg_pvs x -> owner_at s' p' e =
       if decide (p' = p /\ pe <= e < pe + seg_area_len g) then Some (q, i, e - pe) else owner_at s p' e).
Proof.
  intros Hvg Hfm Hno Hp Hv Hpe HL Hend Hfree Hg Hw Hwvg Hi Har x'. set (L := seg_area_len g) in *. unfold set_lv_segment_area_pv.
  rewrite (bind_exec _ _ _ _ _ (area_at_exec s q g i ar Hg Hi Har)).
  rewrite (bind_exec _ _ _ _ _ (set_area_exec s q g i ar (Area AREA_PV (area_u_of ar)) Hg Hi Har)).
  set (g1 := set_seg_areas _ g). set (s1 := with_seg q g1 s).
  assert (st_segs s1 !! q = Some g1) as Hg1 by apply lookup_insert_eq. mstep. change (seg_area_len g1) with L.
  assert (same_pvs s s1) as Hm1 by by eapply same_pvs_with_seg.
  destruct (assign_free s1 vg x (vg_ok_same _ _ _ _ Hm1 Hvg) (free_max_same _ _ _ Hm1 Hfm) Hno p v pe L Hp Hv Hpe HL Hend) with (seg := q) (area := i) (y := g1) (w := w)
    as (s2 & j & He & Hvg2 & Hfm2 & Es & El & _ & Hlk & Hfr & Hown); [|done..|].
  { intros e He. rewrite (owner_at_same _ _ _ _ Hm1). by apply Hfree. }
  rewrite (bind_exec _ _ _ _ _ He). cbn beta.
  assert (st_segs s2 !! q = Some g1) as Hg2 by by rewrite Es.
  assert (seg_areas g1 !! Z.to_nat i = Some (Area AREA_PV (area_u_of ar))) as Har1.
  { cbn. apply list_lookup_insert_eq. by eapply lookup_lt_Some. }
  rewrite (bind_exec _ _ _ _ _ (set_area_exec s2 q g1 i _ (Area AREA_PV (U_pv (Some j))) Hg2 Hi Har1)).
  set (s3 := with_seg q _ s2). assert (same_pvs s2 s3) as Hm3 by by eapply same_pvs_with_seg.
  exists s3, j. split; [done|]. split; [by eapply vg_ok_same|]. split; [by eapply free_max_same|]. split.
  { cbn. rewrite Es. cbn. rewrite insert_insert_eq. f_equal. unfold g1, set_seg_areas. cbn. by rewrite list_insert_insert_eq. }
  split; [done|]. split; [eapply linked_same; [exact Hm3|]; by eapply linked_at_linked|]. split.
  - intros sg a n ar' Hl. eapply linked_same; [exact Hm3|]. apply Hfr. by eapply linked_same.
  - intros p' e Hp'. rewrite (owner_at_same _ _ _ _ Hm3), Hown, (owner_at_same _ _ _ _ Hm1) by done. done.
Qed.
