(* ===== verification/ImportSegs.v ===== *)
(** * Reading the segments of an LV

    A segment takes the extents of its areas from PVs whose extents are free there. *)

From S2P Require Import Prelude DmString Uuid Config ConfigProps Metadata PvManip PvSegs LvManip LvSegs LvReduce CheckLv Flags TextExport ExportProps TextImport ImportProps ImportPvs ImportLvs Quiet Place.

(** ** Slots: what is placed where *)

(** Extents [sl_pe], ..., of the PV called [sl_pv] hold area [sl_area] of the segment of
    LV [sl_lv] that begins at [sl_le], with [sl_mult] logical extents a row. *)
Record slot := Slot { sl_pv : list Z; sl_pe : Z; sl_len : Z; sl_lv : nat; sl_area : Z; sl_le : Z; sl_mult : Z }.

Definition in_slot (sl : slot) (name : list Z) (e : Z) : bool :=
  bool_decide (sl_pv sl = name) && (sl_pe sl <=? e) && (e <? sl_pe sl + sl_len sl).
Definition holds (sl : slot) (e : Z) : nat * Z * Z := (sl_lv sl, sl_area sl, sl_le sl + (e - sl_pe sl) * sl_mult sl).

Fixpoint placed (P : list slot) (name : list Z) (e : Z) : option (nat * Z * Z) :=
  match P with
  | [] => None
  | sl :: P => if in_slot sl name e then Some (holds sl e) else placed P name e
  end.

Definition apart (a b : slot) : Prop :=
  sl_pv a = sl_pv b -> sl_pe a + sl_len a <= sl_pe b \/ sl_pe b + sl_len b <= sl_pe a.

Lemma in_slot_iff sl name e : in_slot sl name e = true <-> sl_pv sl = name /\ sl_pe sl <= e < sl_pe sl + sl_len sl.
Proof. unfold in_slot. rewrite !andb_true_iff, bool_decide_eq_true, Z.leb_le, Z.ltb_lt. tauto. Qed.

Lemma placed_app P1 P2 name e :
  placed (P1 ++ P2) name e = match placed P1 name e with Some r => Some r | None => placed P2 name e end.
Proof. induction P1 as [|sl P1 IH]; [done|]. cbn. by destruct (in_slot _ _ _). Qed.

Lemma placed_none P name e : (forall sl, sl ∈ P -> in_slot sl name e = false) -> placed P name e = None.
Proof. induction P as [|sl P IH]; intros H; [done|]. cbn. rewrite H by left. apply IH. intros sl' Hs. apply H. by right. Qed.

Lemma apart_placed P sl e :
  (forall sl', sl' ∈ P -> apart sl' sl) -> sl_pe sl <= e < sl_pe sl + sl_len sl -> placed P (sl_pv sl) e = None.
Proof.
  intros Hap He. apply placed_none. intros sl' Hs. apply not_true_iff_false. intros [E H]%in_slot_iff.
  destruct (Hap sl' Hs E); lia.
Qed.

(** An extent that holds nothing has no owner. *)
Lemma no_extent_no_owner s vg x p e : vg_ok s vg x -> p ∈ vg_pvs x -> lv_extent s p e = None -> owner_at s p e = None.
Proof.
  intros Hvg Hp Hx. destruct (vo_pvs _ _ _ Hvg p Hp) as (v & l & Hview & _ & Ho). unfold lv_extent in Hx.
  destruct (owner_at s p e) as [[[sg a] k]|] eqn:E; [|done]. rewrite (owner_at_view _ _ _ _ _ Hview) in E.
  destruct (owner_elem _ _ _ _ _ E) as (h & Hh & Hsg). rewrite Forall_forall in Ho. destruct (Ho h Hh sg Hsg) as (y & w & Hy & _).
  by rewrite Hy in Hx.
Qed.

(** The VG while LVs are read: its PVs hold the slots [P] and nothing else. *)
Record reading (h : gmap (list Z) nat) (vg : nat) (t : store) (x : volume_group) (P : list slot) : Prop := {
  rd_vg : vg_ok t vg x;
  rd_free : free_max t x;
  rd_oom : no_oom t;
  rd_fresh : all_fresh t;
  rd_names : forall n1 n2 p, h !! n1 = Some p -> h !! n2 = Some p -> n1 = n2;
  rd_pvs : forall n p, h !! n = Some p -> p ∈ vg_pvs x;
  rd_extents : forall n p e, h !! n = Some p -> lv_extent t p e = placed P n e }.

(** *** One area *)

Lemma place_area h vg t x P q g w i ar name p v pe :
  reading h vg t x P -> st_segs t !! q = Some g -> st_lvs t !! seg_lv g = Some w -> lv_vg w = vg ->
  h !! name = Some p -> st_pvs t !! p = Some v -> 0 <= i -> seg_areas g !! Z.to_nat i = Some ar ->
  0 < seg_area_len g -> 0 <= pe -> pe + seg_area_len g <= pv_pe_count v ->
  let sl := Slot name pe (seg_area_len g) (seg_lv g) i (seg_le g) (mult g) in
  (forall sl', sl' ∈ P -> apart sl' sl) ->
  exists t' j, set_lv_segment_area_pv q i (Some p) pe t = Some (true, t') /\
    reading h vg t' (with_counts x (vg_extent_count x) (vg_free_count x - seg_area_len g)) (P ++ [sl]) /\
    st_segs t' = <[q := set_seg_areas (<[Z.to_nat i := Area AREA_PV (U_pv (Some j))]> (seg_areas g)) g]> (st_segs t) /\
    st_lvs t' = st_lvs t /\ keeps t t' /\ linked t' x q i (seg_area_len g) (Area AREA_PV (U_pv (Some j))) /\
    (forall sg a n ar', linked t x sg a n ar' -> linked t' x sg a n ar').
Proof.
  intros [R1 R2 R3 R4 R5 R6 R7] Hg Hw Hwvg Hn Hv Hi Har HL Hpe Hend sl Hap. pose proof (R6 _ _ Hn) as Hp.
  destruct (set_area_pv_free t vg x p v pe q g w i ar R1 R2 R3 Hp Hv Hpe HL Hend) as (t' & j & He & Hvg & Hfm & Es & El & Hlk & Hfr & Hown); try done.
  { intros e He. eapply no_extent_no_owner; [exact R1|done|]. rewrite (R7 _ _ _ Hn). by apply (apart_placed P sl). }
  pose proof (quiet _ _ _ He) as Hq. exists t', j. split; [done|]. split; [|done].
  split; [done|done|by eapply keeps_oom|by apply Hq|done|done|].
  intros n p' e Hn'. rewrite placed_app, <- (R7 _ _ _ Hn'). unfold lv_extent. rewrite Hown by by eapply R6. rewrite Es. cbn [placed].
  set (g' := set_seg_areas _ g). case_decide as Hd.
  - destruct Hd as [-> He']. rewrite (no_extent_no_owner t vg x p e R1 Hp) by (rewrite (R7 _ _ _ Hn); by apply (apart_placed P sl)).
    rewrite lookup_insert_eq. assert (in_slot sl n e = true) as -> by (apply in_slot_iff; split; [by apply (R5 _ _ p)|done]). done.
  - assert (in_slot sl n e = false) as ->.
    { apply not_true_iff_false. intros [E H]%in_slot_iff. cbn in E, H. subst n. apply Hd. split; [congruence|done]. }
    destruct (owner_at t p' e) as [[[sg a] k]|]; [|done].
    destruct (decide (sg = q)) as [->|]; [by rewrite lookup_insert_eq, Hg|]. rewrite lookup_insert_ne by done. by destruct (st_segs t !! sg).
Qed.

(** *** The areas of a segment *)

(** An area is named by its PV and first extent; it lies on the PV. *)
Definition fits (h : gmap (list Z) nat) (t : store) (L : Z) (area : list Z * Z) : Prop :=
  exists p v, h !! area.1 = Some p /\ st_pvs t !! p = Some v /\ 0 <= area.2 < 2 ^ 32 /\ area.2 + L <= pv_pe_count v.

Lemma keeps_pv t t' p v : keeps t t' -> st_pvs t !! p = Some v -> exists v', st_pvs t' !! p = Some v' /\ base_pv v' = base_pv v.
Proof.
  intros Hk Hv. pose proof (kp_pvs _ _ Hk p) as E. rewrite Hv in E. destruct (st_pvs t' !! p) as [v'|]; [|done].
  apply (inj Some) in E. by exists v'.
Qed.

Lemma base_pv_count v v' : base_pv v' = base_pv v -> pv_pe_count v' = pv_pe_count v.
Proof. intros E. change (pv_pe_count (base_pv v') = pv_pe_count (base_pv v)). by rewrite E. Qed.

Lemma fits_keeps h t t' L area : keeps t t' -> fits h t L area -> fits h t' L area.
Proof.
  intros Hk (p & v & H1 & H2 & H3 & H4). destruct (keeps_pv _ _ _ _ Hk H2) as (v' & Hv' & E).
  exists p, v'. by rewrite (base_pv_count _ _ E).
Qed.

(** No slot overlaps one before it. *)
Definition separate (P : list slot) : Prop := forall P1 sl P2 sl', P = P1 ++ sl :: P2 -> sl' ∈ P1 -> apart sl' sl.

Lemma separate_prefix P1 P2 : separate (P1 ++ P2) -> separate P1.
Proof. intros H Q1 sl Q2 sl' -> Hs. apply (H Q1 sl (Q2 ++ P2) sl'); [by rewrite <- app_assoc|done]. Qed.

Fixpoint area_slots (lv : nat) (le m L i : Z) (areas : list (list Z * Z)) : list slot :=
  match areas with
  | [] => []
  | a :: areas => Slot a.1 a.2 L lv i le m :: area_slots lv le m L (i + 1) areas
  end.

(** The fields of PVs but their segments. *)
Definition same_base (t t' : store) : Prop := forall p, base_pv <$> st_pvs t' !! p = base_pv <$> st_pvs t !! p.

(** The counts of [x'] may differ from those of [x]. *)
Definition counted (x x' : volume_group) : Prop := exists f, x' = with_counts x (vg_extent_count x) f.

Lemma counted_refl x : counted x x.
Proof. exists (vg_free_count x). by destruct x. Qed.

Lemma counted_trans x1 x2 x3 : counted x1 x2 -> counted x2 x3 -> counted x1 x3.
Proof. intros [f ->] [f' ->]. by exists f'. Qed.

Section areas.
Context {F : Type}.

Definition area_cvs (areas : list (list Z * Z)) : list (cvalue F) := concat (map (fun a => [CfgString a.1; CfgInt a.2]) areas).

Lemma areas_loop_spec h vg x q status areas : forall t x0 P g w i,
  counted x x0 -> reading h vg t x0 P -> st_segs t !! q = Some g -> st_lvs t !! seg_lv g = Some w -> lv_vg w = vg -> 0 <= i ->
  Z.of_nat (length (seg_areas g)) = i + Z.of_nat (length areas) -> 0 < seg_area_len g -> Forall (fits h t (seg_area_len g)) areas ->
  let slots := area_slots (seg_lv g) (seg_le g) (mult g) (seg_area_len g) i areas in
  separate (P ++ slots) ->
  exists t' x' areas', import_areas_loop q h status i (length areas) (area_cvs areas) t = Some (true, t') /\
    counted x x' /\ reading h vg t' x' (P ++ slots) /\ st_segs t' = <[q := set_seg_areas areas' g]> (st_segs t) /\
    st_lvs t' = st_lvs t /\ keeps t t' /\ length areas' = length (seg_areas g) /\
    (forall a, 0 <= a < i -> areas' !! Z.to_nat a = seg_areas g !! Z.to_nat a) /\
    (forall a, i <= a < i + Z.of_nat (length areas) -> exists ar, areas' !! Z.to_nat a = Some ar /\ linked t' x q a (seg_area_len g) ar) /\
    (forall sg a n ar, linked t x sg a n ar -> linked t' x sg a n ar).
Proof.
  induction areas as [|[name pe] areas IH]; intros t x0 P g w i Hx0 Hr Hg Hw Hwvg Hi Hlen HL Hfit slots Hsep.
  { exists t, x0, (seg_areas g). cbn [length import_areas_loop area_cvs map concat slots area_slots]. rewrite app_nil_r.
    split; [done|]. split; [done|]. split; [done|]. split; [rewrite insert_id; [done|by destruct g]|].
    do 4 (split; [done|]). split; [|done]. intros a Ha. cbn [length] in Ha. lia. }
  destruct Hx0 as [f0 ->]. apply Forall_cons in Hfit as [(p & v & Hn & Hv & Hpe & Hend) Hfit]. cbn [fst snd length] in *.
  destruct (lookup_lt_is_Some_2 (seg_areas g) (Z.to_nat i)) as [ar Har]; [lia|].
  set (sl := Slot name pe (seg_area_len g) (seg_lv g) i (seg_le g) (mult g)).
  assert (slots = sl :: area_slots (seg_lv g) (seg_le g) (mult g) (seg_area_len g) (i + 1) areas) as Eslots by done.
  destruct (place_area h vg t (with_counts x (vg_extent_count x) f0) P q g w i ar name p v pe) as (t1 & j & He & Hr1 & Es & El & Hk & Hlk & Hfr); try done; [lia| |].
  { intros sl' Hs. rewrite Eslots in Hsep. by eapply Hsep. }
  set (g1 := set_seg_areas _ g) in Es. set (x1 := with_counts (with_counts _ _ _) _ _) in Hr1.
  assert (counted x x1) as Hx1 by by eexists.
  destruct (IH t1 x1 (P ++ [sl]) g1 w (i + 1) Hx1 Hr1) as (t' & x' & areas' & He' & Hx' & Hr' & Es' & El' & Hk' & Hl' & Hold & Hnew & Hfr'); try done.
  - by rewrite Es, lookup_insert_eq.
  - cbn. by rewrite El.
  - lia.
  - cbn. rewrite length_insert. lia.
  - eapply Forall_impl; [exact Hfit|]. intros a. by apply fits_keeps.
  - rewrite <- app_assoc. exact Hsep.
  - exists t', x', areas'. cbn [import_areas_loop area_cvs map concat app length fst snd]. rewrite Hn, wrap32_small by done.
    rewrite (bind_exec _ _ _ _ _ He). cbn [negb]. change (concat (map _ areas)) with (area_cvs areas). rewrite He'.
    split; [done|]. split; [done|]. split; [rewrite <- app_assoc in Hr'; exact Hr'|]. cbn in Hl'. rewrite length_insert in Hl'.
    split; [by rewrite Es', Es, insert_insert_eq|]. split; [by rewrite El'|]. split; [by etrans|]. split; [done|]. split; [|split].
    + intros a Ha. rewrite Hold by lia. cbn. apply list_lookup_insert_ne. lia.
    + intros a Ha. destruct (decide (a = i)) as [->|]; [|apply Hnew; lia]. eexists. split; [|apply Hfr'; exact Hlk].
      rewrite Hold by lia. cbn. apply list_lookup_insert_eq. lia.
    + intros sg a n ar' Hl. apply Hfr', Hfr, Hl.
Qed.
End areas.

(** *** Changes that move no extent *)

Definition same_place (y y' : lv_segment) : Prop := seg_lv y' = seg_lv y /\ seg_le y' = seg_le y /\ mult y' = mult y.

Lemma reading_frame h vg t t' x P :
  reading h vg t x P -> same_pvs t t' -> all_fresh t' ->
  (forall sg y, st_segs t !! sg = Some y -> exists y', st_segs t' !! sg = Some y' /\ same_place y y') -> reading h vg t' x P.
Proof.
  intros [R1 R2 R3 R4 R5 R6 R7] Hm Hf Hs. split; try done; [by eapply vg_ok_same|by eapply free_max_same| |].
  - eapply no_oom_suffix; [exact R3|apply Hm].
  - intros n p e Hn. rewrite <- (R7 n p e Hn). unfold lv_extent. rewrite (owner_at_same _ _ _ _ Hm).
    destruct (owner_at t p e) as [[[sg a] k]|] eqn:Ho; [|done]. destruct (st_segs t !! sg) as [y|] eqn:Hy.
    + destruct (Hs sg y Hy) as (y' & Hy' & E1 & E2 & E3). by rewrite Hy', E1, E2, E3.
    + pose proof (no_extent_no_owner t vg x p e R1 (R6 _ _ Hn)) as Hnone. unfold lv_extent in Hnone. rewrite Ho, Hy in Hnone. naive_solver.
Qed.

Lemma reading_with_seg h vg t x P q g g' :
  reading h vg t x P -> st_segs t !! q = Some g -> same_place g g' -> reading h vg (with_seg q g' t) x P.
Proof.
  intros Hr Hg Hsame. eapply reading_frame; [exact Hr|eapply same_pvs_with_seg; [exact Hg|apply Hsame]| |].
  - destruct (rd_fresh _ _ _ _ _ Hr) as [F1 F2 F3 F4 F5]. split; try done. by eapply fresh_insert.
  - intros sg y Hy. cbn. destruct (decide (sg = q)) as [->|]; [|exists y; by rewrite lookup_insert_ne].
    exists g'. rewrite lookup_insert_eq. split; [done|]. congruence.
Qed.

Lemma reading_with_lv h vg t x P lv w w' :
  reading h vg t x P -> st_lvs t !! lv = Some w -> lv_vg w' = lv_vg w ->
  reading h vg (set_tbl (T := logical_volume) (<[lv := w']> (st_lvs t)) t) x P.
Proof.
  intros Hr Hw Hv. eapply reading_frame; [exact Hr|by eapply same_pvs_lv| |].
  - destruct (rd_fresh _ _ _ _ _ Hr) as [F1 F2 F3 F4 F5]. split; try done. by eapply fresh_insert.
  - intros sg y Hy. by exists y.
Qed.

Lemma reading_ticks h vg t t' x P : reading h vg t x P -> ticks t t' -> reading h vg t' x P.
Proof.
  intros Hr Ht. pose proof Ht as (E1 & E2 & E3 & E4 & E5 & E6 & E7). eapply reading_frame; [exact Hr| | |].
  - split; try done; try lia; [intros; rewrite E3|intros; rewrite E4]; eauto.
  - eapply all_fresh_ticks; [exact Ht|apply Hr].
  - intros sg y Hy. exists y. by rewrite E3.
Qed.

Section read_segment.
Context {F : Type} (env : import_env (F := F)).

(** The type that is registered under a name. *)
Definition segtype_found (name : list Z) (t : segment_type) : Prop :=
  List.find (fun t => bool_decide (segtype_name t = name)) (ie_segtypes env) = Some t.

Lemma get_segtype_found name t s : segtype_found name t -> get_segtype_from_string (ie_segtypes env) name s = Some (Some t, s).
Proof. intros H. unfold get_segtype_from_string, segtype_found in *. by rewrite H. Qed.

Lemma segtype_found_name name t : segtype_found name t -> segtype_name t = name.
Proof. intros H. by apply List.find_some in H as [_ ?%bool_decide_eq_true]. Qed.

(** A new segment, before its type reads the rest of the section. *)
Definition new_segment (lv : nat) (t : segment_type) (le len n : Z) : lv_segment :=
  LvSegment lv t le len 0 0 n len None [] (replicate (Z.to_nat n) zero_area) (SegAttrs 0 None None 0 0 None [] None 0 None 0).

Lemma read_segment_begins lv name (cn : list (cnode F)) h s le len t n :
  cn <> [] -> dm_config_get_uint32 cn (bytes "start_extent") = Some le -> dm_config_get_uint32 cn (bytes "extent_count") = Some len ->
  dm_config_get_str cn (bytes "type") = Some (segtype_name t) -> segtype_found (segtype_name t) t ->
  flag (segtype_flags t) SEG_RAID = false ->
  (if text_import_area_count env t is Some f then f cn else Some 0) = Some n -> 0 <= n -> n * AREA_SIZE < 2 ^ 32 -> no_oom s ->
  read_segment env lv (Node name [] cn) h s =
    (ok ← (if text_import env t is Some f then f (st_next s) cn h else mret true);
     if negb ok then mret false else
     tags ← read_opt_tags cn;
     match tags with
     | None => mret false
     | Some tags =>
         modify (st_next s) (set_seg_tags tags);;
         insert_segment lv (st_next s);;
         segment_flags lv (st_next s);;
         mret true
     end) (alloc_tick (alloc_seg (new_segment lv t le len n) s)).
Proof.
  intros Hcn H1 H2 H3 Ht Hr Hn Hn0 Hn1 Hno. destruct cn as [|c l]; [done|]. unfold read_segment. cbn [node_child]. rewrite H1, H2, H3.
  rewrite (bind_exec _ _ _ _ _ (get_segtype_found _ _ _ Ht)). cbn beta iota. rewrite Hn.
  destruct (alloc_lv_segment_spec s t lv le len 0 0 n len 0 0 0 None Hr Hn0 Hn1) as (r & s' & He & Hr1 & Hr2).
  specialize (Hr1 Hno). destruct (Hr2 Hr1) as [-> ->]. by rewrite (bind_exec _ _ _ _ _ He).
Qed.

(** *** A striped segment *)

(** What the section of a striped segment says: the first logical extent, the extents
    in an area, the stripe size, tags and areas. *)
Record seg_desc := SegDesc { ds_le : Z; ds_alen : Z; ds_stripe : Z; ds_tags : list (list Z); ds_areas : list (list Z * Z) }.

Definition ds_count (d : seg_desc) : Z := Z.of_nat (length (ds_areas d)).
Definition ds_len (d : seg_desc) : Z := ds_alen d * ds_count d.

Definition desc_nodes (d : seg_desc) : list (cnode F) :=
  [inode (bytes "start_extent") (ds_le d)] ++ [inode (bytes "extent_count") (ds_len d)] ++
  [snode (bytes "type") (bytes "striped")] ++ tags_nodes (ds_tags d) ++
  [inode (bytes "stripe_count") (ds_count d)] ++
  opt_nodes (1 <? ds_count d) [inode (bytes "stripe_size") (ds_stripe d)] ++
  [Node (bytes "stripes") (area_cvs (ds_areas d)) []].

Record desc_ok (h : gmap (list Z) nat) (t : store) (d : seg_desc) : Prop := {
  do_le : 0 <= ds_le d /\ ds_le d + ds_len d < 2 ^ 32;
  do_alen : 0 < ds_alen d;
  do_areas : ds_areas d <> [];
  do_stripe : 0 <= ds_stripe d < 2 ^ 32;
  do_tags : NoDup (ds_tags d);
  do_fits : Forall (fits h t (ds_alen d)) (ds_areas d);
  do_size : ds_count d * AREA_SIZE < 2 ^ 32 }.

(** The type of striped segments. *)
Record striped_type (t : segment_type) : Prop := {
  st_found : segtype_found (bytes "striped") t;
  st_striped : flag (segtype_flags t) SEG_AREAS_STRIPED = true;
  st_others : Forall (fun f => flag (segtype_flags t) f = false)
    [SEG_RAID; SEG_VIRTUAL; SEG_AREAS_MIRRORED; SEG_THIN_POOL; SEG_THIN_VOLUME; SEG_SNAPSHOT; SEG_REPLICATOR] }.

Context (ty : segment_type) (Hty : striped_type ty).

Lemma ty_name : segtype_name ty = bytes "striped".
Proof. apply segtype_found_name, Hty. Qed.

Lemma ty_flag f : f ∈ [SEG_RAID; SEG_VIRTUAL; SEG_AREAS_MIRRORED; SEG_THIN_POOL; SEG_THIN_VOLUME; SEG_SNAPSHOT; SEG_REPLICATOR] ->
  flag (segtype_flags ty) f = false.
Proof. intros Hf. pose proof (st_others _ Hty) as H. rewrite Forall_forall in H. by apply H. Qed.

Lemma mult_ty g : seg_segtype g = ty -> mult g = seg_area_count g.
Proof. intros E. unfold mult, seg_is_striped. by rewrite E, (st_striped _ Hty). Qed.

(** The slots of the segment. *)
Definition desc_slots (lv : nat) (d : seg_desc) : list slot :=
  area_slots lv (ds_le d) (ds_count d) (ds_alen d) 0 (ds_areas d).

(** The segment as it is read. *)
Definition desc_seg (lv : nat) (d : seg_desc) (areas : list lv_segment_area) : lv_segment :=
  LvSegment lv ty (ds_le d) (ds_len d) 0 (if ds_count d =? 1 then 0 else ds_stripe d) (ds_count d) (ds_alen d) None (ds_tags d) areas
    (SegAttrs 0 None None 0 0 None [] None 0 None 0).

Section one.
Context (h : gmap (list Z) nat) (vg : nat) (x : volume_group) (lv : nat) (d : seg_desc).

Lemma desc_count_pos t : desc_ok h t d -> 0 < ds_count d.
Proof. intros Hd. unfold ds_count. pose proof (do_areas _ _ _ Hd). destruct (ds_areas d); [done|]. cbn. lia. Qed.

Lemma desc_get t : desc_ok h t d ->
  dm_config_get_uint32 (desc_nodes d) (bytes "start_extent") = Some (ds_le d) /\
  dm_config_get_uint32 (desc_nodes d) (bytes "extent_count") = Some (ds_len d) /\
  dm_config_get_str (desc_nodes d) (bytes "type") = Some (bytes "striped") /\
  dm_config_get_uint32 (desc_nodes d) (bytes "stripe_count") = Some (ds_count d) /\
  (ds_count d <> 1 -> dm_config_get_uint32 (desc_nodes d) (bytes "stripe_size") = Some (ds_stripe d)) /\
  dm_config_get_list (desc_nodes d) (bytes "stripes") = Some (area_cvs (ds_areas d)).
Proof.
  intros Hd. pose proof (desc_count_pos t Hd) as Hc. pose proof Hd as [H1 H2 H3 H4 H5 H6 _]. unfold desc_nodes.
  assert (0 <= ds_len d) by (unfold ds_len; nia). assert (ds_count d <= ds_len d) by (unfold ds_len; nia).
  split; [apply get_uint32_spec; [done|by hunting|lia]|]. split; [apply get_uint32_spec; [done|by hunting|lia]|].
  split; [apply get_str_spec; [done|by hunting]|]. split; [apply get_uint32_spec; [done|by hunting|lia]|]. split.
  - intros Hne. apply get_uint32_spec; [done| |done]. hunting. rewrite (proj2 (Z.ltb_lt _ _)) by lia. by hunting.
  - unfold dm_config_get_list. rewrite find_key by done. hunting. cbn [fmap option_fmap option_map node_v].
    destruct (ds_areas d) as [|[a b] l]; [done|reflexivity].
Qed.

Lemma striped_import_spec t x0 P q w :
  reading h vg t x0 P -> counted x x0 -> desc_ok h t d -> separate (P ++ desc_slots lv d) ->
  st_lvs t !! lv = Some w -> lv_vg w = vg -> st_segs t !! q = Some (new_segment lv ty (ds_le d) (ds_len d) (ds_count d)) ->
  exists t' x' areas, striped_text_import q (desc_nodes d) h t = Some (true, t') /\ counted x x' /\
    reading h vg t' x' (P ++ desc_slots lv d) /\ st_segs t' = <[q := set_seg_tags [] (desc_seg lv d areas)]> (st_segs t) /\
    st_lvs t' = st_lvs t /\ same_base t t' /\ length areas = length (ds_areas d) /\
    (forall a, 0 <= a < ds_count d -> exists ar, areas !! Z.to_nat a = Some ar /\ linked t' x q a (ds_alen d) ar) /\
    (forall sg a n ar, linked t x sg a n ar -> linked t' x sg a n ar).
Proof.
  intros Hr Hx0 Hd Hsep Hw Hwvg Hg. pose proof (desc_count_pos t Hd) as Hc. set (g0 := new_segment _ _ _ _ _) in Hg.
  destruct (desc_get t Hd) as (_ & _ & _ & _ & Hsz & Hst). unfold striped_text_import. mstep. change (seg_area_count g0) with (ds_count d).
  set (g1 := if ds_count d =? 1 then g0 else set_seg_stripe_size (ds_stripe d) g0).
  assert (((if ds_count d =? 1 then mret true else
    match dm_config_get_uint32 (desc_nodes d) (bytes "stripe_size") with
    | None => mret false
    | Some size => modify q (set_seg_stripe_size size);; mret true
    end) : M bool) t = Some (true, with_seg q g1 t)) as He1.
  { unfold g1. destruct (Z.eqb_spec (ds_count d) 1) as [E|E].
    - unfold with_seg. cbn. rewrite insert_id by done. by destruct t.
    - rewrite (Hsz E). mstep. done. }
  rewrite (bind_exec _ _ _ _ _ He1). cbn [negb]. rewrite Hst. rewrite (proj2 (Z.eqb_neq _ _)) by lia.
  set (t1 := with_seg q g1 t). assert (st_segs t1 !! q = Some g1) as Hg1 by apply lookup_insert_eq. mstep.
  assert (set_seg_area_len (seg_area_len g1 / seg_area_count g1) g1 = set_seg_tags [] (desc_seg lv d (replicate (length (ds_areas d)) zero_area))) as Eg2.
  { assert (ds_len d / ds_count d = ds_alen d) as Ediv by (unfold ds_len; apply Z.div_mul; lia).
    unfold g1, g0, desc_seg, new_segment. destruct (ds_count d =? 1); unfold set_seg_area_len, set_seg_stripe_size, set_seg_tags;
      cbn [seg_lv seg_segtype seg_le seg_len seg_status seg_stripe_size seg_area_count seg_area_len seg_log_lv seg_tags seg_areas seg_attrs_of];
      rewrite Ediv; unfold ds_count; by rewrite Nat2Z.id. }
  rewrite Eg2. set (g2 := set_seg_tags [] _). change (set_tbl _ t1) with (with_seg q g2 t1). set (t2 := with_seg q g2 t1).
  assert (st_segs t2 !! q = Some g2) as Hg2 by apply lookup_insert_eq.
  assert (mult g2 = ds_count d) as Hm2 by by apply mult_ty.
  unfold text_import_areas. mstep. change (seg_area_count g2) with (ds_count d). rewrite (proj2 (Z.eqb_neq _ _)) by lia.
  assert (reading h vg t2 x0 P) as Hr2.
  { unfold t2. eapply reading_with_seg; [eapply reading_with_seg; [exact Hr|exact Hg|]|exact Hg1|].
    - unfold g1. by destruct (ds_count d =? 1).
    - fold g2 in Eg2. rewrite <- Eg2. done. }
  destruct (areas_loop_spec (F := F) h vg x q 0 (ds_areas d) t2 x0 P g2 w 0 Hx0 Hr2 Hg2) as (t' & x' & areas & He & Hx' & Hr' & Es & El & Hk & Hl & _ & Hlk & Hfr); try done.
  - cbn. rewrite length_replicate. lia.
  - apply Hd.
  - apply Hd.
  - by rewrite Hm2.
  - exists t', x', areas. unfold ds_count at 1. rewrite Nat2Z.id, He. split; [done|]. split; [done|]. rewrite Hm2 in Hr'. split; [done|].
    split; [rewrite Es; cbn; by rewrite !insert_insert_eq|]. split; [by rewrite El|]. split; [intros p; apply (kp_pvs _ _ Hk)|].
    split; [rewrite Hl; cbn; by rewrite length_replicate|]. split; [intros a Ha; by apply Hlk|]. intros sg a n ar Hlink. by apply Hfr.
Qed.

(** *** The whole segment *)

Lemma insert_loop_last segs q le t :
  (forall k, k ∈ segs -> exists g, st_segs t !! k = Some g /\ seg_le g <= le) -> insert_segment_loop segs q le t = Some (None, t).
Proof.
  induction segs as [|k segs IH]; intros H; [done|]. cbn [insert_segment_loop]. destruct (H k ltac:(left)) as (g & Hg & Hle).
  mstep. rewrite (proj2 (Z.ltb_ge _ _)) by done. rewrite (bind_exec _ _ _ _ _ (IH ltac:(intros k' Hk; apply H; by right))). done.
Qed.

Lemma insert_segment_last t q g w :
  st_lvs t !! lv = Some w -> st_segs t !! q = Some g -> 0 <= lv_le_count w -> 0 <= seg_len g -> lv_le_count w + seg_len g < 2 ^ 32 ->
  (forall k, k ∈ lv_segments w -> exists g', st_segs t !! k = Some g' /\ seg_le g' <= seg_le g) ->
  insert_segment lv q t = Some (tt, set_tbl (T := logical_volume)
    (<[lv := set_lv_segments (lv_segments w ++ [q]) (set_lv_le_count (lv_le_count w + seg_len g) w)]> (st_lvs t)) t).
Proof.
  intros Hw Hg H0 H1 H2 Hsegs. unfold insert_segment. mstep. mstep. rewrite (bind_exec _ _ _ _ _ (insert_loop_last _ q _ t Hsegs)). cbn beta iota.
  mstep. rewrite wrap32_small by lia. set (t1 := set_tbl _ t). set (w1 := set_lv_le_count _ w) in t1.
  assert (st_lvs t1 !! lv = Some w1) as Hw1 by apply lookup_insert_eq. erewrite exec_modify by exact Hw1. do 2 f_equal.
  unfold set_tbl. cbn. by rewrite insert_insert_eq.
Qed.

Lemma segment_flags_none t q g w :
  st_segs t !! q = Some g -> seg_segtype g = ty -> st_lvs t !! lv = Some w -> lv_flag MIRRORED w = false ->
  segment_flags lv q t = Some (tt, t).
Proof.
  intros Hg Et Hw Hm. unfold segment_flags. mstep. unfold seg_is_mirrored, seg_flag. rewrite Et.
  rewrite !ty_flag by set_solver. rewrite !bind_ret. unfold is_converting. rewrite bind_assoc. mstep. by rewrite Hm.
Qed.

(** A segment that was just read. *)
Definition new_seg (g : lv_segment) : Prop :=
  seg_segtype g = ty /\ seg_status g = 0 /\ seg_log_lv g = None /\ seg_attrs_of g = SegAttrs 0 None None 0 0 None [] None 0 None 0.

(** LV [lv] while its segments are read: they lie one behind the other. *)
Record lv_reading (t : store) (P : list slot) (w : logical_volume) : Prop := {
  lr_reading : exists x0, counted x x0 /\ reading h vg t x0 P;
  lr_lv : st_lvs t !! lv = Some w;
  lr_vg : lv_vg w = vg;
  lr_nodup : NoDup (lv_segments w);
  lr_chain : chain t vg x lv 0 (lv_segments w) (lv_le_count w);
  lr_new : forall q, q ∈ lv_segments w -> exists g, st_segs t !! q = Some g /\ new_seg g;
  lr_users : lv_users w = [];
  lr_flags : lv_flag MIRRORED w = false /\ lv_flag SNAPSHOT w = false }.

(** What stays: the fields of the PVs, and the segments that were there. *)
Record rest_kept (t t' : store) (w' : logical_volume) : Prop := {
  rk_base : same_base t t';
  rk_lvs : st_lvs t' = <[lv := w']> (st_lvs t);
  rk_segs : forall q g, st_segs t !! q = Some g -> st_segs t' !! q = Some g;
  rk_linked : forall sg a n ar, linked t x sg a n ar -> linked t' x sg a n ar }.

Lemma alloc_seg_reading t x0 P g :
  reading h vg t x0 P -> reading h vg (alloc_tick (alloc_seg g t)) x0 P /\ same_pvs t (alloc_tick (alloc_seg g t)).
Proof.
  intros Hr. pose proof (rd_fresh _ _ _ _ _ Hr) as [F1 F2 F3 F4 F5].
  assert (forall sg y, st_segs t !! sg = Some y -> <[st_next t := g]> (st_segs t) !! sg = Some y) as Hs.
  { intros sg y Hy. rewrite lookup_insert_ne; [done|]. intros <-. by rewrite F3 in Hy. }
  assert (same_pvs t (alloc_tick (alloc_seg g t))) as Hm.
  { split; cbn; try done; [lia| | |].
    - intros sg y Hy. exists y. by rewrite (Hs sg y).
    - eauto.
    - etrans; apply suffix_tail. }
  split; [|done]. eapply reading_frame; [exact Hr|done| |].
  - split; cbn; intros i Hi; [apply F1|apply F2|rewrite lookup_insert_ne by lia; apply F3|apply F4|apply F5]; lia.
  - intros sg y Hy. exists y. cbn. rewrite (Hs sg y Hy). by split.
Qed.

Lemma linked_tables t t' y sg a n ar : st_pegs t' = st_pegs t -> st_pvs t' = st_pvs t -> linked t y sg a n ar -> linked t' y sg a n ar.
Proof. intros E1 E2 (j & p & v & pe & H). exists j, p, v, pe. by rewrite E1, E2. Qed.

Lemma seg_ok_pos t v y k g : seg_ok t v y k g -> 0 < seg_len g.
Proof.
  intros Hok. rewrite (sk_len _ _ _ _ _ Hok). pose proof (sk_area_len _ _ _ _ _ Hok). pose proof (sk_count _ _ _ _ _ Hok).
  assert (0 < mult g) by (unfold mult; destruct (seg_is_striped g); lia). nia.
Qed.

Lemma chain_member t lo segs hi q :
  chain t vg x lv lo segs hi -> q ∈ segs -> exists g, seg_ok t vg x q g /\ lo <= seg_le g <= hi.
Proof.
  revert lo. induction segs as [|k segs IH]; intros lo Hch Hq; [by apply elem_of_nil in Hq|].
  pose proof (chain_le _ _ _ _ _ _ _ Hch). pose proof Hch as (g & Hok & _ & Ele & _ & Hch'). pose proof (chain_le _ _ _ _ _ _ _ Hch').
  apply elem_of_cons in Hq as [->|Hq]; [exists g; split; [done|lia]|]. destruct (IH _ Hch' Hq) as (g' & Hok' & Hle).
  exists g'. split; [done|]. pose proof (seg_ok_pos _ _ _ _ _ Hok). lia.
Qed.

(** The segment is in the LV's list behind the others. *)
Lemma lv_reading_snoc t t' P P' x0 w w' q areas :
  lv_reading t P w -> ds_le d = lv_le_count w -> desc_ok h t d -> counted x x0 -> reading h vg t' x0 P' ->
  w' = set_lv_segments (lv_segments w ++ [q]) (set_lv_le_count (lv_le_count w + ds_len d) w) -> q ∉ lv_segments w ->
  rest_kept t t' w' -> st_segs t' !! q = Some (desc_seg lv d areas) -> length areas = length (ds_areas d) ->
  (forall a, 0 <= a < ds_count d -> exists ar, areas !! Z.to_nat a = Some ar /\ linked t' x q a (ds_alen d) ar) ->
  lv_reading t' P' w'.
Proof.
  intros [L1 L2 L3 L4 L5 L6 L7 L8] Ele Hd Hx0 Hr Ew Hq [K1 K2 K3 K4] Hg Hlen Hlk. set (g := desc_seg lv d areas) in *.
  assert (st_lvs t' !! lv = Some w') as Hw' by by rewrite K2, lookup_insert_eq.
  split; [by exists x0|done|by rewrite Ew| | | |by rewrite Ew|by rewrite Ew].
  - rewrite Ew. cbn. apply NoDup_app. split; [done|]. split; [|apply NoDup_singleton]. by intros k Hk ->%list_elem_of_singleton.
  - rewrite Ew. cbn. apply chain_snoc. exists g. change (seg_le g) with (ds_le d). rewrite Ele. split; [|split; [|split; [done|split; [|done]]]].
    + eapply chain_frame; [|exact L5]. intros k gk Hk Hok. eapply seg_ok_frame; [exact Hok| | |auto].
      * rewrite (K3 k gk (sk_seg _ _ _ _ _ Hok)). symmetry. apply Hok.
      * intros l v Hv. rewrite K2. destruct (decide (l = lv)) as [->|]; [|rewrite lookup_insert_ne by done; eauto].
        rewrite lookup_insert_eq. eexists. split; [done|]. rewrite Ew. cbn. congruence.
    + pose proof (desc_count_pos t Hd). pose proof Hd as [D1 D2 D3 D4 D5 D6]. split; try done.
      * exists w'. split; [done|]. by rewrite Ew.
      * unfold g. cbn. rewrite Hlen. unfold ds_count. by rewrite Nat2Z.id.
      * change (ds_len d = ds_alen d * mult g). unfold ds_len. by rewrite mult_ty.
    + split; unfold g; cbn; rewrite ty_name; discriminate.
  - rewrite Ew. cbn. intros k [Hk| ->%list_elem_of_singleton]%elem_of_app; [|by exists g].
    destruct (L6 k Hk) as (gk & Hgk & Hn). exists gk. split; [by apply K3|done].
Qed.

Lemma read_segment_spec name t P w :
  lv_reading t P w -> ds_le d = lv_le_count w -> desc_ok h t d -> separate (P ++ desc_slots lv d) ->
  exists t' w', read_segment env lv (Node name [] (desc_nodes d)) h t = Some (true, t') /\ lv_reading t' (P ++ desc_slots lv d) w' /\
    w' = set_lv_segments (lv_segments w ++ [st_next t]) (set_lv_le_count (lv_le_count w + ds_len d) w) /\ rest_kept t t' w'.
Proof.
  intros Hlr Ele Hd Hsep. pose proof Hlr as [(x0 & Hx0 & Hr) L2 L3 L4 L5 L6 L7 [L8 L9]]. set (q := st_next t).
  destruct (desc_get t Hd) as (D1 & D2 & D3 & D4 & _ & _). pose proof (desc_count_pos t Hd) as Hc.
  rewrite (read_segment_begins lv name (desc_nodes d) h t (ds_le d) (ds_len d) ty (ds_count d)); [|done|done|done|by rewrite ty_name| |by apply ty_flag; left| |lia|apply Hd|apply Hr].
  2:{ rewrite ty_name. apply Hty. }
  2:{ unfold text_import_area_count. rewrite decide_True by apply ty_name. exact D4. }
  unfold text_import. rewrite decide_True by apply ty_name. fold q. set (g0 := new_segment _ _ _ _ _). set (t1 := alloc_tick _).
  destruct (alloc_seg_reading t x0 P g0 Hr) as [Hr1 Hm1]. fold t1 in Hr1, Hm1.
  assert (st_segs t1 !! q = Some g0) as Hg1 by apply lookup_insert_eq.
  assert (desc_ok h t1 d) as Hd1 by by destruct Hd.
  destruct (striped_import_spec t1 x0 P q w Hr1 Hx0 Hd1 Hsep L2 L3 Hg1) as (t2 & x2 & areas & He2 & Hx2 & Hr2 & Es2 & El2 & Hb2 & Hlen & Hlk & Hfr).
  rewrite (bind_exec _ _ _ _ _ He2). cbn [negb].
  destruct (read_opt_tags_spec (desc_nodes d) (ds_tags d) t2) as (t3 & He3 & Ht3); [apply Hd|apply Hr2| |].
  { unfold desc_nodes. hunting. apply hunt_tags. by hunting. }
  rewrite (bind_exec _ _ _ _ _ He3). cbn beta iota. pose proof Ht3 as (T1 & T2 & T3 & T4 & _).
  assert (st_segs t3 !! q = Some (set_seg_tags [] (desc_seg lv d areas))) as Hg3 by by rewrite T3, Es2, lookup_insert_eq.
  mstep. set (t4 := set_tbl _ t3). assert (st_segs t4 !! q = Some (desc_seg lv d areas)) as Hg4 by apply lookup_insert_eq.
  set (g := desc_seg lv d areas) in *.
  assert (st_segs t4 = <[q := g]> (st_segs t)) as Es4.
  { change (st_segs t4) with (<[q := g]> (st_segs t3)). rewrite T3, Es2. cbn. by rewrite !insert_insert_eq. }
  assert (forall k y, st_segs t !! k = Some y -> st_segs t4 !! k = Some y) as Hold.
  { intros k y Hy. rewrite Es4, lookup_insert_ne; [done|]. intros <-. by rewrite (af_segs _ (rd_fresh _ _ _ _ _ Hr)) in Hy. }
  assert (st_lvs t4 = st_lvs t) as El4 by (change (st_lvs t4) with (st_lvs t3); by rewrite T4, El2).
  pose proof (chain_le _ _ _ _ _ _ _ L5) as Hle. assert (0 < ds_len d) as Hlen0 by (destruct Hd; unfold ds_len; nia).
  rewrite (bind_exec _ _ _ _ _ (insert_segment_last t4 q g w ltac:(by rewrite El4) Hg4 Hle ltac:(cbn; lia) ltac:(destruct Hd; cbn; lia)
    ltac:(intros k Hk; destruct (chain_member _ _ _ _ _ L5 Hk) as (gk & Hok & Hgk); exists gk; split; [apply Hold, Hok|cbn; lia]))).
  set (t5 := set_tbl _ t4). set (w' := set_lv_segments _ _).
  assert (st_lvs t5 !! lv = Some w') as Hw5 by apply lookup_insert_eq.
  rewrite (bind_exec _ _ _ _ _ (segment_flags_none t5 q g w' Hg4 eq_refl Hw5 L8)). exists t5, w'. split; [done|].
  assert (reading h vg t5 x2 (P ++ desc_slots lv d)) as Hr5.
  { eapply (reading_with_lv _ _ t4 _ _ lv w); [|by rewrite El4|done].
    eapply (reading_with_seg _ _ t3); [by eapply reading_ticks|exact Hg3|done]. }
  assert (forall sg a n ar, linked t2 x sg a n ar -> linked t5 x sg a n ar) as Hl5 by (intros sg a n ar; by apply linked_tables).
  assert (rest_kept t t5 w') as Hk5.
  { split; [|by rewrite <- El4|done|].
    - intros p. change (st_pvs t5) with (st_pvs t3). rewrite T2. apply Hb2.
    - intros sg a n ar Hl. apply Hl5, Hfr. by eapply linked_same. }
  split; [|done]. eapply (lv_reading_snoc t t5 P _ x2 w w' q areas); try done.
  - intros Hin. destruct (L6 q Hin) as (gq & Hgq & _). by rewrite (af_segs _ (rd_fresh _ _ _ _ _ Hr)) in Hgq.
  - intros a Ha. destruct (Hlk a Ha) as (ar & Har & Hl). exists ar. split; [done|]. by apply Hl5.
Qed.
End one.
End read_segment.
