(* ===== verification/ImportErrors.v ===== *)
(** * Malformed metadata

    What the import does with a striped segment of no stripes. *)

From S2P Require Import Prelude DmString Uuid Config ConfigProps Metadata PvManip PvSegs LvManip LvSegs LvProps CheckLv Flags TextExport ExportProps TextImport ImportProps ImportPvs ImportLvs ImportSegs.

(** A segment whose section says [stripe_count = 0], with a stripe size and a list of
    stripes, divides by zero in [_striped_text_import], ahead of the test for zero areas
    in [text_import_areas]: metadata that merely parses stops the program. *)
Theorem striped_import_no_stripes {F} (env : import_env (F := F)) t lv name le len size v vs h s :
  segtype_found env (bytes "striped") t -> flag (segtype_flags t) SEG_RAID = false ->
  0 <= le < 2 ^ 32 -> 0 <= len < 2 ^ 32 -> 0 <= size < 2 ^ 32 -> no_oom s ->
  read_segment env lv (Node name []
    ([inode (bytes "start_extent") le] ++ [inode (bytes "extent_count") len] ++ [snode (bytes "type") (bytes "striped")] ++
     [inode (bytes "stripe_count") 0] ++ [inode (bytes "stripe_size") size] ++ [Node (bytes "stripes") (v :: vs) []])) h s = None.
Proof.
  intros Ht Hr Hle Hlen Hsize Hno. set (cn := [inode (bytes "start_extent") le] ++ _). pose proof (segtype_found_name _ _ _ Ht) as En.
  rewrite (read_segment_begins env lv name cn h s le len t 0); [|done| | | |by rewrite En|done| |done|done|done].
  - unfold text_import. rewrite decide_True by done. set (s1 := alloc_tick _).
    assert (st_segs s1 !! st_next s = Some (new_segment lv t le len 0)) as Hg by apply lookup_insert_eq.
    unfold striped_text_import. rewrite bind_assoc. mstep. cbn [seg_area_count new_segment Z.eqb].
    rewrite (get_uint32_spec cn (bytes "stripe_size") size eq_refl); [|unfold cn; by hunting|done].
    rewrite !bind_assoc. mstep. cbn [negb]. unfold dm_config_get_list. rewrite find_key by done.
    replace (hunt cn (bytes "stripes")) with (Some (Node (bytes "stripes") (v :: vs) [])) by (unfold cn; by hunting). reflexivity.
  - apply get_uint32_spec; [done|unfold cn; by hunting|done].
  - apply get_uint32_spec; [done|unfold cn; by hunting|done].
  - apply get_str_spec; [done|]. unfold cn. rewrite En. by hunting.
  - unfold text_import_area_count. rewrite decide_True by done. apply get_uint32_spec; [done|unfold cn; by hunting|lia].
Qed.

(** An environment in which striped segments are registered and every device is found. *)
Definition ex_import : import_env (F := unit) :=
  ImportEnv false (fun _ => Some (bytes "/dev/sda", 1)) (fun _ => None) DM_READ_AHEAD_AUTO [ex_type] inverse_init [] 0
    no_replicators (fun _ => None) (fun _ => None).

Definition no_store : store := Store ∅ ∅ ∅ ∅ ∅ 0 [] [].

Lemma striped_import_no_stripes_witness :
  read_segment ex_import 1 (Node (bytes "segment1") []
    ([inode (bytes "start_extent") 0] ++ [inode (bytes "extent_count") 4] ++ [snode (bytes "type") (bytes "striped")] ++
     [inode (bytes "stripe_count") 0] ++ [inode (bytes "stripe_size") 128] ++ [Node (bytes "stripes") [CfgString (bytes "pv0")] []]))
    ∅ no_store = None.
Proof. apply (striped_import_no_stripes ex_import ex_type); [reflexivity|reflexivity|lia|lia|lia|by intros ?%elem_of_nil]. Defined.
