(* ===== verification/ImportLvSegs.v ===== *)
(** * Reading all segments of an LV

    The segments are read one after the other, checked and merged; the LV is then a
    consistent LV on PVs, and other LVs are as before. *)

From S2P Require Import Prelude DmString Uuid Config ConfigProps Metadata PvManip PvSegs LvManip LvSegs LvReduce LvProps CheckLv Flags TextExport ExportProps TextImport ImportProps ImportPvs ImportLvs Quiet Place ImportSegs.

Lemma swrap32_small i : - 2 ^ 31 <= i < 2 ^ 31 -> swrap 32 i = i.
Proof. intros H. unfold swrap. change (32 - 1) with 31. rewrite Z.mod_small; lia. Qed.

Lemma counted_more x x' : counted x x' -> exists n, x' = more_free x n.
Proof. intros [f ->]. exists (f - vg_free_count x). unfold more_free. f_equal. lia. Qed.

Lemma seg_ok_counted t vg x x' q g : counted x x' -> seg_ok t vg x' q g <-> seg_ok t vg x q g.
Proof. intros (n & ->)%counted_more. apply seg_ok_free. Qed.

Lemma chain_counted t vg x x' lv lo l hi : counted x x' -> chain t vg x' lv lo l hi <-> chain t vg x lv lo l hi.
Proof. intros (n & ->)%counted_more. apply chain_free. Qed.

Lemma chain_range t vg x lv lo l hi : chain t vg x lv lo l hi -> lo < 2 ^ 32 -> hi < 2 ^ 32.
Proof.
  revert lo. induction l as [|q l IH]; intros lo; cbn; [by intros ->|]. intros (g & Hok & _ & <- & _ & Hch) _.
  apply (IH _ Hch). apply Hok.
Qed.

(** An LV that is read: it is on PVs, and its segments are plain striped ones. *)
Definition lv_done (ty : segment_type) (vg : nat) (x : volume_group) (t : store) (lv : nat) (w : logical_volume) : Prop :=
  lv_ok t vg x lv w /\ forall q, q ∈ lv_segments w -> exists g, st_segs t !! q = Some g /\ new_seg ty g.

Section read_segments.
Context {F : Type} (env : import_env (F := F)) (ty : segment_type) (Hty : striped_type env ty).
Context (h : gmap (list Z) nat) (vg : nat) (x : volume_group) (lv : nat).

(** The segments follow each other from [le] on. *)
Fixpoint follow (le : Z) (ds : list seg_desc) : Prop :=
  match ds with [] => True | d :: ds => ds_le d = le /\ follow (le + ds_len d) ds end.

Definition descs_len (ds : list seg_desc) : Z := zsum (map ds_len ds).
Definition descs_slots (lv : nat) (ds : list seg_desc) : list slot := concat (map (desc_slots lv) ds).
Definition descs_nodes (nds : list (list Z * seg_desc)) : list (cnode F) := map (fun nd => Node nd.1 [] (desc_nodes nd.2)) nds.

Lemma desc_ok_base t t' d : same_base t t' -> desc_ok h t d -> desc_ok h t' d.
Proof.
  intros Hb [H1 H2 H3 H4 H5 H6 H7]. split; try done. eapply Forall_impl; [exact H6|]. intros a (p & v & A & B & C & D).
  pose proof (Hb p) as E. rewrite B in E. destruct (st_pvs t' !! p) as [v'|] eqn:Ev; [|done]. apply (inj Some) in E.
  exists p, v'. by rewrite (base_pv_count _ _ E).
Qed.

Lemma same_base_trans t1 t2 t3 : same_base t1 t2 -> same_base t2 t3 -> same_base t1 t3.
Proof. intros H1 H2 p. by rewrite H2. Qed.

Lemma rest_kept_trans t1 t2 t3 w2 w3 : rest_kept x lv t1 t2 w2 -> rest_kept x lv t2 t3 w3 -> rest_kept x lv t1 t3 w3.
Proof.
  intros [A1 A2 A3 A4] [B1 B2 B3 B4]. split; [by eapply same_base_trans|by rewrite B2, A2, insert_insert_eq|auto|auto].
Qed.

Lemma rest_kept_refl t w : st_lvs t !! lv = Some w -> rest_kept x lv t t w.
Proof. intros Hw. split; try done. by rewrite insert_id. Qed.

(** Nodes with values are skipped. *)
Lemma loop_skips l cn c t w :
  Forall (fun n => node_v n <> []) l -> st_lvs t !! lv = Some w -> lv_flag SNAPSHOT w = false ->
  read_segments_loop env lv (l ++ cn) h c t = read_segments_loop env lv cn h c t.
Proof.
  intros Hl Hw Hs. induction Hl as [|n l Hn _ IH]; [done|]. cbn [app read_segments_loop].
  destruct (node_v n) as [|v vs]; [done|]. rewrite bind_ret. mstep. by rewrite Hs.
Qed.

Lemma loop_reads nds : forall c t P w,
  lv_reading ty h vg x lv t P w -> follow (lv_le_count w) nds.*2 -> Forall (desc_ok h t) nds.*2 -> separate (P ++ descs_slots lv nds.*2) ->
  exists t' w' segs, read_segments_loop env lv (descs_nodes nds) h c t = Some (Some (c + Z.of_nat (length nds)), t') /\
    lv_reading ty h vg x lv t' (P ++ descs_slots lv nds.*2) w' /\
    w' = set_lv_segments (lv_segments w ++ segs) (set_lv_le_count (lv_le_count w + descs_len nds.*2) w) /\
    rest_kept x lv t t' w' /\ (forall q, q ∈ segs -> st_segs t !! q = None).
Proof.
  induction nds as [|[name d] nds IH]; intros c t P w Hlr Hfo Hok Hsep.
  { exists t, w, []. cbn. rewrite Z.add_0_r, !app_nil_r. split; [done|]. split; [done|]. split; [|split; [apply rest_kept_refl, Hlr|set_solver]].
    unfold descs_len. cbn. rewrite Z.add_0_r. by destruct w. }
  rewrite fmap_cons in *. cbn [snd] in *. destruct Hfo as [Ele Hfo]. apply Forall_cons in Hok as [Hd Hok].
  unfold descs_slots in Hsep. cbn [map concat] in Hsep. rewrite app_assoc in Hsep. change (concat _) with (descs_slots lv nds.*2) in Hsep.
  destruct (read_segment_spec env ty Hty h vg x lv d name t P w Hlr Ele Hd (separate_prefix _ _ Hsep)) as (t1 & w1 & He & Hlr1 & Ew & Hk).
  destruct (IH (c + 1) t1 _ w1 Hlr1) as (t' & w' & segs & He' & Hlr' & Ew' & Hk' & Hnew); [| |done|].
  { rewrite Ew. exact Hfo. }
  { eapply Forall_impl; [exact Hok|]. intros d'. apply desc_ok_base, Hk. }
  exists t', w', (st_next t :: segs). cbn [descs_nodes map fst snd read_segments_loop node_v]. change (map _ nds) with (descs_nodes nds).
  rewrite bind_assoc, (bind_exec _ _ _ _ _ He), bind_ret. cbn beta iota. pose proof (lr_lv _ _ _ _ _ _ _ _ Hlr1) as Hw1. mstep.
  rewrite (proj2 (lr_flags _ _ _ _ _ _ _ _ Hlr1)). cbn [andb]. rewrite He'. split; [do 3 f_equal; cbn [length]; lia|].
  split; [unfold descs_slots; cbn [map concat]; by rewrite app_assoc|]. split; [|split; [by eapply rest_kept_trans|]].
  - rewrite Ew', Ew. unfold descs_len. cbn [map]. rewrite zsum_cons. unfold set_lv_segments, set_lv_le_count.
    cbn [lv_name lv_vg lv_status lv_size lv_le_count lv_segments lv_users lv_attrs_of]. rewrite <- app_assoc. f_equal. lia.
  - intros q [->|Hq]%elem_of_cons.
    + destruct (lr_reading _ _ _ _ _ _ _ _ Hlr) as (x0 & _ & Hr). by apply (rd_fresh _ _ _ _ _ Hr).
    + specialize (Hnew q Hq). destruct (st_segs t !! q) as [g|] eqn:E; [|done]. by rewrite (rk_segs _ _ _ _ _ Hk q g E) in Hnew.
Qed.

(** ** The check *)

Lemma seg_ok_area t q g i ar :
  seg_ok t vg x q g -> seg_areas g !! i = Some ar -> exists a, Z.of_nat i = a /\ linked t x q a (seg_area_len g) ar.
Proof.
  intros Hok Hi. exists (Z.of_nat i). split; [done|]. pose proof (lookup_lt_Some _ _ _ Hi) as Hlt. rewrite (sk_areas _ _ _ _ _ Hok) in Hlt.
  destruct (sk_linked _ _ _ _ _ Hok (Z.of_nat i) ltac:(lia)) as (ar' & E & Hl). rewrite Nat2Z.id in E. by simplify_eq.
Qed.

Lemma chain_fits t lo segs hi : chain t vg x lv lo segs hi -> segs_fit t lo segs hi.
Proof.
  revert lo. induction segs as [|q segs IH]; intros lo Hch; [done|]. cbn in Hch. destruct Hch as (g & Hok & _ & Ele & _ & Hch).
  pose proof (sk_range _ _ _ _ _ Hok). pose proof (seg_ok_pos _ _ _ _ _ Hok).
  exists g. split; [apply Hok|]. split; [|apply IH; rewrite wrap32_small by lia; done]. split; [done|]. split.
  - change (if seg_is_striped g then seg_area_count g else 1) with (mult g). rewrite <- (sk_len _ _ _ _ _ Hok). apply wrap32_small. lia.
  - intros i ar Hi. destruct (seg_ok_area _ _ _ _ _ Hok Hi) as (a & <- & j & p & v & pe & -> & Hj & _). by exists j, (PvSegment (Some p) pe (seg_area_len g) (Some q) (Z.of_nat i)).
Qed.

Lemma new_on_pvs t q g : seg_ok t vg x q g -> new_seg ty g -> on_pvs t q.
Proof.
  intros Hok (E1 & E2 & E3 & E4). split. exists g. pose proof (sk_count _ _ _ _ _ Hok). unfold seg_flag. rewrite E1, E2, E4.
  rewrite !(ty_flag env ty Hty) by set_solver. split; [apply Hok|]. split; [lia|]. split; [apply Hok|]. do 8 (split; [done|]).
  apply Forall_lookup. intros i ar Hi. destruct (seg_ok_area _ _ _ _ _ Hok Hi) as (a & _ & j & p & v & pe & -> & Hj & _).
  right. split; [done|]. right. exists (Some j). split; [done|]. intros k [= <-]. by eexists.
Qed.

(** What was read passes the check. *)
Lemma check_passes t P w : lv_reading ty h vg x lv t P w -> check_lv_segments (ie_check env) lv false t = Some (true, t).
Proof.
  intros [_ L2 _ _ L5 L6 L7 _]. destruct (check_lv_spec (ie_check env) lv false t w L2) as (b & Hb & Hiff).
  { split; [done|]. split; [done|]. apply Forall_forall. intros q Hq. destruct (chain_member vg x lv _ _ _ _ q L5 Hq) as (g & Hok & _).
    destruct (L6 q Hq) as (g' & Hg' & Hn). rewrite (sk_seg _ _ _ _ _ Hok) in Hg'. simplify_eq. by eapply new_on_pvs. }
  rewrite (proj2 Hiff (chain_fits _ _ _ _ L5)) in Hb. done.
Qed.

(** ** Merging *)

Lemma new_seg_base g g' : base_seg g' = base_seg g -> new_seg ty g -> new_seg ty g'.
Proof.
  intros E (H1 & H2 & H3 & H4). unfold new_seg.
  change (seg_segtype g') with (seg_segtype (base_seg g')). change (seg_status g') with (seg_status (base_seg g')).
  change (seg_log_lv g') with (seg_log_lv (base_seg g')). change (seg_attrs_of g') with (seg_attrs_of (base_seg g')). by rewrite E.
Qed.

Lemma keeps_seg t t' q g : keeps t t' -> st_segs t !! q = Some g -> exists g', st_segs t' !! q = Some g' /\ base_seg g' = base_seg g.
Proof.
  intros Hk Hg. pose proof (kp_segs _ _ Hk q) as E. rewrite Hg in E. destruct (st_segs t' !! q) as [g'|]; [|done].
  apply (inj Some) in E. by exists g'.
Qed.

Lemma merge_reads t P w :
  lv_reading ty h vg x lv t P w ->
  exists t' w' x', lv_merge_segments lv t = Some (true, t') /\ counted x x' /\ reading h vg t' x' P /\ lv_done ty vg x t' lv w' /\
    w' = set_lv_segments (lv_segments w') w /\ st_lvs t' = <[lv := w']> (st_lvs t) /\ same_base t t' /\
    (forall q g, q ∉ lv_segments w -> seg_ok t vg x q g -> seg_ok t' vg x q g /\ st_segs t' !! q = st_segs t !! q).
Proof.
  intros [(x0 & Hx0 & Hr) L2 L3 L4 L5 L6 L7 L8].
  destruct (lv_merge_spec t vg x0 lv w _ (rd_vg _ _ _ _ _ Hr) L2 L3 L4 (proj2 (chain_counted _ _ _ _ _ _ _ _ Hx0) L5))
    as (t' & w' & He & [M1 M2 M3 M4 M5 M6 M7 M8 M9 M10 M11]).
  pose proof (quiet _ _ _ He) as Hk. apply (chain_counted _ _ _ _ _ _ _ _ Hx0) in M5.
  pose proof (f_equal lv_le_count M3) as Ele. cbn in Ele. pose proof (f_equal lv_vg M3) as Evg. cbn in Evg.
  exists t', w', x0. split; [done|]. split; [done|]. split; [|split; [|split; [done|split; [done|split; [intros p; apply Hk|]]]]].
  - destruct Hr as [R1 R2 R3 R4 R5 R6 R7]. split; [done|by apply M9|by eapply keeps_oom|by apply Hk|done|done|].
    intros n p e Hn. rewrite <- (R7 n p e Hn). apply M6. by apply (R6 n).
  - split.
    + split; [by rewrite M2, lookup_insert_eq|congruence|by eapply sublist_NoDup|by rewrite Ele|rewrite Ele; eapply chain_range; [exact L5|lia]].
    + intros q Hq. destruct (L6 q) as (g & Hg & Hn); [eapply elem_of_submseteq; [exact Hq|by apply sublist_submseteq]|]. destruct (keeps_seg _ _ _ _ Hk Hg) as (g' & Hg' & Eb).
      exists g'. split; [done|]. by eapply new_seg_base.
  - intros q g Hq Hok. split; [|by apply M10]. apply (seg_ok_counted _ _ _ _ _ _ Hx0). apply M11; [done|]. by apply (seg_ok_counted _ _ _ _ _ _ Hx0).
Qed.

(** ** The whole function *)

Lemma read_segments_spec t P w hd nds :
  lv_reading ty h vg x lv t P w -> lv_segments w = [] -> lv_le_count w = 0 -> follow 0 nds.*2 -> Forall (desc_ok h t) nds.*2 ->
  separate (P ++ descs_slots lv nds.*2) -> Z.of_nat (length nds) < 2 ^ 31 -> Forall (fun n => node_v n <> []) hd ->
  dm_config_get_uint32 (hd ++ descs_nodes nds) (bytes "segment_count") = Some (Z.of_nat (length nds)) ->
  exists t' w' x', read_segments env lv (hd ++ descs_nodes nds) h t = Some (true, t') /\ counted x x' /\
    reading h vg t' x' (P ++ descs_slots lv nds.*2) /\ lv_done ty vg x t' lv w' /\
    w' = set_lv_segments (lv_segments w') (set_lv_le_count (descs_len nds.*2) w) /\ st_lvs t' = <[lv := w']> (st_lvs t) /\
    same_base t t' /\ (forall l v, l <> lv -> lv_done ty vg x t l v -> lv_done ty vg x t' l v).
Proof.
  intros Hlr Hs0 Hle0 Hfo Hok Hsep Hlen Hhd Hcount. pose proof Hlr as [_ L2 _ _ _ _ _ [_ L9]].
  destruct (loop_reads nds 0 t P w Hlr) as (t1 & w1 & segs & He & Hlr1 & Ew1 & Hk & Hnew); [by rewrite Hle0|done|done|].
  unfold read_segments. rewrite (bind_exec _ _ _ _ _ (eq_trans (loop_skips hd _ 0 t w Hhd L2 L9) He)), Hcount. cbn beta iota.
  rewrite swrap32_small, Z.add_0_l, Z.eqb_refl by lia. cbn [negb]. rewrite (bind_exec _ _ _ _ _ (check_passes _ _ _ Hlr1)). cbn [negb].
  destruct (merge_reads _ _ _ Hlr1) as (t' & w' & x' & He' & Hx' & Hr' & Hd' & Ew' & El' & Hb' & Hoth).
  exists t', w', x'. split; [done|]. split; [done|]. split; [done|]. split; [done|]. rewrite Ew1, Hs0, Hle0 in Ew'. split; [done|].
  split; [by rewrite El', (rk_lvs _ _ _ _ _ Hk), insert_insert_eq|]. split; [eapply same_base_trans; [apply Hk|done]|].
  intros l v Hl [[O1 O2 O3 O4 O5] Hn]. assert (forall q g, q ∈ lv_segments v -> st_segs t !! q = Some g -> q ∉ lv_segments w1) as Hq.
  { intros q g _ Hg. rewrite Ew1, Hs0. cbn. intros Hin. by rewrite (Hnew q Hin) in Hg. }
  assert (forall q g, seg_ok t vg x q g -> seg_ok t1 vg x q g) as Hok1.
  { intros q g Hg. eapply seg_ok_frame; [exact Hg| | |apply Hk].
    - rewrite (rk_segs _ _ _ _ _ Hk q g (sk_seg _ _ _ _ _ Hg)). symmetry. apply Hg.
    - intros k u Hu. rewrite (rk_lvs _ _ _ _ _ Hk). destruct (decide (k = lv)) as [->|]; [|rewrite lookup_insert_ne by done; eauto].
      rewrite lookup_insert_eq. eexists. split; [done|]. rewrite Ew1. cbn. congruence. }
  split; [split; try done|].
  - by rewrite El', lookup_insert_ne, (rk_lvs _ _ _ _ _ Hk), lookup_insert_ne.
  - eapply chain_frame; [|exact O4]. intros q g Hin Hg. apply Hoth; [eapply Hq; [done|apply Hg]|by apply Hok1].
  - intros q Hin. destruct (Hn q Hin) as (g & Hg & Hng). exists g. split; [|done].
    destruct (chain_member vg x l _ _ _ _ q O4 Hin) as (g' & Hg' & _).
    destruct (Hoth q g' (Hq q g Hin Hg) (Hok1 _ _ Hg')) as [_ ->]. by apply (rk_segs _ _ _ _ _ Hk).
Qed.
End read_segments.
