(* ===== verification/ImportVg.v ===== *)
(** * Reading the LVs of a VG

    The second pass over the LVs reads their identifiers, segments and device
    numbers; all LVs together fill the slots their sections name. *)

From S2P Require Import Prelude DmString Uuid Config ConfigProps Metadata PvManip PvSegs LvManip LvSegs LvReduce LvProps CheckLv Flags TextExport ExportProps TextImport ImportProps ImportPvs ImportLvs Quiet Place ImportSegs ImportLvSegs.

Section read_lvs.
Context {F : Type} (env : import_env (F := F)) (ty : segment_type) (Hty : striped_type env ty).
Hypothesis Hinv : inverse_ok (ie_inverse env).
Context (h : gmap (list Z) nat) (vg : nat) (x : volume_group).

(** The device numbers are kept when the minor number is fixed. *)
Definition dev_numbers (v : logical_volume) : Z * Z :=
  if flag (kept lv_flags (lv_status v)) FIXED_MINOR
  then (if 0 <=? la_major (lv_attrs_of v) then la_major (lv_attrs_of v) else -1, la_minor (lv_attrs_of v)) else (-1, -1).

Definition minor_ok (v : logical_volume) : Prop :=
  flag (kept lv_flags (lv_status v)) FIXED_MINOR = true -> 0 <= la_minor (lv_attrs_of v).

(** An LV once it is read. *)
Definition final_lv (v : logical_volume) (segs : list nat) (len : Z) : logical_volume :=
  let a := lv_attrs_of v in
  LogicalVolume (lv_name v) vg (kept lv_flags (lv_status v)) (wrap64 (len * vg_extent_size x)) len segs []
    (LvAttrs (va_id (vg_attrs_of x)) (la_id a) (la_alloc a) (lv_read_ahead env (la_read_ahead a)) (dev_numbers v).1 (dev_numbers v).2
       (la_tags a) (la_timestamp a) (if la_timestamp a =? 0 then [] else la_hostname a) 0 None).

Lemma kept_flag f status :
  Z.land (Z.lor (exported lv_flags STATUS_FLAG) (exported lv_flags COMPATIBLE_FLAG)) f = 0 -> flag (kept lv_flags status) f = false.
Proof. intros E. unfold flag, kept. by rewrite <- Z.land_assoc, E, Z.land_0_r. Qed.

(** Updates of one LV. *)
Definition with_lv (lv : nat) (w : logical_volume) (t : store) : store := set_tbl (T := logical_volume) (<[lv := w]> (st_lvs t)) t.

Lemma lv_done_other t lv w w' l u :
  st_lvs t !! lv = Some w -> lv_vg w' = lv_vg w -> l <> lv -> lv_done ty vg x t l u -> lv_done ty vg x (with_lv lv w' t) l u.
Proof.
  intros Hw Hv Hl [[O1 O2 O3 O4 O5] Hn]. split; [|done]. split; try done.
  - cbn. by rewrite lookup_insert_ne.
  - eapply chain_frame; [|exact O4]. intros q g _. apply seg_ok_same; [by eapply same_pvs_lv|done].
Qed.

Lemma lv_done_self t lv w w' :
  lv_vg w' = lv_vg w -> lv_segments w' = lv_segments w -> lv_le_count w' = lv_le_count w ->
  lv_done ty vg x t lv w -> lv_done ty vg x (with_lv lv w' t) lv w'.
Proof.
  intros Ev Es El [[O1 O2 O3 O4 O5] Hn]. split; [|by rewrite Es]. split; [apply lookup_insert_eq|congruence|by rewrite Es| |by rewrite El].
  rewrite Es, El. eapply chain_frame; [|exact O4]. intros q g _. apply seg_ok_same; [by eapply same_pvs_lv|done].
Qed.

Lemma lv_done_ticks t t' l u : ticks t t' -> lv_done ty vg x t l u -> lv_done ty vg x t' l u.
Proof.
  intros (E1 & E2 & E3 & E4 & E5 & E6 & E7) [[O1 O2 O3 O4 O5] Hn]. split; [|by rewrite E3]. split; try done; [by rewrite E4|].
  eapply chain_frame; [|exact O4]. intros q g _. apply seg_ok_same; [|done].
  split; try done; [lia|intros; rewrite E3; eauto|intros; rewrite E4; eauto].
Qed.

Lemma reading_lv t x0 P lv w w' :
  reading h vg t x0 P -> st_lvs t !! lv = Some w -> lv_vg w' = lv_vg w -> reading h vg (with_lv lv w' t) x0 P.
Proof. apply reading_with_lv. Qed.

Section one.
Context (lv : nat) (v : logical_volume) (nds : list (list Z * seg_desc)) (s : store) (N : gmap (list Z) (list Z)).
Hypothesis Hv : lv_fields_ok (F := F) s N v.
Hypothesis Hk : seg_keys (F := F) (descs_nodes nds).
Hypothesis Hminor : minor_ok v.
Hypothesis Hlen : length nds = length (lv_segments v).
Let cn := lv_head v ++ descs_nodes (F := F) nds.

Lemma read_dev_numbers :
  (if flag (kept lv_flags (lv_status v)) FIXED_MINOR then
     match dm_config_get_uint32 cn (bytes "minor") with
     | None => None
     | Some minor => Some (if dm_config_get_uint32 cn (bytes "major") is Some major then swrap 32 major else -1, swrap 32 minor)
     end
   else Some (-1, -1)) = Some (dev_numbers v).
Proof.
  unfold dev_numbers. destruct (flag _ _) eqn:E; [|done]. specialize (Hminor E). pose proof (lf_minor _ _ _ Hv). pose proof (lf_major _ _ _ Hv).
  pose proof (lv_hunt_minor v (descs_nodes nds) Hk) as H1. pose proof (lv_hunt_major v (descs_nodes nds) Hk) as H2. fold cn in H1, H2.
  rewrite (proj2 (Z.leb_le _ _)) in H1 by done. rewrite (get_uint32_spec cn (bytes "minor") _ eq_refl H1), swrap32_small by lia.
  destruct (Z.leb_spec 0 (la_major (lv_attrs_of v))).
  - by rewrite (get_uint32_spec cn (bytes "major") _ eq_refl H2), swrap32_small by lia.
  - by destruct (get_none_spec cn (bytes "major") eq_refl H2) as (-> & _).
Qed.

Lemma read_lvsegs_spec t P acc :
  (exists x0, counted x x0 /\ reading h vg t x0 P) -> st_lvs t !! lv = Some (imported_lv env vg v) -> acc.1 !! lv_name v = Some lv ->
  follow 0 nds.*2 -> Forall (desc_ok h t) nds.*2 -> separate (P ++ descs_slots lv nds.*2) ->
  exists t' segs x', read_lvsegs env h vg (Node (lv_name v) [] cn) acc t = Some (Some acc, t') /\ counted x x' /\
    reading h vg t' x' (P ++ descs_slots lv nds.*2) /\ lv_done ty vg x t' lv (final_lv v segs (descs_len nds.*2)) /\
    st_lvs t' = <[lv := final_lv v segs (descs_len nds.*2)]> (st_lvs t) /\ same_base t t' /\
    (forall l u, l <> lv -> lv_done ty vg x t l u -> lv_done ty vg x t' l u).
Proof.
  intros (x0 & Hx0 & Hr) Hw Hacc Hfo Hok Hsep. set (w := imported_lv env vg v) in *. unfold read_lvsegs. cbn [node_key node_child]. rewrite Hacc.
  assert (exists c cn', cn = c :: cn') as (c & cn' & Ecn) by (unfold cn, lv_head; eexists _, _; reflexivity).
  rewrite Ecn. cbn beta iota. rewrite <- Ecn.
  rewrite (bind_exec _ _ _ _ _ (read_id_spec env Hinv cn (bytes "id") (la_id (lv_attrs_of v)) t eq_refl (lv_hunt_id v _) (lf_id _ _ _ Hv))). cbn beta iota.
  pose proof (vo_vg _ _ _ (rd_vg _ _ _ _ _ Hr)) as Hx. mstep. change (lv_vg w) with vg. do 2 mstep.
  assert (va_id (vg_attrs_of x0) = va_id (vg_attrs_of x)) as -> by by destruct Hx0 as [f ->].
  set (w1 := set_lv_attrs _ w). change (set_tbl _ t) with (with_lv lv w1 t). set (t1 := with_lv lv w1 t).
  assert (lv_reading ty h vg x lv t1 P w1) as Hlr.
  { split; [exists x0; split; [done|by eapply reading_lv]|apply lookup_insert_eq|reflexivity|constructor|reflexivity| |reflexivity|].
    - intros q Hq. by apply elem_of_nil in Hq.
    - split; apply kept_flag; vm_compute; reflexivity. }
  destruct (read_segments_spec env ty Hty h vg x lv t1 P w1 (lv_head v) nds Hlr) as (t2 & w2 & x2 & He & Hx2 & Hr2 & Hd2 & Ew2 & El2 & Hb2 & Hoth); try done.
  { eapply Forall_impl; [exact Hok|]. intros d. by apply desc_ok_base. }
  { rewrite Hlen. by destruct Hv. }
  { apply lv_head_values. }
  { rewrite Hlen. apply get_uint32_spec; [done|apply lv_hunt_count|]. destruct Hv; lia. }
  fold cn in He. rewrite (bind_exec _ _ _ _ _ He). cbn [negb]. pose proof (vo_vg _ _ _ (rd_vg _ _ _ _ _ Hr2)) as Hv2.
  assert (st_lvs t2 !! lv = Some w2) as Hw2 by apply Hd2. mstep. mstep.
  assert (vg_extent_size x2 = vg_extent_size x) as -> by by destruct Hx2 as [f ->].
  set (w3 := set_lv_size _ w2). change (set_tbl _ t2) with (with_lv lv w3 t2). set (t3 := with_lv lv w3 t2).
  assert (st_lvs t3 !! lv = Some w3) as Hw3 by apply lookup_insert_eq. mstep.
  set (w4 := set_lv_attrs (set_la_dev (dev_numbers v).1 (dev_numbers v).2) w3).
  assert (w4 = final_lv v (lv_segments w2) (descs_len nds.*2)) as Ew4.
  { unfold w4, w3. rewrite Ew2. unfold w1, w. reflexivity. }
  assert (((if lv_flag FIXED_MINOR w3 then
     match dm_config_get_uint32 cn (bytes "minor") with
     | None => modify lv (set_lv_attrs (set_la_dev (la_major (lv_attrs_of w3)) (-1)));; mret None
     | Some minor =>
         modify lv (set_lv_attrs (set_la_dev
           (if dm_config_get_uint32 cn (bytes "major") is Some major then swrap 32 major else -1) (swrap 32 minor)));; mret (Some acc)
     end
   else modify lv (set_lv_attrs (set_la_dev (-1) (-1)));; mret (Some acc)) : M (option lv_state)) t3 = Some (Some acc, with_lv lv w4 t3)) as He4.
  { pose proof read_dev_numbers as Hdev. unfold lv_flag. assert (lv_status w3 = kept lv_flags (lv_status v)) as -> by (unfold w3; rewrite Ew2; reflexivity).
    unfold w4. destruct (flag (kept lv_flags (lv_status v)) FIXED_MINOR).
    - destruct (dm_config_get_uint32 cn (bytes "minor")) as [minor|]; [|done]. apply (inj Some) in Hdev as <-. by mstep.
    - apply (inj Some) in Hdev as <-. by mstep. }
  set (t4 := with_lv lv w4 t3) in *. exists t4, (lv_segments w2), x2. rewrite <- Ew4. split; [exact He4|]. split; [done|].
  split; [eapply reading_lv; [eapply reading_lv; [exact Hr2|exact Hw2|done]|exact Hw3|done]|].
  split; [eapply (lv_done_self _ _ w3); [done..|]; by eapply (lv_done_self _ _ w2)|]. split; [|split].
  - cbn. rewrite El2. cbn. by rewrite !insert_insert_eq.
  - exact Hb2.
  - intros l u Hl Hu. eapply lv_done_other; [exact Hw3|done|done|]. eapply lv_done_other; [exact Hw2|done|done|].
    apply Hoth; [done|]. by eapply lv_done_other.
Qed.
End one.

(** ** All LVs *)

(** An LV as it is read: its address, its fields, and its segments with the names of
    their sections. *)
Definition lv_item := (nat * (logical_volume * list (list Z * seg_desc)))%type.

Definition item_node (e : lv_item) : cnode F := Node (lv_name e.2.1) [] (lv_head e.2.1 ++ descs_nodes e.2.2).
Definition item_slots (e : lv_item) : list slot := descs_slots e.1 e.2.2.*2.
Definition items_slots (l : list lv_item) : list slot := concat (map item_slots l).

Record item_ok (s : store) (N : gmap (list Z) (list Z)) (t : store) (e : lv_item) : Prop := {
  io_fields : lv_fields_ok (F := F) s N e.2.1;
  io_keys : seg_keys (F := F) (descs_nodes e.2.2);
  io_minor : minor_ok e.2.1;
  io_length : length e.2.2 = length (lv_segments e.2.1);
  io_follow : follow 0 e.2.2.*2;
  io_descs : Forall (desc_ok h t) e.2.2.*2 }.

Lemma item_ok_base s N t t' e : same_base t t' -> item_ok s N t e -> item_ok s N t' e.
Proof. intros Hb [H1 H2 H3 H4 H5 H6]. split; try done. eapply Forall_impl; [exact H6|]. intros d. by apply desc_ok_base. Qed.

(** The LV is read. *)
Definition item_done (t : store) (e : lv_item) : Prop :=
  exists segs, lv_done ty vg x t e.1 (final_lv e.2.1 segs (descs_len e.2.2.*2)).

Lemma read_lvsegs_all s N acc l : forall t P,
  (exists x0, counted x x0 /\ reading h vg t x0 P) ->
  Forall (fun e => item_ok s N t e /\ st_lvs t !! e.1 = Some (imported_lv env vg e.2.1) /\ acc.1 !! lv_name e.2.1 = Some e.1) l ->
  NoDup l.*1 -> separate (P ++ items_slots l) ->
  exists t' x', each_node (read_lvsegs env h vg) (map item_node l) acc t = Some (Some acc, t') /\ counted x x' /\
    reading h vg t' x' (P ++ items_slots l) /\ Forall (item_done t') l /\ same_base t t' /\
    (forall k u, k ∉ l.*1 -> lv_done ty vg x t k u -> lv_done ty vg x t' k u).
Proof.
  induction l as [|[lv [v nds]] l IH]; intros t P Hr Hl Hnd Hsep.
  { destruct Hr as (x0 & Hx0 & Hr). exists t, x0. unfold items_slots. cbn. rewrite app_nil_r. do 3 (split; [done|]). split; [constructor|]. by split. }
  apply Forall_cons in Hl as [([I1 I2 I3 I4 I5 I6] & Hw & Hacc) Hl]. rewrite fmap_cons in Hnd. apply NoDup_cons in Hnd as [Hlv Hnd].
  unfold items_slots in Hsep. cbn [map concat item_slots fst snd] in *. rewrite app_assoc in Hsep. change (concat _) with (items_slots l) in Hsep.
  destruct (read_lvsegs_spec lv v nds s N I1 I2 I3 I4 t P acc Hr Hw Hacc I5 I6 (separate_prefix _ _ Hsep))
    as (t1 & segs & x1 & He & Hx1 & Hr1 & Hd1 & El1 & Hb1 & Hoth).
  destruct (IH t1 _ (ex_intro _ x1 (conj Hx1 Hr1))) as (t' & x' & He' & Hx' & Hr' & Hdone & Hb' & Hoth'); [|done|done|].
  { apply Forall_forall. intros e He0. rewrite Forall_forall in Hl. destruct (Hl e He0) as (A & B & C). split; [by eapply item_ok_base|].
    split; [|done]. rewrite El1, lookup_insert_ne; [done|]. intros ->. apply Hlv, list_elem_of_fmap. by exists e. }
  exists t', x'. cbn [each_node]. unfold item_node at 1. cbn [fst snd]. rewrite (bind_exec _ _ _ _ _ He). cbn beta iota.
  split; [done|]. split; [done|]. split; [unfold items_slots; cbn [map concat item_slots fst snd]; by rewrite app_assoc|].
  split; [constructor; [|done]; exists segs; by apply Hoth'|]. split; [by eapply same_base_trans|].
  intros k u [Hk1 Hk2]%not_elem_of_cons Hu. apply Hoth'; [done|]. by apply Hoth.
Qed.

(** ** Mirror logs *)

Lemma fixup_segs_none segs t :
  (forall q, q ∈ segs -> exists g, st_segs t !! q = Some g /\ new_seg ty g) -> no_oom t ->
  exists t', fixup_segs env segs t = Some (true, t') /\ ticks t t'.
Proof.
  revert t. induction segs as [|q segs IH]; intros t Hs Hno; [exists t; split; [done|by repeat split]|]. cbn [fixup_segs].
  destruct (Hs q ltac:(left)) as (g & Hg & _ & _ & Hlog & _). mstep.
  assert (exists m t1, get_segtype_from_string (ie_segtypes env) (bytes "mirror") t = Some (m, t1) /\ ticks t t1) as (m & t1 & He & Ht).
  { unfold get_segtype_from_string. destruct (List.find _ _); [eexists _, t; split; [done|by repeat split]|].
    unfold init_unknown_segtype. palloc. eexists _, _. split; [reflexivity|]. apply ticks_tick. }
  rewrite (bind_exec _ _ _ _ _ He). cbn beta. rewrite Hlog.
  assert (forall b : bool, ((if b then mret true else mret true) : M bool) t1 = Some (true, t1)) as Hb by by intros [].
  rewrite (bind_exec _ _ _ _ _ (Hb _)). cbn [negb]. pose proof Ht as (_ & _ & E3 & _).
  destruct (IH t1) as (t2 & He2 & Ht2); [|by eapply ticks_no_oom|exists t2; split; [done|by eapply ticks_trans]].
  intros k Hk. rewrite E3. apply Hs. by right.
Qed.

Lemma fixup_lvs_none lvs t :
  (forall l, l ∈ lvs -> exists w, lv_done ty vg x t l w) -> no_oom t -> exists t', fixup_lvs env lvs t = Some (true, t') /\ ticks t t'.
Proof.
  revert t. induction lvs as [|l lvs IH]; intros t Hl Hno; [exists t; split; [done|by repeat split]|]. cbn [fixup_lvs].
  destruct (Hl l ltac:(left)) as (w & [Hw _ _ _ _] & Hs). mstep. destruct (fixup_segs_none _ t Hs Hno) as (t1 & He & Ht).
  rewrite (bind_exec _ _ _ _ _ He). cbn [negb].
  destruct (IH t1) as (t2 & He2 & Ht2); [|by eapply ticks_no_oom|exists t2; split; [done|by eapply ticks_trans]].
  intros k Hk. destruct (Hl k ltac:(by right)) as (u & Hu). exists u. by eapply lv_done_ticks.
Qed.
End read_lvs.
