(* ===== verification/ImportMain.v ===== *)
(** * Reading a VG from its tree

    The composition of the passes over PVs, LVs and segments. *)

From S2P Require Import Prelude DmString Uuid Config ConfigProps Metadata PvManip PvSegs LvManip LvSegs LvReduce LvProps CheckLv Flags TextExport ExportProps TextImport ImportProps ImportPvs ImportLvs Quiet Place ImportSegs ImportLvSegs ImportVg.

(** ** Slots up to the addresses of LVs *)

Definition slot_key (sl : slot) : list Z * Z * Z := (sl_pv sl, sl_pe sl, sl_len sl).

Lemma apart_key a b a' b' : slot_key a = slot_key a' -> slot_key b = slot_key b' -> apart a b -> apart a' b'.
Proof. unfold slot_key, apart. intros [= -> -> ->] [= -> -> ->]. done. Qed.

Lemma separate_key P P' : map slot_key P = map slot_key P' -> separate P -> separate P'.
Proof.
  intros E H P1 sl P2 sl' -> Hs. rewrite map_app in E. cbn in E. apply map_eq_app in E as (Q1 & Q2 & -> & E1 & E2).
  destruct Q2 as [|ql Q2]; [done|]. cbn in E2. injection E2 as Ek E2'.
  assert (exists ql', ql' ∈ Q1 /\ slot_key ql' = slot_key sl') as (ql' & Hq & Ek').
  { assert (slot_key sl' ∈ map slot_key Q1) as Hin by (rewrite E1; by apply list_elem_of_fmap_2).
    apply list_elem_of_fmap in Hin as (ql' & E & ?). by exists ql'. }
  eapply apart_key; [exact Ek'|..|by eapply H]. by unfold slot_key; f_equal; [f_equal|].
Qed.

Lemma desc_slots_key lv lv' d : map slot_key (desc_slots lv d) = map slot_key (desc_slots lv' d).
Proof. unfold desc_slots. generalize 0. induction (ds_areas d) as [|a l IH]; intros i; [done|]. cbn. f_equal. apply IH. Qed.

Lemma items_key (l : list (logical_volume * list (list Z * seg_desc))) (ids ids' : list nat) :
  length ids = length l -> length ids' = length l ->
  map slot_key (items_slots (zip ids l)) = map slot_key (items_slots (zip ids' l)).
Proof.
  revert ids ids'. induction l as [|e l IH]; intros [|i ids] [|i' ids'] H1 H2; try done. cbn in H1, H2.
  unfold items_slots. cbn [zip zip_with map concat]. rewrite !map_app. f_equal; [|apply IH; lia].
  unfold item_slots, descs_slots. cbn [fst snd]. induction (e.2.*2) as [|d ds IHd]; [done|]. cbn [map concat]. rewrite !map_app.
  f_equal; [apply desc_slots_key|apply IHd].
Qed.

(** ** The state between the passes *)

Lemma empty_vg_new t vg x :
  st_vgs t !! vg = Some x -> vg_pvs x = [] -> vg_pv_count x = 0 -> vg_extent_count x = 0 -> vg_free_count x = 0 ->
  no_oom t -> all_fresh t -> empty_vg t vg x.
Proof.
  intros Hx E1 E2 E3 E4 Hno Hf. split; try done; [|rewrite E1; intros p e Hp; by apply elem_of_nil in Hp|].
  - split; rewrite ?E1, ?E2, ?E3, ?E4; try done; [by apply NoDup_nil|intros p Hp; by apply elem_of_nil in Hp|exact (af_pegs _ Hf)].
  - intros p v j k Hp. rewrite E1 in Hp. by apply elem_of_nil in Hp.
Qed.

Lemma empty_vg_fields t t' vg x x' :
  empty_vg t vg x -> ticks t t' -> vg_pvs x' = vg_pvs x -> vg_pv_count x' = vg_pv_count x -> vg_extent_count x' = vg_extent_count x ->
  vg_free_count x' = vg_free_count x -> empty_vg (set_tbl (T := volume_group) (<[vg := x']> (st_vgs t')) t') vg x'.
Proof.
  intros [H1 H2 H3 H4 H5] Ht E1 E2 E3 E4. pose proof Ht as (T1 & T2 & T3 & T4 & T5 & T6 & T7). set (t2 := set_tbl _ t').
  assert (forall p e, owner_at t2 p e = owner_at t p e) as Ho by (intros; by apply owner_at_pvs).
  split.
  - apply (vg_ok_rest t t2 vg x); try done; [apply lookup_insert_eq| |cbn; lia].
    intros g Hg sg Hsg. destruct (Hg sg Hsg) as (y & w & A & B & C). exists y, w. cbn. by rewrite T3, T4.
  - intros p e. rewrite E1, Ho. apply H2.
  - intros p v j k Hp Hv Hj Hk Hn. rewrite Ho. rewrite E1 in Hp. cbn in Hv, Hk. rewrite T2 in Hv. rewrite T1 in Hk. by apply (H3 p v j k).
  - change (no_oom t'). by eapply ticks_no_oom.
  - pose proof (all_fresh_ticks _ _ Ht H5) as [F1 F2 F3 F4 F5]. split; try done. cbn. eapply fresh_insert; [|done]. rewrite T5. apply H1.
Qed.

Lemma reading_empty h t vg x :
  empty_vg t vg x -> (forall n1 n2 p, h !! n1 = Some p -> h !! n2 = Some p -> n1 = n2) -> (forall n p, h !! n = Some p -> p ∈ vg_pvs x) ->
  reading h vg t x [].
Proof.
  intros [H1 H2 H3 H4 H5] Hi Hp. split; try done. intros n p e Hn. unfold lv_extent. by rewrite H2 by by eapply Hp.
Qed.

(** ** Trees *)

Section read_vg.
Context {F : Type} (env : import_env (F := F)) (ty : segment_type) (Hty : striped_type env ty).
Hypothesis Hinv : inverse_ok (ie_inverse env).

(** An LV and its segments with the names of their sections. *)
Definition lv_source := (logical_volume * list (list Z * seg_desc))%type.
Definition source_node (e : lv_source) : cnode F := item_node (0%nat, e).

Definition lvs_nodes (items : list lv_source) : list (cnode F) :=
  match items with [] => [] | _ => [Node (bytes "logical_volumes") [] (map source_node items)] end.

(** The section of a VG with PVs [pvl], by name, and LVs [items]. *)
Definition import_tree (x : volume_group) (pvl : list (list Z * physical_volume)) (items : list lv_source) : cnode F :=
  Node (vg_name x) [] (vg_nodes x ++ [Node (bytes "physical_volumes") [] (map pv_node_of pvl)] ++ lvs_nodes items).

(** The areas of a segment lie on the PVs. *)
Record desc_fits (pvl : list (list Z * physical_volume)) (d : seg_desc) : Prop := {
  df_le : 0 <= ds_le d /\ ds_le d + ds_len d < 2 ^ 32;
  df_alen : 0 < ds_alen d;
  df_areas : ds_areas d <> [];
  df_stripe : 0 <= ds_stripe d < 2 ^ 32;
  df_tags : NoDup (ds_tags d);
  df_fits : Forall (fun a => exists v, (a.1, v) ∈ pvl /\ 0 <= a.2 < 2 ^ 32 /\ a.2 + ds_alen d <= pv_pe_count v) (ds_areas d);
  df_size : ds_count d * AREA_SIZE < 2 ^ 32 }.

Record source_ok (s : store) (N : gmap (list Z) (list Z)) (pvl : list (list Z * physical_volume)) (e : lv_source) : Prop := {
  so_fields : lv_fields_ok (F := F) s N e.1;
  so_policy : la_alloc (lv_attrs_of e.1) <> ALLOC_CLING_BY_TAGS;
  so_keys : seg_keys (F := F) (descs_nodes e.2);
  so_minor : minor_ok e.1;
  so_length : length e.2 = length (lv_segments e.1);
  so_follow : follow 0 e.2.*2;
  so_descs : Forall (desc_fits pvl) e.2.*2 }.

Record tree_ok (s : store) (N : gmap (list Z) (list Z)) (x : volume_group) (pvl : list (list Z * physical_volume))
    (items : list lv_source) : Prop := {
  to_fields : vg_fields_ok x;
  to_policy : va_alloc (vg_attrs_of x) <> ALLOC_CLING_BY_TAGS;
  to_system_id : (length (va_system_id (vg_attrs_of x)) <= 128)%nat;
  to_pvs : Forall (fun nv => pv_fields_ok nv.2 /\ sizes_ok env nv.2) pvl;
  to_names : NoDup pvl.*1;
  to_extents : zsum (map (fun nv => pv_pe_count nv.2) pvl) < 2 ^ 32;
  to_count : Z.of_nat (length pvl) < 2 ^ 32;
  to_items : Forall (source_ok s N pvl) items;
  to_lv_names : NoDup (map (fun e => lv_name e.1) items);
  to_apart : exists ids, length ids = length items /\ separate (items_slots (zip ids items)) }.

(** The VG that is read. *)
Definition vg_fields_read (x : volume_group) (tags : list (list Z)) : vg_attrs :=
  let a := vg_attrs_of x in
  VgAttrs (va_id a) (va_seqno a) (vg_policy (va_alloc a)) (va_system_id a) tags (va_mda_copies a) None.
Definition final_vg (x : volume_group) (ps ids : list nat) (extents free : Z) : volume_group :=
  VolumeGroup (vg_name x) (kept vg_flags (vg_status x)) (vg_extent_size x) extents free (Z.of_nat (length ps)) (vg_max_pv x) (vg_max_lv x)
    ps ids (vg_fields_read x (va_tags (vg_attrs_of x))).

(** PV [p] was read from [v], but for its segments. *)
Definition pv_imported (t : store) (vg : nat) (x : volume_group) (p : nat) (v : physical_volume) : Prop :=
  exists size v', fix_pv_size env (fst <$> device_from_pvid env (pa_id (pv_attrs_of v))) (pv_size v) = Some size /\
    st_pvs t !! p = Some v' /\ base_pv v' = base_pv (set_pv_vg (Some vg) (imported_pv env x v size)).

Record imported (t : store) (vg : nat) (x' x : volume_group) (pvl : list (list Z * physical_volume)) (items : list lv_source) : Prop := {
  im_vg : vg_ok t vg x';
  im_fields : exists free, x' = final_vg x (vg_pvs x') (vg_lvs x') (zsum (map (fun nv => pv_pe_count nv.2) pvl)) free;
  im_pvs : Forall2 (fun p nv => pv_imported t vg x' p nv.2) (vg_pvs x') pvl;
  im_lvs : Forall2 (fun lv e => item_done env ty vg x' t (lv, e)) (vg_lvs x') items;
  im_lvs_nodup : NoDup (vg_lvs x');
  im_extents : Forall2 (fun p nv => forall e, lv_extent t p e = placed (items_slots (zip (vg_lvs x') items)) nv.1 e) (vg_pvs x') pvl;
  im_oom : no_oom t;
  im_fresh : all_fresh t }.

(** *** The VG itself *)

Lemma alloc_vg_spec name t :
  no_oom t -> all_fresh t ->
  exists t' x0, alloc_vg name t = Some (Some (st_next t), t') /\ st_vgs t' = <[st_next t := x0]> (st_vgs t) /\ vg_name x0 = name /\
    no_oom t' /\ all_fresh t'.
Proof.
  intros Hno Hf. unfold alloc_vg. palloc. rewrite bind_alloc_ok by eauto with oom. cbn beta iota.
  change (st_next (alloc_tick t)) with (st_next t). set (x0 := VolumeGroup _ _ _ _ _ _ _ _ _ _ _). set (t1 := alloc_in x0 (alloc_tick t)).
  assert (no_oom t1) as Hn1 by exact (tick_no_oom _ (tick_no_oom _ Hno)).
  rewrite bind_pool_ok by done. cbn [negb]. rewrite bind_pool_ok by eauto with oom.
  exists (alloc_tick (alloc_tick t1)), x0. split; [done|]. split; [done|]. split; [done|]. split; [by apply tick_no_oom, tick_no_oom|].
  destruct Hf as [F1 F2 F3 F4 F5]. split; cbn; intros i Hi; [apply F1|apply F2|apply F3|apply F4|rewrite lookup_insert_ne by lia; apply F5]; lia.
Qed.

Section one.
Context (s : store) (N : gmap (list Z) (list Z)) (x : volume_group) (pvl : list (list Z * physical_volume)) (items : list lv_source).
Hypothesis Hok : tree_ok s N x pvl items.
Let cn := node_child (import_tree x pvl items).

Lemma tree_hunt_lvs k : tok_match (bytes "logical_volumes") k = false -> hunt (lvs_nodes items) k = None.
Proof. intros Hk. unfold lvs_nodes. destruct items; [done|]. by apply hunt_miss1. Qed.

Lemma vg_hunt_miss k tail :
  Forall (fun key => tok_match key k = false) [bytes "id"; bytes "seqno"; bytes "format"; bytes "status"; bytes "flags"; bytes "tags";
    bytes "system_id"; bytes "extent_size"; bytes "max_lv"; bytes "max_pv"; bytes "allocation_policy"; bytes "metadata_copies"] ->
  hunt (vg_nodes x ++ tail) k = hunt (F := F) tail k.
Proof.
  intros H. repeat (apply Forall_cons in H as [? H]). unfold vg_nodes. rewrite <- !app_assoc.
  rewrite !hunt_miss by done.
  rewrite (hunt_if_miss (va_format (vg_attrs_of x)) (fun name => [snode (bytes "format") name])) by (intros; by apply hunt_miss1).
  rewrite hunt_flags_miss, hunt_tags_miss by done. rewrite hunt_opt_miss by by apply hunt_miss1. rewrite !hunt_miss by done.
  rewrite hunt_opt_miss by by apply hunt_miss1. by rewrite hunt_miss.
Qed.

Lemma section_pvs : dm_config_get_section cn (bytes "physical_volumes") = Some (Node (bytes "physical_volumes") [] (map pv_node_of pvl)).
Proof.
  unfold dm_config_get_section. rewrite find_key by done. unfold cn, import_tree. cbn [node_child].
  rewrite vg_hunt_miss by by repeat constructor. by rewrite hunt_hit.
Qed.

Lemma section_lvs : dm_config_get_section cn (bytes "logical_volumes") =
  match items with [] => None | _ => Some (Node (bytes "logical_volumes") [] (map source_node items)) end.
Proof.
  unfold dm_config_get_section. rewrite find_key by done. unfold cn, import_tree. cbn [node_child].
  rewrite vg_hunt_miss by by repeat constructor. rewrite hunt_miss by done. unfold lvs_nodes. by destruct items.
Qed.

Lemma vg_hunt_tags : hunt cn (bytes "tags") = match va_tags (vg_attrs_of x) with [] => None | _ => Some (Node (bytes "tags") (array_values (va_tags (vg_attrs_of x))) []) end.
Proof.
  unfold cn, import_tree. cbn [node_child]. unfold vg_nodes. rewrite <- !app_assoc. rewrite !hunt_miss by done.
  rewrite (hunt_if_miss (va_format (vg_attrs_of x)) (fun name => [snode (bytes "format") name])) by (intros; by apply hunt_miss1).
  rewrite hunt_flags_miss by done. apply hunt_tags. hunting. by apply tree_hunt_lvs.
Qed.

Lemma vg_reads_fields x0 t : vg_name x0 = vg_name x ->
  read_vg_fields env cn x0 t = Some (Some (VolumeGroup (vg_name x) (kept vg_flags (vg_status x)) (vg_extent_size x) 0 0 0 (vg_max_pv x) (vg_max_lv x)
    [] [] (vg_fields_read x [])), t).
Proof.
  intros E. pose proof Hok as [H1 H2 H3 _ _ _ _ _ _ _]. unfold cn, import_tree. cbn [node_child].
  rewrite (read_vg_fields_spec env Hinv x x0 _ t H1 H2 H3); [by rewrite E| |]; rewrite hunt_miss by done; by apply tree_hunt_lvs.
Qed.

(** The passes over the LVs, when there are any. *)
Lemma each_lvs {A} (f : cnode F -> A -> M (option A)) a t :
  read_sections (bytes "logical_volumes") f cn true a t = each_node f (map source_node items) a t.
Proof. unfold read_sections. rewrite section_lvs. by destruct items. Qed.

(** Names and addresses of PVs. *)
Lemma pv_table h vg t x1 ps :
  Forall2 (fun p (nv : list Z * physical_volume) => pv_read env t vg x1 p nv.2 /\ h !! nv.1 = Some p) ps pvl ->
  (forall k, k ∉ pvl.*1 -> h !! k = (∅ : gmap (list Z) nat) !! k) -> NoDup ps ->
  (forall n1 n2 p, h !! n1 = Some p -> h !! n2 = Some p -> n1 = n2) /\ (forall n p, h !! n = Some p -> p ∈ ps) /\
  (forall d, desc_fits pvl d -> desc_ok h t d).
Proof.
  intros Hps Hh Hnd.
  assert (forall n p, h !! n = Some p -> exists i nv, ps !! i = Some p /\ pvl !! i = Some nv /\ nv.1 = n) as Hex.
  { intros n p Hn. destruct (decide (n ∈ pvl.*1)) as [Hin|Hout]; [|by rewrite Hh, lookup_empty in Hn].
    apply list_elem_of_fmap in Hin as (nv & -> & Hin). apply list_elem_of_lookup in Hin as [i Hi].
    destruct (Forall2_lookup_r _ _ _ _ _ Hps Hi) as (p' & Hp & _ & Hh'). exists i, nv. simplify_eq. done. }
  split; [|split].
  - intros n1 n2 p (i & nv & A & B & <-)%Hex (j & nv' & A' & B' & <-)%Hex. by rewrite (NoDup_lookup _ _ _ _ Hnd A A') in B; simplify_eq.
  - intros n p (i & nv & A & _)%Hex. by eapply list_elem_of_lookup_2.
  - intros d [D1 D2 D3 D4 D5 D6 D7]. split; try done. eapply Forall_impl; [exact D6|]. intros a (v & Hin & Hpe & Hend).
    apply list_elem_of_lookup in Hin as [i Hi]. destruct (Forall2_lookup_r _ _ _ _ _ Hps Hi) as (p & _ & (size & l & _ & Hv) & Hp).
    eexists p, _. split; [done|]. split; [exact Hv|]. done.
Qed.

(** *** The passes *)

(** Behind the PVs and the VG's tags. *)
Definition pvs_done (t : store) (vg : nat) (h : gmap (list Z) nat) (xa : volume_group) : Prop :=
  empty_vg t vg xa /\
  xa = final_vg x (vg_pvs xa) [] (zsum (map (fun nv => pv_pe_count nv.2) pvl)) (zsum (map (fun nv => pv_pe_count nv.2) pvl)) /\
  Forall2 (fun p nv => pv_read env t vg xa p nv.2 /\ h !! nv.1 = Some p) (vg_pvs xa) pvl /\ (forall k, k ∉ pvl.*1 -> h !! k = None).

Lemma read_pvs_pass vg t x0 :
  st_vgs t !! vg = Some x0 -> no_oom t -> all_fresh t ->
  let x1 := VolumeGroup (vg_name x) (kept vg_flags (vg_status x)) (vg_extent_size x) 0 0 0 (vg_max_pv x) (vg_max_lv x) [] [] (vg_fields_read x []) in
  exists t1 h, read_sections (bytes "physical_volumes") (read_pv env vg) cn false ∅ (set_tbl (T := volume_group) (<[vg := x1]> (st_vgs t)) t)
      = Some (Some h, t1) /\
    exists t2, read_opt_tags cn t1 = Some (Some (va_tags (vg_attrs_of x)), t2) /\
    exists x2, st_vgs t2 !! vg = Some x2 /\ let xa := set_vg_tags (va_tags (vg_attrs_of x)) x2 in
      pvs_done (set_tbl (T := volume_group) (<[vg := xa]> (st_vgs t2)) t2) vg h xa.
Proof.
  intros Hx0 Hno Hf x1. set (t0 := set_tbl _ t). unfold read_sections. rewrite section_pvs. cbn [node_child].
  assert (empty_vg t0 vg x1) as He0.
  { apply empty_vg_new; try done; [apply lookup_insert_eq|]. destruct Hf as [F1 F2 F3 F4 F5]. split; try done. by eapply fresh_insert. }
  destruct (read_pvs_spec env Hinv pvl t0 vg x1 ∅ He0) as (t1 & ps & h & He & Hev & Hps & Hh & _); [apply Hok|apply Hok|apply Hok|cbn; apply Hok|].
  exists t1, h. split; [done|].
  destruct (read_opt_tags_spec cn (va_tags (vg_attrs_of x)) t1) as (t2 & He2 & Ht2); [|apply Hev|apply vg_hunt_tags|].
  { pose proof (to_fields _ _ _ _ _ Hok) as Hfields. by destruct (vf_tags _ Hfields). }
  exists t2. split; [done|]. set (x2 := vg_with_pvs _ _ _) in Hev. exists x2. split; [rewrite (proj1 (proj2 (proj2 (proj2 (proj2 Ht2))))); apply Hev|].
  set (xa := set_vg_tags _ x2). split; [by eapply empty_vg_fields|]. split; [|split].
  - unfold xa, x2, vg_with_pvs, x1. by rewrite Z.add_0_l.
  - eapply Forall2_impl; [exact Hps|]. intros p nv [(size & l & A & B) C]. split; [|done]. exists size, l. split; [done|].
    cbn. rewrite (proj1 (proj2 Ht2)), B. done.
  - intros k Hk. by rewrite Hh, lookup_empty.
Qed.

Lemma read_lvs_pass vg t h xa :
  pvs_done t vg h xa ->
  exists t1 acc, each_node (read_lvnames env vg) (map source_node items) (∅, []) t = Some (Some acc, t1) /\
  exists t2 x', each_node (read_lvsegs env h vg) (map source_node items) acc t1 = Some (Some acc, t2) /\ imported t2 vg x' x pvl items.
Proof.
  intros (Hev & Exa & Hps & Hh). pose proof Hok as [_ _ _ _ _ _ _ H8 H9 (ids0 & Hids0 & Hsep)].
  set (l := map (fun e : lv_source => (e.1, descs_nodes (F := F) e.2)) items).
  assert (map lv_node_of l = map source_node items) as El by (unfold l; rewrite map_map; by apply map_ext).
  destruct (read_lvs_spec env s N l t vg xa (∅, []) Hev) as (t1 & ids & hl & hosts & He & Hev1 & Hlv & Hnd & _ & _ & _ & _ & P1 & _).
  { unfold l. apply Forall_map. eapply Forall_impl; [exact H8|]. intros e [S1 S2 S3 S4 S5 S6 S7]. done. }
  { unfold l. rewrite map_map. exact H9. }
  exists t1, (hl, hosts). rewrite <- El at 1. split; [done|]. assert (vg_lvs xa = []) as Elv by by rewrite Exa. rewrite Elv in Hev1. cbn [app] in Hev1.
  set (xb := set_vg_lvs ids xa) in *.
  assert (Forall2 (fun p (nv : list Z * physical_volume) => pv_read env t1 vg xa p nv.2 /\ h !! nv.1 = Some p) (vg_pvs xa) pvl) as Hps1.
  { eapply Forall2_impl; [exact Hps|]. intros p nv [(size & lp & A & B) C]. split; [|done]. exists size, lp. by rewrite P1. }
  destruct (pv_table h vg t1 xa (vg_pvs xa) Hps1) as (Hi & Hin & Hfit); [intros k Hk; by rewrite Hh|apply Hev|].
  assert (length ids = length items) as Hlen by (apply Forall2_length in Hlv; unfold l in Hlv; by rewrite length_map in Hlv).
  assert (map item_node (zip ids items) = map (source_node) items) as Enode.
  { clear -Hlen. revert items Hlen. induction ids as [|i ids IH]; intros [|e its] Hlen; try done. cbn. f_equal. apply IH. by injection Hlen. }
  destruct (read_lvsegs_all env ty Hty Hinv h vg xb s N (hl, hosts) (zip ids items) t1 []) as (t2 & x' & He2 & Hx' & Hr2 & Hdone & Hb & _).
  { exists xb. split; [apply counted_refl|]. by apply reading_empty. }
  { apply Forall_lookup. intros i [lv e] Hz. apply lookup_zip_Some in Hz as [Hz1 Hz2]. cbn [fst snd]. change (@lookup nat lv_source _ _ i items = Some e) in Hz2.
    pose proof (proj1 (Forall_lookup _ _) H8 i e Hz2) as [S1 S2 S3 S4 S5 S6 S7].
    assert (l !! i = Some (e.1, descs_nodes e.2)) as Hl.
    { transitivity ((fun e : lv_source => (e.1, descs_nodes (F := F) e.2)) <$> items !! i); [apply list_lookup_fmap|by rewrite Hz2]. }
    destruct (Forall2_lookup_lr _ _ _ _ _ _ Hlv Hz1 Hl) as [A B]. split; [|done].
    split; try done. eapply Forall_impl; [exact S7|]. exact Hfit. }
  { rewrite fst_zip; [done|]. by apply Nat.eq_le_incl. }
  { eapply separate_key; [|exact Hsep]. by apply items_key. }
  rewrite Enode in He2. exists t2, x'. split; [done|]. destruct Hx' as [f ->]. split.
  - apply Hr2.
  - exists f. unfold xb. rewrite Exa. reflexivity.
  - cbn. eapply Forall2_impl; [exact Hps1|]. intros p nv [(size & lp & A & B) C]. exists size. pose proof (Hb p) as E. rewrite B in E.
    destruct (st_pvs t2 !! p) as [v'|]; [|done]. apply (inj Some) in E. exists v'. split; [done|]. split; [done|]. rewrite E. done.
  - cbn. apply Forall2_same_length_lookup_2; [done|]. intros i lv e Hz1 Hz2.
    pose proof (proj1 (Forall_lookup _ _) Hdone i (lv, e) ltac:(apply lookup_zip_Some; done)) as (segs & [[O1 O2 O3 O4 O5] Hn]).
    exists segs. split; [|exact Hn]. split; try done. apply (chain_counted _ _ xb); [by eexists|done].
  - exact Hnd.
  - cbn. eapply Forall2_impl; [exact Hps1|]. intros p nv [_ C] e. by rewrite (rd_extents _ _ _ _ _ Hr2 _ _ e C).
  - apply Hr2.
  - apply Hr2.
Qed.

Lemma imported_ticks t t' vg x' : ticks t t' -> imported t vg x' x pvl items -> imported t' vg x' x pvl items.
Proof.
  intros Ht [I1 I2 I3 I4 I5 I6 I7 I8]. pose proof Ht as (T1 & T2 & T3 & T4 & T5 & T6 & T7). split; try done.
  - apply (vg_ok_rest t t' vg x'); try done; [by rewrite T5; apply I1| |lia].
    intros g Hg sg Hsg. destruct (Hg sg Hsg) as (y & w & A & B & C). exists y, w. by rewrite T3, T4.
  - eapply Forall2_impl; [exact I3|]. intros p nv (size & v' & A & B & C). exists size, v'. by rewrite T2.
  - eapply Forall2_impl; [exact I4|]. intros lv e (segs & H). exists segs. by eapply lv_done_ticks.
  - eapply Forall2_impl; [exact I6|]. intros p nv H e. rewrite <- H. unfold lv_extent. by rewrite (owner_at_pvs t t'), T3.
  - by eapply ticks_no_oom.
  - by eapply all_fresh_ticks.
Qed.

Lemma read_vg_spec root t :
  skip_values root = Some (import_tree x pvl items) -> no_oom t -> all_fresh t ->
  exists t' x', read_vg env root t = Some (Some (st_next t), t') /\ imported t' (st_next t) x' x pvl items.
Proof.
  intros Hroot Hno Hf. unfold read_vg. rewrite Hroot. cbn [node_key import_tree]. change (node_child (Node _ _ _)) with cn. set (vg := st_next t).
  destruct (alloc_vg_spec (vg_name x) t Hno Hf) as (t1 & x0 & He1 & Hx1 & Ename & Hn1 & Hf1). fold vg in He1, Hx1.
  rewrite (bind_exec _ _ _ _ _ He1). cbn beta iota. do 3 palloc. set (t2 := alloc_tick (alloc_tick (alloc_tick t1))).
  assert (st_vgs t2 !! vg = Some x0) as Hx2 by (change (st_vgs t2) with (st_vgs t1); rewrite Hx1; apply lookup_insert_eq).
  assert (no_oom t2) as Hn2 by (unfold t2; eauto with oom).
  assert (all_fresh t2) as Hf2 by (do 3 (eapply all_fresh_ticks; [apply ticks_tick|]); done).
  mstep. rewrite (bind_exec _ _ _ _ _ (vg_reads_fields x0 t2 Ename)). cbn beta iota. mstep.
  destruct (read_pvs_pass vg t2 x0 Hx2 Hn2 Hf2) as (t3 & h & He3 & t4 & He4 & x4 & Hx4 & Hdone).
  rewrite (bind_exec _ _ _ _ _ He3). cbn beta iota. rewrite (bind_exec _ _ _ _ _ He4). cbn beta iota. mstep.
  destruct (read_lvs_pass vg _ h _ Hdone) as (t5 & acc & He5 & t6 & x' & He6 & Him).
  rewrite (bind_exec _ _ _ _ _ (eq_trans (each_lvs _ _ _) He5)). cbn beta iota.
  rewrite (bind_exec _ _ _ _ _ (eq_trans (each_lvs _ _ _) He6)). cbn beta iota.
  unfold fixup_imported_mirrors. rewrite bind_assoc. pose proof (vo_vg _ _ _ (im_vg _ _ _ _ _ _ Him)) as Hx6. mstep.
  destruct (fixup_lvs_none env ty vg x' (vg_lvs x') t6) as (t7 & He7 & Ht7); [|apply Him|].
  { intros l Hl. apply list_elem_of_lookup in Hl as [i Hi]. destruct (Forall2_lookup_l _ _ _ _ _ (im_lvs _ _ _ _ _ _ Him) Hi) as (e & _ & segs & H). by eexists. }
  rewrite (bind_exec _ _ _ _ _ He7). exists t7, x'. split; [done|]. by eapply imported_ticks.
Qed.
End one.
End read_vg.
