(* ===== verification/ExportSource.v ===== *)
(** * The tree of a VG as the import reads it

    The section of a VG whose LVs are striped over its PVs names PVs, LVs, segments
    and areas the way the import looks them up: no two areas overlap, and the slots
    say what each extent holds. *)

From S2P Require Import Prelude DmString Uuid Config ConfigProps Metadata PvManip PvSegs LvManip LvSegs LvReduce LvProps CheckLv Flags TextExport ExportProps ExportMain TextImport ImportProps ImportPvs ImportLvs Quiet Place ImportSegs ImportLvSegs ImportVg ImportMain.

(** ** Names of PVs *)

Definition pv_name (i : nat) : list Z := bytes "pv" ++ print_int (Z.of_nat i).

Lemma print_int_inj i j : LLONG_MIN <= i <= LLONG_MAX -> LLONG_MIN <= j <= LLONG_MAX -> print_int i = print_int j -> i = j.
Proof.
  intros Hi Hj E. assert (delimiter 32) as Hd by (unfold delimiter; lia).
  pose proof (strtoll_print i 32 [] Hi Hd) as H1. rewrite E, (strtoll_print j 32 [] Hj Hd) in H1. by injection H1.
Qed.

Lemma pv_name_inj i j : Z.of_nat i < 2 ^ 63 -> Z.of_nat j < 2 ^ 63 -> pv_name i = pv_name j -> i = j.
Proof.
  intros Hi Hj E. apply app_inj_1 in E as [_ E]; [|done]. apply print_int_inj in E; [lia|unfold LLONG_MIN, LLONG_MAX; lia..].
Qed.

Definition uuid_text (s : store) (p : nat) : option (list Z) := (fun v => id_text (pa_id (pv_attrs_of v))) <$> st_pvs s !! p.

Lemma pv_names_other s pvs c m k :
  (forall p, p ∈ pvs -> uuid_text s p <> Some k) -> pv_names s c pvs m !! k = m !! k.
Proof.
  revert c m. induction pvs as [|p pvs IH]; intros c m Hk; [done|]. cbn [pv_names]. destruct (st_pvs s !! p) as [v|] eqn:Hv; [|done].
  rewrite IH by (intros q Hq; apply Hk; by right). apply lookup_insert_ne. intros E. apply (Hk p ltac:(left)). unfold uuid_text. rewrite Hv. cbn. by f_equal.
Qed.

Lemma pv_names_lookup s pvs c m i p v :
  (forall p, p ∈ pvs -> is_Some (st_pvs s !! p)) -> NoDup (uuid_text s <$> pvs) -> pvs !! i = Some p -> st_pvs s !! p = Some v ->
  pv_names s c pvs m !! id_text (pa_id (pv_attrs_of v)) = Some (bytes "pv" ++ print_int (c + Z.of_nat i)).
Proof.
  revert c m i. induction pvs as [|q pvs IH]; intros c m i Hall Hnd Hi Hv; [done|]. cbn [pv_names].
  destruct (Hall q ltac:(left)) as [w Hw]. rewrite Hw. rewrite fmap_cons in Hnd. apply NoDup_cons in Hnd as [Hq Hnd]. destruct i as [|i].
  - injection Hi as ->. assert (w = v) as -> by congruence. rewrite pv_names_other, lookup_insert_eq by
      (intros p' Hp' E; apply Hq; apply list_elem_of_fmap; exists p'; split; [|done]; rewrite E; unfold uuid_text; by rewrite Hv).
    by rewrite Z.add_0_r.
  - rewrite (IH (c + 1) _ i) by (done || (intros p' Hp'; apply Hall; by right)). do 3 f_equal. lia.
Qed.

Lemma choose_list {A B} (R : A -> B -> Prop) l : (forall a, a ∈ l -> exists b, R a b) -> exists l', Forall2 R l l'.
Proof.
  induction l as [|a l IH]; intros H; [exists []; constructor|]. destruct (H a ltac:(left)) as [b Hb].
  destruct IH as [l' Hl]; [intros a' Ha; apply H; by right|]. exists (b :: l'). by constructor.
Qed.

(** ** Separate slots *)

Lemma separate_index P :
  separate P <-> forall i j a b, (i < j)%nat -> P !! i = Some a -> P !! j = Some b -> apart a b.
Proof.
  split.
  - intros H i j a b Hij Ha Hb. apply (H (take j P) b (drop (S j) P) a); [symmetry; by apply take_drop_middle|].
    apply (list_elem_of_lookup_2 _ i). by rewrite lookup_take_lt.
  - intros H P1 sl P2 sl' -> Hs. apply list_elem_of_lookup in Hs as [i Hi]. apply (H i (length P1)).
    + by eapply lookup_lt_Some.
    + by apply lookup_app_l_Some.
    + by rewrite list_lookup_middle.
Qed.

Lemma separate_app P1 P2 :
  separate P1 -> separate P2 -> (forall a b, a ∈ P1 -> b ∈ P2 -> apart a b) -> separate (P1 ++ P2).
Proof.
  rewrite !separate_index. intros H1 H2 H12 i j a b Hij Ha Hb.
  apply lookup_app_Some in Ha as [Ha|[Hi Ha]], Hb as [Hb|[Hj Hb]].
  - by apply (H1 i j).
  - apply H12; by eapply list_elem_of_lookup_2.
  - apply lookup_lt_Some in Hb. lia.
  - eapply (H2 (i - length P1) (j - length P1))%nat; [lia|done|done].
Qed.

Lemma elem_of_concat {A} (a : A) Ps : a ∈ concat Ps <-> exists P, P ∈ Ps /\ a ∈ P.
Proof.
  rewrite list_elem_of_In, in_concat. split; intros (P & H1 & H2); exists P; (split; [by apply list_elem_of_In in H1|by apply list_elem_of_In in H2]).
Qed.

(** Lists of slots whose tags differ. *)
Lemma separate_concat {T} (R : T -> slot -> Prop) tags Ps :
  (forall t t' a b, t <> t' -> R t a -> R t' b -> apart a b) -> NoDup tags ->
  Forall2 (fun t P => separate P /\ forall a, a ∈ P -> R t a) tags Ps -> separate (concat Ps).
Proof.
  intros HR Hnd H. induction H as [|t P tags Ps [Hs Ht] H IH]; [by intros [|? ?]|]. apply NoDup_cons in Hnd as [Hn Hnd]. cbn [concat].
  apply separate_app; [done|by apply IH|]. intros a b Ha Hb. apply elem_of_concat in Hb as (Q & HQ & Hb).
  apply list_elem_of_lookup in HQ as [i Hi]. destruct (Forall2_lookup_r _ _ _ _ _ H Hi) as (t' & Ht' & _ & HR'). apply (HR t t'); [|by apply Ht|by apply HR'].
  intros ->. apply Hn. by eapply list_elem_of_lookup_2.
Qed.

Lemma placed_some P name e r : placed P name e = Some r -> exists sl, sl ∈ P /\ in_slot sl name e = true /\ r = holds sl e.
Proof.
  induction P as [|sl P IH]; [done|]. cbn. destruct (in_slot sl name e) eqn:E; [intros [= <-]; exists sl; split; [left|done]|].
  intros H. destruct (IH H) as (sl' & Hs & ?). exists sl'. split; [by right|done].
Qed.

Lemma placed_none_inv P name e : placed P name e = None -> forall sl, sl ∈ P -> in_slot sl name e = false.
Proof.
  induction P as [|sl P IH]; [by intros _ sl ?%elem_of_nil|]. cbn. destruct (in_slot sl name e) eqn:E; [done|].
  intros H sl' [->|Hs]%elem_of_cons; [done|by apply IH].
Qed.

Lemma owner_inv l e sg a k :
  owner l e = Some (sg, a, k) ->
  exists h, h ∈ l /\ peg_pe h <= e < peg_pe h + peg_len h /\ peg_lvseg h = Some sg /\ peg_lv_area h = a /\ k = e - peg_pe h.
Proof.
  induction l as [|h l IH]; [done|]. cbn. destruct (_ && _) eqn:E.
  - apply andb_true_iff in E as [?%Z.leb_le ?%Z.ltb_lt]. destruct (peg_lvseg h) eqn:Eh; [|done]. intros [= <- <- <-].
    exists h. split; [left|]. by repeat split.
  - intros H. destruct (IH H) as (h' & Hh & ?). exists h'. split; [by right|done].
Qed.

Lemma linked_at_owner s vg x q a L j p pe e :
  vg_ok s vg x -> linked_at s x q a L j p pe -> pe <= e < pe + L -> owner_at s p e = Some (q, a, e - pe).
Proof.
  intros Hvg (Hj & Hp & v & Hv & Hin) He. destruct (vo_pvs _ _ _ Hvg p Hp) as (v' & l & Hview & Hs & _).
  assert (v' = v) as -> by (destruct Hview; congruence). rewrite (owner_at_view _ _ _ _ _ Hview).
  pose proof (view_lookup _ _ _ _ _ _ _ Hview Hv Hin Hj) as Hjl. apply list_elem_of_split in Hjl as (k1 & k2 & ->).
  pose proof (so_covers _ _ _ _ Hs) as Hc. rewrite fmap_app, fmap_cons in Hc |- *. rewrite (owner_middle _ _ _ _ _ _ Hc). cbn [snd peg_pe peg_len].
  rewrite decide_False, decide_True by lia. cbn. by rewrite (proj2 (Z.leb_le _ _)), (proj2 (Z.ltb_lt _ _)) by lia.
Qed.

Lemma area_slots_lookup lv le m L areas : forall i0 i,
  area_slots lv le m L i0 areas !! i = (fun a => Slot a.1 a.2 L lv (i0 + Z.of_nat i) le m) <$> areas !! i.
Proof.
  induction areas as [|a areas IH]; intros i0 i; [done|]. destruct i as [|i]; cbn [area_slots]; [cbn; by rewrite Z.add_0_r|].
  rewrite !lookup_cons_ne_0 by lia. cbn [pred]. rewrite IH. destruct (areas !! i); [|done]. cbn. do 2 f_equal. lia.
Qed.

(** ** A VG of striped LVs *)

Section source.
Context {F : Type} (env : import_env (F := F)) (ty : segment_type) (Hty : striped_type env ty).
Hypothesis Hinv : inverse_ok (ie_inverse env).
Context (s : store) (vg : nat) (x : volume_group) (shown : nat -> bool).

Record striped_vg : Prop := {
  sv_vg : vg_ok s vg x;
  sv_lvs : forall l, l ∈ vg_lvs x -> exists v, lv_ok s vg x l v /\ minor_ok v /\ la_alloc (lv_attrs_of v) <> ALLOC_CLING_BY_TAGS /\
    forall q g, q ∈ lv_segments v -> st_segs s !! q = Some g -> seg_segtype g = ty;
  sv_nodup : NoDup (vg_lvs x);
  sv_lv_names : forall l l' v v', l ∈ vg_lvs x -> l' ∈ vg_lvs x -> st_lvs s !! l = Some v -> st_lvs s !! l' = Some v' ->
    lv_name v = lv_name v' -> l = l';
  sv_pv_ids : forall p p' v v', p ∈ vg_pvs x -> p' ∈ vg_pvs x -> st_pvs s !! p = Some v -> st_pvs s !! p' = Some v' ->
    pa_id (pv_attrs_of v) = pa_id (pv_attrs_of v') -> p = p';
  sv_back : forall p v j k sg, p ∈ vg_pvs x -> st_pvs s !! p = Some v -> j ∈ pv_segments v -> st_pegs s !! j = Some k ->
    peg_lvseg k = Some sg -> exists l w g, l ∈ vg_lvs x /\ st_lvs s !! l = Some w /\ sg ∈ lv_segments w /\ st_segs s !! sg = Some g /\
      0 <= peg_lv_area k < seg_area_count g /\ seg_areas g !! Z.to_nat (peg_lv_area k) = Some (Area AREA_PV (U_pv (Some j)));
  sv_policy : va_alloc (vg_attrs_of x) <> ALLOC_CLING_BY_TAGS;
  sv_system_id : (length (va_system_id (vg_attrs_of x)) <= 128)%nat;
  sv_sizes : forall p v, p ∈ vg_pvs x -> st_pvs s !! p = Some v -> sizes_ok env v;
  sv_count : Z.of_nat (length (vg_pvs x)) < 2 ^ 32 }.

Hypothesis Hsv : striped_vg.
Let N := vg_names s x.
Hypothesis Hex : exportable (F := F) s N shown x.

Lemma pv_at p : p ∈ vg_pvs x -> exists v, st_pvs s !! p = Some v /\ pv_fields_ok v.
Proof.
  intros Hp. destruct (vo_pvs _ _ _ (sv_vg Hsv) p Hp) as (v & l & (Hv & _) & _). exists v. split; [done|]. by apply (ex_pvs _ _ _ _ Hex p v).
Qed.

Lemma uuid_texts_nodup : NoDup (uuid_text s <$> vg_pvs x).
Proof.
  apply NoDup_fmap_2_strong; [|apply (sv_vg Hsv)]. intros p p' Hp Hp' E. destruct (pv_at p Hp) as (v & Hv & Hf). destruct (pv_at p' Hp') as (v' & Hv' & Hf').
  unfold uuid_text in E. rewrite Hv, Hv' in E.
  change (Some (id_text (pa_id (pv_attrs_of v))) = Some (id_text (pa_id (pv_attrs_of v')))) in E. apply (inj Some) in E. apply (sv_pv_ids Hsv p p' v v'); try done.
  destruct (id_text_reads (pa_id (pv_attrs_of v)) _ Hinv (pf_id _ Hf)) as (st & E1).
  destruct (id_text_reads (pa_id (pv_attrs_of v')) _ Hinv (pf_id _ Hf')) as (st' & E2). rewrite E, E2 in E1. by injection E1.
Qed.

Lemma pv_named i p v : vg_pvs x !! i = Some p -> st_pvs s !! p = Some v -> N !! id_text (pa_id (pv_attrs_of v)) = Some (pv_name i).
Proof.
  intros Hi Hv. unfold N, vg_names. rewrite (pv_names_lookup s (vg_pvs x) 0 ∅ i p v); try done; [|apply uuid_texts_nodup].
  intros q Hq. destruct (pv_at q Hq) as (w & Hw & _). by exists w.
Qed.

(** A segment and its description. *)
Record described (q : nat) (g : lv_segment) (d : seg_desc) : Prop := {
  de_le : ds_le d = seg_le g;
  de_alen : ds_alen d = seg_area_len g;
  de_stripe : ds_stripe d = seg_stripe_size g;
  de_tags : ds_tags d = seg_tags g;
  de_count : ds_count d = seg_area_count g;
  de_areas : forall i a, ds_areas d !! i = Some a -> exists j k p, seg_areas g !! i = Some (Area AREA_PV (U_pv (Some j))) /\
    linked_at s x q (Z.of_nat i) (seg_area_len g) j p a.2 /\ vg_pvs x !! k = Some p /\ a.1 = pv_name k }.

Lemma area_described q a L ar :
  linked s x q a L ar -> exists b j k p, ar = Area AREA_PV (U_pv (Some j)) /\ linked_at s x q a L j p b.2 /\ vg_pvs x !! k = Some p /\ b.1 = pv_name k /\
    area_values (F := F) s N ar = Some [CfgString b.1; CfgInt b.2].
Proof.
  intros (j & p & pe & -> & Hl)%linked_linked_at. pose proof Hl as (Hj & Hp & v & Hv & _). apply list_elem_of_lookup in Hp as [k Hk].
  exists (pv_name k, pe), j, k, p. do 4 (split; [done|]). unfold area_values. cbn [area_type area_u_of]. rewrite Hj. cbn [mbind option_bind peg_pv].
  rewrite Hv. cbn [mbind option_bind]. rewrite (pv_named k p v Hk Hv). done.
Qed.

(** The PVs with their names. *)
Definition pv_list : list (list Z * physical_volume) := imap (fun i p => (pv_name i, default zero_pv (st_pvs s !! p))) (vg_pvs x).

Lemma pv_list_lookup i p v : vg_pvs x !! i = Some p -> st_pvs s !! p = Some v -> pv_list !! i = Some (pv_name i, v).
Proof. intros Hi Hv. unfold pv_list. rewrite list_lookup_imap, Hi. cbn [fmap option_fmap option_map]. by rewrite Hv. Qed.

Lemma pv_list_length : length pv_list = length (vg_pvs x).
Proof. apply length_imap. Qed.

Lemma pv_list_inv i nv : pv_list !! i = Some nv -> exists p v, vg_pvs x !! i = Some p /\ st_pvs s !! p = Some v /\ pv_fields_ok v /\ nv = (pv_name i, v).
Proof.
  intros Hi. destruct (lookup_lt_is_Some_2 (vg_pvs x) i) as [p Hp]; [rewrite <- pv_list_length; by eapply lookup_lt_Some|].
  destruct (pv_at p) as (v & Hv & Hf); [by eapply list_elem_of_lookup_2|]. exists p, v. rewrite (pv_list_lookup i p v Hp Hv) in Hi. by simplify_eq.
Qed.

Lemma areas_described q L l : forall i0,
  (forall i ar, l !! i = Some ar -> linked s x q (Z.of_nat (i0 + i)) L ar) ->
  exists bs, length bs = length l /\ mapM (area_values (F := F) s N) l = Some (map (fun b => [CfgString b.1; CfgInt b.2]) bs) /\
    forall i a, bs !! i = Some a -> exists j k p, l !! i = Some (Area AREA_PV (U_pv (Some j))) /\
      linked_at s x q (Z.of_nat (i0 + i)) L j p a.2 /\ vg_pvs x !! k = Some p /\ a.1 = pv_name k.
Proof.
  induction l as [|ar l IH]; intros i0 Hl; [by exists []|].
  destruct (area_described q _ L ar (Hl 0%nat ar eq_refl)) as (b & j & k & p & Ear & Hb & Hk & En & Hval).
  destruct (IH (S i0)) as (bs & Hlen & Hm & Hbs).
  { intros i ar' Hi. replace (S i0 + i)%nat with (i0 + S i)%nat by lia. by apply Hl. }
  exists (b :: bs). split; [cbn; lia|]. split; [cbn [mapM]; rewrite Hval; cbn [mbind option_bind]; by rewrite Hm|].
  intros [|i] a Ha; [injection Ha as <-; exists j, k, p; by rewrite Ear|]. replace (i0 + S i)%nat with (S i0 + i)%nat by lia. by apply Hbs.
Qed.

Lemma linked_at_fits q a L j p pe k :
  linked_at s x q a L j p pe -> vg_pvs x !! k = Some p ->
  exists v, (pv_name k, v) ∈ pv_list /\ 0 <= pe < 2 ^ 32 /\ pe + L <= pv_pe_count v.
Proof.
  intros Hl Hk. pose proof Hl as (Hj & Hp & v & Hv & Hin). exists v. split; [eapply list_elem_of_lookup_2, pv_list_lookup; done|].
  destruct (vo_pvs _ _ _ (sv_vg Hsv) p Hp) as (v' & l & Hview & Hs & _). assert (v' = v) as -> by (destruct Hview; congruence).
  pose proof (view_lookup _ _ _ _ _ _ _ Hview Hv Hin Hj) as Hjl. apply list_elem_of_split in Hjl as (k1 & k2 & ->).
  pose proof (so_covers _ _ _ _ Hs) as Hc. rewrite fmap_app, fmap_cons in Hc. apply covers_middle in Hc as (Hc1 & Hc0 & Hc2).
  apply covers_le in Hc1, Hc2. cbn in Hc0, Hc1, Hc2. pose proof (pf_count _ (ex_pvs _ _ _ _ Hex p v Hp Hv)). lia.
Qed.

Lemma seg_described q g :
  seg_ok s vg x q g -> seg_segtype g = ty -> seg_fields_ok (F := F) s N g ->
  exists d, described q g d /\ desc_fits pv_list d /\
    forall c, seg_node (F := F) s N c g = Some (Node (bytes "segment" ++ print_int c) [] (desc_nodes d)).
Proof.
  intros Hok Et Hf. destruct (areas_described q (seg_area_len g) (seg_areas g) 0) as (bs & Hlen & Hm & Hbs).
  { intros i ar Hi. by destruct (seg_ok_area vg x _ _ _ _ _ Hok Hi) as (a & <- & ?). }
  set (d := SegDesc (seg_le g) (seg_area_len g) (seg_stripe_size g) (seg_tags g) bs).
  assert (ds_count d = seg_area_count g) as Hc.
  { unfold ds_count, d. cbn. rewrite Hlen. symmetry. apply Hf. }
  assert (ds_len d = seg_len g) as Hl.
  { unfold ds_len. rewrite Hc, (sk_len _ _ _ _ _ Hok), (mult_ty env ty Hty g Et). done. }
  exists d. split; [by split|]. split.
  - pose proof (sk_count _ _ _ _ _ Hok). split; try apply Hok.
    + rewrite Hl. apply Hok.
    + intros E. change (bs = []) in E. rewrite E in Hlen. pose proof (sk_areas _ _ _ _ _ Hok). cbn in Hlen. lia.
    + apply Hf.
    + apply (sf_tags _ _ _ Hf).
    + apply Forall_lookup. intros i a Hi. destruct (Hbs i a Hi) as (j & k & p & _ & Hla & Hk & ->). by eapply linked_at_fits.
    + rewrite Hc. apply Hok.
  - intros c. unfold seg_node, type_nodes. assert (segtype_name (seg_segtype g) = bytes "striped") as En by (rewrite Et; by apply (ty_name env)).
    rewrite decide_True by done. unfold stripes_nodes. rewrite Hm. cbn [mbind option_bind]. rewrite En. unfold desc_nodes. rewrite Hc, Hl. done.
Qed.

(** *** LVs *)

(** Segment [q] of LV [l] and its description. *)
Definition seg_source (l q : nat) (nd : list Z * seg_desc) : Prop := exists g, seg_ok s vg x q g /\ seg_lv g = l /\ seg_segtype g = ty /\ described q g nd.2.

Lemma segs_described l segs hi : forall c lo,
  chain s vg x l lo segs hi -> (forall q g, q ∈ segs -> st_segs s !! q = Some g -> seg_segtype g = ty /\ seg_fields_ok (F := F) s N g) ->
  exists nds, seg_nodes (F := F) s N c segs = Some (descs_nodes nds) /\ follow lo nds.*2 /\ Forall (desc_fits pv_list) nds.*2 /\
    Forall2 (seg_source l) segs nds /\ seg_keys (F := F) (descs_nodes nds).
Proof.
  induction segs as [|q segs IH]; intros c lo Hch Hg.
  { exists []. split; [done|]. split; [done|]. split; [constructor|]. split; constructor. }
  cbn [chain] in Hch. destruct Hch as (g & Hok & Hl & Hle & _ & Hch). destruct (Hg q g ltac:(left) (sk_seg _ _ _ _ _ Hok)) as [Et Hf].
  destruct (seg_described q g Hok Et Hf) as (d & Hd & Hfit & Hn).
  destruct (IH (c + 1) _ Hch) as (nds & Hns & Hfo & Hfits & Hsrc & Hk); [intros q' g' Hq; apply Hg; by right|].
  exists ((bytes "segment" ++ print_int c, d) :: nds). cbn [seg_nodes]. rewrite (sk_seg _ _ _ _ _ Hok). cbn [mbind option_bind].
  rewrite Hn. cbn [mbind option_bind]. rewrite Hns. cbn [mbind option_bind]. split; [done|]. rewrite fmap_cons. cbn [snd].
  assert (ds_len d = seg_len g) as El.
  { unfold ds_len. rewrite (de_alen _ _ _ Hd), (de_count _ _ _ Hd), (sk_len _ _ _ _ _ Hok), (mult_ty env ty Hty g Et). done. }
  split; [split; [rewrite (de_le _ _ _ Hd); done|by rewrite El]|]. split; [by constructor|].
  split; [constructor; [by exists g|done]|]. constructor; [done|exact Hk].
Qed.

(** An LV as the import reads it. *)
Definition lv_described (l : nat) (e : lv_source) : Prop :=
  st_lvs s !! l = Some e.1 /\ lv_node (F := F) s N e.1 = Some (source_node e) /\ source_ok (F := F) s N pv_list e /\
  Forall2 (seg_source l) (lv_segments e.1) e.2.

Lemma lv_has_source l : l ∈ vg_lvs x -> exists e, lv_described l e.
Proof.
  intros Hl. destruct (sv_lvs Hsv l Hl) as (v & [O1 O2 O3 O4 O5] & Hmin & Hpol & Hseg). destruct (ex_lvs _ _ _ _ Hex l v Hl O1) as [Hf _].
  destruct (segs_described l (lv_segments v) (lv_le_count v) 1 0 O4) as (nds & Hns & Hfo & Hfit & Hsrc & Hk).
  { intros q g Hq Hg. split; [by apply (Hseg q)|by eapply lf_segs]. }
  exists (v, nds). split; [done|]. split; [|split; [|done]].
  - cbn [fst snd]. unfold lv_node, lv_nodes. rewrite Hns. cbn [mbind option_bind]. unfold source_node, item_node, lv_head. cbn [fst snd].
    by rewrite <- !app_assoc.
  - apply Forall2_length in Hsrc. by split.
Qed.

(** *** Slots *)

(** The slot is area [a] of segment [q]. *)
Definition slot_at (q : nat) (a : Z) (sl : slot) : Prop :=
  exists g j k p, seg_ok s vg x q g /\ seg_lv g = sl_lv sl /\ linked_at s x q a (sl_len sl) j p (sl_pe sl) /\ 0 < sl_len sl /\
    vg_pvs x !! k = Some p /\ sl_pv sl = pv_name k /\ sl_area sl = a /\ sl_le sl = seg_le g /\ sl_mult sl = mult g.

Lemma name_inj k k' p p' : vg_pvs x !! k = Some p -> vg_pvs x !! k' = Some p' -> pv_name k = pv_name k' -> p = p'.
Proof.
  intros Hk Hk' E. pose proof (lookup_lt_Some _ _ _ Hk). pose proof (lookup_lt_Some _ _ _ Hk'). pose proof (sv_count Hsv).
  apply pv_name_inj in E as ->; [congruence|lia|lia].
Qed.

Lemma slot_owner q a sl k p e :
  slot_at q a sl -> vg_pvs x !! k = Some p -> in_slot sl (pv_name k) e = true ->
  owner_at s p e = Some (q, a, e - sl_pe sl) /\ lv_extent s p e = Some (holds sl e).
Proof.
  intros (g & j & k' & p' & Hok & El & Hla & _ & Hk' & En & Ea & Ele & Em) Hk [E He]%in_slot_iff. rewrite En in E.
  pose proof (name_inj _ _ _ _ Hk' Hk E) as ->. pose proof (linked_at_owner _ _ _ _ _ _ _ _ _ e (sv_vg Hsv) Hla He) as Ho. split; [done|].
  unfold lv_extent. rewrite Ho, (sk_seg _ _ _ _ _ Hok). unfold holds. by rewrite El, Ea, Ele, Em.
Qed.

Lemma slots_apart q a sl q' a' sl' : slot_at q a sl -> slot_at q' a' sl' -> (q, a) <> (q', a') -> apart sl sl'.
Proof.
  intros H H' Hne E. destruct (Z.le_gt_cases (sl_pe sl + sl_len sl) (sl_pe sl')); [by left|].
  destruct (Z.le_gt_cases (sl_pe sl' + sl_len sl') (sl_pe sl)); [by right|]. destruct Hne.
  pose proof H as (_ & _ & k & p & _ & _ & _ & Hpos & Hk & En & _). pose proof H' as (_ & _ & _ & _ & _ & _ & _ & Hpos' & _).
  set (e := Z.max (sl_pe sl) (sl_pe sl')).
  destruct (slot_owner q a sl k p e H Hk) as [O1 _]; [apply in_slot_iff; split; [done|lia]|].
  destruct (slot_owner q' a' sl' k p e H' Hk) as [O2 _]; [apply in_slot_iff; split; [congruence|lia]|]. congruence.
Qed.

Lemma desc_slot l q nd i sl :
  seg_source l q nd -> desc_slots l nd.2 !! i = Some sl -> slot_at q (Z.of_nat i) sl /\ sl_lv sl = l.
Proof.
  intros (g & Hok & El & Et & [D1 D2 D3 D4 D5 D6]) Hi. unfold desc_slots in Hi. rewrite area_slots_lookup in Hi.
  destruct (ds_areas nd.2 !! i) as [a|] eqn:Ea; [|done]. injection Hi as <-. destruct (D6 i a Ea) as (j & k & p & _ & Hla & Hk & En). split; [|done].
  exists g, j, k, p. cbn [sl_lv sl_len sl_pe sl_pv sl_area sl_le sl_mult]. rewrite D2. split; [done|]. split; [done|]. split; [done|].
  split; [apply Hok|]. split; [done|]. split; [done|]. split; [lia|]. split; [done|]. rewrite D5. symmetry. by apply (mult_ty env ty Hty).
Qed.

Lemma source_slots_separate l q nd : seg_source l q nd -> separate (desc_slots l nd.2).
Proof.
  intros Hs. apply separate_index. intros i j a b Hij Ha Hb. destruct (desc_slot l q nd i a Hs Ha) as [Sa _]. destruct (desc_slot l q nd j b Hs Hb) as [Sb _].
  apply (slots_apart q (Z.of_nat i) a q (Z.of_nat j) b Sa Sb). intros [= ?]. lia.
Qed.

(** The slot belongs to a segment of LV [l]. *)
Definition lv_slot (l : nat) (sl : slot) : Prop := sl_lv sl = l /\ exists q a, slot_at q a sl.

Lemma lv_slots_apart l l' sl sl' : l <> l' -> lv_slot l sl -> lv_slot l' sl' -> apart sl sl'.
Proof.
  intros Hne (El & q & a & H) (El' & q' & a' & H'). apply (slots_apart q a sl q' a' sl' H H'). intros [= <- <-]. apply Hne. subst.
  destruct H as (g & _ & _ & _ & Hok & <- & _), H' as (g' & _ & _ & _ & Hok' & <- & _).
  pose proof (sk_seg _ _ _ _ _ Hok). pose proof (sk_seg _ _ _ _ _ Hok'). congruence.
Qed.

Lemma lv_slots l e : l ∈ vg_lvs x -> lv_described l e -> separate (item_slots (l, e)) /\ forall sl, sl ∈ item_slots (l, e) -> lv_slot l sl.
Proof.
  intros Hl (Hv & _ & _ & Hsrc). destruct (sv_lvs Hsv l Hl) as (v & [O1 O2 O3 O4 O5] & _). assert (v = e.1) as -> by congruence.
  unfold item_slots, descs_slots. cbn [fst snd].
  assert (Forall2 (fun q P => exists nd, seg_source l q nd /\ P = desc_slots l nd.2) (lv_segments e.1) (map (desc_slots l) e.2.*2)) as H.
  { apply Forall2_fmap_r, Forall2_fmap_r. eapply Forall2_impl; [exact Hsrc|]. intros q nd Hq. by exists nd. }
  split.
  - apply (separate_concat (fun q sl => exists a, slot_at q a sl) (lv_segments e.1)); [|done|].
    + intros q q' sl sl' Hne [a Ha] [a' Ha']. apply (slots_apart q a sl q' a' sl' Ha Ha'). congruence.
    + eapply Forall2_impl; [exact H|]. intros q P (nd & Hs & ->). split; [by eapply source_slots_separate|].
      intros sl Hsl. apply list_elem_of_lookup in Hsl as [i Hi]. exists (Z.of_nat i). by eapply desc_slot.
  - intros sl Hsl. apply elem_of_concat in Hsl as (P & HP & Hsl).
    apply list_elem_of_lookup in HP as [i Hi]. destruct (Forall2_lookup_r _ _ _ _ _ H Hi) as (q & _ & nd & Hs & ->).
    apply list_elem_of_lookup in Hsl as [k Hk]. destruct (desc_slot l q nd k sl Hs Hk) as [A B]. split; [done|]. by exists q, (Z.of_nat k).
Qed.

Lemma source_slot l q nd g a j :
  seg_source l q nd -> st_segs s !! q = Some g -> 0 <= a < seg_area_count g -> seg_areas g !! Z.to_nat a = Some (Area AREA_PV (U_pv (Some j))) ->
  exists sl p k, sl ∈ desc_slots l nd.2 /\ st_pegs s !! j = Some (PvSegment (Some p) (sl_pe sl) (sl_len sl) (Some q) a) /\
    vg_pvs x !! k = Some p /\ sl_pv sl = pv_name k.
Proof.
  intros (g' & Hok & El & Et & [D1 D2 D3 D4 D5 D6]) Hg Ha Har. assert (g' = g) as -> by (pose proof (sk_seg _ _ _ _ _ Hok); congruence).
  destruct (lookup_lt_is_Some_2 (ds_areas nd.2) (Z.to_nat a)) as [b Hb]; [unfold ds_count in D5; lia|].
  destruct (D6 _ _ Hb) as (j' & k & p & Har' & (Hj & _) & Hk & En). rewrite Har in Har'. injection Har' as <-.
  rewrite Z2Nat.id in Hj by lia. exists (Slot b.1 b.2 (ds_alen nd.2) l a (ds_le nd.2) (ds_count nd.2)), p, k.
  split; [|cbn [sl_pe sl_len sl_pv]; by rewrite D2]. apply (list_elem_of_lookup_2 _ (Z.to_nat a)). unfold desc_slots. rewrite area_slots_lookup, Hb.
  cbn [fmap option_fmap option_map]. by rewrite Z.add_0_l, Z2Nat.id by lia.
Qed.

Lemma owner_peg p v e q a d :
  p ∈ vg_pvs x -> st_pvs s !! p = Some v -> owner_at s p e = Some (q, a, d) ->
  exists j h, j ∈ pv_segments v /\ st_pegs s !! j = Some h /\ peg_pv h = Some p /\ peg_lvseg h = Some q /\ peg_lv_area h = a /\
    peg_pe h <= e < peg_pe h + peg_len h.
Proof.
  intros Hp Hv Ho. destruct (vo_pvs _ _ _ (sv_vg Hsv) p Hp) as (v' & l & Hview & Hs & _). assert (v' = v) as -> by (destruct Hview; congruence).
  rewrite (owner_at_view _ _ _ _ _ Hview) in Ho. apply owner_inv in Ho as (h & Hh & He & Hsg & Ha & _).
  pose proof (proj1 (Forall_forall _ _) (so_pv _ _ _ _ Hs) h Hh) as Hpv. apply list_elem_of_fmap in Hh as ([j h'] & Eh & Hh). cbn in Eh. subst h'.
  destruct Hview as (_ & Eseg & Hpeg). exists j, h. split; [rewrite Eseg; by eapply (list_elem_of_fmap_2' fst)|].
  split; [exact (proj1 (Forall_forall _ _) Hpeg _ Hh)|]. done.
Qed.

Section items.
Context (ls : list nat) (items : list lv_source).
Hypothesis Hls : ls ≡ₚ vg_lvs x.
Hypothesis Hitems : Forall2 lv_described ls items.
Let P := items_slots (zip ls items).

Lemma items_tagged : Forall2 (fun l Q => separate Q /\ forall sl, sl ∈ Q -> lv_slot l sl) ls (map item_slots (zip ls items)).
Proof.
  assert (forall l, l ∈ ls -> l ∈ vg_lvs x) as Hin by (intros l; by rewrite Hls). clear P Hls. induction Hitems as [|l e ls' items' He Hrest IH]; [constructor|].
  cbn [zip zip_with map]. constructor; [apply (lv_slots l e); [apply Hin; left|done]|]. apply IH; [done|]. intros l' Hl'. apply Hin. by right.
Qed.

Lemma items_separate : separate P.
Proof.
  apply (separate_concat lv_slot ls); [intros; by eapply lv_slots_apart|rewrite Hls; apply Hsv|apply items_tagged].
Qed.

Lemma items_slot sl : sl ∈ P -> exists q a, slot_at q a sl.
Proof.
  intros (Q & HQ & Hsl)%elem_of_concat. apply list_elem_of_lookup in HQ as [i Hi]. destruct (Forall2_lookup_r _ _ _ _ _ items_tagged Hi) as (l & _ & _ & H).
  apply (H sl Hsl).
Qed.

Lemma items_cover k p e q a d :
  vg_pvs x !! k = Some p -> owner_at s p e = Some (q, a, d) -> exists sl, sl ∈ P /\ in_slot sl (pv_name k) e = true.
Proof.
  intros Hk Ho. assert (p ∈ vg_pvs x) as Hp by by eapply list_elem_of_lookup_2. destruct (pv_at p Hp) as (v & Hv & _).
  destruct (owner_peg p v e q a d Hp Hv Ho) as (j & h & Hj & Hh & Epv & Esg & Ea & He).
  destruct (sv_back Hsv p v j h q Hp Hv Hj Hh Esg) as (l & w & g & Hl & Hw & Hq & Hg & Hcount & Harea). rewrite Ea in Hcount, Harea.
  rewrite <- Hls in Hl. apply list_elem_of_lookup in Hl as [i Hi]. destruct (Forall2_lookup_l _ _ _ _ _ Hitems Hi) as (it & Hit & Hw' & _ & _ & Hsrc).
  assert (w = it.1) as -> by congruence. apply list_elem_of_lookup in Hq as [i' Hi']. destruct (Forall2_lookup_l _ _ _ _ _ Hsrc Hi') as (nd & Hnd & Hs).
  destruct (source_slot l q nd g a j Hs Hg Hcount Harea) as (sl & p' & k' & Hsl & Hh' & Hk' & En).
  rewrite Hh in Hh'. injection Hh' as ->. cbn [peg_pv peg_pe peg_len] in *. injection Epv as ->. exists sl. split.
  - apply elem_of_concat. exists (item_slots (l, it)). split.
    + apply (list_elem_of_fmap_2 item_slots). apply (list_elem_of_lookup_2 _ i). by apply lookup_zip_Some.
    + apply elem_of_concat. exists (desc_slots l nd.2). split; [|done]. apply (list_elem_of_fmap_2 (desc_slots l)), (list_elem_of_fmap_2 snd).
      by eapply list_elem_of_lookup_2.
  - apply in_slot_iff. split; [|done]. rewrite En. f_equal. eapply NoDup_lookup; [apply (sv_vg Hsv)|done|done].
Qed.

Lemma items_placed k p e : vg_pvs x !! k = Some p -> placed P (pv_name k) e = lv_extent s p e.
Proof.
  intros Hk. destruct (placed P (pv_name k) e) as [r|] eqn:Er.
  - apply placed_some in Er as (sl & Hsl & Hin & ->). destruct (items_slot sl Hsl) as (q & a & Hs). by destruct (slot_owner q a sl k p e Hs Hk Hin) as [_ ->].
  - unfold lv_extent. destruct (owner_at s p e) as [[[q a] d]|] eqn:Ho; [|done]. destruct (items_cover k p e q a d Hk Ho) as (sl & Hsl & Hin).
    by rewrite (placed_none_inv _ _ _ Er sl Hsl) in Hin.
Qed.
End items.

(** *** The tree *)

Lemma ordered_perm l : ordered shown l ≡ₚ l.
Proof.
  unfold ordered. induction l as [|a l IH]; [done|]. rewrite !filter_cons. destruct (shown a) eqn:E.
  - rewrite decide_True, decide_False by done. cbn. by rewrite IH.
  - rewrite decide_False, decide_True by done. by rewrite <- Permutation_middle, IH.
Qed.

Lemma pvs_nodes : mapM (pv_nodes_at (F := F) s N) (vg_pvs x) = Some (map (fun nv => [pv_node_of nv]) pv_list).
Proof.
  apply mapM_Some. apply Forall2_same_length_lookup_2; [by rewrite length_map, pv_list_length|].
  intros i p n Hp Hn. rewrite list_lookup_fmap in Hn. destruct (pv_list !! i) as [nv|] eqn:E; [|done]. injection Hn as <-.
  destruct (pv_list_inv i nv E) as (p' & v & Hp' & Hv & _ & ->). assert (p' = p) as -> by congruence.
  unfold pv_nodes_at. rewrite Hv. cbn [mbind option_bind]. unfold pv_node. rewrite (pv_named i p v Hp Hv). done.
Qed.

Lemma lvs_nodes_at ls items :
  Forall2 lv_described ls items -> mapM (lv_nodes_at (F := F) s N) ls = Some (map (fun e => [source_node e]) items).
Proof.
  intros H. apply mapM_Some, Forall2_fmap_r. eapply Forall2_impl; [exact H|]. intros l e (Hv & Hn & _).
  unfold lv_nodes_at. rewrite Hv. cbn [mbind option_bind]. by rewrite Hn.
Qed.

Lemma concat_singles {A B} (f : A -> B) l : concat (map (fun a => [f a]) l) = map f l.
Proof. induction l as [|a l IH]; [done|]. cbn. by rewrite IH. Qed.

Lemma pv_list_extents : zsum (map (fun nv => pv_pe_count nv.2) pv_list) = vg_extent_count x.
Proof.
  rewrite (vo_extents _ _ _ (sv_vg Hsv)). f_equal. apply list_eq. intros i. rewrite !list_lookup_fmap.
  destruct (pv_list !! i) as [nv|] eqn:E.
  - destruct (pv_list_inv i nv E) as (p & v & -> & Hv & _ & ->). cbn [fmap option_fmap option_map snd]. unfold pv_num. by rewrite Hv.
  - apply lookup_ge_None in E. rewrite pv_list_length in E. by rewrite lookup_ge_None_2.
Qed.

Lemma pv_list_names : NoDup pv_list.*1.
Proof.
  apply NoDup_alt. intros i j n Hi Hj. rewrite list_lookup_fmap in Hi, Hj.
  destruct (pv_list !! i) as [ni|] eqn:Ei; [|done]. destruct (pv_list !! j) as [nj|] eqn:Ej; [|done].
  destruct (pv_list_inv i ni Ei) as (p & v & Hp & _ & _ & ->), (pv_list_inv j nj Ej) as (p' & v' & Hp' & _ & _ & ->).
  apply (inj Some) in Hi as <-. apply (inj Some) in Hj. apply lookup_lt_Some in Hp, Hp'. pose proof (sv_count Hsv). symmetry. apply pv_name_inj; [lia..|done].
Qed.

Lemma source_tree :
  exists items, Forall2 lv_described (ordered shown (vg_lvs x)) items /\ vg_tree (F := F) s N shown x = Some (import_tree x pv_list items) /\
    tree_ok env s N x pv_list items.
Proof.
  destruct (choose_list lv_described (ordered shown (vg_lvs x))) as [items Hit].
  { intros l Hl. rewrite ordered_perm in Hl. by apply lv_has_source. }
  pose proof (Forall2_length _ _ _ Hit) as Hlen. exists items. split; [done|]. split.
  - unfold vg_tree. rewrite pvs_nodes. cbn [mbind option_bind]. rewrite (lvs_nodes_at _ _ Hit). cbn [mbind option_bind].
    rewrite !concat_singles. unfold import_tree, lvs_nodes. do 4 f_equal. rewrite ordered_perm in Hlen. by destruct (vg_lvs x), items.
  - split; try apply Hsv; [apply Hex| | | | | | |].
    + apply Forall_lookup. intros i nv Hi. destruct (pv_list_inv i nv Hi) as (p & v & Hp & Hv & Hf & ->). split; [done|].
      apply (sv_sizes Hsv p); [by eapply list_elem_of_lookup_2|done].
    + apply pv_list_names.
    + rewrite pv_list_extents. apply (sv_vg Hsv).
    + rewrite pv_list_length. apply Hsv.
    + apply Forall_lookup. intros i e Hi. by destruct (Forall2_lookup_r _ _ _ _ _ Hit Hi) as (l & _ & _ & _ & H & _).
    + apply NoDup_alt. intros i j n Hi Hj. apply list_lookup_fmap_Some_1 in Hi as (ei & -> & Ei), Hj as (ej & Hj & Ej).
      destruct (Forall2_lookup_r _ _ _ _ _ Hit Ei) as (l & Hl & Hv & _), (Forall2_lookup_r _ _ _ _ _ Hit Ej) as (l' & Hl' & Hv' & _).
      assert (l' = l) as -> by (eapply (sv_lv_names Hsv); [rewrite <- ordered_perm; by eapply list_elem_of_lookup_2..|done|done|done]).
      eapply NoDup_lookup; [|done|done]. rewrite ordered_perm. apply Hsv.
    + exists (ordered shown (vg_lvs x)). split; [done|]. apply items_separate; [apply ordered_perm|done].
Qed.
End source.
