(* ===== verification/RoundTrip.v ===== *)
(** * Metadata that is written and read back

    A VG of striped LVs is exported as text and imported from it: the import yields
    the VG again, with its PVs, its LVs and every physical extent in its place. *)

From S2P Require Import Prelude DmString Uuid Config ConfigProps Metadata PvManip PvSegs LvManip LvSegs LvReduce LvProps CheckLv Flags TextExport ExportProps ExportMain ExportThms TextImport ImportProps ImportPvs ImportLvs Quiet Place ImportSegs ImportErrors ImportLvSegs ImportVg ImportMain ExportSource.

(** ** What an extent holds *)

(** The LV, by name, the area and the LV's extent on extent [e] of PV [p]. *)
Definition named_extent (s : store) (p : nat) (e : Z) : option (list Z * Z * Z) :=
  r ← lv_extent s p e; v ← st_lvs s !! r.1.1; Some (lv_name v, r.1.2, r.2).

Definition used (o : option (nat * Z * Z)) : Z := if o is Some _ then 1 else 0.

(** The allocated extents, counted one by one. *)
Lemma alloced_owned l : forall lo hi, covers lo l hi -> alloced l = zsum (map (fun e => used (owner l e)) (seqZ lo (hi - lo))).
Proof.
  induction l as [|h l IH]; intros lo hi; cbn [covers].
  { intros ->. by rewrite Z.sub_diag. }
  intros (Epe & Hlen & Hc). pose proof (covers_le _ _ _ Hc). rewrite alloced_cons, (IH _ _ Hc).
  replace (hi - lo) with (peg_len h + (hi - (lo + peg_len h))) by lia. rewrite seqZ_app, map_app, zsum_app by lia. f_equal.
  - rewrite (map_ext_in _ (fun _ => used (owner [h] lo))).
    + rewrite (zsum_const _ _ (used (owner [h] lo))) by by intros. rewrite length_seqZ, Z2Nat.id by lia. unfold alloc_len. cbn.
      rewrite Epe, (proj2 (Z.leb_le _ _)), (proj2 (Z.ltb_lt _ _)) by lia. destruct (peg_lvseg h); cbn; lia.
    + intros e He%list_elem_of_In%elem_of_seqZ. cbn. rewrite Epe, !(proj2 (Z.leb_le _ _)), !(proj2 (Z.ltb_lt _ _)) by lia. cbn.
      by destruct (peg_lvseg h).
  - f_equal. apply map_ext_in. intros e He%list_elem_of_In%elem_of_seqZ. cbn. by rewrite (proj2 (Z.ltb_ge _ _)), andb_false_r by lia.
Qed.

Lemma used_extent s vg p v l e : pv_ok s vg p v l -> used (owner l.*2 e) = used (lv_extent s p e).
Proof.
  intros (Hview & Hs & Hown). unfold lv_extent. rewrite (owner_at_view _ _ _ _ _ Hview).
  destruct (owner l.*2 e) as [[[q a] d]|] eqn:Ho; [|done]. apply owner_inv in Ho as (h & Hh & _ & Hq & _).
  rewrite Forall_forall in Hown. by destruct (Hown h Hh q Hq) as (g & w & -> & _).
Qed.

Lemma pv_alloced s vg p v l :
  pv_ok s vg p v l -> pv_pe_alloc_count v = zsum (map (fun e => used (lv_extent s p e)) (seqZ 0 (pv_pe_count v))).
Proof.
  intros Hok. pose proof Hok as (_ & Hs & _). rewrite (so_alloced _ _ _ _ Hs), (alloced_owned _ _ _ (so_covers _ _ _ _ Hs)), Z.sub_0_r. f_equal.
  apply map_ext. intros e. by eapply used_extent.
Qed.

(** ** Slots of LVs with other addresses *)

Record renamed (s t : store) (a b : slot) : Prop := {
  rn_key : slot_key a = slot_key b;
  rn_rest : (sl_area a, sl_le a, sl_mult a) = (sl_area b, sl_le b, sl_mult b);
  rn_name : exists v w, st_lvs s !! sl_lv a = Some v /\ st_lvs t !! sl_lv b = Some w /\ lv_name v = lv_name w }.

Definition lv_text (s : store) (r : nat * Z * Z) : option (list Z * Z * Z) := v ← st_lvs s !! r.1.1; Some (lv_name v, r.1.2, r.2).

Lemma placed_renamed s t P P' name e :
  Forall2 (renamed s t) P P' ->
  placed P name e ≫= lv_text s = placed P' name e ≫= lv_text t /\ used (placed P name e) = used (placed P' name e).
Proof.
  induction 1 as [|a b P P' [H1 H2 (v & w & Hv & Hw & En)] H IH]; [done|]. cbn [placed].
  assert (in_slot a name e = in_slot b name e) as ->.
  { unfold slot_key in H1. injection H1 as E1 E2 E3. unfold in_slot. by rewrite E1, E2, E3. }
  destruct (in_slot b name e); [|done]. split; [|done]. cbn [mbind option_bind]. unfold lv_text, holds. cbn [fst snd]. rewrite Hv, Hw. cbn [mbind option_bind].
  injection H1 as E1 E2 E3. injection H2 as E4 E5 E6. by rewrite En, E2, E4, E5, E6.
Qed.

Lemma slots_renamed s t (ls ls' : list nat) (items : list lv_source) :
  Forall2 (fun l e => st_lvs s !! l = Some e.1) ls items -> Forall2 (fun l (e : lv_source) => exists w, st_lvs t !! l = Some w /\ lv_name w = lv_name e.1) ls' items ->
  Forall2 (renamed s t) (items_slots (zip ls items)) (items_slots (zip ls' items)).
Proof.
  intros H1. revert ls'. induction H1 as [|l e ls items Hl H1 IH]; intros ls' H2; [apply Forall2_nil_inv_r in H2 as ->; constructor|].
  apply Forall2_cons_inv_r in H2 as (l' & ls2 & (w & Hw & En) & H2 & ->). unfold items_slots. cbn [zip zip_with map concat].
  apply Forall2_app; [|by apply IH]. unfold item_slots, descs_slots. cbn [fst snd]. induction (e.2.*2) as [|d ds IHd]; [constructor|].
  cbn [map concat]. apply Forall2_app; [|done]. apply Forall2_same_length_lookup_2.
  { unfold desc_slots. assert (forall lv le m L n i0, length (area_slots lv le m L i0 n) = length n) as El.
    { intros lv le m L n. induction n as [|a n IHn]; intros i0; [done|]. cbn. by rewrite IHn. }
    by rewrite !El. }
  intros i a b Ha Hb. unfold desc_slots in Ha, Hb. rewrite area_slots_lookup in Ha, Hb. destruct (ds_areas d !! i); [|done].
  injection Ha as <-. injection Hb as <-. split; [done|done|]. exists e.1, w. done.
Qed.

(** ** The VG that is read back *)

Section restored.
Context {F : Type} (env : import_env (F := F)).
Context (s : store) (x : volume_group) (shown : nat -> bool).
Context (t : store) (vg' : nat) (x' : volume_group).

(** PV [p] was read back as [p'].  The import sets the size from the device when
    the metadata has none, and the LVs lie on the extents they had. *)
Definition pv_restored (p p' : nat) : Prop :=
  exists v v' size, st_pvs s !! p = Some v /\ st_pvs t !! p' = Some v' /\
    fix_pv_size env (fst <$> device_from_pvid env (pa_id (pv_attrs_of v))) (pv_size v) = Some size /\
    base_pv v' = base_pv (set_pv_vg (Some vg') (imported_pv env x' v size)) /\
    pv_pe_alloc_count v' = pv_pe_alloc_count v /\
    forall e, named_extent t p' e = named_extent s p e.

(** LV [l] was read back as [l'], an LV whose segments are well-formed. *)
Definition lv_restored (l l' : nat) : Prop :=
  exists v segs, st_lvs s !! l = Some v /\ lv_ok t vg' x' l' (final_lv env vg' x' v segs (lv_le_count v)).

(** The VG [x] of the store [s] was read back as [x'] into [t]. *)
Record restored : Prop := {
  re_vg : vg_ok t vg' x';
  re_fields : x' = VolumeGroup (vg_name x) (kept vg_flags (vg_status x)) (vg_extent_size x) (vg_extent_count x) (vg_free_count x)
    (vg_pv_count x) (vg_max_pv x) (vg_max_lv x) (vg_pvs x') (vg_lvs x') (vg_fields_read x (va_tags (vg_attrs_of x)));
  re_pvs : Forall2 pv_restored (vg_pvs x) (vg_pvs x');
  re_lvs : Forall2 lv_restored (ordered shown (vg_lvs x)) (vg_lvs x');
  re_nodup : NoDup (vg_lvs x') }.
End restored.

Section round_trip.
Context {F : Type} (env : import_env (F := F)) (ty : segment_type) (Hty : striped_type env ty).
Hypothesis Hinv : inverse_ok (ie_inverse env).
Context (s : store) (vg : nat) (x : volume_group) (shown : nat -> bool).
Hypothesis Hsv : striped_vg env ty s vg x.
Hypothesis Hex : exportable (F := F) s (vg_names s x) shown x.

Lemma described_len l e : lv_described (F := F) ty s vg x l e -> l ∈ vg_lvs x -> descs_len e.2.*2 = lv_le_count e.1.
Proof.
  intros (Hv & _ & _ & Hsrc) Hl. destruct (sv_lvs _ _ _ _ _ Hsv l Hl) as (v & [O1 O2 O3 O4 O5] & _). assert (v = e.1) as -> by congruence.
  clear -Hsrc O4 Hty. enough (forall lo hi, chain s vg x l lo (lv_segments e.1) hi -> descs_len e.2.*2 = hi - lo) as H by (rewrite (H _ _ O4); lia).
  clear O4. unfold descs_len. induction Hsrc as [|q nd segs nds (g & Hok & El & Et & Hd) Hsrc IH]; intros lo hi; cbn [chain].
  { intros ->. cbn. lia. }
  intros (g' & Hok' & _ & _ & _ & Hch). assert (g' = g) as -> by (pose proof (sk_seg _ _ _ _ _ Hok); pose proof (sk_seg _ _ _ _ _ Hok'); congruence).
  rewrite fmap_cons. cbn [map]. rewrite zsum_cons, (IH _ _ Hch). unfold ds_len.
  rewrite (de_alen _ _ _ _ _ Hd), (de_count _ _ _ _ _ Hd), (sk_len _ _ _ _ _ Hok), (mult_ty env ty Hty g Et). lia.
Qed.

Section imported.
Context (items : list lv_source) (t : store) (vg' : nat) (x' : volume_group).
Hypothesis Hitems : Forall2 (lv_described (F := F) ty s vg x) (ordered shown (vg_lvs x)) items.
Hypothesis Him : imported env ty t vg' x' x (pv_list s x) items.

Lemma extents_same k p p' e :
  vg_pvs x !! k = Some p -> vg_pvs x' !! k = Some p' ->
  named_extent t p' e = named_extent s p e /\ used (lv_extent t p' e) = used (lv_extent s p e).
Proof.
  intros Hp Hp'. destruct (Forall2_lookup_l _ _ _ _ _ (im_extents _ _ _ _ _ _ _ _ Him) Hp') as (nv & Hnv & Hext).
  destruct (pv_list_inv env ty s vg x shown Hsv Hex k nv Hnv) as (p0 & v & Hp0 & _ & _ & ->). cbn [fst] in Hext.
  pose proof (items_placed env ty Hty s vg x shown Hsv Hex _ _ (ordered_perm shown (vg_lvs x)) Hitems k p e Hp) as Hs.
  unfold named_extent. rewrite (Hext e), <- Hs.
  destruct (placed_renamed s t (items_slots (zip (ordered shown (vg_lvs x)) items)) (items_slots (zip (vg_lvs x') items)) (pv_name k) e) as [E1 E2].
  { apply slots_renamed; [eapply Forall2_impl; [exact Hitems|]; by intros l it (H & _)|].
    eapply Forall2_impl; [exact (im_lvs _ _ _ _ _ _ _ _ Him)|]. intros l it (segs & [[O1 _ _ _ _] _]). eexists. split; [exact O1|done]. }
  split; [symmetry; exact E1|by symmetry].
Qed.

Lemma pv_comes_back k p p' :
  vg_pvs x !! k = Some p -> vg_pvs x' !! k = Some p' -> pv_restored env s t vg' x' p p' /\ pv_num pv_free t p' = pv_num pv_free s p.
Proof.
  intros Hp Hp'. destruct (Forall2_lookup_l _ _ _ _ _ (im_pvs _ _ _ _ _ _ _ _ Him) Hp') as (nv & Hnv & size & v' & Hsize & Hv' & Hbase).
  destruct (pv_list_inv env ty s vg x shown Hsv Hex k nv Hnv) as (p0 & v & Hp0 & Hv & _ & ->). assert (p0 = p) as -> by congruence. cbn [snd] in *.
  assert (pv_pe_count v' = pv_pe_count v) as Ec by exact (base_pv_count _ _ Hbase).
  assert (pv_pe_alloc_count v' = pv_pe_alloc_count v) as Ea.
  { destruct (vo_pvs _ _ _ (sv_vg _ _ _ _ _ Hsv) p) as (v1 & l1 & Hok1); [by eapply list_elem_of_lookup_2|].
    destruct (vo_pvs _ _ _ (im_vg _ _ _ _ _ _ _ _ Him) p') as (v2 & l2 & Hok2); [by eapply list_elem_of_lookup_2|].
    assert (v1 = v) as -> by (destruct Hok1 as ((? & _) & _); congruence). assert (v2 = v') as -> by (destruct Hok2 as ((? & _) & _); congruence).
    rewrite (pv_alloced _ _ _ _ _ Hok1), (pv_alloced _ _ _ _ _ Hok2), Ec. f_equal. apply map_ext. intros e. by apply (extents_same k). }
  split.
  - exists v, v', size. do 5 (split; [done|]). intros e. by apply (extents_same k).
  - unfold pv_num, pv_free. rewrite Hv, Hv'. cbn. lia.
Qed.

Lemma imported_restored : restored env s x shown t vg' x'.
Proof.
  pose proof Him as [I1 (free & I2) I3 I4 I5 I6 I7 I8].
  assert (length (vg_pvs x') = length (vg_pvs x)) as Hlen by (rewrite (Forall2_length _ _ _ I3); apply pv_list_length).
  split; try done.
  - assert (vg_free_count x' = vg_free_count x) as Ef.
    { rewrite (vo_free _ _ _ I1), (vo_free _ _ _ (sv_vg _ _ _ _ _ Hsv)). f_equal. apply list_eq. intros k. rewrite !list_lookup_fmap.
      destruct (vg_pvs x' !! k) as [p'|] eqn:E'.
      - destruct (lookup_lt_is_Some_2 (vg_pvs x) k) as [p E]; [rewrite <- Hlen; by eapply lookup_lt_Some|]. rewrite E. cbn. f_equal.
        by apply (pv_comes_back k).
      - apply lookup_ge_None in E'. by rewrite lookup_ge_None_2 by lia. }
    rewrite I2 in Ef at 1. cbn [vg_free_count final_vg] in Ef. rewrite I2 at 1. unfold final_vg. rewrite (pv_list_extents env ty s vg x shown Hsv Hex), Hlen, Ef.
    by rewrite <- (vo_count _ _ _ (sv_vg _ _ _ _ _ Hsv)).
  - apply Forall2_same_length_lookup_2; [done|]. intros k p p' Hp Hp'. by apply (pv_comes_back k).
  - apply Forall2_same_length_lookup_2; [by rewrite (Forall2_length _ _ _ Hitems), (Forall2_length _ _ _ I4)|].
    intros k l l' Hl Hl'. destruct (Forall2_lookup_l _ _ _ _ _ I4 Hl') as (e & He & segs & [O _]).
    pose proof (Forall2_lookup_lr _ _ _ _ _ _ Hitems Hl He) as Hd. exists e.1, segs. split; [apply Hd|].
    rewrite <- (described_len l e Hd); [exact O|]. rewrite <- (ordered_perm shown). by eapply list_elem_of_lookup_2.
Qed.
End imported.

(** *** The text *)

Context (xenv : export_env) (desc : list Z) (tree : cnode F).

(** The names the version check and the header fields are found under. *)
Definition header_names : list (list Z) := [bytes "contents"; bytes "version"; bytes "description"; bytes "creation_time"].

Lemma header_found (k : list Z) (root : list (cnode F)) n :
  k ∈ header_names -> root = header_nodes xenv desc ++ [n] \/ (root = [n] ++ header_nodes xenv desc /\ node_key n ∉ header_names) ->
  find_config_node root k = hunt (header_nodes xenv desc) k.
Proof.
  intros Hk Hroot. rewrite find_key by (repeat (apply elem_of_cons in Hk as [->|Hk]; [done|]); by apply elem_of_nil in Hk).
  destruct Hroot as [->|[-> Hn]].
  - rewrite hunt_app. repeat (apply elem_of_cons in Hk as [->|Hk]; [done|]). by apply elem_of_nil in Hk.
  - apply hunt_miss. rewrite tok_match_eq. apply bool_decide_eq_false. intros E. apply Hn. by rewrite E.
Qed.

(** The text is read into any store: what the parser made of it is the tree of the
    VG, before or behind the header. *)
Lemma import_root strtod behind text (root : list (cnode F)) p t :
  dm_config_parse strtod behind text = Parsed root p ->
  vg_tree s (vg_names s x) shown x = Some tree ->
  root = header_nodes xenv desc ++ [tree] \/ (root = [tree] ++ header_nodes xenv desc /\ vg_name x ∉ header_names) ->
  no_oom t -> all_fresh t ->
  exists t' x', text_vg_import env strtod behind text t = Some (Some (st_next t, desc, wrap32 (xe_time xenv)), t') /\
    restored env s x shown t' (st_next t) x'.
Proof.
  intros Hparse Htree Hroot Hno Hf. destruct (source_tree env ty Hty Hinv s vg x shown Hsv Hex) as (items & Hit & Htree' & Hok).
  rewrite Htree in Htree'. apply (inj Some) in Htree' as ->.
  assert (skip_values root = Some (import_tree x (pv_list s x) items)) as Hskip by by destruct Hroot as [->|[-> _]].
  assert (forall k, k ∈ header_names -> find_config_node root k = hunt (header_nodes xenv desc) k) as Hfind.
  { intros k Hk. apply (header_found k root (import_tree x (pv_list s x) items) Hk Hroot). }
  destruct (read_vg_spec env ty Hty Hinv s _ x _ items Hok root t Hskip Hno Hf) as (t' & x' & He & Him). exists t', x'. split.
  - unfold text_vg_import. rewrite Hparse. assert (vsn1_check_version env root = true) as ->.
    { unfold vsn1_check_version. destruct (lvmetad_active env); [done|].
      unfold CONTENTS_FIELD, FORMAT_VERSION_FIELD. by rewrite !Hfind by (unfold header_names; repeat (first [left|right])). }
    cbn [negb]. rewrite (bind_exec _ _ _ _ _ He). unfold read_desc, dm_config_find_str_allow_empty, dm_config_get_uint32.
    rewrite !Hfind by (unfold header_names; repeat (first [left|right])). done.
  - by eapply imported_restored.
Qed.
End round_trip.

(** ** An example *)

Lemma xp_pv_ok p base c : (p = 1 /\ base = 10 /\ c = 65 \/ p = 2 /\ base = 20 /\ c = 66) -> pv_ok xp 1 (Z.to_nat p) (xp_pv (Z.to_nat base) c) (ex_pegs (Z.to_nat p) (Z.to_nat base)).
Proof.
  intros H. split; [|split].
  - destruct H as [(-> & -> & ->)|(-> & -> & ->)]; (split; [reflexivity|split; [reflexivity|repeat constructor]]).
  - destruct H as [(-> & -> & ->)|(-> & -> & ->)];
      (split; [repeat constructor; set_solver|repeat constructor|repeat constructor; cbn; lia|cbn; lia|reflexivity]).
  - destruct H as [(-> & -> & ->)|(-> & -> & ->)]; (repeat constructor; intros sg Hsg; [..|done]); injection Hsg as <-;
      first [by exists ex_seg1, xp_lv|by exists ex_seg2, xp_lv].
Qed.

Lemma xp_vg_ok : vg_ok xp 1 xp_vg.
Proof.
  split; try reflexivity.
  - repeat constructor; set_solver.
  - intros p Hp. cbn in Hp. apply elem_of_cons in Hp as [->| ->%list_elem_of_singleton].
    + eexists _, _. apply (xp_pv_ok 1 10 65). auto.
    + eexists _, _. apply (xp_pv_ok 2 20 66). auto.
  - intros i Hi. cbn in Hi. apply not_elem_of_list_to_map_1. cbn. set_solver by lia.
Qed.

Lemma xp_linked sg p base c k len :
  (p = 1 /\ base = 10 /\ c = 65 \/ p = 2 /\ base = 20 /\ c = 66) -> (sg = 1 /\ k = 1 /\ len = 4 \/ sg = 2 /\ k = 2 /\ len = 2)%nat ->
  linked xp xp_vg sg (p - 1) (Z.of_nat len) (ex_area (Z.to_nat base + k)).
Proof.
  intros Hp Hs. exists (Z.to_nat base + k)%nat, (Z.to_nat p), (xp_pv (Z.to_nat base) c), (if decide (sg = 1)%nat then 0 else 4).
  split; [done|]. destruct Hp as [(-> & -> & ->)|(-> & -> & ->)], Hs as [(-> & -> & ->)|(-> & -> & ->)];
    (split; [reflexivity|split; [set_solver|split; [reflexivity|set_solver]]]).
Qed.

Lemma xp_seg_ok_at q g : q = 1%nat /\ g = ex_seg1 \/ q = 2%nat /\ g = ex_seg2 -> seg_ok xp 1 xp_vg q g.
Proof.
  intros H. assert (forall a, 0 <= a < 2 -> a = 0 \/ a = 1) as Ha by lia.
  destruct H as [[-> ->]|[-> ->]]; split; try reflexivity; try (by exists xp_lv); try (cbn; lia).
  - intros a [->| ->]%Ha; (eexists; split; [reflexivity|]); [apply (xp_linked 1 1 10 65 1 4)|apply (xp_linked 1 2 20 66 1 4)]; auto.
  - intros a [->| ->]%Ha; (eexists; split; [reflexivity|]); [apply (xp_linked 2 1 10 65 2 2)|apply (xp_linked 2 2 20 66 2 2)]; auto.
Qed.

Lemma xp_lv_ok : lv_ok xp 1 xp_vg 1 xp_lv.
Proof.
  split; try reflexivity; [repeat constructor; set_solver|].
  exists ex_seg1. split; [apply xp_seg_ok_at; auto|]. do 3 (split; [done|]).
  exists ex_seg2. split; [apply xp_seg_ok_at; auto|]. do 3 (split; [done|]). reflexivity.
Qed.

Lemma ex_striped_type : striped_type ex_import ex_type.
Proof. split; [done|done|by repeat constructor]. Qed.

Lemma ex_inverse_ok : inverse_ok (ie_inverse ex_import).
Proof. by left. Qed.

Lemma xp_pv_at p v : st_pvs xp !! p = Some v -> (p = 1%nat /\ v = xp_pv 10 65) \/ (p = 2%nat /\ v = xp_pv 20 66).
Proof.
  change (st_pvs xp) with (<[1%nat := xp_pv 10 65]> {[2%nat := xp_pv 20 66]} : gmap nat physical_volume).
  intros [[<- <-]|[_ [<- <-]%lookup_singleton_Some]]%lookup_insert_Some; auto.
Qed.

Lemma xp_back p v j k sg :
  st_pvs xp !! p = Some v -> j ∈ pv_segments v -> st_pegs xp !! j = Some k -> peg_lvseg k = Some sg ->
  exists l w g, l ∈ vg_lvs xp_vg /\ st_lvs xp !! l = Some w /\ sg ∈ lv_segments w /\ st_segs xp !! sg = Some g /\
    0 <= peg_lv_area k < seg_area_count g /\ seg_areas g !! Z.to_nat (peg_lv_area k) = Some (Area AREA_PV (U_pv (Some j))).
Proof.
  intros [[-> ->]|[-> ->]]%xp_pv_at Hj Hk Hsg; cbn in Hj; rewrite !elem_of_cons, elem_of_nil in Hj; destruct_or? Hj; subst j; try done;
    vm_compute in Hk; apply (inj Some) in Hk as <-; try done; apply (inj Some) in Hsg as <-; exists 1%nat, xp_lv;
    [exists ex_seg1|exists ex_seg2|exists ex_seg1|exists ex_seg2]; (split; [left|]); (split; [done|]); (split; [cbn; set_solver|]); (split; [done|]); (split; [cbn; lia|done]).
Qed.

Lemma xp_striped : striped_vg ex_import ex_type xp 1 xp_vg.
Proof.
  assert (forall l, l ∈ vg_lvs xp_vg -> l = 1%nat) as Hl by (intros l Hl; by apply list_elem_of_singleton in Hl).
  split; try done; try (cbn; lia).
  - apply xp_vg_ok.
  - intros l ->%Hl. exists xp_lv. split; [apply xp_lv_ok|]. split; [done|]. split; [done|].
    intros q g Hq Hg. cbn in Hq. apply elem_of_cons in Hq as [->| ->%list_elem_of_singleton]; by injection Hg as <-.
  - repeat constructor; set_solver.
  - by intros l l' v v' ->%Hl ->%Hl.
  - intros p p' v v' _ _ [[-> ->]|[-> ->]]%xp_pv_at [[-> ->]|[-> ->]]%xp_pv_at Hid; try done; by vm_compute in Hid.
  - intros p v j k sg _. apply xp_back.
  - intros p v _ [[-> ->]|[-> ->]]%xp_pv_at; by exists 100.
Qed.

Lemma no_store_ready : no_oom no_store /\ all_fresh no_store.
Proof. split; [by intros ?%elem_of_nil|]. split; by intros i _. Qed.

(** A VG without PVs that has the name of a header field. *)
Definition xc_vg : volume_group :=
  VolumeGroup (bytes "contents") 0x304 8 0 0 0 0 0 [] [] (VgAttrs (xp_id 67) 7 ALLOC_NORMAL [] [] 0 (Some (bytes "lvm2"))).
Definition xc : store := Store ∅ ∅ ∅ ∅ {[1%nat := xc_vg]} 100 [] [].
Definition xc_tree : cnode unit := default (Node [] [] []) (vg_tree xc (vg_names xc xc_vg) (fun _ => true) xc_vg).

Lemma xc_exportable : exportable (F := unit) xc (vg_names xc xc_vg) (fun _ => true) xc_vg.
Proof.
  pose proof (ex_fields _ _ _ _ xp_exportable) as [H1 H2 H3 H4 H5 H6 H7 H8 H9 H10 H11]. split; try by intros ? ? ?%elem_of_nil.
  - split; try done. by apply (key_ok_dec (bytes "contents")).
  - intros k name. by apply vg_names_ok.
Qed.

Lemma pvs_present {F} (env : import_env (F := F)) ty s vg x : striped_vg env ty s vg x -> forall p, p ∈ vg_pvs x -> is_Some (st_pvs s !! p).
Proof. intros Hsv p Hp. destruct (vo_pvs _ _ _ (sv_vg _ _ _ _ _ Hsv) p Hp) as (v & l & (Hv & _) & _). by eexists. Qed.

(** ** The theorems *)

(** C1: What is written into a metadata area is read back as the same VG.  Let every
    LV of the VG be on PVs, with the segments and areas in order, and let every
    allocated extent belong to an LV; let the names be other than those of the header
    fields.  Then the export succeeds, and the import of its text into any store
    whose memory lasts returns a new VG, the description and the time (in 32 bits).
    The VG is well-formed and has the fields that are written: name, id, sequence
    number, sizes, limits, flags, tags and numbers of extents in use and free.  Its
    PVs and LVs are those of the old one in order (visible LVs first), with their
    fields, and on every PV every extent holds the same extent of the LV with the
    same name, or is free as it was. *)
Theorem metadata_round_trip {F} (env : import_env (F := F)) ty strtod behind xenv s other shown vg x desc alloc t :
  striped_type env ty -> inverse_ok (ie_inverse env) -> striped_vg env ty s vg x -> exportable (F := F) s (vg_names s x) shown x ->
  env_ok xenv -> Forall (fun c => c <> 0) desc -> false ∉ alloc -> Z.of_nat (length (pure_text xenv s other vg desc)) + 2 <= 2 ^ 31 ->
  vg_name x ∉ header_names -> no_oom t -> all_fresh t ->
  exists text t' x', text_vg_export_raw xenv s other alloc vg desc = Some (Some text) /\
    text_vg_import env strtod behind text t = Some (Some (st_next t, desc, wrap32 (xe_time xenv)), t') /\
    restored env s x shown t' (st_next t) x'.
Proof.
  intros Hty Hinv Hsv Hex Henv Hdesc Ha Hlen Hname Hno Hf. destruct (source_tree env ty Hty Hinv s vg x shown Hsv Hex) as (items & _ & Htree & _).
  destruct (export_raw_spec strtod behind xenv s other shown vg x _ desc Henv (vo_vg _ _ _ (sv_vg _ _ _ _ _ Hsv))
    (pvs_present _ _ _ _ _ Hsv) Hex Htree Hdesc alloc Ha Hlen) as [E1 E2].
  destruct (import_root env ty Hty Hinv s vg x shown Hsv Hex xenv desc _ strtod behind _ _ _ t E2 Htree (or_intror (conj eq_refl Hname)) Hno Hf)
    as (t' & x' & E3 & Hr). by eexists _, t', x'.
Qed.

Lemma metadata_round_trip_witness :
  exists text t' x', text_vg_export_raw xp_env xp xp_other [] 1 (bytes "test") = Some (Some text) /\
    text_vg_import ex_import (fun _ => None) [] text no_store = Some (Some (0%nat, bytes "test", 1400000000), t') /\
    restored ex_import xp xp_vg (fun _ => true) t' 0 x'.
Proof.
  apply (metadata_round_trip ex_import ex_type (fun _ => None) [] xp_env xp xp_other (fun _ => true) 1 xp_vg (bytes "test") [] no_store
    ex_striped_type ex_inverse_ok xp_striped xp_exportable xp_env_ok).
  - by repeat constructor.
  - apply not_elem_of_nil.
  - vm_compute. discriminate.
  - by apply (bool_decide_unpack _); vm_compute.
  - apply no_store_ready.
  - apply no_store_ready.
Defined.

(** C26: The files that archives and backups write are read back in the same way,
    whatever the VG is called: there the header comes first. *)
Theorem backup_round_trip {F} (env : import_env (F := F)) ty strtod behind xenv s other shown vg x desc alloc t :
  striped_type env ty -> inverse_ok (ie_inverse env) -> striped_vg env ty s vg x -> exportable (F := F) s (vg_names s x) shown x ->
  env_ok xenv -> Forall (fun c => c <> 0) desc -> false ∉ alloc -> no_oom t -> all_fresh t ->
  exists text t' x', text_vg_export_file xenv s other alloc [] vg desc = Some (true, text) /\
    text_vg_import env strtod behind text t = Some (Some (st_next t, desc, wrap32 (xe_time xenv)), t') /\
    restored env s x shown t' (st_next t) x'.
Proof.
  intros Hty Hinv Hsv Hex Henv Hdesc Ha Hno Hf. destruct (source_tree env ty Hty Hinv s vg x shown Hsv Hex) as (items & _ & Htree & _).
  destruct (export_file_spec strtod behind xenv s other shown vg x _ desc Henv (vo_vg _ _ _ (sv_vg _ _ _ _ _ Hsv))
    (pvs_present _ _ _ _ _ Hsv) Hex Htree Hdesc alloc Ha) as (text & E1 & E2).
  destruct (import_root env ty Hty Hinv s vg x shown Hsv Hex xenv desc _ strtod behind _ _ _ t E2 Htree (or_introl eq_refl) Hno Hf)
    as (t' & x' & E3 & Hr). by exists text, t', x'.
Qed.

Lemma backup_round_trip_witness :
  exists text t' x', text_vg_export_file xp_env xp xp_other [] [] 1 (bytes "test") = Some (true, text) /\
    text_vg_import ex_import (fun _ => None) [] text no_store = Some (Some (0%nat, bytes "test", 1400000000), t') /\
    restored ex_import xp xp_vg (fun _ => true) t' 0 x'.
Proof.
  apply (backup_round_trip ex_import ex_type (fun _ => None) [] xp_env xp xp_other (fun _ => true) 1 xp_vg (bytes "test") [] no_store
    ex_striped_type ex_inverse_ok xp_striped xp_exportable xp_env_ok).
  - by repeat constructor.
  - apply not_elem_of_nil.
  - apply no_store_ready.
  - apply no_store_ready.
Defined.

(** A VG called "contents" or "version" cannot be read back.  Both names pass
    the check of names, and the export into a metadata area succeeds; but its text
    has the VG's section before the header, so the check of the version finds the
    section in place of the field and the import gives up, before anything is read
    or allocated. *)
Theorem header_name_not_imported {F} (env : import_env (F := F)) strtod behind xenv s other shown vg x (n : cnode F) desc alloc t :
  env_ok xenv -> st_vgs s !! vg = Some x -> (forall p, p ∈ vg_pvs x -> is_Some (st_pvs s !! p)) ->
  exportable (F := F) s (vg_names s x) shown x -> vg_tree s (vg_names s x) shown x = Some n ->
  Forall (fun c => c <> 0) desc -> false ∉ alloc -> Z.of_nat (length (pure_text xenv s other vg desc)) + 2 <= 2 ^ 31 ->
  lvmetad_active env = false -> vg_name x = bytes "contents" \/ vg_name x = bytes "version" ->
  validate_name (Some (vg_name x)) = true /\
  exists text, text_vg_export_raw xenv s other alloc vg desc = Some (Some text) /\ text_vg_import env strtod behind text t = Some (None, t).
Proof.
  intros Henv Hvg Hpvs Hex Htree Hdesc Ha Hlen Hmd Hname. split; [by destruct Hname as [-> | ->]|].
  destruct (export_raw_spec strtod behind xenv s other shown vg x n desc Henv Hvg Hpvs Hex Htree Hdesc alloc Ha Hlen) as [E1 E2].
  eexists. split; [exact E1|]. unfold text_vg_import. rewrite E2. enough (vsn1_check_version env ([n] ++ header_nodes xenv desc) = false) as -> by done.
  assert (node_key n = vg_name x /\ node_v n = []) as [Ek Ev].
  { unfold vg_tree in Htree. destruct (mapM _ (vg_pvs x)); [|done]. cbn [mbind option_bind] in Htree. destruct (mapM _ _); [|done].
    cbn [mbind option_bind] in Htree. by apply (inj Some) in Htree as <-. }
  unfold vsn1_check_version, CONTENTS_FIELD, FORMAT_VERSION_FIELD. rewrite Hmd, !find_key by done. destruct Hname as [En|En].
  - rewrite hunt_hit by (rewrite Ek, En; done). by rewrite Ev.
  - rewrite hunt_miss by (rewrite Ek, En; done). rewrite (hunt_hit n) by (rewrite Ek, En; done). by rewrite Ev.
Qed.

Lemma header_name_not_imported_witness :
  validate_name (Some (bytes "contents")) = true /\
  exists text, text_vg_export_raw xp_env xc xp_other [] 1 (bytes "test") = Some (Some text) /\
    text_vg_import ex_import (fun _ => None) [] text no_store = Some (None, no_store).
Proof.
  apply (header_name_not_imported ex_import (fun _ => None) [] xp_env xc xp_other (fun _ => true) 1 xc_vg xc_tree (bytes "test") [] no_store
    xp_env_ok eq_refl); [by intros p ?%elem_of_nil|apply xc_exportable|vm_compute; reflexivity|by repeat constructor|apply not_elem_of_nil
    |vm_compute; discriminate|reflexivity|by left].
Defined.
