(* ===== verification/Regex.v ===== *)
(** * Regular expressions (libdm/regex/parse_rx.c)

    The parser of regular expressions and the optimiser that lifts common prefixes
    and suffixes out of alternatives.  A text is a list of bytes; the byte at its
    end is the NUL that its owner wrote there.  Memory pools are the answers the
    next allocations get. *)

From S2P Require Import Prelude Bitset.

(** ** Results *)

(** A result with the state behind it, an access out of bounds, or no fuel left. *)
Inductive rx_result (S A : Type) := RxRet (a : A) (s : S) | RxWild | RxFuel.
Arguments RxRet {S A}.
Arguments RxWild {S A}.
Arguments RxFuel {S A}.

Definition RX (S A : Type) : Type := S -> rx_result S A.

#[export] Instance RX_ret S : MRet (RX S) := fun _ a s => RxRet a s.
#[export] Instance RX_bind S : MBind (RX S) := fun _ _ k m s =>
  match m s with RxRet a s' => k a s' | RxWild => RxWild | RxFuel => RxFuel end.

Definition rx_get {S} : RX S S := fun s => RxRet s s.
Definition rx_upd {S} (f : S -> S) : RX S unit := fun s => RxRet tt (f s).
Definition rx_wild {S A} : RX S A := fun _ => RxWild.
Definition rx_fuel {S A} : RX S A := fun _ => RxFuel.
Definition rx_opt {S A} (o : option A) : RX S A := if o is Some a then mret a else rx_wild.

(** The answer to the next allocation; allocations succeed from the end of the list on. *)
Definition rx_alloc : RX (list bool) bool := fun mem => RxRet (default true (head mem)) (tail mem).

(** ** Nodes (parse_rx.h) *)

Inductive rx_node :=
  | CAT (left right : rx_node)
  | STAR (left : rx_node)
  | PLUS (left : rx_node)
  | OR (left right : rx_node)
  | QUEST (left : rx_node)
  | CHARSET (charset : list Z) (charset_index : Z).

Definition HAT_CHAR : Z := 2.
Definition DOLLAR_CHAR : Z := 3.
Definition TARGET_TRANS : Z := 0.

Definition is_or (r : rx_node) : bool := if r is OR _ _ then true else false.
Definition left_of (r : rx_node) : option rx_node :=
  match r with CAT l _ | OR l _ | STAR l | PLUS l | QUEST l => Some l | CHARSET _ _ => None end.
Definition right_of (r : rx_node) : option rx_node :=
  match r with CAT _ r | OR _ r => Some r | _ => None end.

(** [_node]: a node, with its bitset when it is a character set. *)
Definition node (n : rx_node) : RX (list bool) (option rx_node) :=
  ok ← rx_alloc;
  if negb ok then mret None else
  if n is CHARSET _ _ then ok ← rx_alloc; mret (if ok : bool then Some n else None)
  else mret (Some n).

(** ** Tokens *)

Record parse_sp := ParseSp { ps_mem : list bool; ps_type : Z; ps_charset : list Z; ps_cursor : list Z }.

Definition P (A : Type) : Type := RX parse_sp A.

Definition set_type (t : Z) : P unit := rx_upd (fun ps => ParseSp (ps_mem ps) t (ps_charset ps) (ps_cursor ps)).
Definition set_cursor (c : list Z) : P unit := rx_upd (fun ps => ParseSp (ps_mem ps) (ps_type ps) (ps_charset ps) c).
Definition on_charset (f : list Z -> option (list Z)) : P unit := fun ps =>
  match f (ps_charset ps) with
  | Some bs => RxRet tt (ParseSp (ps_mem ps) (ps_type ps) bs (ps_cursor ps))
  | None => RxWild
  end.
Definition new_node (n : rx_node) : P (option rx_node) := fun ps =>
  match node n (ps_mem ps) with
  | RxRet r mem => RxRet r (ParseSp mem (ps_type ps) (ps_charset ps) (ps_cursor ps))
  | RxWild => RxWild
  | RxFuel => RxFuel
  end.

(** [_single_char]; [ptr] is the text behind the character. *)
Definition single_char (c : Z) (ptr : list Z) : P unit :=
  set_type 0;; set_cursor ptr;; on_charset dm_bit_clear_all;; on_charset (fun bs => dm_bit_set bs c).

(** A byte as a [char]. *)
Definition as_char (b : Z) : Z := swrap 8 b.

(** What stands behind a backslash. *)
Definition escaped (b : Z) : Z := if b =? 110 then 10 else if b =? 114 then 13 else if b =? 116 then 9 else b.

Definition add_char (neg : bool) (c : Z) : P unit := on_charset (fun bs => if neg then dm_bit_clear bs c else dm_bit_set bs c).

(** The characters from [lc] to [c]; both are of type [char]. *)
Fixpoint add_range (fuel : nat) (neg : bool) (lc c : Z) : P unit :=
  match fuel with
  | O => rx_fuel
  | S fuel => if lc <=? c then add_char neg lc;; add_range fuel neg (swrap 8 (lc + 1)) c else mret tt
  end.

(** The loop over the text of a character set up to the closing bracket; [lc] is the
    last character.  [None]: the text ends within a range. *)
Fixpoint charset_loop (neg : bool) (lc : Z) (ptr : list Z) : P (option (list Z)) :=
  match ptr with
  | [] => mret (Some [])
  | b :: ptr1 =>
      if b =? 93 then mret (Some ptr)
      else if b =? 92 then
        match ptr1 with
        | [] => add_char neg 0;; mret (Some [])
        | e :: ptr2 => let c := as_char (escaped e) in add_char neg c;; charset_loop neg c ptr2
        end
      else if (b =? 45) && negb (lc =? 0) then
        match ptr1 with
        | [] => mret None
        | e :: ptr2 =>
            let c := as_char e in
            let lo := if c <? lc then c else lc in
            let hi := if c <? lc then lc else c in
            add_range 257 neg lo hi;; charset_loop neg hi ptr2
        end
      else let c := as_char b in add_char neg c;; charset_loop neg c ptr1
  end.

(** [case '[']: the set behind the bracket. *)
Definition charset_token (ptr : list Z) : P Z :=
  r ← match ptr with
      | 94 :: ptr =>
          on_charset dm_bit_set_all;; on_charset (fun bs => dm_bit_clear bs 0);; charset_loop true 0 ptr
      | _ => on_charset dm_bit_clear_all;; charset_loop false 0 ptr
      end;
  match r with
  | None => mret (-1)
  | Some [] => set_type (-1);; mret (-1)
  | Some (_ :: ptr) => set_type 0;; set_cursor ptr;; mret 1
  end.

(** The characters that are tokens of their own: ( ) * + ? | *)
Definition special (b : Z) : bool := bool_decide (b ∈ [40; 41; 42; 43; 63; 124]).

(** [_rx_get_token] *)
Definition rx_get_token : P Z := fun ps =>
  match ps_cursor ps with
  | [] => (set_type (-1);; mret 0) ps
  | b :: ptr =>
      (if b =? 91 then charset_token ptr
       else if special b then set_type b;; set_cursor ptr;; mret 1
       else if b =? 94 then single_char HAT_CHAR ptr;; mret 1
       else if b =? 36 then single_char DOLLAR_CHAR ptr;; mret 1
       else if b =? 46 then
         set_type 0;; set_cursor ptr;; on_charset dm_bit_set_all;; on_charset (fun bs => dm_bit_clear bs 10);;
         on_charset (fun bs => dm_bit_clear bs 13);; on_charset (fun bs => dm_bit_clear bs 0);; mret 1
       else if b =? 92 then
         match ptr with
         | [] => set_type (-1);; mret (-1)
         | e :: ptr =>
             set_type 0;; set_cursor ptr;; on_charset dm_bit_clear_all;;
             on_charset (fun bs => dm_bit_set bs (as_char (escaped e)));; mret 1
         end
       else single_char b ptr;; mret 1) ps
  end.

(** ** The parser *)

Definition cur_type : P Z := fun ps => RxRet (ps_type ps) ps.

(** [_term], for the [_or_term] that reads what is in parentheses. *)
Definition term (or_term : P (option rx_node)) : P (option rx_node) :=
  t ← cur_type;
  if t =? 0 then
    n ← new_node (CHARSET (dm_bitset_create 256) 0);
    match n with
    | Some (CHARSET bs i) =>
        ps ← rx_get;
        bs ← rx_opt (dm_bit_copy bs (ps_charset ps));
        _ ← rx_get_token; mret (Some (CHARSET bs i))
    | _ => mret None
    end
  else if t =? 40 then
    _ ← rx_get_token;
    n ← or_term;
    t ← cur_type;
    if negb (t =? 41) then mret None else
    _ ← rx_get_token; mret n
  else mret None.

(** The loop of [_closure_term]. *)
Fixpoint closure_loop (fuel : nat) (l : rx_node) : P (option rx_node) :=
  match fuel with
  | O => rx_fuel
  | S fuel =>
      t ← cur_type;
      let next n :=
        n ← new_node n;
        match n with None => mret None | Some n => _ ← rx_get_token; closure_loop fuel n end in
      if t =? 42 then next (STAR l)
      else if t =? 43 then next (PLUS l)
      else if t =? 63 then next (QUEST l)
      else mret (Some l)
  end.

Definition closure_term (fuel : nat) (or_term : P (option rx_node)) : P (option rx_node) :=
  l ← term or_term;
  match l with None => mret None | Some l => closure_loop fuel l end.

Fixpoint cat_term (fuel : nat) (or_term : P (option rx_node)) : P (option rx_node) :=
  match fuel with
  | O => rx_fuel
  | S fuel =>
      l ← closure_term fuel or_term;
      match l with
      | None => mret None
      | Some l =>
          t ← cur_type;
          if t =? 124 then mret (Some l) else
          r ← cat_term fuel or_term;
          match r with None => mret (Some l) | Some r => new_node (CAT l r) end
      end
  end.

Fixpoint or_term (fuel : nat) : P (option rx_node) :=
  match fuel with
  | O => rx_fuel
  | S fuel =>
      l ← cat_term fuel (or_term fuel);
      match l with
      | None => mret None
      | Some l =>
          t ← cur_type;
          if negb (t =? 124) then mret (Some l) else
          _ ← rx_get_token;
          r ← or_term fuel;
          match r with None => mret None | Some r => new_node (OR l r) end
      end
  end.

(** ** The optimiser *)

(** [LEFT] and [RIGHT] *)
Definition LEFT (leftmost : bool) (r : rx_node) : option rx_node := if leftmost then left_of r else right_of r.
Definition RIGHT (leftmost : bool) (r : rx_node) : option rx_node := if leftmost then right_of r else left_of r.

(** [_depth] *)
Fixpoint depth (leftmost : bool) (r : rx_node) : Z :=
  match r with
  | CAT l r => 1 + depth leftmost (if leftmost then l else r)
  | OR l _ => if leftmost then 1 + depth leftmost l else 1
  | STAR l | PLUS l | QUEST l => if leftmost then 1 + depth leftmost l else 1
  | CHARSET _ _ => 1
  end.

(** [_nodes_equal] *)
Fixpoint nodes_equal (l r : rx_node) : option bool :=
  match l, r with
  | CAT l1 l2, CAT r1 r2 | OR l1 l2, OR r1 r2 =>
      b ← nodes_equal l1 r1; if b : bool then nodes_equal l2 r2 else Some false
  | STAR l, STAR r | PLUS l, PLUS r | QUEST l, QUEST r => nodes_equal l r
  | CHARSET l _, CHARSET r _ => b ← dm_bit l TARGET_TRANS; if b : bool then Some false else dm_bitset_equal l r
  | _, _ => Some false
  end.

(** While the depth is above the other side's: the node that is reached and the
    number of steps down to it. *)
Fixpoint descend (leftmost : bool) (n : rx_node) (d other : Z) (steps : nat) : option (rx_node * Z * nat) :=
  if (other <? d) && negb (is_or n) then
    match n with
    | CAT l r | OR l r => descend leftmost (if leftmost then l else r) (d - 1) other (S steps)
    | STAR l | PLUS l | QUEST l => if leftmost then descend leftmost l (d - 1) other (S steps) else None
    | CHARSET _ _ => None
    end
  else Some (n, d, steps).

(** The loop over equal depths: the steps down to the common nodes. *)
Fixpoint common_loop (leftmost : bool) (left right : rx_node) (d : Z) (steps : nat) : option (option nat) :=
  if d =? 0 then Some None else
  b ← (match left, right with
       | CAT l1 l2, CAT r1 r2 => nodes_equal (if leftmost then l1 else l2) (if leftmost then r1 else r2)
       | _, _ => Some false
       end);
  if b : bool then Some (Some steps) else
  if is_or left || is_or right then Some None else
  match left with
  | CAT l r | OR l r =>
      if LEFT leftmost right is Some right' then common_loop leftmost (if leftmost then l else r) right' (d - 1) (S steps)
      else if d =? 1 then Some None else None
  | STAR l | PLUS l | QUEST l =>
      if leftmost then
        if LEFT leftmost right is Some right' then common_loop leftmost l right' (d - 1) (S steps)
        else if d =? 1 then Some None else None
      else if d =? 1 then Some None else None
  | CHARSET _ _ => if d =? 1 then Some None else None
  end.

(** [_find_leftmost_common]: the steps down to the two nodes. *)
Definition find_leftmost_common (leftmost : bool) (left right : rx_node) : option (option (nat * nat)) :=
  let left_depth := depth leftmost left in
  let right_depth := depth leftmost right in
  '(left, left_depth, i) ← descend leftmost left left_depth right_depth 0;
  '(right, right_depth, j) ← descend leftmost right right_depth left_depth 0;
  if negb (left_depth =? right_depth) then Some None else
  k ← common_loop leftmost left right left_depth 0;
  Some (match k with Some k => Some (i + k, j + k)%nat | None => None end).

(** [_rotate_ors] *)
Definition rotate_ors (leftmost : bool) (r : rx_node) : option rx_node :=
  match r with
  | OR l r =>
      if leftmost then if r is OR a b then Some (OR (OR l a) b) else None
      else if l is OR a b then Some (OR a (OR b r)) else None
  | _ => None
  end.

(** The node [n] steps down, and the node put in its place. *)
Fixpoint spine_at (leftmost : bool) (n : nat) (r : rx_node) : option rx_node :=
  match n with O => Some r | S n => l ← LEFT leftmost r; spine_at leftmost n l end.
Fixpoint spine_set (leftmost : bool) (n : nat) (x : rx_node) (r : rx_node) : option rx_node :=
  match n with
  | O => Some x
  | S n =>
      match r with
      | CAT a b => if leftmost then (fun a => CAT a b) <$> spine_set leftmost n x a else CAT a <$> spine_set leftmost n x b
      | OR a b => if leftmost then (fun a => OR a b) <$> spine_set leftmost n x a else OR a <$> spine_set leftmost n x b
      | STAR a => if leftmost then STAR <$> spine_set leftmost n x a else None
      | PLUS a => if leftmost then PLUS <$> spine_set leftmost n x a else None
      | QUEST a => if leftmost then QUEST <$> spine_set leftmost n x a else None
      | CHARSET _ _ => None
      end
  end.

(** [_exchange_nodes] of [OR l r], for the nodes [i] and [j] steps down. *)
Definition exchange_nodes (leftmost : bool) (l r : rx_node) (i j : nat) : RX (list bool) (option rx_node) :=
  left_cat ← rx_opt (spine_at leftmost i l); right_cat ← rx_opt (spine_at leftmost j r);
  x ← rx_opt (if leftmost then LEFT leftmost left_cat else LEFT leftmost right_cat);
  l' ← rx_opt (a ← RIGHT leftmost left_cat; spine_set leftmost i a l);
  r' ← rx_opt (a ← RIGHT leftmost right_cat; spine_set leftmost j a r);
  node (if leftmost then CAT x (OR l' r') else CAT (OR l' r') x).

(** One side of the search in [_pass] and what it does; [None]: nothing was found. *)
Definition improve (leftmost : bool) (l r : rx_node) : RX (list bool) (option (option rx_node)) :=
  c ← rx_opt (find_leftmost_common leftmost l r);
  match c with
  | None => mret None
  | Some (i, j) =>
      match rotate_ors leftmost (OR l r) with
      | Some r => mret (Some (Some r))
      | None => n ← exchange_nodes leftmost l r i j; mret (Some n)
      end
  end.

(** [_pass]: the node and whether anything changed. *)
Fixpoint pass (r : rx_node) (changed : bool) : RX (list bool) (option (rx_node * bool)) :=
  let one f l := l ← pass l changed; mret ((fun lc => (f lc.1, lc.2)) <$> l) in
  match r with
  | CAT l r =>
      l ← pass l changed;
      match l with
      | None => mret None
      | Some (l, changed) => r ← pass r changed; mret ((fun rc => (CAT l rc.1, rc.2)) <$> r)
      end
  | STAR l => one STAR l
  | PLUS l => one PLUS l
  | QUEST l => one QUEST l
  | OR l r =>
      l ← pass l changed;
      match l with
      | None => mret None
      | Some (l, changed) =>
          r ← pass r changed;
          match r with
          | None => mret None
          | Some (r, changed) =>
              a ← improve true l r;
              match a with
              | Some n => mret ((fun n => (n, true)) <$> n)
              | None =>
                  b ← improve false l r;
                  match b with
                  | Some n => mret ((fun n => (n, true)) <$> n)
                  | None => mret (Some (OR l r, changed))
                  end
              end
          end
      end
  | CHARSET _ _ => mret (Some (r, changed))
  end.

(** [_optimise] *)
Fixpoint optimise (fuel : nat) (r : rx_node) : RX (list bool) (option rx_node) :=
  match fuel with
  | O => rx_fuel
  | S fuel =>
      r ← pass r false;
      match r with
      | None => mret None
      | Some (r, changed) => if changed : bool then optimise fuel r else mret (Some r)
      end
  end.

(** The nodes of an expression. *)
Fixpoint rx_size (r : rx_node) : nat :=
  match r with
  | CAT l r | OR l r => S (rx_size l + rx_size r)
  | STAR l | PLUS l | QUEST l => S (rx_size l)
  | CHARSET _ _ => 1
  end.

(** [rx_parse_tok]; the recursion of the parser is bounded by [fuel], the passes of
    the optimiser by the number of nodes. *)
Definition rx_parse_tok (fuel : nat) (text : list Z) : RX (list bool) (option rx_node) := fun mem =>
  (ok ← rx_alloc;
   if negb ok then mret None else
   ok ← rx_alloc;
   if negb ok then mret None else
   fun mem =>
     match (_ ← rx_get_token; or_term fuel) (ParseSp mem 0 (dm_bitset_create 256) text) with
     | RxRet None ps => RxRet None (ps_mem ps)
     | RxRet (Some r) ps => optimise (S (rx_size r)) r (ps_mem ps)
     | RxWild => RxWild
     | RxFuel => RxFuel
     end) mem.

(** [rx_parse_str] *)
Definition rx_parse_str (fuel : nat) (str : list Z) : RX (list bool) (option rx_node) := rx_parse_tok fuel str.
