(* ===== verification/RegexLang.v ===== *)
(** * The words of a regular expression

    The language of an expression, and for every character set in it the words
    that lead up to it.  The position functions of the matcher (nullable, first,
    last and follow) are given on expressions, and it is shown that a set is
    reached by a word exactly when they say so. *)

From S2P Require Import Prelude Bitset Regex.

Definition word := list Z.
Definition language := word -> Prop.

(** ** Languages *)

Definition leq (L M : language) : Prop := forall w, L w <-> M w.

Declare Scope lang_scope.
Delimit Scope lang_scope with lang.
Local Open Scope lang_scope.
Infix "=l=" := leq (at level 70) : lang_scope.

#[export] Instance leq_equivalence : Equivalence leq.
Proof.
  split; [by intros L w|intros L M H w; by rewrite (H w)|].
  intros L M N H1 H2 w. by rewrite (H1 w), (H2 w).
Qed.

Definition lnil : language := fun w => w = [].
Definition lcat (L M : language) : language := fun w => exists u v, w = u ++ v /\ L u /\ M v.
Definition lalt (L M : language) : language := fun w => L w \/ M w.

Inductive lstar (L : language) : language :=
  | star_nil : lstar L []
  | star_app u v : L u -> lstar L v -> lstar L (u ++ v).

#[export] Instance lcat_proper : Proper (leq ==> leq ==> leq) lcat.
Proof. intros L L' HL M M' HM w. unfold lcat. split; intros (u & v & E & Hu & Hv); exists u, v; (split; [done|split; [by apply HL|by apply HM]]). Qed.

#[export] Instance lalt_proper : Proper (leq ==> leq ==> leq) lalt.
Proof. intros L L' HL M M' HM w. unfold lalt. by rewrite (HL w), (HM w). Qed.

Lemma lstar_mono L M : (forall w, L w -> M w) -> forall w, lstar L w -> lstar M w.
Proof. intros H w. induction 1 as [|u v Hu _ IH]; [constructor|]. constructor; [by apply H|done]. Qed.

#[export] Instance lstar_proper : Proper (leq ==> leq) lstar.
Proof. intros L M H w. split; apply lstar_mono; intros u; apply H. Qed.

Lemma lcat_assoc L M N : lcat (lcat L M) N =l= lcat L (lcat M N).
Proof.
  intros w. split.
  - intros (? & v & -> & (u1 & u2 & -> & H1 & H2) & Hv). exists u1, (u2 ++ v). rewrite app_assoc. split; [done|]. split; [done|]. by exists u2, v.
  - intros (u & ? & -> & Hu & v1 & v2 & -> & H1 & H2). exists (u ++ v1), v2. rewrite app_assoc. split; [done|]. split; [|done]. by exists u, v1.
Qed.

Lemma lcat_alt_r L M N : lcat L (lalt M N) =l= lalt (lcat L M) (lcat L N).
Proof. intros w. unfold lcat, lalt. naive_solver. Qed.

Lemma lcat_alt_l L M N : lcat (lalt L M) N =l= lalt (lcat L N) (lcat M N).
Proof. intros w. unfold lcat, lalt. naive_solver. Qed.

Lemma lalt_assoc L M N : lalt (lalt L M) N =l= lalt L (lalt M N).
Proof. intros w. unfold lalt. tauto. Qed.

Lemma lcat_nil_l L : lcat lnil L =l= L.
Proof. intros w. split; [by intros (u & v & -> & -> & H)|]. intros H. by exists [], w. Qed.

Lemma lcat_nil_word L M : lcat L M [] <-> L [] /\ M [].
Proof.
  split; [|intros [H1 H2]; by exists [], []]. intros (u & v & E & H1 & H2). symmetry in E. apply app_nil in E as [-> ->]. done.
Qed.

(** Words by their last letter. *)
Lemma lcat_snoc L M u a :
  lcat L M (u ++ [a]) <-> (exists u1 u2, u = u1 ++ u2 /\ L u1 /\ M (u2 ++ [a])) \/ (M [] /\ L (u ++ [a])).
Proof.
  split.
  - intros (x & y & E & Hx & Hy). destruct y as [|b y _] using rev_ind.
    + right. rewrite app_nil_r in E. by rewrite E.
    + left. rewrite app_assoc in E. apply app_inj_tail in E as [-> ->]. by exists x, y.
  - intros [(u1 & u2 & -> & H1 & H2)|[H1 H2]].
    + exists u1, (u2 ++ [a]). by rewrite app_assoc.
    + exists (u ++ [a]), []. by rewrite app_nil_r.
Qed.

Lemma lstar_one L w : L w -> lstar L w.
Proof. intros H. rewrite <- (app_nil_r w). constructor; [done|constructor]. Qed.

Lemma lstar_cat L u v : lstar L u -> lstar L v -> lstar L (u ++ v).
Proof. induction 1 as [|x y Hx _ IH]; intros Hv; [done|]. rewrite <- app_assoc. constructor; [done|by apply IH]. Qed.

Lemma lstar_snoc L u a : lstar L (u ++ [a]) <-> exists u1 u2, u = u1 ++ u2 /\ lstar L u1 /\ L (u2 ++ [a]).
Proof.
  split.
  - intros H. remember (u ++ [a]) as w eqn:E. revert u E. induction H as [|x y Hx Hy IH]; intros u E; [by destruct u|].
    destruct y as [|b y _] using rev_ind.
    + rewrite app_nil_r in E. subst x. exists [], u. split; [done|]. split; [constructor|done].
    + rewrite app_assoc in E. apply app_inj_tail in E as [<- ->]. destruct (IH y eq_refl) as (u1 & u2 & -> & H1 & H2).
      exists (x ++ u1), u2. rewrite app_assoc. split; [done|]. split; [by constructor|done].
  - intros (u1 & u2 & -> & H1 & H2). rewrite <- app_assoc. apply lstar_cat; [done|]. by apply lstar_one.
Qed.

(** ** The language of an expression *)

Definition letter (cs : list Z) (a : Z) : Prop := 0 <= a < 256 /\ bs_mem cs a = true.

Fixpoint lang (r : rx_node) : language :=
  match r with
  | CAT l r => lcat (lang l) (lang r)
  | OR l r => lalt (lang l) (lang r)
  | STAR l => lstar (lang l)
  | PLUS l => lcat (lang l) (lstar (lang l))
  | QUEST l => lalt lnil (lang l)
  | CHARSET cs _ => fun w => exists a, w = [a] /\ letter cs a
  end.

Lemma plus_snoc L u a : lcat L (lstar L) (u ++ [a]) <-> exists u1 u2, u = u1 ++ u2 /\ lstar L u1 /\ L (u2 ++ [a]).
Proof.
  rewrite lcat_snoc. split.
  - intros [(u1 & u2 & -> & H1 & (v1 & v2 & -> & H2 & H3)%lstar_snoc)|[_ H]].
    + exists (u1 ++ v1), v2. rewrite app_assoc. split; [done|]. split; [by constructor|done].
    + exists [], u. split; [done|]. split; [constructor|done].
  - intros (u1 & u2 & -> & H1 & H2). destruct H1 as [|x y Hx Hy].
    + right. split; [constructor|done].
    + left. exists x, (y ++ u2). rewrite app_assoc. split; [done|]. split; [done|]. apply lstar_snoc. by exists y, u2.
Qed.

(** ** Character sets and the words before them *)

(** The character sets from left to right. *)
Fixpoint leaves (r : rx_node) : list (list Z) :=
  match r with
  | CAT l r | OR l r => leaves l ++ leaves r
  | STAR l | PLUS l | QUEST l => leaves l
  | CHARSET cs _ => [cs]
  end.

Definition width (r : rx_node) : nat := length (leaves r).

(** The words that lead to set [p]. *)
Fixpoint pre (r : rx_node) (p : nat) : language :=
  match r with
  | CAT l r => if (p <? width l)%nat then pre l p else lcat (lang l) (pre r (p - width l))
  | OR l r => if (p <? width l)%nat then pre l p else pre r (p - width l)
  | STAR l | PLUS l => lcat (lstar (lang l)) (pre l p)
  | QUEST l => pre l p
  | CHARSET _ _ => fun w => p = 0%nat /\ w = []
  end.

(** ** Position functions *)

Fixpoint nullable (r : rx_node) : bool :=
  match r with
  | CAT l r => nullable l && nullable r
  | OR l r => nullable l || nullable r
  | PLUS l => nullable l
  | STAR _ | QUEST _ => true
  | CHARSET _ _ => false
  end.

Fixpoint firstpos (r : rx_node) (p : nat) : bool :=
  match r with
  | CAT l r => if (p <? width l)%nat then firstpos l p else nullable l && firstpos r (p - width l)
  | OR l r => if (p <? width l)%nat then firstpos l p else firstpos r (p - width l)
  | STAR l | PLUS l | QUEST l => firstpos l p
  | CHARSET _ _ => (p =? 0)%nat
  end.

Fixpoint lastpos (r : rx_node) (p : nat) : bool :=
  match r with
  | CAT l r => if (p <? width l)%nat then nullable r && lastpos l p else lastpos r (p - width l)
  | OR l r => if (p <? width l)%nat then lastpos l p else lastpos r (p - width l)
  | STAR l | PLUS l | QUEST l => lastpos l p
  | CHARSET _ _ => (p =? 0)%nat
  end.

Fixpoint followpos (r : rx_node) (p q : nat) : bool :=
  match r with
  | CAT l r =>
      if (p <? width l)%nat
      then if (q <? width l)%nat then followpos l p q else lastpos l p && firstpos r (q - width l)
      else if (q <? width l)%nat then false else followpos r (p - width l) (q - width l)
  | OR l r =>
      if (p <? width l)%nat then if (q <? width l)%nat then followpos l p q else false
      else if (q <? width l)%nat then false else followpos r (p - width l) (q - width l)
  | STAR l | PLUS l => followpos l p q || (lastpos l p && firstpos l q)
  | QUEST l => followpos l p q
  | CHARSET _ _ => false
  end.

(** Positions outside are in none of them. *)
Lemma firstpos_in r p : firstpos r p = true -> (p < width r)%nat.
Proof.
  revert p. unfold width. induction r as [l IHl r IHr|l IH|l IH|l IHl r IHr|l IH|cs i]; intros p; cbn [firstpos leaves]; try done; rewrite ?length_app.
  - destruct (Nat.ltb_spec p (width l)) as [Hlt|Hge]; [intros H%IHl; unfold width in *; lia|]. intros [_ H]%andb_true_iff. apply IHr in H. unfold width in *. lia.
  - by apply IH.
  - by apply IH.
  - destruct (Nat.ltb_spec p (width l)) as [Hlt|Hge]; [intros H%IHl; unfold width in *; lia|]. intros H%IHr. unfold width in *. lia.
  - by apply IH.
  - cbn. destruct (Nat.eqb_spec p 0); [lia|done].
Qed.

Lemma lastpos_in r p : lastpos r p = true -> (p < width r)%nat.
Proof.
  revert p. unfold width. induction r as [l IHl r IHr|l IH|l IH|l IHl r IHr|l IH|cs i]; intros p; cbn [lastpos leaves]; try done; rewrite ?length_app.
  - destruct (Nat.ltb_spec p (width l)) as [Hlt|Hge]; [intros [_ H%IHl]%andb_true_iff; unfold width in *; lia|]. intros H%IHr. unfold width in *. lia.
  - by apply IH.
  - by apply IH.
  - destruct (Nat.ltb_spec p (width l)) as [Hlt|Hge]; [intros H%IHl; unfold width in *; lia|]. intros H%IHr. unfold width in *. lia.
  - by apply IH.
  - cbn. destruct (Nat.eqb_spec p 0); [lia|done].
Qed.

(** ** Reaching a set *)

(** The word [u] leads to a set with property [Q] that has the letter [a]. *)
Definition ends (r : rx_node) (Q : nat -> bool) (u : word) (a : Z) : Prop :=
  exists q cs, leaves r !! q = Some cs /\ pre r q u /\ letter cs a /\ Q q = true.

Lemma or_iff (A A' B B' : Prop) : (A <-> A') -> (B <-> B') -> A \/ B <-> A' \/ B'.
Proof. tauto. Qed.

Lemma ends_ext r Q Q' u a : (forall q, (q < width r)%nat -> Q q = Q' q) -> ends r Q u a <-> ends r Q' u a.
Proof.
  intros H. split; intros (q & cs & Hq & Hp & Ha & HQ); exists q, cs; (do 3 (split; [done|])); [rewrite <- H|rewrite H]; try done;
    by eapply lookup_lt_Some.
Qed.

Lemma ends_or_bool r Q Q' u a : ends r (fun q => Q q || Q' q) u a <-> ends r Q u a \/ ends r Q' u a.
Proof.
  split.
  - intros (q & cs & Hq & Hp & Ha & HQ). apply orb_true_iff in HQ as [HQ|HQ]; [left|right]; by exists q, cs.
  - intros [(q & cs & Hq & Hp & Ha & HQ)|(q & cs & Hq & Hp & Ha & HQ)]; exists q, cs; (do 3 (split; [done|])); by rewrite HQ, ?orb_true_r.
Qed.

Lemma ends_and_bool r Q (b : bool) u a : ends r (fun q => Q q && b) u a <-> ends r Q u a /\ b = true.
Proof.
  split.
  - intros (q & cs & Hq & Hp & Ha & HQ). apply andb_true_iff in HQ as [HQ ->]. split; [|done]. by exists q, cs.
  - intros [(q & cs & Hq & Hp & Ha & HQ) ->]. exists q, cs. do 3 (split; [done|]). by rewrite HQ.
Qed.

Lemma ends_none r u a : ~ ends r (fun _ => false) u a.
Proof. by intros (q & cs & _ & _ & _ & H). Qed.

(** Sets of the left and of the right part. *)
Lemma ends_cat l r Q u a :
  ends (CAT l r) Q u a <-> ends l Q u a \/ exists u1 u2, u = u1 ++ u2 /\ lang l u1 /\ ends r (fun q => Q (width l + q)%nat) u2 a.
Proof.
  split.
  - intros (q & cs & Hq & Hp & Ha & HQ). cbn [leaves pre] in *. apply lookup_app_Some in Hq as [Hq|[Hge Hq]].
    + left. exists q, cs. rewrite (proj2 (Nat.ltb_lt _ _)) in Hp by by eapply lookup_lt_Some. done.
    + right. rewrite (proj2 (Nat.ltb_ge _ _)) in Hp by done. destruct Hp as (u1 & u2 & -> & H1 & H2). exists u1, u2. split; [done|]. split; [done|].
      exists (q - width l)%nat, cs. unfold width in *. do 3 (split; [done|]). by replace (length (leaves l) + (q - length (leaves l)))%nat with q by lia.
  - intros [(q & cs & Hq & Hp & Ha & HQ)|(u1 & u2 & -> & Hl & q & cs & Hq & Hp & Ha & HQ)].
    + exists q, cs. cbn [leaves pre]. split; [by apply lookup_app_l_Some|]. by rewrite (proj2 (Nat.ltb_lt _ _)) by by eapply lookup_lt_Some.
    + exists (width l + q)%nat, cs. cbn [leaves pre]. split; [unfold width; by rewrite lookup_app_r, Nat.add_sub_swap, Nat.sub_diag by lia|].
      rewrite (proj2 (Nat.ltb_ge _ _)) by lia. rewrite Nat.add_sub_swap, Nat.sub_diag by lia. split; [by exists u1, u2|]. done.
Qed.

Lemma ends_or l r Q u a : ends (OR l r) Q u a <-> ends l Q u a \/ ends r (fun q => Q (width l + q)%nat) u a.
Proof.
  split.
  - intros (q & cs & Hq & Hp & Ha & HQ). cbn [leaves pre] in *. apply lookup_app_Some in Hq as [Hq|[Hge Hq]].
    + left. exists q, cs. rewrite (proj2 (Nat.ltb_lt _ _)) in Hp by by eapply lookup_lt_Some. done.
    + right. rewrite (proj2 (Nat.ltb_ge _ _)) in Hp by done.
      exists (q - width l)%nat, cs. unfold width in *. do 3 (split; [done|]). by replace (length (leaves l) + (q - length (leaves l)))%nat with q by lia.
  - intros [(q & cs & Hq & Hp & Ha & HQ)|(q & cs & Hq & Hp & Ha & HQ)].
    + exists q, cs. cbn [leaves pre]. split; [by apply lookup_app_l_Some|]. by rewrite (proj2 (Nat.ltb_lt _ _)) by by eapply lookup_lt_Some.
    + exists (width l + q)%nat, cs. cbn [leaves pre]. split; [unfold width; by rewrite lookup_app_r, Nat.add_sub_swap, Nat.sub_diag by lia|].
      rewrite (proj2 (Nat.ltb_ge _ _)) by lia. by rewrite Nat.add_sub_swap, Nat.sub_diag by lia.
Qed.

(** Sets behind repetitions. *)
Definition again (l : rx_node) (Q : nat -> bool) (u : word) (a : Z) : Prop :=
  exists u1 u2, u = u1 ++ u2 /\ lstar (lang l) u1 /\ ends l Q u2 a.

Lemma ends_star r l Q u a : r = STAR l \/ r = PLUS l -> ends r Q u a <-> again l Q u a.
Proof.
  intros Hr. assert (leaves r = leaves l /\ forall q, pre r q = lcat (lstar (lang l)) (pre l q)) as [E1 E2] by by destruct Hr as [-> | ->].
  unfold ends, again. rewrite E1. split.
  - intros (q & cs & Hq & Hp & Ha & HQ). rewrite E2 in Hp. destruct Hp as (u1 & u2 & -> & H1 & H2). exists u1, u2. do 2 (split; [done|]). by exists q, cs.
  - intros (u1 & u2 & -> & H1 & q & cs & Hq & Hp & Ha & HQ). exists q, cs. rewrite E2. split; [done|]. split; [by exists u1, u2|done].
Qed.

(** *** The empty word *)

Lemma lang_nil r : lang r [] <-> nullable r = true.
Proof.
  induction r as [l IHl r IHr|l IH|l IH|l IHl r IHr|l IH|cs i]; cbn [lang nullable].
  - by rewrite lcat_nil_word, andb_true_iff, IHl, IHr.
  - split; [done|constructor].
  - rewrite lcat_nil_word, IH. split; [tauto|]. intros H. split; [done|constructor].
  - unfold lalt. by rewrite orb_true_iff, IHl, IHr.
  - split; [done|by left].
  - split; [by intros (a & H & _)|done].
Qed.

Lemma pre_nil r p : (p < width r)%nat -> pre r p [] <-> firstpos r p = true.
Proof.
  revert p. unfold width. induction r as [l IHl r IHr|l IH|l IH|l IHl r IHr|l IH|cs i]; intros p; cbn [pre firstpos leaves]; rewrite ?length_app; intros Hp.
  - destruct (Nat.ltb_spec p (width l)) as [Hlt|Hge]; [by apply IHl|]. rewrite lcat_nil_word, lang_nil, andb_true_iff, IHr by (unfold width in *; lia). done.
  - rewrite lcat_nil_word, IH by done. split; [tauto|]. intros H. split; [constructor|done].
  - rewrite lcat_nil_word, IH by done. split; [tauto|]. intros H. split; [constructor|done].
  - destruct (Nat.ltb_spec p (width l)) as [Hlt|Hge]; [by apply IHl|]. apply IHr. unfold width in *. lia.
  - by apply IH.
  - rewrite Nat.eqb_eq. tauto.
Qed.

(** *** The last letter *)

Lemma lang_snoc r u a : lang r (u ++ [a]) <-> ends r (lastpos r) u a.
Proof.
  revert u. induction r as [l IHl r IHr|l IH|l IH|l IHl r IHr|l IH|cs i]; intros u; cbn [lang].
  - rewrite lcat_snoc, ends_cat, lang_nil, IHl.
    rewrite (ends_ext l (lastpos (CAT l r)) (fun q => lastpos l q && nullable r)) by
      (intros q Hq; cbn [lastpos]; rewrite (proj2 (Nat.ltb_lt _ _)) by done; apply andb_comm).
    rewrite ends_and_bool, (Logic.and_comm (ends l _ _ _)). rewrite Logic.or_comm. apply or_iff_compat_l.
    split; intros (u1 & u2 & -> & H1 & H2); exists u1, u2; (do 2 (split; [done|])).
    + apply IHr in H2. revert H2. apply ends_ext. intros q Hq. cbn [lastpos]. rewrite (proj2 (Nat.ltb_ge _ _)) by lia. f_equal. lia.
    + apply IHr. revert H2. apply ends_ext. intros q Hq. cbn [lastpos]. rewrite (proj2 (Nat.ltb_ge _ _)) by lia. f_equal. lia.
  - rewrite lstar_snoc, (ends_star (STAR l) l) by by left. split; intros (u1 & u2 & -> & H1 & H2); exists u1, u2; (do 2 (split; [done|])); by apply IH.
  - rewrite plus_snoc, (ends_star (PLUS l) l) by by right. split; intros (u1 & u2 & -> & H1 & H2); exists u1, u2; (do 2 (split; [done|])); by apply IH.
  - unfold lalt. rewrite IHl, IHr, ends_or. apply or_iff.
    + apply ends_ext. intros q Hq. cbn [lastpos]. by rewrite (proj2 (Nat.ltb_lt _ _)) by done.
    + apply ends_ext. intros q Hq. cbn [lastpos]. rewrite (proj2 (Nat.ltb_ge _ _)) by lia. f_equal. lia.
  - unfold lalt, lnil. rewrite IH. split; [intros [E|H]; [by destruct u|done]|]. intros H. by right.
  - split.
    + intros (b & E & Hb). apply (app_inj_2 u []) in E as [-> [= ->]]; [|done]. exists 0%nat, cs. done.
    + intros (q & cs' & Hq & [-> ->] & Ha & _). injection Hq as ->. by exists a.
Qed.

Lemma pre_snoc_again r l p u a :
  r = STAR l \/ r = PLUS l -> (p < width l)%nat -> (forall u, pre l p (u ++ [a]) <-> ends l (fun q => followpos l q p) u a) ->
  lcat (lstar (lang l)) (pre l p) (u ++ [a]) <-> ends r (fun q => followpos r q p) u a.
Proof.
  intros Hr Hp IH. rewrite lcat_snoc, (ends_star r l) by done.
  assert (forall v, ends l (fun q => followpos r q p) v a <-> ends l (fun q => followpos l q p) v a \/ (ends l (lastpos l) v a /\ firstpos l p = true)) as E.
  { intros v. rewrite (ends_ext l _ (fun q => followpos l q p || (lastpos l q && firstpos l p))) by by destruct Hr as [-> | ->].
    by rewrite ends_or_bool, ends_and_bool. }
  split.
  - intros [(u1 & u2 & -> & H1 & H2)|[H1 H2]].
    + exists u1, u2. do 2 (split; [done|]). apply E. left. by apply IH.
    + apply lstar_snoc in H2 as (u1 & u2 & -> & H2 & H3). exists u1, u2. do 2 (split; [done|]). apply E. right.
      split; [by apply lang_snoc|by apply pre_nil].
  - intros (u1 & u2 & -> & H1 & [H2|[H2 H3]]%E).
    + left. exists u1, u2. do 2 (split; [done|]). by apply IH.
    + right. split; [by apply pre_nil|]. apply lstar_snoc. exists u1, u2. do 2 (split; [done|]). by apply lang_snoc.
Qed.

Lemma pre_snoc r p u a : (p < width r)%nat -> pre r p (u ++ [a]) <-> ends r (fun q => followpos r q p) u a.
Proof.
  revert p u. unfold width. induction r as [l IHl r IHr|l IH|l IH|l IHl r IHr|l IH|cs i]; intros p u; cbn [pre leaves]; rewrite ?length_app; intros Hp.
  - rewrite ends_cat. destruct (Nat.ltb_spec p (width l)) as [Hlt|Hge].
    + rewrite IHl by done. rewrite (ends_ext l (fun q => followpos (CAT l r) q p) (fun q => followpos l q p)) by
        (intros q Hq; cbn [followpos]; by rewrite !(proj2 (Nat.ltb_lt _ _)) by done).
      split; [by left|]. intros [H|(u1 & u2 & -> & _ & H)]; [done|]. exfalso. apply (ends_none r u2 a). revert H. apply ends_ext.
      intros q Hq. cbn [followpos]. rewrite (proj2 (Nat.ltb_ge (width l + q) _)), (proj2 (Nat.ltb_lt p _)) by lia. done.
    + rewrite lcat_snoc, Logic.or_comm. rewrite (ends_ext l (fun q => followpos (CAT l r) q p) (fun q => lastpos l q && firstpos r (p - width l))) by
        (intros q Hq; cbn [followpos]; by rewrite (proj2 (Nat.ltb_lt q _)), (proj2 (Nat.ltb_ge p _)) by done).
      rewrite ends_and_bool, lang_snoc, pre_nil by (unfold width in *; lia). rewrite (Logic.and_comm (ends l _ _ _)). apply or_iff_compat_l.
      split; intros (u1 & u2 & -> & H1 & H2); exists u1, u2; (do 2 (split; [done|])).
      * apply IHr in H2; [|unfold width in *; lia]. revert H2. apply ends_ext. intros q Hq. cbn [followpos].
        rewrite !(proj2 (Nat.ltb_ge _ _)) by lia. f_equal. lia.
      * apply IHr; [unfold width in *; lia|]. revert H2. apply ends_ext. intros q Hq. cbn [followpos].
        rewrite !(proj2 (Nat.ltb_ge _ _)) by lia. f_equal. lia.
  - apply pre_snoc_again; auto.
  - apply pre_snoc_again; auto.
  - rewrite ends_or. destruct (Nat.ltb_spec p (width l)) as [Hlt|Hge].
    + rewrite IHl by done. rewrite (ends_ext l (fun q => followpos (OR l r) q p) (fun q => followpos l q p)) by
        (intros q Hq; cbn [followpos]; by rewrite !(proj2 (Nat.ltb_lt _ _)) by done).
      split; [by left|]. intros [H|H]; [done|]. exfalso. apply (ends_none r u a). revert H. apply ends_ext.
      intros q Hq. cbn [followpos]. rewrite (proj2 (Nat.ltb_ge (width l + q) _)), (proj2 (Nat.ltb_lt p _)) by lia. done.
    + rewrite IHr by (unfold width in *; lia). rewrite (ends_ext r (fun q => followpos (OR l r) (width l + q) p) (fun q => followpos r q (p - width l))) by
        (intros q Hq; cbn [followpos]; rewrite !(proj2 (Nat.ltb_ge _ _)) by lia; f_equal; lia).
      split; [by right|]. intros [H|H]; [|done]. exfalso. apply (ends_none l u a). revert H. apply ends_ext.
      intros q Hq. cbn [followpos]. by rewrite (proj2 (Nat.ltb_lt q _)), (proj2 (Nat.ltb_ge p _)) by done.
  - by apply IH.
  - split; [by intros [_ E]; destruct u|]. intros (q & cs' & _ & _ & _ & H). done.
Qed.
