(* ===== verification/RegexOpt.v ===== *)
(** * The optimiser of regular expressions

    The passes of the optimiser come to an end: a common part that is lifted takes
    nodes away, and alternatives are never rotated.  What it does is right as long
    as it does not lift a part out of a repetition. *)

From S2P Require Import Prelude Bitset Regex RegexLang.
Local Open Scope lang_scope.

(** ** Expressions *)

(** Every character set is a bitset of 256 bits. *)
Fixpoint rx_wf (r : rx_node) : Prop :=
  match r with
  | CAT l r | OR l r => rx_wf l /\ rx_wf r
  | STAR l | PLUS l | QUEST l => rx_wf l
  | CHARSET cs _ => bs_wf 256 cs
  end.

(** The words that lead to the sets with the end marker, from left to right. *)
Fixpoint tpre (r : rx_node) : list language :=
  match r with
  | CAT l r => tpre l ++ map (lcat (lang l)) (tpre r)
  | OR l r => tpre l ++ tpre r
  | STAR l | PLUS l => map (lcat (lstar (lang l))) (tpre l)
  | QUEST l => tpre l
  | CHARSET cs _ => if bs_mem cs TARGET_TRANS then [lnil] else []
  end.

(** Expressions with the same words that lead to the same end markers. *)
Definition rx_equiv (r r' : rx_node) : Prop := lang r =l= lang r' /\ Forall2 leq (tpre r) (tpre r').

Lemma leqs_refl (Ls : list language) : Forall2 leq Ls Ls.
Proof. induction Ls; by constructor. Qed.

#[export] Instance rx_equiv_equivalence : Equivalence rx_equiv.
Proof.
  split.
  - intros r. split; [done|apply leqs_refl].
  - intros r r' [H1 H2]. split; [by symmetry|]. by symmetry.
  - intros r1 r2 r3 [H1 H2] [H3 H4]. split; [by rewrite H1|]. by transitivity (tpre r2).
Qed.

Lemma leqs_map (f g : language -> language) Ls Ms :
  (forall L M, L =l= M -> f L =l= g M) -> Forall2 leq Ls Ms -> Forall2 leq (map f Ls) (map g Ms).
Proof. intros H HL. apply Forall2_fmap. eapply Forall2_impl; [exact HL|]. intros L M E. by apply H. Qed.

Lemma equiv_cat l l' r r' : rx_equiv l l' -> rx_equiv r r' -> rx_equiv (CAT l r) (CAT l' r').
Proof.
  intros [H1 H2] [H3 H4]. split; [cbn; by rewrite H1, H3|]. cbn. apply Forall2_app; [done|]. apply leqs_map; [|done]. intros L M E. by rewrite H1, E.
Qed.

Lemma equiv_or l l' r r' : rx_equiv l l' -> rx_equiv r r' -> rx_equiv (OR l r) (OR l' r').
Proof. intros [H1 H2] [H3 H4]. split; [cbn; by rewrite H1, H3|]. cbn. by apply Forall2_app. Qed.

Lemma equiv_star l l' : rx_equiv l l' -> rx_equiv (STAR l) (STAR l').
Proof. intros [H1 H2]. split; [cbn; by rewrite H1|]. cbn. apply leqs_map; [|done]. intros L M E. by rewrite H1, E. Qed.

Lemma equiv_plus l l' : rx_equiv l l' -> rx_equiv (PLUS l) (PLUS l').
Proof. intros [H1 H2]. split; [cbn; by rewrite H1|]. cbn. apply leqs_map; [|done]. intros L M E. by rewrite H1, E. Qed.

Lemma equiv_quest l l' : rx_equiv l l' -> rx_equiv (QUEST l) (QUEST l').
Proof. intros [H1 H2]. split; [cbn; by rewrite H1|done]. Qed.

(** ** Equal nodes *)

Lemma nodes_equal_spec l r :
  rx_wf l -> rx_wf r -> exists b, nodes_equal l r = Some b /\ (b = true -> lang l =l= lang r /\ tpre l = [] /\ tpre r = []).
Proof.
  revert r. induction l as [l1 IH1 l2 IH2|l IH|l IH|l1 IH1 l2 IH2|l IH|cs i]; intros [r1 r2|r1|r1|r1 r2|r1|cs' i'] Hl Hr; cbn [nodes_equal];
    try (eexists; split; [reflexivity|done]).
  - destruct Hl as [Hl1 Hl2], Hr as [Hr1 Hr2]. destruct (IH1 r1 Hl1 Hr1) as (b & -> & Hb). cbn. destruct b; [|by eexists].
    destruct (IH2 r2 Hl2 Hr2) as (b & -> & Hb'). eexists. split; [done|]. intros ->. destruct (Hb eq_refl) as (E1 & E2 & E3), (Hb' eq_refl) as (E4 & E5 & E6).
    cbn [lang tpre]. rewrite E2, E3, E5, E6. split; [by rewrite E1, E4|done].
  - destruct (IH r1 Hl Hr) as (b & -> & Hb). eexists. split; [done|]. intros ->. destruct (Hb eq_refl) as (E1 & E2 & E3). cbn [lang tpre]. rewrite E2, E3. split; [by rewrite E1|done].
  - destruct (IH r1 Hl Hr) as (b & -> & Hb). eexists. split; [done|]. intros ->. destruct (Hb eq_refl) as (E1 & E2 & E3). cbn [lang tpre]. rewrite E2, E3. split; [by rewrite E1|done].
  - destruct Hl as [Hl1 Hl2], Hr as [Hr1 Hr2]. destruct (IH1 r1 Hl1 Hr1) as (b & -> & Hb). cbn. destruct b; [|by eexists].
    destruct (IH2 r2 Hl2 Hr2) as (b & -> & Hb'). eexists. split; [done|]. intros ->. destruct (Hb eq_refl) as (E1 & E2 & E3), (Hb' eq_refl) as (E4 & E5 & E6).
    cbn [lang tpre]. rewrite E2, E3, E5, E6. split; [by rewrite E1, E4|done].
  - destruct (IH r1 Hl Hr) as (b & -> & Hb). eexists. split; [done|]. intros ->. destruct (Hb eq_refl) as (E1 & E2 & E3). cbn [lang tpre]. rewrite E2, E3. split; [by rewrite E1|done].
  - cbn in Hl, Hr. rewrite (dm_bit_spec 256) by (done || (unfold bs_cap, TARGET_TRANS; lia)). cbn. destruct (bs_mem cs TARGET_TRANS) eqn:E; [by eexists|].
    rewrite (dm_bitset_equal_spec 256) by done. eexists. split; [done|]. intros ->%bool_decide_eq_true. cbn [lang tpre]. by rewrite E.
Qed.

(** ** The way down *)

(** From a node [n] steps down to another, not through an alternative. *)
Inductive path (leftmost : bool) : nat -> rx_node -> rx_node -> Prop :=
  | path_here r : path leftmost 0 r r
  | path_down n r l c : is_or r = false -> LEFT leftmost r = Some l -> path leftmost n l c -> path leftmost (S n) r c.

Lemma path_snoc leftmost n r c d : path leftmost n r c -> is_or c = false -> LEFT leftmost c = Some d -> path leftmost (S n) r d.
Proof.
  induction 1 as [r|n r l c Ho Hl Hp IH]; intros Hc Hd.
  - by eapply path_down; [| |constructor].
  - eapply path_down; [done|done|]. by apply IH.
Qed.

Lemma depth_pos leftmost r : 1 <= depth leftmost r.
Proof. induction r as [l IHl r IHr|l IH|l IH|l IHl r IHr|l IH|cs i]; cbn [depth]; destruct leftmost; lia. Qed.

Lemma depth_left leftmost r l : is_or r = false -> LEFT leftmost r = Some l -> depth leftmost r = 1 + depth leftmost l.
Proof. intros Ho Hl. destruct leftmost, r; cbn in *; simplify_eq; done. Qed.

Lemma depth_one leftmost r : is_or r = false -> LEFT leftmost r = None -> depth leftmost r = 1.
Proof. intros Ho Hl. by destruct leftmost, r. Qed.

Lemma rx_wf_left leftmost r l : rx_wf r -> LEFT leftmost r = Some l -> rx_wf l.
Proof. destruct leftmost, r; cbn; intros H E; simplify_eq; tauto. Qed.

Lemma rx_wf_right leftmost r l : rx_wf r -> RIGHT leftmost r = Some l -> rx_wf l.
Proof. destruct leftmost, r; cbn; intros H E; simplify_eq; tauto. Qed.

(** The loops in terms of [LEFT]. *)
Lemma descend_eq leftmost n d other steps :
  descend leftmost n d other steps =
  if (other <? d) && negb (is_or n) then
    match LEFT leftmost n with Some l => descend leftmost l (d - 1) other (S steps) | None => None end
  else Some (n, d, steps).
Proof. destruct n, leftmost; cbn [descend is_or negb]; rewrite ?andb_false_r; reflexivity. Qed.

Lemma common_loop_eq leftmost left right d steps :
  common_loop leftmost left right d steps =
  if d =? 0 then Some None else
  b ← (match left, right with
       | CAT l1 l2, CAT r1 r2 => nodes_equal (if leftmost then l1 else l2) (if leftmost then r1 else r2)
       | _, _ => Some false
       end);
  if b : bool then Some (Some steps) else
  if is_or left || is_or right then Some None else
  match LEFT leftmost left, LEFT leftmost right with
  | Some l, Some r => common_loop leftmost l r (d - 1) (S steps)
  | _, _ => if d =? 1 then Some None else None
  end.
Proof.
  destruct left; cbn [common_loop]; destruct (d =? 0); try done; destruct right; cbn [mbind option_bind]; try done; destruct leftmost; try done;
    destruct (nodes_equal _ _) as [[]|]; done.
Qed.

Lemma descend_spec leftmost other : 1 <= other -> forall d n top steps,
  d = depth leftmost n -> path leftmost steps top n ->
  exists n' d' steps', descend leftmost n d other steps = Some (n', d', steps') /\ d' = depth leftmost n' /\ path leftmost steps' top n'.
Proof.
  intros Ho d. induction (Z.lt_wf 0 d) as [d _ IH]. intros n top steps Hd Hp. rewrite descend_eq. destruct ((other <? d) && negb (is_or n)) eqn:E.
  - apply andb_true_iff in E as [?%Z.ltb_lt ?%negb_true_iff]. destruct (LEFT leftmost n) as [l|] eqn:El.
    + pose proof (depth_left leftmost n l ltac:(done) El). pose proof (depth_pos leftmost l). apply (IH (d - 1)); [lia|lia|]. by eapply path_snoc.
    + rewrite (depth_one leftmost n) in Hd by done. lia.
  - by exists n, d, steps.
Qed.

Lemma common_loop_spec leftmost : forall d left right topl topr steps i j,
  rx_wf left -> rx_wf right -> d = depth leftmost left -> d = depth leftmost right ->
  path leftmost (i + steps) topl left -> path leftmost (j + steps) topr right ->
  exists o, common_loop leftmost left right d steps = Some o /\
    forall k, o = Some k -> exists a b a' b' x y, path leftmost (i + k) topl (CAT a b) /\ path leftmost (j + k) topr (CAT a' b') /\
      LEFT leftmost (CAT a b) = Some x /\ LEFT leftmost (CAT a' b') = Some y /\ lang x =l= lang y /\ tpre x = [] /\ tpre y = [].
Proof.
  intros d. induction (Z.lt_wf 0 d) as [d _ IH]. intros left right topl topr steps i j Hwl Hwr Hl Hr Hpl Hpr. rewrite common_loop_eq.
  pose proof (depth_pos leftmost left). rewrite (proj2 (Z.eqb_neq d 0)) by lia.
  assert (exists b : bool, (match left, right with
       | CAT l1 l2, CAT r1 r2 => nodes_equal (if leftmost then l1 else l2) (if leftmost then r1 else r2)
       | _, _ => Some false
       end) = Some b /\ (b = true -> exists a b a' b' x y, left = CAT a b /\ right = CAT a' b' /\ LEFT leftmost left = Some x /\ LEFT leftmost right = Some y /\
         lang x =l= lang y /\ tpre x = [] /\ tpre y = [])) as (b & -> & Hb).
  { destruct left as [l1 l2| | | | |]; try (exists false; split; done). destruct right as [r1 r2| | | | |]; try (exists false; split; done).
    destruct (nodes_equal_spec (if leftmost then l1 else l2) (if leftmost then r1 else r2)) as (b & -> & Hb); [destruct leftmost; apply Hwl|destruct leftmost; apply Hwr|].
    exists b. split; [done|]. intros ->. specialize (Hb eq_refl). exists l1, l2, r1, r2. destruct leftmost; cbn; eauto 10. }
  cbn [mbind option_bind]. destruct b.
  { eexists. split; [done|]. intros k [= <-]. destruct (Hb eq_refl) as (a & b & a' & b' & x & y & -> & -> & Hx & Hy & H1 & H2 & H3). by exists a, b, a', b', x, y. }
  destruct (is_or left || is_or right) eqn:Eo; [by eexists|]. apply orb_false_iff in Eo as [Eo1 Eo2].
  destruct (LEFT leftmost left) as [l|] eqn:El.
  - pose proof (depth_left leftmost left l Eo1 El). pose proof (depth_pos leftmost l). destruct (LEFT leftmost right) as [r|] eqn:Er.
    + pose proof (depth_left leftmost right r Eo2 Er). destruct (IH (d - 1) ltac:(lia) l r topl topr (S steps) i j) as (o & Ho & Hk);
        [by apply (rx_wf_left leftmost left)|by apply (rx_wf_left leftmost right)|lia|lia|rewrite Nat.add_succ_r; by eapply path_snoc|rewrite Nat.add_succ_r; by eapply path_snoc|].
      by exists o.
    + rewrite (depth_one leftmost right) in Hr by done. lia.
  - rewrite (depth_one leftmost left) in Hl by done. subst d. by eexists.
Qed.

Lemma find_spec leftmost l r :
  rx_wf l -> rx_wf r ->
  exists o, find_leftmost_common leftmost l r = Some o /\
    forall i j, o = Some (i, j) -> exists a b a' b' x y, path leftmost i l (CAT a b) /\ path leftmost j r (CAT a' b') /\
      LEFT leftmost (CAT a b) = Some x /\ LEFT leftmost (CAT a' b') = Some y /\ lang x =l= lang y /\ tpre x = [] /\ tpre y = [].
Proof.
  intros Hl Hr. unfold find_leftmost_common. pose proof (depth_pos leftmost l). pose proof (depth_pos leftmost r).
  destruct (descend_spec leftmost (depth leftmost r) ltac:(done) (depth leftmost l) l l 0 eq_refl (path_here _ _)) as (l' & d & i & -> & Hd & Hpl).
  cbn [mbind option_bind]. pose proof (depth_pos leftmost l').
  destruct (descend_spec leftmost d ltac:(lia) (depth leftmost r) r r 0 eq_refl (path_here _ _)) as (r' & d' & j & -> & Hd' & Hpr).
  cbn [mbind option_bind]. destruct (Z.eqb_spec d d') as [Ed|]; [|by eexists]. cbn [negb].
  assert (forall n t u, rx_wf t -> path leftmost n t u -> rx_wf u) as Hwf.
  { intros n t u Ht Hp. induction Hp as [|n t l0 u _ El _ IH]; [done|]. apply IH. by apply (rx_wf_left leftmost t). }
  destruct (common_loop_spec leftmost d l' r' l r 0 i j) as (o & -> & Ho); try done; try (by rewrite Nat.add_0_r); [by apply (Hwf i l)|by apply (Hwf j r)|congruence|].
  cbn [mbind option_bind]. eexists. split; [done|]. intros i' j' E. destruct o as [k|]; [|done]. injection E as <- <-. by apply Ho.
Qed.

(** A node that is replaced by its right part. *)
Lemma spine_spec leftmost n r a b x y :
  path leftmost n r (CAT a b) -> rx_wf r -> LEFT leftmost (CAT a b) = Some x -> RIGHT leftmost (CAT a b) = Some y ->
  spine_at leftmost n r = Some (CAT a b) /\ rx_wf x /\
  exists r', spine_set leftmost n y r = Some r' /\ rx_wf r' /\ (rx_size r' + rx_size x + 1 = rx_size r)%nat.
Proof.
  intros Hp Hwf Hx Hy. revert Hwf. remember (CAT a b) as c eqn:Ec. induction Hp as [r|n r l c Ho Hl Hp IH]; intros Hwf.
  - split; [done|]. split; [by apply (rx_wf_left leftmost r)|]. exists y. split; [done|]. split; [by apply (rx_wf_right leftmost r)|].
    subst r. destruct leftmost; cbn in Hx, Hy; simplify_eq; cbn; lia.
  - cbn [spine_at]. rewrite Hl. cbn [mbind option_bind]. destruct (IH Ec Hx Hy (rx_wf_left _ _ _ Hwf Hl)) as (H1 & H2 & r' & H3 & H4 & H5). split; [done|]. split; [done|].
    destruct r, leftmost; cbn in Hl, Ho; try done; injection Hl as <-; cbn [spine_set]; rewrite H3; (eexists; split; [reflexivity|]); cbn [rx_wf rx_size] in *; (split; [tauto|lia]).
Qed.

Lemma path_not_or leftmost n r a b : path leftmost n r (CAT a b) -> is_or r = false.
Proof. intros Hp. remember (CAT a b) as c. destruct Hp as [r|]; by subst. Qed.

(** ** Expressions the optimiser handles well *)

Fixpoint no_cat (r : rx_node) : bool :=
  match r with
  | CAT _ _ => false
  | OR l r => no_cat l && no_cat r
  | STAR l | PLUS l | QUEST l => no_cat l
  | CHARSET _ _ => true
  end.

(** What is repeated is a choice of single characters. *)
Fixpoint flat (r : rx_node) : bool :=
  match r with
  | CAT l r | OR l r => flat l && flat r
  | STAR l | PLUS l | QUEST l => no_cat l
  | CHARSET _ _ => true
  end.

(** Within alternatives this is so. *)
Fixpoint opt_ok (r : rx_node) : bool :=
  match r with
  | CAT l r => opt_ok l && opt_ok r
  | OR l r => flat l && flat r
  | STAR l | PLUS l | QUEST l => opt_ok l
  | CHARSET _ _ => true
  end.

Lemma no_cat_flat r : no_cat r = true -> flat r = true.
Proof. induction r as [l IHl r IHr|l IH|l IH|l IHl r IHr|l IH|cs i]; cbn; rewrite ?andb_true_iff; naive_solver. Qed.

Lemma flat_opt_ok r : flat r = true -> opt_ok r = true.
Proof.
  induction r as [l IHl r IHr|l IH|l IH|l IHl r IHr|l IH|cs i]; cbn; rewrite ?andb_true_iff; intros H; try tauto; apply IH, no_cat_flat, H.
Qed.

Lemma no_cat_path leftmost n r a b : no_cat r = true -> ~ path leftmost n r (CAT a b).
Proof.
  intros Hn Hp. remember (CAT a b) as c eqn:Ec. induction Hp as [r|n r l c Ho Hl Hp IH]; [by subst|]. apply IH; [|done].
  destruct r, leftmost; cbn in *; simplify_eq; done.
Qed.

(** A common part at the front. *)
Lemma lift_front n r a b : path true n r (CAT a b) -> flat r = true -> tpre a = [] ->
  exists r', spine_set true n b r = Some r' /\ flat r' = true /\ flat a = true /\ lang r =l= lcat (lang a) (lang r') /\
    Forall2 leq (tpre r) (map (lcat (lang a)) (tpre r')).
Proof.
  intros Hp Hf Ha. remember (CAT a b) as c eqn:Ec. revert Hf. induction Hp as [r|n r l c Ho Hl Hp IH]; intros Hf.
  - subst r. exists b. cbn [flat] in Hf. apply andb_true_iff in Hf as [Hf1 Hf2]. do 4 (split; [done|]). cbn. rewrite Ha. apply leqs_refl.
  - destruct r as [r1 r2|r1|r1|r1 r2|r1|cs i]; cbn in Hl; try done; injection Hl as ->;
      try (cbn [flat] in Hf; subst c; by apply (no_cat_path true n l a b) in Hf).
    cbn [flat] in Hf. apply andb_true_iff in Hf as [Hf1 Hf2]. destruct (IH Ec Hf1) as (l' & E1 & E2 & E3 & E4 & E5). cbn [spine_set]. rewrite E1.
    eexists. split; [reflexivity|]. cbn [flat lang tpre]. rewrite E2, Hf2. split; [done|]. split; [done|]. split; [by rewrite E4, lcat_assoc|].
    rewrite map_app. apply Forall2_app; [done|]. rewrite map_map. apply leqs_map; [|apply leqs_refl]. intros L M E. by rewrite E4, E, lcat_assoc.
Qed.

(** A common part at the back. *)
Lemma lift_back n r a b : path false n r (CAT a b) -> flat r = true -> tpre b = [] ->
  exists r', spine_set false n a r = Some r' /\ flat r' = true /\ flat b = true /\ lang r =l= lcat (lang r') (lang b) /\
    Forall2 leq (tpre r) (tpre r').
Proof.
  intros Hp Hf Hb. remember (CAT a b) as c eqn:Ec. revert Hf. induction Hp as [r|n r l c Ho Hl Hp IH]; intros Hf.
  - subst r. exists a. cbn [flat] in Hf. apply andb_true_iff in Hf as [Hf1 Hf2]. do 4 (split; [done|]). cbn. rewrite Hb. cbn. rewrite app_nil_r. apply leqs_refl.
  - destruct r as [r1 r2|r1|r1|r1 r2|r1|cs i]; cbn in Hl; try done; injection Hl as ->.
    cbn [flat] in Hf. apply andb_true_iff in Hf as [Hf1 Hf2]. destruct (IH Ec Hf2) as (l' & E1 & E2 & E3 & E4 & E5). cbn [spine_set]. rewrite E1.
    eexists. split; [reflexivity|]. cbn [flat lang tpre]. rewrite E2, Hf1. split; [done|]. split; [done|]. split; [by rewrite E4, lcat_assoc|].
    apply Forall2_app; [apply leqs_refl|]. apply leqs_map; [|done]. intros L M E. by rewrite E.
Qed.

(** ** Passes *)

Lemma rx_exec {S A B} (m : RX S A) (k : A -> RX S B) s a s' : m s = RxRet a s' -> (m ≫= k) s = k a s'.
Proof. intros H. unfold mbind, RX_bind. by rewrite H. Qed.

Lemma rx_alloc_ok mem : false ∉ mem -> rx_alloc mem = RxRet true (tail mem) /\ false ∉ tail mem.
Proof.
  intros H. unfold rx_alloc. destruct mem as [|[] mem]; cbn; [done| |set_solver]. split; [done|]. set_solver.
Qed.

Lemma node_ok n mem : false ∉ mem -> exists mem', node n mem = RxRet (Some n) mem' /\ false ∉ mem'.
Proof.
  intros H. destruct (rx_alloc_ok mem H) as [E H']. destruct (rx_alloc_ok (tail mem) H') as [E' H'']. unfold node. rewrite (rx_exec _ _ _ _ _ E). cbn [negb].
  destruct n; [by eexists..|]. rewrite (rx_exec _ _ _ _ _ E'). by eexists.
Qed.

(** What an alternative became. *)
Record improved (l r n : rx_node) : Prop := {
  ip_wf : rx_wf n;
  ip_size : (rx_size n < rx_size (OR l r))%nat;
  ip_cat : no_cat l && no_cat r = false;
  ip_flat : flat l = true -> flat r = true -> flat n = true /\ rx_equiv n (OR l r) }.

Lemma exchange_spec leftmost l r i j a b a' b' x y mem :
  rx_wf l -> rx_wf r -> path leftmost i l (CAT a b) -> path leftmost j r (CAT a' b') ->
  LEFT leftmost (CAT a b) = Some x -> LEFT leftmost (CAT a' b') = Some y -> lang x =l= lang y -> tpre x = [] -> tpre y = [] -> false ∉ mem ->
  exists n mem', exchange_nodes leftmost l r i j mem = RxRet (Some n) mem' /\ false ∉ mem' /\ improved l r n.
Proof.
  intros Hl Hr Hp Hp' Hx Hy E Ex Ey Hmem.
  assert (exists u, RIGHT leftmost (CAT a b) = Some u) as [u Hu] by (destruct leftmost; by eexists).
  assert (exists v, RIGHT leftmost (CAT a' b') = Some v) as [v Hv] by (destruct leftmost; by eexists).
  destruct (spine_spec leftmost i l a b x u Hp Hl Hx Hu) as (S1 & W1 & l' & S2 & W2 & Z1).
  destruct (spine_spec leftmost j r a' b' y v Hp' Hr Hy Hv) as (S3 & W3 & r' & S4 & W4 & Z2).
  unfold exchange_nodes. rewrite S1, S3. cbn [rx_opt]. rewrite !(rx_exec (mret _) _ _ _ _ eq_refl). rewrite Hx, Hy, Hu, Hv. cbn [mbind option_bind]. rewrite S2, S4.
  assert (no_cat l && no_cat r = false) as Hn.
  { apply not_true_iff_false. intros [Hn _]%andb_true_iff. by apply (no_cat_path leftmost i l a b Hn). }
  destruct leftmost; cbn [rx_opt]; rewrite !(rx_exec (mret _) _ _ _ _ eq_refl);
    (match goal with |- context [node ?n _] => destruct (node_ok n mem Hmem) as (mem' & -> & Hmem') end; eexists _, mem'; split; [reflexivity|]; split; [done|]).
  - split; [cbn; tauto|cbn; lia|done|]. cbn in Hx, Hy, Hu, Hv. simplify_eq. intros Hfl Hfr.
    destruct (lift_front i l x u Hp Hfl Ex) as (l1 & A1 & A2 & A3 & A4 & A5). destruct (lift_front j r y v Hp' Hfr Ey) as (r1 & B1 & B2 & B3 & B4 & B5).
    assert (l1 = l') as -> by congruence. assert (r1 = r') as -> by congruence.
    split; [cbn; by rewrite A2, A3, B2|]. split; [cbn; by rewrite lcat_alt_r, A4, B4, E|]. cbn. rewrite Ex, map_app. cbn [app]. apply Forall2_app; [by symmetry|].
    transitivity (map (lcat (lang y)) (tpre r')); [|by symmetry]. apply leqs_map; [|apply leqs_refl]. intros L M EL. by rewrite E, EL.
  - split; [cbn; tauto|cbn; lia|done|]. cbn in Hx, Hy, Hu, Hv. simplify_eq. intros Hfl Hfr.
    destruct (lift_back i l u x Hp Hfl Ex) as (l1 & A1 & A2 & A3 & A4 & A5). destruct (lift_back j r v y Hp' Hfr Ey) as (r1 & B1 & B2 & B3 & B4 & B5).
    assert (l1 = l') as -> by congruence. assert (r1 = r') as -> by congruence.
    split; [cbn; by rewrite A2, B2, B3|]. split; [cbn; by rewrite lcat_alt_l, A4, B4, E|]. cbn. rewrite Ey. cbn [map]. rewrite app_nil_r. apply Forall2_app; by symmetry.
Qed.

(** Nothing is ever rotated: the nodes that are found are not below another
    alternative. *)
Lemma improve_spec leftmost l r mem :
  rx_wf l -> rx_wf r -> false ∉ mem ->
  exists o mem', improve leftmost l r mem = RxRet o mem' /\ false ∉ mem' /\ (o = None \/ exists n, o = Some (Some n) /\ improved l r n).
Proof.
  intros Hl Hr Hmem. unfold improve. destruct (find_spec leftmost l r Hl Hr) as (o & -> & Ho). cbn [rx_opt]. rewrite (rx_exec (mret _) _ _ _ _ eq_refl).
  destruct o as [[i j]|]; [|eexists _, mem; split; [reflexivity|]; split; [done|by left]].
  destruct (Ho i j eq_refl) as (a & b & a' & b' & x & y & Hp & Hp' & Hx & Hy & E & Ex & Ey).
  assert (rotate_ors leftmost (OR l r) = None) as ->.
  { apply path_not_or in Hp, Hp'. destruct leftmost; cbn; [by destruct r|by destruct l]. }
  destruct (exchange_spec leftmost l r i j a b a' b' x y mem Hl Hr Hp Hp' Hx Hy E Ex Ey Hmem) as (n & mem' & E' & Hmem' & Hn).
  rewrite (rx_exec _ _ _ _ _ E'). eexists _, mem'. split; [reflexivity|]. split; [done|]. right. by exists n.
Qed.

(** What a pass does to a node. *)
Record passed (r r' : rx_node) (changed changed' : bool) : Prop := {
  pa_wf : rx_wf r';
  pa_size : (changed' = changed /\ rx_size r' = rx_size r) \/ (changed' = true /\ (rx_size r' < rx_size r)%nat);
  pa_no_cat : no_cat r = true -> r' = r;
  pa_flat : flat r = true -> flat r' = true;
  pa_ok : opt_ok r = true -> opt_ok r' = true /\ rx_equiv r' r }.

Lemma passed_two (f : rx_node -> rx_node -> rx_node) l r l' r' c0 c1 c2 :
  (f = CAT \/ f = OR) -> passed l l' c0 c1 -> passed r r' c1 c2 -> passed (f l r) (f l' r') c0 c2.
Proof.
  intros Hf [L1 L2 L3 L4 L5] [R1 R2 R3 R4 R5]. split.
  - destruct Hf as [-> | ->]; cbn; tauto.
  - destruct L2 as [[-> ?]|[-> ?]], R2 as [[-> ?]|[-> ?]]; destruct Hf as [-> | ->]; cbn; [left|left|right|right|right|right|right|right]; (split; [done|lia]).
  - intros H. destruct Hf as [-> | ->]; [done|]. cbn in H. apply andb_true_iff in H as [H1 H2]. by rewrite L3, R3.
  - intros H. assert (flat l = true /\ flat r = true) as [H1 H2] by (destruct Hf as [-> | ->]; cbn in H; by apply andb_true_iff in H).
    destruct Hf as [-> | ->]; cbn; by rewrite L4, R4.
  - intros H. destruct Hf as [-> | ->]; cbn in H; apply andb_true_iff in H as [H1 H2].
    + destruct (L5 H1) as [A1 A2], (R5 H2) as [B1 B2]. split; [cbn; by rewrite A1, B1|]. by apply equiv_cat.
    + destruct (L5 (flat_opt_ok _ H1)) as [A1 A2], (R5 (flat_opt_ok _ H2)) as [B1 B2]. split; [cbn; by rewrite L4, R4|]. by apply equiv_or.
Qed.

Lemma passed_one (f : rx_node -> rx_node) l l' c0 c1 :
  (f = STAR \/ f = PLUS \/ f = QUEST) -> passed l l' c0 c1 -> passed (f l) (f l') c0 c1.
Proof.
  intros Hf [L1 L2 L3 L4 L5]. split.
  - by destruct Hf as [-> | [-> | ->]].
  - destruct L2 as [[-> ?]|[-> ?]]; destruct Hf as [-> | [-> | ->]]; cbn; [left|left|left|right|right|right]; (split; [done|lia]).
  - intros H. rewrite L3; [done|]. by destruct Hf as [-> | [-> | ->]].
  - intros H. assert (no_cat l = true) as Hn by by destruct Hf as [-> | [-> | ->]]. rewrite L3; [|done]. by destruct Hf as [-> | [-> | ->]].
  - intros H. assert (opt_ok l = true) as Hn by by destruct Hf as [-> | [-> | ->]]. destruct (L5 Hn) as [A1 A2].
    destruct Hf as [-> | [-> | ->]]; (split; [done|]); [by apply equiv_star|by apply equiv_plus|by apply equiv_quest].
Qed.

Lemma passed_improved l r l' r' c0 c n : passed (OR l r) (OR l' r') c0 c -> improved l' r' n -> passed (OR l r) n c0 true.
Proof.
  intros [L1 L2 L3 L4 L5] [I1 I2 I3 I4]. split.
  - done.
  - right. split; [done|]. destruct L2 as [[_ ?]|[_ ?]]; lia.
  - intros H. pose proof (L3 H) as [= -> ->]. cbn in H. congruence.
  - intros H. pose proof (L4 H) as H'. cbn in H'. apply andb_true_iff in H' as [H1 H2]. by apply I4.
  - intros H. destruct (L5 H) as [H' E]. cbn in H'. apply andb_true_iff in H' as [H1 H2]. destruct (I4 H1 H2) as [A B]. split; [by apply flat_opt_ok|]. by rewrite B.
Qed.

Lemma pass_spec r : rx_wf r -> forall changed mem, false ∉ mem ->
  exists r' changed' mem', pass r changed mem = RxRet (Some (r', changed')) mem' /\ false ∉ mem' /\ passed r r' changed changed'.
Proof.
  assert (forall f l changed mem, (f = STAR \/ f = PLUS \/ f = QUEST) ->
    (exists r' changed' mem', pass l changed mem = RxRet (Some (r', changed')) mem' /\ false ∉ mem' /\ passed l r' changed changed') ->
    exists r' changed' mem', (l ← pass l changed; mret ((fun lc : rx_node * bool => (f lc.1, lc.2)) <$> l)) mem = RxRet (Some (r', changed')) mem' /\
      false ∉ mem' /\ passed (f l) r' changed changed') as Hone.
  { intros f l changed mem Hf (l' & c & mem' & E & Hm & Hp). rewrite (rx_exec _ _ _ _ _ E). eexists _, _, mem'. split; [reflexivity|]. split; [done|]. by apply passed_one. }
  induction r as [l IHl r IHr|l IH|l IH|l IHl r IHr|l IH|cs i]; intros Hwf changed mem Hmem; cbn [pass].
  - destruct Hwf as [Hl Hr]. destruct (IHl Hl changed mem Hmem) as (l' & c1 & mem1 & E1 & Hm1 & P1). rewrite (rx_exec _ _ _ _ _ E1).
    destruct (IHr Hr c1 mem1 Hm1) as (r' & c2 & mem2 & E2 & Hm2 & P2). rewrite (rx_exec _ _ _ _ _ E2). eexists _, _, mem2. split; [reflexivity|]. split; [done|].
    eapply (passed_two CAT); [by left|exact P1|exact P2].
  - apply (Hone STAR); [by left|by apply IH].
  - apply (Hone PLUS); [by right; left|by apply IH].
  - destruct Hwf as [Hl Hr]. destruct (IHl Hl changed mem Hmem) as (l' & c1 & mem1 & E1 & Hm1 & P1). rewrite (rx_exec _ _ _ _ _ E1).
    destruct (IHr Hr c1 mem1 Hm1) as (r' & c2 & mem2 & E2 & Hm2 & P2). rewrite (rx_exec _ _ _ _ _ E2).
    assert (passed (OR l r) (OR l' r') changed c2) as P3 by (eapply (passed_two OR); [by right|exact P1|exact P2]).
    destruct (improve_spec true l' r' mem2 (pa_wf _ _ _ _ P1) (pa_wf _ _ _ _ P2) Hm2) as (o & mem3 & E3 & Hm3 & Ho). rewrite (rx_exec _ _ _ _ _ E3).
    destruct Ho as [->|(n & -> & Hn)]; [|eexists _, _, mem3; split; [reflexivity|]; split; [done|by eapply passed_improved]].
    destruct (improve_spec false l' r' mem3 (pa_wf _ _ _ _ P1) (pa_wf _ _ _ _ P2) Hm3) as (o & mem4 & E4 & Hm4 & Ho). rewrite (rx_exec _ _ _ _ _ E4).
    destruct Ho as [->|(n & -> & Hn)]; [by eexists _, _, mem4|eexists _, _, mem4; split; [reflexivity|]; split; [done|by eapply passed_improved]].
  - apply (Hone QUEST); [by right; right|by apply IH].
  - eexists _, _, mem. split; [reflexivity|]. split; [done|]. split; [done|by left|done|done|]. intros H. split; [done|]. reflexivity.
Qed.

Lemma optimise_spec fuel r mem :
  rx_wf r -> (rx_size r < fuel)%nat -> false ∉ mem ->
  exists r' mem', optimise fuel r mem = RxRet (Some r') mem' /\ false ∉ mem' /\ rx_wf r' /\ (rx_size r' <= rx_size r)%nat /\ (opt_ok r = true -> rx_equiv r' r).
Proof.
  revert r mem. induction fuel as [|fuel IH]; intros r mem Hwf Hs Hmem; [lia|]. cbn [optimise].
  destruct (pass_spec r Hwf false mem Hmem) as (r' & c & mem1 & E & Hm1 & [P1 P2 P3 P4 P5]). rewrite (rx_exec _ _ _ _ _ E). destruct c.
  - destruct P2 as [[? _]|[_ Hlt]]; [done|]. destruct (IH r' mem1 P1 ltac:(lia) Hm1) as (r2 & mem2 & -> & Hm2 & W2 & S2 & Q2). eexists _, mem2. split; [done|].
    split; [done|]. split; [done|]. split; [lia|]. intros H. destruct (P5 H) as [A B]. by rewrite (Q2 A).
  - eexists _, mem1. split; [reflexivity|]. split; [done|]. split; [done|]. split; [lia|]. intros H. by apply P5.
Qed.
