(* ===== verification/RegexParse.v ===== *)
(** * Reading regular expressions

    Patterns with the text that is written for them.  The parser reads every such
    text as the expression it was written for. *)

From S2P Require Import Prelude Bitset Regex RegexLang RegexOpt.

(** ** Patterns and their texts *)

(** What stands in brackets: a character, an escaped one, or the rest of a range. *)
Inductive citem := ILit (c : Z) | IEsc (e : Z) | ITo (e : Z).

Definition item_text (it : citem) : list Z := match it with ILit c => [c] | IEsc e => [92; e] | ITo e => [45; e] end.

(** The last character behind an item when it was [lc] before. *)
Definition item_last (lc : Z) (it : citem) : Z := match it with ILit c => c | IEsc e => escaped e | ITo e => Z.max lc e end.

Definition item_ok (lc : Z) (it : citem) : bool :=
  match it with
  | ILit c => (0 <? c) && (c <? 128) && negb (c =? 93) && negb (c =? 92) && (negb (c =? 45) || (lc =? 0))
  | IEsc e => (0 <? e) && (e <? 128)
  | ITo e => (0 <? lc) && (lc <? 127) && (0 <? e) && (e <? 127)
  end.

Definition item_mem (lc : Z) (it : citem) (x : Z) : bool :=
  match it with
  | ILit c => x =? c
  | IEsc e => x =? escaped e
  | ITo e => (Z.min lc e <=? x) && (x <=? Z.max lc e)
  end.

Fixpoint items_ok (lc : Z) (its : list citem) : bool :=
  match its with [] => true | it :: its => item_ok lc it && items_ok (item_last lc it) its end.
Fixpoint items_mem (lc : Z) (its : list citem) (x : Z) : bool :=
  match its with [] => false | it :: its => item_mem lc it x || items_mem (item_last lc it) its x end.
Definition items_text (its : list citem) : list Z := concat (map item_text its).

(** A character set. *)
Inductive atom := AChar (b : Z) | AEsc (e : Z) | AHat | ADollar | ADot | ASet (neg : bool) (its : list citem).

Definition atom_text (a : atom) : list Z :=
  match a with
  | AChar b => [b]
  | AEsc e => [92; e]
  | AHat => [94]
  | ADollar => [36]
  | ADot => [46]
  | ASet neg its => 91 :: (if neg then [94] else []) ++ items_text its ++ [93]
  end.

Definition atom_ok (a : atom) : bool :=
  match a with
  | AChar b => (0 <=? b) && (b <? 256) && negb (special b) && bool_decide (b ∉ [91; 94; 36; 46; 92])
  | AEsc e => (0 <=? e) && (e <? 128)
  | AHat | ADollar | ADot => true
  | ASet neg its => items_ok 0 its && (neg || negb (bool_decide (head (items_text its) = Some 94)))
  end.

Definition atom_mem (a : atom) (x : Z) : bool :=
  match a with
  | AChar b => x =? b
  | AEsc e => x =? escaped e
  | AHat => x =? HAT_CHAR
  | ADollar => x =? DOLLAR_CHAR
  | ADot => negb (x =? 0) && negb (x =? 10) && negb (x =? 13)
  | ASet neg its => if neg then negb (x =? 0) && negb (items_mem 0 its x) else items_mem 0 its x
  end.

Inductive pat := PAtom (a : atom) | PCat (l r : pat) | POr (l r : pat) | PStar (l : pat) | PPlus (l : pat) | PQuest (l : pat) | PGroup (l : pat).

(** The text at a place where a term (0), a repetition (1), a sequence (2) or
    alternatives (3) can stand; parentheses are put around what cannot, and around what
    is a group of its own. *)
Definition group (t : list Z) : list Z := 40 :: t ++ [41].
Fixpoint pat_text (level : nat) (p : pat) : list Z :=
  let wrap own t := if (own <=? level)%nat then t else group t in
  match p with
  | PAtom a => atom_text a
  | PStar l => wrap 1%nat (pat_text 1 l ++ [42])
  | PPlus l => wrap 1%nat (pat_text 1 l ++ [43])
  | PQuest l => wrap 1%nat (pat_text 1 l ++ [63])
  | PCat l r => wrap 2%nat (pat_text 1 l ++ pat_text 2 r)
  | POr l r => wrap 3%nat (pat_text 2 l ++ 124 :: pat_text 3 r)
  | PGroup l => group (pat_text 3 l)
  end.

Fixpoint pat_ok (p : pat) : bool :=
  match p with
  | PAtom a => atom_ok a
  | PCat l r | POr l r => pat_ok l && pat_ok r
  | PStar l | PPlus l | PQuest l | PGroup l => pat_ok l
  end.

(** ** Characters *)

Definition set_is (cs : list Z) (m : Z -> bool) : Prop := bs_wf 256 cs /\ forall x, 0 <= x < 256 -> bs_mem cs x = m x.

Lemma as_char_small c : 0 <= c < 128 -> as_char c = c.
Proof. intros H. unfold as_char, swrap. rewrite Z.mod_small by lia. lia. Qed.

Lemma escaped_small e : 0 <= e < 128 -> 0 <= escaped e < 128.
Proof. unfold escaped. intros H. repeat case_match; lia. Qed.

Lemma escaped_pos e : 0 < e < 128 -> 0 < escaped e < 128.
Proof. unfold escaped. intros H. repeat case_match; lia. Qed.

Lemma add_char_spec neg c mem t cs cur :
  bs_wf 256 cs -> 0 <= c < 128 ->
  exists cs', add_char neg c (ParseSp mem t cs cur) = RxRet tt (ParseSp mem t cs' cur) /\ bs_wf 256 cs' /\
    forall x, 0 <= x -> bs_mem cs' x = if neg then bs_mem cs x && negb (x =? c) else bs_mem cs x || (x =? c).
Proof.
  intros Hwf Hc. unfold add_char, on_charset. cbn [ps_charset]. assert (0 <= c < bs_cap 256) as Hb by (unfold bs_cap; lia). destruct neg.
  - destruct (dm_bit_clear_spec 256 cs c Hwf Hb) as (cs' & -> & Hwf' & Hm). exists cs'. split; [done|]. split; [done|]. intros x Hx. rewrite Hm by done. apply andb_comm.
  - destruct (dm_bit_set_spec 256 cs c Hwf Hb) as (cs' & -> & Hwf' & Hm). exists cs'. split; [done|]. split; [done|]. intros x Hx. rewrite Hm by done. apply orb_comm.
Qed.

Lemma add_range_spec fuel neg mem t cur : forall lc c cs,
  bs_wf 256 cs -> 0 <= lc -> c < 127 -> Z.max 0 (c - lc + 1) < Z.of_nat fuel ->
  exists cs', add_range fuel neg lc c (ParseSp mem t cs cur) = RxRet tt (ParseSp mem t cs' cur) /\ bs_wf 256 cs' /\
    forall x, 0 <= x -> bs_mem cs' x = if neg then bs_mem cs x && negb ((lc <=? x) && (x <=? c)) else bs_mem cs x || ((lc <=? x) && (x <=? c)).
Proof.
  induction fuel as [|fuel IH]; intros lc c cs Hwf Hlc Hc Hf.
  { lia. }
  cbn [add_range]. destruct (Z.leb_spec lc c) as [Hle|Hgt].
  - destruct (add_char_spec neg lc mem t cs cur Hwf ltac:(lia)) as (cs1 & E1 & Hwf1 & Hm1). rewrite (rx_exec _ _ _ _ _ E1).
    replace (swrap 8 (lc + 1)) with (lc + 1) by (symmetry; apply (as_char_small (lc + 1)); lia).
    destruct (IH (lc + 1) c cs1 Hwf1 ltac:(lia) Hc ltac:(lia)) as (cs2 & -> & Hwf2 & Hm2). exists cs2. split; [done|]. split; [done|].
    intros x Hx. rewrite Hm2, Hm1 by done. destruct neg, (bs_mem cs x), (Z.eqb_spec x lc), (Z.leb_spec (lc + 1) x), (Z.leb_spec lc x), (Z.leb_spec x c); cbn; try done; lia.
  - exists cs. split; [done|]. split; [done|]. intros x Hx. destruct (Z.leb_spec lc x), (Z.leb_spec x c); cbn; [lia|..]; destruct neg; by rewrite ?andb_true_r, ?orb_false_r.
Qed.

Lemma charset_loop_spec neg mem t cur rest its : forall lc cs,
  items_ok lc its = true -> 0 <= lc < 128 -> bs_wf 256 cs ->
  exists cs', charset_loop neg lc (items_text its ++ 93 :: rest) (ParseSp mem t cs cur) = RxRet (Some (93 :: rest)) (ParseSp mem t cs' cur) /\
    bs_wf 256 cs' /\ forall x, 0 <= x -> bs_mem cs' x = if neg then bs_mem cs x && negb (items_mem lc its x) else bs_mem cs x || items_mem lc its x.
Proof.
  induction its as [|it its IH]; intros lc cs Hok Hlc Hwf; cbn [items_ok items_mem] in *.
  { exists cs. split; [done|]. split; [done|]. intros x Hx. destruct neg; by rewrite ?andb_true_r, ?orb_false_r. }
  apply andb_true_iff in Hok as [Hit Hok]. unfold items_text. cbn [map concat]. rewrite <- app_assoc. fold (items_text its).
  assert (forall c cs1, item_last lc it = c -> 0 <= c < 128 -> bs_wf 256 cs1 ->
    (forall x, 0 <= x -> bs_mem cs1 x = if neg then bs_mem cs x && negb (item_mem lc it x) else bs_mem cs x || item_mem lc it x) ->
    exists cs', charset_loop neg c (items_text its ++ 93 :: rest) (ParseSp mem t cs1 cur) = RxRet (Some (93 :: rest)) (ParseSp mem t cs' cur) /\
      bs_wf 256 cs' /\ forall x, 0 <= x -> bs_mem cs' x = if neg then bs_mem cs x && negb (item_mem lc it x || items_mem (item_last lc it) its x)
        else bs_mem cs x || (item_mem lc it x || items_mem (item_last lc it) its x)) as Hrest.
  { intros c cs1 Ec Hc Hwf1 Hm1. rewrite Ec in *. destruct (IH c cs1 Hok Hc Hwf1) as (cs' & -> & Hwf' & Hm). exists cs'. split; [done|]. split; [done|].
    intros x Hx. rewrite Hm, Hm1 by done. destruct neg; [by rewrite negb_orb, andb_assoc|by rewrite orb_assoc]. }
  destruct it as [c|e|e]; cbn [item_text item_ok item_last app] in *; rewrite ?andb_true_iff, ?negb_true_iff in Hit.
  - destruct Hit as [[[[?%Z.ltb_lt ?%Z.ltb_lt] E1] E2] E3]. cbn [charset_loop]. rewrite E1, E2.
    assert ((c =? 45) && negb (lc =? 0) = false) as -> by (destruct (c =? 45), (lc =? 0); done). rewrite as_char_small by lia.
    destruct (add_char_spec neg c mem t cs cur Hwf ltac:(lia)) as (cs1 & E & Hwf1 & Hm1). rewrite (rx_exec _ _ _ _ _ E). apply Hrest; [done|lia|done|done].
  - destruct Hit as [?%Z.ltb_lt ?%Z.ltb_lt]. cbn [charset_loop Z.eqb]. pose proof (escaped_pos e ltac:(lia)). rewrite as_char_small by lia.
    destruct (add_char_spec neg (escaped e) mem t cs cur Hwf ltac:(lia)) as (cs1 & E & Hwf1 & Hm1). cbn [Pos.eqb]. rewrite (rx_exec _ _ _ _ _ E). apply Hrest; [done|lia|done|done].
  - destruct Hit as [[[?%Z.ltb_lt ?%Z.ltb_lt] ?%Z.ltb_lt] ?%Z.ltb_lt]. cbn [charset_loop Z.eqb Pos.eqb]. rewrite (proj2 (Z.eqb_neq lc 0)) by lia. cbn [andb negb].
    rewrite as_char_small by lia. replace (if e <? lc then e else lc) with (Z.min lc e) by (destruct (Z.ltb_spec e lc); lia).
    replace (if e <? lc then lc else e) with (Z.max lc e) by (destruct (Z.ltb_spec e lc); lia).
    destruct (add_range_spec 257 neg mem t cur (Z.min lc e) (Z.max lc e) cs Hwf ltac:(lia) ltac:(lia) ltac:(lia)) as (cs1 & E & Hwf1 & Hm1).
    rewrite (rx_exec _ _ _ _ _ E). apply Hrest; [done|lia|done|done].
Qed.

(** ** Tokens *)

Lemma on_charset_exec {B} f cs cs' mem t cur (k : unit -> P B) :
  f cs = Some cs' -> (on_charset f ≫= k) (ParseSp mem t cs cur) = k tt (ParseSp mem t cs' cur).
Proof. intros E. unfold mbind, RX_bind, on_charset. cbn. by rewrite E. Qed.

Lemma set_type_exec {B} ty cs mem t cur (k : unit -> P B) : (set_type ty ≫= k) (ParseSp mem t cs cur) = k tt (ParseSp mem ty cs cur).
Proof. done. Qed.

Lemma set_cursor_exec {B} c cs mem t cur (k : unit -> P B) : (set_cursor c ≫= k) (ParseSp mem t cs cur) = k tt (ParseSp mem t cs c).
Proof. done. Qed.

Lemma single_char_spec c rest mem t cs cur :
  0 <= c < 256 -> bs_wf 256 cs ->
  exists cs', single_char c rest (ParseSp mem t cs cur) = RxRet tt (ParseSp mem 0 cs' rest) /\ set_is cs' (fun x => x =? c).
Proof.
  intros Hc Hwf. destruct (dm_bit_clear_all_spec 256 cs Hwf) as (cs1 & E1 & Hwf1 & Hm1).
  destruct (dm_bit_set_spec 256 cs1 c Hwf1) as (cs2 & E2 & Hwf2 & Hm2); [unfold bs_cap; lia|]. exists cs2.
  unfold single_char. rewrite set_type_exec, set_cursor_exec, (on_charset_exec _ _ _ _ _ _ _ E1). unfold on_charset. cbn [ps_charset]. rewrite E2.
  split; [done|]. split; [done|]. intros x Hx. rewrite Hm2, Hm1 by (unfold bs_cap; lia). by rewrite orb_false_r.
Qed.

Lemma dot_spec rest mem t cs :
  bs_wf 256 cs ->
  exists cs', rx_get_token (ParseSp mem t cs (46 :: rest)) = RxRet 1 (ParseSp mem 0 cs' rest) /\ set_is cs' (atom_mem ADot).
Proof.
  intros Hwf. destruct (dm_bit_set_all_spec 256 cs Hwf) as (cs1 & E1 & Hwf1 & Hm1).
  destruct (dm_bit_clear_spec 256 cs1 10 Hwf1) as (cs2 & E2 & Hwf2 & Hm2); [unfold bs_cap; lia|].
  destruct (dm_bit_clear_spec 256 cs2 13 Hwf2) as (cs3 & E3 & Hwf3 & Hm3); [unfold bs_cap; lia|].
  destruct (dm_bit_clear_spec 256 cs3 0 Hwf3) as (cs4 & E4 & Hwf4 & Hm4); [unfold bs_cap; lia|]. exists cs4.
  unfold rx_get_token. cbn [ps_cursor Z.eqb Pos.eqb]. change (special 46) with false. cbv iota.
  rewrite set_type_exec, set_cursor_exec, (on_charset_exec _ _ _ _ _ _ _ E1), (on_charset_exec _ _ _ _ _ _ _ E2), (on_charset_exec _ _ _ _ _ _ _ E3),
    (on_charset_exec _ _ _ _ _ _ _ E4). split; [done|]. split; [done|].
  intros x Hx. rewrite Hm4, Hm3, Hm2, Hm1 by (unfold bs_cap; lia). cbn. destruct (x =? 0), (x =? 10), (x =? 13); done.
Qed.

Lemma bracket_spec neg its rest mem t cs :
  atom_ok (ASet neg its) = true -> bs_wf 256 cs ->
  exists cs', charset_token ((if neg then [94] else []) ++ items_text its ++ [93] ++ rest) (ParseSp mem t cs (91 :: (if neg then [94] else []) ++ items_text its ++ [93] ++ rest))
      = RxRet 1 (ParseSp mem 0 cs' rest) /\ set_is cs' (atom_mem (ASet neg its)).
Proof.
  cbn [atom_ok]. rewrite andb_true_iff. intros [Hok Hneg] Hwf. set (cur := 91 :: _). unfold charset_token.
  assert (exists cs', (match (if neg then [94] else []) ++ items_text its ++ [93] ++ rest with
      | 94 :: ptr => on_charset dm_bit_set_all;; on_charset (fun bs => dm_bit_clear bs 0);; charset_loop true 0 ptr
      | _ => on_charset dm_bit_clear_all;; charset_loop false 0 ((if neg then [94] else []) ++ items_text its ++ [93] ++ rest)
      end) (ParseSp mem t cs cur) = RxRet (Some (93 :: rest)) (ParseSp mem t cs' cur) /\ set_is cs' (atom_mem (ASet neg its))) as (cs' & E & Hs).
  { destruct neg.
    - destruct (dm_bit_set_all_spec 256 cs Hwf) as (cs1 & E1 & Hwf1 & Hm1). destruct (dm_bit_clear_spec 256 cs1 0 Hwf1) as (cs2 & E2 & Hwf2 & Hm2); [unfold bs_cap; lia|].
      destruct (charset_loop_spec true mem t cur rest its 0 cs2 Hok ltac:(lia) Hwf2) as (cs3 & E3 & Hwf3 & Hm3). exists cs3. cbn [app].
      rewrite (on_charset_exec _ _ _ _ _ _ _ E1), (on_charset_exec _ _ _ _ _ _ _ E2). cbn [app] in E3. rewrite E3. split; [done|].
      split; [done|]. intros x Hx. rewrite Hm3, Hm2, Hm1 by (unfold bs_cap; lia). cbn. by rewrite andb_true_r.
    - destruct (dm_bit_clear_all_spec 256 cs Hwf) as (cs1 & E1 & Hwf1 & Hm1).
      destruct (charset_loop_spec false mem t cur rest its 0 cs1 Hok ltac:(lia) Hwf1) as (cs2 & E2 & Hwf2 & Hm2). exists cs2. cbn [app] in *.
      assert (forall A (y : A) u, (match items_text its ++ 93 :: rest with 94 :: ptr => u ptr | _ => y end) = y) as Hhead.
      { intros A y u. cbn [orb] in Hneg. apply negb_true_iff, bool_decide_eq_false in Hneg. destruct (items_text its) as [|c l]; [done|]. cbn [app head] in *.
        destruct c as [|c|c]; try done. do 7 (destruct c as [c|c|]; try done). }
      rewrite Hhead, (on_charset_exec _ _ _ _ _ _ _ E1), E2. split; [done|].
      split; [done|]. intros x Hx. rewrite Hm2, Hm1 by (unfold bs_cap; lia). done. }
  rewrite (rx_exec _ _ _ _ _ E). exists cs'. done.
Qed.

Lemma get_token_atom a rest mem t cs :
  atom_ok a = true -> bs_wf 256 cs ->
  exists cs', rx_get_token (ParseSp mem t cs (atom_text a ++ rest)) = RxRet 1 (ParseSp mem 0 cs' rest) /\ set_is cs' (atom_mem a).
Proof.
  intros Ha Hwf. destruct a as [b|e| | | |neg its].
  - cbn [atom_ok] in Ha. rewrite !andb_true_iff, negb_true_iff, bool_decide_eq_true in Ha. destruct Ha as [[[?%Z.leb_le ?%Z.ltb_lt] Es] Hn].
    rewrite !not_elem_of_cons in Hn. destruct Hn as (N1 & N2 & N3 & N4 & N5 & _). unfold rx_get_token. cbn [atom_text app ps_cursor].
    rewrite Es, !(proj2 (Z.eqb_neq b _)) by done. cbv iota. destruct (single_char_spec b rest mem t cs (b :: rest) ltac:(lia) Hwf) as (cs' & E & Hs).
    rewrite (rx_exec _ _ _ _ _ E). by exists cs'.
  - cbn [atom_ok] in Ha. rewrite andb_true_iff in Ha. destruct Ha as [?%Z.leb_le ?%Z.ltb_lt]. pose proof (escaped_small e ltac:(lia)).
    unfold rx_get_token. cbn [atom_text app ps_cursor Z.eqb Pos.eqb]. change (special 92) with false. cbv iota.
    destruct (single_char_spec (escaped e) rest mem t cs (92 :: e :: rest) ltac:(lia) Hwf) as (cs' & E & Hs). exists cs'.
    rewrite as_char_small by lia. split; [|done]. etransitivity; [|exact (rx_exec _ (fun _ => mret 1) _ _ _ E)]. unfold single_char.
    unfold mbind, RX_bind, set_type, set_cursor, rx_upd. cbn [ps_mem ps_type ps_charset ps_cursor]. by destruct (on_charset dm_bit_clear_all _).
  - destruct (single_char_spec HAT_CHAR rest mem t cs (94 :: rest) ltac:(unfold HAT_CHAR; lia) Hwf) as (cs' & E & Hs).
    unfold rx_get_token. cbn [atom_text app ps_cursor Z.eqb Pos.eqb]. change (special 94) with false. cbv iota. rewrite (rx_exec _ _ _ _ _ E). by exists cs'.
  - destruct (single_char_spec DOLLAR_CHAR rest mem t cs (36 :: rest) ltac:(unfold DOLLAR_CHAR; lia) Hwf) as (cs' & E & Hs).
    unfold rx_get_token. cbn [atom_text app ps_cursor Z.eqb Pos.eqb]. change (special 36) with false. cbv iota. rewrite (rx_exec _ _ _ _ _ E). by exists cs'.
  - by apply dot_spec.
  - cbn [atom_text app]. rewrite <- !app_assoc. cbn [app]. unfold rx_get_token. cbn [ps_cursor Z.eqb Pos.eqb]. by apply (bracket_spec neg its rest).
Qed.

Lemma rx_get_exec {B} s (k : parse_sp -> P B) : (rx_get ≫= k) s = k s s.
Proof. done. Qed.

Lemma p_ret_exec {A B} (a : A) s (k : A -> P B) : (mret a ≫= k) s = k a s.
Proof. done. Qed.

Lemma cur_type_exec {B} cs mem t cur (k : Z -> P B) : (cur_type ≫= k) (ParseSp mem t cs cur) = k t (ParseSp mem t cs cur).
Proof. done. Qed.

(** The first token of a text is loaded. *)
Definition loaded (text : list Z) (ps : parse_sp) : Prop :=
  exists mem t cs n, bs_wf 256 cs /\
    rx_get_token (ParseSp mem t cs text) = RxRet n (ParseSp mem (ps_type ps) (ps_charset ps) (ps_cursor ps)).

(** Texts that begin with a token, or are empty. *)
Inductive starts : list Z -> Prop :=
  | starts_nil : starts []
  | starts_special b rest : special b = true -> starts (b :: rest)
  | starts_atom a rest : atom_ok a = true -> starts (atom_text a ++ rest).

Lemma loaded_nil ps : loaded [] ps -> exists mem cs, ps = ParseSp mem (-1) cs [] /\ bs_wf 256 cs.
Proof. destruct ps as [m t c cur]. intros (mem & t0 & cs & n & Hwf & [= _ <- <- <-]). by exists m, cs. Qed.

Lemma special_not_bracket b : special b = true -> b <> 91.
Proof. intros H ->. done. Qed.

Lemma loaded_special b rest ps : special b = true -> loaded (b :: rest) ps -> exists mem cs, ps = ParseSp mem b cs rest /\ bs_wf 256 cs.
Proof.
  destruct ps as [m t c cur]. intros Hb (mem & t0 & cs & n & Hwf & E). unfold rx_get_token in E. cbn [ps_cursor] in E.
  rewrite Hb, (proj2 (Z.eqb_neq b 91)) in E by by apply special_not_bracket. injection E as _ <- <- <-. by exists m, cs.
Qed.

Lemma loaded_atom a rest ps :
  atom_ok a = true -> loaded (atom_text a ++ rest) ps -> exists mem cs, ps = ParseSp mem 0 cs rest /\ set_is cs (atom_mem a).
Proof.
  destruct ps as [m t c cur]. intros Ha (mem & t0 & cs & n & Hwf & E). destruct (get_token_atom a rest mem t0 cs Ha Hwf) as (cs' & E' & Hs).
  rewrite E' in E. injection E as _ <- <- <-. by exists m, cs'.
Qed.

Lemma load mem t cs text : starts text -> bs_wf 256 cs ->
  exists n ps, rx_get_token (ParseSp mem t cs text) = RxRet n ps /\ loaded text ps /\ ps_mem ps = mem.
Proof.
  intros Hst Hwf. assert (exists n t' cs' cur', rx_get_token (ParseSp mem t cs text) = RxRet n (ParseSp mem t' cs' cur')) as (n & t' & cs' & cur' & E).
  { destruct Hst as [|b rest Hb|a rest Ha].
    - by eexists _, _, _, _.
    - unfold rx_get_token. cbn [ps_cursor]. rewrite Hb, (proj2 (Z.eqb_neq b 91)) by by apply special_not_bracket. by eexists _, _, _, _.
    - destruct (get_token_atom a rest mem t cs Ha Hwf) as (cs' & E' & _). by eexists _, _, _, _. }
  exists n, (ParseSp mem t' cs' cur'). split; [done|]. split; [|done]. by exists mem, t, cs, n.
Qed.

(** Patterns begin with a character set or a parenthesis. *)
Lemma pat_begins p : pat_ok p = true -> forall level rest,
  (exists a rest', atom_ok a = true /\ pat_text level p ++ rest = atom_text a ++ rest') \/ (exists rest', pat_text level p ++ rest = 40 :: rest').
Proof.
  assert (forall own level t rest, ((exists a rest', atom_ok a = true /\ t ++ rest = atom_text a ++ rest') \/ (exists rest', t ++ rest = 40 :: rest')) ->
    (exists a rest', atom_ok a = true /\ (if (own <=? level)%nat then t else group t) ++ rest = atom_text a ++ rest') \/
    (exists rest', (if (own <=? level)%nat then t else group t) ++ rest = 40 :: rest')) as Hw.
  { intros own level t rest H. destruct (own <=? level)%nat; [done|]. right. by eexists. }
  induction p as [a|l IHl r IHr|l IHl r IHr|l IH|l IH|l IH|l IH]; cbn [pat_ok pat_text]; rewrite ?andb_true_iff; intros Hok level rest.
  - left. by exists a, rest.
  - apply Hw. rewrite <- app_assoc. apply IHl, Hok.
  - apply Hw. rewrite <- app_assoc. apply IHl, Hok.
  - apply Hw. rewrite <- app_assoc. by apply IH.
  - apply Hw. rewrite <- app_assoc. by apply IH.
  - apply Hw. rewrite <- app_assoc. by apply IH.
  - right. by eexists.
Qed.

Lemma pat_starts p level rest : pat_ok p = true -> starts (pat_text level p ++ rest).
Proof. intros Hok. destruct (pat_begins p Hok level rest) as [(a & rest' & Ha & ->)|(rest' & ->)]; [by constructor|by constructor]. Qed.

(** ** The expression of a pattern *)

Fixpoint ast_of (p : pat) (r : rx_node) : Prop :=
  match p, r with
  | PAtom a, CHARSET cs _ => set_is cs (atom_mem a)
  | PCat l r, CAT l' r' | POr l r, OR l' r' => ast_of l l' /\ ast_of r r'
  | PStar l, STAR l' | PPlus l, PLUS l' | PQuest l, QUEST l' => ast_of l l'
  | PGroup l, r => ast_of l r
  | _, _ => False
  end.

Fixpoint pat_size (p : pat) : nat :=
  match p with
  | PAtom _ => 1
  | PCat l r | POr l r => S (pat_size l + pat_size r)
  | PStar l | PPlus l | PQuest l | PGroup l => S (pat_size l)
  end.

(** [m] reads the text of [p] at a level: it returns an expression of the pattern,
    and the next token is loaded. *)
Definition reads (p : pat) (level : nat) (m : P (option rx_node)) (rest : list Z) : Prop :=
  forall ps, false ∉ ps_mem ps -> loaded (pat_text level p ++ rest) ps ->
    exists r ps', m ps = RxRet (Some r) ps' /\ ast_of p r /\ false ∉ ps_mem ps' /\ loaded rest ps'.

Definition ends_at (stops : list Z) (rest : list Z) : Prop := rest = [] \/ exists b rest', rest = b :: rest' /\ b ∈ stops.

Definition term_ok (n : nat) (p : pat) : Prop := forall g rest, (n <= g)%nat -> starts rest -> reads p 0 (term (or_term g)) rest.
Definition cat_ok (n : nat) (p : pat) : Prop := forall f g rest, (n <= f)%nat -> (n <= g)%nat -> ends_at [41; 124] rest -> reads p 2 (cat_term f (or_term g)) rest.
Definition or_ok (n : nat) (p : pat) : Prop := forall f rest, (n <= f)%nat -> ends_at [41] rest -> reads p 3 (or_term f) rest.

(** A repetition is read up to its operators; more can follow. *)
Definition closure_ok (n : nat) (p : pat) : Prop :=
  forall f g rest ps, (n <= f)%nat -> (n <= g)%nat -> starts rest -> false ∉ ps_mem ps -> loaded (pat_text 1 p ++ rest) ps ->
    exists f' r ps', (f <= f' + pat_size p)%nat /\ closure_term f (or_term g) ps = closure_loop f' r ps' /\ ast_of p r /\ false ∉ ps_mem ps' /\ loaded rest ps'.

Lemma ends_starts stops rest : ends_at stops rest -> Forall (fun b => special b = true) stops -> starts rest.
Proof.
  intros [->|(b & rest' & -> & Hb)] H; [constructor|]. constructor. rewrite Forall_forall in H. by apply H.
Qed.

Lemma new_node_ok n mem t cs cur : false ∉ mem -> exists mem', new_node n (ParseSp mem t cs cur) = RxRet (Some n) (ParseSp mem' t cs cur) /\ false ∉ mem'.
Proof. intros H. destruct (node_ok n mem H) as (mem' & E & H'). exists mem'. unfold new_node. cbn. by rewrite E. Qed.

Lemma loaded_mem text mem mem' t cs cur : loaded text (ParseSp mem t cs cur) -> loaded text (ParseSp mem' t cs cur).
Proof. done. Qed.

(** *** From one level to the next *)

Lemma closure_of_term n p : pat_text 1 p = pat_text 0 p -> term_ok n p -> closure_ok n p.
Proof.
  intros Et HT f g rest ps Hf Hg Hst Hmem Hl. rewrite Et in Hl. destruct (HT g rest Hg Hst ps Hmem Hl) as (r & ps' & E & Hr & Hm & Hl').
  exists f, r, ps'. split; [lia|]. split; [|done]. unfold closure_term. by rewrite (rx_exec _ _ _ _ _ E).
Qed.

Lemma closure_loop_stops f r mem t cs cur : t ∉ [42; 43; 63] -> closure_loop (S f) r (ParseSp mem t cs cur) = RxRet (Some r) (ParseSp mem t cs cur).
Proof.
  rewrite !not_elem_of_cons. intros (N1 & N2 & N3 & _). cbn [closure_loop]. rewrite cur_type_exec. by rewrite !(proj2 (Z.eqb_neq _ _)) by done.
Qed.

Lemma loaded_stop stops rest ps : ends_at stops rest -> Forall (fun b => special b = true) stops -> loaded rest ps ->
  exists mem t cs cur, ps = ParseSp mem t cs cur /\ (t = -1 \/ t ∈ stops).
Proof.
  intros [->|(b & rest' & -> & Hb)] H Hl.
  - apply loaded_nil in Hl as (mem & cs & -> & _). eexists _, _, _, _. split; [done|by left].
  - rewrite Forall_forall in H. apply loaded_special in Hl as (mem & cs & -> & _); [|by apply H]. eexists _, _, _, _. split; [done|by right].
Qed.

(** No term begins at the end or at a closing parenthesis. *)
Lemma cat_nothing f ot mem t cs cur : t = -1 \/ t = 41 -> cat_term (S f) ot (ParseSp mem t cs cur) = RxRet None (ParseSp mem t cs cur).
Proof. intros [-> | ->]; reflexivity. Qed.

Lemma cat_of_closure n p : pat_text 2 p = pat_text 1 p -> (pat_size p < n)%nat -> closure_ok n p -> cat_ok (S n) p.
Proof.
  intros Et Hn HK f g rest Hf Hg Hst ps Hmem Hl. rewrite Et in Hl. destruct f as [|f]; [lia|].
  destruct (HK f g rest ps ltac:(lia) ltac:(lia) (ends_starts _ _ Hst ltac:(by repeat constructor)) Hmem Hl) as (f' & r & ps' & Hf' & E & Hr & Hm & Hl').
  destruct (loaded_stop [41; 124] rest ps' Hst ltac:(by repeat constructor) Hl') as (mem & t & cs & cur & -> & Ht).
  destruct f' as [|f']; [lia|]. rewrite closure_loop_stops in E by set_solver. cbn [cat_term]. rewrite (rx_exec _ _ _ _ _ E), cur_type_exec.
  exists r. destruct (Z.eqb_spec t 124) as [->|Hne]; [by eexists|].
  destruct f as [|f]; [lia|]. rewrite (rx_exec _ _ _ _ _ (cat_nothing f (or_term g) mem t cs cur ltac:(set_solver))). by eexists.
Qed.

Lemma or_of_cat n p : pat_text 3 p = pat_text 2 p -> cat_ok n p -> or_ok (S n) p.
Proof.
  intros Et HC f rest Hf Hst ps Hmem Hl. rewrite Et in Hl. destruct f as [|f]; [lia|].
  destruct (HC f f rest ltac:(lia) ltac:(lia) ltac:(destruct Hst as [->|(b & r' & -> & Hb)]; [by left|right; eexists _, _; split; [done|set_solver]]) ps Hmem Hl)
    as (r & ps' & E & Hr & Hm & Hl').
  destruct (loaded_stop [41] rest ps' Hst ltac:(by repeat constructor) Hl') as (mem & t & cs & cur & -> & Ht).
  cbn [or_term]. rewrite (rx_exec _ _ _ _ _ E), cur_type_exec. rewrite (proj2 (Z.eqb_neq t 124)) by set_solver. by eexists _, _.
Qed.

Lemma term_of_group n p q : pat_text 0 q = group (pat_text 3 p) -> (forall r, ast_of p r -> ast_of q r) -> pat_ok p = true -> or_ok n p -> term_ok n q.
Proof.
  intros Et Hast Hp HO g rest Hg Hst ps Hmem Hl. rewrite Et in Hl. unfold group in Hl. cbn [app] in Hl. apply loaded_special in Hl as (mem & cs & -> & Hwf); [|done].
  unfold term. rewrite cur_type_exec. cbn [Z.eqb Pos.eqb]. rewrite <- app_assoc in *. cbn [app] in *.
  destruct (load mem 40 cs _ (pat_starts p 3 (41 :: rest) Hp) Hwf) as (n' & ps1 & E1 & Hl1 & M1). rewrite (rx_exec _ _ _ _ _ E1).
  destruct (HO g (41 :: rest) Hg ltac:(right; eexists _, _; split; [done|set_solver]) ps1 ltac:(by rewrite M1) Hl1) as (r & ps2 & E2 & Hr & Hm2 & Hl2).
  rewrite (rx_exec _ _ _ _ _ E2). apply loaded_special in Hl2 as (mem2 & cs2 & -> & Hwf2); [|done]. rewrite cur_type_exec. cbn [Z.eqb Pos.eqb negb].
  destruct (load mem2 41 cs2 rest Hst Hwf2) as (n3 & ps3 & E3 & Hl3 & M3). rewrite (rx_exec _ _ _ _ _ E3). exists r, ps3. rewrite M3. split; [done|]. split; [by apply Hast|done].
Qed.

Lemma term_of_or n p : pat_text 0 p = group (pat_text 3 p) -> pat_ok p = true -> or_ok n p -> term_ok n p.
Proof. intros Et. by apply term_of_group. Qed.

(** *** Every kind of pattern at its own level *)

Lemma atom_term a : atom_ok a = true -> term_ok 0 (PAtom a).
Proof.
  intros Ha g rest _ Hst ps Hmem Hl. cbn [pat_text] in Hl. apply loaded_atom in Hl as (mem & cs & -> & Hs); [|done].
  unfold term. rewrite cur_type_exec. cbn [Z.eqb]. destruct (new_node_ok (CHARSET (dm_bitset_create 256) 0) mem 0 cs rest Hmem) as (mem1 & E1 & Hm1).
  rewrite (rx_exec _ _ _ _ _ E1). cbv beta iota. rewrite rx_get_exec. cbn [ps_charset].
  rewrite (dm_bit_copy_spec 256) by first [apply bs_create_wf; lia|apply Hs]. cbn [rx_opt]. rewrite p_ret_exec.
  destruct (load mem1 0 cs rest Hst (proj1 Hs)) as (n & ps2 & E2 & Hl2 & M2). rewrite (rx_exec _ _ _ _ _ E2). eexists _, ps2. split; [reflexivity|]. by rewrite M2.
Qed.

Lemma op_closure b (f : rx_node -> rx_node) (q : pat -> pat) n l :
  (b = 42 /\ f = STAR /\ q = PStar) \/ (b = 43 /\ f = PLUS /\ q = PPlus) \/ (b = 63 /\ f = QUEST /\ q = PQuest) ->
  (pat_size l < n)%nat -> closure_ok n l -> closure_ok (S n) (q l).
Proof.
  intros Hq Hn HK k g rest ps Hk Hg Hst Hmem Hl. assert (pat_text 1 (q l) = pat_text 1 l ++ [b]) as Et by by destruct Hq as [(-> & -> & ->)|[(-> & -> & ->)|(-> & -> & ->)]].
  assert (special b = true) as Hb by by destruct Hq as [(-> & _)|[(-> & _)|(-> & _)]]. rewrite Et, <- app_assoc in Hl. cbn [app] in Hl.
  destruct (HK k g (b :: rest) ps ltac:(lia) ltac:(lia) ltac:(by constructor) Hmem Hl) as (k1 & r & ps1 & Hk1 & E1 & Hr & Hm1 & Hl1).
  apply loaded_special in Hl1 as (mem1 & cs1 & -> & Hwf1); [|done]. destruct k1 as [|k1]; [lia|].
  destruct (new_node_ok (f r) mem1 b cs1 rest Hm1) as (mem2 & E2 & Hm2). destruct (load mem2 b cs1 rest Hst Hwf1) as (n3 & ps3 & E3 & Hl3 & M3).
  exists k1, (f r), ps3. split; [destruct Hq as [(_ & _ & ->)|[(_ & _ & ->)|(_ & _ & ->)]]; cbn; lia|]. rewrite E1. cbn [closure_loop]. rewrite cur_type_exec. split; [|rewrite M3; split; [|done]].
  - destruct Hq as [(-> & -> & _)|[(-> & -> & _)|(-> & -> & _)]]; cbn [Z.eqb Pos.eqb]; rewrite (rx_exec _ _ _ _ _ E2); cbv beta iota; by rewrite (rx_exec _ _ _ _ _ E3).
  - by destruct Hq as [(_ & -> & ->)|[(_ & -> & ->)|(_ & -> & ->)]].
Qed.

Lemma begin_type p level rest ps : pat_ok p = true -> loaded (pat_text level p ++ rest) ps ->
  exists mem t cs cur, ps = ParseSp mem t cs cur /\ (t = 0 \/ t = 40).
Proof.
  intros Hp Hl. destruct (pat_begins p Hp level rest) as [(a & rest' & Ha & E)|(rest' & E)]; rewrite E in Hl.
  - apply loaded_atom in Hl as (mem & cs & -> & _); [|done]. eexists _, _, _, _. split; [done|by left].
  - apply loaded_special in Hl as (mem & cs & -> & _); [|done]. eexists _, _, _, _. split; [done|by right].
Qed.

Lemma cat_cat n l r : pat_ok r = true -> (pat_size l < n)%nat -> closure_ok n l -> cat_ok n r -> cat_ok (S n) (PCat l r).
Proof.
  intros Hr Hn HK HC f g rest Hf Hg Hst ps Hmem Hl. cbn [pat_text Nat.leb] in Hl. rewrite <- app_assoc in Hl. destruct f as [|f]; [lia|].
  destruct (HK f g _ ps ltac:(lia) ltac:(lia) (pat_starts r 2 rest Hr) Hmem Hl) as (f' & l' & ps1 & Hf' & E1 & Hl' & Hm1 & Hl1).
  destruct (begin_type r 2 rest ps1 Hr Hl1) as (mem & t & cs & cur & -> & Ht). destruct f' as [|f']; [lia|].
  rewrite closure_loop_stops in E1 by (destruct Ht as [-> | ->]; set_solver). cbn [cat_term]. rewrite (rx_exec _ _ _ _ _ E1), cur_type_exec.
  rewrite (proj2 (Z.eqb_neq t 124)) by (destruct Ht; lia). destruct (HC f g rest ltac:(lia) ltac:(lia) Hst _ Hm1 Hl1) as (r' & ps2 & E2 & Hr' & Hm2 & Hl2).
  rewrite (rx_exec _ _ _ _ _ E2). destruct ps2 as [mem2 t2 cs2 cur2]. destruct (new_node_ok (CAT l' r') mem2 t2 cs2 cur2 Hm2) as (mem3 & -> & Hm3).
  eexists _, _. split; [done|]. done.
Qed.

Lemma or_or n l r : pat_ok r = true -> cat_ok n l -> or_ok n r -> or_ok (S n) (POr l r).
Proof.
  intros Hr HC HO f rest Hf Hst ps Hmem Hl. cbn [pat_text Nat.leb] in Hl. rewrite <- app_assoc in Hl. cbn [app] in Hl. destruct f as [|f]; [lia|].
  destruct (HC f f (124 :: pat_text 3 r ++ rest) ltac:(lia) ltac:(lia) ltac:(right; eexists _, _; split; [done|set_solver]) ps Hmem Hl) as (l' & ps1 & E1 & Hl' & Hm1 & Hl1).
  apply loaded_special in Hl1 as (mem1 & cs1 & -> & Hwf1); [|done]. cbn [or_term]. rewrite (rx_exec _ _ _ _ _ E1), cur_type_exec. cbn [Z.eqb Pos.eqb negb].
  destruct (load mem1 124 cs1 _ (pat_starts r 3 rest Hr) Hwf1) as (n2 & ps2 & E2 & Hl2 & M2). rewrite (rx_exec _ _ _ _ _ E2).
  destruct (HO f rest ltac:(lia) Hst ps2 ltac:(by rewrite M2) Hl2) as (r' & ps3 & E3 & Hr' & Hm3 & Hl3). rewrite (rx_exec _ _ _ _ _ E3).
  destruct ps3 as [mem3 t3 cs3 cur3]. destruct (new_node_ok (OR l' r') mem3 t3 cs3 cur3 Hm3) as (mem4 & -> & Hm4). eexists _, _. split; [done|]. done.
Qed.

Lemma term_more n n' p : (n <= n')%nat -> term_ok n p -> term_ok n' p.
Proof. intros Hn H g rest Hg. apply H. lia. Qed.

Lemma closure_more n n' p : (n <= n')%nat -> closure_ok n p -> closure_ok n' p.
Proof. intros Hn H f g rest ps Hf Hg. apply H; lia. Qed.

Lemma cat_more n n' p : (n <= n')%nat -> cat_ok n p -> cat_ok n' p.
Proof. intros Hn H f g rest Hf Hg. apply H; lia. Qed.

Lemma or_more n n' p : (n <= n')%nat -> or_ok n p -> or_ok n' p.
Proof. intros Hn H f rest Hf. apply H. lia. Qed.

(** The text of a pattern is read at every level. *)
Definition reads_all (n : nat) (p : pat) : Prop := term_ok n p /\ closure_ok n p /\ cat_ok n p /\ or_ok n p.

Lemma reads_up p n :
  (pat_size p < n)%nat -> pat_text 2 p = pat_text 1 p -> pat_text 3 p = pat_text 2 p -> pat_ok p = true -> closure_ok n p ->
  term_ok n p \/ pat_text 0 p = group (pat_text 3 p) -> reads_all (n + 2) p.
Proof.
  intros Hn E2 E3 Hp HK HT. pose proof (cat_of_closure n p E2 Hn HK) as HC. pose proof (or_of_cat _ p E3 HC) as HO.
  split; [|split; [eapply closure_more; [|exact HK]; lia|split; [eapply cat_more; [|exact HC]; lia|eapply or_more; [|exact HO]; lia]]].
  destruct HT as [HT|E0]; [eapply term_more; [|exact HT]; lia|]. eapply term_more; [|exact (term_of_or _ p E0 Hp HO)]. lia.
Qed.

Lemma reads_cat n l r :
  pat_ok (PCat l r) = true -> (pat_size l < n)%nat -> closure_ok n l -> cat_ok n r -> reads_all (n + 2) (PCat l r).
Proof.
  intros Hp Hn HK HC. assert (pat_ok r = true) as Hr by (cbn in Hp; apply andb_true_iff in Hp; tauto).
  pose proof (cat_cat n l r Hr Hn HK HC) as HC'. pose proof (or_of_cat (S n) (PCat l r) eq_refl HC') as HO.
  pose proof (term_of_or _ (PCat l r) eq_refl Hp HO) as HT. pose proof (closure_of_term _ (PCat l r) eq_refl HT) as HK'.
  split; [eapply term_more; [|exact HT]; lia|split; [eapply closure_more; [|exact HK']; lia|split; [eapply cat_more; [|exact HC']; lia|eapply or_more; [|exact HO]; lia]]].
Qed.

Lemma reads_or n l r :
  pat_ok (POr l r) = true -> (pat_size (POr l r) < n)%nat -> cat_ok n l -> or_ok n r -> reads_all (n + 2) (POr l r).
Proof.
  intros Hp Hn HC HO. assert (pat_ok r = true) as Hr by (cbn in Hp; apply andb_true_iff in Hp; tauto).
  pose proof (or_or n l r Hr HC HO) as HO'. pose proof (term_of_or _ (POr l r) eq_refl Hp HO') as HT.
  pose proof (closure_of_term _ (POr l r) eq_refl HT) as HK. assert (cat_ok (S (S n)) (POr l r)) as HC' by (apply cat_of_closure; [done|lia|done]).
  split; [eapply term_more; [|exact HT]; lia|split; [eapply closure_more; [|exact HK]; lia|split; [eapply cat_more; [|exact HC']; lia|eapply or_more; [|exact HO']; lia]]].
Qed.

Lemma reads_all_more n n' p : (n <= n')%nat -> reads_all n p -> reads_all n' p.
Proof.
  intros Hn (H1 & H2 & H3 & H4). split; [by apply (term_more n)|]. split; [by apply (closure_more n)|]. split; [by apply (cat_more n)|by apply (or_more n)].
Qed.

Lemma reads_op b f q l :
  (b = 42 /\ f = STAR /\ q = PStar) \/ (b = 43 /\ f = PLUS /\ q = PPlus) \/ (b = 63 /\ f = QUEST /\ q = PQuest) ->
  pat_ok l = true -> (0 < pat_size l)%nat -> closure_ok (8 * pat_size l) l -> reads_all (8 * pat_size (q l)) (q l).
Proof.
  intros Hq Hl Hz HK. assert (pat_size (q l) = S (pat_size l)) as Es by by destruct Hq as [(_ & _ & ->)|[(_ & _ & ->)|(_ & _ & ->)]].
  apply (reads_all_more (S (8 * pat_size l) + 2)); [lia|]. apply reads_up; [lia| | | |eapply (op_closure b f q); [done|lia|done]|right];
    by destruct Hq as [(_ & _ & ->)|[(_ & _ & ->)|(_ & _ & ->)]].
Qed.

Lemma pat_reads p : pat_ok p = true -> reads_all (8 * pat_size p) p.
Proof.
  assert (forall p, (0 < pat_size p)%nat) as Hz by (intros []; cbn; lia).
  induction p as [a|l IHl r IHr|l IHl r IHr|l IH|l IH|l IH|l IH]; intros Hok; pose proof Hok as Hok'; cbn [pat_ok] in Hok'; rewrite ?andb_true_iff in Hok'.
  - apply (reads_all_more (2 + 2)); [cbn; lia|]. pose proof (atom_term a Hok) as HT.
    apply reads_up; [cbn; lia|done|done|done|apply (closure_more 0), closure_of_term; [lia|done|exact HT]|]. left. eapply term_more; [|exact HT]. lia.
  - destruct Hok' as [Hl Hr]. destruct (IHl Hl) as (_ & HK & _), (IHr Hr) as (_ & _ & HC & _). pose proof (Hz l). pose proof (Hz r).
    apply (reads_all_more (8 * (pat_size l + pat_size r) + 2)); [cbn; lia|].
    apply reads_cat; [done|lia|eapply closure_more; [|exact HK]; lia|eapply cat_more; [|exact HC]; lia].
  - destruct Hok' as [Hl Hr]. destruct (IHl Hl) as (_ & _ & HC & _), (IHr Hr) as (_ & _ & _ & HO). pose proof (Hz l). pose proof (Hz r).
    apply (reads_all_more (8 * (pat_size l + pat_size r) + 2)); [cbn; lia|].
    apply reads_or; [done|cbn; lia|eapply cat_more; [|exact HC]; lia|eapply or_more; [|exact HO]; lia].
  - apply (reads_op 42 STAR PStar); [by left|done|apply Hz|by apply IH].
  - apply (reads_op 43 PLUS PPlus); [by right; left|done|apply Hz|by apply IH].
  - apply (reads_op 63 QUEST PQuest); [by right; right|done|apply Hz|by apply IH].
  - destruct (IH Hok) as (_ & _ & _ & HO). pose proof (Hz l). assert (term_ok (8 * pat_size l) (PGroup l)) as HT by by apply (term_of_group _ l).
    apply (reads_all_more (8 * pat_size l + 2)); [cbn; lia|]. apply reads_up; [cbn; lia|done|done|done|by apply closure_of_term|by left].
Qed.
