(* ===== verification/Ttree.v ===== *)
(** * Ternary trees (libdm/regex/ttree.c)

    The tree in which the matcher looks up the states it has made.  Keys are lists
    of words of a fixed length; a level of the tree is a binary search tree of
    words, and the middle pointer leads to the next level. *)

From S2P Require Import Prelude Bitset Regex RegexOpt.

(** [struct node] with what its pointers point to; data is the address of a state. *)
Inductive tnode := TNil | TNode (k : Z) (l m r : tnode) (data : option nat).

Record ttree := Ttree { tt_klen : nat; tt_root : tnode }.

(** [_lookup_single]: what the pointer it returns points to. *)
Fixpoint lookup_single (c : tnode) (k : Z) : tnode :=
  match c with
  | TNil => TNil
  | TNode k' l m r _ => if k <? k' then lookup_single l k else if k' <? k then lookup_single r k else m
  end.

(** The same place, with a new value. *)
Fixpoint update_single (c : tnode) (k : Z) (x : tnode) : tnode :=
  match c with
  | TNil => x
  | TNode k' l m r d =>
      if k <? k' then TNode k' (update_single l k x) m r d
      else if k' <? k then TNode k' l m (update_single r k x) d
      else TNode k' l x r d
  end.

(** The loop of [ttree_lookup]; [None]: the key is too short. *)
Fixpoint lookup_loop (c : tnode) (key : list Z) (count : nat) : option tnode :=
  match c, count with
  | TNil, _ | _, O => Some c
  | _, S count => match key with [] => None | k :: key => lookup_loop (lookup_single c k) key count end
  end.

Definition ttree_lookup (tt : ttree) (key : list Z) : option (option nat) :=
  c ← lookup_loop (tt_root tt) key (tt_klen tt);
  Some (match c with TNil => None | TNode _ _ _ _ d => d end).

(** [_tree_node] *)
Definition tree_node (k : Z) : RX (list bool) (option tnode) :=
  ok ← rx_alloc; mret (if ok : bool then Some (TNode k TNil TNil TNil None) else None).

Definition set_data (d : nat) (c : tnode) : tnode := match c with TNil => TNil | TNode k l m r _ => TNode k l m r (Some d) end.
Definition set_m (x : tnode) (c : tnode) : tnode := match c with TNil => TNil | TNode k l _ r d => TNode k l x r d end.

(** The nodes that are missing: [count] of them, the first with key [k]. *)
Fixpoint insert_chain (count : nat) (k : Z) (key : list Z) (data : nat) : RX (list bool) (tnode * bool) :=
  match count with
  | O => mret (TNil, true)
  | S count =>
      n ← tree_node k;
      match n with
      | None => mret (TNil, false)
      | Some n =>
          match count with
          | O => mret (set_data data n, true)
          | S _ =>
              match key with
              | [] => rx_wild
              | k :: key => mb ← insert_chain count k key data; mret (set_m mb.1 n, mb.2)
              end
          end
      end
  end.

(** The loop of [ttree_insert] from the level [c] on, with [count] keys left. *)
Fixpoint insert_loop (key : list Z) (c : tnode) (count : nat) (data : nat) : RX (list bool) (tnode * bool) :=
  match key with
  | [] => rx_wild
  | k :: key =>
      let at_c := lookup_single c k in
      r ← match at_c, (count - 1)%nat with
          | TNil, rest => insert_chain (S rest) k key data
          | _, O => mret (set_data data at_c, true)
          | _, rest => insert_loop key at_c rest data
          end;
      mret (update_single c k r.1, r.2)
  end.

Definition ttree_insert (tt : ttree) (key : list Z) (data : nat) : RX (list bool) (ttree * bool) :=
  r ← insert_loop key (tt_root tt) (tt_klen tt) data; mret (Ttree (tt_klen tt) r.1, r.2).

(** [ttree_create] *)
Definition ttree_create (klen : nat) : RX (list bool) (option ttree) :=
  ok ← rx_alloc; mret (if ok : bool then Some (Ttree klen TNil) else None).

(** ** Looking up what was inserted *)

(** The word is a key of this level. *)
Fixpoint contains (c : tnode) (k : Z) : bool :=
  match c with
  | TNil => false
  | TNode k' l _ r _ => if k <? k' then contains l k else if k' <? k then contains r k else true
  end.

(** A node without neighbours. *)
Definition single (k : Z) (c : tnode) : Prop := exists m d, c = TNode k TNil m TNil d.

Lemma lookup_not_contained c k : contains c k = false -> lookup_single c k = TNil.
Proof. induction c as [|k' l IHl m _ r IHr d]; cbn; [done|]. repeat case_match; naive_solver. Qed.

Lemma lookup_update_in c k x : contains c k = true -> lookup_single (update_single c k x) k = x /\ contains (update_single c k x) k = true.
Proof.
  induction c as [|k' l IHl m _ r IHr d]; cbn; [done|]. destruct (k <? k') eqn:E1; [cbn; rewrite E1; auto|].
  destruct (k' <? k) eqn:E2; cbn; rewrite E1, E2; auto.
Qed.

Lemma lookup_update_new c k x : contains c k = false -> single k x ->
  lookup_single (update_single c k x) k = lookup_single x k /\ contains (update_single c k x) k = true.
Proof.
  intros H (m & d & ->). induction c as [|k' l IHl m' _ r IHr d']; cbn in *; [by rewrite Z.ltb_irrefl|]. destruct (k <? k') eqn:E1; [cbn; rewrite E1; auto|].
  destruct (k' <? k) eqn:E2; [cbn; rewrite E1, E2; auto|done].
Qed.

Lemma lookup_update_other c k k' x : k' <> k -> contains c k = true \/ single k x -> lookup_single (update_single c k x) k' = lookup_single c k'.
Proof.
  intros Hk. induction c as [|k1 l IHl m _ r IHr d]; cbn.
  - intros [|(m & d & ->)]; [done|]. cbn. destruct (Z.ltb_spec k' k); [done|]. destruct (Z.ltb_spec k k'); [done|lia].
  - intros H. destruct (Z.ltb_spec k k1) as [L1|L1]; [cbn; destruct (Z.ltb_spec k' k1); [by apply IHl|done]|].
    destruct (Z.ltb_spec k1 k) as [L2|L2]; cbn.
    + destruct (Z.ltb_spec k' k1), (Z.ltb_spec k1 k'); try done; [by apply IHr].
    + destruct (Z.ltb_spec k' k1), (Z.ltb_spec k1 k'); try done. lia.
Qed.

(** The data a key leads to. *)
Definition data_at (c : tnode) (key : list Z) : option nat :=
  match lookup_loop c key (length key) with Some (TNode _ _ _ _ d) => d | _ => None end.

Lemma data_at_cons c k key : data_at c (k :: key) = data_at (lookup_single c k) key.
Proof. unfold data_at. destruct c; cbn [lookup_loop length lookup_single]; [|done]. by destruct key. Qed.

Lemma data_at_nil key : data_at TNil key = None.
Proof. unfold data_at. by destruct key. Qed.

Lemma ttree_lookup_eq tt key : length key = tt_klen tt -> ttree_lookup tt key = Some (data_at (tt_root tt) key).
Proof.
  intros H. unfold ttree_lookup, data_at. rewrite H. destruct tt as [n c]. cbn in *. revert n H c.
  induction key as [|k key IH]; intros n H c; cbn in H; subst n; [by destruct c|]. destruct c; [done|]. cbn [lookup_loop length]. by apply IH.
Qed.

(** Every node leads down to the last level. *)
Fixpoint full (n : nat) (c : tnode) : Prop :=
  match c with
  | TNil => True
  | TNode _ l m r _ => full n l /\ full n r /\ match n with S (S n) => m <> TNil /\ full (S n) m | _ => True end
  end.

Lemma full_lookup n c k : full (S (S n)) c -> contains c k = true -> lookup_single c k <> TNil /\ full (S n) (lookup_single c k).
Proof.
  induction c as [|k' l IHl m _ r IHr d]; [done|]. cbn [full contains lookup_single]. intros (H1 & H2 & H3).
  destruct (k <? k'); [by apply IHl|]. destruct (k' <? k); [by apply IHr|done].
Qed.

Lemma full_update n c k x :
  full n c -> (contains c k = true -> match n with S (S n) => x <> TNil /\ full (S n) x | _ => True end) -> (contains c k = false -> full n x) ->
  full n (update_single c k x).
Proof.
  induction c as [|k' l IHl m _ r IHr d]; cbn [full contains update_single]; [auto|]. intros (H1 & H2 & H3) Hin Hout.
  destruct (k <? k'); [cbn; auto|]. destruct (k' <? k); [cbn; auto|]. cbn. split; [done|]. split; [done|]. by apply Hin.
Qed.

(** The key was inserted before. *)
Fixpoint has (c : tnode) (key : list Z) : bool :=
  match key with [] => true | k :: key => contains c k && has (lookup_single c k) key end.

(** *** New nodes *)

Lemma tree_node_ok k mem : false ∉ mem -> tree_node k mem = RxRet (Some (TNode k TNil TNil TNil None)) (tail mem) /\ false ∉ tail mem.
Proof. intros H. destruct (rx_alloc_ok mem H) as [E H']. split; [|done]. unfold tree_node. by rewrite (rx_exec _ _ _ _ _ E). Qed.

Lemma insert_chain_spec key : forall k data mem, false ∉ mem ->
  exists c mem', insert_chain (S (length key)) k key data mem = RxRet (c, true) mem' /\ false ∉ mem' /\ single k c /\ full (S (length key)) c /\ has c (k :: key) = true /\
    data_at c (k :: key) = None /\ (key = [] -> data_at c [] = Some data) /\
    forall key', length key' = length key -> key' <> key -> data_at c (k :: key') = None.
Proof.
  induction key as [|k1 key IH]; intros k data mem Hmem; destruct (tree_node_ok k mem Hmem) as [Ea Hmem1]; cbn [length insert_chain].
  - rewrite (rx_exec _ _ _ _ _ Ea). eexists _, _. split; [reflexivity|]. split; [done|].
    split; [by eexists _, _|]. split; [done|]. rewrite data_at_cons. cbn. rewrite Z.ltb_irrefl. split; [done|]. split; [done|]. split; [done|]. by intros [|].
  - rewrite (rx_exec _ _ _ _ _ Ea). cbv beta iota. cbn [length].
    destruct (IH k1 data (tail mem) Hmem1) as (c & mem' & E & Hm & Hsing & Hfull & Hhas & Hd & _ & Hother). cbn [insert_chain] in E. rewrite (rx_exec _ _ _ _ _ E).
    eexists _, mem'. split; [reflexivity|]. split; [done|]. split; [by eexists _, _|].
    split; [cbn; split; [done|]; split; [done|]; split; [destruct Hsing as (? & ? & ->); done|done]|].
    rewrite data_at_cons. cbn [set_m fst lookup_single]. split; [cbn [has contains lookup_single] in *; by rewrite !Z.ltb_irrefl|].
    rewrite Z.ltb_irrefl. split; [done|]. split; [done|].
    intros [|k' key'] Hl Hne; [done|]. rewrite data_at_cons. cbn [lookup_single]. rewrite Z.ltb_irrefl. destruct (decide (k' = k1)) as [->|Hk].
    + apply Hother; [by injection Hl|congruence].
    + rewrite data_at_cons. destruct Hsing as (m & d & ->). cbn [lookup_single]. destruct (Z.ltb_spec k' k1); [by rewrite data_at_nil|].
      destruct (Z.ltb_spec k1 k'); [by rewrite data_at_nil|lia].
Qed.

(** What an insertion changes: the data of no other key, and that of its key when it
    was there already. *)
Lemma insert_loop_spec key : forall c data mem, key <> [] -> full (length key) c -> false ∉ mem ->
  exists c' mem', insert_loop key c (length key) data mem = RxRet (c', true) mem' /\ false ∉ mem' /\ full (length key) c' /\
    has c' key = true /\ data_at c' key = (if has c key then Some data else None) /\
    forall key', length key' = length key -> key' <> key -> data_at c' key' = data_at c key'.
Proof.
  induction key as [|k key IH]; intros c data mem Hkey Hfull Hmem; [done|]. cbn [insert_loop length]. rewrite Nat.sub_succ, Nat.sub_0_r.
  destruct (contains c k) eqn:Ec.
  - destruct key as [|k1 key].
    + assert (exists x mem', (match lookup_single c k, 0%nat with
          | TNil, rest => insert_chain (S rest) k [] data
          | _, O => mret (set_data data (lookup_single c k), true)
          | _, rest => insert_loop [] (lookup_single c k) rest data end) mem = RxRet (x, true) mem' /\ false ∉ mem' /\ data_at x [] = Some data) as (x & mem' & E & Hm & Hx).
      { destruct (lookup_single c k) as [|k2 l m r d]; [|by eexists _, mem].
        destruct (insert_chain_spec [] k data mem Hmem) as (x & mem' & E & Hm & _ & _ & _ & _ & Hx & _). exists x, mem'. split; [done|]. split; [done|]. by apply Hx. }
      cbn [length] in *. rewrite (rx_exec _ _ _ _ _ E). eexists _, mem'. split; [reflexivity|]. split; [done|]. cbn [fst]. destruct (lookup_update_in c k x Ec) as [L1 L2].
      split; [by apply full_update; [done| |congruence]|]. split; [cbn; by rewrite L2|]. split; [cbn [has]; rewrite data_at_cons, L1, Ec; done|].
      intros [|k' [|]] Hl Hne; try done. rewrite !data_at_cons, lookup_update_other; [done|congruence|by left].
    + destruct (full_lookup _ c k Hfull Ec) as [Hne Hfull']. destruct (IH (lookup_single c k) data mem ltac:(done) Hfull' Hmem) as (x & mem' & E & Hm & Hf & Hh & Hd & Ho).
      assert ((match lookup_single c k, length (k1 :: key) with
          | TNil, rest => insert_chain (S rest) k (k1 :: key) data
          | _, O => mret (set_data data (lookup_single c k), true)
          | _, rest => insert_loop (k1 :: key) (lookup_single c k) rest data end) mem = RxRet (x, true) mem') as E' by by destruct (lookup_single c k).
      rewrite (rx_exec _ _ _ _ _ E'). eexists _, mem'. split; [reflexivity|]. split; [done|]. cbn [fst]. destruct (lookup_update_in c k x Ec) as [L1 L2].
      split; [apply full_update; [done| |congruence]; intros _; split; [by intros ->|done]|]. split; [cbn [has] in *; by rewrite L1, L2|].
      split; [rewrite data_at_cons, L1, Hd; cbn [has]; by rewrite Ec|]. intros [|k' key'] Hl Hne'; [done|]. rewrite !data_at_cons.
      destruct (decide (k' = k)) as [->|Hk]; [rewrite L1; apply Ho; [by injection Hl|congruence]|]. rewrite lookup_update_other; [done|done|by left].
  - rewrite (lookup_not_contained c k Ec). destruct (insert_chain_spec key k data mem Hmem) as (x & mem' & E & Hm & Hs & Hf & Hh & Hd & _ & Ho).
    rewrite (rx_exec _ _ _ _ _ E). eexists _, mem'. split; [reflexivity|]. split; [done|]. cbn [fst]. destruct (lookup_update_new c k x Ec Hs) as [L1 L2].
    split; [apply full_update; [done|congruence|done]|]. split; [cbn [has] in *; rewrite L1, L2; by apply andb_true_iff in Hh as [_ ->]|]. split; [rewrite data_at_cons, L1, <- data_at_cons, Hd; cbn [has]; by rewrite Ec|].
    intros [|k' key'] Hl Hne; [done|]. destruct (decide (k' = k)) as [->|Hk].
    + rewrite !data_at_cons, L1, <- data_at_cons, Ho by (injection Hl as ?; congruence). by rewrite (lookup_not_contained c k Ec), data_at_nil.
    + rewrite !data_at_cons, lookup_update_other; [done|done|by right].
Qed.

(** A key that is inserted for the first time is not found: the lookup goes on
    below the last node of the key, where the insertion put no node.  From the second
    insertion of the key on it is found with the data of the last insertion.  The
    data of other keys stays as it was. *)
Theorem ttree_finds_second tr key d1 d2 mem :
  (0 < tt_klen tr)%nat -> length key = tt_klen tr -> full (tt_klen tr) (tt_root tr) -> has (tt_root tr) key = false -> false ∉ mem ->
  exists t1 t2 mem1 mem2, ttree_insert tr key d1 mem = RxRet (t1, true) mem1 /\ ttree_lookup t1 key = Some None /\
    ttree_insert t1 key d2 mem1 = RxRet (t2, true) mem2 /\ ttree_lookup t2 key = Some (Some d2) /\
    forall key', length key' = tt_klen tr -> key' <> key -> ttree_lookup t2 key' = ttree_lookup tr key'.
Proof.
  intros Hpos Hlen Hfull Hhas Hmem. assert (key <> []) as Hne by (intros ->; cbn in Hlen; lia). unfold ttree_insert. rewrite <- Hlen in *.
  destruct (insert_loop_spec key (tt_root tr) d1 mem Hne Hfull Hmem) as (c1 & mem1 & E1 & H1 & F1 & G1 & D1 & O1).
  destruct (insert_loop_spec key c1 d2 mem1 Hne F1 H1) as (c2 & mem2 & E2 & H2 & F2 & G2 & D2 & O2). rewrite Hhas in D1. rewrite G1 in D2.
  exists (Ttree (length key) c1), (Ttree (length key) c2), mem1, mem2. rewrite (rx_exec _ _ _ _ _ E1). cbn [tt_klen tt_root fst snd]. rewrite (rx_exec _ _ _ _ _ E2).
  split; [done|]. rewrite !ttree_lookup_eq by done. cbn [tt_root]. rewrite D1, D2. split; [done|]. split; [done|]. split; [done|].
  intros key' Hl Hk. rewrite !ttree_lookup_eq by (cbn [tt_klen]; congruence). cbn [tt_root]. by rewrite O2, O1.
Qed.

Lemma ttree_finds_second_witness :
  exists t1 t2 mem1 mem2, ttree_insert (Ttree 2 TNil) [5; 7] 1 [] = RxRet (t1, true) mem1 /\ ttree_lookup t1 [5; 7] = Some None /\
    ttree_insert t1 [5; 7] 2 mem1 = RxRet (t2, true) mem2 /\ ttree_lookup t2 [5; 7] = Some (Some 2%nat) /\
    forall key', length key' = 2%nat -> key' <> [5; 7] -> ttree_lookup t2 key' = ttree_lookup (Ttree 2 TNil) key'.
Proof. apply (ttree_finds_second (Ttree 2 TNil) [5; 7] 1 2 []); [cbn; lia|reflexivity|exact I|reflexivity|apply not_elem_of_nil]. Defined.
