(* ===== verification/Matcher.v ===== *)
(** * The regular expression matcher (libdm/regex/matcher.c)

    The patterns are joined to one expression; from its position functions a
    deterministic automaton is computed state by state, as the matcher comes to the
    states.  Nodes and states are addressed by their number. *)

From S2P Require Import Prelude Bitset Regex Ttree.

(** ** Tables *)

(** A [struct rx_node] as the matcher uses it; the nodes below it by their number in
    [m->nodes]. *)
Record mnode := MNode {
  mn_rx : rx_node;
  mn_left : option nat;
  mn_right : option nat;
  mn_nullable : bool;
  mn_final : Z;
  mn_firstpos : list Z;
  mn_lastpos : list Z;
  mn_followpos : list Z }.

(** [struct dfa_state] *)
Record dfa_state := DfaState {
  da_next : option nat;
  da_final : Z;
  da_bits : list Z;
  da_lookup : list (option nat) }.

Record dm_regex := DmRegex {
  m_start : nat;
  m_num_nodes : Z;
  m_num_charsets : Z;
  m_nodes : list mnode;
  m_charsets : list nat;
  m_charmap : list (list Z);
  m_dfa_copy : list Z;
  m_tt : ttree;
  m_bs : list Z;
  m_h : option nat;
  m_t : option nat;
  m_states : list dfa_state;
  m_mem : list bool }.

(** [_count_nodes], [_count_charsets] *)
Fixpoint count_nodes (rx : rx_node) : Z :=
  match rx with
  | CAT l r | OR l r => 1 + count_nodes l + count_nodes r
  | STAR l | PLUS l | QUEST l => 1 + count_nodes l
  | CHARSET _ _ => 1
  end.

Fixpoint count_charsets (rx : rx_node) : Z :=
  match rx with
  | CAT l r | OR l r => count_charsets l + count_charsets r
  | STAR l | PLUS l | QUEST l => count_charsets l
  | CHARSET _ _ => 1
  end.

(** [_enumerate_charsets_internal] *)
Fixpoint enumerate_charsets_internal (rx : rx_node) (i : Z) : rx_node * Z :=
  match rx with
  | CHARSET cs _ => (CHARSET cs i, i + 1)
  | CAT l r => let '(l, i) := enumerate_charsets_internal l i in let '(r, i) := enumerate_charsets_internal r i in (CAT l r, i)
  | OR l r => let '(l, i) := enumerate_charsets_internal l i in let '(r, i) := enumerate_charsets_internal r i in (OR l r, i)
  | STAR l => let '(l, i) := enumerate_charsets_internal l i in (STAR l, i)
  | PLUS l => let '(l, i) := enumerate_charsets_internal l i in (PLUS l, i)
  | QUEST l => let '(l, i) := enumerate_charsets_internal l i in (QUEST l, i)
  end.
Definition enumerate_charsets (rx : rx_node) : rx_node := (enumerate_charsets_internal rx 0).1.

Definition new_mnode (rx : rx_node) (l r : option nat) : mnode := MNode rx l r false 0 [] [] [].

(** [_fill_table]: the nodes and the numbers of the character sets entered so far. *)
Fixpoint fill_table (rx : rx_node) (t : list mnode * list nat) : list mnode * list nat :=
  match rx with
  | CAT l r | OR l r =>
      let t := fill_table l t in
      let li := (length t.1 - 1)%nat in
      let t := fill_table r t in
      let ri := (length t.1 - 1)%nat in
      (t.1 ++ [new_mnode rx (Some li) (Some ri)], t.2)
  | STAR l | PLUS l | QUEST l =>
      let t := fill_table l t in
      let li := (length t.1 - 1)%nat in
      (t.1 ++ [new_mnode rx (Some li) None], t.2)
  | CHARSET _ _ => (t.1 ++ [new_mnode rx None None], t.2 ++ [length t.1])
  end.

(** [_create_bitsets] for [num] character sets. *)
Fixpoint create_bitsets (num : Z) (nodes : list mnode) : RX (list bool) (option (list mnode)) :=
  match nodes with
  | [] => mret (Some [])
  | n :: nodes =>
      ok1 ← rx_alloc;
      if negb ok1 then mret None else
      ok2 ← rx_alloc;
      if negb ok2 then mret None else
      ok3 ← rx_alloc;
      if negb ok3 then mret None else
      r ← create_bitsets num nodes;
      mret (cons (MNode (mn_rx n) (mn_left n) (mn_right n) (mn_nullable n) (mn_final n)
                   (dm_bitset_create num) (dm_bitset_create num) (dm_bitset_create num)) <$> r)
  end.

(** ** Position functions *)

Definition set_pos (nullable : bool) (first last : list Z) (n : mnode) : mnode :=
  MNode (mn_rx n) (mn_left n) (mn_right n) nullable (mn_final n) first last (mn_followpos n).
Definition set_final (final : Z) (n : mnode) : mnode :=
  MNode (mn_rx n) (mn_left n) (mn_right n) (mn_nullable n) final (mn_firstpos n) (mn_lastpos n) (mn_followpos n).
Definition set_followpos (follow : list Z) (n : mnode) : mnode :=
  MNode (mn_rx n) (mn_left n) (mn_right n) (mn_nullable n) (mn_final n) (mn_firstpos n) (mn_lastpos n) follow.

Definition child (nodes : list mnode) (c : option nat) : option mnode := i ← c; nodes !! i.

(** The first [switch] of [_calc_functions]. *)
Definition calc_pos (nodes : list mnode) (n : mnode) : option mnode :=
  match mn_rx n with
  | CAT _ _ =>
      c1 ← child nodes (mn_left n); c2 ← child nodes (mn_right n);
      f ← (if mn_nullable c1 then dm_bit_union (mn_firstpos n) (mn_firstpos c1) (mn_firstpos c2)
           else dm_bit_copy (mn_firstpos n) (mn_firstpos c1));
      l ← (if mn_nullable c2 then dm_bit_union (mn_lastpos n) (mn_lastpos c1) (mn_lastpos c2)
           else dm_bit_copy (mn_lastpos n) (mn_lastpos c2));
      Some (set_pos (mn_nullable c1 && mn_nullable c2) f l n)
  | PLUS _ =>
      c1 ← child nodes (mn_left n);
      f ← dm_bit_copy (mn_firstpos n) (mn_firstpos c1); l ← dm_bit_copy (mn_lastpos n) (mn_lastpos c1);
      Some (set_pos (mn_nullable c1) f l n)
  | OR _ _ =>
      c1 ← child nodes (mn_left n); c2 ← child nodes (mn_right n);
      f ← dm_bit_union (mn_firstpos n) (mn_firstpos c1) (mn_firstpos c2);
      l ← dm_bit_union (mn_lastpos n) (mn_lastpos c1) (mn_lastpos c2);
      Some (set_pos (mn_nullable c1 || mn_nullable c2) f l n)
  | QUEST _ | STAR _ =>
      c1 ← child nodes (mn_left n);
      f ← dm_bit_copy (mn_firstpos n) (mn_firstpos c1); l ← dm_bit_copy (mn_lastpos n) (mn_lastpos c1);
      Some (set_pos true f l n)
  | CHARSET _ i =>
      f ← dm_bit_set (mn_firstpos n) i; l ← dm_bit_set (mn_lastpos n) i; Some (set_pos false f l n)
  end.

(** The loop over the character sets that unites [first] with the followpos of those
    in [last], from set [j] on. *)
Fixpoint unite_followpos (nodes : list mnode) (charsets : list nat) (j : Z) (last first : list Z) : option (list mnode) :=
  match charsets with
  | [] => Some nodes
  | c :: charsets =>
      n ← nodes !! c;
      b ← dm_bit last j;
      nodes ← (if b : bool then f ← dm_bit_union (mn_followpos n) (mn_followpos n) first; Some (<[c := set_followpos f n]> nodes)
               else Some nodes);
      unite_followpos nodes charsets (j + 1) last first
  end.

(** The body of the loop of [_calc_functions]; [final] is the next number. *)
Definition calc_node (charsets : list nat) (i : nat) (s : list mnode * Z) : option (list mnode * Z) :=
  let '(nodes, final) := s in
  n ← nodes !! i;
  b ← (if mn_rx n is CHARSET cs _ then dm_bit cs TARGET_TRANS else Some false);
  let n := if b : bool then set_final final n else n in
  let final := if b then final + 1 else final in
  n ← calc_pos nodes n;
  let nodes := <[i := n]> nodes in
  nodes ← (match mn_rx n with
           | CAT _ _ => c1 ← child nodes (mn_left n); c2 ← child nodes (mn_right n); unite_followpos nodes charsets 0 (mn_lastpos c1) (mn_firstpos c2)
           | PLUS _ | STAR _ => unite_followpos nodes charsets 0 (mn_lastpos n) (mn_firstpos n)
           | _ => Some nodes
           end);
  Some (nodes, final).

Definition calc_functions (nodes : list mnode) (charsets : list nat) : option (list mnode) :=
  s ← foldl (fun s i => s ← s; calc_node charsets i s) (Some (nodes, 1)) (seq 0 (length nodes)); Some s.1.

(** ** States *)

Definition set_dfa_copy (bs : list Z) (m : dm_regex) : dm_regex :=
  DmRegex (m_start m) (m_num_nodes m) (m_num_charsets m) (m_nodes m) (m_charsets m) (m_charmap m) bs (m_tt m) (m_bs m) (m_h m) (m_t m) (m_states m) (m_mem m).
Definition set_bs (bs : list Z) (m : dm_regex) : dm_regex :=
  DmRegex (m_start m) (m_num_nodes m) (m_num_charsets m) (m_nodes m) (m_charsets m) (m_charmap m) (m_dfa_copy m) (m_tt m) bs (m_h m) (m_t m) (m_states m) (m_mem m).
Definition set_tt (tt : ttree) (m : dm_regex) : dm_regex :=
  DmRegex (m_start m) (m_num_nodes m) (m_num_charsets m) (m_nodes m) (m_charsets m) (m_charmap m) (m_dfa_copy m) tt (m_bs m) (m_h m) (m_t m) (m_states m) (m_mem m).
Definition set_queue (h t : option nat) (m : dm_regex) : dm_regex :=
  DmRegex (m_start m) (m_num_nodes m) (m_num_charsets m) (m_nodes m) (m_charsets m) (m_charmap m) (m_dfa_copy m) (m_tt m) (m_bs m) h t (m_states m) (m_mem m).
Definition set_states (l : list dfa_state) (m : dm_regex) : dm_regex :=
  DmRegex (m_start m) (m_num_nodes m) (m_num_charsets m) (m_nodes m) (m_charsets m) (m_charmap m) (m_dfa_copy m) (m_tt m) (m_bs m) (m_h m) (m_t m) l (m_mem m).
Definition set_mem (mem : list bool) (m : dm_regex) : dm_regex :=
  DmRegex (m_start m) (m_num_nodes m) (m_num_charsets m) (m_nodes m) (m_charsets m) (m_charmap m) (m_dfa_copy m) (m_tt m) (m_bs m) (m_h m) (m_t m) (m_states m) mem.

(** Something that only uses the memory pool. *)
Definition on_mem {A} (k : RX (list bool) A) : RX dm_regex A := fun m =>
  match k (m_mem m) with RxRet a mem => RxRet a (set_mem mem m) | RxWild => RxWild | RxFuel => RxFuel end.

Definition get_state (i : nat) : RX dm_regex dfa_state := m ← rx_get; rx_opt (m_states m !! i).
Definition put_state (i : nat) (d : dfa_state) : RX dm_regex unit := rx_upd (fun m => set_states (<[i := d]> (m_states m)) m).

(** [_create_dfa_state]: the address of a new state. *)
Definition create_dfa_state : RX dm_regex (option nat) :=
  ok ← on_mem rx_alloc;
  if negb ok then mret None else
  m ← rx_get;
  rx_upd (set_states (m_states m ++ [DfaState None 0 [] (replicate 256 None)]));;
  mret (Some (length (m_states m))).

(** [_create_state_queue] *)
Definition create_state_queue (dfa : nat) (bits : list Z) : RX dm_regex bool :=
  n ← rx_opt (bits !! 0%nat);
  ok ← on_mem rx_alloc;
  if negb ok then mret false else
  bs ← rx_opt (dm_bit_copy (dm_bitset_create n) bits);
  d ← get_state dfa;
  put_state dfa (DfaState None (-1) bs (da_lookup d));;
  mret true.

(** The loop of [_calc_state] over the positions [i] of the state that have the
    character [a]; the result says whether there was any. *)
Fixpoint calc_loop (fuel : nat) (dfa : nat) (a i : Z) (set_bits : bool) : RX dm_regex bool :=
  match fuel with
  | O => rx_fuel
  | S fuel =>
      if i <? 0 then mret set_bits else
      m ← rx_get;
      c ← rx_opt (zlookup (m_charsets m) i);
      n ← rx_opt (m_nodes m !! c);
      d ← get_state dfa;
      (if a =? TARGET_TRANS then put_state dfa (DfaState (da_next d) (mn_final n) (da_bits d) (da_lookup d)) else mret tt);;
      bs ← rx_opt (dm_bit_union (m_bs m) (m_bs m) (mn_followpos n));
      rx_upd (set_bs bs);;
      i ← rx_opt (dm_bit_get_next (m_dfa_copy m) i);
      calc_loop fuel dfa a i true
  end.

(** A state for the positions in [m->bs] that was not there: it is entered in the
    tree and appended to the queue. *)
Definition push_state : RX dm_regex (option nat) :=
  l ← create_dfa_state;
  match l with
  | None => mret None
  | Some ldfa =>
      m ← rx_get;
      r ← on_mem (ttree_insert (m_tt m) (tail (m_bs m)) ldfa);
      rx_upd (set_tt r.1);;
      ok ← create_state_queue ldfa (m_bs m);
      if negb ok then mret None else
      match m_h m with
      | None => rx_upd (set_queue (Some ldfa) (Some ldfa));; mret (Some ldfa)
      | Some _ =>
          t ← rx_opt (m_t m);
          d ← get_state t;
          put_state t (DfaState (Some ldfa) (da_final d) (da_bits d) (da_lookup d));;
          rx_upd (set_queue (m_h m) (Some ldfa));;
          mret (Some ldfa)
      end
  end.

(** [_calc_state] *)
Definition calc_state (dfa : nat) (a : Z) : RX dm_regex bool :=
  m ← rx_get;
  d ← get_state dfa;
  cm ← rx_opt (zlookup (m_charmap m) a);
  copy ← rx_opt (dm_bit_and (m_dfa_copy m) cm (da_bits d));
  rx_upd (set_dfa_copy copy);;
  i ← rx_opt (dm_bit_get_first copy);
  set_bits ← calc_loop (32 * length copy) dfa a i false;
  if negb set_bits then mret true else
  m ← rx_get;
  l ← rx_opt (ttree_lookup (m_tt m) (tail (m_bs m)));
  l ← (if l is Some ldfa then mret (Some ldfa) else push_state);
  match l with
  | None => mret false
  | Some ldfa =>
      d ← get_state dfa;
      look ← rx_opt (zupdate (da_lookup d) a (Some ldfa));
      put_state dfa (DfaState (da_next d) (da_final d) (da_bits d) look);;
      m ← rx_get;
      bs ← rx_opt (dm_bit_clear_all (m_bs m));
      rx_upd (set_bs bs);;
      mret true
  end.

(** The characters of a set, from [a] on, are entered in the character maps. *)
Fixpoint mark_charset (fuel : nat) (cs : list Z) (a index : Z) (charmap : list (list Z)) : RX (list bool) (list (list Z)) :=
  match fuel with
  | O => rx_fuel
  | S fuel =>
      if a <? 0 then mret charmap else
      cm ← rx_opt (zlookup charmap a);
      cm ← rx_opt (dm_bit_set cm index);
      charmap ← rx_opt (zupdate charmap a cm);
      a ← rx_opt (dm_bit_get_next cs a);
      mark_charset fuel cs a index charmap
  end.

Fixpoint mark_charsets (nodes : list mnode) (charmap : list (list Z)) : RX (list bool) (list (list Z)) :=
  match nodes with
  | [] => mret charmap
  | n :: nodes =>
      charmap ← (if mn_rx n is CHARSET cs index then
                   a ← rx_opt (dm_bit_get_first cs); mark_charset 300 cs a index charmap
                 else mret charmap);
      mark_charsets nodes charmap
  end.

(** [n] bitsets for [num] character sets. *)
Fixpoint create_maps (n : nat) (num : Z) : RX (list bool) (option (list (list Z))) :=
  match n with
  | O => mret (Some [])
  | S n =>
      ok ← rx_alloc;
      if negb ok then mret None else
      r ← create_maps n num; mret (cons (dm_bitset_create num) <$> r)
  end.

(** The first state, that of the positions an expression begins with; then the queue. *)
Definition first_state (firstpos : list Z) : RX dm_regex bool :=
  l ← create_dfa_state;
  match l with
  | None => mret false
  | Some dfa =>
      m ← rx_get;
      r ← on_mem (ttree_insert (m_tt m) (tail firstpos) dfa);
      rx_upd (set_tt r.1);;
      ok ← create_state_queue dfa firstpos;
      if negb ok then mret false else
      rx_upd (set_queue (Some dfa) (Some dfa));;
      ok ← on_mem rx_alloc;
      if negb ok then mret false else
      rx_upd (set_dfa_copy (dm_bitset_create (m_num_charsets m)));;
      mret true
  end.

(** The rest of a creation, on [m] with the memory pool. *)
Definition creating (m : dm_regex) (k : RX dm_regex bool) : RX (list bool) (option dm_regex) := fun mem =>
  match k (set_mem mem m) with
  | RxRet b m => RxRet (if b : bool then Some m else None) (m_mem m)
  | RxWild => RxWild
  | RxFuel => RxFuel
  end.

(** [_calc_states] for the expression whose node is [root]. *)
Definition calc_states (root : nat) (num_nodes num_charsets : Z) (nodes : list mnode) (charsets : list nat) : RX (list bool) (option dm_regex) :=
  tr ← ttree_create (Z.to_nat (num_charsets / DM_BITS_PER_INT + 1));
  match tr with
  | None => mret None
  | Some tr =>
      ok ← rx_alloc;
      if negb ok then mret None else
      maps ← create_maps 256 num_charsets;
      match maps with
      | None => mret None
      | Some maps =>
          maps ← mark_charsets nodes maps;
          n ← rx_opt (nodes !! root);
          creating (DmRegex 0 num_nodes num_charsets nodes charsets maps [] tr (dm_bitset_create num_charsets) None None [] [])
            (first_state (mn_firstpos n))
      end
  end.

(** ** Creating and matching *)

(** The joined text of the patterns. *)
Definition wrap_pattern (p : list Z) : list Z := [40; 46; 42; 40] ++ p ++ [41; TARGET_TRANS; 41].
Fixpoint join_patterns (ps : list (list Z)) : list Z :=
  match ps with
  | [] => []
  | [p] => wrap_pattern p
  | p :: ps => wrap_pattern p ++ [124] ++ join_patterns ps
  end.

(** [dm_regex_create]; the recursion of the parser is bounded by the length of the text. *)
Definition dm_regex_create (patterns : list (list Z)) : RX (list bool) (option dm_regex) :=
  ok ← rx_alloc;
  if negb ok then mret None else
  ok ← rx_alloc;
  if negb ok then mret None else
  let all := join_patterns patterns in
  rx ← rx_parse_tok (16 * S (length all)) all;
  match rx with
  | None => mret None
  | Some rx =>
      let rx := enumerate_charsets rx in
      ok ← rx_alloc;
      if negb ok then mret None else
      ok ← rx_alloc;
      if negb ok then mret None else
      let '(nodes, charsets) := fill_table rx ([], []) in
      nodes ← create_bitsets (count_charsets rx) nodes;
      match nodes with
      | None => mret None
      | Some nodes =>
          nodes ← rx_opt (calc_functions nodes charsets);
          calc_states (length nodes - 1) (count_nodes rx) (count_charsets rx) nodes charsets
      end
  end.

(** [_step_matcher]: the next state, and the best number found so far. *)
Definition step_matcher (c : Z) (cs : nat) (r : Z) : RX dm_regex (option nat * Z) :=
  d ← get_state cs;
  l ← rx_opt (zlookup (da_lookup d) c);
  ns ← match l with
       | Some ns => mret (Some ns)
       | None =>
           ok ← calc_state cs c;
           if negb ok then mret None else
           d ← get_state cs; rx_opt (zlookup (da_lookup d) c)
       end;
  match ns with
  | None => mret (None, r)
  | Some ns =>
      d ← get_state ns;
      ok ← (if da_final d =? -1 then calc_state ns TARGET_TRANS else mret true);
      if negb ok then mret (None, r) else
      d ← get_state ns;
      let r := if negb (da_final d =? 0) && (r <? da_final d) then da_final d else r in
      mret (Some ns, r)
  end.

(** The loop over the string. *)
Fixpoint match_loop (s : list Z) (cs : nat) (r : Z) : RX dm_regex (option nat * Z) :=
  match s with
  | [] => mret (Some cs, r)
  | c :: s =>
      x ← step_matcher c cs r;
      match x with
      | (None, r) => mret (None, r)
      | (Some cs, r) => match_loop s cs r
      end
  end.

(** [dm_regex_match] of a string of bytes. *)
Definition dm_regex_match (s : list Z) : RX dm_regex Z :=
  m ← rx_get;
  bs ← rx_opt (dm_bit_clear_all (m_bs m));
  rx_upd (set_bs bs);;
  x ← step_matcher HAT_CHAR (m_start m) 0;
  match x with
  | (None, r) => mret (r - 1)
  | (Some cs, r) =>
      x ← match_loop s cs r;
      match x with
      | (None, r) => mret (r - 1)
      | (Some cs, r) => x ← step_matcher DOLLAR_CHAR cs r; mret (x.2 - 1)
      end
  end.
