(* ===== verification/MatcherTables.v ===== *)
(** * The tables of the matcher

    The table of nodes and the position functions computed on it are those of the
    expression, and the character maps are the sets each character is in. *)

From S2P Require Import Prelude Bitset Regex RegexLang RegexOpt Ttree Matcher.

(** ** Numbering *)

(** The sets of an expression are numbered from [b] on. *)
Fixpoint numbered (b : nat) (r : rx_node) : Prop :=
  match r with
  | CAT l r | OR l r => numbered b l /\ numbered (b + width l) r
  | STAR l | PLUS l | QUEST l => numbered b l
  | CHARSET _ i => i = Z.of_nat b
  end.

Lemma width_two l r : width (CAT l r) = (width l + width r)%nat /\ width (OR l r) = (width l + width r)%nat.
Proof. unfold width. cbn [leaves]. by rewrite length_app. Qed.

Lemma enumerate_spec r : forall b, exists r', enumerate_charsets_internal r (Z.of_nat b) = (r', Z.of_nat (b + width r)) /\ numbered b r' /\
  leaves r' = leaves r /\ lang r' = lang r /\ tpre r' = tpre r /\ rx_size r' = rx_size r /\ (rx_wf r -> rx_wf r').
Proof.
  induction r as [l IHl r IHr|l IH|l IH|l IHl r IHr|l IH|cs i]; intros b; cbn [enumerate_charsets_internal].
  1, 4: destruct (IHl b) as (l' & -> & N1 & L1 & G1 & T1 & S1 & W1); destruct (IHr (b + width l)%nat) as (r' & -> & N2 & L2 & G2 & T2 & S2 & W2);
    eexists; (split; [f_equal; unfold width in *; cbn [leaves]; rewrite length_app; lia|]); cbn [numbered leaves lang tpre rx_size rx_wf];
    unfold width in *; rewrite L1, L2, G1, G2, T1, T2, S1, S2; naive_solver.
  1-3: destruct (IH b) as (l' & -> & N1 & L1 & G1 & T1 & S1 & W1); eexists; (split; [done|]); cbn [numbered leaves lang tpre rx_size rx_wf];
    rewrite L1, G1, T1, S1; naive_solver.
  eexists. split; [f_equal; unfold width; cbn [leaves length]; lia|]. done.
Qed.

Lemma count_charsets_width r : count_charsets r = Z.of_nat (width r).
Proof.
  unfold width. induction r as [l IHl r IHr|l IH|l IH|l IHl r IHr|l IH|cs i]; cbn [count_charsets leaves]; rewrite ?length_app; try lia. done.
Qed.

Lemma rx_size_pos r : (0 < rx_size r)%nat.
Proof. destruct r; cbn; lia. Qed.

(** ** Layout *)

(** The nodes of an expression that are entered from number [off] on, and among them
    those of its sets. *)
Fixpoint nodes_of (off : nat) (r : rx_node) : list mnode :=
  match r with
  | CAT l r' | OR l r' =>
      nodes_of off l ++ nodes_of (off + rx_size l) r' ++ [new_mnode r (Some (off + rx_size l - 1)%nat) (Some (off + rx_size l + rx_size r' - 1)%nat)]
  | STAR l | PLUS l | QUEST l => nodes_of off l ++ [new_mnode r (Some (off + rx_size l - 1)%nat) None]
  | CHARSET _ _ => [new_mnode r None None]
  end.

Fixpoint places (r : rx_node) : list nat :=
  match r with
  | CAT l r | OR l r => places l ++ ((fun c => rx_size l + c)%nat <$> places r)
  | STAR l | PLUS l | QUEST l => places l
  | CHARSET _ _ => [0%nat]
  end.

Lemma layout_length r : forall off, length (nodes_of off r) = rx_size r.
Proof. induction r as [l IHl r IHr|l IH|l IH|l IHl r IHr|l IH|cs i]; intros off; cbn [nodes_of rx_size]; rewrite ?length_app, ?IHl, ?IHr, ?IH; cbn; lia. Qed.

Lemma places_length r : length (places r) = width r.
Proof. unfold width. induction r as [l IHl r IHr|l IH|l IH|l IHl r IHr|l IH|cs i]; cbn [places leaves]; rewrite ?length_app, ?length_fmap; lia || done. Qed.

Lemma places_in r p c : places r !! p = Some c -> (c < rx_size r)%nat.
Proof.
  revert p c. induction r as [l IHl r IHr|l IH|l IH|l IHl r IHr|l IH|cs i]; intros p c; cbn [places rx_size].
  1, 4: intros [H|[_ H]]%lookup_app_Some; [apply IHl in H; lia|]; apply list_lookup_fmap_Some in H as (c' & -> & H); apply IHr in H; lia.
  1-3: intros H; apply IH in H; lia.
  destruct p; [|done]. intros [= <-]. lia.
Qed.

Lemma places_nodup r : NoDup (places r).
Proof.
  induction r as [l IHl r IHr|l IH|l IH|l IHl r IHr|l IH|cs i]; cbn [places]; try done; [| |apply NoDup_singleton].
  all: apply NoDup_app; split; [done|]; split; [|apply NoDup_fmap; [intros x y; lia|done]];
    intros c [p Hp]%list_elem_of_lookup (c' & -> & _)%list_elem_of_fmap; apply places_in in Hp; lia.
Qed.

Lemma fill_table_spec r : forall t, fill_table r t = (t.1 ++ nodes_of (length t.1) r, t.2 ++ ((fun c => length t.1 + c)%nat <$> places r)).
Proof.
  induction r as [l IHl r IHr|l IH|l IH|l IHl r IHr|l IH|cs i]; intros t; cbn [fill_table nodes_of places].
  1, 4: rewrite IHr, IHl; cbn [fst snd]; rewrite !length_app, !layout_length, <- !app_assoc, fmap_app, <- list_fmap_compose; do 3 f_equal;
    apply list_fmap_ext; intros; cbn; lia.
  1-3: rewrite IH; cbn [fst snd]; by rewrite !length_app, layout_length, <- app_assoc.
  cbn. by rewrite Nat.add_0_r.
Qed.

(** The nodes of the sets. *)
Lemma layout_charsets r : forall b off cs i, numbered b r -> CHARSET cs i ∈ (mn_rx <$> nodes_of off r) <-> (Z.of_nat b <= i /\ leaves r !! (Z.to_nat i - b)%nat = Some cs).
Proof.
  induction r as [l IHl r IHr|l IH|l IH|l IHl r IHr|l IH|cs' i']; intros b off cs i; cbn [numbered nodes_of leaves]; rewrite ?fmap_app, ?elem_of_app.
  1, 4: intros [N1 N2]; rewrite (IHl b) by done; rewrite (IHr (b + width l)%nat) by done; cbn [fmap list_fmap mn_rx new_mnode];
    rewrite list_elem_of_singleton, lookup_app; unfold width; split;
    [intros [[H1 H2]|[[H1 H2]|H]]; [by rewrite H2|split; [lia|]; rewrite lookup_ge_None_2 by lia; rewrite <- H2; f_equal; lia|done]|];
    intros [H1 H2]; destruct (leaves l !! (Z.to_nat i - b)%nat) eqn:E; [left; simplify_eq; done|right; left];
    apply lookup_ge_None in E; (split; [|rewrite <- H2; f_equal; lia]);
    apply Z.nlt_ge; intros Hlt; apply lookup_lt_Some in H2; lia.
  1-3: intros N; rewrite (IH b) by done; cbn [fmap list_fmap mn_rx new_mnode]; rewrite list_elem_of_singleton; naive_solver.
  intros ->. cbn [fmap list_fmap mn_rx new_mnode]. rewrite list_elem_of_singleton. split.
  - intros [= -> ->]. split; [lia|]. by rewrite Nat2Z.id, Nat.sub_diag.
  - intros [H1 H2]. destruct (Z.to_nat i - b)%nat eqn:E; [|done]. cbn in H2. simplify_eq. f_equal. lia.
Qed.

(** ** Positions in bitsets *)

Section tables.
Context (N : Z).

(** A bitset holds the positions of [f], counted from [b]. *)
Definition pos_is (b : nat) (f : nat -> bool) (bs : list Z) : Prop :=
  bs_wf N bs /\ forall j, 0 <= j < bs_cap N -> bs_mem bs j = (b <=? Z.to_nat j)%nat && f (Z.to_nat j - b)%nat.

Lemma pos_is_ext b f g bs : (forall p, f p = g p) -> pos_is b f bs -> pos_is b g bs.
Proof. intros H [H1 H2]. split; [done|]. intros j Hj. by rewrite H2, H. Qed.

Lemma pos_is_copy b f out bs : bs_wf N out -> pos_is b f bs -> exists bs', dm_bit_copy out bs = Some bs' /\ pos_is b f bs'.
Proof. intros H0 [H1 H2]. exists bs. split; [by apply (dm_bit_copy_spec N)|done]. Qed.

(** The positions of two parts, the second [w] wide after the first. *)
Lemma pos_is_union b w f g out bs1 bs2 :
  bs_wf N out -> pos_is b f bs1 -> pos_is (b + w) g bs2 -> (forall p, f p = true -> (p < w)%nat) ->
  exists bs', dm_bit_union out bs1 bs2 = Some bs' /\ pos_is b (fun p => if (p <? w)%nat then f p else g (p - w)%nat) bs'.
Proof.
  intros H0 [H1 M1] [H2 M2] Hf. destruct (dm_bit_union_spec N out bs1 bs2 H0 H1 H2) as (bs' & E & Hwf & Hm). exists bs'. split; [done|]. split; [done|].
  intros j Hj. rewrite Hm, M1, M2 by done. destruct (Nat.leb_spec b (Z.to_nat j)) as [L1|L1].
  - destruct (Nat.ltb_spec (Z.to_nat j - b) w) as [L2|L2]; cbn.
    + destruct (Nat.leb_spec (b + w) (Z.to_nat j)); [lia|]. by rewrite orb_false_r.
    + destruct (Nat.leb_spec (b + w) (Z.to_nat j)); [|lia]. destruct (f (Z.to_nat j - b)%nat) eqn:E1; [apply Hf in E1; lia|]. cbn. f_equal. lia.
  - destruct (Nat.leb_spec (b + w) (Z.to_nat j)); [lia|done].
Qed.

Lemma pos_is_left b w f bs : (forall p, f p = true -> (p < w)%nat) -> pos_is b f bs -> pos_is b (fun p => if (p <? w)%nat then f p else false) bs.
Proof. intros Hf. apply pos_is_ext. intros p. destruct (Nat.ltb_spec p w) as [L|L]; [done|]. destruct (f p) eqn:E; [apply Hf in E; lia|done]. Qed.

Lemma pos_is_right b w g bs : pos_is (b + w) g bs -> pos_is b (fun p => if (p <? w)%nat then false else g (p - w)%nat) bs.
Proof.
  intros [H1 H2]. split; [done|]. intros j Hj. rewrite H2 by done. destruct (Nat.leb_spec b (Z.to_nat j)) as [L1|L1], (Nat.leb_spec (b + w) (Z.to_nat j)) as [L2|L2]; cbn [andb]; [| |lia|done].
  - destruct (Nat.ltb_spec (Z.to_nat j - b) w); [lia|]. f_equal. lia.
  - destruct (Nat.ltb_spec (Z.to_nat j - b) w); [done|lia].
Qed.

(** ** Following positions *)

Lemma unite_spec last first charsets : forall nodes j,
  bs_wf N last -> bs_wf N first -> 0 <= j -> j + Z.of_nat (length charsets) <= N -> NoDup charsets ->
  (forall c, c ∈ charsets -> exists n, nodes !! c = Some n /\ bs_wf N (mn_followpos n)) ->
  exists nodes', unite_followpos nodes charsets j last first = Some nodes' /\ length nodes' = length nodes /\
    (forall i, i ∉ charsets -> nodes' !! i = nodes !! i) /\
    (forall k i n, charsets !! k = Some i -> nodes !! i = Some n ->
       if bs_mem last (j + Z.of_nat k)
       then exists f, nodes' !! i = Some (set_followpos f n) /\ bs_wf N f /\ forall x, 0 <= x < bs_cap N -> bs_mem f x = bs_mem (mn_followpos n) x || bs_mem first x
       else nodes' !! i = Some n).
Proof.
  induction charsets as [|c charsets IH]; intros nodes j Hl Hf Hj Hn Hnd Hall; cbn [unite_followpos].
  { exists nodes. split; [done|]. split; [done|]. split; [done|]. by intros [|k]. }
  destruct (Hall c ltac:(left)) as (n & En & Hwn). rewrite En. cbn [mbind option_bind]. cbn [length] in Hn.
  assert (0 <= j < bs_cap N) as Hjc by (unfold bs_cap; lia). rewrite (dm_bit_spec N) by done. cbn [mbind option_bind].
  apply NoDup_cons in Hnd as [Hc Hnd].
  assert (exists n1, (if bs_mem last j then f ← dm_bit_union (mn_followpos n) (mn_followpos n) first; Some (<[c:=set_followpos f n]> nodes) else Some nodes) = Some (<[c := n1]> nodes) /\
    (if bs_mem last j then exists f, n1 = set_followpos f n /\ bs_wf N f /\ forall x, 0 <= x < bs_cap N -> bs_mem f x = bs_mem (mn_followpos n) x || bs_mem first x else n1 = n)) as (n1 & -> & Hn1).
  { destruct (bs_mem last j) eqn:Eb.
    - destruct (dm_bit_union_spec N (mn_followpos n) (mn_followpos n) first Hwn Hwn Hf) as (f & -> & Hwf & Hm). eexists. split; [reflexivity|]. by exists f.
    - exists n. split; [by rewrite list_insert_id|done]. }
  cbn [mbind option_bind]. destruct (IH (<[c := n1]> nodes) (j + 1)) as (nodes' & E & Hlen & Hout & Hin); [done..|lia|lia|done| |].
  { intros c' Hc'. rewrite list_lookup_insert_ne by (intros ->; done). apply Hall. by right. }
  exists nodes'. split; [done|]. split; [by rewrite Hlen, length_insert|]. split.
  - intros i [Hi1 Hi2]%not_elem_of_cons. rewrite Hout by done. by rewrite list_lookup_insert_ne.
  - intros [|k] i n' Hi Hn'.
    + cbn in Hi. simplify_eq. rewrite Z.add_0_r. rewrite Hout by done. rewrite list_lookup_insert_eq by (by apply lookup_lt_Some in En).
      destruct (bs_mem last j); [|by subst]. destruct Hn1 as (f & -> & Hwf & Hm). by exists f.
    + cbn in Hi. replace (j + Z.of_nat (S k)) with (j + 1 + Z.of_nat k) by lia. apply Hin; [done|]. rewrite list_lookup_insert_ne; [done|].
      intros ->. apply Hc. by eapply list_elem_of_lookup_2.
Qed.

Lemma followpos_in r p q : followpos r p q = true -> (p < width r)%nat /\ (q < width r)%nat.
Proof.
  revert p q. induction r as [l IHl r IHr|l IH|l IH|l IHl r IHr|l IH|cs i]; intros p q; cbn [followpos].
  1, 4: rewrite ?(proj1 (width_two l r)), ?(proj2 (width_two l r)); destruct (Nat.ltb_spec p (width l)), (Nat.ltb_spec q (width l)); intros HF; try done;
    [apply IHl in HF; lia|try (apply andb_true_iff in HF as [_ HF%firstpos_in]; lia); done || (apply IHr in HF; lia)..].
  1, 2: intros [HF|[HF1%lastpos_in HF2%firstpos_in]%andb_true_iff]%orb_true_iff; [by apply IH in HF|done].
  - by intros HF%IH.
  - done.
Qed.

(** A part of the table keeps its place. *)
Lemma split_outside {A} (pre mid post nodes : list A) :
  length nodes = length (pre ++ mid ++ post) ->
  (forall i, (i < length pre \/ length pre + length mid <= i)%nat -> nodes !! i = (pre ++ mid ++ post) !! i) ->
  exists mid', nodes = pre ++ mid' ++ post /\ length mid' = length mid /\ forall i, (i < length mid)%nat -> mid' !! i = nodes !! (length pre + i)%nat.
Proof.
  intros Hlen Hout. exists (take (length mid) (drop (length pre) nodes)). rewrite !length_app in Hlen.
  assert (length (take (length mid) (drop (length pre) nodes)) = length mid) as Hl by (rewrite length_take, length_drop; lia).
  assert (forall i, (i < length mid)%nat -> take (length mid) (drop (length pre) nodes) !! i = nodes !! (length pre + i)%nat) as Hm.
  { intros i Hi. rewrite lookup_take_lt, lookup_drop by done. done. }
  split; [|done]. apply list_eq. intros i. destruct (Nat.lt_ge_cases i (length pre)) as [L1|L1].
  - rewrite Hout, !(lookup_app_l pre) by auto. done.
  - rewrite (lookup_app_r pre) by done. destruct (Nat.lt_ge_cases (i - length pre) (length mid)) as [L2|L2].
    + rewrite lookup_app_l, Hm by lia. f_equal. lia.
    + rewrite lookup_app_r, Hl by lia. rewrite Hout by lia. rewrite lookup_app_r, lookup_app_r by lia. done.
Qed.

Definition blank (n : mnode) : mnode :=
  MNode (mn_rx n) (mn_left n) (mn_right n) (mn_nullable n) (mn_final n) (dm_bitset_create N) (dm_bitset_create N) (dm_bitset_create N).

(** The end markers among sets. *)
Definition ntarget (ls : list (list Z)) : Z := Z.of_nat (length (filter (fun cs => bs_mem cs 0 = true) ls)).

Lemma ntarget_app l1 l2 : ntarget (l1 ++ l2) = ntarget l1 + ntarget l2.
Proof. unfold ntarget. rewrite filter_app, length_app. lia. Qed.

(** What the table holds for an expression whose sets are numbered from [b] on and
    whose end markers are numbered from [f] on. *)
Record tree_ok (b : nat) (f : Z) (r : rx_node) (off : nat) (mid : list mnode) : Prop := {
  to_rx : mn_rx <$> mid = mn_rx <$> nodes_of off r;
  to_wf : Forall (fun n => bs_wf N (mn_followpos n)) mid;
  to_root : exists n, last mid = Some n /\ mn_nullable n = nullable r /\ pos_is b (firstpos r) (mn_firstpos n) /\ pos_is b (lastpos r) (mn_lastpos n);
  to_leaf : forall p cs, leaves r !! p = Some cs -> exists c n, places r !! p = Some c /\ mid !! c = Some n /\ pos_is b (followpos r p) (mn_followpos n) /\
    (bs_mem cs 0 = true -> mn_final n = f + ntarget (take p (leaves r))) }.

Lemma to_len b f r off mid : tree_ok b f r off mid -> length mid = rx_size r.
Proof. intros [H _ _ _]. apply (f_equal length) in H. by rewrite !length_fmap, layout_length in H. Qed.

(** The last positions of a part are followed by more. *)
Lemma part_unite b r pre mid post charsets last first :
  length mid = rx_size r -> Forall (fun n => bs_wf N (mn_followpos n)) (pre ++ mid ++ post) ->
  NoDup charsets -> Z.of_nat (length charsets) <= N -> (forall c, c ∈ charsets -> (c < length (pre ++ mid ++ post))%nat) ->
  (forall p c, places r !! p = Some c -> charsets !! (b + p)%nat = Some (length pre + c)%nat) ->
  pos_is b (lastpos r) last -> bs_wf N first ->
  exists mid', unite_followpos (pre ++ mid ++ post) charsets 0 last first = Some (pre ++ mid' ++ post) /\ length mid' = length mid /\
    (forall i n, mid !! i = Some n -> exists f, mid' !! i = Some (set_followpos f n) /\ bs_wf N f) /\
    (forall p c n, places r !! p = Some c -> mid !! c = Some n ->
       if lastpos r p
       then exists f, mid' !! c = Some (set_followpos f n) /\ bs_wf N f /\ forall x, 0 <= x < bs_cap N -> bs_mem f x = bs_mem (mn_followpos n) x || bs_mem first x
       else mid' !! c = Some n).
Proof.
  intros Hlen Hwf Hnd Hn Hin Hpl [Hl1 Hl2] Hf.
  assert (forall c, c ∈ charsets -> exists n, (pre ++ mid ++ post) !! c = Some n /\ bs_wf N (mn_followpos n)) as Hall.
  { intros c Hc. destruct (lookup_lt_is_Some_2 _ _ (Hin c Hc)) as [n En]. exists n. split; [done|]. by eapply Forall_lookup_1 in Hwf. }
  destruct (unite_spec last first charsets (pre ++ mid ++ post) 0 Hl1 Hf ltac:(lia) ltac:(lia) Hnd Hall) as (nodes' & E & Hlen' & Hout & Hch).
  assert (forall k i n, charsets !! k = Some i -> (pre ++ mid ++ post) !! i = Some n -> bs_mem last (Z.of_nat k) = true -> (length pre <= i < length pre + length mid)%nat) as Hrange.
  { intros k i n Hk Hi Hb. assert (Z.of_nat k < N) by (apply lookup_lt_Some in Hk; lia). rewrite Hl2 in Hb by (unfold bs_cap; lia).
    apply andb_true_iff in Hb as [Hb1%Nat.leb_le Hb2]. rewrite Nat2Z.id in Hb1, Hb2. apply lastpos_in in Hb2.
    destruct (lookup_lt_is_Some_2 (places r) (k - b)) as [c Ec]; [by rewrite places_length|]. pose proof (Hpl _ _ Ec) as H1. apply places_in in Ec.
    replace (b + (k - b))%nat with k in H1 by lia. simplify_eq. lia. }
  assert (forall i n, (pre ++ mid ++ post) !! i = Some n -> exists f, nodes' !! i = Some (set_followpos f n) /\ bs_wf N f /\ (i < length pre \/ length pre + length mid <= i -> f = mn_followpos n)%nat) as Hi.
  { intros i n Hi. assert (set_followpos (mn_followpos n) n = n) as Hid by by destruct n. assert (bs_wf N (mn_followpos n)) as Hwn by by eapply Forall_lookup_1 in Hwf.
    destruct (decide (i ∈ charsets)) as [[k Hk]%list_elem_of_lookup|Hno].
    - specialize (Hch k i n Hk Hi). rewrite Z.add_0_l in Hch. destruct (bs_mem last (Z.of_nat k)) eqn:Eb.
      + destruct Hch as (f & E1 & E2 & E3). exists f. split; [done|]. split; [done|]. specialize (Hrange k i n Hk Hi Eb). lia.
      + exists (mn_followpos n). by rewrite Hid.
    - exists (mn_followpos n). rewrite Hid. split; [|done]. by rewrite Hout. }
  destruct (split_outside pre mid post nodes') as (mid' & -> & Hl' & Hm'); [done| |].
  { intros i Ho. destruct ((pre ++ mid ++ post) !! i) as [n|] eqn:En.
    - destruct (Hi i n En) as (f & -> & _ & Hs). rewrite Hs by done. by destruct n.
    - apply lookup_ge_None_2. rewrite Hlen'. by apply lookup_ge_None_1. }
  assert (forall c n, mid !! c = Some n -> (pre ++ mid ++ post) !! (length pre + c)%nat = Some n) as Hmid.
  { intros c n Hc. rewrite lookup_app_r by lia. replace (length pre + c - length pre)%nat with c by lia. by apply lookup_app_l_Some. }
  exists mid'. split; [done|]. split; [done|]. split.
  - intros i n Hn'. destruct (Hi _ _ (Hmid i n Hn')) as (f & E1 & E2 & _). exists f. split; [|done]. rewrite Hm'; [done|]. by apply lookup_lt_Some in Hn'.
  - intros p c n Hp Hc. rewrite Hm' by (by apply lookup_lt_Some in Hc). pose proof (Hch _ _ n (Hpl p c Hp) (Hmid c n Hc)) as H1.
    rewrite Z.add_0_l, Hl2 in H1 by (pose proof (lookup_lt_Some _ _ _ (Hpl p c Hp)); unfold bs_cap; lia). rewrite Nat2Z.id in H1.
    rewrite (proj2 (Nat.leb_le _ _)) in H1 by lia. by replace (b + p - b)%nat with p in H1 by lia.
Qed.

(** An expression of two parts. *)
Lemma tree_two b f l r rr off midl midr n :
  leaves rr = leaves l ++ leaves r -> places rr = places l ++ ((fun c => rx_size l + c)%nat <$> places r) ->
  mn_rx <$> nodes_of off rr = (mn_rx <$> nodes_of off l) ++ (mn_rx <$> nodes_of (off + rx_size l) r) ++ [rr] ->
  (forall p q, followpos rr (width l + p) q = if (q <? width l)%nat then false else followpos r p (q - width l)) ->
  mn_rx <$> midl = mn_rx <$> nodes_of off l -> Forall (fun n => bs_wf N (mn_followpos n)) midl ->
  (forall p cs, leaves l !! p = Some cs -> exists c n, places l !! p = Some c /\ midl !! c = Some n /\ pos_is b (followpos rr p) (mn_followpos n) /\
    (bs_mem cs 0 = true -> mn_final n = f + ntarget (take p (leaves l)))) ->
  tree_ok (b + width l) (f + ntarget (leaves l)) r (off + rx_size l) midr ->
  mn_rx n = rr -> bs_wf N (mn_followpos n) -> mn_nullable n = nullable rr -> pos_is b (firstpos rr) (mn_firstpos n) -> pos_is b (lastpos rr) (mn_lastpos n) ->
  tree_ok b f rr off (midl ++ midr ++ [n]).
Proof.
  intros El Ep Er Ef Hrx Hwf Hleaf [R1 R2 _ R4] Hn Hnf Hn1 Hn2 Hn3.
  assert (length midl = rx_size l) as Hlen by (apply (f_equal length) in Hrx; by rewrite !length_fmap, layout_length in Hrx).
  split.
  - rewrite !fmap_app, Hrx, R1, Er. cbn. by rewrite Hn.
  - apply Forall_app. split; [done|]. apply Forall_app. split; [done|by apply Forall_singleton].
  - exists n. split; [|done]. by rewrite app_assoc, last_snoc.
  - intros p cs. rewrite El, Ep. intros [Hp|[Hge Hp]]%lookup_app_Some.
    + destruct (Hleaf p cs Hp) as (c & n' & H1 & H2 & H3 & H4). exists c, n'. split; [by apply lookup_app_l_Some|]. split; [by apply lookup_app_l_Some|]. split; [done|].
      intros Hb. rewrite take_app_le by (apply lookup_lt_Some in Hp; lia). by apply H4.
    + destruct (R4 _ cs Hp) as (c & n' & H1 & H2 & H3 & H4). exists (rx_size l + c)%nat, n'. split; [|split; [|split]].
      * rewrite lookup_app_r; rewrite places_length; [|done]. fold (width l) in H1. by rewrite list_lookup_fmap, H1.
      * rewrite lookup_app_r by lia. apply lookup_app_l_Some. rewrite <- H2. f_equal. lia.
      * apply pos_is_right in H3. revert H3. apply pos_is_ext. intros q. rewrite <- Ef. f_equal. unfold width. lia.
      * intros Hb. rewrite take_app_ge, ntarget_app by done. rewrite H4 by done. lia.
Qed.

(** An expression of one part; the positions that follow may be more. *)
Lemma tree_one b f l rr off midl n :
  leaves rr = leaves l -> places rr = places l -> mn_rx <$> nodes_of off rr = (mn_rx <$> nodes_of off l) ++ [rr] ->
  mn_rx <$> midl = mn_rx <$> nodes_of off l -> Forall (fun n => bs_wf N (mn_followpos n)) midl ->
  (forall p cs, leaves l !! p = Some cs -> exists c n, places l !! p = Some c /\ midl !! c = Some n /\ pos_is b (followpos rr p) (mn_followpos n) /\
    (bs_mem cs 0 = true -> mn_final n = f + ntarget (take p (leaves l)))) ->
  mn_rx n = rr -> bs_wf N (mn_followpos n) -> mn_nullable n = nullable rr -> pos_is b (firstpos rr) (mn_firstpos n) -> pos_is b (lastpos rr) (mn_lastpos n) ->
  tree_ok b f rr off (midl ++ [n]).
Proof.
  intros El Ep Er Hrx Hwf Hleaf Hn Hnf Hn1 Hn2 Hn3. split.
  - rewrite !fmap_app, Hrx, Er. cbn. by rewrite Hn.
  - apply Forall_app. split; [done|by apply Forall_singleton].
  - exists n. split; [|done]. by rewrite last_snoc.
  - intros p cs. rewrite El, Ep. intros Hp. destruct (Hleaf p cs Hp) as (c & n' & H1 & H2 & H3). exists c, n'. split; [done|]. split; [|done]. by apply lookup_app_l_Some.
Qed.

(** What a part is after more positions follow its last ones. *)
Lemma united_leaves b f l off midl midl' first g rr :
  tree_ok b f l off midl -> length midl' = length midl ->
  (forall i n, midl !! i = Some n -> exists f, midl' !! i = Some (set_followpos f n) /\ bs_wf N f) ->
  (forall p c n, places l !! p = Some c -> midl !! c = Some n ->
     if lastpos l p
     then exists f, midl' !! c = Some (set_followpos f n) /\ bs_wf N f /\ forall x, 0 <= x < bs_cap N -> bs_mem f x = bs_mem (mn_followpos n) x || bs_mem first x
     else midl' !! c = Some n) ->
  pos_is b g first -> (forall p q, (p < width l)%nat -> followpos rr p q = followpos l p q || (lastpos l p && g q)) ->
  mn_rx <$> midl' = mn_rx <$> nodes_of off l /\ Forall (fun n => bs_wf N (mn_followpos n)) midl' /\
  (forall p cs, leaves l !! p = Some cs -> exists c n, places l !! p = Some c /\ midl' !! c = Some n /\ pos_is b (followpos rr p) (mn_followpos n) /\
    (bs_mem cs 0 = true -> mn_final n = f + ntarget (take p (leaves l)))).
Proof.
  intros [R1 R2 _ R4] Hlen Hall Hpl [_ Hg] Hfol. split; [|split].
  - rewrite <- R1. apply list_eq. intros i. rewrite !list_lookup_fmap. destruct (midl !! i) as [n|] eqn:En.
    + by destruct (Hall i n En) as (f' & -> & _).
    + apply lookup_ge_None_1 in En. by rewrite lookup_ge_None_2 by lia.
  - apply Forall_lookup_2. intros i n' Hn'. assert (i < length midl)%nat as Hi by (rewrite <- Hlen; by apply lookup_lt_Some in Hn').
    destruct (lookup_lt_is_Some_2 _ _ Hi) as [n En]. destruct (Hall i n En) as (f' & E & Hw). by simplify_eq.
  - intros p cs Hp. assert (p < width l)%nat as Hlt by by apply lookup_lt_Some in Hp. destruct (R4 p cs Hp) as (c & n & H1 & H2 & [H3 H3'] & H4).
    specialize (Hpl p c n H1 H2). destruct (lastpos l p) eqn:Elast.
    + destruct Hpl as (f' & E1 & E2 & E3). exists c, (set_followpos f' n). split; [done|]. split; [done|]. split; [|done]. split; [done|]. cbn [mn_followpos set_followpos].
      intros x Hx. rewrite E3, H3', Hg, Hfol by done. rewrite Elast. cbn [andb]. by rewrite <- andb_orb_distrib_r.
    + exists c, n. split; [done|]. split; [done|]. split; [|done]. split; [done|]. intros x Hx. rewrite H3', Hfol by done. by rewrite Elast, orb_false_r.
Qed.

(** ** The computation *)

Lemma child_last pre mid post n k : last mid = Some n -> k = (length pre + length mid - 1)%nat -> child (pre ++ mid ++ post) (Some k) = Some n.
Proof.
  intros Hl ->. rewrite last_lookup in Hl. unfold child. cbn [mbind option_bind]. destruct mid as [|x mid]; [done|]. cbn [length pred] in *.
  rewrite lookup_app_r by lia. replace (length pre + S (length mid) - 1 - length pre)%nat with (length mid) by lia. by apply lookup_app_l_Some.
Qed.

(** The sets of a part stand in the table of sets. *)
Definition placed (charsets : list nat) (b off : nat) (r : rx_node) : Prop :=
  forall p c, places r !! p = Some c -> charsets !! (b + p)%nat = Some (off + c)%nat.

Lemma placed_l charsets b off l r rr :
  places rr = places l ++ ((fun c => rx_size l + c)%nat <$> places r) -> placed charsets b off rr -> placed charsets b off l.
Proof. intros E H p c Hp. apply H. rewrite E. by apply lookup_app_l_Some. Qed.

Lemma placed_r charsets b off l r rr :
  places rr = places l ++ ((fun c => rx_size l + c)%nat <$> places r) -> placed charsets b off rr -> placed charsets (b + width l) (off + rx_size l) r.
Proof.
  intros E H p c Hp. rewrite <- !Nat.add_assoc. apply H. rewrite E, lookup_app_r; rewrite places_length; [|lia].
  replace (width l + p - width l)%nat with p by lia. by rewrite list_lookup_fmap, Hp.
Qed.

Section run.
Context (charsets : list nat) (total : nat).
Hypothesis charsets_nodup : NoDup charsets.
Hypothesis charsets_num : Z.of_nat (length charsets) <= N.
Hypothesis charsets_in : forall c, c ∈ charsets -> (c < total)%nat.
Hypothesis N_ok : 0 <= N < 2 ^ 31.

Definition follows_wf (n : mnode) : Prop := bs_wf N (mn_followpos n).

(** The loop over [k] nodes from number [off] on. *)
Definition run (s : option (list mnode * Z)) (off k : nat) : option (list mnode * Z) :=
  foldl (fun s i => s ← s; calc_node charsets i s) s (seq off k).

Lemma run_app s off k1 k2 : run s off (k1 + k2) = run (run s off k1) (off + k1) k2.
Proof. unfold run. by rewrite seq_app, foldl_app. Qed.

Lemma run_one s off : run (Some s) off 1 = calc_node charsets off s.
Proof. done. Qed.

(** The part of the table for an expression is computed. *)
Definition computes (b : nat) (f : Z) (r : rx_node) : Prop :=
  forall pre post, Forall follows_wf pre -> Forall follows_wf post -> (length pre + rx_size r + length post = total)%nat ->
    placed charsets b (length pre) r ->
    exists mid, run (Some (pre ++ (blank <$> nodes_of (length pre) r) ++ post, f)) (length pre) (rx_size r) =
                  Some (pre ++ mid ++ post, f + ntarget (leaves r)) /\ tree_ok b f r (length pre) mid.

Lemma blank_wf n : follows_wf (blank n).
Proof. by apply bs_create_wf. Qed.

Lemma blanks_wf l : Forall follows_wf (blank <$> l).
Proof. apply Forall_fmap, Forall_true. intros n. apply blank_wf. Qed.

Lemma insert_mid {A} (pre : list A) x y post k : k = length pre -> <[k := y]> (pre ++ x :: post) = pre ++ y :: post.
Proof. intros ->. rewrite <- (Nat.add_0_r (length pre)). by rewrite insert_app_r. Qed.

(** A set. *)
Lemma computes_leaf b f cs : Z.of_nat b < N -> bs_wf 256 cs -> computes b f (CHARSET cs (Z.of_nat b)).
Proof.
  intros Hb Hcs pre post Hpre Hpost Htot Hpl. cbn [nodes_of rx_size fmap list_fmap app leaves]. rewrite run_one. unfold calc_node.
  rewrite list_lookup_middle by done. cbn [mbind option_bind blank new_mnode mn_rx]. unfold TARGET_TRANS.
  rewrite (dm_bit_spec 256) by (done || (unfold bs_cap; lia)). cbn [mbind option_bind].
  set (n0 := blank (new_mnode (CHARSET cs (Z.of_nat b)) None None)).
  set (n1 := if bs_mem cs 0 then set_final f n0 else n0).
  assert (bs_wf N (mn_firstpos n1) /\ bs_wf N (mn_lastpos n1) /\ bs_wf N (mn_followpos n1)) as (W1 & W2 & W3).
  { unfold n1, n0. destruct (bs_mem cs 0); cbn; (split; [|split]); by apply bs_create_wf. }
  assert (mn_firstpos n1 = dm_bitset_create N /\ mn_lastpos n1 = dm_bitset_create N /\ mn_followpos n1 = dm_bitset_create N /\ mn_rx n1 = CHARSET cs (Z.of_nat b)) as (E1 & E2 & E3 & E4).
  { unfold n1, n0. by destruct (bs_mem cs 0). }
  unfold calc_pos. rewrite E4. cbn [mbind option_bind].
  assert (0 <= Z.of_nat b < bs_cap N) as Hcap by (unfold bs_cap; lia).
  destruct (dm_bit_set_spec N (mn_firstpos n1) (Z.of_nat b) W1 Hcap) as (f1 & -> & F1 & F2). cbn [mbind option_bind].
  destruct (dm_bit_set_spec N (mn_lastpos n1) (Z.of_nat b) W2 Hcap) as (l1 & -> & L1 & L2). cbn [mbind option_bind set_pos mn_rx]. rewrite E4. cbn [mbind option_bind].
  rewrite insert_mid by done.
  exists [set_pos false f1 l1 n1]. split.
  - do 2 f_equal. unfold ntarget. cbn [filter list_filter]. destruct (decide (bs_mem cs 0 = true)) as [Eb|Eb]; [rewrite Eb|apply not_true_iff_false in Eb; rewrite Eb]; cbn; lia.
  - assert (forall bs', bs_wf N bs' -> (forall j, 0 <= j -> bs_mem bs' j = (j =? Z.of_nat b) || bs_mem (dm_bitset_create N) j) -> pos_is b (fun p => p =? 0)%nat bs') as Hset.
    { intros bs' Hw Hm. split; [done|]. intros j Hj. rewrite Hm, bs_mem_create, orb_false_r by lia.
      destruct (Z.eqb_spec j (Z.of_nat b)), (Nat.leb_spec b (Z.to_nat j)), (Nat.eqb_spec (Z.to_nat j - b) 0); cbn; lia || done. }
    rewrite E1 in F2. rewrite E2 in L2. split.
    + cbn. by rewrite E4.
    + apply Forall_singleton. done.
    + exists (set_pos false f1 l1 n1). split; [done|]. split; [done|]. split; by apply Hset.
    + intros [|p] cs' Hp; [|done]. cbn in Hp. injection Hp as <-. eexists 0%nat, _. split; [done|]. split; [done|]. cbn [set_pos mn_followpos mn_final]. rewrite E3. split.
      * split; [by apply bs_create_wf|]. intros j Hj. rewrite bs_mem_create by lia. cbn. by rewrite andb_false_r.
      * intros Hb0. unfold n1. rewrite Hb0. cbn. unfold ntarget. cbn. lia.
Qed.

Lemma calc_first_cat b l r out bs1 bs2 : bs_wf N out -> pos_is b (firstpos l) bs1 -> pos_is (b + width l) (firstpos r) bs2 ->
  exists bs', (if nullable l then dm_bit_union out bs1 bs2 else dm_bit_copy out bs1) = Some bs' /\ pos_is b (firstpos (CAT l r)) bs'.
Proof.
  intros Ho H1 H2. cbn [firstpos]. destruct (nullable l).
  - apply pos_is_union; [done..|]. intros p. apply firstpos_in.
  - destruct (pos_is_copy b (firstpos l) out bs1 Ho H1) as (bs' & E & H). exists bs'. split; [done|]. revert H. apply pos_is_left. intros p. apply firstpos_in.
Qed.

Lemma calc_last_cat b l r out bs1 bs2 : bs_wf N out -> pos_is b (lastpos l) bs1 -> pos_is (b + width l) (lastpos r) bs2 ->
  exists bs', (if nullable r then dm_bit_union out bs1 bs2 else dm_bit_copy out bs2) = Some bs' /\ pos_is b (lastpos (CAT l r)) bs'.
Proof.
  intros Ho H1 H2. cbn [lastpos]. destruct (nullable r).
  - apply pos_is_union; [done..|]. intros p. apply lastpos_in.
  - destruct (pos_is_copy _ (lastpos r) out bs2 Ho H2) as (bs' & E & H). exists bs'. split; [done|]. revert H. apply pos_is_right.
Qed.

(** The two parts of an expression are computed, up to its root. *)
Lemma computes_parts b f l r rr :
  places rr = places l ++ ((fun c => rx_size l + c)%nat <$> places r) -> rx_size rr = S (rx_size l + rx_size r) ->
  (forall off, exists n, nodes_of off rr = nodes_of off l ++ nodes_of (off + rx_size l) r ++ [n] /\
     n = new_mnode rr (Some (off + rx_size l - 1)%nat) (Some (off + rx_size l + rx_size r - 1)%nat)) ->
  computes b f l -> computes (b + width l) (f + ntarget (leaves l)) r ->
  forall pre post, Forall follows_wf pre -> Forall follows_wf post -> (length pre + rx_size rr + length post = total)%nat -> placed charsets b (length pre) rr ->
    exists midl midr c1 c2, let off := length pre in let n := blank (new_mnode rr (Some (off + rx_size l - 1)%nat) (Some (off + rx_size l + rx_size r - 1)%nat)) in
      run (Some (pre ++ (blank <$> nodes_of off rr) ++ post, f)) off (rx_size rr) =
        calc_node charsets (off + rx_size l + rx_size r) (pre ++ midl ++ midr ++ n :: post, f + ntarget (leaves l) + ntarget (leaves r)) /\
      tree_ok b f l off midl /\ tree_ok (b + width l) (f + ntarget (leaves l)) r (off + rx_size l) midr /\
      last midl = Some c1 /\ last midr = Some c2 /\
      mn_nullable c1 = nullable l /\ mn_nullable c2 = nullable r /\
      pos_is b (firstpos l) (mn_firstpos c1) /\ pos_is b (lastpos l) (mn_lastpos c1) /\
      pos_is (b + width l) (firstpos r) (mn_firstpos c2) /\ pos_is (b + width l) (lastpos r) (mn_lastpos c2) /\
      (forall x, child (pre ++ midl ++ midr ++ x :: post) (Some (off + rx_size l - 1)%nat) = Some c1 /\
                 child (pre ++ midl ++ midr ++ x :: post) (Some (off + rx_size l + rx_size r - 1)%nat) = Some c2).
Proof.
  intros Ep Es El Cl Cr pre post Hpre Hpost Htot Hpl. cbn zeta. destruct (El (length pre)) as (n & -> & ->). rewrite Es in *.
  rewrite !fmap_app, <- !app_assoc. cbn [fmap list_fmap app]. set (n := blank (new_mnode rr _ _)).
  destruct (Cl pre ((blank <$> nodes_of (length pre + rx_size l) r) ++ n :: post)) as (midl & E1 & T1); [done| | |by eapply placed_l|].
  { apply Forall_app. split; [apply blanks_wf|]. by constructor; [apply blank_wf|]. }
  { rewrite !length_app, length_fmap, layout_length. cbn. lia. }
  pose proof (to_len _ _ _ _ _ T1) as L1.
  destruct (Cr (pre ++ midl) (n :: post)) as (midr & E2 & T2).
  { apply Forall_app. split; [done|]. apply (to_wf _ _ _ _ _ T1). }
  { by constructor; [apply blank_wf|]. }
  { rewrite !length_app. cbn. lia. }
  { rewrite length_app, L1. by eapply placed_r. }
  rewrite length_app, L1 in E2, T2. rewrite <- !app_assoc in E2.
  destruct (to_root _ _ _ _ _ T1) as (c1 & A1 & A2 & A3 & A4), (to_root _ _ _ _ _ T2) as (c2 & B1 & B2 & B3 & B4).
  exists midl, midr, c1, c2. split; [|repeat (split; [done|])].
  - replace (S (rx_size l + rx_size r)) with (rx_size l + rx_size r + 1)%nat by lia. rewrite !run_app, E1, E2, Nat.add_assoc. apply run_one.
  - intros x. pose proof (to_len _ _ _ _ _ T2) as L2. split; [apply child_last; [done|lia]|].
    rewrite app_assoc. apply child_last; [done|]. rewrite length_app. lia.
Qed.

Lemma mid_lookup {A} (pre midl midr : list A) x post k : k = (length pre + length midl + length midr)%nat ->
  (pre ++ midl ++ midr ++ x :: post) !! k = Some x /\ forall y, <[k := y]> (pre ++ midl ++ midr ++ x :: post) = pre ++ midl ++ midr ++ y :: post.
Proof.
  intros ->. split; [|intros y]; rewrite !(app_assoc pre), !(app_assoc (pre ++ midl)).
  - rewrite list_lookup_middle; [done|]. rewrite !length_app. lia.
  - apply insert_mid. rewrite !length_app. lia.
Qed.

Lemma computes_or b f l r : computes b f l -> computes (b + width l) (f + ntarget (leaves l)) r -> computes b f (OR l r).
Proof.
  intros Cl Cr pre post Hpre Hpost Htot Hpl.
  destruct (computes_parts b f l r (OR l r) eq_refl eq_refl ltac:(by eexists) Cl Cr pre post Hpre Hpost Htot Hpl)
    as (midl & midr & c1 & c2 & E & T1 & T2 & A1 & B1 & A2 & B2 & A3 & A4 & B3 & B4 & Hch). rewrite E. clear E.
  pose proof (to_len _ _ _ _ _ T1) as L1. pose proof (to_len _ _ _ _ _ T2) as L2. set (n := blank (new_mnode _ _ _)) in *.
  destruct (mid_lookup pre midl midr n post (length pre + rx_size l + rx_size r) ltac:(lia)) as [E1 E2]. destruct (Hch n) as [H1 H2].
  unfold calc_node. rewrite E1. cbn [mbind option_bind n blank new_mnode mn_rx mn_left mn_right calc_pos]. fold n. unfold calc_pos. cbn [n blank new_mnode mn_rx mn_left mn_right]. fold n.
  rewrite H1, H2. cbn [mbind option_bind].
  destruct (pos_is_union b (width l) (firstpos l) (firstpos r) (mn_firstpos n) _ _ ltac:(by apply bs_create_wf) A3 B3 (firstpos_in l)) as (f1 & -> & F1). cbn [mbind option_bind].
  destruct (pos_is_union b (width l) (lastpos l) (lastpos r) (mn_lastpos n) _ _ ltac:(by apply bs_create_wf) A4 B4 (lastpos_in l)) as (l1 & -> & F2).
  cbn [mbind option_bind set_pos mn_rx n blank new_mnode]. rewrite E2. rewrite A2, B2. eexists (midl ++ midr ++ [_]). split.
  { rewrite <- !app_assoc. cbn [app leaves]. rewrite ntarget_app. do 2 f_equal. lia. }
  eapply (tree_two b f l r); try done.
  - cbn [nodes_of]. by rewrite !fmap_app.
  - intros p q. cbn [followpos]. destruct (Nat.ltb_spec (width l + p) (width l)); [lia|]. by replace (width l + p - width l)%nat with p by lia.
  - apply (to_rx _ _ _ _ _ T1).
  - apply (to_wf _ _ _ _ _ T1).
  - intros p cs Hp. assert (p < width l)%nat as Hlt by by apply lookup_lt_Some in Hp.
    destruct (to_leaf _ _ _ _ _ T1 p cs Hp) as (c & n' & P1 & P2 & P3 & P4). exists c, n'. split; [done|]. split; [done|]. split; [|done].
    apply (pos_is_left _ (width l)) in P3; [|intros q Hq; by apply followpos_in in Hq as [_ Hq]]. revert P3. apply pos_is_ext. intros q. cbn [followpos].
    by rewrite (proj2 (Nat.ltb_lt p (width l)) Hlt).
  - by apply bs_create_wf.
Qed.

Lemma computes_cat b f l r : computes b f l -> computes (b + width l) (f + ntarget (leaves l)) r -> computes b f (CAT l r).
Proof.
  intros Cl Cr pre post Hpre Hpost Htot Hpl.
  destruct (computes_parts b f l r (CAT l r) eq_refl eq_refl ltac:(by eexists) Cl Cr pre post Hpre Hpost Htot Hpl)
    as (midl & midr & c1 & c2 & E & T1 & T2 & A1 & B1 & A2 & B2 & A3 & A4 & B3 & B4 & Hch). rewrite E. clear E.
  pose proof (to_len _ _ _ _ _ T1) as L1. pose proof (to_len _ _ _ _ _ T2) as L2. set (n := blank (new_mnode _ _ _)) in *.
  destruct (mid_lookup pre midl midr n post (length pre + rx_size l + rx_size r) ltac:(lia)) as [E1 E2]. destruct (Hch n) as [H1 H2].
  unfold calc_node. rewrite E1. cbn [mbind option_bind n blank new_mnode mn_rx]. fold n. unfold calc_pos. cbn [n blank new_mnode mn_rx mn_left mn_right]. fold n.
  rewrite H1, H2. cbn [mbind option_bind]. rewrite A2, B2.
  destruct (calc_first_cat b l r (mn_firstpos n) _ _ ltac:(by apply bs_create_wf) A3 B3) as (f1 & -> & F1). cbn [mbind option_bind].
  destruct (calc_last_cat b l r (mn_lastpos n) _ _ ltac:(by apply bs_create_wf) A4 B4) as (l1 & -> & F2).
  cbn [mbind option_bind]. rewrite E2. set (n1 := set_pos _ f1 l1 n). change (mn_rx n1) with (CAT l r). cbv beta iota.
  change (mn_left n1) with (mn_left n). change (mn_right n1) with (mn_right n). destruct (Hch n1) as [H3 H4]. cbn [n blank new_mnode mn_left mn_right]. rewrite H3, H4. cbn [mbind option_bind].
  destruct (part_unite b l pre midl (midr ++ n1 :: post) charsets (mn_lastpos c1) (mn_firstpos c2)) as (midl' & -> & U1 & U2 & U3); [done| |done|done| | |done|apply B3|].
  { apply Forall_app. split; [done|]. apply Forall_app. split; [apply (to_wf _ _ _ _ _ T1)|]. apply Forall_app. split; [apply (to_wf _ _ _ _ _ T2)|].
    constructor; [by apply bs_create_wf|done]. }
  { intros c Hc%charsets_in. rewrite !length_app. cbn [length rx_size] in *. lia. }
  { by eapply (placed_l _ _ _ _ r (CAT l r)). }
  cbn [mbind option_bind]. destruct (united_leaves b f l (length pre) midl midl' (mn_firstpos c2) (fun q => if (q <? width l)%nat then false else firstpos r (q - width l)) (CAT l r)
    T1 U1 U2 U3) as (V1 & V2 & V3); [by apply pos_is_right| |].
  { intros p q Hp. cbn [followpos]. rewrite (proj2 (Nat.ltb_lt p (width l)) Hp). destruct (Nat.ltb_spec q (width l)) as [Hq|Hq]; [by rewrite andb_false_r, orb_false_r|].
    destruct (followpos l p q) eqn:Eq; [apply followpos_in in Eq; lia|done]. }
  exists (midl' ++ midr ++ [n1]). split.
  { rewrite <- !app_assoc. cbn [app leaves]. rewrite ntarget_app. do 2 f_equal. lia. }
  eapply (tree_two b f l r); try done.
  - cbn [nodes_of]. by rewrite !fmap_app.
  - intros p q. cbn [followpos]. destruct (Nat.ltb_spec (width l + p) (width l)); [lia|]. by replace (width l + p - width l)%nat with p by lia.
  - by apply bs_create_wf.
Qed.

(** A repetition; [again] says whether its first positions follow its last ones. *)
Definition is_again (r : rx_node) : bool := match r with STAR _ | PLUS _ => true | _ => false end.

Lemma computes_one b f l rr : rr = STAR l \/ rr = PLUS l \/ rr = QUEST l -> computes b f l -> computes b f rr.
Proof.
  intros Hrr Cl pre post Hpre Hpost Htot Hpl.
  assert (places rr = places l /\ leaves rr = leaves l /\ rx_size rr = S (rx_size l) /\ firstpos rr = firstpos l /\ lastpos rr = lastpos l /\
    nodes_of (length pre) rr = nodes_of (length pre) l ++ [new_mnode rr (Some (length pre + rx_size l - 1)%nat) None]) as (Ep & El & Es & Ef & Ela & Elay).
  { by destruct Hrr as [->|[->| ->]]. }
  rewrite Es, Elay, El in *. rewrite fmap_app, <- app_assoc. cbn [fmap list_fmap app]. set (n := blank _).
  assert (placed charsets b (length pre) l) as Hpl' by (intros p c; rewrite <- Ep; apply Hpl).
  destruct (Cl pre (n :: post) Hpre) as (mid & E & T); [by constructor; [apply blank_wf|]|cbn; lia|done|].
  pose proof (to_len _ _ _ _ _ T) as L. destruct (to_root _ _ _ _ _ T) as (c1 & A1 & A2 & A3 & A4).
  assert (forall x, child (pre ++ mid ++ x :: post) (Some (length pre + rx_size l - 1)%nat) = Some c1) as Hch by (intros x; apply child_last; [done|lia]).
  destruct (mid_lookup pre mid [] n post (length pre + rx_size l) ltac:(cbn; lia)) as [E1 E2]. cbn [app] in E1, E2.
  destruct (pos_is_copy b _ (mn_firstpos n) _ ltac:(by apply bs_create_wf) A3) as (f1 & F1 & F1'), (pos_is_copy b _ (mn_lastpos n) _ ltac:(by apply bs_create_wf) A4) as (l1 & F2 & F2').
  set (n1 := set_pos (nullable rr) f1 l1 n).
  assert (run (Some (pre ++ (blank <$> nodes_of (length pre) l) ++ n :: post, f)) (length pre) (S (rx_size l)) =
    (nodes ← (if is_again rr then unite_followpos (pre ++ mid ++ n1 :: post) charsets 0 l1 f1 else Some (pre ++ mid ++ n1 :: post)); Some (nodes, f + ntarget (leaves l)))) as ->.
  { rewrite <- Nat.add_1_r, run_app, E, run_one. unfold calc_node. rewrite E1. cbn [mbind option_bind].
    assert (mn_rx n = rr /\ mn_left n = Some (length pre + rx_size l - 1)%nat) as [N1 N2] by done.
    unfold calc_pos. rewrite N1. destruct Hrr as [->|[->| ->]]; cbv beta iota; cbn [mbind option_bind]; rewrite N1; cbv beta iota; rewrite N2, (Hch n); cbn [mbind option_bind]; rewrite F1; cbn [mbind option_bind]; rewrite F2; cbn [mbind option_bind set_pos mn_rx];
      rewrite E2, N1; unfold n1; cbn [nullable]; by rewrite ?A2. }
  assert (exists mid', (if is_again rr then unite_followpos (pre ++ mid ++ n1 :: post) charsets 0 l1 f1 else Some (pre ++ mid ++ n1 :: post)) = Some (pre ++ mid' ++ n1 :: post) /\
    mn_rx <$> mid' = mn_rx <$> nodes_of (length pre) l /\ Forall (fun n => bs_wf N (mn_followpos n)) mid' /\
    (forall p cs, leaves l !! p = Some cs -> exists c n, places l !! p = Some c /\ mid' !! c = Some n /\ pos_is b (followpos rr p) (mn_followpos n) /\
    (bs_mem cs 0 = true -> mn_final n = f + ntarget (take p (leaves l))))) as (mid' & -> & V1 & V2 & V3).
  { destruct (is_again rr) eqn:Ea.
    - destruct (part_unite b l pre mid (n1 :: post) charsets l1 f1) as (mid' & E3 & U1 & U2 & U3); [done| |done|done| |done|done|apply F1'|].
      { apply Forall_app. split; [done|]. apply Forall_app. split; [apply (to_wf _ _ _ _ _ T)|]. constructor; [by apply bs_create_wf|done]. }
      { intros c Hc%charsets_in. rewrite !length_app. cbn [length rx_size] in *. lia. }
      exists mid'. split; [done|]. apply (united_leaves b f l (length pre) mid mid' f1 (firstpos l) rr T U1 U2 U3 F1').
      intros p q _. by destruct Hrr as [->|[->| ->]].
    - exists mid. split; [done|]. split; [apply (to_rx _ _ _ _ _ T)|]. split; [apply (to_wf _ _ _ _ _ T)|]. destruct Hrr as [->|[->| ->]]; [done..|]. apply (to_leaf _ _ _ _ _ T). }
  cbn [mbind option_bind]. exists (mid' ++ [n1]). split; [by rewrite <- app_assoc|].
  apply (tree_one b f l rr (length pre) mid' n1); try done; [by rewrite Elay, fmap_app|by apply bs_create_wf|by rewrite Ef|by rewrite Ela].
Qed.

Lemma computes_all r : forall b f, rx_wf r -> numbered b r -> Z.of_nat (b + width r) <= N -> computes b f r.
Proof.
  induction r as [l IHl r IHr|l IH|l IH|l IHl r IHr|l IH|cs i]; intros b f Hwf Hn Hw; cbn [rx_wf numbered] in *; rewrite ?(proj1 (width_two l r)), ?(proj2 (width_two l r)) in Hw.
  - destruct Hwf, Hn. apply computes_cat; [apply IHl|apply IHr]; try done; lia.
  - apply (computes_one b f l); [auto|]. by apply IH.
  - apply (computes_one b f l); [auto|]. by apply IH.
  - destruct Hwf, Hn. apply computes_or; [apply IHl|apply IHr]; try done; lia.
  - apply (computes_one b f l); [auto|]. by apply IH.
  - subst i. apply computes_leaf; [|done]. unfold width in Hw. cbn in Hw. lia.
Qed.

End run.

End tables.

(** ** The tables of an expression *)

Lemma create_bitsets_ok N nodes : forall mem, false ∉ mem -> exists mem', create_bitsets N nodes mem = RxRet (Some (blank N <$> nodes)) mem' /\ false ∉ mem'.
Proof.
  induction nodes as [|n nodes IH]; intros mem Hmem; cbn [create_bitsets].
  { by exists mem. }
  destruct (rx_alloc_ok mem Hmem) as [E1 H1]. rewrite (rx_exec _ _ _ _ _ E1). cbn [negb]. destruct (rx_alloc_ok _ H1) as [E2 H2]. rewrite (rx_exec _ _ _ _ _ E2). cbn [negb].
  destruct (rx_alloc_ok _ H2) as [E3 H3]. rewrite (rx_exec _ _ _ _ _ E3). cbn [negb]. destruct (IH _ H3) as (mem' & E & H). rewrite (rx_exec _ _ _ _ _ E). by exists mem'.
Qed.

Lemma fill_table_start r : fill_table r ([], []) = (nodes_of 0 r, places r).
Proof. rewrite fill_table_spec. cbn [fst snd app length]. f_equal. rewrite <- (list_fmap_id (places r)) at 2. by apply list_fmap_ext. Qed.

Lemma calc_functions_ok r : rx_wf r -> numbered 0 r -> Z.of_nat (width r) < 2 ^ 31 ->
  exists nodes, calc_functions (blank (Z.of_nat (width r)) <$> nodes_of 0 r) (places r) = Some nodes /\ tree_ok (Z.of_nat (width r)) 0 1 r 0 nodes.
Proof.
  intros Hwf Hn Hw. unfold calc_functions. rewrite length_fmap, layout_length.
  destruct (computes_all (Z.of_nat (width r)) (places r) (rx_size r)) with (r := r) (b := 0%nat) (f := 1) (pre := @nil mnode) (post := @nil mnode) as (mid & E & T); try done.
  - apply places_nodup.
  - by rewrite places_length.
  - intros c [p Hp]%list_elem_of_lookup. by apply places_in in Hp.
  - lia.
  - by intros p c Hp.
  - cbn [length app] in *. rewrite app_nil_r in E. unfold run in E. rewrite E. cbn [mbind option_bind fst]. exists (mid ++ []). by rewrite app_nil_r.
Qed.

(** ** Character maps *)

(** A scan of a set of whole words stays inside. *)
Lemma get_next_lt n bs fuel : forall lo r, bs_wf n bs -> n mod 32 = 0 -> 0 <= lo -> get_next_loop fuel bs lo = Some r -> r < n.
Proof.
  induction fuel as [|fuel IH]; intros lo r Hwf Hn Hlo; [done|]. cbn [get_next_loop]. rewrite (bs_wf_head n) by done. cbn [mbind option_bind].
  assert (swrap 32 n = n) as -> by (destruct Hwf as [Hn' _]; unfold swrap; rewrite Z.mod_small; lia).
  assert (0 <= n) as Hn0 by (destruct Hwf; lia).
  unfold INT_SHIFT, DM_BITS_PER_INT. rewrite Z.shiftr_div_pow2 by lia. change (32 - 1) with (Z.ones 5). rewrite Z.land_ones by lia. change (2 ^ 5) with 32.
  destruct (Z.ltb_spec lo n) as [Hlt|Hge]; [|intros [= <-]; lia].
  destruct (bs_wf_lookup n bs (lo / 32 + 1) Hwf) as (w & -> & Hw & Hu); [lia|]. cbn [mbind option_bind].
  destruct (test_word_spec w (lo mod 32)) as [[-> _]|(Hb & _)]; [done|lia|..].
  - intros H. apply (IH (lo - lo mod 32 + 32)); [done|done|lia|done].
  - destruct (Z.leb_spec 0 (test_word w (lo mod 32))); [intros [= <-]|lia]. lia.
Qed.

Definition maps_ok (N : Z) (maps : list (list Z)) (f : Z -> Z -> Prop) : Prop :=
  length maps = 256%nat /\ forall a, 0 <= a < 256 -> exists cm, zlookup maps a = Some cm /\ bs_wf N cm /\ forall j, 0 <= j < bs_cap N -> bs_mem cm j = true <-> f a j.

Lemma create_maps_ok N n : 0 <= N < 2 ^ 31 -> forall mem, false ∉ mem ->
  exists mem', create_maps n N mem = RxRet (Some (replicate n (dm_bitset_create N))) mem' /\ false ∉ mem'.
Proof.
  intros HN. induction n as [|n IH]; intros mem Hmem; cbn [create_maps].
  { by exists mem. }
  destruct (rx_alloc_ok mem Hmem) as [E1 H1]. rewrite (rx_exec _ _ _ _ _ E1). destruct (IH _ H1) as (mem' & E & H). cbn [negb]. rewrite (rx_exec _ _ _ _ _ E). by exists mem'.
Qed.

Lemma rx_opt_exec {S A B} (x : A) (k : A -> RX S B) s : (rx_opt (Some x) ≫= k) s = k x s.
Proof. done. Qed.

Lemma mark_charset_ok N cs i fuel : bs_wf 256 cs -> 0 <= i < bs_cap N -> forall lo a maps f mem,
  maps_ok N maps f -> 0 <= lo -> a < 256 -> is_next 256 cs lo a -> Z.max 0 (256 - lo) < Z.of_nat fuel ->
  exists maps', mark_charset fuel cs a i maps mem = RxRet maps' mem /\ maps_ok N maps' (fun c j => f c j \/ (lo <= c < 256 /\ bs_mem cs c = true /\ j = i)).
Proof.
  intros Hcs Hi. induction fuel as [|fuel IH]; intros lo a maps f mem [Hlen Hm] Hlo Ha Hn Hf; [lia|]. cbn [mark_charset]. destruct Hn as [[-> Hno]|(Hr & Hb & Hno)].
  - rewrite (proj2 (Z.ltb_lt (-1) 0)) by lia. exists maps. split; [done|]. split; [done|]. intros c Hc. destruct (Hm c Hc) as (cm & E & W & M). exists cm. split; [done|]. split; [done|].
    intros j Hj. rewrite M by done. split; [by left|]. intros [H|(H1 & H2 & _)]; [done|]. by rewrite Hno in H2.
  - destruct (Z.ltb_spec a 0); [lia|]. destruct (Hm a ltac:(lia)) as (cm & E & W & M). rewrite E, rx_opt_exec.
    destruct (dm_bit_set_spec N cm i W Hi) as (cm' & -> & W' & M'). rewrite rx_opt_exec, zupdate_Some by lia. rewrite rx_opt_exec.
    destruct (dm_bit_get_next_spec 256 cs a Hcs ltac:(lia)) as (a' & E' & Hn'). rewrite E', rx_opt_exec.
    assert (a' < 256) as Ha' by (eapply (get_next_lt 256 cs); [done|done| |exact E']; lia).
    set (maps1 := <[Z.to_nat a := cm']> maps). set (f1 := fun c j => f c j \/ (c = a /\ j = i)).
    destruct (IH (a + 1) a' maps1 f1 mem) as (maps' & E2 & Hlen2 & Hm2); [|lia|done|done|lia|].
    { split; [unfold maps1; by rewrite length_insert|]. intros c Hc. unfold maps1, f1. rewrite zlookup_lookup by lia. destruct (decide (c = a)) as [->|Hne].
      - rewrite list_lookup_insert_eq by lia. exists cm'. split; [done|]. split; [done|]. intros j Hj. rewrite M' by lia. rewrite orb_true_iff, M, Z.eqb_eq by done. naive_solver.
      - rewrite list_lookup_insert_ne by lia. rewrite <- zlookup_lookup by lia. destruct (Hm c Hc) as (cm1 & E1 & W1 & M1). exists cm1. split; [done|]. split; [done|]. intros j Hj. rewrite M1 by done. naive_solver. }
    exists maps'. split; [done|]. split; [done|]. intros c Hc. destruct (Hm2 c Hc) as (cm2 & E3 & W2 & M2). exists cm2. split; [done|]. split; [done|]. intros j Hj. rewrite M2 by done.
    unfold f1. split.
    + intros [[H1|[-> ->]]|(H1 & H2 & H3)]; [by left|right; split; [lia|done]|right; split; [lia|done]].
    + intros [H1|(H1 & H2 & H3)]; [by left; left|]. destruct (decide (c = a)) as [->|Hne]; [by left; right|]. right. split; [|done].
      destruct (Z.lt_ge_cases c a) as [Hlt|Hge]; [rewrite Hno in H2; [done|lia]|lia].
Qed.

Lemma mark_charsets_ok N nodes : forall maps f mem, maps_ok N maps f ->
  (forall cs i, CHARSET cs i ∈ (mn_rx <$> nodes) -> bs_wf 256 cs /\ 0 <= i < bs_cap N) ->
  exists maps', mark_charsets nodes maps mem = RxRet maps' mem /\
    maps_ok N maps' (fun c j => f c j \/ exists cs, CHARSET cs j ∈ (mn_rx <$> nodes) /\ bs_mem cs c = true).
Proof.
  induction nodes as [|n nodes IH]; intros maps f mem Hmaps Hall; cbn [mark_charsets fmap list_fmap].
  { exists maps. split; [done|]. destruct Hmaps as [Hlen Hm]. split; [done|]. intros a Ha. destruct (Hm a Ha) as (cm & E & W & M). exists cm. split; [done|]. split; [done|].
    intros j Hj. rewrite M by done. split; [by left|]. intros [H|(cs & H%not_elem_of_nil & _)]; done. }
  assert (exists maps1, (if mn_rx n is CHARSET cs index then a ← rx_opt (dm_bit_get_first cs); mark_charset 300 cs a index maps else mret maps) mem = RxRet maps1 mem /\
    maps_ok N maps1 (fun c j => f c j \/ exists cs, mn_rx n = CHARSET cs j /\ bs_mem cs c = true)) as (maps1 & E & Hmaps1).
  { assert (forall x, mn_rx n = x -> match x with CHARSET _ _ => False | _ => True end -> maps_ok N maps (fun c j => f c j \/ exists cs, x = CHARSET cs j /\ bs_mem cs c = true)) as Hno.
    { intros x _ Hx. destruct Hmaps as [Hlen Hm]. split; [done|]. intros a Ha. destruct (Hm a Ha) as (cm & E & W & M). exists cm. split; [done|]. split; [done|].
      intros j Hj. rewrite M by done. split; [by left|]. intros [H|(cs & -> & _)]; done. }
    destruct (mn_rx n) as [l r|l|l|l r|l|cs i] eqn:En; try (by exists maps; split; [done|apply Hno]).
    destruct (Hall cs i) as [Hcs Hi]; [cbn; rewrite En; left|]. destruct (dm_bit_get_first_spec 256 cs Hcs) as (a & Ea & Hna). rewrite Ea, rx_opt_exec.
    assert (a < 256) as Ha by (eapply (get_next_lt 256 cs); [done|done| |exact Ea]; lia).
    destruct (mark_charset_ok N cs i 300 Hcs Hi 0 a maps f mem Hmaps ltac:(lia) Ha Hna ltac:(lia)) as (maps1 & E1 & Hlen1 & Hm1). exists maps1. split; [done|]. split; [done|].
    intros c Hc. destruct (Hm1 c Hc) as (cm & E2 & W & M). exists cm. split; [done|]. split; [done|]. intros j Hj. rewrite M by done.
    split; (intros [H|H]; [by left|right]); [destruct H as (H1 & H2 & ->); by exists cs|destruct H as (cs' & [= <- <-] & H2); done]. }
  rewrite (rx_exec _ _ _ _ _ E). destruct (IH maps1 _ mem Hmaps1) as (maps' & E' & Hlen' & Hm').
  { intros cs i H. apply Hall. cbn. by right. }
  exists maps'. split; [done|]. split; [done|]. intros c Hc. destruct (Hm' c Hc) as (cm & E2 & W & M). exists cm. split; [done|]. split; [done|]. intros j Hj. rewrite M by done.
  split.
  - intros [[H|(cs & E3 & Hb)]|(cs & H & Hb)]; [by left|right; exists cs; split; [rewrite <- E3; left|done]|right; exists cs; split; [by right|done]].
  - intros [H|(cs & [E3|H]%elem_of_cons & Hb)]; [by left; left|left; right; by exists cs|right; by exists cs].
Qed.
