(* ===== verification/MatcherProps.v ===== *)
(** * States of the matcher

    A state of the automaton holds the sets that may come next, and a match goes
    through the states of the beginnings of the string.  States that are made are
    kept, so a later match finds what an earlier one computed. *)

From S2P Require Import Prelude Bitset Regex RegexLang RegexOpt Ttree Matcher MatcherTables.

(** ** Execution *)

Lemma m_get_exec {B} (k : dm_regex -> RX dm_regex B) m : (rx_get ≫= k) m = k m m.
Proof. done. Qed.

Lemma m_upd_exec {B} f (k : unit -> RX dm_regex B) m : (rx_upd f ≫= k) m = k tt (f m).
Proof. done. Qed.

Lemma m_ret_exec {A B} (a : A) (k : A -> RX dm_regex B) m : (mret a ≫= k) m = k a m.
Proof. done. Qed.

Lemma get_state_exec {B} i d (k : dfa_state -> RX dm_regex B) m : m_states m !! i = Some d -> (get_state i ≫= k) m = k d m.
Proof. intros E. apply rx_exec. unfold get_state. by rewrite m_get_exec, E. Qed.

Lemma put_state_exec {B} i d (k : unit -> RX dm_regex B) m : (put_state i d ≫= k) m = k tt (set_states (<[i := d]> (m_states m)) m).
Proof. done. Qed.

Lemma on_mem_exec {A B} (p : RX (list bool) A) (k : A -> RX dm_regex B) m a mem : p (m_mem m) = RxRet a mem -> (on_mem p ≫= k) m = k a (set_mem mem m).
Proof. intros E. apply rx_exec. unfold on_mem. by rewrite E. Qed.

Lemma alloc_exec {B} (k : bool -> RX dm_regex B) m : false ∉ m_mem m -> (on_mem rx_alloc ≫= k) m = k true (set_mem (tail (m_mem m)) m) /\ false ∉ tail (m_mem m).
Proof. intros H. destruct (rx_alloc_ok _ H) as [E H']. split; [|done]. by apply on_mem_exec. Qed.

Lemma rx_assoc {S A B C} (p : RX S A) (f : A -> RX S B) (g : B -> RX S C) s : ((p ≫= f) ≫= g) s = (p ≫= (fun a => f a ≫= g)) s.
Proof. unfold mbind, RX_bind. by destruct (p s). Qed.

Section automaton.
Context (r : rx_node).

Definition N : Z := Z.of_nat (width r).

(** ** Sets of positions *)

(** Set [p] has the character. *)
Definition has_char (a : Z) (p : nat) : Prop := exists cs, leaves r !! p = Some cs /\ bs_mem cs a = true.

(** A bitset holds the positions in [P]. *)
Definition bits_are (bs : list Z) (P : nat -> Prop) : Prop := bs_wf N bs /\ forall j, 0 <= j < bs_cap N -> bs_mem bs j = true <-> P (Z.to_nat j).

(** The positions of the state that have the character, and those that follow them. *)
Definition matching (bs : list Z) (a : Z) (p : nat) : Prop := bs_mem bs (Z.of_nat p) = true /\ has_char a p.
Definition goes (bs : list Z) (a : Z) (bs' : list Z) : Prop := bits_are bs' (fun q => exists p, matching bs a p /\ followpos r p q = true).

(** The last end marker of the state, as its number from 1 on. *)
Definition final_is (bs : list Z) (z : Z) : Prop :=
  exists p, matching bs 0 p /\ (forall p', matching bs 0 p' -> (p' <= p)%nat) /\ z = 1 + ntarget (take p (leaves r)).

Lemma has_char_lt a p : has_char a p -> (p < width r)%nat.
Proof. intros (cs & H & _). by apply lookup_lt_Some in H. Qed.

Lemma bits_are_eq bs bs' P : bits_are bs P -> bits_are bs' P -> bs = bs'.
Proof. intros [W1 H1] [W2 H2]. apply (bs_wf_ext N); [done..|]. intros j Hj. apply eq_true_iff_eq. by rewrite H1, H2. Qed.

Lemma bits_are_ext bs P Q : (forall p, P p <-> Q p) -> bits_are bs P -> bits_are bs Q.
Proof. intros H [H1 H2]. split; [done|]. intros j Hj. by rewrite H2, H. Qed.

(** ** Invariant *)

Record dfa_ok (states : list dfa_state) (d : dfa_state) : Prop := {
  do_wf : bs_wf N (da_bits d);
  do_len : length (da_lookup d) = 256%nat;
  do_look a j : zlookup (da_lookup d) a = Some (Some j) ->
    (exists p, matching (da_bits d) a p) /\ exists d', states !! j = Some d' /\ goes (da_bits d) a (da_bits d');
  do_final : da_final d = -1 \/ final_is (da_bits d) (da_final d) }.

(** The tree leads to states with the positions looked for. *)
Definition tree_finds (tt : ttree) (states : list dfa_state) : Prop :=
  tt_klen tt = nwords N /\ full (nwords N) (tt_root tt) /\
  forall key i, length key = nwords N -> data_at (tt_root tt) key = Some i -> exists d, states !! i = Some d /\ da_bits d = N :: key.

Definition queue_ok (h t : option nat) (states : list dfa_state) : Prop := is_Some h -> exists i d, t = Some i /\ states !! i = Some d.

(** Everything but the bitset in which new positions are collected. *)
Record base_ok (m : dm_regex) : Prop := {
  ri_nodes : tree_ok N 0 1 r 0 (m_nodes m);
  ri_charsets : m_charsets m = places r;
  ri_num : m_num_charsets m = N;
  ri_maps : maps_ok N (m_charmap m) (fun a j => has_char a (Z.to_nat j));
  ri_copy : bs_wf N (m_dfa_copy m);
  ri_tt : tree_finds (m_tt m) (m_states m);
  ri_states i d : m_states m !! i = Some d -> dfa_ok (m_states m) d;
  ri_start : exists d, m_states m !! m_start m = Some d /\ bits_are (da_bits d) (fun p => firstpos r p = true);
  ri_queue : queue_ok (m_h m) (m_t m) (m_states m);
  ri_mem : false ∉ m_mem m }.

Definition regex_ok (m : dm_regex) : Prop := base_ok m /\ bits_are (m_bs m) (fun _ => False).

(** States keep their place and their positions. *)
Definition extends (states states' : list dfa_state) : Prop :=
  forall i d, states !! i = Some d -> exists d', states' !! i = Some d' /\ da_bits d' = da_bits d.

Lemma extends_refl states : extends states states.
Proof. intros i d H. by exists d. Qed.

Lemma extends_trans s1 s2 s3 : extends s1 s2 -> extends s2 s3 -> extends s1 s3.
Proof. intros H1 H2 i d (d' & (d'' & H & E)%H2 & E')%H1. exists d''. split; [done|]. congruence. Qed.

Lemma dfa_ok_extends s s' d : extends s s' -> dfa_ok s d -> dfa_ok s' d.
Proof.
  intros He [W L K F]. split; [done|done| |done]. intros a j (H1 & d' & H2 & H3)%K. split; [done|]. apply He in H2 as (d'' & H4 & E). exists d''. rewrite E. done.
Qed.

Lemma tree_finds_extends tt s s' : extends s s' -> tree_finds tt s -> tree_finds tt s'.
Proof. intros He (H1 & H2 & H3). split; [done|]. split; [done|]. intros key i Hl (d & (d' & H & E)%He & E')%H3; [|done]. exists d'. by rewrite E. Qed.

Lemma queue_extends h t s s' : extends s s' -> queue_ok h t s -> queue_ok h t s'.
Proof. intros He H Hs. destruct (H Hs) as (i & d & -> & (d' & E & _)%He). by exists i, d'. Qed.

(** A state is replaced by one with the same positions. *)
Lemma extends_insert s i d d' : s !! i = Some d -> da_bits d' = da_bits d -> extends s (<[i := d']> s).
Proof.
  intros Hi Eb j x Hj. destruct (decide (j = i)) as [->|Hne].
  - rewrite list_lookup_insert_eq by (by apply lookup_lt_Some in Hi). exists d'. split; [done|]. congruence.
  - rewrite list_lookup_insert_ne by done. by exists x.
Qed.

Lemma extends_app s x : extends s (s ++ x).
Proof. intros i d H. exists d. split; [|done]. by apply lookup_app_l_Some. Qed.

Lemma base_ok_insert m i d d' : base_ok m -> m_states m !! i = Some d -> da_bits d' = da_bits d -> dfa_ok (m_states m) d' ->
  base_ok (set_states (<[i := d']> (m_states m)) m).
Proof.
  intros [R1 R2 R3 R4 R5 R6 R7 R8 R9 R10] Hi Eb Hd. pose proof (extends_insert _ i d d' Hi Eb) as He. split; cbn [set_states m_nodes m_charsets m_num_charsets m_charmap m_dfa_copy m_tt m_states m_start m_h m_t m_mem]; try done.
  - by eapply tree_finds_extends.
  - intros j x. destruct (decide (j = i)) as [->|Hne].
    + rewrite list_lookup_insert_eq by (by apply lookup_lt_Some in Hi). intros [= <-]. by eapply dfa_ok_extends.
    + rewrite list_lookup_insert_ne by done. intros Hj. eapply dfa_ok_extends; [done|]. by eapply R7.
  - destruct R8 as (x & (x' & H & E)%He & Hx). exists x'. by rewrite E.
  - by eapply queue_extends.
Qed.

(** ** New states *)

Lemma bs_wf_cons bs : bs_wf N bs -> bs = N :: tail bs /\ length (tail bs) = nwords N.
Proof. intros (_ & ws & -> & H & _). done. Qed.

(** An entry in the tree for the new state. *)
Lemma insert_finds tr states bs d mem :
  tree_finds tr states -> bs_wf N bs -> da_bits d = bs -> false ∉ mem ->
  exists tt' mem', ttree_insert tr (tail bs) (length states) mem = RxRet (tt', true) mem' /\ false ∉ mem' /\ tree_finds tt' (states ++ [d]).
Proof.
  intros (H1 & H2 & H3) Hbs Hd Hmem. destruct (bs_wf_cons bs Hbs) as [Ebs Hlen]. unfold ttree_insert. rewrite H1.
  assert (tail bs <> []) as Hne by (destruct (tail bs); [|done]; cbn in Hlen; unfold nwords, DM_BITS_PER_INT, N in Hlen; lia).
  rewrite <- Hlen in *. destruct (insert_loop_spec (tail bs) (tt_root tr) (length states) mem Hne H2 Hmem) as (c' & mem' & E & Hm & Hf & _ & Hk & Ho).
  rewrite (rx_exec _ _ _ _ _ E). eexists _, mem'. split; [reflexivity|]. split; [done|]. split; [done|]. cbn [tt_root fst]. split; [by rewrite <- Hlen|].
  rewrite <- Hlen. intros key i Hl Hi. destruct (decide (key = tail bs)) as [->|Hkey].
  - rewrite Hk in Hi. destruct (has _ _); [|done]. injection Hi as <-. exists d. rewrite lookup_app_r, Nat.sub_diag by lia. split; [done|]. by rewrite Hd.
  - rewrite Ho in Hi by done. destruct (H3 key i Hl Hi) as (d' & E1 & E2). exists d'. split; [by apply lookup_app_l_Some|done].
Qed.

Definition fresh (bs : list Z) : dfa_state := DfaState None (-1) bs (replicate 256 None).

Lemma fresh_ok states bs : bs_wf N bs -> dfa_ok states (fresh bs).
Proof.
  intros H. split; [done|done| |by left]. intros a j E%zlookup_Some. destruct E as [_ E]. cbn [fresh da_lookup] in E. apply lookup_replicate in E as [E _]. done.
Qed.

(** The queue cell of a state gets its positions. *)
Lemma create_queue_exec {B} (k : bool -> RX dm_regex B) m i d bs :
  m_states m !! i = Some d -> bs_wf N bs -> false ∉ m_mem m ->
  (create_state_queue i bs ≫= k) m =
    k true (set_states (<[i := DfaState None (-1) bs (da_lookup d)]> (m_states m)) (set_mem (tail (m_mem m)) m)) /\ false ∉ tail (m_mem m).
Proof.
  intros Hi Hbs Hmem. destruct (alloc_exec (fun _ : bool => rx_get) m Hmem) as [_ Hm]. split; [|done]. apply rx_exec. unfold create_state_queue.
  rewrite (bs_wf_head N bs Hbs), rx_opt_exec. destruct (alloc_exec (fun ok : bool =>
    if negb ok then mret false else bs0 ← rx_opt (dm_bit_copy (dm_bitset_create N) bs); d ← get_state i; put_state i (DfaState None (-1) bs0 (da_lookup d));; mret true) m Hmem) as [-> _].
  cbn [negb]. destruct Hbs as [HN Hbs]. rewrite (dm_bit_copy_spec N) by (done || by apply bs_create_wf). by rewrite rx_opt_exec, (get_state_exec i d) by done.
Qed.

Definition with_states (m : dm_regex) (tt : ttree) (h t : option nat) (states : list dfa_state) (mem : list bool) : dm_regex :=
  DmRegex (m_start m) (m_num_nodes m) (m_num_charsets m) (m_nodes m) (m_charsets m) (m_charmap m) (m_dfa_copy m) tt (m_bs m) h t states mem.

Lemma insert_last {A} (l : list A) x y : <[length l := y]> (l ++ [x]) = l ++ [y].
Proof. rewrite <- (Nat.add_0_r (length l)). by rewrite insert_app_r. Qed.

Lemma push_state_ok m : base_ok m -> bs_wf N (m_bs m) ->
  exists m', push_state m = RxRet (Some (length (m_states m))) m' /\ base_ok m' /\ m_bs m' = m_bs m /\ m_start m' = m_start m /\
    extends (m_states m) (m_states m') /\
    (forall i d, m_states m !! i = Some d -> exists d', m_states m' !! i = Some d' /\ da_final d' = da_final d /\ da_lookup d' = da_lookup d) /\
    exists d, m_states m' !! length (m_states m) = Some d /\ da_bits d = m_bs m.
Proof.
  intros Hm Hbs. pose proof Hm as [R1 R2 R3 R4 R5 R6 R7 R8 R9 R10]. unfold push_state.
  assert (create_dfa_state m = RxRet (Some (length (m_states m))) (set_states (m_states m ++ [DfaState None 0 [] (replicate 256 None)]) (set_mem (tail (m_mem m)) m))) as E.
  { unfold create_dfa_state. set (k := fun ok : bool => _). by destruct (alloc_exec k m R10) as [-> _]. }
  rewrite (rx_exec _ _ _ _ _ E). clear E. set (sts := m_states m) in *. set (n0 := DfaState None 0 [] _). rewrite m_get_exec. cbn [set_states set_mem m_tt m_bs].
  destruct (rx_alloc_ok _ R10) as [_ Hmem1]. destruct (insert_finds (m_tt m) sts (m_bs m) (fresh (m_bs m)) (tail (m_mem m)) R6 Hbs eq_refl Hmem1) as (tt' & mem2 & E2 & Hmem2 & Htt).
rewrite (on_mem_exec _ _ (set_states (sts ++ [n0]) (set_mem (tail (m_mem m)) m)) _ _ E2). cbn [fst]. rewrite m_upd_exec. cbn [set_tt set_mem set_states m_states m_mem].
  set (m2 := set_tt _ _). assert (m_states m2 = sts ++ [n0]) as Es by done.
  set (k := fun ok : bool => _). destruct (create_queue_exec k m2 (length sts) n0 (m_bs m)) as [-> Hmem3]; [by rewrite Es, lookup_app_r, Nat.sub_diag by lia|done|done|].
  rewrite Es, insert_last. cbn [n0 da_lookup]. fold (fresh (m_bs m)). unfold k. cbn [negb]. clear k. set (d := fresh (m_bs m)) in *. set (m3 := set_states (sts ++ [d]) (set_mem (tail (m_mem m2)) m2)).
  assert (forall h t, queue_ok h t (sts ++ [d]) -> base_ok (with_states m tt' h t (sts ++ [d]) (tail mem2))) as Hbase.
  { intros h t Hq. pose proof (extends_app sts [d]) as He. split; try done; cbn [with_states m_states m_start].
    - intros i x [Hi|[_ Hi]]%lookup_app_Some; [eapply dfa_ok_extends; [done|]; by eapply R7|]. apply list_lookup_singleton_Some in Hi as [_ <-]. by apply fresh_ok.
    - destruct R8 as (x & Hx & Hx'). exists x. split; [by apply lookup_app_l_Some|done]. }
  assert ((sts ++ [d]) !! length sts = Some d) as Hlast by by rewrite lookup_app_r, Nat.sub_diag by lia.
  assert (forall i x, sts !! i = Some x -> (sts ++ [d]) !! i = Some x) as Hold by (intros i x; apply lookup_app_l_Some).
  cbn [set_states set_mem m_h m_t]. destruct (m_h m) as [h|] eqn:Eh.
  - destruct (R9 ltac:(by eexists)) as (t & dt & Et & Ht). rewrite Et, rx_opt_exec. assert (t <> length sts) as Htl by (apply lookup_lt_Some in Ht; lia).
    rewrite (get_state_exec t dt) by (by apply Hold). rewrite put_state_exec, m_upd_exec. cbn [m3 set_states set_mem set_queue m_states m_h].
    set (dt' := DfaState (Some (length sts)) (da_final dt) (da_bits dt) (da_lookup dt)).
    eexists. split; [reflexivity|]. cbn [set_queue set_states set_mem m_states m_bs m_start m3 m2 set_tt]. split.
    + assert (base_ok (set_states (<[t := dt']> (sts ++ [d])) (with_states m tt' (Some h) (Some (length sts)) (sts ++ [d]) (tail mem2)))) as Hb; [|done].
      apply (base_ok_insert (with_states m tt' (Some h) (Some (length sts)) (sts ++ [d]) (tail mem2)) t dt dt'); [apply Hbase; intros _; by exists (length sts), d|by apply Hold|done|].
      destruct (R7 t dt Ht) as [W L K F]. apply (dfa_ok_extends sts); [apply extends_app|]. by split.
    + split; [done|]. split; [done|]. split; [eapply extends_trans; [apply extends_app|]; by eapply extends_insert; [by apply Hold|]|]. split.
      * intros i x Hi. destruct (decide (i = t)) as [->|Hne].
        { rewrite list_lookup_insert_eq by (rewrite length_app; apply lookup_lt_Some in Ht; lia). exists dt'. by simplify_eq. }
        rewrite list_lookup_insert_ne by done. exists x. split; [by apply Hold|done].
      * exists d. by rewrite list_lookup_insert_ne by done.
  - rewrite m_upd_exec. eexists. split; [reflexivity|]. split.
    + apply (Hbase (Some (length sts)) (Some (length sts))). intros _. by exists (length sts), d.
    + cbn [m3 set_queue set_states set_mem m_states m_bs m_start m2 set_tt]. split; [done|]. split; [done|]. split; [apply extends_app|]. split; [|by exists d].
      intros i x Hi. exists x. split; [by apply Hold|done].
Qed.


(** ** The transitions of a state *)

Definition set_dfa_final (fin : Z) (d : dfa_state) : dfa_state := DfaState (da_next d) fin (da_bits d) (da_lookup d).

Definition looped (m : dm_regex) (dfa : nat) (d : dfa_state) (fin : Z) (bs : list Z) : dm_regex :=
  set_bs bs (set_states (<[dfa := set_dfa_final fin d]> (m_states m)) m).

(** The node of a set. *)
Lemma node_at m j a : tree_ok N 0 1 r 0 (m_nodes m) -> m_charsets m = places r -> 0 <= j -> has_char a (Z.to_nat j) ->
  exists c n, zlookup (m_charsets m) j = Some c /\ m_nodes m !! c = Some n /\ pos_is N 0 (followpos r (Z.to_nat j)) (mn_followpos n) /\
    (a = 0 -> mn_final n = 1 + ntarget (take (Z.to_nat j) (leaves r))).
Proof.
  intros [_ _ _ Hleaf] Hc Hj (cs & Hcs & Ha). destruct (Hleaf _ _ Hcs) as (c & n & H1 & H2 & H3 & H4). exists c, n. rewrite zlookup_lookup, Hc by done.
  split; [done|]. split; [done|]. split; [done|]. intros ->. by apply H4.
Qed.

Lemma calc_loop_ok dfa a fuel : forall lo i sb m d,
  tree_ok N 0 1 r 0 (m_nodes m) -> m_charsets m = places r -> bs_wf N (m_dfa_copy m) -> bs_wf N (m_bs m) -> m_states m !! dfa = Some d ->
  (forall j, 0 <= j < bs_cap N -> bs_mem (m_dfa_copy m) j = true -> has_char a (Z.to_nat j)) ->
  0 <= lo -> is_next N (m_dfa_copy m) lo i -> Z.max 0 (N - lo) < Z.of_nat fuel ->
  exists sb' fin bs', calc_loop fuel dfa a i sb m = RxRet sb' (looped m dfa d fin bs') /\
    (sb' = true <-> sb = true \/ exists j, lo <= j < N /\ bs_mem (m_dfa_copy m) j = true) /\
    bs_wf N bs' /\
    (forall x, 0 <= x < bs_cap N -> bs_mem bs' x = true <->
       bs_mem (m_bs m) x = true \/ exists j, lo <= j < N /\ bs_mem (m_dfa_copy m) j = true /\ followpos r (Z.to_nat j) (Z.to_nat x) = true) /\
    (fin = da_final d /\ (a = 0 -> forall j, lo <= j < N -> bs_mem (m_dfa_copy m) j = false) \/
     a = 0 /\ exists j, lo <= j < N /\ bs_mem (m_dfa_copy m) j = true /\ (forall j', lo <= j' < N -> bs_mem (m_dfa_copy m) j' = true -> j' <= j) /\
       fin = 1 + ntarget (take (Z.to_nat j) (leaves r))).
Proof.
  induction fuel as [|fuel IH]; intros lo i sb m d Ht Hc Hcopy Hbs Hd Hchar Hlo Hn Hf; [lia|]. cbn [calc_loop]. destruct Hn as [[-> Hno]|(Hr & Hb & Hno)].
  { rewrite (proj2 (Z.ltb_lt (-1) 0)) by lia. exists sb, (da_final d), (m_bs m). split; [|split; [|split; [done|split]]].
    - unfold looped, set_dfa_final. assert (DfaState (da_next d) (da_final d) (da_bits d) (da_lookup d) = d) as -> by by destruct d. rewrite list_insert_id by done. by destruct m.
    - split; [by left|]. intros [H|(j & Hj & H)]; [done|]. by rewrite Hno in H.
    - intros x Hx. split; [by left|]. intros [H|(j & Hj & H & _)]; [done|]. by rewrite Hno in H.
    - left. split; [done|]. intros _ j Hj. by apply Hno. }
  destruct (Z.ltb_spec i 0) as [|Hi]; [lia|]. pose proof (Hchar i ltac:(lia) Hb) as Hch. assert (i < N) as HiN by (apply has_char_lt in Hch; unfold N; lia).
  destruct (node_at m i a Ht Hc Hi Hch) as (c & n & E1 & E2 & [P1 P2] & P3). rewrite m_get_exec, E1, rx_opt_exec, E2, rx_opt_exec, (get_state_exec dfa d) by done.
  set (fin1 := if a =? 0 then mn_final n else da_final d). set (m1 := set_states (<[dfa := set_dfa_final fin1 d]> (m_states m)) m).
  assert ((if a =? TARGET_TRANS then put_state dfa (DfaState (da_next d) (mn_final n) (da_bits d) (da_lookup d)) else mret ()) m = RxRet () m1) as E3.
  { unfold m1, fin1, TARGET_TRANS. destruct (a =? 0); [done|]. unfold set_dfa_final. assert (DfaState (da_next d) (da_final d) (da_bits d) (da_lookup d) = d) as -> by by destruct d.
    rewrite list_insert_id by done. by destruct m. }
  rewrite (rx_exec _ _ _ _ _ E3). destruct (dm_bit_union_spec N (m_bs m) (m_bs m) (mn_followpos n) Hbs Hbs P1) as (bs1 & -> & W1 & M1). rewrite rx_opt_exec, m_upd_exec.
  destruct (dm_bit_get_next_spec N (m_dfa_copy m) i Hcopy ltac:(lia)) as (i' & -> & Hn'). rewrite rx_opt_exec.
  destruct (IH (i + 1) i' true (set_bs bs1 m1) (set_dfa_final fin1 d)) as (sb' & fin & bs' & E & S1 & S2 & S3 & S4);
    [done|done|done|done|unfold m1; cbn; by rewrite list_lookup_insert_eq by (by apply lookup_lt_Some in Hd)|done|lia|done|lia|].
  cbn [set_bs m_bs m_dfa_copy m1 set_states] in S1, S3, S4. exists sb', fin, bs'. split; [|split; [|split; [done|split]]].
  - rewrite E. unfold looped, m1, set_dfa_final. cbn [set_bs set_states m_states da_next da_bits da_lookup]. by rewrite list_insert_insert_eq.
  - rewrite S1. split; intros _; [right; exists i; split; [lia|done]|by left].
  - intros x Hx. rewrite S3, M1, orb_true_iff, P2 by done. rewrite Nat.sub_0_r. cbn [Nat.leb andb]. split.
    + intros [[H|H]|(j & Hj & H1 & H2)]; [by left|right; exists i; split; [lia|done]|right; exists j; split; [lia|done]].
    + intros [H|(j & Hj & H1 & H2)]; [by left; left|]. destruct (decide (j = i)) as [->|Hne]; [by left; right|right; exists j; split; [|done]].
      destruct (Z.lt_ge_cases j i) as [Hlt|Hge]; [rewrite Hno in H1; [done|lia]|lia].
  - destruct S4 as [[-> S4]|[-> (j & Hj & H1 & H2 & H3)]].
    + cbn [set_dfa_final da_final]. destruct (Z.eqb_spec a 0) as [->|Ha]; [|by left].
      right. split; [done|]. exists i. split; [lia|]. split; [done|]. split; [|unfold fin1; by apply P3].
      intros j' Hj' Hm. apply Z.nlt_ge. intros Hlt. by rewrite S4 in Hm by lia.
    + right. split; [done|]. exists j. split; [lia|]. split; [done|]. split; [|done]. intros j' Hj' Hm.
      destruct (Z.lt_ge_cases i j') as [Hlt|Hge]; [apply H2; [lia|done]|lia].
Qed.


Lemma base_set_bs m bs : base_ok m -> base_ok (set_bs bs m).
Proof. by intros []. Qed.

Lemma base_set_copy m bs : base_ok m -> bs_wf N bs -> base_ok (set_dfa_copy bs m).
Proof. by intros []. Qed.

(** The state for the positions collected, found or made. *)
Lemma next_state_ok m : base_ok m -> bs_wf N (m_bs m) ->
  exists j m', (l ← rx_opt (ttree_lookup (m_tt m) (tail (m_bs m))); if l is Some ldfa then mret (Some ldfa) else push_state) m = RxRet (Some j) m' /\
    base_ok m' /\ m_bs m' = m_bs m /\ m_start m' = m_start m /\ extends (m_states m) (m_states m') /\
    (forall i d, m_states m !! i = Some d -> exists d', m_states m' !! i = Some d' /\ da_final d' = da_final d /\ da_lookup d' = da_lookup d) /\
    exists d, m_states m' !! j = Some d /\ da_bits d = m_bs m.
Proof.
  intros Hm Hbs. destruct (ri_tt m Hm) as (K1 & K2 & K3). destruct (bs_wf_cons _ Hbs) as [Ebs Hlen]. rewrite ttree_lookup_eq by congruence. rewrite rx_opt_exec.
  destruct (data_at (tt_root (m_tt m)) (tail (m_bs m))) as [j|] eqn:Ed.
  - exists j, m. split; [done|]. split; [done|]. split; [done|]. split; [done|]. split; [apply extends_refl|]. split; [intros i d H; by exists d|].
    destruct (K3 _ j Hlen Ed) as (d & H1 & H2). exists d. split; [done|]. by rewrite H2.
  - destruct (push_state_ok m Hm Hbs) as (m' & E & H). by exists (length (m_states m)), m'.
Qed.

(** What a state is like after a transition was computed for it. *)
Definition computed (d d' : dfa_state) (a : Z) : Prop :=
  da_bits d' = da_bits d /\
  ((exists p, matching (da_bits d) a p) /\ (exists j, zlookup (da_lookup d') a = Some (Some j)) \/ ~ (exists p, matching (da_bits d) a p) /\ da_lookup d' = da_lookup d) /\
  (a = 0 -> (exists p, matching (da_bits d) a p) -> final_is (da_bits d) (da_final d')) /\
  ((exists p, matching (da_bits d) 0 p) \/ da_final d' = da_final d).

(** A found state is entered in the table of transitions. *)
Lemma dfa_ok_look states d a j bs' d' : 0 <= a < 256 -> dfa_ok states d -> (exists p, matching (da_bits d) a p) -> goes (da_bits d) a bs' ->
  states !! j = Some d' -> da_bits d' = bs' ->
  exists look, zupdate (da_lookup d) a (Some j) = Some look /\ zlookup look a = Some (Some j) /\ dfa_ok states (DfaState (da_next d) (da_final d) (da_bits d) look).
Proof.
  intros Ha [W L K F] Hmove Hgo Hj Hb. rewrite zupdate_Some by lia. eexists. split; [reflexivity|]. split; [rewrite zlookup_lookup by lia; apply list_lookup_insert_eq; lia|].
  split; cbn [da_bits da_lookup da_final]; [done|by rewrite length_insert| |done]. intros a' j' E.
  destruct (decide (a' = a)) as [->|Hne].
  - rewrite zlookup_lookup, list_lookup_insert_eq in E by lia. injection E as <-. split; [done|]. exists d'. by rewrite Hb.
  - pose proof (zlookup_Some _ _ _ E) as [Hr _]. rewrite zlookup_lookup, list_lookup_insert_ne in E by lia. rewrite <- zlookup_lookup in E by lia. by apply K.
Qed.

Lemma calc_state_ok m i d a : regex_ok m -> m_states m !! i = Some d -> 0 <= a < 256 ->
  exists m' d', calc_state i a m = RxRet true m' /\ regex_ok m' /\ m_start m' = m_start m /\ extends (m_states m) (m_states m') /\ m_states m' !! i = Some d' /\ computed d d' a.
Proof.
  intros [Hm [Hbs Hempty]] Hd Ha. unfold calc_state. rewrite m_get_exec, (get_state_exec i d) by done. destruct (ri_maps m Hm) as [_ Hmaps].
  destruct (Hmaps a Ha) as (cm & -> & Wcm & Mcm). rewrite rx_opt_exec. pose proof (ri_states m Hm i d Hd) as Hok.
  destruct (dm_bit_and_spec N (m_dfa_copy m) cm (da_bits d) (ri_copy m Hm) Wcm (do_wf _ _ Hok)) as (copy & -> & Wc & Mc). rewrite rx_opt_exec, m_upd_exec.
  assert (forall j, 0 <= j < bs_cap N -> bs_mem copy j = true <-> matching (da_bits d) a (Z.to_nat j)) as Hcopy.
  { intros j Hj. rewrite Mc, andb_true_iff, Mcm by done. unfold matching. rewrite Z2Nat.id by lia. tauto. }
  assert (forall j, 0 <= j < N -> bs_mem copy j = true <-> matching (da_bits d) a (Z.to_nat j)) as HcopyN by (intros j Hj; apply Hcopy; unfold bs_cap; lia).
  assert (forall p, matching (da_bits d) a p -> exists j, 0 <= j < N /\ bs_mem copy j = true /\ Z.to_nat j = p) as Hback.
  { intros p Hp. exists (Z.of_nat p). assert (Z.of_nat p < N) by (destruct Hp as [_ Hp%has_char_lt]; unfold N; lia). split; [lia|]. rewrite HcopyN by lia. by rewrite Nat2Z.id. }
  destruct (dm_bit_get_first_spec N copy Wc) as (i0 & -> & Hn0). rewrite rx_opt_exec. set (m0 := set_dfa_copy copy m).
  pose proof (base_set_copy m copy Hm Wc) as Hm0. fold m0 in Hm0.
  destruct (calc_loop_ok i a (32 * length copy) 0 i0 false m0 d) as (sb & fin & bs' & E & S1 & S2 & S3 & S4);
    [apply Hm|apply Hm|done|done|done|intros j Hj H; by apply Hcopy in H as [_ H]|lia|done|rewrite (bs_wf_nwords N copy Wc); unfold nwords, DM_BITS_PER_INT, N; lia|].
  rewrite (rx_exec _ _ _ _ _ E). clear E. cbn [m0 set_dfa_copy m_bs m_dfa_copy] in S1, S3, S4.
  set (d1 := set_dfa_final fin d). assert ((a = 0 -> (exists p, matching (da_bits d) a p) -> final_is (da_bits d) fin) /\
    ((exists p, matching (da_bits d) 0 p) \/ fin = da_final d) /\ (fin = -1 \/ final_is (da_bits d) fin)) as (Hfin1 & Hfin2 & Hfin3).
  { destruct S4 as [[-> S4]|[-> (j & Hj & H1 & H2 & H3)]].
    - split; [|split; [by right|apply Hok]]. intros -> [p (j & Hj & Hm' & _)%Hback]. by rewrite S4 in Hm'.
    - assert (final_is (da_bits d) fin) as Hfi; [|split; [done|split; [left; exists (Z.to_nat j); by apply HcopyN|by right]]].
      exists (Z.to_nat j). split; [by apply HcopyN|]. split; [|done]. intros p' (j' & Hj' & Hm' & <-)%Hback. specialize (H2 j' Hj' Hm'). lia. }
  assert (dfa_ok (m_states m) d1) as Hd1 by (destruct Hok as [W L K F]; by split).
  assert (base_ok (looped m0 i d fin bs')) as Hm1 by (apply base_set_bs, (base_ok_insert m0 i d d1); done).
  assert (extends (m_states m) (<[i := d1]> (m_states m))) as Hext1 by by eapply extends_insert.
  assert (m_states (looped m0 i d fin bs') !! i = Some d1) as Hi1 by (cbn; apply list_lookup_insert_eq; by apply lookup_lt_Some in Hd).
  destruct sb; cbn [negb].
  - assert (exists p, matching (da_bits d) a p) as Hmove.
    { destruct (proj1 S1 eq_refl) as [|(j & Hj & H)]; [done|]. exists (Z.to_nat j). by apply HcopyN. }
    assert (goes (da_bits d) a bs') as Hgo.
    { split; [done|]. intros x Hx. rewrite S3 by done. split.
      - intros [H|(j & Hj & H1 & H2)]; [by rewrite Hempty in H|]. exists (Z.to_nat j). split; [by apply HcopyN|done].
      - intros (p & (j & Hj & H1 & <-)%Hback & H2). right. by exists j. }
    rewrite m_get_exec. destruct (next_state_ok _ Hm1 S2) as (j & m2 & E2 & Hm2 & Eb & Est & Hext2 & Hsame & dj & Hdj & Hbj).
    match goal with |- context [(rx_opt ?o ≫= ?k) ?mm] => assert ((rx_opt o ≫= k) mm = ((l ← rx_opt o; if l is Some ldfa then mret (Some ldfa) else push_state) ≫=
      (fun l => match l with None => mret false | Some ldfa => d ← get_state i; look ← rx_opt (zupdate (da_lookup d) a (Some ldfa));
         put_state i (DfaState (da_next d) (da_final d) (da_bits d) look);; m ← rx_get; bs ← rx_opt (dm_bit_clear_all (m_bs m)); rx_upd (set_bs bs);; mret true end)) mm) as -> end.
    { destruct (ttree_lookup _ _) as [l|]; [|done]. by destruct l. }
    rewrite (rx_exec _ _ _ _ _ E2). destruct (Hext2 i d1 Hi1) as (d2 & Hi2 & Eb2). destruct (Hsame i d1 Hi1) as (d2' & Hi2' & Ef2 & El2). simplify_eq.
    rewrite (get_state_exec i d2) by done. cbn [looped set_bs m_bs] in Hbj, Eb.
    destruct (dfa_ok_look (m_states m2) d2 a j bs' dj Ha) as (look & -> & Hlook & Hd3); [by eapply ri_states|by rewrite Eb2|by rewrite Eb2|done|done|].
    rewrite rx_opt_exec, put_state_exec, m_get_exec. cbn [set_states m_bs]. rewrite Eb. destruct (dm_bit_clear_all_spec N bs' S2) as (bs0 & -> & W0 & M0). rewrite rx_opt_exec, m_upd_exec.
    set (d3 := DfaState (da_next d2) (da_final d2) (da_bits d2) look) in *. pose proof (base_ok_insert m2 i d2 d3 Hm2 Hi2 eq_refl Hd3) as Hm3.
    eexists _, d3. split; [reflexivity|]. split; [split; [by apply base_set_bs|]|]. { split; [done|]. intros x Hx. cbn [set_bs m_bs]. by rewrite M0. }
    cbn [set_bs set_states m_start m_states]. split; [done|]. split; [eapply extends_trans; [apply Hext1|]; eapply extends_trans; [apply Hext2|]; by eapply extends_insert|].
    split; [apply list_lookup_insert_eq; by apply lookup_lt_Some in Hi2|]. unfold d3. split; [done|]. cbn [da_final da_lookup]. rewrite Ef2. split; [left; split; [done|by exists j]|done].
  - assert (~ exists p, matching (da_bits d) a p) as Hno.
    { intros [p (j & Hj & H & _)%Hback]. assert (false = true); [|done]. apply S1. right. by exists j. }
    eexists _, d1. split; [reflexivity|]. split; [split; [done|]|].
    + split; [done|]. intros x Hx. cbn [looped set_bs m_bs]. rewrite S3 by done. rewrite Hempty by done. split; [|done]. intros [H|(j & Hj & H & _)]; [done|]. apply Hno. exists (Z.to_nat j). by apply HcopyN.
    + split; [done|]. split; [done|]. split; [done|]. split; [done|]. split; [by right|done].
Qed.


(** ** The states of words *)

Definition at_word (m : dm_regex) (i : nat) (u : word) : Prop :=
  exists d, m_states m !! i = Some d /\ bits_are (da_bits d) (fun p => (p < width r)%nat /\ pre r p u).

Lemma at_word_extends m m' i u : extends (m_states m) (m_states m') -> at_word m i u -> at_word m' i u.
Proof. intros He (d & (d' & H1 & E)%He & H2). exists d'. by rewrite E. Qed.

Lemma matching_word bs u a p : bits_are bs (fun p => (p < width r)%nat /\ pre r p u) -> matching bs a p <-> pre r p u /\ has_char a p.
Proof.
  intros [_ H]. unfold matching. split.
  - intros [H1 H2]. split; [|done]. apply has_char_lt in H2 as Hlt. apply H in H1; [|unfold bs_cap, N; lia]. rewrite Nat2Z.id in H1. by destruct H1.
  - intros [H1 H2]. split; [|done]. apply has_char_lt in H2 as Hlt. apply H; [unfold bs_cap, N; lia|]. by rewrite Nat2Z.id.
Qed.

Lemma goes_word bs bs' u a : 0 <= a < 256 -> bits_are bs (fun p => (p < width r)%nat /\ pre r p u) -> goes bs a bs' ->
  bits_are bs' (fun p => (p < width r)%nat /\ pre r p (u ++ [a])).
Proof.
  intros Ha Hbs. apply bits_are_ext. intros q. split.
  - intros (p & Hm & Hf). pose proof (followpos_in r p q Hf) as [_ Hq]. split; [done|]. apply pre_snoc; [done|].
    apply (matching_word bs u) in Hm as [Hp (cs & Hcs & Hc)]; [|done]. exists p, cs. split; [done|]. split; [done|]. by split.
  - intros [Hq (p & cs & Hcs & Hp & [_ Hc] & Hf)%pre_snoc]; [|done]. exists p. split; [|done]. apply (matching_word bs u); [done|]. split; [done|]. by exists cs.
Qed.

(** Without a position for the next character no longer word leads anywhere. *)
Lemma stuck u a v p : 0 <= a < 256 -> (forall q, ~ (pre r q u /\ has_char a q)) -> (p < width r)%nat -> ~ pre r p (u ++ a :: v).
Proof.
  intros Ha Hno. revert p. induction v as [|b v IH] using rev_ind; intros p Hp H.
  - apply pre_snoc in H as (q & cs & Hcs & Hq & [_ Hc] & _); [|done]. apply (Hno q). split; [done|]. by exists cs.
  - replace (u ++ a :: v ++ [b]) with ((u ++ a :: v) ++ [b]) in H by by rewrite <- app_assoc.
    apply pre_snoc in H as (q & cs & Hcs & Hq & _); [|done]. apply (IH q); [by apply lookup_lt_Some in Hcs|done].
Qed.

(** ** End markers *)

(** The word leads to the end marker with number [k]. *)
Definition hits (k : Z) (u : word) : Prop := exists p, has_char 0 p /\ pre r p u /\ k = ntarget (take p (leaves r)).

Lemma ntarget_take ls p p' : (p <= p')%nat -> ntarget (take p ls) <= ntarget (take p' ls).
Proof.
  intros H. rewrite <- (take_drop p (take p' ls)), ntarget_app, take_take, Nat.min_l by done. unfold ntarget. lia.
Qed.

Lemma final_word bs u z : bits_are bs (fun p => (p < width r)%nat /\ pre r p u) -> final_is bs z -> hits (z - 1) u /\ forall k, hits k u -> k + 1 <= z.
Proof.
  intros Hbs (p & Hp & Hmax & ->). apply (matching_word bs u) in Hp as [H1 H2]; [|done]. split; [exists p; split; [done|]; split; [done|lia]|].
  intros k (p' & H3 & H4 & ->). assert (p' <= p)%nat by (apply Hmax, (matching_word bs u); done). pose proof (ntarget_take (leaves r) p' p ltac:(done)). lia.
Qed.

(** The largest number hit by words in [W], from 1 on; 0 when none is. *)
Definition best (W : word -> Prop) (z : Z) : Prop :=
  0 <= z /\ (forall k u, W u -> hits k u -> k + 1 <= z) /\ (0 < z -> exists u, W u /\ hits (z - 1) u).

Lemma best_ext W W' z : (forall u, W u <-> W' u) -> best W z -> best W' z.
Proof. intros H (H1 & H2 & H3). split; [done|]. split; [intros k u Hu; apply H2; by apply H|]. intros (u & Hu & Hh)%H3. exists u. split; [by apply H|done]. Qed.

Lemma best_none W W' z : (forall u, W u -> W' u) -> (forall u k, W' u -> hits k u -> W u) -> best W z -> best W' z.
Proof.
  intros H Hn (H1 & H2 & H3). split; [done|]. split; [|intros (u & Hu & Hh)%H3; exists u; split; [by apply H|done]].
  intros k u Hu Hh. apply (H2 k u); [by eapply Hn|done].
Qed.

(** ** Steps *)

Definition step_result (W : word -> Prop) (m' : dm_regex) (u : word) (c : Z) (x : option nat * Z) : Prop :=
  match x with
  | (None, z) => best W z /\ forall v p, (p < width r)%nat -> ~ pre r p (u ++ c :: v)
  | (Some j, z) => best (fun w => W w \/ w = u ++ [c]) z /\ at_word m' j (u ++ [c])
  end.

(** The next state after its end marker was looked for. *)
Lemma settle_ok W m j u z : regex_ok m -> at_word m j u -> best W z ->
  exists m' d, (d ← get_state j; if da_final d =? -1 then calc_state j TARGET_TRANS else mret true) m = RxRet true m' /\
    regex_ok m' /\ m_start m' = m_start m /\ extends (m_states m) (m_states m') /\ m_states m' !! j = Some d /\
    best (fun w => W w \/ w = u) (if negb (da_final d =? 0) && (z <? da_final d) then da_final d else z).
Proof.
  intros Hm (d & Hj & Hbits) (Z1 & Z2 & Z3). rewrite (get_state_exec j d) by done.
  assert (forall d', da_bits d' = da_bits d -> (final_is (da_bits d) (da_final d') \/ ~ (exists p, matching (da_bits d) 0 p) /\ da_final d' = -1) ->
    best (fun w => W w \/ w = u) (if negb (da_final d' =? 0) && (z <? da_final d') then da_final d' else z)) as Hbest.
  { intros d' _ [Hf|[Hno Hf]]; [|rewrite Hf].
    - destruct (final_word (da_bits d) u _ Hbits Hf) as [F1 F2]. assert (1 <= da_final d') as F3 by (destruct Hf as (p & _ & _ & ->); unfold ntarget; lia).
      rewrite (proj2 (Z.eqb_neq (da_final d') 0)) by lia. cbn [negb andb]. destruct (Z.ltb_spec z (da_final d')) as [Hlt|Hge].
      + split; [lia|]. split; [|intros _; exists u; split; [by right|done]]. intros k w [Hw| ->] Hh; [specialize (Z2 k w Hw Hh); lia|by apply F2].
      + split; [lia|]. split; [|intros (w & Hw & Hh)%Z3; exists w; split; [by left|done]]. intros k w [Hw| ->] Hh; [by apply (Z2 k w)|]. specialize (F2 k Hh). lia.
    - destruct (Z.ltb_spec z (-1)); [lia|]. cbn [negb andb Z.eqb]. split; [lia|]. split; [|intros (w & Hw & Hh)%Z3; exists w; split; [by left|done]].
      intros k w [Hw| ->] Hh; [by apply (Z2 k w)|]. destruct Hh as (p & H1 & H2 & _). exfalso. apply Hno. exists p. by apply (matching_word (da_bits d) u). }
  destruct (Z.eqb_spec (da_final d) (-1)) as [E|E].
  - destruct (calc_state_ok m j d 0 Hm Hj ltac:(lia)) as (m' & d' & E1 & Hm' & Hs & He & Hj' & C1 & C2 & C3 & C4). exists m', d'. split; [done|].
    split; [done|]. split; [done|]. split; [done|]. split; [done|]. apply Hbest; [done|].
    destruct C2 as [[Hmove _]|[Hno _]]; [left; by apply C3|right; split; [done|]]. destruct C4 as [|C4]; [done|]. by rewrite C4.
  - exists m, d. split; [done|]. split; [done|]. split; [done|]. split; [apply extends_refl|]. split; [done|]. apply Hbest; [done|]. left.
    destruct Hm as [Hm _]. by destruct (do_final _ _ (ri_states m Hm j d Hj)).
Qed.

Lemma step_matcher_ok W m i u c z : regex_ok m -> at_word m i u -> 0 <= c < 256 -> best W z ->
  exists x m', step_matcher c i z m = RxRet x m' /\ regex_ok m' /\ m_start m' = m_start m /\ extends (m_states m) (m_states m') /\ step_result W m' u c x.
Proof.
  intros Hm (d & Hi & Hbits) Hc Hz. unfold step_matcher. rewrite (get_state_exec i d) by done. pose proof (ri_states m (proj1 Hm) i d Hi) as Hok.
  destruct (zlookup_is_Some (da_lookup d) c ltac:(rewrite (do_len _ _ Hok); lia)) as [l El]. rewrite El, rx_opt_exec.
  assert (exists ns m', match l with Some ns => mret (Some ns) | None => ok ← calc_state i c; if negb ok then mret None else d ← get_state i; rx_opt (zlookup (da_lookup d) c) end m = RxRet ns m' /\
    regex_ok m' /\ m_start m' = m_start m /\ extends (m_states m) (m_states m') /\
    match ns with None => forall v p, (p < width r)%nat -> ~ pre r p (u ++ c :: v) | Some j => at_word m' j (u ++ [c]) end) as (ns & m1 & E1 & Hm1 & Hs1 & He1 & Hns).
  { destruct l as [j|].
    - exists (Some j), m. split; [done|]. split; [done|]. split; [done|]. split; [apply extends_refl|].
      destruct (do_look _ _ Hok c j El) as (_ & d' & Hj & Hgo). exists d'. split; [done|]. by eapply goes_word.
    - destruct (calc_state_ok m i d c Hm Hi Hc) as (m' & d' & E & Hm' & Hs & He & Hi' & C1 & C2 & _). rewrite (rx_exec _ _ _ _ _ E). cbn [negb].
      rewrite (get_state_exec i d') by done. pose proof (ri_states m' (proj1 Hm') i d' Hi') as Hok'. destruct C2 as [[Hmove [j Ej]]|[Hno El']].
      + rewrite Ej. exists (Some j), m'. split; [done|]. split; [done|]. split; [done|]. split; [done|].
        destruct (do_look _ _ Hok' c j Ej) as (_ & dj & Hj & Hgo). exists dj. split; [done|]. eapply goes_word; [done| |exact Hgo]. by rewrite C1.
      + rewrite El', El. exists None, m'. split; [done|]. split; [done|]. split; [done|]. split; [done|].
        intros v p. apply stuck; [done|]. intros q Hq. apply Hno. exists q. by apply (matching_word (da_bits d) u). }
  rewrite (rx_exec _ _ _ _ _ E1). destruct ns as [j|]; [|by exists (None, z), m1].
  destruct (settle_ok W m1 j (u ++ [c]) z Hm1 Hns Hz) as (m2 & dj & E2 & Hm2 & Hs2 & He2 & Hj & Hbest).
  match goal with |- context [(get_state j ≫= ?k) m1] => assert ((get_state j ≫= k) m1 = ((d ← get_state j; if da_final d =? -1 then calc_state j TARGET_TRANS else mret true) ≫=
    (fun ok : bool => if negb ok then mret (None, z) else d ← get_state j; mret (Some j, if negb (da_final d =? 0) && (z <? da_final d) then da_final d else z))) m1) as -> end.
  { destruct Hns as (dj1 & Hj1 & _). rewrite (get_state_exec j dj1) by done. by rewrite rx_assoc, (get_state_exec j dj1) by done. }
  rewrite (rx_exec _ _ _ _ _ E2). cbn [negb]. rewrite (get_state_exec j dj) by done. eexists _, m2. split; [reflexivity|]. split; [done|]. split; [congruence|].
  split; [by eapply extends_trans|]. split; [done|]. by eapply at_word_extends.
Qed.


(** ** Matching *)

(** The beginnings of [s] after [u], but not [u] itself. *)
Definition begins (u s w : word) : Prop := exists v t, v <> [] /\ s = v ++ t /\ w = u ++ v.

Lemma begins_cons u c s w : begins u (c :: s) w <-> w = u ++ [c] \/ begins (u ++ [c]) s w.
Proof.
  unfold begins. split.
  - intros ([|b v] & t & Hv & E & ->); [done|]. cbn in E. simplify_eq. destruct v as [|b' v]; [by left|right].
    exists (b' :: v), t. split; [done|]. split; [done|]. by rewrite <- app_assoc.
  - intros [->|(v & t & Hv & -> & ->)]; [by exists [c], s|]. exists (c :: v), t. split; [done|]. split; [done|]. by rewrite <- app_assoc.
Qed.

Lemma begins_nil u w : ~ begins u [] w.
Proof. intros (v & t & Hv & E & _). symmetry in E. by apply app_nil in E as [-> _]. Qed.

Definition loop_result (W : word -> Prop) (m' : dm_regex) (u s : word) (x : option nat * Z) : Prop :=
  match x with
  | (None, z) => forall t, best (fun w => W w \/ begins u (s ++ t) w) z
  | (Some j, z) => best (fun w => W w \/ begins u s w) z /\ at_word m' j (u ++ s)
  end.

(** A matcher that is stuck has its result. *)
Lemma stuck_best W u c s z : best W z -> (forall v p, (p < width r)%nat -> ~ pre r p (u ++ c :: v)) -> best (fun w => W w \/ begins u (c :: s) w) z.
Proof.
  intros Hz Hno. apply (best_none W); [by left| |done]. intros w k [Hw|(v & t & Hv & E & ->)] Hh; [done|]. exfalso.
  destruct v as [|b v]; [done|]. cbn in E. simplify_eq. destruct Hh as (p & Hp & Hpre & _). apply has_char_lt in Hp. by apply (Hno v p).
Qed.

Lemma match_loop_ok s : forall W m i u z, regex_ok m -> at_word m i u -> Forall (fun c => 0 <= c < 256) s -> best W z ->
  exists x m', match_loop s i z m = RxRet x m' /\ regex_ok m' /\ m_start m' = m_start m /\ extends (m_states m) (m_states m') /\ loop_result W m' u s x.
Proof.
  induction s as [|c s IH]; intros W m i u z Hm Hi Hs Hz; cbn [match_loop].
  { eexists _, m. split; [reflexivity|]. split; [done|]. split; [done|]. split; [apply extends_refl|]. cbn [loop_result]. rewrite app_nil_r. split; [|done].
    revert Hz. apply best_ext. intros w. split; [by left|]. intros [H|H%begins_nil]; done. }
  apply Forall_cons in Hs as [Hc Hs]. destruct (step_matcher_ok W m i u c z Hm Hi Hc Hz) as (x & m1 & E & Hm1 & Hs1 & He1 & Hx). rewrite (rx_exec _ _ _ _ _ E).
  destruct x as [[j|] z1]; cbn [step_result] in Hx.
  - destruct Hx as [Hz1 Hj]. destruct (IH _ m1 j (u ++ [c]) z1 Hm1 Hj Hs Hz1) as (x & m2 & -> & Hm2 & Hs2 & He2 & Hx). exists x, m2. split; [done|]. split; [done|].
    split; [congruence|]. split; [by eapply extends_trans|]. destruct x as [[j2|] z2]; cbn [loop_result] in Hx |- *.
    + destruct Hx as [H1 H2]. rewrite <- app_assoc in H2. split; [|done]. revert H1. apply best_ext. intros w. rewrite begins_cons. tauto.
    + intros t. specialize (Hx t). revert Hx. apply best_ext. intros w. cbn [app]. rewrite begins_cons. tauto.
  - destruct Hx as [Hz1 Hno]. exists (None, z1), m1. split; [done|]. split; [done|]. split; [done|]. split; [done|]. intros t. by apply stuck_best.
Qed.

Lemma start_word m : regex_ok m -> at_word m (m_start m) [].
Proof.
  intros [Hm _]. destruct (ri_start m Hm) as (d & Hd & Hb). exists d. split; [done|]. revert Hb. apply bits_are_ext. intros p. split.
  - intros H. apply firstpos_in in H as Hp. split; [done|]. by apply pre_nil.
  - intros [Hp H]. by apply pre_nil.
Qed.

(** A match answers with the largest number hit by a beginning of the string between
    its marks. *)
Lemma dm_regex_match_ok m s : regex_ok m -> Forall (fun c => 0 <= c < 256) s ->
  exists z m', dm_regex_match s m = RxRet (z - 1) m' /\ regex_ok m' /\ best (begins [] (HAT_CHAR :: s ++ [DOLLAR_CHAR])) z.
Proof.
  intros Hm Hs. unfold dm_regex_match. rewrite m_get_exec. destruct Hm as [Hm [Hbs _]]. destruct (dm_bit_clear_all_spec N _ Hbs) as (bs & -> & W & M).
  rewrite rx_opt_exec, m_upd_exec. assert (regex_ok (set_bs bs m)) as Hm0.
  { split; [by apply base_set_bs|]. split; [done|]. intros j Hj. cbn. by rewrite M. }
  assert (best (fun _ => False) 0) as Hz0 by done. destruct (step_matcher_ok (fun _ => False) (set_bs bs m) (m_start m) [] HAT_CHAR 0 Hm0 (start_word _ Hm0) ltac:(unfold HAT_CHAR; lia) Hz0)
    as (x & m1 & E & Hm1 & Hs1 & He1 & Hx). rewrite (rx_exec _ _ _ _ _ E). destruct x as [[j|] z1]; cbn [step_result] in Hx.
  2: { destruct Hx as [Hz1 Hno]. exists z1, m1. split; [done|]. split; [done|]. apply (best_ext (fun w => False \/ begins [] (HAT_CHAR :: s ++ [DOLLAR_CHAR]) w)); [tauto|]. by apply stuck_best. }
  destruct Hx as [Hz1 Hj]. destruct (match_loop_ok s _ m1 j _ z1 Hm1 Hj Hs Hz1) as (x & m2 & E2 & Hm2 & Hs2 & He2 & Hx). rewrite (rx_exec _ _ _ _ _ E2).
  destruct x as [[j2|] z2]; cbn [loop_result] in Hx.
  2: { exists z2, m2. split; [done|]. split; [done|]. specialize (Hx [DOLLAR_CHAR]). revert Hx. apply best_ext. intros w. rewrite begins_cons. tauto. }
  destruct Hx as [Hz2 Hj2]. destruct (step_matcher_ok _ m2 j2 _ DOLLAR_CHAR z2 Hm2 Hj2 ltac:(unfold DOLLAR_CHAR; lia) Hz2) as (x & m3 & E3 & Hm3 & Hs3 & He3 & Hx).
  rewrite (rx_exec _ _ _ _ _ E3). exists x.2, m3. split; [done|]. split; [done|].
  assert (forall w, begins [] (HAT_CHAR :: s ++ [DOLLAR_CHAR]) w <-> ((False \/ w = [] ++ [HAT_CHAR]) \/ begins ([] ++ [HAT_CHAR]) s w) \/ w = (([] ++ [HAT_CHAR]) ++ s) ++ [DOLLAR_CHAR]) as Heq.
  { intros w. rewrite begins_cons. generalize ([] ++ [HAT_CHAR]) as u. intros u. clear. revert u. induction s as [|c s IH]; intros u; cbn [app].
    - rewrite begins_cons, app_nil_r. pose proof (begins_nil u w). pose proof (begins_nil (u ++ [DOLLAR_CHAR]) w). tauto.
    - rewrite !begins_cons. specialize (IH (u ++ [c])). rewrite <- !app_assoc in *. cbn [app] in *. tauto. }
  destruct x as [[j3|] z3]; cbn [step_result snd] in Hx |- *.
  - destruct Hx as [Hz3 _]. revert Hz3. apply best_ext. intros w. by rewrite Heq.
  - destruct Hx as [Hz3 Hno]. apply (stuck_best _ _ _ [] _ Hz3) in Hno. revert Hno. apply best_ext. intros w. rewrite Heq, begins_cons. pose proof (begins_nil ((([] ++ [HAT_CHAR]) ++ s) ++ [DOLLAR_CHAR]) w). tauto.
Qed.

End automaton.

(** ** Creation *)

Lemma pos_is_bits r f bs : pos_is (N r) 0 f bs -> bits_are r bs (fun p => f p = true).
Proof. intros [H1 H2]. split; [done|]. intros j Hj. by rewrite H2, Nat.sub_0_r. Qed.

Lemma first_state_ok r num_nodes nodes maps mem n :
  N r < 2 ^ 31 -> tree_ok (N r) 0 1 r 0 nodes -> last nodes = Some n -> maps_ok (N r) maps (fun a j => has_char r a (Z.to_nat j)) -> false ∉ mem ->
  exists m mem', creating (DmRegex 0 num_nodes (N r) nodes (places r) maps [] (Ttree (nwords (N r)) TNil) (dm_bitset_create (N r)) None None [] []) (first_state (mn_firstpos n)) mem = RxRet (Some m) mem' /\
    false ∉ mem' /\ regex_ok r m.
Proof.
  intros HN Ht Hlast Hmaps Hmem. assert (0 <= N r < 2 ^ 31) as HN' by (unfold N in *; lia).
  destruct (to_root _ _ _ _ _ _ Ht) as (n' & En & _ & Hfirst & _). simplify_eq. pose proof (pos_is_bits r _ _ Hfirst) as Hbits.
  set (bs := mn_firstpos n) in *. unfold creating, first_state. set (m0 := set_mem mem _).
  assert (create_dfa_state m0 = RxRet (Some 0%nat) (set_states [DfaState None 0 [] (replicate 256 None)] (set_mem (tail mem) m0))) as E.
  { unfold create_dfa_state. set (k := fun ok : bool => _). by destruct (alloc_exec k m0 Hmem) as [-> _]. }
  rewrite (rx_exec _ _ _ _ _ E). clear E. rewrite m_get_exec. destruct (rx_alloc_ok _ Hmem) as [_ Hmem1].
  assert (tree_finds r (Ttree (nwords (N r)) TNil) []) as Htt by (split; [done|]; split; [done|]; intros key i _ H; cbn [tt_root] in H; by rewrite data_at_nil in H).
  destruct (insert_finds r _ [] bs (fresh bs) (tail mem) Htt (proj1 Hbits) eq_refl Hmem1) as (tt' & mem2 & E2 & Hmem2 & Htt').
  set (m1 := set_states _ _). rewrite (on_mem_exec _ _ m1 _ _ E2). cbn [fst]. rewrite m_upd_exec. set (m2 := set_tt _ _).
  set (k := fun ok : bool => _). destruct (create_queue_exec r k m2 0 (DfaState None 0 [] (replicate 256 None)) bs eq_refl (proj1 Hbits) Hmem2) as [-> Hmem3]. unfold k. clear k. cbn [negb].
  rewrite m_upd_exec. set (m3 := set_queue _ _ _). set (k := fun ok : bool => _). destruct (alloc_exec k m3 Hmem3) as [-> Hmem4]. unfold k. cbn [negb]. rewrite m_upd_exec.
  cbn. eexists _, _. split; [reflexivity|]. split; [done|]. split; [split; try done; cbn|].
  - by apply bs_create_wf.
  - intros [|i] d Hi; [|done]. injection Hi as <-. change (dfa_ok r [fresh bs] (fresh bs)). apply fresh_ok, Hbits.
  - by exists (fresh bs).
  - intros _. by exists 0%nat, (fresh bs).
  - split; [by apply bs_create_wf|]. intros j Hj. cbn. by rewrite bs_mem_create by lia.
Qed.

Lemma leaves_wf r : forall p cs, rx_wf r -> leaves r !! p = Some cs -> bs_wf 256 cs.
Proof.
  induction r as [l IHl r IHr|l IH|l IH|l IHl r IHr|l IH|c i]; intros p cs Hwf; cbn [rx_wf leaves] in *.
  1, 4: destruct Hwf as [W1 W2]; intros [H|[_ H]]%lookup_app_Some; eauto.
  1-3: eauto.
  destruct p; [|done]. by intros [= <-].
Qed.

Lemma calc_states_ok r num_nodes nodes mem :
  N r < 2 ^ 31 -> rx_wf r -> numbered 0 r -> tree_ok (N r) 0 1 r 0 nodes -> false ∉ mem ->
  exists m mem', calc_states (length nodes - 1) num_nodes (N r) nodes (places r) mem = RxRet (Some m) mem' /\ false ∉ mem' /\ regex_ok r m.
Proof.
  intros HN Hwf Hnum Ht Hmem. assert (0 <= N r < 2 ^ 31) as HN' by (unfold N in *; lia). unfold calc_states.
  assert (ttree_create (Z.to_nat (N r / DM_BITS_PER_INT + 1)) mem = RxRet (Some (Ttree (nwords (N r)) TNil)) (tail mem)) as E.
  { unfold ttree_create. destruct (rx_alloc_ok mem Hmem) as [E _]. by rewrite (rx_exec _ _ _ _ _ E). }
  rewrite (rx_exec _ _ _ _ _ E). clear E. destruct (rx_alloc_ok mem Hmem) as [_ H1]. destruct (rx_alloc_ok _ H1) as [E H2]. rewrite (rx_exec _ _ _ _ _ E). cbn [negb].
  destruct (create_maps_ok (N r) 256 HN' _ H2) as (mem3 & E3 & H3). rewrite (rx_exec _ _ _ _ _ E3).
  destruct (mark_charsets_ok (N r) nodes (replicate 256 (dm_bitset_create (N r))) (fun _ _ => False) mem3) as (maps & E4 & Hlen & Hmaps).
  { split; [by rewrite length_replicate|]. intros a Ha. exists (dm_bitset_create (N r)). rewrite zlookup_lookup by lia. split; [apply lookup_replicate_2; lia|].
    split; [by apply bs_create_wf|]. intros j Hj. by rewrite bs_mem_create by lia. }
  { intros cs i. rewrite (to_rx _ _ _ _ _ _ Ht), (layout_charsets r 0) by done. intros [Hi Hcs]. rewrite Nat.sub_0_r in Hcs. split.
    - by apply (leaves_wf r (Z.to_nat i)).
    - apply lookup_lt_Some in Hcs. unfold bs_cap, N, width in *. lia. }
  rewrite (rx_exec _ _ _ _ _ E4). destruct (to_root _ _ _ _ _ _ Ht) as (n & En & _).
  assert (nodes !! (length nodes - 1)%nat = Some n) as En' by (rewrite last_lookup in En; by rewrite Nat.sub_1_r). rewrite En', rx_opt_exec.
  eapply first_state_ok; [done|done|done| |done]. split; [done|]. intros a Ha. destruct (Hmaps a Ha) as (cm & E1 & W & M). exists cm. split; [done|]. split; [done|].
  intros j Hj. rewrite M by done. rewrite (to_rx _ _ _ _ _ _ Ht). setoid_rewrite (layout_charsets r 0); [|done]. rewrite Nat.sub_0_r. unfold has_char. split.
  - intros [|(cs & [_ H] & Hb)]; [done|]. by exists cs.
  - intros (cs & H & Hb). right. exists cs. split; [split; [lia|done]|done].
Qed.

(** ** End markers and the words that lead to them *)

(** The number of end markers before set [p]. *)
Definition markers (r : rx_node) (p : nat) : nat := Z.to_nat (ntarget (take p (leaves r))).

Lemma markers_l l r rr p : leaves rr = leaves l ++ leaves r -> (p < width l)%nat -> markers rr p = markers l p.
Proof. intros E Hp. unfold markers. rewrite E, take_app_le; [done|]. unfold width in Hp. lia. Qed.

Lemma markers_r l r rr p : leaves rr = leaves l ++ leaves r -> markers rr (width l + p) = (markers l (width l) + markers r p)%nat.
Proof.
  intros E. unfold markers. rewrite E, take_app_ge by (unfold width; lia). rewrite ntarget_app, (take_ge (leaves l)) by (unfold width; lia).
  replace (width l + p - length (leaves l))%nat with p by (unfold width; lia). unfold ntarget. lia.
Qed.

Lemma markers_lt r p p' : has_char r 0 p -> (p < p')%nat -> (markers r p < markers r p')%nat.
Proof.
  intros (cs & Hcs & Hb) Hp. unfold markers. assert (ntarget (take (S p) (leaves r)) <= ntarget (take p' (leaves r))) as H by (apply ntarget_take; lia).
  rewrite (take_S_r _ _ _ Hcs), ntarget_app in H. unfold ntarget in H at 2. rewrite filter_cons_True in H by done. cbn in H. unfold ntarget in *. lia.
Qed.

Lemma tpre_length r : length (tpre r) = markers r (width r).
Proof.
  assert (forall r, markers r (width r) = Z.to_nat (ntarget (leaves r))) as E by (intros r0; unfold markers; by rewrite take_ge by (unfold width; lia)).
  rewrite E. clear E. induction r as [l IHl r IHr|l IH|l IH|l IHl r IHr|l IH|cs i]; cbn [tpre leaves]; rewrite ?length_app, ?length_map, ?ntarget_app; try (unfold ntarget in *; lia).
  unfold ntarget, TARGET_TRANS. destruct (decide (bs_mem cs 0 = true)) as [Eb|Eb]; [rewrite Eb|apply not_true_iff_false in Eb as Eb'; rewrite Eb'];
    [rewrite filter_cons_True|rewrite filter_cons_False]; done.
Qed.

(** The words of an end marker are those that lead to its set. *)
Definition marks (r : rx_node) (p k : nat) (L : language) : Prop := has_char r 0 p /\ markers r p = k /\ (L =l= pre r p)%lang.

Lemma marks_two_l l r rr p k L : leaves rr = leaves l ++ leaves r -> (forall p, (p < width l)%nat -> pre rr p = pre l p) -> marks l p k L -> marks rr p k L.
Proof.
  intros E Ep ((cs & Hcs & Hb) & Hk & HL). apply lookup_lt_Some in Hcs as Hp. split; [exists cs; rewrite E; split; [by apply lookup_app_l_Some|done]|].
  rewrite (markers_l l r), Ep by done. done.
Qed.

Lemma marks_two_r l r rr p k L f : leaves rr = leaves l ++ leaves r -> (forall p, pre rr (width l + p) = f (pre r p)) -> Proper (leq ==> leq) f ->
  marks r p k L -> marks rr (width l + p) (length (tpre l) + k) (f L).
Proof.
  intros E Ep Hf ((cs & Hcs & Hb) & Hk & HL). split; [exists cs; rewrite E, lookup_app_r by (unfold width; lia); split; [|done]; rewrite <- Hcs; f_equal; unfold width; lia|].
  rewrite (markers_r l r), Ep, tpre_length by done. split; [lia|]. by apply Hf.
Qed.

Lemma tpre_marks r : forall k L, tpre r !! k = Some L -> exists p, marks r p k L.
Proof.
  induction r as [l IHl r IHr|l IH|l IH|l IHl r IHr|l IH|cs i]; intros k L; cbn [tpre].
  1, 4: intros [H|[Hk H]]%lookup_app_Some;
    [apply IHl in H as [p H]; exists p; revert H; apply (marks_two_l l r); [done|]; intros q Hq; cbn [pre]; by rewrite (proj2 (Nat.ltb_lt q (width l)) Hq)|];
    replace k with (length (tpre l) + (k - length (tpre l)))%nat by lia.
  - rewrite list_lookup_fmap in H. destruct (tpre r !! _) as [M|] eqn:EM; [|done]. injection H as <-. apply IHr in EM as [p Hp]. exists (width l + p)%nat.
    apply (marks_two_r l r _ p _ M (lcat (lang l))); [done| |solve_proper|done]. intros q. cbn [pre]. destruct (Nat.ltb_spec (width l + q) (width l)); [lia|]. by replace (width l + q - width l)%nat with q by lia.
  - apply IHr in H as [p Hp]. exists (width l + p)%nat.
    apply (marks_two_r l r _ p _ L (fun M => M)); [done| |solve_proper|done]. intros q. cbn [pre]. destruct (Nat.ltb_spec (width l + q) (width l)); [lia|]. by replace (width l + q - width l)%nat with q by lia.
  - rewrite list_lookup_fmap. destruct (tpre l !! k) as [M|] eqn:EM; [|done]. intros [= <-]. apply IH in EM as [p (H1 & H2 & H3)]. exists p. split; [done|]. split; [done|]. cbn [pre]. by rewrite H3.
  - rewrite list_lookup_fmap. destruct (tpre l !! k) as [M|] eqn:EM; [|done]. intros [= <-]. apply IH in EM as [p (H1 & H2 & H3)]. exists p. split; [done|]. split; [done|]. cbn [pre]. by rewrite H3.
  - intros [p H]%IH. by exists p.
  - unfold TARGET_TRANS. destruct (bs_mem cs 0) eqn:Eb; [|done]. intros [-> <-]%list_lookup_singleton_Some. exists 0%nat. split; [by exists cs|]. split; [done|]. intros w. cbn. unfold lnil. tauto.
Qed.

Lemma hits_tpre r k u : hits r k u <-> 0 <= k /\ exists L, tpre r !! Z.to_nat k = Some L /\ L u.
Proof.
  split.
  - intros (p & Hc & Hp & ->). split; [unfold ntarget; lia|]. fold (markers r p). apply has_char_lt in Hc as Hlt.
    pose proof (markers_lt r p (width r) Hc Hlt) as Hm.
    rewrite <- tpre_length in Hm. destruct (lookup_lt_is_Some_2 _ _ Hm) as [L HL]. exists L. split; [done|]. destruct (tpre_marks r _ _ HL) as (p' & Hc' & Hk & Heq).
    apply Heq. assert (p' = p) as ->; [|done].
    destruct (Nat.lt_total p' p) as [Hl|[->|Hl]]; [|done|]; [pose proof (markers_lt r p' p Hc' Hl)|pose proof (markers_lt r p p' Hc Hl)]; lia.
  - intros [Hk (L & HL & Hu)]. destruct (tpre_marks r _ _ HL) as (p & Hc & Hm & Heq). exists p. split; [done|]. split; [by apply Heq|]. unfold markers in Hm.
    assert (0 <= ntarget (take p (leaves r))) by (unfold ntarget; lia). lia.
Qed.
