(* ===== verification/RegexThms.v ===== *)
(** * What a regular expression matches

    The language of a pattern is given on the pattern itself.  A matcher made from
    the texts of patterns answers every string with the last pattern that matches,
    whatever strings it was asked before. *)

From S2P Require Import Prelude Bitset DmString Regex RegexLang RegexOpt RegexParse Ttree Matcher MatcherTables MatcherProps.

Local Open Scope lang_scope.

(** ** Languages of patterns *)

Definition atom_lang (a : atom) : language := fun w => exists c, w = [c] /\ 0 <= c < 256 /\ atom_mem a c = true.

Fixpoint pat_lang (p : pat) : language :=
  match p with
  | PAtom a => atom_lang a
  | PCat l r => lcat (pat_lang l) (pat_lang r)
  | POr l r => lalt (pat_lang l) (pat_lang r)
  | PStar l => lstar (pat_lang l)
  | PPlus l => lcat (pat_lang l) (lstar (pat_lang l))
  | PQuest l => lalt lnil (pat_lang l)
  | PGroup l => pat_lang l
  end.

(** What is repeated is a choice of single characters. *)
Fixpoint pat_no_cat (p : pat) : bool :=
  match p with
  | PAtom _ => true
  | PCat _ _ => false
  | POr l r => pat_no_cat l && pat_no_cat r
  | PStar l | PPlus l | PQuest l | PGroup l => pat_no_cat l
  end.
Fixpoint pat_flat (p : pat) : bool :=
  match p with
  | PAtom _ => true
  | PCat l r | POr l r => pat_flat l && pat_flat r
  | PStar l | PPlus l | PQuest l => pat_no_cat l
  | PGroup l => pat_flat l
  end.

(** No character set holds the end marker. *)
Fixpoint unmarked (p : pat) : bool :=
  match p with
  | PAtom a => negb (atom_mem a 0)
  | PCat l r | POr l r => unmarked l && unmarked r
  | PStar l | PPlus l | PQuest l | PGroup l => unmarked l
  end.

Lemma set_letter cs a c : set_is cs (atom_mem a) -> letter cs c <-> 0 <= c < 256 /\ atom_mem a c = true.
Proof. intros [_ H]. unfold letter. split; intros [H1 H2]; (split; [done|]); [by rewrite <- H|by rewrite H]. Qed.

Record ast_facts (p : pat) (r : rx_node) : Prop := {
  af_wf : rx_wf r;
  af_lang : lang r =l= pat_lang p;
  af_size : (rx_size r <= pat_size p)%nat;
  af_no_cat : no_cat r = pat_no_cat p;
  af_flat : flat r = pat_flat p;
  af_tpre : unmarked p = true -> tpre r = [] }.

Lemma ast_props p : forall r, ast_of p r -> ast_facts p r.
Proof.
  induction p as [a|l IHl r IHr|l IHl r IHr|l IH|l IH|l IH|l IH]; intros x Hx.
  7: { apply IH in Hx as [W L S N F T]. split; cbn; [done|done|lia|done|done|done]. }
  all: destruct x as [l' r'|l'|l'|l' r'|l'|cs i]; try done; cbn [ast_of] in Hx.
  - split; cbn; [apply Hx| |lia|done|done|].
    + intros w. unfold atom_lang. split; intros (c & -> & H); exists c; (split; [done|]); by apply (set_letter cs a c).
    + rewrite negb_true_iff. intros H. unfold TARGET_TRANS. destruct Hx as [_ Hx]. by rewrite Hx, H by lia.
  - destruct Hx as [[W1 L1 S1 N1 F1 T1]%IHl [W2 L2 S2 N2 F2 T2]%IHr]. split; cbn; [done|by rewrite L1, L2|lia|done|congruence|].
    intros [H1 H2]%andb_true_iff. by rewrite T1, T2.
  - destruct Hx as [[W1 L1 S1 N1 F1 T1]%IHl [W2 L2 S2 N2 F2 T2]%IHr]. split; cbn; [done|by rewrite L1, L2|lia|congruence|congruence|].
    intros [H1 H2]%andb_true_iff. by rewrite T1, T2.
  - apply IH in Hx as [W L S N F T]. split; cbn; [done|by rewrite L|lia|done|done|]. intros H. by rewrite T.
  - apply IH in Hx as [W L S N F T]. split; cbn; [done|by rewrite L|lia|done|done|]. intros H. by rewrite T.
  - apply IH in Hx as [W L S N F T]. split; cbn; [done|by rewrite L|lia|done|done|done].
Qed.

(** A text without NUL has no end marker. *)
Lemma items_unmarked its : forall lc, items_ok lc its = true -> items_mem lc its 0 = false.
Proof.
  induction its as [|it its IH]; intros lc; cbn [items_ok items_mem]; [done|]. intros [Hit Hok]%andb_true_iff. rewrite (IH _ Hok), orb_false_r.
  destruct it as [c|e|e]; cbn [item_ok item_mem] in *; rewrite ?andb_true_iff, ?Z.ltb_lt in Hit.
  - apply Z.eqb_neq. lia.
  - apply Z.eqb_neq. pose proof (escaped_pos e ltac:(lia)). lia.
  - destruct (Z.leb_spec (Z.min lc e) 0); [lia|done].
Qed.

Lemma text_unmarked p : pat_ok p = true -> forall level, 0 ∉ pat_text level p -> unmarked p = true.
Proof.
  assert (forall own level t, 0 ∉ (if (own <=? level)%nat then t else group t) -> 0 ∉ t) as Hw.
  { intros own level t. destruct (own <=? level)%nat; [done|]. unfold group. set_solver. }
  induction p as [a|l IHl r IHr|l IHl r IHr|l IH|l IH|l IH|l IH]; cbn [pat_ok pat_text unmarked]; rewrite ?andb_true_iff; intros Hok level Ht; try apply Hw in Ht.
  - apply negb_true_iff. destruct a as [b|e| | | |neg its]; cbn [atom_text atom_mem atom_ok] in *; try done.
    + apply Z.eqb_neq. set_solver.
    + rewrite !andb_true_iff, Z.leb_le, Z.ltb_lt in Hok. assert (e <> 0) by set_solver. pose proof (escaped_pos e ltac:(lia)). apply Z.eqb_neq. lia.
    + apply andb_true_iff in Hok as [Hok _]. rewrite (items_unmarked its 0 Hok). by destruct neg.
  - destruct Hok as [H1 H2]. apply andb_true_iff. split; [apply (IHl H1 1%nat)|apply (IHr H2 2%nat)]; set_solver.
  - destruct Hok as [H1 H2]. apply andb_true_iff. split; [apply (IHl H1 2%nat)|apply (IHr H2 3%nat)]; set_solver.
  - apply (IH Hok 1%nat). set_solver.
  - apply (IH Hok 1%nat). set_solver.
  - apply (IH Hok 1%nat). set_solver.
  - apply (IH Hok 3%nat). unfold group in Ht. set_solver.
Qed.

Lemma pat_size_text p : forall level, (pat_size p + 1 <= 2 * length (pat_text level p))%nat.
Proof.
  assert (forall own level t n, (n <= 2 * length t)%nat -> (n <= 2 * length (if (own <=? level)%nat then t else group t))%nat) as Hw.
  { intros own level t n H. destruct (own <=? level)%nat; [done|]. unfold group. cbn. rewrite length_app. lia. }
  induction p as [a|l IHl r IHr|l IHl r IHr|l IH|l IH|l IH|l IH]; intros level; cbn [pat_size pat_text]; try apply Hw; rewrite ?length_app.
  - destruct a as [b|e| | | |neg its]; cbn; lia.
  - specialize (IHl 1%nat). specialize (IHr 2%nat). lia.
  - cbn. specialize (IHl 2%nat). specialize (IHr 3%nat). lia.
  - cbn. specialize (IH 1%nat). lia.
  - cbn. specialize (IH 1%nat). lia.
  - cbn. specialize (IH 1%nat). lia.
  - unfold group. cbn. rewrite length_app. specialize (IH 3%nat). cbn. lia.
Qed.

(** ** Parsing *)

Lemma parse_ok fuel p mem : pat_ok p = true -> (8 * pat_size p <= fuel)%nat -> false ∉ mem ->
  exists r r' mem', rx_parse_tok fuel (pat_text 3 p) mem = RxRet (Some r') mem' /\ false ∉ mem' /\ ast_of p r /\
    rx_wf r' /\ (rx_size r' <= pat_size p)%nat /\ (opt_ok r = true -> rx_equiv r' r).
Proof.
  intros Hp Hf Hmem. unfold rx_parse_tok. destruct (rx_alloc_ok mem Hmem) as [E1 H1]. rewrite (rx_exec _ _ _ _ _ E1). cbn [negb].
  destruct (rx_alloc_ok _ H1) as [E2 H2]. rewrite (rx_exec _ _ _ _ _ E2). cbn [negb].
  assert (bs_wf 256 (dm_bitset_create 256)) as Hcs by (apply bs_create_wf; lia).
  pose proof (pat_starts p 3 [] Hp) as Hst. rewrite app_nil_r in Hst. destruct (load (tail (tail mem)) 0 _ _ Hst Hcs) as (n & ps & E3 & Hl & Hm). rewrite (rx_exec _ _ _ _ _ E3).
  destruct (pat_reads p Hp) as (_ & _ & _ & HO). destruct (HO fuel [] Hf ltac:(by left) ps ltac:(by rewrite Hm) ltac:(by rewrite app_nil_r)) as (r & ps' & -> & Hr & Hm' & _).
  destruct (ast_props p r Hr) as [W L Sz N F T]. destruct (optimise_spec (S (rx_size r)) r (ps_mem ps') W ltac:(lia) Hm') as (r' & mem' & E & Hmem' & W' & S' & Q).
  exists r, r', mem'. split; [done|]. split; [done|]. split; [done|]. split; [done|]. split; [lia|done].
Qed.

(** ** The joined pattern *)

(** A pattern as the matcher searches it. *)
Definition dots : language := lstar (atom_lang ADot).
Definition search (p : pat) : language := lcat dots (pat_lang p).

Definition wrapped (p : pat) : pat := PGroup (PCat (PStar (PAtom ADot)) (PCat (PGroup p) (PAtom (AChar TARGET_TRANS)))).
Fixpoint joined (p : pat) (ps : list pat) : pat :=
  match ps with [] => wrapped p | q :: qs => POr (wrapped p) (joined q qs) end.

Lemma joined_text p ps : pat_text 3 (joined p ps) = join_patterns (pat_text 3 <$> p :: ps).
Proof.
  assert (forall level q, pat_text level (wrapped q) = wrap_pattern (pat_text 3 q)) as Hw.
  { intros level q. unfold wrapped, wrap_pattern. cbn. unfold group. cbn. by rewrite <- !app_assoc. }
  revert p. induction ps as [|q ps IH]; intros p; [apply Hw|]. cbn [joined pat_text Nat.leb fmap list_fmap join_patterns]. rewrite Hw, IH. done.
Qed.

(** A pattern a matcher can be made of: its text is a C string, and what is repeated
    in it is a choice of single characters. *)
Definition good (p : pat) : bool := pat_ok p && pat_flat p && bool_decide (0 ∉ pat_text 3 p).

Lemma joined_ok p ps : Forall (fun p => good p = true) (p :: ps) -> pat_ok (joined p ps) = true /\ pat_flat (joined p ps) = true.
Proof.
  assert (forall q, good q = true -> pat_ok (wrapped q) = true /\ pat_flat (wrapped q) = true) as Hw.
  { intros q. unfold good. rewrite !andb_true_iff. intros [[H1 H2] _]. cbn. by rewrite H1, H2. }
  revert p. induction ps as [|q ps IH]; intros p [Hp Hps]%Forall_cons; [by apply Hw|]. destruct (Hw p Hp) as [H1 H2], (IH q Hps) as [H3 H4].
  cbn [joined pat_ok pat_flat]. by rewrite H1, H2, H3, H4.
Qed.

(** The end marker of every pattern is reached by the words searched for. *)
Lemma wrapped_tpre p r : good p = true -> ast_of (wrapped p) r -> exists L, tpre r = [L] /\ L =l= search p.
Proof.
  unfold good. rewrite !andb_true_iff, bool_decide_eq_true. intros [[H1 H2] H3] Hr. pose proof (text_unmarked p H1 3 H3) as Hu.
  destruct r as [l r|l|l|l r|l|cs i]; cbn in Hr; try done. destruct Hr as [Hl Hr]. destruct l as [ | | | | |]; try done. rename l into d. destruct r as [l r| | | | |]; try done.
  destruct Hr as [Hp Hz]. apply ast_props in Hp as [_ Lp _ _ _ Tp]. pose proof (ast_props (PAtom ADot) d Hl) as [_ Ld _ _ _ Td].
  destruct r as [ | | | | |cs i]; try done. cbn [tpre map]. rewrite Td, Tp by done. cbn [map app]. unfold TARGET_TRANS. destruct Hz as [_ Hz]. rewrite Hz by lia. cbn.
  eexists. split; [reflexivity|]. unfold search, dots. rewrite Lp, Ld. intros w. apply lcat_proper; [done|]. intros v. unfold lcat, lnil. split.
  - intros (v1 & v2 & -> & Hv & ->). by rewrite app_nil_r.
  - intros Hv. exists v, []. by rewrite app_nil_r.
Qed.

Lemma joined_tpre ps : forall p r, Forall (fun p => good p = true) (p :: ps) -> ast_of (joined p ps) r -> Forall2 leq (tpre r) (search <$> p :: ps).
Proof.
  induction ps as [|q ps IH]; intros p r [Hp Hps]%Forall_cons Hr; cbn [joined] in Hr.
  - destruct (wrapped_tpre p r Hp Hr) as (L & -> & HL). constructor; [done|by constructor].
  - destruct r as [ | | |l r| |]; try done. destruct Hr as [Hl Hr]. destruct (wrapped_tpre p l Hp Hl) as (L & EL & HL). cbn [tpre]. rewrite EL. cbn [app fmap list_fmap].
    constructor; [done|]. by apply (IH q r).
Qed.

(** ** Creating a matcher *)

(** A matcher whose end markers are reached by the words searched for. *)
Definition matcher_for (ps : list pat) (m : dm_regex) : Prop := exists r, regex_ok r m /\ Forall2 leq (tpre r) (search <$> ps).

Definition texts (ps : list pat) : list (list Z) := pat_text 3 <$> ps.

Lemma width_size r : (width r <= rx_size r)%nat.
Proof. unfold width. induction r as [l IHl r IHr|l IH|l IH|l IHl r IHr|l IH|cs i]; cbn; rewrite ?length_app; lia. Qed.

Lemma create_ok p ps mem :
  Forall (fun p => good p = true) (p :: ps) -> Z.of_nat (length (join_patterns (texts (p :: ps)))) < 2 ^ 30 -> false ∉ mem ->
  exists m mem', dm_regex_create (texts (p :: ps)) mem = RxRet (Some m) mem' /\ false ∉ mem' /\ matcher_for (p :: ps) m.
Proof.
  intros Hps Hlen Hmem. destruct (joined_ok p ps Hps) as [Hok Hflat]. unfold dm_regex_create. destruct (rx_alloc_ok mem Hmem) as [E1 H1]. rewrite (rx_exec _ _ _ _ _ E1). cbn [negb].
  destruct (rx_alloc_ok _ H1) as [E2 H2]. rewrite (rx_exec _ _ _ _ _ E2). cbn [negb]. unfold texts in *. rewrite <- (joined_text p ps) in *. set (pp := joined p ps) in *.
  pose proof (pat_size_text pp 3) as Hsz.
  destruct (parse_ok (16 * S (length (pat_text 3 pp))) pp _ Hok ltac:(lia) H2) as (r0 & r & mem3 & E3 & H3 & Hast & Hwf & Hs & Heq). rewrite (rx_exec _ _ _ _ _ E3).
  assert (opt_ok r0 = true) as Hopt by (apply flat_opt_ok; destruct (ast_props pp r0 Hast) as [_ _ _ _ -> _]; done).
  destruct (enumerate_spec r 0) as (r1 & Er & Hn & Hl & Hg & Ht & Hz & Hw). specialize (Hw Hwf). unfold enumerate_charsets. change (Z.of_nat 0) with 0 in Er. rewrite Er. cbn [fst].
  destruct (rx_alloc_ok _ H3) as [E4 H4]. rewrite (rx_exec _ _ _ _ _ E4). cbn [negb]. destruct (rx_alloc_ok _ H4) as [E5 H5]. rewrite (rx_exec _ _ _ _ _ E5). cbn [negb].
  rewrite fill_table_start, count_charsets_width. pose proof (width_size r1) as Hws. assert (Z.of_nat (width r1) < 2 ^ 31) as HN by lia.
  destruct (create_bitsets_ok (Z.of_nat (width r1)) (nodes_of 0 r1) _ H5) as (mem6 & E6 & H6). rewrite (rx_exec _ _ _ _ _ E6).
  destruct (calc_functions_ok r1 Hw Hn HN) as (nodes & -> & Htree). rewrite rx_opt_exec.
  destruct (calc_states_ok r1 (count_nodes r1) nodes mem6 HN Hw Hn Htree H6) as (m & mem7 & E7 & H7 & Hm). exists m, mem7. split; [done|]. split; [done|]. exists r1. split; [done|].
  rewrite Ht. destruct (Heq Hopt) as [_ Heq']. transitivity (tpre r0); [done|]. by apply joined_tpre.
Qed.

(** ** Matching *)

(** Some part of the string between its marks is a word of the pattern, and no line
    ends before it. *)
Definition matches (p : pat) (s : list Z) : Prop := exists u v, HAT_CHAR :: s ++ [DOLLAR_CHAR] = u ++ v /\ search p u.

(** The number of the last pattern that matches, or -1. *)
Definition answer (ps : list pat) (s : list Z) (z : Z) : Prop :=
  (z = -1 /\ forall p, p ∈ ps -> ~ matches p s) \/
  (exists i p, z = Z.of_nat i /\ ps !! i = Some p /\ matches p s /\ forall j q, (i < j)%nat -> ps !! j = Some q -> ~ matches q s).

Lemma matches_begins p s : matches p s <-> exists u, begins [] (HAT_CHAR :: s ++ [DOLLAR_CHAR]) u /\ search p u.
Proof.
  split.
  - intros (u & v & E & Hu). destruct u as [|c u]; [|exists (c :: u); split; [by exists (c :: u), v|done]].
    apply lcat_nil_word in Hu as [_ Hu]. exists [HAT_CHAR]. split; [by exists [HAT_CHAR], (s ++ [DOLLAR_CHAR])|]. exists [HAT_CHAR], []. split; [done|]. split; [|done].
    apply lstar_one. exists HAT_CHAR. split; [done|]. split; [unfold HAT_CHAR; lia|done].
  - intros (u & (v & t & _ & E & ->) & Hu). by exists v, t.
Qed.

Lemma match_ok ps m s : matcher_for ps m -> Forall (fun c => 0 <= c < 256) s ->
  exists z m', dm_regex_match s m = RxRet z m' /\ matcher_for ps m' /\ answer ps s z.
Proof.
  intros (r & Hm & Heq) Hs. destruct (dm_regex_match_ok r m s Hm Hs) as (z & m' & E & Hm' & Hz & Hmax & Hhit). exists (z - 1), m'. split; [done|]. split; [by exists r|].
  assert (forall k u p, ps !! k = Some p -> search p u -> hits r (Z.of_nat k) u) as Hto.
  { intros k u p Hp Hu. apply hits_tpre. split; [lia|]. rewrite Nat2Z.id. apply Forall2_flip in Heq. eapply Forall2_lookup_l in Heq as (L & HL & Hleq); [|by rewrite list_lookup_fmap, Hp].
    exists L. split; [done|]. by apply Hleq. }
  destruct (decide (z = 0)) as [->|Hnz].
  - left. split; [done|]. intros p [k Hk]%list_elem_of_lookup (u & Hb & Hu)%matches_begins. specialize (Hmax _ u Hb (Hto k u p Hk Hu)). lia.
  - right. destruct (Hhit ltac:(lia)) as (u & Hb & (Hk & L & HL & Hu)%hits_tpre). eapply Forall2_lookup_l in Heq as (L' & HL' & Hleq); [|done].
    apply list_lookup_fmap_Some_1 in HL' as (p & -> & Hp). exists (Z.to_nat (z - 1)), p. split; [lia|]. split; [done|]. split; [apply matches_begins; exists u; split; [done|by apply Hleq]|].
    intros j q Hj Hq (u' & Hb' & Hu')%matches_begins. specialize (Hmax _ u' Hb' (Hto j u' q Hq Hu')). lia.
Qed.

(** Strings matched one after the other. *)
Fixpoint match_all (ss : list (list Z)) : RX dm_regex (list Z) :=
  match ss with [] => mret [] | s :: ss => z ← dm_regex_match s; zs ← match_all ss; mret (z :: zs) end.

(** C7: A matcher made from the texts of any list of patterns (C strings in which
    what is repeated is a choice of single characters and the characters in brackets and
    behind a backslash are ASCII ones, in ranges below 0x7f; while memory lasts) is made,
    and answers any strings, asked one after the other, with the number of the last
    pattern of which some part of the string (behind no newline of it) is a word, and
    with -1 when there is none. *)
Theorem matcher_answers p ps ss mem :
  Forall (fun p => good p = true) (p :: ps) -> Z.of_nat (length (join_patterns (texts (p :: ps)))) < 2 ^ 30 -> false ∉ mem ->
  Forall (Forall (fun c => 0 <= c < 256)) ss ->
  exists m mem' zs m', dm_regex_create (texts (p :: ps)) mem = RxRet (Some m) mem' /\ match_all ss m = RxRet zs m' /\ Forall2 (answer (p :: ps)) ss zs.
Proof.
  intros Hps Hlen Hmem Hss. destruct (create_ok p ps mem Hps Hlen Hmem) as (m & mem' & E & _ & Hm). exists m, mem'.
  assert (exists zs m', match_all ss m = RxRet zs m' /\ Forall2 (answer (p :: ps)) ss zs) as (zs & m' & E' & Hz); [|by exists zs, m'].
  clear E. revert m Hm. induction Hss as [|s ss Hs _ IH]; intros m Hm; cbn [match_all]; [by exists [], m|].
  destruct (match_ok _ m s Hm Hs) as (z & m1 & E1 & Hm1 & Hz). rewrite (rx_exec _ _ _ _ _ E1). destruct (IH m1 Hm1) as (zs & m2 & E2 & Hzs). rewrite (rx_exec _ _ _ _ _ E2).
  exists (z :: zs), m2. split; [done|]. by constructor.
Qed.

(** Patterns used below: "ab*c", "^x[0-9]" and "(ab)*|ac". *)
Definition chr (c : Z) : pat := PAtom (AChar c).
Definition pat_abc : pat := PCat (chr 97) (PCat (PStar (chr 98)) (chr 99)).
Definition pat_digit : pat := PCat (PAtom AHat) (PCat (chr 120) (PAtom (ASet false [ILit 48; ITo 57]))).
Definition pat_lost : pat := POr (PStar (PCat (chr 97) (chr 98))) (PCat (chr 97) (chr 99)).

Lemma matcher_answers_witness :
  texts [pat_abc; pat_digit] = [bytes "ab*c"; bytes "^x[0-9]"] /\
  exists m mem' zs m', dm_regex_create (texts [pat_abc; pat_digit]) [] = RxRet (Some m) mem' /\
    match_all [bytes "x7abc"; bytes "yabbbc"; bytes "ab"] m = RxRet zs m' /\ Forall2 (answer [pat_abc; pat_digit]) [bytes "x7abc"; bytes "yabbbc"; bytes "ab"] zs.
Proof.
  split; [reflexivity|]. apply (matcher_answers pat_abc [pat_digit] [bytes "x7abc"; bytes "yabbbc"; bytes "ab"] []).
  - repeat constructor.
  - by vm_compute.
  - apply not_elem_of_nil.
  - repeat constructor; vm_compute; done.
Defined.

(** C18: The parser reads the text of every pattern whose characters in brackets and
    behind a backslash are ASCII ones, in ranges below 0x7f, and it and the optimiser come
    to an end; the expression they return has the words of the pattern, provided that
    what is repeated in it is a choice of single characters. *)
Theorem parsed_language p mem :
  pat_ok p = true -> false ∉ mem ->
  exists r mem', rx_parse_tok (16 * length (pat_text 3 p)) (pat_text 3 p) mem = RxRet (Some r) mem' /\ rx_wf r /\ (pat_flat p = true -> lang r =l= pat_lang p).
Proof.
  intros Hp Hmem. pose proof (pat_size_text p 3) as Hs. destruct (parse_ok (16 * length (pat_text 3 p)) p mem Hp ltac:(lia) Hmem) as (r0 & r & mem' & E & _ & Hr & W & _ & Q).
  exists r, mem'. split; [done|]. split; [done|]. intros Hf. destruct (ast_props p r0 Hr) as [_ L _ _ F _]. rewrite <- L. apply Q, flat_opt_ok. by rewrite F.
Qed.

Lemma parsed_language_witness :
  exists r mem', rx_parse_tok (16 * length (pat_text 3 pat_digit)) (pat_text 3 pat_digit) [] = RxRet (Some r) mem' /\ rx_wf r /\ (pat_flat pat_digit = true -> lang r =l= pat_lang pat_digit).
Proof. apply (parsed_language pat_digit []); [reflexivity|apply not_elem_of_nil]. Defined.

(** C38: The optimiser takes a common part out of alternatives also where one of them
    is a repetition: a matcher for "(ab)*|ac" does not match "x", although the empty
    word is one of its words and so every string matches. *)
Theorem optimiser_loses_words :
  pat_ok pat_lost = true /\ texts [pat_lost] = [bytes "(ab)*|ac"] /\ matches pat_lost (bytes "x") /\
  exists m mem' m', dm_regex_create (texts [pat_lost]) [] = RxRet (Some m) mem' /\ dm_regex_match (bytes "x") m = RxRet (-1) m'.
Proof.
  split; [reflexivity|]. split; [reflexivity|]. split.
  - exists [], (HAT_CHAR :: bytes "x" ++ [DOLLAR_CHAR]). split; [done|]. apply lcat_nil_word. split; [constructor|]. left. constructor.
  - assert (match dm_regex_create (texts [pat_lost]) [] with
            | RxRet (Some m) _ => match dm_regex_match (bytes "x") m with RxRet z _ => z =? -1 | _ => false end
            | _ => false
            end = true) as H by (vm_compute; reflexivity).
    destruct (dm_regex_create _ _) as [[m|] mem'| |]; try discriminate H. exists m, mem'.
    destruct (dm_regex_match _ m) as [z m'| |]; try discriminate H. exists m'. apply Z.eqb_eq in H as ->. done.
Qed.
