(* ===== verification/Filter.v ===== *)
(** * Device filters (lib/filters/filter-regex.c, filter-composite.c, filter-persistent.c)

    A filter looks at a device and says whether it is used.  The regular expression
    filter decides by the names of a device, the composite filter asks several
    filters, and the persistent filter remembers decisions by name. *)

From S2P Require Import Prelude Bitset DmString Hash Config Regex RegexOpt Ttree Matcher.

(** What filters look at of a [struct device]: its names, the preferred one first, its
    number and its flags. *)
Record fdev := FDev { fd_aliases : list (list Z); fd_dev : Z; fd_flags : Z }.

(** Device numbers: [MAJOR], [MINOR] and [MKDEV]. *)
Definition MAJOR (dev : Z) : Z := Z.shiftr (Z.land dev 0xfff00) 8.
Definition MINOR (dev : Z) : Z := Z.lor (Z.land dev 0xff) (Z.land (Z.shiftr dev 12) 0xfff00).
Definition MKDEV (ma mi : Z) : Z := Z.lor (Z.lor (Z.land mi 0xff) (Z.shiftl ma 8)) (Z.shiftl (Z.land mi (Z.lnot 0xff)) 12).

(** [passes_filter] with the state of the filter; a filter may put another name first. *)
Definition passes_filter (S : Type) : Type := fdev -> RX S (bool * fdev).

(** Part of a state. *)
Definition on_part {S T A} (get : S -> T) (set : T -> S -> S) (k : RX T A) : RX S A := fun s =>
  match k (get s) with RxRet a t => RxRet a (set t s) | RxWild => RxWild | RxFuel => RxFuel end.

(** ** The regular expression filter *)

(** [struct rfilter] *)
Record rfilter := RFilter { rf_accept : list Z; rf_engine : dm_regex }.
Definition set_engine (e : dm_regex) (rf : rfilter) : rfilter := RFilter (rf_accept rf) e.

(** [_extract_pattern]: the expression of one pattern, and the bits with its answer.
    A pattern that ends before its separator is read beyond its end; one that ends
    with it is read before its start. *)
Definition extract_pattern (pat accept : list Z) (ix : Z) : RX (list bool) (option (list Z * list Z)) :=
  match pat with
  | [] => mret None
  | c :: pat =>
      if negb (c =? 97) && negb (c =? 114) then mret None else
      accept ← rx_opt (if c =? 97 then dm_bit_set accept ix else dm_bit_clear accept ix);
      match pat with
      | [] => rx_wild
      | s :: r =>
          let sep := if s =? 40 then 41 else if s =? 91 then 93 else if s =? 123 then 125 else s in
          ok ← rx_alloc;
          if negb ok then mret None else
          match last r with
          | None => rx_wild
          | Some x => mret (if negb (x =? sep) then None else Some (take (length r - 1) r, accept))
          end
      end
  end.

Section filter.
Context {F : Type}.

(** The first loop of [_build_matcher]: [None] when a value is no string. *)
Fixpoint count_patterns (val : list (cvalue F)) : option Z :=
  match val with
  | [] => Some 0
  | CfgString _ :: val => n ← count_patterns val; Some (n + 1)
  | _ :: _ => None
  end.

(** The second loop, which fills the array back to front: [regex] is what is filled
    behind place [i]. *)
Fixpoint extract_patterns (val : list (cvalue F)) (i : Z) (accept : list Z) (regex : list (list Z)) : RX (list bool) (option (list (list Z) * list Z)) :=
  match val with
  | CfgString s :: val =>
      r ← extract_pattern s accept i;
      match r with
      | None => mret None
      | Some (r, accept) => extract_patterns val (i - 1) accept (r :: regex)
      end
  | _ => mret (Some (regex, accept))
  end.

(** [_build_matcher] *)
Definition build_matcher (val : list (cvalue F)) : RX (list bool) (option rfilter) :=
  ok ← rx_alloc;
  if negb ok then mret None else
  match count_patterns val with
  | None => mret None
  | Some count =>
      ok ← rx_alloc;
      if negb ok then mret None else
      ok ← rx_alloc;
      if negb ok then mret None else
      r ← extract_patterns val (count - 1) (dm_bitset_create count) [];
      match r with
      | None => mret None
      | Some (regex, accept) => e ← dm_regex_create regex; mret (RFilter accept <$> e)
      end
  end.

(** [regex_filter_create] *)
Definition regex_filter_create (patterns : list (cvalue F)) : RX (list bool) (option rfilter) :=
  ok1 ← rx_alloc;
  if negb ok1 then mret None else
  ok2 ← rx_alloc;
  if negb ok2 then mret None else
  rf ← build_matcher patterns;
  match rf with
  | None => mret None
  | Some rf => ok ← rx_alloc; mret (if ok : bool then Some rf else None)
  end.

End filter.

(** [dev_set_preferred_name] for the name behind [seen]; [fixed]: the configuration
    has an order of its own. *)
Definition dev_set_preferred_name (fixed : bool) (dev : fdev) (seen : list (list Z)) (name : list Z) (rest : list (list Z)) : fdev :=
  if fixed then dev else FDev (name :: seen ++ rest) (fd_dev dev) (fd_flags dev).

(** The loop of [_accept_p] over the names of [dev] behind [seen]. *)
Fixpoint accept_loop (fixed : bool) (dev : fdev) (seen todo : list (list Z)) (rejected : bool) : RX rfilter (bool * fdev) :=
  match todo with
  | [] => mret (negb rejected, dev)
  | name :: todo =>
      m ← on_part rf_engine set_engine (dm_regex_match name);
      if 0 <=? m then
        rf ← rx_get;
        b ← rx_opt (dm_bit (rf_accept rf) m);
        if b : bool then mret (true, match seen with [] => dev | _ => dev_set_preferred_name fixed dev seen name todo end)
        else accept_loop fixed dev (seen ++ [name]) todo true
      else accept_loop fixed dev (seen ++ [name]) todo rejected
  end.

(** [_accept_p] *)
Definition accept_p (fixed : bool) : passes_filter rfilter := fun dev => accept_loop fixed dev [] (fd_aliases dev) false.

(** ** The composite filter *)

(** [_and_p] *)
Fixpoint and_p {S} (filters : list (passes_filter S)) : passes_filter S := fun dev =>
  match filters with
  | [] => mret (true, dev)
  | f :: filters =>
      r ← f dev;
      if negb r.1 then mret (false, r.2) else and_p filters r.2
  end.

(** [composite_filter_create] of [n] filters. *)
Definition composite_filter_create {S} (n : nat) (filters : option (list (passes_filter S))) : RX (list bool) (option (passes_filter S)) :=
  match filters with
  | None => mret None
  | Some filters =>
      ok1 ← rx_alloc;
      if negb ok1 then mret None else
      filters_copy ← rx_opt (if (n <=? length filters)%nat then Some (take n filters) else None);
      ok2 ← rx_alloc;
      mret (if ok2 : bool then Some (and_p filters_copy) else None)
  end.

(** ** The persistent filter *)

(** The two states a name can have in the table: [PF_BAD_DEVICE], [PF_GOOD_DEVICE]. *)
Inductive pf_state := PF_BAD_DEVICE | PF_GOOD_DEVICE.

#[export] Instance pf_state_eq_dec : EqDecision pf_state.
Proof. solve_decision. Defined.

(** [struct pfilter], with the state of the filter behind it and of the allocator. *)
Record pfilter (S : Type) := PFilter { pf_devices : table pf_state; pf_real : S; pf_mem : list bool }.
Arguments PFilter {S}.
Arguments pf_devices {S}.
Arguments pf_real {S}.
Arguments pf_mem {S}.

Section persistent.
Context {S : Type}.

Definition set_devices (t : table pf_state) (pf : pfilter S) : pfilter S := PFilter t (pf_real pf) (pf_mem pf).
Definition set_real (s : S) (pf : pfilter S) : pfilter S := PFilter (pf_devices pf) s (pf_mem pf).
Definition set_pf_mem (mem : list bool) (pf : pfilter S) : pfilter S := PFilter (pf_devices pf) (pf_real pf) mem.

(** [dm_hash_insert] into the table of a filter; a new name needs memory. *)
Definition pf_insert (name : list Z) (l : pf_state) : RX (pfilter S) bool :=
  pf ← rx_get;
  old ← rx_opt (dm_hash_lookup (pf_devices pf) name);
  ok ← (if old is None then on_part pf_mem set_pf_mem rx_alloc else mret true);
  r ← rx_opt (dm_hash_insert ok (pf_devices pf) name l);
  rx_upd (set_devices r.2);;
  mret r.1.

(** The loops over the names of a device. *)
Fixpoint insert_aliases (names : list (list Z)) (l : pf_state) : RX (pfilter S) bool :=
  match names with
  | [] => mret true
  | name :: names => ok ← pf_insert name l; if negb ok then mret false else insert_aliases names l
  end.

(** [persistent_filter_create] and [_init_hash]: an empty table. *)
Definition persistent_filter_create (real : S) : RX (list bool) (option (pfilter S)) :=
  ok1 ← rx_alloc;
  if negb ok1 then mret None else
  ok2 ← rx_alloc;
  if negb ok2 then mret None else
  ok3 ← rx_alloc;
  ok4 ← (if ok3 : bool then rx_alloc else mret false);
  t ← rx_opt (dm_hash_create ok3 ok4 128);
  match t with
  | None => mret None
  | Some t =>
      ok5 ← rx_alloc;
      mem ← rx_get;
      mret (if ok5 : bool then Some (PFilter t real mem) else None)
  end.

(** [persistent_filter_wipe], without the scan of devices that follows. *)
Definition persistent_filter_wipe : RX (pfilter S) unit := rx_upd (fun pf => set_devices (dm_hash_wipe (pf_devices pf)) pf).

(** [_lookup_p]; [real] is the filter behind it, [dm_major] the major number of
    device-mapper devices and [usable] the answer of [device_is_usable]. *)
Definition lookup_p (dm_major : Z) (usable : fdev -> bool) (real : passes_filter S) : passes_filter (pfilter S) := fun dev =>
  pf ← rx_get;
  name ← rx_opt (head (fd_aliases dev));
  l ← rx_opt (dm_hash_lookup (pf_devices pf) name);
  if bool_decide (l = Some PF_BAD_DEVICE) then mret (false, dev) else
  if MAJOR (fd_dev dev) =? dm_major then
    ok ← (if l is None then insert_aliases (fd_aliases dev) PF_GOOD_DEVICE else mret true);
    if negb ok then mret (false, dev) else
    if negb (usable dev) then mret (false, dev) else
    on_part pf_real set_real (real dev)
  else
    match l with
    | None =>
        r ← on_part pf_real set_real (real dev);
        ok ← insert_aliases (fd_aliases r.2) (if r.1 : bool then PF_GOOD_DEVICE else PF_BAD_DEVICE);
        mret (if negb ok then false else r.1, r.2)
    | Some _ => mret (true, dev)
    end.

End persistent.

(** ** Walking over the devices *)

Definition DEV_REGULAR : Z := 0x2.

(** [dev_iter_get]: the devices passed over, and the next one with those behind it. *)
Fixpoint dev_iter_get {S} (filter : option (passes_filter S)) (current : list fdev) : RX S (list fdev * option (fdev * list fdev)) :=
  match current with
  | [] => mret ([], None)
  | d :: current =>
      match filter with
      | None => mret ([], Some (d, current))
      | Some f =>
          if negb (Z.land (fd_flags d) DEV_REGULAR =? 0) then mret ([], Some (d, current)) else
          r ← f d;
          if r.1 : bool then mret ([], Some (r.2, current)) else
          rest ← dev_iter_get filter current;
          mret (r.2 :: rest.1, rest.2)
      end
  end.

(** The loop its callers have around it, from [dev_iter_create] to the end: the devices
    it gave, and all devices as the walk leaves them. *)
Fixpoint dev_walk {S} (fuel : nat) (filter : option (passes_filter S)) (current : list fdev) : RX S (list fdev * list fdev) :=
  match fuel with
  | O => rx_fuel
  | Datatypes.S fuel =>
      r ← dev_iter_get filter current;
      match r.2 with
      | None => mret ([], r.1)
      | Some (d, current) => rest ← dev_walk fuel filter current; mret (d :: rest.1, r.1 ++ d :: rest.2)
      end
  end.
