(* ===== verification/FilterProps.v ===== *)
(** * What device filters decide

    A filter promises a decision that depends on the names of a device as a set:
    this is the class [Filter].  The filters keep the promise, one with the help of
    the next. *)

From stdpp Require Import gmap.
From S2P Require Import Prelude Bitset DmString Hash Config Regex RegexLang RegexOpt RegexParse Ttree Matcher MatcherTables MatcherProps RegexThms Filter.

(** ** The promise of a filter *)

(** Names are C strings, and there is at least one. *)
Definition dev_ok (dev : fdev) : Prop := fd_aliases dev <> [] /\ Forall (Forall (fun c => 0 < c < 256)) (fd_aliases dev).

(** The same device, possibly with another preferred name. *)
Definition same_dev (d d' : fdev) : Prop := fd_aliases d ≡ₚ fd_aliases d' /\ fd_dev d = fd_dev d' /\ fd_flags d = fd_flags d'.

#[export] Instance same_dev_equivalence : Equivalence same_dev.
Proof.
  split; [by split|intros d d' (H1 & H2 & H3); by split|]. intros d1 d2 d3 (H1 & H2 & H3) (H4 & H5 & H6). split; [by etransitivity|]. split; congruence.
Qed.

Lemma dev_ok_same d d' : same_dev d d' -> dev_ok d -> dev_ok d'.
Proof. intros [H _] [H1 H2]. split; [|by rewrite <- H]. intros E. rewrite E in H. symmetry in H. by apply Permutation_nil_l in H. Qed.

(** The devices [ds], whatever their preferred names are. *)
Definition among (ds : list fdev) (dev : fdev) : Prop := exists d, d ∈ ds /\ same_dev d dev.

(** Devices with names, no two of them with a name in common. *)
Definition devices (ds : list fdev) : Prop := Forall dev_ok ds /\ NoDup (concat (fd_aliases <$> ds)).

Lemma among_same ds d d' : same_dev d d' -> among ds d -> among ds d'.
Proof. intros H (d0 & Hd0 & H0). exists d0. split; [done|]. by etransitivity. Qed.

Lemma among_ok ds d : devices ds -> among ds d -> dev_ok d.
Proof. intros [H _] (d0 & Hd0 & H0). eapply dev_ok_same; [done|]. by apply (proj1 (Forall_forall _ _) H). Qed.

Lemma devices_names ds : devices ds -> forall d d' name, d ∈ ds -> d' ∈ ds -> name ∈ fd_aliases d -> name ∈ fd_aliases d' -> d = d'.
Proof.
  intros [_ H]. induction ds as [|x ds IH]; intros d d' name Hd Hd' Hn Hn'; [by apply not_elem_of_nil in Hd|].
  cbn [fmap list_fmap concat] in H. apply NoDup_app in H as (_ & Hx & H). assert (forall e, e ∈ ds -> name ∈ fd_aliases e -> name ∈ concat (fd_aliases <$> ds)) as Hin.
  { intros e He Hne. rewrite list_elem_of_In, in_concat. exists (fd_aliases e). rewrite <- !list_elem_of_In. split; [by apply list_elem_of_fmap_2|done]. }
  apply elem_of_cons in Hd as [->|Hd], Hd' as [->|Hd']; [done|exfalso; by eapply Hx, Hin|exfalso; by eapply Hx, Hin|by eapply IH].
Qed.

Lemma among_names ds d d' name : devices ds -> among ds d -> among ds d' -> name ∈ fd_aliases d -> name ∈ fd_aliases d' -> same_dev d d'.
Proof.
  intros H (e & He & Hd) (e' & He' & Hd') Hn Hn'. assert (e = e') as <-; [|by etransitivity; [symmetry|]].
  eapply devices_names; [done|done|done| |]; [by rewrite (proj1 Hd)|by rewrite (proj1 Hd')].
Qed.

(** A filter on states that satisfy [ok] answers by the decision [D] for the devices [ds]. *)
Class Filter {S} (ds : list fdev) (f : passes_filter S) (ok : S -> Prop) (D : fdev -> Prop) : Prop := {
  filter_proper :: Proper (same_dev ==> iff) D;
  filter_answers dev s : ok s -> among ds dev -> exists b dev' s', f dev s = RxRet (b, dev') s' /\ ok s' /\ same_dev dev dev' /\ (b = true <-> D dev) }.

(** ** Composition *)

Lemma all_decisions_proper {S} ds (fs : list (passes_filter S)) (ok : S -> Prop) Ds :
  Forall2 (fun f D => Filter ds f ok D) fs Ds -> Proper (same_dev ==> iff) (fun dev => Forall (fun D => D dev) Ds).
Proof.
  intros H d d' Hd. induction H as [|f D fs Ds Hf _ IH]; [done|]. destruct Hf as [Hp _]. rewrite !Forall_cons. specialize (Hp d d' Hd). cbv beta in *. tauto.
Qed.

Lemma and_p_filter {S} ds (fs : list (passes_filter S)) (ok : S -> Prop) (Ds : list (fdev -> Prop)) :
  Forall2 (fun f D => Filter ds f ok D) fs Ds -> Filter ds (and_p fs) ok (fun dev => Forall (fun D => D dev) Ds).
Proof.
  intros H. split; [by eapply all_decisions_proper|].
  induction H as [|f D fs Ds Hf Hfs IH]; intros dev s Hs Hdev; cbn [and_p].
  { exists true, dev, s. split; [done|]. split; [done|]. split; [done|]. by rewrite Forall_nil. }
  destruct (filter_answers dev s Hs Hdev) as (b & dev1 & s1 & E & Hs1 & Hd1 & Hb). rewrite (rx_exec _ _ _ _ _ E). cbn [fst snd]. destruct b; cbn [negb].
  - destruct (IH dev1 s1 Hs1 (among_same _ _ _ Hd1 Hdev)) as (b & dev2 & s2 & -> & Hs2 & Hd2 & Hb2). exists b, dev2, s2. split; [done|]. split; [done|].
    split; [by etransitivity|]. rewrite Forall_cons. pose proof (all_decisions_proper ds fs ok Ds Hfs dev dev1 Hd1) as HD. cbv beta in HD. tauto.
  - exists false, dev1, s1. split; [done|]. split; [done|]. split; [done|]. rewrite Forall_cons. split; [done|]. intros [HD _]. by apply Hb.
Qed.

(** A filter that uses a part of a state. *)
Lemma part_filter {S T} ds (f : passes_filter T) (ok : T -> Prop) D (get : S -> T) (set : T -> S -> S) (okS : S -> Prop) :
  (forall s, okS s -> ok (get s)) -> (forall s t, okS s -> ok t -> okS (set t s)) ->
  Filter ds f ok D -> Filter ds (fun dev => on_part get set (f dev)) okS D.
Proof.
  intros Hget Hset Hf. split; [apply Hf|]. intros dev s Hs Hdev. destruct (filter_answers dev (get s) (Hget s Hs) Hdev) as (b & dev' & t & E & Ht & Hd & Hb).
  exists b, dev', (set t s). unfold on_part. rewrite E. split; [done|]. split; [by apply Hset|done].
Qed.

(** ** The regular expression filter *)

(** A rule accepts or rejects names that match; the first rule that matches decides. *)
Definition rule : Type := bool * pat.

Definition decides (rules : list rule) (name : list Z) (a : bool) : Prop :=
  exists l p r, rules = l ++ (a, p) :: r /\ matches p name /\ forall x, x ∈ l -> ~ matches x.2 name.

(** A device is used when a name of it is accepted or none is rejected. *)
Definition accepted (rules : list rule) (dev : fdev) : Prop :=
  (exists name, name ∈ fd_aliases dev /\ decides rules name true) \/ (forall name, name ∈ fd_aliases dev -> ~ decides rules name false).

#[export] Instance accepted_proper rules : Proper (same_dev ==> iff) (accepted rules).
Proof. intros d d' [H _]. unfold accepted. by setoid_rewrite H. Qed.

(** The engine has the patterns in the opposite order. *)
Definition rfilter_ok (rules : list rule) (rf : rfilter) : Prop :=
  matcher_for (reverse (snd <$> rules)) (rf_engine rf) /\ exists n, Z.of_nat (length rules) <= n /\ bs_wf n (rf_accept rf) /\
  forall i a p, reverse rules !! i = Some (a, p) -> bs_mem (rf_accept rf) (Z.of_nat i) = a.

Lemma decides_unique rules name a b : decides rules name a -> decides rules name b -> a = b.
Proof.
  intros (l & p & r & E & Hm & Hl) (l' & p' & r' & E' & Hm' & Hl'). subst rules.
  destruct (Nat.lt_total (length l) (length l')) as [Hlt|[Heq|Hgt]].
  - exfalso. apply (Hl' (a, p)); [|done]. apply list_elem_of_lookup. exists (length l). rewrite <- (lookup_app_l l' ((b, p') :: r')) by done. rewrite <- E'. by apply list_lookup_middle.
  - apply app_inj_1 in E' as [_ E']; [|done]. by injection E' as ->.
  - exfalso. apply (Hl (b, p')); [|done]. apply list_elem_of_lookup. exists (length l'). rewrite <- (lookup_app_l l ((a, p) :: r)) by done. rewrite E'. by apply list_lookup_middle.
Qed.

(** The answer of the engine, as the rules have it. *)
Lemma answer_rules rules name z : answer (reverse (snd <$> rules)) name z ->
  (z = -1 /\ forall a, ~ decides rules name a) \/ (exists i a p, z = Z.of_nat i /\ reverse rules !! i = Some (a, p) /\ decides rules name a).
Proof.
  intros [[-> Hno]|(i & p & -> & Hi & Hm & Hlast)].
  - left. split; [done|]. intros a (l & p & r & -> & Hm & _). apply (Hno p); [|done]. rewrite elem_of_reverse, list_elem_of_fmap. exists (a, p). split; [done|]. set_solver.
  - right. rewrite <- fmap_reverse in Hi, Hlast. apply list_lookup_fmap_Some_1 in Hi as ([a p'] & -> & Hi). cbn [snd] in *. exists i, a, p'. split; [done|]. split; [done|].
    pose proof (lookup_lt_Some _ _ _ Hi) as Hlt. rewrite length_reverse in Hlt. assert (rules !! (length rules - S i)%nat = Some (a, p')) as Hr.
    { rewrite reverse_lookup in Hi by done. done. }
    exists (take (length rules - S i) rules), p', (drop (S (length rules - S i)) rules). split; [symmetry; by apply take_drop_middle|]. split; [done|].
    intros x (j & Hj)%list_elem_of_lookup. apply lookup_take_Some in Hj as [Hj Hjl]. apply (Hlast (length rules - S j)%nat); [lia|].
    rewrite list_lookup_fmap, reverse_lookup by lia. replace (length rules - S (length rules - S j))%nat with j by lia. by rewrite Hj.
Qed.

(** The name that was asked for and the state behind it. *)
Lemma engine_match_ok rules rf name : rfilter_ok rules rf -> Forall (fun c => 0 < c < 256) name ->
  exists z rf', on_part rf_engine set_engine (dm_regex_match name) rf = RxRet z rf' /\ rfilter_ok rules rf' /\
    ((z = -1 /\ forall a, ~ decides rules name a) \/ (0 <= z /\ exists a, dm_bit (rf_accept rf') z = Some a /\ decides rules name a)).
Proof.
  intros (Hm & n & Hn & Hwf & Hbits) Hname. destruct (match_ok _ _ name Hm) as (z & e & E & He & Hz); [apply (Forall_impl (fun c => 0 < c < 256)); [done|]; intros c Hc; cbn in Hc; lia|].
  exists z, (set_engine e rf). unfold on_part. rewrite E. split; [done|]. split; [split; [done|by exists n]|]. apply answer_rules in Hz as [Hz|(i & a & p & -> & Hi & Hd)]; [by left|right].
  split; [lia|]. exists a. split; [|done]. apply lookup_lt_Some in Hi as Hlt. rewrite length_reverse in Hlt. cbn [set_engine rf_accept]. unfold rule in *.
  rewrite (dm_bit_spec n) by (done || (unfold bs_cap; lia)). f_equal. by eapply Hbits.
Qed.

Lemma accept_loop_ok fixed rules dev : forall todo seen rejected rf,
  rfilter_ok rules rf -> Forall (Forall (fun c => 0 < c < 256)) todo -> fd_aliases dev = seen ++ todo ->
  (forall n, n ∈ seen -> ~ decides rules n true) -> (rejected = true <-> exists n, n ∈ seen /\ decides rules n false) ->
  exists b dev' rf', accept_loop fixed dev seen todo rejected rf = RxRet (b, dev') rf' /\ rfilter_ok rules rf' /\ same_dev dev dev' /\
    (b = true <-> accepted rules dev) /\
    (fixed = false -> (exists n, n ∈ fd_aliases dev /\ decides rules n true) -> exists n, head (fd_aliases dev') = Some n /\ decides rules n true).
Proof.
  induction todo as [|name todo IH]; intros seen rejected rf Hrf Htodo Hal Hseen Hrej; cbn [accept_loop].
  { rewrite app_nil_r in Hal. exists (negb rejected), dev, rf. split; [done|]. split; [done|]. split; [done|]. split.
    - unfold accepted. rewrite Hal, negb_true_iff, <- not_true_iff_false, Hrej. split.
      + intros H. right. intros n Hn Hd. apply H. by exists n.
      + intros [(n & Hn & Hd)|H] (n' & Hn' & Hd'); [by apply (Hseen n)|by apply (H n')].
    - intros _ (n & Hn & Hd). rewrite Hal in Hn. by apply Hseen in Hn. }
  apply Forall_cons in Htodo as [Hname Htodo]. destruct (engine_match_ok rules rf name Hrf Hname) as (z & rf1 & E & Hrf1 & Hz). rewrite (rx_exec _ _ _ _ _ E).
  assert (fd_aliases dev = (seen ++ [name]) ++ todo) as Hal' by by rewrite <- app_assoc.
  destruct Hz as [[-> Hno]|(Hz & a & Ea & Hd)].
  - cbn [Z.leb Z.compare]. apply IH; [done|done|done|set_solver|]. rewrite Hrej. split; [set_solver|]. intros (n & Hn & Hd). exists n. split; [|done].
    apply elem_of_app in Hn as [Hn| ->%list_elem_of_singleton]; [done|]. by apply Hno in Hd.
  - rewrite (proj2 (Z.leb_le 0 z) Hz). change ((rx_get ≫= ?k) rf1) with (k rf1 rf1). cbv beta. rewrite Ea, rx_opt_exec. destruct a.
    + eexists true, _, rf1. split; [reflexivity|]. split; [done|]. assert (name ∈ fd_aliases dev) as Hin by (rewrite Hal; set_solver). split; [|split].
      * destruct seen as [|x seen]; [done|]. unfold dev_set_preferred_name. destruct fixed; [done|]. split; [|done]. cbn [fd_aliases]. rewrite Hal. symmetry. apply Permutation_middle.
      * split; [|done]. intros _. left. by exists name.
      * intros -> _. exists name. split; [|done]. destruct seen as [|x seen]; [by rewrite Hal|done].
    + apply IH; [done|done|done| |].
      * intros n [Hn| ->%list_elem_of_singleton]%elem_of_app; [by apply Hseen|]. intros Ht. by pose proof (decides_unique _ _ _ _ Hd Ht).
      * split; [|done]. intros _. exists name. split; [set_solver|done].
Qed.

Lemma accept_p_filter fixed rules ds : devices ds -> Filter ds (accept_p fixed) (rfilter_ok rules) (accepted rules).
Proof.
  intros Hds. split; [apply accepted_proper|]. intros dev rf Hrf Hdev. apply among_ok in Hdev as [_ Hdev]; [|done].
  destruct (accept_loop_ok fixed rules dev (fd_aliases dev) [] false rf Hrf Hdev eq_refl) as (b & dev' & rf' & E & H1 & H2 & H3 & _); [set_solver|set_solver|]. by exists b, dev', rf'.
Qed.

(** *** The filter of a list of rules *)

(** The text of a rule with a separator. *)
Definition closing (sep : Z) : Z := if sep =? 40 then 41 else if sep =? 91 then 93 else if sep =? 123 then 125 else sep.
Definition rule_text (sep : Z) (x : rule) : list Z := (if x.1 then 97 else 114) :: sep :: pat_text 3 x.2 ++ [closing sep].

Lemma extract_ok n sep (x : rule) accept ix mem : bs_wf n accept -> 0 <= ix < n -> false ∉ mem ->
  exists accept' mem', extract_pattern (rule_text sep x) accept ix mem = RxRet (Some (pat_text 3 x.2, accept')) mem' /\ false ∉ mem' /\ bs_wf n accept' /\
    forall j, 0 <= j -> bs_mem accept' j = if j =? ix then x.1 else bs_mem accept j.
Proof.
  intros Hwf Hix Hmem. unfold extract_pattern, rule_text. assert (0 <= ix < bs_cap n) as Hcap by (unfold bs_cap; lia).
  assert (exists accept', (if (if x.1 then 97 else 114) =? 97 then dm_bit_set accept ix else dm_bit_clear accept ix) = Some accept' /\ bs_wf n accept' /\
    forall j, 0 <= j -> bs_mem accept' j = if j =? ix then x.1 else bs_mem accept j) as (accept' & E & Hwf' & Hb).
  { destruct x.1; cbn [Z.eqb Pos.eqb].
    - destruct (dm_bit_set_spec n accept ix Hwf Hcap) as (a & -> & W & M). exists a. split; [done|]. split; [done|]. intros j Hj. rewrite M by done. by destruct (j =? ix).
    - destruct (dm_bit_clear_spec n accept ix Hwf Hcap) as (a & -> & W & M). exists a. split; [done|]. split; [done|]. intros j Hj. rewrite M by done. by destruct (j =? ix). }
  assert (negb ((if x.1 then 97 else 114) =? 97) && negb ((if x.1 then 97 else 114) =? 114) = false) as -> by by destruct x.1.
  rewrite E, rx_opt_exec. destruct (rx_alloc_ok mem Hmem) as [Ea Hm]. rewrite (rx_exec _ _ _ _ _ Ea). cbn [negb]. rewrite last_snoc. unfold closing at 1. rewrite Z.eqb_refl. cbn [negb].
  exists accept', (tail mem). rewrite length_app. cbn [length]. rewrite Nat.add_sub, take_app_length. done.
Qed.

Section rules.
Context {F : Type}.

Definition rule_values (rules : list (Z * rule)) : list (cvalue F) := (fun x => CfgString (rule_text x.1 x.2)) <$> rules.

Lemma count_rules rules : count_patterns (rule_values rules) = Some (Z.of_nat (length rules)).
Proof. induction rules as [|x rules IH]; [done|]. cbn [rule_values fmap list_fmap count_patterns]. fold (rule_values rules). rewrite IH. cbn. f_equal. lia. Qed.

Lemma extract_rules_ok n rules : forall i accept regex mem, bs_wf n accept -> i + 1 = Z.of_nat (length rules) -> i < n -> false ∉ mem ->
  exists accept' mem', extract_patterns (rule_values rules) i accept regex mem = RxRet (Some (reverse ((fun x => pat_text 3 x.2.2) <$> rules) ++ regex, accept')) mem' /\
    false ∉ mem' /\ bs_wf n accept' /\
    forall j, 0 <= j -> bs_mem accept' j = match rules !! Z.to_nat (i - j) with Some x => if j <=? i then x.2.1 else bs_mem accept j | None => bs_mem accept j end.
Proof.
  induction rules as [|[sep x] rules IH]; intros i accept regex mem Hwf Hi Hin Hmem; cbn [rule_values fmap list_fmap extract_patterns].
  { exists accept, mem. split; [done|]. split; [done|]. split; [done|]. done. }
  cbn [length] in Hi. destruct (extract_ok n sep x accept i mem Hwf ltac:(lia) Hmem) as (a1 & mem1 & E1 & Hm1 & W1 & M1). cbn [fst snd]. rewrite (rx_exec _ _ _ _ _ E1).
  destruct (IH (i - 1) a1 (pat_text 3 x.2 :: regex) mem1 W1 ltac:(lia) ltac:(lia) Hm1) as (a2 & mem2 & E2 & Hm2 & W2 & M2). exists a2, mem2. fold (rule_values rules). rewrite E2.
  split; [by rewrite reverse_cons, <- app_assoc|]. split; [done|]. split; [done|]. intros j Hj. rewrite M2, M1 by done.
  destruct (Z.to_nat (i - j)) as [|k] eqn:Ek; cbn [lookup list_lookup].
  - replace (Z.to_nat (i - 1 - j)) with 0%nat by lia. destruct (Z.leb_spec j i), (Z.eqb_spec j i), (Z.leb_spec j (i - 1)); try lia; by destruct (rules !! 0%nat).
  - replace (Z.to_nat (i - 1 - j)) with k by lia. destruct (rules !! k); destruct (Z.leb_spec j i), (Z.eqb_spec j i), (Z.leb_spec j (i - 1)); try lia; done.
Qed.

Lemma regex_filter_ok (rules : list (Z * rule)) mem :
  rules <> [] -> Forall (fun x => good x.2.2 = true) rules -> Z.of_nat (length rules) < 2 ^ 31 ->
  Z.of_nat (length (join_patterns (texts (reverse (snd <$> (snd <$> rules)))))) < 2 ^ 30 -> false ∉ mem ->
  exists rf mem', regex_filter_create (rule_values rules) mem = RxRet (Some rf) mem' /\ false ∉ mem' /\ rfilter_ok (snd <$> rules) rf.
Proof.
  intros Hne Hgood Hn Hlen Hmem. unfold regex_filter_create. destruct (rx_alloc_ok mem Hmem) as [E1 H1]. rewrite (rx_exec _ _ _ _ _ E1). cbn [negb].
  destruct (rx_alloc_ok _ H1) as [E2 H2]. rewrite (rx_exec _ _ _ _ _ E2). cbn [negb].
  assert (exists rf mem', build_matcher (rule_values rules) (tail (tail mem)) = RxRet (Some rf) mem' /\ false ∉ mem' /\ rfilter_ok (snd <$> rules) rf) as (rf & mem' & E & Hm' & Hrf).
  2: { rewrite (rx_exec _ _ _ _ _ E). destruct (rx_alloc_ok _ Hm') as [E3 H3]. rewrite (rx_exec _ _ _ _ _ E3). by eexists _, _. }
  unfold build_matcher. destruct (rx_alloc_ok _ H2) as [E3 H3]. rewrite (rx_exec _ _ _ _ _ E3). cbn [negb]. rewrite count_rules.
  destruct (rx_alloc_ok _ H3) as [E4 H4]. rewrite (rx_exec _ _ _ _ _ E4). cbn [negb]. destruct (rx_alloc_ok _ H4) as [E5 H5]. rewrite (rx_exec _ _ _ _ _ E5). cbn [negb].
  set (n := Z.of_nat (length rules)) in *. assert (bs_wf n (dm_bitset_create n)) as Hwf by (apply bs_create_wf; lia).
  destruct (extract_rules_ok n rules (n - 1) _ [] _ Hwf ltac:(lia) ltac:(lia) H5) as (accept & mem6 & E6 & H6 & W & M). rewrite (rx_exec _ _ _ _ _ E6). rewrite app_nil_r.
  assert (reverse ((fun x : Z * rule => pat_text 3 x.2.2) <$> rules) = texts (reverse (snd <$> (snd <$> rules)))) as Et.
  { unfold texts. rewrite <- !fmap_reverse, <- !list_fmap_compose. done. }
  unfold rule in Et. rewrite Et. clear Et. destruct (reverse (snd <$> (snd <$> rules))) as [|p ps] eqn:Er.
  { apply (f_equal length) in Er. rewrite length_reverse, !length_fmap in Er. cbn in Er. by destruct rules. }
  assert (Forall (fun p => good p = true) (p :: ps)) as Hps.
  { rewrite <- Er. apply Forall_reverse, Forall_fmap, Forall_fmap. apply (Forall_impl (fun x => good x.2.2 = true)); [done|]. by intros []. }
  destruct (create_ok p ps mem6 Hps Hlen H6) as (m & mem7 & E7 & H7 & Hm). rewrite (rx_exec _ _ _ _ _ E7).
  exists (RFilter accept m), mem7. split; [done|]. split; [done|]. split; [cbn [rf_engine]; unfold rule in *; by rewrite Er|]. exists n. rewrite length_fmap. split; [done|]. split; [done|].
  intros i a q Hi. cbn [rf_accept]. rewrite M by lia. apply lookup_lt_Some in Hi as Hlt. rewrite length_reverse, length_fmap in Hlt.
  rewrite reverse_lookup, length_fmap, list_lookup_fmap in Hi by (by rewrite length_fmap).
  replace (Z.to_nat (n - 1 - Z.of_nat i)) with (length rules - S i)%nat by lia.
  destruct (rules !! (length rules - S i)%nat) as [x|]; [|done]. rewrite (proj2 (Z.leb_le _ _)) by lia. destruct x as [sep [a' q']]. cbn in Hi. by injection Hi as -> ->.
Qed.

End rules.
(** ** The persistent filter *)

Section persistent.
Context {S : Type} (ds : list fdev) (dm_major : Z) (usable : fdev -> bool) (real : passes_filter S) (ok : S -> Prop) (D : fdev -> Prop).
Context (Hds : devices ds) (Husable : Proper (same_dev ==> eq) usable) (Hreal : Filter ds real ok D).

(** The table has for a name what was decided for its device; device-mapper devices
    are good in it and asked about again. *)
Definition is_dm (dev : fdev) : Prop := MAJOR (fd_dev dev) = dm_major.

Definition pf_ok (pf : pfilter S) : Prop :=
  inv (pf_devices pf) /\ ok (pf_real pf) /\ false ∉ pf_mem pf /\
  forall dev name v, among ds dev -> name ∈ fd_aliases dev -> map_of (pf_devices pf) !! (name ++ [0]) = Some v -> (v = PF_GOOD_DEVICE <-> is_dm dev \/ D dev).

(** What the filter decides. *)
Definition remembered (dev : fdev) : Prop := D dev /\ (is_dm dev -> usable dev = true).

#[local] Instance remembered_proper : Proper (same_dev ==> iff) remembered.
Proof. intros d d' H. unfold remembered, is_dm. pose proof (filter_proper d d' H) as HD. rewrite (Husable d d' H). destruct H as (_ & -> & _). by rewrite HD. Qed.

Lemma pf_insert_ok (pf : pfilter S) name l : inv (pf_devices pf) -> false ∉ pf_mem pf ->
  exists pf', pf_insert name l pf = RxRet true pf' /\ inv (pf_devices pf') /\ false ∉ pf_mem pf' /\ pf_real pf' = pf_real pf /\
    map_of (pf_devices pf') = <[name ++ [0] := l]> (map_of (pf_devices pf)).
Proof.
  intros Hi Hm. unfold pf_insert. change ((rx_get ≫= ?k) pf) with (k pf pf). cbv beta. unfold dm_hash_lookup, dm_hash_insert. rewrite (lookup_spec _ _ Hi), rx_opt_exec.
  destruct (insert_spec _ (name ++ [0]) l Hi) as (t & E & Ht & Hmap).
  destruct (map_of (pf_devices pf) !! (name ++ [0])).
  - rewrite (rx_exec (mret true) _ pf true pf) by done. rewrite E, rx_opt_exec. by eexists.
  - destruct (rx_alloc_ok _ Hm) as [Ea Hm']. rewrite (rx_exec (on_part pf_mem set_pf_mem rx_alloc) _ pf true (set_pf_mem (tail (pf_mem pf)) pf)) by (unfold on_part; by rewrite Ea).
    rewrite E, rx_opt_exec. by eexists.
Qed.

Lemma insert_aliases_ok l : forall names (pf : pfilter S), inv (pf_devices pf) -> false ∉ pf_mem pf ->
  exists pf', insert_aliases names l pf = RxRet true pf' /\ inv (pf_devices pf') /\ false ∉ pf_mem pf' /\ pf_real pf' = pf_real pf /\
    forall name v, map_of (pf_devices pf') !! (name ++ [0]) = Some v -> (name ∈ names /\ v = l) \/ (name ∉ names /\ map_of (pf_devices pf) !! (name ++ [0]) = Some v).
Proof.
  induction names as [|name names IH]; intros pf Hi Hm; cbn [insert_aliases].
  { exists pf. do 4 (split; [done|]). intros name v H. right. split; [apply not_elem_of_nil|done]. }
  destruct (pf_insert_ok pf name l Hi Hm) as (pf1 & E1 & Hi1 & Hm1 & Hr1 & Hmap1). rewrite (rx_exec _ _ _ _ _ E1). cbn [negb].
  destruct (IH pf1 Hi1 Hm1) as (pf2 & E2 & Hi2 & Hm2 & Hr2 & H2). exists pf2. do 3 (split; [done|]). split; [congruence|].
  intros n v Hv. rewrite elem_of_cons. apply H2 in Hv as [[Hn ->]|[Hn Hv]]; [tauto|]. rewrite Hmap1 in Hv.
  apply lookup_insert_Some in Hv as [[Hk <-]|[Hk Hv]].
  - apply app_inj_2 in Hk as [-> _]; [|done]. by left; split; [left|].
  - right. split; [|done]. intros [->|]; [by apply Hk|done].
Qed.

(** A device whose names are put into the table with what holds for it. *)
Lemma remember_ok (pf : pfilter S) dev l : pf_ok pf -> among ds dev -> (l = PF_GOOD_DEVICE <-> is_dm dev \/ D dev) ->
  exists pf', insert_aliases (fd_aliases dev) l pf = RxRet true pf' /\ pf_ok pf'.
Proof.
  intros (Hi & Hok & Hm & Hpf) Hdev Hl. destruct (insert_aliases_ok l (fd_aliases dev) pf Hi Hm) as (pf' & E & Hi' & Hm' & Hr & H). exists pf'. split; [done|].
  split; [done|]. rewrite Hr. split; [done|]. split; [done|]. intros d name v Hd Hn Hv. apply H in Hv as [[Hn' ->]|[_ Hv]]; [|by eapply Hpf].
  pose proof (among_names ds d dev name Hds Hd Hdev Hn Hn') as Hsame. unfold is_dm in *. rewrite Hl, (filter_proper d dev Hsame). by destruct Hsame as (_ & -> & _).
Qed.

(** Asking the filter behind. *)
Lemma ask_ok (pf : pfilter S) dev : pf_ok pf -> among ds dev ->
  exists b dev' pf', on_part pf_real set_real (real dev) pf = RxRet (b, dev') pf' /\ pf_ok pf' /\ same_dev dev dev' /\ (b = true <-> D dev).
Proof.
  intros (Hi & Hok & Hm & Hpf) Hdev. destruct (filter_answers dev _ Hok Hdev) as (b & dev' & s & E & Hs & Hd & Hb). exists b, dev', (set_real s pf). unfold on_part. rewrite E. done.
Qed.

Lemma lookup_p_filter : Filter ds (lookup_p dm_major usable real) pf_ok remembered.
Proof.
  split; [apply remembered_proper|]. intros dev pf Hpf Hdev. unfold lookup_p. change ((rx_get ≫= ?k) pf) with (k pf pf). cbv beta.
  destruct (among_ok ds dev Hds Hdev) as [Hne _]. destruct (fd_aliases dev) as [|name names] eqn:Hal; [done|]. cbn [head]. rewrite rx_opt_exec.
  unfold dm_hash_lookup. rewrite (lookup_spec _ _ (proj1 Hpf)), rx_opt_exec. rewrite <- Hal. pose proof Hpf as (_ & _ & _ & Hmap). specialize (Hmap dev name).
  rewrite Hal in Hmap. specialize (fun v => Hmap v Hdev ltac:(set_solver)). unfold remembered. fold (is_dm dev). case_bool_decide as Hbad.
  { exists false, dev, pf. do 3 (split; [done|]). split; [done|]. intros [HD _]. discriminate (proj2 (Hmap _ Hbad) (or_intror HD)). }
  destruct (Z.eqb_spec (MAJOR (fd_dev dev)) dm_major) as [Hdm|Hdm]; fold (is_dm dev) in Hdm.
  - assert (exists pf', (if map_of (pf_devices pf) !! (name ++ [0]) is None then insert_aliases (fd_aliases dev) PF_GOOD_DEVICE else mret true) pf = RxRet true pf' /\ pf_ok pf') as (pf1 & E1 & H1).
    { destruct (map_of (pf_devices pf) !! (name ++ [0])); [by exists pf|]. apply remember_ok; [done|done|]. split; [by left|done]. }
    rewrite (rx_exec _ _ _ _ _ E1). cbn [negb]. destruct (usable dev); cbn [negb].
    + destruct (ask_ok pf1 dev H1 Hdev) as (b & dev' & pf' & E & H2 & Hd & Hb). exists b, dev', pf'. do 3 (split; [done|]). rewrite Hb. tauto.
    + exists false, dev, pf1. do 3 (split; [done|]). split; [done|]. intros [_ H]. by apply H.
  - destruct (map_of (pf_devices pf) !! (name ++ [0])) as [v|] eqn:Ev.
    + exists true, dev, pf. do 3 (split; [done|]). split; [|done]. intros _. destruct (Hmap v eq_refl) as [Hg _]. destruct v; [by destruct Hbad|]. destruct (Hg eq_refl); tauto.
    + destruct (ask_ok pf dev Hpf Hdev) as (b & dev' & pf1 & E & H1 & Hd & Hb). rewrite (rx_exec _ _ _ _ _ E). cbn [fst snd].
      assert (is_dm dev' <-> is_dm dev) as Hdm' by (unfold is_dm; by destruct Hd as (_ & -> & _)).
      destruct (remember_ok pf1 dev' (if b then PF_GOOD_DEVICE else PF_BAD_DEVICE) H1 (among_same _ _ _ Hd Hdev)) as (pf2 & E2 & H2).
      { rewrite Hdm', <- (filter_proper dev dev' Hd), <- Hb. destruct b; split; try done; [by right|by intros [?|?]]. }
      rewrite (rx_exec _ _ _ _ _ E2). exists b, dev', pf2. do 3 (split; [done|]). rewrite Hb. tauto.
Qed.

Lemma persistent_create_ok s mem : ok s -> false ∉ mem -> exists pf mem', persistent_filter_create s mem = RxRet (Some pf) mem' /\ pf_ok pf.
Proof.
  intros Hs Hmem. unfold persistent_filter_create. destruct (rx_alloc_ok _ Hmem) as [E1 H1]. rewrite (rx_exec _ _ _ _ _ E1). cbn [negb].
  destruct (rx_alloc_ok _ H1) as [E2 H2]. rewrite (rx_exec _ _ _ _ _ E2). cbn [negb]. destruct (rx_alloc_ok _ H2) as [E3 H3]. rewrite (rx_exec _ _ _ _ _ E3). destruct (rx_alloc_ok _ H3) as [E4 H4]. rewrite (rx_exec _ _ _ _ _ E4).
  destruct (create_spec (V := pf_state) 128 ltac:(lia)) as (t & Et & Hi & Hm & _). rewrite Et, rx_opt_exec. destruct (rx_alloc_ok _ H4) as [E5 H5]. rewrite (rx_exec _ _ _ _ _ E5).
  eexists _, _. split; [reflexivity|]. split; [done|]. split; [done|]. split; [done|]. cbn [pf_devices]. rewrite Hm. intros ???? _ Hv. by rewrite lookup_empty in Hv.
Qed.

Lemma persistent_wipe_ok pf : pf_ok pf -> exists pf', persistent_filter_wipe pf = RxRet tt pf' /\ pf_ok pf' /\ map_of (pf_devices pf') = ∅.
Proof.
  intros (Hi & Hs & Hm & _). destruct (wipe_spec _ Hi) as [Hi' Hm']. eexists. split; [reflexivity|]. split; [|done]. split; [done|]. split; [done|]. split; [done|].
  cbn [pf_devices set_devices]. rewrite Hm'. intros ???? _ Hv. by rewrite lookup_empty in Hv.
Qed.

End persistent.

(** ** Walking over the devices *)

(** A walk gives the devices that pass, in their order; [all] is every device as the
    walk leaves it. *)
Definition passes (D : fdev -> Prop) (d : fdev) : Prop := Z.land (fd_flags d) DEV_REGULAR <> 0 \/ D d.

Inductive walked (D : fdev -> Prop) : list fdev -> list fdev -> list fdev -> Prop :=
  | walked_nil : walked D [] [] []
  | walked_given d d' current given all : passes D d -> same_dev d d' -> walked D current given all -> walked D (d :: current) (d' :: given) (d' :: all)
  | walked_skipped d d' current given all : ~ passes D d -> same_dev d d' -> walked D current given all -> walked D (d :: current) given (d' :: all).

Section walk.
Context {S : Type} (ds : list fdev) (f : passes_filter S) (ok : S -> Prop) (D : fdev -> Prop) (Hf : Filter ds f ok D).

Lemma dev_iter_get_ok : forall current s, ok s -> Forall (among ds) current ->
  exists skipped r s', dev_iter_get (Some f) current s = RxRet (skipped, r) s' /\ ok s' /\
    match r with
    | None => walked D current [] skipped
    | Some (d, rest) => (length rest < length current)%nat /\ Forall (among ds) rest /\ forall given all, walked D rest given all -> walked D current (d :: given) (skipped ++ d :: all)
    end.
Proof.
  induction current as [|d current IH]; intros s Hs Hc; cbn [dev_iter_get].
  { exists [], None, s. split; [done|]. split; [done|]. constructor. }
  apply Forall_cons in Hc as [Hd Hc]. assert (forall d', same_dev d d' -> passes D d -> (length current < length (d :: current))%nat /\ Forall (among ds) current /\
    forall given all, walked D current given all -> walked D (d :: current) (d' :: given) ([] ++ d' :: all)) as Hgive.
  { intros d' Hsame Hp. cbn [length app]. split; [lia|]. split; [done|]. intros given all Hw. by constructor. }
  destruct (Z.eqb_spec (Z.land (fd_flags d) DEV_REGULAR) 0) as [Hreg|Hreg]; cbn [negb].
  2: { exists [], (Some (d, current)), s. split; [done|]. split; [done|]. apply Hgive; [done|by left]. }
  destruct (filter_answers d s Hs Hd) as (b & d' & s1 & E & Hs1 & Hsame & Hb). rewrite (rx_exec _ _ _ _ _ E). cbn [fst snd]. destruct b.
  { exists [], (Some (d', current)), s1. split; [done|]. split; [done|]. apply Hgive; [done|]. right. by apply Hb. }
  assert (~ passes D d) as Hno. { intros [H|H]; [done|]. by apply Hb in H. }
  destruct (IH s1 Hs1 Hc) as (skipped & r & s2 & E2 & Hs2 & Hr). rewrite (rx_exec _ _ _ _ _ E2). exists (d' :: skipped), r, s2. split; [done|]. split; [done|].
  destruct r as [[d2 rest]|]; [|by constructor]. destruct Hr as (Hl & Hrest & Hw). cbn [length]. split; [lia|]. split; [done|]. intros given all H. constructor; [done|done|]. by apply Hw.
Qed.

Lemma dev_walk_ok : forall fuel current s, (length current < fuel)%nat -> ok s -> Forall (among ds) current ->
  exists given all s', dev_walk fuel (Some f) current s = RxRet (given, all) s' /\ ok s' /\ walked D current given all.
Proof.
  induction fuel as [|fuel IH]; intros current s Hl Hs Hc; [lia|]. cbn [dev_walk].
  destruct (dev_iter_get_ok current s Hs Hc) as (skipped & r & s1 & E & Hs1 & Hr). rewrite (rx_exec _ _ _ _ _ E). cbn [fst snd]. destruct r as [[d rest]|].
  - destruct Hr as (Hl' & Hrest & Hw). destruct (IH rest s1 ltac:(lia) Hs1 Hrest) as (given & all & s2 & E2 & Hs2 & Hw2). rewrite (rx_exec _ _ _ _ _ E2).
    exists (d :: given), (skipped ++ d :: all), s2. split; [done|]. split; [done|]. by apply Hw.
  - by exists [], skipped, s1.
Qed.

End walk.

(** A walk changes preferred names only, so that another walk gives the same devices. *)
Lemma walked_all D current given all : walked D current given all -> Forall2 same_dev current all.
Proof. induction 1; by constructor. Qed.

Lemma walked_again D current given all given2 all2 : Proper (same_dev ==> iff) D -> walked D current given all -> walked D all given2 all2 -> Forall2 same_dev given given2.
Proof.
  intros HD H. revert given2 all2. assert (forall d d', same_dev d d' -> passes D d <-> passes D d') as Hp.
  { intros d d' Hs. unfold passes. rewrite (HD d d' Hs). by destruct Hs as (_ & _ & ->). }
  induction H as [|d d' current given all H1 H2 H3 IH|d d' current given all H1 H2 H3 IH]; intros given2 all2 Hw; inversion Hw as [|? ? ? ? ? Hd Hs Hr|? ? ? ? ? Hd Hs Hr]; subst.
  - constructor.
  - constructor; [done|by eapply IH].
  - by destruct Hd; apply (Hp d d').
  - by destruct H1; apply (Hp d d').
  - by eapply IH.
Qed.
