(* ===== verification/FilterDevs.v ===== *)
(** * Filters that go by the system (lib/filters/filter-sysfs.c, filter.c), and the chain

    The sysfs filter knows the block devices of the kernel, the type filter the major
    numbers of /proc/devices.  The directories and files that they read are arguments.
    The chain of all filters is put together as lib/commands/toolcontext.c does. *)

From S2P Require Import Prelude Bitset DmString Hash Config Regex RegexOpt Ttree Matcher Filter.

(** ** What is used of the C library *)

(** The device numbers of glibc. *)
Definition gnu_major (dev : Z) : Z := wrap32 (Z.lor (Z.land (Z.shiftr dev 8) 0xfff) (Z.land (Z.shiftr dev 32) (Z.lnot 0xfff))).
Definition gnu_minor (dev : Z) : Z := wrap32 (Z.lor (Z.land dev 0xff) (Z.land (Z.shiftr dev 12) (Z.lnot 0xff))).
Definition gnu_makedev (major minor : Z) : Z :=
  Z.lor (Z.lor (Z.shiftl (Z.land major 0xfff) 8) (Z.shiftl (Z.land major (Z.lnot 0xfff)) 32))
        (Z.lor (Z.land minor 0xff) (Z.shiftl (Z.land minor (Z.lnot 0xff)) 12)).

(** A line of at most [n] characters, with its newline, and what follows. *)
Fixpoint line_of (n : nat) (s : list Z) : list Z * list Z :=
  match n, s with
  | S n, c :: s => if c =? 10 then ([10], s) else let '(l, r) := line_of n s in (c :: l, r)
  | _, _ => ([], s)
  end.

(** [fgets] into a buffer of [size] bytes: [None] at the end of the file. *)
Definition fgets (size : nat) (s : list Z) : option (list Z * list Z) := match s with [] => None | _ => Some (line_of (size - 1) s) end.

Fixpoint skip (p : Z -> bool) (s : list Z) : list Z :=
  match s with c :: s' => if p c then skip p s' else s | [] => [] end.

(** The decimal digits at the front of [s] behind the value [acc]. *)
Fixpoint decimal (acc : Z) (s : list Z) : Z * list Z :=
  match s with c :: s' => if isdigit c then decimal (acc * 10 + (c - 48)) s' else (acc, s) | [] => (acc, []) end.

Definition sign (s : list Z) : bool * list Z :=
  match s with c :: s' => if c =? 45 then (true, s') else if c =? 43 then (false, s') else (false, s) | [] => (false, []) end.

(** [atoi], which is [strtol] cut to an int. *)
Definition atoi (s : list Z) : Z :=
  let '(neg, s) := sign (skip isspace s) in
  let v := (decimal 0 s).1 in
  swrap 32 (if neg then Z.max LLONG_MIN (- v) else Z.min LLONG_MAX v).

(** The conversion [%u] of [sscanf], which is [strtoul] cut to an unsigned int. *)
Definition scan_u (s : list Z) : option (Z * list Z) :=
  let '(neg, s) := sign (skip isspace s) in
  match s with
  | c :: _ =>
      if isdigit c then
        let '(v, r) := decimal 0 s in
        let v := Z.min v (2 ^ 64 - 1) in
        Some (wrap32 (if neg : bool then - v else v), r)
      else None
  | [] => None
  end.

(** The conversion [%d] of [sscanf]. *)
Definition scan_d (s : list Z) : option (Z * list Z) :=
  let '(neg, s) := sign (skip isspace s) in
  match s with
  | c :: _ =>
      if isdigit c then
        let '(v, r) := decimal 0 s in
        Some (swrap 32 (if neg : bool then Z.max LLONG_MIN (- v) else Z.min LLONG_MAX v), r)
      else None
  | [] => None
  end.

(** ** The sysfs filter *)

(** [struct dev_set], with the allocator behind its pool. *)
Record dev_set := DevSet { dset_mem : list bool; dset_initialised : Z; dset_slots : list (list Z) }.
Definition set_dset_mem (m : list bool) (ds : dev_set) : dev_set := DevSet m (dset_initialised ds) (dset_slots ds).
Definition set_initialised (i : Z) (ds : dev_set) : dev_set := DevSet (dset_mem ds) i (dset_slots ds).
Definition set_dset_slots (l : list (list Z)) (ds : dev_set) : dev_set := DevSet (dset_mem ds) (dset_initialised ds) l.

Definition SET_BUCKETS : Z := 64.

(** [_dev_set_create], once its memory is there. *)
Definition dev_set_create (mem : list bool) : dev_set := DevSet mem 0 (replicate (Z.to_nat SET_BUCKETS) []).

(** [_hash_dev] *)
Definition hash_dev (dev : Z) : Z := Z.land (Z.lxor (gnu_major dev) (gnu_minor dev)) (SET_BUCKETS - 1).

(** [_set_insert] *)
Definition set_insert (dev : Z) : RX dev_set bool :=
  ok ← on_part dset_mem set_dset_mem rx_alloc;
  if negb ok then mret false else
  ds ← rx_get;
  e ← rx_opt (zlookup (dset_slots ds) (hash_dev dev));
  slots ← rx_opt (zupdate (dset_slots ds) (hash_dev dev) (dev :: e));
  rx_upd (set_dset_slots slots);;
  mret true.

(** [_set_lookup] *)
Definition set_lookup (ds : dev_set) (dev : Z) : option bool :=
  e ← zlookup (dset_slots ds) (hash_dev dev); Some (existsb (Z.eqb dev) e).

(** [_parse_dev]: the number in the text of a file. *)
Definition parse_dev (text : list Z) : option Z :=
  '(buffer, _) ← fgets 64 text;
  '(major, s) ← scan_u buffer;
  match s with
  | c :: s => if c =? 58 then '(minor, _) ← scan_u s; Some (gnu_makedev major minor) else None
  | [] => None
  end.

(** An entry of a directory: its name, its file "dev" when there is one, with the text
    when it can be opened, and its own entries when it is a directory that can be read. *)
Inductive sysnode := SysNode (name : list Z) (dev : option (option (list Z))) (sub : option (list sysnode)).

(** The paths that are built for an entry fit their buffers. *)
Definition fits (dir name : list Z) : bool := (length dir + 1 + length name + 4 <? 4096)%nat.
Definition is_dots (name : list Z) : bool := bool_decide (name = [46]) || bool_decide (name = [46; 46]).

(** The loop of [_read_devs] over the entries of the directory [dir]; [below] reads the
    directory of an entry with a number. *)
Fixpoint read_entries (below : option (list sysnode) -> list Z -> RX dev_set bool) (entries : list sysnode) (dir : list Z) : RX dev_set bool :=
  match entries with
  | [] => mret true
  | SysNode name dev sub :: entries =>
      if is_dots name || negb (fits dir name) then read_entries below entries dir else
      match dev with
      | None => read_entries below entries dir
      | Some file =>
          below sub (dir ++ 47 :: name);;
          (match file ≫= parse_dev with None => mret true | Some d => set_insert d end);;
          read_entries below entries dir
      end
  end.

(** [_read_devs] *)
Fixpoint read_devs (sysfs_depth : nat) (dr : option (list sysnode)) (dir : list Z) : RX dev_set bool :=
  match dr with
  | None => mret false
  | Some entries => read_entries (match sysfs_depth with O => fun _ _ => mret true | S depth => read_devs depth end) entries dir
  end.

(** [_init_devs] *)
Definition init_devs (sysfs_depth : nat) (dr : option (list sysnode)) (dir : list Z) : RX dev_set bool :=
  r ← read_devs sysfs_depth dr dir;
  rx_upd (set_initialised (if r : bool then 1 else -1));;
  mret r.

(** The part of a file system that is asked for: whether a path exists, and the entries
    of a directory. *)
Record sysfs := Sysfs { sys_stat : list Z -> bool; sys_dir : list Z -> option (list sysnode) }.

(** [_locate_sysfs_blocks]: the directory of the block devices and its depth. *)
Definition locate_sysfs_blocks (fs : sysfs) (sysfs_dir : list Z) : option (list Z * nat) :=
  let found (sub : list Z) := let path := sysfs_dir ++ 47 :: sub in (length path <? 4096)%nat && sys_stat fs path in
  if found (bytes "subsystem/block/devices") then Some (sysfs_dir ++ 47 :: bytes "subsystem/block/devices", 0%nat) else
  if found (bytes "class/block") then Some (sysfs_dir ++ 47 :: bytes "class/block", 0%nat) else
  if found (bytes "block") then Some (sysfs_dir ++ 47 :: bytes "block", 1%nat) else None.

(** [_accept_p] of the sysfs filter *)
Definition sysfs_accept_p (sysfs_depth : nat) (dr : option (list sysnode)) (dir : list Z) : passes_filter dev_set := fun dev =>
  ds ← rx_get;
  (if dset_initialised ds =? 0 then init_devs sysfs_depth dr dir else mret true);;
  ds ← rx_get;
  if negb (dset_initialised ds =? 1) then mret (true, dev) else
  b ← rx_opt (set_lookup ds (fd_dev dev));
  mret (b : bool, dev).

(** ** Device types *)

Definition NUMBER_OF_MAJORS : Z := 4096.

(** [_partitions] (the number of partitions and the flags of every major number) and
    the major numbers with a variable of their own. *)
Record types := Types { ty_partitions : list (Z * Z); ty_md : Z; ty_blkext : Z; ty_drbd : Z; ty_device_mapper : Z; ty_emcpower : Z }.

Definition set_partitions (p : list (Z * Z)) (t : types) : types := Types p (ty_md t) (ty_blkext t) (ty_drbd t) (ty_device_mapper t) (ty_emcpower t).

(** [_device_info] *)
Definition device_info : list (list Z * Z) := [
  (bytes "ide", 64); (bytes "sd", 16); (bytes "md", 1); (bytes "mdp", 1); (bytes "loop", 1); (bytes "dasd", 4);
  (bytes "dac960", 8); (bytes "nbd", 16); (bytes "ida", 16); (bytes "cciss", 16); (bytes "ubd", 16); (bytes "ataraid", 16);
  (bytes "drbd", 16); (bytes "emcpower", 16); (bytes "power2", 16); (bytes "i2o_block", 16); (bytes "iseries/vd", 8); (bytes "gnbd", 1);
  (bytes "ramdisk", 1); (bytes "aoe", 16); (bytes "device-mapper", 1); (bytes "xvd", 16); (bytes "vdisk", 8); (bytes "ps3disk", 16);
  (bytes "virtblk", 8); (bytes "mmc", 16); (bytes "blkext", 1); (bytes "fio", 16)].

(** The loop over [_device_info] for the name at the front of [s]. *)
Definition builtin_partitions (s : list Z) : option Z := snd <$> List.find (fun x => is_prefix x.1 s) device_info.

(** The word [name] and a space at the front of [s]. *)
Definition names_it (name s : list Z) : bool := is_prefix name s && isspace (cstr_at s (length name)).

Section types.
Context {F : Type}.

(** The loop over devices/types: [None] when the list is refused, otherwise the count
    of partitions of the type that the name in [s] has, which is cut to an int. *)
Fixpoint config_partitions (cv : list (cvalue F)) (s : list Z) : option (option Z) :=
  match cv with
  | [] => Some None
  | CfgString name :: CfgInt i :: cv =>
      if i =? 0 then None else
      if is_prefix name s then Some (Some (swrap 32 i)) else config_partitions cv s
  | _ :: _ => None
  end.

(** [_partitions[major].max_partitions = n] and [flags |= f] *)
Definition store_partitions (major n : Z) (t : types) : option types :=
  e ← zlookup (ty_partitions t) major;
  p ← zupdate (ty_partitions t) major (n, e.2);
  Some (set_partitions p t).
Definition PARTITION_SCSI_DEVICE : Z := 1.
Definition store_flags (major f : Z) (t : types) : option types :=
  e ← zlookup (ty_partitions t) major;
  p ← zupdate (ty_partitions t) major (e.1, Z.lor e.2 f);
  Some (set_partitions p t).

(** The variables for single types. *)
Definition store_majors (major : Z) (s : list Z) (t : types) : types :=
  Types (ty_partitions t)
    (if names_it (bytes "md") s then major else ty_md t)
    (if names_it (bytes "blkext") s then major else ty_blkext t)
    (if names_it (bytes "drbd") s then major else ty_drbd t)
    (if names_it (bytes "device-mapper") s then major else ty_device_mapper t)
    (if names_it (bytes "emcpower") s then major else ty_emcpower t).

(** The body of the loop over a line of a block device, from its name on: [None] for
    an access out of bounds, [false] when the configuration is refused. *)
Definition scan_name (cn : option (list (cvalue F))) (major : Z) (s : list Z) (t : types) : option (types * bool) :=
  let t := store_majors major s t in
  t ← (if names_it (bytes "sd") s then store_flags major PARTITION_SCSI_DEVICE t else Some t);
  t ← (match builtin_partitions s with Some n => store_partitions major n t | None => Some t end);
  match cn with
  | None => Some (t, true)
  | Some cv =>
      match config_partitions cv s with
      | None => Some (t, false)
      | Some None => Some (t, true)
      | Some (Some n) => t ← store_partitions major n t; Some (t, true)
      end
  end.

Definition is_space_char (c : Z) : bool := c =? 32.

(** The newline of a line replaced by the end of the string. *)
Definition cut_line (s : list Z) : list Z := List.filter (fun c => negb (c =? 10)) s.

(** A line of /proc/devices: the types, whether the lines are about block devices, and
    [false] to stop. *)
Definition scan_line (cn : option (list (cvalue F))) (line : list Z) (blocksection : bool) (t : types) : option (types * bool * bool) :=
  let s := skip is_space_char line in
  let line_maj := atoi s in
  let '(line_maj, s) := if (line_maj <? 0) || (NUMBER_OF_MAJORS <=? line_maj) then (Z.land line_maj (NUMBER_OF_MAJORS - 1), cut_line s) else (line_maj, s) in
  if line_maj =? 0 then Some (t, cstr_at s 0 =? 66, true) else
  if negb blocksection then Some (t, blocksection, true) else
  let s := skip is_space_char (skip (fun c => negb (c =? 32)) s) in
  r ← scan_name cn line_maj s t;
  Some (r.1, blocksection, r.2).

(** The loop over the lines. *)
Fixpoint scan_lines (fuel : nat) (cn : option (list (cvalue F))) (text : list Z) (blocksection : bool) (t : types) : option (types * bool) :=
  match fuel with
  | O => None
  | S fuel =>
      match fgets 80 text with
      | None => Some (t, true)
      | Some (line, text) =>
          r ← scan_line cn line blocksection t;
          if negb r.2 then Some (r.1.1, false) else scan_lines fuel cn text r.1.2 r.1.1
      end
  end.

(** [_scan_proc_dev]; [devices] is the text of the file when it can be opened. *)
Definition scan_proc_dev (proc : list Z) (devices : option (list Z)) (cn : option (list (cvalue F))) (t : types) : option (types * bool) :=
  match proc with
  | [] => Some (set_partitions ((fun e => (1, e.2)) <$> ty_partitions t) t, true)
  | _ =>
      let t := set_partitions (replicate (Z.to_nat NUMBER_OF_MAJORS) (0, 0)) t in
      if negb (length proc + 8 <? 4096)%nat then Some (t, false) else
      match devices with
      | None => Some (t, false)
      | Some text => scan_lines (S (length text)) cn text false t
      end
  end.

End types.

(** [max_partitions] and [major_is_scsi_device] *)
Definition max_partitions (t : types) (major : Z) : option Z :=
  if NUMBER_OF_MAJORS <=? major then Some 0 else fst <$> zlookup (ty_partitions t) major.
Definition major_is_scsi_device (t : types) (major : Z) : option bool :=
  if NUMBER_OF_MAJORS <=? major then Some false else (fun e => negb (Z.land e.2 PARTITION_SCSI_DEVICE =? 0)) <$> zlookup (ty_partitions t) major.

(** [dev_subsystem_part_major]; [primary] is the answer of [get_primary_dev]. *)
Definition dev_subsystem_part_major (t : types) (primary : option Z) (dev : fdev) : bool :=
  let major := MAJOR (fd_dev dev) in
  (major =? ty_md t) || (major =? ty_drbd t) || (major =? ty_emcpower t) ||
  ((major =? ty_blkext t) && match primary with Some p => MAJOR p =? ty_md t | None => false end).

(** What the type filter asks the device for: whether it opens, its size, and whether it
    has a partition table. *)
Record probe := Probe { opens : fdev -> bool; size_of : fdev -> option Z; is_partitioned_dev : fdev -> bool }.

(** [_passes_lvm_type_device_filter]; [pv_min_size] is the configured limit. *)
Definition passes_lvm_type_device_filter (io : probe) (pv_min_size : Z) : passes_filter types := fun dev =>
  t ← rx_get;
  e ← rx_opt (zlookup (ty_partitions t) (MAJOR (fd_dev dev)));
  if e.1 =? 0 then mret (false, dev) else
  if negb (opens io dev) then mret (false, dev) else
  mret (match size_of io dev with
        | None => false
        | Some size => negb (size <? pv_min_size) && negb (is_partitioned_dev io dev)
        end, dev).

(** ** Components of md and multipath devices *)

(** [_ignore_md]; [dev_is_md] reads the device. *)
Definition ignore_md {S} (md_filtering : bool) (dev_is_md : fdev -> Z) : passes_filter S := fun dev =>
  if negb md_filtering then mret (true, dev) else
  let ret := dev_is_md dev in
  if ret =? 1 then mret (false, dev) else
  if ret <? 0 then mret (false, dev) else
  mret (true, dev).

(** What follows the last slash. *)
Fixpoint strrchr_slash (s : list Z) : option (list Z) :=
  match s with
  | [] => None
  | c :: s => match strrchr_slash s with Some r => Some r | None => if c =? 47 then Some s else None end
  end.

(** [get_sysfs_name] of the preferred name *)
Definition get_sysfs_name (name : list Z) : option (list Z) :=
  match strrchr_slash name with Some (c :: n) => Some (c :: n) | _ => None end.

(** The loop of [get_parent_mpath] over the entries of the directory. *)
Fixpoint get_parent_mpath (entries : list (list Z)) (name : list Z) (r : bool) : option (list Z) :=
  match entries with
  | [] => if r then Some name else None
  | d :: entries =>
      if is_dots d then get_parent_mpath entries name r else
      match name with [] => get_parent_mpath entries d true | _ => None end
  end.

(** What the multipath filter asks: the entries of a path when it exists and is a
    directory, the text of a file, and whether a device-mapper device has the prefix. *)
Record mpath_io := MpathIO { mp_dir : list Z -> option (list (list Z)); mp_file : list Z -> option (list Z); lvm_dm_prefix_check : Z -> Z -> Z }.

(** [get_sysfs_get_major_minor] *)
Definition get_sysfs_get_major_minor (io : mpath_io) (sysfs_dir kname : list Z) : option (Z * Z) :=
  let path := sysfs_dir ++ bytes "/block/" ++ kname ++ bytes "/dev" in
  if negb (length path <? 4096)%nat then None else
  text ← mp_file io path;
  '(buffer, _) ← fgets 64 text;
  '(major, s) ← scan_d buffer;
  match s with
  | c :: s => if c =? 58 then '(minor, _) ← scan_d s; Some (major, minor) else None
  | [] => None
  end.

(** [dev_is_mpath] *)
Definition dev_is_mpath (io : mpath_io) (sysfs_dir : list Z) (t : types) (dev : fdev) : option Z :=
  scsi ← major_is_scsi_device t (MAJOR (fd_dev dev));
  if negb scsi then Some 0 else
  dev_name ← head (fd_aliases dev);
  match get_sysfs_name dev_name with
  | None => Some 0
  | Some name =>
      let path := sysfs_dir ++ bytes "/block/" ++ name ++ bytes "/holders" in
      if negb (length path <? 4096)%nat then Some 0 else
      match mp_dir io path ≫= (fun entries => get_parent_mpath entries [] false) with
      | None => Some 0
      | Some parent =>
          match get_sysfs_get_major_minor io sysfs_dir parent with
          | None => Some 0
          | Some (major, minor) => Some (if negb (major =? ty_device_mapper t) then 0 else lvm_dm_prefix_check io major minor)
          end
      end
  end.

(** [_ignore_mpath] *)
Definition ignore_mpath (io : mpath_io) (sysfs_dir : list Z) : passes_filter types := fun dev =>
  t ← rx_get;
  r ← rx_opt (dev_is_mpath io sysfs_dir t dev);
  mret (negb (r =? 1), dev).

(** ** The chain of all filters *)

(** The states of the filters with one. *)
Record chain := Chain { ch_sysfs : dev_set; ch_regex : rfilter; ch_types : types }.
Definition set_sysfs (x : dev_set) (c : chain) : chain := Chain x (ch_regex c) (ch_types c).
Definition set_regex (x : rfilter) (c : chain) : chain := Chain (ch_sysfs c) x (ch_types c).
Definition set_types (x : types) (c : chain) : chain := Chain (ch_sysfs c) (ch_regex c) x.

Definition sysfs_part (depth : nat) (dr : option (list sysnode)) (dir : list Z) : passes_filter chain := fun dev => on_part ch_sysfs set_sysfs (sysfs_accept_p depth dr dir dev).
Definition regex_part (fixed : bool) : passes_filter chain := fun dev => on_part ch_regex set_regex (accept_p fixed dev).
Definition types_part (io : probe) (pv_min_size : Z) : passes_filter chain := fun dev => on_part ch_types set_types (passes_lvm_type_device_filter io pv_min_size dev).

(** [md_filter_create] and [mpath_filter_create] *)
Definition md_filter_create (dev_is_md : fdev -> Z) : RX (list bool) (option (passes_filter chain)) :=
  ok ← rx_alloc;
  mret (if ok : bool then Some (ignore_md true dev_is_md) else None).
Definition mpath_part (io : mpath_io) (sysfs_dir : list Z) : passes_filter chain := fun dev => on_part ch_types set_types (ignore_mpath io sysfs_dir dev).
Definition mpath_filter_create (io : mpath_io) (sysfs_dir : list Z) : RX (list bool) (option (passes_filter chain)) :=
  match sysfs_dir with
  | [] => mret None
  | _ =>
      ok1 ← rx_alloc;
      if negb ok1 then mret None else
      ok2 ← rx_alloc;
      mret (if ok2 : bool then Some (mpath_part io sysfs_dir) else None)
  end.

(** [sysfs_filter_create]: a new set, with answers for its own allocations, and the
    directory with its depth. *)
Definition sysfs_filter_create (fs : sysfs) (sysfs_dir : list Z) : RX (list bool) (option (dev_set * (list Z * nat))) :=
  match sysfs_dir with
  | [] => mret None
  | _ =>
      match locate_sysfs_blocks fs sysfs_dir with
      | None => mret None
      | Some where_ =>
          ok1 ← rx_alloc;
          if negb ok1 then mret None else
          ok2 ← rx_alloc;
          if negb ok2 then mret None else
          ok3 ← rx_alloc;
          if negb ok3 then mret None else
          ok4 ← rx_alloc;
          mem ← rx_get;
          mret (if ok4 : bool then Some (dev_set_create mem, where_) else None)
      end
  end.

(** What the configuration and the system say when the filters are made: whether sysfs
    is scanned, devices/filter, devices/types, and whether md and multipath components are
    to be detected. *)
Record setup {F : Type} := Setup {
  su_sysfs_scan : bool; su_fs : sysfs; su_sysfs_dir : list Z;
  su_filter : option (list (cvalue F)); su_fixed : bool;
  su_types : option (list (cvalue F)); su_proc_dir : list Z; su_devices : option (list Z); su_io : probe; su_min : Z;
  su_md : bool; su_dev_is_md : fdev -> Z; su_mpath : bool; su_mpath_io : mpath_io }.
Arguments setup F : clear implicits.

Section components.
Context {F : Type} (su : setup F).

(** [lvm_type_filter_create] *)
Definition lvm_type_filter_create (t : types) : RX (list bool) (option types) :=
  ok ← rx_alloc;
  if negb ok then mret None else
  r ← rx_opt (scan_proc_dev (su_proc_dir su) (su_devices su) (su_types su) t);
  mret (if r.2 : bool then Some r.1 else None).

(** [_init_filter_components]: [c] has the variables before, [filters] is the array. *)
Definition init_filter_components (c : chain) : RX (list bool) (option (passes_filter chain * chain)) :=
  r ← (if su_sysfs_scan su then sysfs_filter_create (su_fs su) (su_sysfs_dir su) else mret None);
  let '(filters, c) := match r with
                       | Some (ds, (dir, depth)) => ([sysfs_part depth (sys_dir (su_fs su) dir) dir], set_sysfs ds c)
                       | None => ([], c)
                       end in
  r ← (match su_filter su with
       | None => mret (Some (filters, c))
       | Some v => rf ← regex_filter_create v; mret ((fun rf => (filters ++ [regex_part (su_fixed su)], set_regex rf c)) <$> rf)
       end);
  match r with
  | None => mret None
  | Some (filters, c) =>
      t ← lvm_type_filter_create (ch_types c);
      match t with
      | None => mret None
      | Some t =>
          let c := set_types t c in
          let filters := filters ++ [types_part (su_io su) (su_min su)] in
          md ← (if su_md su then md_filter_create (su_dev_is_md su) else mret None);
          let filters := filters ++ option_list md in
          mpath ← (if su_mpath su then mpath_filter_create (su_mpath_io su) (su_sysfs_dir su) else mret None);
          let filters := filters ++ option_list mpath in
          match filters with
          | [f] => mret (Some (f, c))
          | _ => f ← composite_filter_create (length filters) (Some filters); mret ((fun f => (f, c)) <$> f)
          end
      end
  end.

(** The filters of [_init_filters]: the persistent filter in front of the others. *)
Definition init_filters (usable : fdev -> bool) (c : chain) : RX (list bool) (option (passes_filter (pfilter chain) * pfilter chain)) :=
  f3 ← init_filter_components c;
  match f3 with
  | None => mret None
  | Some (f3, c) =>
      f4 ← persistent_filter_create c;
      mret ((fun pf => (lookup_p (ty_device_mapper (ch_types c)) usable f3, pf)) <$> f4)
  end.

End components.
