(* ===== verification/FilterTypes.v ===== *)
(** * What the filters that go by the system decide

    The sysfs filter accepts the devices found under the directory of block devices, and
    the type filter goes by the major numbers that /proc/devices has. *)

From S2P Require Import Prelude Bitset DmString Hash Config ConfigProps Regex RegexLang RegexOpt RegexParse Ttree Matcher MatcherTables Filter FilterProps FilterDevs.

(** ** Device numbers *)

Lemma lor_fields a b k : 0 <= k -> 0 <= a < 2 ^ k -> Z.lor a (Z.shiftl b k) = a + b * 2 ^ k.
Proof.
  intros Hk Ha. rewrite <- Z.shiftl_mul_pow2 by done. symmetry. apply Z.add_nocarry_lor. apply Z.bits_inj'. intros i Hi. rewrite Z.land_spec, Z.bits_0, Z.shiftl_spec by done.
  destruct (Z.lt_ge_cases i k); [rewrite (Z.testbit_neg_r b) by lia; apply andb_false_r|].
  rewrite <- (Z.mod_small a (2 ^ k)), Z.mod_pow2_bits_high by lia. done.
Qed.

Lemma MAJOR_mod d : MAJOR d = (d / 256) mod 4096.
Proof. unfold MAJOR. rewrite Z.shiftr_land. change (Z.shiftr 0xfff00 8) with (Z.ones 12). rewrite Z.land_ones, Z.shiftr_div_pow2 by lia. done. Qed.

Lemma MAJOR_range d : 0 <= MAJOR d < NUMBER_OF_MAJORS.
Proof. rewrite MAJOR_mod. unfold NUMBER_OF_MAJORS. lia. Qed.

Lemma MINOR_mod d : MINOR d = d mod 256 + (d / 2 ^ 20) mod 4096 * 256.
Proof.
  unfold MINOR. change 0xff with (Z.ones 8). rewrite Z.land_ones by lia. change 0xfff00 with (Z.shiftl (Z.ones 12) 8).
  replace (Z.land (Z.shiftr d 12) (Z.shiftl (Z.ones 12) 8)) with (Z.shiftl (Z.land (Z.shiftr d 20) (Z.ones 12)) 8).
  - rewrite lor_fields, Z.land_ones, Z.shiftr_div_pow2 by lia. done.
  - apply Z.bits_inj'. intros i Hi. rewrite Z.land_spec, !Z.shiftl_spec, Z.shiftr_spec by done. destruct (Z.lt_ge_cases i 8).
    + rewrite !(Z.testbit_neg_r _ (i - 8)) by lia. by rewrite andb_false_r.
    + rewrite Z.land_spec, Z.shiftr_spec by lia. do 2 f_equal. lia.
Qed.

Lemma MKDEV_sum ma mi : 0 <= ma < 4096 -> MKDEV ma mi = mi mod 256 + ma * 256 + mi / 256 * 2 ^ 20.
Proof.
  intros Hma. unfold MKDEV. rewrite <- Z.ldiff_land. change 0xff with (Z.ones 8). rewrite Z.land_ones, Z.ldiff_ones_r, Z.shiftl_shiftl by lia.
  rewrite (lor_fields (mi mod 2 ^ 8) ma 8) by lia. change (8 + 12) with 20. rewrite lor_fields, Z.shiftr_div_pow2 by lia. done.
Qed.

(** The device numbers of the library split into a major number of 12 bits and a
    minor number of 20 bits and are put together from them, without loss in either
    direction. *)
Theorem device_numbers_round_trip d ma mi : 0 <= d < 2 ^ 32 -> 0 <= ma < 2 ^ 12 -> 0 <= mi < 2 ^ 20 ->
  MKDEV (MAJOR d) (MINOR d) = d /\ MAJOR (MKDEV ma mi) = ma /\ MINOR (MKDEV ma mi) = mi /\ 0 <= MKDEV ma mi < 2 ^ 32.
Proof.
  intros Hd Hma Hmi. rewrite (MKDEV_sum ma mi) by lia. split; [|rewrite MAJOR_mod, MINOR_mod; lia].
  rewrite MKDEV_sum by apply MAJOR_range. rewrite MAJOR_mod, MINOR_mod. lia.
Qed.

Lemma device_numbers_round_trip_witness : MKDEV (MAJOR 0x12345678) (MINOR 0x12345678) = 0x12345678 /\ MAJOR (MKDEV 253 70000) = 253 /\ MINOR (MKDEV 253 70000) = 70000.
Proof.
  destruct (device_numbers_round_trip 0x12345678 253 70000) as (H1 & H2 & H3 & _); [lia..|]. done.
Defined.

(** ** The set of device numbers *)

Definition dset_ok (s : dev_set) : Prop := length (dset_slots s) = 64%nat /\ false ∉ dset_mem s.
Definition in_set (s : dev_set) (d : Z) : Prop := exists e, zlookup (dset_slots s) (hash_dev d) = Some e /\ d ∈ e.

Lemma zlookup_inserted {A} (l : list A) i j x : 0 <= i < Z.of_nat (length l) -> 0 <= j -> zlookup (<[Z.to_nat i := x]> l) j = if i =? j then Some x else zlookup l j.
Proof.
  intros Hi Hj. rewrite !zlookup_lookup by done. destruct (Z.eqb_spec i j) as [<-|Hne]; [by rewrite list_lookup_insert_eq by lia|by rewrite list_lookup_insert_ne by lia].
Qed.

Lemma hash_dev_range d : 0 <= hash_dev d < 64.
Proof. unfold hash_dev, SET_BUCKETS. change (64 - 1) with (Z.ones 6). rewrite Z.land_ones by lia. lia. Qed.

Lemma set_lookup_ok s d : dset_ok s -> exists b, set_lookup s d = Some b /\ (b = true <-> in_set s d).
Proof.
  intros [Hl _]. pose proof (hash_dev_range d). destruct (zlookup_is_Some (dset_slots s) (hash_dev d)) as [e He]; [lia|].
  exists (existsb (Z.eqb d) e). unfold set_lookup, in_set. rewrite He. split; [done|]. rewrite existsb_exists. split.
  - intros (x & Hx & Heq). apply Z.eqb_eq in Heq as <-. exists e. split; [done|]. by apply list_elem_of_In.
  - intros (e' & [= <-] & Hin). exists d. split; [by apply list_elem_of_In|apply Z.eqb_refl].
Qed.

Lemma set_insert_ok s d : dset_ok s -> exists s', set_insert d s = RxRet true s' /\ dset_ok s' /\ dset_initialised s' = dset_initialised s /\
  forall x, in_set s' x <-> in_set s x \/ x = d.
Proof.
  intros [Hl Hm]. unfold set_insert. destruct (rx_alloc_ok _ Hm) as [Ea Hm'].
  rewrite (rx_exec (on_part dset_mem set_dset_mem rx_alloc) _ s true (set_dset_mem (tail (dset_mem s)) s)) by (unfold on_part; by rewrite Ea). cbn [negb].
  change ((rx_get ≫= ?k) ?x) with (k x x). cbn [dset_slots set_dset_mem]. pose proof (hash_dev_range d).
  destruct (zlookup_is_Some (dset_slots s) (hash_dev d)) as [e He]; [lia|]. rewrite He, rx_opt_exec.
  rewrite zupdate_Some, rx_opt_exec by lia. eexists. split; [reflexivity|]. split; [split; [cbn; by rewrite length_insert|done]|]. split; [done|]. intros x. unfold in_set. cbn [dset_slots set_dset_slots].
  pose proof (hash_dev_range x). rewrite zlookup_inserted by lia. destruct (Z.eqb_spec (hash_dev d) (hash_dev x)) as [Heq|Hne].
  - rewrite <- Heq, He. split.
    + intros (e' & [= <-] & [->|Hx]%elem_of_cons); [by right|left; by exists e].
    + intros [(e' & [= <-] & Hx)| ->]; eexists; (split; [done|]); by constructor.
  - split; [by left|]. intros [Hx|Hx]; [done|congruence].
Qed.

(** ** The devices of a directory *)

(** The entries that are looked at. *)
Definition shown (dir name : list Z) : bool := negb (is_dots name || negb (fits dir name)).

(** The devices that are found among [entries]: those with a readable number, and the
    ones of a directory with a number as far as [depth] says. *)
Inductive found : nat -> list sysnode -> list Z -> Z -> Prop :=
  | found_here depth entries dir name text sub d :
      SysNode name (Some (Some text)) sub ∈ entries -> shown dir name = true -> parse_dev text = Some d -> found depth entries dir d
  | found_below depth entries dir name file sub d :
      SysNode name (Some file) (Some sub) ∈ entries -> shown dir name = true -> found depth sub (dir ++ 47 :: name) d -> found (S depth) entries dir d.

Lemma found_nil depth dir d : ~ found depth [] dir d.
Proof. intros H. inversion H as [? ? ? ? ? ? ? Hin|? ? ? ? ? ? ? Hin]; by apply not_elem_of_nil in Hin. Qed.

(** What an entry adds. *)
Definition found_at (depth : nat) (n : sysnode) (dir : list Z) (d : Z) : Prop :=
  let '(SysNode name dev sub) := n in
  shown dir name = true /\ exists file, dev = Some file /\
    (file ≫= parse_dev = Some d \/ exists depth' sub', depth = S depth' /\ sub = Some sub' /\ found depth' sub' (dir ++ 47 :: name) d).

Lemma found_cons depth n entries dir d : found depth (n :: entries) dir d <-> found_at depth n dir d \/ found depth entries dir d.
Proof.
  split.
  - intros H. inversion H as [? ? ? name text sub ? Hin Hs Hp|depth' ? ? name file sub ? Hin Hs Hf]; subst; apply elem_of_cons in Hin as [<-|Hin].
    + left. split; [done|]. exists (Some text). split; [done|]. by left.
    + right. by eapply found_here.
    + left. split; [done|]. exists file. split; [done|]. right. by exists depth', sub.
    + right. by eapply found_below.
  - intros [H|H].
    + destruct n as [name dev sub]. destruct H as (Hs & file & -> & [Hf|(depth' & sub' & -> & -> & Hf)]).
      * destruct file as [text|]; [|done]. eapply found_here; [by left|done|done].
      * eapply found_below; [by left|done|done].
    + inversion H; subst; [eapply found_here|eapply found_below]; try done; by right.
Qed.

(** Reading a directory that can be read adds what is found in it. *)
Definition reads (k : RX dev_set bool) (r : option bool) (P : Z -> Prop) : Prop :=
  forall s, dset_ok s -> exists b s', k s = RxRet b s' /\ dset_ok s' /\ dset_initialised s' = dset_initialised s /\ (forall x, in_set s' x <-> in_set s x \/ P x) /\ (if r is Some r then b = r else True).

Lemma reads_seq k1 k2 r1 r2 P1 P2 : reads k1 r1 P1 -> reads k2 r2 P2 -> reads (k1;; k2) r2 (fun x => P1 x \/ P2 x).
Proof.
  intros H1 H2 s Hs. destruct (H1 s Hs) as (b1 & s1 & E1 & Hs1 & Hi1 & Hx1 & _). destruct (H2 s1 Hs1) as (b2 & s2 & E2 & Hs2 & Hi2 & Hx2 & Hb).
  exists b2, s2. rewrite (rx_exec _ _ _ _ _ E1). split; [done|]. split; [done|]. split; [congruence|]. split; [|done]. intros x. rewrite Hx2, Hx1. tauto.
Qed.

Lemma reads_weaken k r P Q : reads k r P -> (forall x, P x <-> Q x) -> reads k None Q /\ reads k r Q.
Proof. intros H HPQ. split; intros s Hs; destruct (H s Hs) as (b & s' & E & H1 & H2 & H3 & H4); exists b, s'; (do 3 (split; [done|])); (split; [|done]); intros x; by rewrite H3, HPQ. Qed.

Lemma reads_nothing b : reads (mret b) (Some b) (fun _ => False).
Proof. intros s Hs. exists b, s. do 3 (split; [done|]). split; [tauto|done]. Qed.

Lemma read_entries_ok depth below dir : (forall sub dir, reads (below sub dir) None (fun x => exists depth' sub', depth = S depth' /\ sub = Some sub' /\ found depth' sub' dir x)) ->
  forall entries, reads (read_entries below entries dir) (Some true) (found depth entries dir).
Proof.
  intros Hb. induction entries as [|[name dev sub] entries IH]; cbn [read_entries].
  { eapply reads_weaken; [apply reads_nothing|]. intros x. split; [done|]. apply found_nil. }
  destruct (is_dots name || negb (fits dir name)) eqn:Es.
  { eapply reads_weaken; [apply IH|]. intros x. rewrite found_cons. split; [by right|]. intros [[Hs _]|H]; [|done]. unfold shown in Hs. by rewrite Es in Hs. }
  destruct dev as [file|].
  2: { eapply reads_weaken; [apply IH|]. intros x. rewrite found_cons. split; [by right|]. by intros [(_ & file & ? & _)|H]. }
  assert (reads (match file ≫= parse_dev with None => mret true | Some d => set_insert d end) None (fun x => file ≫= parse_dev = Some x)) as Hins.
  { destruct (file ≫= parse_dev) as [d|].
    - intros s Hs. destruct (set_insert_ok s d Hs) as (s' & E & H1 & H2 & H3). exists true, s'. do 3 (split; [done|]). split; [|done]. intros x. rewrite H3. split; intros [?|H]; auto; right; congruence.
    - eapply (reads_weaken _ (Some true)); [apply reads_nothing|]. by intros x. }
  eapply reads_weaken; [apply (reads_seq _ _ _ _ _ _ (Hb sub _) (reads_seq _ _ _ _ _ _ Hins IH))|]. intros x. cbv beta. rewrite found_cons. unfold found_at, shown. rewrite Es. split.
  - intros [H|[H|H]]; [left|left|by right]; (split; [done|]); exists file; by auto.
  - intros [(_ & f & [= <-] & [H|H])|H]; auto.
Qed.

Lemma read_devs_ok : forall depth dr dir,
  reads (read_devs depth dr dir) (Some (bool_decide (is_Some dr))) (fun x => exists entries, dr = Some entries /\ found depth entries dir x).
Proof.
  assert (forall depth dir, reads (read_devs depth None dir) (Some false) (fun x => exists entries, None = Some entries /\ found depth entries dir x)) as Hnone.
  { intros depth dir. destruct depth; (eapply reads_weaken; [apply reads_nothing|]); intros x; (split; [done|]); by intros (? & ? & _). }
  assert (forall depth entries dir, reads (read_devs depth (Some entries) dir) (Some true) (found depth entries dir) ->
    reads (read_devs depth (Some entries) dir) (Some true) (fun x => exists e, Some entries = Some e /\ found depth e dir x)) as Hsome.
  { intros depth entries dir H. eapply reads_weaken; [exact H|]. intros x. split; [by exists entries|]. by intros (? & [= <-] & ?). }
  induction depth as [|depth IH]; intros [entries|] dir; [|apply Hnone| |apply Hnone]; apply Hsome; cbn [read_devs]; apply read_entries_ok; intros sub dir'.
  - eapply (reads_weaken _ (Some true)); [apply reads_nothing|]. intros x. split; [done|]. by intros (? & ? & ? & _).
  - apply (reads_weaken _ _ _ _ (IH sub dir')). intros x. split; [intros (e & -> & H); by exists depth, e|]. intros (d' & e & [= <-] & -> & H). by exists e.
Qed.

(** ** The sysfs filter *)

Section sysfs.
Context (depth : nat) (dr : option (list sysnode)) (dir : list Z).

(** The set is empty before the first device; then it has what was found, or the
    directory could not be read. *)
Definition sysfs_ok (s : dev_set) : Prop := dset_ok s /\
  ((dset_initialised s = 0 /\ forall x, ~ in_set s x) \/
   (dset_initialised s = 1 /\ exists entries, dr = Some entries /\ forall x, in_set s x <-> found depth entries dir x) \/
   (dset_initialised s = -1 /\ dr = None)).

Definition in_sysfs (dev : fdev) : Prop := forall entries, dr = Some entries -> found depth entries dir (fd_dev dev).

Lemma sysfs_create_ok mem : false ∉ mem -> sysfs_ok (dev_set_create mem).
Proof.
  intros Hm. split; [by split|]. left. split; [done|]. intros x (e & He & Hx). unfold dev_set_create in He. cbn [dset_slots] in He.
  apply zlookup_Some in He as [_ He]. apply lookup_replicate in He as [-> _]. by apply not_elem_of_nil in Hx.
Qed.

Lemma init_devs_ok s : sysfs_ok s -> dset_initialised s = 0 -> exists b s', init_devs depth dr dir s = RxRet b s' /\ sysfs_ok s' /\ dset_initialised s' <> 0.
Proof.
  intros [Hs Hcase] Hi. assert (forall x, ~ in_set s x) as Hempty by (destruct Hcase as [[_ H]|[[H _]|[H _]]]; [done|lia|lia]).
  destruct (read_devs_ok depth dr dir s Hs) as (b & s1 & E & Hs1 & _ & Hx & Hb). subst b. unfold init_devs. rewrite (rx_exec _ _ _ _ _ E).
  eexists _, _. split; [reflexivity|]. unfold sysfs_ok. change (in_set (set_initialised ?i s1)) with (in_set s1). case_bool_decide as Hdr; cbn [set_initialised dset_initialised].
  - split; [|done]. split; [done|]. right. left. split; [done|]. destruct Hdr as [entries ->]. exists entries. split; [done|]. intros x. rewrite Hx. split.
    + intros [H|(e & [= <-] & H)]; [by apply Hempty in H|done].
    + intros H. right. by exists entries.
  - split; [|done]. split; [done|]. right. right. split; [done|]. destruct dr; [|done]. by destruct Hdr.
Qed.

Lemma sysfs_filter ds : Filter ds (sysfs_accept_p depth dr dir) sysfs_ok in_sysfs.
Proof.
  split; [intros d d' (_ & H & _); unfold in_sysfs; by rewrite H|]. intros dev s Hs _. unfold sysfs_accept_p. change ((rx_get ≫= ?k) s) with (k s s). cbv beta.
  assert (exists b s', (if dset_initialised s =? 0 then init_devs depth dr dir else mret true) s = RxRet b s' /\ sysfs_ok s' /\ dset_initialised s' <> 0) as (b1 & s1 & E1 & Hs1 & Hi1).
  { destruct (Z.eqb_spec (dset_initialised s) 0); [by apply init_devs_ok|by exists true, s]. }
  rewrite (rx_exec _ _ _ _ _ E1). change ((rx_get ≫= ?k) s1) with (k s1 s1). cbv beta. pose proof Hs1 as [Hd [[H0 _]|[(H1 & entries & Hdr & Hx)|[H1 Hdr]]]]; [done| |]; rewrite H1; cbn [Z.eqb Pos.eqb negb].
  - destruct (set_lookup_ok s1 (fd_dev dev) Hd) as (b & E & Hb). rewrite E, rx_opt_exec. exists b, dev, s1. do 3 (split; [done|]). rewrite Hb, Hx. unfold in_sysfs. rewrite Hdr.
    split; [by intros H ? [= <-]|]. intros H. by apply H.
  - exists true, dev, s1. do 3 (split; [done|]). split; [|done]. intros _ entries H. congruence.
Qed.

End sysfs.

(** ** The type filter *)

(** The answers of the device do not depend on which of its names is preferred. *)
Class ProbeOk (io : probe) : Prop := {
  opens_proper :: Proper (same_dev ==> eq) (opens io);
  size_of_proper :: Proper (same_dev ==> eq) (size_of io);
  partitioned_proper :: Proper (same_dev ==> eq) (is_partitioned_dev io) }.

(** A table with the number of partitions [count] for every major number, and the flag for
    the majors of SCSI disks. *)
Definition types_ok (count : Z -> Z) (scsi : Z -> bool) (t : types) : Prop :=
  Z.of_nat (length (ty_partitions t)) = NUMBER_OF_MAJORS /\ forall m e, zlookup (ty_partitions t) m = Some e -> e.1 = count m /\ e.2 = if scsi m then PARTITION_SCSI_DEVICE else 0.

Definition usable_type (count : Z -> Z) (io : probe) (pv_min_size : Z) (dev : fdev) : Prop :=
  count (MAJOR (fd_dev dev)) <> 0 /\ opens io dev = true /\ (exists size, size_of io dev = Some size /\ pv_min_size <= size) /\ is_partitioned_dev io dev = false.

Lemma types_filter count scsi (ok : types -> Prop) io pv_min_size ds : ProbeOk io -> (forall t, ok t -> types_ok count scsi t) -> Filter ds (passes_lvm_type_device_filter io pv_min_size) ok (usable_type count io pv_min_size).
Proof.
  intros Hio Hok. split.
  { intros d d' H. unfold usable_type. rewrite (opens_proper d d' H), (size_of_proper d d' H), (partitioned_proper d d' H). by destruct H as (_ & -> & _). }
  intros dev t Ht _. pose proof (Hok t Ht) as [Hl Hc]. unfold passes_lvm_type_device_filter. change ((rx_get ≫= ?k) t) with (k t t). cbv beta.
  destruct (zlookup_is_Some (ty_partitions t) (MAJOR (fd_dev dev))) as [e He]; [pose proof (MAJOR_range (fd_dev dev)); lia|]. rewrite He, rx_opt_exec.
  unfold usable_type. rewrite <- (proj1 (Hc _ _ He)). destruct (Z.eqb_spec e.1 0) as [H0|H0].
  { exists false, dev, t. do 3 (split; [done|]). split; [done|]. by intros [? _]. }
  destruct (opens io dev); cbn [negb]; [|exists false, dev, t; do 3 (split; [done|]); split; [done|]; by intros (_ & ? & _)].
  eexists _, dev, t. do 3 (split; [done|]). destruct (size_of io dev) as [size|]; [|split; [done|]; by intros (_ & _ & (? & ? & _) & _)].
  rewrite andb_true_iff, !negb_true_iff, Z.ltb_ge. split.
  - intros [H1 H2]. split; [done|]. split; [done|]. split; [by exists size|done].
  - intros (_ & _ & (s & [= <-] & Hs) & Hp). done.
Qed.

(** ** The text of /proc/devices *)

(** A line of a driver: its major number in at least three columns, and its name. *)
Definition pad (s : list Z) : list Z := replicate (3 - length s) 32 ++ s.
Definition driver_line (e : Z * list Z) : list Z := pad (print_int e.1) ++ 32 :: e.2 ++ [10].
Definition proc_devices (chars blocks : list (Z * list Z)) : list Z :=
  (bytes "Character devices:" ++ [10]) ++ concat (driver_line <$> chars) ++ [10] ++ (bytes "Block devices:" ++ [10]) ++ concat (driver_line <$> blocks).

(** A driver with a major number that the kernel uses and a name of one word. *)
Definition driver_ok (e : Z * list Z) : Prop :=
  0 < e.1 < NUMBER_OF_MAJORS /\ e.2 <> [] /\ Forall (fun c => isspace c = false) e.2 /\ (length e.2 <= 64)%nat.

(** The name at the front of its line. *)
Lemma is_prefix_newline x s : 10 ∉ x -> is_prefix x (s ++ [10]) = is_prefix x s.
Proof.
  revert s. induction x as [|c x IH]; intros s Hx; [by destruct s|]. apply not_elem_of_cons in Hx as [Hc Hx]. destruct s as [|d s]; cbn [app is_prefix].
  - by rewrite (proj2 (Z.eqb_neq c 10)) by done.
  - by rewrite IH.
Qed.

Lemma is_prefix_split x s : is_prefix x s = true -> exists r, s = x ++ r.
Proof.
  revert s. induction x as [|c x IH]; intros s H; [by exists s|]. destruct s as [|d s]; [done|]. cbn [is_prefix] in H. apply andb_true_iff in H as [->%Z.eqb_eq H].
  destruct (IH s H) as [r ->]. by exists r.
Qed.

Lemma is_prefix_self x r : is_prefix x (x ++ r) = true.
Proof. induction x as [|c x IH]; [by destruct r|]. cbn [app is_prefix]. by rewrite Z.eqb_refl. Qed.

Lemma names_it_line w s : Forall (fun c => isspace c = false) s -> 10 ∉ w -> names_it w (s ++ [10]) = bool_decide (s = w).
Proof.
  intros Hs Hw. unfold names_it. case_bool_decide as Heq.
  - subst s. rewrite is_prefix_self. unfold cstr_at. by rewrite list_lookup_middle.
  - rewrite is_prefix_newline by done. destruct (is_prefix w s) eqn:Hp; [|done]. apply is_prefix_split in Hp as [r ->]. destruct r as [|c r]; [by rewrite app_nil_r in Heq|].
    unfold cstr_at. rewrite <- app_assoc. cbn [app]. rewrite list_lookup_middle by done. cbn. apply Forall_app in Hs as [_ Hs]. by apply Forall_cons in Hs as [-> _].
Qed.

(** The number at the front of a line. *)
Lemma decimal_digits ds : Forall (fun c => isdigit c = true) ds -> forall acc s, decimal acc (ds ++ s) = decimal (foldl (fun v c => v * 10 + (c - 48)) acc ds) s.
Proof. induction 1 as [|c ds Hc _ IH]; intros acc s; [done|]. cbn [app decimal foldl]. by rewrite Hc, IH. Qed.

Lemma dec_digits_value fuel : forall n acc, 0 <= n < 10 ^ Z.of_nat fuel -> Forall (fun c => isdigit c = true) acc ->
  exists ds, dec_digits fuel n acc = ds ++ acc /\ Forall (fun c => isdigit c = true) ds /\ (fuel <> O -> ds <> []) /\ (length ds <= fuel)%nat /\ forall v, foldl (fun v c => v * 10 + (c - 48)) v ds = v * 10 ^ Z.of_nat (length ds) + n.
Proof.
  induction fuel as [|fuel IH]; intros n acc Hn Hacc.
  - exists []. cbn in *. split; [done|]. split; [done|]. split; [done|]. split; [lia|]. intros v. lia.
  - cbn [dec_digits]. rewrite Nat2Z.inj_succ, Z.pow_succ_r in Hn by lia. assert (isdigit (48 + n mod 10) = true) as Hd by (unfold isdigit; lia). destruct (Z.ltb_spec n 10).
    + exists [48 + n mod 10]. split; [done|]. split; [by repeat constructor|]. split; [done|]. split; [cbn; lia|]. intros v. cbn. lia.
    + destruct (IH (n / 10) (48 + n mod 10 :: acc)) as (ds & E & Hds & _ & Hl & Hv); [lia|by constructor|]. exists (ds ++ [48 + n mod 10]). rewrite E, <- app_assoc. split; [done|].
      split; [apply Forall_app; split; [done|by repeat constructor]|]. split; [by destruct ds|]. rewrite length_app. cbn [length]. split; [lia|].
      intros v. rewrite foldl_app, Hv. cbn [foldl]. rewrite Nat2Z.inj_add, Z.pow_add_r by lia. cbn. lia.
Qed.

Lemma print_int_digits n : 0 <= n < 10 ^ 4 -> exists c ds, print_int n = c :: ds /\ (length ds <= 3)%nat /\ Forall (fun c => isdigit c = true) (c :: ds) /\ forall s, decimal 0 (c :: ds ++ 32 :: s) = (n, 32 :: s).
Proof.
  intros Hn. unfold print_int. rewrite (proj2 (Z.ltb_ge n 0)) by lia.
  assert (dec_digits 20 n [] = dec_digits 4 n []) as ->.
  { assert (forall a b acc m, 0 <= m < 10 ^ Z.of_nat a -> a <> O -> dec_digits (a + b) m acc = dec_digits a m acc) as H; [|apply (H 4%nat 16%nat); [done|done]].
    induction a as [|a IH]; intros b acc m Hm Ha; [done|]. cbn [Nat.add dec_digits]. destruct (Z.ltb_spec m 10); [done|]. rewrite Nat2Z.inj_succ, Z.pow_succ_r in Hm by lia.
    destruct a as [|a]; [cbn in Hm; lia|]. apply IH; [lia|done]. }
  destruct (dec_digits_value 4 n [] Hn) as (ds & -> & Hds & Hne & Hl & Hv); [done|]. rewrite app_nil_r. destruct ds as [|c ds]; [by destruct (Hne ltac:(done))|]. exists c, ds. split; [done|].
  cbn [length] in Hl. split; [lia|]. split; [done|]. intros s. change (c :: ds ++ 32 :: s) with ((c :: ds) ++ 32 :: s). rewrite decimal_digits by done. rewrite Hv. by rewrite Z.mul_0_l, Z.add_0_l.
Qed.

Lemma skip_all p l s : Forall (fun c => p c = true) l -> skip p (l ++ s) = skip p s.
Proof. induction 1 as [|c l Hc _ IH]; [done|]. cbn [app skip]. by rewrite Hc. Qed.

Lemma fgets_line l s : l <> [] -> 10 ∉ l -> (length l < 79)%nat -> fgets 80 (l ++ 10 :: s) = Some (l ++ [10], s).
Proof.
  intros Hne Hl Hlen. unfold fgets. destruct l as [|c l']; [done|]. cbn [app]. change (80 - 1)%nat with 79%nat. change (c :: l' ++ 10 :: s) with ((c :: l') ++ 10 :: s).
  change (c :: l' ++ [10]) with ((c :: l') ++ [10]). clear Hne. f_equal. revert Hl Hlen. generalize 79%nat as n. generalize (c :: l') as l. clear c l'.
  induction l as [|c l IH]; intros n Hl Hlen; (destruct n as [|n]; [cbn in Hlen; lia|]); cbn [app line_of]; [done|]. apply not_elem_of_cons in Hl as [Hc Hl].
  rewrite (proj2 (Z.eqb_neq c 10)) by done. cbn [length] in Hlen. by rewrite IH by (done || lia).
Qed.

Section scan.
Context {F : Type} (cfg : list (list Z * Z)).

(** The configured types, each with its number of partitions. *)
Definition cfg_values : list (cvalue F) := concat ((fun x => [CfgString x.1; CfgInt x.2]) <$> cfg).
Definition cfg_ok : Prop := Forall (fun x => 10 ∉ x.1 /\ 0 < x.2 < 2 ^ 31) cfg.

(** The number of partitions of a driver: what is configured for the first type that its
    name begins with, or what is built in for it. *)
Definition counted (name : list Z) : option Z :=
  match List.find (fun x => is_prefix x.1 name) cfg with Some x => Some x.2 | None => builtin_partitions name end.

(** What the lines [blocks] leave for a major number, and for a name of its own. *)
Definition recorded (blocks : list (Z * list Z)) (m : Z) : Z := foldl (fun n e => if m =? e.1 then default n (counted e.2) else n) 0 blocks.
Definition major_of (w : list Z) (blocks : list (Z * list Z)) (old : Z) : Z := foldl (fun old e => if bool_decide (e.2 = w) then e.1 else old) old blocks.

(** The majors of SCSI disks. *)
Definition scsi_major (blocks : list (Z * list Z)) (m : Z) : bool := existsb (fun e => (m =? e.1) && bool_decide (e.2 = bytes "sd")) blocks.

Lemma scsi_major_snoc blocks e m : scsi_major (blocks ++ [e]) m = scsi_major blocks m || ((m =? e.1) && bool_decide (e.2 = bytes "sd")).
Proof. unfold scsi_major. rewrite existsb_app. cbn. by rewrite orb_false_r. Qed.

Lemma config_partitions_line s : cfg_ok -> config_partitions cfg_values (s ++ [10]) = Some (snd <$> List.find (fun x => is_prefix x.1 s) cfg).
Proof.
  unfold cfg_ok, cfg_values. induction 1 as [|x cfg' [Hx Hn] _ IH]; [done|]. cbn [fmap list_fmap concat app config_partitions List.find].
  rewrite (proj2 (Z.eqb_neq x.2 0)), is_prefix_newline by (done || lia). destruct (is_prefix x.1 s); [|exact IH]. cbn. unfold swrap. do 2 f_equal. lia.
Qed.

Lemma builtin_line s : builtin_partitions (s ++ [10]) = builtin_partitions s.
Proof.
  unfold builtin_partitions. f_equal. assert (Forall (fun x => 10 ∉ x.1) device_info) as H.
  { apply (bool_decide_eq_true_1 _). by vm_compute. }
  induction H as [|x l Hx _ IH]; [done|]. cbn [List.find]. by rewrite is_prefix_newline, IH.
Qed.

Lemma store_partitions_ok count scsi t major n : types_ok count scsi t -> 0 <= major < NUMBER_OF_MAJORS ->
  exists p, store_partitions major n t = Some (set_partitions p t) /\ types_ok (fun m => if m =? major then n else count m) scsi (set_partitions p t).
Proof.
  intros [Hl Hc] Hm. unfold store_partitions. destruct (zlookup_is_Some (ty_partitions t) major) as [e He]; [lia|]. rewrite He. cbn. rewrite zupdate_Some by lia. cbn.
  eexists. split; [done|]. split; cbn [ty_partitions set_partitions]; [by rewrite length_insert|]. intros m e' Hm'. apply zlookup_Some in Hm' as Hr.
  rewrite zlookup_inserted in Hm' by lia. destruct (Z.eqb_spec major m) as [<-|Hne].
  - rewrite Z.eqb_refl. injection Hm' as <-. split; [done|]. by apply (Hc major e).
  - rewrite (proj2 (Z.eqb_neq m major)) by done. by apply Hc.
Qed.

Lemma store_flags_ok count scsi t major : types_ok count scsi t -> 0 <= major < NUMBER_OF_MAJORS ->
  exists p, store_flags major PARTITION_SCSI_DEVICE t = Some (set_partitions p t) /\ types_ok count (fun m => scsi m || (m =? major)) (set_partitions p t).
Proof.
  intros [Hl Hc] Hm. unfold store_flags. destruct (zlookup_is_Some (ty_partitions t) major) as [e He]; [lia|]. rewrite He. cbn. rewrite zupdate_Some by lia. cbn.
  eexists. split; [done|]. split; cbn [ty_partitions set_partitions]; [by rewrite length_insert|]. intros m e' Hm'. apply zlookup_Some in Hm' as Hr.
  rewrite zlookup_inserted in Hm' by lia. destruct (Z.eqb_spec major m) as [<-|Hne].
  - injection Hm' as <-. destruct (Hc major e He) as [-> ->]. rewrite Z.eqb_refl, orb_true_r. by destruct (scsi major).
  - rewrite (proj2 (Z.eqb_neq m major)), orb_false_r by done. by apply Hc.
Qed.

(** The tables after the lines [blocks]. *)
Definition scanned (blocks : list (Z * list Z)) (t0 t : types) : Prop :=
  types_ok (recorded blocks) (scsi_major blocks) t /\
  ty_md t = major_of (bytes "md") blocks (ty_md t0) /\ ty_blkext t = major_of (bytes "blkext") blocks (ty_blkext t0) /\
  ty_drbd t = major_of (bytes "drbd") blocks (ty_drbd t0) /\ ty_device_mapper t = major_of (bytes "device-mapper") blocks (ty_device_mapper t0) /\
  ty_emcpower t = major_of (bytes "emcpower") blocks (ty_emcpower t0).

Lemma recorded_snoc blocks e m : recorded (blocks ++ [e]) m = if m =? e.1 then default (recorded blocks m) (counted e.2) else recorded blocks m.
Proof. unfold recorded. by rewrite foldl_app. Qed.

Lemma major_of_snoc w blocks e old : major_of w (blocks ++ [e]) old = if bool_decide (e.2 = w) then e.1 else major_of w blocks old.
Proof. unfold major_of. by rewrite foldl_app. Qed.

Lemma types_ok_ext c c' s s' t : (forall m, c m = c' m) -> (forall m, s m = s' m) -> types_ok c s t -> types_ok c' s' t.
Proof. intros H H' [Hl Hc]. split; [done|]. intros m e Hm. rewrite <- H, <- H'. by apply Hc. Qed.

(** The tables of partitions through a line. *)
Lemma scan_partitions_ok blocks t e : cfg_ok -> driver_ok e -> types_ok (recorded blocks) (scsi_major blocks) t -> exists p,
  (t ← (if names_it (bytes "sd") (e.2 ++ [10]) then store_flags e.1 PARTITION_SCSI_DEVICE t else Some t);
   t ← (match builtin_partitions (e.2 ++ [10]) with Some n => store_partitions e.1 n t | None => Some t end);
   match config_partitions cfg_values (e.2 ++ [10]) with
   | None => Some (t, false)
   | Some None => Some (t, true)
   | Some (Some n) => t ← store_partitions e.1 n t; Some (t, true)
   end) = Some (set_partitions p t, true) /\ types_ok (recorded (blocks ++ [e])) (scsi_major (blocks ++ [e])) (set_partitions p t).
Proof.
  intros Hcfg (Hmaj & _ & Hsp & _) Ht. assert (0 <= e.1 < NUMBER_OF_MAJORS) as Hm by lia.
  assert (exists p, (if names_it (bytes "sd") (e.2 ++ [10]) then store_flags e.1 PARTITION_SCSI_DEVICE t else Some t) = Some (set_partitions p t) /\ types_ok (recorded blocks) (scsi_major (blocks ++ [e])) (set_partitions p t)) as (p2 & -> & H2).
  { rewrite names_it_line by (done || (apply (bool_decide_eq_true_1 _); by vm_compute)). pose proof (scsi_major_snoc blocks e) as Hsc. case_bool_decide.
    - destruct (store_flags_ok _ _ _ e.1 Ht Hm) as (p & E & Hp). exists p. split; [done|]. eapply types_ok_ext; [done| |exact Hp]. intros m. by rewrite Hsc, andb_true_r.
    - exists (ty_partitions t). split; [by destruct t|]. destruct t as [p ?????]. eapply types_ok_ext; [done| |exact Ht]. intros m. by rewrite Hsc, andb_false_r, orb_false_r. }
  cbn [mbind option_bind]. rewrite builtin_line, config_partitions_line by done. unfold counted.
  pose proof (recorded_snoc blocks e) as Hrec. unfold counted in Hrec. destruct (builtin_partitions e.2) as [n|].
  - destruct (store_partitions_ok _ _ _ e.1 n H2 Hm) as (p3 & -> & H3). cbn [mbind option_bind]. destruct (List.find _ cfg) as [x|]; cbn [fmap option_fmap option_map mbind option_bind].
    + destruct (store_partitions_ok _ _ _ e.1 x.2 H3 Hm) as (p4 & -> & H4). exists p4. split; [done|]. eapply types_ok_ext; [|done|exact H4]. intros m. rewrite Hrec. cbn. by destruct (m =? e.1).
    + exists p3. split; [done|]. eapply types_ok_ext; [|done|exact H3]. intros m. by rewrite Hrec.
  - cbn [mbind option_bind]. destruct (List.find _ cfg) as [x|]; cbn [fmap option_fmap option_map mbind option_bind].
    + destruct (store_partitions_ok _ _ _ e.1 x.2 H2 Hm) as (p4 & -> & H4). exists p4. split; [done|]. eapply types_ok_ext; [|done|exact H4]. intros m. by rewrite Hrec.
    + exists p2. split; [done|]. eapply types_ok_ext; [|done|exact H2]. intros m. rewrite Hrec. cbn. by destruct (m =? e.1).
Qed.

Lemma scan_name_ok blocks t0 t e : cfg_ok -> driver_ok e -> scanned blocks t0 t ->
  exists t', scan_name (Some cfg_values) e.1 (e.2 ++ [10]) t = Some (t', true) /\ scanned (blocks ++ [e]) t0 t'.
Proof.
  intros Hcfg He (Ht & H1 & H2 & H3 & H4 & H5). unfold scan_name.
  destruct (scan_partitions_ok blocks (store_majors e.1 (e.2 ++ [10]) t) e Hcfg He Ht) as (p & E & Hp). eexists. split; [exact E|]. split; [done|].
  destruct He as (_ & _ & Hsp & _). unfold store_majors. cbn [set_partitions ty_md ty_blkext ty_drbd ty_device_mapper ty_emcpower].
  rewrite !names_it_line by (done || (apply (bool_decide_eq_true_1 _); by vm_compute)). rewrite !major_of_snoc, H1, H2, H3, H4, H5. done.
Qed.

(** A line of a driver in either section. *)
Lemma scan_line_ok e b t : driver_ok e ->
  scan_line (Some cfg_values) (driver_line e) b t = if b then r ← scan_name (Some cfg_values) e.1 (e.2 ++ [10]) t; Some (r.1, b, r.2) else Some (t, b, true).
Proof.
  intros (Hmaj & Hne & Hsp & _). unfold scan_line, driver_line, pad. unfold NUMBER_OF_MAJORS in Hmaj. destruct (print_int_digits e.1) as (c & ds & E & Hl & Hds & Hdec); [lia|]. rewrite E.
  rewrite <- app_assoc, skip_all by (by apply Forall_replicate). cbn [app].
  assert (forall x, isdigit x = true -> (x =? 32) = false) as H32. { intros x Hx. unfold isdigit in Hx. lia. }
  assert (is_space_char c = false /\ isspace c = false /\ (c =? 45) = false /\ (c =? 43) = false) as (Hc1 & Hc2 & Hc3 & Hc4).
  { apply Forall_cons in Hds as [Hc _]. unfold isdigit in Hc. unfold is_space_char, isspace. lia. }
  cbn [skip]. rewrite Hc1. unfold atoi. cbn [skip]. rewrite Hc2. unfold sign. rewrite Hc3, Hc4, Hdec. cbn [fst].
  replace (swrap 32 (Z.min LLONG_MAX e.1)) with e.1 by (unfold swrap, LLONG_MAX; lia).
  rewrite (proj2 (Z.ltb_ge e.1 0)), (proj2 (Z.leb_gt NUMBER_OF_MAJORS e.1)) by (unfold NUMBER_OF_MAJORS; lia). cbn [orb]. rewrite (proj2 (Z.eqb_neq e.1 0)) by lia. destruct b; cbn [negb]; [|done].
  change (c :: ds ++ 32 :: e.2 ++ [10]) with ((c :: ds) ++ 32 :: e.2 ++ [10]). rewrite skip_all.
  2: { eapply Forall_impl; [exact Hds|]. intros x Hx. by rewrite H32. }
  cbn [skip Z.eqb Pos.eqb negb]. cbn [skip]. change (is_space_char 32) with true. cbn [skip]. destruct (e.2) as [|d name] eqn:En; [done|].
  assert (is_space_char d = false) as Hd. { apply Forall_cons in Hsp as [Hd _]. unfold isspace in Hd. unfold is_space_char. lia. }
  cbn [app skip]. by rewrite Hd.
Qed.

Lemma driver_line_text e : driver_ok e -> exists l, driver_line e = l ++ [10] /\ l <> [] /\ 10 ∉ l /\ (length l < 79)%nat.
Proof.
  intros (Hmaj & Hne & Hsp & Hlen). unfold NUMBER_OF_MAJORS in Hmaj. destruct (print_int_digits e.1) as (c & ds & E & Hl & Hds & _); [lia|]. exists (pad (print_int e.1) ++ 32 :: e.2).
  unfold driver_line, pad. rewrite E. rewrite <- !app_assoc. split; [done|]. split; [by destruct (replicate _ _)|]. split.
  - rewrite !not_elem_of_app. split; [intros H; by apply elem_of_replicate_inv in H|]. split; [|apply not_elem_of_cons; split; [done|]].
    + intros H. rewrite Forall_forall in Hds. by specialize (Hds 10 H).
    + intros H. rewrite Forall_forall in Hsp. by specialize (Hsp 10 H).
  - rewrite !length_app, length_replicate. cbn [length]. lia.
Qed.

Lemma scan_drivers t0 s : cfg_ok -> forall todo fuel done b t, Forall driver_ok todo -> (length todo <= fuel)%nat -> (if b : bool then scanned done t0 t else True) ->
  exists t', scan_lines fuel (Some cfg_values) (concat (driver_line <$> todo) ++ s) b t = scan_lines (fuel - length todo) (Some cfg_values) s b t' /\ if b then scanned (done ++ todo) t0 t' else t' = t.
Proof.
  intros Hcfg. induction todo as [|e todo IH]; intros fuel done b t Hok Hf Ht.
  { exists t. cbn. rewrite Nat.sub_0_r. split; [done|]. destruct b; [by rewrite app_nil_r|done]. }
  apply Forall_cons in Hok as [He Hok]. destruct fuel as [|fuel]; [cbn in Hf; lia|]. cbn [length] in *. cbn [fmap list_fmap concat scan_lines Nat.sub].
  destruct (driver_line_text e He) as (l & El & Hne & H10 & Hl). rewrite El, <- !app_assoc. cbn [app]. rewrite fgets_line by done. rewrite <- El, scan_line_ok by done. destruct b.
  - destruct (scan_name_ok done t0 t e Hcfg He Ht) as (t1 & -> & H1). cbn [mbind option_bind fst snd negb].
    destruct (IH fuel (done ++ [e]) true t1 Hok ltac:(lia) H1) as (t2 & -> & H2). exists t2. by rewrite <- app_assoc in H2.
  - cbn [mbind option_bind fst snd negb]. destruct (IH fuel done false t Hok ltac:(lia) I) as (t2 & -> & ->). by exists t.
Qed.

(** The headers and the section of character devices. *)
Definition proc_head (chars : list (Z * list Z)) : list Z := (bytes "Character devices:" ++ [10]) ++ concat (driver_line <$> chars) ++ [10] ++ bytes "Block devices:" ++ [10].

Lemma proc_devices_head chars blocks : proc_devices chars blocks = proc_head chars ++ concat (driver_line <$> blocks).
Proof. unfold proc_devices, proc_head. by rewrite <- !app_assoc. Qed.

Lemma lines_length (l : list (Z * list Z)) : (length l <= length (concat (driver_line <$> l)))%nat.
Proof. induction l as [|e l IH]; [done|]. cbn [fmap list_fmap concat length]. rewrite length_app. unfold driver_line at 1. rewrite length_app. cbn [length]. lia. Qed.

Lemma proc_head_length chars : (length chars + 3 <= length (proc_head chars))%nat.
Proof. unfold proc_head. rewrite !length_app. pose proof (lines_length chars). cbn. lia. Qed.

Lemma scan_head chars s fuel t : cfg_ok -> Forall driver_ok chars -> (length chars + 3 <= fuel)%nat ->
  scan_lines fuel (Some cfg_values) (proc_head chars ++ s) false t = scan_lines (fuel - (length chars + 3)) (Some cfg_values) s true t.
Proof.
  intros Hcfg Hchars Hf. destruct fuel as [|fuel]; [lia|]. unfold proc_head. rewrite <- !app_assoc. cbn [app scan_lines].
  rewrite fgets_line by (done || (apply (bool_decide_eq_true_1 _); by vm_compute) || (cbn; lia)).
  change (scan_line (Some cfg_values) (bytes "Character devices:" ++ [10]) false t) with (Some (t, false, true)). cbn [mbind option_bind fst snd negb].
  destruct (scan_drivers t (10 :: bytes "Block devices:" ++ 10 :: s) Hcfg chars fuel [] false t Hchars ltac:(lia) I) as (t2 & -> & ->).
  destruct (fuel - length chars)%nat as [|[|f]] eqn:E; [lia..|]. cbn [scan_lines]. change (fgets 80 (10 :: ?s)) with (Some ([10], s)). cbv beta iota.
  change (scan_line (Some cfg_values) [10] false t) with (Some (t, false, true)). cbn [mbind option_bind fst snd negb scan_lines].
  rewrite fgets_line by (done || (apply (bool_decide_eq_true_1 _); by vm_compute) || (cbn; lia)).
  change (scan_line (Some cfg_values) (bytes "Block devices:" ++ [10]) false t) with (Some (t, true, true)). cbn [mbind option_bind fst snd negb]. f_equal. lia.
Qed.

Lemma scan_start proc text (t : types) : proc <> [] -> (length proc < 4088)%nat -> exists t1,
  scan_proc_dev proc (Some text) (Some cfg_values) t = scan_lines (S (length text)) (Some cfg_values) text false t1 /\ scanned [] t t1.
Proof.
  intros Hproc Hlen. unfold scan_proc_dev. destruct proc as [|c proc]; [done|]. rewrite (proj2 (Nat.ltb_lt _ _)) by lia. cbn [negb]. eexists. split; [reflexivity|].
  split; [|done]. split; [cbn [ty_partitions set_partitions]; by rewrite length_replicate|]. intros m e Hm. apply zlookup_Some in Hm as [_ Hm]. by apply lookup_replicate in Hm as [-> _].
Qed.

(** The whole text. *)
Lemma scan_proc_dev_ok proc chars blocks t : proc <> [] -> (length proc < 4088)%nat -> cfg_ok -> Forall driver_ok chars -> Forall driver_ok blocks ->
  exists t', scan_proc_dev proc (Some (proc_devices chars blocks)) (Some cfg_values) t = Some (t', true) /\ scanned blocks t t'.
Proof.
  intros Hproc Hlen Hcfg Hchars Hblocks. destruct (scan_start proc (proc_devices chars blocks) t Hproc Hlen) as (t1 & -> & H1). rewrite proc_devices_head.
  assert (length chars + 3 + length blocks <= length (proc_head chars ++ concat (driver_line <$> blocks)))%nat as Hf.
  { rewrite length_app. pose proof (proc_head_length chars). pose proof (lines_length blocks). lia. }
  rewrite scan_head by (done || lia). set (f := (S _ - _)%nat).
  destruct (scan_drivers t [] Hcfg blocks f [] true t1 Hblocks ltac:(lia) H1) as (t3 & E3 & H3). rewrite app_nil_r in E3. rewrite E3. exists t3. split; [|done].
  destruct (f - length blocks)%nat eqn:E4; [lia|]. done.
Qed.

(** A driver with a number that is a multiple of the number of majors ends the section. *)
Lemma scan_lost proc chars name blocks t : proc <> [] -> (length proc < 4088)%nat -> cfg_ok -> Forall driver_ok chars -> Forall driver_ok blocks -> driver_ok (1, name) ->
  exists t', scan_proc_dev proc (Some (proc_devices chars ((NUMBER_OF_MAJORS, name) :: blocks))) (Some cfg_values) t = Some (t', true) /\ scanned [] t t'.
Proof.
  intros Hproc Hlen Hcfg Hchars Hblocks (_ & Hne & Hname & Hl). destruct (scan_start proc (proc_devices chars ((NUMBER_OF_MAJORS, name) :: blocks)) t Hproc Hlen) as (t1 & -> & H1). rewrite proc_devices_head.
  assert (length chars + 3 + S (length blocks) <= length (proc_head chars ++ concat (driver_line <$> (NUMBER_OF_MAJORS, name) :: blocks)))%nat as Hf.
  { rewrite length_app. pose proof (proc_head_length chars). pose proof (lines_length ((NUMBER_OF_MAJORS, name) :: blocks)) as H2. cbn [length] in H2. lia. }
  rewrite scan_head by (done || lia). destruct (S _ - _)%nat as [|f] eqn:E; [lia|]. cbn [fmap list_fmap concat scan_lines].
  change (driver_line (NUMBER_OF_MAJORS, name)) with ((bytes "4096 " ++ name) ++ [10]) at 1. rewrite <- (app_assoc _ [10]). cbn [app].
  rewrite fgets_line; [|done| |].
  - change (scan_line (Some cfg_values) ((bytes "4096 " ++ name) ++ [10]) true t1) with (Some (t1, false, true)). cbn [mbind option_bind fst snd negb].
    destruct (scan_drivers t [] Hcfg blocks f [] false t1 Hblocks ltac:(lia) I) as (t3 & E3 & ->). rewrite app_nil_r in E3. rewrite E3. exists t1. split; [|done].
    destruct (f - length blocks)%nat eqn:E4; [lia|]. done.
  - apply not_elem_of_app. split; [apply (bool_decide_eq_true_1 _); by vm_compute|]. intros H. rewrite Forall_forall in Hname. by specialize (Hname 10 H).
  - cbn [snd] in Hl. rewrite length_app. cbn. lia.
Qed.

(** No configured types are as none that match. *)
Lemma scan_lines_none fuel : forall text b t, scan_lines (F := F) fuel None text b t = scan_lines (F := F) fuel (Some []) text b t.
Proof.
  induction fuel as [|fuel IH]; intros text b t; [done|]. cbn [scan_lines]. destruct (fgets 80 text) as [[line rest]|]; [|done].
  change (scan_line (F := F) None line b t) with (scan_line (F := F) (Some []) line b t). destruct (scan_line (Some []) line b t) as [r|]; [|done]. cbn [mbind option_bind]. by rewrite IH.
Qed.

End scan.

Lemma scan_types_ok {F} proc chars blocks (types : option (list (list Z * Z))) t : proc <> [] -> (length proc < 4088)%nat -> cfg_ok (default [] types) -> Forall driver_ok chars -> Forall driver_ok blocks ->
  exists t', scan_proc_dev (F := F) proc (Some (proc_devices chars blocks)) (cfg_values <$> types) t = Some (t', true) /\ scanned (default [] types) blocks t t'.
Proof.
  intros Hproc Hlen Hcfg Hchars Hblocks. destruct (scan_proc_dev_ok (F := F) _ proc chars blocks t Hproc Hlen Hcfg Hchars Hblocks) as (t' & E & Ht). exists t'. split; [|done].
  destruct types as [cfg|]; [exact E|]. rewrite <- E. unfold scan_proc_dev. destruct proc; [done|]. cbn [fmap option_fmap option_map]. by rewrite scan_lines_none.
Qed.
