(* ===== verification/FilterThms.v ===== *)
(** * The device filters as they are put together

    What the chain of filters of a configuration decides, for any sequence of walks over
    the devices and wipes of the cache; and where single filters go wrong. *)

From S2P Require Import Prelude Bitset DmString Hash Config ConfigProps Regex RegexLang RegexOpt RegexParse Ttree Matcher MatcherTables MatcherProps RegexThms Filter FilterProps FilterDevs FilterTypes.

(** ** The filters for components *)

Definition no_md (dev_is_md : fdev -> Z) (dev : fdev) : Prop := 0 <= dev_is_md dev /\ dev_is_md dev <> 1.

Lemma md_filter {S} ds (ok : S -> Prop) dev_is_md : Proper (same_dev ==> eq) dev_is_md -> Filter ds (ignore_md true dev_is_md) ok (no_md dev_is_md).
Proof.
  intros Hp. split; [intros d d' H; unfold no_md; by rewrite (Hp d d' H)|]. intros dev s Hs _. unfold ignore_md, no_md. cbn [negb].
  destruct (Z.eqb_spec (dev_is_md dev) 1); [exists false, dev, s; do 3 (split; [done|]); split; [done|lia]|].
  destruct (Z.ltb_spec (dev_is_md dev) 0); [exists false, dev, s; do 3 (split; [done|]); split; [done|lia]|].
  exists true, dev, s. do 3 (split; [done|]). split; [lia|done].
Qed.

(** The entries of a directory besides itself and its parent. *)
Definition others (entries : list (list Z)) : list (list Z) := List.filter (fun d => negb (is_dots d)) entries.

Lemma get_parent_mpath_spec entries : [] ∉ entries -> get_parent_mpath entries [] false = match others entries with [h] => Some h | _ => None end.
Proof.
  assert (forall entries h, h <> [] -> get_parent_mpath entries h true = match others entries with [] => Some h | _ => None end) as Hone.
  { clear. intros entries h Hh. induction entries as [|d entries IH]; [done|]. cbn [get_parent_mpath others List.filter]. destruct (is_dots d); cbn [negb]; [exact IH|]. by destruct h. }
  induction entries as [|d entries IH]; intros Hne; [done|]. apply not_elem_of_cons in Hne as [Hd Hne]. cbn [get_parent_mpath others List.filter].
  destruct (is_dots d); cbn [negb]; [by apply IH|]. fold (others entries). rewrite Hone by done. by destruct (others entries).
Qed.

(** The disk with the name [n] is held by one device only, a multipath one: sysfs has a
    directory of its holders under the last part of the name, with one entry, and that
    has a device-mapper number with the prefix of multipath devices. *)
Definition held_by_mpath (io : mpath_io) (sysfs_dir : list Z) (dm : Z) (n : list Z) : Prop :=
  exists k entries h minor, get_sysfs_name n = Some k /\ (length (sysfs_dir ++ bytes "/block/" ++ k ++ bytes "/holders") < 4096)%nat /\
    mp_dir io (sysfs_dir ++ bytes "/block/" ++ k ++ bytes "/holders") = Some entries /\ others entries = [h] /\
    get_sysfs_get_major_minor io sysfs_dir h = Some (dm, minor) /\ lvm_dm_prefix_check io dm minor = 1.

(** What directories have: no entry without a name. *)
Definition entries_named (io : mpath_io) : Prop := forall path entries, mp_dir io path = Some entries -> [] ∉ entries.

Lemma dev_is_mpath_spec io sysfs_dir t dev n scsi : entries_named io -> major_is_scsi_device t (MAJOR (fd_dev dev)) = Some scsi -> head (fd_aliases dev) = Some n ->
  exists r, dev_is_mpath io sysfs_dir t dev = Some r /\ (r = 1 <-> scsi = true /\ held_by_mpath io sysfs_dir (ty_device_mapper t) n).
Proof.
  intros Hio Hscsi Hn. unfold dev_is_mpath, held_by_mpath. rewrite Hscsi. cbn [mbind option_bind]. destruct scsi; cbn [negb]; [|exists 0; split; [done|]; split; [done|by intros []]].
  rewrite Hn. cbn [mbind option_bind]. destruct (get_sysfs_name n) as [k|]; [|exists 0; split; [done|]; split; [done|by intros (_ & ? & ? & ? & ? & ? & _)]].
  set (path := sysfs_dir ++ bytes "/block/" ++ k ++ bytes "/holders"). destruct (Nat.ltb_spec (length path) 4096) as [Hl|Hl]; cbn [negb].
  2: { exists 0. split; [done|]. split; [done|]. intros (_ & k' & ? & ? & ? & [= <-] & H & _). fold path in H. lia. }
  destruct (mp_dir io path) as [entries|] eqn:Ed; cbn [mbind option_bind].
  2: { exists 0. split; [done|]. split; [done|]. intros (_ & k' & ? & ? & ? & [= <-] & _ & H & _). fold path in H. congruence. }
  rewrite get_parent_mpath_spec by by eapply Hio. destruct (others entries) as [|h [|h' rest]] eqn:Eo.
  1,3: exists 0; split; [done|]; split; [done|]; intros (_ & k' & ? & ? & ? & [= <-] & _ & H & H' & _); fold path in H; congruence.
  destruct (get_sysfs_get_major_minor io sysfs_dir h) as [[major minor]|] eqn:Em.
  2: { exists 0. split; [done|]. split; [done|]. intros (_ & k' & ? & ? & ? & [= <-] & _ & H & H' & H'' & _). fold path in H. congruence. }
  eexists. split; [reflexivity|]. destruct (Z.eqb_spec major (ty_device_mapper t)) as [->|Hne]; cbn [negb].
  - split; [intros Hr; split; [done|]; by exists k, entries, h, minor|]. intros (_ & k' & entries' & h' & minor' & [= <-] & _ & H & H' & H'' & H3). fold path in H. congruence.
  - split; [done|]. intros (_ & k' & entries' & h' & minor' & [= <-] & _ & H & H' & H'' & H3). fold path in H. congruence.
Qed.

(** The names of every SCSI disk say the same about its holder. *)
Definition holders_agree (io : mpath_io) (sysfs_dir : list Z) (dm : Z) (scsi : Z -> bool) (ds : list fdev) : Prop :=
  forall d n n', d ∈ ds -> scsi (MAJOR (fd_dev d)) = true -> n ∈ fd_aliases d -> n' ∈ fd_aliases d ->
    held_by_mpath io sysfs_dir dm n -> held_by_mpath io sysfs_dir dm n'.

Definition no_mpath (io : mpath_io) (sysfs_dir : list Z) (dm : Z) (scsi : Z -> bool) (dev : fdev) : Prop :=
  scsi (MAJOR (fd_dev dev)) = true -> forall n, n ∈ fd_aliases dev -> ~ held_by_mpath io sysfs_dir dm n.

Lemma scsi_device count scsi t m : types_ok count scsi t -> 0 <= m -> major_is_scsi_device t m = Some ((m <? NUMBER_OF_MAJORS) && scsi m).
Proof.
  intros [Hl Hc] Hm. unfold major_is_scsi_device. destruct (Z.leb_spec NUMBER_OF_MAJORS m), (Z.ltb_spec m NUMBER_OF_MAJORS); try lia; [done|].
  destruct (zlookup_is_Some (ty_partitions t) m) as [e He]; [lia|]. rewrite He. cbn. f_equal. destruct (Hc m e He) as [_ ->]. by destruct (scsi m).
Qed.

Lemma mpath_filter io sysfs_dir dm count scsi ds : devices ds -> entries_named io -> holders_agree io sysfs_dir dm scsi ds ->
  Filter ds (ignore_mpath io sysfs_dir) (fun t => types_ok count scsi t /\ ty_device_mapper t = dm) (no_mpath io sysfs_dir dm scsi).
Proof.
  intros Hds Hio Hag. split.
  { intros d d' (H1 & H2 & _). unfold no_mpath. rewrite H2. split; intros H Hs n Hn; apply H; try done; [by rewrite H1|by rewrite <- H1]. }
  intros dev t [Ht Hdm] Hdev. destruct (among_ok ds dev Hds Hdev) as [Hne _]. destruct (fd_aliases dev) as [|n ns] eqn:Hal; [done|].
  pose proof (MAJOR_range (fd_dev dev)) as Hr. pose proof (scsi_device _ _ t (MAJOR (fd_dev dev)) Ht ltac:(lia)) as Hsc. rewrite (proj2 (Z.ltb_lt _ _)) in Hsc by (unfold NUMBER_OF_MAJORS in *; lia). cbn [andb] in Hsc.
  destruct (dev_is_mpath_spec io sysfs_dir t dev n _ Hio Hsc ltac:(by rewrite Hal)) as (res & E & Hres). unfold ignore_mpath. change ((rx_get ≫= ?k) t) with (k t t). cbv beta.
  rewrite E, rx_opt_exec. exists (negb (res =? 1)), dev, t. do 3 (split; [done|]). rewrite negb_true_iff, Z.eqb_neq, Hres, Hdm. unfold no_mpath. split.
  - intros Hnot Hs n' Hn' Hheld. apply Hnot. split; [done|]. destruct Hdev as (d & Hd & Hsame & Hdd & _). apply (Hag d n' n Hd); [by rewrite Hdd| | |done]; rewrite Hsame, ?Hal; [by rewrite <- Hal|left].
  - intros H [Hs Hheld]. apply (H Hs n); [rewrite Hal; left|done].
Qed.

(** ** The chain *)

(** A configuration: rules with their separators, types, the files that are read, whether md
    and multipath components are detected, and the variables before. *)
Section chain.
Context {F : Type} (scan : bool) (fs : sysfs) (sysfs_dir : list Z) (rules : option (list (Z * rule))) (fixed : bool).
Context (types : option (list (list Z * Z))) (proc : list Z) (chars blocks : list (Z * list Z)) (io : probe) (pv_min_size : Z).
Context (md : bool) (dev_is_md : fdev -> Z) (mpath : bool) (mio : mpath_io) (c0 : chain).

Definition configured : setup F :=
  Setup F scan fs sysfs_dir (rule_values <$> rules) fixed (cfg_values <$> types) proc (Some (proc_devices chars blocks)) io pv_min_size md dev_is_md mpath mio.

(** The directory of the sysfs filter when there is one. *)
Definition sysfs_place : option (list Z * nat) := if scan then match sysfs_dir with [] => None | _ => locate_sysfs_blocks fs sysfs_dir end else None.

Definition counts : Z -> Z := recorded (default [] types) blocks.

(** The number of device-mapper devices. *)
Definition dm_number : Z := major_of (bytes "device-mapper") blocks (ty_device_mapper (ch_types c0)).

Definition chain_ok (c : chain) : Prop :=
  (forall dir depth, sysfs_place = Some (dir, depth) -> sysfs_ok depth (sys_dir fs dir) dir (ch_sysfs c)) /\
  (forall r, rules = Some r -> rfilter_ok (snd <$> r) (ch_regex c)) /\
  types_ok counts (scsi_major blocks) (ch_types c) /\ ty_device_mapper (ch_types c) = dm_number.

(** The multipath filter needs sysfs. *)
Definition mpath_wanted : bool := mpath && match sysfs_dir with [] => false | _ => true end.

(** The decision: every filter that is there agrees. *)
Definition chain_decides (dev : fdev) : Prop :=
  (forall dir depth, sysfs_place = Some (dir, depth) -> in_sysfs depth (sys_dir fs dir) dir dev) /\
  (forall r, rules = Some r -> accepted (snd <$> r) dev) /\
  usable_type counts io pv_min_size dev /\ (md = true -> no_md dev_is_md dev) /\
  (mpath_wanted = true -> no_mpath mio sysfs_dir dm_number (scsi_major blocks) dev).

(** What a configuration must satisfy: rules with regular expressions that are within
    bounds, types and drivers with names that a line has room for. *)
Definition rules_ok (r : list (Z * rule)) : Prop :=
  r <> [] /\ Forall (fun x => good x.2.2 = true) r /\ Z.of_nat (length r) < 2 ^ 31 /\ Z.of_nat (length (join_patterns (texts (reverse (snd <$> (snd <$> r)))))) < 2 ^ 30.

Definition configuration_ok : Prop :=
  (forall r, rules = Some r -> rules_ok r) /\ cfg_ok (default [] types) /\ proc <> [] /\ (length proc < 4088)%nat /\ Forall driver_ok chars /\ Forall driver_ok blocks.

(** What is asked about components: md detection goes by the contents of a device; the
    directories of sysfs have names in them, and all names of a SCSI disk lead to the same
    holders. *)
Definition components_ok (ds : list fdev) : Prop :=
  (md = true -> Proper (same_dev ==> eq) dev_is_md) /\
  (mpath_wanted = true -> entries_named mio /\ holders_agree mio sysfs_dir dm_number (scsi_major blocks) ds).

Context (ds : list fdev) (Hds : devices ds) (Hio : ProbeOk io) (Hcfg : configuration_ok) (Hcomp : components_ok ds).

(** The filters that are there, with their decisions. *)
Definition sysfs_filters : list (passes_filter chain * (fdev -> Prop)) :=
  match sysfs_place with Some (dir, depth) => [(sysfs_part depth (sys_dir fs dir) dir, in_sysfs depth (sys_dir fs dir) dir)] | None => [] end.
Definition regex_filters : list (passes_filter chain * (fdev -> Prop)) := match rules with Some r => [(regex_part fixed, accepted (snd <$> r))] | None => [] end.

Definition chain_filters : list (passes_filter chain * (fdev -> Prop)) :=
  sysfs_filters ++ regex_filters ++ [(types_part io pv_min_size, usable_type counts io pv_min_size)] ++
  (if md then [(ignore_md true dev_is_md, no_md dev_is_md)] else []) ++
  (if mpath_wanted then [(mpath_part mio sysfs_dir, no_mpath mio sysfs_dir dm_number (scsi_major blocks))] else []).

Lemma chain_filters_ok : Forall2 (fun f D => Filter ds f chain_ok D) (fst <$> chain_filters) (snd <$> chain_filters).
Proof.
  unfold chain_filters, sysfs_filters, regex_filters. rewrite !fmap_app. repeat apply Forall2_app.
  - destruct sysfs_place as [[dir depth]|] eqn:E; [|done]. constructor; [|constructor]. apply (part_filter ds _ (sysfs_ok depth (sys_dir fs dir) dir) _ ch_sysfs set_sysfs); [| |apply sysfs_filter].
    + intros s (H & _). by apply H.
    + intros s t (_ & H2 & H3) Ht. split; [|done]. intros dir' depth' E'. rewrite E in E'. by injection E' as <- <-.
  - destruct rules as [r|] eqn:E; [|done]. constructor; [|constructor]. apply (part_filter ds _ (rfilter_ok (snd <$> r)) _ ch_regex set_regex); [| |by apply accept_p_filter].
    + intros s (_ & H & _). by apply H.
    + intros s t (H1 & _ & H3) Ht. split; [done|]. split; [|done]. intros r' E'. rewrite E in E'. by injection E' as <-.
  - constructor; [|constructor]. apply (part_filter ds _ (fun t => types_ok counts (scsi_major blocks) t /\ ty_device_mapper t = dm_number) _ ch_types set_types).
    + by intros s (_ & _ & H).
    + intros s t (H1 & H2 & _) Ht. done.
    + apply (types_filter counts (scsi_major blocks)); [done|]. by intros t [H _].
  - destruct Hcomp as [Hmd _]. destruct md; [|done]. constructor; [|constructor]. by apply md_filter, Hmd.
  - destruct Hcomp as [_ Hmp]. destruct mpath_wanted; [|done]. destruct (Hmp eq_refl) as [Hmp1 Hmp2]. constructor; [|constructor].
    apply (part_filter ds _ (fun t => types_ok counts (scsi_major blocks) t /\ ty_device_mapper t = dm_number) _ ch_types set_types).
    + by intros s (_ & _ & H).
    + intros s t (H1 & H2 & _) Ht. done.
    + by apply mpath_filter.
Qed.

Lemma chain_decision dev : Forall (fun D => D dev) (snd <$> chain_filters) <-> chain_decides dev.
Proof.
  unfold chain_filters, sysfs_filters, regex_filters, chain_decides. rewrite !fmap_app, !Forall_app. split.
  - intros (Ha & Hb & Hc & Hd & He). apply Forall_cons in Hc as [Hc _]. split; [intros dir depth E; rewrite E in Ha; by apply Forall_cons in Ha as [Ha _]|].
    split; [intros r E; rewrite E in Hb; by apply Forall_cons in Hb as [Hb _]|]. split; [done|].
    split; [intros E; rewrite E in Hd; by apply Forall_cons in Hd as [Hd _]|intros E; rewrite E in He; by apply Forall_cons in He as [He _]].
  - intros (Ha & Hb & Hc & Hd & He). split; [|split; [|split; [|split]]].
    + destruct sysfs_place as [[dir depth]|]; [|done]. constructor; [by apply Ha|done].
    + destruct rules as [r|]; [|done]. constructor; [by apply Hb|done].
    + by constructor.
    + destruct md; [|done]. constructor; [by apply Hd|done].
    + destruct mpath_wanted; [|done]. constructor; [by apply He|done].
Qed.

Lemma sysfs_create_place mem : false ∉ mem -> exists r mem', (if scan then sysfs_filter_create fs sysfs_dir else mret None) mem = RxRet r mem' /\ false ∉ mem' /\
  match sysfs_place with Some (dir, depth) => exists s, r = Some (s, (dir, depth)) /\ sysfs_ok depth (sys_dir fs dir) dir s | None => r = None end.
Proof.
  intros Hmem. unfold sysfs_place. destruct scan; [|by eexists _, _]. unfold sysfs_filter_create. destruct sysfs_dir as [|c d]; [by eexists _, _|].
  destruct (locate_sysfs_blocks fs (c :: d)) as [[dir depth]|]; [|by eexists _, _].
  destruct (rx_alloc_ok _ Hmem) as [E1 H1]. rewrite (rx_exec _ _ _ _ _ E1). cbn [negb]. destruct (rx_alloc_ok _ H1) as [E2 H2]. rewrite (rx_exec _ _ _ _ _ E2). cbn [negb].
  destruct (rx_alloc_ok _ H2) as [E3 H3]. rewrite (rx_exec _ _ _ _ _ E3). cbn [negb]. destruct (rx_alloc_ok _ H3) as [E4 H4]. rewrite (rx_exec _ _ _ _ _ E4).
  eexists _, _. split; [reflexivity|]. split; [done|]. eexists. split; [reflexivity|]. by apply sysfs_create_ok.
Qed.

Lemma types_create_ok t mem : false ∉ mem -> exists t' mem', lvm_type_filter_create configured t mem = RxRet (Some t') mem' /\ false ∉ mem' /\ scanned (default [] types) blocks t t'.
Proof.
  intros Hmem. unfold lvm_type_filter_create. destruct (rx_alloc_ok _ Hmem) as [E1 H1]. rewrite (rx_exec _ _ _ _ _ E1). cbn [negb].
  destruct Hcfg as (_ & H2 & H3 & H4 & H5 & H6). destruct (scan_types_ok (F := F) proc chars blocks types t H3 H4 H2 H5 H6) as (t' & E & Ht). cbn [configured su_proc_dir su_devices su_types].
  rewrite E, rx_opt_exec. by eexists _, _.
Qed.

Lemma regex_create_stage filters c mem : false ∉ mem ->
  exists c' mem', (match rule_values (F := F) <$> rules with
                   | None => mret (Some (filters, c))
                   | Some v => rf ← regex_filter_create v; mret ((fun rf => (filters ++ [regex_part fixed], set_regex rf c)) <$> rf)
                   end) mem = RxRet (Some (filters ++ (fst <$> regex_filters), c')) mem' /\ false ∉ mem' /\ ch_sysfs c' = ch_sysfs c /\ ch_types c' = ch_types c /\
    forall r, rules = Some r -> rfilter_ok (snd <$> r) (ch_regex c').
Proof.
  intros Hmem. unfold regex_filters. destruct Hcfg as (Hrules & _). destruct rules as [r|]; cbn [fmap option_fmap option_map].
  2: { eexists c, mem. cbn. rewrite app_nil_r. done. }
  destruct (Hrules r eq_refl) as (H1 & H2 & H3 & H4). destruct (regex_filter_ok (F := F) r mem H1 H2 H3 H4 Hmem) as (rf & mem' & E & Hm & Hrf). rewrite (rx_exec _ _ _ _ _ E).
  eexists (set_regex rf c), mem'. split; [reflexivity|]. split; [done|]. split; [done|]. split; [done|]. intros r' [= <-]. done.
Qed.

Lemma filter_ext {S} (f : passes_filter S) ok D D' : (forall dev, D dev <-> D' dev) -> Filter ds f ok D -> Filter ds f ok D'.
Proof.
  intros HD [Hp Ha]. split; [intros d d' H; rewrite <- !HD; by apply Hp|]. intros dev s Hs Hdev. destruct (Ha dev s Hs Hdev) as (b & dev' & s' & E & H1 & H2 & H3). exists b, dev', s'. by rewrite <- HD.
Qed.

(** One filter, or the composition of several. *)
Lemma compose_stage (fs' : list (passes_filter chain)) Ds c mem : false ∉ mem -> Forall2 (fun f D => Filter ds f chain_ok D) fs' Ds ->
  exists f mem', (match fs' with
                  | [f] => mret (Some (f, c))
                  | _ => f ← composite_filter_create (length fs') (Some fs'); mret ((fun f => (f, c)) <$> f)
                  end : RX (list bool) (option (passes_filter chain * chain))) mem = RxRet (Some (f, c)) mem' /\ false ∉ mem' /\ Filter ds f chain_ok (fun dev => Forall (fun D => D dev) Ds).
Proof.
  intros Hmem Hfs. assert (exists f mem', (f ← composite_filter_create (length fs') (Some fs'); mret ((fun f => (f, c)) <$> f) : RX (list bool) (option (passes_filter chain * chain))) mem = RxRet (Some (f, c)) mem' /\ false ∉ mem' /\
    Filter ds f chain_ok (fun dev => Forall (fun D => D dev) Ds)) as Hc.
  { destruct (rx_alloc_ok _ Hmem) as [E1 H1]. destruct (rx_alloc_ok _ H1) as [E2 H2].
    rewrite (rx_exec (composite_filter_create (length fs') (Some fs')) _ mem (Some (and_p fs')) (tail (tail mem))).
    - eexists _, _. split; [reflexivity|]. split; [done|]. by apply and_p_filter.
    - unfold composite_filter_create. rewrite (rx_exec _ _ _ _ _ E1). cbn [negb]. rewrite (proj2 (Nat.leb_le _ _)), rx_opt_exec, (rx_exec _ _ _ _ _ E2), take_ge by lia. done. }
  destruct fs' as [|f [|g fs']]; [exact Hc| |exact Hc]. exists f, mem. split; [done|]. split; [done|]. apply Forall2_cons_inv_l in Hfs as (D & Ds' & Hf & Hnil & ->). apply Forall2_nil_inv_l in Hnil as ->.
  eapply filter_ext; [|exact Hf]. intros dev. rewrite Forall_cons. split; [by intros H|by intros [H _]].
Qed.

(** The filters for components that are made. *)
Lemma components_stage mem : false ∉ mem -> exists mem1 mem2 omd omp, (if md then md_filter_create dev_is_md else mret None) mem = RxRet omd mem1 /\
  (if mpath then mpath_filter_create mio sysfs_dir else mret None) mem1 = RxRet omp mem2 /\ false ∉ mem2 /\
  option_list omd = (if md then [ignore_md true dev_is_md] else []) /\ option_list omp = if mpath_wanted then [mpath_part mio sysfs_dir] else [].
Proof.
  intros Hmem. assert (exists mem1 omd, (if md then md_filter_create dev_is_md else mret None) mem = RxRet omd mem1 /\ false ∉ mem1 /\ option_list omd = if md then [ignore_md true dev_is_md] else []) as (mem1 & omd & E1 & H1 & Emd).
  { destruct md; [|by exists mem, None]. destruct (rx_alloc_ok _ Hmem) as [E1 H1]. unfold md_filter_create. rewrite (rx_exec _ _ _ _ _ E1). by eexists _, _. }
  exists mem1. unfold mpath_wanted, mpath_filter_create. destruct mpath; [|by exists mem1, omd, None]. destruct sysfs_dir as [|x dir]; [by exists mem1, omd, None|].
  destruct (rx_alloc_ok _ H1) as [E2 H2]. rewrite (rx_exec _ _ _ _ _ E2). cbn [negb]. destruct (rx_alloc_ok _ H2) as [E3 H3]. rewrite (rx_exec _ _ _ _ _ E3). by eexists _, omd, _.
Qed.

Lemma init_filter_components_ok mem : false ∉ mem -> exists f c' mem', init_filter_components configured c0 mem = RxRet (Some (f, c')) mem' /\ false ∉ mem' /\ chain_ok c' /\
  Filter ds f chain_ok chain_decides.
Proof.
  intros Hmem. unfold init_filter_components. cbn [configured su_sysfs_scan su_fs su_sysfs_dir su_filter su_fixed su_io su_min su_md su_dev_is_md su_mpath su_mpath_io].
  destruct (sysfs_create_place mem Hmem) as (r & mem1 & E1 & Hm1 & Hr). rewrite (rx_exec _ _ _ _ _ E1).
  assert (exists c1, match r with Some (s, (dir, depth)) => ([sysfs_part depth (sys_dir fs dir) dir], set_sysfs s c0) | None => ([], c0) end = (fst <$> sysfs_filters, c1) /\ ch_types c1 = ch_types c0 /\
    forall dir depth, sysfs_place = Some (dir, depth) -> sysfs_ok depth (sys_dir fs dir) dir (ch_sysfs c1)) as (c1 & -> & Ht1 & Hs1).
  { unfold sysfs_filters. destruct sysfs_place as [[dir depth]|]; [|subst r; by exists c0]. destruct Hr as (s & -> & Hs). exists (set_sysfs s c0). do 2 (split; [done|]). by intros ?? [= <- <-]. }
  destruct (regex_create_stage (fst <$> sysfs_filters) c1 mem1 Hm1) as (c2 & mem2 & E2 & Hm2 & Hs2 & Ht2 & Hr2). rewrite (rx_exec _ _ _ _ _ E2).
  destruct (types_create_ok (ch_types c2) mem2 Hm2) as (t & mem3 & E3 & Hm3 & Ht3). rewrite (rx_exec _ _ _ _ _ E3).
  destruct (components_stage mem3 Hm3) as (mem4 & mem5 & omd & omp & E4 & E5 & Hm5 & Emd & Emp). rewrite (rx_exec _ _ _ _ _ E4), (rx_exec _ _ _ _ _ E5), Emd, Emp.
  assert (((((fst <$> sysfs_filters) ++ (fst <$> regex_filters)) ++ [types_part io pv_min_size]) ++ (if md then [ignore_md true dev_is_md] else [])) ++ (if mpath_wanted then [mpath_part mio sysfs_dir] else []) = fst <$> chain_filters) as ->.
  { unfold chain_filters. rewrite !fmap_app, <- !app_assoc. do 3 f_equal. by destruct md, mpath_wanted. }
  destruct (compose_stage (fst <$> chain_filters) (snd <$> chain_filters) (set_types t c2) mem5 Hm5 chain_filters_ok) as (f & mem6 & E6 & Hm6 & Hf).
  exists f, (set_types t c2), mem6. split; [exact E6|]. split; [done|]. split; [|eapply filter_ext; [|exact Hf]; apply chain_decision].
  split; [intros dir depth E; cbn; rewrite Hs2; by apply Hs1|]. split; [done|]. destruct Ht3 as (Hty & _ & _ & _ & Hdm & _). split; [exact Hty|]. cbn [ch_types set_types]. by rewrite Hdm, Ht2, Ht1.
Qed.

(** The whole of it, with the persistent filter in front. *)
Lemma init_filters_ok usable mem : Proper (same_dev ==> eq) usable -> false ∉ mem ->
  exists f pf mem' (ok : pfilter chain -> Prop), init_filters configured usable c0 mem = RxRet (Some (f, pf)) mem' /\ ok pf /\
    Filter ds f ok (remembered dm_number usable chain_decides) /\ forall pf, ok pf -> exists pf', persistent_filter_wipe pf = RxRet tt pf' /\ ok pf'.
Proof.
  intros Hus Hmem. unfold init_filters. destruct (init_filter_components_ok mem Hmem) as (f3 & c' & mem1 & E1 & Hm1 & Hc & Hf). rewrite (rx_exec _ _ _ _ _ E1).
  destruct (persistent_create_ok ds dm_number chain_ok chain_decides c' mem1 Hc Hm1) as (pf & mem2 & E2 & Hpf). rewrite (rx_exec _ _ _ _ _ E2). rewrite (proj2 (proj2 (proj2 Hc))).
  eexists _, pf, mem2, (pf_ok ds dm_number chain_ok chain_decides). split; [reflexivity|]. split; [done|]. split; [by apply lookup_p_filter|].
  intros pf0 H0. destruct (persistent_wipe_ok _ _ _ _ pf0 H0) as (pf' & E & H & _). by exists pf'.
Qed.

End chain.

(** ** Walks and wipes *)

(** What commands do with the filter: walk over the devices, or wipe the cache. *)
Inductive fop := Walk | Wipe.

#[export] Instance fop_eq_dec : EqDecision fop.
Proof. solve_decision. Defined.

Fixpoint run_fops {S} (f : passes_filter (pfilter S)) (ops : list fop) (devs : list fdev) : RX (pfilter S) (list (list fdev)) :=
  match ops with
  | [] => mret []
  | Walk :: ops => r ← dev_walk (Datatypes.S (length devs)) (Some f) devs; rest ← run_fops f ops r.2; mret (r.1 :: rest)
  | Wipe :: ops => persistent_filter_wipe;; run_fops f ops devs
  end.

Lemma walked_same D ds devs given all : Proper (same_dev ==> iff) D -> Forall2 same_dev ds devs -> walked D devs given all -> walked D ds given all.
Proof.
  intros HD Hds Hw. revert ds Hds. assert (forall d d', same_dev d d' -> passes D d <-> passes D d') as Hp.
  { intros d d' Hs. unfold passes. rewrite (HD d d' Hs). by destruct Hs as (_ & _ & ->). }
  induction Hw as [|d d' current given all H1 H2 H3 IH|d d' current given all H1 H2 H3 IH]; intros ds Hds; inversion Hds as [|x ? ds' ? Hx Hds']; subst; [constructor|apply walked_given|apply walked_skipped].
  - by apply (Hp x d).
  - by etransitivity.
  - by apply IH.
  - by rewrite (Hp x d).
  - by etransitivity.
  - by apply IH.
Qed.

Lemma run_fops_ok {S} ds (f : passes_filter (pfilter S)) (ok : pfilter S -> Prop) D : Filter ds f ok D -> (forall pf, ok pf -> exists pf', persistent_filter_wipe pf = RxRet tt pf' /\ ok pf') ->
  forall ops devs pf, Forall2 same_dev ds devs -> ok pf ->
  exists given pf', run_fops f ops devs pf = RxRet given pf' /\ length given = length (filter (fun o => o = Walk) ops) /\ Forall (fun g => exists all, walked D ds g all) given.
Proof.
  intros Hf Hwipe. induction ops as [|[] ops IH]; intros devs pf Hdevs Hok; cbn [run_fops].
  - by exists [], pf.
  - assert (Forall (among ds) devs) as Ha.
    { apply Forall_forall. intros d Hd. apply list_elem_of_lookup in Hd as [i Hi]. destruct (Forall2_lookup_r _ _ _ _ _ Hdevs Hi) as (d0 & H0 & Hs). exists d0. split; [by eapply list_elem_of_lookup_2|done]. }
    destruct (dev_walk_ok ds f ok D Hf (Datatypes.S (length devs)) devs pf ltac:(lia) Hok Ha) as (g & all & pf1 & E1 & H1 & Hw). rewrite (rx_exec _ _ _ _ _ E1). cbn [fst snd].
    assert (Forall2 same_dev ds all) as Hall. { pose proof (walked_all _ _ _ _ Hw) as H. revert H. revert Hdevs. apply transitivity. }
    destruct (IH all pf1 Hall H1) as (given & pf2 & E2 & Hl & Hg). rewrite (rx_exec _ _ _ _ _ E2). exists (g :: given), pf2. split; [done|]. split; [cbn; by rewrite Hl|].
    constructor; [|done]. exists all. eapply walked_same; [apply Hf|exact Hdevs|exact Hw].
  - destruct (Hwipe pf Hok) as (pf1 & E1 & H1). rewrite (rx_exec _ _ _ _ _ E1). by apply IH.
Qed.

(** ** Theorems *)

(** C8: the filters that a configuration sets up decide about every device as the
    configuration says, for any sequence of walks over the devices and wipes of the
    cache.  A walk gives, in their order, the regular files and the devices that sysfs
    lists (when it is asked), whose names the rules accept, whose major number has a type
    with partitions in /proc/devices or in the configuration and that can hold a PV, that
    are no md components (when these are detected) and no SCSI disks that a multipath
    device holds (when these are detected); a device-mapper device must be usable
    besides.  The cache of the persistent filter never changes an answer.

    What is repeated in the patterns of the rules is a choice of single characters, and
    characters in brackets and behind a backslash are ASCII ones ([good]).  The multipath
    filter goes by the name that is preferred, so with it the names of a SCSI disk must
    lead to the same holders ([holders_agree]; see [mpath_goes_by_name] for a disk where
    they do not).  Memory does not run out. *)
Theorem device_filters_decide {F} scan fs sysfs_dir rules fixed types proc chars blocks io pv_min_size md dev_is_md mpath mio ds usable c mem :
  devices ds -> ProbeOk io -> configuration_ok rules types proc chars blocks -> components_ok sysfs_dir blocks md dev_is_md mpath mio c ds ->
  Proper (same_dev ==> eq) usable -> false ∉ mem ->
  exists f pf mem', init_filters (configured (F := F) scan fs sysfs_dir rules fixed types proc chars blocks io pv_min_size md dev_is_md mpath mio) usable c mem = RxRet (Some (f, pf)) mem' /\
    forall ops, exists given pf', run_fops f ops ds pf = RxRet given pf' /\ length given = length (filter (fun o => o = Walk) ops) /\
      Forall (fun g => exists all, walked (remembered (dm_number blocks c) usable (chain_decides scan fs sysfs_dir rules types blocks io pv_min_size md dev_is_md mpath mio c)) ds g all) given.
Proof.
  intros Hds Hio Hcfg Hcomp Hus Hmem.
  destruct (init_filters_ok (F := F) scan fs sysfs_dir rules fixed types proc chars blocks io pv_min_size md dev_is_md mpath mio c ds Hds Hio Hcfg Hcomp usable mem Hus Hmem) as (f & pf & mem' & ok & E & Hok & Hf & Hw).
  exists f, pf, mem'. split; [done|]. intros ops. by apply (run_fops_ok ds f ok _ Hf Hw ops ds pf).
Qed.

(** What the regular expression filter of a list of rules does with a device, for any
    state that it comes to. *)
Definition decided (fixed : bool) (rules : list rule) (dev : fdev) (r : bool * fdev) : Prop :=
  same_dev dev r.2 /\ (r.1 = true <-> accepted rules dev) /\
  (fixed = false -> (exists n, n ∈ fd_aliases dev /\ decides rules n true) -> exists n, head (fd_aliases r.2) = Some n /\ decides rules n true).

Fixpoint accept_all (fixed : bool) (devs : list fdev) : RX rfilter (list (bool * fdev)) :=
  match devs with [] => mret [] | dev :: devs => r ← accept_p fixed dev; rest ← accept_all fixed devs; mret (r :: rest) end.

(** C19: the filter made from a list of rules answers for any sequence of devices: a
    device is used when one of its names is accepted, or none is rejected, where the
    first rule that matches a name decides about it; and unless the configuration orders
    names itself, the preferred name of a device with accepted names is one of them.
    What is repeated in the patterns of the rules is a choice of single characters, and
    characters in brackets and behind a backslash are ASCII ones ([good]; with
    repeated groups the matcher can miss words, see [optimiser_loses_words]).  Memory
    does not run out. *)
Theorem regex_filter_decides {F} fixed (rules : list (Z * rule)) (devs : list fdev) mem :
  rules_ok rules -> Forall dev_ok devs -> false ∉ mem ->
  exists rf mem' rs rf', regex_filter_create (rule_values (F := F) rules) mem = RxRet (Some rf) mem' /\
    accept_all fixed devs rf = RxRet rs rf' /\ Forall2 (decided fixed (snd <$> rules)) devs rs.
Proof.
  intros (H1 & H2 & H3 & H4) Hdevs Hmem. destruct (regex_filter_ok (F := F) rules mem H1 H2 H3 H4 Hmem) as (rf & mem' & E & _ & Hrf).
  assert (exists rs rf', accept_all fixed devs rf = RxRet rs rf' /\ Forall2 (decided fixed (snd <$> rules)) devs rs) as (rs & rf' & E' & Hrs); [|by exists rf, mem', rs, rf'].
  clear E. revert rf Hrf. induction Hdevs as [|dev devs [_ Hdev] _ IH]; intros rf Hrf; cbn [accept_all]; [by exists [], rf|].
  destruct (accept_loop_ok fixed (snd <$> rules) dev (fd_aliases dev) [] false rf Hrf Hdev eq_refl) as (b & dev' & rf1 & E1 & Hrf1 & Hs & Hb & Hpref); [set_solver|set_solver|].
  unfold accept_p at 1. rewrite (rx_exec _ _ _ _ _ E1). destruct (IH rf1 Hrf1) as (rs & rf2 & E2 & Hrs). rewrite (rx_exec _ _ _ _ _ E2). exists ((b, dev') :: rs), rf2. split; [done|]. by constructor.
Qed.

(** C20: scanning /proc/devices leaves for every major number the partitions that the last
    line of a recognised driver gives it - those of the first configured type, or else
    of the first built-in type, that the name of the driver begins with - and 0 for all
    others; the single drivers, and the majors of SCSI disks, are found by their whole
    name.  The major numbers are those that the kernel has, below 4096. *)
Theorem proc_devices_scanned {F} proc chars blocks (types : option (list (list Z * Z))) t :
  proc <> [] -> (length proc < 4088)%nat -> cfg_ok (default [] types) -> Forall driver_ok chars -> Forall driver_ok blocks ->
  exists t', scan_proc_dev (F := F) proc (Some (proc_devices chars blocks)) (cfg_values <$> types) t = Some (t', true) /\
    (forall m, 0 <= m -> max_partitions t' m = Some (if m <? NUMBER_OF_MAJORS then recorded (default [] types) blocks m else 0)) /\
    (forall m, 0 <= m -> major_is_scsi_device t' m = Some ((m <? NUMBER_OF_MAJORS) && scsi_major blocks m)) /\
    ty_device_mapper t' = major_of (bytes "device-mapper") blocks (ty_device_mapper t) /\ ty_md t' = major_of (bytes "md") blocks (ty_md t) /\
    ty_drbd t' = major_of (bytes "drbd") blocks (ty_drbd t) /\ ty_emcpower t' = major_of (bytes "emcpower") blocks (ty_emcpower t) /\
    ty_blkext t' = major_of (bytes "blkext") blocks (ty_blkext t).
Proof.
  intros H1 H2 H3 H4 H5. destruct (scan_types_ok (F := F) proc chars blocks types t H1 H2 H3 H4 H5) as (t' & E & (Ht & Hm1 & Hm2 & Hm3 & Hm4 & Hm5)).
  exists t'. split; [done|]. split; [|split; [intros m Hm; by eapply scsi_device|done]]. destruct Ht as [Hl Hc]. intros m Hm. unfold max_partitions. destruct (Z.leb_spec NUMBER_OF_MAJORS m), (Z.ltb_spec m NUMBER_OF_MAJORS); try lia; [done|].
  destruct (zlookup_is_Some (ty_partitions t') m) as [e He]; [lia|]. rewrite He. cbn. f_equal. by apply Hc.
Qed.

(** The state before any filter is set up. *)
Definition no_types : FilterDevs.types := Types [] (-1) (-1) (-1) (-1) (-1).
Definition example_blocks : list (Z * list Z) := [(8, bytes "sd"); (253, bytes "device-mapper"); (259, bytes "blkext")].

Lemma proc_devices_scanned_witness : exists t', scan_proc_dev (F := unit) (bytes "/proc") (Some (proc_devices [(4, bytes "tty")] example_blocks)) None no_types = Some (t', true) /\
  max_partitions t' 8 = Some 16 /\ max_partitions t' 4 = Some 0 /\ major_is_scsi_device t' 8 = Some true /\ ty_device_mapper t' = 253.
Proof.
  destruct (proc_devices_scanned (F := unit) (bytes "/proc") [(4, bytes "tty")] example_blocks None no_types) as (t' & E & Hm & Hsc & Hdm & _).
  - done.
  - cbn. lia.
  - constructor.
  - repeat constructor; done || (cbn; lia).
  - repeat constructor; done || (cbn; lia).
  - exists t'. split; [exact E|]. rewrite (Hm 8), (Hm 4), (Hsc 8), Hdm by lia. done.
Defined.

(** a driver whose number is a multiple of 4096 is taken for the header of another
    section: no driver behind it is recorded, although the code means to use 12 bits of
    the number. *)
Theorem block_section_lost {F} cfg proc chars name blocks t :
  proc <> [] -> (length proc < 4088)%nat -> cfg_ok cfg -> Forall driver_ok chars -> Forall driver_ok blocks -> driver_ok (1, name) ->
  exists t', scan_proc_dev (F := F) proc (Some (proc_devices chars ((NUMBER_OF_MAJORS, name) :: blocks))) (Some (cfg_values cfg)) t = Some (t', true) /\
    forall m, 0 <= m -> max_partitions t' m = Some 0.
Proof.
  intros H1 H2 H3 H4 H5 H6. destruct (scan_lost (F := F) cfg proc chars name blocks t H1 H2 H3 H4 H5 H6) as (t' & E & [Hl Hc] & _). exists t'. split; [done|].
  intros m Hm. unfold max_partitions. destruct (Z.leb_spec NUMBER_OF_MAJORS m); [done|]. destruct (zlookup_is_Some (ty_partitions t') m) as [e He]; [lia|]. rewrite He. cbn. f_equal. exact (proj1 (Hc m e He)).
Qed.

Lemma block_section_lost_witness : exists t', scan_proc_dev (F := unit) (bytes "/proc") (Some (proc_devices [] ((NUMBER_OF_MAJORS, bytes "drv") :: example_blocks))) (Some []) no_types = Some (t', true) /\
  max_partitions t' 8 = Some 0.
Proof.
  destruct (block_section_lost (F := unit) [] (bytes "/proc") [] (bytes "drv") example_blocks no_types) as (t' & E & Hm).
  - done.
  - cbn. lia.
  - constructor.
  - constructor.
  - repeat constructor; done || (cbn; lia).
  - repeat constructor; done || (cbn; lia).
  - exists t'. split; [exact E|]. apply Hm. lia.
Defined.

(** a pattern that is a letter alone, or a letter and a separator alone, is read
    outside its memory when the filter is made. *)
Theorem short_pattern_read_outside {F} c s (rest : list (cvalue F)) n mem :
  c = 97 \/ c = 114 -> count_patterns rest = Some n -> 0 <= n < 2 ^ 31 - 1 -> false ∉ mem ->
  regex_filter_create (CfgString [c] :: rest) mem = RxWild /\ regex_filter_create (CfgString [c; s] :: rest) mem = RxWild.
Proof.
  intros Hc Hn Hr Hmem. destruct (rx_alloc_ok _ Hmem) as [E1 H1]. destruct (rx_alloc_ok _ H1) as [E2 H2]. destruct (rx_alloc_ok _ H2) as [E3 H3]. destruct (rx_alloc_ok _ H3) as [E4 H4].
  destruct (rx_alloc_ok _ H4) as [E5 H5]. destruct (rx_alloc_ok _ H5) as [E6 H6].
  assert (forall p, (forall a, bs_wf (n + 1) a -> extract_pattern p a n (tail (tail (tail (tail (tail mem))))) = RxWild) -> regex_filter_create (CfgString p :: rest) mem = RxWild) as H.
  { intros p Hp. unfold regex_filter_create. rewrite (rx_exec _ _ _ _ _ E1). cbn [negb]. rewrite (rx_exec _ _ _ _ _ E2). cbn [negb]. unfold build_matcher. rewrite !rx_assoc, (rx_exec _ _ _ _ _ E3). cbn [negb count_patterns].
    rewrite Hn. cbn [mbind option_bind]. rewrite !rx_assoc, (rx_exec _ _ _ _ _ E4). cbn [negb]. rewrite !rx_assoc, (rx_exec _ _ _ _ _ E5). cbn [negb extract_patterns]. rewrite !rx_assoc.
    unfold mbind, RX_bind. replace (n + 1 - 1) with n by lia. rewrite Hp; [done|]. apply bs_create_wf; lia. }
  assert (forall a, bs_wf (n + 1) a -> exists a', (if c =? 97 then dm_bit_set a n else dm_bit_clear a n) = Some a') as Hbit.
  { intros a Ha. destruct (c =? 97); [destruct (dm_bit_set_spec (n + 1) a n Ha ltac:(unfold bs_cap; lia)) as (a' & E & _)|destruct (dm_bit_clear_spec (n + 1) a n Ha ltac:(unfold bs_cap; lia)) as (a' & E & _)]; by exists a'. }
  assert (negb (c =? 97) && negb (c =? 114) = false) as Hg by (destruct Hc as [-> | ->]; done).
  split; apply H; intros a Ha; unfold extract_pattern; rewrite Hg; destruct (Hbit a Ha) as [a' ->]; rewrite rx_opt_exec; [done|]. by rewrite (rx_exec _ _ _ _ _ E6).
Qed.

Lemma short_pattern_read_outside_witness : regex_filter_create (F := unit) [CfgString (bytes "a")] [] = RxWild /\ regex_filter_create (F := unit) [CfgString (bytes "a/")] [] = RxWild.
Proof. apply (short_pattern_read_outside 97 47 [] 0 []); [by left|reflexivity|lia|apply not_elem_of_nil]. Defined.

(** ** The multipath filter and names *)

(** A disk with two names that a multipath device holds. *)
Definition held_disk : fdev := FDev [bytes "/dev/sda"; bytes "/dev/disk/by-id/x"] (MKDEV 8 0) 0.
Definition held_disk' : fdev := FDev [bytes "/dev/disk/by-id/x"; bytes "/dev/sda"] (MKDEV 8 0) 0.
Definition held_io : mpath_io :=
  MpathIO (fun p => if bool_decide (p = bytes "/sys/block/sda/holders") then Some [bytes "."; bytes ".."; bytes "dm-0"] else None)
          (fun p => if bool_decide (p = bytes "/sys/block/dm-0/dev") then Some (bytes "253:0" ++ [10]) else None) (fun _ _ => 1).
Definition held_types : FilterDevs.types := Types (<[8%nat := (16, 1)]> (replicate 4096 (0, 0))) (-1) (-1) (-1) 253 (-1).

(** the filter for multipath components goes by the preferred name: it skips a disk
    that a multipath device holds under its kernel name and lets it pass when another
    name of it is preferred, so that it makes no decision about devices. *)
Theorem mpath_goes_by_name :
  same_dev held_disk held_disk' /\
  ignore_mpath held_io (bytes "/sys") held_disk held_types = RxRet (false, held_disk) held_types /\
  ignore_mpath held_io (bytes "/sys") held_disk' held_types = RxRet (true, held_disk') held_types /\
  ~ exists D, Filter [held_disk] (ignore_mpath held_io (bytes "/sys")) (eq held_types) D.
Proof.
  assert (same_dev held_disk held_disk') as Hs by (split; [apply Permutation_swap|done]).
  assert (ignore_mpath held_io (bytes "/sys") held_disk held_types = RxRet (false, held_disk) held_types) as E1 by by vm_compute.
  assert (ignore_mpath held_io (bytes "/sys") held_disk' held_types = RxRet (true, held_disk') held_types) as E2 by by vm_compute.
  split; [done|]. split; [done|]. split; [done|]. intros (D & Hf).
  destruct (filter_answers (ok := eq held_types) held_disk held_types eq_refl) as (b & d & s & E & _ & _ & Hb); [by exists held_disk; split; [left|]|].
  destruct (filter_answers (ok := eq held_types) held_disk' held_types eq_refl) as (b' & d' & s' & E' & _ & _ & Hb'); [by exists held_disk; split; [left|]|].
  rewrite E1 in E. rewrite E2 in E'. injection E as <- <- <-. injection E' as <- <- <-. pose proof (filter_proper held_disk held_disk' Hs). discriminate (proj2 Hb (proj2 H (proj1 Hb' eq_refl))).
Qed.

(** ** Examples *)

(** Two devices, one with two names, under a configuration that has all the parts. *)
Definition example_devices : list fdev := [FDev [bytes "/dev/sda"; bytes "/dev/disk/by-id/x"] (MKDEV 8 0) 0; FDev [bytes "/dev/sr0"] (MKDEV 11 0) 0].
Definition example_fs : sysfs :=
  Sysfs (fun p => bool_decide (p = bytes "/sys/class/block")) (fun p => if bool_decide (p = bytes "/sys/class/block") then Some [SysNode (bytes "sda") (Some (Some (bytes "8:0"))) None] else None).
Definition example_rules : list (Z * rule) := [(47, (true, PCat (PAtom (AChar 115)) (PAtom (AChar 100)))); (124, (false, PAtom ADot))].
Definition example_io : probe := Probe (fun _ => true) (fun _ => Some 4096) (fun _ => false).

Definition example_chain : chain := Chain (dev_set_create []) (RFilter [] (DmRegex 0 0 0 [] [] [] [] (Ttree 0 TNil) [] None None [] [])) no_types.

Lemma example_rules_ok : rule_values (F := unit) example_rules = [CfgString (bytes "a/sd/"); CfgString (bytes "r|.|")] /\ rules_ok example_rules.
Proof. split; [done|]. split; [done|]. split; [by repeat constructor|]. split; [by vm_compute|by vm_compute]. Qed.

Lemma example_devices_ok : devices example_devices.
Proof. split; [|apply (bool_decide_eq_true_1 _); by vm_compute]. repeat constructor; done. Qed.

Lemma regex_filter_decides_witness : exists rf mem' rs rf', regex_filter_create (rule_values (F := unit) example_rules) [] = RxRet (Some rf) mem' /\
  accept_all false example_devices rf = RxRet rs rf' /\ Forall2 (decided false (snd <$> example_rules)) example_devices rs.
Proof. apply (regex_filter_decides false example_rules example_devices []); [apply example_rules_ok|apply example_devices_ok|apply not_elem_of_nil]. Defined.

(** Two disks, of which a multipath device holds the first, and a third device. *)
Definition mpath_devices : list fdev := [FDev [bytes "/dev/sda"; bytes "/dev/block/sda"] (MKDEV 8 0) 0; FDev [bytes "/dev/sdb"] (MKDEV 8 16) 0; FDev [bytes "/dev/sr0"] (MKDEV 11 0) 0].
Definition mpath_fs : sysfs :=
  Sysfs (fun p => bool_decide (p = bytes "/sys/class/block")) (fun p => if bool_decide (p = bytes "/sys/class/block") then Some [SysNode (bytes "sda") (Some (Some (bytes "8:0"))) None; SysNode (bytes "sdb") (Some (Some (bytes "8:16"))) None] else None).

Lemma mpath_components_ok : components_ok (bytes "/sys") example_blocks true (fun _ => 0) true held_io example_chain mpath_devices.
Proof.
  split; [by intros _ ???|]. intros _. split.
  - intros path entries. cbn [held_io mp_dir]. case_bool_decide; [|done]. intros [= <-]. apply (bool_decide_eq_true_1 _). by vm_compute.
  - intros d n n' Hd _ Hn Hn' (k & entries & h & minor & E & H). exists k, entries, h, minor. split; [|done]. rewrite <- E.
    repeat (apply elem_of_cons in Hd as [->|Hd]); [| | |by apply not_elem_of_nil in Hd];
      repeat (apply elem_of_cons in Hn as [->|Hn]); try (by apply not_elem_of_nil in Hn);
      repeat (apply elem_of_cons in Hn' as [->|Hn']); try (by apply not_elem_of_nil in Hn'); by vm_compute.
Qed.

Lemma sda_held : held_by_mpath held_io (bytes "/sys") 253 (bytes "/dev/sda").
Proof.
  exists (bytes "sda"), [bytes "."; bytes ".."; bytes "dm-0"], (bytes "dm-0"), 0. split; [reflexivity|]. split; [apply Nat.ltb_lt; reflexivity|].
  split; [reflexivity|]. split; [reflexivity|]. split; reflexivity.
Qed.

Lemma walked_passes D ds given all : walked D ds given all -> Forall (fun g => exists d, d ∈ ds /\ same_dev d g /\ passes D d) given.
Proof.
  assert (forall d ds given, Forall (fun g => exists d, d ∈ ds /\ same_dev d g /\ passes D d) given -> Forall (fun g => exists d', d' ∈ d :: ds /\ same_dev d' g /\ passes D d') given) as Hc.
  { intros d ds' given' H. eapply Forall_impl; [exact H|]. intros g (d' & H1 & H2). exists d'. split; [by right|done]. }
  induction 1 as [|d d' current given all H1 H2 _ IH|d d' current given all H1 H2 _ IH]; [constructor| |by apply Hc].
  constructor; [|by apply Hc]. exists d. split; [left|done].
Qed.

Lemma sda_skipped : let D := chain_decides true mpath_fs (bytes "/sys") (Some example_rules) None example_blocks example_io 2048 true (fun _ => 0) true held_io example_chain in
  forall d, d ∈ mpath_devices -> passes (remembered 253 (fun _ => true) D) d -> bytes "/dev/sda" ∉ fd_aliases d.
Proof.
  intros D d Hd Hp. apply elem_of_cons in Hd as [->|Hd].
  - exfalso. destruct Hp as [Hp|[Hp _]]; [apply Hp; reflexivity|]. destruct Hp as (_ & _ & _ & _ & Hp). apply (Hp eq_refl eq_refl (bytes "/dev/sda")); [left|exact sda_held].
  - clear Hp. repeat (apply elem_of_cons in Hd as [->|Hd]); [| |by apply not_elem_of_nil in Hd]; apply (bool_decide_eq_true_1 _); by vm_compute.
Qed.

Lemma device_filters_decide_witness : exists f pf mem',
  init_filters (configured (F := unit) true mpath_fs (bytes "/sys") (Some example_rules) false None (bytes "/proc") [] example_blocks example_io 2048 true (fun _ => 0) true held_io) (fun _ => true) example_chain [] = RxRet (Some (f, pf)) mem' /\
  exists given pf', run_fops f [Walk; Wipe; Walk; Walk] mpath_devices pf = RxRet given pf' /\ length given = 3%nat /\
    Forall (Forall (fun g => bytes "/dev/sda" ∉ fd_aliases g)) given.
Proof.
  destruct (device_filters_decide (F := unit) true mpath_fs (bytes "/sys") (Some example_rules) false None (bytes "/proc") [] example_blocks example_io 2048
    true (fun _ => 0) true held_io mpath_devices (fun _ => true) example_chain []) as (f & pf & mem' & E & Hrun).
  - split; [|apply (bool_decide_eq_true_1 _); by vm_compute]. repeat constructor; done.
  - split; by intros ???.
  - split; [intros r [= <-]; apply example_rules_ok|]. split; [constructor|]. split; [done|]. split; [cbn; lia|]. split; [constructor|]. repeat constructor; done || (cbn; lia).
  - apply mpath_components_ok.
  - by intros ???.
  - apply not_elem_of_nil.
  - exists f, pf, mem'. split; [exact E|]. destruct (Hrun [Walk; Wipe; Walk; Walk]) as (given & pf' & E' & Hl & Hg). exists given, pf'. split; [exact E'|]. split; [rewrite Hl; reflexivity|].
    eapply Forall_impl; [exact Hg|]. intros g (all & Hw). eapply Forall_impl; [exact (walked_passes _ _ _ _ Hw)|]. intros d' (d & Hd & (Hal & _) & Hp). rewrite <- Hal. exact (sda_skipped d Hd Hp).
Defined.
