(* ===== verification/FilterCache.v ===== *)
(** * The file of the persistent filter (lib/filters/filter-persistent.c)

    The persistent filter writes the names of its good devices to a file and reads them
    back when the next command starts. *)

From stdpp Require Import gmap.
From S2P Require Import Prelude Bitset Hash Regex RegexLang RegexOpt RegexParse Ttree Matcher MatcherTables MatcherProps RegexThms Filter FilterProps DmString Config ConfigProps ConfigText.

(** ** Writing *)

(** The string in a key of the table. *)
Definition key_string (k : list Z) : list Z := (span (fun c => negb (c =? 0)) k).1.

(** The loop of [_write_array] over the entries of the table: the text, or [None] when the
    buffer of 8192 bytes for a name is too small. *)
Fixpoint write_array (path : list Z) (data : pf_state) (nodes : list (list Z * pf_state)) (first : bool) : option (list Z) :=
  match nodes with
  | [] => Some (if first then [] else [10; 9; 93; 10])
  | (k, d) :: nodes =>
      if bool_decide (d = data) then
        let buf := dm_escape_double_quotes (key_string k) in
        if Z.of_nat (length buf) <? 8192 then
          rest ← write_array path data nodes false;
          Some ((if first then 9 :: path ++ [61; 91; 10] else [44; 10]) ++ [9; 9; 34] ++ buf ++ [34] ++ rest)
        else None
      else write_array path data nodes first
  end.

(** What [persistent_filter_dump] writes. *)
Definition dump_text (t : table pf_state) : option (list Z) :=
  nodes ← dm_hash_iterate (length (concat (slots t))) t;
  array ← write_array (bytes "valid_devices") PF_GOOD_DEVICE nodes true;
  Some ((bytes "# This file is automatically maintained by lvm." ++ [10; 10]) ++ (bytes "persistent_filter_cache {" ++ [10]) ++ array ++ bytes "}" ++ [10]).

(** ** Reading *)

Section load.
Context {F S : Type} (strtod : list Z -> option F) (behind : list Z).

(** The loop of [_read_array]: what is no string or cannot be added is passed over. *)
Fixpoint read_values (cv : list (cvalue F)) (data : pf_state) : RX (pfilter S) unit :=
  match cv with
  | [] => mret tt
  | CfgString s :: cv => pf_insert s data;; read_values cv data
  | _ :: cv => read_values cv data
  end.

(** [_read_array] *)
Definition read_array (cft : list (cnode F)) (path : list Z) (data : pf_state) : RX (pfilter S) bool :=
  match find_config_node cft path with
  | None => mret false
  | Some cn => read_values (node_v cn) data;; mret true
  end.

(** [persistent_filter_load] of the text [file]; [None]: there is no file. *)
Definition persistent_filter_load (udev : bool) (file : option (list Z)) : RX (pfilter S) bool :=
  if udev then mret true else
  match file with
  | None => mret false
  | Some text =>
      match dm_config_parse strtod behind text with
      | Parsed cft _ =>
          read_array cft (bytes "persistent_filter_cache/valid_devices") PF_GOOD_DEVICE;;
          pf ← rx_get;
          mret (negb (dm_hash_get_num_entries (pf_devices pf) =? 0))
      | ParseError => mret false
      | Wild => rx_wild
      | OutOfFuel => rx_fuel
      end
  end.

(** [persistent_filter_dump]: the answer, and the text when the file is written.
    [changed] is the file to merge: wanted, and changed since it was read. *)
Definition persistent_filter_dump (udev scanned : bool) (changed : option (option (list Z))) : RX (pfilter S) (bool * option (list Z)) :=
  if udev then mret (true, None) else
  pf ← rx_get;
  if dm_hash_get_num_entries (pf_devices pf) =? 0 then mret (false, None) else
  if negb scanned then mret (false, None) else
  (match changed with None => mret true | Some file => persistent_filter_load false file end);;
  pf ← rx_get;
  text ← rx_opt (dump_text (pf_devices pf));
  mret (true, Some text).

End load.

(** ** What is written is read *)

(** Names as the table has them for good devices, with their ends. *)
Definition keys_ok (t : table pf_state) : Prop :=
  forall k v, map_of t !! k = Some v -> exists name, k = name ++ [0] /\ Forall (fun c => c <> 0) name /\ (length name < 4096)%nat.

Definition good_nodes (nodes : list (list Z * pf_state)) : list (list Z * pf_state) := List.filter (fun n => bool_decide (n.2 = PF_GOOD_DEVICE)) nodes.

Lemma key_string_name name : Forall (fun c => c <> 0) name -> key_string (name ++ [0]) = name.
Proof.
  intros H. unfold key_string. rewrite span_stop; [done| |done]. eapply Forall_impl; [exact H|]. intros c Hc. cbn in Hc. by rewrite (proj2 (Z.eqb_neq c 0)).
Qed.

Definition entry (name : list Z) : list Z := 34 :: dm_escape_double_quotes name ++ [34].

(** The elements of the array, and its line. *)
Fixpoint entries (names : list (list Z)) : list Z :=
  match names with
  | [] => []
  | [n] => [10; 9; 9] ++ entry n ++ [10; 9]
  | n :: names => [10; 9; 9] ++ entry n ++ 44 :: entries names
  end.

Definition array_line (path : list Z) (names : list (list Z)) : list Z :=
  match names with [] => [] | _ => [9] ++ (path ++ 61 :: 91 :: entries names ++ [93]) ++ [10] end.

Lemma write_array_names path names : Forall (fun n => Forall (fun c => c <> 0) n /\ (length n < 4096)%nat) names ->
  forall nodes first, fst <$> good_nodes nodes = (fun n => n ++ [0]) <$> names ->
  write_array path PF_GOOD_DEVICE nodes first =
    Some (if first then array_line path names else match names with [] => [10; 9; 93; 10] | _ => 44 :: entries names ++ [93; 10] end).
Proof.
  assert (forall n, (length n < 4096)%nat -> (Z.of_nat (length (dm_escape_double_quotes n)) <? 8192) = true) as Hbuf.
  { intros n Hn. apply Z.ltb_lt. unfold dm_escape_double_quotes. enough (forall o q b, length (quote_characters n o q b) <= 2 * length n)%nat as H by (specialize (H DQUOTE BACKSLASH true); lia).
    intros o q b. clear. induction n as [|c n IH]; [done|]. cbn [quote_characters]. rewrite length_app. destruct ((c =? o) || ((c =? q) && b)); cbn [length]; lia. }
  intros Hnames nodes. revert names Hnames. induction nodes as [|[k d] nodes IH]; intros names Hnames first E.
  { destruct names; [|done]. by destruct first. }
  cbn [write_array good_nodes List.filter snd] in *. destruct (bool_decide (d = PF_GOOD_DEVICE)) eqn:Ed; [|by apply IH].
  destruct names as [|n names]; [done|]. cbn [fmap list_fmap fst] in E. injection E as -> E. apply Forall_cons in Hnames as [[Hn Hl] Hnames]. fold (good_nodes nodes) in E.
  rewrite key_string_name, Hbuf by done. rewrite (IH names Hnames false E). cbn [mbind option_bind]. f_equal. unfold array_line. destruct names as [|m names], first; cbn [entries]; unfold entry.
  all: repeat (rewrite <- ?app_assoc; cbn [app]); done.
Qed.

Section text.
Context {F : Type} (strtod : list Z -> option F) (print_float : F -> list Z) (behind : list Z).

Lemma entries_elems names : Forall (Forall (fun c => c <> 0)) names -> names <> [] -> elems strtod behind (entries names) (CfgString <$> names).
Proof.
  intros Hn Hne. induction Hn as [|n names Hn Hns IH]; [done|]. assert (blank [10; 9; 9]) as Hb by (repeat (apply blank_cons; [done|]); apply blank_nil).
  destruct names as [|m names].
  - apply (elems_last strtod print_float behind [10; 9; 9] (CfgString n) [10; 9]); [done|done|]. right. split; [repeat (apply blank_cons; [done|]); apply blank_nil|]. exists 10, [9]. split; [done|]. by left.
  - change (elems strtod behind ([10; 9; 9] ++ value_text print_float (CfgString n) ++ 44 :: entries (m :: names)) (CfgString n :: (CfgString <$> m :: names))).
    apply elems_cons; [done|done|]. by apply IH.
Qed.

(** A line [key=value]. *)
Lemma denotes_tight pre key text v post : blank pre -> name_ok key -> rhs strtod print_float behind text v -> line_end post ->
  denotes strtod behind (pre ++ (key ++ 61 :: text) ++ post) [Node key v []].
Proof.
  intros Hpre Hk Hr Hpost. assert (forall s, get_token TOK_SECTION_E ((pre ++ (key ++ 61 :: text) ++ post) ++ s) = Parser TOK_IDENTIFIER key (61 :: text ++ post ++ s)) as E.
  { intros s. rewrite <- !app_assoc, get_token_blank by done. cbn [app]. apply get_token_key; auto. }
  apply denotes_node; [intros s; by rewrite E|]. intros s. destruct (value_rhs strtod print_float behind text v post s Hr Hpost) as [n Hn]. rewrite get_token_skip in Hn by done.
  exists (S n). rewrite E, section_S. unfold pmatch at 1. cbn [p_t p_tok p_rest]. rewrite decide_True by done. cbn [pbind].
  change (get_token TOK_IDENTIFIER (61 :: ?x)) with (Parser TOK_EQ [61] x). cbn [p_t].
  rewrite decide_False by done. unfold pmatch at 1. cbn [p_t p_rest]. rewrite decide_True by done. cbn [pbind]. by rewrite Hn.
Qed.

Lemma array_denotes names : Forall (Forall (fun c => c <> 0)) names ->
  denotes strtod behind (array_line (bytes "valid_devices") names) (match names with [] => [] | _ => [Node (bytes "valid_devices") (CfgString <$> names) []] end).
Proof.
  intros Hn. destruct names as [|n names]; [apply denotes_blank, blank_nil|]. unfold array_line.
  apply (denotes_tight [9] (bytes "valid_devices") (91 :: entries (n :: names) ++ [93]) (CfgString <$> n :: names) [10]).
  - apply blank_cons; [done|apply blank_nil].
  - by apply key_ok_dec.
  - exact (rhs_array strtod print_float behind (entries (n :: names)) (CfgString <$> n :: names) (entries_elems (n :: names) Hn ltac:(done))).
  - split; [apply blank_cons; [done|apply blank_nil]|]. exists 10, []. split; [done|]. by left.
Qed.

(** The tree of the file. *)
Definition cache_tree (names : list (list Z)) : list (cnode F) :=
  [Node (bytes "persistent_filter_cache") [] (match names with [] => [] | _ => [Node (bytes "valid_devices") (CfgString <$> names) []] end)].

Lemma dump_parses names : Forall (Forall (fun c => c <> 0)) names ->
  dm_config_parse strtod behind ((bytes "# This file is automatically maintained by lvm." ++ [10; 10]) ++ (bytes "persistent_filter_cache {" ++ [10]) ++ array_line (bytes "valid_devices") names ++ bytes "}" ++ [10])
  = Parsed (cache_tree names) (Parser TOK_EOF [] []).
Proof.
  intros Hn. apply denotes_parse; [done|]. unfold cache_tree.
  change (bytes "persistent_filter_cache {") with (bytes "persistent_filter_cache" ++ bytes " {"). rewrite <- (app_assoc _ [10]).
  change (array_line (bytes "valid_devices") names ++ bytes "}" ++ [10]) with (array_line (bytes "valid_devices") names ++ [] ++ bytes "}" ++ [10]).
  apply denotes_section.
  - change (bytes "# This file is automatically maintained by lvm." ++ [10; 10]) with ((35 :: bytes " This file is automatically maintained by lvm." ++ [10]) ++ [10]).
    apply blank_app; [apply blank_comment; repeat constructor; done|by apply blank_space].
  - by apply key_ok_dec.
  - by apply blank_space.
  - by apply array_denotes.
  - apply blank_nil.
  - by apply blank_space.
Qed.

End text.

(** The names that are written. *)
Lemma dump_ok (t : table pf_state) : inv t -> keys_ok t -> exists names,
  dump_text t = Some ((bytes "# This file is automatically maintained by lvm." ++ [10; 10]) ++ (bytes "persistent_filter_cache {" ++ [10]) ++ array_line (bytes "valid_devices") names ++ bytes "}" ++ [10]) /\
  Forall (Forall (fun c => c <> 0)) names /\ forall name, name ∈ names <-> map_of t !! (name ++ [0]) = Some PF_GOOD_DEVICE.
Proof.
  intros Hi Hk. exists (key_string <$> (fst <$> good_nodes (concat (slots t)))).
  assert (forall k v, (k, v) ∈ concat (slots t) -> exists name, k = name ++ [0] /\ key_string k = name /\ Forall (fun c => c <> 0) name /\ (length name < 4096)%nat) as Hn.
  { intros k v Hin. apply map_of_Some in Hin as Hm; [|done]. destruct (Hk k v Hm) as (name & -> & H1 & H2). exists name. by rewrite key_string_name. }
  assert (forall n, n ∈ good_nodes (concat (slots t)) <-> n ∈ concat (slots t) /\ n.2 = PF_GOOD_DEVICE) as Hg.
  { intros n. unfold good_nodes. rewrite !list_elem_of_In, filter_In. by rewrite bool_decide_eq_true. }
  assert (fst <$> good_nodes (concat (slots t)) = (fun n => n ++ [0]) <$> (key_string <$> (fst <$> good_nodes (concat (slots t))))) as Ef.
  { rewrite <- list_fmap_compose. rewrite <- (list_fmap_id (fst <$> _)) at 1. apply list_fmap_ext. intros i k Hk'. apply list_lookup_fmap_Some_1 in Hk' as ([k' v] & -> & Hi').
    apply list_elem_of_lookup_2, Hg in Hi' as [Hin _]. destruct (Hn k' v Hin) as (name & -> & E & _). unfold compose. cbn [fst id]. by rewrite E. }
  assert (forall name, name ∈ key_string <$> (fst <$> good_nodes (concat (slots t))) <-> map_of t !! (name ++ [0]) = Some PF_GOOD_DEVICE) as Hnames.
  { intros name. rewrite list_elem_of_fmap. split.
    - intros (k & -> & ([k' v] & -> & Hin)%list_elem_of_fmap). apply Hg in Hin as [Hin Hv]. cbn [fst snd] in *. subst v. destruct (Hn _ _ Hin) as (name & -> & -> & _). by apply map_of_Some.
    - intros Hm. apply map_of_Some in Hm as Hin; [|done]. exists (name ++ [0]). destruct (Hn _ _ Hin) as (name' & E & Ek & _). apply app_inj_2 in E as [<- _]; [|done]. split; [done|].
      apply list_elem_of_fmap. exists (name ++ [0], PF_GOOD_DEVICE). split; [done|]. by apply Hg. }
  assert (Forall (fun n => Forall (fun c => c <> 0) n /\ (length n < 4096)%nat) (key_string <$> (fst <$> good_nodes (concat (slots t))))) as Hall.
  { apply Forall_forall. intros name Hin. apply Hnames, map_of_Some in Hin; [|done]. destruct (Hn _ _ Hin) as (name' & E & _ & H). apply app_inj_2 in E as [<- _]; done. }
  split; [|split; [eapply Forall_impl; [exact Hall|]; by intros n []|done]].
  unfold dump_text. rewrite iterate_spec by done. cbn [mbind option_bind]. by rewrite (write_array_names _ _ Hall _ true Ef).
Qed.

(** The names that are read. *)
Lemma read_values_ok {F S} names (pf : pfilter S) : inv (pf_devices pf) -> false ∉ pf_mem pf ->
  exists pf', read_values (F := F) (CfgString <$> names) PF_GOOD_DEVICE pf = RxRet tt pf' /\ inv (pf_devices pf') /\ false ∉ pf_mem pf' /\ pf_real pf' = pf_real pf /\
    forall name, map_of (pf_devices pf') !! (name ++ [0]) = if decide (name ∈ names) then Some PF_GOOD_DEVICE else map_of (pf_devices pf) !! (name ++ [0]).
Proof.
  revert pf. induction names as [|n names IH]; intros pf Hi Hm; cbn [fmap list_fmap read_values].
  { exists pf. do 4 (split; [done|]). intros name. by rewrite decide_False by apply not_elem_of_nil. }
  destruct (pf_insert_ok pf n PF_GOOD_DEVICE Hi Hm) as (pf1 & E1 & Hi1 & Hm1 & Hr1 & Hmap1). rewrite (rx_exec _ _ _ _ _ E1).
  destruct (IH pf1 Hi1 Hm1) as (pf2 & E2 & Hi2 & Hm2 & Hr2 & H2). exists pf2. do 3 (split; [done|]). split; [congruence|].
  intros name. rewrite H2, Hmap1. destruct (decide (name ∈ names)) as [Hin|Hin]; [by rewrite decide_True by by right|]. destruct (decide (name = n)) as [->|Hne].
  - rewrite lookup_insert_eq. by rewrite decide_True by by left.
  - rewrite lookup_insert_ne by (intros E; by apply app_inj_2 in E as [-> _]). rewrite decide_False; [done|]. by intros [->|]%elem_of_cons.
Qed.

(** What a filter answers first about a device when the names of [good] were loaded into its
    table: a device whose preferred name is among them passes, whatever the filter behind
    would say, but for device-mapper devices, which are asked about again. *)
Definition answers_loaded (dm_major : Z) (usable : fdev -> bool) (D : fdev -> Prop) (good : list Z -> Prop) (dev : fdev) : Prop :=
  if decide (MAJOR (fd_dev dev) = dm_major) then D dev /\ usable dev = true
  else (exists name, head (fd_aliases dev) = Some name /\ good name) \/ D dev.

(** A name that was loaded as good, looked up. *)
Lemma lookup_good {S} ds dm_major (ok : S -> Prop) D usable real (pf : pfilter S) dev name :
  Filter ds real ok D -> among ds dev -> inv (pf_devices pf) -> ok (pf_real pf) -> head (fd_aliases dev) = Some name ->
  map_of (pf_devices pf) !! (name ++ [0]) = Some PF_GOOD_DEVICE ->
  exists b dev' pf', lookup_p dm_major usable real dev pf = RxRet (b, dev') pf' /\ (b = true <-> (MAJOR (fd_dev dev) = dm_major -> D dev /\ usable dev = true)).
Proof.
  intros Hf Hdev Hi Hok Hname Hgood. unfold lookup_p. change ((rx_get ≫= ?k) pf) with (k pf pf). cbv beta. rewrite Hname, rx_opt_exec.
  unfold dm_hash_lookup. rewrite (lookup_spec _ _ Hi), rx_opt_exec, Hgood, bool_decide_eq_false_2 by done.
  destruct (Z.eqb_spec (MAJOR (fd_dev dev)) dm_major) as [Hdm|Hdm]; [|by exists true, dev, pf].
  rewrite (rx_exec (mret true) _ pf true pf) by done. cbn [negb]. destruct (usable dev) eqn:Hu; cbn [negb].
  - destruct (filter_answers dev _ Hok Hdev) as (b & dev' & s & E & _ & _ & Hb). exists b, dev', (set_real s pf). unfold on_part. rewrite E. split; [done|]. rewrite Hb. split; [intros HD _; by split|intros H; by apply H].
  - exists false, dev, pf. split; [done|]. split; [done|]. intros H. by destruct (H Hdm).
Qed.

(** A name that is not among those loaded is looked up as before. *)
Lemma lookup_other {S} ds dm_major (ok : S -> Prop) D usable real (pf : pfilter S) dev name :
  Filter ds real ok D -> among ds dev -> inv (pf_devices pf) -> ok (pf_real pf) -> false ∉ pf_mem pf -> head (fd_aliases dev) = Some name ->
  (forall v, map_of (pf_devices pf) !! (name ++ [0]) = Some v -> (v = PF_GOOD_DEVICE <-> MAJOR (fd_dev dev) = dm_major \/ D dev)) ->
  exists b dev' pf', lookup_p dm_major usable real dev pf = RxRet (b, dev') pf' /\ (b = true <-> D dev /\ (MAJOR (fd_dev dev) = dm_major -> usable dev = true)).
Proof.
  intros Hf Hdev Hi Hok Hm Hname Hv. destruct (map_of (pf_devices pf) !! (name ++ [0])) as [[]|] eqn:Ev.
  - exists false, dev, pf. split; [|split; [done|]; intros [HD _]; discriminate (proj2 (Hv _ eq_refl) (or_intror HD))].
    unfold lookup_p. change ((rx_get ≫= ?k) pf) with (k pf pf). cbv beta. rewrite Hname, rx_opt_exec. unfold dm_hash_lookup. by rewrite (lookup_spec _ _ Hi), rx_opt_exec, Ev.
  - destruct (lookup_good ds dm_major ok D usable real pf dev name Hf Hdev Hi Hok Hname Ev) as (b & dev' & pf' & E & Hb). exists b, dev', pf'. split; [done|]. rewrite Hb.
    destruct (proj1 (Hv _ eq_refl) eq_refl) as [Hdm|HD]; [|tauto]. split; [intros H; destruct (H Hdm); tauto|tauto].
  - unfold lookup_p. change ((rx_get ≫= ?k) pf) with (k pf pf). cbv beta. rewrite Hname, rx_opt_exec. unfold dm_hash_lookup. rewrite (lookup_spec _ _ Hi), rx_opt_exec, Ev, bool_decide_eq_false_2 by done.
    destruct (Z.eqb_spec (MAJOR (fd_dev dev)) dm_major) as [Hdm|Hdm].
    + destruct (insert_aliases_ok PF_GOOD_DEVICE (fd_aliases dev) pf Hi Hm) as (pf1 & E1 & _ & _ & Hr1 & _). rewrite (rx_exec _ _ _ _ _ E1). cbn [negb]. destruct (usable dev) eqn:Hu; cbn [negb].
      * destruct (filter_answers dev (pf_real pf1) ltac:(by rewrite Hr1) Hdev) as (b & dev' & s & E & _ & _ & Hb). exists b, dev', (set_real s pf1). unfold on_part. rewrite E. split; [done|]. rewrite Hb. tauto.
      * exists false, dev, pf1. split; [done|]. split; [done|]. intros [_ H]. by specialize (H Hdm).
    + destruct (filter_answers dev _ Hok Hdev) as (b & dev' & s & E & _ & _ & Hb).
      rewrite (rx_exec (on_part pf_real set_real (real dev)) _ pf (b, dev') (set_real s pf)) by (unfold on_part; by rewrite E). cbn [fst snd].
      destruct (insert_aliases_ok (if b then PF_GOOD_DEVICE else PF_BAD_DEVICE) (fd_aliases dev') (set_real s pf) Hi Hm) as (pf1 & E1 & _). rewrite (rx_exec _ _ _ _ _ E1). cbn [negb].
      exists b, dev', pf1. split; [done|]. rewrite Hb. tauto.
Qed.

(** C9: what one command writes to the cache, the next one reads: the file names the good
    devices of the first filter, and loading it makes them good in the second one and
    changes nothing else there. The second filter may have another configuration; it then
    passes a device whose preferred name was loaded, unless it is a device-mapper device,
    even where the filter behind it would not, and answers for all others as before. When the
    names that were loaded are those of devices that it would pass itself, it still decides
    as its own configuration says, then and later ([pf_ok], which [lookup_p_filter]
    preserves). *)
Theorem cache_round_trip {F S} (strtod : list Z -> option F) behind ds dm_major (ok : S -> Prop) D usable real (pf pf0 : pfilter S) :
  let good name := map_of (pf_devices pf) !! (name ++ [0]) = Some PF_GOOD_DEVICE in
  devices ds -> Filter ds real ok D ->
  inv (pf_devices pf) -> keys_ok (pf_devices pf) -> map_of (pf_devices pf) <> ∅ -> Z.of_nat (size (map_of (pf_devices pf))) < 2 ^ 32 -> pf_ok ds dm_major ok D pf0 ->
  exists text b pf', persistent_filter_dump strtod behind false true None pf = RxRet (true, Some text) pf /\
    persistent_filter_load strtod behind false (Some text) pf0 = RxRet b pf' /\
    (forall name, map_of (pf_devices pf') !! (name ++ [0]) = if decide (good name) then Some PF_GOOD_DEVICE else map_of (pf_devices pf0) !! (name ++ [0])) /\
    (forall dev, among ds dev -> exists b dev' pf'', lookup_p dm_major usable real dev pf' = RxRet (b, dev') pf'' /\ (b = true <-> answers_loaded dm_major usable D good dev)) /\
    ((forall dev name, among ds dev -> name ∈ fd_aliases dev -> good name -> MAJOR (fd_dev dev) = dm_major \/ D dev) -> pf_ok ds dm_major ok D pf').
Proof.
  intros good Hds Hreal Hi Hk Hne Hsz (Hi0 & Hs0 & Hm0 & Hpf0). destruct (dump_ok (pf_devices pf) Hi Hk) as (names & E & Hn & Hnames). eexists.
  destruct (read_values_ok (F := F) names pf0 Hi0 Hm0) as (pf' & Er & Hi' & Hm' & Hr' & Hmap). eexists _, pf'. split; [|split].
  - unfold persistent_filter_dump. change ((rx_get ≫= ?k) pf) with (k pf pf). cbv beta. rewrite num_entries_spec by done.
    rewrite (proj2 (Z.eqb_neq _ 0)); [cbn [negb]|]. 2: { intros Hz. apply Hne, map_size_empty_iff. lia. }
    rewrite (rx_exec (mret true) _ pf true pf) by done. change ((rx_get ≫= ?k) pf) with (k pf pf). cbv beta. rewrite E, rx_opt_exec. reflexivity.
  - unfold persistent_filter_load.
    rewrite (dump_parses strtod (fun f : F => []) behind names Hn). unfold read_array.
    assert (find_config_node (cache_tree (F := F) names) (bytes "persistent_filter_cache/valid_devices") = Some (match names with [] => Node (bytes "persistent_filter_cache") [] [] | _ => Node (bytes "valid_devices") (CfgString <$> names) [] end)) as ->.
    { by destruct names. }
    rewrite rx_assoc, (rx_exec _ _ _ tt pf'); [reflexivity|]. rewrite <- Er. by destruct names.
  - assert (forall name, map_of (pf_devices pf') !! (name ++ [0]) = if decide (good name) then Some PF_GOOD_DEVICE else map_of (pf_devices pf0) !! (name ++ [0])) as Hmap'.
    { intros name. rewrite Hmap. destruct (decide (name ∈ names)) as [H|H]; rewrite Hnames in H; [by rewrite decide_True by done|by rewrite decide_False by done]. }
    split; [exact Hmap'|]. split.
    + intros dev Hdev. destruct (among_ok ds dev Hds Hdev) as [Hal _]. destruct (fd_aliases dev) as [|name ns] eqn:Hnm; [done|]. assert (head (fd_aliases dev) = Some name) as Hh by by rewrite Hnm.
      unfold answers_loaded. rewrite Hnm. cbn [head]. specialize (Hmap' name). destruct (decide (good name)) as [Hg|Hg].
      * destruct (lookup_good ds dm_major ok D usable real pf' dev name Hreal Hdev Hi' ltac:(by rewrite Hr') Hh Hmap') as (b & dev' & pf'' & E' & Hb). exists b, dev', pf''. split; [done|]. rewrite Hb.
        case_decide as Hdm; [split; [by intros H; apply H|done]|]. split; [|done]. intros _. left. by exists name.
      * destruct (lookup_other ds dm_major ok D usable real pf' dev name Hreal Hdev Hi' ltac:(by rewrite Hr') Hm' Hh) as (b & dev' & pf'' & E' & Hb).
        { intros v. rewrite Hmap'. intros Hv. apply (Hpf0 dev name v Hdev); [rewrite Hnm; left|done]. }
        exists b, dev', pf''. split; [done|]. rewrite Hb. case_decide as Hdm; [tauto|]. split; [by intros [H _]; right|]. intros [(n & [= <-] & H)|H]; [done|]. by split.
    + intros Hag. split; [done|]. rewrite Hr'. split; [done|]. split; [done|]. intros dev name v Hdev Hin Hv. rewrite Hmap' in Hv. case_decide as Hd; [|by eapply Hpf0]. injection Hv as <-.
      split; [intros _; by eapply Hag|done].
Qed.

(** A table with one good name, and an empty one. *)
Definition empty_table : table pf_state := default (Table 0 0 []) (mjoin (dm_hash_create true true 128)).
Definition one_table : table pf_state := (default (false, empty_table) (dm_hash_insert true empty_table (bytes "/dev/sda") PF_GOOD_DEVICE)).2.

Lemma tables_ok : inv empty_table /\ map_of empty_table = ∅ /\ inv one_table /\ map_of one_table = {[bytes "/dev/sda" ++ [0] := PF_GOOD_DEVICE]}.
Proof.
  destruct (create_spec (V := pf_state) 128 ltac:(lia)) as (t & E & Hi & Hm & _). assert (empty_table = t) as Et by (unfold empty_table; by rewrite E).
  destruct (insert_spec t (bytes "/dev/sda" ++ [0]) PF_GOOD_DEVICE Hi) as (t' & E' & Hi' & Hm'). assert (one_table = t') as Et' by (unfold one_table, dm_hash_insert; rewrite Et, E'; done).
  rewrite Et, Et', Hm', Hm. split; [exact Hi|]. split; [reflexivity|]. split; [exact Hi'|]. apply insert_empty.
Qed.

Definition cache_devices : list fdev := [FDev [bytes "/dev/sda"] (MKDEV 8 0) 0; FDev [bytes "/dev/sdb"] (MKDEV 8 16) 0].
Definition use_none : passes_filter unit := fun dev => mret (false, dev).

Lemma use_none_filter : Filter cache_devices use_none (fun _ => True) (fun _ => False).
Proof. split; [by intros ???|]. intros dev s _ _. by exists false, dev, s. Qed.

Lemma empty_table_pf_ok : pf_ok cache_devices 253 (fun _ : unit => True) (fun _ => False) (PFilter empty_table tt []).
Proof.
  destruct tables_ok as (Hi & He & _). split; [exact Hi|]. split; [exact I|]. split; [apply not_elem_of_nil|]. intros dev name v _ _ H. cbn [pf_devices] in H. rewrite He, lookup_empty in H. discriminate H.
Qed.

Lemma one_table_keys k v : map_of one_table !! k = Some v -> k = bytes "/dev/sda" ++ [0] /\ v = PF_GOOD_DEVICE.
Proof. destruct tables_ok as (_ & _ & _ & ->). by intros [<- <-]%lookup_singleton_Some. Qed.

(** A filter that would pass nothing passes the device whose name was loaded. *)
Lemma cache_round_trip_witness : exists text b pf' d1 pf1 d2 pf2,
  persistent_filter_dump (fun _ => None : option unit) [] false true None (PFilter one_table tt []) = RxRet (true, Some text) (PFilter one_table tt []) /\
  persistent_filter_load (fun _ => None : option unit) [] false (Some text) (PFilter empty_table tt []) = RxRet b pf' /\
  lookup_p 253 (fun _ => true) use_none (FDev [bytes "/dev/sda"] (MKDEV 8 0) 0) pf' = RxRet (true, d1) pf1 /\
  lookup_p 253 (fun _ => true) use_none (FDev [bytes "/dev/sdb"] (MKDEV 8 16) 0) pf' = RxRet (false, d2) pf2.
Proof.
  destruct (cache_round_trip (fun _ => None : option unit) [] cache_devices 253 (fun _ : unit => True) (fun _ => False) (fun _ => true) use_none (PFilter one_table tt []) (PFilter empty_table tt [])) as (text & b & pf' & E1 & E2 & _ & Hans & _).
  - split; [repeat constructor; done|apply (bool_decide_eq_true_1 _); by vm_compute].
  - apply use_none_filter.
  - apply tables_ok.
  - intros k v H. apply one_table_keys in H as [-> _]. exists (bytes "/dev/sda"). split; [reflexivity|]. split; [repeat constructor; done|cbn; lia].
  - cbn [pf_devices]. rewrite (proj2 (proj2 (proj2 tables_ok))). apply map_non_empty_singleton.
  - cbn [pf_devices]. rewrite (proj2 (proj2 (proj2 tables_ok))), map_size_singleton. reflexivity.
  - apply empty_table_pf_ok.
  - destruct (Hans (FDev [bytes "/dev/sda"] (MKDEV 8 0) 0)) as (b1 & d1 & pf1 & L1 & B1); [eexists; split; [left|reflexivity]|].
    destruct (Hans (FDev [bytes "/dev/sdb"] (MKDEV 8 16) 0)) as (b2 & d2 & pf2 & L2 & B2); [eexists; split; [right; left|reflexivity]|].
    assert (b1 = true) as ->.
    { apply B1. unfold answers_loaded. rewrite decide_False by by vm_compute. left. exists (bytes "/dev/sda"). split; [reflexivity|]. cbn [pf_devices]. rewrite (proj2 (proj2 (proj2 tables_ok))), lookup_singleton_eq. reflexivity. }
    assert (b2 = false) as ->.
    { destruct b2; [|reflexivity]. destruct (proj1 B2 eq_refl) as [(name & [= <-] & Hg)|[]]. apply one_table_keys in Hg as [Hg _]. discriminate Hg. }
    exists text, b, pf', d1, pf1, d2, pf2. split; [exact E1|]. split; [exact E2|]. split; [exact L1|exact L2].
Defined.
