(* ===== verification/Label.v ===== *)
(** * Labels of PVs (lib/label/label.c, lib/format_text/text_label.c)

    A PV is recognised by a label in one of its first four sectors.  The label of the
    text format holds the identifier of the PV, its size and the places of its data and
    metadata areas.  A label is built in a buffer of one sector; the model has its
    bytes, and [None] is an access outside of it. *)

From S2P Require Import Prelude Crc DmString Device FormatText TextLayout.

(** ** Buffers *)

Definition get_at (buf : list Z) (off n : Z) : option (list Z) :=
  if off + n <=? Z.of_nat (length buf) then Some (take (Z.to_nat n) (drop (Z.to_nat off) buf)) else None.

Definition put_at (buf : list Z) (off : Z) (bs : list Z) : option (list Z) :=
  if off + Z.of_nat (length bs) <=? Z.of_nat (length buf) then Some (take (Z.to_nat off) buf ++ bs ++ drop (Z.to_nat off + length bs) buf) else None.

(** A little-endian field of [n] bytes. *)
Definition get_le (buf : list Z) (off n : Z) : option Z := le_value <$> get_at buf off n.

(** ** What is in core *)

Definition LABEL_ID : list Z := bytes "LABELONE".
Definition LVM2_LABEL : list Z := bytes "LVM2 001".
Definition LABEL_SIZE : Z := SECTOR_SIZE.

(** [struct disk_locn] *)
Record disk_locn := DiskLocn { dl_offset : Z; dl_size : Z }.

(** What the cache knows of a PV ([struct lvmcache_info]): its identifier and size, its
    data areas, and its metadata areas with the device that each is on. *)
Record pv_info := PvInfo { pi_uuid : list Z; pi_size : Z; pi_das : list disk_locn; pi_mdas : list (Z * mda_area) }.

(** The operations of a labeller that are used: [None] is an access outside the buffer,
    then [None] is a failure. *)
Record labeller := Labeller { can_handle : list Z -> Z -> bool; lb_read : device -> list Z -> option (option pv_info) }.

(** ** The text format *)

(** [_text_can_handle] *)
Definition text_can_handle (buf : list Z) (sector : Z) : bool := bool_decide (get_at buf 24 8 = Some LVM2_LABEL).

(** [_da_setup] and [_mda_setup] for a list of areas, from the place [at_] on. *)
Fixpoint put_locns (buf : list Z) (at_ : Z) (l : list disk_locn) : option (list Z * Z) :=
  match l with
  | [] => Some (buf, at_)
  | x :: l =>
      buf ← put_at buf at_ (le_bytes 8 (dl_offset x));
      buf ← put_at buf (at_ + 8) (le_bytes 8 (dl_size x));
      put_locns buf (at_ + 16) l
  end.

(** The metadata areas on the device [dev]. *)
Definition own_mdas (dev : Z) (mdas : list (Z * mda_area)) : list disk_locn :=
  (fun m => DiskLocn (ma_start m.2) (ma_size m.2)) <$> filter (fun m => m.1 = dev) mdas.

(** [_text_write] *)
Definition text_write (dev : Z) (info : pv_info) (buf : list Z) : option (bool * list Z) :=
  buf ← put_at buf 24 LVM2_LABEL;
  pvhdr ← get_le buf 20 4;
  buf ← put_at buf (pvhdr + 32) (le_bytes 8 (pi_size info));
  buf ← put_at buf pvhdr (pi_uuid info);
  '(buf, at_) ← put_locns buf (pvhdr + 40) (pi_das info);
  '(buf, at_) ← put_locns buf at_ [DiskLocn 0 0];
  '(buf, at_) ← put_locns buf at_ (own_mdas dev (pi_mdas info));
  '(buf, _) ← put_locns buf at_ [DiskLocn 0 0];
  offset ← get_le buf (pvhdr + 40) 8;
  size ← get_le buf (pvhdr + 48) 8;
  Some (negb ((offset =? 0) && (size =? 0)), buf).

(** The loops of [_text_read] over a list of areas, from the bytes of the buffer that are
    left: the areas, and the bytes from the entry that ends the list on. *)
Fixpoint get_locns (s : list Z) : option (list disk_locn * list Z) :=
  match s with
  | o0 :: o1 :: o2 :: o3 :: o4 :: o5 :: o6 :: o7 :: rest =>
      let offset := le_value [o0; o1; o2; o3; o4; o5; o6; o7] in
      if offset =? 0 then Some ([], s) else
      match rest with
      | s0 :: s1 :: s2 :: s3 :: s4 :: s5 :: s6 :: s7 :: rest =>
          '(l, e) ← get_locns rest;
          Some (DiskLocn offset (le_value [s0; s1; s2; s3; s4; s5; s6; s7]) :: l, e)
      | _ => None
      end
  | _ => None
  end.

(** [_update_mda] on the open device: whether a metadata area is ignored.  The summary of
    the VG that goes to the cache is left out. *)
Definition update_mda (d : device) (dev : Z) (x : disk_locn) : Z * mda_area :=
  (dev, MdaArea (dl_offset x) (dl_size x)
          (match raw_read_mda_header d (DeviceArea (dl_offset x) (dl_size x)) with Some h => rlocn_is_ignored (locn_at h 0) | None => false end)).

(** [_text_read] *)
Definition text_read (dev : Z) (d : device) (buf : list Z) : option (option pv_info) :=
  pvhdr ← get_le buf 20 4;
  uuid ← get_at buf pvhdr 32;
  size ← get_le buf (pvhdr + 32) 8;
  '(das, e) ← get_locns (drop (Z.to_nat (pvhdr + 40)) buf);
  '(mdas, _) ← get_locns (drop 16 e);
  Some (Some (PvInfo uuid size das (update_mda d dev <$> mdas))).

Definition text_labeller (dev : Z) : labeller := Labeller text_can_handle (text_read dev).

(** ** The old formats *)

(** [_lvm1_can_handle] *)
Definition lvm1_can_handle (buf : list Z) (sector : Z) : bool :=
  (sector =? 0) && bool_decide (get_at buf 0 2 = Some (bytes "HM")) &&
  match get_le buf 2 2 with Some version => (version =? 1) || (version =? 2) | None => false end.

(** [_pool_can_handle]: its fields are big-endian. *)
Definition POOL_MAGIC : Z := 0x011670.
Definition POOL_VERSION : Z := Z.lor (Z.lor (Z.shiftl 4 16) (Z.shiftl 1 8)) 3.
Definition pool_can_handle (buf : list Z) (sector : Z) : bool :=
  (sector =? 0) &&
  match get_at buf 0 8, get_at buf 272 4 with
  | Some magic, Some version => (le_value (reverse magic) =? POOL_MAGIC) && (Z.shiftr (le_value (reverse version)) 8 =? Z.shiftr POOL_VERSION 8)
  | _, _ => false
  end.

(** ** Reading and writing labels *)

Section label.
Context (labellers : list labeller).

(** The labels that [_find_labeller] passes over: a label that was written for another
    sector or has a wrong checksum. *)
Definition label_refused (lh : list Z) (sector : Z) : option bool :=
  id ← get_at lh 0 8;
  if bool_decide (id = LABEL_ID) then
    s ← get_le lh 8 8;
    if negb (s =? sector) then Some true else
    rest ← get_at lh 20 (LABEL_SIZE - 20);
    crc ← calc_crc INITIAL_CRC rest (LABEL_SIZE - 20);
    stored ← get_le lh 16 4;
    Some (negb (crc =? stored))
  else Some false.

(** The loop of [_find_labeller] over the sectors that are left: the first label that a
    labeller can handle, with its sector. *)
Fixpoint find_label_loop (readbuf : list Z) (scan_sector : Z) (sectors : list Z) (found : option (labeller * list Z * Z)) : option (option (labeller * list Z * Z)) :=
  match sectors with
  | [] => Some found
  | sector :: sectors =>
      lh ← get_at readbuf (Z.shiftl sector SECTOR_SHIFT) LABEL_SIZE;
      refused ← label_refused lh (wrap64 (sector + scan_sector));
      if refused : bool then find_label_loop readbuf scan_sector sectors found else
      match found with
      | Some _ => find_label_loop readbuf scan_sector sectors found
      | None =>
          find_label_loop readbuf scan_sector sectors
            ((fun l => (l, lh, wrap64 (sector + scan_sector))) <$> List.find (fun l => can_handle l lh (wrap64 (sector + scan_sector))) labellers)
      end
  end.

(** [_find_labeller] *)
Definition find_labeller (d : device) (scan_sector : Z) : option (option (labeller * list Z * Z)) :=
  match dev_read d (wrap64 (Z.shiftl scan_sector SECTOR_SHIFT)) LABEL_SCAN_SIZE with
  | None => Some None
  | Some readbuf => find_label_loop readbuf scan_sector [0; 1; 2; 3] None
  end.

(** [label_read] of a device that the cache knows nothing valid of, with room in the
    cache: the sector of the label and what it says. *)
Definition label_read (open_ok : bool) (d : device) (scan_sector : Z) : option (option (Z * pv_info)) :=
  if negb open_ok then Some None else
  match find_labeller d scan_sector with
  | None => None
  | Some None => Some None
  | Some (Some (l, buf, sector)) =>
      match lb_read l d buf with
      | None => None
      | Some None => Some None
      | Some (Some info) => Some (Some (sector, info))
      end
  end.

(** [label_verify]; the labellers verify a label by whether they can handle it. *)
Definition label_verify (open_ok : bool) (d : device) : option bool :=
  if negb open_ok then Some false else
  match find_labeller d 0 with
  | None => None
  | Some None => Some false
  | Some (Some (l, buf, sector)) => Some (can_handle l buf sector)
  end.

(** [label_write] of a label of the text format for the device [dev]. *)
Definition label_write (open_ok : bool) (dev sector : Z) (info : pv_info) (d : device) (o : io) : option (bool * device) :=
  if LABEL_SCAN_SIZE <? wrap64 (LABEL_SIZE + wrap64 (Z.shiftl sector SECTOR_SHIFT)) then Some (false, d) else
  buf ← put_at (replicate (Z.to_nat LABEL_SIZE) 0) 0 LABEL_ID;
  buf ← put_at buf 8 (le_bytes 8 sector);
  buf ← put_at buf 20 (le_bytes 4 32);
  '(ok, buf) ← text_write dev info buf;
  if negb ok then Some (false, d) else
  rest ← get_at buf 20 (LABEL_SIZE - 20);
  crc ← calc_crc INITIAL_CRC rest (LABEL_SIZE - 20);
  buf ← put_at buf 16 (le_bytes 4 crc);
  if negb open_ok then Some (false, d) else
  Some (dev_write d (wrap64 (Z.shiftl sector SECTOR_SHIFT)) buf o).

(** The test of [label_remove] for a sector. *)
Definition to_wipe (lh : list Z) (sector : Z) : option bool :=
  id ← get_at lh 0 8;
  if bool_decide (id = LABEL_ID) then s ← get_le lh 8 8; Some (s =? sector)
  else Some (existsb (fun l => can_handle l lh sector) labellers).

(** The loop of [label_remove]; [os] are the results of its writes. *)
Fixpoint remove_loop (readbuf : list Z) (sectors : list Z) (d : device) (os : list io) (r : bool) : option (bool * device) :=
  match sectors with
  | [] => Some (r, d)
  | sector :: sectors =>
      lh ← get_at readbuf (Z.shiftl sector SECTOR_SHIFT) LABEL_SIZE;
      wipe ← to_wipe lh sector;
      if wipe : bool then
        let '(ok, d) := dev_write d (Z.shiftl sector SECTOR_SHIFT) (replicate (Z.to_nat LABEL_SIZE) 0) (default IoOk (head os)) in
        remove_loop readbuf sectors d (tail os) (if ok : bool then r else false)
      else remove_loop readbuf sectors d os r
  end.

(** [label_remove]; a device that cannot be read is left alone, and this is no error. *)
Definition label_remove (open_ok : bool) (d : device) (os : list io) : option (bool * device) :=
  if negb open_ok then Some (false, d) else
  match dev_read d 0 LABEL_SCAN_SIZE with
  | None => Some (true, d)
  | Some readbuf => remove_loop readbuf [0; 1; 2; 3] d os true
  end.

End label.
