(* ===== verification/LabelProps.v ===== *)
(** * What labels say

    A label that is written is found again and read as what was written; removing labels
    leaves none.  Where the checks of labels have holes, they are shown by example. *)

From S2P Require Import Prelude Crc DmString Device FormatText FormatTextProps TextLayout Label.

(** ** Buffers *)

Lemma put_at_mid off a old c bs : off = Z.of_nat (length a) -> length old = length bs -> put_at (a ++ old ++ c) off bs = Some (a ++ bs ++ c).
Proof.
  intros -> Hl. unfold put_at. rewrite !length_app, (proj2 (Z.leb_le _ _)) by lia. rewrite Nat2Z.id, take_app_length, drop_app_add. rewrite <- Hl, drop_app_length. done.
Qed.

Lemma get_at_mid off n a x c : off = Z.of_nat (length a) -> n = Z.of_nat (length x) -> get_at (a ++ x ++ c) off n = Some x.
Proof.
  intros -> ->. unfold get_at. rewrite !length_app, (proj2 (Z.leb_le _ _)) by lia. by rewrite !Nat2Z.id, drop_app_length, take_app_length.
Qed.

Lemma get_le_mid off n m a v c : off = Z.of_nat (length a) -> m = Z.of_nat n -> 0 <= v < 256 ^ m -> get_le (a ++ le_bytes n v ++ c) off m = Some v.
Proof. intros Ho -> Hv. unfold get_le. rewrite get_at_mid; [|done|by rewrite le_bytes_length]. cbn. by rewrite le_value_bytes. Qed.

(** ** Lists of areas *)

Definition locn_ok (x : disk_locn) : Prop := 0 < dl_offset x < 2 ^ 64 /\ 0 <= dl_size x < 2 ^ 64.

Definition area_bytes (x : disk_locn) : list Z := le_bytes 8 (dl_offset x) ++ le_bytes 8 (dl_size x).
Definition areas_bytes (l : list disk_locn) : list Z := concat (area_bytes <$> l).

Lemma area_bytes_length x : length (area_bytes x) = 16%nat.
Proof. unfold area_bytes. by rewrite length_app, !le_bytes_length. Qed.

Lemma areas_bytes_length l : length (areas_bytes l) = (16 * length l)%nat.
Proof. induction l as [|x l IH]; [done|]. unfold areas_bytes in *. cbn [fmap list_fmap concat length]. rewrite length_app, area_bytes_length. lia. Qed.

Lemma areas_bytes_cons x l : areas_bytes (x :: l) = le_bytes 8 (dl_offset x) ++ le_bytes 8 (dl_size x) ++ areas_bytes l.
Proof. unfold areas_bytes. cbn [fmap list_fmap concat]. unfold area_bytes at 1. by rewrite <- app_assoc. Qed.

Lemma put_locns_spec l : forall a n at_, at_ = Z.of_nat (length a) -> (16 * length l <= n)%nat ->
  put_locns (a ++ replicate n 0) at_ l = Some (a ++ areas_bytes l ++ replicate (n - 16 * length l) 0, at_ + 16 * Z.of_nat (length l)).
Proof.
  induction l as [|x l IH]; intros a n at_ Hat Hn; cbn [put_locns].
  { cbn [areas_bytes fmap list_fmap concat length app]. rewrite Nat.sub_0_r. repeat f_equal. lia. }
  cbn [length] in Hn. replace n with (8 + (8 + (n - 16)))%nat at 1 by lia. rewrite !replicate_add.
  rewrite put_at_mid by (done || by rewrite le_bytes_length, length_replicate). cbn [mbind option_bind]. rewrite app_assoc.
  rewrite put_at_mid by (rewrite ?length_app, ?le_bytes_length, ?length_replicate; done || lia). cbn [mbind option_bind]. rewrite <- app_assoc, (app_assoc (le_bytes 8 _)). fold (area_bytes x). rewrite app_assoc.
  rewrite IH by (rewrite ?length_app, ?area_bytes_length; lia). unfold areas_bytes. cbn [fmap list_fmap concat length]. rewrite <- !app_assoc. do 2 f_equal; [|lia]. do 4 f_equal. lia.
Qed.

(** One step, for an entry at the front. *)
Lemma get_locns_step a b rest : length a = 8%nat -> length b = 8%nat -> get_locns (a ++ b ++ rest) =
  if le_value a =? 0 then Some ([], a ++ b ++ rest) else '(l, e) ← get_locns rest; Some (DiskLocn (le_value a) (le_value b) :: l, e).
Proof.
  intros Ha Hb. destruct a as [|a0 [|a1 [|a2 [|a3 [|a4 [|a5 [|a6 [|a7 [|]]]]]]]]]; try done.
  destruct b as [|b0 [|b1 [|b2 [|b3 [|b4 [|b5 [|b6 [|b7 [|]]]]]]]]]; done.
Qed.

Lemma get_locns_spec l c : Forall locn_ok l ->
  get_locns (areas_bytes l ++ areas_bytes [DiskLocn 0 0] ++ c) = Some (l, areas_bytes [DiskLocn 0 0] ++ c).
Proof.
  induction 1 as [|x l [Ho Hs] Hl IH]; [done|]. rewrite areas_bytes_cons, <- !app_assoc. rewrite get_locns_step by apply le_bytes_length.
  rewrite !le_value_bytes by lia. rewrite (proj2 (Z.eqb_neq _ 0)) by lia. rewrite IH. cbn [mbind option_bind]. by destruct x.
Qed.

(** ** The bytes of a label *)

(** What the label of a PV says, when it fits: the areas take at most 27 places, two of
    them for the ends of the lists. *)
Record info_ok (dev : Z) (info : pv_info) : Prop := {
  info_uuid : length (pi_uuid info) = 32%nat /\ Forall is_u8 (pi_uuid info);
  info_size : 0 <= pi_size info < 2 ^ 64;
  info_das : pi_das info <> [] /\ Forall locn_ok (pi_das info);
  info_mdas : Forall locn_ok (own_mdas dev (pi_mdas info));
  info_fits : (length (pi_das info) + length (own_mdas dev (pi_mdas info)) <= 25)%nat }.

(** The label from its offset field on, which the checksum is taken of. *)
Definition label_body (dev : Z) (info : pv_info) : list Z :=
  le_bytes 4 32 ++ LVM2_LABEL ++ pi_uuid info ++ le_bytes 8 (pi_size info) ++ areas_bytes (pi_das info) ++ areas_bytes [DiskLocn 0 0] ++
  areas_bytes (own_mdas dev (pi_mdas info)) ++ areas_bytes [DiskLocn 0 0] ++ replicate (440 - 16 * (length (pi_das info) + length (own_mdas dev (pi_mdas info)) + 2)) 0.

Definition label_bytes (dev sector : Z) (info : pv_info) (crc : list Z) : list Z := (LABEL_ID ++ le_bytes 8 sector) ++ crc ++ label_body dev info.

Lemma label_body_length dev info : info_ok dev info -> length (label_body dev info) = 492%nat.
Proof.
  intros [[Hu _] _ _ _ Hf]. unfold label_body. rewrite !length_app, !areas_bytes_length, !le_bytes_length, length_replicate, Hu. cbn [length LVM2_LABEL bytes]. lia.
Qed.

Lemma label_body_u8 dev info : info_ok dev info -> Forall is_u8 (label_body dev info).
Proof.
  intros [[_ Hu] _ _ _ _]. unfold label_body. assert (forall l, Forall is_u8 (areas_bytes l)) as Ha.
  { intros l. induction l as [|x l IH]; [constructor|]. rewrite areas_bytes_cons. repeat (apply Forall_app; split); try apply le_bytes_u8. done. }
  assert (forall n, Forall is_u8 (replicate n 0)) as Hr by (intros n; apply Forall_replicate; done).
  repeat (apply Forall_app; split); auto; try apply le_bytes_u8. by repeat constructor.
Qed.

(** Steps of a construction, with the buffers written out. *)
Lemma put_at_eq buf off bs r a old c : buf = a ++ old ++ c -> r = a ++ bs ++ c -> off = Z.of_nat (length a) -> length old = length bs -> put_at buf off bs = Some r.
Proof. intros -> -> Ho Hl. by apply put_at_mid. Qed.

Lemma put_locns_eq buf at_ l a n : buf = a ++ replicate n 0 -> at_ = Z.of_nat (length a) -> (16 * length l <= n)%nat ->
  put_locns buf at_ l = Some ((a ++ areas_bytes l) ++ replicate (n - 16 * length l) 0, Z.of_nat (length (a ++ areas_bytes l))).
Proof. intros -> -> Hn. rewrite put_locns_spec by done. rewrite <- app_assoc, length_app, areas_bytes_length. do 2 f_equal. lia. Qed.

Lemma get_at_eq buf off n a x c : buf = a ++ x ++ c -> off = Z.of_nat (length a) -> n = Z.of_nat (length x) -> get_at buf off n = Some x.
Proof. intros ->. apply get_at_mid. Qed.

Lemma get_le_eq buf off m a n v c : buf = a ++ le_bytes n v ++ c -> off = Z.of_nat (length a) -> m = Z.of_nat n -> 0 <= v < 256 ^ m -> get_le buf off m = Some v.
Proof. intros ->. apply get_le_mid. Qed.

Lemma get_locns_eq s l c : s = areas_bytes l ++ areas_bytes [DiskLocn 0 0] ++ c -> Forall locn_ok l -> get_locns s = Some (l, areas_bytes [DiskLocn 0 0] ++ c).
Proof. intros ->. apply get_locns_spec. Qed.

Ltac sizes := rewrite ?length_app, ?le_bytes_length, ?areas_bytes_length, ?length_replicate in *; cbn [length LABEL_ID LVM2_LABEL bytes] in *; lia.
Ltac assocs := by rewrite <- ?app_assoc.

Lemma text_write_spec dev sector info : info_ok dev info ->
  text_write dev info ((LABEL_ID ++ le_bytes 8 sector) ++ replicate 4 0 ++ le_bytes 4 32 ++ replicate 488 0) = Some (true, label_bytes dev sector info (replicate 4 0)).
Proof.
  intros [[Hu _] Hsz [Hne Hdas] Hmdas Hf]. unfold text_write. set (h := LABEL_ID ++ le_bytes 8 sector). assert (length h = 16%nat) as Hh by (unfold h; sizes).
  set (k := h ++ replicate 4 0 ++ le_bytes 4 32). assert (length k = 24%nat) as Hk by (unfold k; sizes).
  rewrite (put_at_eq _ 24 LVM2_LABEL (k ++ LVM2_LABEL ++ replicate 480 0) k (replicate 8 0) (replicate 480 0)) by (done || (rewrite ?Hk; done) || (unfold k; assocs)). cbn [mbind option_bind].
  rewrite (get_le_eq _ 20 4 (h ++ replicate 4 0) 4 32 (LVM2_LABEL ++ replicate 480 0)) by (done || (unfold k; assocs) || sizes). cbn [mbind option_bind].
  rewrite (put_at_eq _ (32 + 32) (le_bytes 8 (pi_size info)) (k ++ LVM2_LABEL ++ replicate 32 0 ++ le_bytes 8 (pi_size info) ++ replicate 440 0) (k ++ LVM2_LABEL ++ replicate 32 0) (replicate 8 0) (replicate 440 0)) by (done || assocs || sizes). cbn [mbind option_bind].
  rewrite (put_at_eq _ 32 (pi_uuid info) (k ++ LVM2_LABEL ++ pi_uuid info ++ le_bytes 8 (pi_size info) ++ replicate 440 0) (k ++ LVM2_LABEL) (replicate 32 0) (le_bytes 8 (pi_size info) ++ replicate 440 0)) by (done || assocs || sizes). cbn [mbind option_bind].
  set (p := k ++ LVM2_LABEL ++ pi_uuid info ++ le_bytes 8 (pi_size info)). assert (length p = 72%nat) as Hp by (unfold p; sizes).
  rewrite (put_locns_eq _ (32 + 40) (pi_das info) p 440) by (done || (unfold p; assocs) || sizes). cbn [mbind option_bind].
  rewrite (put_locns_eq _ _ [DiskLocn 0 0] (p ++ areas_bytes (pi_das info)) (440 - 16 * length (pi_das info))) by (done || sizes). cbn [mbind option_bind].
  rewrite (put_locns_eq _ _ (own_mdas dev (pi_mdas info)) ((p ++ areas_bytes (pi_das info)) ++ areas_bytes [DiskLocn 0 0]) (440 - 16 * length (pi_das info) - 16)) by (done || sizes). cbn [mbind option_bind].
  rewrite (put_locns_eq _ _ [DiskLocn 0 0] (((p ++ areas_bytes (pi_das info)) ++ areas_bytes [DiskLocn 0 0]) ++ areas_bytes (own_mdas dev (pi_mdas info))) (440 - 16 * length (pi_das info) - 16 - 16 * length (own_mdas dev (pi_mdas info)))) by (done || sizes). cbn [mbind option_bind].
  set (rest := areas_bytes [DiskLocn 0 0] ++ areas_bytes (own_mdas dev (pi_mdas info)) ++ areas_bytes [DiskLocn 0 0] ++
    replicate (440 - 16 * length (pi_das info) - 16 - 16 * length (own_mdas dev (pi_mdas info)) - 16 * length [DiskLocn 0 0]) 0).
  match goal with |- context [get_le ?b] => assert (b = p ++ areas_bytes (pi_das info) ++ rest) as -> by (unfold rest; assocs) end.
  destruct (pi_das info) as [|x das] eqn:Ed; [done|]. apply Forall_cons in Hdas as [[Ho Hs] _].
  rewrite (get_le_eq _ (32 + 40) 8 p 8 (dl_offset x) (le_bytes 8 (dl_size x) ++ areas_bytes das ++ rest)) by (done || lia || (rewrite areas_bytes_cons; assocs)). cbn [mbind option_bind].
  rewrite (get_le_eq _ (32 + 48) 8 (p ++ le_bytes 8 (dl_offset x)) 8 (dl_size x) (areas_bytes das ++ rest)) by (done || lia || (rewrite areas_bytes_cons; assocs) || sizes). cbn [mbind option_bind].
  rewrite (proj2 (Z.eqb_neq _ 0)) by lia. cbn [andb negb]. do 2 f_equal. unfold label_bytes, label_body, rest, p, k. rewrite Ed, <- !app_assoc.
  by replace (440 - 16 * (length (x :: das) + length (own_mdas dev (pi_mdas info)) + 2))%nat with (440 - 16 * length (x :: das) - 16 - 16 * length (own_mdas dev (pi_mdas info)) - 16 * length [DiskLocn 0 0])%nat by (cbn [length]; lia).
Qed.

Definition label_crc (dev : Z) (info : pv_info) : Z := crc_ref INITIAL_CRC (label_body dev info).

Lemma body_crc dev info : info_ok dev info -> calc_crc INITIAL_CRC (label_body dev info) (LABEL_SIZE - 20) = Some (label_crc dev info) /\ 0 <= label_crc dev info < 2 ^ 32.
Proof.
  intros Hi. pose proof (label_body_length dev info Hi) as Hl. pose proof (label_body_u8 dev info Hi) as Hu. split.
  - rewrite calc_crc_spec; [|done|unfold is_u32, LABEL_SIZE, SECTOR_SIZE; lia|rewrite Hl; done]. unfold label_crc. rewrite take_ge; [done|]. rewrite Hl. done.
  - apply (crc_ref_u32 INITIAL_CRC); [unfold is_u32, INITIAL_CRC; lia|done].
Qed.

Lemma label_write_spec dev sector info d o : info_ok dev info -> 0 <= sector <= 3 ->
  label_write true dev sector info d o = Some (dev_write d (512 * sector) (label_bytes dev sector info (le_bytes 4 (label_crc dev info))) o).
Proof.
  intros Hi Hs. unfold label_write. rewrite Z.shiftl_mul_pow2 by done. unfold SECTOR_SHIFT, LABEL_SCAN_SIZE. change (2 ^ 9) with 512.
  assert (wrap64 (sector * 512) = 512 * sector) as -> by (unfold wrap64, wrap; rewrite Z.mod_small; lia).
  change (Z.shiftl 4 9) with 2048. rewrite (proj2 (Z.ltb_ge _ _)) by (unfold LABEL_SIZE, SECTOR_SIZE, wrap64, wrap; rewrite Z.mod_small; lia).
  rewrite (put_at_eq _ 0 LABEL_ID (LABEL_ID ++ replicate 504 0) [] (replicate 8 0) (replicate 504 0)) by done. cbn [mbind option_bind].
  rewrite (put_at_eq _ 8 (le_bytes 8 sector) ((LABEL_ID ++ le_bytes 8 sector) ++ replicate 496 0) LABEL_ID (replicate 8 0) (replicate 496 0)) by (done || assocs). cbn [mbind option_bind].
  rewrite (put_at_eq _ 20 (le_bytes 4 32) ((LABEL_ID ++ le_bytes 8 sector) ++ replicate 4 0 ++ le_bytes 4 32 ++ replicate 488 0) ((LABEL_ID ++ le_bytes 8 sector) ++ replicate 4 0) (replicate 4 0) (replicate 488 0)) by (done || assocs || sizes). cbn [mbind option_bind].
  rewrite text_write_spec by done. cbn [mbind option_bind negb]. destruct (body_crc dev info Hi) as [Hc _]. pose proof (label_body_length dev info Hi) as Hl. unfold label_bytes.
  rewrite (get_at_eq _ 20 (LABEL_SIZE - 20) ((LABEL_ID ++ le_bytes 8 sector) ++ replicate 4 0) (label_body dev info) []) by (rewrite ?app_nil_r; assocs || (rewrite Hl; done) || sizes).
  cbn [mbind option_bind]. rewrite Hc. cbn [mbind option_bind]. rewrite (put_at_eq _ 16 (le_bytes 4 (label_crc dev info)) ((LABEL_ID ++ le_bytes 8 sector) ++ le_bytes 4 (label_crc dev info) ++ label_body dev info) (LABEL_ID ++ le_bytes 8 sector) (replicate 4 0) (label_body dev info)) by (done || sizes). done.
Qed.

Lemma label_bytes_length dev sector info crc : info_ok dev info -> length crc = 4%nat -> length (label_bytes dev sector info crc) = 512%nat.
Proof. intros Hi Hc. unfold label_bytes. pose proof (label_body_length dev info Hi). sizes. Qed.

(** The PV as its label tells it; the device says which metadata areas are ignored. *)
Definition told (d : device) (dev : Z) (info : pv_info) : pv_info :=
  PvInfo (pi_uuid info) (pi_size info) (pi_das info) (update_mda d dev <$> own_mdas dev (pi_mdas info)).

Lemma text_read_spec d dev sector info crc : info_ok dev info -> length crc = 4%nat ->
  text_read dev d (label_bytes dev sector info crc) = Some (Some (told d dev info)).
Proof.
  intros Hi Hc. destruct Hi as [[Hu _] Hsz [Hne Hdas] Hmdas Hf]. unfold text_read. unfold label_bytes, label_body.
  set (z := replicate _ 0). set (h := LABEL_ID ++ le_bytes 8 sector). assert (length h = 16%nat) as Hh by (unfold h; sizes).
  rewrite (get_le_eq _ 20 4 (h ++ crc) 4 32 _) by (done || assocs || sizes). cbn [mbind option_bind].
  set (k := h ++ crc ++ le_bytes 4 32 ++ LVM2_LABEL). assert (length k = 32%nat) as Hk by (unfold k; sizes).
  rewrite (get_at_eq _ 32 32 k (pi_uuid info) (le_bytes 8 (pi_size info) ++ areas_bytes (pi_das info) ++ areas_bytes [DiskLocn 0 0] ++ areas_bytes (own_mdas dev (pi_mdas info)) ++ areas_bytes [DiskLocn 0 0] ++ z)) by ((unfold k; assocs) || sizes).
  cbn [mbind option_bind].
  rewrite (get_le_eq _ (32 + 32) 8 (k ++ pi_uuid info) 8 (pi_size info) (areas_bytes (pi_das info) ++ areas_bytes [DiskLocn 0 0] ++ areas_bytes (own_mdas dev (pi_mdas info)) ++ areas_bytes [DiskLocn 0 0] ++ z)) by ((unfold k; assocs) || sizes || done).
  cbn [mbind option_bind]. set (p := k ++ pi_uuid info ++ le_bytes 8 (pi_size info)). assert (length p = 72%nat) as Hp by (unfold p; sizes).
  change (Z.to_nat (32 + 40)) with 72%nat.
  rewrite (get_locns_eq _ (pi_das info) (areas_bytes (own_mdas dev (pi_mdas info)) ++ areas_bytes [DiskLocn 0 0] ++ z)); [cbn [mbind option_bind]| |done].
  - rewrite (get_locns_eq _ (own_mdas dev (pi_mdas info)) z); [done| |done]. rewrite drop_app_length'; [done|]. sizes.
  - rewrite <- Hp. transitivity (drop (length p) (p ++ areas_bytes (pi_das info) ++ areas_bytes [DiskLocn 0 0] ++ areas_bytes (own_mdas dev (pi_mdas info)) ++ areas_bytes [DiskLocn 0 0] ++ z)); [|by rewrite drop_app_length].
    f_equal. unfold p, k. assocs.
Qed.

(** A label that was written is not refused, and is handled by the text labeller. *)
Lemma label_accepted dev sector info : info_ok dev info -> 0 <= sector < 2 ^ 64 ->
  label_refused (label_bytes dev sector info (le_bytes 4 (label_crc dev info))) sector = Some false /\
  text_can_handle (label_bytes dev sector info (le_bytes 4 (label_crc dev info))) sector = true.
Proof.
  intros Hi Hs. destruct (body_crc dev info Hi) as [Hc Hr]. pose proof (label_body_length dev info Hi) as Hl. unfold label_refused, label_bytes. split.
  - rewrite (get_at_eq _ 0 8 [] LABEL_ID (le_bytes 8 sector ++ le_bytes 4 (label_crc dev info) ++ label_body dev info)) by (done || assocs). cbn [mbind option_bind]. rewrite bool_decide_true by done.
    rewrite (get_le_eq _ 8 8 LABEL_ID 8 sector (le_bytes 4 (label_crc dev info) ++ label_body dev info)) by (done || assocs). cbn [mbind option_bind]. rewrite Z.eqb_refl. cbn [negb].
    rewrite (get_at_eq _ 20 (LABEL_SIZE - 20) ((LABEL_ID ++ le_bytes 8 sector) ++ le_bytes 4 (label_crc dev info)) (label_body dev info) []) by (rewrite ?app_nil_r; assocs || (rewrite Hl; done) || sizes).
    cbn [mbind option_bind]. rewrite Hc. cbn [mbind option_bind]. rewrite (get_le_eq _ 16 4 (LABEL_ID ++ le_bytes 8 sector) 4 (label_crc dev info) (label_body dev info)) by (done || assocs || sizes).
    cbn [mbind option_bind]. by rewrite Z.eqb_refl.
  - unfold text_can_handle, label_body. apply bool_decide_eq_true.
    eapply (get_at_eq _ 24 8 ((LABEL_ID ++ le_bytes 8 sector) ++ le_bytes 4 (label_crc dev info) ++ le_bytes 4 32) LVM2_LABEL); [by rewrite <- !app_assoc|sizes|done].
Qed.

(** ** Labels on devices *)

(** The sectors of the area that is scanned. *)
Lemma dev_read_lookup d off len bs (k : nat) : 0 <= len -> dev_read d off len = Some bs -> (Z.of_nat k < len) -> bs !! k = Some (dev_data d (off + Z.of_nat k)).
Proof.
  intros Hl. unfold dev_read. destruct (dev_in_range d off len); [|done]. intros [= <-] Hk. rewrite lookup_map, lookup_seqZ_lt by lia. done.
Qed.

Lemma dev_read_part d off len bs o n : 0 <= len -> dev_read d off len = Some bs -> 0 <= o -> 0 <= n -> o + n <= len ->
  exists x, get_at bs o n = Some x /\ dev_read d (off + o) n = Some x.
Proof.
  intros Hl Hr Ho Hn Hon. pose proof (dev_read_length _ _ _ _ Hl Hr) as Hlen. unfold get_at. rewrite (proj2 (Z.leb_le _ _)) by lia. eexists. split; [reflexivity|].
  assert (exists x, dev_read d (off + o) n = Some x) as [x Hx].
  { unfold dev_read, dev_in_range in *. destruct (Z.leb_spec 0 off), (Z.leb_spec (off + len) (dev_size d)); try done. rewrite (proj2 (Z.leb_le _ _)), (proj2 (Z.leb_le (off + o + n) _)) by lia. by eexists. }
  rewrite Hx. f_equal. apply list_eq. intros i. pose proof (dev_read_length _ _ _ _ Hn Hx) as Hlx. destruct (decide (Z.of_nat i < n)).
  - rewrite lookup_take_lt, lookup_drop by lia. rewrite (dev_read_lookup _ _ _ _ i Hn Hx), (dev_read_lookup _ _ _ _ (Z.to_nat o + i) Hl Hr) by lia. do 2 f_equal. lia.
  - rewrite lookup_take_ge by lia. apply lookup_ge_None_2. lia.
Qed.

Lemma scan_sectors d readbuf s : dev_read d 0 LABEL_SCAN_SIZE = Some readbuf -> 0 <= s <= 3 ->
  exists lh, get_at readbuf (Z.shiftl s SECTOR_SHIFT) LABEL_SIZE = Some lh /\ dev_read d (512 * s) 512 = Some lh.
Proof.
  intros Hr Hs. rewrite Z.shiftl_mul_pow2 by done. change (s * 2 ^ SECTOR_SHIFT) with (s * 512). rewrite (Z.mul_comm s). apply (dev_read_part d 0 LABEL_SCAN_SIZE); [done|done|lia|done|]. change LABEL_SIZE with 512. change LABEL_SCAN_SIZE with 2048. lia.
Qed.

(** The device holds bytes and has room for the labels. *)
Definition label_dev (d : device) : Prop := (forall i, is_u8 (dev_data d i)) /\ 2048 <= dev_size d.

(** No label of a labeller in a sector. *)
Definition no_label (labellers : list labeller) (d : device) (s : Z) : Prop :=
  exists lh, dev_read d (512 * s) 512 = Some lh /\ (label_refused lh s = Some true \/ Forall (fun l => can_handle l lh s = false) labellers).

Lemma sector_bytes d off n lh : (forall i, is_u8 (dev_data d i)) -> 0 <= n -> dev_read d off n = Some lh -> Forall is_u8 lh /\ Z.of_nat (length lh) = n.
Proof.
  intros Hu Hn Hr. pose proof (dev_read_length _ _ _ _ Hn Hr) as Hl. split; [|done]. apply Forall_lookup. intros k x Hk. pose proof (lookup_lt_Some _ _ _ Hk).
  rewrite (dev_read_lookup _ _ _ _ k Hn Hr) in Hk by lia. injection Hk as <-. apply Hu.
Qed.

Lemma label_refused_total lh s : Forall is_u8 lh -> length lh = 512%nat -> exists b, label_refused lh s = Some b.
Proof.
  intros Hu Hl. unfold label_refused, get_le. assert (forall o n, 0 <= o -> 0 <= n -> o + n <= 512 -> exists x, get_at lh o n = Some x /\ Forall is_u8 x /\ Z.of_nat (length x) = n) as Hg.
  { intros o n Ho Hn Hon. unfold get_at. rewrite Hl, (proj2 (Z.leb_le _ _)) by lia. eexists. split; [done|]. split; [by apply Forall_take, Forall_drop|]. rewrite length_take, length_drop. lia. }
  destruct (Hg 0 8) as (id & -> & _); [lia..|]. cbn [mbind option_bind]. case_bool_decide; [|by eexists]. destruct (Hg 8 8) as (x & -> & _); [lia..|]. cbn [fmap option_fmap option_map mbind option_bind].
  destruct (negb _); [by eexists|]. change (LABEL_SIZE - 20) with 492. destruct (Hg 20 492) as (y & -> & Hy & Hyl); [lia..|]. cbn [mbind option_bind].
  rewrite calc_crc_spec by (done || (unfold is_u32; lia) || lia). cbn [mbind option_bind]. destruct (Hg 16 4) as (z & -> & _); [lia..|]. by eexists.
Qed.

Lemma find_no_handler (labellers : list labeller) lh s : Forall (fun l => can_handle l lh s = false) labellers -> List.find (fun l => can_handle l lh s) labellers = None.
Proof. induction 1 as [|l labellers Hl _ IH]; [done|]. cbn [List.find]. by rewrite Hl. Qed.

Section find.
Context (labellers : list labeller) (d : device) (readbuf : list Z) (Hd : forall i, is_u8 (dev_data d i)) (Hread : dev_read d 0 LABEL_SCAN_SIZE = Some readbuf).

Lemma scan_step s sectors found : 0 <= s <= 3 -> exists lh b, dev_read d (512 * s) 512 = Some lh /\ label_refused lh s = Some b /\
  find_label_loop labellers readbuf 0 (s :: sectors) found =
    if b then find_label_loop labellers readbuf 0 sectors found else
    match found with Some _ => find_label_loop labellers readbuf 0 sectors found | None => find_label_loop labellers readbuf 0 sectors ((fun l => (l, lh, s)) <$> List.find (fun l => can_handle l lh s) labellers) end.
Proof.
  intros Hs. destruct (scan_sectors d readbuf s Hread Hs) as (lh & Hg & Hr). destruct (sector_bytes d (512 * s) 512 lh Hd ltac:(lia) Hr) as [Hu Hl]. destruct (label_refused_total lh s Hu) as [b Hb]; [lia|].
  exists lh, b. split; [done|]. split; [done|]. cbn [find_label_loop]. rewrite Hg. cbn [mbind option_bind]. rewrite Z.add_0_r. assert (wrap64 s = s) as -> by (unfold wrap64, wrap; rewrite Z.mod_small; lia). by rewrite Hb.
Qed.

Lemma find_label_loop_found x : forall sectors, Forall (fun s => 0 <= s <= 3) sectors -> find_label_loop labellers readbuf 0 sectors (Some x) = Some (Some x).
Proof. induction 1 as [|s sectors Hs _ IH]; [done|]. destruct (scan_step s sectors (Some x) Hs) as (lh & b & _ & _ & ->). by destruct b. Qed.

Lemma find_label_loop_skip s sectors : 0 <= s <= 3 -> no_label labellers d s -> find_label_loop labellers readbuf 0 (s :: sectors) None = find_label_loop labellers readbuf 0 sectors None.
Proof.
  intros Hs (lh & Hr & Hno). destruct (scan_step s sectors None Hs) as (lh' & b & Hr' & Hb & ->). rewrite Hr in Hr'. injection Hr' as <-. destruct b; [done|].
  destruct Hno as [Hno|Hno]; [congruence|]. by rewrite find_no_handler.
Qed.

(** No label anywhere, or the first one at [s]. *)
Lemma find_nothing : (forall s, 0 <= s <= 3 -> no_label labellers d s) -> find_labeller labellers d 0 = Some None.
Proof.
  intros Hno. unfold find_labeller. change (wrap64 (Z.shiftl 0 SECTOR_SHIFT)) with 0. rewrite Hread. rewrite !find_label_loop_skip by (lia || (apply Hno; lia)). done.
Qed.

Lemma find_first s lh l : 0 <= s <= 3 -> (forall s', 0 <= s' < s -> no_label labellers d s') -> dev_read d (512 * s) 512 = Some lh -> label_refused lh s = Some false ->
  List.find (fun l => can_handle l lh s) labellers = Some l -> find_labeller labellers d 0 = Some (Some (l, lh, s)).
Proof.
  intros Hs Hno Hr Hf Hl. unfold find_labeller. change (wrap64 (Z.shiftl 0 SECTOR_SHIFT)) with 0. rewrite Hread.
  assert (forall sectors, Forall (fun s => 0 <= s <= 3) sectors -> find_label_loop labellers readbuf 0 (s :: sectors) None = Some (Some (l, lh, s))) as Hhit.
  { intros sectors Hsec. destruct (scan_step s sectors None Hs) as (lh' & b & Hr' & Hb & ->). rewrite Hr in Hr'. injection Hr' as <-. rewrite Hf in Hb. injection Hb as <-. rewrite Hl. by apply find_label_loop_found. }
  assert (s = 0 \/ s = 1 \/ s = 2 \/ s = 3) as [-> |[-> |[-> | ->]]] by lia; rewrite ?find_label_loop_skip by (lia || (apply Hno; lia)); apply Hhit; repeat constructor; lia.
Qed.

End find.

(** ** Writing a sector *)

(** Writes of sectors that touch nothing else. *)
Definition tidy (d : device) (o : io) : Prop := io_ok o = true /\ (dev_block d = 512 \/ o = IoOk).

Lemma sector_write d s bs o : label_dev d -> 0 <= s <= 3 -> length bs = 512%nat -> Forall is_u8 bs -> tidy d o ->
  exists d', dev_write d (512 * s) bs o = (true, d') /\ label_dev d' /\ dev_block d' = dev_block d /\ dev_read d' (512 * s) 512 = Some bs /\
    forall s', 0 <= s' <= 3 -> s' <> s -> dev_read d' (512 * s') 512 = dev_read d (512 * s') 512.
Proof.
  intros [Hu Hsz] Hs Hl Hb [Ho Htidy].
  assert (exists f, dev_write d (512 * s) bs o = (true, set_data d (put f (512 * s) bs)) /\ forall i, ~ 512 * s <= i < 512 * s + 512 -> f i = dev_data d i) as (f & E & Hf).
  { unfold dev_write, dev_in_range. rewrite Hl, (proj2 (Z.leb_le _ _)), (proj2 (Z.leb_le (512 * s + _) _)), Ho by lia. cbn [andb]. eexists. split; [reflexivity|]. intros i Hi.
    destruct o as [|junk|junk]; [done| |done]. destruct Htidy as [Hblk|?]; [|done]. unfold spoil, block_down, block_up. rewrite Hblk.
    destruct (Z.leb_spec (512 * s / 512 * 512) i), (Z.ltb_spec i ((512 * s + Z.of_nat 512 + 512 - 1) / 512 * 512)); try done. lia. }
  assert (forall i, ~ 512 * s <= i < 512 * s + 512 -> put f (512 * s) bs i = dev_data d i) as Hout. { intros i Hi. rewrite put_out by (rewrite Hl; lia). by apply Hf. }
  exists (set_data d (put f (512 * s) bs)). split; [done|]. split; [|split; [done|split]].
  - split; [|done]. intros i. cbn [set_data dev_data]. destruct (decide (512 * s <= i < 512 * s + 512)) as [Hi|Hi]; [|rewrite Hout by done; apply Hu].
    rewrite put_in by (rewrite Hl; lia). destruct (lookup_lt_is_Some_2 bs (Z.to_nat (i - 512 * s))) as [x Hx]; [lia|]. rewrite Hx. cbn. by eapply Forall_lookup_1.
  - destruct d as [sz b data]. unfold set_data. cbn [dev_size dev_block dev_data] in *. pose proof (dev_read_put sz b f (512 * s) bs ltac:(lia) ltac:(lia)) as H. by rewrite Hl in H.
  - intros s' Hs' Hne. apply dev_read_agree. split; [done|]. split; [done|]. intros i Hi. cbn [set_data dev_data]. apply Hout. lia.
Qed.

Lemma scan_read d : label_dev d -> exists readbuf, dev_read d 0 LABEL_SCAN_SIZE = Some readbuf.
Proof. intros [_ Hs]. unfold dev_read, dev_in_range. change LABEL_SCAN_SIZE with 2048. rewrite (proj2 (Z.leb_le (0 + 2048) _)) by lia. by eexists. Qed.

(** ** Theorems *)

(** The labellers of the formats in the order in which they are registered; reading the
    old formats is not looked into. *)
Section labels.
Context (lvm1_read pool_read : device -> list Z -> option (option pv_info)) (dev : Z).

Definition all_labellers : list labeller := [Labeller lvm1_can_handle lvm1_read; Labeller pool_can_handle pool_read; text_labeller dev].

Lemma label_handler sector info : info_ok dev info -> 0 <= sector < 2 ^ 64 ->
  List.find (fun l => can_handle l (label_bytes dev sector info (le_bytes 4 (label_crc dev info))) sector) all_labellers = Some (text_labeller dev).
Proof.
  intros Hi Hs. destruct (label_accepted dev sector info Hi Hs) as [_ Ht]. unfold all_labellers. cbn [List.find can_handle text_labeller]. rewrite Ht.
  assert (lvm1_can_handle (label_bytes dev sector info (le_bytes 4 (label_crc dev info))) sector = false) as ->.
  { unfold lvm1_can_handle, label_bytes. rewrite (get_at_eq _ 0 2 [] (bytes "LA") (bytes "BELONE" ++ le_bytes 8 sector ++ le_bytes 4 (label_crc dev info) ++ label_body dev info)) by (done || assocs). by destruct (sector =? 0). }
  assert (pool_can_handle (label_bytes dev sector info (le_bytes 4 (label_crc dev info))) sector = false) as ->; [|done].
  unfold pool_can_handle. unfold label_bytes at 1. rewrite (get_at_eq _ 0 8 [] LABEL_ID (le_bytes 8 sector ++ le_bytes 4 (label_crc dev info) ++ label_body dev info)) by (done || assocs).
  destruct (sector =? 0); [|done]. destruct (get_at _ 272 4); done.
Qed.

Lemma no_label_kept d d' s : dev_read d' (512 * s) 512 = dev_read d (512 * s) 512 -> no_label all_labellers d s -> no_label all_labellers d' s.
Proof. intros E (lh & Hr & H). exists lh. by rewrite E. Qed.

Lemma zeros_no_label d s : dev_read d (512 * s) 512 = Some (replicate 512 0) -> no_label all_labellers d s.
Proof.
  intros Hr. exists (replicate 512 0). split; [done|]. right. unfold all_labellers. rewrite !Forall_cons. cbn [can_handle text_labeller].
  split; [unfold lvm1_can_handle; by destruct (s =? 0)|]. split; [unfold pool_can_handle; by destruct (s =? 0)|]. by split.
Qed.

(** A sector that is not to be wiped holds no label. *)
Lemma not_wiped d s lh : (forall i, is_u8 (dev_data d i)) -> dev_read d (512 * s) 512 = Some lh -> exists w, to_wipe all_labellers lh s = Some w /\ (w = false -> no_label all_labellers d s).
Proof.
  intros Hu Hr. destruct (sector_bytes d (512 * s) 512 lh Hu ltac:(lia) Hr) as [_ Hl]. unfold to_wipe. destruct (get_at lh 0 8) as [id|] eqn:Eid.
  2: { unfold get_at in Eid. rewrite Hl in Eid. done. }
  cbn [mbind option_bind]. case_bool_decide as Hid.
  - destruct (get_le lh 8 8) as [x|] eqn:Ex; [|unfold get_le, get_at in Ex; rewrite Hl in Ex; done]. cbn [mbind option_bind]. exists (x =? s). split; [done|]. intros Hne. exists lh. split; [done|]. left.
    unfold label_refused. rewrite Eid. cbn [mbind option_bind]. rewrite bool_decide_true by done. rewrite Ex. cbn [mbind option_bind]. by rewrite Hne.
  - eexists. split; [reflexivity|]. intros Hne. exists lh. split; [done|]. right. apply Forall_forall. intros l Hin. apply not_true_iff_false. intros Ht. apply not_true_iff_false in Hne. apply Hne, existsb_exists.
    exists l. by rewrite <- list_elem_of_In.
Qed.

Lemma remove_loop_ok d readbuf : (forall i, is_u8 (dev_data d i)) -> dev_read d 0 LABEL_SCAN_SIZE = Some readbuf ->
  forall sectors seen d1 os, label_dev d1 -> dev_block d1 = dev_block d -> Forall (tidy d) os -> (forall s, s ∈ sectors -> dev_read d1 (512 * s) 512 = dev_read d (512 * s) 512) ->
  Forall (fun s => 0 <= s <= 3) sectors -> NoDup sectors -> (forall s, s ∈ seen -> 0 <= s <= 3 /\ s ∉ sectors /\ no_label all_labellers d1 s) ->
  exists d', remove_loop all_labellers readbuf sectors d1 os true = Some (true, d') /\ label_dev d' /\ forall s, s ∈ seen ++ sectors -> no_label all_labellers d' s.
Proof.
  intros Hu Hread. induction sectors as [|s sectors IH]; intros seen d1 os Hd1 Hblk Hos Hsame Hsec Hnd Hseen; cbn [remove_loop].
  { exists d1. split; [done|]. split; [done|]. intros s. rewrite app_nil_r. apply Hseen. }
  apply Forall_cons in Hsec as [Hs Hsec]. apply NoDup_cons in Hnd as [Hnew Hnd]. destruct (scan_sectors d readbuf s Hread Hs) as (lh & -> & Hlh). cbn [mbind option_bind].
  destruct (not_wiped d s lh Hu Hlh) as (w & -> & Hw). cbn [mbind option_bind]. assert (forall x, x ∈ seen ++ s :: sectors <-> x ∈ (seen ++ [s]) ++ sectors) as Happ by (intros x; by rewrite <- app_assoc).
  setoid_rewrite Happ. destruct w.
  - destruct (sector_write d1 s (replicate 512 0) (default IoOk (head os)) Hd1 Hs) as (d2 & E & Hd2 & Hblk2 & Hr2 & Hkeep); [done|by apply Forall_replicate| |].
    { destruct os as [|o os]; [split; [done|by right]|]. apply Forall_cons in Hos as [[H1 H2] _]. split; [done|]. by rewrite Hblk. }
    rewrite Z.shiftl_mul_pow2 by done. change (s * 2 ^ SECTOR_SHIFT) with (s * 512). rewrite (Z.mul_comm s). change (Z.to_nat LABEL_SIZE) with 512%nat. rewrite E.
    apply IH; [done|congruence|destruct os; [done|by apply Forall_cons in Hos as [_ ?]]| |done|done|].
    + intros x Hx. rewrite Hkeep; [apply Hsame; by right| |by intros ->]. by rewrite Forall_forall in Hsec; apply Hsec.
    + intros x [Hx| ->%list_elem_of_singleton]%elem_of_app; [|split; [done|split; [done|by apply zeros_no_label]]]. destruct (Hseen x Hx) as (H1 & H2 & H3). apply not_elem_of_cons in H2 as [H2 H4].
      split; [done|]. split; [done|]. eapply no_label_kept; [|done]. by apply Hkeep.
  - apply IH; [done|done|done| |done|done|].
    + intros x Hx. apply Hsame. by right.
    + intros x [Hx| ->%list_elem_of_singleton]%elem_of_app; [destruct (Hseen x Hx) as (H1 & H2 & H3); apply not_elem_of_cons in H2 as [_ H4]; done|]. split; [done|]. split; [done|].
      eapply no_label_kept; [|by apply Hw]. apply Hsame. by left.
Qed.

End labels.

(** C10: a label that is written is found and read back.  Writing the label of a PV into
    one of the first four sectors succeeds when its areas fit and the write does, and
    reading the device, when no sector in front holds a label, finds it there and gives
    the identifier, the size, the data areas and the metadata areas on this device that
    were written; an area is ignored when its header says so.  No area starts at offset 0
    ([info_ok]), which on disk is the end of the list of areas. *)
Theorem label_round_trip lvm1_read pool_read dev sector info d o :
  label_dev d -> info_ok dev info -> 0 <= sector <= 3 -> tidy d o -> (forall s, 0 <= s < sector -> no_label (all_labellers lvm1_read pool_read dev) d s) ->
  exists d', label_write true dev sector info d o = Some (true, d') /\
    label_read (all_labellers lvm1_read pool_read dev) true d' 0 = Some (Some (sector, told d' dev info)).
Proof.
  intros Hd Hi Hs Ho Hno. destruct (body_crc dev info Hi) as [_ Hc]. pose proof (label_bytes_length dev sector info (le_bytes 4 (label_crc dev info)) Hi (le_bytes_length _ _)) as Hl.
  destruct (sector_write d sector (label_bytes dev sector info (le_bytes 4 (label_crc dev info))) o Hd Hs Hl) as (d' & E & Hd' & _ & Hr & Hkeep); [|done|].
  { unfold label_bytes. apply Forall_app; split; [apply Forall_app; split; [by repeat constructor|apply le_bytes_u8]|apply Forall_app; split; [apply le_bytes_u8|by apply label_body_u8]]. }
  exists d'. rewrite label_write_spec by done. rewrite E. split; [done|]. destruct (scan_read d' Hd') as [readbuf Hread]. unfold label_read. cbn [negb].
  rewrite (find_first _ d' readbuf (proj1 Hd') Hread sector (label_bytes dev sector info (le_bytes 4 (label_crc dev info))) (text_labeller dev)).
  - cbn [lb_read text_labeller]. by rewrite text_read_spec by (done || apply le_bytes_length).
  - done.
  - intros s Hs'. eapply no_label_kept; [|by apply Hno]. apply Hkeep; lia.
  - done.
  - apply label_accepted; [done|lia].
  - apply label_handler; [done|lia].
Qed.

(** C11: removing the labels of a device leaves no label that any format would find, and
    fails only when a write does. *)
Theorem label_remove_clears lvm1_read pool_read dev d os :
  label_dev d -> Forall (tidy d) os -> exists d', label_remove (all_labellers lvm1_read pool_read dev) true d os = Some (true, d') /\ find_labeller (all_labellers lvm1_read pool_read dev) d' 0 = Some None.
Proof.
  intros Hd Hos. destruct (scan_read d Hd) as [readbuf Hread]. unfold label_remove. cbn [negb]. rewrite Hread.
  destruct (remove_loop_ok lvm1_read pool_read dev d readbuf (proj1 Hd) Hread [0; 1; 2; 3] [] d os) as (d' & E & Hd' & Hno); [done|done|done|done|repeat constructor; lia|by apply (bool_decide_eq_true_1 _)|intros s Hs; by apply not_elem_of_nil in Hs|].
  exists d'. split; [done|]. destruct (scan_read d' Hd') as [readbuf' Hread']. apply (find_nothing _ d' readbuf' (proj1 Hd') Hread'). intros s Hs. apply Hno.
  assert (s = 0 \/ s = 1 \/ s = 2 \/ s = 3) as [-> |[-> |[-> | ->]]] by lia; by apply (bool_decide_eq_true_1 _).
Qed.

(** A label that is found is one that its labeller can handle, so that verifying a device
    is looking for a label on it. *)
Lemma find_label_loop_handles labellers readbuf scan_sector sectors : forall found r,
  find_label_loop labellers readbuf scan_sector sectors found = Some r ->
  (forall l lh s, found = Some (l, lh, s) -> can_handle l lh s = true) -> forall l lh s, r = Some (l, lh, s) -> can_handle l lh s = true.
Proof.
  induction sectors as [|sector sectors IH]; intros found r; cbn [find_label_loop]; [intros [= <-]; done|].
  destruct (get_at readbuf _ _) as [lh|]; cbn; [|done]. destruct (label_refused lh _) as [[]|]; cbn; [by apply IH| |done].
  destruct found as [f|]; [by apply IH|]. intros E _. apply (IH _ _ E). intros l lh' s Hl. apply fmap_Some in Hl as (l' & Hf & [= -> -> ->]). by apply List.find_some in Hf as [_ Hf].
Qed.

Lemma label_verify_finds labellers d r : find_labeller labellers d 0 = Some r -> label_verify labellers true d = Some (bool_decide (is_Some r)).
Proof.
  intros E. unfold label_verify. cbn [negb]. rewrite E. destruct r as [[[l lh] s]|]; [|done]. unfold find_labeller in E. destruct (dev_read d _ _) as [readbuf|]; [|done].
  by rewrite (find_label_loop_handles _ _ _ _ _ _ E ltac:(done) l lh s eq_refl).
Qed.

(** A device of zeros, and a PV with a data area and a metadata area. *)
Definition zero_dev : device := Device 8192 512 (fun _ => 0).
Definition example_uuid : list Z := bytes "abcdefghijklmnopqrstuvwxyz012345".
Definition example_info : pv_info := PvInfo example_uuid 4194304 [DiskLocn 1048576 0] [(7, MdaArea 4096 1044480 false); (8, MdaArea 512 1024 false)].

Definition no_read (d : device) (buf : list Z) : option (option pv_info) := Some None.

Lemma zero_dev_ok : label_dev zero_dev.
Proof. split; [|done]. intros i. unfold is_u8. cbn. lia. Qed.

Lemma example_info_ok : info_ok 7 example_info.
Proof.
  split.
  - split; [done|]. cbn. rewrite !Forall_cons. unfold is_u8. repeat split; try lia. constructor.
  - done.
  - split; [done|]. cbn. constructor; [|constructor]. done.
  - cbn. constructor; [|constructor]. done.
  - by apply Nat.leb_le.
Qed.

Lemma label_round_trip_witness : exists d', label_write true 7 1 example_info zero_dev (IoPad (fun _ => 255)) = Some (true, d') /\
  label_read (all_labellers no_read no_read 7) true d' 0 = Some (Some (1, told d' 7 example_info)).
Proof.
  apply (label_round_trip no_read no_read 7 1 example_info zero_dev (IoPad (fun _ => 255))).
  - apply zero_dev_ok.
  - apply example_info_ok.
  - lia.
  - split; [done|by left].
  - intros s Hs. assert (s = 0) as -> by lia. apply zeros_no_label. by vm_compute.
Defined.

Lemma put_u8 f off bs : (forall i, is_u8 (f i)) -> Forall is_u8 bs -> forall i, is_u8 (put f off bs i).
Proof.
  intros Hf Hb i. unfold put. destruct (_ && _); [|done]. destruct (bs !! Z.to_nat (i - off)) as [x|] eqn:E; cbn; [|unfold is_u8; lia]. by eapply Forall_lookup_1.
Qed.

(** A sector with the type of a label, but not its first eight bytes; it names a PV header
    at the end of its address space. *)
Definition forged : device := Device 8192 512 (put (put (fun _ => 0) 24 LVM2_LABEL) 20 (le_bytes 4 0xffffffff)).

Lemma forged_ok : label_dev forged.
Proof.
  split; [|done]. apply put_u8; [apply put_u8; [intros i; unfold is_u8; lia|]|apply le_bytes_u8]. repeat constructor; unfold is_u8; lia.
Qed.

Lemma label_remove_clears_witness : exists d', label_remove (all_labellers no_read no_read 7) true forged [IoOk; IoOk] = Some (true, d') /\
  find_labeller (all_labellers no_read no_read 7) forged 0 <> Some None /\ find_labeller (all_labellers no_read no_read 7) d' 0 = Some None.
Proof.
  destruct (label_remove_clears no_read no_read 7 forged [IoOk; IoOk]) as (d' & E & H); [apply forged_ok|repeat constructor; by right|].
  exists d'. split; [exact E|]. split; [|exact H]. intros F. apply (f_equal (option_map (fun x => bool_decide (is_Some x)))) in F. revert F. vm_compute. congruence.
Defined.

(** ** Where labels go wrong *)

(** C40: the first sector of the scan that has the type of a label in its place is taken for
    a label, although it does not begin as one, whatever it has for a checksum and for its
    sector; [label_verify] accepts it, and [label_read] follows the place of the PV header
    that it names, wherever this is: when the header ends behind the sector, it reads
    outside of the buffer. *)
Theorem forged_label_read_outside lvm1_read pool_read dev sector off d lh :
  let labellers := all_labellers lvm1_read pool_read dev in
  label_dev d -> 0 <= sector <= 3 -> (forall s, 0 <= s < sector -> no_label labellers d s) -> dev_read d (512 * sector) 512 = Some lh ->
  get_at lh 0 8 <> Some LABEL_ID -> lvm1_can_handle lh sector = false -> pool_can_handle lh sector = false ->
  get_at lh 24 8 = Some LVM2_LABEL -> get_le lh 20 4 = Some off -> LABEL_SIZE < off + 40 ->
  label_verify labellers true d = Some true /\ label_read labellers true d 0 = None.
Proof.
  intros labellers Hd Hs Hno Hread Hid Hlvm1 Hpool Htype Hoff Hout. destruct (scan_read d Hd) as [readbuf Hscan]. pose proof (dev_read_length d (512 * sector) 512 lh ltac:(lia) Hread) as Hlen.
  assert (label_refused lh sector = Some false) as Href.
  { unfold label_refused. destruct (get_at lh 0 8) as [id|] eqn:Eid; cbn [mbind option_bind].
    - rewrite bool_decide_eq_false_2; [done|]. congruence.
    - unfold get_at in Eid. rewrite (proj2 (Z.leb_le _ _)) in Eid by lia. done. }
  assert (text_can_handle lh sector = true) as Hcan by (unfold text_can_handle; by apply bool_decide_eq_true).
  pose proof (find_first labellers d readbuf (proj1 Hd) Hscan sector lh (text_labeller dev) Hs Hno Hread Href) as Hfind.
  assert (find_labeller labellers d 0 = Some (Some (text_labeller dev, lh, sector))) as E.
  { apply Hfind. unfold labellers, all_labellers. cbn [List.find can_handle text_labeller]. by rewrite Hlvm1, Hpool, Hcan. }
  split; [unfold label_verify; cbn [negb]; by rewrite E, <- Hcan|]. unfold label_read. cbn [negb]. rewrite E. cbn [text_labeller lb_read]. unfold text_read. rewrite Hoff. cbn [mbind option_bind].
  destruct (get_at lh off 32); cbn [mbind option_bind]; [|done]. unfold get_le, get_at. change LABEL_SIZE with 512 in Hout. destruct (Z.leb_spec (off + 32 + 8) (Z.of_nat (length lh))); [lia|done].
Qed.

Lemma forged_label_read_outside_witness : label_verify (all_labellers no_read no_read 7) true forged = Some true /\ label_read (all_labellers no_read no_read 7) true forged 0 = None.
Proof.
  apply (forged_label_read_outside no_read no_read 7 0 0xffffffff forged (map (dev_data forged) (seqZ 0 512))).
  - apply forged_ok.
  - lia.
  - intros s Hs. lia.
  - by vm_compute.
  - vm_compute. congruence.
  - by vm_compute.
  - by vm_compute.
  - by vm_compute.
  - by vm_compute.
  - by vm_compute.
Defined.

(** A PV whose data area begins at the first sector. *)
Definition from_start : pv_info := PvInfo example_uuid 4194304 [DiskLocn 0 1048576] [(7, MdaArea 1048576 1048576 false)].

Definition written (sector : Z) (info : pv_info) : device := match label_write true 7 sector info zero_dev IoOk with Some (_, d) => d | None => zero_dev end.

(** The writer of labels takes a data area at offset 0, which is the mark of the end
    of a list to the reader: the label that was written successfully is read as a PV
    without data areas and without metadata areas. *)
Lemma zero_offset_hides_areas lvm1_read pool_read :
  label_write true 7 1 from_start zero_dev IoOk = Some (true, written 1 from_start) /\
  label_read (all_labellers lvm1_read pool_read 7) true (written 1 from_start) 0 = Some (Some (1, PvInfo example_uuid 4194304 [] [])).
Proof. split; [unfold written; by destruct (label_write true 7 1 from_start zero_dev IoOk) as [[[] d]|] eqn:E; [|by vm_compute in E..]|by vm_compute]. Qed.

(** The test of the sector wraps round: a label for sector 2^55 is written to sector 0,
    and not found there. *)
Lemma label_sector_wraps lvm1_read pool_read :
  label_write true 7 (2 ^ 55) example_info zero_dev IoOk = Some (true, written (2 ^ 55) example_info) /\ find_labeller (all_labellers lvm1_read pool_read 7) (written (2 ^ 55) example_info) 0 = Some None.
Proof. split; [unfold written; by destruct (label_write true 7 (2 ^ 55) example_info zero_dev IoOk) as [[[] d]|] eqn:E; [|by vm_compute in E..]|by vm_compute]. Qed.

(** With 26 areas the list runs out of the sector. *)
Lemma label_areas_overflow : label_write true 7 1 (PvInfo example_uuid 4194304 (replicate 26 (DiskLocn 1048576 0)) []) zero_dev IoOk = None.
Proof. by vm_compute. Qed.
