(* ===== verification/FileLock.v ===== *)
(** * File locks (lib/locking/file_locking.c)

    A VG is locked by a lock of the kernel on a file that is named after it, and the file
    is removed by the process that unlocks it last.  The model has several processes
    that run this code: a function is a program of system calls ([prog]), the kernel has
    names, inodes, open file descriptions and their locks, and the calls of the
    processes are interleaved.  Every call may fail. *)

From stdpp Require Import gmap.
From S2P Require Import Prelude DmString.

(** ** Programs *)

Inductive lock_op := LOCK_SH | LOCK_EX.
#[global] Instance lock_op_eq : EqDecision lock_op.
Proof. solve_decision. Defined.

(** [struct lock_list]: a file, and the descriptor that it is locked through.  The
    operation that it was locked with is not stored by the code: no definition looks at
    it, it is for the statements about the list. *)
Record lock_list := LockList { ll_res : list Z; ll_lf : Z; ll_op : lock_op }.

(** A program makes system calls, allocates, and reads and changes the list of locks of
    its process.  [DoFlock] is a call of [_do_flock]: its loop is a call from the end of
    its body. *)
Inductive prog (A : Type) : Type :=
| Ret (a : A)
| Open (file : list Z) (k : option Z -> prog A)
| Flock (fd : Z) (operation : lock_op) (nonblock : bool) (k : bool -> prog A)
| Funlock (fd : Z) (k : bool -> prog A)
| Stat (file : list Z) (k : option Z -> prog A)
| Fstat (fd : Z) (k : option Z -> prog A)
| Unlink (file : list Z) (k : bool -> prog A)
| Close (fd : Z) (k : bool -> prog A)
| Alloc (k : bool -> prog A)
| GetList (k : list lock_list -> prog A)
| SetList (l : list lock_list) (k : prog A)
| DoFlock (file : list Z) (fd : Z) (operation : lock_op) (nonblock : bool) (k : bool * Z -> prog A).
Arguments Ret {A}.
Arguments Open {A}.
Arguments Flock {A}.
Arguments Funlock {A}.
Arguments Stat {A}.
Arguments Fstat {A}.
Arguments Unlink {A}.
Arguments Close {A}.
Arguments Alloc {A}.
Arguments GetList {A}.
Arguments SetList {A}.
Arguments DoFlock {A}.

Fixpoint prog_bind {A B} (f : A -> prog B) (m : prog A) : prog B :=
  match m with
  | Ret a => f a
  | Open file k => Open file (fun r => prog_bind f (k r))
  | Flock fd op nb k => Flock fd op nb (fun r => prog_bind f (k r))
  | Funlock fd k => Funlock fd (fun r => prog_bind f (k r))
  | Stat file k => Stat file (fun r => prog_bind f (k r))
  | Fstat fd k => Fstat fd (fun r => prog_bind f (k r))
  | Unlink file k => Unlink file (fun r => prog_bind f (k r))
  | Close fd k => Close fd (fun r => prog_bind f (k r))
  | Alloc k => Alloc (fun r => prog_bind f (k r))
  | GetList k => GetList (fun l => prog_bind f (k l))
  | SetList l k => SetList l (prog_bind f k)
  | DoFlock file fd op nb k => DoFlock file fd op nb (fun r => prog_bind f (k r))
  end.
#[global] Instance prog_mbind : MBind prog := @prog_bind.

(** ** The code *)

(** [!stat(file, &buf1) && !fstat(fd, &buf2) && is_same_inode(buf1, buf2)] *)
Definition is_same_inode (file : list Z) (fd : Z) : prog bool :=
  buf1 ← Stat file Ret;
  match buf1 with
  | None => Ret false
  | Some i1 => buf2 ← Fstat fd Ret; Ret (match buf2 with Some i2 => i1 =? i2 | None => false end)
  end.

(** [_undo_flock] *)
Definition undo_flock (file : list Z) (fd : Z) : prog unit :=
  r ← Flock fd LOCK_EX true Ret;
  same ← (if r : bool then is_same_inode file fd else Ret false);
  (if same : bool then _ ← Unlink file Ret; Ret tt else Ret tt);;
  Close fd (fun _ => Ret tt).

(** The loop of [_release_lock]; [kept] are the locks that it has passed. *)
Fixpoint release_loop (file : option (list Z)) (unlock : bool) (kept todo : list lock_list) : prog bool :=
  match todo with
  | [] => Ret false
  | ll :: todo =>
      if match file with None => true | Some file => bool_decide (ll_res ll = file) end then
        SetList (kept ++ todo) (
          (if unlock then Funlock (ll_lf ll) (fun _ => Ret tt) else Ret tt);;
          undo_flock (ll_res ll) (ll_lf ll);;
          match file with Some _ => Ret true | None => release_loop file unlock kept todo end)
      else release_loop file unlock (kept ++ [ll]) todo
  end.

(** [_release_lock] *)
Definition release_lock (file : option (list Z)) (unlock : bool) : prog bool := GetList (release_loop file unlock []).

Definition fin_file_locking : prog bool := release_lock None true.
Definition reset_file_locking : prog bool := release_lock None false.

(** The body of [_do_flock], with the descriptor of the attempt before. *)
Definition do_flock_body (file : list Z) (fd : Z) (operation : lock_op) (nonblock : bool) : prog (bool * Z) :=
  (if -1 <? fd then Close fd (fun _ => Ret tt) else Ret tt);;
  o ← Open file Ret;
  match o with
  | None => Ret (false, -1)
  | Some fd =>
      r ← Flock fd operation nonblock Ret;
      if negb r then Close fd (fun _ => Ret (false, fd)) else
      same ← is_same_inode file fd;
      if same : bool then Ret (true, fd) else
      if nonblock then Ret (false, fd) else DoFlock file fd operation nonblock Ret
  end.

(** [_do_flock] *)
Definition do_flock (file : list Z) (fd : Z) (operation : lock_op) (nonblock : bool) : prog (bool * Z) := DoFlock file fd operation nonblock Ret.

Definition AUX_LOCK_SUFFIX : list Z := bytes ":aux".

(** [_do_write_priority_flock] *)
Definition do_write_priority_flock (file : list Z) (fd : Z) (operation : lock_op) (nonblock : bool) : prog (bool * Z) :=
  let file_aux := file ++ AUX_LOCK_SUFFIX in
  '(r, fd_aux) ← do_flock file_aux (-1) LOCK_EX false;
  if r : bool then
    if bool_decide (operation = LOCK_EX) then
      res ← do_flock file fd operation nonblock;
      undo_flock file_aux fd_aux;;
      Ret res
    else
      undo_flock file_aux fd_aux;;
      do_flock file fd operation nonblock
  else Ret (false, fd).

Definition LCK_TYPE_MASK : Z := 7.
Definition LCK_READ : Z := 1.
Definition LCK_WRITE : Z := 4.
Definition LCK_UNLOCK : Z := 6.
Definition LCK_NONBLOCK : Z := 16.
Definition LCK_CACHE : Z := 256.

Section locking.
(** [_prioritise_write_locks] and [_lock_dir] *)
Context (prioritise_write_locks : bool) (lock_dir : list Z).

(** [_lock_file] for an operation that is not an unlocking. *)
Definition lock_file_as (file : list Z) (operation : lock_op) (nonblock : bool) : prog bool :=
  ok ← Alloc Ret;
  if negb ok then Ret false else
  ok ← Alloc Ret;
  if negb ok then Ret false else
  '(r, lf) ← (if prioritise_write_locks then do_write_priority_flock file (-1) operation nonblock else do_flock file (-1) operation nonblock);
  if r : bool then GetList (fun l => SetList (l ++ [LockList file lf operation]) (Ret true)) else Ret false.

(** [_lock_file] *)
Definition lock_file (file : list Z) (flags : Z) : prog bool :=
  let nonblock := negb (Z.land flags LCK_NONBLOCK =? 0) in
  let type := Z.land flags LCK_TYPE_MASK in
  if type =? LCK_READ then lock_file_as file LOCK_SH nonblock
  else if type =? LCK_WRITE then lock_file_as file LOCK_EX nonblock
  else if type =? LCK_UNLOCK then release_lock (Some file) true
  else Ret false.

Definition VG_ORPHANS : list Z := bytes "#orphans".
Definition VG_GLOBAL : list Z := bytes "#global".
Definition PATH_MAX : Z := 4096.

(** [is_global_vg] and [is_orphan_vg] *)
Definition is_global_vg (vg_name : list Z) : bool := bool_decide (vg_name = VG_GLOBAL).
Definition is_orphan_vg (vg_name : list Z) : bool := bool_decide (take 8 vg_name = VG_ORPHANS).

(** The name of the lock file of a VG. *)
Definition lockfile (resource : list Z) : option (list Z) :=
  let path := lock_dir ++ (if is_orphan_vg resource || is_global_vg resource then bytes "/P_" ++ drop 1 resource else bytes "/V_" ++ resource) in
  if PATH_MAX <=? Z.of_nat (length path) then None else Some path.

(** [_file_lock_resource] for the scope [LCK_VG]; what it tells the cache is left out. *)
Definition file_lock_resource (resource : list Z) (flags : Z) : prog bool :=
  if negb (Z.land flags LCK_CACHE =? 0) then Ret true else
  match lockfile resource with
  | None => Ret false
  | Some file => lock_file file flags
  end.

End locking.

(** ** The kernel *)

(** The inodes of names, the inodes of open file descriptions, which process has which
    description open, and the locks of descriptions.  A descriptor is named by its
    description; neither these nor the numbers of inodes are used again. *)
Record kernel := Kernel { k_names : gmap (list Z) Z; k_inode : gmap Z Z; k_open : gset (nat * Z); k_locks : gmap Z lock_op; k_next : Z }.

Definition set_locks (l : gmap Z lock_op) (k : kernel) : kernel := Kernel (k_names k) (k_inode k) (k_open k) l (k_next k).
Definition set_names (n : gmap (list Z) Z) (k : kernel) : kernel := Kernel n (k_inode k) (k_open k) (k_locks k) (k_next k).

(** A lock lasts as long as its description is open. *)
Definition set_open (o : gset (nat * Z)) (k : kernel) : kernel :=
  Kernel (k_names k) (k_inode k) o (filter (fun x => x.1 ∈ (set_map snd o : gset Z)) (k_locks k)) (k_next k).

(** A new description of the inode [i]. *)
Definition new_open (p : nat) (i : Z) (k : kernel) : kernel :=
  Kernel (k_names k) (<[k_next k := i]> (k_inode k)) ({[(p, k_next k)]} ∪ k_open k) (k_locks k) (k_next k + 1).

(** A new inode with the name [file]. *)
Definition new_inode (file : list Z) (k : kernel) : kernel :=
  Kernel (<[file := k_next k]> (k_names k)) (k_inode k) (k_open k) (k_locks k) (k_next k + 1).

(** No other description of the same inode has a lock that conflicts. *)
Definition may_lock (k : kernel) (fd : Z) (op : lock_op) : Prop :=
  map_Forall (fun fd' op' => fd' = fd \/ k_inode k !! fd' <> k_inode k !! fd \/ (op = LOCK_SH /\ op' = LOCK_SH)) (k_locks k).
#[global] Instance may_lock_dec k fd op : Decision (may_lock k fd op).
Proof. unfold may_lock. apply _. Defined.

Section steps.
Context {A : Type} (p : nat).

(** A step of the process [p].  A lock is converted by releasing it first, so that it may
    be lost before flock grants or refuses the new one. *)
Inductive prog_step : kernel * list lock_list * prog A -> kernel * list lock_list * prog A -> Prop :=
| step_open_old k l file i c : k_names k !! file = Some i -> prog_step (k, l, Open file c) (new_open p i k, l, c (Some (k_next k)))
| step_open_new k l file c : k_names k !! file = None -> prog_step (k, l, Open file c) (new_open p (k_next k) (new_inode file k), l, c (Some (k_next k + 1)))
| step_open_fails k l file c : prog_step (k, l, Open file c) (k, l, c None)
| step_flock k l fd op nb c : (p, fd) ∈ k_open k -> may_lock k fd op -> prog_step (k, l, Flock fd op nb c) (set_locks (<[fd := op]> (k_locks k)) k, l, c true)
| step_flock_fails k l fd op nb c : prog_step (k, l, Flock fd op nb c) (k, l, c false)
| step_flock_converts k l fd op nb c : (p, fd) ∈ k_open k -> prog_step (k, l, Flock fd op nb c) (set_locks (delete fd (k_locks k)) k, l, Flock fd op nb c)
| step_funlock k l fd c : (p, fd) ∈ k_open k -> prog_step (k, l, Funlock fd c) (set_locks (delete fd (k_locks k)) k, l, c true)
| step_funlock_fails k l fd c : prog_step (k, l, Funlock fd c) (k, l, c false)
| step_stat k l file c : prog_step (k, l, Stat file c) (k, l, c (k_names k !! file))
| step_stat_fails k l file c : prog_step (k, l, Stat file c) (k, l, c None)
| step_fstat k l fd c : (p, fd) ∈ k_open k -> prog_step (k, l, Fstat fd c) (k, l, c (k_inode k !! fd))
| step_fstat_fails k l fd c : prog_step (k, l, Fstat fd c) (k, l, c None)
| step_unlink k l file c : prog_step (k, l, Unlink file c) (set_names (delete file (k_names k)) k, l, c true)
| step_unlink_fails k l file c : prog_step (k, l, Unlink file c) (k, l, c false)
| step_close k l fd r c : prog_step (k, l, Close fd c) (set_open (k_open k ∖ {[(p, fd)]}) k, l, c r)
| step_alloc k l r c : prog_step (k, l, Alloc c) (k, l, c r)
| step_get k l c : prog_step (k, l, GetList c) (k, l, c l)
| step_set k l l' c : prog_step (k, l, SetList l' c) (k, l', c)
| step_do_flock k l file fd op nb c : prog_step (k, l, DoFlock file fd op nb c) (k, l, do_flock_body file fd op nb ≫= c).

End steps.

(** ** Processes *)

(** A process has its list of locks and what is left of the call that it makes. *)
Record proc := Proc { pr_list : list lock_list; pr_prog : prog bool }.

(** What a process may call when no call is under way. *)
Inductive request (prio : bool) : prog bool -> Prop :=
| request_lock file flags : request prio (lock_file prio file flags)
| request_fin : request prio fin_file_locking.

(** The descriptions that the child [q] gets from [p]. *)
Definition inherited (p q : nat) (k : kernel) : gset (nat * Z) := set_map (fun x : nat * Z => (q, x.2)) (filter (fun x => x.1 = p) (k_open k)).

Section system.
Context (prio : bool) (forks : bool).

(** A process makes a step of its call, makes a call, ends at any time, or forks.  The
    child resets its locks, as in [exec_cmd] and [become_daemon]; if not [forks], then
    only a process that has no locks forks. *)
Inductive step : kernel * gmap nat proc -> kernel * gmap nat proc -> Prop :=
| step_run k ps p l m k' l' m' : ps !! p = Some (Proc l m) -> prog_step p (k, l, m) (k', l', m') -> step (k, ps) (k', <[p := Proc l' m']> ps)
| step_call k ps p l r m : ps !! p = Some (Proc l (Ret r)) -> request prio m -> step (k, ps) (k, <[p := Proc l m]> ps)
| step_exit k ps p : step (k, ps) (set_open (filter (fun x => x.1 <> p) (k_open k)) k, delete p ps)
| step_fork k ps p q l r :
    ps !! p = Some (Proc l (Ret r)) -> ps !! q = None -> (forks = true \/ l = []) ->
    step (k, ps) (set_open (inherited p q k ∪ k_open k) k, <[q := Proc l reset_file_locking]> ps).

(** No process has anything open; there may be lock files of the past, each with its own
    inode. *)
Definition initial (s : kernel * gmap nat proc) : Prop :=
  0 <= k_next s.1 /\ k_inode s.1 = ∅ /\ k_open s.1 = ∅ /\ k_locks s.1 = ∅ /\ map_Forall (fun _ i => i < k_next s.1) (k_names s.1) /\
  (forall f g i, k_names s.1 !! f = Some i -> k_names s.1 !! g = Some i -> f = g) /\ map_Forall (fun _ pr => pr_list pr = [] /\ exists r, pr_prog pr = Ret r) s.2.

Definition reachable (s : kernel * gmap nat proc) : Prop := exists s0, initial s0 /\ rtc step s0 s.

End system.

(** ** A process alone *)

(** The step of a process whose calls do not fail; [None] when it has ended or has to
    wait. *)
Definition exec1 {A} (p : nat) (s : kernel * list lock_list * prog A) : option (kernel * list lock_list * prog A) :=
  let '(k, l, m) := s in
  match m with
  | Ret _ => None
  | Open file c =>
      Some (match k_names k !! file with Some i => (new_open p i k, l, c (Some (k_next k))) | None => (new_open p (k_next k) (new_inode file k), l, c (Some (k_next k + 1))) end)
  | Flock fd op nb c =>
      if bool_decide ((p, fd) ∈ k_open k) then
        if bool_decide (may_lock k fd op) then Some (set_locks (<[fd := op]> (k_locks k)) k, l, c true)
        else if nb then Some (k, l, c false) else None
      else Some (k, l, c false)
  | Funlock fd c => Some (if bool_decide ((p, fd) ∈ k_open k) then (set_locks (delete fd (k_locks k)) k, l, c true) else (k, l, c false))
  | Stat file c => Some (k, l, c (k_names k !! file))
  | Fstat fd c => Some (k, l, c (if bool_decide ((p, fd) ∈ k_open k) then k_inode k !! fd else None))
  | Unlink file c => Some (match k_names k !! file with Some _ => (set_names (delete file (k_names k)) k, l, c true) | None => (k, l, c false) end)
  | Close fd c => Some (set_open (k_open k ∖ {[(p, fd)]}) k, l, c (bool_decide ((p, fd) ∈ k_open k)))
  | Alloc c => Some (k, l, c true)
  | GetList c => Some (k, l, c l)
  | SetList l' c => Some (k, l', c)
  | DoFlock file fd op nb c => Some (k, l, do_flock_body file fd op nb ≫= c)
  end.

Fixpoint exec {A} (p : nat) (fuel : nat) (s : kernel * list lock_list * prog A) : kernel * list lock_list * prog A :=
  match fuel with
  | O => s
  | S fuel => match exec1 p s with Some s => exec p fuel s | None => s end
  end.
