(* ===== verification/FileLockProps.v ===== *)
(** * What file locks guarantee

    A process knows something of the descriptions it has open ([view]): their inodes,
    the locks it has through them, and the names that cannot go away because of these
    locks.  [wp] says that a program uses its descriptions as such knowledge allows;
    every function of the code does, and then a step of one process leaves true what the
    others know. *)

From stdpp Require Import gmap.
From S2P Require Import Prelude DmString FileLock.

(** ** What a process knows *)

Record fdi := Fdi { fi_inode : Z; fi_lock : option lock_op; fi_pins : gset (list Z) }.

Notation view := (gmap Z fdi).

Definition fdi_le (a b : fdi) : Prop := fi_inode a = fi_inode b /\ (fi_lock a = None \/ fi_lock a = fi_lock b) /\ fi_pins a ⊆ fi_pins b.
Definition view_le (v v' : view) : Prop := forall fd a, v !! fd = Some a -> exists b, v' !! fd = Some b /\ fdi_le a b.

#[global] Instance fdi_le_refl : Reflexive fdi_le.
Proof. intros a. split; [done|]. split; [by right|done]. Qed.

#[global] Instance fdi_le_trans : Transitive fdi_le.
Proof. intros a b c (H1 & H2 & H3) (G1 & G2 & G3). split; [congruence|]. split; [|set_solver]. destruct H2 as [H2|H2]; [by left|]. destruct G2 as [G2|G2]; [left|right]; congruence. Qed.

#[global] Instance view_le_refl : Reflexive view_le.
Proof. intros v fd a Ha. by exists a. Qed.

#[global] Instance view_le_trans : Transitive view_le.
Proof. intros u v w H G fd a Ha. destruct (H fd a Ha) as (b & Hb & Hab). destruct (G fd b Hb) as (c & Hc & Hbc). exists c. split; [done|by transitivity b]. Qed.

Lemma view_le_insert v v' fd a b : view_le v v' -> fdi_le a b -> view_le (<[fd := a]> v) (<[fd := b]> v').
Proof. intros Hv Hab x c. destruct (decide (x = fd)) as [-> |Hx]; [rewrite !lookup_insert_eq|rewrite !lookup_insert_ne by done; apply Hv]. intros [= <-]. by exists b. Qed.

Lemma view_le_delete v v' fd : view_le v v' -> view_le (delete fd v) (delete fd v').
Proof. intros Hv x c. destruct (decide (x = fd)) as [-> |Hx]; [by rewrite lookup_delete_eq|rewrite !lookup_delete_ne by done; apply Hv]. Qed.

Lemma view_le_drop v fd : view_le (delete fd v) v.
Proof. intros x a Ha. apply lookup_delete_Some in Ha as [_ Ha]. by exists a. Qed.

Lemma view_le_fresh v v' fd : view_le v v' -> v' !! fd = None -> v !! fd = None.
Proof. intros Hv Hfd. destruct (v !! fd) as [a|] eqn:E; [|done]. destruct (Hv fd a E) as (b & Hb & _). congruence. Qed.

(** The name [file] has the inode [i]: it keeps it as long as this has a lock. *)
Definition pin (file : list Z) (i : Z) (a : fdi) : fdi :=
  if bool_decide (fi_inode a = i /\ is_Some (fi_lock a)) then Fdi (fi_inode a) (fi_lock a) ({[file]} ∪ fi_pins a) else a.
Definition pin_all (file : list Z) (i : Z) (v : view) : view := pin file i <$> v.

Lemma pin_more file i a : fdi_le a (pin file i a).
Proof. unfold pin. case_bool_decide; [|reflexivity]. split; [done|]. split; [by right|cbn; set_solver]. Qed.

Lemma pin_mono file i a b : fdi_le a b -> fdi_le (pin file i a) (pin file i b).
Proof.
  intros (H1 & H2 & H3). unfold pin. rewrite H1. destruct (decide (is_Some (fi_lock a))) as [[op Ha]|Hn].
  - assert (fi_lock b = Some op) as Hb by (destruct H2; congruence). rewrite Ha, Hb. case_bool_decide; (split; [cbn; congruence|split; [right; cbn; congruence|cbn; set_solver]]).
  - rewrite (bool_decide_eq_false_2 (_ /\ is_Some (fi_lock a))) by tauto. case_bool_decide; [|by split]. split; [cbn; congruence|]. split; [by destruct H2; [left|right]|cbn; set_solver].
Qed.

Lemma view_le_pin_all file i v : view_le v (pin_all file i v).
Proof. intros fd a Ha. exists (pin file i a). split; [by unfold pin_all; rewrite lookup_fmap, Ha|apply pin_more]. Qed.

Lemma pin_all_mono file i v v' : view_le v v' -> view_le (pin_all file i v) (pin_all file i v').
Proof.
  intros Hv fd a. unfold pin_all. rewrite lookup_fmap. intros Ha. apply fmap_Some in Ha as (a0 & Ha & ->). destruct (Hv fd a0 Ha) as (b & Hb & Hab).
  exists (pin file i b). rewrite lookup_fmap, Hb. split; [done|by apply pin_mono].
Qed.

(** The locks of the list are held, on the inodes that their files have. *)
Definition unlisted (fd : Z) (l : list lock_list) : Prop := fd ∉ ll_lf <$> l.
Definition entry_ok (v : view) (e : lock_list) : Prop := exists a, v !! ll_lf e = Some a /\ fi_lock a = Some (ll_op e) /\ ll_res e ∈ fi_pins a.
Definition list_ok (v : view) (l : list lock_list) : Prop := NoDup (ll_lf <$> l) /\ Forall (entry_ok v) l.

Lemma list_ok_mono v v' l : view_le v v' -> list_ok v l -> list_ok v' l.
Proof.
  intros Hv [Hn Hl]. split; [done|]. eapply Forall_impl; [exact Hl|]. intros e (a & Ha & Hop & Hp). destruct (Hv _ _ Ha) as (b & Hb & _ & H2 & H3).
  exists b. split; [done|]. split; [destruct H2; congruence|set_solver].
Qed.

Lemma list_ok_change v v' fd l : list_ok v l -> unlisted fd l -> delete fd v' = delete fd v -> list_ok v' l.
Proof.
  intros [Hn Hl] Hfd Hv. split; [done|]. rewrite Forall_forall in *. intros e He. destruct (Hl e He) as (a & Ha & Hr). exists a. split; [|done].
  assert (ll_lf e <> fd) as Hne by (intros <-; apply Hfd, list_elem_of_fmap; by exists e). rewrite <- (lookup_delete_ne v' fd), Hv, lookup_delete_ne by done. done.
Qed.

Lemma list_ok_insert v fd a l : list_ok v l -> unlisted fd l -> list_ok (<[fd := a]> v) l.
Proof. intros Hl Hfd. apply (list_ok_change v _ fd); [done|done|]. apply delete_insert_eq. Qed.

Lemma list_ok_delete v fd l : list_ok v l -> unlisted fd l -> list_ok (delete fd v) l.
Proof. intros Hl Hfd. apply (list_ok_change v _ fd); [done|done|]. apply delete_delete_eq. Qed.

Lemma fresh_unlisted v fd l : list_ok v l -> v !! fd = None -> unlisted fd l.
Proof. intros [_ Hl] Hfd Hin. apply list_elem_of_fmap in Hin as (e & -> & He). rewrite Forall_forall in Hl. destruct (Hl e He) as (a & Ha & _). congruence. Qed.

Lemma list_ok_fresh v fd a l : list_ok v l -> v !! fd = None -> list_ok (<[fd := a]> v) l.
Proof. intros Hl Hfd. apply list_ok_insert; [done|by apply (fresh_unlisted v)]. Qed.

(** ** What a program may do *)

Definition closed (fd : Z) (v : view) : view := if -1 <? fd then delete fd v else v.

Fixpoint wp {A} (m : prog A) (Q : A -> view -> list lock_list -> Prop) (v : view) (l : list lock_list) : Prop :=
  match m with
  | Ret a => Q a v l
  | Open _ c => wp (c None) Q v l /\ (forall fd i, v !! fd = None -> -1 < fd -> wp (c (Some fd)) Q (<[fd := Fdi i None ∅]> v) l)
  | Flock fd op _ c =>
      exists a, v !! fd = Some a /\ unlisted fd l /\ wp (c true) Q (<[fd := Fdi (fi_inode a) (Some op) ∅]> v) l /\ wp (c false) Q (<[fd := Fdi (fi_inode a) None ∅]> v) l
  | Funlock fd c => exists a, v !! fd = Some a /\ unlisted fd l /\ (forall r, wp (c r) Q (<[fd := Fdi (fi_inode a) None ∅]> v) l)
  | Stat file c => wp (c None) Q v l /\ (forall i, wp (c (Some i)) Q (pin_all file i v) l)
  | Fstat fd c => exists a, v !! fd = Some a /\ wp (c None) Q v l /\ wp (c (Some (fi_inode a))) Q v l
  | Unlink file c =>
      exists fd a, v !! fd = Some a /\ unlisted fd l /\ fi_lock a = Some LOCK_EX /\ file ∈ fi_pins a /\ (forall r, wp (c r) Q (<[fd := Fdi (fi_inode a) (Some LOCK_EX) ∅]> v) l)
  | Close fd c => exists a, v !! fd = Some a /\ unlisted fd l /\ (forall r, wp (c r) Q (delete fd v) l)
  | Alloc c => forall r, wp (c r) Q v l
  | GetList c => wp (c l) Q v l
  | SetList l' c => list_ok v l' /\ wp c Q v l'
  | DoFlock file fd op _ c =>
      (-1 < fd -> exists a, v !! fd = Some a /\ unlisted fd l) /\ (forall fd', wp (c (false, fd')) Q (closed fd v) l) /\
      (forall fd' i, closed fd v !! fd' = None -> -1 < fd' -> wp (c (true, fd')) Q (<[fd' := Fdi i (Some op) {[file]}]> (closed fd v)) l)
  end.

Definition upward {A} (Q : A -> view -> list lock_list -> Prop) : Prop := forall a v v' l, view_le v v' -> Q a v l -> Q a v' l.

Lemma closed_none v : closed (-1) v = v.
Proof. done. Qed.

Lemma closed_mono fd v v' : view_le v v' -> view_le (closed fd v) (closed fd v').
Proof. intros Hv. unfold closed. destruct (-1 <? fd); [by apply view_le_delete|done]. Qed.

(** More knowledge is no hindrance. *)
Lemma wp_mono {A} (m : prog A) Q : upward Q -> forall v v' l, view_le v v' -> wp m Q v l -> wp m Q v' l.
Proof.
  intros HQ. induction m as [a|file c IH|fd op nb c IH|fd c IH|file c IH|fd c IH|file c IH|fd c IH|c IH|c IH|l' c IH|file fd op nb c IH]; intros v v' l Hv; cbn [wp].
  - by apply HQ.
  - intros [H1 H2]. split; [by apply (IH None v)|]. intros fd i Hfd Hpos. apply (IH _ (<[fd := Fdi i None ∅]> v)); [by apply view_le_insert|]. apply H2; [by apply (view_le_fresh _ _ _ Hv)|done].
  - intros (a & Ha & Hl & H1 & H2). destruct (Hv _ _ Ha) as (b & Hb & Hi & _). exists b. rewrite <- Hi. split; [done|]. split; [done|]. split; (eapply IH; [|eassumption]; by apply view_le_insert).
  - intros (a & Ha & Hl & H1). destruct (Hv _ _ Ha) as (b & Hb & Hi & _). exists b. rewrite <- Hi. split; [done|]. split; [done|]. intros r. eapply IH; [|apply H1]. by apply view_le_insert.
  - intros [H1 H2]. split; [by apply (IH None v)|]. intros i. eapply IH; [|apply H2]. by apply pin_all_mono.
  - intros (a & Ha & H1 & H2). destruct (Hv _ _ Ha) as (b & Hb & Hi & _). exists b. rewrite <- Hi. split; [done|]. split; by eapply IH.
  - intros (fd & a & Ha & Hl & Hop & Hp & H1). destruct (Hv _ _ Ha) as (b & Hb & Hi & Hop' & Hp'). exists fd, b. rewrite <- Hi. split; [done|]. split; [done|].
    split; [destruct Hop'; congruence|]. split; [set_solver|]. intros r. eapply IH; [|apply H1]. by apply view_le_insert.
  - intros (a & Ha & Hl & H1). destruct (Hv _ _ Ha) as (b & Hb & _). exists b. split; [done|]. split; [done|]. intros r. eapply IH; [|apply H1]. by apply view_le_delete.
  - intros H1 r. by eapply IH.
  - by apply IH.
  - intros [H1 H2]. split; [by apply (list_ok_mono v)|by apply (IH v)].
  - intros (H0 & H1 & H2). split; [|split].
    + intros Hfd. destruct (H0 Hfd) as (a & Ha & Hl). destruct (Hv _ _ Ha) as (b & Hb & _). by exists b.
    + intros fd'. eapply IH; [|apply H1]. by apply closed_mono.
    + intros fd' i Hfd Hpos. pose proof (closed_mono fd _ _ Hv) as Hc. eapply IH; [|apply (H2 fd' i); [by apply (view_le_fresh _ _ _ Hc)|done]]. by apply view_le_insert.
Qed.

Lemma wp_bind {A B} (m : prog A) (f : A -> prog B) Q : forall v l, wp m (fun a v l => wp (f a) Q v l) v l -> wp (m ≫= f) Q v l.
Proof.
  unfold mbind, prog_mbind. induction m as [a|file c IH|fd op nb c IH|fd c IH|file c IH|fd c IH|file c IH|fd c IH|c IH|c IH|l' c IH|file fd op nb c IH]; intros v l; cbn [wp prog_bind]; [done| | | | | | | | |by apply IH| |]; naive_solver.
Qed.

(** ** The functions of the code *)

Lemma wp_same_inode file fd v l a (R : bool -> view -> list lock_list -> Prop) :
  upward R -> v !! fd = Some a -> is_Some (fi_lock a) -> R false v l -> (forall v', view_le v v' -> v' !! fd = Some (Fdi (fi_inode a) (fi_lock a) ({[file]} ∪ fi_pins a)) -> R true v' l) ->
  wp (is_same_inode file fd) R v l.
Proof.
  intros HR Ha Hop Hf Ht. unfold is_same_inode, mbind, prog_mbind. cbn [prog_bind wp]. split; [done|]. intros i. pose proof (view_le_pin_all file i v) as Hle.
  exists (pin file i a). split; [unfold pin_all; by rewrite lookup_fmap, Ha|]. split; [by apply (HR _ v)|].
  assert (fi_inode (pin file i a) = fi_inode a) as -> by (unfold pin; by case_bool_decide). destruct (Z.eqb_spec i (fi_inode a)) as [-> |_]; [|by apply (HR _ v)].
  apply Ht; [done|]. unfold pin_all. rewrite lookup_fmap, Ha. cbn. unfold pin. by rewrite bool_decide_eq_true_2.
Qed.

Lemma wp_undo_flock file fd v l (R : unit -> view -> list lock_list -> Prop) :
  upward R -> is_Some (v !! fd) -> unlisted fd l -> R tt (delete fd v) l -> wp (undo_flock file fd) R v l.
Proof.
  intros HR [a Ha] Hfd Hr. unfold undo_flock.
  assert (forall v', view_le (delete fd v) (delete fd v') -> is_Some (v' !! fd) -> wp (Close fd (fun _ => Ret tt)) R v' l) as Hclose.
  { intros v' Hle [b Hb]. cbn. exists b. split; [done|]. split; [done|]. intros _. by apply (HR _ (delete fd v)). }
  apply wp_bind. cbn [wp]. exists a. split; [done|]. split; [done|]. split.
  - apply wp_bind. apply (wp_same_inode _ _ _ _ (Fdi (fi_inode a) (Some LOCK_EX) ∅)); [|by rewrite lookup_insert_eq|done| |].
    + intros b u u' l' Hu. apply wp_mono; [done|done].
    + cbn. apply Hclose; [by rewrite delete_insert_eq|by rewrite lookup_insert_eq].
    + intros v' Hle Hv'. apply wp_bind. cbn [wp]. apply wp_bind. cbn [wp]. exists fd, (Fdi (fi_inode a) (Some LOCK_EX) ({[file]} ∪ ∅)). split; [done|]. split; [done|]. split; [done|].
      split; [set_solver|]. intros _. cbn [wp]. apply Hclose; [|by rewrite lookup_insert_eq]. rewrite delete_insert_eq. rewrite <- (delete_insert_eq v fd (Fdi (fi_inode a) (Some LOCK_EX) ∅)). by apply view_le_delete.
  - apply wp_bind. cbn [wp]. apply wp_bind. cbn [wp]. apply Hclose; [by rewrite delete_insert_eq|by rewrite lookup_insert_eq].
Qed.

Lemma list_ok_closed fd v l : list_ok v l -> (-1 < fd -> exists a, v !! fd = Some a /\ unlisted fd l) -> list_ok (closed fd v) l.
Proof. intros Hl Hfd. unfold closed. destruct (Z.ltb_spec (-1) fd) as [H|_]; [|done]. destruct (Hfd H) as (a & _ & Hu). by apply list_ok_delete. Qed.

(** A body of [_do_flock] after its first statement. *)
Lemma wp_attempt file operation nonblock v l (R : bool * Z -> view -> list lock_list -> Prop) :
  upward R -> list_ok v l -> (forall fd', R (false, fd') v l) -> (forall fd' i, v !! fd' = None -> -1 < fd' -> R (true, fd') (<[fd' := Fdi i (Some operation) {[file]}]> v) l) ->
  wp (do_flock_body file (-1) operation nonblock) R v l.
Proof.
  intros HR Hl Hf Ht. unfold do_flock_body. apply wp_bind. cbn [wp Z.ltb Z.compare]. apply wp_bind. cbn [wp]. split; [apply Hf|]. intros fd i Hfd Hpos. pose proof (fresh_unlisted _ _ _ Hl Hfd) as Hu.
  apply wp_bind. cbn [wp]. exists (Fdi i None ∅). rewrite lookup_insert_eq. split; [done|]. split; [done|]. cbn [fi_inode]. rewrite !insert_insert_eq. split.
  - cbn [negb]. apply wp_bind. assert (forall v', view_le (<[fd := Fdi i (Some operation) ∅]> v) v' -> view_le v v') as Hle.
    { intros v' H. etransitivity; [|exact H]. intros x a Ha. destruct (decide (x = fd)) as [-> |Hx]; [congruence|]. exists a. by rewrite lookup_insert_ne. }
    apply (wp_same_inode _ _ _ _ (Fdi i (Some operation) ∅)); [|by rewrite lookup_insert_eq|done| |].
    + intros b u u' l' H. by apply wp_mono.
    + destruct nonblock; cbn [wp]; [by apply (HR _ v), Hf; apply Hle|]. unfold closed. rewrite (proj2 (Z.ltb_lt _ _) Hpos), delete_insert_id by done.
      split; [intros _; eexists; by rewrite lookup_insert_eq|]. by split.
    + intros v' Hv' Hfd'. cbn [wp]. apply (HR _ (<[fd := Fdi i (Some operation) {[file]}]> v)); [|by apply Ht]. cbn in Hfd'.
      intros x a. destruct (decide (x = fd)) as [-> |Hx]; [|rewrite lookup_insert_ne by done; apply Hle, Hv']. rewrite lookup_insert_eq. intros [= <-]. eexists. split; [exact Hfd'|]. split; [done|]. split; [by right|cbn; set_solver].
  - cbn [negb wp]. exists (Fdi i None ∅). rewrite lookup_insert_eq. split; [done|]. split; [done|]. intros _. rewrite delete_insert_id by done. apply Hf.
Qed.

(** The call of [_do_flock] may be replaced by its body. *)
Lemma wp_do_flock {A} file fd operation nonblock (c : bool * Z -> prog A) Q v l :
  upward Q -> list_ok v l -> wp (DoFlock file fd operation nonblock c) Q v l -> wp (do_flock_body file fd operation nonblock ≫= c) Q v l.
Proof.
  intros HQ Hl (H0 & H1 & H2). apply wp_bind. pose proof (list_ok_closed _ _ _ Hl H0) as Hl'.
  assert (upward (fun a v l => wp (c a) Q v l)) as Hc by (intros a u u' l' Hu; by apply wp_mono).
  pose proof (wp_attempt file operation nonblock _ _ _ Hc Hl' H1 H2) as Ha. unfold do_flock_body in *. unfold closed in *.
  destruct (Z.ltb_spec (-1) fd) as [Hfd|_]; [|done]. destruct (H0 Hfd) as (a & Hv & Hu). cbn. exists a. split; [done|]. split; [done|]. intros _. exact Ha.
Qed.

Definition anything {A} (_ : A) (_ : view) (_ : list lock_list) : Prop := True.

Lemma wp_release_loop file unlock todo : forall kept v, list_ok v (kept ++ todo) -> wp (release_loop file unlock kept todo) anything v (kept ++ todo).
Proof.
  induction todo as [|ll todo IH]; intros kept v Hl; cbn [release_loop]; [done|]. destruct (match file with None => true | _ => _ end); [|change (ll :: todo) with ([ll] ++ todo) in *; rewrite app_assoc in *; by apply IH].
  destruct Hl as [Hn Hf]. assert (list_ok v (kept ++ todo)) as Hl.
  { split; [rewrite fmap_app in *; cbn in Hn; apply NoDup_app in Hn as (H1 & H2 & H3); apply NoDup_cons in H3 as [_ H3]; apply NoDup_app; split; [done|split; [|done]]; intros x Hx Hy; apply (H2 x Hx); by apply list_elem_of_further|].
    rewrite Forall_app, Forall_cons in *. tauto. }
  assert (unlisted (ll_lf ll) (kept ++ todo)) as Hu.
  { unfold unlisted. rewrite fmap_app in *. cbn in Hn. rewrite elem_of_app. apply NoDup_app in Hn as (_ & H2 & H3). apply NoDup_cons in H3 as [H3 _]. intros [H|H]; [|done]. apply (H2 _ H). by apply list_elem_of_here. }
  assert (exists a, v !! ll_lf ll = Some a) as [a Ha] by (apply Forall_app in Hf as [_ Hf]; apply Forall_cons in Hf as [(a & Ha & _) _]; by exists a).
  cbn [wp]. split; [done|]. apply wp_bind. assert (forall v', list_ok v' (kept ++ todo) -> is_Some (v' !! ll_lf ll) ->
    wp (undo_flock (ll_res ll) (ll_lf ll);; match file with Some _ => Ret true | None => release_loop file unlock kept todo end) anything v' (kept ++ todo)) as Hundo.
  { intros v' Hv' Hs. apply wp_bind. apply (wp_undo_flock _ _ _ _ (fun _ => wp _ _)); [intros [] u u' l' H; by apply wp_mono|done|done|]. destruct file; [done|]. apply IH. by apply list_ok_delete. }
  destruct unlock; cbn [wp]; [|by apply Hundo]. exists a. split; [done|]. split; [done|]. intros _. apply Hundo; [by apply list_ok_insert|by rewrite lookup_insert_eq].
Qed.

Lemma wp_release_lock file unlock v l : list_ok v l -> wp (release_lock file unlock) anything v l.
Proof. apply (wp_release_loop file unlock l []). Qed.

(** A lock that was taken goes to the end of the list. *)
Lemma list_ok_snoc v l file fd i operation : list_ok v l -> v !! fd = None -> list_ok (<[fd := Fdi i (Some operation) {[file]}]> v) (l ++ [LockList file fd operation]).
Proof.
  intros Hl Hfd. pose proof (fresh_unlisted _ _ _ Hl Hfd) as Hu. destruct (list_ok_fresh v fd (Fdi i (Some operation) {[file]}) l Hl Hfd) as [Hn Hf]. split.
  - rewrite fmap_app. cbn. apply NoDup_app. split; [done|]. split; [|apply NoDup_singleton]. intros x Hx Hy. apply list_elem_of_singleton in Hy as ->. done.
  - apply Forall_app. split; [done|]. constructor; [|constructor]. eexists. cbn. rewrite lookup_insert_eq. split; [done|]. split; [done|cbn; set_solver].
Qed.

Lemma wp_lock_file prio file flags v l : list_ok v l -> wp (lock_file prio file flags) anything v l.
Proof.
  intros Hl. unfold lock_file. set (nonblock := negb _).
  assert (forall operation, wp (lock_file_as prio file operation nonblock) anything v l) as Has.
  { intros operation. unfold lock_file_as. apply wp_bind. intros [|]; [|done]. cbn [wp negb]. apply wp_bind. intros [|]; [|done]. cbn [wp negb]. apply wp_bind.
    set (R := fun (a : bool * Z) v l => wp _ anything v l). assert (upward R) as HR by (intros a u u' l' H; by apply wp_mono).
    assert (forall u, list_ok u l -> (forall fd', R (false, fd') u l) /\ (forall fd' i, u !! fd' = None -> -1 < fd' -> R (true, fd') (<[fd' := Fdi i (Some operation) {[file]}]> u) l)) as HRu.
    { intros u Hu. split; [done|]. intros fd' i Hfd _. unfold R. cbn [wp]. split; [|done]. by apply list_ok_snoc. }
    destruct prio; [|unfold do_flock; cbn [wp]; split; [lia|]; by apply HRu]. unfold do_write_priority_flock. apply wp_bind. unfold do_flock at 1. cbn [wp]. split; [lia|]. split; [intros _; by apply HRu|].
    intros fd_aux i Hfd Hpos. rewrite closed_none in *.
    assert (forall u r, list_ok u l -> u !! fd_aux = None -> R r u l -> forall b, wp (undo_flock (file ++ AUX_LOCK_SUFFIX) fd_aux) (fun _ v l => R r v l) (<[fd_aux := b]> u) l) as Hundo.
    { intros u r Hu Hn Hr b. apply wp_undo_flock; [intros [] w w' l'; apply HR|by rewrite lookup_insert_eq|by apply (fresh_unlisted u)|by rewrite delete_insert_id]. }
    destruct (bool_decide (operation = LOCK_EX)).
    - apply wp_bind. unfold do_flock. cbn [wp]. split; [lia|]. rewrite closed_none. split.
      + intros fd'. apply wp_bind. by apply Hundo.
      + intros fd' j Hfd' Hpos'. apply wp_bind. apply lookup_insert_None in Hfd' as [Hn Hne]. rewrite insert_insert_ne by done. apply Hundo; [by apply list_ok_fresh|by rewrite lookup_insert_ne|by apply HRu].
    - apply wp_bind. apply (wp_undo_flock _ _ _ _ (fun _ => wp _ _)); [intros [] w w' l' H; by apply wp_mono|by rewrite lookup_insert_eq|by apply (fresh_unlisted v)|]. rewrite delete_insert_id by done.
      unfold do_flock. cbn [wp]. split; [lia|]. by apply HRu. }
  destruct (_ =? LCK_READ); [apply Has|]. destruct (_ =? LCK_WRITE); [apply Has|]. destruct (_ =? LCK_UNLOCK); [by apply wp_release_lock|done].
Qed.

Lemma wp_request prio m v l : request prio m -> list_ok v l -> wp m anything v l.
Proof. intros [file flags|] Hl; [by apply wp_lock_file|by apply wp_release_lock]. Qed.

(** ** Steps of processes *)

Record kinv (k : kernel) : Prop := {
  ki_excl fd fd' op op' : fd <> fd' -> k_locks k !! fd = Some op -> k_locks k !! fd' = Some op' -> k_inode k !! fd = k_inode k !! fd' -> op = LOCK_SH /\ op' = LOCK_SH;
  ki_next : 0 <= k_next k;
  ki_fresh fd p : k_next k <= fd -> k_locks k !! fd = None /\ (p, fd) ∉ k_open k;
  ki_bound f i : k_names k !! f = Some i -> i < k_next k;
  ki_ibound fd i : k_inode k !! fd = Some i -> i < k_next k;
  ki_inj f g i : k_names k !! f = Some i -> k_names k !! g = Some i -> f = g }.

(** What the process [p] knows of the descriptor [fd] is true, and no other process has
    it open. *)
Record knows (k : kernel) (p : nat) (fd : Z) (a : fdi) : Prop := {
  kn_open : (p, fd) ∈ k_open k;
  kn_own q : (q, fd) ∈ k_open k -> q = p;
  kn_inode : k_inode k !! fd = Some (fi_inode a);
  kn_lock op : fi_lock a = Some op -> k_locks k !! fd = Some op;
  kn_pins file : file ∈ fi_pins a -> is_Some (fi_lock a) /\ k_names k !! file = Some (fi_inode a) }.

Definition valid (k : kernel) (p : nat) (v : view) : Prop := map_Forall (knows k p) v.

Lemma valid_insert k p v fd b : knows k p fd b -> (forall x a, x <> fd -> v !! x = Some a -> knows k p x a) -> valid k p (<[fd := b]> v).
Proof. intros Hb Hv x a. destruct (decide (x = fd)) as [-> |Hx]; [rewrite lookup_insert_eq; by intros [= <-]|rewrite lookup_insert_ne by done; by apply Hv]. Qed.

Lemma knows_locks k p x a fd l : knows k p x a -> x <> fd -> (forall y, y <> fd -> l !! y = k_locks k !! y) -> knows (set_locks l k) p x a.
Proof. intros [H1 H2 H3 H4 H5] Hx Hl. split; cbn; [done..| |done]. intros op Hop. rewrite Hl by done. by apply H4. Qed.

Lemma knows_new_open k q p x a i : kinv k -> knows k q x a -> x <> k_next k /\ knows (new_open p i k) q x a.
Proof.
  intros Hk [H1 H2 H3 H4 H5]. assert (x <> k_next k) as Hx by (intros ->; by apply (ki_fresh _ Hk (k_next k) q)). split; [done|].
  split; cbn; [set_solver|intros q' Hq; apply H2; set_solver|by rewrite lookup_insert_ne|done|done].
Qed.

Lemma knows_new_inode k q x a file : k_names k !! file = None -> knows k q x a -> knows (new_inode file k) q x a.
Proof. intros Hn [H1 H2 H3 H4 H5]. split; cbn; [done..|]. intros f Hf. destruct (H5 f Hf) as [Hl Hf']. split; [done|]. rewrite lookup_insert_ne; [done|congruence]. Qed.

Lemma knows_set_open k q x a o : (forall q', (q', x) ∈ o <-> (q', x) ∈ k_open k) -> knows k q x a -> knows (set_open o k) q x a.
Proof.
  intros Ho [H1 H2 H3 H4 H5]. split; cbn; [by apply Ho|intros q' Hq; by apply H2, Ho|done| |done]. intros op Hop. apply map_lookup_filter_Some. split; [by apply H4|]. cbn. apply elem_of_map. exists (q, x). by rewrite Ho.
Qed.

Lemma knows_unlink k q x a file : file ∉ fi_pins a -> knows k q x a -> knows (set_names (delete file (k_names k)) k) q x a.
Proof. intros Hf [H1 H2 H3 H4 H5]. split; cbn; [done..|]. intros f Hf'. rewrite lookup_delete_ne; [by apply H5|congruence]. Qed.

Lemma kinv_new_open k p i : kinv k -> i < k_next k -> kinv (new_open p i k).
Proof.
  intros [H1 H2 H3 H4 H5 H6] Hi. split; cbn; [|lia| |intros f j Hf; apply H4 in Hf; lia|intros fd j Hj; apply lookup_insert_Some in Hj as [[_ <-]|[_ Hj]]; [|apply H5 in Hj]; lia|done].
  - intros fd fd' op op' Hne Hfd Hfd'. rewrite !lookup_insert_ne; [by apply H1| |]; intros <-; by destruct (H3 (k_next k) p) as [E _]; [lia|congruence].
  - intros fd q Hfd. destruct (H3 fd q) as [E1 E2]; [lia|]. split; [done|]. rewrite elem_of_union, elem_of_singleton. intros [[= _ ->]|H]; [lia|done].
Qed.

Lemma kinv_new_inode k file : kinv k -> kinv (new_inode file k).
Proof.
  intros [H1 H2 H3 H4 H6 H5]. split; cbn; [done|lia|intros fd q Hfd; apply H3; lia| |intros fd i Hi; apply H6 in Hi; lia|].
  - intros f i Hf. apply lookup_insert_Some in Hf as [[_ <-]|[_ Hf]]; [lia|]. apply H4 in Hf. lia.
  - intros f g i Hf Hg. apply lookup_insert_Some in Hf as [[<- <-]|[_ Hf]]; apply lookup_insert_Some in Hg as [[<- E]|[_ Hg]]; [done|apply H4 in Hg; lia|apply H4 in Hf; lia|by apply (H5 f g i)].
Qed.

Lemma kinv_lock k p fd op : kinv k -> (p, fd) ∈ k_open k -> may_lock k fd op -> kinv (set_locks (<[fd := op]> (k_locks k)) k).
Proof.
  intros [H1 H2 H3 H4 H5 H6] Hfd Hm. split; cbn; [|done| |done..].
  - intros x y opx opy Hne Hx Hy Hi. apply lookup_insert_Some in Hx as [[<- <-]|[Hx Hx']].
    + apply lookup_insert_Some in Hy as [[<- _]|[_ Hy]]; [done|]. destruct (Hm y opy Hy) as [H|[H|H]]; [congruence|congruence|done].
    + apply lookup_insert_Some in Hy as [[<- <-]|[_ Hy]]; [|by apply (H1 x y)]. destruct (Hm x opx Hx') as [H|[H|H]]; [congruence|congruence|tauto].
  - intros x q Hx. destruct (H3 x q Hx) as [E1 E2]. split; [|done]. rewrite lookup_insert_ne; [done|]. intros <-. by apply (H3 fd p).
Qed.

Lemma kinv_fewer k l : kinv k -> l ⊆ k_locks k -> kinv (set_locks l k).
Proof.
  intros [H1 H2 H3 H4 H5 H6] Hl. split; cbn; [|done| |done..].
  - intros x y opx opy Hne Hx Hy. apply (H1 x y); [done|by apply (lookup_weaken _ _ _ _ Hx)|by apply (lookup_weaken _ _ _ _ Hy)].
  - intros x q Hx. destruct (H3 x q Hx) as [E1 E2]. split; [|done]. destruct (l !! x) eqn:E; [|done]. apply (lookup_weaken _ _ _ _ E) in Hl. congruence.
Qed.

Lemma kinv_set_open k o : kinv k -> (forall fd q, k_next k <= fd -> (q, fd) ∉ o) -> kinv (set_open o k).
Proof.
  intros Hk Ho. pose proof (kinv_fewer k (filter (fun x => x.1 ∈ (set_map snd o : gset Z)) (k_locks k)) Hk (map_filter_subseteq _ _)) as [H1 H2 H3 H4 H5 H6]. split; cbn in *; [done|done| |done..].
  intros fd q Hfd. split; [by apply H3|by apply Ho].
Qed.

Lemma kinv_unlink k file : kinv k -> kinv (set_names (delete file (k_names k)) k).
Proof.
  intros [H1 H2 H3 H4 H6 H5]. split; cbn; [done..| |done|].
  - intros f i Hf. apply lookup_delete_Some in Hf as [_ Hf]. by apply (H4 f).
  - intros f g i Hf Hg. apply lookup_delete_Some in Hf as [_ Hf]. apply lookup_delete_Some in Hg as [_ Hg]. by apply (H5 f g i).
Qed.

Lemma knows_ne k p q fd x a b : knows k p fd a -> knows k q x b -> q <> p -> x <> fd.
Proof. intros Ha Hb Hq ->. apply Hq. by apply (kn_own _ _ _ _ Ha), (kn_open _ _ _ _ Hb). Qed.

Lemma knows_less k p fd a : knows k p fd a -> knows k p fd (Fdi (fi_inode a) None ∅).
Proof. intros [H1 H2 H3 H4 H5]. by split. Qed.

(** The process that unlinks a file is the only one to know something of its name. *)
Lemma unlink_alone k p q fd x a b file :
  kinv k -> knows k p fd a -> fi_lock a = Some LOCK_EX -> file ∈ fi_pins a -> knows k q x b -> x <> fd -> file ∉ fi_pins b.
Proof.
  intros Hk Ha Hop Hf Hb Hx Hf'. destruct (kn_pins _ _ _ _ Ha file Hf) as [_ E1]. destruct (kn_pins _ _ _ _ Hb file Hf') as [[op E2] E3].
  destruct (ki_excl k Hk fd x LOCK_EX op); [done|by apply (kn_lock _ _ _ _ Ha)|by apply (kn_lock _ _ _ _ Hb)| |done].
  rewrite (kn_inode _ _ _ _ Ha), (kn_inode _ _ _ _ Hb). congruence.
Qed.

Lemma valid_opened k p v i : kinv k -> valid k p v -> v !! k_next k = None /\ -1 < k_next k /\ valid (new_open p i k) p (<[k_next k := Fdi i None ∅]> v).
Proof.
  intros Hk Hv. assert (v !! k_next k = None) as E.
  { destruct (v !! k_next k) as [a|] eqn:E; [|done]. by destruct (knows_new_open k p p _ a i Hk (Hv _ _ E)). }
  split; [done|]. split; [pose proof (ki_next _ Hk); lia|]. apply valid_insert; [|intros x a _ Ha; by apply knows_new_open, Hv].
  split; cbn; [set_solver| |by rewrite lookup_insert_eq|done|set_solver]. intros q. rewrite elem_of_union, elem_of_singleton. intros [[= ->]|H]; [done|]. by apply (ki_fresh _ Hk (k_next k) q) in H.
Qed.

Lemma valid_inode k p v file : k_names k !! file = None -> valid k p v -> valid (new_inode file k) p v.
Proof. intros Hn Hv x a Ha. apply knows_new_inode; [done|by apply Hv]. Qed.

Lemma valid_pin_all k p v file i : k_names k !! file = Some i -> valid k p v -> valid k p (pin_all file i v).
Proof.
  intros Hf Hv x b. unfold pin_all. rewrite lookup_fmap. intros Hb. apply fmap_Some in Hb as (a & Ha & ->). destruct (Hv x a Ha) as [H1 H2 H3 H4 H5]. unfold pin. case_bool_decide as H; [|by split].
  destruct H as [<- Hs]. split; cbn; [done..|]. intros f. rewrite elem_of_union, elem_of_singleton. intros [-> |Hf']; [done|by apply H5].
Qed.

Lemma valid_locks k p v fd b l : valid k p v -> knows (set_locks l k) p fd b -> (forall y, y <> fd -> l !! y = k_locks k !! y) -> valid (set_locks l k) p (<[fd := b]> v).
Proof. intros Hv Hb Hl. apply valid_insert; [done|]. intros x a Hx Ha. apply (knows_locks _ _ _ _ fd); [by apply Hv|done|done]. Qed.

Lemma knows_unlocked k p fd a : knows k p fd a -> knows (set_locks (delete fd (k_locks k)) k) p fd (Fdi (fi_inode a) None ∅).
Proof. intros [H1 H2 H3 H4 H5]. by split. Qed.

(** A step of a process that uses its descriptions as it may: the locks exclude each
    other, the process knows what it should, and others know what they knew. *)
Definition step_keeps {A} (p : nat) (k k' : kernel) (l' : list lock_list) (m' : prog A) (Q : A -> view -> list lock_list -> Prop) : Prop :=
  kinv k' /\ (exists v', valid k' p v' /\ list_ok v' l' /\ wp m' Q v' l') /\ (forall q x a, q <> p -> knows k q x a -> knows k' q x a).

Lemma step_same {A} p k v l (m : prog A) Q : kinv k -> valid k p v -> list_ok v l -> wp m Q v l -> step_keeps p k k l m Q.
Proof. intros Hk Hv Hl Hm. split; [done|]. split; [by exists v|done]. Qed.

Lemma step_unlocked {A} p k v fd a l (m : prog A) Q :
  kinv k -> valid k p v -> list_ok v l -> v !! fd = Some a -> unlisted fd l -> wp m Q (<[fd := Fdi (fi_inode a) None ∅]> v) l ->
  step_keeps p k k l m Q /\ step_keeps p k (set_locks (delete fd (k_locks k)) k) l m Q.
Proof.
  intros Hk Hv Hl Ha Hu Hm. pose proof (Hv _ _ Ha) as Hfd. split.
  - apply (step_same p k (<[fd := Fdi (fi_inode a) None ∅]> v)); [done| |by apply list_ok_insert|done]. apply valid_insert; [by apply knows_less|intros x b _; apply Hv].
  - assert (forall y, y <> fd -> delete fd (k_locks k) !! y = k_locks k !! y) as Hy by (intros y Hy; by rewrite lookup_delete_ne).
    split; [apply kinv_fewer; [done|apply delete_subseteq]|]. split; [|intros q x b Hq Hb; apply (knows_locks _ _ _ _ fd); [done|by apply (knows_ne k p q fd x a b)|done]].
    exists (<[fd := Fdi (fi_inode a) None ∅]> v). split; [apply valid_locks; [done|by apply knows_unlocked|done]|]. split; [by apply list_ok_insert|done].
Qed.

Lemma step_opened {A} p k v i l (m : prog A) Q :
  kinv k -> i < k_next k -> valid k p v -> list_ok v l -> (v !! k_next k = None -> -1 < k_next k -> wp m Q (<[k_next k := Fdi i None ∅]> v) l) -> step_keeps p k (new_open p i k) l m Q.
Proof.
  intros Hk Hi Hv Hl Hm. destruct (valid_opened k p v i Hk Hv) as (E & Hpos & Hv'). split; [by apply kinv_new_open|]. split; [|intros q x a _ Ha; by apply knows_new_open].
  exists (<[k_next k := Fdi i None ∅]> v). split; [done|]. split; [by apply list_ok_fresh|by apply Hm].
Qed.

Lemma step_granted {A} p k v fd a op l (m : prog A) Q :
  kinv k -> valid k p v -> list_ok v l -> v !! fd = Some a -> unlisted fd l -> may_lock k fd op -> wp m Q (<[fd := Fdi (fi_inode a) (Some op) ∅]> v) l ->
  step_keeps p k (set_locks (<[fd := op]> (k_locks k)) k) l m Q.
Proof.
  intros Hk Hv Hl Ha Hu Hmay Hm. pose proof (Hv _ _ Ha) as Hfd. assert (forall y, y <> fd -> <[fd := op]> (k_locks k) !! y = k_locks k !! y) as Hy by (intros y Hy; by rewrite lookup_insert_ne).
  split; [apply (kinv_lock k p); [done|by apply (kn_open _ _ _ _ Hfd)|done]|]. split; [|intros q x b Hq Hb; apply (knows_locks _ _ _ _ fd); [done|by apply (knows_ne k p q fd x a b)|done]].
  exists (<[fd := Fdi (fi_inode a) (Some op) ∅]> v). split; [|split; [by apply list_ok_insert|done]]. apply valid_locks; [done| |done].
  destruct Hfd as [H1 H2 H3 H4 H5]. split; cbn; [done..| |set_solver]. intros op' [= <-]. by rewrite lookup_insert_eq.
Qed.

Lemma step_unlinked {A} p k v fd a file l (m : prog A) Q :
  kinv k -> valid k p v -> list_ok v l -> v !! fd = Some a -> unlisted fd l -> fi_lock a = Some LOCK_EX -> file ∈ fi_pins a -> wp m Q (<[fd := Fdi (fi_inode a) (Some LOCK_EX) ∅]> v) l ->
  step_keeps p k k l m Q /\ step_keeps p k (set_names (delete file (k_names k)) k) l m Q.
Proof.
  intros Hk Hv Hl Ha Hu Hop Hf Hm. pose proof (Hv _ _ Ha) as Hfd.
  assert (knows k p fd (Fdi (fi_inode a) (Some LOCK_EX) ∅)) as Hfd' by (destruct Hfd as [H1 H2 H3 H4 H5]; split; cbn; [done..| |set_solver]; intros op [= <-]; by apply H4). split.
  - apply (step_same p k (<[fd := Fdi (fi_inode a) (Some LOCK_EX) ∅]> v)); [done| |by apply list_ok_insert|done]. apply valid_insert; [done|intros x b _; apply Hv].
  - split; [by apply kinv_unlink|]. split; [|intros q x b Hq Hb; apply knows_unlink; [|done]; apply (unlink_alone k p q fd x a b file); [done..|by apply (knows_ne k p q fd x a b)]].
    exists (<[fd := Fdi (fi_inode a) (Some LOCK_EX) ∅]> v). split; [|split; [by apply list_ok_insert|done]]. apply valid_insert; [apply knows_unlink; [set_solver|done]|].
    intros x b Hx Hb. apply knows_unlink; [|by apply Hv]. apply (unlink_alone k p p fd x a b file); [done..|by apply Hv|done].
Qed.

Lemma step_closed {A} p k v fd a l (m : prog A) Q :
  kinv k -> valid k p v -> list_ok v l -> v !! fd = Some a -> unlisted fd l -> wp m Q (delete fd v) l -> step_keeps p k (set_open (k_open k ∖ {[(p, fd)]}) k) l m Q.
Proof.
  intros Hk Hv Hl Ha Hu Hm. assert (forall x q', x <> fd -> (q', x) ∈ k_open k ∖ {[(p, fd)]} <-> (q', x) ∈ k_open k) as Ho by (intros x q' Hx; rewrite elem_of_difference, elem_of_singleton; naive_solver).
  split; [apply kinv_set_open; [done|]; intros x q Hx; pose proof (ki_fresh _ Hk x q Hx); set_solver|]. split; [|intros q x b Hq Hb; apply knows_set_open; [|done]; intros q'; apply Ho, (knows_ne k p q fd x a b); [by apply Hv|done|done]].
  exists (delete fd v). split; [|split; [by apply list_ok_delete|done]]. intros x b Hb. apply lookup_delete_Some in Hb as [Hx Hb]. apply knows_set_open; [|by apply Hv]. intros q'. by apply Ho.
Qed.

Lemma prog_step_ok {A} p k l (m : prog A) k' l' m' v Q :
  upward Q -> kinv k -> valid k p v -> list_ok v l -> wp m Q v l -> prog_step p (k, l, m) (k', l', m') -> step_keeps p k k' l' m' Q.
Proof.
  intros HQ Hk Hv Hl Hm Hs. inversion Hs; subst; cbn [wp] in Hm.
  - destruct Hm as [_ Hm]. apply (step_opened p k v); [done|by apply (ki_bound _ Hk file)|done..|]. by apply Hm.
  - destruct Hm as [_ Hm]. destruct (step_opened p (new_inode file k) v (k_next k) l' (c (Some (k_next k + 1))) Q) as (H1 & H2 & H3); [by apply kinv_new_inode|cbn; lia|by apply valid_inode|done|apply Hm|].
    split; [done|]. split; [done|]. intros q x a Hq Ha. apply H3; [done|]. by apply knows_new_inode.
  - destruct Hm as [Hm _]. by apply (step_same p k' v).
  - destruct Hm as (a & Ha & Hu & Hm & _). by apply (step_granted p k v fd a).
  - destruct Hm as (a & Ha & Hu & _ & Hm). by apply (step_unlocked p k' v fd a).
  - destruct Hm as (a & Ha & Hu & Hm1 & Hm2). apply (step_unlocked p k v fd a); [done..|]. cbn [wp]. exists (Fdi (fi_inode a) None ∅). rewrite lookup_insert_eq. cbn [fi_inode]. by rewrite !insert_insert_eq.
  - destruct Hm as (a & Ha & Hu & Hm). by apply (step_unlocked p k v fd a).
  - destruct Hm as (a & Ha & Hu & Hm). by apply (step_unlocked p k' v fd a).
  - destruct Hm as [Hm1 Hm2]. destruct (k_names k' !! file) as [i|] eqn:E; [|by apply (step_same p k' v)].
    apply (step_same p k' (pin_all file i v)); [done|by apply valid_pin_all|by apply (list_ok_mono v), Hl; apply view_le_pin_all|apply Hm2].
  - destruct Hm as [Hm _]. by apply (step_same p k' v).
  - destruct Hm as (a & Ha & _ & Hm). rewrite (kn_inode _ _ _ _ (Hv _ _ Ha)). by apply (step_same p k' v).
  - destruct Hm as (a & Ha & Hm & _). by apply (step_same p k' v).
  - destruct Hm as (fd & a & Ha & Hu & Hop & Hf & Hm). by apply (step_unlinked p k v fd a).
  - destruct Hm as (fd & a & Ha & Hu & Hop & Hf & Hm). by apply (step_unlinked p k' v fd a file).
  - destruct Hm as (a & Ha & Hu & Hm). by apply (step_closed p k v fd a).
  - by apply (step_same p k' v).
  - by apply (step_same p k' v).
  - destruct Hm as [Hl' Hm]. by apply (step_same p k' v).
  - apply (step_same p k' v); [done..|]. by apply wp_do_flock.
Qed.

(** ** All processes *)

Definition proc_ok (k : kernel) (p : nat) (pr : proc) : Prop := exists v, valid k p v /\ list_ok v (pr_list pr) /\ wp (pr_prog pr) anything v (pr_list pr).

Definition locks_ok (s : kernel * gmap nat proc) : Prop := kinv s.1 /\ map_Forall (proc_ok s.1) s.2.

Lemma proc_ok_kept k k' q pr : (forall x a, knows k q x a -> knows k' q x a) -> proc_ok k q pr -> proc_ok k' q pr.
Proof. intros H (v & Hv & Hr). exists v. split; [|done]. intros x a Ha. apply H. by apply Hv. Qed.

Lemma upward_anything {A} : upward (@anything A).
Proof. done. Qed.

Lemma step_ok prio s s' : locks_ok s -> step prio false s s' -> locks_ok s'.
Proof.
  intros [Hk Hps] Hs. inversion Hs; subst; cbn in *.
  - destruct (Hps _ _ H) as (v & Hv & Hl & Hm). cbn in *. destruct (prog_step_ok p k l m k' l' m' v anything upward_anything Hk Hv Hl Hm H0) as (Hk' & Hv' & Hq). split; [done|]. cbn.
    intros q pr. destruct (decide (q = p)) as [-> |Hne]; [rewrite lookup_insert_eq; by intros [= <-]|]. rewrite lookup_insert_ne by done. intros Hpr. apply (proc_ok_kept k); [intros x a; by apply Hq|by apply Hps].
  - split; [done|]. cbn. intros q pr. destruct (decide (q = p)) as [-> |Hne]; [|rewrite lookup_insert_ne by done; apply Hps]. rewrite lookup_insert_eq. intros [= <-].
    destruct (Hps _ _ H) as (v & Hv & Hl & _). exists v. split; [done|]. split; [done|]. by apply (wp_request prio).
  - split; [apply kinv_set_open; [done|]; intros x q Hx; pose proof (ki_fresh _ Hk x q Hx); set_solver|]. cbn. intros q pr Hpr. apply lookup_delete_Some in Hpr as [Hq Hpr].
    apply (proc_ok_kept k); [|by apply Hps]. intros x a Ha. apply knows_set_open; [|done]. intros q'. rewrite elem_of_filter. cbn. split; [tauto|]. intros Hq'. split; [|done]. rewrite (kn_own _ _ _ _ Ha _ Hq'). congruence.
  - destruct H1 as [?| ->]; [done|]. assert (forall x a r, r <> p -> knows k r x a -> knows (set_open (inherited p q k ∪ k_open k) k) r x a) as Hkn.
    { intros x a r' Hr Ha. apply knows_set_open; [|done]. intros q'. rewrite elem_of_union. split; [|tauto]. intros [Hi|Hi]; [|done]. apply elem_of_map in Hi as ([y z] & [= -> ->] & Hi). apply elem_of_filter in Hi as [Hy Hi]. cbn in *. subst y.
      by apply (kn_own _ _ _ _ Ha) in Hi. }
    split; [apply kinv_set_open; [done|]; intros x r' Hx; rewrite elem_of_union; intros [Hi|Hi]; [|by apply (ki_fresh _ Hk x r')]; apply elem_of_map in Hi as ([y z] & [= -> ->] & Hi); apply elem_of_filter in Hi as [_ Hi]; by apply (ki_fresh _ Hk z y) in Hi|].
    cbn. intros r' pr. destruct (decide (r' = q)) as [-> |Hne]; [rewrite lookup_insert_eq; intros [= <-]|rewrite lookup_insert_ne by done; intros Hpr].
    + exists ∅. split; [by intros x a|]. cbn. split; [split; constructor|done].
    + destruct (decide (r' = p)) as [-> |Hnp]; [|apply (proc_ok_kept k); [intros x a; by apply Hkn|by apply Hps]]. assert (pr = Proc [] (Ret r)) as -> by congruence. exists ∅. split; [by intros x a|]. split; [split; constructor|done].
Qed.

Lemma reachable_ok prio s : reachable prio false s -> locks_ok s.
Proof.
  intros (s0 & (Hn & Hi & Ho & Hl & Hb & Hinj & Hps) & Hs). assert (locks_ok s0) as Hok; [|clear -Hs Hok; induction Hs as [|s s' s'' H _ IH]; [done|]; apply IH; by apply (step_ok prio s)].
  split.
  - split; [intros fd fd' op op' _; by rewrite Hl, lookup_empty|done| |done|by intros fd i; rewrite Hi|done]. intros fd p _. rewrite Hl, Ho, lookup_empty. split; [done|set_solver].
  - intros p pr Hpr. destruct (Hps p pr Hpr) as [E [r Er]]. exists ∅. split; [by intros x a|]. rewrite E, Er. split; [split; constructor|done].
Qed.

(** C4: whatever processes do at the same time, and whenever system calls fail, locks are
    converted or processes end: the file of every lock is there, with the inode that the
    lock is on, and the kernel has the lock; and two locks of one file, of two processes or
    of one, are both locks for reading.  No process forks while it has locks. *)
Theorem file_locks_exclude prio s p pr e :
  reachable prio false s -> s.2 !! p = Some pr -> e ∈ pr_list pr ->
  is_Some (k_names s.1 !! ll_res e) /\ k_inode s.1 !! ll_lf e = k_names s.1 !! ll_res e /\ k_locks s.1 !! ll_lf e = Some (ll_op e) /\
  forall q qr e', s.2 !! q = Some qr -> e' ∈ pr_list qr -> (p <> q \/ ll_lf e <> ll_lf e') -> ll_res e = ll_res e' -> ll_op e = LOCK_SH /\ ll_op e' = LOCK_SH.
Proof.
  intros Hs Hp He. destruct (reachable_ok _ _ Hs) as [Hk Hps]. destruct (Hps p pr Hp) as (v & Hv & [_ Hl] & _). rewrite Forall_forall in Hl. destruct (Hl e He) as (a & Ha & Ho & Hf). pose proof (Hv _ _ Ha) as K.
  destruct (kn_pins _ _ _ _ K _ Hf) as [_ E]. rewrite (kn_inode _ _ _ _ K), E. split; [by eexists|]. split; [done|]. split; [by apply (kn_lock _ _ _ _ K)|].
  intros q qr e' Hq He' Hne Hres. destruct (Hps q qr Hq) as (v' & Hv' & [_ Hl'] & _). rewrite Forall_forall in Hl'. destruct (Hl' e' He') as (a' & Ha' & Ho' & Hf'). pose proof (Hv' _ _ Ha') as K'.
  destruct (kn_pins _ _ _ _ K' _ Hf') as [_ E']. rewrite <- Hres in E'.
  apply (ki_excl _ Hk (ll_lf e) (ll_lf e')); [|by apply (kn_lock _ _ _ _ K)|by apply (kn_lock _ _ _ _ K')|rewrite (kn_inode _ _ _ _ K), (kn_inode _ _ _ _ K'); congruence].
  destruct Hne as [Hne|Hne]; [|done]. intros Heq. rewrite Heq in K. apply Hne. symmetry. by apply (kn_own _ _ _ _ K), (kn_open _ _ _ _ K').
Qed.

(** ** Runs *)

Lemma exec1_step {A} p (s s' : kernel * list lock_list * prog A) : exec1 p s = Some s' -> prog_step p s s'.
Proof.
  destruct s as [[k l] m]. destruct m as [a|file c|fd op nb c|fd c|file c|fd c|file c|fd c|c|c|l' c|file fd op nb c]; cbn; [done| | | | | | |intros [= <-]; by constructor..].
  - destruct (k_names k !! file) eqn:E; intros [= <-]; by constructor.
  - case_bool_decide; [|intros [= <-]; by constructor]. case_bool_decide; [intros [= <-]; by constructor|]. destruct nb; [|done]. intros [= <-]. by constructor.
  - case_bool_decide; intros [= <-]; by constructor.
  - intros [= <-]. by constructor.
  - intros [= <-]. case_bool_decide; by constructor.
  - destruct (k_names k !! file); intros [= <-]; by constructor.
Qed.

Lemma exec_steps {A} p fuel : forall s : kernel * list lock_list * prog A, rtc (prog_step p) s (exec p fuel s).
Proof. induction fuel as [|fuel IH]; intros s; cbn; [done|]. destruct (exec1 p s) as [s'|] eqn:E; [|done]. eapply rtc_l; [by apply exec1_step|apply IH]. Qed.

(** The process [p] runs alone. *)
Definition run (fuel : nat) (p : nat) (s : kernel * gmap nat proc) : kernel * gmap nat proc :=
  match s.2 !! p with
  | Some (Proc l m) => let '(k, l, m) := exec p fuel (s.1, l, m) in (k, <[p := Proc l m]> s.2)
  | None => s
  end.

Definition is_idle (p : nat) (s : kernel * gmap nat proc) : bool := match s.2 !! p with Some (Proc _ (Ret _)) => true | _ => false end.

(** The process [p] makes the call [m] and runs alone. *)
Definition call (fuel : nat) (p : nat) (m : prog bool) (s : kernel * gmap nat proc) : kernel * gmap nat proc :=
  run fuel p (s.1, alter (fun pr => Proc (pr_list pr) m) p s.2).

Definition fork (p q : nat) (s : kernel * gmap nat proc) : kernel * gmap nat proc :=
  match s.2 !! p with
  | Some pr => (set_open (inherited p q s.1 ∪ k_open s.1) s.1, <[q := Proc (pr_list pr) reset_file_locking]> s.2)
  | None => s
  end.

Lemma run_steps prio forks fuel p s : rtc (step prio forks) s (run fuel p s).
Proof.
  unfold run. destruct (s.2 !! p) as [[l m]|] eqn:Ep; [|done]. pose proof (exec_steps p fuel (s.1, l, m)) as Hs. destruct s as [k ps]. cbn in *. destruct (exec p fuel (k, l, m)) as [[k' l'] m'].
  remember (k, l, m) as x eqn:Ex. remember (k', l', m') as y eqn:Ey. revert k ps l m Ex Ep. induction Hs as [x|x x' y Hx _ IH]; intros k ps l m -> Ep.
  - injection Ey as <- <- <-. by rewrite insert_id.
  - destruct x' as [[k1 l1] m1]. eapply rtc_l; [by eapply step_run|]. specialize (IH Ey k1 (<[p := Proc l1 m1]> ps) l1 m1 eq_refl). rewrite lookup_insert_eq, insert_insert_eq in IH. by apply IH.
Qed.

Lemma call_steps prio forks fuel p m s : is_idle p s = true -> request prio m -> rtc (step prio forks) s (call fuel p m s).
Proof.
  unfold is_idle, call. destruct s as [k ps]. cbn. destruct (ps !! p) as [[l [r|?|?|?|?|?|?|?|?|?|?|?]]|] eqn:E; try done. intros _ Hm. eapply rtc_l; [by eapply (step_call prio forks k ps p l r m)|].
  assert (alter (fun pr => Proc (pr_list pr) m) p ps = <[p := Proc l m]> ps) as ->; [|apply run_steps]. apply map_eq. intros q. destruct (decide (q = p)) as [-> |Hq]; [by rewrite lookup_alter_eq, lookup_insert_eq, E|by rewrite lookup_alter_ne, lookup_insert_ne].
Qed.

Lemma fork_step prio p q s : is_idle p s = true -> s.2 !! q = None -> step prio true s (fork p q s).
Proof. unfold is_idle, fork. destruct s as [k ps]. cbn. destruct (ps !! p) as [[l [r|?|?|?|?|?|?|?|?|?|?|?]]|] eqn:E; try done. intros _ Hq. eapply step_fork; [done|done|by left]. Qed.

(** Two processes, of which nothing is known, and a lock file of the past. *)
Definition example_file : list Z := bytes "/run/lock/lvm/V_vg0".
Definition two_procs : kernel * gmap nat proc := (Kernel {[example_file := 5]} ∅ ∅ ∅ 6, {[0%nat := Proc [] (Ret true); 2%nat := Proc [] (Ret true)]}).

Lemma two_procs_initial : initial two_procs.
Proof.
  split; [done|]. split; [done|]. split; [done|]. split; [done|]. split; [|split].
  - apply (proj2 (map_Forall_singleton _ _ _)). reflexivity.
  - cbn [fst two_procs k_names]. intros f g i Hf Hg. apply lookup_singleton_Some in Hf as [<- _]. by apply lookup_singleton_Some in Hg as [<- _].
  - cbn [snd two_procs]. apply map_Forall_insert_2; [split; [done|by eexists]|]. apply map_Forall_singleton. split; [done|by eexists].
Qed.

(** Both have the lock for reading. *)
Definition two_readers : kernel * gmap nat proc := call 40 2 (lock_file false example_file LCK_READ) (call 40 0 (lock_file false example_file LCK_READ) two_procs).

Lemma two_readers_reachable : reachable false false two_readers.
Proof.
  exists two_procs. split; [apply two_procs_initial|]. etransitivity; [apply (call_steps false false 40 0 (lock_file false example_file LCK_READ)); [by vm_compute|constructor]|].
  apply call_steps; [by vm_compute|constructor].
Qed.

Lemma file_locks_exclude_witness : exists e e', two_readers.2 !! 0%nat = Some (Proc [e] (Ret true)) /\ two_readers.2 !! 2%nat = Some (Proc [e'] (Ret true)) /\ ll_op e = LOCK_SH /\ ll_op e' = LOCK_SH.
Proof.
  exists (LockList example_file 6 LOCK_SH), (LockList example_file 7 LOCK_SH). assert (two_readers.2 !! 0%nat = Some (Proc [LockList example_file 6 LOCK_SH] (Ret true))) as E0 by (vm_compute; reflexivity).
  assert (two_readers.2 !! 2%nat = Some (Proc [LockList example_file 7 LOCK_SH] (Ret true))) as E2 by (vm_compute; reflexivity). split; [exact E0|]. split; [exact E2|].
  destruct (file_locks_exclude false two_readers 0 _ (LockList example_file 6 LOCK_SH) two_readers_reachable E0) as (_ & _ & _ & H); [apply list_elem_of_here|].
  apply (H 2%nat _ (LockList example_file 7 LOCK_SH) E2); [apply list_elem_of_here|left; discriminate|reflexivity].
Defined.

(** ** A lock that is free is granted *)

(** No description of the file's inode has a lock that conflicts. *)
Definition free (k : kernel) (file : list Z) (operation : lock_op) : Prop :=
  forall i fd op, k_names k !! file = Some i -> k_inode k !! fd = Some i -> k_locks k !! fd = Some op -> operation = LOCK_SH /\ op = LOCK_SH.

(** The effect of [_do_flock]. *)
Record granted (k k' : kernel) (p : nat) (file : list Z) (fd : Z) (operation : lock_op) : Prop := {
  gr_kinv : kinv k';
  gr_locks : k_locks k' = <[fd := operation]> (k_locks k);
  gr_open (x : nat * Z) : x ∈ k_open k' <-> x = (p, fd) \/ x ∈ k_open k;
  gr_named : exists i, k_names k' !! file = Some i /\ k_inode k' !! fd = Some i;
  gr_names f : f <> file -> k_names k' !! f = k_names k !! f;
  gr_old x : x < k_next k -> k_inode k' !! x = k_inode k !! x;
  gr_fd : k_next k <= fd < k_next k' }.

Lemma exec_S {A} p n (s s' : kernel * list lock_list * prog A) : exec1 p s = Some s' -> exec p (S n) s = exec p n s'.
Proof. intros E. cbn. by rewrite E. Qed.

(** The steps of [_do_flock] behind the call of open. *)
Lemma exec_opened {A} p k l file fd i operation (nonblock : bool) (c : bool * Z -> prog A) n :
  (p, fd) ∈ k_open k -> may_lock k fd operation -> k_names k !! file = Some i -> k_inode k !! fd = Some i ->
  exec p (3 + n) (k, l, (r ← Flock fd operation nonblock Ret; if negb r : bool then Close fd (fun _ => Ret (false, fd)) else same ← is_same_inode file fd;
    if same : bool then Ret (true, fd) else if nonblock then Ret (false, fd) else DoFlock file fd operation nonblock Ret : prog (bool * Z)) ≫= c) =
  exec p n (set_locks (<[fd := operation]> (k_locks k)) k, l, c (true, fd)).
Proof.
  intros Ho Hm Hn Hi. cbn [Nat.add]. erewrite exec_S; [|cbn; rewrite !bool_decide_eq_true_2 by done; reflexivity]. erewrite exec_S; [|cbn; rewrite Hn; reflexivity]. erewrite exec_S; [|cbn; rewrite bool_decide_eq_true_2, Hi by done; reflexivity].
  cbn. by rewrite Z.eqb_refl.
Qed.

Lemma exec_do_flock {A} p k l file operation nonblock (c : bool * Z -> prog A) :
  kinv k -> free k file operation -> exists k' fd, granted k k' p file fd operation /\ forall n, exec p (5 + n) (k, l, DoFlock file (-1) operation nonblock c) = exec p n (k', l, c (true, fd)).
Proof.
  intros Hk Hfree. set (k1 := match k_names k !! file with Some i => new_open p i k | None => new_open p (k_next k) (new_inode file k) end).
  set (fd := match k_names k !! file with Some i => k_next k | None => k_next k + 1 end).
  assert (kinv k1) as Hk1 by (unfold k1; destruct (k_names k !! file) eqn:E; [apply kinv_new_open; [done|by apply (ki_bound _ Hk file)]|apply kinv_new_open; [by apply kinv_new_inode|cbn; lia]]).
  assert (exists i, k_names k1 !! file = Some i /\ k_inode k1 !! fd = Some i) as (i & Hn & Hi).
  { unfold k1, fd. destruct (k_names k !! file) as [i|] eqn:E; [exists i|exists (k_next k)]; cbn; rewrite lookup_insert_eq; [done|]. by rewrite lookup_insert_eq. }
  assert (forall x, x ∈ k_open k1 <-> x = (p, fd) \/ x ∈ k_open k) as Ho by (intros x; unfold k1, fd; destruct (k_names k !! file); cbn; rewrite elem_of_union, elem_of_singleton; done).
  assert (k_locks k1 = k_locks k) as Hl by (unfold k1; by destruct (k_names k !! file)).
  assert (forall x, x < k_next k -> k_inode k1 !! x = k_inode k !! x) as Hold by (intros x Hx; unfold k1; destruct (k_names k !! file); cbn; (rewrite lookup_insert_ne; [done|lia])).
  assert (forall f, f <> file -> k_names k1 !! f = k_names k !! f) as Hnames by (intros f Hf; unfold k1; destruct (k_names k !! file); cbn; [done|]; by rewrite lookup_insert_ne).
  assert (may_lock k1 fd operation) as Hm.
  { intros x op Hx. rewrite Hl in Hx. assert (x < k_next k) as Hlt by (destruct (decide (x < k_next k)); [done|]; destruct (ki_fresh _ Hk x p); [lia|congruence]).
    right. destruct (decide (k_inode k1 !! x = k_inode k1 !! fd)) as [E|]; [right|by left]. rewrite Hold, Hi in E by done. unfold k1 in Hn, Hi. destruct (k_names k !! file) as [j|] eqn:Ej.
    - cbn in Hn. apply (Hfree i x op); [congruence|done|done].
    - cbn in Hn. rewrite lookup_insert_eq in Hn. injection Hn as <-. apply (ki_ibound _ Hk) in E. lia. }
  exists (set_locks (<[fd := operation]> (k_locks k1)) k1), fd. split.
  - split; [by apply (kinv_lock k1 p); [|apply Ho; left|]|cbn; by rewrite Hl|done|by exists i|done|done|]. unfold k1, fd. destruct (k_names k !! file); cbn; lia.
  - intros n. assert ((p, fd) ∈ k_open k1) as Hin by (by apply Ho; left). cbn [Nat.add]. erewrite exec_S; [|done]. unfold k1, fd in *. destruct (k_names k !! file) eqn:E.
    + erewrite exec_S; [|cbn; rewrite E; reflexivity]. exact (exec_opened p _ l file _ i operation nonblock c n Hin Hm Hn Hi).
    + erewrite exec_S; [|cbn; rewrite E; reflexivity]. exact (exec_opened p _ l file _ i operation nonblock c n Hin Hm Hn Hi).
Qed.

(** A process that has a lock for writing may convert it. *)
Lemma may_lock_held k fd : kinv k -> k_locks k !! fd = Some LOCK_EX -> may_lock k fd LOCK_EX.
Proof. intros Hk Hfd x op Hx. destruct (decide (x = fd)) as [|Hne]; [by left|]. right. left. intros E. by destruct (ki_excl k Hk x fd op LOCK_EX). Qed.

Definition undone (p : nat) (file : list Z) (fd : Z) (k : kernel) : kernel :=
  let k := set_names (delete file (k_names k)) (set_locks (<[fd := LOCK_EX]> (k_locks k)) k) in set_open (k_open k ∖ {[(p, fd)]}) k.

(** A step with a call that succeeds, by the facts about the kernel [H]. *)
Ltac exec_step H := erewrite exec_S; [|cbn; rewrite ?bool_decide_eq_true_2 by done; rewrite ?H; reflexivity].

Lemma exec_undo_flock {A} p k l file fd i (g : unit -> prog A) n :
  (p, fd) ∈ k_open k -> may_lock k fd LOCK_EX -> k_names k !! file = Some i -> k_inode k !! fd = Some i ->
  exec p (5 + n) (k, l, undo_flock file fd ≫= g) = exec p n (undone p file fd k, l, g tt).
Proof. intros Ho Hm Hn Hi. cbn [Nat.add]. exec_step Hm. exec_step Hn. exec_step Hi. cbn [prog_bind]. rewrite Z.eqb_refl. exec_step Hn. by exec_step Hn. Qed.

(** The same inside of a function. *)
Lemma exec_undo_flock_in {A B} p k l file fd i (g : unit -> prog B) (c : B -> prog A) n :
  (p, fd) ∈ k_open k -> may_lock k fd LOCK_EX -> k_names k !! file = Some i -> k_inode k !! fd = Some i ->
  exec p (5 + n) (k, l, (undo_flock file fd ≫= g) ≫= c) = exec p n (undone p file fd k, l, g tt ≫= c).
Proof. intros Ho Hm Hn Hi. cbn [Nat.add]. exec_step Hn. exec_step Hn. exec_step Hi. cbn [prog_bind]. rewrite Z.eqb_refl. exec_step Hn. by exec_step Hn. Qed.

Lemma kinv_undone k p file fd : kinv k -> (p, fd) ∈ k_open k -> may_lock k fd LOCK_EX -> kinv (undone p file fd k).
Proof.
  intros Hk Ho Hm. unfold undone. pose proof (kinv_unlink _ file (kinv_lock _ _ _ _ Hk Ho Hm)) as Hk'. apply kinv_set_open; [done|]. intros x q Hx. pose proof (ki_fresh _ Hk' x q Hx). set_solver.
Qed.

Lemma exec_end {A} p n k l (a : A) : exec p n (k, l, Ret a) = (k, l, Ret a).
Proof. by destruct n. Qed.

Lemma aux_differs (file : list Z) : file <> file ++ AUX_LOCK_SUFFIX.
Proof. intros E. apply (f_equal length) in E. rewrite length_app in E. cbn in E. lia. Qed.

(** What is free stays free when another file is locked. *)
Lemma free_granted k k' p file aux fd operation : kinv k -> granted k k' p aux fd LOCK_EX -> file <> aux -> free k file operation -> free k' file operation.
Proof.
  intros Hk [H1 H2 _ (j & Hj & Hfd) H5 H6 _] Hne Hf i x op Hi Hx Hop. rewrite H2 in Hop. apply lookup_insert_Some in Hop as [[<- _]|[_ Hop]].
  - exfalso. apply Hne. apply (ki_inj _ H1 file aux i); congruence.
  - rewrite H5 in Hi by done. assert (x < k_next k) as Hlt by (destruct (decide (x < k_next k)); [done|]; destruct (ki_fresh _ Hk x p); [lia|congruence]). rewrite H6 in Hx by done. by apply (Hf i x op).
Qed.

Lemma undo_granted {A B} k0 k p aux fd (g : unit -> prog B) (c : B -> prog A) l n : granted k0 k p aux fd LOCK_EX ->
  exec p (5 + n) (k, l, (undo_flock aux fd ≫= g) ≫= c) = exec p n (undone p aux fd k, l, g tt ≫= c) /\ kinv (undone p aux fd k).
Proof.
  intros [H1 H2 H3 (j & Hj & Hfd) _ _ _]. assert (may_lock k fd LOCK_EX) as Hm by (apply may_lock_held; [done|by rewrite H2, lookup_insert_eq]). assert ((p, fd) ∈ k_open k) as Ho by (by apply H3; left).
  split; [by apply (exec_undo_flock_in p k l aux fd j g c)|by apply kinv_undone].
Qed.

Definition taken (k : kernel) (file : list Z) (lf : Z) (operation : lock_op) : Prop := k_locks k !! lf = Some operation /\ exists i, k_names k !! file = Some i /\ k_inode k !! lf = Some i.

Lemma granted_taken k k' p file fd operation : granted k k' p file fd operation -> taken k' file fd operation.
Proof. intros [H1 H2 H3 H4 _ _ _]. split; [by rewrite H2, lookup_insert_eq|done]. Qed.

Lemma exec_added {A} p k l e (c : prog A) n : exec p (2 + n) (k, l, GetList (fun l => SetList (l ++ [e]) c)) = exec p n (k, l ++ [e], c).
Proof. done. Qed.

(** [_do_write_priority_flock] when it has the auxiliary lock. *)
Definition after_aux (file : list Z) (operation : lock_op) (nonblock : bool) (x : bool * Z) : prog (bool * Z) :=
  let '(r, fd_aux) := x in
  if r : bool then
    if bool_decide (operation = LOCK_EX) then res ← do_flock file (-1) operation nonblock; undo_flock (file ++ AUX_LOCK_SUFFIX) fd_aux;; Ret res
    else undo_flock (file ++ AUX_LOCK_SUFFIX) fd_aux;; do_flock file (-1) operation nonblock
  else Ret (false, -1).

Section prioritised.
Context (k : kernel) (l : list lock_list) (file : list Z) (nonblock : bool) (p : nat) (Hk : kinv k).
Let aux : list Z := file ++ AUX_LOCK_SUFFIX.

(** With the auxiliary lock during the lock for writing. *)
Lemma exec_priority_write {A} (c : bool * Z -> prog A) : free k file LOCK_EX -> free k aux LOCK_EX ->
  exists k' lf, taken k' file lf LOCK_EX /\ forall n, exec p (15 + n) (k, l, do_write_priority_flock file (-1) LOCK_EX nonblock ≫= c) = exec p n (k', l, c (true, lf)).
Proof.
  intros Hf Ha. set (c2 := fun fd_aux (res : bool * Z) => (undo_flock aux fd_aux ≫= fun _ => Ret res) ≫= c).
  destruct (exec_do_flock p k l aux LOCK_EX false (fun x => after_aux file LOCK_EX nonblock x ≫= c) Hk Ha) as (k1 & fd1 & G1 & E1).
  pose proof (free_granted _ _ _ _ _ _ _ Hk G1 (aux_differs file) Hf) as Hf1. destruct (exec_do_flock p k1 l file LOCK_EX nonblock (c2 fd1) (gr_kinv _ _ _ _ _ _ G1) Hf1) as (k2 & fd2 & G2 & E2).
  assert (k_locks k2 !! fd1 = Some LOCK_EX) as L1 by (rewrite (gr_locks _ _ _ _ _ _ G2), lookup_insert_ne by (pose proof (gr_fd _ _ _ _ _ _ G1); pose proof (gr_fd _ _ _ _ _ _ G2); lia); by rewrite (gr_locks _ _ _ _ _ _ G1), lookup_insert_eq).
  destruct (gr_named _ _ _ _ _ _ G1) as (j & Hj & Hi1). assert (aux <> file) as Hne by (intros E; by apply (aux_differs file)).
  assert ((p, fd1) ∈ k_open k2) as O1 by (apply (gr_open _ _ _ _ _ _ G2); right; apply (gr_open _ _ _ _ _ _ G1); by left).
  assert (fd2 <> fd1) as Hfd by (pose proof (gr_fd _ _ _ _ _ _ G1); pose proof (gr_fd _ _ _ _ _ _ G2); lia).
  exists (undone p aux fd1 k2), fd2. split.
  - destruct (granted_taken _ _ _ _ _ _ G2) as [L2 (i & Hi & Hi2)]. split; cbn.
    + apply map_lookup_filter_Some. split; [by rewrite lookup_insert_ne|]. cbn. apply elem_of_map. exists (p, fd2). split; [done|]. apply elem_of_difference. split; [apply (gr_open _ _ _ _ _ _ G2); by left|]. intros [= H]%elem_of_singleton. done.
    + exists i. rewrite lookup_delete_ne by done. done.
  - intros n. etransitivity; [exact (E1 (10 + n)%nat)|]. etransitivity; [exact (E2 (5 + n)%nat)|].
    apply (exec_undo_flock_in p k2 l aux fd1 j (fun _ => Ret (true, fd2)) c n); [done|by apply may_lock_held, L1; apply (gr_kinv _ _ _ _ _ _ G2)|by rewrite (gr_names _ _ _ _ _ _ G2)|by rewrite (gr_old _ _ _ _ _ _ G2) by apply (gr_fd _ _ _ _ _ _ G1)].
Qed.

(** Without it when the lock for reading is taken. *)
Lemma exec_priority_read {A} (c : bool * Z -> prog A) : free k file LOCK_SH -> free k aux LOCK_EX ->
  exists k' lf, taken k' file lf LOCK_SH /\ forall n, exec p (15 + n) (k, l, do_write_priority_flock file (-1) LOCK_SH nonblock ≫= c) = exec p n (k', l, c (true, lf)).
Proof.
  intros Hf Ha. set (g := fun _ : unit => do_flock file (-1) LOCK_SH nonblock). destruct (exec_do_flock p k l aux LOCK_EX false (fun x => after_aux file LOCK_SH nonblock x ≫= c) Hk Ha) as (k1 & fd1 & G1 & E1).
  destruct (undo_granted k k1 p aux fd1 g c l 0%nat G1) as [_ Hk2]. assert (free (undone p aux fd1 k1) file LOCK_SH) as Hf2.
  { intros i x op Hi Hx Hop. cbn in *. apply lookup_delete_Some in Hi as [_ Hi]. apply map_lookup_filter_Some in Hop as [Hop _]. pose proof (free_granted _ _ _ _ _ _ _ Hk G1 (aux_differs file) Hf) as Hf1.
    apply lookup_insert_Some in Hop as [[<- _]|[_ Hop]]; [|by apply (Hf1 i x op)]. destruct (granted_taken _ _ _ _ _ _ G1) as [L1 _]. by apply (Hf1 i fd1 LOCK_EX) in L1 as [_ ?]. }
  destruct (exec_do_flock p (undone p aux fd1 k1) l file LOCK_SH nonblock c Hk2 Hf2) as (k3 & fd3 & G3 & E3). exists k3, fd3. split; [by apply granted_taken in G3|].
  intros n. destruct (undo_granted k k1 p aux fd1 g c l (5 + n)%nat G1) as [E2 _]. etransitivity; [exact (E1 (10 + n)%nat)|]. etransitivity; [exact E2|]. apply E3.
Qed.

End prioritised.

Lemma exec_lock_file prio k l file operation nonblock p :
  kinv k -> free k file operation -> (prio = true -> free k (file ++ AUX_LOCK_SUFFIX) LOCK_EX) ->
  exists k' lf, exec p 40 (k, l, lock_file_as prio file operation nonblock) = (k', l ++ [LockList file lf operation], Ret true) /\ taken k' file lf operation.
Proof.
  intros Hk Hf Ha. set (c := fun x : bool * Z => let '(r, lf) := x in if r : bool then GetList (fun l => SetList (l ++ [LockList file lf operation]) (Ret true)) else Ret false).
  destruct prio; [specialize (Ha eq_refl)|].
  - assert (exists k' lf, taken k' file lf operation /\ forall n, exec p (15 + n) (k, l, do_write_priority_flock file (-1) operation nonblock ≫= c) = exec p n (k', l, c (true, lf))) as (k' & lf & T & E)
      by (destruct operation; [by apply exec_priority_read|by apply exec_priority_write]).
    exists k', lf. split; [|done]. exact (E 23%nat).
  - destruct (exec_do_flock p k l file operation nonblock c Hk Hf) as (k' & lf & G & E). exists k', lf. split; [|by apply granted_taken in G]. exact (E 33%nat).
Qed.

(** C6: whatever processes did before, a process that asks for a lock that no other
    process stands in the way of, and runs alone without failures, has the lock after at
    most 40 steps, with the priority of writers and without it. *)
Theorem free_lock_granted prio s p l r file flags operation :
  reachable prio false s -> s.2 !! p = Some (Proc l (Ret r)) -> Z.land flags LCK_TYPE_MASK = (match operation with LOCK_SH => LCK_READ | LOCK_EX => LCK_WRITE end) ->
  free s.1 file operation -> (prio = true -> free s.1 (file ++ AUX_LOCK_SUFFIX) LOCK_EX) ->
  exists k' lf, exec p 40 (s.1, l, lock_file prio file flags) = (k', l ++ [LockList file lf operation], Ret true) /\ taken k' file lf operation /\
    reachable prio false (k', <[p := Proc (l ++ [LockList file lf operation]) (Ret true)]> s.2).
Proof.
  intros Hs Hp Hflags Hf Ha. destruct (reachable_ok _ _ Hs) as [Hk _]. destruct (exec_lock_file prio s.1 l file operation (negb (Z.land flags LCK_NONBLOCK =? 0)) p Hk Hf Ha) as (k' & lf & E & T).
  assert (lock_file prio file flags = lock_file_as prio file operation (negb (Z.land flags LCK_NONBLOCK =? 0))) as Eq by (unfold lock_file; rewrite Hflags; by destruct operation).
  exists k', lf. rewrite Eq. split; [done|]. split; [done|]. destruct Hs as (s0 & H0 & Hs). exists s0. split; [done|]. etransitivity; [exact Hs|].
  pose proof (call_steps prio false 40 p (lock_file prio file flags) s) as Hc. unfold is_idle, call, run in Hc. rewrite Hp in Hc. specialize (Hc eq_refl (request_lock _ _ _)). cbn [snd fst] in Hc. rewrite lookup_alter_eq, Hp in Hc. cbn [fmap option_fmap option_map pr_list] in Hc.
  rewrite Eq, E in Hc. rewrite insert_alter, decide_True in Hc by done. exact Hc.
Qed.

Lemma free_lock_granted_witness : exists k' lf, exec 0 40 (two_procs.1, [], lock_file true example_file LCK_WRITE) = (k', [LockList example_file lf LOCK_EX], Ret true) /\ k_locks k' !! lf = Some LOCK_EX.
Proof.
  assert (reachable true false two_procs) as Hr by (exists two_procs; split; [exact two_procs_initial|constructor]).
  assert (forall file op, free two_procs.1 file op) as Hf by (intros file op i fd o _ _ H; cbn in H; rewrite lookup_empty in H; discriminate).
  destruct (free_lock_granted true two_procs 0 [] true example_file LCK_WRITE LOCK_EX Hr eq_refl eq_refl (Hf _ _) (fun _ => Hf _ _)) as (k' & lf & E & [T _] & _). exists k', lf. split; [exact E|exact T].
Defined.

(** ** Unlocking *)

Lemma release_loop_skip file unlock e l2 : ll_res e = file -> forall l1 kept, Forall (fun e' => ll_res e' <> file) l1 ->
  release_loop (Some file) unlock kept (l1 ++ e :: l2) =
  SetList ((kept ++ l1) ++ l2) ((if unlock then Funlock (ll_lf e) (fun _ => Ret tt) else Ret tt);; undo_flock file (ll_lf e);; Ret true).
Proof.
  intros He. induction l1 as [|x l1 IH]; intros kept Hl; cbn.
  - by rewrite bool_decide_eq_true_2, app_nil_r, He by done.
  - apply Forall_cons in Hl as [Hx Hl]. rewrite bool_decide_eq_false_2, IH by done. by rewrite <- (app_assoc kept).
Qed.

(** A process that had a lock for writing removes the file when it unlocks it alone, and
    does not lock it any longer. *)
Theorem write_unlock_removes prio s p l1 e l2 r flags :
  reachable prio false s -> s.2 !! p = Some (Proc (l1 ++ e :: l2) (Ret r)) -> Forall (fun e' => ll_res e' <> ll_res e) l1 -> ll_op e = LOCK_EX -> Z.land flags LCK_TYPE_MASK = LCK_UNLOCK ->
  exists k', exec p 40 (s.1, l1 ++ e :: l2, lock_file prio (ll_res e) flags) = (k', l1 ++ l2, Ret true) /\ k_names k' !! ll_res e = None /\ k_locks k' !! ll_lf e = None.
Proof.
  intros Hs Hp Hl He Hflags. destruct (reachable_ok _ _ Hs) as [Hk Hps]. destruct (Hps p _ Hp) as (v & Hv & [_ Hlo] & _). cbn in Hlo. apply Forall_app in Hlo as [_ Hlo]. apply Forall_cons in Hlo as [(a & Ha & Hop & Hpin) _].
  destruct (Hv _ _ Ha) as [K1 K2 K3 K4 K5]. rewrite He in Hop. specialize (K4 _ Hop). destruct (K5 _ Hpin) as [_ Hn]. set (k1 := set_locks (delete (ll_lf e) (k_locks s.1)) s.1).
  assert (may_lock k1 (ll_lf e) LOCK_EX) as Hm.
  { intros x op Hx. cbn in Hx. apply lookup_delete_Some in Hx as [Hne Hx]. right. left. intros E. by destruct (ki_excl _ Hk x (ll_lf e) op LOCK_EX). }
  exists (undone p (ll_res e) (ll_lf e) k1). split; [|split; [apply lookup_delete_eq|]].
  - unfold lock_file. rewrite Hflags. cbn [Z.eqb LCK_UNLOCK LCK_READ LCK_WRITE Pos.eqb]. unfold release_lock. erewrite exec_S; [|reflexivity]. rewrite release_loop_skip by done. erewrite exec_S; [|reflexivity].
    erewrite exec_S; [|cbn; rewrite bool_decide_eq_true_2 by done; reflexivity]. cbn [app].
    exact (exec_undo_flock p k1 _ (ll_res e) (ll_lf e) (fi_inode a) (fun _ => Ret true) 32%nat K1 Hm Hn K3).
  - cbn. apply map_lookup_filter_None. right. intros op _. cbn. intros Hin. apply elem_of_map in Hin as ([q x] & Hx & Hin). cbn in Hx. subst x. apply elem_of_difference in Hin as [Hin Hne]. apply Hne, elem_of_singleton. by rewrite (K2 q Hin).
Qed.

(** ** Locks and forks *)

(** The child closes its copy of the descriptor [fd]. *)
Definition let_go (q : nat) (fd : Z) (names : gmap (list Z) Z) (locks : gmap Z lock_op) (k : kernel) : kernel := set_open (k_open k ∖ {[(q, fd)]}) (set_names names (set_locks locks k)).

(** What resetting the lock [e] does: the file may be removed, and the lock may be taken
    for writing. *)
Record reset_one (q : nat) (e : lock_list) (k k' : kernel) : Prop := {
  rs_kinv : kinv k';
  rs_inode : k_inode k' = k_inode k;
  rs_open : k_open k' = k_open k ∖ {[(q, ll_lf e)]};
  rs_names : k_names k' = k_names k \/ k_names k' = delete (ll_res e) (k_names k);
  rs_locks x q' op : (q', x) ∈ k_open k' -> k_locks k !! x = Some op -> (x = ll_lf e -> op = LOCK_EX) -> k_locks k' !! x = Some op;
  rs_fewer x op : k_locks k' !! x = Some op -> x = ll_lf e \/ k_locks k !! x = Some op;
  rs_removed i : k_locks k !! ll_lf e = Some LOCK_EX -> k_names k !! ll_res e = Some i -> k_inode k !! ll_lf e = Some i -> k_names k' !! ll_res e = None }.

Lemma let_go_reset q e names locks k : kinv k -> (q, ll_lf e) ∈ k_open k -> names = k_names k \/ names = delete (ll_res e) (k_names k) ->
  locks = k_locks k \/ locks = <[ll_lf e := LOCK_EX]> (k_locks k) /\ may_lock k (ll_lf e) LOCK_EX ->
  (forall i, k_locks k !! ll_lf e = Some LOCK_EX -> k_names k !! ll_res e = Some i -> k_inode k !! ll_lf e = Some i -> names !! ll_res e = None) ->
  reset_one q e k (let_go q (ll_lf e) names locks k).
Proof.
  intros Hk Ho Hn Hl Hr. assert (kinv (set_locks locks k)) as Hk1 by (destruct Hl as [->|[-> Hm]]; [by apply kinv_fewer|by apply (kinv_lock k q)]).
  assert (kinv (set_names names (set_locks locks k))) as Hk2 by (destruct Hn as [->| ->]; [destruct k; exact Hk1|exact (kinv_unlink _ (ll_res e) Hk1)]).
  assert (forall x op, locks !! x = Some op -> x = ll_lf e \/ k_locks k !! x = Some op) as Hf.
  { intros x op Hx. destruct Hl as [->|[-> _]]; [by right|]. apply lookup_insert_Some in Hx as [[-> _]|[_ Hx]]; [by left|by right]. }
  split; cbn; try done.
  - apply kinv_set_open; [done|]. intros x p Hx. pose proof (ki_fresh _ Hk2 x p Hx) as [_ Hno]. cbn in Hno. set_solver.
  - intros x q' op Hin Hx He. apply map_lookup_filter_Some. split; [|apply elem_of_map; by exists (q', x)].
    destruct Hl as [->|[-> _]]; [done|]. destruct (decide (x = ll_lf e)) as [->|Hne]; [by rewrite lookup_insert_eq, (He eq_refl)|by rewrite lookup_insert_ne].
  - intros x op Hx. apply map_lookup_filter_Some in Hx as [Hx _]. by apply Hf.
Qed.

Lemma exec_reset_one q e todo k : kinv k -> (q, ll_lf e) ∈ k_open k -> exists k1 m, (m <= 6)%nat /\ reset_one q e k k1 /\
  forall n, exec q (m + n) (k, e :: todo, release_loop None false [] (e :: todo)) = exec q n (k1, todo, release_loop None false [] todo).
Proof.
  intros Hk Ho. destruct (decide (may_lock k (ll_lf e) LOCK_EX)) as [Hm|Hm].
  - destruct (k_names k !! ll_res e) as [i|] eqn:Hn.
    + destruct (decide (k_inode k !! ll_lf e = Some i)) as [Hi|Hi].
      * exists (let_go q (ll_lf e) (delete (ll_res e) (k_names k)) (<[ll_lf e := LOCK_EX]> (k_locks k)) k), 6%nat. split; [lia|]. split; [apply let_go_reset; try tauto; intros j _ _ _; apply lookup_delete_eq|].
        intros n. cbn [Nat.add]. erewrite exec_S; [|reflexivity]. exact (exec_undo_flock q k todo (ll_res e) (ll_lf e) i (fun _ => release_loop None false [] todo) n Ho Hm Hn Hi).
      * exists (let_go q (ll_lf e) (k_names k) (<[ll_lf e := LOCK_EX]> (k_locks k)) k), 5%nat. split; [lia|]. split; [apply let_go_reset; try tauto; intros j _ E1 E2; congruence|].
        intros n. cbn [Nat.add]. erewrite exec_S; [|reflexivity]. exec_step Hm. exec_step Hn. exec_step Hi. cbn [prog_bind].
        assert (match k_inode k !! ll_lf e with Some i2 => i =? i2 | None => false end = false) as ->; [|by exec_step Hn].
        destruct (k_inode k !! ll_lf e) as [i2|]; [|done]. apply Z.eqb_neq. congruence.
    + exists (let_go q (ll_lf e) (k_names k) (<[ll_lf e := LOCK_EX]> (k_locks k)) k), 4%nat. split; [lia|]. split; [apply let_go_reset; try tauto; intros j _ E1; congruence|].
      intros n. cbn [Nat.add]. erewrite exec_S; [|reflexivity]. exec_step Hm. exec_step Hn. cbn [prog_bind]. by exec_step Hn.
  - exists (let_go q (ll_lf e) (k_names k) (k_locks k) k), 3%nat. split; [lia|]. split.
    + apply let_go_reset; try tauto. intros j E. by apply may_lock_held in E.
    + intros n. cbn [Nat.add]. erewrite exec_S; [|reflexivity]. erewrite exec_S; [|cbn; rewrite bool_decide_eq_true_2, bool_decide_eq_false_2 by done; reflexivity]. cbn [prog_bind]. erewrite exec_S; [|reflexivity]. by destruct k.
Qed.

Lemma names_fewer q e k k1 f i : reset_one q e k k1 -> k_names k1 !! f = Some i -> k_names k !! f = Some i.
Proof. intros H Hi. destruct (rs_names _ _ _ _ H) as [E|E]; rewrite E in Hi; [done|]. by apply lookup_delete_Some in Hi as [_ Hi]. Qed.

(** The child resets all the locks of its parent; the parent's lock [e] for writing stays,
    its file does not. *)
Lemma exec_reset p q e aux (C : Prop) : p <> q -> forall todo k, kinv k -> Forall (fun e1 => (q, ll_lf e1) ∈ k_open k) todo -> NoDup (ll_lf <$> todo) ->
  (p, ll_lf e) ∈ k_open k -> k_locks k !! ll_lf e = Some LOCK_EX -> (forall i, k_names k !! ll_res e = Some i -> k_inode k !! ll_lf e = Some i) ->
  (C -> free k aux LOCK_EX /\ forall i, k_names k !! aux = Some i -> Forall (fun e1 => k_inode k !! ll_lf e1 <> Some i) todo) ->
  exists k', (forall n, exec q (6 * length todo + n) (k, todo, release_loop None false [] todo) = (k', [], Ret false)) /\ kinv k' /\ k_locks k' !! ll_lf e = Some LOCK_EX /\
    (e ∈ todo \/ k_names k !! ll_res e = None -> k_names k' !! ll_res e = None) /\ (C -> free k' aux LOCK_EX).
Proof.
  intros Hpq. induction todo as [|e1 todo IH]; intros k Hk Hopen Hnd Hp Hlock Hnamed Hfree.
  { exists k. split; [intros n; apply exec_end|]. split; [done|]. split; [done|]. split; [intros [H|H]; [by apply not_elem_of_nil in H|done]|]. intros c. by apply Hfree. }
  apply Forall_cons in Hopen as [Ho Hopen]. cbn [fmap list_fmap] in Hnd. apply NoDup_cons in Hnd as [Hnot Hnd].
  destruct (exec_reset_one q e1 todo k Hk Ho) as (k1 & m & Hm & R & E). pose proof R as [Hk1 Hi1 Ho1 Hn1 Hl1 Hf1 Hr1].
  assert ((p, ll_lf e) ∈ k_open k1) as Hp1 by (rewrite Ho1; apply elem_of_difference; split; [done|]; by intros [= ? _]%elem_of_singleton).
  destruct (IH k1) as (k' & E' & Hk' & Hlock' & Hgone & Hfree').
  - done.
  - rewrite Forall_forall in Hopen |- *. intros x Hx. rewrite Ho1. apply elem_of_difference. split; [by apply Hopen|]. intros [= Heq]%elem_of_singleton. apply Hnot. rewrite <- Heq. by apply list_elem_of_fmap_2.
  - done.
  - done.
  - by apply (Hl1 _ p).
  - intros i Hi. rewrite Hi1. apply Hnamed. by eapply names_fewer.
  - intros c. destruct (Hfree c) as [Hfr Haux]. split.
    + intros i fd op Hi Hfd Hop. apply (names_fewer _ _ _ _ _ _ R) in Hi. rewrite Hi1 in Hfd. destruct (Hf1 fd op Hop) as [->|Hop']; [|by apply (Hfr i fd op)].
      specialize (Haux i Hi). by apply Forall_cons in Haux as [Haux _].
    + intros i Hi. apply (names_fewer _ _ _ _ _ _ R) in Hi. rewrite Hi1. specialize (Haux i Hi). by apply Forall_cons in Haux as [_ Haux].
  - exists k'. split; [|split; [done|]; split; [done|]; split; [|done]].
    + intros n. cbn [length]. replace (6 * S (length todo) + n)%nat with (m + (6 * length todo + (6 - m + n)))%nat by lia. by rewrite E, E'.
    + intros Hcase. apply Hgone. destruct (k_names k !! ll_res e) as [i|] eqn:Ei.
      * destruct Hcase as [[->|Hin]%elem_of_cons|?]; [right; by apply (Hr1 i), Hnamed|by left|done].
      * right. destruct (k_names k1 !! ll_res e) as [i|] eqn:Ei1; [|done]. apply (names_fewer _ _ _ _ _ _ R) in Ei1. congruence.
Qed.

Lemma reachable_forks prio s : reachable prio false s -> reachable prio true s.
Proof.
  intros (s0 & H0 & Hs). exists s0. split; [done|]. eapply rtc_subrel; [|exact Hs]. intros x y Hxy. inversion Hxy; subst; [by eapply step_run|by eapply step_call|by constructor|]. eapply step_fork; [done|done|]. tauto.
Qed.

(** What the child of [p] finds. *)
Lemma fork_kernel prio s p q l b : reachable prio false s -> s.2 !! p = Some (Proc l (Ret b)) -> let k := (fork p q s).1 in
  kinv k /\ NoDup (ll_lf <$> l) /\ k_names k = k_names s.1 /\ k_inode k = k_inode s.1 /\ Forall (fun e => (q, ll_lf e) ∈ k_open k /\ (p, ll_lf e) ∈ k_open k /\ k_locks k !! ll_lf e = Some (ll_op e) /\
    exists i, k_names s.1 !! ll_res e = Some i /\ k_inode s.1 !! ll_lf e = Some i /\ k_locks s.1 !! ll_lf e = Some (ll_op e)) l /\
  forall x op, k_locks k !! x = Some op -> k_locks s.1 !! x = Some op.
Proof.
  intros Hs Hp. destruct (reachable_ok _ _ Hs) as [Hk Hps]. destruct (Hps p _ Hp) as (v & Hv & [Hnd Hl] & _). cbn [pr_list] in *. unfold fork. rewrite Hp. cbn [fst pr_list].
  assert (forall x y, (x, y) ∈ k_open s.1 -> (x, y) ∈ inherited p q s.1 ∪ k_open s.1) as Hin by (intros x y H; apply elem_of_union; by right).
  split; [apply kinv_set_open; [done|]; intros x r Hx; rewrite elem_of_union; intros [Hi|Hi]; [|by apply (ki_fresh _ Hk x r)]; apply elem_of_map in Hi as ([y z] & [= -> ->] & Hi); apply elem_of_filter in Hi as [_ Hi]; by apply (ki_fresh _ Hk z y) in Hi|].
  split; [done|]. split; [done|]. split; [done|]. split.
  - eapply Forall_impl; [exact Hl|]. intros e (a & Ha & Hop & Hpin). destruct (Hv _ _ Ha) as [K1 _ K3 K4 K5]. specialize (K4 _ Hop). destruct (K5 _ Hpin) as [_ Hn]. cbn [set_open k_open k_locks].
    split; [apply elem_of_union; left; apply elem_of_map; exists (p, ll_lf e); split; [done|]; by apply elem_of_filter|]. split; [by apply Hin|]. split; [|by exists (fi_inode a)].
    apply map_lookup_filter_Some. split; [done|]. cbn. apply elem_of_map. exists (p, ll_lf e). split; [done|by apply Hin].
  - intros x op Hx. by apply map_lookup_filter_Some in Hx as [Hx _].
Qed.

(** C39: a process that forks while it has a lock for writing loses it without knowing.
    Whatever processes did before: the child resets the locks of its parent, runs alone and
    comes to its end; it takes the lock of its parent for its own and removes the lock
    file.  The parent still has the file in its list, and its lock, which is then on an
    inode without a name; and another process that locks the same file for writing, and
    runs alone, is granted the lock (with priority for writers, when nobody has the
    auxiliary lock). *)
Theorem fork_breaks_locks prio s p q r l lr e b b' flags :
  reachable prio false s -> s.2 !! p = Some (Proc l (Ret b)) -> s.2 !! q = None -> s.2 !! r = Some (Proc lr (Ret b')) -> p <> r -> e ∈ l -> ll_op e = LOCK_EX ->
  Z.land flags LCK_TYPE_MASK = LCK_WRITE -> (prio = true -> free s.1 (ll_res e ++ AUX_LOCK_SUFFIX) LOCK_EX) ->
  let s1 := run (6 * length l + 1) q (fork p q s) in
  let s2 := call 40 r (lock_file prio (ll_res e) flags) s1 in
  reachable prio true s2 /\ s1.2 !! q = Some (Proc [] (Ret false)) /\ k_names s1.1 !! ll_res e = None /\ k_locks s1.1 !! ll_lf e = Some LOCK_EX /\
  s2.2 !! p = Some (Proc l (Ret b)) /\ exists lf, s2.2 !! r = Some (Proc (lr ++ [LockList (ll_res e) lf LOCK_EX]) (Ret true)) /\ taken s2.1 (ll_res e) lf LOCK_EX.
Proof.
  intros Hs Hp Hq Hr Hpr He Hex Hflags Hfree s1 s2. assert (p <> q) as Hpq by congruence. assert (r <> q) as Hrq by congruence.
  destruct (fork_kernel prio s p q l b Hs Hp) as (Hk & Hnd & Hnames & Hinode & Hl & Hfew). set (k := (fork p q s).1) in *. rewrite Forall_forall in Hl. destruct (Hl e He) as (_ & Hop & Hlk & i & Hn & Hi & _). rewrite Hex in Hlk.
  destruct (exec_reset p q e (ll_res e ++ AUX_LOCK_SUFFIX) (prio = true) Hpq l k Hk) as (k1 & E1 & Hk1 & Hlk1 & Hgone & Hfree1).
  - apply Forall_forall. intros x Hx. apply (Hl x Hx).
  - done.
  - done.
  - done.
  - rewrite Hnames, Hinode. intros j Hj. congruence.
  - intros Hprio. specialize (Hfree Hprio). rewrite Hnames, Hinode. split; [intros j fd op; rewrite Hnames, Hinode; intros Hj Hfd Hfop; by apply (Hfree j fd op), Hfew|].
    intros j Hj. apply Forall_forall. intros x Hx Hxj. destruct (Hl x Hx) as (_ & _ & _ & i' & _ & _ & Hxl). by apply (Hfree j _ _ Hj Hxj) in Hxl as [? _].
  - assert (s1 = (k1, <[q := Proc [] (Ret false)]> s.2)) as Es1.
    { unfold s1, run. assert (fork p q s = (k, <[q := Proc l reset_file_locking]> s.2)) as -> by (unfold k, fork; by rewrite Hp). cbn [fst snd]. rewrite lookup_insert_eq.
      unfold reset_file_locking, release_lock. replace (6 * length l + 1)%nat with (S (6 * length l + 0)) by lia. erewrite exec_S; [|reflexivity]. rewrite E1. by rewrite insert_insert_eq. }
    assert (s1.2 !! r = Some (Proc lr (Ret b'))) as Hr1 by (rewrite Es1; cbn; by rewrite lookup_insert_ne).
    destruct (exec_lock_file prio k1 lr (ll_res e) LOCK_EX (negb (Z.land flags LCK_NONBLOCK =? 0)) r Hk1) as (k2 & lf & E2 & T2); [|done|].
    { intros j fd op Hj. rewrite Hgone in Hj by by left. done. }
    assert (s2 = (k2, <[r := Proc (lr ++ [LockList (ll_res e) lf LOCK_EX]) (Ret true)]> s1.2)) as Es2.
    { unfold s2, call, run. cbn [fst snd]. rewrite lookup_alter_eq, Hr1. cbn [fmap option_fmap option_map pr_list]. assert (lock_file prio (ll_res e) flags = lock_file_as prio (ll_res e) LOCK_EX (negb (Z.land flags LCK_NONBLOCK =? 0))) as -> by (unfold lock_file; by rewrite Hflags).
      rewrite Es1. cbn [fst snd]. rewrite E2. f_equal. by rewrite insert_alter, decide_True by done. }
    split; [|rewrite Es2, Es1; cbn [fst snd]; rewrite lookup_insert_eq; split; [done|]; split; [apply Hgone; by left|]; split; [done|]; split; [by rewrite !lookup_insert_ne by congruence|]; exists lf; by rewrite lookup_insert_eq].
    destruct (reachable_forks _ _ Hs) as (s0 & H0 & Hrtc). exists s0. split; [done|]. etransitivity; [exact Hrtc|]. eapply rtc_l; [apply (fork_step prio p q); [unfold is_idle; by rewrite Hp|done]|].
    etransitivity; [apply (run_steps prio true (6 * length l + 1) q)|]. apply call_steps; [unfold is_idle; by rewrite Hr1|constructor].
Qed.

(** A command has locked a VG for writing and forks; another command locks the VG. *)
Definition one_writer : kernel * gmap nat proc := call 40 0 (lock_file false example_file LCK_WRITE) two_procs.

Lemma fork_breaks_locks_witness : exists s e e', reachable false true s /\
  s.2 !! 0%nat = Some (Proc [e] (Ret true)) /\ s.2 !! 2%nat = Some (Proc [e'] (Ret true)) /\ ll_res e = ll_res e' /\ ll_op e = LOCK_EX /\ ll_op e' = LOCK_EX.
Proof.
  assert (reachable false false one_writer) as Hr by (exists two_procs; split; [exact two_procs_initial|]; apply call_steps; [vm_compute; reflexivity|constructor]).
  assert (one_writer.2 !! 0%nat = Some (Proc [LockList example_file 6 LOCK_EX] (Ret true))) as E0 by (vm_compute; reflexivity).
  assert (one_writer.2 !! 1%nat = None) as E1 by (vm_compute; reflexivity). assert (one_writer.2 !! 2%nat = Some (Proc [] (Ret true))) as E2 by (vm_compute; reflexivity).
  destruct (fork_breaks_locks false one_writer 0 1 2 [LockList example_file 6 LOCK_EX] [] (LockList example_file 6 LOCK_EX) true true LCK_WRITE Hr E0 E1 E2) as (H & _ & _ & _ & Hp & lf & Hl & _).
  - discriminate.
  - apply list_elem_of_here.
  - reflexivity.
  - reflexivity.
  - discriminate.
  - eexists _, _, _. split; [exact H|]. split; [exact Hp|]. split; [exact Hl|]. split; [reflexivity|]. split; reflexivity.
Defined.

