(* ===== verification/LockOrder.v ===== *)
(** * Locks of VGs (lib/locking/locking.c, the lock names of lib/cache/lvmcache.c)

    Above the lock files, a process counts the VGs that it has locked, blocks signals
    meanwhile, and refuses to ask for a lock out of order.  The processes of a system
    that ask for locks in this way do not wait for each other in a circle. *)

From stdpp Require Import gmap.
From S2P Require Import Prelude DmString FileLock.

(** ** The order of names *)

(** [strcmp(s, t) < 0] *)
Fixpoint str_lt (s t : list Z) : bool :=
  match s, t with
  | _, [] => false
  | [], _ :: _ => true
  | a :: s, b :: t => (a <? b) || ((a =? b) && str_lt s t)
  end.

(** [_vgname_order_correct] *)
Definition vgname_order_correct (vgname1 vgname2 : list Z) : bool :=
  if is_global_vg vgname1 then true
  else if is_global_vg vgname2 then false
  else if is_orphan_vg vgname1 then false
  else if is_orphan_vg vgname2 then true
  else str_lt vgname1 vgname2.

(** ** The state of a process *)

(** [_vg_lock_count], [_vg_write_lock_held] and [_signals_blocked], and of the cache
    [_lock_hash] (its keys) and [_vgs_locked]. *)
Record locking := Locking { lk_count : Z; lk_write : bool; lk_signals : bool; lk_hash : list (list Z); lk_vgs : Z }.

(** [lvmcache_verify_lock_order] *)
Definition verify_lock_order (s : locking) (vgname : list Z) : bool := forallb (fun vgname2 => vgname_order_correct vgname2 vgname) (lk_hash s).

(** [lvmcache_lock_vgname] with an initialised cache, and [lvmcache_unlock_vgname];
    [inserted] is whether [dm_hash_insert] has memory for a new name. *)
Definition lock_vgname (inserted : bool) (vgname : list Z) (s : locking) : locking :=
  Locking (lk_count s) (lk_write s) (lk_signals s)
    (if bool_decide (vgname ∈ lk_hash s) then lk_hash s else if inserted then lk_hash s ++ [vgname] else lk_hash s)
    (if is_global_vg vgname then lk_vgs s else lk_vgs s + 1).

Definition unlock_vgname (vgname : list Z) (s : locking) : locking :=
  Locking (lk_count s) (lk_write s) (lk_signals s) (filter (fun n => n <> vgname) (lk_hash s)) (if is_global_vg vgname then lk_vgs s else lk_vgs s - 1).

Definition LCK_SCOPE_MASK : Z := 8.
Definition LCK_VG : Z := 0.
Definition LCK_LV : Z := 8.
Definition LCK_NULL : Z := 0.
Definition LCK_HOLD : Z := 32.

Definition type_is (flags type : Z) : bool := Z.land flags LCK_TYPE_MASK =? type.
Definition flag (flags f : Z) : bool := negb (Z.land flags f =? 0).

(** A lock of a VG that is not only one of the cache. *)
Definition vg_scope (flags : Z) : bool := (Z.land flags LCK_SCOPE_MASK =? LCK_VG) && negb (flag flags LCK_CACHE).

(** [_block_signals] and [_unblock_signals] *)
Definition block_signals (s : locking) : locking := Locking (lk_count s) (lk_write s) true (lk_hash s) (lk_vgs s).
Definition unblock_signals (s : locking) : locking :=
  if negb (lk_signals s) || negb (lk_count s =? 0) then s else Locking (lk_count s) (lk_write s) false (lk_hash s) (lk_vgs s).

(** [_update_vg_lock_count] *)
Definition update_vg_lock_count (resource : list Z) (flags : Z) (s : locking) : locking :=
  if negb (vg_scope flags) || is_global_vg resource then s else
  let count := if type_is flags LCK_UNLOCK then lk_count s - 1 else lk_count s + 1 in
  Locking count (if type_is flags LCK_WRITE then true else if count =? 0 then false else lk_write s) (lk_signals s) (lk_hash s) (lk_vgs s).

Section locking.
(** [metadata_read_only] of the command, [_blocking_supported] and
    [check_lvm1_vg_inactive] *)
Context (metadata_read_only blocking_supported : bool) (lvm1_inactive : list Z -> bool).

(** [_lock_vol] up to the call of [lock_resource]: whether it returns before, with
    signals blocked. *)
Definition lock_vol_early (resource : list Z) (flags : Z) : bool :=
  bool_decide (resource = []) || ((is_orphan_vg resource || is_global_vg resource) && flag flags LCK_CACHE) ||
  (metadata_read_only && type_is flags LCK_WRITE && negb (is_global_vg resource)).

(** [_lock_vol] from there on, with the answer [ret]. *)
Definition lock_vol_leave (inserted : bool) (resource : list Z) (flags : Z) (ret : bool) (s : locking) : locking :=
  let s := if ret then update_vg_lock_count resource flags (if vg_scope flags && negb (type_is flags LCK_UNLOCK) then lock_vgname inserted resource s else s) else s in
  let s := if vg_scope flags && type_is flags LCK_UNLOCK then
             let s := unlock_vgname resource s in if ret then s else update_vg_lock_count resource flags s
           else s in
  unblock_signals s.

(** [_lock_vol]; without the flag LCK_PRE_MEMLOCK of cluster locking memory is not
    locked. *)
Definition lock_vol_ (inserted : bool) (resource : list Z) (flags : Z) (ret : bool) (s : locking) : bool * locking :=
  let s := block_signals s in
  if lock_vol_early resource flags then (false, s) else (ret, lock_vol_leave inserted resource flags ret s).

(** [lock_vol] up to the call of [_lock_vol]: the resource and the flags. *)
Definition lock_vol_enter (vol : list Z) (flags : Z) (s : locking) : option (list Z * Z) :=
  if Z.land flags LCK_SCOPE_MASK =? LCK_VG then
    let flags := if blocking_supported then flags else Z.lor flags LCK_NONBLOCK in
    let vol := if is_orphan_vg vol then VG_ORPHANS else vol in
    if negb (type_is flags LCK_UNLOCK) && negb (flag flags LCK_CACHE) && negb (verify_lock_order s vol) then None
    else if negb (lvm1_inactive vol) then None
    else Some (take 257 vol, flags)
  else Some (take 257 vol, Z.lor flags LCK_NONBLOCK).

Definition unlock_flags (flags : Z) : Z := Z.lor (Z.ldiff flags LCK_TYPE_MASK) LCK_UNLOCK.

(** [lock_vol], with the answers to its calls of [lock_resource]. *)
Definition lock_vol (inserted : bool) (vol : list Z) (flags : Z) (ret1 ret2 : bool) (s : locking) : bool * locking :=
  if flags =? LCK_NULL then (true, s) else
  match lock_vol_enter vol flags s with
  | None => (false, s)
  | Some (resource, flags) =>
      let '(r, s) := lock_vol_ inserted resource flags ret1 s in
      if negb r then (false, s) else
      if type_is flags LCK_NULL || type_is flags LCK_UNLOCK || flag flags (Z.lor LCK_CACHE LCK_HOLD) then (true, s)
      else lock_vol_ inserted resource (unlock_flags flags) ret2 s
  end.

(** ** A system of processes *)

(** Where a process that asks for a lock is with the auxiliary lock of the resource
    ([_do_write_priority_flock]): before it, it has it, or it has given it back. *)
Inductive aux_state := AuxNot | AuxHas | AuxPast.

(** A process, the lock files that it has locked, the request that it waits for, and
    its auxiliary lock. *)
Record lproc := LProc { lp_lk : locking; lp_ops : list (list Z * lock_op); lp_pending : option (list Z * Z); lp_aux : aux_state }.

(** The first lock of a file is released. *)
Fixpoint remove_op (resource : list Z) (ops : list (list Z * lock_op)) : list (list Z * lock_op) :=
  match ops with
  | [] => []
  | x :: ops => if bool_decide (x.1 = resource) then ops else x :: remove_op resource ops
  end.

Definition lock_type (flags : Z) : option lock_op := if type_is flags LCK_READ then Some LOCK_SH else if type_is flags LCK_WRITE then Some LOCK_EX else None.

(** No lock file of the resource is locked in a way that conflicts. *)
Definition available (ps : gmap nat lproc) (resource : list Z) (op : lock_op) : Prop :=
  forall q pr op', ps !! q = Some pr -> (resource, op') ∈ lp_ops pr -> op = LOCK_SH /\ op' = LOCK_SH.

(** No process has the auxiliary lock of the resource. *)
Definition aux_free (ps : gmap nat lproc) (resource : list Z) : Prop :=
  forall q pr flags, ps !! q = Some pr -> lp_pending pr = Some (resource, flags) -> is_Some (lock_type flags) -> lp_aux pr <> AuxHas.

(** [_prioritise_write_locks] *)
Context (prio : bool).

(** The call of [_do_flock] for the lock file itself: a writer keeps the auxiliary lock
    during it, a reader has given it back. *)
Definition at_flock (op : lock_op) (aux : aux_state) : bool :=
  negb prio || match op, aux with LOCK_EX, AuxHas | LOCK_SH, AuxPast => true | _, _ => false end.

(** A process asks for a VG, with a name of at most 127 bytes, to be locked or unlocked
    and waits; it is refused before it waits; it takes the auxiliary lock and, as a reader,
    gives it back; it is granted the lock, which it gives back unless it is to be held; it
    is refused the lock; it unlocks; it ends.  Memory lasts for the names of the locks. *)
Inductive lstep : gmap nat lproc -> gmap nat lproc -> Prop :=
| lstep_ask ps p lk ops vol flags resource flags' :
    ps !! p = Some (LProc lk ops None AuxNot) -> vg_scope flags = true -> (length vol < 128)%nat -> lock_vol_enter vol flags lk = Some (resource, flags') -> lock_vol_early resource flags' = false ->
    is_Some (lock_type flags') \/ type_is flags' LCK_UNLOCK = true ->
    lstep ps (<[p := LProc (block_signals lk) ops (Some (resource, flags')) AuxNot]> ps)
| lstep_early ps p lk ops vol flags resource flags' :
    ps !! p = Some (LProc lk ops None AuxNot) -> vg_scope flags = true -> lock_vol_enter vol flags lk = Some (resource, flags') -> lock_vol_early resource flags' = true ->
    lstep ps (<[p := LProc (block_signals lk) ops None AuxNot]> ps)
| lstep_aux ps p lk ops resource flags op :
    ps !! p = Some (LProc lk ops (Some (resource, flags)) AuxNot) -> prio = true -> lock_type flags = Some op -> aux_free ps resource ->
    lstep ps (<[p := LProc lk ops (Some (resource, flags)) AuxHas]> ps)
| lstep_aux_undo ps p lk ops resource flags :
    ps !! p = Some (LProc lk ops (Some (resource, flags)) AuxHas) -> lock_type flags = Some LOCK_SH ->
    lstep ps (<[p := LProc lk ops (Some (resource, flags)) AuxPast]> ps)
| lstep_grant ps p lk ops resource flags op aux :
    ps !! p = Some (LProc lk ops (Some (resource, flags)) aux) -> lock_type flags = Some op -> at_flock op aux = true -> available ps resource op ->
    lstep ps (<[p := LProc (lock_vol_leave true resource flags true lk) (ops ++ [(resource, op)]) (if flag flags LCK_HOLD then None else Some (resource, unlock_flags flags)) AuxNot]> ps)
| lstep_refuse ps p lk ops resource flags op aux :
    ps !! p = Some (LProc lk ops (Some (resource, flags)) aux) -> lock_type flags = Some op ->
    lstep ps (<[p := LProc (lock_vol_leave true resource flags false lk) ops None AuxNot]> ps)
| lstep_unlock ps p lk ops resource flags aux :
    ps !! p = Some (LProc lk ops (Some (resource, flags)) aux) -> type_is flags LCK_UNLOCK = true ->
    lstep ps (<[p := LProc (lock_vol_leave true resource flags (bool_decide (resource ∈ ops.*1)) lk) (remove_op resource ops) None AuxNot]> ps)
| lstep_end ps p : lstep ps (delete p ps).

(** A process that waits for a lock can go on: the auxiliary lock is free, or it is a
    reader's to give back, or the lock itself can be granted. *)
Definition goes_on (ps : gmap nat lproc) (pr : lproc) : Prop :=
  exists r flags op, lp_pending pr = Some (r, flags) /\ lock_type flags = Some op /\
    ((prio = true /\ lp_aux pr = AuxNot /\ aux_free ps r) \/ (lp_aux pr = AuxHas /\ op = LOCK_SH) \/
     (at_flock op (lp_aux pr) = true /\ available ps r op)).

Definition lk_init : locking := Locking 0 false false [] 0.
Definition linitial (ps : gmap nat lproc) : Prop := map_Forall (fun _ pr => pr = LProc lk_init [] None AuxNot) ps.

(** No process asks for the global lock while it has it. *)
Definition once_global (ps : gmap nat lproc) : Prop :=
  forall p pr flags, ps !! p = Some pr -> lp_pending pr = Some (VG_GLOBAL, flags) -> is_Some (lock_type flags) -> VG_GLOBAL ∉ (lp_ops pr).*1.

(** What happens when no process does that. *)
Inductive lreachable : gmap nat lproc -> Prop :=
| lreach_init ps : linitial ps -> lreachable ps
| lreach_step ps ps' : lreachable ps -> lstep ps ps' -> once_global ps' -> lreachable ps'.

End locking.

(** ** The order is one *)

Lemma str_lt_irrefl s : str_lt s s = false.
Proof. induction s as [|a s IH]; cbn; [done|]. by rewrite Z.ltb_irrefl, Z.eqb_refl, IH. Qed.

Lemma str_lt_trans s : forall t u, str_lt s t = true -> str_lt t u = true -> str_lt s u = true.
Proof.
  induction s as [|a s IH]; intros [|b t] [|c u]; cbn; try done. rewrite !orb_true_iff, !andb_true_iff, !Z.ltb_lt, !Z.eqb_eq. intros [H|[-> H]] [G|[-> G]]; [left; lia|by left|by left|right]. split; [done|by apply (IH t)].
Qed.

Lemma str_lt_total s : forall t, s <> t -> str_lt s t = true \/ str_lt t s = true.
Proof.
  induction s as [|a s IH]; intros [|b t] Hne; cbn; [done|by left|by right|]. rewrite !orb_true_iff, !andb_true_iff, !Z.ltb_lt, !Z.eqb_eq. destruct (Z.lt_total a b) as [?|[-> |?]]; [by left; left| |by right; left].
  destruct (IH t) as [H|H]; [congruence|left; by right|right; by right].
Qed.

#[global] Instance order_trans : Transitive (fun a b => vgname_order_correct a b = true).
Proof.
  intros a b c. unfold vgname_order_correct. destruct (is_global_vg a); [done|]. destruct (is_global_vg b); [done|]. destruct (is_orphan_vg a); [done|]. destruct (is_orphan_vg b), (is_global_vg c), (is_orphan_vg c); try done. apply str_lt_trans.
Qed.

Lemma order_irrefl a : vgname_order_correct a a = true -> a = VG_GLOBAL.
Proof. unfold vgname_order_correct, is_global_vg. case_bool_decide; [done|]. destruct (is_orphan_vg a); [done|]. by rewrite str_lt_irrefl. Qed.

Definition comes_after (a b : list Z) : Prop := vgname_order_correct b a = true.
#[global] Instance comes_after_trans : Transitive comes_after.
Proof. intros a b c H G. by apply (order_trans c b a). Qed.
#[global] Instance comes_after_dec a b : Decision (comes_after a b).
Proof. unfold comes_after. apply _. Defined.

(** Names of VGs are in one order or in the other. *)
Lemma order_total a b : a <> b -> is_orphan_vg a && is_orphan_vg b = false -> vgname_order_correct a b = true \/ vgname_order_correct b a = true.
Proof.
  intros Hne Ho. unfold vgname_order_correct. destruct (is_global_vg a); [by left|]. destruct (is_global_vg b); [by right|]. destruct (is_orphan_vg a), (is_orphan_vg b); [done|by right|by left|by apply str_lt_total].
Qed.

(** ** What processes keep *)

Lemma unlock_flags_type flags : Z.land (unlock_flags flags) LCK_TYPE_MASK = LCK_UNLOCK.
Proof.
  unfold unlock_flags, LCK_TYPE_MASK, LCK_UNLOCK. apply Z.bits_inj'. intros n Hn. rewrite Z.land_spec, Z.lor_spec, Z.ldiff_spec.
  assert (n = 0 \/ n = 1 \/ n = 2 \/ 3 <= n) as [-> |[-> |[-> |H]]] by lia; [by rewrite andb_false_r..|]. rewrite !(Z.bits_above_log2 7), !(Z.bits_above_log2 6) by (cbn; lia). by rewrite andb_false_r.
Qed.

Lemma unlock_flags_bit flags n : 3 <= n -> Z.land (unlock_flags flags) (2 ^ n) = Z.land flags (2 ^ n).
Proof.
  intros Hn. unfold unlock_flags, LCK_TYPE_MASK, LCK_UNLOCK. apply Z.bits_inj'. intros m Hm. rewrite !Z.land_spec, Z.lor_spec, Z.ldiff_spec. destruct (decide (m = n)) as [-> |Hne].
  - by rewrite !(Z.bits_above_log2 7), !(Z.bits_above_log2 6), orb_false_r, andb_true_r by (cbn; lia).
  - by rewrite Z.pow2_bits_false, !andb_false_r by done.
Qed.

Lemma unlock_flags_scope flags : vg_scope (unlock_flags flags) = vg_scope flags.
Proof. unfold vg_scope, flag. change LCK_SCOPE_MASK with (2 ^ 3). change LCK_CACHE with (2 ^ 8). by rewrite !unlock_flags_bit by lia. Qed.

Lemma nonblock_scope flags : vg_scope (Z.lor flags LCK_NONBLOCK) = vg_scope flags.
Proof. unfold vg_scope, flag. by rewrite !Z.land_lor_distr_l, !Z.lor_0_r. Qed.

Lemma nonblock_type flags type : type_is (Z.lor flags LCK_NONBLOCK) type = type_is flags type.
Proof. unfold type_is. by rewrite Z.land_lor_distr_l, Z.lor_0_r. Qed.

Lemma lock_type_not_unlock flags op : lock_type flags = Some op -> type_is flags LCK_UNLOCK = false.
Proof. unfold lock_type, type_is. destruct (Z.eqb_spec (Z.land flags LCK_TYPE_MASK) LCK_READ) as [-> |_]; [done|]. by destruct (Z.eqb_spec (Z.land flags LCK_TYPE_MASK) LCK_WRITE) as [-> |_]. Qed.

Lemma unblock_hash s : lk_hash (unblock_signals s) = lk_hash s.
Proof. unfold unblock_signals. by destruct (_ || _). Qed.

Lemma update_hash resource flags s : lk_hash (update_vg_lock_count resource flags s) = lk_hash s.
Proof. unfold update_vg_lock_count. by destruct (_ || _). Qed.

Lemma granted_hash resource flags s : vg_scope flags = true -> type_is flags LCK_UNLOCK = false -> resource ∉ lk_hash s -> lk_hash (lock_vol_leave true resource flags true s) = lk_hash s ++ [resource].
Proof. intros Hv Ht Hr. unfold lock_vol_leave. rewrite Hv, Ht. cbn [andb negb]. rewrite unblock_hash, update_hash. cbn. by rewrite bool_decide_eq_false_2. Qed.

Lemma refused_hash i resource flags s : type_is flags LCK_UNLOCK = false -> lk_hash (lock_vol_leave i resource flags false s) = lk_hash s.
Proof. intros Ht. unfold lock_vol_leave. rewrite Ht, andb_false_r. apply unblock_hash. Qed.

Lemma unlocked_hash i resource flags ret s : vg_scope flags = true -> type_is flags LCK_UNLOCK = true -> lk_hash (lock_vol_leave i resource flags ret s) = filter (fun n => n <> resource) (lk_hash s).
Proof. intros Hv Ht. unfold lock_vol_leave. rewrite Hv, Ht. cbn [andb negb]. rewrite unblock_hash. destruct ret; cbn; by rewrite update_hash. Qed.

(** Without memory for its name, a VG that is locked is left out of the check of the
    order. *)
Lemma forgotten_hash resource flags s : vg_scope flags = true -> type_is flags LCK_UNLOCK = false -> resource ∉ lk_hash s ->
  forall vgname, verify_lock_order (lock_vol_leave false resource flags true s) vgname = verify_lock_order s vgname.
Proof. intros Hv Ht Hr vgname. unfold verify_lock_order, lock_vol_leave. rewrite Hv, Ht. cbn [andb negb]. rewrite unblock_hash, update_hash. cbn. by rewrite bool_decide_eq_false_2. Qed.

(** The process has the auxiliary lock of [x]. *)
Definition has_aux (x : list Z) (pr : lproc) : bool :=
  match lp_pending pr, lp_aux pr with Some (r, flags), AuxHas => bool_decide (r = x) && bool_decide (is_Some (lock_type flags)) | _, _ => false end.

Lemma has_aux_spec x pr : has_aux x pr = true <-> exists flags op, lp_pending pr = Some (x, flags) /\ lock_type flags = Some op /\ lp_aux pr = AuxHas.
Proof.
  unfold has_aux. destruct (lp_pending pr) as [[r flags]|]; [|naive_solver]. destruct (lp_aux pr); [naive_solver| |naive_solver].
  rewrite andb_true_iff, !bool_decide_eq_true. unfold is_Some. naive_solver.
Qed.

Section processes.
Context (metadata_read_only blocking_supported : bool) (lvm1_inactive : list Z -> bool) (prio : bool).

(** What passes the checks is in order. *)
Lemma enter_ordered vol flags s resource flags' :
  vg_scope flags = true -> (length vol < 128)%nat -> lock_vol_enter blocking_supported lvm1_inactive vol flags s = Some (resource, flags') ->
  vg_scope flags' = true /\ (type_is flags' LCK_UNLOCK = false -> Forall (fun h => vgname_order_correct h resource = true) (lk_hash s)).
Proof.
  intros Hv Hl. unfold lock_vol_enter. destruct (Z.land flags LCK_SCOPE_MASK =? LCK_VG) eqn:Es; [|unfold vg_scope in Hv; by rewrite Es in Hv].
  set (f := if blocking_supported then flags else _). assert (vg_scope f = true) as Hf by (unfold f; destruct blocking_supported; [done|by rewrite nonblock_scope]). set (v := if is_orphan_vg vol then VG_ORPHANS else vol).
  destruct (negb (type_is f LCK_UNLOCK) && _ && _) eqn:E; [done|]. destruct (negb (lvm1_inactive v)); [done|]. intros [= <- <-]. split; [done|]. intros Ht. rewrite Ht in E. unfold vg_scope in Hf. apply andb_true_iff in Hf as [_ Hf]. rewrite Hf in E. cbn in E.
  apply negb_false_iff in E. unfold verify_lock_order in E. rewrite take_ge by (unfold v; destruct (is_orphan_vg vol); cbn; lia). rewrite forallb_forall in E. apply Forall_forall. intros h Hh. apply E. by apply list_elem_of_In.
Qed.

Record lproc_ok (pr : lproc) : Prop := {
  lo_hash r : r ∈ lk_hash (lp_lk pr) <-> r ∈ (lp_ops pr).*1;
  lo_nodup : NoDup (lp_ops pr).*1;
  lo_pending r flags : lp_pending pr = Some (r, flags) ->
    vg_scope flags = true /\ (is_Some (lock_type flags) \/ type_is flags LCK_UNLOCK = true) /\ (is_Some (lock_type flags) -> Forall (fun h => vgname_order_correct h r = true) (lk_hash (lp_lk pr)));
  lo_aux : lp_aux pr = AuxPast -> exists r flags, lp_pending pr = Some (r, flags) /\ lock_type flags = Some LOCK_SH }.

Lemma remove_op_names resource ops : NoDup ops.*1 -> NoDup (remove_op resource ops).*1 /\ forall r, r ∈ (remove_op resource ops).*1 <-> r ∈ ops.*1 /\ r <> resource.
Proof.
  induction ops as [|[x o] ops IH]; cbn; [set_solver|]. intros [Hx Hn]%NoDup_cons. destruct (IH Hn) as [IH1 IH2]. case_bool_decide as E; cbn; [subst x|].
  - split; [done|]. intros r. rewrite elem_of_cons. split; [intros Hr; split; [by right|congruence]|]. intros [[-> |Hr] Hne]; done.
  - split; [apply NoDup_cons; split; [|done]; intros H; apply Hx; by apply IH2|]. intros r. rewrite !elem_of_cons, IH2. naive_solver.
Qed.

(** What a process waits for is not what it has. *)
Lemma pending_new ps p pr r flags op : once_global ps -> ps !! p = Some pr -> lproc_ok pr -> lp_pending pr = Some (r, flags) -> lock_type flags = Some op -> r ∉ lk_hash (lp_lk pr).
Proof.
  intros Hg Hp Hok Hpend Ht Hin. destruct (lo_pending _ Hok r flags Hpend) as (_ & _ & Ho). specialize (Ho (mk_is_Some _ _ Ht)). rewrite Forall_forall in Ho.
  specialize (Ho r Hin). apply order_irrefl in Ho as ->. apply (Hg p pr flags Hp Hpend (mk_is_Some _ _ Ht)). by apply (lo_hash _ Hok).
Qed.

Lemma lstep_ok ps ps' : once_global ps -> map_Forall (fun _ => lproc_ok) ps -> lstep metadata_read_only blocking_supported lvm1_inactive prio ps ps' -> map_Forall (fun _ => lproc_ok) ps'.
Proof.
  intros Hg Hps Hs. inversion Hs as [? p lk ops vol flags resource flags' Hp Hv Hlen He _ Ht|? p lk ops vol flags resource flags' Hp _ He _
    |? p lk ops resource flags op Hp _ Ht _|? p lk ops resource flags Hp Ht
    |? p lk ops resource flags op aux Hp Ht _ Ha|? p lk ops resource flags op aux Hp Ht|? p lk ops resource flags aux Hp Ht|? p]; subst;
    [(apply map_Forall_insert_2; [|done]; destruct (Hps _ _ Hp) as [H1 H2 H3 H4]; cbn in * )..|by apply map_Forall_delete].
  - destruct (enter_ordered _ _ _ _ _ Hv Hlen He) as [Hv' Ho]. split; cbn; [done|done| |done]. intros r f [= <- <-]. split; [done|]. split; [done|]. intros [op Hop]. apply Ho. by apply (lock_type_not_unlock _ op).
  - split; cbn; [done|done|done|done].
  - split; cbn; [done|done|done|done].
  - split; cbn; [done|done|done|]. intros _. by eexists _, _.
  - destruct (H3 _ _ eq_refl) as (Hv & _ & Ho). pose proof (pending_new ps p _ resource flags op Hg Hp (Hps _ _ Hp) eq_refl Ht) as Hn. cbn in Hn. pose proof (lock_type_not_unlock _ _ Ht) as Hu. split; cbn; [| | |done].
    + intros r. rewrite granted_hash, fmap_app, !elem_of_app, H1 by done. done.
    + rewrite fmap_app. apply NoDup_app. split; [done|]. split; [|apply NoDup_singleton]. intros x Hx Hy. apply list_elem_of_singleton in Hy as ->. apply Hn, H1, Hx.
    + intros r f. destruct (flag flags LCK_HOLD); [done|]. intros [= <- <-]. rewrite unlock_flags_scope. split; [done|]. unfold lock_type, type_is. rewrite unlock_flags_type. split; [by right|]. by intros [op' ?].
  - split; cbn; [|done|done|done]. intros r. rewrite (refused_hash _ _ _ _ (lock_type_not_unlock _ _ Ht)). apply H1.
  - destruct (H3 _ _ eq_refl) as (Hv & _ & _). destruct (remove_op_names resource ops H2) as [G1 G2]. split; cbn; [|done|done|done]. intros r. rewrite unlocked_hash, list_elem_of_filter, H1, G2 by done. tauto.
Qed.

Lemma lreachable_ok ps : lreachable metadata_read_only blocking_supported lvm1_inactive prio ps -> once_global ps /\ map_Forall (fun _ => lproc_ok) ps.
Proof.
  induction 1 as [ps Hi|ps ps' _ [IH1 IH2] Hs Hg].
  - split; [intros p pr flags Hp; rewrite (Hi p pr Hp); done|]. intros p pr Hp. rewrite (Hi p pr Hp). split; cbn; [done|apply NoDup_nil_2|done|done].
  - split; [done|]. by apply (lstep_ok ps).
Qed.

(** The resources that processes wait for. *)
Definition wanted (ps : gmap nat lproc) : gset (list Z) :=
  list_to_set (omap (fun x : nat * lproc => match lp_pending x.2 with Some (r, flags) => (fun _ => r) <$> lock_type flags | None => None end) (map_to_list ps)).

Lemma elem_of_wanted ps r : r ∈ wanted ps <-> exists p pr flags op, ps !! p = Some pr /\ lp_pending pr = Some (r, flags) /\ lock_type flags = Some op.
Proof.
  unfold wanted. rewrite elem_of_list_to_set, list_elem_of_omap. split.
  - intros ([p pr] & Hin & H). apply elem_of_map_to_list in Hin. cbn in H. destruct (lp_pending pr) as [[r' flags]|] eqn:E; [|done]. destruct (lock_type flags) as [op|] eqn:Et; [|done]. injection H as ->. by exists p, pr, flags, op.
  - intros (p & pr & flags & op & Hp & E & Et). exists (p, pr). split; [by apply elem_of_map_to_list|]. cbn. by rewrite E, Et.
Qed.

(** A lock that is not available is held by a process that waits for nothing, or for
    something that comes later. *)
Lemma not_available ps r op : ~ available ps r op -> exists q qr op', ps !! q = Some qr /\ (r, op') ∈ lp_ops qr.
Proof.
  intros Hn. destruct (decide (map_Exists (fun _ pr => r ∈ (lp_ops pr).*1) ps)) as [(q & qr & Hq & Hin)|H].
  - apply list_elem_of_fmap in Hin as ([r' op'] & -> & Hin). by exists q, qr, op'.
  - exfalso. apply Hn. intros q qr op' Hq Hin. exfalso. apply H. exists q, qr. split; [done|]. apply list_elem_of_fmap. by exists (r, op').
Qed.

(** Who asks for a lock is at the call for the lock file, or the auxiliary lock can be
    taken or given back, or another one that asks for the lock is at that call. *)
Lemma at_flock_or ps q qr x f o :
  map_Forall (fun _ => lproc_ok) ps -> ps !! q = Some qr -> lp_pending qr = Some (x, f) -> lock_type f = Some o ->
  (exists q' qr', ps !! q' = Some qr' /\ goes_on prio ps qr') \/
  exists q' qr' f' o', ps !! q' = Some qr' /\ lp_pending qr' = Some (x, f') /\ lock_type f' = Some o' /\ at_flock prio o' (lp_aux qr') = true.
Proof.
  intros Hok Hq Hqp Hqt. destruct prio eqn:Epr; [|right; by exists q, qr, f, o].
  assert (forall q' qr', ps !! q' = Some qr' -> has_aux x qr' = true -> (exists q' qr', ps !! q' = Some qr' /\ goes_on true ps qr') \/
    exists q' qr' f' o', ps !! q' = Some qr' /\ lp_pending qr' = Some (x, f') /\ lock_type f' = Some o' /\ at_flock true o' (lp_aux qr') = true) as Hhas.
  { intros q' qr' Hq' (f' & o' & Hp' & Ht' & Ha)%has_aux_spec. destruct o'; [left; exists q', qr'; split; [done|]; exists x, f', LOCK_SH; by eauto 6|].
    right. exists q', qr', f', LOCK_EX. by rewrite Ha. }
  destruct (lp_aux qr) eqn:Ea.
  - destruct (decide (map_Exists (fun _ pr => has_aux x pr = true) ps)) as [(q' & qr' & Hq' & Ha)|Hf]; [by apply (Hhas q' qr')|].
    left. exists q, qr. split; [done|]. exists x, f, o. split; [done|]. split; [done|]. left. split; [done|]. split; [done|].
    intros q' qr' f' Hq' Hp' [o' Ht'] Ha. apply Hf. exists q', qr'. split; [done|]. apply has_aux_spec. by exists f', o'.
  - apply (Hhas q qr Hq). apply has_aux_spec. by exists f, o.
  - right. exists q, qr, f, o. destruct (lo_aux _ (Hok q qr Hq) Ea) as (r' & f' & E1 & E2). rewrite Hqp in E1. injection E1 as <- <-. rewrite Hqt in E2. injection E2 as ->. by rewrite Ea.
Qed.

(** C5: processes never wait for each other in a circle: when a process waits for a lock,
    with or without the auxiliary locks that give writers priority, then some process can
    go on: it waits for a lock and can take the next step towards it, or it asks to
    unlock, or it has locks and waits for nothing.  No process asks for the global lock
    while it has it, and memory lasts for the names of the locked VGs. *)
Theorem locks_do_not_deadlock ps p pr r flags op :
  lreachable metadata_read_only blocking_supported lvm1_inactive prio ps -> ps !! p = Some pr -> lp_pending pr = Some (r, flags) -> lock_type flags = Some op ->
  exists q qr, ps !! q = Some qr /\
    (goes_on prio ps qr \/
     (exists r' flags', lp_pending qr = Some (r', flags') /\ type_is flags' LCK_UNLOCK = true) \/ (lp_pending qr = None /\ lp_ops qr <> [])).
Proof.
  intros Hr Hp Hpend Ht. destruct (lreachable_ok ps Hr) as [Hg Hok].
  destruct (minimal_exists_elem_of comes_after (wanted ps)) as (x & Hx & Hmax).
  { intros E. assert (r ∈ wanted ps) as Hin by (apply elem_of_wanted; by exists p, pr, flags, op). set_solver. }
  apply elem_of_wanted in Hx as (q0 & qr0 & f0 & o0 & Hq0 & Hqp0 & Hqt0).
  destruct (at_flock_or ps q0 qr0 x f0 o0 Hok Hq0 Hqp0 Hqt0) as [(q & qr & Hq & Hgo)|(q & qr & f & o & Hq & Hqp & Hqt & Hat)]; [exists q, qr; by eauto|].
  destruct (decide (map_Forall (fun _ pr => Forall (fun y => y.1 = x -> o = LOCK_SH /\ y.2 = LOCK_SH) (lp_ops pr)) ps)) as [Ha|Hna].
  { exists q, qr. split; [done|]. left. exists x, f, o. split; [done|]. split; [done|]. right; right. split; [done|]. intros q' pr' op' Hq' Hin. specialize (Ha q' pr' Hq'). cbn in Ha. rewrite Forall_forall in Ha. by apply (Ha _ Hin). }
  destruct (not_available ps x o) as (h & hr & op' & Hh & Hin).
  { intros Ha. apply Hna. intros q' pr' Hq'. cbn. apply Forall_forall. intros [y oy] Hy E. cbn in *. subst y. by apply (Ha q' pr'). }
  exists h, hr. split; [done|]. destruct (lp_pending hr) as [[y fy]|] eqn:Ey; [|right; right; split; [done|by intros E; rewrite E in Hin; apply not_elem_of_nil in Hin]].
  destruct (lo_pending _ (Hok h hr Hh) y fy Ey) as (_ & Hty & Ho). destruct Hty as [[oy Hty]|Hu]; [|right; left; by exists y, fy]. exfalso.
  assert (x ∈ lk_hash (lp_lk hr)) as Hxh by (apply (lo_hash _ (Hok h hr Hh)), list_elem_of_fmap; by exists (x, op')). specialize (Ho (mk_is_Some _ _ Hty)). rewrite Forall_forall in Ho. specialize (Ho x Hxh). cbn in Ho.
  assert (vgname_order_correct y x = true) as Hyx by (apply (Hmax y); [apply elem_of_wanted; by exists h, hr, fy, oy|done]).
  pose proof (order_irrefl _ (order_trans x y x Ho Hyx)) as ->. pose proof (order_irrefl _ (order_trans y VG_GLOBAL y Hyx Ho)) as ->. apply (Hg h hr fy Hh Ey (mk_is_Some _ _ Hty)). by apply (lo_hash _ (Hok h hr Hh)).
Qed.

End processes.

(** ** An example: two processes with a VG each, and the first waits for the second *)

Definition LCK_VG_WRITE : Z := Z.lor LCK_VG (Z.lor LCK_WRITE LCK_HOLD).

Definition not_global (pr : lproc) : bool := match lp_pending pr with Some (r, _) => negb (is_global_vg r) | None => true end.

Lemma once_global_check ps : bool_decide (map_Forall (fun _ pr => not_global pr = true) ps) = true -> once_global ps.
Proof. intros H%bool_decide_eq_true_1 p pr flags Hp Hpend. specialize (H p pr Hp). unfold not_global in H. cbn in H. by rewrite Hpend in H. Qed.

Lemma available_check ps r op : bool_decide (map_Forall (fun _ pr => r ∉ (lp_ops pr).*1) ps) = true -> available ps r op.
Proof. intros H%bool_decide_eq_true_1 q pr op' Hq Hin. destruct (H q pr Hq). apply list_elem_of_fmap. by exists (r, op'). Qed.

Definition vg_a : list Z := bytes "vga".
Definition vg_b : list Z := bytes "vgb".

(** A process that asks for a VG for writing and takes its auxiliary lock, and one that
    is granted the VG. *)
Definition ask (p : nat) (vg : list Z) (ps : gmap nat lproc) : gmap nat lproc :=
  match ps !! p with Some pr => <[p := LProc (block_signals (lp_lk pr)) (lp_ops pr) (Some (vg, LCK_VG_WRITE)) AuxHas]> ps | None => ps end.
Definition grant (p : nat) (vg : list Z) (ps : gmap nat lproc) : gmap nat lproc :=
  match ps !! p with Some pr => <[p := LProc (lock_vol_leave true vg LCK_VG_WRITE true (lp_lk pr)) (lp_ops pr ++ [(vg, LOCK_EX)]) None AuxNot]> ps | None => ps end.

Definition two_vgs : gmap nat lproc := {[0%nat := LProc lk_init [] None AuxNot; 1%nat := LProc lk_init [] None AuxNot]}.
Definition one_waits : gmap nat lproc := ask 0 vg_b (grant 1 vg_b (ask 1 vg_b (grant 0 vg_a (ask 0 vg_a two_vgs)))).

Lemma aux_free_check ps r : bool_decide (map_Forall (fun _ pr => has_aux r pr = false) ps) = true -> aux_free ps r.
Proof.
  intros H%bool_decide_eq_true_1 q pr flags Hq Hp [op Ht] Ha. specialize (H q pr Hq). cbn in H. assert (has_aux r pr = true) as E by (apply has_aux_spec; by exists flags, op). by rewrite E in H.
Qed.

Lemma ask_reachable p vg ps lk ops : lreachable false true (fun _ => true) true ps -> ps !! p = Some (LProc lk ops None AuxNot) -> lock_vol_enter true (fun _ => true) vg LCK_VG_WRITE lk = Some (vg, LCK_VG_WRITE) -> (length vg < 128)%nat ->
  lock_vol_early false vg LCK_VG_WRITE = false -> vg <> VG_GLOBAL -> aux_free ps vg -> once_global (ask p vg ps) -> lreachable false true (fun _ => true) true (ask p vg ps).
Proof.
  intros Hr Hp He Hl Hearly Hv Ha Hg. set (ps1 := <[p := LProc (block_signals lk) ops (Some (vg, LCK_VG_WRITE)) AuxNot]> ps).
  assert (ask p vg ps = <[p := LProc (block_signals lk) ops (Some (vg, LCK_VG_WRITE)) AuxHas]> ps1) as E by (unfold ask, ps1; by rewrite Hp, insert_insert_eq).
  assert (forall q pr, ps1 !! q = Some pr -> q <> p -> ps !! q = Some pr) as Hne by (intros q pr Hq ?; unfold ps1 in Hq; by rewrite lookup_insert_ne in Hq).
  assert (ps1 !! p = Some (LProc (block_signals lk) ops (Some (vg, LCK_VG_WRITE)) AuxNot)) as Hp1 by apply lookup_insert_eq.
  apply (lreach_step _ _ _ _ ps1); [|rewrite E; apply (lstep_aux _ _ _ _ ps1 p _ _ _ _ LOCK_EX); [done..|]|done].
  - apply (lreach_step _ _ _ _ ps); [done|apply (lstep_ask _ _ _ _ ps p lk ops vg LCK_VG_WRITE); [done..|left; by eexists]|].
    intros q pr flags Hq Hpend Ht. destruct (decide (q = p)) as [-> |Hqp]; [rewrite Hp1 in Hq; injection Hq as <-; injection Hpend as Hvg _; by destruct Hv|].
    apply (Hg q pr flags); [|done..]. rewrite E, lookup_insert_ne by done. done.
  - intros q pr flags Hq Hpend Ht. destruct (decide (q = p)) as [-> |Hqp]; [rewrite Hp1 in Hq; by injection Hq as <-|]. by apply (Ha q pr flags); [apply Hne|..].
Qed.

Lemma grant_reachable p vg ps lk ops : lreachable false true (fun _ => true) true ps -> ps !! p = Some (LProc lk ops (Some (vg, LCK_VG_WRITE)) AuxHas) -> available ps vg LOCK_EX -> once_global (grant p vg ps) ->
  lreachable false true (fun _ => true) true (grant p vg ps).
Proof. intros Hr Hp Ha Hg. apply (lreach_step _ _ _ _ ps); [done| |done]. unfold grant. rewrite Hp. by apply (lstep_grant _ _ _ _ ps p lk ops vg LCK_VG_WRITE LOCK_EX AuxHas). Qed.

Lemma one_waits_reachable : lreachable false true (fun _ => true) true one_waits.
Proof.
  unfold one_waits. eapply ask_reachable; [|by vm_compute|by vm_compute|cbn; lia|by vm_compute|done|apply aux_free_check; by vm_compute|apply once_global_check; by vm_compute].
  eapply grant_reachable; [|by vm_compute|apply available_check; by vm_compute|apply once_global_check; by vm_compute].
  eapply ask_reachable; [|by vm_compute|by vm_compute|cbn; lia|by vm_compute|done|apply aux_free_check; by vm_compute|apply once_global_check; by vm_compute].
  eapply grant_reachable; [|by vm_compute|apply available_check; by vm_compute|apply once_global_check; by vm_compute].
  eapply ask_reachable; [|by vm_compute|by vm_compute|cbn; lia|by vm_compute|done|apply aux_free_check; by vm_compute|apply once_global_check; by vm_compute].
  apply lreach_init. apply map_Forall_insert_2; [done|]. by apply map_Forall_singleton.
Qed.

Lemma locks_do_not_deadlock_witness : exists pr, one_waits !! 0%nat = Some pr /\ lp_pending pr = Some (vg_b, LCK_VG_WRITE) /\ exists q qr, one_waits !! q = Some qr /\
    (goes_on true one_waits qr \/
     (exists r' flags', lp_pending qr = Some (r', flags') /\ type_is flags' LCK_UNLOCK = true) \/ (lp_pending qr = None /\ lp_ops qr <> [])).
Proof.
  exists (LProc (Locking 1 true true [vg_a] 1) [(vg_a, LOCK_EX)] (Some (vg_b, LCK_VG_WRITE)) AuxHas). assert (one_waits !! 0%nat = Some (LProc (Locking 1 true true [vg_a] 1) [(vg_a, LOCK_EX)] (Some (vg_b, LCK_VG_WRITE)) AuxHas)) as E by (vm_compute; reflexivity).
  split; [exact E|]. split; [reflexivity|]. exact (locks_do_not_deadlock false true (fun _ => true) true one_waits 0 _ vg_b LCK_VG_WRITE LOCK_EX one_waits_reachable E eq_refl eq_refl).
Defined.

(** ** Single processes *)

Lemma enter_same vol flags s : vg_scope flags = true -> (length vol < 128)%nat -> is_orphan_vg vol = false -> type_is flags LCK_UNLOCK = true \/ verify_lock_order s vol = true ->
  lock_vol_enter true (fun _ => true) vol flags s = Some (vol, flags).
Proof.
  intros Hv Hl Ho Hor. unfold lock_vol_enter. rewrite Ho, take_ge by lia. unfold vg_scope in Hv. apply andb_true_iff in Hv as [-> _]. destruct Hor as [-> | ->]; [done|]. by rewrite andb_false_r.
Qed.

Lemma not_early vol flags : vg_scope flags = true -> vol <> [] -> lock_vol_early false vol flags = false.
Proof. intros Hv Hvol. unfold lock_vol_early. unfold vg_scope in Hv. apply andb_true_iff in Hv as [_ Hc]. apply negb_true_iff in Hc. by rewrite bool_decide_eq_false_2, Hc, andb_false_r by done. Qed.

Lemma unblocked s : lk_signals s = true -> lk_signals (unblock_signals s) = negb (lk_count s =? 0) /\ lk_count (unblock_signals s) = lk_count s /\ lk_vgs (unblock_signals s) = lk_vgs s.
Proof. intros Hs. unfold unblock_signals. rewrite Hs. by destruct (lk_count s =? 0). Qed.

Lemma filter_others (x : list Z) (l : list (list Z)) : x ∉ l -> filter (fun n => n <> x) l = l.
Proof. induction l as [|y l IH]; [done|]. intros [Hne Hl]%not_elem_of_cons. rewrite filter_cons_True by congruence. by rewrite IH. Qed.

(** How far a lock or an unlock changes the counts. *)
Definition count_of (vol : list Z) : Z := if is_global_vg vol then 0 else 1.

Lemma leave_counts vol flags s : vg_scope flags = true -> lk_signals s = true ->
  let s' := lock_vol_leave true vol flags true s in let d := if type_is flags LCK_UNLOCK then - count_of vol else count_of vol in
  lk_count s' = lk_count s + d /\ lk_vgs s' = lk_vgs s + d /\ lk_signals s' = negb (lk_count s + d =? 0).
Proof.
  intros Hv Hs. unfold lock_vol_leave, update_vg_lock_count, count_of. rewrite Hv. cbn [negb orb andb]. destruct (type_is flags LCK_UNLOCK), (is_global_vg vol) eqn:Eg; cbn [negb andb]; cbv zeta;
    match goal with |- context [unblock_signals ?x] => destruct (unblocked x) as (-> & -> & ->); [done|] end; cbn; rewrite ?Eg, ?Z.add_0_r, ?Z.opp_0, ?Z.add_0_r; done.
Qed.

(** A VG that is locked and unlocked leaves the names and counts as they were; signals are
    blocked as long as a VG is locked. *)
Theorem lock_unlock_vol vol s ret2 flags flags' :
  vg_scope flags = true -> flag flags (Z.lor LCK_CACHE LCK_HOLD) = true -> is_Some (lock_type flags) -> vg_scope flags' = true -> type_is flags' LCK_UNLOCK = true ->
  vol <> [] -> (length vol < 128)%nat -> is_orphan_vg vol = false -> vol ∉ lk_hash s -> verify_lock_order s vol = true ->
  exists s1 s2, lock_vol false true (fun _ => true) true vol flags true ret2 s = (true, s1) /\ lk_hash s1 = lk_hash s ++ [vol] /\ lk_signals s1 = negb (lk_count s1 =? 0) /\
    lock_vol false true (fun _ => true) true vol flags' true ret2 s1 = (true, s2) /\ lk_hash s2 = lk_hash s /\ lk_count s2 = lk_count s /\ lk_vgs s2 = lk_vgs s /\ lk_signals s2 = negb (lk_count s =? 0).
Proof.
  intros Hv Hh [op Ht] Hv' Ht' Hvol Hl Ho Hn Hok. pose proof (lock_type_not_unlock _ _ Ht) as Hu. set (s1 := lock_vol_leave true vol flags true (block_signals s)). set (s2 := lock_vol_leave true vol flags' true (block_signals s1)).
  destruct (leave_counts vol flags (block_signals s) Hv eq_refl) as (C1 & G1 & S1). destruct (leave_counts vol flags' (block_signals s1) Hv' eq_refl) as (C2 & G2 & S2). rewrite Hu in C1, G1, S1. rewrite Ht' in C2, G2, S2. fold s1 in C1, G1, S1. fold s2 in C2, G2, S2.
  cbn [block_signals lk_count lk_vgs] in *. assert (lk_hash s1 = lk_hash s ++ [vol]) as H1 by (by apply (granted_hash vol flags (block_signals s))). exists s1, s2.
  assert (forall f : Z, vg_scope f = true -> type_is f LCK_UNLOCK = true \/ is_Some (lock_type f) -> (f =? LCK_NULL) = false) as Hnull by (intros f _ Hf; destruct (Z.eqb_spec f LCK_NULL) as [-> |]; [by destruct Hf as [|[? ?]]|done]).
  split; [|split; [done|split; [by rewrite S1, C1|split; [|split; [|split; [lia|split; [lia|]]]]]]].
  - unfold lock_vol. rewrite (Hnull flags Hv (or_intror (mk_is_Some _ _ Ht))), enter_same by (done || by right). unfold lock_vol_. rewrite not_early by done. cbn [negb]. by rewrite Hh, orb_true_r.
  - unfold lock_vol. rewrite (Hnull flags' Hv' (or_introl Ht')), enter_same by (done || by left). unfold lock_vol_. rewrite not_early by done. cbn [negb]. by rewrite Ht', orb_true_r.
  - unfold s2. rewrite unlocked_hash by done. cbn [block_signals lk_hash]. rewrite H1, filter_app, filter_others, filter_cons_False by tauto. apply app_nil_r.
  - rewrite S2. do 2 f_equal. lia.
Qed.

(** A second request of a process for the global lock is in order, so that the process
    waits for itself. *)
Lemma nested_global_allowed s : lk_hash s = [VG_GLOBAL] -> verify_lock_order s VG_GLOBAL = true.
Proof. unfold verify_lock_order. by intros ->. Qed.

(** The returns of [_lock_vol] before it asks for the lock leave signals blocked although
    nothing is locked. *)
Lemma read_only_blocks_signals inserted vol lvm1_inactive : vol <> [] -> (length vol < 128)%nat -> is_orphan_vg vol = false -> is_global_vg vol = false -> lvm1_inactive vol = true ->
  lock_vol true true lvm1_inactive inserted vol LCK_VG_WRITE true true lk_init = (false, Locking 0 false true [] 0).
Proof.
  intros H1 H2 H3 H4 H5. assert (lock_vol_early true vol LCK_VG_WRITE = true) as E1 by (unfold lock_vol_early; rewrite H4; apply orb_true_r).
  assert (lock_vol_enter true lvm1_inactive vol LCK_VG_WRITE lk_init = Some (vol, LCK_VG_WRITE)) as E2 by (unfold lock_vol_enter; rewrite H3, H5, take_ge by lia; reflexivity).
  unfold lock_vol. rewrite E2. unfold lock_vol_. by rewrite E1.
Qed.
