(* ===== verification/PvMap.v ===== *)
(** * Maps of free areas (lib/metadata/pv_map.c)

    Before extents are allocated, the free areas of the PVs that may be used are listed,
    for every PV with the largest area first.  The areas are shown to be the free extents
    in the ranges asked for, so many as [pv_list_extents_free] counts. *)

From stdpp Require Import sorting.
From S2P Require Import Prelude Metadata PvManip PvSegs.

(** ** The code *)

(** [struct pv_area] and [struct pv_map]; an area is in the list of its map. *)
Record pv_area := PvArea { va_start : Z; va_count : Z; va_unreserved : Z }.
Record pv_map := PvMap { pm_pv : nat; pm_areas : list pv_area; pm_pe_count : Z }.

(** The place of an area of [count] extents. *)
Fixpoint insert_sorted (count : Z) (a : pv_area) (areas : list pv_area) : list pv_area :=
  match areas with
  | [] => [a]
  | pva :: areas => if va_count pva <? count then a :: pva :: areas else pva :: insert_sorted count a areas
  end.

(** [_insert_area] *)
Definition insert_area (a : pv_area) (reduced : bool) (m : pv_map) : pv_map :=
  PvMap (pm_pv m) (insert_sorted (if reduced then va_unreserved a else va_count a) a (pm_areas m)) (wrap32 (pm_pe_count m + va_count a)).

(** [_remove_area] of the area at the position [i]. *)
Definition remove_area (i : nat) (a : pv_area) (m : pv_map) : pv_map :=
  PvMap (pm_pv m) (delete i (pm_areas m)) (wrap32 (pm_pe_count m - va_count a)).

(** An allocation from a pool that is not one of the structures of the store. *)
Definition alloc_mem : M bool := fun s => Some (alloc_ok s, alloc_tick s).

(** [_create_single_area] *)
Definition create_single_area (start length : Z) (m : pv_map) : M (bool * pv_map) :=
  ok ← alloc_mem;
  if negb ok then mret (false, m) else mret (true, insert_area (PvArea start length length) false m).

(** The loop of [_create_alloc_areas_for_pv] over the segments of the PV. *)
Fixpoint alloc_areas_loop (segs : list nat) (pe e : Z) (m : pv_map) : M (bool * pv_map) :=
  match segs with
  | [] => mret (true, m)
  | q :: segs =>
      if e <? pe then mret (true, m) else
      g ← get (T := pv_segment) q;
      if wrap32 (peg_pe g + peg_len g - 1) <? pe then alloc_areas_loop segs pe e m else
      match peg_lvseg g with
      | Some _ => alloc_areas_loop segs (wrap32 (peg_pe g + peg_len g)) e m
      | None =>
          let area_len := if wrap32 (peg_pe g + peg_len g - 1) <=? e then wrap32 (peg_len g - wrap32 (pe - peg_pe g)) else wrap32 (e - pe + 1) in
          '(ok, m) ← create_single_area pe area_len m;
          if negb ok then mret (false, m) else alloc_areas_loop segs (wrap32 (peg_pe g + peg_len g)) e m
      end
  end.

(** [_create_alloc_areas_for_pv] *)
Definition create_alloc_areas_for_pv (m : pv_map) (start count : Z) : M (bool * pv_map) :=
  v ← get (T := physical_volume) (pm_pv m);
  let e := wrap32 (start + count - 1) in
  let e := if wrap32 (pv_pe_count v - 1) <? e then wrap32 (pv_pe_count v - 1) else e in
  alloc_areas_loop (pv_segments v) start e m.

(** [_create_all_areas_for_pv]; without ranges the whole PV is used. *)
Fixpoint all_areas_loop (m : pv_map) (pe_ranges : list pe_range) : M (bool * pv_map) :=
  match pe_ranges with
  | [] => mret (true, m)
  | aa :: pe_ranges =>
      '(ok, m) ← create_alloc_areas_for_pv m (per_start aa) (per_count aa);
      if negb ok then mret (false, m) else all_areas_loop m pe_ranges
  end.

Definition create_all_areas_for_pv (m : pv_map) (pe_ranges : option (list pe_range)) : M (bool * pv_map) :=
  match pe_ranges with
  | None => v ← get (T := physical_volume) (pm_pv m); create_alloc_areas_for_pv m 0 (pv_pe_count v)
  | Some pe_ranges => all_areas_loop m pe_ranges
  end.

(** The map of a device among the maps there are. *)
Fixpoint find_map (dev : list Z) (pvms : list pv_map) : M (option nat) :=
  match pvms with
  | [] => mret None
  | pvm2 :: pvms =>
      v ← get (T := physical_volume) (pm_pv pvm2);
      if bool_decide (pa_dev (pv_attrs_of v) = Some dev) then mret (Some O) else i ← find_map dev pvms; mret (S <$> i)
  end.

(** [_create_maps]; a PV without a device is not allowed here. *)
Fixpoint create_maps (pvs : list (nat * option (list pe_range))) (pvms : list pv_map) : M (bool * list pv_map) :=
  match pvs with
  | [] => mret (true, pvms)
  | (pv, pe_ranges) :: pvs =>
      v ← get (T := physical_volume) pv;
      if negb (flag (pv_status v) ALLOCATABLE_PV) || is_missing_pv v then create_maps pvs pvms else
      dev ← deref (pa_dev (pv_attrs_of v));
      i ← find_map dev pvms;
      '(ok, i, pvms) ← match i with
                       | Some i => mret (true, i, pvms)
                       | None => ok ← alloc_mem; mret (ok, length pvms, if ok : bool then pvms ++ [PvMap pv [] 0] else pvms)
                       end;
      if negb ok then mret (false, pvms) else
      m ← deref (pvms !! i);
      '(ok, m) ← create_all_areas_for_pv m pe_ranges;
      if negb ok then mret (false, <[i := m]> pvms) else create_maps pvs (<[i := m]> pvms)
  end.

(** [create_pv_maps] *)
Definition create_pv_maps (allocatable_pvs : list (nat * option (list pe_range))) : M (option (list pv_map)) :=
  ok ← alloc_mem;
  if negb ok then mret None else
  '(ok, pvms) ← create_maps allocatable_pvs [];
  mret (if ok : bool then Some pvms else None).

(** [consume_pv_area] of the area at the position [i]; it holds [to_go] extents. *)
Definition consume_pv_area (i : nat) (to_go : Z) (m : pv_map) : option pv_map :=
  a ← pm_areas m !! i;
  let m := remove_area i a m in
  if va_count a <? to_go then None else
  if to_go <? va_count a then
    let count := wrap32 (va_count a - to_go) in
    Some (insert_area (PvArea (wrap32 (va_start a + to_go)) count count) false m)
  else Some m.

(** [reinsert_changed_pv_area] *)
Definition reinsert_changed_pv_area (i : nat) (m : pv_map) : option pv_map :=
  a ← pm_areas m !! i;
  Some (insert_area a true (remove_area i a m)).

(** [pv_maps_size] *)
Definition pv_maps_size (pvms : list pv_map) : Z := foldl (fun pe_count pvm => wrap32 (pe_count + pm_pe_count pvm)) 0 pvms.

(** ** Sorted areas *)

Definition larger (a b : pv_area) : Prop := va_count b <= va_count a.
Definition total (areas : list pv_area) : Z := zsum (va_count <$> areas).

(** The largest area is the first, and the counts are right. *)
Record map_ok (m : pv_map) : Prop := {
  mo_sorted : StronglySorted larger (pm_areas m);
  mo_pos : Forall (fun a => 0 < va_count a /\ 0 <= va_start a /\ va_start a + va_count a < 2 ^ 32 /\ va_unreserved a = va_count a) (pm_areas m);
  mo_count : pm_pe_count m = wrap32 (total (pm_areas m)) }.

Lemma insert_sorted_perm count a areas : insert_sorted count a areas ≡ₚ a :: areas.
Proof. induction areas as [|x areas IH]; cbn; [done|]. destruct (va_count x <? count); [done|]. rewrite IH. apply Permutation_swap. Qed.

Lemma insert_sorted_ok a areas : StronglySorted larger areas -> StronglySorted larger (insert_sorted (va_count a) a areas).
Proof.
  induction areas as [|x areas IH]; intros Hs; cbn; [repeat constructor|]. apply StronglySorted_inv in Hs as [Hs Hx]. destruct (Z.ltb_spec (va_count x) (va_count a)).
  - constructor; [by constructor|]. constructor; [unfold larger; lia|]. eapply Forall_impl; [exact Hx|]. unfold larger. intros y Hy. lia.
  - constructor; [by apply IH|]. rewrite insert_sorted_perm. constructor; [done|done].
Qed.

#[global] Instance total_perm : Proper ((≡ₚ) ==> eq) total.
Proof. intros l k. unfold total. induction 1; rewrite ?fmap_cons, ?zsum_cons; lia. Qed.

Lemma total_cons a l : total (a :: l) = va_count a + total l.
Proof. done. Qed.

Lemma insert_area_ok start count m : map_ok m -> 0 < count -> 0 <= start -> start + count < 2 ^ 32 -> map_ok (insert_area (PvArea start count count) false m) /\ pm_areas (insert_area (PvArea start count count) false m) ≡ₚ PvArea start count count :: pm_areas m.
Proof.
  intros [H1 H2 H3] Hc Hs He. split; [|apply insert_sorted_perm]. split; cbn [insert_area pm_areas pm_pe_count].
  - by apply (insert_sorted_ok (PvArea start count count)).
  - rewrite insert_sorted_perm. by constructor.
  - rewrite H3, wrap32_add_l. f_equal. rewrite insert_sorted_perm, total_cons. cbn. lia.
Qed.

Lemma total_app l k : total (l ++ k) = total l + total k.
Proof. unfold total. by rewrite fmap_app, zsum_app. Qed.

(** ** Free areas *)

(** The part of a free segment in a range. *)
Definition area_in (per : pe_range) (g : pv_segment) : option pv_area :=
  let lo := Z.max (peg_pe g) (per_start per) in
  let hi := Z.min (peg_pe g + peg_len g) (per_start per + per_count per) in
  match peg_lvseg g with
  | Some _ => None
  | None => if lo <? hi then Some (PvArea lo (hi - lo) (hi - lo)) else None
  end.

Definition areas_in (per : pe_range) (l : list pv_segment) : list pv_area := omap (area_in per) l.

Definition in_area (x : Z) (a : pv_area) : Prop := va_start a <= x < va_start a + va_count a.
Definition in_pe_range (x : Z) (per : pe_range) : Prop := per_start per <= x < per_start per + per_count per.

Lemma areas_in_cons per g l : areas_in per (g :: l) = match area_in per g with Some a => a :: areas_in per l | None => areas_in per l end.
Proof. done. Qed.

(** So many extents as the free segments have in the range. *)
Lemma areas_in_total per lo l hi : covers lo l hi -> 0 <= lo -> hi < 2 ^ 32 -> range_ok per -> total (areas_in per l) = zsum (map (free_overlap per) l).
Proof.
  intros Hc Hlo Hhi (R1 & R2 & R3). revert lo Hc Hlo. induction l as [|g l IH]; intros lo Hc Hlo; [done|]. cbn [covers] in Hc. destruct Hc as (Hpe & Hlen & Hc). pose proof (covers_le _ _ _ Hc).
  cbn [map]. rewrite areas_in_cons, zsum_cons. unfold free_overlap at 1, area_in. specialize (IH _ Hc ltac:(lia)).
  destruct (peg_lvseg g); [done|]. rewrite overlap_pe_spec by lia. destruct (Z.ltb_spec (Z.max (peg_pe g) (per_start per)) (Z.min (peg_pe g + peg_len g) (per_start per + per_count per))).
  - rewrite total_cons. cbn [va_count]. rewrite IH. lia.
  - rewrite IH. lia.
Qed.

(** The extents of the areas are the free ones in the range. *)
Lemma areas_in_extents per lo l hi x : covers lo l hi -> ((exists a, a ∈ areas_in per l /\ in_area x a) <-> lo <= x < hi /\ owner l x = None /\ in_pe_range x per).
Proof.
  unfold in_area, in_pe_range. revert lo. induction l as [|g l IH]; intros lo Hc.
  { cbn in Hc. subst hi. split; [intros (a & Ha & _); by apply not_elem_of_nil in Ha|lia]. }
  cbn [covers] in Hc. destruct Hc as (Hpe & Hlen & Hc). pose proof (covers_le _ _ _ Hc). specialize (IH _ Hc). cbn [owner].
  assert ((exists a, a ∈ areas_in per (g :: l) /\ va_start a <= x < va_start a + va_count a) <->
    (exists a, area_in per g = Some a /\ va_start a <= x < va_start a + va_count a) \/ (exists a, a ∈ areas_in per l /\ va_start a <= x < va_start a + va_count a)) as ->.
  { rewrite areas_in_cons. destruct (area_in per g) as [a|]; [|naive_solver]. setoid_rewrite elem_of_cons. naive_solver. }
  rewrite IH. clear IH. unfold area_in. destruct (Z.leb_spec (peg_pe g) x), (Z.ltb_spec x (peg_pe g + peg_len g)); cbn [andb].
  - destruct (peg_lvseg g); [naive_solver lia|]. destruct (Z.ltb_spec (Z.max (peg_pe g) (per_start per)) (Z.min (peg_pe g + peg_len g) (per_start per + per_count per))).
    + split; [intros [(a & [= <-] & Ha)|Ha]; [cbn in Ha; repeat split; lia|lia]|]. intros (_ & _ & Hx). left. eexists. split; [done|]. cbn. lia.
    + split; [intros [(a & [=] & _)|Ha]; lia|]. lia.
  - split; [|intros (K1 & K2 & K3); right; repeat split; [lia|lia|done|lia|lia]]. intros [(a & Ha & Hx)|Ha]; [|destruct Ha as (K1 & K2 & K3); repeat split; [lia|lia|done|lia|lia]].
    destruct (peg_lvseg g); [done|]. destruct (_ <? _); [|done]. injection Ha as <-. cbn in Hx. lia.
  - split; [|intros (K1 & _); lia]. intros [(a & Ha & Hx)|Ha]; [|lia]. destruct (peg_lvseg g); [done|]. destruct (_ <? _); [|done]. injection Ha as <-. cbn in Hx. lia.
  - lia.
Qed.

(** ** The areas that are created *)

(** Nothing but memory is used, and it lasts. *)
Definition ticked (s s' : store) : Prop :=
  s' = Store (st_pegs s) (st_pvs s) (st_segs s) (st_lvs s) (st_vgs s) (st_next s) (st_alloc s') (st_discards s) /\ false ∉ st_alloc s'.

Lemma ticked_refl s : false ∉ st_alloc s -> ticked s s.
Proof. by destruct s. Qed.

Lemma ticked_trans s t u : ticked s t -> ticked t u -> ticked s u.
Proof. intros [-> _] [-> H]. by split. Qed.

Lemma ticked_view s s' p v l : ticked s s' -> PvSegs.view s p v l -> PvSegs.view s' p v l.
Proof. by intros [-> _]. Qed.

Lemma alloc_mem_ok {B} (f : bool -> M B) s : false ∉ st_alloc s -> (alloc_mem ≫= f) s = f true (alloc_tick s) /\ ticked s (alloc_tick s).
Proof.
  intros Hs. assert (alloc_ok s = true) as E by (unfold alloc_ok; destruct (st_alloc s) as [|[] ?]; [done|done|]; set_solver). split; [unfold alloc_mem, mbind, M_bind; by rewrite E|].
  split; [done|]. cbn. destruct (st_alloc s); [done|cbn; set_solver].
Qed.

(** What a map has gained. *)
Definition gained (m m' : pv_map) (areas : list pv_area) : Prop := pm_pv m' = pm_pv m /\ map_ok m' /\ pm_areas m' ≡ₚ areas ++ pm_areas m.

Lemma gained_refl m : map_ok m -> gained m m [].
Proof. done. Qed.

Lemma gained_trans m1 m2 m3 l k : gained m1 m2 l -> gained m2 m3 k -> gained m1 m3 (l ++ k).
Proof. intros (E1 & _ & P1) (E2 & H & P2). split; [congruence|]. split; [done|]. rewrite P2, P1. by rewrite (app_assoc k), (Permutation_app_comm k). Qed.

Section range.
Context (per : pe_range) (n : Z) (Hper : range_ok per) (Hn : n < 2 ^ 32).
Let e : Z := Z.min (per_start per + per_count per) n - 1.

(** Behind the range there is nothing. *)
Lemma areas_in_behind lo l : covers lo l n -> e < Z.max lo (per_start per) -> areas_in per l = [].
Proof.
  unfold e. revert lo. induction l as [|g l IH]; intros lo Hc He; [done|]. cbn [covers] in Hc. destruct Hc as (Hpe & Hlen & Hc). pose proof (covers_le _ _ _ Hc). rewrite areas_in_cons, (IH _ Hc) by lia.
  unfold area_in. destruct (peg_lvseg g); [done|]. destruct (Z.ltb_spec (Z.max (peg_pe g) (per_start per)) (Z.min (peg_pe g + peg_len g) (per_start per + per_count per))); [lia|done].
Qed.

Lemma alloc_areas_loop_spec (l : list (nat * pv_segment)) : forall lo m s, Forall (fun q => st_pegs s !! q.1 = Some q.2) l -> covers lo l.*2 n -> 0 <= lo -> map_ok m -> false ∉ st_alloc s ->
  exists m' s', alloc_areas_loop l.*1 (Z.max lo (per_start per)) e m s = Some ((true, m'), s') /\ ticked s s' /\ gained m m' (areas_in per l.*2).
Proof.
  destruct Hper as (R1 & R2 & R3). induction l as [|[q g] l IH]; intros lo m s Hl Hc Hlo Hm Hs.
  { exists m, s. split; [done|]. split; [by apply ticked_refl|by apply gained_refl]. }
  change (((q, g) :: l).*2) with (g :: l.*2) in *. change (((q, g) :: l).*1) with (q :: l.*1). cbn [alloc_areas_loop]. destruct (Z.ltb_spec e (Z.max lo (per_start per))) as [He|He].
  { rewrite (areas_in_behind lo) by done. exists m, s. split; [done|]. split; [by apply ticked_refl|by apply gained_refl]. }
  cbn [covers] in Hc. destruct Hc as (Hpe & Hlen & Hc). pose proof (covers_le _ _ _ Hc). apply Forall_cons in Hl as [Hq Hl]. cbn [fst snd] in Hq. mstep. rewrite areas_in_cons. subst lo. rewrite (wrap32_small (peg_pe g + peg_len g - 1)) by lia.
  assert (e = Z.min (per_start per + per_count per) n - 1) as Ee by done. destruct (Z.ltb_spec (peg_pe g + peg_len g - 1) (Z.max (peg_pe g) (per_start per))) as [Hskip|Hin].
  { assert (area_in per g = None) as -> by (unfold area_in; destruct (peg_lvseg g); [done|]; by rewrite (proj2 (Z.ltb_ge _ _)) by lia).
    replace (Z.max (peg_pe g) (per_start per)) with (Z.max (peg_pe g + peg_len g) (per_start per)) by lia. apply IH; [done|done|lia|done|done]. }
  rewrite (wrap32_small (peg_pe g + peg_len g)) by lia. assert (Z.max (peg_pe g + peg_len g) (per_start per) = peg_pe g + peg_len g) as Emax by lia. unfold area_in. destruct (peg_lvseg g).
  { rewrite <- Emax. apply IH; [done|done|lia|done|done]. }
  set (lo := Z.max (peg_pe g) (per_start per)) in *. set (hi := Z.min (peg_pe g + peg_len g) (per_start per + per_count per)). assert (lo < hi) as Hlt by lia. rewrite (proj2 (Z.ltb_lt _ _) Hlt).
  assert ((if peg_pe g + peg_len g - 1 <=? e then wrap32 (peg_len g - wrap32 (lo - peg_pe g)) else wrap32 (e - lo + 1)) = hi - lo) as ->
    by (destruct (Z.leb_spec (peg_pe g + peg_len g - 1) e); rewrite ?(wrap32_small (lo - peg_pe g)) by lia; rewrite wrap32_small by lia; lia).
  destruct (insert_area_ok lo (hi - lo) m Hm) as [Hm1 Hp1]; [lia|lia|lia|]. set (m1 := insert_area _ false m) in *.
  destruct (alloc_mem_ok (fun ok : bool => if negb ok then mret (false, m) else mret (true, m1) : M (bool * pv_map)) s Hs) as [Ealloc Ht]. unfold create_single_area. fold m1. erewrite bind_exec by exact Ealloc. cbn [negb].
  destruct (IH (peg_pe g + peg_len g) m1 (alloc_tick s)) as (m' & s' & E & Ht' & Hg); [done|done|lia|done|apply Ht|].
  exists m', s'. split; [by rewrite Emax in E|]. split; [by apply (ticked_trans s (alloc_tick s))|]. apply (gained_trans m m1 m' [PvArea lo (hi - lo) (hi - lo)]); [|done]. done.
Qed.

(** A range of a PV; an empty one is not allowed unless the PV is empty too. *)
Lemma create_alloc_areas_spec s p v l m : PvSegs.view s p v l -> covers 0 l.*2 n -> pv_pe_count v = n -> 0 < per_count per \/ n = 0 -> pm_pv m = p -> map_ok m -> false ∉ st_alloc s ->
  exists m' s', create_alloc_areas_for_pv m (per_start per) (per_count per) s = Some ((true, m'), s') /\ ticked s s' /\ gained m m' (areas_in per l.*2).
Proof.
  intros (Hv & Hl & Hg) Hc Hcount Hpos Hp Hm Hs. unfold create_alloc_areas_for_pv. rewrite Hp. mstep. rewrite Hl, Hcount. destruct Hper as (R1 & R2 & R3). destruct (decide (n = 0)) as [Hz|Hnz].
  { assert (l = []) as -> by (destruct l as [|[q g] l]; [done|]; cbn in Hc; destruct Hc as (? & ? & Hc); pose proof (covers_le _ _ _ Hc); lia). exists m, s. split; [done|]. split; [by apply ticked_refl|by apply gained_refl]. }
  pose proof (covers_le _ _ _ Hc). rewrite !(wrap32_small (_ - 1)) by lia. destruct (alloc_areas_loop_spec l 0 m s) as (m' & s' & E & Ht & Hga); [done|done|lia|done|done|].
  exists m', s'. split; [|done]. rewrite <- E. f_equal; [lia|]. unfold e. destruct (Z.ltb_spec (n - 1) (per_start per + per_count per - 1)); lia.
Qed.

End range.

(** ** The maps of a list of PVs *)

(** The ranges of a PV with [n] extents. *)
Definition ranges_of (n : Z) (pe_ranges : option (list pe_range)) : list pe_range := default [PeRange 0 n] pe_ranges.
Definition range_given (n : Z) (per : pe_range) : Prop := range_ok per /\ (0 < per_count per \/ n = 0).
Definition pv_areas (l : list (nat * pv_segment)) (pers : list pe_range) : list pv_area := concat (map (fun per => areas_in per l.*2) pers).

Lemma all_areas_spec n p v l (pers : list pe_range) : covers 0 l.*2 n -> n < 2 ^ 32 -> pv_pe_count v = n -> Forall (range_given n) pers -> forall m s,
  PvSegs.view s p v l -> pm_pv m = p -> map_ok m -> false ∉ st_alloc s ->
  exists m' s', all_areas_loop m pers s = Some ((true, m'), s') /\ ticked s s' /\ gained m m' (pv_areas l pers).
Proof.
  intros Hc Hn Hv Hpers. induction Hpers as [|per pers [Hper Hpos] _ IH]; intros m s Hview Hp Hm Hs.
  { exists m, s. split; [done|]. split; [by apply ticked_refl|by apply gained_refl]. }
  destruct (create_alloc_areas_spec per n Hper Hn s p v l m) as (m1 & s1 & E1 & T1 & G1); [done..|]. pose proof G1 as (P1 & O1 & _).
  destruct (IH m1 s1) as (m2 & s2 & E2 & T2 & G2); [by apply (ticked_view s)|congruence|done|apply T1|].
  exists m2, s2. split; [|split; [by apply (ticked_trans s s1)|by apply (gained_trans m m1)]]. cbn [all_areas_loop]. erewrite bind_exec by exact E1. exact E2.
Qed.

Lemma create_all_areas_spec s p v l m pe_ranges : PvSegs.view s p v l -> covers 0 l.*2 (pv_pe_count v) -> pv_pe_count v < 2 ^ 32 -> Forall (range_given (pv_pe_count v)) (ranges_of (pv_pe_count v) pe_ranges) ->
  pm_pv m = p -> map_ok m -> false ∉ st_alloc s ->
  exists m' s', create_all_areas_for_pv m pe_ranges s = Some ((true, m'), s') /\ ticked s s' /\ gained m m' (pv_areas l (ranges_of (pv_pe_count v) pe_ranges)).
Proof.
  intros Hview Hc Hn Hr Hp Hm Hs. destruct pe_ranges as [pers|]; [by apply (all_areas_spec (pv_pe_count v) p v l pers)|]. cbn [ranges_of default] in *. apply Forall_cons in Hr as [[Hper Hpos] _].
  destruct (create_alloc_areas_spec _ _ Hper Hn s p v l m) as (m1 & s1 & E1 & T1 & G1); [done..|]. exists m1, s1. unfold create_all_areas_for_pv. destruct Hview as (Hv & _ & _). rewrite Hp. mstep. split; [exact E1|]. split; [done|].
  unfold pv_areas. cbn [map concat]. by rewrite app_nil_r.
Qed.

(** The number of extents and the extents of the areas. *)
Lemma pv_areas_total l n pers : covers 0 l.*2 n -> n < 2 ^ 32 -> Forall range_ok pers -> total (pv_areas l pers) = free_in_ranges l n pers.
Proof.
  intros Hc Hn Hr. unfold pv_areas, free_in_ranges. induction Hr as [|per pers Hper _ IH]; [done|]. cbn [map concat]. rewrite total_app, zsum_cons, IH. f_equal. destruct Hper as (R1 & R2 & R3).
  rewrite (areas_in_total per 0 _ n) by done. rewrite (free_overlap_sum 0 _ n) by (done || lia). f_equal. lia.
Qed.

Lemma pv_areas_extents l n pers x : covers 0 l.*2 n -> (exists a, a ∈ pv_areas l pers /\ in_area x a) <-> 0 <= x < n /\ owner l.*2 x = None /\ exists per, per ∈ pers /\ in_pe_range x per.
Proof.
  intros Hc. unfold pv_areas. induction pers as [|per pers IH]; cbn [map concat].
  - split; [intros (a & Ha & _); by apply not_elem_of_nil in Ha|]. intros (_ & _ & per & Hin & _). by apply not_elem_of_nil in Hin.
  - pose proof (areas_in_extents per 0 l.*2 n x Hc) as Hper. split.
    + intros (a & [Ha|Ha]%elem_of_app & Hx).
      * destruct (proj1 Hper (ex_intro _ a (conj Ha Hx))) as (H1 & H2 & H3). split; [done|]. split; [done|]. exists per. split; [apply list_elem_of_here|done].
      * destruct (proj1 IH (ex_intro _ a (conj Ha Hx))) as (H1 & H2 & per' & Hin & H3). split; [done|]. split; [done|]. exists per'. split; [by apply list_elem_of_further|done].
    + intros (H1 & H2 & per' & Hin & H3). apply elem_of_cons in Hin as [-> |Hin].
      * destruct (proj2 Hper) as (a & Ha & Hx); [done|]. exists a. split; [|done]. apply elem_of_app. by left.
      * destruct (proj2 IH) as (a & Ha & Hx); [split; [done|]; split; [done|]; by exists per'|]. exists a. split; [|done]. apply elem_of_app. by right.
Qed.

(** A PV, its segments and the ranges asked for. *)
Abbreviation pv_ask := (pv_rec * option (list pe_range))%type.

(** A PV that extents may be allocated on. *)
Definition usable (r : pv_ask) : bool := flag (pv_status r.1.1.2) ALLOCATABLE_PV && negb (is_missing_pv r.1.1.2).

Record ask_ok (s : store) (r : pv_ask) : Prop := {
  as_view : PvSegs.view s r.1.1.1 r.1.1.2 r.1.2;
  as_covers : covers 0 r.1.2.*2 (pv_pe_count r.1.1.2);
  as_count : pv_pe_count r.1.1.2 < 2 ^ 32;
  as_ranges : Forall (range_given (pv_pe_count r.1.1.2)) (ranges_of (pv_pe_count r.1.1.2) r.2);
  as_dev : is_Some (pa_dev (pv_attrs_of r.1.1.2)) }.

Definition dev_of (r : pv_ask) : option (list Z) := pa_dev (pv_attrs_of r.1.1.2).

(** The map that is made for a PV. *)
Definition made (r : pv_ask) (m : pv_map) : Prop := pm_pv m = r.1.1.1 /\ map_ok m /\ pm_areas m ≡ₚ pv_areas r.1.2 (ranges_of (pv_pe_count r.1.1.2) r.2).

(** The maps there are belong to other devices. *)
Definition other_dev (s : store) (dev : option (list Z)) (m : pv_map) : Prop := exists v, st_pvs s !! pm_pv m = Some v /\ pa_dev (pv_attrs_of v) <> dev.

Lemma find_map_none s dev pvms : Forall (other_dev s (Some dev)) pvms -> find_map dev pvms s = Some (None, s).
Proof. induction 1 as [|m pvms (v & Hv & Hne) _ IH]; [done|]. cbn [find_map]. mstep. rewrite bool_decide_eq_false_2 by done. by erewrite bind_exec by exact IH. Qed.

Lemma map_ok_empty pv : map_ok (PvMap pv [] 0).
Proof. split; cbn; [constructor|constructor|done]. Qed.

(** A new map at the end of the list. *)
Lemma create_map_spec s r pvs pvms : usable r = true -> ask_ok s r -> Forall (other_dev s (dev_of r)) pvms -> false ∉ st_alloc s ->
  exists m s', create_maps ((r.1.1.1, r.2) :: pvs) pvms s = create_maps pvs (pvms ++ [m]) s' /\ ticked s s' /\ made r m.
Proof.
  intros Hu Hok Hother Hs. destruct r as [[[p v] l] rg]. destruct Hok as [Hview Hc Hn Hr [dev Hdev]]. unfold usable, dev_of in *. cbn [fst snd] in *. pose proof Hview as (Hv & _ & _). cbn [create_maps]. mstep. apply andb_true_iff in Hu as [-> Hm]. apply negb_true_iff in Hm. rewrite Hm, Hdev. cbn [negb orb].
  erewrite bind_exec by reflexivity. rewrite Hdev in Hother. erewrite bind_exec by (by apply find_map_none). destruct (alloc_mem_ok (fun ok : bool => mret (ok, length pvms, if ok : bool then pvms ++ [PvMap p [] 0] else pvms) : M (bool * nat * list pv_map)) s Hs) as [Ea T1].
  erewrite bind_exec by exact Ea. cbn [negb]. rewrite list_lookup_middle by done. erewrite bind_exec by reflexivity.
  destruct (create_all_areas_spec (alloc_tick s) p v l (PvMap p [] 0) rg) as (m & s' & E & T2 & (P & O & A)); [by apply (ticked_view s)|done|done|done|done|apply map_ok_empty|apply T1|].
  erewrite bind_exec by exact E. cbn [negb]. rewrite insert_app_r_alt, Nat.sub_diag by done. exists m, s'. split; [done|]. split; [by apply (ticked_trans s (alloc_tick s))|]. split; [done|]. split; [done|]. cbn in *. by rewrite A, app_nil_r.
Qed.

Lemma create_maps_spec (rs : list pv_ask) : forall pvms s,
  Forall (fun r => st_pvs s !! r.1.1.1 = Some r.1.1.2) rs -> Forall (fun r => usable r = true -> ask_ok s r) rs -> NoDup (dev_of <$> filter (fun r => usable r = true) rs) ->
  Forall (fun r => usable r = true -> Forall (other_dev s (dev_of r)) pvms) rs -> false ∉ st_alloc s ->
  exists new s', create_maps (map (fun r => (r.1.1.1, r.2)) rs) pvms s = Some ((true, pvms ++ new), s') /\ ticked s s' /\ Forall2 made (filter (fun r => usable r = true) rs) new.
Proof.
  induction rs as [|r rs IH]; intros pvms s Hpv Hok Hnd Hother Hs.
  { exists [], s. split; [by rewrite app_nil_r|]. split; [by apply ticked_refl|done]. }
  apply Forall_cons in Hpv as [Hp Hpv]. apply Forall_cons in Hok as [Hr Hok]. apply Forall_cons in Hother as [Ho Hother]. destruct (usable r) eqn:Hu.
  - rewrite filter_cons_True in * by done. rewrite fmap_cons in Hnd. apply NoDup_cons in Hnd as [Hnew Hnd]. destruct (create_map_spec s r (map (fun r => (r.1.1.1, r.2)) rs) pvms Hu (Hr eq_refl) (Ho eq_refl) Hs) as (m & s1 & E1 & T1 & M1).
    destruct (IH (pvms ++ [m]) s1) as (new & s2 & E2 & T2 & F2); [by destruct T1 as [-> _]| |done| |apply T1|].
    + eapply Forall_impl; [exact Hok|]. intros r' H Hu'. destruct (H Hu') as [H1 H2 H3 H4 H5]. split; [by apply (ticked_view s)|done..].
    + rewrite Forall_forall in *. intros r' Hin Hu'. rewrite Forall_app. split; [|constructor; [|constructor]].
      * eapply Forall_impl; [by apply (Hother r' Hin Hu')|]. intros m' (v & Hv & Hne). exists v. by destruct T1 as [-> _].
      * exists r.1.1.2. destruct M1 as (-> & _ & _). split; [by destruct T1 as [-> _]|]. intros E. apply Hnew. apply list_elem_of_fmap. exists r'. split; [done|]. by apply list_elem_of_filter.
    + exists (m :: new), s2. split; [cbn [map]; rewrite E1, E2; by rewrite <- app_assoc|]. split; [by apply (ticked_trans s s1)|by constructor].
  - rewrite filter_cons_False in * by congruence. destruct (IH pvms s) as (new & s2 & E2 & T2 & F2); [done..|]. exists new, s2. split; [|done]. cbn [map create_maps]. erewrite bind_get by exact Hp. unfold usable in Hu.
    assert (negb (flag (pv_status r.1.1.2) ALLOCATABLE_PV) || is_missing_pv r.1.1.2 = true) as -> by (apply andb_false_iff in Hu as [-> |Hm]; [done|]; apply negb_false_iff in Hm; by rewrite Hm, orb_true_r). exact E2.
Qed.

Lemma foldl_counts (l : list pv_map) : forall acc, is_u32 acc -> Forall map_ok l -> foldl (fun c m => wrap32 (c + pm_pe_count m)) acc l = wrap32 (acc + zsum (map (fun m => total (pm_areas m)) l)).
Proof.
  induction l as [|m l IH]; intros acc Ha Hl; cbn [foldl map]; [by rewrite Z.add_0_r, wrap32_small|]. apply Forall_cons in Hl as [Hm Hl]. rewrite IH by (done || apply wrap32_range).
  rewrite zsum_cons, (mo_count _ Hm), wrap32_add_r, wrap32_add_l. f_equal. lia.
Qed.

(** What a map of a PV is good for. *)
Record lists_free (r : pv_ask) (m : pv_map) : Prop := {
  lf_pv : pm_pv m = r.1.1.1;
  lf_ok : map_ok m;
  lf_extents x : (exists a, a ∈ pm_areas m /\ in_area x a) <->
    0 <= x < pv_pe_count r.1.1.2 /\ owner r.1.2.*2 x = None /\ exists per, per ∈ ranges_of (pv_pe_count r.1.1.2) r.2 /\ in_pe_range x per;
  lf_total : total (pm_areas m) = free_in_ranges r.1.2 (pv_pe_count r.1.1.2) (ranges_of (pv_pe_count r.1.1.2) r.2) }.

Lemma made_lists_free s r m : ask_ok s r -> made r m -> lists_free r m.
Proof.
  intros [H1 H2 H3 H4 H5] (P & O & A). split; [done|done| |].
  - intros x. rewrite <- (pv_areas_extents _ _ _ x H2). by setoid_rewrite A.
  - rewrite A. apply pv_areas_total; [done|done|]. eapply Forall_impl; [exact H4|]. by intros per [? _].
Qed.

(** C32: when memory lasts, every PV that may be allocated from has a map; its areas are
    the free extents in the ranges asked for, the largest area first, and together the
    maps have so many extents as [pv_list_extents_free] counts. *)
Theorem create_pv_maps_lists_free s (rs : list pv_ask) :
  Forall (fun r => st_pvs s !! r.1.1.1 = Some r.1.1.2) rs -> Forall (fun r => usable r = true -> ask_ok s r) rs -> NoDup (dev_of <$> filter (fun r => usable r = true) rs) -> false ∉ st_alloc s ->
  exists pvms s', create_pv_maps (map (fun r => (r.1.1.1, r.2)) rs) s = Some (Some pvms, s') /\ ticked s s' /\ Forall2 lists_free (filter (fun r => usable r = true) rs) pvms /\
    (zsum (map (fun m => total (pm_areas m)) pvms) < 2 ^ 32 ->
     pv_list_extents_free (map (fun r => (r.1.1.1, ranges_of (pv_pe_count r.1.1.2) r.2)) (filter (fun r => usable r = true) rs)) s = Some (pv_maps_size pvms, s)).
Proof.
  intros Hpv Hok Hnd Hs. unfold create_pv_maps. destruct (alloc_mem_ok (fun ok : bool => if negb ok then mret None else '(ok, pvms) ← create_maps (map (fun r => (r.1.1.1, r.2)) rs) []; mret (if ok : bool then Some pvms else None)) s Hs) as [-> T1].
  cbn [negb]. destruct (create_maps_spec rs [] (alloc_tick s)) as (pvms & s' & E & T2 & F); [done| |done|apply Forall_forall; intros r _ _; constructor|apply T1|].
  { eapply Forall_impl; [exact Hok|]. intros r' H Hu'. destruct (H Hu') as [H1 H2 H3 H4 H5]. split; [by apply (ticked_view s)|done..]. }
  assert (Forall (ask_ok s) (filter (fun r => usable r = true) rs)) as Hall by (apply Forall_forall; intros r [Hu Hr]%list_elem_of_filter; rewrite Forall_forall in Hok; by apply Hok).
  assert (Forall2 lists_free (filter (fun r => usable r = true) rs) pvms) as HF by (clear -F Hall; induction F; [constructor|]; apply Forall_cons in Hall as [H0 Hall]; constructor; [by apply (made_lists_free s)|by apply IHF]).
  exists pvms, s'. erewrite bind_exec by exact E. split; [done|]. split; [by apply (ticked_trans s (alloc_tick s))|]. split; [done|]. intros Hsum.
  assert (map (fun m => total (pm_areas m)) pvms = map (fun r : pv_ask => free_in_ranges r.1.2 (pv_pe_count r.1.1.2) (ranges_of (pv_pe_count r.1.1.2) r.2)) (filter (fun r => usable r = true) rs)) as Etot by (clear -HF; induction HF as [|r m ? ? H]; cbn; [done|]; by rewrite (lf_total _ _ H), IHHF).
  unfold pv_maps_size. rewrite foldl_counts; [|by split|by clear -HF; induction HF as [|r m ? ? H]; constructor; [apply (lf_ok _ _ H)|]]. rewrite wrap32_small.
  - rewrite Etot in *. pose proof (free_pvs_loop_spec s (map (fun r : pv_ask => (r.1, ranges_of (pv_pe_count r.1.1.2) r.2)) (filter (fun r => usable r = true) rs)) 0) as Hspec. rewrite !map_map in Hspec. cbn [fst snd] in Hspec. apply Hspec; [|lia|lia].
    rewrite Forall_map. eapply Forall_impl; [exact Hall|]. intros r [H1 H2 H3 H4 H5]. cbn. repeat (split; [done|]). eapply Forall_impl; [exact H4|]. by intros per [? _].
  - split; [|lia]. rewrite Etot. apply (zsum_nonneg (map _ _)), Forall_map, Forall_forall. intros r _. apply free_in_ranges_nonneg.
Qed.

(** A PV with extents 4 to 9 free, and ranges of it. *)
Definition map_pegs : list (nat * pv_segment) := [(1%nat, PvSegment (Some 1%nat) 0 4 (Some 1%nat) 0); (2%nat, PvSegment (Some 1%nat) 4 6 None 0)].
Definition map_pv : physical_volume := PhysicalVolume (Some 1%nat) ALLOCATABLE_PV 100 8 2 10 4 [1; 2]%nat (PvAttrs [] (Some [47; 97]) [] [] false 0 []).
Definition map_store : store := Store (list_to_map map_pegs) {[1%nat := map_pv]} ∅ ∅ ∅ 3 [] [].
Definition map_asks : list pv_ask := [((1%nat, map_pv, map_pegs), Some [PeRange 2 4; PeRange 7 100])].

Lemma map_ask_ok : Forall (fun r => usable r = true -> ask_ok map_store r) map_asks.
Proof.
  constructor; [|constructor]. intros _. split; [|done|done| |by eexists].
  - split; [done|]. split; [done|]. constructor; [done|]. constructor; [done|constructor].
  - constructor; [split; [done|by left]|]. constructor; [split; [done|by left]|constructor].
Qed.

Lemma create_pv_maps_lists_free_witness : exists pvms s', create_pv_maps [(1%nat, Some [PeRange 2 4; PeRange 7 100])] map_store = Some (Some pvms, s') /\ Forall2 lists_free map_asks pvms /\
  pvms = [PvMap 1 [PvArea 7 3 3; PvArea 4 2 2] 5].
Proof.
  destruct (create_pv_maps_lists_free map_store map_asks) as (pvms & s' & E & _ & F & _).
  - constructor; [reflexivity|constructor].
  - exact map_ask_ok.
  - apply NoDup_singleton.
  - apply not_elem_of_nil.
  - exists pvms, s'. split; [exact E|]. split; [exact F|]. assert (create_pv_maps [(1%nat, Some [PeRange 2 4; PeRange 7 100])] map_store = Some (Some [PvMap 1 [PvArea 7 3 3; PvArea 4 2 2] 5], map_store)) as E' by (vm_compute; reflexivity).
    cbn [map map_asks fst snd] in E. rewrite E' in E. injection E as <- _. reflexivity.
Defined.

(** ** Using areas *)

(** What is left of an area when [to_go] extents of it are used. *)
Definition rest_of (a : pv_area) (to_go : Z) : list pv_area :=
  if to_go <? va_count a then [PvArea (va_start a + to_go) (va_count a - to_go) (va_count a - to_go)] else [].

Lemma map_ok_delete m i a : map_ok m -> pm_areas m !! i = Some a -> map_ok (remove_area i a m) /\ pm_areas m ≡ₚ a :: delete i (pm_areas m).
Proof.
  intros [H1 H2 H3] Hi. pose proof (delete_Permutation _ _ _ Hi) as Hp. split; [|done]. split; cbn [remove_area pm_areas pm_pe_count].
  - pose proof (take_drop_middle _ _ _ Hi) as E. rewrite delete_take_drop. rewrite <- E in H1. clear -H1. induction (take i (pm_areas m)) as [|x l IH]; cbn in *; [by apply StronglySorted_inv in H1 as [H1 _]|].
    apply StronglySorted_inv in H1 as [H1 Hx]. constructor; [by apply IH|]. apply Forall_app in Hx as [Hx Hy]. apply Forall_cons in Hy as [_ Hy]. by apply Forall_app.
  - rewrite Hp in H2. by apply Forall_cons in H2 as [_ H2].
  - rewrite H3, wrap32_sub_l. f_equal. pose proof (total_perm _ _ Hp) as E. rewrite total_cons in E. lia.
Qed.

(** Extents are taken from the beginning of an area: the rest of it takes its place in
    the list by its size, and the map has so many extents less. *)
Theorem consume_pv_area_keeps m i a to_go : map_ok m -> pm_areas m !! i = Some a -> 0 <= to_go <= va_count a ->
  exists m', consume_pv_area i to_go m = Some m' /\ map_ok m' /\ pm_pv m' = pm_pv m /\ pm_areas m' ≡ₚ rest_of a to_go ++ delete i (pm_areas m) /\ total (pm_areas m') = total (pm_areas m) - to_go.
Proof.
  intros Hm Hi Ht. destruct (map_ok_delete m i a Hm Hi) as [Hm1 Hp]. pose proof (total_perm _ _ Hp) as Et. rewrite total_cons in Et. destruct Hm as [_ H2 _]. rewrite Forall_forall in H2. destruct (H2 a) as (Hc & Hs & He & _); [by apply (list_elem_of_lookup_2 _ i)|].
  unfold consume_pv_area. rewrite Hi. cbn [mbind option_bind]. rewrite (proj2 (Z.ltb_ge _ _)) by lia. unfold rest_of. destruct (Z.ltb_spec to_go (va_count a)).
  - rewrite !wrap32_small by lia. destruct (insert_area_ok (va_start a + to_go) (va_count a - to_go) (remove_area i a m) Hm1) as [Hm2 Hp2]; [lia..|]. eexists. split; [done|]. split; [done|]. split; [done|]. split; [done|].
    rewrite (total_perm _ _ Hp2), total_cons. cbn [va_count remove_area pm_areas]. lia.
  - eexists. split; [done|]. split; [done|]. split; [done|]. split; [done|]. cbn [remove_area pm_areas]. lia.
Qed.

Lemma consume_pv_area_keeps_witness : exists m', consume_pv_area 0 2 (PvMap 1 [PvArea 7 3 3; PvArea 4 2 2] 5) = Some m' /\ map_ok m' /\ m' = PvMap 1 [PvArea 4 2 2; PvArea 9 1 1] 3.
Proof.
  destruct (consume_pv_area_keeps (PvMap 1 [PvArea 7 3 3; PvArea 4 2 2] 5) 0 (PvArea 7 3 3) 2) as (m' & E & O & _).
  - split; cbn; [constructor; [constructor; [constructor|constructor]|constructor; [unfold larger; cbn; lia|constructor]]|constructor; [cbn; lia|constructor; [cbn; lia|constructor]]|reflexivity].
  - reflexivity.
  - cbn. lia.
  - exists m'. split; [exact E|]. split; [exact O|]. vm_compute in E. injection E as <-. reflexivity.
Defined.

(** An area that is put back after a reservation is compared by what is left of it with
    the full sizes of the others: here the first area has less left than the second. *)
Lemma reinserted_out_of_order :
  (m ← reinsert_changed_pv_area 0 (PvMap 1 [PvArea 0 10 3; PvArea 20 8 8] 18);
   reinsert_changed_pv_area 0 (PvMap 1 ((fun a => if va_start a =? 20 then PvArea 20 8 5 else a) <$> pm_areas m) (pm_pe_count m))) = Some (PvMap 1 [PvArea 0 10 3; PvArea 20 8 5] 18).
Proof. reflexivity. Qed.

(** An empty range that begins at the first extent is taken for the whole PV. *)
Lemma empty_range_is_all : create_pv_maps [(1%nat, Some [PeRange 0 0])] map_store = Some (Some [PvMap 1 [PvArea 4 6 6] 6], map_store).
Proof. vm_compute. reflexivity. Qed.
